(* ===== verification/_CoqProject ===== *)
-Q . S2P
Prelude.v
Tlsf.v
TlsfLists.v
TlsfBlocks.v
HeapInv.v
HeapAlloc.v
HeapPlace.v
HeapCarve.v
HeapSpec.v
HeapSystem.v
HeapTheorems.v
Pipe.v
PipeTheorems.v
Frame.v
FrameTheorems.v
Thread.v
ReadyQueue.v
Sched.v
SchedInv.v
SchedOps.v
SchedTheorems.v
WaitTheorems.v
SlotPool.v
Bytes.v
Patch.v
PageCodec.v
PageCodecTheorems.v
FileCodec.v
FileCodecTheorems.v
Ipv4.v
TcpSegment.v
Fragments.v
FragmentsTheorems.v
NatTable.v
NatChecksum.v
NatTheorems.v
Poly1305.v
ChaCha20.v
Sha256.v
Crc.v
Aes.v
AesModes.v
Fe25519.v
X25519.v
Limbs.v
Rsa.v
RsaMont.v
RsaTheorems.v
RsaVerify.v
BlockDevice.v
CryptDevice.v
BlockCache.v
BlockCacheInv.v
BlockCacheOps.v
BlockCacheFlush.v
BlockCacheTheorems.v
BlockRuns.v
Swap.v
SwapTheorems.v
PageTable.v
PageTableTheorems.v
MemManager.v
MemFault.v
MemSave.v
MemReclaim.v
MemFaultTheorems.v
MemMachine.v
MemLosses.v
MemSyscalls.v
MemSyscallTheorems.v
Unicode.v
SfsFormat.v
SfsFormatTheorems.v
SfsTree.v
SfsState.v
SfsStateTheorems.v
SfsCommit.v
SfsCrash.v
SfsCommitTheorems.v
SfsPowerCut.v
