(* ===== verification/Prelude.v ===== *)
(** * A verification library for the Protofire kernel

    The kernel is a Rust operating system kernel; its sources are under
    [src/src/].  This library models parts of it as Rocq functions and proves
    what makes them correct.  Pure functions become functions, code that panics
    or loops answers an [outcome] ([Ret], [Panic], [NoFuel]), fallible code a
    [result] ([Ok], [Err] with the kernel's errors), shared state is passed
    explicitly, and concurrent code is a relation or a function on interleaved
    steps.  Machine integers are [Z] with their wrap-around, saturation or
    overflow check written out.  File names below are relative to [src/src/].

    ** The parts and the files that model them

    - Memory.  The kernel heap ([memory/heap/tlsf.rs], [allocator.rs]) is a TLSF
      allocator: [Tlsf] has the byte memory, the headers, the bitmaps and the
      segregated lists, [HeapAlloc] the allocator's entry points.  [TlsfLists]
      and [TlsfBlocks] relate the memory to lists of free and of physical blocks,
      [HeapInv] states the invariant, [HeapPlace] and [HeapCarve] follow an
      allocation, [HeapSpec] gives each operation its specification, [HeapSystem]
      lets callers allocate, write and free, [HeapTheorems] concludes.  The frame
      allocator ([memory/frame.rs]) is [Frame] and [FrameTheorems]; it hands whole
      frames to the memory manager.  [PageTable] and [PageTableTheorems] are the
      software page table ([memory/paging.rs]), one table of mappings owned by
      address spaces.  [MemManager] is the manager's stores and reclaiming
      ([memory/manager/swap.rs], [mapping.rs]), [MemFault] its fault handler,
      registration and relocation ([pfault.rs], [mapping.rs], [compact.rs]), over
      two interfaces with laws: the hardware's tables and the frame pool.
      [MemSave], [MemReclaim] and [MemFaultTheorems] follow a page out and back;
      [MemMachine] has the frame allocators of the nodes ([init.rs]) and tables
      that keep the laws; [MemLosses] has the runs that lose a page.  [MemSyscalls] and
      [MemSyscallTheorems] are the handlers of mmap, munmap, mlock, munlock and
      madvise ([syscall/memory/]).  [SlotPool] is [memory/slot_pool.rs], atomic
      operations interleaved between CPUs.
    - Processes.  [Thread] is the thread state machine ([kernel/process/thread/]),
      [ReadyQueue] the per-CPU priority queues and the waiting queue, [Sched] the
      scheduler of one CPU with its wait queues, events and semaphores
      ([kernel/process/scheduler/], [kernel/process/wait/]).  [SchedInv] and
      [SchedOps] carry the placement invariant through every operation;
      [SchedTheorems] and [WaitTheorems] conclude.
    - Pipes ([kernel/ipc/pipe.rs]): [Pipe] has the ring and its two ends,
      [PipeTheorems] the refinement to a byte queue.
    - Block storage.  [BlockDevice] is the device interface as a class of
      operations and a class of laws ([kernel/block.rs]), with the in-memory device
      and the slice as instances; [CryptDevice] adds the encrypting device
      ([fs/crypt_device.rs]).  [BlockRuns] is the contract for clients that read and
      write runs of blocks, kept by the same devices; [Swap] and [SwapTheorems] are
      such a client, the swap area ([memory/swap.rs]).  [BlockCache] is the cache in front of any of them
      ([fs/block_cache.rs]), proved against the laws alone: [BlockCacheInv] has its
      invariant and insertion, [BlockCacheOps] reads and writes, [BlockCacheFlush]
      the queued write-back, [BlockCacheTheorems] the conclusions.
    - Compression.  [PageCodec] and [PageCodecTheorems] are the encoding of a page
      ([memory/compressed.rs]), on which [FileCodec] and [FileCodecTheorems] build
      the encoding of a file in chunks ([fs/simplefs/compression.rs]); [Patch] has
      the copies into buffers they share.
    - SimpleFS, the native file system ([fs/simplefs/]).  [SfsFormat] is the format
      on disk ([types.rs], [free_fns.rs], [format_io.rs]) and [SfsFormatTheorems]
      its round trips; [Unicode] the strings and the comparison of names that
      ignores case ([fs/unicode/]).  [SfsTree] is the check of loaded metadata.
      [SfsState] is the state of a mounted volume with its undo log, directory
      entries, inode slots and free extents ([mod.rs], [transaction.rs], [fs.rs],
      [extent_repair.rs]), [SfsStateTheorems] what they do.  [SfsCommit] is the
      commit of metadata and the mount ([extent_repair.rs], [superblock.rs],
      [file_io.rs], [format_io.rs]), over the block cache and any device.
      [SfsCrash] is a contract for media on which writes fail, and what a mount
      finds on them; [SfsCommitTheorems] follows the phases of a commit;
      [SfsPowerCut] is a device that loses and tears writes by script.
    - Network formats: [Bytes] holds byte strings and integers in both byte
      orders, [Ipv4] the checksum and the datagram ([network/internet/ipv4.rs]),
      [TcpSegment] the segment and its options ([network/tcp/segment.rs]).
      [Fragments] and [FragmentsTheorems] are the reassembly of IPv4 and IPv6
      fragments ([network/internet/fragments.rs]), on top of the datagrams.
      [NatTable] is the address translation of [network/internet/nat.rs],
      [NatChecksum] the arithmetic of its incremental checksums, [NatTheorems] its
      invariant and what translated packets look like.
    - Cryptography ([kernel/crypto.rs]): [Sha256] (with HMAC, HKDF, PBKDF2, MGF1),
      [Crc], [Poly1305], [ChaCha20], [Aes], [AesModes] (GCM and XTS), [Fe25519] and
      [X25519], and RSA verification: [Limbs] is the arithmetic on 64-bit words,
      [Rsa] the operations, [RsaMont] their Montgomery arithmetic, [RsaTheorems]
      the public-key operation and [RsaVerify] both signature schemes.

    ** What the theorems show

    - The heap: from boot on, no sequence of allocations, writes to held memory
      and frees of held pointers panics or loops; live allocations are aligned,
      disjoint and keep their contents ([heap_runs_safe]); each operation's effect
      on the blocks, and when it refuses.
    - Frames and slots: what [allocate], [deallocate] and [compact] do to the set
      of free frames; a slot is never held by two owners in any interleaving.
    - Paging: the software page table is a map per address space
      ([page_table_refines]), an operation for one process leaves the others
      ([address_spaces_apart]); the swap area gives out free slots and reads back
      what was written, over every device that keeps the contract
      ([swap_serves_pages]); reclaiming, through the swap area, the compressed cache
      and the raw store, keeps what every page holds ([reclaim_keeps_memory]), and a
      fault brings it back ([fault_restores_memory]).  The first is for pages of the
      running address space, and the second while no raw copy is older than
      another: [reclaim_frees_mapped_frame] and [neighbour_comes_back_stale] are the
      runs outside these hypotheses that the code allows.
    - Compression: a page, and every range of a file, decodes to what was encoded;
      no input makes the decoder panic or write outside the page.
    - Pipes are byte queues: reads return what was written, in order.
    - The scheduler never loses a runnable thread, wakes exactly the expired
      sleepers and picks the highest priority; semaphores and events hand over.
    - Block storage: a sequence of cache operations answers as the disk would, a
      flush that succeeds is durable and one that fails loses nothing, the least
      recently used clean block is evicted, the encrypted device stores what it is
      given enciphered and reads it back.  The laws leave a synchronous write of a
      block whose queued write is in flight undefined, so sequences run one
      operation at a time; [rewritten_block_stays_dirty] is about the one write
      that may come in between.
    - SimpleFS: a metadata commit is atomic under power loss ([commit_atomic]), also
      after failed ones on volumes with a pending mark ([retried_commit_atomic]);
      metadata that passes the check is a volume in order
      ([validated_volume_ok]); entries are inserted into and removed from one
      directory only, though all of them share a table
      ([insert_dir_entry_correct], [remove_dir_entry_correct]); allocation takes
      the best fit and release merges ([allocation_correct],
      [mark_extent_free_correct]); a rollback undoes any sequence of these
      ([updates_roll_back]), which is what a commit asks of its update.  The commit
      theorems take the contract of
      [SfsCrash], which lets a failed write leave every block of its run old, new
      or damaged; that damage to a superblock shows in its checksum is a
      hypothesis ([torn_detected]), which holds of the scripted device.
    - Wire formats: what is built is parsed back, with a valid checksum; the
      fragments of a datagram reassemble to it in any order and interleaving.
    - Address translation: sessions keep ports of their own, replies find the host
      they are for, and the updated checksums verify.
    - Cryptography computes its standard's function on every input (SHA-256,
      X25519, GCM's primitives, RSA verification), or inverts itself (AES, AEADs,
      XTS), with every failing branch.
    - Where the code does not do what it means to, a theorem gives the run
      ([resize_full_breaks], [three_way_merge_misses], [overlapping_free_accepted],
      [stop_then_continue_loses], [kill_running_never_completes],
      [release_loses_permit], [poly1305_mac_misses_rfc],
      [eviction_drops_refused_block], [read_ahead_fails_at_end],
      [eviction_drops_newest], [ipv6_conflicting_last_leaves_hole],
      [zero_tcp_checksum_broken], [unsummed_udp_gets_checksum],
      [icmp_replies_dropped], [first_page_erases_signature],
      [reclaim_frees_mapped_frame], [neighbour_comes_back_stale],
      [relocation_leaves_new_frame], [failed_copy_drops_reference],
      [failed_fault_forgets_page], [unregister_keeps_raw_copies],
      [memory_calls_miss_processes], [munmap_drops_kernel_mapping],
      [munlock_turns_kernel_anonymous], [huge_length_panics], [v2_retry_mixes],
      [inserted_name_wrong], [detached_ring_accepted]).

    ** Fuel and bounds

    Loops that are not structural take fuel; every theorem about them shows
    that the fuel given suffices. The heap's walks use the number of blocks
    the heap can hold; [carry_loop] of [Fe25519] a bound from the value it
    reduces; [reduce_loop] of [Rsa] the number of bits of its buffer; the
    chunk and option walks the length of their input, as the two loops of the
    page codec; the eviction of the compressed cache its size, the clock of the
    reclaimer the number of turns the source allows; an eviction of
    [Fragments] the size of the cache; the port search of [NatTable] the number
    of ports, and its carry fold the rounds of the checksum; a flush of [BlockCache] the number of
    slots, and the polls of one write, bounded by the source's limit of fifty
    million, double their rounds 26 times, as those of a mount do; the search of the folding
    table and the walks over UTF-8 the length of their input. Capacities are the source's
    constants (4096-bit moduli, 64 slots); theorems quantify over everything
    below them.

    ** What is not modelled

    Hardware (the page tables of each architecture, interrupts, context switches,
    drivers), the operations of SimpleFS by path, on file data and in its repair
    pass, which are updates for the modelled commit, the other file systems,
    protocols above the segment formats, system
    calls but the memory ones, the invalidation of translation caches, user
    programs, statistics and printing.  Locks are taken to exclude: an operation
    under a lock is one step.  Within the modelled files, accessors of names and
    counters that no decision reads are left out. *)

From stdpp Require Import base tactics decidable numbers list sets.
From Stdlib Require Import ZArith Lia Bool.

#[global] Open Scope Z_scope.

(** ** Outcomes of Rust code

    [Ret] is a normal return, [Panic] a Rust panic (failed assertion, index
    out of range, debug overflow check), [NoFuel] marks a loop that was cut
    before it ended: theorems show it is never the answer with enough fuel. *)
Inductive outcome (A : Type) : Type :=
| Ret (a : A)
| Panic
| NoFuel.
Arguments Ret {A} _.
Arguments Panic {A}.
Arguments NoFuel {A}.

#[global] Instance outcome_ret : MRet outcome := λ A a, Ret a.
#[global] Instance outcome_bind : MBind outcome := λ A B f m,
  match m with Ret a => f a | Panic => Panic | NoFuel => NoFuel end.
#[global] Instance outcome_fmap : FMap outcome := λ A B f m,
  match m with Ret a => Ret (f a) | Panic => Panic | NoFuel => NoFuel end.

Lemma outcome_bind_ret {A B} (f : A → outcome B) (m : outcome A) b :
  m ≫= f = Ret b ↔ ∃ a, m = Ret a ∧ f a = Ret b.
Proof.
  split.
  - destruct m as [a| |]; cbn; intros H; try discriminate. eauto.
  - intros (a & -> & H). exact H.
Qed.

(** [Error] and [Result] of src/lib.rs. *)
Inductive Error : Type :=
| InvalidArgument | NotFound | AlreadyExists | PermissionDenied | OutOfMemory
| DeviceError | Busy | TimedOut | Unsupported | NotImplemented | InternalError
| InvalidCredential | ConnectionReset | NoSpace.

#[global] Instance Error_eq_dec : EqDecision Error.
Proof. solve_decision. Defined.

Inductive result (A : Type) : Type :=
| Ok (a : A)
| Err (e : Error).
Arguments Ok {A} _.
Arguments Err {A} _.

(** ** Machine integers: a [w]-bit unsigned integer is a [Z] in [0, 2^w). *)

Definition u32_max : Z := 2 ^ 32 - 1.
Definition u64_max : Z := 2 ^ 64 - 1.

Definition wrap64 (x : Z) : Z := x mod 2 ^ 64.
Definition wrapping_add (a b : Z) : Z := wrap64 (a + b).
Definition wrapping_sub (a b : Z) : Z := wrap64 (a - b).
Definition saturating_add (a b : Z) : Z := Z.min (a + b) u64_max.
Definition saturating_sub (a b : Z) : Z := Z.max (a - b) 0.
Definition checked_add (a b : Z) : option Z :=
  if a + b <=? u64_max then Some (a + b) else None.
Definition checked_sub (a b : Z) : option Z :=
  if b <=? a then Some (a - b) else None.
Definition checked_mul (a b : Z) : option Z :=
  if a * b <=? u64_max then Some (a * b) else None.

(** The complement [!x] of an unsigned integer. *)
Definition unot64 (x : Z) : Z := u64_max - x.
Definition unot32 (x : Z) : Z := u32_max - x.

(** [is_multiple_of], [div_ceil] and [trailing_zeros]. *)
Definition is_multiple_of (a b : Z) : bool := a mod b =? 0.
Definition div_ceil (a b : Z) : Z := (a + b - 1) / b.

Fixpoint pos_ctz (p : positive) : Z :=
  match p with
  | xO q => 1 + pos_ctz q
  | _ => 0
  end.
Definition trailing_zeros (x : Z) : Z :=
  match x with Zpos p => pos_ctz p | _ => 0 end.

(** ** Tactics and hint databases of the development *)

Create HintDb pf.
Create Rewrite HintDb pf_mem.

(** Case analysis on the integer comparisons of the goal and hypotheses. *)
Ltac cmp_cases :=
  repeat match goal with
  | |- context [?a =? ?b] => destruct (Z.eqb_spec a b)
  | |- context [?a <=? ?b] => destruct (Z.leb_spec a b)
  | |- context [?a <? ?b] => destruct (Z.ltb_spec a b)
  | H : context [?a =? ?b] |- _ => destruct (Z.eqb_spec a b)
  | H : context [?a <=? ?b] |- _ => destruct (Z.leb_spec a b)
  | H : context [?a <? ?b] |- _ => destruct (Z.ltb_spec a b)
  end.

Ltac destruct_outcome H :=
  apply outcome_bind_ret in H; destruct H as (? & ? & H).

(** ** Generic lemmas on integers and bits *)

Lemma wrap64_small x : 0 ≤ x < 2 ^ 64 → wrap64 x = x.
Proof. intros. unfold wrap64. by rewrite Z.mod_small. Qed.

Lemma wrapping_add_small a b : 0 ≤ a + b < 2 ^ 64 → wrapping_add a b = a + b.
Proof. apply wrap64_small. Qed.

Lemma wrapping_sub_small a b : 0 ≤ a - b < 2 ^ 64 → wrapping_sub a b = a - b.
Proof. apply wrap64_small. Qed.

Lemma checked_add_small a b : a + b ≤ u64_max → checked_add a b = Some (a + b).
Proof. intros. unfold checked_add. by destruct (Z.leb_spec (a + b) u64_max); [|lia]. Qed.

Lemma checked_sub_small a b : b ≤ a → checked_sub a b = Some (a - b).
Proof. intros. unfold checked_sub. by destruct (Z.leb_spec b a); [|lia]. Qed.

Lemma is_multiple_of_true a b : is_multiple_of a b = true ↔ a mod b = 0.
Proof. apply Z.eqb_eq. Qed.

Lemma pos_ctz_nonneg p : 0 ≤ pos_ctz p.
Proof. induction p; simpl; lia. Qed.

Lemma pos_ctz_set p : Z.testbit (Zpos p) (pos_ctz p) = true.
Proof.
  induction p as [p IH|p IH|]; try reflexivity.
  simpl pos_ctz. change (Zpos (xO p)) with (2 * Zpos p).
  rewrite Z.add_1_l, Z.double_bits_succ. apply IH.
Qed.

Lemma trailing_zeros_set x : 0 < x → Z.testbit x (trailing_zeros x) = true.
Proof. destruct x; try lia. intros _. apply pos_ctz_set. Qed.

Lemma trailing_zeros_nonneg x : 0 ≤ trailing_zeros x.
Proof. destruct x; simpl; try lia. apply pos_ctz_nonneg. Qed.

Lemma pos_ctz_clear p i : 0 ≤ i < pos_ctz p → Z.testbit (Zpos p) i = false.
Proof.
  revert i. induction p as [p IH|p IH|]; simpl pos_ctz; intros i Hi; try lia.
  change (Zpos (xO p)) with (2 * Zpos p).
  destruct (decide (i = 0)) as [->|Hne]; [by rewrite Z.testbit_even_0|].
  replace i with (Z.succ (i - 1)) by lia.
  rewrite Z.double_bits_succ. apply IH. lia.
Qed.

Lemma trailing_zeros_clear x i :
  0 ≤ i < trailing_zeros x → Z.testbit x i = false.
Proof. destruct x; simpl; try lia. apply pos_ctz_clear. Qed.

(** A non-negative integer with no bit at or above [w] is below [2^w]. *)
Lemma testbit_bounded x w :
  0 ≤ w → 0 ≤ x → (∀ i, w ≤ i → Z.testbit x i = false) → x < 2 ^ w.
Proof.
  intros Hw Hx Hb. destruct (decide (x = 0)) as [->|Hne]; [lia|].
  apply Z.log2_lt_pow2; [lia|].
  destruct (Z.lt_ge_cases (Z.log2 x) w) as [|Hge]; [done|].
  specialize (Hb (Z.log2 x) Hge). rewrite Z.bit_log2 in Hb; [done|lia].
Qed.

Lemma testbit_above x w i : 0 ≤ x < 2 ^ w → w ≤ i → Z.testbit x i = false.
Proof.
  intros Hx Hi. destruct (decide (x = 0)) as [->|Hne]; [apply Z.testbit_0_l|].
  assert (0 ≤ w) by (destruct (Z.lt_ge_cases w 0); [rewrite Z.pow_neg_r in Hx by done|]; lia).
  apply Z.bits_above_log2; [lia|].
  apply Z.lt_le_trans with w; [apply Z.log2_lt_pow2; lia|done].
Qed.

Lemma testbit_nonzero x i : Z.testbit x i = true → x ≠ 0.
Proof. intros H ->. by rewrite Z.testbit_0_l in H. Qed.

Lemma land_nonneg_l a b : 0 ≤ a → 0 ≤ Z.land a b.
Proof. intros. apply Z.land_nonneg. by left. Qed.

Lemma trailing_zeros_bound x w : 0 < x < 2 ^ w → 0 ≤ trailing_zeros x < w.
Proof.
  intros Hx. split; [apply trailing_zeros_nonneg|].
  destruct (Z.lt_ge_cases (trailing_zeros x) w) as [|Hge]; [done|].
  pose proof (trailing_zeros_set x ltac:(lia)) as H.
  rewrite (testbit_above x w) in H; [done|lia|done].
Qed.

(** [x & !(2^k - 1)] clears the low [k] bits. *)
Lemma land_unot64_pow2 x k :
  0 ≤ x < 2 ^ 64 → 0 ≤ k ≤ 64 → Z.land x (unot64 (2 ^ k - 1)) = x - x mod 2 ^ k.
Proof.
  intros Hx Hk.
  assert (E : unot64 (2 ^ k - 1) = Z.ldiff (Z.ones 64) (Z.ones k)).
  { unfold unot64, u64_max. rewrite <- Z.sub_nocarry_ldiff.
    - rewrite !Z.ones_equiv. lia.
    - apply Z.bits_inj'. intros i Hi. rewrite Z.ldiff_spec, Z.bits_0, !Z.testbit_ones by lia.
      destruct (Z.leb_spec 0 i), (Z.ltb_spec i k), (Z.ltb_spec i 64); simpl; lia. }
  rewrite E.
  replace (x - x mod 2 ^ k) with (Z.ldiff x (Z.ones k)).
  - apply Z.bits_inj'. intros i Hi.
    rewrite Z.land_spec, !Z.ldiff_spec, !Z.testbit_ones by lia.
    destruct (Z.ltb_spec i 64) as [|Hge]; simpl.
    + destruct (Z.leb_spec 0 i); [|lia]. simpl. done.
    + rewrite (testbit_above x 64) by lia. done.
  - rewrite Z.ldiff_ones_r by lia. rewrite Z.shiftl_mul_pow2, Z.shiftr_div_pow2 by lia.
    pose proof (Z.div_mod x (2 ^ k) ltac:(lia)). lia.
Qed.

(** A flag in bit 0 of an even word. *)
Lemma lor_flag s f : s mod 2 = 0 → 0 ≤ f ≤ 1 → Z.lor s f = s + f.
Proof.
  intros Hs Hf. assert (f = 0 ∨ f = 1) as [-> | ->] by lia.
  - rewrite Z.lor_0_r. lia.
  - rewrite Z.add_nocarry_lxor.
    + apply Z.bits_inj'. intros i Hi. rewrite Z.lor_spec, Z.lxor_spec.
      destruct (decide (i = 0)) as [->|].
      * rewrite (proj2 (Z.testbit_false s 0 ltac:(lia))); [done|].
        by rewrite Z.pow_0_r, Z.div_1_r.
      * rewrite (testbit_above 1 1 i) by lia. by destruct (Z.testbit s i).
    + apply Z.bits_inj'. intros i Hi. rewrite Z.land_spec, Z.bits_0.
      destruct (decide (i = 0)) as [->|].
      * rewrite (proj2 (Z.testbit_false s 0 ltac:(lia))); [done|].
        by rewrite Z.pow_0_r, Z.div_1_r.
      * rewrite (testbit_above 1 1 i) by lia. apply andb_false_r.
Qed.

Lemma land_one x : Z.land x 1 = x mod 2.
Proof. change 1 with (Z.ones 1). by rewrite Z.land_ones by lia. Qed.

Lemma land_unot64_one x : 0 ≤ x < 2 ^ 64 → Z.land x (unot64 1) = x - x mod 2.
Proof. intros. by apply (land_unot64_pow2 x 1). Qed.

(** Bits of [!((1 << k) - 1)] on 32 bits. *)
Lemma testbit_unot32_mask k i :
  0 ≤ k ≤ 32 → 0 ≤ i → Z.testbit (unot32 (2 ^ k - 1)) i = (k <=? i) && (i <? 32).
Proof.
  intros Hk Hi.
  assert (E : unot32 (2 ^ k - 1) = Z.ldiff (Z.ones 32) (Z.ones k)).
  { unfold unot32, u32_max. rewrite <- Z.sub_nocarry_ldiff.
    - rewrite !Z.ones_equiv. lia.
    - apply Z.bits_inj'. intros j Hj. rewrite Z.ldiff_spec, Z.bits_0, !Z.testbit_ones by lia.
      cmp_cases; simpl; lia. }
  rewrite E, Z.ldiff_spec, !Z.testbit_ones by lia. cmp_cases; simpl; lia.
Qed.

Lemma testbit_unot32_bit k i :
  0 ≤ k < 32 → 0 ≤ i → Z.testbit (unot32 (2 ^ k)) i = (i <? 32) && negb (i =? k).
Proof.
  intros Hk Hi.
  assert (E : unot32 (2 ^ k) = Z.ldiff (Z.ones 32) (2 ^ k)).
  { unfold unot32, u32_max. rewrite <- Z.sub_nocarry_ldiff.
    - rewrite Z.ones_equiv. lia.
    - apply Z.bits_inj'. intros j Hj.
      rewrite Z.ldiff_spec, Z.bits_0, Z.testbit_ones, Z.pow2_bits_eqb by lia.
      cmp_cases; simpl; lia. }
  rewrite E, Z.ldiff_spec, Z.testbit_ones, Z.pow2_bits_eqb by lia.
  cmp_cases; simpl; lia.
Qed.
