(* ===== verification/Tlsf.v ===== *)
(** * The TLSF heap internals (src/memory/heap/tlsf.rs)

    Block headers live in a word-addressed memory; the allocator state holds
    the two bitmap levels and the heads of the segregated free lists.  This
    file has the operations of tlsf.rs and the arithmetic of the size classes;
    the free-list and block-list invariants are in TlsfLists and TlsfBlocks. *)

From stdpp Require Import base tactics decidable numbers list sets.
From Stdlib Require Import ZArith Lia Bool String.
From S2P Require Import Prelude.

(** ** Constants *)

Definition KERNEL_HEAP_SIZE : Z := 64 * 1024 * 1024.
Definition HEAP_BLOCK_ALIGNMENT : Z := 16.
Definition FL_MIN : Z := 5.
Definition FL_MAX : Z := 26.
Definition FL_COUNT : Z := FL_MAX - FL_MIN + 1.
Definition SL_COUNT : Z := 32.
Definition SL_INDEX_LOG2 : Z := 5.
Definition FREE_LISTS_COUNT : Z := FL_COUNT * SL_COUNT.
Definition BLOCK_USED_FLAG : Z := 1.
Definition HEADER_SIZE : Z := 16.
Definition FREE_NEXT_OFFSET : Z := HEADER_SIZE.
Definition MIN_FREE_BLOCK : Z := 32.
Definition CANARY_SIZE : Z := 8.
Definition CANARY_VALUE : Z := 0xC0DEC0DEC0DEC0DE.
Definition FRESH_ZERO_BYTES : Z := 2048.
Definition HEAP_TRACE_DEPTH : Z := 32.
Definition TRACE_ALLOC : Z := 1.
Definition TRACE_DEALLOC : Z := 2.
Definition TRACE_TAG_MASK : Z := 0xF.

(** What the build and the linker fix: whether debug assertions are compiled
    in, the address of the static [KERNEL_HEAP], and a bound on the length of
    the free-list walks of the model. *)
Class HeapEnv := {
  debug_assertions : bool;
  kernel_heap : Z;
  walk_fuel : nat;
}.

(** ** Memory

    Every access of the allocator is an aligned [usize] access, or a clear of
    a word-aligned range, so memory is a function from word addresses. *)
Definition mem := Z → Z.

Definition mem_write (m : mem) (a v : Z) : mem :=
  λ x, if x =? a then v else m x.

(** [core::ptr::write_bytes(lo, 0, hi - lo)]. *)
Definition mem_zero (m : mem) (lo hi : Z) : mem :=
  λ x, if (lo <=? x) && (x <? hi) then 0 else m x.

(** ** Allocator state *)

Record AllocatorState := mkAllocatorState {
  start : Z;
  end_ : Z;
  available : Z;
  initialized : bool;
  fl_bitmap : Z;
  sl_bitmaps : list Z;
  free_lists : list Z;
}.

Definition AllocatorState_new : AllocatorState :=
  mkAllocatorState 0 0 0 false 0
    (replicate (Z.to_nat FL_COUNT) 0) (replicate (Z.to_nat FREE_LISTS_COUNT) 0).

(** The heap as the allocator sees it: the memory, the locked state, and the
    ring of recent operations. *)
Record heap := Heap {
  hmem : mem;
  hstate : AllocatorState;
  htrace : list Z;
  hcursor : Z;
}.

Definition set_mem (h : heap) (m : mem) : heap :=
  Heap m (hstate h) (htrace h) (hcursor h).
Definition set_state (h : heap) (st : AllocatorState) : heap :=
  Heap (hmem h) st (htrace h) (hcursor h).

Definition set_lists (st : AllocatorState) (fl : Z) (sls frees : list Z) : AllocatorState :=
  mkAllocatorState (start st) (end_ st) (available st) (initialized st) fl sls frees.
Definition set_available (st : AllocatorState) (a : Z) : AllocatorState :=
  mkAllocatorState (start st) (end_ st) a (initialized st)
    (fl_bitmap st) (sl_bitmaps st) (free_lists st).

(** ** Utility *)

Definition align_up (value align : Z) : option Z :=
  (λ aligned, Z.land aligned (unot64 (align - 1))) <$> checked_add value (align - 1).

(** ** Raw block accessors *)

Definition block_raw_size (m : mem) (block : Z) : Z := m block.
Definition block_size (m : mem) (block : Z) : Z :=
  Z.land (block_raw_size m block) (unot64 BLOCK_USED_FLAG).
Definition block_set_size (m : mem) (block size : Z) : mem :=
  let flag := Z.land (block_raw_size m block) BLOCK_USED_FLAG in
  mem_write m block (Z.lor size flag).
Definition block_is_used (m : mem) (block : Z) : bool :=
  negb (Z.land (block_raw_size m block) BLOCK_USED_FLAG =? 0).
Definition block_set_used (m : mem) (block : Z) : mem :=
  let raw := block_raw_size m block in
  mem_write m block (Z.lor raw BLOCK_USED_FLAG).
Definition block_clear_used (m : mem) (block : Z) : mem :=
  let raw := block_raw_size m block in
  mem_write m block (Z.land raw (unot64 BLOCK_USED_FLAG)).
Definition block_prev_phys (m : mem) (block : Z) : Z := m (block + 8).
Definition block_set_prev_phys (m : mem) (block prev : Z) : mem :=
  mem_write m (block + 8) prev.
Definition block_next_free (m : mem) (block : Z) : Z := m (block + FREE_NEXT_OFFSET).
Definition block_set_next_free (m : mem) (block next : Z) : mem :=
  mem_write m (block + FREE_NEXT_OFFSET) next.

(** The debug build panics on a misaligned successor or a store past the heap. *)
Definition block_set_prev_phys_of_next `{HeapEnv} (m : mem) (block new_prev : Z) : outcome mem :=
  let size := block_size m block in
  let next := wrapping_add block size in
  let heap_end := wrapping_add kernel_heap KERNEL_HEAP_SIZE in
  if next <? heap_end then
    if debug_assertions &&
       (negb (is_multiple_of next HEAP_BLOCK_ALIGNMENT) ||
        match checked_add next 8 with
        | Some write_addr => heap_end <? write_addr
        | None => true
        end)
    then Panic
    else Ret (block_set_prev_phys m next new_prev)
  else Ret m.

(** ** TLSF mapping *)

Definition leading_zeros (x : Z) : Z := if x =? 0 then 64 else 63 - Z.log2 x.

Definition mapping (size : Z) : Z * Z :=
  let fl := 63 - leading_zeros size in
  let shift := saturating_sub fl SL_INDEX_LOG2 in
  let sl := Z.land (Z.lxor (Z.shiftr size shift) (Z.shiftl 1 SL_INDEX_LOG2)) (SL_COUNT - 1) in
  (fl, sl).

(** An index outside the 704 lists panics: at the debug assertion, or at the
    bounds check of the array it is used on. *)
Definition list_index (fl sl : Z) : outcome Z :=
  if (FL_MIN <=? fl) && (fl <=? FL_MAX) && (sl <? SL_COUNT)
  then Ret ((fl - FL_MIN) * SL_COUNT + sl)
  else Panic.

(** ** Canary *)

(** [HeapDefect]; the reason is the message of the source. *)
Record HeapDefect := mkHeapDefect { defect_address : Z; defect_reason : string }.

Definition canary_write (m : mem) (block_start : Z) : mem :=
  let size := block_size m block_start in
  let canary := wrapping_sub (wrapping_add block_start size) CANARY_SIZE in
  mem_write m canary CANARY_VALUE.

Definition canary_check (m : mem) (block_start : Z) : unit + HeapDefect :=
  let size := block_size m block_start in
  if size <? CANARY_SIZE then
    inr (mkHeapDefect block_start "block is smaller than the canary it must hold")
  else
    let canary := wrapping_sub (wrapping_add block_start size) CANARY_SIZE in
    let found := m canary in
    if negb (found =? CANARY_VALUE) then
      inr (mkHeapDefect block_start "canary overwritten: an allocation wrote past its own bytes")
    else inl ().

(** ** Structural invariant checking *)

Fixpoint check_walk (fuel : nat) (m : mem) (st : AllocatorState)
    (block : Z) (previous : option Z) : outcome (unit + HeapDefect) :=
  if negb (block <? end_ st) then
    Ret (if negb (block =? end_ st)
         then inr (mkHeapDefect block "block walk did not land on the end of the heap")
         else inl ())
  else
    match fuel with
    | O => NoFuel
    | S fuel =>
      if negb (is_multiple_of block HEAP_BLOCK_ALIGNMENT) then
        Ret (inr (mkHeapDefect block "block is not aligned")) else
      let size := block_size m block in
      if size <? MIN_FREE_BLOCK then
        Ret (inr (mkHeapDefect block "block size is below the minimum free block size")) else
      if negb (is_multiple_of size HEAP_BLOCK_ALIGNMENT) then
        Ret (inr (mkHeapDefect block "block size is not a multiple of the block alignment")) else
      let next := wrapping_add block size in
      if end_ st <? next then
        Ret (inr (mkHeapDefect block "block extends past the end of the heap")) else
      if (next <? end_ st) && negb (block_prev_phys m next =? block) then
        Ret (inr (mkHeapDefect next "prev_phys does not point at the preceding block")) else
      match previous with
      | Some previous =>
          if negb (block_prev_phys m block =? previous) then
            Ret (inr (mkHeapDefect block "prev_phys does not point at the preceding block"))
          else check_walk fuel m st next (Some block)
      | None => check_walk fuel m st next (Some block)
      end
    end.

Definition check_invariants `{HeapEnv} (m : mem) (st : AllocatorState) :
    outcome (unit + HeapDefect) :=
  if (start st =? 0) || (end_ st <=? start st) then
    Ret (inr (mkHeapDefect (start st) "heap bounds are not initialised"))
  else check_walk walk_fuel m st (start st) None.

(** ** Recent-operation trace *)

Definition record_heap_trace (h : heap) (tag address : Z) : heap :=
  let slot := hcursor h mod HEAP_TRACE_DEPTH in
  let entry := Z.lor (Z.land address (unot64 TRACE_TAG_MASK)) (Z.land tag TRACE_TAG_MASK) in
  Heap (hmem h) (hstate h) (<[Z.to_nat slot := entry]> (htrace h)) (wrap64 (hcursor h + 1)).

(** ** Debug validation *)

Definition validate_block (m : mem) (st : AllocatorState) (block : Z) : outcome (Z * Z) :=
  if block =? 0 then Panic else
  if (block <? start st) || (end_ st <=? block) then Panic else
  if negb (is_multiple_of block HEAP_BLOCK_ALIGNMENT) then Panic else
  let size := block_size m block in
  if size <? MIN_FREE_BLOCK then Panic else
  let e := wrapping_add block size in
  if end_ st <? e then Panic else
  let '(fl, sl) := mapping size in
  if negb ((FL_MIN <=? fl) && (fl <=? FL_MAX)) then Panic else
  Ret (fl, sl).

(** [validate_block] in a debug build, [mapping] in a release build. *)
Definition classify_block `{HeapEnv} (m : mem) (st : AllocatorState) (block size : Z) :
    outcome (Z * Z) :=
  if debug_assertions then validate_block m st block else Ret (mapping size).

(** ** Free-list management *)

Definition zero_fresh_header_region (m : mem) (block : Z) : mem :=
  let size := block_size m block in
  let zero_start := block + HEADER_SIZE + 8 in
  let zero_end := Z.min (block + FRESH_ZERO_BYTES) (block + size) in
  if zero_start <? zero_end then mem_zero m zero_start zero_end else m.

Definition insert_free_block `{HeapEnv} (h : heap) (block : Z) : outcome heap :=
  let m := hmem h in
  let st := hstate h in
  if debug_assertions && block_is_used m block then Panic else
  let size := block_size m block in
  if size <? MIN_FREE_BLOCK then Ret h else
  '(fl, sl) ← classify_block m st block size;
  idx ← list_index fl sl;
  let head := free_lists st !!! Z.to_nat idx in
  let m1 := block_set_next_free m block head in
  let m2 := zero_fresh_header_region m1 block in
  let frees := <[Z.to_nat idx := block]> (free_lists st) in
  let fl_bit := Z.shiftl 1 (fl - FL_MIN) in
  let f := Z.to_nat (fl - FL_MIN) in
  let sls := <[f := Z.lor (sl_bitmaps st !!! f) (Z.shiftl 1 sl)]> (sl_bitmaps st) in
  Ret (set_state (set_mem h m2) (set_lists st (Z.lor (fl_bitmap st) fl_bit) sls frees)).

(** The unlinking walk of [remove_free_block]: the memory and list heads after
    [block] is taken out of the list of index [idx]. *)
Fixpoint unlink_walk `{HeapEnv} (fuel : nat) (m : mem) (st : AllocatorState)
    (idx block prev current : Z) : outcome (mem * list Z) :=
  if current =? 0 then Ret (m, free_lists st) else
  match fuel with
  | O => NoFuel
  | S fuel =>
    _ ← (if debug_assertions then validate_block m st current else Ret (0, 0));
    if current =? block then
      let next := block_next_free m current in
      if prev =? 0
      then Ret (m, <[Z.to_nat idx := next]> (free_lists st))
      else Ret (block_set_next_free m prev next, free_lists st)
    else unlink_walk fuel m st idx block current (block_next_free m current)
  end.

Definition remove_free_block `{HeapEnv} (h : heap) (block : Z) : outcome heap :=
  let m := hmem h in
  let st := hstate h in
  let size := block_size m block in
  if size <? MIN_FREE_BLOCK then Ret h else
  '(fl, sl) ← classify_block m st block size;
  idx ← list_index fl sl;
  '(m', frees) ← unlink_walk walk_fuel m st idx block 0 (free_lists st !!! Z.to_nat idx);
  let f := Z.to_nat (fl - FL_MIN) in
  let '(flb, sls) :=
    if frees !!! Z.to_nat idx =? 0 then
      let row := Z.land (sl_bitmaps st !!! f) (unot32 (Z.shiftl 1 sl)) in
      (if row =? 0 then Z.land (fl_bitmap st) (unot32 (Z.shiftl 1 (fl - FL_MIN)))
       else fl_bitmap st,
       <[f := row]> (sl_bitmaps st))
    else (fl_bitmap st, sl_bitmaps st) in
  Ret (set_state (set_mem h m') (set_lists st flb sls frees)).

Definition find_suitable_block (st : AllocatorState) (min_size : Z) : outcome Z :=
  let '(fl, sl) :=
    if min_size <? Z.shiftl 1 FL_MIN then (FL_MIN, 0) else mapping min_size in
  let start_fl := Z.max FL_MIN (Z.min FL_MAX fl) in
  let fl_idx := start_fl - FL_MIN in
  let sl_mask := Z.land (sl_bitmaps st !!! Z.to_nat fl_idx) (unot32 (Z.shiftl 1 sl - 1)) in
  if negb (sl_mask =? 0) then
    let first_sl := trailing_zeros sl_mask in
    idx ← list_index start_fl first_sl;
    Ret (free_lists st !!! Z.to_nat idx)
  else
    let valid_bits_mask := Z.shiftl 1 FL_COUNT - 1 in
    let search_mask := unot32 (Z.shiftl 1 (fl_idx + 1) - 1) in
    let fl_mask := Z.land (Z.land (fl_bitmap st) valid_bits_mask) search_mask in
    if negb (fl_mask =? 0) then
      let next_fl_bit := trailing_zeros fl_mask in
      let next_fl := next_fl_bit + FL_MIN in
      let sl_mask := sl_bitmaps st !!! Z.to_nat next_fl_bit in
      if negb (sl_mask =? 0) then
        let first_sl := trailing_zeros sl_mask in
        idx ← list_index next_fl first_sl;
        Ret (free_lists st !!! Z.to_nat idx)
      else Ret 0
    else Ret 0.

(** ** Coalescing *)

Definition validate_coalesce_neighbour (m : mem) (candidate predecessor heap_end : Z) :
    option Z :=
  if negb (is_multiple_of candidate HEAP_BLOCK_ALIGNMENT) then None else
  let size := block_size m candidate in
  if size <? MIN_FREE_BLOCK then None else
  if heap_end <? wrapping_add candidate size then None else
  if negb (block_prev_phys m candidate =? predecessor) then None else
  Some size.

(** The first half of [coalesce]: merge with the previous physical block. *)
Definition merge_prev `{HeapEnv} (h : heap) (block size : Z) : outcome (heap * Z * Z) :=
  let m := hmem h in
  let heap_start := start (hstate h) in
  if heap_start <? block then
    let prev := block_prev_phys m block in
    if (heap_start <=? prev) && (prev <? block) then
      let prev_size := block_size m prev in
      let prev_end := wrapping_add prev prev_size in
      if (prev_end =? block) && negb (block_is_used m prev) &&
         is_multiple_of prev HEAP_BLOCK_ALIGNMENT && (MIN_FREE_BLOCK <=? prev_size)
      then
        h' ← remove_free_block h prev;
        Ret (h', prev, wrapping_add size prev_size)
      else Ret (h, block, size)
    else Ret (h, block, size)
  else Ret (h, block, size).

(** The second half: merge with the next physical block. *)
Definition merge_next `{HeapEnv} (h : heap) (blk size : Z) : outcome (heap * Z) :=
  let m := hmem h in
  let heap_end := end_ (hstate h) in
  let next := wrapping_add blk size in
  if next <? heap_end then
    if negb (block_is_used m next) then
      match validate_coalesce_neighbour m next blk heap_end with
      | Some next_size =>
          h' ← remove_free_block h next;
          Ret (h', wrapping_add size next_size)
      | None => Ret (h, size)
      end
    else Ret (h, size)
  else Ret (h, size).

Definition coalesce `{HeapEnv} (h : heap) (block : Z) : outcome (heap * Z) :=
  '(h1, blk, size) ← merge_prev h block (block_size (hmem h) block);
  '(h2, size) ← merge_next h1 blk size;
  let m1 := block_set_size (hmem h2) blk size in
  let m2 := block_clear_used m1 blk in
  m3 ← block_set_prev_phys_of_next m2 blk blk;
  Ret (set_mem h2 m3, blk).

(** ** Size classes

    [class_of size] is the index of the free list a block of [size] bytes
    belongs to. *)

Definition class_of (size : Z) : Z :=
  let '(fl, sl) := mapping size in (fl - FL_MIN) * SL_COUNT + sl.

Section SizeClasses.
Implicit Types s t : Z.

Lemma log2_range s : 32 ≤ s → 5 ≤ Z.log2 s.
Proof. intros. change 5 with (Z.log2 32). by apply Z.log2_le_mono. Qed.

Lemma mantissa_range s : 32 ≤ s → 32 ≤ s / 2 ^ (Z.log2 s - 5) < 64.
Proof.
  intros Hs. pose proof (log2_range s Hs). pose proof (Z.log2_spec s ltac:(lia)) as [Hlo Hhi].
  assert (0 < 2 ^ (Z.log2 s - 5)) by (apply Z.pow_pos_nonneg; lia).
  assert (E : 2 ^ Z.log2 s = 32 * 2 ^ (Z.log2 s - 5)).
  { change 32 with (2 ^ 5). rewrite <- Z.pow_add_r by lia. f_equal. lia. }
  rewrite Z.pow_succ_r in Hhi by lia. split.
  - apply Z.div_le_lower_bound; lia.
  - apply Z.div_lt_upper_bound; lia.
Qed.

Lemma lxor_top_bit x : 32 ≤ x < 64 → Z.land (Z.lxor x 32) 31 = x - 32.
Proof.
  intros Hx. replace (Z.lxor x 32) with (x - 32).
  - change 31 with (Z.ones 5). rewrite Z.land_ones by lia. apply Z.mod_small. lia.
  - symmetry. rewrite Z.lxor_comm.
    assert (E : Z.lxor 32 (x - 32) = 32 + (x - 32)).
    { rewrite Z.add_nocarry_lxor; [done|]. apply Z.bits_inj'. intros i Hi.
      rewrite Z.land_spec, Z.bits_0. change 32 with (2 ^ 5) at 1.
      rewrite Z.pow2_bits_eqb by lia. destruct (Z.eqb_spec 5 i) as [<-|]; [|done].
      apply (testbit_above _ 5); lia. }
    replace x with (Z.lxor 32 (x - 32)) at 1 by lia.
    by rewrite <- Z.lxor_assoc, Z.lxor_nilpotent, Z.lxor_0_l.
Qed.

Lemma mapping_eq s :
  32 ≤ s → mapping s = (Z.log2 s, s / 2 ^ (Z.log2 s - 5) - 32).
Proof.
  intros Hs. pose proof (log2_range s Hs). pose proof (mantissa_range s Hs).
  unfold mapping, leading_zeros. destruct (Z.eqb_spec s 0); [lia|].
  replace (63 - (63 - Z.log2 s)) with (Z.log2 s) by lia.
  unfold saturating_sub, SL_INDEX_LOG2, SL_COUNT.
  rewrite Z.max_l by lia. rewrite Z.shiftr_div_pow2 by lia.
  change (Z.shiftl 1 5) with 32. change (32 - 1) with 31.
  by rewrite lxor_top_bit.
Qed.

Lemma mapping_range s fl sl :
  32 ≤ s < 2 ^ 27 → mapping s = (fl, sl) → FL_MIN ≤ fl ≤ FL_MAX ∧ 0 ≤ sl < SL_COUNT.
Proof.
  intros [Hs Hs'] E. rewrite mapping_eq in E by done. injection E as <- <-.
  pose proof (log2_range s Hs). pose proof (mantissa_range s Hs).
  assert (Z.log2 s < 27) by (apply Z.log2_lt_pow2; lia).
  unfold FL_MIN, FL_MAX, SL_COUNT. lia.
Qed.

Lemma mapping_class s fl sl :
  mapping s = (fl, sl) → class_of s = (fl - FL_MIN) * SL_COUNT + sl.
Proof. intros E. unfold class_of. by rewrite E. Qed.

Lemma class_of_eq s :
  32 ≤ s → class_of s = (Z.log2 s - 5) * 32 + (s / 2 ^ (Z.log2 s - 5) - 32).
Proof. intros. unfold class_of. by rewrite mapping_eq by done. Qed.

Lemma class_of_range s : 32 ≤ s < 2 ^ 27 → 0 ≤ class_of s < FREE_LISTS_COUNT.
Proof.
  intros Hs. destruct (mapping s) as [fl sl] eqn:E.
  rewrite (mapping_class s fl sl E). apply mapping_range in E; [|done].
  unfold FREE_LISTS_COUNT, FL_COUNT, FL_MIN, FL_MAX, SL_COUNT in *. lia.
Qed.

Lemma class_of_mono s t : 32 ≤ s → s ≤ t → class_of s ≤ class_of t.
Proof.
  intros Hs Hst. rewrite !class_of_eq by lia.
  pose proof (mantissa_range s Hs). pose proof (mantissa_range t ltac:(lia)).
  pose proof (Z.log2_le_mono s t Hst).
  destruct (decide (Z.log2 s = Z.log2 t)) as [E|]; [|lia].
  rewrite E. pose proof (Z.div_le_mono s t (2 ^ (Z.log2 t - 5))
    ltac:(apply Z.pow_pos_nonneg; [lia|pose proof (log2_range t ltac:(lia)); lia]) Hst). lia.
Qed.

Lemma class_of_lt s t : 32 ≤ t → class_of s < class_of t → 32 ≤ s → s < t.
Proof.
  intros Ht Hlt Hs. destruct (Z.lt_ge_cases s t) as [|Hge]; [done|].
  pose proof (class_of_mono t s Ht Hge). lia.
Qed.
End SizeClasses.
