(* ===== verification/TlsfLists.v ===== *)
(** * Free lists and bitmaps of the TLSF heap

    [lists_ok m st fs] says that the segregated lists and the two bitmap
    levels of [st], in memory [m], hold exactly the free blocks [fs] (address
    and size), each in the list of its size class.  The operations of tlsf.rs
    that change or search the lists are specified against it. *)

From stdpp Require Import base tactics decidable numbers list sets.
From Stdlib Require Import ZArith Lia Bool.
From S2P Require Import Prelude Tlsf.

(** ** Memory lemmas *)

Lemma mem_write_eq m a v : mem_write m a v a = v.
Proof. unfold mem_write. by rewrite Z.eqb_refl. Qed.

Lemma mem_write_ne m a v x : x ≠ a → mem_write m a v x = m x.
Proof. intros. unfold mem_write. by destruct (Z.eqb_spec x a). Qed.

Lemma mem_zero_out m lo hi x : x < lo ∨ hi ≤ x → mem_zero m lo hi x = m x.
Proof. intros. unfold mem_zero. cmp_cases; simpl; lia || done. Qed.

#[export] Hint Rewrite mem_write_eq : pf_mem.
#[export] Hint Rewrite mem_write_ne mem_zero_out using lia : pf_mem.

(** A free block with a valid header: the word at its address is its size. *)
Record entry_ok (m : mem) (st : AllocatorState) (e : Z * Z) : Prop := {
  entry_start : 0 < start st ≤ e.1;
  entry_align : e.1 mod 16 = 0;
  entry_size : 32 ≤ e.2 ≤ KERNEL_HEAP_SIZE;
  entry_size_align : e.2 mod 16 = 0;
  entry_end : e.1 + e.2 ≤ end_ st;
  entry_end_max : end_ st < 2 ^ 64;
  entry_header : m e.1 = e.2;
}.

Definition disjoint_from (e e' : Z * Z) : Prop :=
  e.1 + e.2 ≤ e'.1 ∨ e'.1 + e'.2 ≤ e.1.

(** The linked list that starts at [head], through the [next_free] words. *)
Fixpoint chain (m : mem) (head : Z) (l : list Z) : Prop :=
  match l with
  | [] => head = 0
  | x :: l => head = x ∧ x ≠ 0 ∧ chain m (block_next_free m x) l
  end.

(** The bitmaps tell which lists are empty. *)
Record bitmaps_ok (st : AllocatorState) (F : Z → list Z) : Prop := {
  sl_length : length (sl_bitmaps st) = 22%nat;
  free_length : length (free_lists st) = 704%nat;
  sl_range f : 0 ≤ f < 22 → 0 ≤ sl_bitmaps st !!! Z.to_nat f < 2 ^ 32;
  sl_bits f s : 0 ≤ f < 22 → 0 ≤ s < 32 →
    Z.testbit (sl_bitmaps st !!! Z.to_nat f) s = bool_decide (F (f * 32 + s) ≠ []);
  fl_range : 0 ≤ fl_bitmap st < 2 ^ 22;
  fl_bits f : 0 ≤ f < 22 →
    Z.testbit (fl_bitmap st) f = bool_decide (sl_bitmaps st !!! Z.to_nat f ≠ 0);
}.

Record lists_rep (m : mem) (st : AllocatorState) (fs : list (Z * Z)) (F : Z → list Z) : Prop := {
  rep_bitmaps : bitmaps_ok st F;
  rep_chain i : 0 ≤ i < 704 → chain m (free_lists st !!! Z.to_nat i) (F i);
  rep_mem i a : 0 ≤ i < 704 → a ∈ F i ↔ ∃ s, (a, s) ∈ fs ∧ class_of s = i;
  rep_nodup i : 0 ≤ i < 704 → NoDup (F i);
}.

Record entries_ok (m : mem) (st : AllocatorState) (fs : list (Z * Z)) : Prop := {
  entries_each e : e ∈ fs → entry_ok m st e;
  entries_nodup : NoDup fs;
  entries_disjoint e e' : e ∈ fs → e' ∈ fs → e = e' ∨ disjoint_from e e';
}.

Definition lists_ok (m : mem) (st : AllocatorState) (fs : list (Z * Z)) : Prop :=
  entries_ok m st fs ∧ ∃ F, lists_rep m st fs F.

(** What the list operations leave alone in the state. *)
Definition same_bounds (st st' : AllocatorState) : Prop :=
  start st' = start st ∧ end_ st' = end_ st ∧
  available st' = available st ∧ initialized st' = initialized st.

#[export] Instance same_bounds_preorder : PreOrder same_bounds.
Proof. split; unfold same_bounds; [done|]. intros ? ? ?; intuition congruence. Qed.

(** ** Headers *)

Section Headers.
Context (m : mem) (b s : Z).
Hypothesis Hs : s mod 16 = 0.
Hypothesis Hrange : 0 ≤ s < 2 ^ 63.

Lemma even_of_16 : s mod 2 = 0.
Proof using Hs. rewrite (Z.div_mod s 16) by lia. rewrite Hs. 
  replace (16 * (s / 16) + 0) with (8 * (s / 16) * 2) by lia. apply Z.mod_mul. lia. Qed.

Lemma block_size_flag f : 0 ≤ f ≤ 1 → m b = s + f → block_size m b = s.
Proof using Hs Hrange.
  intros Hf E. unfold block_size, block_raw_size, BLOCK_USED_FLAG. rewrite E.
  rewrite land_unot64_one by lia.
  rewrite Z.add_mod, even_of_16 by lia. rewrite Z.add_0_l, Z.mod_mod by lia.
  rewrite (Z.mod_small f 2) by lia. lia.
Qed.

Lemma block_is_used_flag f : 0 ≤ f ≤ 1 → m b = s + f → block_is_used m b = (f =? 1).
Proof using Hs.
  intros Hf E. unfold block_is_used, block_raw_size, BLOCK_USED_FLAG.
  rewrite E, land_one, Z.add_mod, even_of_16 by lia.
  rewrite Z.add_0_l, Z.mod_mod, Z.mod_small by lia. cmp_cases; simpl; lia.
Qed.

(** Whatever a word held, setting its size and then its flag gives the header. *)
Lemma set_size_used : block_set_used (block_set_size m b s) b b = s + 1.
Proof using Hs.
  unfold block_set_used, block_set_size, block_raw_size, BLOCK_USED_FLAG.
  rewrite !mem_write_eq, <- Z.lor_assoc, land_one.
  replace (Z.lor (m b mod 2) 1) with 1.
  - apply lor_flag; [apply even_of_16|lia].
  - pose proof (Z.mod_pos_bound (m b) 2 ltac:(lia)).
    assert (m b mod 2 = 0 ∨ m b mod 2 = 1) as [-> | ->] by lia; done.
Qed.

Lemma set_size_free : block_clear_used (block_set_size m b s) b b = s.
Proof using Hs Hrange.
  unfold block_clear_used, block_set_size, block_raw_size, BLOCK_USED_FLAG.
  rewrite !mem_write_eq, land_one.
  pose proof (Z.mod_pos_bound (m b) 2 ltac:(lia)).
  rewrite lor_flag by (apply even_of_16 || lia).
  rewrite land_unot64_one by lia.
  rewrite Z.add_mod, even_of_16 by lia.
  rewrite Z.add_0_l, Z.mod_mod, Z.mod_mod by lia. lia.
Qed.
End Headers.

Lemma set_size_used_ne m b s x : x ≠ b → block_set_used (block_set_size m b s) b x = m x.
Proof. intros. unfold block_set_used, block_set_size. by rewrite !mem_write_ne. Qed.

Lemma set_size_free_ne m b s x : x ≠ b → block_clear_used (block_set_size m b s) b x = m x.
Proof. intros. unfold block_clear_used, block_set_size. by rewrite !mem_write_ne. Qed.

Lemma entry_block_size m st e : entry_ok m st e → block_size m e.1 = e.2.
Proof.
  intros [? ? [? ?] ? ? ? ?]. unfold KERNEL_HEAP_SIZE in *.
  apply (block_size_flag m e.1 e.2) with 0; lia.
Qed.

Lemma entry_not_used m st e : entry_ok m st e → block_is_used m e.1 = false.
Proof.
  intros [? ? [? ?] ? ? ? ?]. rewrite (block_is_used_flag m e.1 e.2) with (f := 0); done || lia.
Qed.

Lemma entry_validate m st e :
  entry_ok m st e → validate_block m st e.1 = Ret (mapping e.2).
Proof.
  intros He. pose proof He as [Hst Hal [Hlo Hhi] Hsa Hend Hmax Hh].
  unfold validate_block. rewrite (entry_block_size m st e He).
  unfold MIN_FREE_BLOCK, HEAP_BLOCK_ALIGNMENT.
  rewrite wrapping_add_small by lia.
  rewrite (proj2 (is_multiple_of_true _ _) Hal).
  destruct (mapping e.2) as [fl sl] eqn:Em.
  pose proof (mapping_range e.2 fl sl) as Hr. unfold KERNEL_HEAP_SIZE in *.
  specialize (Hr ltac:(lia) Em) as [[? ?] ?].
  cmp_cases; simpl; done || lia.
Qed.

Lemma entry_classify `{HeapEnv} m st e :
  entry_ok m st e → classify_block m st e.1 e.2 = Ret (mapping e.2).
Proof.
  intros He. unfold classify_block. destruct debug_assertions; [|done].
  by apply entry_validate.
Qed.

Lemma entry_list_index m st e :
  entry_ok m st e →
  ∃ fl sl, mapping e.2 = (fl, sl) ∧ 0 ≤ fl - FL_MIN < 22 ∧ 0 ≤ sl < 32 ∧
    class_of e.2 = (fl - FL_MIN) * 32 + sl ∧ list_index fl sl = Ret (class_of e.2).
Proof.
  intros [? ? [? ?] ? ? ? ?]. unfold KERNEL_HEAP_SIZE in *.
  destruct (mapping e.2) as [fl sl] eqn:Em. exists fl, sl.
  pose proof (mapping_range e.2 fl sl ltac:(lia) Em) as [[? ?] [? ?]].
  pose proof (mapping_class e.2 fl sl Em) as Hc.
  unfold FL_MIN, FL_MAX, SL_COUNT in *. repeat split; try lia.
  unfold list_index, FL_MIN, FL_MAX, SL_COUNT. rewrite Hc. cmp_cases; simpl; done || lia.
Qed.

(** ** Chains *)

Lemma chain_frame m m' head l :
  (∀ x, x ∈ l → m' (x + 16) = m (x + 16)) → chain m head l → chain m' head l.
Proof.
  revert head. induction l as [|x l IH]; intros head Hf; [done|].
  intros (-> & ? & Hc). split; [done|]. split; [done|].
  unfold block_next_free, FREE_NEXT_OFFSET, HEADER_SIZE.
  rewrite Hf by set_solver. apply IH; [set_solver|done].
Qed.

Lemma chain_app m head l1 x l2 :
  chain m head (l1 ++ x :: l2) → chain m (block_next_free m x) l2.
Proof.
  revert head. induction l1 as [|y l1 IH]; intros head; cbn; [tauto|].
  intros (_ & _ & Hc). by apply IH in Hc.
Qed.

Lemma chain_head m hd l : chain m hd l → hd = default 0 (head l).
Proof. destruct l; [done|]. by intros [-> _]. Qed.

Lemma next_free_set_eq m p n : block_next_free (block_set_next_free m p n) p = n.
Proof. unfold block_next_free, block_set_next_free. apply mem_write_eq. Qed.

Lemma next_free_set_ne m p n x :
  x ≠ p → block_next_free (block_set_next_free m p n) x = block_next_free m x.
Proof. intros. unfold block_next_free, block_set_next_free. apply mem_write_ne. lia. Qed.

(** Linking the predecessor [p] of [x] past [x] takes [x] out of the chain. *)
Lemma chain_unlink m head l1 p x l2 :
  NoDup (l1 ++ p :: x :: l2) →
  chain m head (l1 ++ p :: x :: l2) →
  chain (block_set_next_free m p (block_next_free m x)) head (l1 ++ p :: l2).
Proof.
  revert head. induction l1 as [|y l1 IH]; intros head Hnd Hc.
  - cbn in Hc |- *. destruct Hc as (-> & ? & _ & ? & Hc). do 2 (split; [done|]).
    rewrite next_free_set_eq. revert Hc. apply chain_frame. intros z Hz.
    apply next_free_set_ne. cbn in Hnd. apply NoDup_cons in Hnd as [Hp _]. set_solver.
  - cbn in Hc, Hnd |- *. apply NoDup_cons in Hnd as [Hy Hnd].
    destruct Hc as (-> & ? & Hc). do 2 (split; [done|]).
    rewrite next_free_set_ne; [by apply IH|]. set_solver.
Qed.

(** ** Bitmaps *)

(** The list contents after the list of index [idx] becomes [l]. *)
Definition set_list (F : Z → list Z) (idx : Z) (l : list Z) : Z → list Z :=
  λ i, if i =? idx then l else F i.

Lemma set_list_eq F idx l : set_list F idx l idx = l.
Proof. unfold set_list. by rewrite Z.eqb_refl. Qed.

Lemma set_list_ne F idx l i : i ≠ idx → set_list F idx l i = F i.
Proof. intros. unfold set_list. by destruct (Z.eqb_spec i idx). Qed.

Lemma array_insert_eq (l : list Z) i v :
  0 ≤ i < Z.of_nat (length l) → <[Z.to_nat i := v]> l !!! Z.to_nat i = v.
Proof. intros. apply list_lookup_total_insert_eq. lia. Qed.

Lemma array_insert_ne (l : list Z) i j v :
  0 ≤ i → 0 ≤ j → i ≠ j → <[Z.to_nat i := v]> l !!! Z.to_nat j = l !!! Z.to_nat j.
Proof. intros. apply list_lookup_total_insert_ne. lia. Qed.

Lemma lor_bit_range x k w : 0 ≤ x < 2 ^ w → 0 ≤ k < w → 0 ≤ Z.lor x (Z.shiftl 1 k) < 2 ^ w.
Proof.
  intros Hx Hk. rewrite Z.shiftl_1_l. pose proof (Z.pow_nonneg 2 k ltac:(lia)).
  assert (0 ≤ Z.lor x (2 ^ k)) by (apply Z.lor_nonneg; lia). split; [done|].
  apply testbit_bounded; [lia|done|]. intros i Hi.
  rewrite Z.lor_spec, (testbit_above x w), Z.pow2_bits_eqb by lia. cmp_cases; [lia|done].
Qed.

Lemma land_range x y w : 0 ≤ x < 2 ^ w → 0 ≤ w → 0 ≤ Z.land x y < 2 ^ w.
Proof.
  intros Hx Hw. assert (0 ≤ Z.land x y) by (apply land_nonneg_l; lia). split; [done|].
  apply testbit_bounded; [done|done|]. intros i Hi. by rewrite Z.land_spec, (testbit_above x w).
Qed.

Section Bitmaps.
Context (st : AllocatorState) (F : Z → list Z) (f s : Z).
Hypothesis Hb : bitmaps_ok st F.
Hypothesis Hf : 0 ≤ f < 22.
Hypothesis Hs : 0 ≤ s < 32.

Lemma index_inj f' s' : 0 ≤ s' < 32 → f' * 32 + s' = f * 32 + s → f' = f ∧ s' = s.
Proof using Hs. lia. Qed.

Lemma bitmaps_insert frees l :
  l ≠ [] → length frees = 704%nat →
  bitmaps_ok
    (set_lists st (Z.lor (fl_bitmap st) (Z.shiftl 1 f))
       (<[Z.to_nat f := Z.lor (sl_bitmaps st !!! Z.to_nat f) (Z.shiftl 1 s)]> (sl_bitmaps st))
       frees)
    (set_list F (f * 32 + s) l).
Proof using Hb Hf Hs.
  intros Hl Hlen. destruct Hb as [Hsl Hfree Hslr Hslb Hflr Hflb].
  assert (0 < Z.lor (sl_bitmaps st !!! Z.to_nat f) (Z.shiftl 1 s)) as Hpos.
  { pose proof (lor_bit_range _ s 32 (Hslr f Hf) ltac:(lia)).
    enough (Z.lor (sl_bitmaps st !!! Z.to_nat f) (Z.shiftl 1 s) ≠ 0) by lia.
    apply (testbit_nonzero _ s).
    rewrite Z.lor_spec, Z.shiftl_1_l, Z.pow2_bits_true by lia. apply orb_true_r. }
  split; simpl; rewrite ?length_insert; try done.
  - intros f' Hf'. destruct (decide (f' = f)) as [->|].
    + rewrite array_insert_eq by lia. apply lor_bit_range; [by apply Hslr|lia].
    + rewrite array_insert_ne by lia. by apply Hslr.
  - intros f' s' Hf' Hs'. destruct (decide (f' = f)) as [->|].
    + rewrite array_insert_eq by lia. rewrite Z.lor_spec, Hslb by done.
      rewrite Z.shiftl_1_l, Z.pow2_bits_eqb by lia. destruct (Z.eqb_spec s s') as [<-|].
      * rewrite set_list_eq, orb_true_r. symmetry. by apply bool_decide_eq_true.
      * rewrite set_list_ne, orb_false_r by lia. done.
    + rewrite array_insert_ne by lia. rewrite set_list_ne by lia. by apply Hslb.
  - apply lor_bit_range; [done|lia].
  - intros f' Hf'. rewrite Z.lor_spec, Hflb, Z.shiftl_1_l, Z.pow2_bits_eqb by lia.
    destruct (Z.eqb_spec f f') as [<-|].
    + rewrite array_insert_eq, orb_true_r by lia. symmetry. apply bool_decide_eq_true. lia.
    + by rewrite array_insert_ne, orb_false_r by lia.
Qed.

(** Emptying a list clears its bit, and the row bit when the row empties. *)
Lemma bitmaps_clear frees :
  length frees = 704%nat →
  let row := Z.land (sl_bitmaps st !!! Z.to_nat f) (unot32 (Z.shiftl 1 s)) in
  bitmaps_ok
    (set_lists st
       (if row =? 0 then Z.land (fl_bitmap st) (unot32 (Z.shiftl 1 f)) else fl_bitmap st)
       (<[Z.to_nat f := row]> (sl_bitmaps st)) frees)
    (set_list F (f * 32 + s) []).
Proof using Hb Hf Hs.
  intros Hlen row. destruct Hb as [Hsl Hfree Hslr Hslb Hflr Hflb].
  split; simpl; rewrite ?length_insert; try done.
  - intros f' Hf'. destruct (decide (f' = f)) as [->|].
    + rewrite array_insert_eq by lia. apply land_range; [by apply Hslr|lia].
    + rewrite array_insert_ne by lia. by apply Hslr.
  - intros f' s' Hf' Hs'. destruct (decide (f' = f)) as [->|].
    + rewrite array_insert_eq by lia. unfold row. rewrite Z.land_spec, Hslb by done.
      rewrite Z.shiftl_1_l, testbit_unot32_bit by lia.
      destruct (Z.eqb_spec s' s) as [->|]; simpl.
      * rewrite set_list_eq. simpl. by rewrite !andb_false_r.
      * rewrite set_list_ne by lia. destruct (Z.ltb_spec s' 32); [|lia].
        by rewrite andb_true_r.
    + rewrite array_insert_ne by lia. rewrite set_list_ne by lia. by apply Hslb.
  - destruct (row =? 0); [apply land_range; [done|lia]|done].
  - intros f' Hf'. destruct (decide (f' = f)) as [->|].
    + rewrite array_insert_eq by lia. destruct (Z.eqb_spec row 0) as [E|E].
      * rewrite E, Z.land_spec, Z.shiftl_1_l, testbit_unot32_bit, Z.eqb_refl by lia.
        simpl. by rewrite !andb_false_r.
      * rewrite Hflb by lia. rewrite !(bool_decide_eq_true_2); [done|done|].
        intros E'. apply E. unfold row. by rewrite E', Z.land_0_l.
    + rewrite array_insert_ne by lia. destruct (Z.eqb_spec row 0); [|by apply Hflb].
      rewrite Z.land_spec, Hflb, Z.shiftl_1_l, testbit_unot32_bit by lia.
      destruct (Z.eqb_spec f' f), (Z.ltb_spec f' 32); try lia. simpl. apply andb_true_r.
Qed.

(** Changing a list without changing whether it is empty. *)
Lemma bitmaps_same frees l :
  l ≠ [] → F (f * 32 + s) ≠ [] → length frees = 704%nat →
  bitmaps_ok (set_lists st (fl_bitmap st) (sl_bitmaps st) frees) (set_list F (f * 32 + s) l).
Proof using Hb Hf Hs.
  intros Hl HF Hlen. destruct Hb as [Hsl Hfree Hslr Hslb Hflr Hflb].
  split; simpl; try done. intros f' s' Hf' Hs'. rewrite Hslb by done.
  destruct (decide (f' * 32 + s' = f * 32 + s)) as [E|].
  - rewrite E, set_list_eq. by rewrite !bool_decide_eq_true_2.
  - by rewrite set_list_ne.
Qed.
End Bitmaps.

(** ** Stability of [lists_ok] *)

#[export] Instance lists_ok_perm m st : Proper ((≡ₚ) ==> iff) (lists_ok m st).
Proof.
  enough (∀ fs fs', fs ≡ₚ fs' → lists_ok m st fs → lists_ok m st fs') as H.
  { intros fs fs' E. split; apply H; [done|by symmetry]. }
  intros fs fs' E ([He Hn Hd] & F & [Hb Hc Hm Hnd]). split.
  - split.
    + intros e Hi. apply He. by rewrite E.
    + by rewrite <- E.
    + intros e e' Hi Hi'. apply Hd; by rewrite E.
  - exists F. split; try done. intros i a Hi. rewrite Hm by done.
    by setoid_rewrite E.
Qed.

Lemma entry_ok_frame m m' st st' e :
  m' e.1 = m e.1 → start st' = start st → end_ st' = end_ st →
  entry_ok m st e → entry_ok m' st' e.
Proof. intros E Es Ee []. split; rewrite ?Es, ?Ee; congruence. Qed.

Lemma entries_ok_frame m m' st st' fs :
  (∀ e, e ∈ fs → m' e.1 = m e.1) → start st' = start st → end_ st' = end_ st →
  entries_ok m st fs → entries_ok m' st' fs.
Proof.
  intros E Es Ee [He Hn Hd]. split; try done. intros e Hi.
  eapply (entry_ok_frame m); [by apply E|done|done|by apply He].
Qed.

Lemma entries_cons m st e fs :
  entry_ok m st e → entries_ok m st fs → (∀ e', e' ∈ fs → disjoint_from e e') →
  entries_ok m st (e :: fs).
Proof.
  intros He [Hfs Hn Hd] Hde. split.
  - intros e' [->|Hi]%elem_of_cons; auto.
  - apply NoDup_cons. split; [|done]. intros Hi. destruct He.
    destruct (Hde _ Hi); simpl in *; lia.
  - intros e1 e2 [->|H1]%elem_of_cons [->|H2]%elem_of_cons; auto.
    right. destruct (Hde _ H1); [right|left]; done.
Qed.

(** Memory changes outside the words the lists use keep them. *)
Lemma lists_ok_frame m m' st st' fs :
  (∀ e, e ∈ fs → m' e.1 = m e.1 ∧ m' (e.1 + 16) = m (e.1 + 16)) →
  start st' = start st → end_ st' = end_ st → fl_bitmap st' = fl_bitmap st →
  sl_bitmaps st' = sl_bitmaps st → free_lists st' = free_lists st →
  lists_ok m st fs → lists_ok m' st' fs.
Proof.
  intros E Es Ee Ef Esl Efr (He & F & [Hb Hc Hm Hnd]). split.
  - apply (entries_ok_frame m m' st); try done. intros e Hi. by apply E.
  - exists F. split; try done.
    + destruct Hb as [? ? ? ? ? ?]. split; by rewrite ?Ef, ?Esl, ?Efr.
    + intros i Hi. rewrite Efr. apply (chain_frame m); [|by apply Hc].
      intros x Hx. apply Hm in Hx as (s & Hx & _); [|done]. by apply (E (x, s)).
Qed.

(** ** Specifications of the list operations *)

Section Insert.
Context `{HeapEnv} (h : heap) (fs : list (Z * Z)) (block size : Z).
Let m := hmem h.
Let st := hstate h.
Hypothesis Hfs : lists_ok m st fs.
Hypothesis Hnew : entry_ok m st (block, size).
Hypothesis Hdisj : ∀ e, e ∈ fs → disjoint_from (block, size) e.

Lemma insert_memory head x :
  x ≠ block + 16 → x < block + 24 ∨ block + size ≤ x →
  zero_fresh_header_region (block_set_next_free m block head) block x = m x.
Proof using Hnew.
  intros H1 H2. pose proof Hnew as [? ? [? ?] ? ? ? Hh]. simpl in *.
  unfold zero_fresh_header_region, block_set_next_free, FREE_NEXT_OFFSET, HEADER_SIZE.
  assert (Hsz : block_size (mem_write m (block + 16) head) block = size).
  { apply (block_size_flag _ _ _) with 0; try (unfold KERNEL_HEAP_SIZE in *; lia).
    rewrite mem_write_ne by lia. lia. }
  rewrite Hsz. destruct (Z.ltb_spec (block + 16 + 8) (Z.min (block + FRESH_ZERO_BYTES) (block + size))).
  - rewrite mem_zero_out by lia. by apply mem_write_ne.
  - by apply mem_write_ne.
Qed.

Lemma insert_memory_next head :
  zero_fresh_header_region (block_set_next_free m block head) block (block + 16) = head.
Proof using.
  unfold zero_fresh_header_region, block_set_next_free, FREE_NEXT_OFFSET, HEADER_SIZE.
  match goal with |- context [if ?b then _ else _] => destruct b end.
  - rewrite mem_zero_out by lia. apply mem_write_eq.
  - apply mem_write_eq.
Qed.

Lemma insert_frame head e :
  e ∈ fs →
  let m' := zero_fresh_header_region (block_set_next_free m block head) block in
  m' e.1 = m e.1 ∧ m' (e.1 + 16) = m (e.1 + 16).
Proof using Hfs Hnew Hdisj.
  intros Hi. pose proof (Hdisj e Hi) as Hd. unfold disjoint_from in Hd. simpl in Hd.
  destruct (entries_each _ _ _ (proj1 Hfs) e Hi), Hnew. simpl in *.
  split; apply insert_memory; lia.
Qed.

(** The lists after [block] is pushed on the list of its class. *)
Lemma insert_rep F f s head :
  lists_rep m st fs F →
  0 ≤ f < 22 → 0 ≤ s < 32 → class_of size = f * 32 + s →
  head = free_lists st !!! Z.to_nat (f * 32 + s) →
  lists_rep (zero_fresh_header_region (block_set_next_free m block head) block)
    (set_lists st (Z.lor (fl_bitmap st) (Z.shiftl 1 f))
       (<[Z.to_nat f := Z.lor (sl_bitmaps st !!! Z.to_nat f) (Z.shiftl 1 s)]> (sl_bitmaps st))
       (<[Z.to_nat (f * 32 + s) := block]> (free_lists st)))
    ((block, size) :: fs) (set_list F (f * 32 + s) (block :: F (f * 32 + s))).
Proof using Hfs Hnew Hdisj.
  intros [Hb Hc Hm Hnd] Hf Hs Hcl ->. pose proof Hnew as [? ? ? ? ? ? ?]. simpl in *.
  set (idx := f * 32 + s) in *. assert (Hidx : 0 ≤ idx < 704) by lia.
  assert (Hframe : ∀ i hd, 0 ≤ i < 704 → chain m hd (F i) →
    chain (zero_fresh_header_region (block_set_next_free m block
             (free_lists st !!! Z.to_nat idx)) block) hd (F i)).
  { intros i hd Hi. apply chain_frame. intros x Hx.
    apply Hm in Hx as (s' & Hx & _); [|done]. by apply (insert_frame _ (x, s')). }
  split.
  - apply bitmaps_insert; try done. rewrite length_insert. apply Hb.
  - intros i Hi. simpl. destruct (decide (i = idx)) as [->|].
    + rewrite set_list_eq, array_insert_eq by (rewrite (free_length _ _ Hb); lia).
      split; [done|]. split; [lia|].
      unfold block_next_free, FREE_NEXT_OFFSET, HEADER_SIZE. rewrite insert_memory_next.
      apply Hframe; [done|by apply Hc].
    + rewrite set_list_ne, array_insert_ne by lia. apply Hframe; [done|by apply Hc].
  - intros i a Hi. destruct (decide (i = idx)) as [->|].
    + rewrite set_list_eq, elem_of_cons, Hm by done. set_solver.
    + rewrite set_list_ne, Hm by done. set_solver.
  - intros i Hi. destruct (decide (i = idx)) as [->|].
    + rewrite set_list_eq. apply NoDup_cons. split; [|by apply Hnd].
      rewrite Hm by done. intros (s' & Hi' & _). pose proof (Hdisj _ Hi') as [?|?];
      destruct (entries_each _ _ _ (proj1 Hfs) _ Hi'); simpl in *; lia.
    + rewrite set_list_ne by done. by apply Hnd.
Qed.

Lemma insert_free_block_spec :
  ∃ m' st', insert_free_block h block = Ret (set_state (set_mem h m') st') ∧
    lists_ok m' st' ((block, size) :: fs) ∧ same_bounds st st' ∧
    ∀ x, x < block + 16 ∨ block + size ≤ x → m' x = m x.
Proof using Hfs Hnew Hdisj.
  pose proof Hfs as (He & F & HF).
  destruct (entry_list_index m st _ Hnew) as (fl & sl & Em & Hfl & Hsl & Hcl & Hidx).
  pose proof (entry_not_used m st _ Hnew) as Hu. pose proof (entry_block_size m st _ Hnew) as Hsz.
  pose proof (entry_classify m st _ Hnew) as Hcb. simpl in *.
  pose proof (insert_rep F _ _ _ HF Hfl Hsl Hcl eq_refl) as HR.
  pose proof Hnew as [? ? ? ? ? ? ?]. simpl in *.
  eexists _, _. split; [|split; [split; [|eexists; exact HR]|split]]; try done.
  - unfold insert_free_block. fold m st. rewrite Hu, andb_false_r, Hsz.
    destruct (Z.ltb_spec size MIN_FREE_BLOCK); [unfold MIN_FREE_BLOCK in *; lia|].
    rewrite Hcb, Em. simpl. rewrite Hidx, Hcl. reflexivity.
  - apply entries_cons; try done.
    + eapply entry_ok_frame; [..|exact Hnew]; try done. apply insert_memory; simpl; lia.
    + apply (entries_ok_frame m _ st); try done. intros e Hi. by apply insert_frame.
  - intros x Hx. apply insert_memory; lia.
Qed.
End Insert.

Section Remove.
Context `{HeapEnv} (h : heap) (fs : list (Z * Z)) (block size : Z).
Let m := hmem h.
Let st := hstate h.

(** The walk reaches [block] and links its predecessor past it. *)
Lemma unlink_walk_spec fuel idx prev cur l1 l2 :
  chain m cur (l1 ++ block :: l2) → block ∉ l1 → (length l1 < fuel)%nat →
  (∀ x, x ∈ l1 ++ block :: l2 → ∃ p, validate_block m st x = Ret p) →
  unlink_walk fuel m st idx block prev cur =
    let p := default prev (last l1) in
    if p =? 0 then Ret (m, <[Z.to_nat idx := block_next_free m block]> (free_lists st))
    else Ret (block_set_next_free m p (block_next_free m block), free_lists st).
Proof using.
  revert fuel prev cur. induction l1 as [|y l1 IH]; intros fuel prev cur Hc Hnb Hfuel Hval.
  - destruct fuel as [|fuel]; [simpl in Hfuel; lia|]. cbn in Hc. destruct Hc as (-> & Hne & Hc).
    cbn. destruct (Z.eqb_spec block 0); [done|].
    destruct (Hval block) as [p Hp]; [set_solver|]. rewrite Hp, Z.eqb_refl.
    by destruct debug_assertions.
  - destruct fuel as [|fuel]; [simpl in Hfuel; lia|].
    cbn in Hc. destruct Hc as (-> & Hne & Hc). apply not_elem_of_cons in Hnb as [Hy Hnb].
    assert (E : unlink_walk (S fuel) m st idx block prev y =
                unlink_walk fuel m st idx block y (block_next_free m y)).
    { cbn. destruct (Z.eqb_spec y 0); [done|].
      destruct (Hval y) as [p Hp]; [set_solver|]. rewrite Hp.
      destruct (Z.eqb_spec y block); [congruence|]. by destruct debug_assertions. }
    rewrite E. rewrite (IH fuel y); try done.
    + destruct l1 as [|z l1]; [done|]. change (last (y :: z :: l1)) with (last (z :: l1)).
      destruct (last (z :: l1)) eqn:El; [done|by apply last_None in El].
    + simpl in Hfuel. lia.
    + set_solver.
Qed.

Hypothesis Hfs : lists_ok m st ((block, size) :: fs).

Lemma remove_rest : entries_ok m st fs.
Proof using Hfs.
  destruct Hfs as [[He Hn Hd] _]. apply NoDup_cons in Hn as [_ Hn].
  split; [|done|]; set_solver.
Qed.

Lemma remove_disjoint e : e ∈ fs → disjoint_from (block, size) e.
Proof using Hfs.
  intros Hi. destruct Hfs as [[He Hn Hd] _]. apply NoDup_cons in Hn as [Hni Hn].
  destruct (Hd (block, size) e) as [<-|]; [set_solver..| |done]. done.
Qed.

Lemma remove_member F i a l1 l2 :
  lists_rep m st ((block, size) :: fs) F → 0 ≤ i < 704 → F i = l1 ++ block :: l2 →
  a ∈ l1 ++ l2 ↔ ∃ s, (a, s) ∈ fs ∧ class_of s = i.
Proof using Hfs.
  intros [Hb Hc Hm Hnd] Hi HF. pose proof (Hm i a Hi) as Hma. rewrite HF in Hma.
  pose proof (Hnd i Hi) as Hn. rewrite HF in Hn. apply NoDup_app in Hn as (_ & Hn12 & Hn2).
  apply NoDup_cons in Hn2 as [Hbl2 _]. split.
  - intros Ha. destruct Hma as [(s' & Hin & Hcs) _]; [set_solver|].
    exists s'. split; [|done]. apply elem_of_cons in Hin as [[= -> ->]|]; [|done].
    set_solver.
  - intros (s' & Hin & Hcs). destruct Hma as [_ Hma].
    assert (a ∈ l1 ++ block :: l2) as Ha by (apply Hma; set_solver).
    assert (a ≠ block); [|set_solver]. intros ->.
    pose proof (remove_disjoint _ Hin) as [?|?];
    destruct (entries_each _ _ _ remove_rest _ Hin),
      (entries_each _ _ _ (proj1 Hfs) (block, size)); set_solver by lia.
Qed.

(** The lists with [block] taken out of the list [l1 ++ block :: l2]. *)
Lemma remove_rep m' st' F f s l1 l2 :
  lists_rep m st ((block, size) :: fs) F →
  0 ≤ f < 22 → 0 ≤ s < 32 → class_of size = f * 32 + s →
  F (f * 32 + s) = l1 ++ block :: l2 →
  bitmaps_ok st' (set_list F (f * 32 + s) (l1 ++ l2)) →
  (∀ i, 0 ≤ i → i ≠ f * 32 + s →
     free_lists st' !!! Z.to_nat i = free_lists st !!! Z.to_nat i) →
  chain m' (free_lists st' !!! Z.to_nat (f * 32 + s)) (l1 ++ l2) →
  (∀ e, e ∈ fs → class_of e.2 ≠ f * 32 + s → m' (e.1 + 16) = m (e.1 + 16)) →
  lists_rep m' st' fs (set_list F (f * 32 + s) (l1 ++ l2)).
Proof using Hfs.
  intros HR Hf Hs Hcl HF Hb' Hfl' Hch Hmem. pose proof HR as [Hb Hc Hm Hnd].
  set (idx := f * 32 + s) in *. assert (Hidx : 0 ≤ idx < 704) by lia.
  pose proof (Hnd idx Hidx) as Hn. rewrite HF in Hn.
  pose proof (NoDup_app l1 (block :: l2)) as Hna. apply Hna in Hn as (Hn1 & Hn12 & Hn2).
  apply NoDup_cons in Hn2 as [Hbl2 Hn2]. clear Hna.
  split; [done| | |].
  - intros i Hi. destruct (decide (i = idx)) as [->|Hne]; [by rewrite set_list_eq|].
    rewrite set_list_ne, Hfl' by lia. apply (chain_frame m); [|by apply Hc].
    intros x Hx. apply Hm in Hx as (s' & Hx & Hcx); [|done].
    apply elem_of_cons in Hx as [[= -> ->]|Hx]; [congruence|].
    apply (Hmem (x, s')); simpl; congruence.
  - intros i a Hi. destruct (decide (i = idx)) as [->|Hne].
    + rewrite set_list_eq. by apply (remove_member F).
    + rewrite set_list_ne, Hm by done. set_solver.
  - intros i Hi. destruct (decide (i = idx)) as [->|]; [|rewrite set_list_ne by done; by apply Hnd].
    rewrite set_list_eq. apply NoDup_app. set_solver.
Qed.

(** Where the walk of a list that holds [block] ends. *)
Lemma unlink_result F f s l1 l2 :
  lists_rep m st ((block, size) :: fs) F →
  0 ≤ f < 22 → 0 ≤ s < 32 → F (f * 32 + s) = l1 ++ block :: l2 →
  (length fs < walk_fuel)%nat →
  ∃ m' frees,
    unlink_walk walk_fuel m st (f * 32 + s) block 0 (free_lists st !!! Z.to_nat (f * 32 + s))
      = Ret (m', frees) ∧
    length frees = 704%nat ∧
    chain m' (frees !!! Z.to_nat (f * 32 + s)) (l1 ++ l2) ∧
    (∀ i, 0 ≤ i → i ≠ f * 32 + s → frees !!! Z.to_nat i = free_lists st !!! Z.to_nat i) ∧
    (∀ x, (∀ a, a ∈ l1 ++ l2 → x ≠ a + 16) → m' x = m x).
Proof using Hfs.
  intros [Hb Hc Hm Hnd] Hf Hs HF Hfuel.
  set (idx := f * 32 + s) in *. assert (Hidx : 0 ≤ idx < 704) by lia.
  pose proof (Hc idx Hidx) as Hch. pose proof (Hnd idx Hidx) as Hn. rewrite HF in Hch, Hn.
  assert (Hval : ∀ x, x ∈ l1 ++ block :: l2 → ∃ p, validate_block m st x = Ret p).
  { intros x Hx. rewrite <- HF in Hx. apply Hm in Hx as (s' & Hx & _); [|done].
    eexists. apply (entry_validate m st (x, s')). by apply (proj1 Hfs). }
  assert (Hlen : (length (l1 ++ block :: l2) ≤ S (length fs))%nat).
  { change (S (length fs)) with (length ((block, size) :: fs)).
    rewrite <- (length_fmap fst ((block, size) :: fs)). apply submseteq_length, NoDup_submseteq; [done|].
    intros x Hx. rewrite <- HF in Hx. apply Hm in Hx as (s' & Hx & _); [|done].
    apply list_elem_of_fmap. by exists (x, s'). }
  rewrite length_app in Hlen. simpl in Hlen.
  assert (Hb1 : block ∉ l1) by (apply NoDup_app in Hn as (_ & Hn & _); set_solver).
  rewrite (unlink_walk_spec _ _ _ _ l1 l2); try done; [|lia].
  destruct (last l1) as [p|] eqn:El; simpl.
  - apply last_Some in El as [l1' ->]. rewrite <- app_assoc in Hch, Hn |- *. simpl in *.
    assert (p ≠ 0) as Hp.
    { destruct (Hval p) as [q Hq]; [set_solver|]. unfold validate_block in Hq.
      intros ->. by simpl in Hq. }
    destruct (Z.eqb_spec p 0); [done|].
    eexists _, _. split; [done|]. split; [apply Hb|]. split; [by apply chain_unlink|].
    split; [done|]. intros x Hx. apply mem_write_ne. apply Hx. set_solver.
  - apply last_None in El as ->. simpl in *. eexists _, _. split; [done|].
    split; [rewrite length_insert; apply Hb|]. split; [|split; [|done]].
    + rewrite array_insert_eq by (rewrite (free_length _ _ Hb); lia). apply Hch.
    + intros i ? ?. by rewrite array_insert_ne by lia.
Qed.

Lemma remove_free_block_spec :
  (length fs < walk_fuel)%nat →
  ∃ m' st', remove_free_block h block = Ret (set_state (set_mem h m') st') ∧
    lists_ok m' st' fs ∧ same_bounds st st' ∧
    ∀ x, (∀ e, e ∈ fs → x ≠ e.1 + 16) → m' x = m x.
Proof using Hfs.
  intros Hfuel. pose proof Hfs as (He & F & HF). pose proof HF as [Hb Hc Hm Hnd].
  assert (Hnew : entry_ok m st (block, size)) by (apply He; set_solver).
  destruct (entry_list_index m st _ Hnew) as (fl & sl & Em & Hfl & Hsl & Hcl & Hidx).
  pose proof (entry_block_size m st _ Hnew) as Hsz.
  pose proof (entry_classify m st _ Hnew) as Hcb. simpl in *.
  assert (block ∈ F ((fl - FL_MIN) * 32 + sl)) as Hin by (apply Hm; [lia|set_solver]).
  apply list_elem_of_split in Hin as (l1 & l2 & HFi).
  destruct (unlink_result F _ _ l1 l2 HF Hfl Hsl HFi Hfuel)
    as (m' & frees & Hw & Hlf & Hch & Hfr & Hmem).
  assert (Hmem' : ∀ x, (∀ e, e ∈ fs → x ≠ e.1 + 16) → m' x = m x).
  { intros x Hx. apply Hmem. intros a Ha.
    apply (remove_member F ((fl - FL_MIN) * 32 + sl) a l1 l2) in Ha as (s' & Hi & _); [|done|lia|done]. by apply (Hx _ Hi). }
  assert (Hother : ∀ e, e ∈ fs → class_of e.2 ≠ (fl - FL_MIN) * 32 + sl →
    m' (e.1 + 16) = m (e.1 + 16)).
  { intros e Hi Hcls. apply Hmem. intros a Ha E.
    apply (remove_member F ((fl - FL_MIN) * 32 + sl) a l1 l2) in Ha as (s' & Hi' & Hcls'); [|done|lia|done].
    destruct (entries_disjoint _ _ _ remove_rest _ _ Hi Hi') as [->|[?|?]]; [done|..];
    destruct (entries_each _ _ _ remove_rest _ Hi), (entries_each _ _ _ remove_rest _ Hi');
    simpl in *; lia. }
  assert (Hempty : frees !!! Z.to_nat ((fl - FL_MIN) * 32 + sl) = 0 ↔ l1 ++ l2 = []).
  { destruct (l1 ++ l2) as [|x l]; cbn in Hch; [done|]. destruct Hch as (-> & ? & _). naive_solver. }
  eexists m', _. split; [|split; [split|split; [|done]]].
  - unfold remove_free_block. fold m st. rewrite Hsz.
    destruct (Z.ltb_spec size MIN_FREE_BLOCK);
      [destruct Hnew; unfold MIN_FREE_BLOCK in *; simpl in *; lia|].
    rewrite Hcb, Em. cbn [mbind outcome_bind]. rewrite Hidx, Hcl. cbn [mbind outcome_bind].
    rewrite Hw. cbn [mbind outcome_bind]. rewrite (surjective_pairing (if _ =? 0 then _ else _)).
    reflexivity.
  - apply (entries_ok_frame m _ st); [|done..|apply remove_rest]. intros e Hi. apply Hmem'.
    intros e' Hi' E.
    destruct (entries_disjoint _ _ _ remove_rest _ _ Hi Hi') as [->|[?|?]];
    destruct (entries_each _ _ _ remove_rest _ Hi), (entries_each _ _ _ remove_rest _ Hi');
    simpl in *; lia.
  - eexists. eapply (remove_rep _ _ F); try done.
    destruct (Z.eqb_spec (frees !!! Z.to_nat ((fl - FL_MIN) * 32 + sl)) 0) as [E|E]; simpl.
    + rewrite (proj1 Hempty E). by apply bitmaps_clear.
    + apply bitmaps_same; try done; [tauto|]. rewrite HFi. by destruct l1.
  - done.
Qed.
End Remove.

(** ** Searching

    [search_from min] is the first list the search for [min] bytes looks at. *)
Definition search_from (min_size : Z) : Z :=
  let '(fl, sl) := if min_size <? 32 then (FL_MIN, 0) else mapping min_size in
  (Z.max FL_MIN (Z.min FL_MAX fl) - FL_MIN) * 32 + sl.

Lemma search_from_class min : 32 ≤ min < 2 ^ 27 → search_from min = class_of min.
Proof.
  intros Hm. unfold search_from, class_of. destruct (Z.ltb_spec min 32); [lia|].
  destruct (mapping min) as [fl sl] eqn:E. apply mapping_range in E; [|done].
  unfold FL_MIN, FL_MAX, SL_COUNT in *. lia.
Qed.

Lemma search_from_huge min : 2 ^ 27 ≤ min → 672 ≤ search_from min.
Proof.
  intros Hm. unfold search_from. destruct (Z.ltb_spec min 32); [lia|].
  rewrite mapping_eq by lia. pose proof (mantissa_range min ltac:(lia)).
  assert (27 ≤ Z.log2 min) by (apply Z.log2_le_pow2; lia).
  unfold FL_MIN, FL_MAX. lia.
Qed.

Section Search.
Context (m : mem) (st : AllocatorState) (fs : list (Z * Z)) (F : Z → list Z).
Hypothesis He : entries_ok m st fs.
Hypothesis HF : lists_rep m st fs F.

Lemma list_head_member i :
  0 ≤ i < 704 → F i ≠ [] →
  ∃ s, (free_lists st !!! Z.to_nat i, s) ∈ fs ∧ class_of s = i.
Proof using He HF.
  intros Hi Hne. destruct HF as [Hb Hc Hm Hnd]. specialize (Hc i Hi).
  destruct (F i) as [|x l] eqn:E; [done|]. destruct Hc as (-> & _).
  apply Hm; [done|]. rewrite E. set_solver.
Qed.

Lemma row_hit f : 0 ≤ f < 22 → ∀ s, 0 ≤ s < 32 →
  Z.testbit (sl_bitmaps st !!! Z.to_nat f) s = true →
  ∃ s', (free_lists st !!! Z.to_nat (f * 32 + s), s') ∈ fs ∧ class_of s' = f * 32 + s.
Proof using He HF.
  intros Hf s Hs Ht. apply list_head_member; [lia|].
  destruct HF as [Hb _ _ _]. rewrite (sl_bits _ _ Hb) in Ht by done.
  by apply bool_decide_eq_true in Ht.
Qed.

Lemma entry_bit e : e ∈ fs →
  ∃ f s, 0 ≤ f < 22 ∧ 0 ≤ s < 32 ∧ class_of e.2 = f * 32 + s ∧
    Z.testbit (sl_bitmaps st !!! Z.to_nat f) s = true.
Proof using He HF.
  intros Hi. pose proof (entries_each _ _ _ He e Hi) as Hok.
  destruct (entry_list_index m st e Hok) as (fl & sl & _ & Hf & Hs & Hcl & _).
  exists (fl - FL_MIN), sl. split; [done|]. split; [done|]. split; [done|].
  destruct HF as [Hb Hc Hm Hnd]. rewrite (sl_bits _ _ Hb) by done.
  apply bool_decide_eq_true. intros E.
  assert (e.1 ∈ F ((fl - FL_MIN) * 32 + sl)) as Hin.
  { apply Hm; [lia|]. exists e.2. by destruct e. }
  rewrite E in Hin. set_solver.
Qed.

(** The search within one row of the second-level bitmaps. *)
Lemma row_search f s :
  0 ≤ f < 22 → 0 ≤ s < 32 →
  let mask := Z.land (sl_bitmaps st !!! Z.to_nat f) (unot32 (Z.shiftl 1 s - 1)) in
  if mask =? 0
  then ∀ s', s ≤ s' < 32 → Z.testbit (sl_bitmaps st !!! Z.to_nat f) s' = false
  else s ≤ trailing_zeros mask < 32 ∧
       Z.testbit (sl_bitmaps st !!! Z.to_nat f) (trailing_zeros mask) = true.
Proof using He HF.
  intros Hf Hs mask. destruct HF as [Hb _ _ _].
  pose proof (sl_range _ _ Hb f Hf) as Hr.
  assert (Hmask : 0 ≤ mask < 2 ^ 32) by (apply land_range; [done|lia]).
  assert (Hbit : ∀ i, 0 ≤ i → Z.testbit mask i =
    Z.testbit (sl_bitmaps st !!! Z.to_nat f) i && ((s <=? i) && (i <? 32))).
  { intros i Hi. unfold mask. rewrite Z.land_spec, Z.shiftl_1_l.
    by rewrite testbit_unot32_mask by lia. }
  destruct (Z.eqb_spec mask 0) as [E|E].
  - intros s' Hs'. specialize (Hbit s' ltac:(lia)). rewrite E, Z.testbit_0_l in Hbit.
    destruct (Z.leb_spec s s'), (Z.ltb_spec s' 32); try lia.
    by rewrite !andb_true_r in Hbit.
  - pose proof (trailing_zeros_set mask ltac:(lia)) as Ht.
    rewrite Hbit in Ht by apply trailing_zeros_nonneg.
    apply andb_true_iff in Ht as [? [?%Z.leb_le ?%Z.ltb_lt]%andb_true_iff]. done.
Qed.

(** The search in the rows above [f]. *)
Lemma higher_rows f :
  0 ≤ f < 22 →
  let mask := Z.land (Z.land (fl_bitmap st) (Z.shiftl 1 FL_COUNT - 1))
                (unot32 (Z.shiftl 1 (f + 1) - 1)) in
  if mask =? 0
  then ∀ f' s, f < f' < 22 → 0 ≤ s → Z.testbit (sl_bitmaps st !!! Z.to_nat f') s = false
  else f < trailing_zeros mask < 22 ∧ sl_bitmaps st !!! Z.to_nat (trailing_zeros mask) ≠ 0.
Proof using He HF.
  intros Hf mask. destruct HF as [Hb _ _ _]. pose proof (fl_range _ _ Hb) as Hr.
  assert (Hmask : 0 ≤ mask < 2 ^ 22) by (apply land_range; [apply land_range|]; lia).
  assert (Hbit : ∀ i, 0 ≤ i < 22 → Z.testbit mask i = Z.testbit (fl_bitmap st) i && (f <? i)).
  { intros i Hi. unfold mask. rewrite !Z.land_spec. change (Z.shiftl 1 FL_COUNT - 1) with (Z.ones 22).
    rewrite Z.shiftl_1_l, testbit_unot32_mask, Z.ones_spec_low, andb_true_r by lia.
    f_equal. cmp_cases; simpl; lia. }
  destruct (Z.eqb_spec mask 0) as [E|E].
  - intros f' s Hf' Hs. specialize (Hbit f' ltac:(lia)). rewrite E, Z.testbit_0_l in Hbit.
    destruct (Z.ltb_spec f f'); [|lia]. rewrite andb_true_r, (fl_bits _ _ Hb) in Hbit by lia.
    symmetry in Hbit. apply bool_decide_eq_false in Hbit. apply dec_stable in Hbit.
    by rewrite Hbit, Z.testbit_0_l.
  - pose proof (trailing_zeros_bound mask 22 ltac:(lia)) as Hb'.
    pose proof (trailing_zeros_set mask ltac:(lia)) as Ht.
    rewrite Hbit, (fl_bits _ _ Hb) in Ht by lia.
    apply andb_true_iff in Ht as [?%bool_decide_eq_true ?%Z.ltb_lt]. split; [lia|done].
Qed.

Lemma list_index_ok f s : 0 ≤ f < 22 → 0 ≤ s < 32 → list_index (f + FL_MIN) s = Ret (f * 32 + s).
Proof using.
  intros. unfold list_index, FL_MIN, FL_MAX, SL_COUNT. cmp_cases; simpl; try lia. f_equal. lia.
Qed.

Lemma find_suitable_block_spec min :
  32 ≤ min < 2 ^ 64 →
  ∃ c, find_suitable_block st min = Ret c ∧
    ((c = 0 ∧ ∀ e, e ∈ fs → class_of e.2 < search_from min) ∨
     (∃ s, (c, s) ∈ fs ∧ search_from min ≤ class_of s)).
Proof using He HF.
  intros Hmin. unfold find_suitable_block, search_from.
  change (Z.shiftl 1 FL_MIN) with 32. destruct (Z.ltb_spec min 32); [lia|].
  rewrite mapping_eq by lia. pose proof (mantissa_range min ltac:(lia)) as Hma.
  set (s := min / 2 ^ (Z.log2 min - 5) - 32) in *. assert (Hs : 0 ≤ s < 32) by lia.
  set (f := Z.max FL_MIN (Z.min FL_MAX (Z.log2 min)) - FL_MIN).
  assert (Hf : 0 ≤ f < 22) by (unfold f, FL_MIN, FL_MAX; lia).
  replace (Z.max FL_MIN (Z.min FL_MAX (Z.log2 min))) with (f + FL_MIN) by (unfold f; lia).
  replace (f + FL_MIN - FL_MIN) with f by lia.
  pose proof (row_search f s Hf Hs) as Hrow. simpl in Hrow.
  destruct (Z.eqb_spec (Z.land (sl_bitmaps st !!! Z.to_nat f) (unot32 (Z.shiftl 1 s - 1))) 0); simpl.
  2:{ destruct Hrow as [Ht Hbit]. rewrite list_index_ok by lia. simpl. eexists. split; [done|right].
      apply row_hit in Hbit as (s' & Hin & Hcl); [|lia..]. exists s'. split; [done|lia]. }
  pose proof (higher_rows f Hf) as Hhi. simpl in Hhi.
  set (fm := Z.land (Z.land (fl_bitmap st) _) _) in *.
  destruct (Z.eqb_spec fm 0); simpl.
  - eexists. split; [done|left]. split; [done|]. intros e' Hi.
    destruct (entry_bit e' Hi) as (f' & s' & Hf' & Hs' & -> & Hbit).
    destruct (Z.lt_trichotomy f' f) as [?|[->|?]]; [lia| |].
    + destruct (Z.lt_ge_cases s' s); [lia|]. rewrite Hrow in Hbit by lia. done.
    + rewrite Hhi in Hbit by lia. done.
  - destruct Hhi as [Ht Hne]. set (f' := trailing_zeros fm) in *. clearbody f'.
    destruct (Z.eqb_spec (sl_bitmaps st !!! Z.to_nat f') 0); [done|]. simpl.
    pose proof (sl_range _ _ (rep_bitmaps _ _ _ _ HF) f' ltac:(lia)) as Hr.
    set (row := sl_bitmaps st !!! Z.to_nat f') in *.
    assert (Hpos : 0 < row) by (clear - Hr n0; lia).
    pose proof (trailing_zeros_bound row 32 ltac:(clear - Hr Hpos; lia)) as Hts.
    rewrite list_index_ok by lia. simpl. eexists. split; [done|right].
    destruct (row_hit f' ltac:(lia) _ Hts (trailing_zeros_set _ Hpos))
      as (s' & Hin & Hcl).
    exists s'. split; [done|lia].
Qed.
End Search.
