(* ===== verification/TlsfBlocks.v ===== *)
(** * The physical block list of the TLSF heap

    A heap is described by the list of its blocks in address order.  [tiled]
    says that the headers in memory spell out exactly these blocks: every
    block starts where the one before it ends, sizes and flags are in the
    headers, [prev_phys] words point back, live blocks carry their canary. *)

From stdpp Require Import base tactics decidable numbers list sets.
From Stdlib Require Import ZArith Lia Bool.
From S2P Require Import Prelude Tlsf TlsfLists.

(** A live block is [forwarded] when its allocation absorbed a 16-byte
    alignment prefix: the word below the payload points at the header. *)
Inductive usage := Free | Live (forwarded : bool).

#[export] Instance usage_eq_dec : EqDecision usage.
Proof. solve_decision. Defined.

Record blk := Blk { b_addr : Z; b_size : Z; b_use : usage }.

#[export] Instance blk_eq_dec : EqDecision blk.
Proof. solve_decision. Defined.

Definition b_end (b : blk) : Z := b_addr b + b_size b.

(** Where the bytes of the caller start, and the words it may write. *)
Definition payload (b : blk) : Z :=
  match b_use b with Live true => b_addr b + 32 | _ => b_addr b + 16 end.
Definition payload_end (b : blk) : Z := b_end b - CANARY_SIZE.

Record blk_shape (b : blk) : Prop := {
  shape_align : b_addr b mod 16 = 0;
  shape_size : 32 ≤ b_size b;
  shape_size_align : b_size b mod 16 = 0;
  shape_forwarded : b_use b = Live true → 48 ≤ b_size b;
}.

Definition blk_words (m : mem) (b : blk) : Prop :=
  match b_use b with
  | Free => m (b_addr b) = b_size b
  | Live fwd =>
      m (b_addr b) = b_size b + 1 ∧ m (b_end b - 8) = CANARY_VALUE ∧
      (fwd = true → m (b_addr b + 16) = b_addr b)
  end.

(** The words of a block whose values the block list depends on. *)
Definition owns (b : blk) (x : Z) : Prop :=
  x = b_addr b ∨ x = b_addr b + 8 ∨
  (b_use b ≠ Free ∧ (x = b_end b - 8 ∨ (b_use b = Live true ∧ x = b_addr b + 16))).

Fixpoint tiled (m : mem) (prev : option Z) (a : Z) (bs : list blk) (e : Z) : Prop :=
  match bs with
  | [] => a = e
  | b :: bs =>
      b_addr b = a ∧ blk_shape b ∧ blk_words m b ∧
      (∀ p, prev = Some p → m (a + 8) = p) ∧
      tiled m (Some a) (b_end b) bs e
  end.

(** The physical predecessor of the block that follows [bs]. *)
Definition last_addr (prev : option Z) (bs : list blk) : option Z :=
  match last bs with Some b => Some (b_addr b) | None => prev end.

Definition free_entry (b : blk) : option (Z * Z) :=
  match b_use b with Free => Some (b_addr b, b_size b) | Live _ => None end.

(** The free blocks, as the free lists hold them. *)
Definition free_of (bs : list blk) : list (Z * Z) := omap free_entry bs.

Definition free_bytes (bs : list blk) : Z := foldr (λ e acc, e.2 + acc) 0 (free_of bs).

(** ** Lemmas on [tiled] *)

Lemma last_addr_nil p : last_addr p [] = p.
Proof. done. Qed.

Lemma last_addr_snoc p bs b : last_addr p (bs ++ [b]) = Some (b_addr b).
Proof. unfold last_addr. by rewrite last_snoc. Qed.

Lemma last_addr_cons p b bs : last_addr p (b :: bs) = last_addr (Some (b_addr b)) bs.
Proof.
  unfold last_addr. destruct bs as [|b' bs]; [done|].
  change (last (b :: b' :: bs)) with (last (b' :: bs)).
  destruct (last (b' :: bs)) eqn:E; [done|by apply last_None in E].
Qed.

Lemma tiled_app m p a l1 l2 e :
  tiled m p a (l1 ++ l2) e ↔ ∃ c, tiled m p a l1 c ∧ tiled m (last_addr p l1) c l2 e.
Proof.
  revert p a. induction l1 as [|b l1 IH]; intros p a; simpl.
  - rewrite last_addr_nil. split; [eauto|]. by intros (c & -> & ?).
  - rewrite IH, last_addr_cons. split.
    + intros (<- & ? & ? & ? & c & ? & ?). exists c. auto 10.
    + intros (c & (<- & ? & ? & ? & ?) & ?). eauto 10.
Qed.

Lemma tiled_le m p a bs e : tiled m p a bs e → a ≤ e.
Proof.
  revert p a. induction bs as [|b bs IH]; simpl; intros p a; [lia|].
  intros (<- & [? ? ? ?] & _ & _ & H%IH). unfold b_end in H. lia.
Qed.

Lemma tiled_end_fun m m' p p' a bs e e' : tiled m p a bs e → tiled m' p' a bs e' → e = e'.
Proof.
  revert p p' a. induction bs as [|b bs IH]; simpl; intros p p' a; [congruence|].
  intros (_ & _ & _ & _ & H1) (_ & _ & _ & _ & H2). eauto.
Qed.

Lemma tiled_range m p a bs e b : tiled m p a bs e → b ∈ bs → a ≤ b_addr b ∧ b_end b ≤ e.
Proof.
  revert p a. induction bs as [|b' bs IH]; simpl; intros p a; [set_solver|].
  intros (<- & [? ? ? ?] & _ & _ & H) [->|Hi]%elem_of_cons.
  - apply tiled_le in H. unfold b_end in *. lia.
  - apply IH in H; [|done]. unfold b_end in *. lia.
Qed.

Lemma tiled_block m p a bs e b : tiled m p a bs e → b ∈ bs → blk_shape b ∧ blk_words m b.
Proof.
  revert p a. induction bs as [|b' bs IH]; simpl; intros p a; [set_solver|].
  intros (_ & ? & ? & _ & H) [->|Hi]%elem_of_cons; eauto.
Qed.

Lemma tiled_disjoint m p a bs e b b' :
  tiled m p a bs e → b ∈ bs → b' ∈ bs → b = b' ∨ b_end b ≤ b_addr b' ∨ b_end b' ≤ b_addr b.
Proof.
  revert p a. induction bs as [|c bs IH]; simpl; intros p a; [set_solver|].
  intros (<- & ? & ? & _ & H) [->|Hi]%elem_of_cons [->|Hi']%elem_of_cons; eauto.
  - destruct (tiled_range _ _ _ _ _ _ H Hi'). auto.
  - destruct (tiled_range _ _ _ _ _ _ H Hi). auto.
Qed.

(** The block list only depends on the words its blocks own. *)
Lemma tiled_frame m m' p a bs e :
  (∀ b x, b ∈ bs → owns b x → m' x = m x) → tiled m p a bs e → tiled m' p a bs e.
Proof.
  revert p a. induction bs as [|b bs IH]; simpl; intros p a Hf; [done|].
  intros (<- & Hs & Hw & Hp & H). assert (Hb : ∀ x, owns b x → m' x = m x) by (intros; apply (Hf b); set_solver).
  split; [done|]. split; [done|]. split; [|split; [|apply IH; [set_solver|done]]].
  - unfold blk_words in *. unfold owns in Hb. destruct (b_use b) as [|fwd] eqn:E.
    + rewrite Hb; auto.
    + destruct Hw as (? & ? & ?). assert (Live fwd ≠ Free) by done.
      split; [rewrite Hb; auto|]. split; [rewrite Hb; auto 6|].
      intros ->. rewrite Hb; auto 7.
  - intros q Hq. rewrite Hb; [auto|]. unfold owns. auto.
Qed.

Lemma free_of_app l1 l2 : free_of (l1 ++ l2) = free_of l1 ++ free_of l2.
Proof. apply omap_app. Qed.

Lemma free_of_cons b bs : free_of (b :: bs) = option_list (free_entry b) ++ free_of bs.
Proof. unfold free_of. simpl. by destruct (free_entry b). Qed.

Lemma length_free_of bs : (length (free_of bs) ≤ length bs)%nat.
Proof.
  induction bs as [|b bs IH]; [done|]. rewrite free_of_cons, length_app.
  destruct (free_entry b); simpl; lia.
Qed.

Lemma elem_of_free_of a s bs : (a, s) ∈ free_of bs ↔ Blk a s Free ∈ bs.
Proof.
  unfold free_of. rewrite list_elem_of_omap. split.
  - intros ([a' s' []] & Hi & E); cbn in E; [|done]. by injection E as -> ->.
  - intros Hi. by exists (Blk a s Free).
Qed.

Lemma free_bytes_app l1 l2 : free_bytes (l1 ++ l2) = free_bytes l1 + free_bytes l2.
Proof.
  unfold free_bytes. rewrite free_of_app, foldr_app.
  induction (free_of l1) as [|e l IH]; simpl; [lia|]. rewrite IH. lia.
Qed.

(** Replacing a run of blocks by another tiling of the same bytes.  Outside
    the run only the [prev_phys] word of the following block may change. *)
Lemma tiled_replace m m' p a l1 olds news l2 c d e :
  tiled m p a l1 c → tiled m (last_addr p l1) c olds d →
  tiled m (last_addr (last_addr p l1) olds) d l2 e →
  (∀ b x, b ∈ l1 ++ l2 → owns b x → x ≠ d + 8 → m' x = m x) →
  tiled m' (last_addr p l1) c news d → olds ≠ [] → news ≠ [] →
  (d < e → ∀ q, last_addr None news = Some q → m' (d + 8) = q) →
  tiled m' p a (l1 ++ news ++ l2) e.
Proof.
  intros H1 H2 H3 Hf Hn Ho Hne Hprev. apply tiled_app. exists c. split.
  - apply (tiled_frame m); [|done]. intros b x Hb Hx. apply (Hf b); [set_solver|done|].
    apply (tiled_range _ _ _ _ _ _ H1) in Hb as Hr. apply (tiled_block _ _ _ _ _ _ H1) in Hb as [[] _].
    apply tiled_le in H2. unfold owns, b_end in *. naive_solver lia.
  - apply tiled_app. exists d. split; [done|].
    assert (Hl : ∀ q, last_addr q news = last_addr None news).
    { intros q. unfold last_addr. destruct (last news) eqn:E; [done|]. by apply last_None in E. }
    rewrite Hl. destruct l2 as [|b l2]; [done|].
    cbn in H3 |- *. destruct H3 as (<- & Hs & Hw & _ & H3).
    pose proof (tiled_le _ _ _ _ _ H3) as Hle. destruct Hs as [Hs1 Hs2 Hs3 Hs4].
    assert (Hb : ∀ x, owns b x → x ≠ b_addr b + 8 → m' x = m x) by (intros; apply (Hf b); set_solver).
    split; [done|]. split; [done|]. split; [|split].
    + unfold blk_words, b_end in *. unfold owns, b_end in Hb. destruct (b_use b) as [|fwd] eqn:E.
      * rewrite Hb; auto; lia.
      * assert (Live fwd ≠ Free) by done. destruct Hw as (? & ? & ?).
        split; [rewrite Hb; auto; lia|]. split; [rewrite Hb; auto 6; lia|].
        intros ->. rewrite Hb; auto 7; lia.
    + apply Hprev. unfold b_end in *. lia.
    + apply (tiled_frame m); [|done]. intros b' x Hb' Hx. apply (Hf b'); [set_solver|done|].
      destruct (tiled_range _ _ _ _ _ _ H3 Hb'). unfold owns, b_end in *. 
      destruct (tiled_block _ _ _ _ _ _ H3 Hb') as [[] _]. naive_solver lia.
Qed.

Section Checker.
Context (m : mem) (st : AllocatorState).

Lemma blk_block_size b : blk_shape b → b_size b < 2 ^ 63 → blk_words m b → block_size m (b_addr b) = b_size b.
Proof using.
  intros [? ? ? ?] Hlt Hw. unfold blk_words in Hw. destruct (b_use b) as [|fwd].
  - apply (block_size_flag m (b_addr b) (b_size b)) with 0; lia.
  - destruct Hw as (? & _). apply (block_size_flag m (b_addr b) (b_size b)) with 1; lia.
Qed.

Lemma blk_is_used b : blk_shape b → blk_words m b →
  block_is_used m (b_addr b) = negb (bool_decide (b_use b = Free)).
Proof using.
  intros [? ? ? ?] Hw. unfold blk_words in Hw. destruct (b_use b) as [|fwd].
  - by rewrite (block_is_used_flag m (b_addr b) (b_size b)) with (f := 0) by lia.
  - destruct Hw as (? & _). by rewrite (block_is_used_flag m (b_addr b) (b_size b)) with (f := 1) by lia.
Qed.

Lemma blk_size_at a s u :
  blk_shape (Blk a s u) → s < 2 ^ 63 → blk_words m (Blk a s u) → block_size m a = s.
Proof using. intros ???. by apply (blk_block_size (Blk a s u)). Qed.

Lemma blk_used_at a s u :
  blk_shape (Blk a s u) → blk_words m (Blk a s u) →
  block_is_used m a = negb (bool_decide (u = Free)).
Proof using. intros ??. by apply (blk_is_used (Blk a s u)). Qed.

(** The walk accepts every well-formed block list. *)
Lemma check_walk_complete fuel prev a bs :
  0 ≤ a → end_ st < 2 ^ 63 → tiled m prev a bs (end_ st) → (length bs ≤ fuel)%nat →
  check_walk fuel m st a prev = Ret (inl ()).
Proof using.
  revert fuel prev a. induction bs as [|b bs IH]; intros fuel prev a Ha Hmax Ht Hfuel.
  - simpl in Ht. subst a. destruct fuel; simpl; rewrite Z.ltb_irrefl, Z.eqb_refl; done.
  - destruct fuel as [|fuel]; [simpl in Hfuel; lia|].
    destruct Ht as (<- & Hs & Hw & Hp & Ht). pose proof (tiled_le _ _ _ _ _ Ht) as Hle.
    pose proof Hs as [Hs1 Hs2 Hs3 Hs4]. unfold b_end in Hle.
    pose proof (blk_block_size b Hs ltac:(lia) Hw) as Hbs.
    cbn [check_walk]. rewrite Hbs, wrapping_add_small by lia.
    unfold HEAP_BLOCK_ALIGNMENT, MIN_FREE_BLOCK.
    rewrite (proj2 (is_multiple_of_true _ _) Hs1), (proj2 (is_multiple_of_true _ _) Hs3).
    destruct (Z.ltb_spec (b_addr b) (end_ st)); [|lia].
    destruct (Z.ltb_spec (b_size b) 32); [lia|].
    destruct (Z.ltb_spec (end_ st) (b_addr b + b_size b)); [lia|]. simpl.
    assert (Hnext : (b_addr b + b_size b <? end_ st) &&
      negb (block_prev_phys m (b_addr b + b_size b) =? b_addr b) = false).
    { destruct (Z.ltb_spec (b_addr b + b_size b) (end_ st)); [|done]. simpl.
      destruct bs as [|b' bs]; simpl in Ht; [unfold b_end in *; lia|].
      destruct Ht as (_ & _ & _ & Hp' & _). unfold block_prev_phys, b_end in *.
      by rewrite (Hp' _ eq_refl), Z.eqb_refl. }
    rewrite Hnext. simpl in Hfuel.
    assert (Hrec : check_walk fuel m st (b_addr b + b_size b) (Some (b_addr b)) = Ret (inl ())).
    { apply IH; [lia|done|done|lia]. }
    destruct prev as [p|]; [|done]. unfold block_prev_phys. by rewrite (Hp p eq_refl), Z.eqb_refl.
Qed.
End Checker.
