(* ===== verification/HeapInv.v ===== *)
(** * The heap invariant and coalescing

    [heap_rep h bs fs] joins the block list and the free lists: the blocks of
    [h] are [bs] and the free lists hold [fs], free blocks of [bs] (all of
    them between operations).  [heap_inv] is the invariant of the allocator. *)

From stdpp Require Import base tactics decidable numbers list sets.
From Stdlib Require Import ZArith Lia Bool.
From S2P Require Import Prelude Tlsf TlsfLists TlsfBlocks.

(** What the linker promises of the static heap ([repr(align(16))], inside the
    address space, not at address 0), and a walk bound of one step per
    smallest block. *)
Class HeapEnvOk `{HeapEnv} : Prop := {
  heap_positive : 0 < kernel_heap;
  heap_aligned : kernel_heap mod 16 = 0;
  heap_bounded : kernel_heap + KERNEL_HEAP_SIZE < 2 ^ 63;
  fuel_enough : KERNEL_HEAP_SIZE / MIN_FREE_BLOCK < Z.of_nat walk_fuel;
}.

Record heap_rep `{HeapEnv} (h : heap) (bs : list blk) (fs : list (Z * Z)) : Prop := {
  rep_start : start (hstate h) = kernel_heap;
  rep_end : end_ (hstate h) = kernel_heap + KERNEL_HEAP_SIZE;
  rep_tiled : tiled (hmem h) None kernel_heap bs (kernel_heap + KERNEL_HEAP_SIZE);
  rep_lists : lists_ok (hmem h) (hstate h) fs;
  rep_sub : fs ⊆ free_of bs;
}.

Record heap_inv `{HeapEnv} (h : heap) (bs : list blk) : Prop := {
  inv_rep : heap_rep h bs (free_of bs);
  inv_available : available (hstate h) = free_bytes bs;
  inv_initialized : initialized (hstate h) = true;
}.

(** [h'] is [h] with new memory and lists only. *)
Definition heap_step (h h' : heap) : Prop :=
  same_bounds (hstate h) (hstate h') ∧ htrace h' = htrace h ∧ hcursor h' = hcursor h.

#[export] Instance heap_step_preorder : PreOrder heap_step.
Proof.
  split; unfold heap_step; [done|]. intros h1 h2 h3 (? & ? & ?) (? & ? & ?).
  split; [by etrans|]. split; congruence.
Qed.

#[export] Instance heap_rep_perm `{HeapEnv} h bs : Proper ((≡ₚ) ==> iff) (heap_rep h bs).
Proof.
  enough (∀ fs fs', fs ≡ₚ fs' → heap_rep h bs fs → heap_rep h bs fs') as Hx.
  { intros fs fs' E. split; apply Hx; [done|by symmetry]. }
  intros fs fs' E []. split; try done; [by rewrite <- E|]. intros e He. apply rep_sub0. by rewrite E.
Qed.

(** How a freed block [(a, s)] between [l1] and [l2] is merged: with a free
    predecessor if there is one, else with a free successor, else not at all. *)
Definition is_free (b : blk) : bool := bool_decide (b_use b = Free).
Definition prev_free (l1 : list blk) : bool := default false (is_free <$> last l1).
Definition next_free (l2 : list blk) : bool := default false (is_free <$> head l2).

Inductive merges (l1 l2 : list blk) (a s : Z) : list blk → Z → Z → list blk → Prop :=
| merges_prev l1' pa ps :
    l1 = l1' ++ [Blk pa ps Free] → merges l1 l2 a s l1' pa (s + ps) l2
| merges_next ns l2' :
    prev_free l1 = false → l2 = Blk (a + s) ns Free :: l2' → merges l1 l2 a s l1 a (s + ns) l2'
| merges_none :
    prev_free l1 = false → next_free l2 = false → merges l1 l2 a s l1 a s l2.

(** The bytes the callers own in the live blocks of [bs] are the same. *)
Definition data_kept (bs : list blk) (m m' : mem) : Prop :=
  ∀ b x, b ∈ bs → b_use b ≠ Free → payload b ≤ x < payload_end b → m' x = m x.

#[export] Instance data_kept_preorder bs : PreOrder (data_kept bs).
Proof.
  split; [done|]. intros m1 m2 m3 H1 H2 b x Hb Hu Hx. by rewrite (H2 b), (H1 b).
Qed.

Lemma data_kept_sub bs bs' m m' : bs' ⊆ bs → data_kept bs m m' → data_kept bs' m m'.
Proof. intros Hs H b x Hb. apply H. by apply Hs. Qed.

Section HeapRep.
Context `{HE : HeapEnv} {Hok : HeapEnvOk}.

(** A caller's word is in no other block, and not in a header. *)
Lemma payload_range b x :
  payload b ≤ x < payload_end b → b_addr b + 16 ≤ x < b_end b - 8.
Proof using.
  unfold payload, payload_end, CANARY_SIZE. destruct (b_use b) as [|[]]; lia.
Qed.

Lemma payload_outside m p a bs e b b' x :
  tiled m p a bs e → b ∈ bs → b_use b ≠ Free → payload b ≤ x < payload_end b →
  b' ∈ bs → b_use b' = Free → x < b_addr b' ∨ b_end b' ≤ x.
Proof using.
  intros Ht Hb Hu Hx%payload_range Hb' Hu'. destruct (tiled_disjoint _ _ _ _ _ _ _ Ht Hb Hb') as [->|?];
    [done|]. lia.
Qed.

Lemma free_block_range h bs fs a s :
  heap_rep h bs fs → Blk a s Free ∈ bs →
  kernel_heap ≤ a ∧ a + s ≤ kernel_heap + KERNEL_HEAP_SIZE ∧ 32 ≤ s ∧ a mod 16 = 0 ∧ s mod 16 = 0.
Proof using Hok.
  intros Hr Hi. destruct (tiled_range _ _ _ _ _ _ (rep_tiled _ _ _ Hr) Hi) as [H1 H2].
  destruct (tiled_block _ _ _ _ _ _ (rep_tiled _ _ _ Hr) Hi) as [[? ? ? ?] _].
  unfold b_end in *. simpl in *. lia.
Qed.

Lemma free_block_entry h bs fs a s :
  heap_rep h bs fs → Blk a s Free ∈ bs → entry_ok (hmem h) (hstate h) (a, s).
Proof using Hok.
  intros Hr Hi. pose proof (free_block_range _ _ _ _ _ Hr Hi) as (? & ? & ? & ? & ?).
  destruct (tiled_block _ _ _ _ _ _ (rep_tiled _ _ _ Hr) Hi) as [_ Hw].
  pose proof heap_positive. pose proof heap_bounded.
  split; rewrite ?(rep_start _ _ _ Hr), ?(rep_end _ _ _ Hr); simpl; try lia. done.
Qed.

Lemma free_disjoint h bs fs a s a' s' :
  heap_rep h bs fs → Blk a s Free ∈ bs → Blk a' s' Free ∈ bs → a ≠ a' →
  disjoint_from (a, s) (a', s').
Proof using Hok.
  intros Hr Hi Hi' Hne. unfold disjoint_from. simpl.
  destruct (tiled_disjoint _ _ _ _ _ _ _ (rep_tiled _ _ _ Hr) Hi Hi') as [[=]|H];
    [congruence|done].
Qed.

(** A link word of a free block is not owned by any block. *)
Lemma owns_not_next h bs fs b x a s :
  heap_rep h bs fs → b ∈ bs → owns b x → Blk a s Free ∈ bs → x ≠ a + 16.
Proof using Hok.
  intros Hr Hb Hx Hi. destruct (tiled_block _ _ _ _ _ _ (rep_tiled _ _ _ Hr) Hb) as [[? ? ? ?] _].
  destruct (tiled_block _ _ _ _ _ _ (rep_tiled _ _ _ Hr) Hi) as [[? ? ? ?] _].
  destruct (tiled_disjoint _ _ _ _ _ _ _ (rep_tiled _ _ _ Hr) Hb Hi) as [->|Hd];
    unfold owns, b_end in *; simpl in *; naive_solver lia.
Qed.

Lemma block_count h bs fs : heap_rep h bs fs → (length bs < walk_fuel)%nat.
Proof using Hok.
  intros Hr. pose proof fuel_enough as Hf.
  assert (H : ∀ p a e, tiled (hmem h) p a bs e → 32 * Z.of_nat (length bs) ≤ e - a).
  { clear. induction bs as [|b bs IH]; simpl; intros p a e; [lia|].
    intros (<- & [? ? ? ?] & _ & _ & H%IH). unfold b_end in H. lia. }
  pose proof (H _ _ _ (rep_tiled _ _ _ Hr)) as Hl. unfold KERNEL_HEAP_SIZE, MIN_FREE_BLOCK in *.
  change (64 * 1024 * 1024 / 32) with 2097152 in Hf. lia.
Qed.

Lemma nodup_free_of h bs fs : heap_rep h bs fs → NoDup (free_of bs).
Proof using Hok.
  intros Hr. assert (H : ∀ p a e, tiled (hmem h) p a bs e → NoDup (free_of bs) ∧
    ∀ x s, (x, s) ∈ free_of bs → a ≤ x).
  { clear. induction bs as [|b bs IH]; simpl; intros p a e.
    - intros _. split; [apply NoDup_nil_2|set_solver].
    - intros (<- & [? ? ? ?] & _ & _ & [IH1 IH2]%IH). unfold b_end in IH2.
      destruct b as [a s []]; simpl in *; cbn.
      + split; [apply NoDup_cons; split; [|done]|].
        * intros Hi. apply IH2 in Hi. lia.
        * intros x s' [[= -> ->]|Hi%IH2]%elem_of_cons; lia.
      + split; [done|]. intros x s' Hi%IH2. lia. }
  by apply (H None kernel_heap (kernel_heap + KERNEL_HEAP_SIZE)), (rep_tiled _ _ _ Hr).
Qed.

(** ** List operations on the whole heap *)

Lemma heap_remove h bs fs a s :
  heap_rep h bs ((a, s) :: fs) →
  ∃ h', remove_free_block h a = Ret h' ∧ heap_rep h' bs fs ∧ heap_step h h' ∧
    data_kept bs (hmem h) (hmem h').
Proof using Hok.
  intros Hr. pose proof (block_count _ _ _ Hr) as Hc. pose proof (nodup_free_of _ _ _ Hr) as Hnd.
  assert (Hlen : (length fs < walk_fuel)%nat).
  { pose proof (entries_nodup _ _ _ (proj1 (rep_lists _ _ _ Hr))) as Hn.
    pose proof (submseteq_length _ _ (NoDup_submseteq _ _ Hn (rep_sub _ _ _ Hr))) as Hl.
    pose proof (length_free_of bs). simpl in Hl. lia. }
  destruct (remove_free_block_spec h fs a s (rep_lists _ _ _ Hr) Hlen)
    as (m' & st' & E & Hl & Hsb & Hm). exists (set_state (set_mem h m') st').
  split; [done|]. split; [|split].
  - pose proof Hsb as (Hs & He & _ & _). destruct Hr as [? ? Ht ? Hsub].
    split; simpl; rewrite ?Hs, ?He; try done; [|set_solver].
    apply (tiled_frame (hmem h)); [|done]. intros b x Hb Hx. apply Hm. intros [a' s'] Hi.
    eapply (owns_not_next h bs ((a, s) :: fs)); [by split|done|done|].
    apply (elem_of_free_of a' s'), (Hsub (a', s')). set_solver.
  - done.
  - intros b x Hb Hu Hx. apply Hm. intros [a' s'] Hi.
    assert (Hf : Blk a' s' Free ∈ bs) by (apply elem_of_free_of, (rep_sub _ _ _ Hr); set_solver).
    destruct (tiled_block _ _ _ _ _ _ (rep_tiled _ _ _ Hr) Hf) as [[? ? ? _] _].
    pose proof (payload_outside _ _ _ _ _ _ _ _ (rep_tiled _ _ _ Hr) Hb Hu Hx Hf eq_refl).
    unfold b_end in *. simpl in *. lia.
Qed.

Lemma heap_insert h bs fs a s :
  heap_rep h bs fs → (a, s) ∈ free_of bs → (a, s) ∉ fs →
  ∃ h', insert_free_block h a = Ret h' ∧ heap_rep h' bs ((a, s) :: fs) ∧ heap_step h h' ∧
    data_kept bs (hmem h) (hmem h').
Proof using Hok.
  intros Hr Hi Hni. apply elem_of_free_of in Hi as Hb.
  pose proof (free_block_entry _ _ _ _ _ Hr Hb) as He.
  assert (Hd : ∀ e, e ∈ fs → disjoint_from (a, s) e).
  { intros [a' s'] He'. pose proof (rep_sub _ _ _ Hr _ He') as Hb'. apply elem_of_free_of in Hb'.
    destruct (tiled_disjoint _ _ _ _ _ _ _ (rep_tiled _ _ _ Hr) Hb Hb') as [Heq|Hd];
      [injection Heq as -> ->; contradiction|exact Hd]. }
  destruct (insert_free_block_spec h fs a s (rep_lists _ _ _ Hr) He Hd)
    as (m' & st' & E & Hl & Hsb & Hm). exists (set_state (set_mem h m') st').
  split; [done|]. split; [|split; [done|]].
  2:{ intros b x Hb' Hu Hx. apply Hm.
      pose proof (payload_outside _ _ _ _ _ _ _ _ (rep_tiled _ _ _ Hr) Hb' Hu Hx Hb eq_refl).
      unfold b_end in *. simpl in *. lia. }
  pose proof Hsb as (Hs & He' & _ & _). destruct Hr as [? ? Ht ? Hsub].
  split; simpl; rewrite ?Hs, ?He'; try done; [|set_solver].
  apply (tiled_frame (hmem h)); [|done]. intros b x Hb' Hx. apply Hm.
  destruct (tiled_block _ _ _ _ _ _ Ht Hb') as [[? ? ? ?] _].
  destruct (tiled_block _ _ _ _ _ _ Ht Hb) as [[? ? ? ?] _].
  destruct (tiled_disjoint _ _ _ _ _ _ _ Ht Hb' Hb) as [->|?];
    unfold owns, b_end in *; simpl in *; naive_solver lia.
Qed.

(** ** Fusing a run of blocks into one free block *)

Lemma set_prev_of_next_spec m a s :
  a mod 16 = 0 → s mod 16 = 0 → 32 ≤ s → kernel_heap ≤ a →
  a + s ≤ kernel_heap + KERNEL_HEAP_SIZE → m a = s →
  block_set_prev_phys_of_next m a a =
    Ret (if a + s <? kernel_heap + KERNEL_HEAP_SIZE then mem_write m (a + s + 8) a else m).
Proof using Hok.
  intros Ha Hs Hlo Hge Hle Hm. pose proof heap_positive. pose proof heap_bounded.
  pose proof heap_aligned.
  unfold block_set_prev_phys_of_next. unfold HEAP_BLOCK_ALIGNMENT.
  rewrite (block_size_flag m a s) with (f := 0) by (unfold KERNEL_HEAP_SIZE in *; lia).
  rewrite !wrapping_add_small by (unfold KERNEL_HEAP_SIZE in *; lia).
  destruct (Z.ltb_spec (a + s) (kernel_heap + KERNEL_HEAP_SIZE)) as [Hlt|]; [|done].
  assert (Hal : (a + s) mod 16 = 0) by (rewrite Z.add_mod, Ha, Hs by lia; done).
  rewrite (proj2 (is_multiple_of_true _ _) Hal). unfold checked_add, u64_max. simpl.
  assert (a + s + 8 ≤ kernel_heap + KERNEL_HEAP_SIZE).
  { assert ((kernel_heap + KERNEL_HEAP_SIZE) mod 16 = 0).
    { rewrite Z.add_mod by lia. rewrite heap_aligned. done. }
    pose proof (Z.div_mod (a + s) 16 ltac:(lia)).
    pose proof (Z.div_mod (kernel_heap + KERNEL_HEAP_SIZE) 16 ltac:(lia)). lia. }
  destruct (Z.leb_spec (a + s + 8) (2 ^ 64 - 1)); [|unfold KERNEL_HEAP_SIZE in *; lia].
  destruct (Z.ltb_spec (kernel_heap + KERNEL_HEAP_SIZE) (a + s + 8)); [lia|].
  by rewrite andb_false_r.
Qed.

(** The free lists survive writes inside a run that holds none of their
    blocks, and to the [prev_phys] word right after it. *)
Lemma lists_region m m' st fs lo hi :
  lists_ok m st fs → hi mod 16 = 0 →
  (∀ e, e ∈ fs → e.1 + e.2 ≤ lo ∨ hi ≤ e.1) →
  (∀ x, x < lo ∨ hi ≤ x → x ≠ hi + 8 → m' x = m x) →
  lists_ok m' st fs.
Proof using.
  intros Hl Hal Hd Hm. apply (lists_ok_frame m m' st); try done.
  intros e He. destruct (entries_each _ _ _ (proj1 Hl) e He). pose proof (Hd e He).
  pose proof (Z.div_mod e.1 16 ltac:(lia)). pose proof (Z.div_mod hi 16 ltac:(lia)).
  split; apply Hm; lia.
Qed.

Lemma outside_run m m' p q a l1 c d l2 e x s :
  tiled m p a l1 c → tiled m' q d l2 e → (x, s) ∈ free_of l1 ++ free_of l2 →
  x + s ≤ c ∨ d ≤ x.
Proof using Hok.
  intros H1 H2 [Hi|Hi]%elem_of_app; apply elem_of_free_of in Hi.
  - left. by apply (tiled_range _ _ _ _ _ _ H1) in Hi as [_ ?].
  - right. by apply (tiled_range _ _ _ _ _ _ H2) in Hi as [? _].
Qed.

(** A run [olds] of blocks the lists do not hold is retiled as [news]. *)
Lemma heap_retile h l1 olds l2 fs m' a d news :
  heap_rep h (l1 ++ olds ++ l2) fs → fs ⊆ free_of l1 ++ free_of l2 →
  tiled (hmem h) (last_addr None l1) a olds d → olds ≠ [] → news ≠ [] → d mod 16 = 0 →
  (∀ x, x < a ∨ d ≤ x → x ≠ d + 8 → m' x = hmem h x) →
  tiled m' (last_addr None l1) a news d →
  (d < kernel_heap + KERNEL_HEAP_SIZE → ∀ q, last_addr None news = Some q → m' (d + 8) = q) →
  heap_rep (set_mem h m') (l1 ++ news ++ l2) fs.
Proof using Hok.
  intros Hr Hsub Hold Ho Hn Hal Hm Hnew Hprev. pose proof Hr as [? ? Ht Hl _].
  pose proof Ht as Ht'. apply tiled_app in Ht' as (a' & H1 & Ht'). apply tiled_app in Ht' as (d' & H2 & H3).
  assert (a' = a) as ->.
  { destruct olds as [|b olds]; [done|]. by destruct H2 as (<- & _), Hold as (<- & _). }
  assert (d' = d) as -> by (eapply tiled_end_fun; eauto).
  pose proof (tiled_le _ _ _ _ _ Hold).
  split; simpl; try done.
  - eapply tiled_replace; try done. intros b x Hb Hx Hne. apply Hm; [|done].
    apply elem_of_app in Hb as [Hb|Hb].
    + destruct (tiled_range _ _ _ _ _ _ H1 Hb), (tiled_block _ _ _ _ _ _ H1 Hb) as [[] _].
      unfold owns, b_end in *. naive_solver lia.
    + destruct (tiled_range _ _ _ _ _ _ H3 Hb), (tiled_block _ _ _ _ _ _ H3 Hb) as [[] _].
      unfold owns, b_end in *. naive_solver lia.
  - eapply lists_region; try done. intros [x s] Hi%Hsub. by eapply outside_run.
  - rewrite !free_of_app. set_solver.
Qed.

(** Retiling touches no caller's word outside the run. *)
Lemma run_data h l1 olds l2 fs m' a d :
  heap_rep h (l1 ++ olds ++ l2) fs →
  tiled (hmem h) (last_addr None l1) a olds d → olds ≠ [] →
  (∀ x, x < a ∨ d ≤ x → x ≠ d + 8 → m' x = hmem h x) →
  data_kept (l1 ++ l2) (hmem h) m'.
Proof using.
  intros Hr Hold Ho Hm b x Hb Hu Hx%payload_range. pose proof (rep_tiled _ _ _ Hr) as Ht.
  apply tiled_app in Ht as (a' & H1 & Ht). apply tiled_app in Ht as (d' & H2 & H3).
  assert (a' = a) as ->.
  { destruct olds as [|b' olds]; [done|]. by destruct H2 as (<- & _), Hold as (<- & _). }
  assert (d' = d) as -> by (eapply tiled_end_fun; eauto).
  pose proof (tiled_le _ _ _ _ _ Hold).
  apply elem_of_app in Hb as [Hb|Hb].
  - destruct (tiled_range _ _ _ _ _ _ H1 Hb). apply Hm; lia.
  - destruct (tiled_range _ _ _ _ _ _ H3 Hb). apply Hm; lia.
Qed.

Lemma heap_fuse h l1 olds l2 fs a s :
  heap_rep h (l1 ++ olds ++ l2) fs → fs ⊆ free_of l1 ++ free_of l2 →
  tiled (hmem h) (last_addr None l1) a olds (a + s) → olds ≠ [] →
  a mod 16 = 0 → s mod 16 = 0 → 32 ≤ s →
  ∃ m3, block_set_prev_phys_of_next (block_clear_used (block_set_size (hmem h) a s) a) a a = Ret m3 ∧
    heap_rep (set_mem h m3) (l1 ++ [Blk a s Free] ++ l2) fs ∧
    data_kept (l1 ++ l2) (hmem h) m3.
Proof using Hok.
  intros Hr Hsub Hold Ho Ha Hs Hlo. pose proof heap_positive. pose proof heap_bounded.
  assert (Hrange : kernel_heap ≤ a ∧ a + s ≤ kernel_heap + KERNEL_HEAP_SIZE).
  { pose proof (rep_tiled _ _ _ Hr) as Ht.
    apply tiled_app in Ht as (a' & H1 & Ht). apply tiled_app in Ht as (d' & H2 & H3).
    destruct olds as [|b olds]; [done|]. assert (a' = a) as -> by (by destruct H2 as (<- & _), Hold as (<- & _)).
    assert (d' = a + s) as -> by (eapply tiled_end_fun; eauto).
    apply tiled_le in H1, H3. lia. }
  assert (Hsa : s < 2 ^ 63) by (unfold KERNEL_HEAP_SIZE in *; lia).
  set (m2 := block_clear_used _ a).
  assert (Hm2 : m2 a = s) by (apply set_size_free; [done|lia]).
  rewrite (set_prev_of_next_spec m2 a s) by (done || lia). eexists. split; [done|].
  assert (Hd : (a + s) mod 16 = 0) by (rewrite Z.add_mod, Ha, Hs by lia; done).
  assert (Hw : ∀ x, x ≠ a + s + 8 → (if a + s <? kernel_heap + KERNEL_HEAP_SIZE
    then mem_write m2 (a + s + 8) a else m2) x = m2 x).
  { intros x Hx. destruct (_ <? _); [|done]. by apply mem_write_ne. }
  assert (Hout : ∀ x, x < a ∨ a + s ≤ x → x ≠ a + s + 8 →
    (if a + s <? kernel_heap + KERNEL_HEAP_SIZE then mem_write m2 (a + s + 8) a else m2) x = hmem h x).
  { intros x Hx Hne. rewrite Hw by done. apply set_size_free_ne. lia. }
  split; [apply (heap_retile h l1 olds l2 fs _ a (a + s)); try done|].
  3:{ eapply run_data; [exact Hr|done..]. }
  - cbn. split; [done|]. split; [by split|]. split; [|split; [|done]].
    + cbn. by rewrite Hw by lia.
    + intros p Hp. rewrite Hw by lia. unfold m2. rewrite set_size_free_ne by lia.
      destruct olds as [|b olds]; [done|]. destruct Hold as (_ & _ & _ & Hold & _). by apply Hold.
  - intros Hlt q [= <-]. destruct (Z.ltb_spec (a + s) (kernel_heap + KERNEL_HEAP_SIZE)); [|lia].
    simpl. apply mem_write_eq.
Qed.

(** ** Coalescing *)

Lemma free_of_mid l1 a s l2 :
  free_of (l1 ++ Blk a s Free :: l2) ≡ₚ (a, s) :: free_of l1 ++ free_of l2.
Proof using. rewrite free_of_app. simpl. by rewrite Permutation_middle. Qed.

Lemma mid_block h l1 a s u l2 fs :
  heap_rep h (l1 ++ Blk a s u :: l2) fs →
  kernel_heap ≤ a ∧ a + s ≤ kernel_heap + KERNEL_HEAP_SIZE ∧
  blk_shape (Blk a s u) ∧ blk_words (hmem h) (Blk a s u) ∧
  tiled (hmem h) None kernel_heap l1 a ∧
  tiled (hmem h) (Some a) (a + s) l2 (kernel_heap + KERNEL_HEAP_SIZE) ∧
  (∀ p, last_addr None l1 = Some p → hmem h (a + 8) = p).
Proof using.
  intros Hr. pose proof (rep_tiled _ _ _ Hr) as Ht. apply tiled_app in Ht as (c & H1 & Ht).
  cbn in Ht. destruct Ht as (<- & Hs & Hw & Hp & H2).
  pose proof (tiled_le _ _ _ _ _ H1). pose proof (tiled_le _ _ _ _ _ H2).
  unfold b_end in *. simpl in *. done.
Qed.

Lemma mid_run h l1 a s u l2 fs :
  heap_rep h (l1 ++ Blk a s u :: l2) fs →
  tiled (hmem h) (last_addr None l1) a [Blk a s u] (a + s).
Proof using.
  intros Hr. pose proof (rep_tiled _ _ _ Hr) as Ht. apply tiled_app in Ht as (c' & _ & Ht).
  cbn in Ht. destruct Ht as (<- & ? & ? & ? & ?). cbn. done.
Qed.

Lemma merge_prev_free h l1 pa ps a s l2 fs :
  heap_rep h ((l1 ++ [Blk pa ps Free]) ++ Blk a s Free :: l2) ((pa, ps) :: fs) →
  ∃ h1, merge_prev h a s = Ret (h1, pa, s + ps) ∧
    heap_rep h1 ((l1 ++ [Blk pa ps Free]) ++ Blk a s Free :: l2) fs ∧ heap_step h h1 ∧
    data_kept ((l1 ++ [Blk pa ps Free]) ++ Blk a s Free :: l2) (hmem h) (hmem h1).
Proof using Hok.
  intros Hr. pose proof (mid_block _ _ _ _ _ _ _ Hr) as (? & ? & [? ? ? _] & _ & H1 & _ & Hp).
  apply tiled_app in H1 as (c & H1 & Hpb). cbn in Hpb.
  destruct Hpb as (<- & Hs & Hw & _ & Hpe). unfold b_end in Hpe. simpl in Hpe.
  pose proof (tiled_le _ _ _ _ _ H1). pose proof Hs as [? ? ? _]. simpl in *.
  pose proof heap_bounded. pose proof heap_positive. unfold KERNEL_HEAP_SIZE in *.
  specialize (Hp pa (last_addr_snoc _ _ _)).
  destruct (heap_remove _ _ _ _ _ Hr) as (h1 & E & Hr1 & Hstep & Hd).
  exists h1. split; [|done].
  unfold merge_prev. rewrite (rep_start _ _ _ Hr).
  unfold block_prev_phys. rewrite Hp.
  rewrite (blk_size_at (hmem h) pa ps Free), (blk_used_at (hmem h) pa ps Free) by (done || lia).
  simpl.
  rewrite !wrapping_add_small by lia. unfold HEAP_BLOCK_ALIGNMENT, MIN_FREE_BLOCK.
  rewrite (proj2 (is_multiple_of_true pa 16)) by done.
  destruct (Z.ltb_spec kernel_heap a); [|lia].
  destruct (Z.leb_spec kernel_heap pa), (Z.ltb_spec pa a); try lia.
  destruct (Z.eqb_spec (pa + ps) a), (Z.leb_spec 32 ps); try lia. simpl.
  by rewrite E.
Qed.

Lemma merge_prev_none h l1 a s u l2 fs :
  heap_rep h (l1 ++ Blk a s u :: l2) fs → prev_free l1 = false →
  merge_prev h a s = Ret (h, a, s).
Proof using Hok.
  intros Hr Hpf. pose proof (mid_block _ _ _ _ _ _ _ Hr) as (? & ? & _ & _ & H1 & _ & Hp).
  unfold merge_prev. rewrite (rep_start _ _ _ Hr).
  destruct (last l1) as [[pa ps u']|] eqn:El.
  - apply last_Some in El as [l1' ->]. specialize (Hp pa (last_addr_snoc _ _ _)).
    unfold block_prev_phys. rewrite Hp. unfold prev_free in Hpf. rewrite last_snoc in Hpf.
    apply tiled_app in H1 as (c & _ & Hpb). cbn in Hpb.
    destruct Hpb as (<- & Hs & Hw & _).
    rewrite (blk_used_at (hmem h) pa ps u' Hs Hw).
    destruct u'; [done|]. simpl. rewrite andb_false_r. simpl.
    destruct (kernel_heap <? a), ((kernel_heap <=? pa) && (pa <? a)); done.
  - apply last_None in El as ->. simpl in H1. subst a. by rewrite Z.ltb_irrefl.
Qed.

Lemma merge_next_free h l1 a s u ns l2 fs :
  heap_rep h (l1 ++ Blk a s u :: Blk (a + s) ns Free :: l2) ((a + s, ns) :: fs) →
  ∃ h1, merge_next h a s = Ret (h1, s + ns) ∧
    heap_rep h1 (l1 ++ Blk a s u :: Blk (a + s) ns Free :: l2) fs ∧ heap_step h h1 ∧
    data_kept (l1 ++ Blk a s u :: Blk (a + s) ns Free :: l2) (hmem h) (hmem h1).
Proof using Hok.
  intros Hr. pose proof (mid_block _ _ _ _ _ _ _ Hr) as (? & ? & [? ? ? _] & _ & _ & H2 & _).
  cbn in H2. destruct H2 as (_ & Hs & Hw & Hp & H2). specialize (Hp a eq_refl).
  pose proof (tiled_le _ _ _ _ _ H2). unfold b_end in *. simpl in *.
  pose proof Hs as [? ? ? _]. simpl in *.
  pose proof heap_bounded. pose proof heap_positive. unfold KERNEL_HEAP_SIZE in *.
  destruct (heap_remove _ _ _ _ _ Hr) as (h1 & E & Hr1 & Hstep & Hd).
  exists h1. split; [|done].
  unfold merge_next. rewrite (rep_end _ _ _ Hr). unfold KERNEL_HEAP_SIZE.
  rewrite (wrapping_add_small a s) by lia.
  destruct (Z.ltb_spec (a + s) (kernel_heap + 64 * 1024 * 1024)); [|lia].
  rewrite (blk_used_at (hmem h) _ _ _ Hs Hw). simpl.
  unfold validate_coalesce_neighbour, HEAP_BLOCK_ALIGNMENT, MIN_FREE_BLOCK, block_prev_phys.
  rewrite (proj2 (is_multiple_of_true _ 16)) by done. simpl.
  rewrite (blk_size_at (hmem h) _ _ _ Hs) by (done || lia).
  rewrite !wrapping_add_small, Hp, Z.eqb_refl by lia.
  destruct (Z.ltb_spec ns 32), (Z.ltb_spec (kernel_heap + 64 * 1024 * 1024) (a + s + ns)); try lia.
  simpl. rewrite E. cbn. by rewrite wrapping_add_small by lia.
Qed.

(** The second half does nothing when the next block is in use or there is
    none; nor, for a block [c] whose end is not followed by a block naming
    [c] as its predecessor. *)
Lemma merge_next_none h l1 a s u l2 fs :
  heap_rep h (l1 ++ Blk a s u :: l2) fs → next_free l2 = false →
  merge_next h a s = Ret (h, s).
Proof using Hok.
  intros Hr Hnf. pose proof (mid_block _ _ _ _ _ _ _ Hr) as (? & ? & [? ? ? _] & _ & _ & H2 & _).
  unfold merge_next. rewrite (rep_end _ _ _ Hr).
  pose proof heap_bounded. pose proof heap_positive. simpl in *.
  rewrite wrapping_add_small by (unfold KERNEL_HEAP_SIZE in *; lia).
  destruct l2 as [|[na ns nu] l2]; cbn in H2.
  - destruct (Z.ltb_spec (a + s) (kernel_heap + KERNEL_HEAP_SIZE)); [lia|done].
  - destruct H2 as (<- & Hs & Hw & _). destruct nu; [done|].
    rewrite (blk_used_at (hmem h) _ _ _ Hs Hw). simpl. by destruct (_ <? _).
Qed.

Lemma merge_next_stale h l1 pa ps a s u l2 fs :
  heap_rep h ((l1 ++ [Blk pa ps Free]) ++ Blk a s u :: l2) fs →
  merge_next h pa (s + ps) = Ret (h, s + ps).
Proof using Hok.
  intros Hr. pose proof (mid_block _ _ _ _ _ _ _ Hr) as (? & ? & [? ? ? _] & _ & H1 & H2 & _).
  apply tiled_app in H1 as (c & H1 & Hpb). cbn in Hpb.
  destruct Hpb as (<- & [? ? ? _] & _ & _ & Hpe). unfold b_end in Hpe. simpl in *.
  pose proof (tiled_le _ _ _ _ _ H1). pose proof heap_bounded. pose proof heap_positive.
  unfold merge_next. rewrite (rep_end _ _ _ Hr).
  rewrite wrapping_add_small by (unfold KERNEL_HEAP_SIZE in *; lia).
  replace (pa + (s + ps)) with (a + s) by lia.
  destruct l2 as [|[na ns nu] l2]; cbn in H2.
  - destruct (Z.ltb_spec (a + s) (kernel_heap + KERNEL_HEAP_SIZE)); [lia|done].
  - destruct H2 as (<- & Hs & Hw & Hp & _). specialize (Hp a eq_refl). simpl in Hp.
    unfold validate_coalesce_neighbour, block_prev_phys. rewrite Hp.
    destruct (Z.eqb_spec a pa); [lia|].
    by repeat (case_match; simpl; try done).
Qed.

(** A run of two blocks tiles as one. *)
Lemma two_run h l1 a1 s1 u1 a2 s2 u2 l2 fs :
  heap_rep h (l1 ++ Blk a1 s1 u1 :: Blk a2 s2 u2 :: l2) fs →
  tiled (hmem h) (last_addr None l1) a1 [Blk a1 s1 u1; Blk a2 s2 u2] (a1 + (s1 + s2)) ∧
  a1 mod 16 = 0 ∧ (s1 + s2) mod 16 = 0 ∧ 32 ≤ s1 + s2.
Proof using.
  intros Hr. pose proof (rep_tiled _ _ _ Hr) as Ht. apply tiled_app in Ht as (c & _ & Ht).
  cbn in Ht. unfold b_end in Ht. simpl in Ht.
  destruct Ht as (<- & Hs1 & ? & ? & -> & Hs2 & ? & ? & _).
  pose proof Hs1 as [? ? ? _]. pose proof Hs2 as [? ? ? _]. simpl in *.
  split; [|split; [done|split; [by apply Z.mod_divide; [lia|]; apply Z.divide_add_r;
    apply Z.mod_divide|lia]]].
  cbn. unfold b_end. simpl. split_and!; try done; lia.
Qed.

(** Caller data is kept when it is kept around a free block that is merged away. *)
Lemma data_kept_free l1 l2 b m m' :
  b_use b = Free → data_kept (l1 ++ l2) m m' → data_kept (l1 ++ b :: l2) m m'.
Proof using.
  intros Hb H c x [Hc|[->|Hc]%elem_of_cons]%elem_of_app Hu; [|done|];
    apply H; try done; apply elem_of_app; auto.
Qed.

(** [coalesce] on a block the lists do not hold merges it as [merges] says. *)
Lemma coalesce_spec h l1 a s l2 :
  heap_rep h (l1 ++ Blk a s Free :: l2) (free_of l1 ++ free_of l2) →
  ∃ h' l1' a' s' l2', coalesce h a = Ret (h', a') ∧ merges l1 l2 a s l1' a' s' l2' ∧
    heap_rep h' (l1' ++ Blk a' s' Free :: l2') (free_of l1' ++ free_of l2') ∧ heap_step h h' ∧
    data_kept (l1 ++ l2) (hmem h) (hmem h').
Proof using Hok.
  intros Hr. pose proof (mid_block _ _ _ _ _ _ _ Hr) as (? & ? & Hs & Hw & H1 & H2 & Hp).
  pose proof heap_bounded. pose proof heap_positive. pose proof Hs as [? ? ? _]. simpl in *.
  unfold coalesce. rewrite (blk_size_at (hmem h) a s Free) by (done || unfold KERNEL_HEAP_SIZE in *; lia).
  destruct (prev_free l1) eqn:Hpf.
  - unfold prev_free in Hpf. destruct (last l1) as [[pa ps []]|] eqn:El; try done.
    apply last_Some in El as [l1' ->].
    destruct (merge_prev_free h l1' pa ps a s l2 (free_of l1' ++ free_of l2)) as (h1 & E1 & Hr1 & Hst & Hd1).
    { rewrite free_of_app in Hr. cbn in Hr. rewrite <- (app_assoc (free_of l1')) in Hr. simpl in Hr.
      by rewrite <- (Permutation_middle (free_of l1')) in Hr. }
    rewrite E1. cbn. rewrite (merge_next_stale _ _ _ _ _ _ _ _ _ Hr1). cbn.
    rewrite <- app_assoc in Hr1. simpl in Hr1.
    destruct (two_run _ _ _ _ _ _ _ _ _ _ Hr1) as (Hrun & ? & ? & ?).
    rewrite (Z.add_comm s ps).
    destruct (heap_fuse h1 l1' [Blk pa ps Free; Blk a s Free] l2
      (free_of l1' ++ free_of l2) _ _ Hr1 ltac:(done) Hrun)
      as (m3 & E3 & Hr3 & Hd3); try done.
    rewrite E3. exists (set_mem h1 m3), l1', pa, (ps + s), l2. split; [done|].
    split; [by rewrite (Z.add_comm ps); constructor|].
    split; [done|]. split; [by etrans; [exact Hst|]|].
    rewrite <- app_assoc in Hd1 |- *. etrans; [eapply data_kept_sub; [|exact Hd1]; set_solver|].
    by apply data_kept_free.
  - rewrite (merge_prev_none _ _ _ _ _ _ _ Hr Hpf). cbn.
    destruct (next_free l2) eqn:Hnf.
    + unfold next_free in Hnf. destruct l2 as [|[na ns []] l2]; try done. cbn in H2.
      destruct H2 as (-> & _).
      destruct (merge_next_free h l1 a s Free ns l2 (free_of l1 ++ free_of l2)) as (h1 & E1 & Hr1 & Hst & Hd1).
      { cbn in Hr. rewrite <- (Permutation_middle (free_of l1)) in Hr.
      exact Hr. }
      rewrite E1. cbn. destruct (two_run _ _ _ _ _ _ _ _ _ _ Hr1) as (Hrun & ? & ? & ?).
      destruct (heap_fuse h1 l1 [Blk a s Free; Blk (a + s) ns Free] l2
        (free_of l1 ++ free_of l2) _ _ Hr1 ltac:(done) Hrun)
        as (m3 & E3 & Hr3 & Hd3); try done.
      rewrite E3. do 5 eexists. split; [done|]. split; [by constructor|]. split; [done|].
      split; [by etrans; [exact Hst|]|]. cbn.
      etrans; [eapply data_kept_sub; [|exact Hd1]; set_solver|].
      by apply data_kept_free.
    + rewrite (merge_next_none _ _ _ _ _ _ _ Hr Hnf). cbn.
      destruct (heap_fuse h l1 [Blk a s Free] l2 (free_of l1 ++ free_of l2) a s) as (m3 & E3 & Hr3 & Hd3); try done.
      rewrite E3. do 5 eexists. split; [done|]. split; [by constructor|]. done.
Qed.
End HeapRep.
