(* ===== verification/HeapAlloc.v ===== *)
(** * The kernel heap allocator (src/memory/heap/allocator.rs)

    [KernelGlobalAllocator]: initialisation, [allocate_locked],
    [deallocate_locked] and the [GlobalAlloc] entry points.  Every entry point
    holds the allocator's lock from beginning to end, so each is one function
    on the heap.  The profiler's counters and the messages are left out. *)

From stdpp Require Import base tactics decidable numbers list sets.
From Stdlib Require Import ZArith Lia Bool.
From S2P Require Import Prelude Tlsf.

(** [core::alloc::Layout] *)
Record Layout := mkLayout { l_size : Z; l_align : Z }.

(** What [Layout] guarantees: the alignment is a power of two and the size,
    rounded up to it, does not exceed [isize::MAX]. *)
Definition layout_ok (l : Layout) : Prop :=
  ∃ k, 0 ≤ k ∧ l_align l = 2 ^ k ∧ 0 ≤ l_size l ≤ 2 ^ 63 - l_align l.

(** [+] on [usize]: an overflow panics in a debug build and wraps in a release
    build. *)
Definition usize_add `{HeapEnv} (a b : Z) : outcome Z :=
  if a + b <=? u64_max then Ret (a + b)
  else if debug_assertions then Panic else Ret (wrap64 (a + b)).

(** ** Initialisation *)

Definition initialize `{HeapEnv} (h : heap) : outcome heap :=
  let start := kernel_heap in
  end_ ← usize_add start KERNEL_HEAP_SIZE;
  if debug_assertions && negb (start mod HEAP_BLOCK_ALIGNMENT =? 0) then Panic else
  let st := hstate h in
  let st := mkAllocatorState start end_ KERNEL_HEAP_SIZE true
              (fl_bitmap st) (sl_bitmaps st) (free_lists st) in
  let m := block_set_size (hmem h) start KERNEL_HEAP_SIZE in
  let m := block_clear_used m start in
  let m := block_set_prev_phys m start 0 in
  insert_free_block (set_state (set_mem h m) st) start.

(** The first half of [with_state]; the callback runs on the result. *)
Definition ensure_init `{HeapEnv} (h : heap) : outcome heap :=
  if initialized (hstate h) then Ret h else initialize h.

(** ** Allocation *)

Definition requested_size (l : Layout) : Z := Z.max (l_size l) 1.
Definition reserved_size (l : Layout) : Z := saturating_add (requested_size l) CANARY_SIZE.
Definition requested_align (l : Layout) : Z := Z.max (l_align l) HEAP_BLOCK_ALIGNMENT.
Definition end_round (l : Layout) : Z :=
  wrapping_sub HEAP_BLOCK_ALIGNMENT (wrapping_add HEADER_SIZE (reserved_size l))
    mod HEAP_BLOCK_ALIGNMENT.

Definition min_block_size (l : Layout) : Z :=
  saturating_add
    (saturating_add (saturating_add HEADER_SIZE (reserved_size l))
       (saturating_sub (requested_align l) HEAP_BLOCK_ALIGNMENT))
    (end_round l).

(** Where an allocation lands in a candidate block: [payload_start],
    [alloc_header_start] and [alloc_end]; [None] when one of them overflows. *)
Definition place `{HeapEnv} (l : Layout) (candidate : Z) : outcome (option (Z * Z * Z)) :=
  after_header ← usize_add candidate HEADER_SIZE;
  Ret (payload_start ← align_up after_header (requested_align l);
       alloc_header_start ← checked_sub payload_start HEADER_SIZE;
       alloc_end ← checked_add alloc_header_start HEADER_SIZE;
       alloc_end ← checked_add alloc_end (reserved_size l);
       alloc_end ← align_up alloc_end HEAP_BLOCK_ALIGNMENT;
       Some (payload_start, alloc_header_start, alloc_end)).

(** The smallest size of the size class after the one of [size].  A candidate
    that came out of the free lists has [fl <= FL_MAX], so nothing overflows. *)
Definition next_class_min (size : Z) : Z :=
  let '(fl, sl) := mapping size in
  let sl_step := Z.shiftl 1 (saturating_sub fl SL_INDEX_LOG2) in
  if sl + 1 <? SL_COUNT then Z.shiftl 1 fl + (sl + 1) * sl_step
  else Z.shiftl 1 (fl + 1).

(** What the ['search] loop ends with: a null pointer, or a block unlinked from
    the free lists with the place of the allocation in it. *)
Inductive search_result :=
| Null
| Found (candidate block_end payload_start alloc_header_start alloc_end : Z).

Fixpoint search `{HeapEnv} (fuel : nat) (h : heap) (l : Layout) (min : Z) :
    outcome (heap * search_result) :=
  match fuel with
  | O => NoFuel
  | S fuel =>
    candidate ← find_suitable_block (hstate h) min;
    if candidate =? 0 then Ret (h, Null) else
    h1 ← remove_free_block h candidate;
    let block_end := saturating_add candidate (block_size (hmem h1) candidate) in
    placed ← place l candidate;
    match placed with
    | None => h2 ← insert_free_block h1 candidate; Ret (h2, Null)
    | Some (payload_start, alloc_header_start, alloc_end) =>
        if block_end <? alloc_end then
          h2 ← insert_free_block h1 candidate;
          search fuel h2 l (next_class_min (block_size (hmem h2) candidate))
        else Ret (h1, Found candidate block_end payload_start alloc_header_start alloc_end)
    end
  end.

(** Writing the allocated block's header, with a prefix of at least
    [MIN_FREE_BLOCK] bytes turned into a free block of its own and a smaller
    one absorbed.  Returns the start and the size of the allocated block. *)
Definition mark_allocated `{HeapEnv} (h : heap)
    (candidate alloc_header_start prefix_size allocation_end : Z) : outcome (heap * Z * Z) :=
  if MIN_FREE_BLOCK <=? prefix_size then
    let m := block_set_size (hmem h) candidate prefix_size in
    let m := block_clear_used m candidate in
    h1 ← insert_free_block (set_mem h m) candidate;
    let allocated_size := wrapping_sub allocation_end alloc_header_start in
    let m := block_set_size (hmem h1) alloc_header_start allocated_size in
    let m := block_set_used m alloc_header_start in
    Ret (set_mem h1 m, alloc_header_start, allocated_size)
  else if 0 <? prefix_size then
    let allocated_size := wrapping_sub allocation_end candidate in
    let m := block_set_size (hmem h) candidate allocated_size in
    let m := block_set_used m candidate in
    let m := mem_write m alloc_header_start candidate in
    Ret (set_mem h m, candidate, allocated_size)
  else
    let allocated_size := wrapping_sub allocation_end alloc_header_start in
    let m := block_set_size (hmem h) alloc_header_start allocated_size in
    let m := block_set_used m alloc_header_start in
    Ret (set_mem h m, alloc_header_start, allocated_size).

(** Turning the rest after the allocation into a free block. *)
Definition add_suffix `{HeapEnv} (h : heap) (alloc_end suffix_size alloc_start : Z) : outcome heap :=
  let m := block_set_size (hmem h) alloc_end suffix_size in
  let m := block_clear_used m alloc_end in
  let m := block_set_prev_phys m alloc_end alloc_start in
  insert_free_block (set_mem h m) alloc_end.

Definition carve `{HeapEnv} (h : heap) (candidate block_end alloc_header_start alloc_end : Z) :
    outcome heap :=
  let prefix_size := wrapping_sub alloc_header_start candidate in
  let prefix_created := MIN_FREE_BLOCK <=? prefix_size in
  let suffix_size := wrapping_sub block_end alloc_end in
  let suffix_created := MIN_FREE_BLOCK <=? suffix_size in
  let allocation_end := if suffix_created then alloc_end else block_end in
  '(h1, alloc_start, allocated_size) ←
    mark_allocated h candidate alloc_header_start prefix_size allocation_end;
  h2 ← (if suffix_created then add_suffix h1 alloc_end suffix_size alloc_start else Ret h1);
  let m := if prefix_created
           then block_set_prev_phys (hmem h2) alloc_header_start candidate else hmem h2 in
  m ← (if suffix_created then block_set_prev_phys_of_next m alloc_end alloc_end
       else if block_end <? end_ (hstate h2) then Ret (block_set_prev_phys m block_end alloc_start)
       else Ret m);
  let m := canary_write m alloc_start in
  let st := hstate h2 in
  Ret (set_state (set_mem h2 m) (set_available st (saturating_sub (available st) allocated_size))).

(** The pointer returned is 0 for null. *)
Definition allocate_locked `{HeapEnv} (h : heap) (l : Layout) : outcome (heap * Z) :=
  '(h1, r) ← search walk_fuel h l (min_block_size l);
  match r with
  | Null => Ret (h1, 0)
  | Found candidate block_end payload_start alloc_header_start alloc_end =>
      h2 ← carve h1 candidate block_end alloc_header_start alloc_end;
      Ret (h2, payload_start)
  end.

(** ** Deallocation *)

(** The header of the block a payload belongs to: one alignment unit below the
    nominal place when the word there forwards to it. *)
Definition header_of (m : mem) (st : AllocatorState) (payload_start nominal : Z) : Z :=
  if (start st <=? nominal) && (nominal <? end_ st) then
    let fwd := m nominal in
    if (start st <=? fwd) && (fwd <? nominal) && is_multiple_of fwd HEAP_BLOCK_ALIGNMENT &&
       (nominal =? wrapping_add fwd HEAP_BLOCK_ALIGNMENT)
    then
      let size := block_size m fwd in
      let e := wrapping_add fwd size in
      if block_is_used m fwd && (HEADER_SIZE <=? size) && (fwd <=? payload_start) &&
         (payload_start <? e) && (e <=? end_ st)
      then fwd else nominal
    else nominal
  else nominal.

Definition deallocate_locked `{HeapEnv} (h : heap) (ptr : Z) : outcome (heap * bool) :=
  let m := hmem h in
  let st := hstate h in
  if ptr =? 0 then Ret (h, false) else
  match checked_sub ptr HEADER_SIZE with
  | None => Ret (h, false)
  | Some nominal =>
    let header_start := header_of m st ptr nominal in
    if negb ((start st <=? header_start) && (header_start <? end_ st)) then Ret (h, false) else
    let size := block_size m header_start in
    if (size =? 0) || (size <? HEADER_SIZE) then Ret (h, false) else
    if negb (block_is_used m header_start) then Ret (h, false) else
    match canary_check m header_start with
    | inr _ => Panic
    | inl _ =>
        let h1 := set_state h (set_available st (saturating_add (available st) size)) in
        let h2 := set_mem h1 (block_clear_used m header_start) in
        '(h3, block) ← coalesce h2 header_start;
        h4 ← insert_free_block h3 block;
        Ret (h4, true)
    end
  end.

(** ** [GlobalAlloc] and the accessors *)

Definition alloc `{HeapEnv} (h : heap) (l : Layout) : outcome (heap * Z) :=
  h ← ensure_init h;
  '(h1, result) ← allocate_locked h l;
  Ret (if negb (result =? 0) then record_heap_trace h1 TRACE_ALLOC result else h1, result).

Definition dealloc `{HeapEnv} (h : heap) (ptr : Z) : outcome heap :=
  h ← ensure_init h;
  '(h1, _) ← deallocate_locked (record_heap_trace h TRACE_DEALLOC ptr) ptr;
  Ret h1.

Definition bounds `{HeapEnv} (h : heap) : outcome (heap * (Z * Z)) :=
  h ← ensure_init h; Ret (h, (start (hstate h), end_ (hstate h))).

Definition remaining `{HeapEnv} (h : heap) : outcome (heap * Z) :=
  h ← ensure_init h; Ret (h, available (hstate h)).

(** The heap of [KernelGlobalAllocator::new()]. *)
Definition heap_new (m : mem) : heap :=
  Heap m AllocatorState_new (replicate (Z.to_nat HEAP_TRACE_DEPTH) 0) 0.
