(* ===== verification/HeapPlace.v ===== *)
(** * Where an allocation goes: alignment, placement and the search

    The arithmetic of [min_block_size], [place] and [next_class_min], and the
    ['search] loop of [allocate_locked]: it ends after at most two candidates
    are tried, with a block that holds the allocation, or with a null pointer
    when no free block reaches the next size class. *)

From stdpp Require Import base tactics decidable numbers list sets.
From Stdlib Require Import ZArith Lia Bool.
From S2P Require Import Prelude Tlsf TlsfLists TlsfBlocks HeapInv HeapAlloc.

(** One step of an option or outcome computation whose head is a value. *)
Local Ltac step := cbn [mbind option_bind outcome_bind].

(** ** Alignment *)

Lemma align_up_spec v k :
  0 ≤ k ≤ 63 → 0 ≤ v → v + 2 ^ k - 1 ≤ u64_max →
  ∃ r, align_up v (2 ^ k) = Some r ∧ r mod 2 ^ k = 0 ∧ v ≤ r < v + 2 ^ k.
Proof.
  intros Hk Hv Hmax. unfold align_up, checked_add.
  assert (Hp : 0 < 2 ^ k) by (apply Z.pow_pos_nonneg; lia).
  destruct (Z.leb_spec (v + (2 ^ k - 1)) u64_max); [|lia]. simpl.
  eexists. split; [done|]. rewrite land_unot64_pow2 by (unfold u64_max in *; lia).
  pose proof (Z.div_mod (v + (2 ^ k - 1)) (2 ^ k) ltac:(lia)) as E.
  pose proof (Z.mod_pos_bound (v + (2 ^ k - 1)) (2 ^ k) Hp).
  split; [|lia].
  replace (v + (2 ^ k - 1) - (v + (2 ^ k - 1)) mod 2 ^ k) with ((v + (2 ^ k - 1)) / 2 ^ k * 2 ^ k) by lia.
  apply Z.mod_mul. lia.
Qed.

(** The alignment used is a power of two between 16 and 2^63. *)
Lemma requested_align_pow l :
  layout_ok l → ∃ k, 4 ≤ k ≤ 63 ∧ requested_align l = 2 ^ k ∧
    requested_size l + requested_align l ≤ 2 ^ 63 + 16.
Proof.
  intros (k & Hk & Ha & Hs). unfold requested_align, requested_size, HEAP_BLOCK_ALIGNMENT.
  assert (Hp : 0 < 2 ^ k) by (apply Z.pow_pos_nonneg; lia).
  destruct (Z.le_gt_cases k 63) as [Hle|Hgt].
  2:{ pose proof (Z.pow_lt_mono_r 2 63 k ltac:(lia) ltac:(lia) Hgt). lia. }
  destruct (Z.le_gt_cases 4 k) as [H4|H4].
  - pose proof (Z.pow_le_mono_r 2 4 k ltac:(lia) H4). exists k. rewrite Ha. lia.
  - pose proof (Z.pow_le_mono_r 2 k 4 ltac:(lia) ltac:(lia)). exists 4. rewrite Ha. lia.
Qed.

Lemma mod16_of_pow k x : 4 ≤ k → x mod 2 ^ k = 0 → x mod 16 = 0.
Proof.
  intros Hk Hx. apply Z.mod_divide; [lia|]. apply Z.mod_divide in Hx; [|apply Z.pow_nonzero; lia].
  etrans; [|exact Hx]. change 16 with (2 ^ 4). exists (2 ^ (k - 4)).
  rewrite <- Z.pow_add_r by lia. f_equal. lia.
Qed.

Lemma reserved_size_eq l : layout_ok l → reserved_size l = requested_size l + 8.
Proof.
  intros (k & Hk & Ha & Hs). unfold reserved_size, requested_size, saturating_add, u64_max, CANARY_SIZE.
  assert (0 < 2 ^ k) by (apply Z.pow_pos_nonneg; lia). lia.
Qed.

(** Rounding up to the block alignment. *)
Definition round16 (x : Z) : Z := x + (- x) mod 16.

Lemma round16_spec x : round16 x mod 16 = 0 ∧ x ≤ round16 x < x + 16.
Proof. unfold round16. Z.to_euclidean_division_equations. lia. Qed.

Lemma round16_least x y : y mod 16 = 0 → y < x + 16 → y ≤ round16 x.
Proof. unfold round16. Z.to_euclidean_division_equations. lia. Qed.

Lemma min_block_size_eq l :
  layout_ok l → min_block_size l = round16 (16 + reserved_size l) + (requested_align l - 16).
Proof.
  intros Hl. destruct (requested_align_pow l Hl) as (k & Hk & Ha & Hs).
  pose proof (reserved_size_eq l Hl) as Hr.
  assert (0 < requested_size l) by (unfold requested_size; lia).
  assert (16 ≤ requested_align l) by (unfold requested_align, HEAP_BLOCK_ALIGNMENT; lia).
  unfold min_block_size, end_round, HEADER_SIZE, HEAP_BLOCK_ALIGNMENT.
  rewrite wrapping_add_small by lia.
  assert (E : wrapping_sub 16 (16 + reserved_size l) mod 16 = (- (16 + reserved_size l)) mod 16).
  { unfold wrapping_sub, wrap64. rewrite Z.mod_mod_divide by (exists (2 ^ 60); done).
    replace (16 - (16 + reserved_size l)) with (- (16 + reserved_size l) + 1 * 16) by lia.
    by rewrite Z_mod_plus_full. }
  rewrite E. pose proof (Z.mod_pos_bound (- (16 + reserved_size l)) 16 ltac:(lia)).
  unfold round16, saturating_add, saturating_sub, u64_max. lia.
Qed.

(** [requested_align - 16] is a multiple of 16, so the payload is at most that
    far from the start of an aligned block. *)
Lemma place_spec `{HeapEnv} l c :
  layout_ok l → 0 < c → c + 48 ≤ 2 ^ 63 → c mod 16 = 0 →
  ∃ p hd ae, place l c = Ret (Some (p, hd, ae)) ∧ p = hd + 16 ∧ p mod requested_align l = 0 ∧
    c ≤ hd ∧ hd mod 16 = 0 ∧ ae mod 16 = 0 ∧ hd + 32 ≤ ae ∧ p + requested_size l + 8 ≤ ae ∧
    ae ≤ c + min_block_size l.
Proof.
  intros Hl Hc Hmax Hal. destruct (requested_align_pow l Hl) as (k & Hk & Ha & Hs).
  pose proof (reserved_size_eq l Hl) as Hr.
  assert (0 < requested_size l) by (unfold requested_size; lia).
  assert (2 ^ 4 ≤ 2 ^ k ≤ 2 ^ 63) by (split; apply Z.pow_le_mono_r; lia).
  unfold place, usize_add, HEADER_SIZE, HEAP_BLOCK_ALIGNMENT.
  destruct (Z.leb_spec (c + 16) u64_max); [|unfold u64_max in *; lia]. step.
  rewrite (min_block_size_eq l Hl), Ha in *.
  destruct (align_up_spec (c + 16) k) as (p & Ep & Hp & Hpr); [lia..|unfold u64_max; lia|].
  pose proof (mod16_of_pow k p ltac:(lia) Hp) as Hp16.
  assert (Hd16 : (2 ^ k) mod 16 = 0).
  { apply (mod16_of_pow k); [lia|]. apply Z.mod_same. lia. }
  assert (p ≤ c + 2 ^ k) by (clear - Hal Hp16 Hd16 Hpr; Z.to_euclidean_division_equations; lia).
  rewrite Ep. step. rewrite checked_sub_small by lia. step.
  rewrite (checked_add_small (p - 16) 16) by (unfold u64_max; lia). step.
  rewrite (checked_add_small _ (reserved_size l)) by (unfold u64_max; lia). step.
  destruct (align_up_spec (p - 16 + 16 + reserved_size l) 4) as (ae & Ee & Hae & Haer);
    [lia..|unfold u64_max; lia|].
  change (2 ^ 4) with 16 in *. rewrite Ee. step.
  exists p, (p - 16), ae. split; [done|].
  assert (ae - (p - 16) ≤ round16 (16 + reserved_size l)).
  { apply round16_least; [|lia]. clear - Hp16 Hae. Z.to_euclidean_division_equations; lia. }
  assert ((p - 16) mod 16 = 0) by (clear - Hp16; Z.to_euclidean_division_equations; lia).
  split_and!; try done; try lia.
  clear - Hp16 Hae Haer Hr H0. Z.to_euclidean_division_equations; lia.
Qed.

(** ** The next size class *)

Lemma next_class_min_eq s :
  32 ≤ s → next_class_min s = (s / 2 ^ (Z.log2 s - 5) + 1) * 2 ^ (Z.log2 s - 5).
Proof.
  intros Hs. pose proof (log2_range s Hs). pose proof (mantissa_range s Hs) as Hm.
  unfold next_class_min. rewrite mapping_eq by done.
  unfold saturating_sub, SL_INDEX_LOG2, SL_COUNT. rewrite Z.max_l by lia.
  rewrite !Z.shiftl_mul_pow2, !Z.mul_1_l by lia.
  assert (E : 2 ^ Z.log2 s = 32 * 2 ^ (Z.log2 s - 5)).
  { change 32 with (2 ^ 5). rewrite <- Z.pow_add_r by lia. f_equal. lia. }
  set (q := s / 2 ^ (Z.log2 s - 5)) in *.
  destruct (Z.ltb_spec (q - 32 + 1) 32).
  - rewrite E. lia.
  - rewrite Z.pow_add_r, E by lia. clearbody q. assert (q = 63) as -> by lia. lia.
Qed.

Lemma next_class_min_gt s : 32 ≤ s → s < next_class_min s.
Proof.
  intros Hs. rewrite next_class_min_eq by done. pose proof (log2_range s Hs).
  assert (Hp : 0 < 2 ^ (Z.log2 s - 5)) by (apply Z.pow_pos_nonneg; lia).
  pose proof (Z.div_mod s (2 ^ (Z.log2 s - 5)) ltac:(lia)).
  pose proof (Z.mod_pos_bound s (2 ^ (Z.log2 s - 5)) Hp). lia.
Qed.

(** The sizes from [next_class_min s] on are exactly those of higher classes. *)
Lemma next_class_min_spec s t :
  32 ≤ s → 32 ≤ t → class_of s < class_of t ↔ next_class_min s ≤ t.
Proof.
  intros Hs Ht. rewrite next_class_min_eq, !class_of_eq by done.
  pose proof (log2_range s Hs). pose proof (mantissa_range s Hs).
  pose proof (log2_range t Ht). pose proof (mantissa_range t Ht).
  assert (Hp : 0 < 2 ^ (Z.log2 s - 5)) by (apply Z.pow_pos_nonneg; lia).
  assert (E : 2 ^ (Z.log2 s + 1) = 64 * 2 ^ (Z.log2 s - 5)).
  { change 64 with (2 ^ 6). rewrite <- Z.pow_add_r by lia. f_equal. lia. }
  assert (E' : 2 ^ Z.log2 s = 32 * 2 ^ (Z.log2 s - 5)).
  { change 32 with (2 ^ 5). rewrite <- Z.pow_add_r by lia. f_equal. lia. }
  pose proof (Z.log2_spec t ltac:(lia)) as [Hlo Hhi].
  set (q := s / 2 ^ (Z.log2 s - 5)) in *.
  destruct (Z.lt_trichotomy (Z.log2 t) (Z.log2 s)) as [Hl|[Hl|Hl]].
  - pose proof (Z.pow_le_mono_r 2 (Z.succ (Z.log2 t)) (Z.log2 s) ltac:(lia) ltac:(lia)). split; [lia|nia].
  - rewrite Hl. split; intros Hc.
    + pose proof (Z.mul_div_le t (2 ^ (Z.log2 s - 5)) Hp). nia.
    + pose proof (Z.div_le_lower_bound t (2 ^ (Z.log2 s - 5)) (q + 1) Hp ltac:(lia)). lia.
  - pose proof (Z.pow_le_mono_r 2 (Z.log2 s + 1) (Z.log2 t) ltac:(lia) ltac:(lia)). split; [nia|lia].
Qed.

Lemma next_class_min_same s t :
  32 ≤ s → 32 ≤ t → class_of s = class_of t → next_class_min s = next_class_min t.
Proof.
  intros Hs Ht E. pose proof (next_class_min_gt s Hs). pose proof (next_class_min_gt t Ht).
  assert (next_class_min s ≤ next_class_min t).
  { apply next_class_min_spec; [lia..|]. rewrite E. apply next_class_min_spec; lia. }
  assert (next_class_min t ≤ next_class_min s).
  { apply next_class_min_spec; [lia..|]. rewrite <- E. apply next_class_min_spec; lia. }
  lia.
Qed.

Lemma next_class_min_heap s : 32 ≤ s ≤ KERNEL_HEAP_SIZE → next_class_min s < 2 ^ 27.
Proof.
  intros [Hs Hs']. enough (next_class_min s ≤ 2 ^ 26 + 2 ^ 21) by lia.
  apply next_class_min_spec; [lia..|].
  pose proof (class_of_mono s _ Hs Hs'). unfold KERNEL_HEAP_SIZE in *.
  change (class_of (64 * 1024 * 1024)) with 672 in *. change (class_of (2 ^ 26 + 2 ^ 21)) with 673. lia.
Qed.

Lemma class_of_heap s : 32 ≤ s ≤ KERNEL_HEAP_SIZE → class_of s ≤ 672.
Proof. intros [Hs Hs']. exact (class_of_mono s _ Hs Hs'). Qed.

(** ** The search loop *)

Section Search.
Context `{HE : HeapEnv} {Hok : HeapEnvOk}.

(** What a successful search hands to [carve]. *)
Definition found (h : heap) (bs : list blk) (l : Layout) (c be p hd ae : Z) : Prop :=
  ∃ l1 s l2, bs = l1 ++ Blk c s Free :: l2 ∧ heap_rep h bs (free_of l1 ++ free_of l2) ∧
    be = c + s ∧ place l c = Ret (Some (p, hd, ae)) ∧ ae ≤ be.

(** Nothing but lists changed, and no caller's word. *)
Definition quiet (bs : list blk) (h h' : heap) : Prop :=
  heap_step h h' ∧ data_kept bs (hmem h) (hmem h').

#[local] Instance quiet_preorder bs : PreOrder (quiet bs).
Proof.
  split; [done|]. intros h1 h2 h3 [? ?] [? ?]. by split; etrans.
Qed.

Lemma min_block_size_range l : layout_ok l → 32 ≤ min_block_size l < 2 ^ 64.
Proof using.
  intros Hl. rewrite min_block_size_eq by done. pose proof (reserved_size_eq l Hl).
  destruct (requested_align_pow l Hl) as (k & Hk & Ha & Hs).
  pose proof (round16_spec (16 + reserved_size l)) as [Hr ?].
  assert (0 < requested_size l) by (unfold requested_size; lia).
  assert (16 ≤ requested_align l) by (unfold requested_align, HEAP_BLOCK_ALIGNMENT; lia).
  clear - Hr H H0 H1 H2 Hs Hk. Z.to_euclidean_division_equations; lia.
Qed.

(** Taking a free block off its list. *)
Lemma take_free h bs c s :
  heap_rep h bs (free_of bs) → (c, s) ∈ free_of bs →
  ∃ l1 l2 h1, bs = l1 ++ Blk c s Free :: l2 ∧ remove_free_block h c = Ret h1 ∧
    heap_rep h1 bs (free_of l1 ++ free_of l2) ∧ quiet bs h h1 ∧ block_size (hmem h1) c = s ∧
    0 < c ∧ c mod 16 = 0 ∧ 32 ≤ s ≤ KERNEL_HEAP_SIZE ∧ c + s + 16 ≤ 2 ^ 63.
Proof using Hok.
  intros Hr Hin. apply elem_of_free_of, list_elem_of_split in Hin as (l1 & l2 & ->).
  rewrite free_of_mid in Hr. destruct (heap_remove _ _ _ _ _ Hr) as (h1 & E & Hr1 & Hst & Hd).
  destruct (mid_block _ _ _ _ _ _ _ Hr1) as (? & ? & Hs & Hw & _ & _ & _).
  pose proof Hs as [? ? ? _]. simpl in *. pose proof heap_positive. pose proof heap_bounded.
  assert (c + s + 16 ≤ 2 ^ 63).
  { pose proof heap_aligned. unfold KERNEL_HEAP_SIZE in *. Z.to_euclidean_division_equations; lia. }
  exists l1, l2, h1. split_and!; try done; try lia.
  apply (blk_size_at _ _ _ Free); [done| |done]. unfold KERNEL_HEAP_SIZE in *. lia.
Qed.

Lemma search_once fuel h bs l min :
  heap_rep h bs (free_of bs) → layout_ok l → 32 ≤ min < 2 ^ 64 →
  (search (S fuel) h l min = Ret (h, Null) ∧
     ∀ c s, (c, s) ∈ free_of bs → class_of s < search_from min) ∨
  (∃ c s, (c, s) ∈ free_of bs ∧ search_from min ≤ class_of s ∧
     ((∃ h1 be p hd ae, search (S fuel) h l min = Ret (h1, Found c be p hd ae) ∧
         found h1 bs l c be p hd ae ∧ quiet bs h h1) ∨
      (s < min_block_size l ∧ ∃ h2,
         search (S fuel) h l min = search fuel h2 l (next_class_min s) ∧
         heap_rep h2 bs (free_of bs) ∧ quiet bs h h2))).
Proof using Hok.
  intros Hr Hl Hmin. pose proof (rep_lists _ _ _ Hr) as (He & F & HF).
  destruct (find_suitable_block_spec _ _ _ _ He HF min Hmin) as (c & Ec & Hc).
  cbn [search]. rewrite Ec. step. destruct Hc as [[-> Hnone]|(s & Hin & Hcl)].
  { left. split; [done|]. intros c s Hi. exact (Hnone _ Hi). }
  right. exists c, s. split; [done|]. split; [done|].
  destruct (take_free _ _ _ _ Hr Hin) as (l1 & l2 & h1 & -> & E1 & Hr1 & Hq & Hsz & ? & ? & ? & ?).
  pose proof heap_bounded. unfold KERNEL_HEAP_SIZE in *.
  destruct (Z.eqb_spec c 0); [lia|]. rewrite E1. step. rewrite Hsz.
  destruct (place_spec l c) as (p & hd & ae & Ep & ? & ? & ? & ? & ? & ? & ? & Hae); [done|lia..|].
  rewrite Ep. step. unfold saturating_add. rewrite Z.min_l by (unfold u64_max; lia).
  destruct (Z.ltb_spec (c + s) ae).
  - right. split; [lia|].
    destruct (heap_insert h1 (l1 ++ Blk c s Free :: l2) (free_of l1 ++ free_of l2) c s)
      as (h2 & E2 & Hr2 & Hst2 & Hd2); [done| | |].
    + rewrite free_of_mid. set_solver.
    + pose proof (nodup_free_of _ _ _ Hr) as Hnd. rewrite free_of_mid in Hnd. by apply NoDup_cons in Hnd as [? _].
    + rewrite E2. step. exists h2. split; [|split; [by rewrite free_of_mid|by etrans; [exact Hq|]]].
      destruct (mid_block _ _ _ _ _ _ _ Hr2) as (_ & _ & Hs2 & Hw2 & _).
      by rewrite (blk_size_at _ _ _ _ Hs2) by (done || lia).
  - left. exists h1, (c + s), p, hd, ae. split; [done|]. split; [|done].
    exists l1, s, l2. done.
Qed.

(** The loop tries at most two candidates. *)
Lemma search_spec fuel h bs l :
  heap_rep h bs (free_of bs) → layout_ok l →
  ∃ h' r, search (S (S (S fuel))) h l (min_block_size l) = Ret (h', r) ∧ quiet bs h h' ∧
    match r with
    | Null => heap_rep h' bs (free_of bs) ∧
        ∀ c s, (c, s) ∈ free_of bs → s < next_class_min (min_block_size l)
    | Found c be p hd ae => found h' bs l c be p hd ae
    end.
Proof using Hok.
  intros Hr Hl. pose proof (min_block_size_range l Hl) as Hmin. set (M := min_block_size l) in *.
  assert (Hsize : ∀ c s, (c, s) ∈ free_of bs → 32 ≤ s ≤ KERNEL_HEAP_SIZE).
  { intros c s Hi. apply elem_of_free_of in Hi. destruct (free_block_range _ _ _ _ _ Hr Hi). lia. }
  pose proof (next_class_min_gt M ltac:(lia)) as HM.
  destruct (search_once (S (S fuel)) h bs l M Hr Hl Hmin)
    as [[E Hnone]|(c & s & Hin & Hcl & [(h1 & be & p & hd & ae & E & Hf & Hq)|(Hlt & h2 & E & Hr2 & Hq)])].
  - exists h, Null. split; [done|]. split; [done|]. split; [done|]. intros c s Hi.
    pose proof (Hnone c s Hi) as Hc. pose proof (Hsize _ _ Hi). unfold KERNEL_HEAP_SIZE in *.
    destruct (Z.lt_ge_cases M (2 ^ 27)); [|lia]. rewrite search_from_class in Hc by lia.
    pose proof (class_of_lt s M ltac:(lia) Hc). lia.
  - eauto 10.
  - pose proof (Hsize _ _ Hin) as Hs. pose proof (next_class_min_gt s ltac:(lia)).
    pose proof (next_class_min_heap s Hs) as Hn.
    assert (Hfits : ∀ c' s', (c', s') ∈ free_of bs → next_class_min s ≤ s' → M ≤ s' ∧ M < 2 ^ 27).
    { intros c' s' Hi' Hge. pose proof (Hsize _ _ Hi'). destruct (Z.lt_ge_cases M (2 ^ 27)).
      - rewrite search_from_class in Hcl by lia.
        pose proof (class_of_mono s M ltac:(lia) ltac:(lia)).
        rewrite (next_class_min_same s M) in Hge by lia. lia.
      - pose proof (search_from_huge M ltac:(lia)). apply next_class_min_spec in Hge; [|lia..].
        pose proof (class_of_heap s' ltac:(lia)). lia. }
    rewrite E.
    destruct (search_once (S fuel) h2 bs l (next_class_min s) Hr2 Hl ltac:(lia))
      as [[E' Hnone]|(c' & s' & Hin' & Hcl' & [(h1 & be & p & hd & ae & E' & Hf & Hq')|(Hlt' & _)])];
      rewrite ?search_from_class in * by lia.
    + exists h2, Null. split; [done|]. split; [done|]. split; [done|]. intros c' s' Hi'.
      pose proof (Hsize _ _ Hi'). pose proof (class_of_lt s' (next_class_min s) ltac:(lia) (Hnone _ _ Hi')).
      destruct (Z.lt_ge_cases M (2 ^ 27)); [|lia].
      destruct (Z.lt_ge_cases s' (next_class_min M)); [done|]. rewrite search_from_class in Hcl by lia.
      pose proof (class_of_mono s M ltac:(lia) ltac:(lia)).
      rewrite (next_class_min_same s M) in * by lia. lia.
    + exists h1, (Found c' be p hd ae). split; [done|]. split; [by etrans|done].
    + exfalso. pose proof (Hsize _ _ Hin') as Hs'.
      assert (Hge : next_class_min s ≤ s').
      { apply next_class_min_spec; [lia..|]. apply (Z.lt_le_trans _ (class_of (next_class_min s))); [|done].
        apply next_class_min_spec; lia. }
      destruct (Hfits _ _ Hin' Hge). lia.
Qed.
End Search.
