(* ===== verification/HeapCarve.v ===== *)
(** * Carving an allocation out of a free block

    [carve] splits the block the search found into an optional free prefix,
    the allocated block and an optional free suffix; remainders too small to
    be blocks are absorbed.  [carved] is that split on block lists and
    [carve_spec] shows that the headers, links and lists follow it. *)

From stdpp Require Import base tactics decidable numbers list sets.
From Stdlib Require Import ZArith Lia Bool.
From S2P Require Import Prelude Tlsf TlsfLists TlsfBlocks HeapInv HeapAlloc.

(** ** The split *)

Definition prefix_blocks (c hd : Z) : list blk :=
  if 32 <=? hd - c then [Blk c (hd - c) Free] else [].

Definition suffix_blocks (ae e : Z) : list blk :=
  if 32 <=? e - ae then [Blk ae (e - ae) Free] else [].

Definition allocation_end (ae e : Z) : Z := if 32 <=? e - ae then ae else e.

(** The allocated block, when the allocation ends at [aend]. *)
Definition allocated (c hd aend : Z) : blk :=
  if 32 <=? hd - c then Blk hd (aend - hd) (Live false)
  else Blk c (aend - c) (Live (0 <? hd - c)).

Definition carved (c hd ae e : Z) : list blk :=
  prefix_blocks c hd ++ [allocated c hd (allocation_end ae e)] ++ suffix_blocks ae e.

Lemma prefix_cases c hd :
  c ≤ hd → c mod 16 = 0 → hd mod 16 = 0 → hd = c ∨ hd = c + 16 ∨ c + 32 ≤ hd.
Proof. intros. Z.to_euclidean_division_equations. lia. Qed.

Lemma allocated_payload c hd aend :
  c ≤ hd → c mod 16 = 0 → hd mod 16 = 0 → payload (allocated c hd aend) = hd + 16.
Proof.
  intros Hle Hc Hd. unfold allocated, payload.
  destruct (prefix_cases c hd Hle Hc Hd) as [->|[->|H]].
  - rewrite Z.sub_diag. simpl. lia.
  - replace (c + 16 - c) with 16 by lia. simpl. lia.
  - destruct (Z.leb_spec 32 (hd - c)); [done|lia].
Qed.

Lemma allocated_end c hd aend : b_end (allocated c hd aend) = aend.
Proof. unfold allocated, b_end. destruct (32 <=? hd - c); simpl; lia. Qed.

Lemma sub_mod16 a b : a mod 16 = 0 → b mod 16 = 0 → (a - b) mod 16 = 0.
Proof. intros. Z.to_euclidean_division_equations. lia. Qed.

Section Carve.
Context `{HE : HeapEnv} {Hok : HeapEnvOk}.

(** Inserting a block written into a run that the lists do not use. *)
Lemma insert_into_run h fs lo hi a s m1 :
  start (hstate h) = kernel_heap → end_ (hstate h) = kernel_heap + KERNEL_HEAP_SIZE →
  lists_ok (hmem h) (hstate h) fs → hi mod 16 = 0 →
  (∀ e, e ∈ fs → e.1 + e.2 ≤ lo ∨ hi ≤ e.1) →
  kernel_heap ≤ lo ≤ a → a + s ≤ hi ≤ kernel_heap + KERNEL_HEAP_SIZE →
  32 ≤ s → a mod 16 = 0 → s mod 16 = 0 →
  (∀ x, x < lo ∨ hi ≤ x → m1 x = hmem h x) → m1 a = s →
  ∃ h', insert_free_block (set_mem h m1) a = Ret h' ∧
    lists_ok (hmem h') (hstate h') ((a, s) :: fs) ∧ heap_step h h' ∧
    ∀ x, x < a + 16 ∨ a + s ≤ x → hmem h' x = m1 x.
Proof using Hok.
  intros Es Ee Hl Hhi Hd Hlo Hle Hs Ha Hsa Hm Hh. pose proof heap_positive. pose proof heap_bounded.
  destruct (insert_free_block_spec (set_mem h m1) fs a s) as (m' & st' & E & Hl' & Hsb & Hm').
  - simpl. apply (lists_region (hmem h) m1 _ fs lo hi); try done. intros x Hx _. by apply Hm.
  - split; simpl; rewrite ?Es, ?Ee; try done; unfold KERNEL_HEAP_SIZE in *; lia.
  - intros e He. unfold disjoint_from. simpl. destruct (Hd e He); lia.
  - eexists. split; [exact E|]. simpl. done.
Qed.

(** [m'] has the header of a live block, without its canary. *)
Definition live_header (m : mem) (b : blk) : Prop :=
  m (b_addr b) = b_size b + 1 ∧ (b_use b = Live true → m (b_addr b + 16) = b_addr b).

Section Run.
Context (h : heap) (fs : list (Z * Z)) (c e hd ae : Z).
Hypothesis Hstart : start (hstate h) = kernel_heap.
Hypothesis Hend : end_ (hstate h) = kernel_heap + KERNEL_HEAP_SIZE.
Hypothesis Hlists : lists_ok (hmem h) (hstate h) fs.
Hypothesis Hout : ∀ x, x ∈ fs → x.1 + x.2 ≤ c ∨ e ≤ x.1.
Hypothesis Hbounds : kernel_heap ≤ c ∧ e ≤ kernel_heap + KERNEL_HEAP_SIZE.
Hypothesis Halign : c mod 16 = 0 ∧ e mod 16 = 0 ∧ hd mod 16 = 0 ∧ ae mod 16 = 0.
Hypothesis Horder : c ≤ hd ∧ hd + 32 ≤ ae ∧ ae ≤ e.

Lemma mark_allocated_spec aend :
  aend mod 16 = 0 → ae ≤ aend ≤ e →
  let b := allocated c hd aend in
  ∃ h1, mark_allocated h c hd (wrapping_sub hd c) aend = Ret (h1, b_addr b, b_size b) ∧
    lists_ok (hmem h1) (hstate h1) (free_of (prefix_blocks c hd) ++ fs) ∧ heap_step h h1 ∧
    (∀ x, x < c ∨ aend ≤ x → hmem h1 x = hmem h x) ∧ hmem h1 (c + 8) = hmem h (c + 8) ∧
    (32 ≤ hd - c → hmem h1 c = hd - c) ∧ live_header (hmem h1) b.
Proof using All.
  intros Ha Hle b. destruct Halign as (? & ? & ? & ?), Hbounds as [Hlo Hhi], Horder as (? & ? & ?).
  pose proof heap_positive. pose proof heap_bounded. unfold KERNEL_HEAP_SIZE in *.
  unfold mark_allocated, MIN_FREE_BLOCK. rewrite !wrapping_sub_small by lia.
  unfold b, allocated, prefix_blocks, live_header.
  destruct (prefix_cases c hd) as [->|[->|Hp]]; try done.
  - rewrite Z.sub_diag. simpl. eexists. split; [done|]. simpl.
    pose proof (sub_mod16 aend c ltac:(done) ltac:(done)).
    rewrite set_size_used by done. rewrite !set_size_used_ne by lia.
    split_and!; try done; try lia.
    + eapply (lists_region (hmem h) _ _ _ c e); try done. intros x Hx _. apply set_size_used_ne. lia.
    + intros x Hx. apply set_size_used_ne. lia.
  - replace (c + 16 - c) with 16 by lia. simpl. eexists. split; [done|]. simpl.
    pose proof (sub_mod16 aend c ltac:(done) ltac:(done)).
    rewrite mem_write_eq. rewrite !(mem_write_ne _ (c + 16)) by lia.
    rewrite set_size_used by done. rewrite !set_size_used_ne by lia.
    split_and!; try done; try lia.
    + eapply (lists_region (hmem h) _ _ _ c e); try done. intros x Hx _.
      rewrite mem_write_ne by lia. apply set_size_used_ne. lia.
    + intros x Hx. rewrite mem_write_ne by lia. apply set_size_used_ne. lia.
  - destruct (Z.leb_spec 32 (hd - c)) as [_|]; [|lia]. simpl.
    pose proof (sub_mod16 aend hd ltac:(done) ltac:(done)).
    pose proof (sub_mod16 hd c ltac:(done) ltac:(done)).
    destruct (insert_into_run h fs c e c (hd - c) (block_clear_used (block_set_size (hmem h) c (hd - c)) c))
      as (h1 & E & Hl1 & Hst & Hm1); try done; unfold KERNEL_HEAP_SIZE; try lia.
    { intros x Hx. apply set_size_free_ne. lia. }
    { apply set_size_free; [done|lia]. }
    rewrite E. simpl. eexists. split; [done|]. simpl. cbn [free_of omap].
    rewrite set_size_used by done. rewrite !set_size_used_ne by lia.
    rewrite !Hm1, set_size_free, !set_size_free_ne by (done || lia).
    split_and!; try done; try lia.
    + eapply (lists_region (hmem h1) _ _ _ hd e); try done.
      * intros x [->|Hx]%elem_of_cons; simpl; [lia|]. destruct (Hout x Hx); lia.
      * intros x Hx _. apply set_size_used_ne. lia.
    + intros x Hx. rewrite set_size_used_ne, Hm1 by lia. apply set_size_free_ne. lia.
Qed.

(** The words [carve] writes, as the split wants them. *)
Record carved_words (m m' : mem) : Prop := {
  cw_outside x : x < c ∨ e ≤ x → x ≠ e + 8 → m' x = m x;
  cw_prev : m' (c + 8) = m (c + 8);
  cw_prefix : 32 ≤ hd - c → m' c = hd - c ∧ m' (hd + 8) = c;
  cw_live : live_header m' (allocated c hd (allocation_end ae e));
  cw_canary : m' (allocation_end ae e - 8) = CANARY_VALUE;
  cw_suffix : 32 ≤ e - ae → m' ae = e - ae ∧ m' (ae + 8) = b_addr (allocated c hd (allocation_end ae e));
  cw_next : e < kernel_heap + KERNEL_HEAP_SIZE →
    m' (e + 8) = if 32 <=? e - ae then ae else b_addr (allocated c hd (allocation_end ae e));
}.

Lemma allocation_end_range :
  allocation_end ae e mod 16 = 0 ∧ ae ≤ allocation_end ae e ≤ e.
Proof using Halign Horder.
  clear Hbounds. destruct Halign as (? & ? & ? & ?), Horder as (? & ? & ?).
  unfold allocation_end. destruct (32 <=? e - ae); split; done || lia.
Qed.

(** The allocated block lies between the prefix and the suffix. *)
Lemma allocated_range aend :
  ae ≤ aend → let b := allocated c hd aend in
  c ≤ b_addr b ≤ hd ∧ (32 ≤ hd - c → b_addr b = hd) ∧
  b_addr b + b_size b = aend ∧ 32 ≤ b_size b ∧ (b_use b = Live true → 48 ≤ b_size b ∧ hd = c + 16).
Proof using Halign Horder.
  clear Hbounds. intros Hle b. destruct Halign as (? & ? & ? & ?), Horder as (? & ? & ?).
  unfold b, allocated. destruct (prefix_cases c hd) as [E|[E|Hp]]; try done.
  - rewrite E, Z.sub_diag. simpl. split_and!; try done; lia.
  - replace (hd - c) with 16 by lia. simpl. split_and!; try done; lia.
  - destruct (Z.leb_spec 32 (hd - c)); [|lia]. simpl. split_and!; try done; lia.
Qed.

Lemma prefix_entries x :
  x ∈ free_of (prefix_blocks c hd) ++ fs → x.1 + x.2 ≤ b_addr (allocated c hd (allocation_end ae e)) ∨ e ≤ x.1.
Proof using Hout Halign Horder.
  clear Hbounds. destruct Horder as (? & ? & ?). destruct allocation_end_range as [_ ?].
  destruct (allocated_range (allocation_end ae e)) as (? & Hhd & _); [lia|].
  intros [Hi|Hi]%elem_of_app.
  - unfold prefix_blocks in Hi. destruct (Z.leb_spec 32 (hd - c)); [|by apply elem_of_nil in Hi].
    apply list_elem_of_singleton in Hi as ->. simpl. rewrite Hhd; lia.
  - destruct (Hout _ Hi); lia.
Qed.

(** The rest after the allocation becomes a free block. *)
Lemma add_suffix_spec h1 :
  let b := allocated c hd (allocation_end ae e) in
  heap_step h h1 → lists_ok (hmem h1) (hstate h1) (free_of (prefix_blocks c hd) ++ fs) →
  ∃ h2, (if MIN_FREE_BLOCK <=? wrapping_sub e ae
         then add_suffix h1 ae (wrapping_sub e ae) (b_addr b) else Ret h1) = Ret h2 ∧
    lists_ok (hmem h2) (hstate h2) (free_of (suffix_blocks ae e) ++ free_of (prefix_blocks c hd) ++ fs) ∧
    heap_step h1 h2 ∧ (∀ x, x < ae ∨ e ≤ x → hmem h2 x = hmem h1 x) ∧
    (32 ≤ e - ae → hmem h2 ae = e - ae ∧ hmem h2 (ae + 8) = b_addr b).
Proof using All.
  intros b (Hsb & _) Hl. destruct Halign as (? & ? & ? & ?), Hbounds as [Hlo Hhi], Horder as (? & ? & ?).
  pose proof heap_positive. pose proof heap_bounded. unfold KERNEL_HEAP_SIZE in *.
  rewrite wrapping_sub_small by lia. unfold suffix_blocks, MIN_FREE_BLOCK.
  destruct (Z.leb_spec 32 (e - ae)); [|exists h1; split_and!; done || lia].
  destruct Hsb as (Hs & He & _). destruct allocation_end_range as [_ ?].
  destruct (allocated_range (allocation_end ae e)) as (Hb & _); [lia|]. fold b in Hb.
  pose proof (sub_mod16 e ae ltac:(done) ltac:(done)). unfold add_suffix.
  destruct (insert_into_run h1 (free_of (prefix_blocks c hd) ++ fs) (b_addr b) e ae (e - ae)
    (block_set_prev_phys (block_clear_used (block_set_size (hmem h1) ae (e - ae)) ae) ae (b_addr b)))
    as (h2 & E & Hl2 & Hst & Hm2); try done; try congruence; unfold KERNEL_HEAP_SIZE; try lia.
  - intros x Hx. by apply prefix_entries.
  - intros x Hx. unfold block_set_prev_phys. rewrite mem_write_ne by lia. apply set_size_free_ne. lia.
  - unfold block_set_prev_phys. rewrite mem_write_ne by lia. apply set_size_free; [done|lia].
  - exists h2. unfold block_set_prev_phys in *. split; [done|]. split; [done|]. split; [done|].
    split; [|intros _; rewrite !Hm2 by lia; rewrite mem_write_eq; split; [|done]].
    + intros x Hx. rewrite Hm2, mem_write_ne by lia. apply set_size_free_ne. lia.
    + rewrite mem_write_ne by lia. apply set_size_free; [done|lia].
Qed.

(** The [prev_phys] fix-ups of [carve] on a memory that has the suffix's size. *)
Definition fix_ups (m : mem) : mem :=
  let m3 := if 32 <=? hd - c then mem_write m (hd + 8) c else m in
  if e <? kernel_heap + KERNEL_HEAP_SIZE
  then mem_write m3 (e + 8)
    (if 32 <=? e - ae then ae else b_addr (allocated c hd (allocation_end ae e)))
  else m3.

Lemma fix_ups_ne m x : (32 ≤ hd - c → x ≠ hd + 8) → x ≠ e + 8 → fix_ups m x = m x.
Proof using.
  intros H1 H2. unfold fix_ups.
  destruct (Z.leb_spec 32 (hd - c)), (e <? _); rewrite ?mem_write_ne; auto.
Qed.

Lemma fix_ups_run st m :
  end_ st = kernel_heap + KERNEL_HEAP_SIZE → (32 ≤ e - ae → m ae = e - ae) →
  (let m3 := if MIN_FREE_BLOCK <=? wrapping_sub hd c then block_set_prev_phys m hd c else m in
   if MIN_FREE_BLOCK <=? wrapping_sub e ae then block_set_prev_phys_of_next m3 ae ae
   else if e <? end_ st
     then Ret (block_set_prev_phys m3 e (b_addr (allocated c hd (allocation_end ae e))))
     else Ret m3) = Ret (fix_ups m).
Proof using Hok Halign Hbounds Horder.
  intros Est Hm. destruct Halign as (? & ? & ? & ?), Hbounds as [Hlo Hhi], Horder as (? & ? & ?).
  pose proof heap_positive. pose proof heap_bounded.
  rewrite !wrapping_sub_small by (unfold KERNEL_HEAP_SIZE in *; lia).
  rewrite Est. unfold fix_ups, MIN_FREE_BLOCK, block_set_prev_phys. cbv zeta.
  set (m3 := if 32 <=? hd - c then mem_write m (hd + 8) c else m).
  destruct (Z.leb_spec 32 (e - ae)); [|by destruct (e <? _)].
  assert (m3 ae = e - ae).
  { unfold m3. destruct (32 <=? hd - c); rewrite ?mem_write_ne by lia; auto. }
  pose proof (sub_mod16 e ae ltac:(done) ltac:(done)).
  rewrite (set_prev_of_next_spec m3 ae (e - ae)) by (done || lia).
  by replace (ae + (e - ae)) with e by lia.
Qed.

Lemma carve_run :
  ∃ h2 m', carve h c e hd ae = Ret (set_state (set_mem h2 m') (set_available (hstate h2)
      (saturating_sub (available (hstate h2)) (b_size (allocated c hd (allocation_end ae e)))))) ∧
    lists_ok m' (hstate h2) (free_of (suffix_blocks ae e) ++ free_of (prefix_blocks c hd) ++ fs) ∧
    heap_step h h2 ∧ carved_words (hmem h) m'.
Proof using All.
  destruct Halign as (? & ? & ? & ?), Hbounds as [Hlo Hhi], Horder as (? & ? & ?).
  pose proof heap_positive. pose proof heap_bounded.
  destruct allocation_end_range as [Haend Haer].
  destruct (mark_allocated_spec (allocation_end ae e) Haend Haer)
    as (h1 & E1 & Hl1 & Hst1 & Ho1 & Hc1 & Hp1 & Hh1).
  destruct (add_suffix_spec h1 Hst1 Hl1) as (h2 & E2 & Hl2 & Hst2 & Ho2 & Hs2).
  assert (Hst : heap_step h h2) by (by etrans).
  assert (Ee : end_ (hstate h2) = kernel_heap + KERNEL_HEAP_SIZE).
  { destruct Hst as ((_ & -> & _) & _). done. }
  pose proof (fix_ups_run (hstate h2) (hmem h2) Ee ltac:(naive_solver)) as E3.
  set (m4 := fix_ups (hmem h2)) in *.
  destruct (allocated_range (allocation_end ae e)) as (Hb & Hbhd & Hbend & Hb32 & Hfwd); [lia|].
  set (b := allocated c hd (allocation_end ae e)) in *.
  set (aend := allocation_end ae e) in *.
  assert (Hm4 : ∀ x, x ≠ e + 8 → (32 ≤ hd - c → x ≠ hd + 8) → x < ae ∨ e ≤ x → m4 x = hmem h1 x).
  { intros x ???. unfold m4. rewrite fix_ups_ne by done. by apply Ho2. }
  exists h2, (mem_write m4 (aend - 8) CANARY_VALUE).
  split; [|split; [|split; [done|]]].
  - unfold carve.
    replace (if MIN_FREE_BLOCK <=? wrapping_sub e ae then ae else e) with aend by
      (unfold aend, allocation_end, MIN_FREE_BLOCK, KERNEL_HEAP_SIZE in *; by rewrite wrapping_sub_small by lia).
    rewrite E1. cbn [mbind outcome_bind]. rewrite E2. cbn [mbind outcome_bind]. cbv zeta in E3. rewrite E3.
    cbn [mbind outcome_bind]. unfold canary_write, CANARY_SIZE.
    rewrite (block_size_flag m4 (b_addr b) (b_size b)) with (f := 1); [| | |lia|].
    + rewrite wrapping_add_small, Hbend, wrapping_sub_small; unfold KERNEL_HEAP_SIZE in *; done || lia.
    + replace (b_size b) with (aend - b_addr b) by lia. apply sub_mod16; [done|].
      unfold b, allocated. by destruct (32 <=? hd - c).
    + unfold KERNEL_HEAP_SIZE in *. lia.
    + rewrite Hm4 by lia. apply Hh1.
  - apply (lists_ok_frame (hmem h2) _ (hstate h2)); try done. intros x Hx.
    destruct (entries_each _ _ _ (proj1 Hl2) x Hx) as [_ Hx16 ? _ _ _ _].
    assert (Hcase : x.1 + x.2 ≤ b_addr b ∨ e ≤ x.1 ∨ x.1 = ae ∧ 32 ≤ e - ae ∧ aend = ae).
    { apply elem_of_app in Hx as [Hx|Hx]; [|destruct (prefix_entries _ Hx); auto].
      unfold suffix_blocks, aend, allocation_end in *.
      destruct (Z.leb_spec 32 (e - ae)); [|by apply elem_of_nil in Hx].
      apply list_elem_of_singleton in Hx as ->. auto. }
    assert (x.1 ≠ e + 8) by (clear - Hx16 H0; Z.to_euclidean_division_equations; lia).
    assert (x.1 + 16 ≠ e + 8) by (clear - Hx16 H0; Z.to_euclidean_division_equations; lia).
    unfold m4. split; rewrite mem_write_ne, fix_ups_ne; done || lia.
  - split.
    + intros x Hx Hne. rewrite mem_write_ne, Hm4 by lia. apply Ho1. lia.
    + rewrite mem_write_ne, Hm4 by lia. done.
    + intros Hp. rewrite !mem_write_ne by lia. rewrite Hm4 by lia. split; [auto|].
      unfold m4, fix_ups. destruct (Z.leb_spec 32 (hd - c)); [|lia].
      destruct (e <? kernel_heap + KERNEL_HEAP_SIZE); rewrite ?(mem_write_ne _ (e + 8)) by lia;
        apply mem_write_eq.
    + fold aend b. destruct Hh1 as [Hh1 Hh1']. split.
      * rewrite mem_write_ne, Hm4 by lia. done.
      * intros Hu. destruct (Hfwd Hu). rewrite mem_write_ne, Hm4 by lia. auto.
    + apply mem_write_eq.
    + intros Hs. destruct (Hs2 Hs). assert (aend = ae).
      { unfold aend, allocation_end. destruct (Z.leb_spec 32 (e - ae)); [done|lia]. }
      unfold m4. rewrite !mem_write_ne, !fix_ups_ne by lia. done.
    + intros Hlt. rewrite mem_write_ne by lia. unfold m4, fix_ups.
      destruct (Z.ltb_spec e (kernel_heap + KERNEL_HEAP_SIZE)); [|lia]. apply mem_write_eq.
Qed.

(** The allocated block's header and canary are those of a live block. *)
Lemma allocated_words m m' :
  carved_words m m' → let b := allocated c hd (allocation_end ae e) in blk_shape b ∧ blk_words m' b.
Proof using Halign Horder.
  clear Hbounds. intros Hw b. destruct Halign as (? & ? & ? & ?), Horder as (? & ? & ?).
  destruct allocation_end_range as [Haend Haer].
  destruct (allocated_range (allocation_end ae e)) as (Hb & Hbhd & Hbend & Hb32 & Hfwd); [lia|].
  destruct (cw_live _ _ Hw) as [Hh Hh']. pose proof (cw_canary _ _ Hw) as Hc. fold b in Hb32, Hbend, Hfwd, Hh, Hh'.
  assert (Hba : b_addr b mod 16 = 0) by (unfold b, allocated; by destruct (32 <=? hd - c)).
  assert (Hlive : ∃ fwd, b_use b = Live fwd) by (unfold b, allocated; destruct (32 <=? hd - c); eauto).
  destruct Hlive as [fwd Hu]. split.
  - split; try done; [|intros; by apply Hfwd].
    replace (b_size b) with (allocation_end ae e - b_addr b) by lia. by apply sub_mod16.
  - unfold blk_words, b_end. rewrite Hu, Hbend. split; [done|]. split; [done|].
    intros ->. by apply Hh'.
Qed.

(** The words of [carve] spell out the split. *)
Lemma carved_tiled m m' prev :
  carved_words m m' → (∀ p, prev = Some p → m (c + 8) = p) →
  tiled m' prev c (carved c hd ae e) e.
Proof using Halign Horder.
  clear Hbounds. intros Hw Hprev. destruct Halign as (? & ? & ? & ?), Horder as (? & ? & ?).
  destruct allocation_end_range as [Haend Haer].
  destruct (allocated_range (allocation_end ae e)) as (Hb & Hbhd & Hbend & _ & _); [lia|].
  destruct (allocated_words m m' Hw) as [Hsh Hbw]. unfold carved.
  pose proof (cw_suffix _ _ Hw) as Hsuf. pose proof (cw_prefix _ _ Hw) as Hpre.
  assert (Hcp : ∀ p, prev = Some p → m' (c + 8) = p) by (intros; rewrite (cw_prev _ _ Hw); auto).
  assert (Hc : ¬ 32 ≤ hd - c → b_addr (allocated c hd (allocation_end ae e)) = c).
  { intros. unfold allocated. destruct (Z.leb_spec 32 (hd - c)); [lia|done]. }
  assert (Htail : tiled m' (Some (b_addr (allocated c hd (allocation_end ae e))))
    (allocation_end ae e) (suffix_blocks ae e) e).
  { unfold suffix_blocks, allocation_end in *. destruct (Z.leb_spec 32 (e - ae)); [|done].
    destruct Hsuf as [Hs1 Hs2]; [done|]. cbn. split_and!; try done; [|naive_solver|unfold b_end; simpl; lia].
    split; simpl; try done. by apply sub_mod16. }
  set (b := allocated c hd (allocation_end ae e)) in *. unfold prefix_blocks.
  destruct (Z.leb_spec 32 (hd - c)) as [Hp|Hp]; cbn; unfold b_end; simpl.
  - specialize (Hbhd Hp). destruct (Hpre Hp) as [Hp1 Hp2]. split_and!; try done; try lia.
    + split; simpl; try done. by apply sub_mod16.
    + intros p [= <-]. by replace (c + (hd - c)) with hd by lia.
    + rewrite Hbend. by replace (c + (hd - c)) with (b_addr b) by lia.
  - specialize (Hc ltac:(lia)). rewrite Hbend. rewrite Hc in *. split_and!; done.
Qed.
End Run.

Lemma carved_last p c hd ae e :
  last_addr p (carved c hd ae e) =
    Some (if 32 <=? e - ae then ae else b_addr (allocated c hd (allocation_end ae e))).
Proof using.
  unfold carved, suffix_blocks. rewrite app_assoc.
  destruct (32 <=? e - ae); [by rewrite last_addr_snoc|]. rewrite app_nil_r. by rewrite last_addr_snoc.
Qed.

Lemma carved_free c hd ae e :
  free_of (carved c hd ae e) = free_of (prefix_blocks c hd) ++ free_of (suffix_blocks ae e).
Proof using.
  unfold carved. rewrite !free_of_app. f_equal. unfold allocated. by destruct (32 <=? hd - c).
Qed.

(** [carve] splits the block and keeps everything else. *)
Lemma carve_spec h l1 c s l2 hd ae :
  heap_rep h (l1 ++ Blk c s Free :: l2) (free_of l1 ++ free_of l2) →
  hd mod 16 = 0 → ae mod 16 = 0 → c ≤ hd → hd + 32 ≤ ae → ae ≤ c + s →
  ∃ h', carve h c (c + s) hd ae = Ret h' ∧
    (let bs := l1 ++ carved c hd ae (c + s) ++ l2 in heap_rep h' bs (free_of bs)) ∧
    available (hstate h') = saturating_sub (available (hstate h))
      (b_size (allocated c hd (allocation_end ae (c + s)))) ∧
    initialized (hstate h') = initialized (hstate h) ∧
    htrace h' = htrace h ∧ hcursor h' = hcursor h ∧ data_kept (l1 ++ l2) (hmem h) (hmem h').
Proof using Hok.
  intros Hr Hd Ha H1 H2 H3. pose proof (mid_block _ _ _ _ _ _ _ Hr) as (Hlo & Hhi & [? ? ? _] & _ & T1 & T2 & Hp).
  simpl in *. assert (He : (c + s) mod 16 = 0) by (Z.to_euclidean_division_equations; lia).
  destruct (carve_run h (free_of l1 ++ free_of l2) c (c + s) hd ae) as (h2 & m' & E & Hl & Hst & Hw);
    try apply Hr; try done.
  { intros [x sx] Hx. simpl. by eapply outside_run. }
  destruct Hst as ((Es & Ee & Ea & Ei) & Et & Ec).
  pose proof (mid_run _ _ _ _ _ _ _ Hr) as Hold.
  eexists. split; [exact E|]. simpl. rewrite Ea, Ei. split_and!; try done.
  - split; simpl; rewrite ?Es, ?Ee; try apply Hr; try done.
    + apply (tiled_replace (hmem h) m' None kernel_heap l1 [Blk c s Free] (carved c hd ae (c + s)) l2 c (c + s));
        try done.
      * intros b x Hb Hx Hne. apply (cw_outside _ _ _ _ _ _ Hw); [|done].
        apply elem_of_app in Hb as [Hb|Hb].
        -- destruct (tiled_range _ _ _ _ _ _ T1 Hb), (tiled_block _ _ _ _ _ _ T1 Hb) as [[] _].
           unfold owns, b_end in *. naive_solver lia.
        -- destruct (tiled_range _ _ _ _ _ _ T2 Hb), (tiled_block _ _ _ _ _ _ T2 Hb) as [[] _].
           unfold owns, b_end in *. naive_solver lia.
      * by eapply carved_tiled.
      * unfold carved, allocated. by destruct (prefix_blocks c hd).
      * intros Hlt q. rewrite carved_last. intros [= <-]. by apply (cw_next _ _ _ _ _ _ Hw).
    + apply (lists_ok_frame m' m' (hstate h2)); try done.
      rewrite !free_of_app, carved_free.
      assert (P : free_of l1 ++ (free_of (prefix_blocks c hd) ++ free_of (suffix_blocks ae (c + s))) ++ free_of l2 ≡ₚ
        free_of (suffix_blocks ae (c + s)) ++ free_of (prefix_blocks c hd) ++ free_of l1 ++ free_of l2) by solve_Permutation.
      by rewrite P.
  - by eapply (run_data h l1 [Blk c s Free] l2); [exact Hr|done|done|apply (cw_outside _ _ _ _ _ _ Hw)].
Qed.
End Carve.
