(* ===== verification/HeapSpec.v ===== *)
(** * Specifications of the heap operations

    What [initialize], [allocate_locked] and [deallocate_locked] do to a heap
    that satisfies [heap_inv], on every branch. *)

From stdpp Require Import base tactics decidable numbers list sets.
From Stdlib Require Import ZArith Lia Bool.
From S2P Require Import Prelude Tlsf TlsfLists TlsfBlocks HeapInv HeapAlloc HeapPlace HeapCarve.

Lemma free_bytes_cons b bs :
  free_bytes (b :: bs) = (if is_free b then b_size b else 0) + free_bytes bs.
Proof. unfold free_bytes, is_free. destruct b as [a s []]; simpl; done. Qed.

Lemma free_bytes_bound m p a bs e : tiled m p a bs e → 0 ≤ free_bytes bs ≤ e - a.
Proof.
  revert p a. induction bs as [|b bs IH]; intros p a; cbn [tiled]; [intros ->; cbn; lia|].
  intros (<- & [? ? ? _] & _ & _ & H%IH). rewrite free_bytes_cons. unfold b_end in H.
  destruct (is_free b); lia.
Qed.

Lemma merges_bytes l1 l2 a s l1' a' s' l2' :
  merges l1 l2 a s l1' a' s' l2' →
  free_bytes (l1' ++ Blk a' s' Free :: l2') = free_bytes (l1 ++ l2) + s.
Proof.
  intros [l1'' pa ps ->|ns l2'' _ ->|_ _];
    rewrite !free_bytes_app, ?free_bytes_cons; simpl; unfold free_bytes; simpl; lia.
Qed.

Lemma merges_live l1 l2 a s l1' a' s' l2' b :
  merges l1 l2 a s l1' a' s' l2' → b ∈ l1 ++ l2 → b_use b ≠ Free → b ∈ l1' ++ Blk a' s' Free :: l2'.
Proof.
  intros [l1'' pa ps ->|ns l2'' _ ->|_ _] Hb Hu; [|set_solver|set_solver].
  assert (b ≠ Blk pa ps Free) by (by intros ->). set_solver.
Qed.

Lemma free_bytes_carved l1 c s l2 hd ae :
  ae ≤ c + s → c ≤ hd → hd ≤ ae →
  free_bytes (l1 ++ carved c hd ae (c + s) ++ l2) +
    b_size (allocated c hd (allocation_end ae (c + s))) = free_bytes (l1 ++ Blk c s Free :: l2).
Proof.
  intros. rewrite !free_bytes_app, free_bytes_cons. unfold carved. rewrite !free_bytes_app.
  unfold prefix_blocks, allocated, suffix_blocks, allocation_end, free_bytes.
  destruct (Z.leb_spec 32 (hd - c)), (Z.leb_spec 32 (c + s - ae)); simpl; lia.
Qed.

Lemma empty_lists m st :
  sl_bitmaps st = sl_bitmaps AllocatorState_new → free_lists st = free_lists AllocatorState_new →
  fl_bitmap st = 0 → lists_ok m st [].
Proof.
  intros Es Ef Efl. split.
  - split; [set_solver|apply NoDup_nil_2|set_solver].
  - assert (H22 : ∀ f, 0 ≤ f < 22 → sl_bitmaps AllocatorState_new !!! Z.to_nat f = 0).
    { intros f Hf. apply lookup_total_replicate_2. unfold FL_COUNT, FL_MAX, FL_MIN. lia. }
    exists (λ _, []). split; [split| | |]; rewrite ?Es, ?Ef, ?Efl; try done.
    + intros f Hf. rewrite H22 by lia. lia.
    + intros f s Hf Hs. rewrite H22 by lia. by rewrite Z.bits_0.
    + intros f Hf. rewrite H22 by lia. by rewrite Z.bits_0.
    + intros i Hi. apply lookup_total_replicate_2.
      unfold FREE_LISTS_COUNT, FL_COUNT, FL_MAX, FL_MIN, SL_COUNT. lia.
    + intros i a Hi. set_solver.
    + intros i Hi. apply NoDup_nil_2.
Qed.

Section Specs.
Context `{HE : HeapEnv} {Hok : HeapEnvOk}.

(** ** Initialisation *)

Lemma initialize_inv m :
  ∃ h, initialize (heap_new m) = Ret h ∧ heap_inv h [Blk kernel_heap KERNEL_HEAP_SIZE Free].
Proof using Hok.
  pose proof heap_positive. pose proof heap_aligned. pose proof heap_bounded.
  unfold initialize, usize_add. destruct (Z.leb_spec (kernel_heap + KERNEL_HEAP_SIZE) u64_max);
    [|unfold u64_max, KERNEL_HEAP_SIZE in *; lia]. cbn [mbind outcome_bind].
  unfold HEAP_BLOCK_ALIGNMENT. rewrite heap_aligned. simpl. rewrite andb_false_r.
  set (m1 := block_set_prev_phys _ _ _). set (st := mkAllocatorState _ _ _ _ _ _ _).
  assert (Hm1 : m1 kernel_heap = KERNEL_HEAP_SIZE).
  { unfold m1, block_set_prev_phys. rewrite mem_write_ne by lia.
    apply set_size_free; unfold KERNEL_HEAP_SIZE; done || lia. }
  destruct (insert_into_run (Heap m1 st (htrace (heap_new m)) 0) [] kernel_heap
    (kernel_heap + KERNEL_HEAP_SIZE) kernel_heap KERNEL_HEAP_SIZE m1) as (h & E & Hl & Hst & Hm); try done.
  - by apply empty_lists.
  - unfold KERNEL_HEAP_SIZE. Z.to_euclidean_division_equations; lia.
  - set_solver.
  - exists h. split; [exact E|]. destruct Hst as ((Es & Ee & Ea & Ei) & _). simpl in *.
    unfold KERNEL_HEAP_SIZE in *.
    split; [split; try done| |done].
    + cbn. unfold b_end. simpl. split_and!; try done. rewrite Hm by lia. done.
    + by rewrite Ea.
Qed.

(** ** Allocation *)

Lemma allocate_locked_spec h bs l :
  heap_inv h bs → layout_ok l →
  ∃ h' p, allocate_locked h l = Ret (h', p) ∧ data_kept bs (hmem h) (hmem h') ∧
    htrace h' = htrace h ∧ hcursor h' = hcursor h ∧
    (p = 0 ∧ heap_inv h' bs ∧
       (∀ a s, Blk a s Free ∈ bs → s < next_class_min (min_block_size l)) ∨
     ∃ l1 c s l2 hd ae, let b := allocated c hd (allocation_end ae (c + s)) in
       bs = l1 ++ Blk c s Free :: l2 ∧ heap_inv h' (l1 ++ carved c hd ae (c + s) ++ l2) ∧
       payload b = p ∧ p mod requested_align l = 0 ∧ p + requested_size l ≤ payload_end b ∧
       c ≤ b_addr b ∧ b_end b ≤ c + s ∧ 0 < p ∧ place l c = Ret (Some (p, hd, ae))).
Proof using Hok.
  intros [Hr Hav Hin] Hl. unfold allocate_locked.
  assert (Hfuel : ∃ f, walk_fuel = S (S (S f))).
  { pose proof fuel_enough as Hf. change (KERNEL_HEAP_SIZE / MIN_FREE_BLOCK) with 2097152 in Hf.
    exists (walk_fuel - 3)%nat. lia. }
  destruct Hfuel as [f ->].
  destruct (search_spec f h bs l Hr Hl) as (h1 & r & E & [Hst Hd] & Hres). rewrite E. cbn [mbind outcome_bind].
  destruct Hst as ((Es & Ee & Ea & Ei) & Et & Ec).
  destruct r as [|c be p hd ae].
  - destruct Hres as [Hr1 Hnone]. exists h1, 0. split_and!; try done. left. split_and!; try done.
    + split; [done|congruence|congruence].
    + intros a s Hi. by apply (Hnone a), elem_of_free_of.
  - destruct Hres as (l1 & s & l2 & -> & Hr1 & -> & Epl & Hfit).
    pose proof (mid_block _ _ _ _ _ _ _ Hr1) as (? & ? & [? ? ? _] & _ & _). simpl in *.
    pose proof heap_positive. pose proof heap_bounded. pose proof heap_aligned.
    destruct (place_spec l c Hl) as (p' & hd' & ae' & Epl' & -> & Hp & ? & ? & ? & ? & ? & ?);
      [lia|unfold KERNEL_HEAP_SIZE in *; Z.to_euclidean_division_equations; lia|done|].
    rewrite Epl' in Epl. injection Epl as <- -> ->.
    destruct (carve_spec h1 l1 c s l2 hd ae Hr1) as (h2 & E2 & Hr2 & Ha2 & Hi2 & Ht2 & Hc2 & Hd2); try done.
    rewrite E2. cbn [mbind outcome_bind]. exists h2, (hd + 16).
    destruct (allocated_range c (c + s) hd ae ltac:(split_and!; try done; Z.to_euclidean_division_equations; lia)
      ltac:(lia) (allocation_end ae (c + s))) as (Hb & _ & Hbend & Hb32 & _);
      [unfold allocation_end; destruct (_ <=? _); lia|].
    split; [done|]. split; [etrans; [exact Hd|by apply data_kept_free]|]. split; [congruence|]. split; [congruence|].
    right. exists l1, c, s, l2, hd, ae. split_and!; try done.
    + split; [done| |congruence]. rewrite Ha2, Ea, Hav.
      pose proof (free_bytes_carved l1 c s l2 hd ae ltac:(lia) ltac:(lia) ltac:(lia)).
      pose proof (free_bytes_bound _ _ _ _ _ (rep_tiled _ _ _ Hr2)).
      unfold saturating_sub. lia.
    + apply allocated_payload; done.
    + unfold payload_end. rewrite allocated_end. unfold CANARY_SIZE, allocation_end.
      destruct (32 <=? _); lia.
    + lia.
    + rewrite allocated_end. unfold allocation_end. destruct (32 <=? _); lia.
    + lia.
Qed.

(** ** Deallocation *)

(** The header of a live block is found from its payload. *)
Lemma header_of_words m st a s fwd :
  0 < start st ≤ a → a + s ≤ end_ st < 2 ^ 63 → blk_shape (Blk a s (Live fwd)) →
  live_header m (Blk a s (Live fwd)) →
  let p := payload (Blk a s (Live fwd)) in
  checked_sub p HEADER_SIZE = Some (p - 16) ∧ 0 < p ∧ header_of m st p (p - 16) = a ∧
  block_size m a = s ∧ block_is_used m a = true.
Proof using.
  intros Hst He Hs [Hwa Hwf] p. pose proof Hs as [Ha ? Hs16 Hf]. simpl in *.
  assert (Hp : a + 16 ≤ p) by (unfold p, payload; destruct fwd; simpl; lia).
  assert (Hbs : block_size m a = s) by (apply (block_size_flag m a s) with 1; done || lia).
  assert (Hbu : block_is_used m a = true) by (by rewrite (block_is_used_flag m a s) with (f := 1) by lia).
  unfold HEADER_SIZE. rewrite checked_sub_small by lia. split_and!; try done; try lia.
  unfold header_of, HEAP_BLOCK_ALIGNMENT, HEADER_SIZE.
  destruct fwd; unfold p, payload; simpl.
  - specialize (Hwf eq_refl). specialize (Hf eq_refl). replace (a + 32 - 16) with (a + 16) by lia.
    rewrite Hwf, Hbs, Hbu. simpl.
    rewrite (proj2 (is_multiple_of_true a 16) Ha), !wrapping_add_small by lia.
    cmp_cases; simpl; done || lia.
  - replace (a + 16 - 16) with a by lia. rewrite Hwa.
    replace (is_multiple_of (s + 1) 16) with false; [by rewrite andb_false_r; case_match|].
    unfold is_multiple_of. symmetry. apply Z.eqb_neq. clear - Hs16. Z.to_euclidean_division_equations; lia.
Qed.

Lemma live_header_words m b : b_use b ≠ Free → blk_words m b → live_header m b.
Proof using.
  unfold blk_words, live_header. destruct (b_use b) as [|fwd]; [done|]. intros _ (? & _ & ?). naive_solver.
Qed.

(** Clearing the used flag of a live block gives a free block the lists do not
    hold yet. *)
Lemma clear_used_rep h l1 a s fwd l2 :
  heap_rep h (l1 ++ Blk a s (Live fwd) :: l2) (free_of l1 ++ free_of l2) →
  heap_rep (set_mem h (block_clear_used (hmem h) a)) (l1 ++ Blk a s Free :: l2)
    (free_of l1 ++ free_of l2).
Proof using Hok.
  intros Hr. pose proof (mid_block _ _ _ _ _ _ _ Hr) as (? & ? & Hs & Hw & _ & T2 & Hp).
  pose proof Hs as [Ha ? Hs16 _]. destruct Hw as (Hw & _). simpl in *.
  assert (Hc : block_clear_used (hmem h) a a = s).
  { unfold block_clear_used, block_raw_size, BLOCK_USED_FLAG. rewrite mem_write_eq, Hw.
    pose proof heap_bounded. pose proof heap_positive. unfold KERNEL_HEAP_SIZE in *.
    rewrite land_unot64_one by lia. clear - Hs16. Z.to_euclidean_division_equations; lia. }
  assert (Hne : ∀ x, x ≠ a → block_clear_used (hmem h) a x = hmem h x) by (intros; by apply mem_write_ne).
  pose proof (mid_run _ _ _ _ _ _ _ Hr) as Hold.
  apply (heap_retile h l1 [Blk a s (Live fwd)] l2 _ _ a (a + s) [Blk a s Free]); try done.
  - clear - Ha Hs16. Z.to_euclidean_division_equations; lia.
  - intros x Hx _. apply Hne. lia.
  - cbn. split_and!; try done. intros p Hp'. rewrite Hne by lia. by apply Hp.
  - intros Hlt q [= <-]. rewrite Hne by lia. destruct l2 as [|b l2]; cbn in T2; [lia|].
    destruct T2 as (_ & _ & _ & Hn & _). by apply Hn.
Qed.

Lemma heap_rep_available h bs fs v :
  heap_rep h bs fs → heap_rep (set_state h (set_available (hstate h) v)) bs fs.
Proof using.
  intros [? ? ? ? ?]. split; try done. simpl. by apply (lists_ok_frame (hmem h) (hmem h) (hstate h)).
Qed.

Lemma canary_check_live h l1 a s fwd l2 fs :
  heap_rep h (l1 ++ Blk a s (Live fwd) :: l2) fs → canary_check (hmem h) a = inl ().
Proof using Hok.
  intros Hr. pose proof (mid_block _ _ _ _ _ _ _ Hr) as (? & ? & Hs & Hw & _).
  pose proof heap_positive. pose proof heap_bounded. pose proof Hs as [Ha ? Hs16 Hf]. simpl in *.
  unfold KERNEL_HEAP_SIZE in *.
  unfold canary_check, CANARY_SIZE. rewrite (blk_size_at _ _ _ _ Hs) by (done || lia).
  rewrite wrapping_add_small, wrapping_sub_small by lia.
  destruct Hw as (_ & Hc & _). unfold b_end in Hc. simpl in Hc. rewrite Hc, Z.eqb_refl.
  by destruct (Z.ltb_spec s 8); [lia|].
Qed.

Lemma deallocate_locked_spec h l1 a s fwd l2 :
  heap_inv h (l1 ++ Blk a s (Live fwd) :: l2) →
  ∃ h' l1' a' s' l2', deallocate_locked h (payload (Blk a s (Live fwd))) = Ret (h', true) ∧
    merges l1 l2 a s l1' a' s' l2' ∧ heap_inv h' (l1' ++ Blk a' s' Free :: l2') ∧
    data_kept (l1 ++ l2) (hmem h) (hmem h') ∧ htrace h' = htrace h ∧ hcursor h' = hcursor h.
Proof using Hok.
  intros [Hr Hav Hin]. rewrite free_of_app, free_of_cons in Hr. simpl in Hr.
  pose proof (mid_block _ _ _ _ _ _ _ Hr) as (? & ? & Hs & Hw & _).
  pose proof heap_positive. pose proof heap_bounded. pose proof Hs as [Ha ? Hs16 Hf]. simpl in *.
  destruct (header_of_words (hmem h) (hstate h) a s fwd) as (Hcs & Hp0 & Hho & Hbs & Hbu);
    rewrite ?(rep_start _ _ _ Hr), ?(rep_end _ _ _ Hr); try done; [by apply live_header_words|].
  unfold deallocate_locked. rewrite Hcs, Hho.
  destruct (Z.eqb_spec (payload (Blk a s (Live fwd))) 0); [lia|].
  rewrite (rep_start _ _ _ Hr), (rep_end _ _ _ Hr).
  destruct (Z.leb_spec kernel_heap a), (Z.ltb_spec a (kernel_heap + KERNEL_HEAP_SIZE)); try lia.
  rewrite Hbs, Hbu. unfold HEADER_SIZE. destruct (Z.eqb_spec s 0), (Z.ltb_spec s 16); try lia. simpl.
  rewrite (canary_check_live _ _ _ _ _ _ _ Hr).
  set (h2 := set_mem _ (block_clear_used (hmem h) a)).
  assert (Hr2 : heap_rep h2 (l1 ++ Blk a s Free :: l2) (free_of l1 ++ free_of l2)).
  { apply (heap_rep_available (set_mem h (block_clear_used (hmem h) a))). by eapply clear_used_rep. }
  destruct (coalesce_spec h2 l1 a s l2 Hr2) as (h3 & l1' & a' & s' & l2' & E3 & Hmg & Hr3 & Hst3 & Hd3).
  rewrite E3. cbn [mbind outcome_bind].
  destruct (heap_insert h3 (l1' ++ Blk a' s' Free :: l2') (free_of l1' ++ free_of l2') a' s')
    as (h4 & E4 & Hr4 & Hst4 & Hd4); [done| | |].
  { rewrite free_of_mid. set_solver. }
  { pose proof (nodup_free_of _ _ _ Hr3) as Hnd. rewrite free_of_mid in Hnd. by apply NoDup_cons in Hnd as [? _]. }
  rewrite E4. cbn [mbind outcome_bind]. exists h4, l1', a', s', l2'.
  assert (Hst : heap_step h2 h4) by (by etrans). destruct Hst as ((_ & _ & Ea & Ei) & Et & Ec).
  split; [done|]. split; [done|]. split; [split|split; [|done]].
  - by rewrite free_of_mid.
  - rewrite Ea. simpl. rewrite (merges_bytes _ _ _ _ _ _ _ _ Hmg), Hav.
    pose proof (free_bytes_bound _ _ _ _ _ (rep_tiled _ _ _ Hr)) as Hfb. revert Hfb.
    rewrite !free_bytes_app, free_bytes_cons. simpl. unfold saturating_add, u64_max, KERNEL_HEAP_SIZE in *. lia.
  - rewrite Ei. done.
  - etrans; [|etrans; [exact Hd3|]].
    + eapply (run_data h l1 [Blk a s (Live fwd)] l2 _ _ a (a + s)); [exact Hr| |done|].
      * by eapply mid_run.
      * intros x Hx _. apply mem_write_ne. lia.
    + intros b x Hb Hu. apply Hd4; [|done]. by eapply merges_live.
Qed.

(** ** Refused frees *)

Lemma header_of_outside m st p n : n < start st ∨ end_ st ≤ n → header_of m st p n = n.
Proof using.
  intros. unfold header_of. destruct (Z.leb_spec (start st) n), (Z.ltb_spec n (end_ st)); done || lia.
Qed.

Lemma outside_refused h p :
  0 < p → p < start (hstate h) + 16 ∨ end_ (hstate h) + 16 ≤ p → deallocate_locked h p = Ret (h, false).
Proof using.
  intros Hp Hout. unfold deallocate_locked, HEADER_SIZE. destruct (Z.eqb_spec p 0); [lia|].
  unfold checked_sub. destruct (Z.leb_spec 16 p); [|done].
  rewrite header_of_outside by lia.
  by destruct (Z.leb_spec (start (hstate h)) (p - 16)), (Z.ltb_spec (p - 16) (end_ (hstate h))); [lia|..].
Qed.

Lemma free_payload_refused h bs fs a s :
  heap_rep h bs fs → Blk a s Free ∈ bs → s ≠ a - 16 → deallocate_locked h (a + 16) = Ret (h, false).
Proof using Hok.
  intros Hr (l1 & l2 & ->)%list_elem_of_split Hne.
  pose proof (mid_block _ _ _ _ _ _ _ Hr) as (? & ? & Hs & Hw & _).
  pose proof heap_positive. pose proof heap_bounded. pose proof Hs as [Ha ? Hs16 _]. simpl in *.
  unfold KERNEL_HEAP_SIZE in *.
  unfold deallocate_locked, HEADER_SIZE. destruct (Z.eqb_spec (a + 16) 0); [lia|].
  rewrite checked_sub_small by lia. replace (a + 16 - 16) with a by lia.
  assert (Hh : header_of (hmem h) (hstate h) (a + 16) a = a).
  { unfold header_of. unfold blk_words in Hw. simpl in Hw. rewrite Hw.
    unfold HEAP_BLOCK_ALIGNMENT. rewrite wrapping_add_small by lia.
    destruct (Z.eqb_spec a (s + 16)); [lia|]. rewrite andb_false_r. by case_match. }
  rewrite Hh, (blk_used_at _ _ _ _ Hs Hw). simpl. by repeat case_match.
Qed.

(** An overwritten canary is found before anything is changed. *)
Lemma canary_overwritten h l1 a s fwd l2 fs v :
  heap_rep h (l1 ++ Blk a s (Live fwd) :: l2) fs → v ≠ CANARY_VALUE →
  let b := Blk a s (Live fwd) in
  deallocate_locked (set_mem h (mem_write (hmem h) (payload_end b) v)) (payload b) = Panic.
Proof using Hok.
  intros Hr Hv b. pose proof (mid_block _ _ _ _ _ _ _ Hr) as (? & ? & Hs & Hw & _).
  pose proof heap_positive. pose proof heap_bounded. pose proof Hs as [Ha ? Hs16 Hf]. simpl in *.
  set (m' := mem_write (hmem h) (payload_end b) v).
  assert (Hc : payload_end b = a + s - 8) by (done).
  destruct (header_of_words m' (hstate h) a s fwd) as (Hcs & Hp0 & Hho & Hbs & Hbu);
    rewrite ?(rep_start _ _ _ Hr), ?(rep_end _ _ _ Hr); try done.
  { destruct Hw as (Hw1 & _ & Hw2). unfold live_header, m'. simpl in *. split.
    - rewrite mem_write_ne by lia. done.
    - intros [= ->]. specialize (Hf eq_refl). rewrite mem_write_ne by lia. auto. }
  unfold deallocate_locked. fold b in Hcs, Hp0, Hho. cbn [hmem hstate set_mem]. rewrite Hcs, Hho, Hbs, Hbu.
  destruct (Z.eqb_spec (payload b) 0); [lia|].
  rewrite (rep_start _ _ _ Hr), (rep_end _ _ _ Hr).
  destruct (Z.leb_spec kernel_heap a), (Z.ltb_spec a (kernel_heap + KERNEL_HEAP_SIZE)); try lia.
  unfold HEADER_SIZE. destruct (Z.eqb_spec s 0), (Z.ltb_spec s 16); try lia. simpl.
  unfold canary_check, CANARY_SIZE. rewrite Hbs. destruct (Z.ltb_spec s 8); [lia|].
  unfold KERNEL_HEAP_SIZE in *. rewrite wrapping_add_small, wrapping_sub_small by lia.
  unfold m'. rewrite <- Hc, mem_write_eq. by destruct (Z.eqb_spec v CANARY_VALUE).
Qed.
End Specs.
