(* ===== verification/HeapSystem.v ===== *)
(** * The heap as its callers see it

    A caller allocates, frees a pointer it got, and writes into the bytes it
    got.  [heap_step_sys] is that transition system over [GlobalAlloc]'s
    entry points, with the list of allocations the callers hold; its
    invariant gives the safety of every run. *)

From stdpp Require Import base tactics decidable numbers list sets relations.
From Stdlib Require Import ZArith Lia Bool.
From S2P Require Import Prelude Tlsf TlsfLists TlsfBlocks HeapInv HeapAlloc HeapPlace HeapCarve HeapSpec.

(** A held allocation: the pointer and the number of bytes asked for. *)
Definition allocation := (Z * Z)%type.

Record sys := Sys { sys_heap : heap; held : list allocation }.

Inductive sys_step `{HeapEnv} : sys → sys → Prop :=
| sys_alloc h A l h' p :
    layout_ok l → alloc h l = Ret (h', p) → p ≠ 0 →
    sys_step (Sys h A) (Sys h' ((p, requested_size l) :: A))
| sys_alloc_null h A l h' :
    layout_ok l → alloc h l = Ret (h', 0) → sys_step (Sys h A) (Sys h' A)
| sys_free h A1 p n A2 h' :
    dealloc h p = Ret h' → sys_step (Sys h (A1 ++ (p, n) :: A2)) (Sys h' (A1 ++ A2))
| sys_write h A p n x v :
    (p, n) ∈ A → p ≤ x < p + n → sys_step (Sys h A) (Sys (set_mem h (mem_write (hmem h) x v)) A).

Definition sys_reach `{HeapEnv} (m : mem) : sys → Prop :=
  rtc sys_step (Sys (heap_new m) []).

(** The allocation [a] is served by the live block [b]. *)
Definition serves (b : blk) (a : allocation) : Prop :=
  b_use b ≠ Free ∧ payload b = a.1 ∧ 0 < a.2 ∧ a.1 + a.2 ≤ payload_end b.

Definition held_ok (bs : list blk) (A : list allocation) : Prop :=
  NoDup A.*1 ∧ ∀ a, a ∈ A → ∃ b, b ∈ bs ∧ serves b a.

Definition sys_inv `{HeapEnv} (s : sys) : Prop :=
  (∃ m, s = Sys (heap_new m) []) ∨
  ∃ bs, heap_inv (sys_heap s) bs ∧ held_ok bs (held s).

Section System.
Context `{HE : HeapEnv} {Hok : HeapEnvOk}.

(** ** The invariant under the steps *)

Lemma heap_inv_trace h bs tag x : heap_inv h bs → heap_inv (record_heap_trace h tag x) bs.
Proof using. intros [[] ? ?]. done. Qed.

Lemma ensure_init_inv s :
  sys_inv s → ∃ h bs, ensure_init (sys_heap s) = Ret h ∧ heap_inv h bs ∧ held_ok bs (held s) ∧
    (held s ≠ [] → h = sys_heap s).
Proof using Hok.
  intros [[m ->]|(bs & Hi & Hh)].
  - destruct (initialize_inv m) as (h & E & Hi). exists h, [Blk kernel_heap KERNEL_HEAP_SIZE Free].
    split; [done|]. split; [done|]. split; [|done]. split; [apply NoDup_nil_2|set_solver].
  - exists (sys_heap s), bs. unfold ensure_init. by rewrite (inv_initialized _ _ Hi).
Qed.

(** Live blocks outside a run that is retiled stay. *)
Lemma held_ok_mono bs bs' A :
  (∀ b, b ∈ bs → b_use b ≠ Free → b ∈ bs') → held_ok bs A → held_ok bs' A.
Proof using.
  intros H [Hn Hs]. split; [done|]. intros a Ha. destruct (Hs a Ha) as (b & Hb & Hsv).
  exists b. split; [|done]. apply H; [done|apply Hsv].
Qed.

(** Callers hold disjoint bytes. *)
Lemma held_disjoint h bs A a a' :
  heap_inv h bs → held_ok bs A → a ∈ A → a' ∈ A → a.1 ≠ a'.1 →
  a.1 + a.2 ≤ a'.1 ∨ a'.1 + a'.2 ≤ a.1.
Proof using.
  intros Hi [_ Hs] Ha Ha' Hne.
  destruct (Hs a Ha) as (b & Hb & Hu & Hp & ? & Hle), (Hs a' Ha') as (b' & Hb' & Hu' & Hp' & ? & Hle').
  destruct (tiled_disjoint _ _ _ _ _ _ _ (rep_tiled _ _ _ (inv_rep _ _ Hi)) Hb Hb') as [->|Hd]; [congruence|].
  pose proof (payload_range b (payload b) ltac:(lia)). pose proof (payload_range b' (payload b') ltac:(lia)).
  unfold payload_end, CANARY_SIZE in *. lia.
Qed.

(** Being aligned as [allocate_locked] asks implies the layout's alignment. *)
Lemma requested_align_mod l p :
  layout_ok l → p mod requested_align l = 0 → p mod l_align l = 0.
Proof using.
  intros (k & Hk & Ha & _) Hal. rewrite Ha. unfold requested_align, HEAP_BLOCK_ALIGNMENT in Hal.
  destruct (Z.le_gt_cases 16 (l_align l)).
  - rewrite Z.max_l in Hal by done. by rewrite Ha in Hal.
  - rewrite Z.max_r in Hal by lia. rewrite Ha in *.
    assert (k < 4) by (apply (Z.pow_lt_mono_r_iff 2); lia).
    apply Z.mod_divide; [apply Z.pow_nonzero; lia|]. apply Z.mod_divide in Hal; [|lia].
    etrans; [|exact Hal]. exists (2 ^ (4 - k)). rewrite <- Z.pow_add_r by lia.
    change 16 with (2 ^ 4). f_equal. lia.
Qed.

Lemma sys_inv_held s :
  sys_inv s → NoDup (held s).*1 ∧
  ∀ a a', a ∈ held s → a' ∈ held s → a.1 ≠ a'.1 → a.1 + a.2 ≤ a'.1 ∨ a'.1 + a'.2 ≤ a.1.
Proof using.
  intros [[m ->]|(bs & Hi & Hh)].
  - split; [apply NoDup_nil_2|]. intros a a' Ha. by apply elem_of_nil in Ha.
  - split; [apply Hh|]. intros a a'. by eapply held_disjoint.
Qed.

Lemma sys_alloc_inv s l :
  sys_inv s → layout_ok l → ∃ h' p, alloc (sys_heap s) l = Ret (h', p) ∧
    (p = 0 → sys_inv (Sys h' (held s))) ∧
    (p ≠ 0 → p mod l_align l = 0 ∧ sys_inv (Sys h' ((p, requested_size l) :: held s))) ∧
    (∀ a x, a ∈ held s → a.1 ≤ x < a.1 + a.2 → hmem h' x = hmem (sys_heap s) x).
Proof using Hok.
  intros Hs Hl. destruct (ensure_init_inv s Hs) as (h & bs & E & Hi & Hh & Hinit).
  destruct (allocate_locked_spec h bs l Hi Hl) as (h1 & p & E1 & Hd & _ & _ & Hcase).
  unfold alloc. rewrite E. cbn [mbind outcome_bind]. rewrite E1. cbn [mbind outcome_bind].
  eexists _, p. split; [done|]. split; [|split].
  - intros ->. simpl. right. exists bs. destruct Hcase as [(_ & Hi' & _)|(? & ? & ? & ? & ? & ? & _ & _ & _ & _ & _ & _ & _ & ? & _)];
      [done|lia].
  - intros Hp. destruct (Z.eqb_spec p 0); [done|]. simpl.
    destruct Hcase as [(? & _)|(l1 & c & s0 & l2 & hd & ae & -> & Hi' & Hpay & Hal & Hend & Hbc & Hbe & ? & _)]; [done|].
    split.
    { by apply requested_align_mod. }
    right. exists (l1 ++ carved c hd ae (c + s0) ++ l2). split; [by apply heap_inv_trace|]. simpl.
    set (b := allocated c hd (allocation_end ae (c + s0))) in *.
    assert (Hb : b ∈ l1 ++ carved c hd ae (c + s0) ++ l2) by (unfold carved, b; set_solver).
    assert (Hbu : b_use b ≠ Free) by (unfold b, allocated; by destruct (32 <=? hd - c)).
    assert (Hmono : held_ok (l1 ++ carved c hd ae (c + s0) ++ l2) (held s)).
    { apply (held_ok_mono (l1 ++ Blk c s0 Free :: l2)); [|done]. intros b' Hb' Hu.
      assert (b' ≠ Blk c s0 Free) by (by intros ->). set_solver. }
    destruct Hmono as [Hn Hsv]. split.
    + simpl. apply NoDup_cons. split; [|done]. intros ((p' & n') & -> & Hin)%list_elem_of_fmap. simpl in *.
      destruct (proj2 Hh _ Hin) as (b' & Hb' & Hu' & Hp' & ? & Hle'). simpl in *.
      destruct (tiled_disjoint _ _ _ _ _ b' (Blk c s0 Free) (rep_tiled _ _ _ (inv_rep _ _ Hi)) Hb')
        as [->|Hdis]; [set_solver|done|].
      pose proof (payload_range b' (payload b') ltac:(lia)). 
      pose proof (payload_range b (payload b) ltac:(unfold requested_size in *; lia)).
      unfold b_end in *. simpl in *. lia.
    + intros a [->|Ha]%elem_of_cons; [|by apply Hsv]. exists b. split; [done|].
      unfold serves, requested_size in *. simpl. split_and!; try done; lia.
  - intros a x Ha Hx. assert (Hm : hmem h1 x = hmem h x).
    { destruct (proj2 Hh a Ha) as (b & Hb & Hu & Hp & ? & Hle). apply (Hd b); [done|done|lia]. }
    rewrite <- Hinit by (by intros E'; rewrite E' in Ha; apply elem_of_nil in Ha).
    by destruct (negb (p =? 0)).
Qed.

Lemma sys_free_inv s A1 p n A2 :
  sys_inv s → held s = A1 ++ (p, n) :: A2 →
  ∃ h', dealloc (sys_heap s) p = Ret h' ∧ sys_inv (Sys h' (A1 ++ A2)) ∧
    (∀ a x, a ∈ A1 ++ A2 → a.1 ≤ x < a.1 + a.2 → hmem h' x = hmem (sys_heap s) x).
Proof using Hok.
  intros Hs HA. destruct (ensure_init_inv s Hs) as (h & bs & E & Hi & [Hn Hh] & Hinit).
  rewrite HA in *. rewrite <- Hinit in * by (by destruct A1). clear Hinit.
  destruct (Hh (p, n)) as (b & Hb & Hu & Hp & ? & Hle); [set_solver|]. simpl in *.
  apply list_elem_of_split in Hb as (l1 & l2 & ->).
  destruct b as [a s0 [|fwd]]; [done|].
  destruct (deallocate_locked_spec (record_heap_trace h TRACE_DEALLOC p) l1 a s0 fwd l2)
    as (h' & l1' & a' & s' & l2' & E' & Hmg & Hi' & Hd & _); [by apply heap_inv_trace|].
  unfold dealloc. rewrite E. cbn [mbind outcome_bind]. rewrite Hp in E'. rewrite E'. cbn [mbind outcome_bind].
  assert (Hrest : ∀ x, x ∈ A1 ++ A2 → ∃ b, b ∈ l1 ++ l2 ∧ serves b x).
  { intros x Hx. destruct (Hh x) as (b & Hb & Hsv); [set_solver|]. exists b. split; [|done].
    assert (b ≠ Blk a s0 (Live fwd)); [|set_solver].
    intros ->. destruct Hsv as (_ & Hpx & _). rewrite fmap_app, fmap_cons in Hn. simpl in Hn.
    apply NoDup_app in Hn as (_ & Hn1 & Hn2). apply NoDup_cons in Hn2 as [Hn2 _].
    apply elem_of_app in Hx as [Hx|Hx].
    - apply (Hn1 x.1); [by apply list_elem_of_fmap_2|]. rewrite <- Hpx, Hp. set_solver.
    - apply Hn2. rewrite <- Hp, Hpx. by apply list_elem_of_fmap_2. }
  eexists. split; [done|]. split.
  - right. exists (l1' ++ Blk a' s' Free :: l2'). split; [done|]. simpl. split.
    + rewrite fmap_app, fmap_cons in Hn. rewrite fmap_app. apply NoDup_app in Hn as (? & Hn1 & Hn2).
      apply NoDup_cons in Hn2 as [_ ?]. apply NoDup_app. split_and!; try done. set_solver.
    + intros x Hx. destruct (Hrest x Hx) as (b & Hb & Hsv). exists b. split; [|done].
      eapply merges_live; [done|done|apply Hsv].
  - intros x y Hx Hy. destruct (Hrest x Hx) as (b & Hb & Hub & Hpb & ? & ?).
    apply (Hd b); [done|done|lia].
Qed.

Lemma sys_write_inv s p n x v :
  sys_inv s → (p, n) ∈ held s → p ≤ x < p + n →
  sys_inv (Sys (set_mem (sys_heap s) (mem_write (hmem (sys_heap s)) x v)) (held s)).
Proof using Hok.
  intros [[m ->]|(bs & [[? ? Ht Hl Hsub] ? ?] & [Hn Hh])] Hin Hx; [by apply elem_of_nil in Hin|].
  right. exists bs. simpl. split; [|done]. destruct (Hh _ Hin) as (b & Hb & Hu & Hp & ? & Hle). simpl in *.
  pose proof (payload_range b x ltac:(lia)) as Hr.
  destruct (tiled_block _ _ _ _ _ _ Ht Hb) as [[? ? ? ?] _].
  assert (Hother : ∀ b', b' ∈ bs → b' = b ∨ x < b_addr b' ∨ b_end b' ≤ x).
  { intros b' Hb'. destruct (tiled_disjoint _ _ _ _ _ _ _ Ht Hb Hb') as [->|?]; [auto|right; lia]. }
  split; [split|done|done]; simpl; try done.
  - apply (tiled_frame (hmem (sys_heap s))); [|done]. intros b' y Hb' Hy. apply mem_write_ne. intros ->.
    destruct (tiled_block _ _ _ _ _ _ Ht Hb') as [[? ? ? ?] _].
    destruct (Hother b' Hb') as [->|Hd].
    + unfold owns, payload, payload_end, CANARY_SIZE, b_end in *. destruct (b_use b) as [|[]]; naive_solver lia.
    + unfold owns, b_end in *. naive_solver lia.
  - apply (lists_ok_frame (hmem (sys_heap s)) _ (hstate (sys_heap s))); try done. intros [a s0] He.
    apply Hsub, elem_of_free_of in He. destruct (tiled_block _ _ _ _ _ _ Ht He) as [[? ? ? _] _].
    destruct (Hother _ He) as [Heq|Hd]; [by rewrite <- Heq in Hu|]. unfold b_end in *. simpl in *.
    rewrite !mem_write_ne by lia. done.
Qed.

Lemma sys_step_inv s s' : sys_inv s → sys_step s s' → sys_inv s'.
Proof using Hok.
  intros Hi Hst. destruct Hst as [h A l h' p Hl E Hp|h A l h' Hl E|h A1 p n A2 h' E|h A p n x v Hin Hx].
  - destruct (sys_alloc_inv _ l Hi Hl) as (? & ? & E' & _ & H & _). simpl in *.
    rewrite E in E'. simplify_eq. by apply H.
  - destruct (sys_alloc_inv _ l Hi Hl) as (? & ? & E' & H & _). simpl in *.
    rewrite E in E'. simplify_eq. by apply H.
  - destruct (sys_free_inv _ A1 p n A2 Hi eq_refl) as (? & E' & H & _). simpl in *.
    rewrite E in E'. by simplify_eq.
  - by apply (sys_write_inv _ p n x v Hi).
Qed.

Lemma sys_reach_inv m s : sys_reach m s → sys_inv s.
Proof using Hok.
  assert (Hx : ∀ s0, rtc sys_step s0 s → sys_inv s0 → sys_inv s).
  { intros s0. induction 1; eauto using sys_step_inv. }
  intros Hr. apply (Hx _ Hr). left. by exists m.
Qed.
End System.
