(* ===== verification/HeapTheorems.v ===== *)
(** * What the heap guarantees

    The properties of the kernel heap, on one operation and over whole runs,
    with a concrete heap on which each of them applies. *)

From stdpp Require Import base tactics decidable numbers list sets relations.
From Stdlib Require Import ZArith Lia Bool.
From S2P Require Import Prelude Tlsf TlsfLists TlsfBlocks HeapInv HeapAlloc HeapPlace HeapCarve HeapSpec HeapSystem.

Section Theorems.
Context `{HE : HeapEnv} {Hok : HeapEnvOk}.


(** An allocation succeeds whenever some free block reaches the size class
    above the one of the request: it returns null only when every free block
    is smaller, and then the heap is unchanged as far as blocks go. *)
Theorem allocate_locked_null h bs l h' :
  heap_inv h bs → layout_ok l → allocate_locked h l = Ret (h', 0) →
  heap_inv h' bs ∧ ∀ a s, Blk a s Free ∈ bs → s < next_class_min (min_block_size l).
Proof using Hok.
  intros Hi Hl E. destruct (allocate_locked_spec h bs l Hi Hl) as (h1 & p & E1 & _ & _ & _ & H).
  rewrite E in E1. injection E1 as <- <-.
  destruct H as [(_ & ? & ?)|(? & ? & ? & ? & ? & ? & _ & _ & _ & _ & _ & _ & _ & ? & _)]; [done|lia].
Qed.

(** A successful allocation carves exactly one free block: the rest before
    and after the allocated block become free blocks when they are large
    enough and are absorbed otherwise, every other block stays, the payload is
    aligned and holds the requested bytes before the canary, and the free-byte
    counter goes down by the size of the allocated block. *)
Theorem allocate_locked_carves h bs l h' p :
  heap_inv h bs → layout_ok l → allocate_locked h l = Ret (h', p) → p ≠ 0 →
  ∃ l1 c s l2 hd ae, let b := allocated c hd (allocation_end ae (c + s)) in
    bs = l1 ++ Blk c s Free :: l2 ∧ heap_inv h' (l1 ++ carved c hd ae (c + s) ++ l2) ∧
    payload b = p ∧ p mod requested_align l = 0 ∧ p + requested_size l ≤ payload_end b ∧
    c ≤ b_addr b ∧ b_end b ≤ c + s.
Proof using Hok.
  intros Hi Hl E Hp. destruct (allocate_locked_spec h bs l Hi Hl) as (h1 & p1 & E1 & _ & _ & _ & H).
  rewrite E in E1. injection E1 as <- <-.
  destruct H as [(? & _)|(l1 & c & s & l2 & hd & ae & -> & ? & ? & ? & ? & ? & ? & _)]; [done|].
  exists l1, c, s, l2, hd, ae. done.
Qed.

(** Freeing the payload of a live block succeeds, merges the block with a
    free predecessor, or else with a free successor, and keeps the heap
    invariant, so that the merged block is in the free lists and its bytes
    are counted as available again. *)
Theorem deallocate_locked_merges h l1 a s fwd l2 :
  heap_inv h (l1 ++ Blk a s (Live fwd) :: l2) →
  ∃ h' l1' a' s' l2', deallocate_locked h (payload (Blk a s (Live fwd))) = Ret (h', true) ∧
    merges l1 l2 a s l1' a' s' l2' ∧ heap_inv h' (l1' ++ Blk a' s' Free :: l2') ∧
    data_kept (l1 ++ l2) (hmem h) (hmem h').
Proof using Hok.
  intros Hi. destruct (deallocate_locked_spec _ _ _ _ _ _ Hi)
    as (h' & l1' & a' & s' & l2' & E & Hm & Hi' & Hd & _).
  exists h', l1', a', s', l2'. done.
Qed.

(** The first use of the allocator turns the static region into one free
    block that spans it, whatever the memory held. *)
Theorem initialize_establishes m :
  ∃ h, ensure_init (heap_new m) = Ret h ∧ heap_inv h [Blk kernel_heap KERNEL_HEAP_SIZE Free] ∧
    bounds h = Ret (h, (kernel_heap, kernel_heap + KERNEL_HEAP_SIZE)) ∧
    remaining h = Ret (h, KERNEL_HEAP_SIZE).
Proof using Hok.
  destruct (initialize_inv m) as (h & E & Hi). exists h. split; [done|]. split; [done|].
  unfold bounds, remaining, ensure_init. rewrite (inv_initialized _ _ Hi). cbn [mbind outcome_bind].
  pose proof (inv_rep _ _ Hi) as [-> -> _ _ _]. rewrite (inv_available _ _ Hi). done.
Qed.

(** The structural checker accepts every heap that satisfies the
    invariant. *)
Theorem check_invariants_accepts h bs :
  heap_inv h bs → check_invariants (hmem h) (hstate h) = Ret (inl ()).
Proof using Hok.
  intros [Hr _ _]. pose proof heap_positive. pose proof heap_bounded. unfold check_invariants.
  rewrite (rep_start _ _ _ Hr). pose proof (rep_end _ _ _ Hr) as He.
  destruct (Z.eqb_spec kernel_heap 0), (Z.leb_spec (end_ (hstate h)) kernel_heap);
    try (unfold KERNEL_HEAP_SIZE in *; lia). simpl.
  apply (check_walk_complete _ _ _ _ _ bs); rewrite ?He; [lia|done|apply Hr|].
  pose proof (block_count _ _ _ Hr). lia.
Qed.

(** Freeing a block that lies between two free neighbours merges it with
    the one before it only: the block after it stays a separate free block, so
    two adjacent free blocks remain. *)
Theorem three_way_merge_misses h l1 pa ps a s fwd na ns l2 :
  heap_inv h ((l1 ++ [Blk pa ps Free]) ++ Blk a s (Live fwd) :: Blk na ns Free :: l2) →
  ∃ h', deallocate_locked h (payload (Blk a s (Live fwd))) = Ret (h', true) ∧
    heap_inv h' (l1 ++ Blk pa (s + ps) Free :: Blk na ns Free :: l2).
Proof using Hok.
  intros Hi. destruct (deallocate_locked_spec _ _ _ _ _ _ Hi)
    as (h' & l1' & a' & s' & l2' & E & Hm & Hi' & _).
  exists h'. split; [done|]. inversion Hm as [l1'' pa' ps' Heq|? ? Hpf|Hpf]; subst.
  - apply app_inj_tail in Heq as [-> [= -> ->]]. done.
  - unfold prev_free in Hpf. by rewrite last_snoc in Hpf.
  - unfold prev_free in Hpf. by rewrite last_snoc in Hpf.
Qed.

(** A caller that ran over the end of its block is caught when it frees
    it: with any other value in the canary word [deallocate_locked] panics
    before it touches the heap. *)
Theorem overrun_detected h l1 b l2 v :
  heap_inv h (l1 ++ b :: l2) → b_use b ≠ Free → v ≠ CANARY_VALUE →
  deallocate_locked (set_mem h (mem_write (hmem h) (payload_end b) v)) (payload b) = Panic.
Proof using Hok.
  intros [Hr _ _] Hu Hv. destruct b as [a s [|fwd]]; [done|].
  rewrite free_of_app, free_of_cons in Hr. simpl in Hr.
  by eapply canary_overwritten.
Qed.

(** [deallocate_locked] refuses a null pointer, a pointer outside the heap
    and the payload of a block that is already free, and changes nothing. *)
Theorem deallocate_locked_refuses h bs p :
  heap_inv h bs →
  (p = 0 ∨ 0 < p < kernel_heap + 16 ∨ kernel_heap + KERNEL_HEAP_SIZE + 16 ≤ p < 2 ^ 64 ∨
   ∃ a s, Blk a s Free ∈ bs ∧ p = a + 16 ∧ s ≠ a - 16) →
  deallocate_locked h p = Ret (h, false).
Proof using Hok.
  intros [Hr _ _] Hp. pose proof heap_positive. pose proof heap_bounded.
  destruct Hp as [->|[Hp|[Hp|(a & s & Hb & -> & Hne)]]]; [done| | |by eapply free_payload_refused];
    apply outside_refused; rewrite ?(rep_start _ _ _ Hr), ?(rep_end _ _ _ Hr);
    unfold KERNEL_HEAP_SIZE in *; lia.
Qed.
End Theorems.

(** ** A concrete heap

    A debug build with the heap at [0x41000000]: the properties above at the
    heaps that a few operations lead to. *)

Definition base : Z := 0x41000000.

#[local] Instance demo_env : HeapEnv :=
  {| debug_assertions := true; kernel_heap := base; walk_fuel := Z.to_nat 2097153 |}.

#[local] Instance demo_ok : HeapEnvOk.
Proof.
  split; [done|done|done|]. cbn [walk_fuel demo_env]. rewrite Z2Nat.id by lia. done.
Qed.

Definition blank : mem := λ _, 0.
Definition hundred : Layout := mkLayout 100 16.

Lemma hundred_ok : layout_ok hundred.
Proof. exists 4. simpl. lia. Qed.

(** Allocating 100 bytes when the only free block is the last one. *)
Lemma demo_alloc h l1 c s :
  heap_inv h (l1 ++ [Blk c s Free]) → free_of l1 = [] → 512 ≤ s →
  ∃ h', allocate_locked h hundred = Ret (h', c + 16) ∧
    heap_inv h' (l1 ++ [Blk c 128 (Live false); Blk (c + 128) (s - 128) Free]).
Proof.
  intros Hi Hf Hs. pose proof (mid_block _ _ _ _ _ _ _ (inv_rep _ _ Hi)) as (Hlo & Hhi & [Hc ? ? _] & _).
  cbn [b_addr b_size kernel_heap demo_env] in *. unfold base, KERNEL_HEAP_SIZE in *.
  destruct (allocate_locked_spec h _ hundred Hi hundred_ok) as (h' & p & E & _ & _ & _ & Hcase).
  destruct Hcase as [(_ & _ & Hn)|(l1' & c' & s' & l2' & hd & ae & Heq & Hi' & _ & _ & _ & _ & _ & _ & Epl)].
  { assert (s < 512); [|lia]. etrans; [apply (Hn c); set_solver|]. by vm_compute. }
  assert (Hin : (c', s') ∈ free_of (l1 ++ [Blk c s Free])) by (rewrite Heq; apply elem_of_free_of; set_solver).
  rewrite free_of_app, Hf in Hin. cbn in Hin. apply list_elem_of_singleton in Hin as [= -> ->].
  assert (l2' = [] ∧ l1' = l1) as [-> ->].
  { destruct l2' as [|z l2' _] using rev_ind; [by apply app_inj_tail in Heq as [-> _]|].
    rewrite app_comm_cons, app_assoc in Heq. apply app_inj_tail in Heq as [-> _].
    rewrite free_of_app, free_of_cons in Hf. simpl in Hf. by destruct (free_of l1'). }
  destruct (place_spec hundred c hundred_ok) as (p' & hd' & ae' & Epl' & ? & ? & ? & ? & ? & ? & Hlow & Hup);
    [lia|lia|done|]. rewrite Epl in Epl'. injection Epl' as <- <- <-.
  change (min_block_size hundred) with 128 in Hup. change (requested_size hundred) with 100 in Hlow.
  assert (hd = c ∧ ae = c + 128) as [-> ->] by (Z.to_euclidean_division_equations; lia).
  exists h'. split; [by rewrite E; do 2 f_equal; lia|].
  replace (l1 ++ [Blk c 128 (Live false); Blk (c + 128) (s - 128) Free])
    with (l1 ++ carved c c (c + 128) (c + s) ++ []); [done|].
  rewrite app_nil_r. f_equal. unfold carved, prefix_blocks, allocated, suffix_blocks, allocation_end.
  rewrite Z.sub_diag. simpl. replace (c + s - (c + 128)) with (s - 128) by lia.
  destruct (Z.leb_spec 32 (s - 128)); [|lia]. simpl. by replace (c + 128 - c) with 128 by lia.
Qed.

(** One live block before the rest. *)
Lemma demo_one :
  ∃ h, heap_inv h ([] ++ Blk base 128 (Live false) :: [Blk (base + 128) (KERNEL_HEAP_SIZE - 128) Free]).
Proof.
  destruct (initialize_inv blank) as (h & _ & Hi).
  destruct (demo_alloc h [] base KERNEL_HEAP_SIZE Hi eq_refl ltac:(done)) as (h' & _ & Hi').
  by exists h'.
Qed.

(** A live block between two free ones. *)
Lemma demo_between :
  ∃ h, heap_inv h (([] ++ [Blk base 128 Free]) ++ Blk (base + 128) 128 (Live false) ::
    Blk (base + 256) (KERNEL_HEAP_SIZE - 256) Free :: []).
Proof.
  destruct demo_one as (h1 & H1).
  destruct (demo_alloc h1 [Blk base 128 (Live false)] _ _ H1 eq_refl ltac:(done)) as (h2 & _ & H2).
  destruct (deallocate_locked_spec h2 [] base 128 false _ H2) as (h3 & l1 & a & s & l2 & _ & Hm & H3 & _).
  exists h3. inversion Hm; subst; try done.
  destruct l1; done.
Qed.


(** C2 on a request larger than the heap. *)
Lemma allocate_locked_null_witness :
  ∃ h h', allocate_locked h (mkLayout (2 ^ 27) 16) = Ret (h', 0) ∧
    heap_inv h' [Blk base KERNEL_HEAP_SIZE Free].
Proof.
  assert (Hl : layout_ok (mkLayout (2 ^ 27) 16)) by (exists 4; simpl; lia).
  destruct (initialize_inv blank) as (h & _ & Hi).
  destruct (allocate_locked_spec h _ _ Hi Hl) as (h' & p & E & _ & _ & _ & Hc).
  assert (p = 0) as ->.
  { destruct Hc as [(? & _)|(l1 & c & s & l2 & hd & ae & Heq & _ & Hp & _ & Hend & Hlo & Hhi & _)]; [done|].
    assert (Hin : Blk c s Free ∈ [Blk kernel_heap KERNEL_HEAP_SIZE Free]) by (rewrite Heq; set_solver).
    apply list_elem_of_singleton in Hin as [= -> ->]. change (requested_size _) with (2 ^ 27) in Hend.
    set (b := allocated _ _ _) in *. pose proof (payload_range b (payload b) ltac:(lia)).
    unfold payload_end, CANARY_SIZE, KERNEL_HEAP_SIZE in *. lia. }
  exists h, h'. split; [exact E|]. exact (proj1 (allocate_locked_null h _ _ h' Hi Hl E)).
Defined.

(** C3 on the first allocation. *)
Lemma allocate_locked_carves_witness :
  ∃ h h', allocate_locked h hundred = Ret (h', base + 16) ∧ (base + 16) mod 16 = 0 ∧
    ∃ bs, heap_inv h' bs.
Proof.
  destruct (initialize_inv blank) as (h & _ & Hi).
  destruct (demo_alloc h [] base KERNEL_HEAP_SIZE Hi eq_refl ltac:(done)) as (h' & E & _).
  destruct (allocate_locked_carves h _ hundred h' (base + 16) Hi hundred_ok E ltac:(done))
    as (l1 & c & s & l2 & hd & ae & _ & Hi' & _ & Hal & _).
  exists h, h'. split; [exact E|]. split; [exact Hal|]. by exists (l1 ++ carved c hd ae (c + s) ++ l2).
Defined.

(** C4 on the block of the first allocation. *)
Lemma deallocate_locked_merges_witness :
  ∃ h h', deallocate_locked h (base + 16) = Ret (h', true) ∧ ∃ bs, heap_inv h' bs.
Proof.
  destruct demo_one as (h & Hi).
  destruct (deallocate_locked_merges h _ _ _ _ _ Hi) as (h' & l1' & a' & s' & l2' & E & _ & Hi' & _).
  exists h, h'. split; [exact E|]. by eexists.
Defined.

(** C5 on a region of zeroes. *)
Lemma initialize_establishes_witness :
  ∃ h, ensure_init (heap_new blank) = Ret h ∧ bounds h = Ret (h, (base, base + KERNEL_HEAP_SIZE)).
Proof. destruct (initialize_establishes blank) as (h & E & _ & B & _). by exists h. Defined.

(** C6 after the first allocation. *)
Lemma check_invariants_accepts_witness :
  ∃ h, hmem h base = 129 ∧ check_invariants (hmem h) (hstate h) = Ret (inl ()).
Proof.
  destruct demo_one as (h & Hi). exists h.
  split; [|exact (check_invariants_accepts h _ Hi)].
  by destruct (rep_tiled _ _ _ (inv_rep _ _ Hi)) as (_ & _ & (Hw & _) & _).
Defined.

(** C7 on a block between two free ones. *)
Lemma three_way_merge_misses_witness :
  ∃ h h', deallocate_locked h (base + 144) = Ret (h', true) ∧
    heap_inv h' [Blk base 256 Free; Blk (base + 256) (KERNEL_HEAP_SIZE - 256) Free].
Proof.
  destruct demo_between as (h & Hi).
  destruct (three_way_merge_misses h _ _ _ _ _ _ _ _ _ Hi) as (h' & E & Hi').
  exists h, h'. split; [exact E|exact Hi'].
Defined.

(** C8 on the block of the first allocation, with its canary zeroed. *)
Lemma overrun_detected_witness :
  ∃ h, deallocate_locked (set_mem h (mem_write (hmem h) (base + 120) 0)) (base + 16) = Panic.
Proof.
  destruct demo_one as (h & Hi). exists h.
  exact (overrun_detected h [] (Blk base 128 (Live false)) _ 0 Hi ltac:(done) ltac:(done)).
Defined.

(** C9 on a block that is free. *)
Lemma deallocate_locked_refuses_witness :
  ∃ h, deallocate_locked h (base + 144) = Ret (h, false).
Proof.
  destruct demo_one as (h & Hi). exists h.
  apply (deallocate_locked_refuses h _ (base + 144) Hi). right; right; right.
  exists (base + 128), (KERNEL_HEAP_SIZE - 128). split; [set_solver|]. split; done.
Defined.
