(* ===== verification/Pipe.v ===== *)
(** * Pipes (src/kernel/ipc/pipe.rs)

    The ring buffer [PipeRing], the channel around it, and the two ends.  A
    read or write that has to wait gives up the lock: the model splits it into
    the section up to the first wait and the section run after each wake-up.
    Condition variables and the scheduler are left out; what is modelled is
    what each section does to the ring and what it returns. *)

From stdpp Require Import base tactics decidable numbers list sets.
From Stdlib Require Import ZArith Lia Bool.
From S2P Require Import Prelude.

Local Open Scope nat_scope.

(** ** The ring *)

Definition DEFAULT_PIPE_CAPACITY : nat := Z.to_nat 16384.
Definition PIPE_MIN_SIZE : Z := 4096.
Definition PIPE_MAX_SIZE : Z := 1024 * 1024.

(** [usize::next_power_of_two] *)
Definition next_power_of_two (n : Z) : Z := if (n <=? 1)%Z then 1%Z else (2 ^ Z.log2_up n)%Z.

Definition round_pipe_size (size : Z) : Z :=
  let clamped := Z.min (Z.max size PIPE_MIN_SIZE) PIPE_MAX_SIZE in
  let pages := div_ceil clamped PIPE_MIN_SIZE in
  let rounded := Z.min (Z.min (next_power_of_two pages * PIPE_MIN_SIZE) u64_max) PIPE_MAX_SIZE in
  Z.max rounded PIPE_MIN_SIZE.

Record PipeRing := mkPipeRing {
  buf : list Z;
  read_pos : nat;
  write_pos : nat;
  byte_count : nat;
  write_closed : bool;
  read_closed : bool;
}.

Definition PipeRing_new (capacity : nat) : PipeRing :=
  mkPipeRing (replicate capacity 0%Z) 0 0 0 false false.

Definition is_empty (r : PipeRing) : bool := byte_count r =? 0.
Definition is_full (r : PipeRing) : bool := byte_count r =? length (buf r).
Definition available (r : PipeRing) : nat := byte_count r.
Definition remaining (r : PipeRing) : nat := length (buf r) - byte_count r.

(** The loop of [read_from]: [n] bytes from [read_pos] on.  Indexing past the
    buffer panics, and so does the remainder by an empty buffer. *)
Fixpoint read_loop (n : nat) (buf : list Z) (pos : nat) : outcome (list Z * nat) :=
  match n with
  | O => Ret ([], pos)
  | S n =>
      match buf !! pos with
      | None => Panic
      | Some byte =>
          '(rest, pos') ← read_loop n buf ((pos + 1) mod length buf);
          Ret (byte :: rest, pos')
      end
  end.

(** The new ring, the destination after the call, and the count. *)
Definition read_from (r : PipeRing) (dst : list Z) : outcome (PipeRing * list Z * nat) :=
  let n := Nat.min (length dst) (byte_count r) in
  '(bytes, pos) ← read_loop n (buf r) (read_pos r);
  Ret (mkPipeRing (buf r) pos (write_pos r) (byte_count r - n) (write_closed r) (read_closed r),
       bytes ++ drop n dst, n).

Fixpoint write_loop (src : list Z) (buf : list Z) (pos : nat) : outcome (list Z * nat) :=
  match src with
  | [] => Ret (buf, pos)
  | byte :: src =>
      if decide (pos < length buf)
      then write_loop src (<[pos := byte]> buf) ((pos + 1) mod length buf)
      else Panic
  end.

Definition write_to (r : PipeRing) (src : list Z) : outcome (PipeRing * nat) :=
  let n := Nat.min (length src) (remaining r) in
  '(buf', pos) ← write_loop (take n src) (buf r) (write_pos r);
  Ret (mkPipeRing buf' (read_pos r) pos (byte_count r + n) (write_closed r) (read_closed r), n).

Definition resize (r : PipeRing) (new_capacity : nat) : outcome (PipeRing * result unit) :=
  if new_capacity <? byte_count r then Ret (r, Err Busy) else
  '(r1, pending, _) ← read_from r (replicate (byte_count r) 0%Z);
  Ret (mkPipeRing (pending ++ replicate (new_capacity - length pending) 0%Z)
         0 (length pending) (length pending) (write_closed r1) (read_closed r1), Ok ()).

(** ** The channel and its ends *)

(** The state both ends share, and the non-blocking flag of each. *)
Record Pipe := mkPipe { ring : PipeRing; read_nonblocking : bool; write_nonblocking : bool }.

Definition set_ring (p : Pipe) (r : PipeRing) : Pipe :=
  mkPipe r (read_nonblocking p) (write_nonblocking p).

Definition pipe_channel_with_capacity (capacity : nat) : outcome Pipe :=
  if capacity =? 0 then Panic else Ret (mkPipe (PipeRing_new capacity) false false).

Definition pipe_channel : outcome Pipe := pipe_channel_with_capacity DEFAULT_PIPE_CAPACITY.

Definition pipe_capacity (p : Pipe) : nat := length (buf (ring p)).

Definition set_pipe_capacity (p : Pipe) (capacity : nat) : outcome (Pipe * result unit) :=
  if capacity =? 0 then Panic else
  '(r, res) ← resize (ring p) capacity; Ret (set_ring p r, res).

Definition set_read_nonblocking (p : Pipe) (b : bool) : Pipe :=
  mkPipe (ring p) b (write_nonblocking p).
Definition set_write_nonblocking (p : Pipe) (b : bool) : Pipe :=
  mkPipe (ring p) (read_nonblocking p) b.

(** A section under the lock ends with a result, or waits on a condition
    variable. *)
Inductive attempt (A : Type) := Wait | Done (a : A).
Arguments Wait {A}.
Arguments Done {A} a.

(** The body of the [while] loop and what follows it: run on entry and after
    each wake-up. *)
Definition read_resume (p : Pipe) (buffer : list Z) : outcome (Pipe * attempt (list Z * nat)) :=
  let r := ring p in
  if is_empty r && negb (write_closed r) then Ret (p, Wait)
  else if is_empty r && write_closed r then Ret (p, Done (buffer, 0))
  else
    '(r', buffer', n) ← read_from r buffer;
    Ret (set_ring p r', Done (buffer', n)).

Definition PipeReadEnd_read (p : Pipe) (buffer : list Z) :
    outcome (Pipe * attempt (result (list Z * nat))) :=
  if length buffer =? 0 then Ret (p, Done (Ok (buffer, 0))) else
  let r := ring p in
  if is_empty r && negb (write_closed r) && read_nonblocking p then Ret (p, Done (Err Busy)) else
  '(p', a) ← read_resume p buffer;
  Ret (p', match a with Wait => Wait | Done x => Done (Ok x) end).

Definition write_resume (p : Pipe) (buffer : list Z) : outcome (Pipe * attempt (result nat)) :=
  let r := ring p in
  if is_full r && negb (read_closed r) then Ret (p, Wait)
  else if read_closed r then Ret (p, Done (Err DeviceError))
  else
    '(r', n) ← write_to r buffer;
    Ret (set_ring p r', Done (Ok n)).

Definition PipeWriteEnd_write (p : Pipe) (buffer : list Z) :
    outcome (Pipe * attempt (result nat)) :=
  if length buffer =? 0 then Ret (p, Done (Ok 0)) else
  let r := ring p in
  if is_full r && negb (read_closed r) && write_nonblocking p then Ret (p, Done (Err Busy)) else
  write_resume p buffer.

Definition PipeReadEnd_write (p : Pipe) (buffer : list Z) : result nat := Err PermissionDenied.
Definition PipeWriteEnd_read (p : Pipe) (buffer : list Z) : result (list Z * nat) := Err PermissionDenied.

Definition PipeReadEnd_size (p : Pipe) : nat := available (ring p).
Definition PipeWriteEnd_size (p : Pipe) : nat := remaining (ring p).

Definition PipeReadEnd_drop (p : Pipe) : Pipe :=
  let r := ring p in
  set_ring p (mkPipeRing (buf r) (read_pos r) (write_pos r) (byte_count r) (write_closed r) true).
Definition PipeWriteEnd_drop (p : Pipe) : Pipe :=
  let r := ring p in
  set_ring p (mkPipeRing (buf r) (read_pos r) (write_pos r) (byte_count r) true (read_closed r)).

(** ** The byte queue a ring stands for *)

Definition contents (r : PipeRing) : list Z :=
  (λ i, buf r !!! ((read_pos r + i) mod length (buf r))) <$> seq 0 (byte_count r).

(** The invariant: the positions are inside the buffer and [byte_count] apart. *)
Record ring_ok (r : PipeRing) : Prop := {
  ring_nonempty : 0 < length (buf r);
  ring_count : byte_count r ≤ length (buf r);
  ring_read : read_pos r < length (buf r);
  ring_write : write_pos r = (read_pos r + byte_count r) mod length (buf r);
}.

Lemma length_contents r : length (contents r) = byte_count r.
Proof. unfold contents. by rewrite length_fmap, length_seq. Qed.

Lemma lookup_contents r i :
  i < byte_count r → contents r !!! i = buf r !!! ((read_pos r + i) mod length (buf r)).
Proof.
  intros Hi. apply list_lookup_total_correct. unfold contents.
  rewrite list_lookup_fmap, lookup_seq_lt by done. done.
Qed.

Lemma mod_succ a n : 0 < n → ((a mod n) + 1) mod n = (a + 1) mod n.
Proof. intros. by rewrite Nat.Div0.add_mod_idemp_l. Qed.

(** Fewer than a full turn apart, positions differ. *)
Lemma mod_inj pos i j n : i < n → j < n → (pos + i) mod n = (pos + j) mod n → i = j.
Proof.
  intros Hi Hj E. pose proof (Nat.div_mod (pos + i) n ltac:(lia)) as E1.
  pose proof (Nat.div_mod (pos + j) n ltac:(lia)) as E2. rewrite E in E1.
  set (q1 := (pos + i) / n) in *. set (q2 := (pos + j) / n) in *. clearbody q1 q2.
  destruct (Nat.lt_trichotomy q1 q2) as [?|[->|?]]; nia.
Qed.

(** The read loop walks the ring. *)
Lemma read_loop_spec n b pos :
  0 < length b →
  read_loop n b (pos mod length b) =
    Ret ((λ i, b !!! ((pos + i) mod length b)) <$> seq 0 n, (pos + n) mod length b).
Proof.
  intros Hb. revert pos. induction n as [|n IH]; intros pos; simpl.
  - by rewrite Nat.add_0_r.
  - assert (Hlt : pos mod length b < length b) by (apply Nat.mod_upper_bound; lia).
    rewrite (list_lookup_lookup_total_lt _ _ Hlt), mod_succ, IH by done. cbn [mbind outcome_bind].
    rewrite Nat.add_0_r, <- fmap_S_seq, <- list_fmap_compose.
    replace (pos + S n) with (pos + 1 + n) by lia. do 3 f_equal.
    apply list_fmap_ext. intros i x Hx. simpl. do 2 f_equal. lia.
Qed.

(** Writing [src] from [pos] on changes exactly those cells. *)
Lemma write_loop_spec src b pos :
  0 < length b → length src ≤ length b →
  ∃ b', write_loop src b (pos mod length b) = Ret (b', (pos + length src) mod length b) ∧
    length b' = length b ∧
    (∀ i, i < length src → b' !!! ((pos + i) mod length b) = src !!! i) ∧
    (∀ j, j < length b → (∀ i, i < length src → j ≠ (pos + i) mod length b) → b' !!! j = b !!! j).
Proof.
  intros Hb. revert b pos Hb. induction src as [|x src IH]; intros b pos Hb Hl; simpl in *.
  - exists b. rewrite Nat.add_0_r. split_and!; try done. intros i Hi. lia.
  - assert (Hlt : pos mod length b < length b) by (apply Nat.mod_upper_bound; lia).
    destruct (decide _) as [_|]; [|done]. rewrite mod_succ by done.
    destruct (IH (<[pos mod length b:=x]> b) (pos + 1)) as (b' & E & Hlen & Hin & Hout);
      rewrite ?length_insert in *; [done|lia|].
    exists b'. rewrite E. split; [do 3 f_equal; lia|]. split; [done|]. split.
    + intros [|i] Hi; simpl.
      * rewrite Nat.add_0_r, Hout; [by rewrite list_lookup_total_insert_eq|done|].
        intros i Hi' Heq. assert (0 = 1 + i); [|lia].
        apply (mod_inj pos _ _ (length b)); [lia..|]. by rewrite Nat.add_0_r, Nat.add_assoc.
      * rewrite <- Hin by lia. do 2 f_equal. lia.
    + intros j Hj Hne. rewrite Hout; [|done|].
      * rewrite list_lookup_total_insert_ne; [done|]. specialize (Hne 0 ltac:(lia)). by rewrite Nat.add_0_r in Hne.
      * intros i Hi. specialize (Hne (S i) ltac:(lia)). by replace (pos + 1 + i) with (pos + S i) by lia.
Qed.

(** ** Reading, writing and resizing on the queue *)

Lemma read_from_spec r dst :
  ring_ok r →
  let n := Nat.min (length dst) (byte_count r) in
  ∃ r', read_from r dst = Ret (r', take n (contents r) ++ drop n dst, n) ∧ ring_ok r' ∧
    contents r' = drop n (contents r) ∧ buf r' = buf r ∧
    write_closed r' = write_closed r ∧ read_closed r' = read_closed r.
Proof.
  intros [H0 Hc Hr Hw] n. unfold read_from. fold n.
  replace (read_loop n (buf r) (read_pos r)) with (read_loop n (buf r) (read_pos r mod length (buf r)))
    by (by rewrite Nat.mod_small).
  rewrite read_loop_spec by done. cbn [mbind outcome_bind].
  assert (Hn : n ≤ byte_count r) by (unfold n; lia).
  eexists. split; [unfold contents; rewrite <- fmap_take, take_seq, Nat.min_l by done; done|].
  split; [|split; [|done]].
  - split; simpl; try done; try lia.
    + apply Nat.mod_upper_bound. lia.
    + rewrite Hw, Nat.Div0.add_mod_idemp_l. f_equal. lia.
  - unfold contents. simpl. rewrite <- fmap_drop, drop_seq. simpl.
    assert (Eseq : seq n (byte_count r - n) = Nat.add n <$> seq 0 (byte_count r - n))
      by (by rewrite fmap_add_seq, Nat.add_0_r).
    rewrite Eseq, <- list_fmap_compose.
    apply list_fmap_ext. intros i x Hx. simpl. rewrite Nat.Div0.add_mod_idemp_l. do 2 f_equal. lia.
Qed.

Lemma write_to_spec r src :
  ring_ok r →
  let n := Nat.min (length src) (remaining r) in
  ∃ r', write_to r src = Ret (r', n) ∧ ring_ok r' ∧ contents r' = contents r ++ take n src ∧
    length (buf r') = length (buf r) ∧
    write_closed r' = write_closed r ∧ read_closed r' = read_closed r.
Proof.
  intros [H0 Hc Hr Hw] n. unfold write_to. fold n.
  assert (Hn : n ≤ length src ∧ byte_count r + n ≤ length (buf r)) by (unfold n, remaining; lia).
  assert (Hl : length (take n src) = n) by (rewrite length_take; lia).
  destruct (write_loop_spec (take n src) (buf r) (read_pos r + byte_count r)) as (b' & E & Hlen & Hin & Hout);
    [done|lia|]. rewrite Hl in *. rewrite Hw, E. cbn [mbind outcome_bind].
  eexists. split; [done|]. split; [|split; [|done]].
  - split; simpl; rewrite ?Hlen; try done; try lia. f_equal. lia.
  - apply list_eq_same_length with (n := byte_count r + n).
    + rewrite length_app, length_contents, Hl. done.
    + rewrite length_contents. done.
    + intros i x y Hi Hx Hy. apply list_lookup_total_correct in Hx, Hy. subst x y.
      rewrite lookup_contents by done. simpl. rewrite Hlen.
      destruct (Nat.lt_ge_cases i (byte_count r)).
      * rewrite lookup_total_app_l, lookup_contents by (rewrite ?length_contents; done).
        apply Hout; [apply Nat.mod_upper_bound; lia|]. intros k Hk Heq.
        assert (i = byte_count r + k); [|lia]. apply (mod_inj (read_pos r) _ _ (length (buf r))); [lia..|].
        by rewrite Nat.add_assoc.
      * rewrite lookup_total_app_r, length_contents by (rewrite ?length_contents; done).
        rewrite <- Hin by lia. do 2 f_equal. lia.
Qed.

Lemma resize_spec r cap :
  ring_ok r → byte_count r ≤ cap →
  ∃ r', resize r cap = Ret (r', Ok ()) ∧ contents r' = contents r ∧ length (buf r') = cap ∧
    (byte_count r < cap → ring_ok r') ∧
    write_closed r' = write_closed r ∧ read_closed r' = read_closed r.
Proof.
  intros Hok Hcap. unfold resize. destruct (Nat.ltb_spec cap (byte_count r)); [lia|].
  destruct (read_from_spec r (replicate (byte_count r) 0%Z) Hok) as (r1 & E & _ & _ & _ & ? & ?).
  rewrite length_replicate, Nat.min_id in E. rewrite E. cbn [mbind outcome_bind].
  rewrite take_ge, drop_ge, app_nil_r by (rewrite ?length_contents, ?length_replicate; done).
  eexists. split; [done|]. rewrite length_contents. simpl.
  assert (Hl : length (contents r ++ replicate (cap - byte_count r) 0%Z) = cap).
  { rewrite length_app, length_replicate, length_contents. lia. }
  split; [|split; [done|split; [|done]]].
  - apply list_eq_same_length with (n := byte_count r); [by rewrite length_contents..|].
    intros i x y Hi Hx Hy. apply list_lookup_total_correct in Hx, Hy. subst x y.
    rewrite lookup_contents by done. simpl. rewrite Hl, Nat.mod_small by lia.
    by rewrite lookup_total_app_l by (rewrite length_contents; done).
  - intros Hlt. split; simpl; rewrite ?Hl; try lia. by rewrite Nat.mod_small by lia.
Qed.
