(* ===== verification/PipeTheorems.v ===== *)
(** * What pipes guarantee

    A pipe is a first-in first-out byte stream: [pipe_step] is one section of a
    reader, a writer, a resize or a close, with the bytes accepted and the
    bytes delivered so far; its invariant relates them to the ring. *)

From stdpp Require Import base tactics decidable numbers list sets relations.
From Stdlib Require Import ZArith Lia Bool.
From S2P Require Import Prelude Pipe.

Local Open Scope nat_scope.

(** A pipe with the bytes its writers sent and its readers received. *)
Record stream := Stream { pipe : Pipe; sent : list Z; received : list Z }.

(** The sections that change the ring.  A resize to exactly the number of
    buffered bytes is left out: see [resize_full_breaks]. *)
Inductive pipe_step : stream → stream → Prop :=
| step_read p s r buffer p' buffer' n :
    PipeReadEnd_read p buffer = Ret (p', Done (Ok (buffer', n))) →
    pipe_step (Stream p s r) (Stream p' s (r ++ take n buffer'))
| step_read_resume p s r buffer p' buffer' n :
    read_resume p buffer = Ret (p', Done (buffer', n)) →
    pipe_step (Stream p s r) (Stream p' s (r ++ take n buffer'))
| step_write p s r buffer p' n :
    PipeWriteEnd_write p buffer = Ret (p', Done (Ok n)) →
    pipe_step (Stream p s r) (Stream p' (s ++ take n buffer) r)
| step_write_resume p s r buffer p' n :
    write_resume p buffer = Ret (p', Done (Ok n)) →
    pipe_step (Stream p s r) (Stream p' (s ++ take n buffer) r)
| step_resize p s r cap p' res :
    set_pipe_capacity p cap = Ret (p', res) → cap ≠ byte_count (ring p) →
    pipe_step (Stream p s r) (Stream p' s r)
| step_close_read p s r : pipe_step (Stream p s r) (Stream (PipeReadEnd_drop p) s r)
| step_close_write p s r : pipe_step (Stream p s r) (Stream (PipeWriteEnd_drop p) s r)
| step_nonblocking p s r b c :
    pipe_step (Stream p s r) (Stream (set_write_nonblocking (set_read_nonblocking p b) c) s r).

Definition stream_ok (x : stream) : Prop :=
  ring_ok (ring (pipe x)) ∧ sent x = received x ++ contents (ring (pipe x)).

(** ** Sections on a ring that satisfies the invariant *)

Lemma read_resume_spec p buffer :
  ring_ok (ring p) →
  (contents (ring p) = [] ∧ write_closed (ring p) = false ∧ read_resume p buffer = Ret (p, Wait)) ∨
  (contents (ring p) = [] ∧ write_closed (ring p) = true ∧ read_resume p buffer = Ret (p, Done (buffer, 0))) ∨
  (contents (ring p) ≠ [] ∧ ∃ r', let n := Nat.min (length buffer) (byte_count (ring p)) in
     read_resume p buffer = Ret (set_ring p r', Done (take n (contents (ring p)) ++ drop n buffer, n)) ∧
     ring_ok r' ∧ contents r' = drop n (contents (ring p))).
Proof.
  intros Hok. unfold read_resume, is_empty. pose proof (length_contents (ring p)) as Hl.
  destruct (Nat.eqb_spec (byte_count (ring p)) 0) as [E|E].
  - assert (contents (ring p) = []) by (apply length_zero_iff_nil; lia).
    destruct (write_closed (ring p)); simpl; auto.
  - right; right. split; [by intros E'; rewrite E' in Hl|]. simpl.
    destruct (read_from_spec (ring p) buffer Hok) as (r' & -> & ? & ? & _). exists r'. done.
Qed.

Lemma write_resume_spec p buffer :
  ring_ok (ring p) →
  (is_full (ring p) = true ∧ read_closed (ring p) = false ∧ write_resume p buffer = Ret (p, Wait)) ∨
  (read_closed (ring p) = true ∧ write_resume p buffer = Ret (p, Done (Err DeviceError))) ∨
  (is_full (ring p) = false ∧ read_closed (ring p) = false ∧
   ∃ r', let n := Nat.min (length buffer) (remaining (ring p)) in
     write_resume p buffer = Ret (set_ring p r', Done (Ok n)) ∧
     ring_ok r' ∧ contents r' = contents (ring p) ++ take n buffer).
Proof.
  intros Hok. unfold write_resume.
  destruct (is_full (ring p)), (read_closed (ring p)) eqn:Hrc; simpl; auto.
  right; right. split; [done|]. split; [done|].
  destruct (write_to_spec (ring p) buffer Hok) as (r' & -> & ? & ? & _). exists r'. done.
Qed.

(** One section of a reader or writer keeps the stream. *)
Lemma read_keeps p s r buffer p' buffer' n :
  stream_ok (Stream p s r) → read_resume p buffer = Ret (p', Done (buffer', n)) →
  stream_ok (Stream p' s (r ++ take n buffer')).
Proof.
  intros [Hok Hs] E. simpl in *.
  destruct (read_resume_spec p buffer Hok) as [(_ & _ & E')|[(Hc & _ & E')|(_ & r' & E' & Hok' & Hc)]];
    rewrite E in E'; simplify_eq; split; simpl; try done.
  - by rewrite take_0, app_nil_r.
  - rewrite Hc, take_app_le by (rewrite length_take, length_contents; lia).
    by rewrite take_take, Nat.min_id, <- app_assoc, take_drop.
Qed.

Lemma write_keeps p s r buffer p' n :
  stream_ok (Stream p s r) → write_resume p buffer = Ret (p', Done (Ok n)) →
  stream_ok (Stream p' (s ++ take n buffer) r).
Proof.
  intros [Hok Hs] E. simpl in *.
  destruct (write_resume_spec p buffer Hok) as [(_ & _ & E')|[(_ & E')|(_ & _ & r' & E' & Hok' & Hc)]];
    rewrite E in E'; simplify_eq; split; simpl; try done.
  by rewrite Hc, app_assoc.
Qed.

Lemma pipe_step_keeps x y : stream_ok x → pipe_step x y → stream_ok y.
Proof.
  intros Hx Hst. destruct Hst as [p s r b p' b' n E|p s r b p' b' n E|p s r b p' n E|p s r b p' n E|
    p s r cap p' res E Hne| | |].
  - unfold PipeReadEnd_read in E. destruct (length b =? 0).
    { simplify_eq. rewrite take_0, app_nil_r. done. }
    destruct (is_empty _ && _ && _); [done|].
    destruct (read_resume p b) as [[p'' [|[b'' n'']]]| |] eqn:E'; cbn in E; simplify_eq.
    by eapply read_keeps.
  - by eapply read_keeps.
  - unfold PipeWriteEnd_write in E. destruct (length b =? 0).
    { simplify_eq. by rewrite take_0, app_nil_r. }
    destruct (is_full _ && _ && _); [done|]. by eapply write_keeps.
  - by eapply write_keeps.
  - unfold set_pipe_capacity in E. destruct (cap =? 0); [done|].
    destruct Hx as [Hok Hs]. simpl in *. destruct (Nat.lt_ge_cases cap (byte_count (ring p))).
    + unfold resize in E. destruct (Nat.ltb_spec cap (byte_count (ring p))); [|lia]. cbn in E. simplify_eq. done.
    + destruct (resize_spec (ring p) cap Hok) as (r' & E' & Hc & _ & Hok' & _); [done|].
      rewrite E' in E. cbn in E. simplify_eq. split; simpl; [apply Hok'; lia|by rewrite Hc].
  - destruct Hx as [[] ?]. done.
  - destruct Hx as [[] ?]. done.
  - destruct Hx as [[] ?]. done.
Qed.

Lemma new_stream_ok cap p :
  pipe_channel_with_capacity cap = Ret p → stream_ok (Stream p [] []).
Proof.
  unfold pipe_channel_with_capacity. destruct (Nat.eqb_spec cap 0); [done|]. intros [= <-].
  split; [|done]. split; simpl; rewrite ?length_replicate; try lia. by rewrite Nat.Div0.mod_0_l.
Qed.

Lemma reach_stream_ok x y : rtc pipe_step x y → stream_ok x → stream_ok y.
Proof. induction 1; eauto using pipe_step_keeps. Qed.

(** ** The properties *)


(** What a read of a non-empty buffer answers: the buffered bytes, as
    many as fit, if there are any; end of file if the writer is gone; busy in
    non-blocking mode; and otherwise it waits. *)
Theorem pipe_read_answers p buffer :
  ring_ok (ring p) → buffer ≠ [] →
  if decide (contents (ring p) = []) then
    PipeReadEnd_read p buffer = Ret (p,
      if write_closed (ring p) then Done (Ok (buffer, 0))
      else if read_nonblocking p then Done (Err Busy) else Wait)
  else ∃ r' n, 0 < n ∧ n = Nat.min (length buffer) (length (contents (ring p))) ∧
    PipeReadEnd_read p buffer =
      Ret (set_ring p r', Done (Ok (take n (contents (ring p)) ++ drop n buffer, n))) ∧
    contents r' = drop n (contents (ring p)).
Proof.
  intros Hok Hb. unfold PipeReadEnd_read.
  assert (Hlb : 0 < length buffer) by (destruct buffer; simpl; [done|lia]).
  destruct (Nat.eqb_spec (length buffer) 0); [lia|]. pose proof (length_contents (ring p)) as Hl.
  destruct (read_resume_spec p buffer Hok) as [(Hc & Hw & E)|[(Hc & Hw & E)|(Hc & r' & E & Hok' & Hd)]].
  - rewrite decide_True by done. rewrite Hc in Hl. unfold is_empty. rewrite <- Hl, Hw, E. simpl.
    by destruct (read_nonblocking p).
  - rewrite decide_True by done. rewrite E, Hw, andb_false_r. done.
  - rewrite decide_False by done. exists r', (Nat.min (length buffer) (byte_count (ring p))).
    assert (0 < byte_count (ring p)) by (destruct (contents (ring p)); simpl in *; [done|lia]).
    rewrite E, Hl. unfold is_empty. destruct (Nat.eqb_spec (byte_count (ring p)) 0); [lia|]. simpl.
    split_and!; try done. lia.
Qed.

(** What a write of a non-empty buffer answers: a device error once the
    reader is gone; busy on a full pipe in non-blocking mode, and a wait
    otherwise; and else as many bytes as fit are appended. *)
Theorem pipe_write_answers p buffer :
  ring_ok (ring p) → buffer ≠ [] →
  if read_closed (ring p) then PipeWriteEnd_write p buffer = Ret (p, Done (Err DeviceError))
  else if is_full (ring p) then
    PipeWriteEnd_write p buffer = Ret (p, if write_nonblocking p then Done (Err Busy) else Wait)
  else ∃ r' n, 0 < n ∧ n = Nat.min (length buffer) (remaining (ring p)) ∧
    PipeWriteEnd_write p buffer = Ret (set_ring p r', Done (Ok n)) ∧
    contents r' = contents (ring p) ++ take n buffer.
Proof.
  intros Hok Hb. unfold PipeWriteEnd_write.
  assert (Hlb : 0 < length buffer) by (destruct buffer; simpl; [done|lia]).
  destruct (Nat.eqb_spec (length buffer) 0); [lia|].
  destruct (write_resume_spec p buffer Hok) as [(Hf & Hr & E)|[(Hr & E)|(Hf & Hr & r' & E & Hok' & Hc)]].
  - rewrite Hr, Hf. simpl. by destruct (write_nonblocking p).
  - rewrite Hr, E, andb_false_r. done.
  - rewrite Hr, Hf. simpl. exists r', (Nat.min (length buffer) (remaining (ring p))).
    split_and!; try done. pose proof (ring_count _ Hok). unfold is_full, remaining in *.
    apply Nat.eqb_neq in Hf. lia.
Qed.

(** Resizing keeps the buffered bytes and sets the capacity, and refuses,
    without a change, a capacity below the number of buffered bytes. *)
Theorem resize_keeps_data r cap :
  ring_ok r →
  if cap <? byte_count r then resize r cap = Ret (r, Err Busy)
  else ∃ r', resize r cap = Ret (r', Ok ()) ∧ contents r' = contents r ∧ length (buf r') = cap ∧
    (byte_count r < cap → ring_ok r').
Proof.
  intros Hok. destruct (Nat.ltb_spec cap (byte_count r)).
  - unfold resize. by destruct (Nat.ltb_spec cap (byte_count r)); [|lia].
  - destruct (resize_spec r cap Hok) as (r' & ? & ? & ? & ? & _); [done|]. by exists r'.
Qed.


(** [round_pipe_size] gives a power-of-two number of pages between one
    page and a megabyte that holds the clamped request, and not more than
    twice of it. *)
Theorem round_pipe_size_spec size :
  (0 ≤ size ≤ u64_max)%Z →
  let clamped := Z.min (Z.max size PIPE_MIN_SIZE) PIPE_MAX_SIZE in
  (∃ k, 0 ≤ k ≤ 8 ∧ round_pipe_size size = PIPE_MIN_SIZE * 2 ^ k)%Z ∧
  (clamped ≤ round_pipe_size size < 2 * clamped)%Z.
Proof.
  intros Hsize clamped. unfold round_pipe_size. fold clamped.
  assert (Hc : (4096 ≤ clamped ≤ 1048576)%Z) by (unfold clamped, PIPE_MIN_SIZE, PIPE_MAX_SIZE; lia).
  set (pages := div_ceil clamped PIPE_MIN_SIZE).
  assert (Hp : (4096 * (pages - 1) < clamped ≤ 4096 * pages)%Z).
  { unfold pages, div_ceil, PIPE_MIN_SIZE. Z.to_euclidean_division_equations; lia. }
  assert (Hpr : (1 ≤ pages ≤ 256)%Z) by lia.
  assert (Hk : ∃ k, (0 ≤ k ≤ 8 ∧ next_power_of_two pages = 2 ^ k ∧ pages ≤ 2 ^ k ∧
    (2 ^ k = 1 ∨ 2 ^ k ≤ 2 * (pages - 1)))%Z).
  { unfold next_power_of_two. destruct (Z.leb_spec pages 1).
    - exists 0%Z. lia.
    - exists (Z.log2_up pages). pose proof (Z.log2_up_spec pages ltac:(lia)) as [Hlo Hhi].
      pose proof (Z.log2_up_le_mono pages 256 ltac:(lia)) as Hm. change (Z.log2_up 256) with 8%Z in Hm.
      pose proof (Z.log2_up_nonneg pages). pose proof (Z.log2_up_pos pages ltac:(lia)).
      rewrite <- Z.sub_1_r, Z.pow_sub_r in Hlo by lia. change (2 ^ 1)%Z with 2%Z in Hlo.
      split; [lia|]. split; [done|].
      assert (E : (2 ^ Z.log2_up pages = 2 * 2 ^ (Z.log2_up pages - 1))%Z).
      { rewrite <- Z.pow_succ_r by lia. f_equal. lia. }
      rewrite E, Z.mul_comm, Z.div_mul in Hlo by lia. lia. }
  destruct Hk as (k & Hk & -> & Hp2).
  assert (2 ^ k ≤ 2 ^ 8)%Z by (apply Z.pow_le_mono_r; lia).
  unfold PIPE_MIN_SIZE, PIPE_MAX_SIZE, u64_max in *.
  split; [exists k; split; [lia|]|]; lia.
Qed.

(** ** Examples *)

Definition empty4 : Pipe := mkPipe (PipeRing_new 4) false false.

Lemma empty4_ok : ring_ok (ring empty4).
Proof. split; simpl; done || lia. Qed.

(** Three bytes written to a pipe of four. *)
Definition three_of_four : Pipe := mkPipe (mkPipeRing [1; 2; 3; 0]%Z 0 3 3 false false) false false.

Lemma three_of_four_ok : ring_ok (ring three_of_four).
Proof. split; simpl; done || lia. Qed.

(** A full pipe of four. *)
Definition full4 : PipeRing := mkPipeRing [1; 2; 3; 4]%Z 0 0 4 false false.

Lemma full4_ok : ring_ok full4.
Proof. split; simpl; done || lia. Qed.


Lemma pipe_read_answers_witness :
  ∃ r' n, 0 < n ∧ n = 2 ∧
    PipeReadEnd_read three_of_four [9; 9]%Z = Ret (set_ring three_of_four r', Done (Ok ([1; 2]%Z, n))) ∧
    contents r' = [3]%Z.
Proof.
  destruct (pipe_read_answers three_of_four [9; 9]%Z three_of_four_ok ltac:(done))
    as (r' & n & Hn & -> & E & Hc).
  exists r', 2. split; [lia|]. split; [done|]. split; [exact E|exact Hc].
Defined.

Lemma pipe_write_answers_witness :
  ∃ r' n, 0 < n ∧ n = 1 ∧
    PipeWriteEnd_write three_of_four [8; 9]%Z = Ret (set_ring three_of_four r', Done (Ok n)) ∧
    contents r' = [1; 2; 3; 8]%Z.
Proof.
  destruct (pipe_write_answers three_of_four [8; 9]%Z three_of_four_ok ltac:(done))
    as (r' & n & Hn & -> & E & Hc).
  exists r', 1. split; [lia|]. split; [done|]. split; [exact E|exact Hc].
Defined.

Lemma resize_keeps_data_witness :
  ∃ r', resize (ring three_of_four) 8 = Ret (r', Ok ()) ∧ contents r' = [1; 2; 3]%Z.
Proof.
  destruct (resize_keeps_data (ring three_of_four) 8 three_of_four_ok) as (r' & E & Hc & _).
  exists r'. split; [exact E|exact Hc].
Defined.


Lemma round_pipe_size_spec_witness :
  round_pipe_size 5000 = 8192%Z ∧ (5000 ≤ round_pipe_size 5000 < 2 * 5000)%Z.
Proof.
  split; [reflexivity|].
  assert (H : (0 ≤ 5000 ≤ u64_max)%Z) by (unfold u64_max; lia).
  exact (proj2 (round_pipe_size_spec 5000 H)).
Defined.
