(* ===== verification/Frame.v ===== *)
(** * The physical frame allocator (src/memory/frame.rs)

    [FrameAllocator]: a bump tail with a map of recycled ranges below it.  The
    [BTreeMap] of free ranges is a list of (start, count) sorted by start.
    The pool's bounds come from the linker and are parameters; so is the
    identity mapping of a range, which is hardware set-up. *)

From stdpp Require Import base tactics decidable numbers list sets.
From Stdlib Require Import ZArith Lia Bool.
From S2P Require Import Prelude.

Definition FRAME_SIZE : Z := 4096.

(** [pool_bounds()]: the linker's [__pool_start] and [__pool_end]. *)
Class PoolEnv := { pool_start : Z; pool_end : Z }.

Definition physical_pool_size `{PoolEnv} : Z := saturating_sub pool_end pool_start.

(** ** [BTreeMap<usize, usize>] *)

Fixpoint bt_insert (k v : Z) (l : list (Z * Z)) : list (Z * Z) :=
  match l with
  | [] => [(k, v)]
  | (k', v') :: l' =>
      if k <? k' then (k, v) :: l
      else if k =? k' then (k, v) :: l'
      else (k', v') :: bt_insert k v l'
  end.

Definition bt_remove (k : Z) (l : list (Z * Z)) : list (Z * Z) :=
  filter (λ e, e.1 ≠ k) l.

(** [range(..k).next_back()] and [range(k..).next()]. *)
Definition bt_before (k : Z) (l : list (Z * Z)) : option (Z * Z) :=
  last (filter (λ e, e.1 < k) l).
Definition bt_from (k : Z) (l : list (Z * Z)) : option (Z * Z) :=
  head (filter (λ e, k ≤ e.1) l).

(** ** The allocator *)

Record FrameAllocator := mkFrameAllocator {
  base : Z;
  total_frames : Z;
  next_frame : Z;
  free_ranges : list (Z * Z);
}.

Definition FrameAllocator_new : FrameAllocator := mkFrameAllocator 0 0 0 [].

Definition set_free_ranges (a : FrameAllocator) (l : list (Z * Z)) : FrameAllocator :=
  mkFrameAllocator (base a) (total_frames a) (next_frame a) l.
Definition set_next_frame (a : FrameAllocator) (n : Z) : FrameAllocator :=
  mkFrameAllocator (base a) (total_frames a) n (free_ranges a).

Definition init `{PoolEnv} (total_size : Z) : FrameAllocator :=
  mkFrameAllocator pool_start (Z.min total_size physical_pool_size / FRAME_SIZE) 0 [].

Definition set_node_range `{PoolEnv} (start_frame end_frame : Z) : FrameAllocator :=
  mkFrameAllocator (pool_start + start_frame * FRAME_SIZE) (saturating_sub end_frame start_frame) 0 [].

Definition frame_address (a : FrameAllocator) (frame_start : Z) : option Z :=
  offset ← checked_mul frame_start FRAME_SIZE; checked_add (base a) offset.

(** The frames of the pool, by index: what each holds ([0] is a zeroed frame). *)
Definition frames := Z → Z.

Definition zero_frames (m : frames) (frame_start count : Z) : frames :=
  λ f, if (frame_start <=? f) && (f <? frame_start + count) then 0 else m f.

Definition zero_frame_range (a : FrameAllocator) (m : frames) (frame_start count : Z) : option frames :=
  _ ← frame_address a frame_start;
  _ ← checked_mul count FRAME_SIZE;
  Some (zero_frames m frame_start count).

(** First fit; the new ranges and the start of the range taken. *)
Definition allocate_from_free_ranges (l : list (Z * Z)) (count : Z) : option (list (Z * Z) * Z) :=
  '(_, (start, range_count)) ← list_find (λ e, count ≤ e.2) l;
  let l := bt_remove start l in
  Some (if count <? range_count then bt_insert (start + count) (range_count - count) l else l, start).

(** The allocator and the frames afterwards, and the address returned.  The
    early returns by [?] keep what was changed before them. *)
Definition allocate (a : FrameAllocator) (m : frames) (count : Z) :
    FrameAllocator * frames * option Z :=
  if (base a =? 0) || (count =? 0) then (a, m, None) else
  match allocate_from_free_ranges (free_ranges a) count with
  | Some (l, frame_start) =>
      let a := set_free_ranges a l in
      match frame_address a frame_start with
      | None => (a, m, None)
      | Some address =>
          match zero_frame_range a m frame_start count with
          | None => (a, m, None)
          | Some m => (a, m, Some address)
          end
      end
  | None =>
      let frame_start := next_frame a in
      match checked_add frame_start count with
      | None => (a, m, None)
      | Some end_frame =>
          if total_frames a <? end_frame then (a, m, None) else
          match frame_address a frame_start with
          | None => (a, m, None)
          | Some address =>
              let a := set_next_frame a end_frame in
              match zero_frame_range a m frame_start count with
              | None => (a, m, None)
              | Some m => (a, m, Some address)
              end
          end
      end
  end.

Definition available_frames (a : FrameAllocator) : Z :=
  saturating_sub (total_frames a) (next_frame a).

Definition largest_free_contiguous_frames (a : FrameAllocator) : Z :=
  let tail_free := saturating_sub (total_frames a) (next_frame a) in
  Z.max (foldr (λ e acc, Z.max e.2 acc) 0 (free_ranges a)) tail_free.

Definition free_range_count (a : FrameAllocator) : nat := length (free_ranges a).

(** The forward-merging loop of [insert_free_range]; each round removes a
    range, so the number of ranges bounds the rounds. *)
Fixpoint merge_next (fuel : nat) (l : list (Z * Z)) (new_start new_count : Z) :
    list (Z * Z) * option (Z * Z) :=
  match bt_from (new_start + new_count) l with
  | None => (l, Some (new_start, new_count))
  | Some (next_start, next_count) =>
      let new_end := new_start + new_count in
      if new_end <? next_start then (l, Some (new_start, new_count))
      else if next_start <? new_end then (l, None)
      else
        match fuel with
        | O => (l, None)
        | S fuel => merge_next fuel (bt_remove next_start l) new_start (new_count + next_count)
        end
  end.

Definition insert_free_range (l : list (Z * Z)) (start_frame count : Z) : list (Z * Z) * bool :=
  if count =? 0 then (l, false) else
  let merge_next_from l new_start new_count :=
    match merge_next (length l) l new_start new_count with
    | (l, Some (s, c)) => (bt_insert s c l, true)
    | (l, None) => (l, false)
    end in
  match bt_before start_frame l with
  | Some (prev_start, prev_count) =>
      let prev_end := prev_start + prev_count in
      if start_frame <? prev_end then (l, false)
      else if start_frame =? prev_end
        then merge_next_from (bt_remove prev_start l) prev_start (count + prev_count)
        else merge_next_from l start_frame count
  | None => merge_next_from l start_frame count
  end.

(** The loop of [rewind_tail_high_water_mark], bounded like the one above. *)
Fixpoint rewind (fuel : nat) (a : FrameAllocator) : FrameAllocator :=
  match last (free_ranges a) with
  | Some (start, count) =>
      if start + count =? next_frame a then
        match fuel with
        | O => a
        | S fuel => rewind fuel (set_free_ranges (set_next_frame a start) (bt_remove start (free_ranges a)))
        end
      else a
  | None => a
  end.

Definition rewind_tail_high_water_mark (a : FrameAllocator) : FrameAllocator :=
  rewind (length (free_ranges a)) a.

Definition deallocate (a : FrameAllocator) (ptr count : Z) : FrameAllocator * bool :=
  if (base a =? 0) || (ptr =? 0) || (count =? 0) then (a, false) else
  if ptr <? base a then (a, false) else
  let offset := ptr - base a in
  if negb (is_multiple_of offset FRAME_SIZE) then (a, false) else
  let start_frame := offset / FRAME_SIZE in
  match checked_add start_frame count with
  | None => (a, false)
  | Some end_frame =>
      if (total_frames a <? end_frame) || (next_frame a <? end_frame) then (a, false) else
      let '(l, inserted) := insert_free_range (free_ranges a) start_frame count in
      let a := set_free_ranges a l in
      if negb inserted then (a, false) else (rewind_tail_high_water_mark a, true)
  end.

(** ** Compaction *)

(** The [n]-bit vector of free frames, as a function on [[0, n)]. *)
Definition bits := Z → bool.

Definition set_bit (b : bits) (i : Z) (v : bool) : bits := λ x, if x =? i then v else b x.

Definition mark_free (b : bits) (e : Z * Z) : bits :=
  λ x, if (e.1 <=? x) && (x <? e.1 + e.2) then true else b x.

Definition free_bits (l : list (Z * Z)) : bits := foldl mark_free (λ _, false) l.

(** [copy_nonoverlapping] of one frame. *)
Definition copy_frame (m : frames) (old new : Z) : frames := λ x, if x =? new then m old else m x.

(** [fixup] may depend on the moves it was asked for before.  [k] counts the
    frames from [f] to the high-water mark: every round but a stop advances
    [f].  Returns the bitmap, the frames, and the moves made. *)
Fixpoint compact_loop (k : nat) (a : FrameAllocator) (fixup : list (Z * Z) → Z → Z → bool)
    (b : bits) (m : frames) (moves : list (Z * Z)) (fill f : Z) : bits * frames * list (Z * Z) :=
  match k with
  | O => (b, m, moves)
  | S k =>
      if b f then compact_loop k a fixup b m moves fill (f + 1)
      else if fill <? f then
        match frame_address a f, frame_address a fill with
        | Some old_addr, Some new_addr =>
            if negb (fixup moves old_addr new_addr) then (b, m, moves)
            else compact_loop k a fixup (set_bit (set_bit b fill false) f true) (copy_frame m f fill)
                   (moves ++ [(old_addr, new_addr)]) (fill + 1) (f + 1)
        | _, _ => (b, m, moves)
        end
      else compact_loop k a fixup b m moves (fill + 1) (f + 1)
  end.

(** Rebuilding the free list from the [k] bits from [i] on. *)
Fixpoint rebuild (k : nat) (b : bits) (i : Z) (run_start : option Z) (acc : list (Z * Z)) :
    list (Z * Z) :=
  match k with
  | O => match run_start with Some s => bt_insert s (i - s) acc | None => acc end
  | S k =>
      if b i then rebuild k b (i + 1) (match run_start with None => Some i | r => r end) acc
      else rebuild k b (i + 1) None
             (match run_start with Some s => bt_insert s (i - s) acc | None => acc end)
  end.

Definition compact (a : FrameAllocator) (m : frames) (fixup : list (Z * Z) → Z → Z → bool) :
    FrameAllocator * frames * Z :=
  let n := Z.to_nat (next_frame a) in
  let '(b, m, moves) := compact_loop n a fixup (free_bits (free_ranges a)) m [] 0 0 in
  (set_free_ranges a (rebuild n b 0 None []), m, Z.of_nat (length moves)).

(** ** Invariant *)

(** Sorted ranges after [lo] and up to [hi], none empty, no two adjacent. *)
Fixpoint ranges_ok (lo : Z) (l : list (Z * Z)) (hi : Z) : Prop :=
  match l with
  | [] => lo ≤ hi
  | (s, c) :: l => lo < s ∧ 0 < c ∧ ranges_ok (s + c) l hi
  end.

Definition in_ranges (l : list (Z * Z)) (f : Z) : Prop :=
  ∃ s c, (s, c) ∈ l ∧ s ≤ f < s + c.

Record frames_ok (a : FrameAllocator) : Prop := {
  fo_base : 0 < base a;
  fo_end : base a + total_frames a * FRAME_SIZE ≤ u64_max;
  fo_next : 0 ≤ next_frame a ≤ total_frames a;
  fo_ranges : ranges_ok (-1) (free_ranges a) (next_frame a);
}.

(** A frame is live when it is below the high-water mark and in no free range. *)
Definition live (a : FrameAllocator) (f : Z) : Prop :=
  0 ≤ f < next_frame a ∧ ¬ in_ranges (free_ranges a) f.

(** ** Lemmas on ranges *)

Lemma ranges_le lo l hi : ranges_ok lo l hi → lo ≤ hi.
Proof. revert lo. induction l as [|[s c] l IH]; simpl; intros lo; [done|]. intros (? & ? & ?%IH). lia. Qed.

Lemma ranges_app lo l1 s c l2 hi :
  ranges_ok lo (l1 ++ (s, c) :: l2) hi ↔ ranges_ok lo l1 (s - 1) ∧ 0 < c ∧ ranges_ok (s + c) l2 hi.
Proof.
  revert lo. induction l1 as [|[s' c'] l1 IH]; intros lo; simpl.
  - split; [intros (? & ? & ?)|intros (? & ? & ?)]; split_and!; done || lia.
  - rewrite IH. tauto.
Qed.

Lemma ranges_weaken lo lo' l hi hi' : ranges_ok lo l hi → lo' ≤ lo → hi ≤ hi' → ranges_ok lo' l hi'.
Proof.
  revert lo lo'. induction l as [|[s c] l IH]; simpl; intros lo lo'; [lia|].
  intros (? & ? & ?) ? ?. split_and!; [lia|done|]. by apply (IH (s + c)).
Qed.

Lemma ranges_elem lo l hi s c : ranges_ok lo l hi → (s, c) ∈ l → lo < s ∧ 0 < c ∧ s + c ≤ hi.
Proof.
  intros Hr (l1 & l2 & ->)%list_elem_of_split. apply ranges_app in Hr as (H1 & Hc & H2).
  apply ranges_le in H1, H2. lia.
Qed.

Lemma in_ranges_nil f : ¬ in_ranges [] f.
Proof. intros (s & c & H & _). by apply elem_of_nil in H. Qed.

Lemma in_ranges_app l1 l2 f : in_ranges (l1 ++ l2) f ↔ in_ranges l1 f ∨ in_ranges l2 f.
Proof. unfold in_ranges. set_solver. Qed.

Lemma in_ranges_cons s c l f : in_ranges ((s, c) :: l) f ↔ s ≤ f < s + c ∨ in_ranges l f.
Proof.
  unfold in_ranges. split.
  - intros (s' & c' & [[= -> ->]|Hi]%elem_of_cons & Hr); eauto.
  - intros [Hr|(s' & c' & Hi & Hr)]; [exists s, c|exists s', c']; set_solver.
Qed.

Lemma in_ranges_bound lo l hi f : ranges_ok lo l hi → in_ranges l f → lo < f < hi.
Proof. intros Hr (s & c & Hi & ?). apply (ranges_elem _ _ _ _ _ Hr) in Hi. lia. Qed.

(** Keys before and after a split of a sorted list. *)
Lemma filter_none {A} (P : A → Prop) `{∀ x, Decision (P x)} (l : list A) : (∀ x, x ∈ l → ¬ P x) → filter P l = [].
Proof.
  induction l as [|x l IH]; intros Hx; [done|].
  rewrite filter_cons_False by (apply Hx; set_solver). apply IH. set_solver.
Qed.

Lemma filter_all {A} (P : A → Prop) `{∀ x, Decision (P x)} (l : list A) : (∀ x, x ∈ l → P x) → filter P l = l.
Proof.
  induction l as [|x l IH]; intros Hx; [done|].
  rewrite filter_cons_True by (apply Hx; set_solver). f_equal. apply IH. set_solver.
Qed.

Lemma bt_remove_split lo l1 s c l2 hi :
  ranges_ok lo (l1 ++ (s, c) :: l2) hi → bt_remove s (l1 ++ (s, c) :: l2) = l1 ++ l2.
Proof.
  intros (H1 & Hc & H2)%ranges_app. unfold bt_remove. rewrite filter_app, filter_cons_False by (by intros []).
  rewrite !filter_all; [done| |]; intros [s' c'] Hi; simpl.
  - apply (ranges_elem _ _ _ _ _ H2) in Hi. lia.
  - apply (ranges_elem _ _ _ _ _ H1) in Hi. lia.
Qed.

Lemma bt_insert_split k v l1 l2 :
  (∀ e, e ∈ l1 → e.1 < k) → (∀ e, e ∈ l2 → k < e.1) → bt_insert k v (l1 ++ l2) = l1 ++ (k, v) :: l2.
Proof.
  intros H1 H2. induction l1 as [|[k' v'] l1 IH]; simpl.
  - destruct l2 as [|[k' v'] l2]; [done|]. simpl. specialize (H2 (k', v') ltac:(set_solver)). simpl in H2.
    by destruct (Z.ltb_spec k k'); [|lia].
  - specialize (H1 (k', v') ltac:(set_solver)) as Hk. simpl in Hk.
    destruct (Z.ltb_spec k k'), (Z.eqb_spec k k'); try lia. f_equal. apply IH. set_solver.
Qed.

Lemma ranges_split lo l hi k :
  ranges_ok lo l hi → ∃ l1 l2, l = l1 ++ l2 ∧ (∀ e, e ∈ l1 → e.1 < k) ∧ (∀ e, e ∈ l2 → k ≤ e.1).
Proof.
  revert lo. induction l as [|[s c] l IH]; intros lo Hr.
  - exists [], []. set_solver.
  - destruct Hr as (Hs & Hc & Hr). destruct (Z.lt_ge_cases s k).
    + destruct (IH _ Hr) as (l1 & l2 & -> & H1 & H2). exists ((s, c) :: l1), l2. split; [done|]. split; [|done].
      intros e [->|Hi]%elem_of_cons; [done|by apply H1].
    + exists [], ((s, c) :: l). split; [done|]. split; [set_solver|].
      intros [s' c'] [[= -> ->]|Hi]%elem_of_cons; simpl; [lia|].
      apply (ranges_elem _ _ _ _ _ Hr) in Hi. lia.
Qed.

Lemma bt_before_split k l1 l2 :
  (∀ e, e ∈ l1 → e.1 < k) → (∀ e, e ∈ l2 → k ≤ e.1) → bt_before k (l1 ++ l2) = last l1.
Proof.
  intros H1 H2. unfold bt_before. rewrite filter_app, filter_all, (filter_none _ l2), app_nil_r; [done| |done].
  intros e He%H2. lia.
Qed.

Lemma bt_from_split k l1 l2 :
  (∀ e, e ∈ l1 → e.1 < k) → (∀ e, e ∈ l2 → k ≤ e.1) → bt_from k (l1 ++ l2) = head l2.
Proof.
  intros H1 H2. unfold bt_from. rewrite filter_app, (filter_none _ l1), (filter_all _ l2); [done|done|].
  intros e He%H1. lia.
Qed.
