(* ===== verification/FrameTheorems.v ===== *)
(** * What the frame allocator guarantees *)

From stdpp Require Import base tactics decidable numbers list sets.
From Stdlib Require Import ZArith Lia Bool.
From S2P Require Import Prelude Frame.

(** ** Taking frames *)

Lemma in_ranges_take l1 s c l2 n f lo hi :
  ranges_ok lo (l1 ++ (s, c) :: l2) hi → 0 < n ≤ c →
  let l' := l1 ++ (if n <? c then [(s + n, c - n)] else []) ++ l2 in
  ranges_ok lo l' hi ∧
  (in_ranges l' f ↔ in_ranges (l1 ++ (s, c) :: l2) f ∧ ¬ s ≤ f < s + n).
Proof.
  intros Hr Hn l'. subst l'. pose proof Hr as (H1 & Hc & H2)%ranges_app.
  assert (Hb1 : in_ranges l1 f → f < s - 1) by (intros Hi; apply (in_ranges_bound _ _ _ _ H1) in Hi; lia).
  assert (Hb2 : in_ranges l2 f → s + c < f) by (intros Hi; apply (in_ranges_bound _ _ _ _ H2) in Hi; lia).
  rewrite !in_ranges_app, in_ranges_cons. destruct (Z.ltb_spec n c); simpl.
  - rewrite in_ranges_cons. split; [|pose proof (in_ranges_nil f); naive_solver lia].
    apply ranges_app. split_and!; [by eapply ranges_weaken; [done|lia..]|lia|by replace (s + n + (c - n)) with (s + c) by lia].
  - assert (n = c) as -> by lia. split; [|pose proof (in_ranges_nil f); naive_solver lia].
    destruct l2 as [|[s2 c2] l2]; simpl in *.
    + rewrite app_nil_r. eapply ranges_weaken; [done|lia|lia].
    + destruct H2 as (? & ? & ?). apply ranges_app. split_and!; [by eapply ranges_weaken; [done|lia..]|done|done].
Qed.

Lemma allocate_from_some lo l hi n l' s :
  ranges_ok lo l hi → 0 < n → allocate_from_free_ranges l n = Some (l', s) →
  lo < s ∧ s + n ≤ hi ∧ ranges_ok lo l' hi ∧ (∀ f, s ≤ f < s + n → in_ranges l f) ∧
  ∀ f, in_ranges l' f ↔ in_ranges l f ∧ ¬ s ≤ f < s + n.
Proof.
  intros Hr Hn E. unfold allocate_from_free_ranges in E.
  destruct (list_find _ l) as [[i [s' c]]|] eqn:Ef; [|done]. simpl in E.
  apply list_find_Some in Ef as (Hi & Hc & _). simpl in Hc.
  assert (Hin : (s', c) ∈ l) by (by eapply list_elem_of_lookup_2).
  apply list_elem_of_split in Hin as (l1 & l2 & ->).
  rewrite (bt_remove_split _ _ _ _ _ _ Hr) in E. pose proof Hr as (H1 & _ & H2)%ranges_app.
  assert (El : l' = l1 ++ (if n <? c then [(s' + n, c - n)] else []) ++ l2 ∧ s = s').
  { destruct (Z.ltb_spec n c); simplify_eq; [|done]. split; [|done]. apply bt_insert_split.
    - intros [k v] Hk%(ranges_elem _ _ _ _ _ H1). simpl. lia.
    - intros [k v] Hk%(ranges_elem _ _ _ _ _ H2). simpl. lia. }
  destruct El as [-> ->]. pose proof (ranges_elem _ _ _ s' c Hr ltac:(set_solver)).
  split_and!; try lia.
  - by apply (in_ranges_take _ _ _ _ _ 0 _ _ Hr).
  - intros f Hf. exists s', c. split; [set_solver|lia].
  - intros f. by apply (in_ranges_take _ _ _ _ _ f _ _ Hr).
Qed.

Lemma allocate_from_none l n :
  allocate_from_free_ranges l n = None → ∀ e, e ∈ l → e.2 < n.
Proof.
  unfold allocate_from_free_ranges. destruct (list_find _ l) as [[i [s c]]|] eqn:Ef; [done|].
  intros _ e He. apply list_find_None in Ef. rewrite Forall_forall in Ef. specialize (Ef e He). simpl in Ef. lia.
Qed.

Lemma frame_address_ok a f :
  frames_ok a → 0 ≤ f ≤ total_frames a → frame_address a f = Some (base a + f * FRAME_SIZE).
Proof.
  intros [Hb He _ _] Hf. unfold frame_address, checked_mul, FRAME_SIZE in *.
  destruct (Z.leb_spec (f * 4096) u64_max); [|lia]. simpl. by rewrite checked_add_small by lia.
Qed.

Lemma zero_frame_range_ok a m s n :
  frames_ok a → 0 ≤ s → 0 < n → s + n ≤ total_frames a →
  zero_frame_range a m s n = Some (zero_frames m s n).
Proof.
  intros Hok Hs Hn Ht. unfold zero_frame_range. rewrite frame_address_ok by (done || lia). simpl.
  destruct Hok as [Hb He _ _]. unfold checked_mul, FRAME_SIZE in *.
  destruct (Z.leb_spec (n * 4096) u64_max); [done|lia].
Qed.

(** What an allocation of [n] frames at [s] does. *)
Definition takes (a a' : FrameAllocator) (m m' : frames) (s n : Z) : Prop :=
  frames_ok a' ∧ 0 ≤ s ∧ s + n ≤ total_frames a ∧
  (∀ f, live a' f ↔ live a f ∨ s ≤ f < s + n) ∧
  (∀ f, s ≤ f < s + n → ¬ live a f ∧ m' f = 0) ∧
  (∀ f, ¬ s ≤ f < s + n → m' f = m f).

Lemma zero_frames_spec m s n f :
  zero_frames m s n f = if decide (s ≤ f < s + n) then 0 else m f.
Proof.
  unfold zero_frames. destruct (decide _), (Z.leb_spec s f), (Z.ltb_spec f (s + n)); simpl; done || lia.
Qed.

Lemma takes_range a l s n m :
  frames_ok a → 0 < n → allocate_from_free_ranges (free_ranges a) n = Some (l, s) →
  takes a (set_free_ranges a l) m (zero_frames m s n) s n.
Proof.
  intros [Hb He Hnx Hr] Hn E. destruct (allocate_from_some _ _ _ _ _ _ Hr Hn E) as (? & ? & Hr' & Hin & Hl).
  assert (Hz := λ f, zero_frames_spec m s n f).
  split_and!; try done; try lia; unfold live; simpl.
  - intros f. rewrite Hl. destruct (decide (s ≤ f < s + n)); [|tauto].
    specialize (Hin f ltac:(done)). split; [auto|]. intros _. split; [lia|tauto].
  - intros f Hf. rewrite Hz, decide_True by done. split; [|done]. intros [_ Hni]. by apply Hni, Hin.
  - intros f Hf. by rewrite Hz, decide_False by done.
Qed.

Lemma takes_tail a n m :
  frames_ok a → 0 < n → next_frame a + n ≤ total_frames a →
  takes a (set_next_frame a (next_frame a + n)) m (zero_frames m (next_frame a) n) (next_frame a) n.
Proof.
  intros [Hb He Hnx Hr] Hn Ht. pose proof (ranges_le _ _ _ Hr) as Hlo.
  assert (Hz := λ f, zero_frames_spec m (next_frame a) n f).
  assert (Hin : ∀ f, in_ranges (free_ranges a) f → f < next_frame a)
    by (intros f Hi; apply (in_ranges_bound _ _ _ _ Hr) in Hi; lia).
  split_and!; try done; try lia; unfold live; simpl.
  - split; simpl; try done; [lia|]. eapply ranges_weaken; [done|lia|lia].
  - intros f. specialize (Hin f). split; [|intros [?|?]; naive_solver lia].
    intros [? ?]. destruct (decide (f < next_frame a)); [left|right]; split; done || lia.
  - intros f Hf. rewrite Hz, decide_True by done. split; [lia|done].
  - intros f Hf. by rewrite Hz, decide_False by done.
Qed.

Lemma allocate_spec a m count a' m' r :
  frames_ok a → 0 < count → allocate a m count = (a', m', r) →
  match r with
  | Some addr => ∃ s, addr = base a + s * FRAME_SIZE ∧ takes a a' m m' s count
  | None => a' = a ∧ m' = m ∧ (∀ e, e ∈ free_ranges a → e.2 < count) ∧
      total_frames a < next_frame a + count
  end.
Proof.
  intros Hok Hn E. pose proof Hok as [Hb He Hnx Hr]. pose proof (ranges_le _ _ _ Hr) as Hlo.
  unfold allocate in E. destruct (Z.eqb_spec (base a) 0), (Z.eqb_spec count 0); try lia. simpl in E.
  destruct (allocate_from_free_ranges (free_ranges a) count) as [[l s]|] eqn:Ef.
  - pose proof (takes_range a l s count m Hok Hn Ef) as Ht. pose proof Ht as (Hok' & ? & ? & _).
    rewrite (frame_address_ok _ s Hok'), zero_frame_range_ok in E by (done || simpl; lia).
    simplify_eq. eauto.
  - unfold checked_add in E. destruct (Z.leb_spec (next_frame a + count) u64_max).
    2:{ simplify_eq. split_and!; try done; [by apply allocate_from_none|]. unfold FRAME_SIZE, u64_max in *. lia. }
    destruct (Z.ltb_spec (total_frames a) (next_frame a + count)).
    { simplify_eq. split_and!; try done. by apply allocate_from_none. }
    pose proof (takes_tail a count m Hok Hn ltac:(lia)) as Ht. pose proof Ht as (Hok' & ? & ? & _).
    rewrite (frame_address_ok _ _ Hok), zero_frame_range_ok in E by (done || simpl; lia).
    simplify_eq. eauto.
Qed.


(** ** Giving frames back *)

Lemma ranges_prefix lo l1 l2 hi x :
  ranges_ok lo (l1 ++ l2) hi → lo ≤ x → (∀ e, e ∈ l1 → e.1 + e.2 ≤ x) → ranges_ok lo l1 x.
Proof.
  revert lo. induction l1 as [|[s c] l1 IH]; intros lo Hr Hlo Hx; simpl in *; [done|].
  destruct Hr as (? & ? & Hr). split_and!; [done..|]. apply IH; [done| |set_solver].
  apply (Hx (s, c)). set_solver.
Qed.

Lemma ranges_suffix lo l1 l2 hi y :
  ranges_ok lo (l1 ++ l2) hi → y ≤ hi → (∀ e, e ∈ l2 → y < e.1) → ranges_ok y l2 hi.
Proof.
  intros Hr Hy Hx. destruct l2 as [|[s c] l2]; [done|]. apply ranges_app in Hr as (_ & Hc & Hr).
  simpl. split_and!; [|done|done]. apply (Hx (s, c)). set_solver.
Qed.

Lemma merge_next_stop fuel l1 l2 ns nc :
  (∀ e, e ∈ l1 → e.1 < ns + nc) → (∀ e, e ∈ l2 → ns + nc < e.1) →
  merge_next fuel (l1 ++ l2) ns nc = (l1 ++ l2, Some (ns, nc)).
Proof.
  intros H1 H2. assert (E : bt_from (ns + nc) (l1 ++ l2) = head l2).
  { apply bt_from_split; [done|]. intros e He%H2. lia. }
  destruct fuel; simpl; rewrite E; destruct l2 as [|[k v] l2]; try done; simpl;
    specialize (H2 (k, v) ltac:(set_solver)); simpl in H2; by destruct (Z.ltb_spec (ns + nc) k); [|lia].
Qed.

(** Joining [(ns, nc)] to the ranges around it, with a range that starts where
    it ends merged. *)
Lemma merge_next_spec lo l1 l2 hi ns nc :
  ranges_ok lo (l1 ++ l2) hi → 0 < nc → lo < ns → ns + nc ≤ hi →
  (∀ e, e ∈ l1 → e.1 + e.2 < ns) → (∀ e, e ∈ l2 → ns + nc ≤ e.1) →
  ∃ l' c', merge_next (length (l1 ++ l2)) (l1 ++ l2) ns nc = (l', Some (ns, c')) ∧
    ranges_ok lo (bt_insert ns c' l') hi ∧
    ∀ f, in_ranges (bt_insert ns c' l') f ↔ in_ranges (l1 ++ l2) f ∨ ns ≤ f < ns + nc.
Proof.
  intros Hr Hnc Hlo Hhi H1 H2.
  assert (H1' : ∀ e, e ∈ l1 → e.1 < ns ∧ e.1 < ns + nc).
  { intros [k v] He. pose proof (H1 _ He). pose proof (ranges_elem _ _ _ k v Hr ltac:(set_solver)). simpl in *. lia. }
  assert (Hp : ranges_ok lo l1 (ns - 1)).
  { apply (ranges_prefix _ _ _ _ _ Hr); [lia|]. intros e He%H1. lia. }
  assert (Hd : (∃ v l2', l2 = (ns + nc, v) :: l2') ∨ ¬ ∃ v l2', l2 = (ns + nc, v) :: l2').
  { destruct l2 as [|[k v] l2]; [right; naive_solver|].
    destruct (decide (k = ns + nc)) as [->|]; [left; eauto|right; naive_solver]. }
  destruct Hd as [(v & l2' & ->)|Hno].
  - apply ranges_app in Hr as (_ & Hv & H2'). rewrite length_app. simpl. rewrite Nat.add_succ_r. simpl.
    rewrite bt_from_split; [|naive_solver|done]. simpl.
    destruct (Z.ltb_spec (ns + nc) (ns + nc)); [lia|].
    rewrite (bt_remove_split lo l1 (ns + nc) v l2' hi).
    2:{ apply ranges_app. split_and!; [|done|done]. eapply ranges_weaken; [exact Hp|lia|lia]. }
    assert (H2'' : ∀ e, e ∈ l2' → ns + (nc + v) < e.1).
    { intros [k w] He%(ranges_elem _ _ _ _ _ H2'). simpl. lia. }
    rewrite merge_next_stop; [|intros e He%H1'; lia|done].
    eexists _, _. split; [done|]. rewrite bt_insert_split by naive_solver lia.
    split.
    + apply ranges_app. split_and!; [done|lia|]. by replace (ns + (nc + v)) with (ns + nc + v) by lia.
    + intros f. rewrite !in_ranges_app, !in_ranges_cons. intuition lia.
  - assert (H2' : ∀ e, e ∈ l2 → ns + nc < e.1).
    { intros e He. destruct l2 as [|[k v] l2]; [by apply elem_of_nil in He|].
      pose proof (H2 (k, v) ltac:(set_solver)) as Hk. simpl in Hk.
      assert (ns + nc ≠ k) by (intros <-; apply Hno; eauto).
      apply elem_of_cons in He as [->|He]; simpl; [lia|]. apply ranges_app in Hr as (_ & ? & Hr).
      destruct e as [k' v']. apply (ranges_elem _ _ _ _ _ Hr) in He. simpl. lia. }
    rewrite merge_next_stop; [|intros e He%H1'; lia|done].
    eexists _, _. split; [done|]. rewrite bt_insert_split; [|naive_solver|intros e He%H2'; lia]. split.
    + apply ranges_app. split_and!; [done|done|]. by eapply ranges_suffix.
    + intros f. rewrite !in_ranges_app, !in_ranges_cons. intuition lia.
Qed.

Lemma insert_free_range_spec lo l hi s n :
  ranges_ok lo l hi → 0 < n → lo < s → s + n ≤ hi → (∀ f, s ≤ f < s + n → ¬ in_ranges l f) →
  ∃ l', insert_free_range l s n = (l', true) ∧ ranges_ok lo l' hi ∧
    ∀ f, in_ranges l' f ↔ in_ranges l f ∨ s ≤ f < s + n.
Proof.
  intros Hr Hn Hlo Hhi Hfree. destruct (ranges_split _ _ _ s Hr) as (l1 & l2 & -> & H1 & H2).
  assert (H1' : ∀ e, e ∈ l1 → e.1 + e.2 ≤ s).
  { intros [k v] He. pose proof (H1 _ He). simpl in *. destruct (Z.le_gt_cases (k + v) s); [done|].
    exfalso. apply (Hfree s); [lia|]. exists k, v. split; [set_solver|lia]. }
  assert (H2' : ∀ e, e ∈ l2 → s + n ≤ e.1).
  { intros [k v] He. pose proof (H2 _ He). simpl in *. destruct (Z.le_gt_cases (s + n) k); [done|].
    exfalso. apply (Hfree k); [lia|]. exists k, v. split; [set_solver|].
    pose proof (ranges_elem _ _ _ k v Hr ltac:(set_solver)). lia. }
  unfold insert_free_range. destruct (Z.eqb_spec n 0); [lia|]. rewrite bt_before_split by done.
  destruct (last l1) as [[ps pc]|] eqn:El.
  - apply last_Some in El as [l1' ->]. pose proof (H1' (ps, pc) ltac:(set_solver)) as Hpe. simpl in Hpe.
    rewrite <- app_assoc in Hr |- *. simpl in Hr |- *.
    pose proof (ranges_elem _ _ _ ps pc Hr ltac:(set_solver)) as (? & ? & _).
    pose proof Hr as (Hpre & _ & Hsuf)%ranges_app.
    assert (Hlt : ∀ e, e ∈ l1' → e.1 + e.2 < ps).
    { intros [k v] He%(ranges_elem _ _ _ _ _ Hpre). simpl. lia. }
    destruct (Z.ltb_spec s (ps + pc)); [lia|]. destruct (Z.eqb_spec s (ps + pc)) as [->|Hne].
    + rewrite (bt_remove_split _ _ _ _ _ _ Hr).
      destruct (merge_next_spec lo l1' l2 hi ps (n + pc)) as (l' & c' & E & Hok & Hl); try done; try lia.
      { destruct (in_ranges_take l1' ps pc l2 pc 0 _ _ Hr ltac:(lia)) as [Hx _].
        by rewrite Z.ltb_irrefl in Hx. }
      { intros e He%H2'. lia. }
      rewrite E. eexists. split; [done|]. split; [done|]. intros f. rewrite Hl, !in_ranges_app, in_ranges_cons.
      intuition lia.
    + assert (Hl : l1' ++ (ps, pc) :: l2 = (l1' ++ [(ps, pc)]) ++ l2) by (by rewrite <- app_assoc).
      rewrite Hl in *.
      destruct (merge_next_spec lo (l1' ++ [(ps, pc)]) l2 hi s n) as (l' & c' & E & Hok & Hin); try done.
      { intros e [He|He]%elem_of_app; [specialize (Hlt e He); lia|].
        apply list_elem_of_singleton in He as ->. simpl. lia. }
      rewrite E. eauto.
  - apply last_None in El as ->.
    destruct (merge_next_spec lo [] l2 hi s n) as (l' & c' & E & Hok & Hin); try done; [set_solver|].
    rewrite E. eauto.
Qed.

Lemma rewind_spec fuel a :
  frames_ok a → frames_ok (rewind fuel a) ∧ ∀ f, live (rewind fuel a) f ↔ live a f.
Proof.
  revert a. induction fuel as [|fuel IH]; intros a Hok; simpl;
    destruct (last (free_ranges a)) as [[s c]|] eqn:El; try done;
    destruct (Z.eqb_spec (s + c) (next_frame a)) as [E|]; try done.
  apply last_Some in El as [l El]. pose proof Hok as [? ? ? Hr]. rewrite El in Hr |- *.
  rewrite (bt_remove_split _ _ _ _ _ _ Hr), app_nil_r. pose proof (ranges_elem _ _ _ s c Hr ltac:(set_solver)).
  pose proof Hr as (H1 & ? & _)%ranges_app.
  destruct (IH (set_free_ranges (set_next_frame a s) l)) as [Hok' Hl].
  { split; simpl; try done; [lia|]. eapply ranges_weaken; [done|lia|lia]. }
  split; [done|]. intros f. rewrite Hl. unfold live. simpl. rewrite El, in_ranges_app, in_ranges_cons.
  pose proof (in_ranges_nil f). assert (in_ranges l f → f < s - 1).
  { intros Hi. apply (in_ranges_bound _ _ _ _ H1) in Hi. lia. }
  intuition lia.
Qed.

Lemma deallocate_spec a s count :
  frames_ok a → 0 < count → 0 ≤ s → (∀ f, s ≤ f < s + count → live a f) →
  ∃ a', deallocate a (base a + s * FRAME_SIZE) count = (a', true) ∧ frames_ok a' ∧
    ∀ f, live a' f ↔ live a f ∧ ¬ s ≤ f < s + count.
Proof.
  intros Hok Hn Hs Hlive. pose proof Hok as [Hb He Hnx Hr].
  destruct (Hlive s ltac:(lia)) as [? _]. destruct (Hlive (s + count - 1) ltac:(lia)) as [? _].
  unfold FRAME_SIZE in *. unfold deallocate, FRAME_SIZE.
  destruct (Z.eqb_spec (base a) 0), (Z.eqb_spec (base a + s * 4096) 0), (Z.eqb_spec count 0); try lia. simpl.
  destruct (Z.ltb_spec (base a + s * 4096) (base a)); [lia|].
  replace (base a + s * 4096 - base a) with (s * 4096) by lia.
  rewrite (proj2 (is_multiple_of_true _ 4096)) by (apply Z.mod_mul; lia). simpl.
  rewrite Z.div_mul, checked_add_small by lia.
  destruct (Z.ltb_spec (total_frames a) (s + count)), (Z.ltb_spec (next_frame a) (s + count)); try lia. simpl.
  destruct (insert_free_range_spec (-1) (free_ranges a) (next_frame a) s count) as (l' & E & Hr' & Hin);
    try done; try lia. { intros f Hf. by apply Hlive. }
  rewrite E. simpl. unfold rewind_tail_high_water_mark. eexists. split; [done|].
  destruct (rewind_spec (length l') (set_free_ranges a l')) as [Hok' Hl]; [by split|]. split; [done|].
  intros f. rewrite Hl. unfold live. simpl. rewrite Hin. tauto.
Qed.

(** Freeing a range of live frames succeeds, makes exactly those frames
    free, and keeps the free ranges sorted, disjoint and coalesced. *)
Theorem frame_deallocate_correct a s count :
  frames_ok a → 0 < count → 0 ≤ s → (∀ f, s ≤ f < s + count → live a f) →
  ∃ a', deallocate a (base a + s * FRAME_SIZE) count = (a', true) ∧ frames_ok a' ∧
    ∀ f, live a' f ↔ live a f ∧ ¬ s ≤ f < s + count.
Proof. exact (deallocate_spec a s count). Qed.

(** The first range of the map serves a request it can hold. *)
Lemma allocate_head a m s c l n :
  0 < base a → base a + total_frames a * FRAME_SIZE ≤ u64_max → free_ranges a = (s, c) :: l →
  0 < n ≤ c → 0 ≤ s → s + n ≤ total_frames a →
  allocate a m n = (set_free_ranges a (let l' := bt_remove s ((s, c) :: l) in
      if n <? c then bt_insert (s + n) (c - n) l' else l'),
    zero_frames m s n, Some (base a + s * FRAME_SIZE)).
Proof.
  intros Hb He El Hn Hs Ht. unfold allocate. destruct (Z.eqb_spec (base a) 0), (Z.eqb_spec n 0); try lia.
  simpl. rewrite El. unfold allocate_from_free_ranges. cbn [list_find].
  rewrite decide_True by (simpl; lia). cbn [mbind option_bind].
  unfold zero_frame_range, frame_address, checked_mul, FRAME_SIZE in *. cbn [base set_free_ranges].
  destruct (Z.leb_spec (s * 4096) u64_max), (Z.leb_spec (n * 4096) u64_max); try lia.
  cbn [mbind option_bind]. by rewrite checked_add_small by lia.
Qed.

(** Freeing a live frame together with the free frame after it is
    accepted although the ranges overlap: with a single free range from [s]
    on, freeing two frames from [s - 1] on succeeds, and the next two
    allocations both get frame [s]. *)
Theorem overlapping_free_accepted a m s c :
  frames_ok a → free_ranges a = [(s, c)] → 1 ≤ s → s + c < next_frame a →
  ∃ a1 a2 m2 a3 m3,
    deallocate a (base a + (s - 1) * FRAME_SIZE) 2 = (a1, true) ∧
    allocate a1 m 2 = (a2, m2, Some (base a + (s - 1) * FRAME_SIZE)) ∧
    allocate a2 m2 1 = (a3, m3, Some (base a + s * FRAME_SIZE)).
Proof.
  intros Hok El Hs Ht. pose proof Hok as [Hb He Hnx Hr]. rewrite El in Hr. simpl in Hr.
  destruct Hr as (_ & Hc & _).
  exists (set_free_ranges a [(s - 1, 2); (s, c)]). eexists _, _, _, _. split; [|split].
  - unfold FRAME_SIZE in *. unfold deallocate, FRAME_SIZE.
    destruct (Z.eqb_spec (base a) 0), (Z.eqb_spec (base a + (s - 1) * 4096) 0); try lia.
    simpl. destruct (Z.ltb_spec (base a + (s - 1) * 4096) (base a)); [lia|].
    replace (base a + (s - 1) * 4096 - base a) with ((s - 1) * 4096) by lia.
    rewrite (proj2 (is_multiple_of_true _ 4096)) by (apply Z.mod_mul; lia). simpl.
    rewrite Z.div_mul, checked_add_small by lia.
    destruct (Z.ltb_spec (total_frames a) (s - 1 + 2)), (Z.ltb_spec (next_frame a) (s - 1 + 2)); try lia. simpl.
    unfold insert_free_range. rewrite El. simpl.
    rewrite (bt_before_split _ [] [(s, c)]); [|set_solver|intros e ->%list_elem_of_singleton; simpl; lia]. simpl.
    rewrite (bt_from_split _ [(s, c)] []); [|intros e ->%list_elem_of_singleton; simpl; lia|set_solver]. simpl.
    destruct (Z.ltb_spec (s - 1) s); [|lia].
    unfold rewind_tail_high_water_mark. simpl. destruct (Z.eqb_spec (s + c) (next_frame a)); [lia|done].
  - apply (allocate_head (set_free_ranges a [(s - 1, 2); (s, c)]) m (s - 1) 2 [(s, c)] 2); done || (simpl; lia).
  - rewrite Z.ltb_irrefl. apply (allocate_head (set_free_ranges (set_free_ranges a _) _) _ s c [] 1);
      simpl; try done; try lia.
    unfold bt_remove. rewrite filter_cons_False by (simpl; lia).
    by rewrite filter_cons_True by (simpl; lia).
Qed.

(** ** Compaction *)

(** The frames below [f] that the bitmap [b] says are live, in order. *)
Definition live_list (b : bits) (f : Z) : list Z := filter (λ x, b x = false) (seqZ 0 f).

Lemma live_list_succ b f :
  0 ≤ f → live_list b (f + 1) = live_list b f ++ (if b f then [] else [f]).
Proof.
  intros Hf. unfold live_list. rewrite seqZ_app, filter_app by lia. f_equal.
  replace (seqZ (0 + f) 1) with [f] by (unfold seqZ; simpl; f_equal; lia). destruct (b f) eqn:E.
  - by rewrite filter_cons_False by congruence.
  - by rewrite filter_cons_True by congruence.
Qed.

(** How far compaction got: the live frames below [f] were moved, in order, to
    the bottom; what lies between them and [f] is free; the rest is as it was. *)
Record compacted (b0 : bits) (m0 : frames) (f : Z) (b : bits) (m : frames) : Prop := {
  cp_live i x : live_list b0 f !! i = Some x → b (Z.of_nat i) = false ∧ m (Z.of_nat i) = m0 x;
  cp_free x : Z.of_nat (length (live_list b0 f)) ≤ x < f → b x = true;
  cp_rest x : f ≤ x → b x = b0 x ∧ m x = m0 x;
}.

Lemma length_live_list b f : 0 ≤ f → 0 ≤ Z.of_nat (length (live_list b f)) ≤ f.
Proof.
  intros Hf. unfold live_list. pose proof (length_filter (λ x, b x = false) (seqZ 0 f)) as Hl.
  rewrite length_seqZ in Hl. lia.
Qed.

Lemma compacted_step b0 m0 f b m :
  0 ≤ f → compacted b0 m0 f b m →
  let fill := Z.of_nat (length (live_list b0 f)) in
  (b f = true → compacted b0 m0 (f + 1) b m) ∧
  (b f = false → fill < f →
     compacted b0 m0 (f + 1) (set_bit (set_bit b fill false) f true) (copy_frame m f fill)) ∧
  (b f = false → fill = f → compacted b0 m0 (f + 1) b m).
Proof.
  intros Hf Hc fill. pose proof Hc as [Hl Hfr Hr]. destruct (Hr f ltac:(lia)) as [Hbf Hmf].
  pose proof (length_live_list b0 f Hf). rewrite Hbf.
  assert (Hi : ∀ i x, live_list b0 f !! i = Some x → Z.of_nat i < fill).
  { intros i x Hx. apply lookup_lt_Some in Hx. unfold fill. lia. }
  split_and!.
  - intros E. split; rewrite ?live_list_succ, ?E, ?app_nil_r by done; [done| |].
    + intros x Hx. destruct (decide (x = f)) as [->|]; [congruence|]. apply Hfr. lia.
    + intros x Hx. apply Hr. lia.
  - intros E Hlt. split; rewrite ?live_list_succ, ?E by done.
    + intros i x Hx. unfold set_bit, copy_frame.
      apply lookup_app_Some in Hx as [Hx|[Hge Hx]].
      * pose proof (Hi _ _ Hx). destruct (Hl _ _ Hx).
        destruct (Z.eqb_spec (Z.of_nat i) f), (Z.eqb_spec (Z.of_nat i) fill); try lia. done.
      * apply list_lookup_singleton_Some in Hx as [Hz <-].
        assert (Z.of_nat i = fill) as -> by (unfold fill; lia).
        destruct (Z.eqb_spec fill f); [lia|]. by rewrite Z.eqb_refl.
    + rewrite length_app. simpl. intros x Hx. unfold set_bit.
      destruct (Z.eqb_spec x f); [done|]. destruct (Z.eqb_spec x fill); [unfold fill in *; lia|]. apply Hfr. lia.
    + intros x Hx. unfold set_bit, copy_frame.
      destruct (Z.eqb_spec x f), (Z.eqb_spec x fill); try lia. apply Hr. lia.
  - intros E Heq. split; rewrite ?live_list_succ, ?E by done.
    + intros i x Hx. apply lookup_app_Some in Hx as [Hx|[Hge Hx]]; [by apply Hl|].
      apply list_lookup_singleton_Some in Hx as [Hz <-].
      assert (Z.of_nat i = f) as -> by (unfold fill in *; lia). rewrite Hbf, Hmf. done.
    + rewrite length_app. simpl. intros x Hx. unfold fill in *. lia.
    + intros x Hx. apply Hr. lia.
Qed.

Lemma compact_loop_spec k a fixup b0 m0 b m moves f :
  frames_ok a → 0 ≤ f → f + Z.of_nat k ≤ total_frames a → compacted b0 m0 f b m →
  ∃ f' b' m' moves', compact_loop k a fixup b m moves (Z.of_nat (length (live_list b0 f))) f = (b', m', moves') ∧
    f ≤ f' ≤ f + Z.of_nat k ∧ compacted b0 m0 f' b' m' ∧
    ((∀ h x y, fixup h x y = true) → f' = f + Z.of_nat k).
Proof.
  intros Hok. revert b m moves f. induction k as [|k IH]; intros b m moves f Hf Ht Hc.
  - exists f, b, m, moves. split; [done|]. split; [lia|]. split; [done|]. intros _. lia.
  - destruct (compacted_step b0 m0 f b m Hf Hc) as (S1 & S2 & S3).
    pose proof (length_live_list b0 f Hf) as Hlen.
    assert (Hnext : ∀ b1 m1 moves1, compacted b0 m0 (f + 1) b1 m1 → ∃ f' b' m' moves',
      compact_loop k a fixup b1 m1 moves1 (Z.of_nat (length (live_list b0 (f + 1)))) (f + 1) = (b', m', moves') ∧
      f ≤ f' ≤ f + Z.of_nat (S k) ∧ compacted b0 m0 f' b' m' ∧
      ((∀ h x y, fixup h x y = true) → f' = f + Z.of_nat (S k))).
    { intros b1 m1 moves1 Hc1. destruct (IH b1 m1 moves1 (f + 1)) as (f' & b' & m' & moves' & E & ? & ? & Hall);
        [lia|lia|done|]. exists f', b', m', moves'. split; [done|]. split; [lia|]. split; [done|].
      intros Hx. specialize (Hall Hx). lia. }
    cbn [compact_loop]. destruct (b f) eqn:Ebf.
    + specialize (Hnext b m moves (S1 eq_refl)). rewrite live_list_succ in Hnext by done.
      destruct (cp_rest _ _ _ _ _ Hc f ltac:(lia)) as [Hb0 _]. rewrite <- Hb0, Ebf, app_nil_r in Hnext. done.
    + destruct (cp_rest _ _ _ _ _ Hc f ltac:(lia)) as [Hb0 _].
      assert (Hl : Z.of_nat (length (live_list b0 (f + 1))) = Z.of_nat (length (live_list b0 f)) + 1).
      { rewrite live_list_succ, <- Hb0, Ebf, length_app by done. simpl. lia. }
      destruct (Z.ltb_spec (Z.of_nat (length (live_list b0 f))) f).
      * rewrite !frame_address_ok by (done || lia).
        destruct (fixup moves _ _) eqn:Efx; simpl.
        -- rewrite <- Hl. by apply Hnext, S2.
        -- exists f, b, m, moves. split; [done|]. split; [lia|]. split; [done|]. intros Hx. by rewrite Hx in Efx.
      * rewrite <- Hl. apply Hnext, S3; [done|lia].
Qed.

(** Ending a run of free frames. *)
Lemma flush_spec i run acc :
  let bound := match run with Some s => s | None => i end in
  ranges_ok (-1) acc (bound - 1) → 0 ≤ bound ≤ i → (∀ s, run = Some s → s < i) →
  let acc' := match run with Some s => bt_insert s (i - s) acc | None => acc end in
  ranges_ok (-1) acc' i ∧ ∀ f, in_ranges acc' f ↔ in_ranges acc f ∨ bound ≤ f < i.
Proof.
  intros bound Hr Hb Hrun. destruct run as [s|]; simpl; unfold bound in *.
  - specialize (Hrun s eq_refl).
    assert (E : bt_insert s (i - s) acc = acc ++ [(s, i - s)]).
    { rewrite <- (app_nil_r acc) at 1. apply bt_insert_split; [|set_solver].
      intros [k' v'] He%(ranges_elem _ _ _ _ _ Hr). simpl. lia. }
    rewrite E. split.
    + apply ranges_app. simpl. split_and!; [done|lia|lia].
    + intros f. rewrite in_ranges_app, in_ranges_cons. pose proof (in_ranges_nil f). intuition lia.
  - split; [eapply ranges_weaken; [done|lia|lia]|]. intros f. intuition lia.
Qed.

(** The rebuilt free list has exactly the frames of the bitmap. *)
Lemma rebuild_spec k b i run acc :
  let bound := match run with Some s => s | None => i end in
  ranges_ok (-1) acc (bound - 1) → 0 ≤ bound ≤ i → (∀ s, run = Some s → s < i) →
  ranges_ok (-1) (rebuild k b i run acc) (i + Z.of_nat k) ∧
  ∀ f, in_ranges (rebuild k b i run acc) f ↔
    in_ranges acc f ∨ bound ≤ f < i ∨ (i ≤ f < i + Z.of_nat k ∧ b f = true).
Proof.
  revert i run acc. induction k as [|k IH]; intros i run acc bound Hr Hb Hrun;
    destruct (flush_spec i run acc Hr Hb Hrun) as [Hfo Hfi].
  - simpl. rewrite Z.add_0_r. split; [done|]. intros f. rewrite Hfi. fold bound. intuition lia.
  - replace (i + Z.of_nat (S k)) with (i + 1 + Z.of_nat k) by lia. simpl. destruct (b i) eqn:Ebi.
    + destruct (IH (i + 1) (match run with None => Some i | r => r end) acc) as [Hok Hin].
      * destruct run; unfold bound in *; done.
      * destruct run; unfold bound in *; lia.
      * intros s Hs. destruct run as [s'|]; simplify_eq; [|lia]. specialize (Hrun _ eq_refl). lia.
      * split; [done|]. intros f. rewrite Hin.
        destruct (decide (f = i)) as [->|]; destruct run; unfold bound in *; intuition lia.
    + destruct (IH (i + 1) None (match run with Some s => bt_insert s (i - s) acc | None => acc end)) as [Hok Hin].
      * eapply ranges_weaken; [exact Hfo|lia|lia].
      * lia.
      * done.
      * split; [done|]. intros f. rewrite Hin, Hfi. fold bound.
        destruct (decide (f = i)) as [->|]; [rewrite Ebi|]; intuition lia.
Qed.

Lemma free_bits_spec l f : free_bits l f = true ↔ in_ranges l f.
Proof.
  unfold free_bits. enough (H : ∀ b, foldl mark_free b l f = true ↔ b f = true ∨ in_ranges l f).
  { rewrite H. naive_solver. }
  induction l as [|[s c] l IH]; intros b; simpl.
  - pose proof (in_ranges_nil f). tauto.
  - rewrite IH, in_ranges_cons. unfold mark_free. simpl.
    destruct (Z.leb_spec s f), (Z.ltb_spec f (s + c)); simpl; intuition lia.
Qed.

(** Compaction moves the live frames below some frame [f], in order and
    with their contents, to the bottom of the pool, frees what lies between
    them and [f], and leaves everything from [f] on as it was; the free ranges
    stay well formed.  If no frame is refused, [f] is the high-water mark: all
    live frames end up at the bottom. *)
Theorem compact_correct a m fixup a' m' moved :
  frames_ok a → compact a m fixup = (a', m', moved) →
  ∃ f, 0 ≤ f ≤ next_frame a ∧ frames_ok a' ∧ next_frame a' = next_frame a ∧
    let L := live_list (free_bits (free_ranges a)) f in
    (∀ i x, L !! i = Some x → live a x ∧ live a' (Z.of_nat i) ∧ m' (Z.of_nat i) = m x) ∧
    (∀ x, live a x → x < f → x ∈ L) ∧
    (∀ x, Z.of_nat (length L) ≤ x < f → ¬ live a' x) ∧
    (∀ x, f ≤ x → (live a' x ↔ live a x) ∧ m' x = m x) ∧
    ((∀ h x y, fixup h x y = true) → f = next_frame a).
Proof.
  intros Hok E. pose proof Hok as [Hb He Hnx Hr]. unfold compact in E.
  set (b0 := free_bits (free_ranges a)) in *.
  destruct (compact_loop_spec (Z.to_nat (next_frame a)) a fixup b0 m b0 m [] 0 Hok)
    as (f & b' & m1 & moves & E1 & Hf & Hc & Hall); [lia|lia| |].
  { split; [|lia|done]. intros i x Hx. unfold live_list in Hx. by rewrite seqZ_nil in Hx by lia. }
  change (length (live_list b0 0)) with 0%nat in E1. change (Z.of_nat 0) with 0 in E1.
  rewrite E1 in E. injection E as <- <- <-.
  destruct (rebuild_spec (Z.to_nat (next_frame a)) b' 0 None []) as [Hok' Hin]; [done|lia|done|].
  rewrite Z2Nat.id, Z.add_0_l in * by lia.
  assert (Hlive' : ∀ x, live (set_free_ranges a (rebuild (Z.to_nat (next_frame a)) b' 0 None [])) x ↔
    0 ≤ x < next_frame a ∧ b' x = false).
  { intros x. unfold live. simpl. rewrite Hin. pose proof (in_ranges_nil x). destruct (b' x); intuition (lia || done). }
  assert (Hlive : ∀ x, live a x ↔ 0 ≤ x < next_frame a ∧ b0 x = false).
  { intros x. unfold live, b0. rewrite <- free_bits_spec. destruct (free_bits _ x); intuition done. }
  assert (HL : ∀ x, x ∈ live_list b0 f ↔ b0 x = false ∧ 0 ≤ x < f).
  { intros x. unfold live_list. rewrite list_elem_of_filter, elem_of_seqZ. intuition lia. }
  pose proof (length_live_list b0 f ltac:(lia)) as Hlen. destruct Hc as [C1 C2 C3].
  exists f. split; [lia|]. split; [by split|]. split; [done|]. cbv zeta. split_and!.
  - intros i x Hx. destruct (C1 i x Hx). apply lookup_lt_Some in Hx as Hi.
    apply list_elem_of_lookup_2, HL in Hx. split; [|split; [|done]].
    + apply Hlive. split; [lia|tauto].
    + apply Hlive'. split; [lia|done].
  - intros x Hx%Hlive Hlt. apply HL. split; [tauto|lia].
  - intros x Hx Hl%Hlive'. rewrite C2 in Hl by lia. naive_solver.
  - intros x Hx. destruct (C3 x Hx) as [Hbx Hmx]. rewrite Hlive, Hlive', Hbx. done.
  - intros Hx. by apply Hall.
Qed.

(** ** Examples *)

(** Eight frames, four handed out so far, the second one freed. *)
Definition eight : FrameAllocator := mkFrameAllocator 65536 8 4 [(1, 1)].
Definition sevens : frames := λ _, 7.

Lemma eight_ok : frames_ok eight.
Proof. split; simpl; unfold FRAME_SIZE, u64_max; lia. Qed.


Lemma frame_deallocate_correct_witness :
  ∃ a', deallocate eight (65536 + 2 * 4096) 1 = (a', true) ∧ frames_ok a'.
Proof.
  assert (Hlive : ∀ f, 2 ≤ f < 2 + 1 → live eight f).
  { intros f Hf. split; [simpl; lia|]. intros (s & c & Hi & Hr).
    apply list_elem_of_singleton in Hi as [= -> ->]. lia. }
  destruct (frame_deallocate_correct eight 2 1 eight_ok ltac:(lia) ltac:(lia) Hlive) as (a' & E & Hok & _).
  exists a'. split; [exact E|exact Hok].
Defined.

Lemma overlapping_free_accepted_witness :
  ∃ a1 a2 m2 a3 m3, deallocate eight 65536 2 = (a1, true) ∧
    allocate a1 sevens 2 = (a2, m2, Some 65536) ∧ allocate a2 m2 1 = (a3, m3, Some 69632).
Proof.
  exact (overlapping_free_accepted eight sevens 1 1 eight_ok eq_refl ltac:(lia) ltac:(simpl; lia)).
Defined.

Lemma compact_correct_witness :
  ∃ a' m', compact eight sevens (λ _ _ _, true) = (a', m', 2) ∧ frames_ok a' ∧ ¬ live a' 3.
Proof.
  destruct (compact eight sevens (λ _ _ _, true)) as [[a' m'] moved] eqn:E.
  destruct (compact_correct eight sevens _ a' m' moved eight_ok E) as (f & Hf & Hok & _ & _ & _ & Hfree & _ & Hall).
  specialize (Hall ltac:(done)). rewrite Hall in Hfree.
  assert (Hm : moved = 2) by (vm_compute in E; injection E as _ _ <-; reflexivity). subst moved.
  exists a', m'. split; [reflexivity|]. split; [exact Hok|]. apply Hfree. vm_compute. split; congruence.
Defined.
