(* ===== verification/Thread.v ===== *)
(** * Threads and processes as the scheduler sees them

    The scheduling state of [Thread] (src/kernel/process/thread/types.rs,
    thread/lifecycle.rs) and of [Process] (process/lifecycle.rs, process/fork.rs),
    and the lifecycle transitions on it.  An [Arc<Thread>] is a pointer to a
    shared thread: it is modelled by the identity [(pid, tid)] of the thread,
    the identity the wait and ready queues compare, and the threads live in a
    store that every holder of a pointer sees. *)

From stdpp Require Import base tactics decidable numbers list functions.
From S2P Require Import Prelude.

(** ** Data *)

Inductive ThreadPriority := Idle | Normal | High | Realtime.
Inductive ThreadSchedPolicy := SchedDefault | SchedFifo | SchedRoundRobin.
Inductive ThreadState := Ready | Running | Waiting | Stopped | Terminated.
Inductive ThreadWaitOutcome := Pending | Completed | TimedOut.
Inductive ProcessState := PNew | PReady | PRunning | PWaiting | PTerminated.

#[export] Instance ThreadPriority_eq_dec : EqDecision ThreadPriority.
Proof. solve_decision. Defined.
#[export] Instance ThreadSchedPolicy_eq_dec : EqDecision ThreadSchedPolicy.
Proof. solve_decision. Defined.
#[export] Instance ThreadState_eq_dec : EqDecision ThreadState.
Proof. solve_decision. Defined.
#[export] Instance ThreadWaitOutcome_eq_dec : EqDecision ThreadWaitOutcome.
Proof. solve_decision. Defined.
#[export] Instance ProcessState_eq_dec : EqDecision ProcessState.
Proof. solve_decision. Defined.

Definition THREAD_PRIORITY_COUNT : nat := 4%nat.

(** [priority as usize] *)
Definition prio_index (p : ThreadPriority) : nat :=
  match p with Idle => 0 | Normal => 1 | High => 2 | Realtime => 3 end%nat.

(** [>] on [ThreadPriority] (derived [Ord]). *)
Definition prio_gt (p q : ThreadPriority) : bool := (prio_index q <? prio_index p)%nat.

(** [(pid, tid)], the [WaiterIdentity] of a thread. *)
Definition key := (Z * Z)%type.

Record Thread := mkThread {
  state : ThreadState;
  priority : ThreadPriority;
  sched_policy : ThreadSchedPolicy;
  cpu_affinity : Z;
  wake_deadline_enc : Z;        (* [wake_deadline]: 0, or the deadline plus one *)
  wait_outcome : ThreadWaitOutcome;
  stop_pending : bool;
  terminate_pending : bool;
  boosted : bool;
  waiting_ticks : Z;
  time_slice_remaining : Z;
}.

(** What [new_inner] builds. *)
Definition Thread_new : Thread :=
  mkThread Ready Normal SchedDefault 0 0 Completed false false false 0 0.

Record Process := mkProcess {
  p_state : ProcessState;
  p_threads : list Z;
}.

(** The wait queues of the system: a queue of a kernel object, and the two
    termination events a thread and a process carry. *)
Inductive queue_id := Obj (n : Z) | ThreadExit (k : key) | ProcessExit (pid : Z).
#[export] Instance queue_id_eq_dec : EqDecision queue_id.
Proof. solve_decision. Defined.

(** A [WaitTimeoutCleanupRef]: the queue a timed waiter is linked on. *)
Record TimedWaiter := mkTimedWaiter { tw_thread : key; tw_cleanup : option queue_id }.

Inductive EventMode := ManualReset | AutoReset.
#[export] Instance EventMode_eq_dec : EqDecision EventMode.
Proof. solve_decision. Defined.
Record EventState := mkEventState { mode : EventMode; signaled : bool }.

(** The counters of [SchedulerHotspotStats], a field each. *)
Inductive counter :=
| dispatch_count | block_count | timed_wait_registration_count | signal_wake_count
| timeout_wake_count | preempt_count | wake_refused_count | waiter_lost_count
| unplaced_process_count | dropped_ready_count | dropped_current_count
| termination_without_thread_count.
#[export] Instance counter_eq_dec : EqDecision counter.
Proof. solve_decision. Defined.

(** ** The scheduling state of one CPU

    [Scheduler] with the threads, processes and wait queues it reaches. *)
Record world := mkWorld {
  threads : key → Thread;
  procs : Z → Process;
  ready_queues : list (list key);
  waiting_queue : list TimedWaiter;
  current : option key;
  need_resched : bool;
  ticks : Z;
  hotspot : counter → Z;
  waiters : queue_id → list key;
  permits : queue_id → Z;
  events : queue_id → EventState;
}.

Definition set_threads (w : world) x : world :=
  mkWorld x (procs w) (ready_queues w) (waiting_queue w) (current w) (need_resched w) (ticks w)
    (hotspot w) (waiters w) (permits w) (events w).
Definition set_procs (w : world) x : world :=
  mkWorld (threads w) x (ready_queues w) (waiting_queue w) (current w) (need_resched w) (ticks w)
    (hotspot w) (waiters w) (permits w) (events w).
Definition set_ready_queues (w : world) x : world :=
  mkWorld (threads w) (procs w) x (waiting_queue w) (current w) (need_resched w) (ticks w)
    (hotspot w) (waiters w) (permits w) (events w).
Definition set_waiting_queue (w : world) x : world :=
  mkWorld (threads w) (procs w) (ready_queues w) x (current w) (need_resched w) (ticks w)
    (hotspot w) (waiters w) (permits w) (events w).
Definition set_current (w : world) x : world :=
  mkWorld (threads w) (procs w) (ready_queues w) (waiting_queue w) x (need_resched w) (ticks w)
    (hotspot w) (waiters w) (permits w) (events w).
Definition set_need_resched (w : world) x : world :=
  mkWorld (threads w) (procs w) (ready_queues w) (waiting_queue w) (current w) x (ticks w)
    (hotspot w) (waiters w) (permits w) (events w).
Definition set_ticks (w : world) x : world :=
  mkWorld (threads w) (procs w) (ready_queues w) (waiting_queue w) (current w) (need_resched w) x
    (hotspot w) (waiters w) (permits w) (events w).
Definition set_hotspot (w : world) x : world :=
  mkWorld (threads w) (procs w) (ready_queues w) (waiting_queue w) (current w) (need_resched w) (ticks w)
    x (waiters w) (permits w) (events w).
Definition set_waiters (w : world) x : world :=
  mkWorld (threads w) (procs w) (ready_queues w) (waiting_queue w) (current w) (need_resched w) (ticks w)
    (hotspot w) x (permits w) (events w).
Definition set_permits (w : world) x : world :=
  mkWorld (threads w) (procs w) (ready_queues w) (waiting_queue w) (current w) (need_resched w) (ticks w)
    (hotspot w) (waiters w) x (events w).
Definition set_events (w : world) x : world :=
  mkWorld (threads w) (procs w) (ready_queues w) (waiting_queue w) (current w) (need_resched w) (ticks w)
    (hotspot w) (waiters w) (permits w) x.

(** The [observe_*] functions: a counter saturates. *)
Definition observe (w : world) (c : counter) (n : Z) : world :=
  set_hotspot w (<[c := saturating_add (hotspot w c) n]> (hotspot w)).

(** ** Thread accessors *)

Definition st (w : world) (k : key) : ThreadState := state (threads w k).

Definition update (w : world) (k : key) (f : Thread → Thread) : world :=
  set_threads w (<[k := f (threads w k)]> (threads w)).

Definition with_state x (t : Thread) : Thread :=
  mkThread x (priority t) (sched_policy t) (cpu_affinity t) (wake_deadline_enc t) (wait_outcome t)
    (stop_pending t) (terminate_pending t) (boosted t) (waiting_ticks t) (time_slice_remaining t).
Definition with_priority x (t : Thread) : Thread :=
  mkThread (state t) x (sched_policy t) (cpu_affinity t) (wake_deadline_enc t) (wait_outcome t)
    (stop_pending t) (terminate_pending t) (boosted t) (waiting_ticks t) (time_slice_remaining t).
Definition with_deadline x (t : Thread) : Thread :=
  mkThread (state t) (priority t) (sched_policy t) (cpu_affinity t) x (wait_outcome t)
    (stop_pending t) (terminate_pending t) (boosted t) (waiting_ticks t) (time_slice_remaining t).
Definition with_outcome x (t : Thread) : Thread :=
  mkThread (state t) (priority t) (sched_policy t) (cpu_affinity t) (wake_deadline_enc t) x
    (stop_pending t) (terminate_pending t) (boosted t) (waiting_ticks t) (time_slice_remaining t).
Definition with_stop_pending x (t : Thread) : Thread :=
  mkThread (state t) (priority t) (sched_policy t) (cpu_affinity t) (wake_deadline_enc t) (wait_outcome t)
    x (terminate_pending t) (boosted t) (waiting_ticks t) (time_slice_remaining t).
Definition with_terminate_pending x (t : Thread) : Thread :=
  mkThread (state t) (priority t) (sched_policy t) (cpu_affinity t) (wake_deadline_enc t) (wait_outcome t)
    (stop_pending t) x (boosted t) (waiting_ticks t) (time_slice_remaining t).
Definition with_boosted x (t : Thread) : Thread :=
  mkThread (state t) (priority t) (sched_policy t) (cpu_affinity t) (wake_deadline_enc t) (wait_outcome t)
    (stop_pending t) (terminate_pending t) x (waiting_ticks t) (time_slice_remaining t).
Definition with_waiting_ticks x (t : Thread) : Thread :=
  mkThread (state t) (priority t) (sched_policy t) (cpu_affinity t) (wake_deadline_enc t) (wait_outcome t)
    (stop_pending t) (terminate_pending t) (boosted t) x (time_slice_remaining t).
Definition with_slice x (t : Thread) : Thread :=
  mkThread (state t) (priority t) (sched_policy t) (cpu_affinity t) (wake_deadline_enc t) (wait_outcome t)
    (stop_pending t) (terminate_pending t) (boosted t) (waiting_ticks t) x.

Definition set_state (w : world) (k : key) (s : ThreadState) : world := update w k (with_state s).
Definition set_priority (w : world) (k : key) (p : ThreadPriority) : world :=
  update w k (with_priority p).
Definition set_boosted (w : world) (k : key) (b : bool) : world := update w k (with_boosted b).
Definition set_wait_outcome (w : world) (k : key) (o : ThreadWaitOutcome) : world :=
  update w k (with_outcome o).
Definition set_time_slice_remaining (w : world) (k : key) (n : Z) : world := update w k (with_slice n).
Definition reset_waiting_ticks (w : world) (k : key) : world := update w k (with_waiting_ticks 0).

(** [fetch_add] wraps. *)
Definition inc_waiting_ticks (w : world) (k : key) : world :=
  update w k (λ t, with_waiting_ticks (wrap64 (waiting_ticks t + 1)) t).

Definition process_state (w : world) (pid : Z) : ProcessState := p_state (procs w pid).
Definition set_process_state (w : world) (pid : Z) (s : ProcessState) : world :=
  set_procs w (<[pid := mkProcess s (p_threads (procs w pid))]> (procs w)).

(** [wake_deadline()]: [checked_sub(1)] of the encoded deadline. *)
Definition wake_deadline (w : world) (k : key) : option Z :=
  checked_sub (wake_deadline_enc (threads w k)) 1.

Definition is_stopped (w : world) (k : key) : bool := bool_decide (st w k = Stopped).

(** ** Lifecycle *)

Definition set_process_and_thread_state (w : world) (k : key) (ps : ProcessState)
    (ts : ThreadState) : world * bool :=
  if bool_decide (st w k = Terminated) || bool_decide (process_state w k.1 = PTerminated)
  then (w, false)
  else (set_state (set_process_state w k.1 ps) k ts, true).

Definition restore_context (w : world) (k : key) : world :=
  (set_process_and_thread_state w k PRunning Running).1.

Definition yield_back_to_ready (w : world) (k : key) : world :=
  (set_process_and_thread_state w k PReady Ready).1.

Definition enter_waiting_state (w : world) (k : key) (wake_tick : option Z) : world :=
  match set_process_and_thread_state w k PWaiting Waiting with
  | (_, false) => w
  | (w, true) =>
      let encoded := match wake_tick with None => 0 | Some t => saturating_add t 1 end in
      set_wait_outcome (update w k (with_deadline encoded)) k Pending
  end.

Definition block (w : world) (k : key) : world := enter_waiting_state w k None.
Definition block_until (w : world) (k : key) (wake_tick : Z) : world :=
  enter_waiting_state w k (Some wake_tick).

Definition wake_waiter (w : world) (k : key) (outcome : ThreadWaitOutcome) : world * bool :=
  if negb (bool_decide (st w k = Waiting)) then (w, false) else
  if stop_pending (threads w k) then
    let w := update w k (with_stop_pending false) in
    let w := set_process_state w k.1 PReady in
    let w := set_state w k Stopped in
    (set_wait_outcome (update w k (with_deadline 0)) k outcome, true)
  else
    match set_process_and_thread_state w k PReady Ready with
    | (w, false) => (w, false)
    | (w, true) => (set_wait_outcome (update w k (with_deadline 0)) k outcome, true)
    end.

Definition wake_by_signal (w : world) (k : key) : world * bool := wake_waiter w k Completed.
Definition wake_by_timeout (w : world) (k : key) : world * bool := wake_waiter w k TimedOut.

Definition suspend (w : world) (k : key) : world * bool :=
  match st w k with
  | Ready | Running => (set_state w k Stopped, true)
  | Waiting => (update w k (with_stop_pending true), true)
  | Stopped | Terminated => (w, false)
  end.

Definition resume (w : world) (k : key) : world * bool :=
  set_process_and_thread_state w k PReady Ready.

Definition request_termination (w : world) (k : key) : world :=
  update w k (with_terminate_pending true).

Definition take_terminate_request (w : world) (k : key) : world * bool :=
  (update w k (with_terminate_pending false), terminate_pending (threads w k)).
