(* ===== verification/ReadyQueue.v ===== *)
(** * Ready queues and the waiting queue

    The functions of src/kernel/process/scheduler/queue.rs.  They work on the
    queues they are given and read the threads the queues point to. *)

From stdpp Require Import base tactics decidable numbers list functions relations.
From S2P Require Import Prelude Thread.

Definition TIME_SLICE_TICKS : Z := 2.

(** ** Predicates *)

Definition should_requeue_simulated_preempted_thread (s : ThreadState) : bool :=
  match s with Terminated | Waiting | Stopped => false | _ => true end.

Definition should_dispatch_ready_thread (s : ThreadState) : bool := bool_decide (s = Ready).

Definition should_preempt_for_time_slice (ticks : Z) : bool := is_multiple_of ticks TIME_SLICE_TICKS.

Definition has_timed_wait_elapsed (deadline : option Z) (ticks : Z) : bool :=
  match deadline with Some wake_tick => wake_tick <=? ticks | None => false end.

Definition parked_waiter_is_active (w : world) (x : TimedWaiter) : bool :=
  bool_decide (st w (tw_thread x) = Waiting) &&
  negb (bool_decide (process_state w (tw_thread x).1 = PTerminated)).

Definition is_key (k : key) (x : TimedWaiter) : bool := bool_decide (tw_thread x = k).

(** ** The waiting queue *)

(** [retain(|waiter| identity != ...)] *)
Definition remove_timed_waiters_by_identity (l : list TimedWaiter) (k : key) : list TimedWaiter :=
  filter (λ x, tw_thread x ≠ k) l.

(** [Vec::swap_remove]: the last element takes the place of the removed one. *)
Definition swap_remove {A} (l : list A) (i : nat) : list A :=
  match l !! i, last l with
  | Some _, Some z =>
      if decide (i = pred (length l)) then take i l else <[i := z]> (take (pred (length l)) l)
  | _, _ => l
  end.

(** The index loop of [take_timed_waiters_by_identity],
    [take_stale_timed_waiters] and [take_elapsed_timed_waiters].  Every round
    shortens the rest of the queue, so its length bounds the rounds. *)
Fixpoint swap_walk {A} (fuel : nat) (p : A → bool) (l : list A) (i : nat) (taken : list A) :
    list A * list A :=
  match fuel with
  | O => (l, taken)
  | S fuel =>
      match l !! i with
      | None => (l, taken)
      | Some x =>
          if p x then swap_walk fuel p (swap_remove l i) i (taken ++ [x])
          else swap_walk fuel p l (S i) taken
      end
  end.

Definition take_where {A} (p : A → bool) (l : list A) : list A * list A :=
  swap_walk (length l) p l 0 [].

Definition take_timed_waiters_by_identity (l : list TimedWaiter) (k : key) :
    list TimedWaiter * list TimedWaiter := take_where (is_key k) l.

Definition take_stale_timed_waiters (w : world) (l : list TimedWaiter) :
    list TimedWaiter * list TimedWaiter :=
  take_where (λ x, negb (parked_waiter_is_active w x)) l.

Definition take_elapsed_timed_waiters (w : world) (l : list TimedWaiter) (ticks : Z) :
    list TimedWaiter * list TimedWaiter :=
  take_where (λ x, has_timed_wait_elapsed (wake_deadline w (tw_thread x)) ticks) l.

(** ** The ready queues *)

Definition dispatchable (w : world) (k : key) : bool := should_dispatch_ready_thread (st w k).

Definition prune_nondispatchable_ready_threads (w : world) (q : list (list key)) : list (list key) :=
  map (filter (λ k, dispatchable w k)) q.

Definition has_dispatchable_ready_thread (w : world) (q : list (list key)) : list (list key) * bool :=
  let q := prune_nondispatchable_ready_threads w q in
  (q, existsb (λ l, negb (bool_decide (l = []))) q).

Definition remove_queued_thread (q : list (list key)) (k : key) : list (list key) := map (filter (λ x, x ≠ k)) q.

Inductive EnqueueOutcome := Enqueued | NotReady.

Definition push_back (q : list (list key)) (i : nat) (k : key) : list (list key) := alter (λ l, l ++ [k]) i q.
Definition push_front (q : list (list key)) (i : nat) (k : key) : list (list key) := alter (λ l, k :: l) i q.

Definition enqueue_ready_thread (w : world) (q : list (list key)) (k : key) : list (list key) * EnqueueOutcome :=
  if negb (dispatchable w k) then (q, NotReady) else
  (push_back (remove_queued_thread q k) (prio_index (priority (threads w k))) k, Enqueued).

Definition requeue_preempted_thread (w : world) (q : list (list key)) (k : key) : list (list key) * bool :=
  if negb (dispatchable w k) then (q, false) else
  let q := remove_queued_thread q k in
  let i := prio_index (priority (threads w k)) in
  if decide (sched_policy (threads w k) = SchedFifo)
  then (push_front q i k, true) else (push_back q i k, true).

(** The [while let Some(thread) = queue.pop_front()] loop on one queue: the
    rest of the queue, the thread found, and how many were dropped before it. *)
Fixpoint pop_dispatchable (w : world) (l : list key) : list key * option key * Z :=
  match l with
  | [] => ([], None, 0)
  | k :: l =>
      if dispatchable w k then (l, Some k, 0)
      else let '(l, r, d) := pop_dispatchable w l in (l, r, d + 1)
  end.

(** The [for priority in (0..THREAD_PRIORITY_COUNT).rev()] loop; [n] priorities
    are left to look at. *)
Fixpoint take_from (w : world) (q : list (list key)) (n : nat) (dropped : Z) : list (list key) * option key * Z :=
  match n with
  | O => (q, None, dropped)
  | S n =>
      let '(l, r, d) := pop_dispatchable w (default [] (q !! n)) in
      let q := <[n := l]> q in
      match r with
      | Some k => (q, Some k, dropped + d)
      | None => take_from w q n (dropped + d)
      end
  end.

Definition take_next_dispatchable_thread_with_dropped (w : world) (q : list (list key)) : list (list key) * option key * Z :=
  take_from w q THREAD_PRIORITY_COUNT 0.

Definition take_next_dispatchable_thread (w : world) (q : list (list key)) : list (list key) * option key :=
  (take_next_dispatchable_thread_with_dropped w q).1.

Definition ready_queue_len (q : list (list key)) : nat := length (concat q).

(** ** Work stealing *)

Definition can_steal (w : world) (target_cpu : option Z) (k : key) : bool :=
  match target_cpu with
  | None => true
  | Some tcpu =>
      (cpu_affinity (threads w k) =? 0) || (cpu_affinity (threads w k) =? tcpu)
  end.

(** The loop on one queue: the rest, the skipped threads and the stolen ones;
    [remaining] steals are left. *)
Fixpoint steal_from (w : world) (target_cpu : option Z) (l : list key) (remaining : nat) :
    list key * list key * list key :=
  match remaining, l with
  | O, _ => (l, [], [])
  | _, [] => ([], [], [])
  | S r, k :: l =>
      if negb (can_steal w target_cpu k) then
        let '(rest, skipped, stolen) := steal_from w target_cpu l (S r) in
        (rest, k :: skipped, stolen)
      else if dispatchable w k then
        let '(rest, skipped, stolen) := steal_from w target_cpu l r in
        (rest, skipped, k :: stolen)
      else steal_from w target_cpu l (S r)
  end.

Fixpoint steal_loop (w : world) (target_cpu : option Z) (q : list (list key)) (n remaining : nat) :
    list (list key) * list key :=
  match n with
  | O => (q, [])
  | S n =>
      let '(rest, skipped, stolen) := steal_from w target_cpu (default [] (q !! n)) remaining in
      let q := <[n := rest ++ skipped]> q in
      let remaining := (remaining - length stolen)%nat in
      match remaining with
      | O => (q, stolen)
      | S _ => let '(q, more) := steal_loop w target_cpu q n remaining in (q, stolen ++ more)
      end
  end.

Definition steal_ready_threads (w : world) (q : list (list key)) (count : nat) (target_cpu : option Z) :
    list (list key) * list key := steal_loop w target_cpu q THREAD_PRIORITY_COUNT count.

(** ** Elapsed and stale waiters *)

Definition remove_waiter (w : world) (cleanup : option queue_id) (k : key) : world :=
  match cleanup with
  | None => w
  | Some q => set_waiters w (<[q := filter (λ x, x ≠ k) (waiters w q)]> (waiters w))
  end.

Definition remove_timed_waiter_from_wait_queue (w : world) (x : TimedWaiter) : world :=
  remove_waiter w (tw_cleanup x) (tw_thread x).

Definition remove_timed_waiters_from_wait_queues (w : world) (l : list TimedWaiter) : world :=
  foldl remove_timed_waiter_from_wait_queue w l.

(** The queue's cleanup has no [on_timeout] action of its own. *)
Definition process_elapsed_timed_waiter (w : world) (x : TimedWaiter) : world * EnqueueOutcome :=
  let w := remove_waiter w (tw_cleanup x) (tw_thread x) in
  match wake_by_timeout w (tw_thread x) with
  | (w, true) =>
      let '(q, o) := enqueue_ready_thread w (ready_queues w) (tw_thread x) in
      (set_ready_queues w q, o)
  | (w, false) => (w, NotReady)
  end.

(** ** Facts on the index loop *)

Lemma swap_remove_last {A} (l : list A) x : swap_remove (l ++ [x]) (length l) = l.
Proof.
  unfold swap_remove. rewrite last_snoc, list_lookup_middle by done.
  rewrite decide_True by (rewrite length_app; simpl; lia). by rewrite take_app_length.
Qed.

Lemma swap_remove_mid {A} (l1 l2 : list A) x z :
  swap_remove (l1 ++ x :: l2 ++ [z]) (length l1) = l1 ++ z :: l2.
Proof.
  unfold swap_remove. rewrite list_lookup_middle by done.
  replace (l1 ++ x :: l2 ++ [z]) with ((l1 ++ x :: l2) ++ [z]) by by rewrite <- app_assoc.
  rewrite last_snoc, length_app. simpl length.
  rewrite decide_False by (rewrite length_app; simpl; lia).
  replace (pred (length (l1 ++ x :: l2) + 1)) with (length (l1 ++ x :: l2)) by lia.
  rewrite take_app_length. by rewrite insert_app_r_alt, Nat.sub_diag by done.
Qed.

Lemma swap_walk_spec {A} (p : A → bool) fuel (l1 l2 taken : list A) :
  (length l2 ≤ fuel)%nat →
  let r := swap_walk fuel p (l1 ++ l2) (length l1) taken in
  r.1 ≡ₚ l1 ++ filter (λ x, negb (p x)) l2 ∧ r.2 ≡ₚ taken ++ filter (λ x, p x) l2.
Proof.
  revert l1 l2 taken. induction fuel as [|fuel IH]; intros l1 l2 taken Hf.
  { destruct l2; simpl in *; [by rewrite !app_nil_r|lia]. }
  destruct l2 as [|x l2].
  { simpl. rewrite lookup_ge_None_2 by (rewrite app_nil_r; lia). simpl. by rewrite !app_nil_r. }
  cbn [swap_walk]. rewrite list_lookup_middle by done.
  rewrite !filter_cons. destruct (p x) eqn:E; simpl.
  - destruct l2 as [|z l2 _] using rev_ind.
    + rewrite swap_remove_last. specialize (IH l1 [] (taken ++ [x])).
      rewrite app_nil_r in IH. simpl in IH. destruct IH as [H1 H2]; [lia|].
      split; [done|]. rewrite H2. by rewrite app_nil_r.
    + rewrite swap_remove_mid. specialize (IH l1 (z :: l2) (taken ++ [x])).
      destruct IH as [H1 H2]; [simpl in *; rewrite length_app in *; simpl in *; lia|].
      rewrite (Permutation_app_comm l2 [z]). split; [done|].
      etrans; [exact H2|]. by rewrite <- app_assoc.
  - specialize (IH (l1 ++ [x]) l2 taken). rewrite length_app, <- app_assoc in IH. simpl in IH.
    rewrite Nat.add_1_r in IH. destruct IH as [H1 H2]; [simpl in *; lia|]. split; [|done].
    etrans; [exact H1|]. by rewrite <- app_assoc.
Qed.

Lemma take_where_spec {A} (p : A → bool) (l : list A) :
  (take_where p l).1 ≡ₚ filter (λ x, negb (p x)) l ∧ (take_where p l).2 ≡ₚ filter (λ x, p x) l.
Proof. apply (swap_walk_spec p (length l) [] l []). done. Qed.

(** ** Facts on the ready queues *)

Lemma concat_filter {A} (P : A → Prop) `{!∀ x, Decision (P x)} (q : list (list A)) :
  concat (map (filter P) q) = filter P (concat q).
Proof. induction q as [|l q IH]; [done|]. simpl. by rewrite filter_app, IH. Qed.

Lemma concat_alter {A} (f : list A → list A) (q : list (list A)) i l x :
  q !! i = Some l → f l ≡ₚ x :: l → concat (alter f i q) ≡ₚ x :: concat q.
Proof.
  revert i. induction q as [|l' q IH]; intros [|i] Hl Hf; simplify_eq/=.
  - by rewrite Hf.
  - etrans; [apply Permutation_app_head, (IH i Hl Hf)|]. by rewrite Permutation_middle.
Qed.

Lemma push_back_perm (q : list (list key)) i k :
  (i < length q)%nat → concat (push_back q i k) ≡ₚ k :: concat q.
Proof.
  intros [l Hl]%lookup_lt_is_Some. apply (concat_alter _ _ _ l); [done|].
  by rewrite Permutation_app_comm.
Qed.

Lemma push_front_perm (q : list (list key)) i k :
  (i < length q)%nat → concat (push_front q i k) ≡ₚ k :: concat q.
Proof. intros [l Hl]%lookup_lt_is_Some. by apply (concat_alter _ _ _ l). Qed.

Lemma length_remove_queued q k : length (remove_queued_thread q k) = length q.
Proof. apply length_map. Qed.

Lemma length_push_back q i k : length (push_back q i k) = length q.
Proof. apply length_alter. Qed.

Lemma length_push_front q i k : length (push_front q i k) = length q.
Proof. apply length_alter. Qed.

Lemma prio_index_lt p : (prio_index p < THREAD_PRIORITY_COUNT)%nat.
Proof. unfold THREAD_PRIORITY_COUNT. destruct p; simpl; lia. Qed.

(** Queueing a thread that may be dispatched, at either end. *)
Lemma enqueue_perm w q k :
  length q = THREAD_PRIORITY_COUNT → dispatchable w k = true →
  (enqueue_ready_thread w q k).2 = Enqueued ∧
  length (enqueue_ready_thread w q k).1 = THREAD_PRIORITY_COUNT ∧
  concat (enqueue_ready_thread w q k).1 ≡ₚ k :: filter (λ x, x ≠ k) (concat q).
Proof.
  intros Hq Hd. unfold enqueue_ready_thread. rewrite Hd. simpl.
  rewrite length_push_back, length_remove_queued. split_and!; [done..|].
  rewrite push_back_perm by (rewrite length_remove_queued, Hq; apply prio_index_lt).
  unfold remove_queued_thread. by rewrite concat_filter.
Qed.

Lemma requeue_perm w q k :
  length q = THREAD_PRIORITY_COUNT → dispatchable w k = true →
  (requeue_preempted_thread w q k).2 = true ∧
  length (requeue_preempted_thread w q k).1 = THREAD_PRIORITY_COUNT ∧
  concat (requeue_preempted_thread w q k).1 ≡ₚ k :: filter (λ x, x ≠ k) (concat q).
Proof.
  intros Hq Hd. unfold requeue_preempted_thread. rewrite Hd. simpl.
  pose proof (prio_index_lt (priority (threads w k))) as Hp.
  destruct (decide _); cbn [fst snd];
    rewrite ?length_push_back, ?length_push_front, length_remove_queued; (split_and!; [done..|]);
    rewrite ?push_front_perm, ?push_back_perm by (by rewrite length_remove_queued, Hq);
    unfold remove_queued_thread; by rewrite concat_filter.
Qed.

(** ** Facts on the dispatch walk *)

Lemma pop_dispatchable_spec w l :
  let '(l', r, d) := pop_dispatchable w l in
  0 ≤ d ∧
  match r with
  | None => l' = [] ∧ Forall (λ k, dispatchable w k = false) l ∧ d = Z.of_nat (length l)
  | Some k => ∃ pre, l = pre ++ k :: l' ∧ Forall (λ k, dispatchable w k = false) pre ∧
                dispatchable w k = true ∧ d = Z.of_nat (length pre)
  end.
Proof.
  induction l as [|k l IH]; [done|]. cbn [pop_dispatchable]. destruct (dispatchable w k) eqn:E.
  { split; [done|]. by exists []. }
  destruct (pop_dispatchable w l) as [[l' r] d]. destruct IH as [Hd IH]. split; [lia|].
  destruct r as [k'|].
  - destruct IH as (pre & -> & Hpre & Hk & ->). exists (k :: pre). split_and!; [done|by constructor|done|].
    simpl length. lia.
  - destruct IH as (-> & Hl & ->). split_and!; [done|by constructor|simpl length; lia].
Qed.

(** What the walk over the [n] lowest priorities answers. *)
Record taken_first (w : world) (q : list (list key)) (n : nat) (q' : list (list key)) (k : key) (i : nat) (pre post : list key) :
    Prop := {
  tf_priority : (i < n)%nat;
  tf_queue : q !! i = Some (pre ++ k :: post);
  tf_ready : dispatchable w k = true;
  tf_pre : Forall (λ x, dispatchable w x = false) pre;
  tf_higher : ∀ j l, (i < j < n)%nat → q !! j = Some l → Forall (λ x, dispatchable w x = false) l;
  tf_rest : ∀ j, q' !! j = if decide (j = i) then Some post
                     else if decide (i < j < n)%nat then Some [] else q !! j;
}.

Lemma take_from_spec w q n dropped :
  (n ≤ length q)%nat →
  let '(q', r, d) := take_from w q n dropped in
  length q' = length q ∧ dropped ≤ d ∧
  match r with
  | Some k => ∃ i pre post, taken_first w q n q' k i pre post
  | None => (∀ j l, (j < n)%nat → q !! j = Some l → Forall (λ x, dispatchable w x = false) l) ∧
            (∀ j, q' !! j = if decide (j < n)%nat then Some [] else q !! j)
  end.
Proof.
  revert q dropped. induction n as [|n IH]; intros q dropped Hn.
  { simpl. split_and!; [done|done|intros; lia|done]. }
  cbn [take_from]. destruct (lookup_lt_is_Some_2 q n) as [l Hl]; [lia|]. rewrite Hl. cbn [default from_option id].
  pose proof (pop_dispatchable_spec w l) as Hp. destruct (pop_dispatchable w l) as [[l' [k|]] d]; cbn beta iota zeta.
  - destruct Hp as (Hd & pre & -> & Hpre & Hk & _). rewrite length_insert. split_and!; [done|lia|].
    exists n, pre, l'. split; try done; try lia. intros j.
    destruct (decide (j = n)) as [->|]; [by rewrite list_lookup_insert_eq by lia|].
    rewrite list_lookup_insert_ne by done. by rewrite decide_False by lia.
  - destruct Hp as (Hd & -> & Hl' & _). specialize (IH (<[n:=[]]> q) (dropped + d)).
    rewrite length_insert in IH. specialize (IH ltac:(lia)).
    destruct (take_from w (<[n:=[]]> q) n (dropped + d)) as [[q' r] d'].
    destruct IH as (Hlen & Hd' & IH). split_and!; [done|lia|]. destruct r as [k|].
    + destruct IH as (i & pre & post & [Hi Hq Hk Hpre Hhi Hrest]). exists i, pre, post.
      rewrite list_lookup_insert_ne in Hq by lia. split; try done; [lia| |].
      * intros j l2 Hj Hl2. destruct (decide (j = n)) as [->|]; [by simplify_eq|].
        apply (Hhi j); [lia|]. by rewrite list_lookup_insert_ne by done.
      * intros j. rewrite Hrest. destruct (decide (j = i)); [done|].
        destruct (decide (j = n)) as [->|].
        { rewrite list_lookup_insert_eq by lia. by repeat case_decide; try lia. }
        rewrite list_lookup_insert_ne by done. by repeat case_decide; try lia.
    + destruct IH as (Hall & Hrest). split.
      * intros j l2 Hj Hl2. destruct (decide (j = n)) as [->|]; [by simplify_eq|].
        apply (Hall j); [lia|]. by rewrite list_lookup_insert_ne by done.
      * intros j. rewrite Hrest. destruct (decide (j = n)) as [->|].
        { rewrite list_lookup_insert_eq by lia. by repeat case_decide; try lia. }
        rewrite list_lookup_insert_ne by done. by repeat case_decide; try lia.
Qed.

Lemma concat_insert_perm {A} (q : list (list A)) i l a b :
  q !! i = Some l → l ≡ₚ a ++ b → concat q ≡ₚ a ++ concat (<[i := b]> q).
Proof.
  intros Hl Hab. revert i Hl. induction q as [|l' q IH]; intros [|i] Hl; simplify_eq/=; [by rewrite Hab, <- app_assoc|].
  rewrite (IH i Hl). rewrite !app_assoc. by rewrite (Permutation_app_comm l' a).
Qed.

Lemma concat_insert {A} (q : list (list A)) i a b :
  q !! i = Some (a ++ b) → concat q ≡ₚ a ++ concat (<[i := b]> q).
Proof. intros Hl. by eapply concat_insert_perm. Qed.

(** The walk loses only threads that may not be dispatched, and counts them. *)
Lemma take_from_perm w q n dropped :
  (n ≤ length q)%nat →
  let '(q', r, d) := take_from w q n dropped in
  ∃ ds, Forall (λ x, dispatchable w x = false) ds ∧ d = dropped + Z.of_nat (length ds) ∧
    concat q ≡ₚ ds ++ option_list r ++ concat q' ∧
    match r with Some k => dispatchable w k = true | None => True end.
Proof.
  revert q dropped. induction n as [|n IH]; intros q dropped Hn.
  { exists []. simpl. split_and!; [done|lia|done|done]. }
  cbn [take_from]. destruct (lookup_lt_is_Some_2 q n) as [l Hl]; [lia|]. rewrite Hl. cbn [default from_option id].
  pose proof (pop_dispatchable_spec w l) as Hp. destruct (pop_dispatchable w l) as [[l' [k|]] d]; cbn beta iota zeta.
  - destruct Hp as (_ & pre & -> & Hpre & Hk & ->). exists pre. split_and!; [done|done| |done].
    rewrite (concat_insert q n (pre ++ [k]) l') by by rewrite <- app_assoc. by rewrite <- app_assoc.
  - destruct Hp as (_ & -> & Hl' & ->). specialize (IH (<[n:=[]]> q) (dropped + Z.of_nat (length l))).
    rewrite length_insert in IH. specialize (IH ltac:(lia)).
    destruct (take_from w (<[n:=[]]> q) n _) as [[q' r] d'].
    destruct IH as (ds & Hds & -> & Hp & Hr). exists (l ++ ds).
    split_and!; [by apply Forall_app|rewrite length_app; lia| |done].
    rewrite (concat_insert q n l []) by by rewrite app_nil_r. by rewrite Hp, <- !app_assoc.
Qed.
