(* ===== verification/Sched.v ===== *)
(** * The scheduler of one CPU, its wait queues and what is built on them

    The methods of [Scheduler] (src/kernel/process/scheduler: waker.rs,
    dispatch.rs, timer.rs, spawn.rs, terminate.rs), of [WaitQueue], [Semaphore]
    and [Event] (src/kernel/process/wait), on the scheduling state of one CPU:
    [registry::for_cpu] answers this scheduler for its own CPU and [None] for
    every other.  A path that ends in a context switch is modelled up to the
    switch; the thread it switches to, or the dispatcher, goes on in another
    step. *)

From stdpp Require Import base tactics decidable numbers list functions relations.
From S2P Require Import Prelude Thread ReadyQueue.

Definition BOOST_THRESHOLD_TICKS : Z := 50.
Definition BOOST_DURATION_TICKS : Z := 8.

(** [arch::supports_context_switch()], [percpu::get().cpu_id], and whether the
    address space of a thread can be installed
    ([prepare_thread_address_space_for_dispatch]). *)
Class SchedEnv := {
  context_switch : bool;
  cpu_id : Z;
  address_space_ok : key → bool;
}.

(** ** Waking and parking (waker.rs) *)

Definition enqueue_ready_thread_local (w : world) (k : key) : world * EnqueueOutcome :=
  let '(q, o) := enqueue_ready_thread w (ready_queues w) k in (set_ready_queues w q, o).

Definition maybe_set_need_resched (w : world) (k : key) : world :=
  match current w with
  | Some c => if prio_gt (priority (threads w k)) (priority (threads w c))
              then set_need_resched w true else w
  | None => w
  end.

Definition lost_waiter (w : world) (x : TimedWaiter) : bool :=
  bool_decide (st w (tw_thread x) = Waiting) &&
  match wake_deadline w (tw_thread x) with Some _ => true | None => false end &&
  negb (bool_decide (process_state w (tw_thread x).1 = PTerminated)).

Definition remove_timed_waiter (w : world) (k : key) : world :=
  let '(rest, removed) := take_timed_waiters_by_identity (waiting_queue w) k in
  foldl (λ w x, if lost_waiter w x then observe w waiter_lost_count 1 else w)
    (set_waiting_queue w rest) removed.

(** The per-thread wait-time statistics of [record_signal_wake] are not part of
    the model. *)
Definition wake_thread (w : world) (k : key) : world * bool :=
  match wake_by_signal w k with
  | (w, false) => (observe w wake_refused_count 1, false)
  | (w, true) =>
      let w := remove_timed_waiter w k in
      match enqueue_ready_thread_local w k with
      | (w, Enqueued) => (maybe_set_need_resched (observe w signal_wake_count 1) k, true)
      | (w, NotReady) => (w, false)
      end
  end.

Definition park_thread (w : world) (k : key) (cleanup : option queue_id) : world :=
  set_waiting_queue w
    (remove_timed_waiters_by_identity (waiting_queue w) k ++ [mkTimedWaiter k cleanup]).

Definition register_timed_waiter (w : world) (k : key) (cleanup : option queue_id) : world :=
  observe (park_thread w k cleanup) timed_wait_registration_count 1.

(** One round of the loop of [wake_ready_threads]: no other CPU has a
    scheduler, so the thread is queued here; a thread of another CPU gets an
    inter-processor interrupt instead of this CPU's flag. *)
Definition wake_elapsed `{SchedEnv} (w : world) (x : TimedWaiter) : world * bool :=
  let k := tw_thread x in
  let prio := priority (threads w k) in
  match process_elapsed_timed_waiter w x with
  | (w, NotReady) => (w, false)
  | (w, Enqueued) =>
      (if negb (cpu_affinity (threads w k) =? cpu_id) then w
       else match current w with
            | Some c => if prio_gt prio (priority (threads w c)) then set_need_resched w true else w
            | None => w
            end, true)
  end.

Fixpoint wake_all_elapsed `{SchedEnv} (w : world) (l : list TimedWaiter) : world * Z :=
  match l with
  | [] => (w, 0)
  | x :: l =>
      let '(w, woken) := wake_elapsed w x in
      let '(w, n) := wake_all_elapsed w l in
      (w, if woken : bool then n + 1 else n)
  end.

Definition wake_ready_threads `{SchedEnv} (w : world) (now : Z) : world * Z :=
  let '(queue, stale) := take_stale_timed_waiters w (waiting_queue w) in
  let '(queue, woke) := take_elapsed_timed_waiters w queue now in
  let w := remove_timed_waiters_from_wait_queues (set_waiting_queue w queue) stale in
  let '(w, n) := wake_all_elapsed w woke in
  (if n =? 0 then w else observe w timeout_wake_count n, n).

(** ** Dispatch on a target without context switches *)

Definition dispatch_next_simulated (w : world) : world * bool :=
  match take_next_dispatchable_thread w (ready_queues w) with
  | (q, None) => (set_ready_queues w q, false)
  | (q, Some k) =>
      (observe (set_current (restore_context (set_ready_queues w q) k) (Some k)) dispatch_count 1, true)
  end.

(** ** Blocking *)

Definition block_current_thread_if `{SchedEnv} (w : world) (prepare : world → key → world * bool) :
    world * bool :=
  match current w with
  | None => (w, false)
  | Some k =>
      match prepare (set_current w None) k with
      | (w, false) => (set_current w (Some k), false)
      | (w, true) =>
          let w := observe w block_count 1 in
          (if context_switch then w else (dispatch_next_simulated w).1, true)
      end
  end.

Definition sleep_current_thread `{SchedEnv} (w : world) (n : Z) : world :=
  let deadline := saturating_add (ticks w) (Z.max n 1) in
  (block_current_thread_if w
     (λ w k, (register_timed_waiter (block_until w k deadline) k None, true))).1.

(** ** Wait queues (wait/queue.rs) *)

Definition is_active_waiter (w : world) (k : key) : bool :=
  bool_decide (st w k = Waiting) && negb (bool_decide (process_state w k.1 = PTerminated)).

Definition set_queue (w : world) (q : queue_id) (l : list key) : world :=
  set_waiters w (<[q := l]> (waiters w)).

Definition prune_stale_waiters (w : world) (q : queue_id) : world :=
  set_queue w q (filter (λ k, is_active_waiter w k) (waiters w q)).

Fixpoint take_next_waiter (w : world) (l : list key) : list key * option key :=
  match l with
  | [] => ([], None)
  | k :: l => if is_active_waiter w k then (l, Some k) else take_next_waiter w l
  end.

Definition waiter_count (w : world) (q : queue_id) : world * Z :=
  let w := prune_stale_waiters w q in (w, Z.of_nat (length (waiters w q))).

Definition block_current_if `{SchedEnv} (w : world) (q : queue_id)
    (prepare : world → key → world * bool) : world * bool :=
  block_current_thread_if w (λ w k,
    match prepare (prune_stale_waiters w q) k with
    | (w, false) => (w, false)
    | (w, true) => (park_thread (block w k) k None, true)
    end).

Definition block_current_until_if `{SchedEnv} (w : world) (q : queue_id) (deadline : Z)
    (prepare : world → key → world * bool) : world * bool :=
  block_current_thread_if w (λ w k,
    match prepare (prune_stale_waiters w q) k with
    | (w, false) => (w, false)
    | (w, true) => (register_timed_waiter (block_until w k deadline) k (Some q), true)
    end).

Definition push_waiter (w : world) (q : queue_id) (k : key) : world :=
  set_queue w q (waiters w q ++ [k]).

Definition block_current `{SchedEnv} (w : world) (q : queue_id) : world * bool :=
  block_current_if w q (λ w k, (push_waiter w q k, true)).

(** [wake_with] in two parts: the selection under the queue's lock, and the
    wake-ups after it is released. *)
Definition wake_select (w : world) (q : queue_id) (select : world → world * list key) :
    world * list key := select (prune_stale_waiters w q).

Fixpoint wake_threads (w : world) (l : list key) : world * Z :=
  match l with
  | [] => (w, 0)
  | k :: l =>
      let '(w, woken) := wake_thread w k in
      let '(w, n) := wake_threads w l in
      (w, if woken : bool then n + 1 else n)
  end.

Definition wake_with (w : world) (q : queue_id) (select : world → world * list key) : world * Z :=
  let '(w, waking) := wake_select w q select in wake_threads w waking.

(** Taking the next waiter of [q], as the [select] closures do. *)
Definition pop_waiter (w : world) (q : queue_id) : world * option key :=
  let '(l, r) := take_next_waiter w (waiters w q) in (set_queue w q l, r).

Definition wake_one (w : world) (q : queue_id) : world * bool :=
  let '(w, n) := wake_with w q (λ w, let '(w, r) := pop_waiter w q in (w, option_list r)) in
  (w, negb (n =? 0)).

Definition wake_all (w : world) (q : queue_id) : world * Z :=
  wake_with w q (λ w,
    let w := prune_stale_waiters w q in (set_queue w q [], waiters w q)).

Inductive TimedWaitPlan := ZeroTimeout | Deadline (t : Z).

(** A scheduler is installed, so [Unavailable] is never the plan. *)
Definition plan_timed_wait (w : world) (timeout_ticks : Z) : TimedWaitPlan :=
  if timeout_ticks =? 0 then ZeroTimeout
  else Deadline (saturating_add (ticks w) timeout_ticks).

Definition set_current_wait_outcome (w : world) (o : ThreadWaitOutcome) : world :=
  match current w with Some k => set_wait_outcome w k o | None => w end.

(** ** Semaphores (wait/semaphore.rs) *)

Definition set_permit (w : world) (q : queue_id) (n : Z) : world :=
  set_permits w (<[q := n]> (permits w)).

Definition try_acquire (w : world) (q : queue_id) : world * bool :=
  if permits w q =? 0 then (w, false)
  else (set_current_wait_outcome (set_permit w q (permits w q - 1)) Completed, true).

(** The closure [acquire] and [acquire_timeout] block on. *)
Definition acquire_prepare (q : queue_id) (w : world) (k : key) : world * bool :=
  if 0 <? permits w q
  then (set_wait_outcome (set_permit w q (permits w q - 1)) k Completed, false)
  else (push_waiter w q k, true).

Definition acquire `{SchedEnv} (w : world) (q : queue_id) : world * bool :=
  block_current_if w q (acquire_prepare q).

Definition acquire_timeout `{SchedEnv} (w : world) (q : queue_id) (timeout_ticks : Z) : world * bool :=
  match plan_timed_wait w timeout_ticks with
  | ZeroTimeout =>
      match try_acquire w q with
      | (w, true) => (w, false)
      | (w, false) => (set_current_wait_outcome w TimedOut, false)
      end
  | Deadline deadline => block_current_until_if w q deadline (acquire_prepare q)
  end.

(** The closure of [release]: each permit goes to a waiter, or to the count. *)
Fixpoint release_select (q : queue_id) (n : nat) (w : world) : world * list key :=
  match n with
  | O => (w, [])
  | S n =>
      match pop_waiter w q with
      | (w, Some k) => let '(w, l) := release_select q n w in (w, k :: l)
      | (w, None) => release_select q n (set_permit w q (saturating_add (permits w q) 1))
      end
  end.

Definition release (w : world) (q : queue_id) (n : nat) : world * Z :=
  wake_with w q (release_select q n).

(** ** Events (wait/event.rs) *)

Definition set_signaled (w : world) (q : queue_id) (b : bool) : world :=
  set_events w (<[q := mkEventState (mode (events w q)) b]> (events w)).

Definition event_reset (w : world) (q : queue_id) : world := set_signaled w q false.

Definition signal_select (q : queue_id) (w : world) : world * list key :=
  match mode (events w q) with
  | ManualReset => (set_queue (set_signaled w q true) q [], waiters w q)
  | AutoReset =>
      match pop_waiter w q with
      | (w, Some k) => (set_signaled w q false, [k])
      | (w, None) => (set_signaled w q true, [])
      end
  end.

Definition signal (w : world) (q : queue_id) : world * Z := wake_with w q (signal_select q).

Definition wait_prepare (q : queue_id) (w : world) (k : key) : world * bool :=
  match mode (events w q), signaled (events w q) with
  | ManualReset, true => (set_wait_outcome w k Completed, false)
  | AutoReset, true => (set_wait_outcome (set_signaled w q false) k Completed, false)
  | _, false => (push_waiter w q k, true)
  end.

Definition wait `{SchedEnv} (w : world) (q : queue_id) : world * bool :=
  block_current_if w q (wait_prepare q).

Definition wait_timeout `{SchedEnv} (w : world) (q : queue_id) (timeout_ticks : Z) : world * bool :=
  match plan_timed_wait w timeout_ticks with
  | ZeroTimeout =>
      match current w with
      | None => (w, false)
      | Some k =>
          (match mode (events w q), signaled (events w q) with
           | ManualReset, true => set_wait_outcome w k Completed
           | AutoReset, true => set_wait_outcome (set_signaled w q false) k Completed
           | _, false => set_wait_outcome w k TimedOut
           end, false)
      end
  | Deadline deadline => block_current_until_if w q deadline (wait_prepare q)
  end.

(** ** Termination (terminate.rs, thread/lifecycle.rs, process/fork.rs)

    Reasons, reaping and the resources a process releases are not part of the
    scheduling state. *)

Definition complete_termination (w : world) (pid : Z) : world :=
  (signal (set_process_state w pid PTerminated) (ProcessExit pid)).1.

(** [threads.swap_remove(index)] on the set of thread ids: the order of the
    ids is not observed. *)
Definition finish_thread_termination (w : world) (k : key) : world :=
  let p := procs w k.1 in
  if negb (bool_decide (k.2 ∈ p_threads p)) then w else
  let rest := filter (λ t, t ≠ k.2) (p_threads p) in
  let w := set_procs w (<[k.1 := mkProcess (p_state p) rest]> (procs w)) in
  if negb (bool_decide (rest = [])) || bool_decide (p_state p = PTerminated) then w
  else complete_termination w k.1.

Definition finish_termination (w : world) (k : key) : world :=
  if bool_decide (st w k = Terminated) then w else
  let w := set_state w k Terminated in
  let w := finish_thread_termination w k in
  let w := (signal w (ThreadExit k)).1 in
  set_wait_outcome (update w k (with_deadline 0)) k Completed.

Definition is_sibling (k x : key) : bool :=
  bool_decide (x.1 = k.1) && negb (bool_decide (x.2 = k.2)).

Definition terminate_sibling_threads (w : world) (k : key) : world :=
  let dying := filter (λ x, is_sibling k x) (concat (ready_queues w)) ++
               filter (λ x, is_sibling k x) (tw_thread <$> waiting_queue w) in
  let w := set_ready_queues w (map (filter (λ x, negb (is_sibling k x))) (ready_queues w)) in
  let w := set_waiting_queue w (filter (λ x, negb (is_sibling k (tw_thread x))) (waiting_queue w)) in
  foldl finish_termination w dying.

Definition finish_current_thread (w : world) : world * option key :=
  match current w with
  | None => (w, None)
  | Some k =>
      let w := terminate_sibling_threads (set_current w None) k in
      (remove_timed_waiter (finish_termination w k) k, Some k)
  end.

(** ** Dispatch with context switches (dispatch.rs) *)

(** What a round of the dispatcher's loop ends with. *)
Inductive round := Again | Return | Switch (k : key).

(** The termination request is taken from the current thread first. *)
Definition take_current_request (w : world) : world * bool :=
  match current w with
  | Some k => take_terminate_request w k
  | None => (w, false)
  end.

Definition schedule_round `{SchedEnv} (w : world) : world * round :=
  match take_current_request w with
  | (w, true) => ((finish_current_thread w).1, Again)
  | (w, false) =>
      if bool_decide (is_Some (current w)) && negb (need_resched w) then (w, Return) else
      let '(q, next, dropped) := take_next_dispatchable_thread_with_dropped w (ready_queues w) in
      let w := set_ready_queues w q in
      let w := if dropped =? 0 then w else observe w dropped_ready_count dropped in
      match next with
      | None => (w, Return)
      | Some k =>
          if negb (address_space_ok k) then (finish_termination w k, Again)
          else
            let w := set_current (restore_context w k) (Some k) in
            (set_need_resched (observe w dispatch_count 1) false, Switch k)
      end
  end.

(** [yield_current_thread] and [preempt_current_thread_from_interrupt] up to
    the switch; the second also counts the preemption. *)
Definition leave_cpu (w : world) (preempted : bool) : world * bool :=
  match current w with
  | None => (w, false)
  | Some k =>
      let w := set_current w None in
      let '(q, any) := has_dispatchable_ready_thread w (ready_queues w) in
      let w := set_ready_queues w q in
      if negb any then (set_current w (Some k), false) else
      let w := yield_back_to_ready w k in
      let w := if preempted then observe w preempt_count 1 else w in
      let '(q, requeued) := requeue_preempted_thread w (ready_queues w) k in
      let w := set_ready_queues w q in
      (if requeued : bool then w else observe w dropped_current_count 1, true)
  end.

Definition yield_current_thread (w : world) : world := (leave_cpu w false).1.
Definition preempt_current_thread_from_interrupt (w : world) : world * bool := leave_cpu w true.

Definition preempt_current_thread_simulated (w : world) : world * bool :=
  match current w with
  | None => (w, false)
  | Some k =>
      let w := set_current w None in
      if negb (should_requeue_simulated_preempted_thread (st w k)) then (w, false) else
      let '(q, any) := has_dispatchable_ready_thread w (ready_queues w) in
      let w := set_ready_queues w q in
      if negb any then (set_current w (Some k), false) else
      let w := yield_back_to_ready w k in
      let w := set_ready_queues w (requeue_preempted_thread w (ready_queues w) k).1 in
      (observe w preempt_count 1, true)
  end.

Definition schedule_simulated (w : world) : world :=
  let '(w, requested) := take_current_request w in
  let w := if requested : bool then (finish_current_thread w).1 else w in
  let w := (preempt_current_thread_simulated w).1 in
  (dispatch_next_simulated w).1.

(** ** The timer (timer.rs) *)

(** Counting the wait of the queued [Normal] threads; the starved ones. *)
Fixpoint boost_scan (w : world) (l : list key) : world * list key :=
  match l with
  | [] => (w, [])
  | k :: l =>
      let w := inc_waiting_ticks w k in
      let starved := BOOST_THRESHOLD_TICKS <=? waiting_ticks (threads w k) in
      let '(w, boosted) := boost_scan w l in
      (w, if starved then k :: boosted else boosted)
  end.

Definition promote (w : world) (k : key) : world :=
  let w := reset_waiting_ticks w k in
  let w := set_time_slice_remaining w k BOOST_DURATION_TICKS in
  set_boosted (set_priority w k High) k true.

Definition demote (w : world) (k : key) : world := set_priority (set_boosted w k false) k Normal.

(** Moving threads to the back of the queue of priority [p]. *)
Definition move_to (w : world) (l : list key) (p : ThreadPriority) : world :=
  let q := foldl remove_queued_thread (ready_queues w) l in
  set_ready_queues w (foldl (λ q k, push_back q (prio_index p) k) q l).

Definition queue_of (w : world) (p : ThreadPriority) : list key :=
  default [] (ready_queues w !! prio_index p).

Definition boost_expired (w : world) (k : key) : bool :=
  boosted (threads w k) && (time_slice_remaining (threads w k) =? 0).

Definition boost_starved_threads (w : world) : world :=
  let '(w, boosted) := boost_scan w (queue_of w Normal) in
  let w := move_to (foldl promote w boosted) boosted High in
  let demoted := filter (λ k, boost_expired w k) (queue_of w High) in
  move_to (foldl demote w demoted) demoted Normal.

(** The slice of a boosted running thread. *)
Definition consume_slice (w : world) : world :=
  match current w with
  | Some k => if boosted (threads w k)
              then set_time_slice_remaining w k (saturating_sub (time_slice_remaining (threads w k)) 1)
              else w
  | None => w
  end.

(** The end of a tick: wake the sleepers, then decide on preemption. *)
Definition tick_wake_and_preempt `{SchedEnv} (w : world) (now : Z) (allow_preemption : bool) :
    world * bool :=
  let w := (wake_ready_threads w now).1 in
  if negb allow_preemption then (w, false) else
  if negb (should_preempt_for_time_slice now) then (w, false) else
  if match current w with
     | Some k => bool_decide (sched_policy (threads w k) = SchedFifo)
     | None => false
     end then (w, false) else
  if context_switch then preempt_current_thread_from_interrupt w else
  match preempt_current_thread_simulated w with
  | (w, true) => ((dispatch_next_simulated w).1, true)
  | (w, false) => (w, false)
  end.

(** The device, network, cache and maintenance calls of the tick, the timerfds
    and POSIX timers, the load statistics and the placement watchdog's report
    are not part of the scheduling state. *)
Definition handle_timer_tick_with_preemption `{SchedEnv} (w : world) (now : Z)
    (allow_preemption : bool) : world * bool :=
  let w := set_ticks w now in
  let w := boost_starved_threads w in
  let w := consume_slice w in
  tick_wake_and_preempt w now allow_preemption.

Definition handle_local_timer_tick_with_preemption `{SchedEnv} (w : world) (now : Z)
    (allow_preemption : bool) : world * bool :=
  tick_wake_and_preempt (consume_slice w) now allow_preemption.

(** ** Spawning, stopping and continuing (spawn.rs) *)

Definition place_thread (w : world) (k : key) : world :=
  match enqueue_ready_thread_local w k with
  | (w, Enqueued) => maybe_set_need_resched w k
  | (w, NotReady) => w
  end.

(** [Thread::new_inner]: a [Ready] thread with its termination event, registered
    with its process, or terminated at once when the process refuses it. *)
Definition new_inner (w : world) (k : key) : world :=
  let w := set_threads w (<[k := Thread_new]> (threads w)) in
  let w := set_events w (<[ThreadExit k := mkEventState ManualReset false]> (events w)) in
  let w := set_queue w (ThreadExit k) [] in
  let p := procs w k.1 in
  if bool_decide (p_state p = PTerminated) || bool_decide (k.2 ∈ p_threads p)
  then finish_termination w k
  else set_procs w (<[k.1 := mkProcess (p_state p) (p_threads p ++ [k.2])]> (procs w)).

Definition spawn_thread (w : world) (k : key) : world := place_thread (new_inner w k) k.

Definition create_ready_process (w : world) (pid : Z) : world :=
  let w := set_procs w (<[pid := mkProcess PReady []]> (procs w)) in
  let w := set_events w (<[ProcessExit pid := mkEventState ManualReset false]> (events w)) in
  set_queue w (ProcessExit pid) [].

Definition spawn_ready_thread (w : world) (k : key) : world :=
  spawn_thread (create_ready_process w k.1) k.

Definition of_process (pid : Z) (k : key) : bool := bool_decide (k.1 = pid).

Definition suspend_all (w : world) (l : list key) : world := foldl (λ w k, (suspend w k).1) w l.

(** Taking a stopped timed waiter off its wait queue and waking it. *)
Definition stop_waiter (w : world) (x : TimedWaiter) : world :=
  (wake_by_timeout (remove_waiter w (tw_cleanup x) (tw_thread x)) (tw_thread x)).1.

Definition stop_threads_of_process (w : world) (pid : Z) : world * Z :=
  let in_ready := filter (λ k, of_process pid k) (concat (ready_queues w)) in
  let w := suspend_all w in_ready in
  let w := set_ready_queues w (map (filter (λ k, negb (of_process pid k))) (ready_queues w)) in
  let in_wait := filter (λ x, of_process pid (tw_thread x)) (waiting_queue w) in
  let w := suspend_all w (tw_thread <$> in_wait) in
  let w := set_waiting_queue w (filter (λ x, negb (of_process pid (tw_thread x))) (waiting_queue w)) in
  let w := foldl stop_waiter w in_wait in
  let n := Z.of_nat (length in_ready) + Z.of_nat (length in_wait) in
  match current w with
  | Some k => if of_process pid k then ((suspend w k).1, n + 1) else (w, n)
  | None => (w, n)
  end.

Definition resume_all (w : world) (pid : Z) (l : list key) : world * Z :=
  foldl (λ '(w, n) k,
    if of_process pid k && is_stopped w k then ((resume w k).1, n + 1) else (w, n)) (w, 0) l.

Definition continue_threads_of_process (w : world) (pid : Z) : world * Z :=
  resume_all w pid (concat (ready_queues w) ++ (tw_thread <$> waiting_queue w) ++ option_list (current w)).

Definition terminate_threads_of_process (w : world) (pid : Z) : world * bool :=
  let in_ready := filter (λ k, of_process pid k) (concat (ready_queues w)) in
  let w := set_ready_queues w (map (filter (λ k, negb (of_process pid k))) (ready_queues w)) in
  let in_wait := filter (λ x, of_process pid (tw_thread x)) (waiting_queue w) in
  let w := set_waiting_queue w (filter (λ x, negb (of_process pid (tw_thread x))) (waiting_queue w)) in
  let w := remove_timed_waiters_from_wait_queues w in_wait in
  let w := foldl finish_termination w (in_ready ++ (tw_thread <$> in_wait)) in
  match current w with
  | Some k => if of_process pid k then (request_termination w k, true) else (w, false)
  | None => (w, false)
  end.

(** [Process::request_termination], the remote half of a kill. *)
Definition process_request_termination (w : world) (pid : Z) : world :=
  if bool_decide (process_state w pid = PTerminated) then w else
  let w := set_process_state w pid PTerminated in
  let '(w, running_present) := terminate_threads_of_process w pid in
  if running_present : bool then w else complete_termination w pid.
