(* ===== verification/SchedInv.v ===== *)
(** * The placement invariant of the scheduler

    Every thread is where its state says: a [Ready] thread in exactly one
    ready queue, a [Waiting] thread parked once, a [Running] thread in the
    current slot.  [placed D w] states it up to a list [D] of threads that an
    operation has taken out of the queues and has not put back yet. *)

From stdpp Require Import base tactics decidable numbers list functions relations.
From S2P Require Import Prelude Thread ReadyQueue Sched.

Definition rkeys (w : world) : list key := concat (ready_queues w).
Definition wkeys (w : world) : list key := tw_thread <$> waiting_queue w.

Record placed (D : list key) (w : world) : Prop := {
  pl_queues : length (ready_queues w) = THREAD_PRIORITY_COUNT;
  pl_ready_nodup : NoDup (rkeys w);
  pl_wait_nodup : NoDup (wkeys w);
  pl_queued k : k ∈ rkeys w → st w k = Ready ∨ st w k = Terminated;
  pl_ready k : st w k = Ready → k ∈ rkeys w ∨ k ∈ D;
  pl_parked k : k ∈ wkeys w → st w k = Waiting;
  pl_waiting k : st w k = Waiting → k ∈ wkeys w ∨ k ∈ D;
  pl_current k : current w = Some k → st w k = Running;
  pl_running k : st w k = Running → current w = Some k ∨ k ∈ D;
  pl_not_stopped k : st w k ≠ Stopped ∧ stop_pending (threads w k) = false;
  pl_process k : st w k ≠ Terminated →
    p_state (procs w k.1) ≠ PTerminated ∧ k.2 ∈ p_threads (procs w k.1);
  pl_counters : hotspot w waiter_lost_count = 0 ∧ hotspot w dropped_current_count = 0;
}.

(** ** Changes the invariant does not see *)

Record same_place (w w' : world) : Prop := {
  sp_st x : st w' x = st w x;
  sp_stop x : stop_pending (threads w' x) = stop_pending (threads w x);
  sp_pstate p : p_state (procs w' p) = PTerminated ↔ p_state (procs w p) = PTerminated;
  sp_pthreads p : p_threads (procs w' p) = p_threads (procs w p);
  sp_ready : ready_queues w' = ready_queues w;
  sp_wait : waiting_queue w' = waiting_queue w;
  sp_current : current w' = current w;
  sp_lost : hotspot w' waiter_lost_count = hotspot w waiter_lost_count;
  sp_dropped : hotspot w' dropped_current_count = hotspot w dropped_current_count;
}.

#[export] Instance same_place_preorder : PreOrder same_place.
Proof.
  split.
  - intros w. by split.
  - intros w1 w2 w3 [M1 M2 M3 M4 M5 M6 M7 M8 M9] [S1 S2 S3 S4 S5 S6 S7 S8 S9].
    split; intros; rewrite ?S1, ?S2, ?S4, ?S5, ?S6, ?S7, ?S8, ?S9; auto. by rewrite S3, M3.
Qed.

Lemma placed_same D w w' : same_place w w' → placed D w → placed D w'.
Proof.
  intros [Hst Hstop Hps Hpt Hr Hw Hc Hl Hd] [].
  split; unfold rkeys, wkeys in *; rewrite ?Hr, ?Hw, ?Hc, ?Hl, ?Hd in *; try done;
    intros k; rewrite ?Hst, ?Hstop, ?Hpt; eauto.
  intros H. destruct (pl_process0 k H) as [H1 H2]. split; [|done]. by rewrite Hps.
Qed.

Lemma st_update w k f x :
  st (update w k f) x = if decide (x = k) then state (f (threads w k)) else st w x.
Proof.
  unfold st, update. simpl. destruct (decide (x = k)) as [->|].
  - by rewrite fn_lookup_insert.
  - by rewrite fn_lookup_insert_ne by done.
Qed.

Lemma threads_update w k f x :
  threads (update w k f) x = if decide (x = k) then f (threads w k) else threads w x.
Proof.
  unfold update. simpl. destruct (decide (x = k)) as [->|].
  - by rewrite fn_lookup_insert.
  - by rewrite fn_lookup_insert_ne by done.
Qed.

Lemma same_update w k f :
  (∀ t, state (f t) = state t ∧ stop_pending (f t) = stop_pending t) → same_place w (update w k f).
Proof.
  intros Hf. split; try done; intros x; rewrite ?st_update, ?threads_update;
    destruct (decide (x = k)) as [->|]; try done; apply Hf.
Qed.

Lemma same_observe w c n :
  c ≠ waiter_lost_count → c ≠ dropped_current_count → same_place w (observe w c n).
Proof. intros. split; try done; simpl; by rewrite fn_lookup_insert_ne. Qed.

Create HintDb sched.
#[export] Hint Extern 0 (same_place ?w ?w) => reflexivity : sched.
#[export] Hint Extern 1 (same_place _ (update _ _ _)) => apply same_update; by intros : sched.
#[export] Hint Extern 1 (same_place _ (observe _ _ _)) => apply same_observe; done : sched.
#[export] Hint Extern 1 (same_place _ (set_wait_outcome _ _ _)) => apply same_update; by intros : sched.
#[export] Hint Extern 1 (same_place _ (set_priority _ _ _)) => apply same_update; by intros : sched.
#[export] Hint Extern 1 (same_place _ (set_queue _ _ _)) => by split : sched.
#[export] Hint Extern 1 (same_place _ (set_waiters _ _)) => by split : sched.
#[export] Hint Extern 1 (same_place _ (set_permit _ _ _)) => by split : sched.
#[export] Hint Extern 1 (same_place _ (set_signaled _ _ _)) => by split : sched.
#[export] Hint Extern 1 (same_place _ (set_need_resched _ _)) => by split : sched.
#[export] Hint Extern 1 (same_place _ (set_ticks _ _)) => by split : sched.

Lemma same_need_resched w k : same_place w (maybe_set_need_resched w k).
Proof. unfold maybe_set_need_resched. destruct (current w); [|done]. destruct (prio_gt _ _); auto with sched. Qed.

Lemma same_set_current_wait_outcome w o : same_place w (set_current_wait_outcome w o).
Proof. unfold set_current_wait_outcome. destruct (current w); auto with sched. Qed.

Lemma same_remove_waiter w c k : same_place w (remove_waiter w c k).
Proof. destruct c; by split. Qed.

Lemma same_prune w q : same_place w (prune_stale_waiters w q).
Proof. by split. Qed.

Lemma same_pop w q : same_place w (pop_waiter w q).1.
Proof. unfold pop_waiter. destruct (take_next_waiter _ _). by split. Qed.

#[export] Hint Resolve same_need_resched same_set_current_wait_outcome same_remove_waiter same_prune
  same_pop : sched.

(** ** Transitions of a placed thread *)

Lemma placed_mono D D' w : (∀ x, x ∈ D → x ∈ D') → placed D w → placed D' w.
Proof.
  intros HD []. split; try done; intros k Hk.
  - destruct (pl_ready0 k Hk); eauto.
  - destruct (pl_waiting0 k Hk); eauto.
  - destruct (pl_running0 k Hk); eauto.
Qed.

(** A thread that is not in a state that needs a place can be struck off. *)
Lemma placed_strike k D w : placed (k :: D) w → st w k = Terminated → placed D w.
Proof.
  intros [] Hk. split; try done; intros x Hx.
  - destruct (pl_ready0 x Hx) as [|[->|]%elem_of_cons]; [by left|congruence|by right].
  - destruct (pl_waiting0 x Hx) as [|[->|]%elem_of_cons]; [by left|congruence|by right].
  - destruct (pl_running0 x Hx) as [|[->|]%elem_of_cons]; [by left|congruence|by right].
Qed.

Lemma spts_live w k ps ts :
  st w k ≠ Terminated → p_state (procs w k.1) ≠ PTerminated →
  set_process_and_thread_state w k ps ts = (set_state (set_process_state w k.1 ps) k ts, true).
Proof.
  intros. unfold set_process_and_thread_state, process_state. by rewrite !bool_decide_eq_false_2.
Qed.

(** The effect of a state transition on what the invariant sees. *)
Record moved (w : world) (k : key) (s : ThreadState) (w' : world) : Prop := {
  mv_st x : st w' x = if decide (x = k) then s else st w x;
  mv_stop x : stop_pending (threads w' x) = stop_pending (threads w x);
  mv_pstate p : p_state (procs w' p) = PTerminated ↔ p_state (procs w p) = PTerminated;
  mv_pthreads p : p_threads (procs w' p) = p_threads (procs w p);
  mv_ready : ready_queues w' = ready_queues w;
  mv_wait : waiting_queue w' = waiting_queue w;
  mv_current : current w' = current w;
  mv_hotspot c : hotspot w' c = hotspot w c;
}.

Lemma moved_set_state w k s : moved w k s (set_state w k s).
Proof.
  unfold set_state. split; try done; intros x; rewrite ?st_update, ?threads_update; [done|].
  by destruct (decide (x = k)) as [->|].
Qed.

Lemma moved_spts w k ps ts :
  ps ≠ PTerminated → p_state (procs w k.1) ≠ PTerminated →
  moved w k ts (set_state (set_process_state w k.1 ps) k ts).
Proof.
  intros Hps Hp. destruct (moved_set_state (set_process_state w k.1 ps) k ts) as [H1 H2 H3 H4].
  split; try done; intros x.
  - rewrite H3. simpl. destruct (decide (x = k.1)) as [->|].
    + by rewrite fn_lookup_insert.
    + by rewrite fn_lookup_insert_ne.
  - rewrite H4. simpl. destruct (decide (x = k.1)) as [->|].
    + by rewrite fn_lookup_insert.
    + by rewrite fn_lookup_insert_ne.
Qed.

Lemma moved_same w k s w' w'' :
  moved w k s w' → same_place w' w'' → (∀ c, hotspot w'' c = hotspot w' c) → moved w k s w''.
Proof.
  intros [M1 M2 M3 M4 M5 M6 M7 M8] [S1 S2 S3 S4 S5 S6 S7 _ _] Hh.
  split; intros; rewrite ?S1, ?S2, ?S4, ?S5, ?S6, ?S7, ?Hh; auto. by rewrite S3, M3.
Qed.

(** A thread without a place becomes [Ready] and is queued. *)
Lemma placed_requeue D w k w1 q :
  placed (k :: D) w → moved w k Ready w1 → k ∉ wkeys w → current w ≠ Some k → st w k ≠ Terminated →
  length q = THREAD_PRIORITY_COUNT → concat q ≡ₚ k :: filter (λ x, x ≠ k) (rkeys w) →
  placed D (set_ready_queues w1 q).
Proof.
  intros [] [M1 M2 M3 M4 M5 M6 M7 M8] Hw Hc Hk Hlen Hq.
  assert (Hin : ∀ x, x ∈ concat q ↔ x = k ∨ x ≠ k ∧ x ∈ rkeys w).
  { intros x. rewrite Hq, elem_of_cons, list_elem_of_filter. done. }
  assert (Est : ∀ x, st (set_ready_queues w1 q) x = st w1 x) by done.
  split; unfold rkeys, wkeys in *; cbn [ready_queues waiting_queue current procs hotspot threads set_ready_queues] in *;
    rewrite ?M6, ?M7, ?M8; try done.
  - rewrite Hq. apply NoDup_cons. split; [by intros [? _]%list_elem_of_filter|]. by apply NoDup_filter.
  - intros x. rewrite Hin, Est, M1. destruct (decide (x = k)); [by left|]. intros [|[_ ?]]; [done|]. auto.
  - intros x. rewrite Hin, Est, M1. destruct (decide (x = k)) as [->|Hx]; [by left; left|]. intros Hr.
    destruct (pl_ready0 x Hr) as [|[|]%elem_of_cons]; auto.
  - intros x Hx. rewrite Est, M1. destruct (decide (x = k)) as [->|]; [done|]. auto.
  - intros x. rewrite Est, M1. destruct (decide (x = k)) as [->|Hx]; [done|]. intros Hr.
    destruct (pl_waiting0 x Hr) as [|[|]%elem_of_cons]; auto. done.
  - intros x Hx. rewrite Est, M1. destruct (decide (x = k)) as [->|]; [done|]. auto.
  - intros x. rewrite Est, M1. destruct (decide (x = k)) as [->|Hx]; [done|]. intros Hr.
    destruct (pl_running0 x Hr) as [|[|]%elem_of_cons]; auto. done.
  - intros x. rewrite Est, M1, M2. destruct (decide (x = k)); [split; [done|]|]; apply pl_not_stopped0.
  - intros x. rewrite Est, M1, M3, M4. destruct (decide (x = k)) as [->|]; auto.
Qed.

(** A thread without a place changes its state. *)
Lemma placed_moved D w k s w' :
  placed (k :: D) w → moved w k s w' → (k ∈ rkeys w → s = Terminated) → k ∉ wkeys w →
  current w ≠ Some k → s ≠ Stopped → (s ≠ Terminated → st w k ≠ Terminated) → placed (k :: D) w'.
Proof.
  intros [] [M1 M2 M3 M4 M5 M6 M7 M8] Hr Hw Hc Hs Ht.
  split; unfold rkeys, wkeys in *; rewrite ?M5, ?M6, ?M7, ?M8; try done; intros x.
  - intros Hx. rewrite M1. destruct (decide (x = k)) as [->|]; [right|]; auto.
  - rewrite M1. destruct (decide (x = k)) as [->|]; [right; left|auto].
  - intros Hx. rewrite M1. destruct (decide (x = k)) as [->|]; [done|auto].
  - rewrite M1. destruct (decide (x = k)) as [->|]; [right; left|auto].
  - intros Hx. rewrite M1. destruct (decide (x = k)) as [->|]; [done|auto].
  - rewrite M1. destruct (decide (x = k)) as [->|]; [right; left|auto].
  - rewrite M1, M2. destruct (decide (x = k)) as [->|]; [split; [done|]|]; apply pl_not_stopped0.
  - rewrite M1, M3, M4. destruct (decide (x = k)) as [->|]; auto.
Qed.

(** The current thread leaves the slot, and a running thread enters it. *)
Lemma placed_take_current D w k :
  placed D w → current w = Some k → placed (k :: D) (set_current w None).
Proof.
  intros [] Hk. split; try done; intros x Hx.
  - destruct (pl_ready0 x Hx); [by left|right; by right].
  - destruct (pl_waiting0 x Hx); [by left|right; by right].
  - right. destruct (pl_running0 x Hx) as [Hc|]; [|by right]. simplify_eq. by left.
Qed.

Lemma placed_set_current D w k :
  placed (k :: D) w → current w = None → st w k = Running → placed D (set_current w (Some k)).
Proof.
  intros [] Hn Hk. split; try done; intros x Hx.
  - destruct (pl_ready0 x Hx) as [|[->|]%elem_of_cons]; [by left|unfold st in *; simpl in *; congruence|by right].
  - destruct (pl_waiting0 x Hx) as [|[->|]%elem_of_cons]; [by left|unfold st in *; simpl in *; congruence|by right].
  - simpl in Hx. by simplify_eq.
  - destruct (pl_running0 x Hx) as [Hc|[->|]%elem_of_cons]; [congruence|by left|by right].
Qed.

(** Taking threads out of the ready queues: the ones that are lost on the way
    were terminated. *)
Lemma placed_dequeue D w r ds q :
  placed D w → length q = THREAD_PRIORITY_COUNT → concat (ready_queues w) ≡ₚ ds ++ r ++ concat q →
  Forall (λ x, dispatchable w x = false) ds → placed (r ++ D) (set_ready_queues w q).
Proof.
  intros [] Hlen Hq Hds. unfold rkeys, wkeys in *.
  assert (Hin : ∀ x, x ∈ concat (ready_queues w) ↔ x ∈ ds ∨ x ∈ r ∨ x ∈ concat q).
  { intros x. by rewrite Hq, !elem_of_app. }
  split; unfold rkeys, wkeys in *; cbn [ready_queues waiting_queue current procs hotspot threads set_ready_queues];
    try done.
  - rewrite Hq in pl_ready_nodup0. by apply NoDup_app in pl_ready_nodup0 as (_ & _ & (_ & _ & ?)%NoDup_app).
  - intros x Hx. apply pl_queued0. rewrite Hin. auto.
  - intros x Hx. rewrite elem_of_app. destruct (pl_ready0 x Hx) as [Hi|]; [|auto].
    rewrite Hin in Hi. destruct Hi as [Hi|[|]]; auto.
    rewrite Forall_forall in Hds. apply Hds in Hi. unfold dispatchable, should_dispatch_ready_thread in Hi.
    by apply bool_decide_eq_false in Hi.
  - intros x Hx. rewrite elem_of_app. destruct (pl_waiting0 x Hx); auto.
  - intros x Hx. rewrite elem_of_app. destruct (pl_running0 x Hx); auto.
Qed.

Lemma placed_drop_ready D w (p : key → bool) :
  placed D w →
  placed (filter (λ x, p x) (rkeys w) ++ D)
    (set_ready_queues w (map (filter (λ x, negb (p x))) (ready_queues w))).
Proof.
  intros Hp. apply (placed_dequeue D w _ []); [done| | |by constructor].
  { rewrite length_map. apply (pl_queues _ _ Hp). }
  rewrite concat_filter. unfold rkeys. cbn [app].
  induction (concat (ready_queues w)) as [|x l IH]; [by rewrite !filter_nil|].
  rewrite !filter_cons. destruct (p x); simpl; rewrite <- ?Permutation_middle; by constructor.
Qed.

(** The same for the waiting queue. *)
Lemma placed_unpark D w taken rest :
  placed D w → waiting_queue w ≡ₚ taken ++ rest →
  placed ((tw_thread <$> taken) ++ D) (set_waiting_queue w rest).
Proof.
  intros [] Hq. unfold rkeys, wkeys in *.
  assert (Hk : tw_thread <$> waiting_queue w ≡ₚ (tw_thread <$> taken) ++ (tw_thread <$> rest)).
  { by rewrite Hq, fmap_app. }
  split; unfold rkeys, wkeys in *; cbn [ready_queues waiting_queue current procs hotspot threads set_waiting_queue];
    try done.
  - rewrite Hk in pl_wait_nodup0. by apply NoDup_app in pl_wait_nodup0 as (_ & _ & ?).
  - intros x Hx. rewrite elem_of_app. destruct (pl_ready0 x Hx); auto.
  - intros x Hx. apply pl_parked0. rewrite Hk, elem_of_app. auto.
  - intros x Hx. rewrite elem_of_app. destruct (pl_waiting0 x Hx) as [Hi|]; [|auto].
    rewrite Hk, elem_of_app in Hi. destruct Hi; auto.
  - intros x Hx. rewrite elem_of_app. destruct (pl_running0 x Hx); auto.
Qed.

Lemma NoDup_fmap_filter {A B} (f : A → B) (P : A → Prop) `{!∀ x, Decision (P x)} l :
  NoDup (f <$> l) → NoDup (f <$> filter P l).
Proof.
  induction l as [|x l IH]; [done|]. rewrite filter_cons, fmap_cons, NoDup_cons. intros [Hx Hl].
  destruct (decide (P x)); [|auto]. rewrite fmap_cons, NoDup_cons. split; [|auto].
  intros (y & E & [_ Hy]%list_elem_of_filter)%list_elem_of_fmap. apply Hx. rewrite E. by apply list_elem_of_fmap_2.
Qed.

(** A waiting thread without a place is parked. *)
Lemma placed_park D w k c :
  placed (k :: D) w → st w k = Waiting → placed D (park_thread w k c).
Proof.
  intros [] Hk. unfold rkeys, wkeys in *.
  assert (Hin : ∀ x, x ∈ tw_thread <$> waiting_queue (park_thread w k c) ↔ x = k ∨ x ∈ tw_thread <$> waiting_queue w).
  { intros x. cbn [waiting_queue park_thread set_waiting_queue]. unfold remove_timed_waiters_by_identity.
    rewrite fmap_app, elem_of_app. change (tw_thread <$> [mkTimedWaiter k c]) with [k].
    rewrite !list_elem_of_fmap, list_elem_of_singleton. split.
    - intros [(y & -> & [_ ?]%list_elem_of_filter)| ->]; [right; eauto|by left].
    - intros [->|(y & -> & ?)]; [by right|]. destruct (decide (tw_thread y = k)) as [->|]; [by right|].
      left. exists y. by rewrite list_elem_of_filter. }
  split; unfold rkeys, wkeys in *; try done.
  - cbn [waiting_queue park_thread set_waiting_queue]. unfold remove_timed_waiters_by_identity.
    rewrite fmap_app. change (tw_thread <$> [mkTimedWaiter k c]) with [k]. apply NoDup_app. split_and!; [| |by apply NoDup_singleton].
    + by apply NoDup_fmap_filter.
    + intros x (y & -> & [Hy _]%list_elem_of_filter)%list_elem_of_fmap. by rewrite list_elem_of_singleton.
  - intros x Hx. destruct (pl_ready0 x Hx) as [|[->|]%elem_of_cons]; auto. unfold st in *. simpl in *. congruence.
  - intros x Hx. apply Hin in Hx as [->|Hx]; [done|]. by apply pl_parked0.
  - intros x Hx. rewrite Hin. destruct (pl_waiting0 x Hx) as [|[->|]%elem_of_cons]; auto.
  - intros x Hx. destruct (pl_running0 x Hx) as [|[->|]%elem_of_cons]; auto. unfold st in *. simpl in *. congruence.
Qed.

(** ** Waking a thread *)

Definition woken (w : world) (k : key) (o : ThreadWaitOutcome) : world :=
  set_wait_outcome
    (update (set_state (set_process_state w k.1 PReady) k Ready) k (with_deadline 0)) k o.

Lemma wake_waiter_placed D w k o :
  placed D w →
  wake_waiter w k o = if decide (st w k = Waiting) then (woken w k o, true) else (w, false).
Proof.
  intros Hp. unfold wake_waiter. destruct (decide (st w k = Waiting)) as [Hk|Hk].
  - rewrite bool_decide_eq_true_2 by done. destruct (pl_not_stopped _ _ Hp k) as [_ ->].
    destruct (pl_process _ _ Hp k) as [Ht _]; [by rewrite Hk|].
    rewrite spts_live by (rewrite ?Hk; done). done.
  - by rewrite bool_decide_eq_false_2.
Qed.

Lemma moved_woken D w k o : placed D w → st w k = Waiting → moved w k Ready (woken w k o).
Proof.
  intros Hp Hk. unfold woken. destruct (pl_process _ _ Hp k) as [Ht _]; [by rewrite Hk|].
  eapply moved_same; [by apply (moved_spts w k PReady)| |done].
  etrans; [by apply (same_update _ k (with_deadline 0))|]. auto with sched.
Qed.

(** What a wake-up leaves behind. *)
Record woke (o : ThreadWaitOutcome) (w : world) (k : key) (w' : world) : Prop := {
  wo_others x : x ≠ k → threads w' x = threads w x;
  wo_state : st w' k = Ready;
  wo_outcome : wait_outcome (threads w' k) = o;
  wo_queued : k ∈ rkeys w';
  wo_wait x : x ∈ wkeys w' → x ∈ wkeys w;
  wo_current : current w' = current w;
  wo_waiters : waiters w' = waiters w;
  wo_permits : permits w' = permits w;
  wo_events : events w' = events w;
}.

Lemma threads_woken w k o x :
  threads (woken w k o) x =
    if decide (x = k) then with_outcome o (with_deadline 0 (with_state Ready (threads w k)))
    else threads w x.
Proof.
  unfold woken, set_wait_outcome, set_state. rewrite !threads_update.
  destruct (decide (k = k)); [|done]. by destruct (decide (x = k)).
Qed.

Lemma dispatchable_ready w k : st w k = Ready → dispatchable w k = true.
Proof. intros Hk. unfold dispatchable, should_dispatch_ready_thread. by rewrite bool_decide_eq_true_2. Qed.

(** A waiting thread without a place is woken and queued. *)
Lemma queue_woken D w k o :
  placed (k :: D) w → st w k = Waiting → k ∉ wkeys w →
  ∃ w', enqueue_ready_thread_local (woken w k o) k = (w', Enqueued) ∧ placed D w' ∧ woke o w k w'.
Proof.
  intros Hp Hk Hw. pose proof (moved_woken _ w k o Hp Hk) as Hm.
  assert (Hr : st (woken w k o) k = Ready) by (rewrite (mv_st _ _ _ _ Hm); by rewrite decide_True).
  destruct (enqueue_perm (woken w k o) (ready_queues w) k) as (H1 & H2 & H3);
    [apply (pl_queues _ _ Hp)|by apply dispatchable_ready|].
  unfold enqueue_ready_thread_local. change (ready_queues (woken w k o)) with (ready_queues w).
  destruct (enqueue_ready_thread (woken w k o) (ready_queues w) k) as [q out]. simpl in H1, H2, H3. subst out.
  exists (set_ready_queues (woken w k o) q). split; [done|]. split.
  - eapply placed_requeue; [done|done|done| | |done|done]; [|by rewrite Hk].
    intros Hc. apply (pl_current _ _ Hp) in Hc. congruence.
  - split; try done.
    + intros x Hx. cbn [threads set_ready_queues]. rewrite threads_woken. by rewrite decide_False.
    + cbn [threads set_ready_queues]. rewrite threads_woken. by rewrite decide_True.
    + unfold rkeys. simpl. rewrite H3. by left.
Qed.

Lemma woke_same o w k w1 w2 :
  woke o w k w1 → threads w2 = threads w1 → ready_queues w2 = ready_queues w1 →
  waiting_queue w2 = waiting_queue w1 → current w2 = current w1 → waiters w2 = waiters w1 →
  permits w2 = permits w1 → events w2 = events w1 → woke o w k w2.
Proof.
  intros [] E1 E2 E3 E4 E5 E6 E7. split; unfold st, rkeys, wkeys in *; rewrite ?E1, ?E2, ?E3, ?E4, ?E5, ?E6, ?E7; auto.
Qed.

Lemma take_identity_spec l k rest removed :
  take_timed_waiters_by_identity l k = (rest, removed) →
  l ≡ₚ removed ++ rest ∧ Forall (λ x, tw_thread x = k) removed ∧ k ∉ tw_thread <$> rest.
Proof.
  unfold take_timed_waiters_by_identity. intros E.
  destruct (take_where_spec (is_key k) l) as [H1 H2]. rewrite E in H1, H2. simpl in H1, H2. split_and!.
  - rewrite H1, H2. clear. induction l as [|x l IH]; [by rewrite !filter_nil|].
    rewrite !filter_cons. destruct (is_key k x); simpl; rewrite <- ?Permutation_middle; by constructor.
  - rewrite H2. apply Forall_forall. intros x [Hx _]%list_elem_of_filter. unfold is_key in Hx.
    by apply bool_decide_unpack in Hx.
  - rewrite H1. intros (x & -> & [Hx _]%list_elem_of_filter)%list_elem_of_fmap. unfold is_key in Hx.
    by rewrite bool_decide_eq_true_2 in Hx.
Qed.

(** Removing the registration of a thread that does not wait loses no waiter. *)
Lemma remove_timed_waiter_quiet w k rest removed :
  take_timed_waiters_by_identity (waiting_queue w) k = (rest, removed) → st w k ≠ Waiting →
  remove_timed_waiter w k = set_waiting_queue w rest.
Proof.
  intros E Hk. unfold remove_timed_waiter. rewrite E.
  apply take_identity_spec in E as (_ & Hr & _). clear -Hr Hk.
  induction Hr as [|x l Hx _ IH]; [done|]. cbn [foldl]. unfold lost_waiter at 2.
  rewrite Hx, bool_decide_eq_false_2; done.
Qed.

Lemma wake_thread_spec D w k :
  placed D w → st w k = Waiting →
  ∃ w', wake_thread w k = (w', true) ∧ placed D w' ∧ woke Completed w k w'.
Proof.
  intros Hp Hk. unfold wake_thread, wake_by_signal. rewrite (wake_waiter_placed D) by done.
  rewrite decide_True by done.
  destruct (take_timed_waiters_by_identity (waiting_queue w) k) as [rest removed] eqn:E.
  rewrite (remove_timed_waiter_quiet _ _ rest removed); [|done|].
  2:{ unfold st. rewrite threads_woken, decide_True by done. done. }
  apply take_identity_spec in E as (Hq & Hr & Hn).
  pose proof (placed_unpark D w removed rest Hp Hq) as Hu.
  change (set_waiting_queue (woken w k Completed) rest) with (woken (set_waiting_queue w rest) k Completed).
  assert (Hu' : placed (k :: D) (set_waiting_queue w rest)).
  { eapply placed_mono; [|exact Hu]. intros x. rewrite elem_of_app, elem_of_cons, list_elem_of_fmap.
    rewrite Forall_forall in Hr. intros [(y & -> & ?)|]; [left; auto|by right]. }
  destruct (queue_woken D (set_waiting_queue w rest) k Completed Hu' Hk Hn) as (w' & -> & Hp' & Hw').
  eexists. split; [done|]. split.
  - eapply placed_same; [|exact Hp']. etrans; [|apply same_need_resched]. auto with sched.
  - assert (He : woke Completed w k w').
    { destruct Hw'. split; try done. intros x Hx. unfold wkeys. rewrite Hq, fmap_app, elem_of_app.
      right. by apply wo_wait0. }
    eapply woke_same; [exact He|..]; unfold maybe_set_need_resched; by repeat case_match.
Qed.

Lemma wake_thread_refused D w k :
  placed D w → st w k ≠ Waiting → wake_thread w k = (observe w wake_refused_count 1, false).
Proof.
  intros Hp Hk. unfold wake_thread, wake_by_signal. rewrite (wake_waiter_placed D) by done.
  by rewrite decide_False.
Qed.
