(* ===== verification/SchedOps.v ===== *)
(** * The placement invariant through the scheduler's operations *)

From stdpp Require Import base tactics decidable numbers list functions relations.
From S2P Require Import Prelude Thread ReadyQueue Sched SchedInv.

(** ** Wake-ups through a wait queue *)

(** What wake-ups do not do: park a thread, change the current one, or revive a
    terminated one. *)
Record quiet (w w' : world) : Prop := {
  qu_terminated x : st w x = Terminated → st w' x = Terminated;
  qu_wait x : x ∈ wkeys w' → x ∈ wkeys w;
  qu_current : current w' = current w;
}.

#[export] Instance quiet_preorder : PreOrder quiet.
Proof.
  split; [by split|]. intros w1 w2 w3 [A1 A2 A3] [B1 B2 B3]. split; auto. by rewrite B3.
Qed.

Lemma quiet_same w w' : same_place w w' → quiet w w'.
Proof. intros []. split; unfold wkeys; intros; congruence. Qed.

Lemma quiet_woke o w k w' : st w k = Waiting → woke o w k w' → quiet w w'.
Proof.
  intros Hk Hw. split; [|apply (wo_wait _ _ _ _ Hw)|apply (wo_current _ _ _ _ Hw)].
  intros x Hx. unfold st in *. destruct (decide (x = k)) as [->|]; [congruence|].
  by rewrite (wo_others _ _ _ _ Hw).
Qed.

Lemma wake_thread_placed D w k :
  placed D w → placed D (wake_thread w k).1 ∧ quiet w (wake_thread w k).1.
Proof.
  intros Hp. destruct (decide (st w k = Waiting)) as [Hk|Hk].
  - destruct (wake_thread_spec D w k Hp Hk) as (w' & -> & Hp' & Hw). split; [done|]. by eapply quiet_woke.
  - rewrite (wake_thread_refused D) by done. cbn [fst]. assert (same_place w (observe w wake_refused_count 1)) by auto with sched.
    split; [by eapply placed_same|by apply quiet_same].
Qed.

Lemma wake_threads_placed D w l :
  placed D w → placed D (wake_threads w l).1 ∧ quiet w (wake_threads w l).1.
Proof.
  revert w. induction l as [|k l IH]; intros w Hp; [by split|]. cbn [wake_threads].
  destruct (wake_thread_placed D w k Hp) as [H1 H2]. destruct (wake_thread w k) as [w1 b]. cbn [fst] in *.
  destruct (IH w1 H1) as [H3 H4]. destruct (wake_threads w1 l) as [w2 n]. cbn [fst] in *.
  split; [done|]. by etrans.
Qed.

(** The [select] closures only edit the wait queue and its state. *)
Lemma same_release_select q n w : same_place w (release_select q n w).1.
Proof.
  revert w. induction n as [|n IH]; intros w; [done|]. cbn [release_select].
  pose proof (same_pop w q) as Hs. destruct (pop_waiter w q) as [w1 [k|]]; cbn [fst] in Hs.
  - specialize (IH w1). destruct (release_select q n w1). cbn [fst] in *. by etrans.
  - etrans; [exact Hs|]. etrans; [|apply IH]. auto with sched.
Qed.

Lemma same_signal_select q w : same_place w (signal_select q w).1.
Proof.
  unfold signal_select. destruct (mode (events w q)); [by split|].
  pose proof (same_pop w q) as Hs. destruct (pop_waiter w q) as [w1 [k|]]; cbn [fst] in *;
    (etrans; [exact Hs|]); auto with sched.
Qed.

Lemma wake_with_placed D w q select :
  (∀ w, same_place w (select w).1) → placed D w →
  placed D (wake_with w q select).1 ∧ quiet w (wake_with w q select).1.
Proof.
  intros Hs Hp. unfold wake_with, wake_select.
  assert (H : same_place w (select (prune_stale_waiters w q)).1) by (etrans; [apply same_prune|apply Hs]).
  destruct (select (prune_stale_waiters w q)) as [w1 l]. cbn [fst] in H.
  destruct (wake_threads_placed D w1 l) as [H1 H2]; [by eapply placed_same|].
  split; [done|]. etrans; [by apply quiet_same|done].
Qed.

Lemma signal_placed D w q : placed D w → placed D (signal w q).1 ∧ quiet w (signal w q).1.
Proof. apply wake_with_placed, same_signal_select. Qed.

Lemma release_placed D w q n : placed D w → placed D (release w q n).1 ∧ quiet w (release w q n).1.
Proof. apply wake_with_placed. intros. apply same_release_select. Qed.

Lemma wake_one_placed D w q : placed D w → placed D (wake_one w q).1.
Proof.
  intros Hp. unfold wake_one.
  destruct (wake_with_placed D w q (λ w, let '(w, r) := pop_waiter w q in (w, option_list r))) as [H _]; [|done|].
  - intros w'. pose proof (same_pop w' q) as Hs. by destruct (pop_waiter w' q).
  - by destruct (wake_with _ _ _).
Qed.

Lemma wake_all_placed D w q : placed D w → placed D (wake_all w q).1.
Proof. intros Hp. by apply wake_with_placed. Qed.

(** ** Termination *)

Lemma placed_terminate D w k :
  placed D w → k ∉ wkeys w → current w ≠ Some k → placed D (set_state w k Terminated).
Proof.
  intros Hp Hw Hc. pose proof (moved_set_state w k Terminated) as Hm. apply (placed_strike k).
  - eapply placed_moved; [|exact Hm|..]; try done. eapply placed_mono; [|exact Hp]. intros. by right.
  - rewrite (mv_st _ _ _ _ Hm). by rewrite decide_True.
Qed.

(** Forgetting a terminated thread of a process. *)
Lemma placed_forget D w k s :
  placed D w → st w k = Terminated →
  (s = p_state (procs w k.1) ∨
     s = PTerminated ∧ filter (λ t, t ≠ k.2) (p_threads (procs w k.1)) = []) →
  placed D (set_procs w (<[k.1 := mkProcess s (filter (λ t, t ≠ k.2) (p_threads (procs w k.1)))]> (procs w))).
Proof.
  intros Hp Hk Hs. pose proof (pl_process _ _ Hp) as Hproc. destruct Hp. split; try done.
  intros x Hx. cbn [procs set_procs].
  destruct (decide (x.1 = k.1)) as [E|]; [|rewrite fn_lookup_insert_ne by done; by apply Hproc].
  rewrite E, fn_lookup_insert. cbn [p_state p_threads]. destruct (Hproc x Hx) as [H1 H2]. rewrite E in H1, H2.
  assert (Hin : x.2 ∈ filter (λ t, t ≠ k.2) (p_threads (procs w k.1))).
  { apply list_elem_of_filter. split; [|done]. intros E2. apply Hx. unfold st in *. simpl.
    replace x with k; [done|]. destruct x, k; simpl in *; congruence. }
  split; [|done]. destruct Hs as [->|[-> Hn]]; [done|]. rewrite Hn in Hin. by apply elem_of_nil in Hin.
Qed.

Lemma finish_thread_termination_placed D w k :
  placed D w → st w k = Terminated →
  placed D (finish_thread_termination w k) ∧ quiet w (finish_thread_termination w k).
Proof.
  intros Hp Hk. unfold finish_thread_termination. destruct (negb _); [by split|].
  pose proof (placed_forget D w k (p_state (procs w k.1)) Hp Hk (or_introl eq_refl)) as H1.
  set (rest := filter (λ t, t ≠ k.2) (p_threads (procs w k.1))) in *.
  set (w1 := set_procs w _) in *. assert (Q1 : quiet w w1) by by split.
  destruct (negb (bool_decide (rest = [])) || _) eqn:E; [done|].
  apply orb_false_iff in E as [E1 _]. apply negb_false_iff, bool_decide_eq_true in E1.
  unfold complete_termination.
  assert (H2 : placed D (set_process_state w1 k.1 PTerminated)).
  { pose proof (placed_forget D w k PTerminated Hp Hk (or_intror (conj eq_refl E1))) as H2. fold rest in H2.
    eapply placed_same; [|exact H2]. split; try done; intros p; unfold w1; cbn [procs set_process_state set_procs];
      (destruct (decide (p = k.1)) as [->|]; [by rewrite !fn_lookup_insert|by rewrite !fn_lookup_insert_ne]). }
  destruct (signal_placed D _ (ProcessExit k.1) H2) as [H3 Q3]. split; [done|].
  etrans; [exact Q1|]. etrans; [|exact Q3]. by split.
Qed.

Lemma finish_termination_placed D w k :
  placed D w → k ∉ wkeys w → current w ≠ Some k →
  placed D (finish_termination w k) ∧ quiet w (finish_termination w k) ∧
  st (finish_termination w k) k = Terminated.
Proof.
  intros Hp Hw Hc. unfold finish_termination. case_bool_decide as Hk; [by split_and!|].
  pose proof (placed_terminate D w k Hp Hw Hc) as H1. pose proof (moved_set_state w k Terminated) as Hm.
  set (w1 := set_state w k Terminated) in *.
  assert (T1 : st w1 k = Terminated) by (rewrite (mv_st _ _ _ _ Hm); by rewrite decide_True).
  assert (Q1 : quiet w w1).
  { split; try done. intros x Hx. rewrite (mv_st _ _ _ _ Hm), Hx. by destruct (decide (x = k)). }
  destruct (finish_thread_termination_placed D w1 k H1 T1) as [H2 Q2].
  set (w2 := finish_thread_termination w1 k) in *.
  destruct (signal_placed D w2 (ThreadExit k) H2) as [H3 Q3]. set (w3 := (signal w2 (ThreadExit k)).1) in *.
  assert (S4 : same_place w3 (set_wait_outcome (update w3 k (with_deadline 0)) k Completed)).
  { etrans; [by apply (same_update _ k (with_deadline 0))|]. auto with sched. }
  assert (Q4 : quiet w (set_wait_outcome (update w3 k (with_deadline 0)) k Completed)).
  { etrans; [exact Q1|]. etrans; [exact Q2|]. etrans; [exact Q3|]. by apply quiet_same. }
  split_and!; [by eapply placed_same|done|].
  rewrite (sp_st _ _ S4). by apply (qu_terminated _ _ Q3), (qu_terminated _ _ Q2).
Qed.

(** Terminating threads that an operation has taken out of the queues. *)
Lemma finish_all_placed D w l :
  placed (l ++ D) w → (∀ x, x ∈ l → (x ∉ wkeys w) ∧ current w ≠ Some x) →
  placed D (foldl finish_termination w l) ∧ quiet w (foldl finish_termination w l).
Proof.
  revert w. induction l as [|k l IH]; intros w Hp Hl; [by split|]. cbn [foldl].
  destruct (Hl k) as [Hk1 Hk2]; [by left|].
  destruct (finish_termination_placed (k :: l ++ D) w k Hp Hk1 Hk2) as (H1 & Q1 & T1).
  destruct (IH (finish_termination w k)) as [H2 Q2].
  - by apply (placed_strike k).
  - intros x Hx. destruct (Hl x) as [Hx1 Hx2]; [by right|]. rewrite (qu_current _ _ Q1). split; [|done].
    intros Hi. by apply Hx1, (qu_wait _ _ Q1).
  - split; [done|]. by etrans.
Qed.

Lemma filter_split {A} (p : A → bool) (l : list A) :
  l ≡ₚ filter (λ x, p x) l ++ filter (λ x, negb (p x)) l.
Proof.
  induction l as [|x l IH]; [by rewrite !filter_nil|].
  rewrite !filter_cons. destruct (p x); simpl; rewrite <- ?Permutation_middle; by constructor.
Qed.

Lemma filter_keys (p : key → bool) (l : list TimedWaiter) :
  tw_thread <$> filter (λ x, p (tw_thread x)) l = filter (λ x, p x) (tw_thread <$> l).
Proof.
  induction l as [|x l IH]; [done|]. rewrite fmap_cons, !filter_cons.
  destruct (p (tw_thread x)); simpl; [f_equal|]; exact IH.
Qed.

(** Taking the threads a predicate names out of both queues. *)
Lemma placed_clear D w (p : key → bool) :
  placed D w →
  let w' := set_waiting_queue
              (set_ready_queues w (map (filter (λ x, negb (p x))) (ready_queues w)))
              (filter (λ x, negb (p (tw_thread x))) (waiting_queue w)) in
  placed ((filter (λ x, p x) (rkeys w) ++ filter (λ x, p x) (wkeys w)) ++ D) w' ∧
  ∀ x, x ∈ wkeys w' → p x = false.
Proof.
  intros Hp w'. split.
  - pose proof (placed_drop_ready D w p Hp) as H1.
    apply (placed_unpark _ _ (filter (λ x, p (tw_thread x)) (waiting_queue w))
             (filter (λ x, negb (p (tw_thread x))) (waiting_queue w))) in H1;
      [|exact (filter_split (λ x, p (tw_thread x)) _)].
    eapply placed_mono; [|exact H1]. intros x. rewrite filter_keys. unfold wkeys. rewrite !elem_of_app. tauto.
  - intros x (y & -> & [Hy _]%list_elem_of_filter)%list_elem_of_fmap.
    by destruct (p (tw_thread y)).
Qed.

Lemma finish_current_thread_placed w :
  placed [] w → placed [] (finish_current_thread w).1 ∧ current (finish_current_thread w).1 = None.
Proof.
  intros Hp. unfold finish_current_thread. destruct (current w) as [k|] eqn:Ec; [|done]. cbn [fst].
  pose proof (placed_take_current [] w k Hp Ec) as H1. set (w0 := set_current w None) in *.
  destruct (placed_clear [k] w0 (is_sibling k) H1) as [H2 N2]. unfold terminate_sibling_threads.
  set (dying := filter (λ x, is_sibling k x) (concat (ready_queues w0)) ++ _).
  set (w1 := set_waiting_queue _ _) in *.
  assert (Hk : st w0 k = Running) by apply (pl_current _ _ Hp k Ec).
  destruct (finish_all_placed [k] w1 dying) as [H3 Q3]; [exact H2| |].
  { intros x Hx. split; [|done]. intros Hi. apply N2 in Hi. unfold dying in Hx.
    rewrite elem_of_app, !list_elem_of_filter in Hx. rewrite Hi in Hx. naive_solver. }
  set (w2 := foldl finish_termination w1 dying) in *.
  destruct (finish_termination_placed [k] w2 k H3) as (H4 & Q4 & T4).
  { intros Hi. apply (qu_wait _ _ Q3) in Hi. apply (pl_parked _ _ H2) in Hi.
    change (st w1 k) with (st w0 k) in Hi. congruence. }
  { by rewrite (qu_current _ _ Q3). }
  apply placed_strike in H4; [|done].
  destruct (take_timed_waiters_by_identity (waiting_queue (finish_termination w2 k)) k) as [rest removed] eqn:E.
  rewrite (remove_timed_waiter_quiet _ _ rest removed) by (done || by rewrite T4).
  apply take_identity_spec in E as (Hq & Hr & _). pose proof (placed_unpark _ _ _ _ H4 Hq) as H5.
  destruct removed as [|y removed].
  { split; [done|]. cbn [current set_waiting_queue]. by rewrite (qu_current _ _ Q4), (qu_current _ _ Q3). }
  exfalso. assert (Hy : k ∈ wkeys (finish_termination w2 k)).
  { unfold wkeys. rewrite Hq, fmap_app, elem_of_app. left. apply list_elem_of_fmap. exists y.
    inversion Hr; subst. split; [done|by left]. }
  apply (pl_parked _ _ H4) in Hy. congruence.
Qed.

(** ** Dispatch *)

(** The thread taken from the queues becomes the current one. *)
Lemma placed_dispatch w k w1 :
  placed [k] w → current w = None → st w k = Ready → k ∉ rkeys w →
  moved w k Running w1 → placed [] (set_current w1 (Some k)).
Proof.
  intros Hp Hc Hk Hr Hm. apply placed_set_current.
  - eapply placed_moved; [done|exact Hm|done| |by rewrite Hc|done|by rewrite Hk].
    intros Hi. apply (pl_parked _ _ Hp) in Hi. congruence.
  - by rewrite (mv_current _ _ _ _ Hm).
  - rewrite (mv_st _ _ _ _ Hm). by rewrite decide_True.
Qed.

(** What the walk of the ready queues does to the placement. *)
Lemma take_next_placed w :
  placed [] w →
  let '(q, r, d) := take_next_dispatchable_thread_with_dropped w (ready_queues w) in
  placed (option_list r) (set_ready_queues w q) ∧
  ∀ k, r = Some k → st w k = Ready ∧ k ∉ concat q.
Proof.
  intros Hp. unfold take_next_dispatchable_thread_with_dropped.
  pose proof (take_from_spec w (ready_queues w) THREAD_PRIORITY_COUNT 0) as H1.
  pose proof (take_from_perm w (ready_queues w) THREAD_PRIORITY_COUNT 0) as H2.
  rewrite (pl_queues _ _ Hp) in H1, H2. specialize (H1 ltac:(lia)). specialize (H2 ltac:(lia)).
  destruct (take_from _ _ _ _) as [[q r] d]. destruct H1 as (Hlen & _ & _). destruct H2 as (ds & Hds & _ & Hq & Hr).
  split.
  - rewrite <- (app_nil_r (option_list r)). by eapply placed_dequeue.
  - intros k ->. unfold dispatchable, should_dispatch_ready_thread in Hr. apply bool_decide_eq_true in Hr.
    split; [done|]. pose proof (pl_ready_nodup _ _ Hp) as Hn. unfold rkeys in Hn. rewrite Hq in Hn.
    apply NoDup_app in Hn as (_ & _ & Hn). simpl in Hn. by apply NoDup_cons in Hn as [? _].
Qed.

Lemma restore_context_moved D w k :
  placed D w → st w k ≠ Terminated → moved w k Running (restore_context w k).
Proof.
  intros Hp Hk. destruct (pl_process _ _ Hp k Hk) as [H _]. unfold restore_context.
  rewrite spts_live by done. by apply moved_spts.
Qed.

Lemma yield_moved D w k :
  placed D w → st w k ≠ Terminated → moved w k Ready (yield_back_to_ready w k).
Proof.
  intros Hp Hk. destruct (pl_process _ _ Hp k Hk) as [H _]. unfold yield_back_to_ready.
  rewrite spts_live by done. by apply moved_spts.
Qed.

Lemma dispatch_next_simulated_placed w :
  placed [] w → current w = None → placed [] (dispatch_next_simulated w).1.
Proof.
  intros Hp Hc. unfold dispatch_next_simulated, take_next_dispatchable_thread.
  pose proof (take_next_placed w Hp) as H. destruct (take_next_dispatchable_thread_with_dropped _ _) as [[q r] d].
  destruct H as [H1 H2]. cbn [fst]. destruct r as [k|]; [|done]. destruct (H2 k eq_refl) as [Hk Hn].
  eapply placed_same; [by apply (same_observe _ dispatch_count 1)|].
  eapply placed_dispatch; [exact H1|done|done|done|]. eapply restore_context_moved; [exact H1|]. change (st w k ≠ Terminated). by rewrite Hk.
Qed.

Lemma schedule_round_placed `{SchedEnv} w :
  placed [] w → current w = None → placed [] (schedule_round w).1.
Proof.
  intros Hp Hc. unfold schedule_round, take_current_request. rewrite Hc. cbn [negb]. rewrite Hc.
  rewrite bool_decide_eq_false_2 by by intros [? ?]. cbn [andb].
  pose proof (take_next_placed w Hp) as H1. destruct (take_next_dispatchable_thread_with_dropped _ _) as [[q r] d].
  destruct H1 as [H1 H2]. set (w1 := set_ready_queues w q) in *.
  set (w2 := if d =? 0 then w1 else observe w1 dropped_ready_count d).
  assert (S2 : same_place w1 w2) by (unfold w2; destruct (d =? 0); auto with sched).
  pose proof (placed_same _ _ _ S2 H1) as H3.
  destruct r as [k|]; [|done]. destruct (H2 k eq_refl) as [Hk Hn].
  assert (Hk2 : st w2 k = Ready) by by rewrite (sp_st _ _ S2).
  destruct (negb (address_space_ok k)); cbn [fst].
  - assert (current w2 = None) by by rewrite (sp_current _ _ S2).
    destruct (finish_termination_placed [k] w2 k H3) as (H4 & _ & T4); [|congruence|by apply (placed_strike k)].
    intros Hi. apply (pl_parked _ _ H3) in Hi. congruence.
  - eapply placed_same; [|eapply placed_dispatch; [exact H3| |exact Hk2| |]].
    + etrans; [by apply (same_observe _ dispatch_count 1)|]. auto with sched.
    + by rewrite (sp_current _ _ S2).
    + unfold rkeys. by rewrite (sp_ready _ _ S2).
    + eapply restore_context_moved; [exact H3|by rewrite Hk2].
Qed.

(** ** Leaving the CPU *)

Lemma prune_placed D w :
  placed D w →
  placed D (set_ready_queues w (prune_nondispatchable_ready_threads w (ready_queues w))).
Proof.
  intros Hp. unfold prune_nondispatchable_ready_threads.
  apply (placed_dequeue D w [] (filter (λ k, negb (dispatchable w k)) (rkeys w))); [done| | |].
  - rewrite length_map. apply (pl_queues _ _ Hp).
  - rewrite concat_filter. cbn [app]. rewrite Permutation_app_comm. apply (filter_split (dispatchable w)).
  - apply Forall_forall. intros x [Hx _]%list_elem_of_filter. by destruct (dispatchable w x).
Qed.

(** The current thread goes back to a ready queue. *)
Lemma placed_requeue_current w k w1 :
  placed [k] w → current w = None → st w k = Running →
  moved w k Ready w1 →
  (requeue_preempted_thread w1 (ready_queues w1) k).2 = true ∧
  placed [] (set_ready_queues w1 (requeue_preempted_thread w1 (ready_queues w1) k).1).
Proof.
  intros Hp Hc Hk Hm. rewrite (mv_ready _ _ _ _ Hm).
  destruct (requeue_perm w1 (ready_queues w) k) as (H1 & H2 & H3).
  - apply (pl_queues _ _ Hp).
  - apply dispatchable_ready. rewrite (mv_st _ _ _ _ Hm). by rewrite decide_True.
  - split; [done|]. eapply placed_requeue; try done; [|by rewrite Hc|by rewrite Hk].
    intros Hi. apply (pl_parked _ _ Hp) in Hi. congruence.
Qed.

Lemma same_preempted w (b : bool) : same_place w (if b then observe w preempt_count 1 else w).
Proof. destruct b; auto with sched. Qed.

Lemma leave_cpu_placed w b : placed [] w → placed [] (leave_cpu w b).1.
Proof.
  intros Hp. unfold leave_cpu. destruct (current w) as [k|] eqn:Ec; [|done].
  pose proof (placed_take_current [] w k Hp Ec) as H1. set (w1 := set_current w None) in *.
  unfold has_dispatchable_ready_thread. pose proof (prune_placed _ _ H1) as H2.
  set (w2 := set_ready_queues w1 _) in *. assert (Hk : st w2 k = Running) by apply (pl_current _ _ Hp k Ec).
  destruct (negb _); cbn [fst].
  { apply placed_set_current; done. }
  pose proof (yield_moved _ w2 k H2 ltac:(by rewrite Hk)) as Hm.
  set (w3 := yield_back_to_ready w2 k) in *.
  pose proof (same_preempted w3 b) as S3. set (w4 := if b then observe w3 preempt_count 1 else w3) in *.
  destruct (placed_requeue_current w2 k w3 H2 eq_refl Hk Hm) as [R1 R2].
  assert (E : requeue_preempted_thread w4 (ready_queues w4) k = requeue_preempted_thread w3 (ready_queues w3) k).
  { unfold w4. by destruct b. }
  rewrite E. destruct (requeue_preempted_thread w3 (ready_queues w3) k) as [q r]. cbn [fst snd] in *. subst r.
  cbn [fst]. eapply placed_same; [|exact R2]. unfold w4. destruct b; [|done].
  by apply (same_observe (set_ready_queues w3 q) preempt_count 1).
Qed.

Lemma preempt_current_thread_simulated_placed w :
  placed [] w →
  placed [] (preempt_current_thread_simulated w).1 ∧
  ((preempt_current_thread_simulated w).2 = true → current (preempt_current_thread_simulated w).1 = None).
Proof.
  intros Hp. unfold preempt_current_thread_simulated. destruct (current w) as [k|] eqn:Ec; [|by split].
  pose proof (placed_take_current [] w k Hp Ec) as H1. set (w1 := set_current w None) in *.
  assert (Hk : st w1 k = Running) by apply (pl_current _ _ Hp k Ec). rewrite Hk. cbn [negb should_requeue_simulated_preempted_thread].
  unfold has_dispatchable_ready_thread. pose proof (prune_placed _ _ H1) as H2.
  set (w2 := set_ready_queues w1 _) in *. destruct (negb _); cbn [fst snd].
  { split; [|done]. apply placed_set_current; done. }
  pose proof (yield_moved _ w2 k H2 ltac:(by change (st w2 k) with (st w1 k); rewrite Hk)) as Hm.
  set (w3 := yield_back_to_ready w2 k) in *.
  destruct (placed_requeue_current w2 k w3 H2 eq_refl Hk Hm) as [_ R2]. split.
  - eapply placed_same; [|exact R2]. by apply same_observe.
  - intros _. cbn [current observe set_hotspot set_ready_queues]. by rewrite (mv_current _ _ _ _ Hm).
Qed.

(** It leaves the slot empty, unless no queued thread can run. *)
Lemma preempt_keeps w :
  placed [] w →
  current (preempt_current_thread_simulated w).1 = None ∨
  ∀ k, k ∈ rkeys (preempt_current_thread_simulated w).1 →
    dispatchable (preempt_current_thread_simulated w).1 k = false.
Proof.
  intros Hp. unfold preempt_current_thread_simulated. destruct (current w) as [k|] eqn:Ec; [|by left].
  destruct (negb (should_requeue_simulated_preempted_thread _)); [by left|].
  unfold has_dispatchable_ready_thread. set (q := prune_nondispatchable_ready_threads _ _).
  destruct (negb (existsb _ q)) eqn:E; cbn [fst]; [right|left].
  - intros x Hx. exfalso. apply negb_true_iff in E. unfold rkeys in Hx. cbn [ready_queues set_current set_ready_queues] in Hx.
    clearbody q. induction q as [|l q IH]; simpl in *; [by apply elem_of_nil in Hx|].
    apply orb_false_iff in E as [E1 E2]. apply negb_false_iff, bool_decide_eq_true in E1. subst l. auto.
  - cbn [current observe set_hotspot set_ready_queues]. unfold yield_back_to_ready, set_process_and_thread_state.
    by repeat case_match.
Qed.

(** ** Blocking *)

Lemma enter_waiting_moved D w k t :
  placed D w → st w k ≠ Terminated → moved w k Waiting (enter_waiting_state w k t).
Proof.
  intros Hp Hk. destruct (pl_process _ _ Hp k Hk) as [H _]. unfold enter_waiting_state.
  rewrite spts_live by done. eapply moved_same; [by apply (moved_spts w k PWaiting)| |done].
  etrans; [by eapply (same_update _ k (with_deadline _))|]. auto with sched.
Qed.

(** The blocking step every prepare closure that accepts ends with. *)
Lemma placed_block w k t c :
  placed [k] w → current w = None → st w k = Running →
  placed [] (park_thread (enter_waiting_state w k t) k c).
Proof.
  intros Hp Hc Hk. pose proof (enter_waiting_moved _ w k t Hp ltac:(by rewrite Hk)) as Hm.
  apply placed_park.
  - eapply placed_moved; [done|exact Hm| | |by rewrite Hc|done|by rewrite Hk].
    + intros Hi. apply (pl_queued _ _ Hp) in Hi as [?|?]; congruence.
    + intros Hi. apply (pl_parked _ _ Hp) in Hi. congruence.
  - rewrite (mv_st _ _ _ _ Hm). by rewrite decide_True.
Qed.

(** A closure that refuses changes nothing the invariant sees; one that accepts
    has parked the thread. *)
Definition prepares (prepare : world → key → world * bool) : Prop :=
  ∀ w k, placed [k] w → current w = None → st w k = Running →
    match prepare w k with
    | (w', false) => same_place w w'
    | (w', true) => placed [] w' ∧ current w' = None
    end.

Lemma block_current_thread_if_placed `{SchedEnv} w prepare :
  placed [] w → prepares prepare → placed [] (block_current_thread_if w prepare).1.
Proof.
  intros Hp Hpre. unfold block_current_thread_if. destruct (current w) as [k|] eqn:Ec; [|done].
  pose proof (placed_take_current [] w k Hp Ec) as H1.
  assert (Hk : st w k = Running) by apply (pl_current _ _ Hp k Ec).
  specialize (Hpre _ k H1 eq_refl Hk). destruct (prepare (set_current w None) k) as [w1 []]; cbn [fst].
  - destruct Hpre as [H2 Hc]. assert (S : same_place w1 (observe w1 block_count 1)) by auto with sched.
    pose proof (placed_same _ _ _ S H2) as H3. destruct context_switch; [done|].
    by apply dispatch_next_simulated_placed.
  - apply placed_set_current; [by eapply placed_same|by rewrite (sp_current _ _ Hpre)|].
    by rewrite (sp_st _ _ Hpre).
Qed.

Lemma sleep_placed `{SchedEnv} w n : placed [] w → placed [] (sleep_current_thread w n).
Proof.
  intros Hp. apply block_current_thread_if_placed; [done|]. intros w1 k H1 Hc Hk. unfold register_timed_waiter.
  pose proof (placed_block w1 k (Some (saturating_add (ticks w) (n `max` 1))) None H1 Hc Hk) as H2. split.
  - eapply placed_same; [|exact H2]. by apply same_observe.
  - cbn [current observe set_hotspot park_thread set_waiting_queue].
    unfold block_until. by rewrite (mv_current _ _ _ _ (enter_waiting_moved _ w1 k _ H1 ltac:(by rewrite Hk))).
Qed.

(** Closures that only edit the wait queue, its state and the wait outcome. *)
Definition edits (prepare : world → key → world * bool) : Prop := ∀ w k, same_place w (prepare w k).1.

Lemma block_current_if_placed `{SchedEnv} w q prepare :
  placed [] w → edits prepare → placed [] (block_current_if w q prepare).1.
Proof.
  intros Hp He. apply block_current_thread_if_placed; [done|]. intros w1 k H1 Hc Hk.
  assert (S : same_place w1 (prepare (prune_stale_waiters w1 q) k).1) by (etrans; [apply same_prune|apply He]).
  destruct (prepare (prune_stale_waiters w1 q) k) as [w2 []]; cbn [fst] in S; [|done].
  pose proof (placed_same _ _ _ S H1) as H2. rewrite <- (sp_st _ _ S) in Hk. rewrite <- (sp_current _ _ S) in Hc.
  split; [by apply placed_block|]. cbn [current park_thread set_waiting_queue]. unfold block.
  by rewrite (mv_current _ _ _ _ (enter_waiting_moved _ w2 k _ H2 ltac:(by rewrite Hk))).
Qed.

Lemma block_current_until_if_placed `{SchedEnv} w q deadline prepare :
  placed [] w → edits prepare → placed [] (block_current_until_if w q deadline prepare).1.
Proof.
  intros Hp He. apply block_current_thread_if_placed; [done|]. intros w1 k H1 Hc Hk.
  assert (S : same_place w1 (prepare (prune_stale_waiters w1 q) k).1) by (etrans; [apply same_prune|apply He]).
  destruct (prepare (prune_stale_waiters w1 q) k) as [w2 []]; cbn [fst] in S; [|done].
  pose proof (placed_same _ _ _ S H1) as H2. rewrite <- (sp_st _ _ S) in Hk. rewrite <- (sp_current _ _ S) in Hc.
  unfold register_timed_waiter. split.
  - pose proof (placed_block w2 k (Some deadline) (Some q) H2 Hc Hk) as H3.
    eapply placed_same; [|exact H3]. by apply same_observe.
  - cbn [current observe set_hotspot park_thread set_waiting_queue]. unfold block_until.
    by rewrite (mv_current _ _ _ _ (enter_waiting_moved _ w2 k _ H2 ltac:(by rewrite Hk))).
Qed.

Lemma edits_push q : edits (λ w k, (push_waiter w q k, true)).
Proof. by split. Qed.

Lemma edits_acquire q : edits (acquire_prepare q).
Proof.
  intros w k. unfold acquire_prepare. destruct (0 <? permits w q); cbn [fst]; [|by split].
  etrans; [by apply (same_update w k (with_outcome Completed))|]. by split.
Qed.

Lemma edits_wait q : edits (wait_prepare q).
Proof.
  intros w k. unfold wait_prepare. destruct (mode (events w q)), (signaled (events w q)); cbn [fst];
    auto with sched; try by split.
  etrans; [by apply (same_update w k (with_outcome Completed))|]. by split.
Qed.

Lemma same_try_acquire w q : same_place w (try_acquire w q).1.
Proof.
  unfold try_acquire. destruct (permits w q =? 0); [done|]. cbn [fst].
  etrans; [|apply same_set_current_wait_outcome]. by split.
Qed.

Lemma acquire_timeout_placed `{SchedEnv} w q t : placed [] w → placed [] (acquire_timeout w q t).1.
Proof.
  intros Hp. unfold acquire_timeout. destruct (plan_timed_wait w t).
  - pose proof (same_try_acquire w q) as S. destruct (try_acquire w q) as [w1 []]; cbn [fst] in *.
    + by eapply placed_same.
    + eapply placed_same; [|exact Hp]. etrans; [exact S|]. apply same_set_current_wait_outcome.
  - apply block_current_until_if_placed; [done|apply edits_acquire].
Qed.

Lemma wait_timeout_placed `{SchedEnv} w q t : placed [] w → placed [] (wait_timeout w q t).1.
Proof.
  intros Hp. unfold wait_timeout. destruct (plan_timed_wait w t).
  - destruct (current w) as [k|]; [|done]. cbn [fst]. eapply placed_same; [|exact Hp].
    destruct (mode (events w q)), (signaled (events w q)); auto with sched.
    etrans; [by apply (same_update w k (with_outcome Completed))|]. by split.
  - apply block_current_until_if_placed; [done|apply edits_wait].
Qed.

(** ** Deadlines *)

Lemma wake_elapsed_spec `{SchedEnv} D w x :
  placed (tw_thread x :: D) w → st w (tw_thread x) = Waiting → tw_thread x ∉ wkeys w →
  ∃ w', wake_elapsed w x = (w', true) ∧ placed D w' ∧
    woke TimedOut (remove_waiter w (tw_cleanup x) (tw_thread x)) (tw_thread x) w'.
Proof.
  intros Hp Hk Hw. set (k := tw_thread x) in *. unfold wake_elapsed, process_elapsed_timed_waiter. fold k.
  pose proof (same_remove_waiter w (tw_cleanup x) k) as S. set (w1 := remove_waiter w (tw_cleanup x) k) in *.
  pose proof (placed_same _ _ _ S Hp) as H1. assert (Hk1 : st w1 k = Waiting) by by rewrite (sp_st _ _ S).
  unfold wake_by_timeout. rewrite (wake_waiter_placed (k :: D)) by done. rewrite decide_True by done.
  destruct (queue_woken D w1 k TimedOut H1 Hk1) as (w' & E & H2 & Hwo).
  { unfold wkeys. by rewrite (sp_wait _ _ S). }
  unfold enqueue_ready_thread_local in E.
  destruct (enqueue_ready_thread (woken w1 k TimedOut) (ready_queues (woken w1 k TimedOut)) k) as [q o].
  injection E as <- ->. eexists. split; [done|]. set (w2 := set_ready_queues _ q) in *. split.
  - eapply placed_same; [|exact H2]. repeat case_match; auto with sched.
  - eapply woke_same; [exact Hwo|..]; by repeat case_match.
Qed.

Lemma wake_all_elapsed_spec `{SchedEnv} D w l :
  placed ((tw_thread <$> l) ++ D) w → NoDup (tw_thread <$> l) →
  (∀ k, k ∈ tw_thread <$> l → st w k = Waiting ∧ k ∉ wkeys w) →
  let r := wake_all_elapsed w l in
  placed D r.1 ∧ r.2 = Z.of_nat (length l) ∧ current r.1 = current w ∧
  (∀ k, k ∈ wkeys r.1 → k ∈ wkeys w) ∧
  (∀ k, k ∉ tw_thread <$> l → threads r.1 k = threads w k) ∧
  (∀ k, k ∈ tw_thread <$> l → st r.1 k = Ready ∧ wait_outcome (threads r.1 k) = TimedOut).
Proof.
  revert w. induction l as [|x l IH]; intros w Hp Hnd Hl.
  { split_and!; try done. intros k Hk. by apply elem_of_nil in Hk. }
  rewrite fmap_cons in Hp, Hnd. apply NoDup_cons in Hnd as [Hx Hnd].
  destruct (Hl (tw_thread x)) as [Hk Hw]; [by left|].
  cbn [wake_all_elapsed].
  destruct (wake_elapsed_spec ((tw_thread <$> l) ++ D) w x Hp Hk Hw) as (w1 & -> & H1 & Hwo).
  assert (Hsame : threads (remove_waiter w (tw_cleanup x) (tw_thread x)) = threads w) by by destruct (tw_cleanup x).
  assert (Hwk : wkeys (remove_waiter w (tw_cleanup x) (tw_thread x)) = wkeys w) by by destruct (tw_cleanup x).
  destruct (IH w1 H1 Hnd) as (R1 & R2 & R3 & R4 & R5 & R6).
  { intros k Hi. destruct (Hl k) as [? ?]; [by right|]. split.
    - unfold st. rewrite (wo_others _ _ _ _ Hwo), Hsame; [done|]. by intros ->.
    - intros Hj. apply (wo_wait _ _ _ _ Hwo) in Hj. by rewrite Hwk in Hj. }
  destruct (wake_all_elapsed w1 l) as [w2 n]. cbn [fst snd] in *. subst n. split_and!.
  - done.
  - simpl length. lia.
  - rewrite R3, (wo_current _ _ _ _ Hwo). by destruct (tw_cleanup x).
  - intros k Hi. apply R4, (wo_wait _ _ _ _ Hwo) in Hi. by rewrite Hwk in Hi.
  - intros k Hi. rewrite fmap_cons, not_elem_of_cons in Hi. destruct Hi as [Hi1 Hi2].
    rewrite R5, (wo_others _ _ _ _ Hwo), Hsame by done. done.
  - intros k Hi. rewrite fmap_cons, elem_of_cons in Hi. destruct Hi as [->|Hi]; [|auto].
    rewrite (R5 _ Hx). unfold st. rewrite (R5 _ Hx). split; [apply (wo_state _ _ _ _ Hwo)|apply (wo_outcome _ _ _ _ Hwo)].
Qed.

Definition elapsed (w : world) (now : Z) (k : key) : bool :=
  has_timed_wait_elapsed (wake_deadline w k) now.

Lemma no_stale_waiters D w rest stale :
  placed D w → take_stale_timed_waiters w (waiting_queue w) = (rest, stale) →
  stale = [] ∧ rest ≡ₚ waiting_queue w.
Proof.
  intros Hp E. unfold take_stale_timed_waiters in E.
  destruct (take_where_spec (λ x, negb (parked_waiter_is_active w x)) (waiting_queue w)) as [H1 H2].
  rewrite E in H1, H2. cbn [fst snd] in H1, H2.
  assert (Ha : ∀ x, x ∈ waiting_queue w → parked_waiter_is_active w x = true).
  { intros x Hx. assert (Hk : st w (tw_thread x) = Waiting).
    { apply (pl_parked _ _ Hp). by apply list_elem_of_fmap_2. }
    unfold parked_waiter_is_active, process_state. rewrite bool_decide_eq_true_2 by done.
    destruct (pl_process _ _ Hp (tw_thread x)) as [? _]; [by rewrite Hk|]. by rewrite bool_decide_eq_false_2. }
  split.
  - destruct stale as [|x stale]; [done|]. exfalso.
    assert (Hx : x ∈ x :: stale) by by left. rewrite H2 in Hx. apply list_elem_of_filter in Hx as [Hx Hi].
    by rewrite (Ha x Hi) in Hx.
  - rewrite H1. clear -Ha. induction (waiting_queue w) as [|x l IH]; [done|].
    rewrite filter_cons, decide_True by (rewrite (Ha x); [done|by left]).
    constructor. apply IH. intros y Hy. apply Ha. by right.
Qed.

Lemma wake_ready_threads_spec `{SchedEnv} w now :
  placed [] w →
  let r := wake_ready_threads w now in
  placed [] r.1 ∧ current r.1 = current w ∧
  r.2 = Z.of_nat (length (filter (λ k, elapsed w now k) (wkeys w))) ∧
  (∀ k, st w k = Waiting → elapsed w now k = true →
     st r.1 k = Ready ∧ wait_outcome (threads r.1 k) = TimedOut) ∧
  (∀ k, st w k ≠ Waiting ∨ elapsed w now k = false → threads r.1 k = threads w k).
Proof.
  intros Hp. unfold wake_ready_threads.
  destruct (take_stale_timed_waiters w (waiting_queue w)) as [q1 stale] eqn:E1.
  destruct (no_stale_waiters _ _ _ _ Hp E1) as [-> Hq1].
  destruct (take_where_spec (λ x, elapsed w now (tw_thread x)) q1) as [Hr Ht].
  change (take_elapsed_timed_waiters w q1 now) with (take_where (λ x, elapsed w now (tw_thread x)) q1).
  destruct (take_where _ q1) as [q2 woke]. cbn [fst snd] in Hr, Ht. cbn [remove_timed_waiters_from_wait_queues foldl].
  assert (Hperm : waiting_queue w ≡ₚ woke ++ q2).
  { rewrite Hr, Ht, <- Hq1. exact (filter_split (λ x, elapsed w now (tw_thread x)) q1). }
  pose proof (placed_unpark [] w woke q2 Hp Hperm) as H1.
  assert (Hk : wkeys w ≡ₚ (tw_thread <$> woke) ++ (tw_thread <$> q2)) by (unfold wkeys; by rewrite Hperm, fmap_app).
  pose proof (pl_wait_nodup _ _ Hp) as Hnd. rewrite Hk in Hnd. apply NoDup_app in Hnd as (Hnd1 & Hdis & _).
  assert (Hel : tw_thread <$> woke ≡ₚ filter (λ k, elapsed w now k) (wkeys w)).
  { rewrite Ht, Hq1. by rewrite (filter_keys (elapsed w now)). }
  assert (Hin : ∀ k, k ∈ tw_thread <$> woke ↔ st w k = Waiting ∧ elapsed w now k = true).
  { intros k. rewrite Hel, list_elem_of_filter. split.
    - intros [He Hi]. split; [by apply (pl_parked _ _ Hp)|by destruct (elapsed w now k)].
    - intros [Hi He]. rewrite He. split; [done|]. destruct (pl_waiting _ _ Hp k Hi) as [|Hn]; [done|].
      by apply elem_of_nil in Hn. }
  destruct (wake_all_elapsed_spec [] (set_waiting_queue w q2) woke H1 Hnd1) as (R1 & R2 & R3 & _ & R5 & R6).
  { intros k Hi. split; [by apply Hin|]. by apply Hdis. }
  destruct (wake_all_elapsed (set_waiting_queue w q2) woke) as [w2 n]. cbn [fst snd] in *.
  set (w3 := if n =? 0 then w2 else observe w2 timeout_wake_count n).
  assert (S3 : same_place w2 w3) by (unfold w3; destruct (n =? 0); auto with sched).
  assert (E3 : threads w3 = threads w2) by (unfold w3; by destruct (n =? 0)).
  split_and!.
  - by eapply placed_same.
  - by rewrite (sp_current _ _ S3), R3.
  - rewrite R2. f_equal. erewrite <- length_fmap. by rewrite Hel.
  - intros k Hk1 Hk2. unfold st. rewrite E3. apply R6, Hin. done.
  - intros k Hk1. rewrite E3. rewrite R5; [done|]. rewrite Hin. intros [? ?]. destruct Hk1; congruence.
Qed.

(** ** The starvation boost *)

Lemma boost_scan_spec w l :
  same_place w (boost_scan w l).1 ∧ sublist (boost_scan w l).2 l.
Proof.
  revert w. induction l as [|k l IH]; intros w; [by split|]. cbn [boost_scan].
  assert (S : same_place w (inc_waiting_ticks w k)) by (apply same_update; by intros).
  destruct (IH (inc_waiting_ticks w k)) as [S' Hs].
  destruct (boost_scan (inc_waiting_ticks w k) l) as [w1 b]. cbn [fst snd] in *.
  split; [by etrans|]. destruct (_ <=? _); [by constructor|by constructor].
Qed.

Lemma same_fold (f : world → key → world) w l :
  (∀ w k, same_place w (f w k)) → same_place w (foldl f w l).
Proof.
  intros Hf. revert w. induction l as [|k l IH]; intros w; [done|]. cbn [foldl]. etrans; [apply Hf|apply IH].
Qed.

Lemma same_promote w k : same_place w (promote w k).
Proof.
  unfold promote, set_boosted, set_priority, set_time_slice_remaining, reset_waiting_ticks.
  do 3 (etrans; [|apply same_update; by intros]). apply same_update. by intros.
Qed.

Lemma same_demote w k : same_place w (demote w k).
Proof.
  unfold demote, set_boosted, set_priority. etrans; [|apply same_update; by intros]. apply same_update. by intros.
Qed.

Lemma concat_remove_all q l :
  concat (foldl remove_queued_thread q l) = filter (λ x, x ∉ l) (concat q) ∧
  length (foldl remove_queued_thread q l) = length q.
Proof.
  revert q. induction l as [|k l IH]; intros q.
  { split; [|done]. cbn [foldl]. induction (concat q) as [|x c IHc]; [done|].
    rewrite filter_cons, decide_True by apply not_elem_of_nil. by rewrite <- IHc. }
  cbn [foldl]. destruct (IH (remove_queued_thread q k)) as [-> ->]. split; [|apply length_remove_queued].
  unfold remove_queued_thread. rewrite concat_filter, list_filter_filter.
  apply list_filter_iff. intros x. rewrite not_elem_of_cons. tauto.
Qed.

Lemma concat_push_all q l i :
  (i < length q)%nat →
  concat (foldl (λ q k, push_back q i k) q l) ≡ₚ l ++ concat q ∧
  length (foldl (λ q k, push_back q i k) q l) = length q.
Proof.
  revert q. induction l as [|k l IH]; intros q Hi; [done|]. cbn [foldl].
  destruct (IH (push_back q i k)) as [-> ->]; [by rewrite length_push_back|].
  rewrite length_push_back, push_back_perm by done. split; [|done]. simpl. by rewrite Permutation_middle.
Qed.

(** Moving queued threads to another queue keeps the queued threads. *)
Lemma move_to_perm w l p :
  length (ready_queues w) = THREAD_PRIORITY_COUNT → NoDup (rkeys w) → NoDup l → l ⊆ rkeys w →
  rkeys (move_to w l p) ≡ₚ rkeys w ∧ length (ready_queues (move_to w l p)) = THREAD_PRIORITY_COUNT.
Proof.
  intros Hlen Hnd Hl Hsub. unfold move_to, rkeys. cbn [ready_queues set_ready_queues].
  destruct (concat_remove_all (ready_queues w) l) as [E1 E2].
  destruct (concat_push_all (foldl remove_queued_thread (ready_queues w) l) l (prio_index p)) as [E3 ->].
  { rewrite E2, Hlen. apply prio_index_lt. }
  rewrite E2. split; [|done]. rewrite E3, E1. apply NoDup_Permutation; [|done|].
  - apply NoDup_app. split_and!; [done| |by apply NoDup_filter]. intros x Hx [? _]%list_elem_of_filter. done.
  - intros x. rewrite elem_of_app, list_elem_of_filter. split.
    + intros [Hx|[_ Hx]]; [by apply Hsub|done].
    + intros Hx. destruct (decide (x ∈ l)); auto.
Qed.

Lemma placed_requeue_all D w q :
  placed D w → concat q ≡ₚ rkeys w → length q = THREAD_PRIORITY_COUNT → placed D (set_ready_queues w q).
Proof.
  intros [] Hq Hlen. split; try done; unfold rkeys; cbn [ready_queues set_ready_queues];
    setoid_rewrite Hq; done.
Qed.

Lemma queue_of_spec w p :
  NoDup (rkeys w) → NoDup (queue_of w p) ∧ queue_of w p ⊆ rkeys w.
Proof.
  unfold queue_of, rkeys. generalize (prio_index p). induction (ready_queues w) as [|l q IH]; intros i Hn.
  { split; [constructor|done]. }
  simpl in Hn. apply NoDup_app in Hn as (H1 & _ & H2). destruct i as [|i]; simpl.
  - split; [done|]. intros x. rewrite elem_of_app. auto.
  - destruct (IH i H2) as [H3 H4]. split; [done|]. intros x Hx. rewrite elem_of_app. right. by apply H4.
Qed.

(** Moving some threads of one queue, after edits of their records. *)
Lemma move_placed D w w1 l p p' :
  placed D w → same_place w w1 → sublist l (queue_of w p') →
  placed D (move_to w1 l p) ∧ rkeys (move_to w1 l p) ≡ₚ rkeys w.
Proof.
  intros Hp S Hl. pose proof (placed_same _ _ _ S Hp) as H1.
  destruct (queue_of_spec w p' (pl_ready_nodup _ _ Hp)) as [Hn Hs].
  destruct (move_to_perm w1 l p) as [Hq Hlen].
  - apply (pl_queues _ _ H1).
  - apply (pl_ready_nodup _ _ H1).
  - by eapply sublist_NoDup.
  - unfold rkeys. rewrite (sp_ready _ _ S). intros x Hx. apply Hs.
    eapply elem_of_submseteq; [exact Hx|]. by apply sublist_submseteq.
  - split; [by apply placed_requeue_all|]. rewrite Hq. unfold rkeys. by rewrite (sp_ready _ _ S).
Qed.

Lemma boost_spec D w :
  placed D w → placed D (boost_starved_threads w) ∧ rkeys (boost_starved_threads w) ≡ₚ rkeys w ∧
    current (boost_starved_threads w) = current w ∧
    (∀ k, st (boost_starved_threads w) k = st w k).
Proof.
  intros Hp. unfold boost_starved_threads.
  destruct (boost_scan_spec w (queue_of w Normal)) as [S1 Hs].
  destruct (boost_scan w (queue_of w Normal)) as [w1 b]. cbn [fst snd] in *.
  assert (S2 : same_place w (foldl promote w1 b)) by (etrans; [exact S1|apply same_fold, same_promote]).
  destruct (move_placed D w (foldl promote w1 b) b High Normal Hp S2 Hs) as [H2 Hq2].
  set (w2 := move_to _ b High) in *.
  set (d := filter (λ k, boost_expired w2 k) (queue_of w2 High)).
  assert (S3 : same_place w2 (foldl demote w2 d)) by apply same_fold, same_demote.
  destruct (move_placed D w2 (foldl demote w2 d) d Normal High H2 S3) as [H3 Hq3]; [apply sublist_filter|].
  split_and!; [done|by rewrite Hq3| |].
  - cbn [move_to current set_ready_queues]. rewrite (sp_current _ _ S3). cbn [w2 move_to current set_ready_queues].
    apply (sp_current _ _ S2).
  - intros k. etrans; [apply (sp_st _ _ S3)|]. apply (sp_st _ _ S2).
Qed.

(** ** Ticks *)

Lemma same_consume_slice w : same_place w (consume_slice w).
Proof.
  unfold consume_slice. destruct (current w) as [k|]; [|done]. destruct (boosted (threads w k)); [|done].
  apply same_update. by intros.
Qed.

Lemma tick_wake_and_preempt_placed `{SchedEnv} w now b :
  placed [] w → placed [] (tick_wake_and_preempt w now b).1.
Proof.
  intros Hp. unfold tick_wake_and_preempt. destruct (wake_ready_threads_spec w now Hp) as (H1 & _).
  set (w1 := (wake_ready_threads w now).1) in *.
  destruct (negb b); [done|]. destruct (negb _); [done|].
  destruct (match current w1 with Some k => _ | None => _ end); [done|].
  destruct context_switch; [by apply leave_cpu_placed|].
  destruct (preempt_current_thread_simulated_placed w1 H1) as [H2 Hc].
  destruct (preempt_current_thread_simulated w1) as [w2 []]; cbn [fst snd] in *; [|done].
  apply dispatch_next_simulated_placed; auto.
Qed.

Lemma tick_placed `{SchedEnv} w now b :
  placed [] w → placed [] (handle_timer_tick_with_preemption w now b).1.
Proof.
  intros Hp. apply tick_wake_and_preempt_placed. eapply placed_same; [apply same_consume_slice|].
  apply boost_spec. eapply placed_same; [|exact Hp]. by split.
Qed.

Lemma local_tick_placed `{SchedEnv} w now b :
  placed [] w → placed [] (handle_local_timer_tick_with_preemption w now b).1.
Proof. intros Hp. apply tick_wake_and_preempt_placed. eapply placed_same; [apply same_consume_slice|done]. Qed.

Lemma dispatch_next_none w :
  length (ready_queues w) = THREAD_PRIORITY_COUNT → (∀ k, k ∈ rkeys w → dispatchable w k = false) →
  current (dispatch_next_simulated w).1 = current w ∧ threads (dispatch_next_simulated w).1 = threads w ∧
  (dispatch_next_simulated w).2 = false.
Proof.
  intros Hlen Hn. unfold dispatch_next_simulated, take_next_dispatchable_thread, take_next_dispatchable_thread_with_dropped.
  pose proof (take_from_perm w (ready_queues w) THREAD_PRIORITY_COUNT 0) as H. rewrite Hlen in H.
  specialize (H ltac:(lia)). destruct (take_from _ _ _ _) as [[q [k|]] d]; cbn [fst]; [|done].
  destruct H as (ds & _ & _ & Hq & Hk). rewrite Hn in Hk; [done|]. unfold rkeys. rewrite Hq, !elem_of_app.
  right. left. by left.
Qed.

(** The host's scheduling pass, with a current thread or without. *)
Lemma schedule_simulated_placed w : placed [] w → placed [] (schedule_simulated w).
Proof.
  intros Hp. unfold schedule_simulated.
  assert (H1 : placed [] (let '(w, requested) := take_current_request w in
                 if requested : bool then (finish_current_thread w).1 else w)).
  { unfold take_current_request, take_terminate_request. destruct (current w) as [k|]; [|done].
    assert (S : same_place w (update w k (with_terminate_pending false))) by auto with sched.
    pose proof (placed_same _ _ _ S Hp) as H1. destruct (terminate_pending _); [|done].
    by apply finish_current_thread_placed. }
  destruct (take_current_request w) as [w0 r]. set (w1 := if r then _ else _) in *.
  change (let w2 := if r then (finish_current_thread w0).1 else w0 in
          placed [] (dispatch_next_simulated (preempt_current_thread_simulated w2).1).1).
  cbv zeta. fold w1. clearbody w1. clear -H1.
  destruct (preempt_current_thread_simulated_placed w1 H1) as [H2 Hc].
  destruct (preempt_keeps w1 H1) as [Hn|Hn]; [by apply dispatch_next_simulated_placed|].
  pose proof (pl_queues _ _ H2) as Hlen.
  pose proof (take_next_placed _ H2) as Ht. unfold dispatch_next_simulated, take_next_dispatchable_thread in *.
  pose proof (dispatch_next_none _ Hlen Hn) as (_ & _ & Hf).
  unfold dispatch_next_simulated, take_next_dispatchable_thread in Hf.
  destruct (take_next_dispatchable_thread_with_dropped _ _) as [[q [k|]] d]; cbn [fst snd] in *; [done|].
  apply Ht.
Qed.

(** ** Spawning *)

Lemma new_inner_placed w k :
  placed [] w → st w k = Terminated → k ∉ rkeys w → p_state (procs w k.1) ≠ PTerminated →
  k.2 ∉ p_threads (procs w k.1) → placed [k] (new_inner w k) ∧ st (new_inner w k) k = Ready.
Proof.
  intros Hp Hk Hr Hps Hpt. unfold new_inner. cbn [procs set_queue set_waiters set_events set_threads].
  rewrite !bool_decide_eq_false_2 by done. cbn [orb].
  set (w1 := set_procs _ _).
  assert (Est : ∀ x, threads w1 x = if decide (x = k) then Thread_new else threads w x).
  { intros x. cbn. destruct (decide (x = k)) as [->|]; [by rewrite fn_lookup_insert|by rewrite fn_lookup_insert_ne]. }
  assert (Hst : ∀ x, st w1 x = if decide (x = k) then Ready else st w x).
  { intros x. unfold st. rewrite Est. by destruct (decide (x = k)). }
  split; [|rewrite Hst; by rewrite decide_True].
  pose proof (pl_queued _ _ Hp) as P1. pose proof (pl_ready _ _ Hp) as P2. pose proof (pl_parked _ _ Hp) as P3.
  pose proof (pl_waiting _ _ Hp) as P4. pose proof (pl_current _ _ Hp) as P5. pose proof (pl_running _ _ Hp) as P6.
  pose proof (pl_not_stopped _ _ Hp) as P7. pose proof (pl_process _ _ Hp) as P8.
  assert (Nil : ∀ x : key, x ∈ [] → x ∈ [k]) by (intros x Hx; by apply elem_of_nil in Hx).
  destruct Hp. split; try done; intros x; rewrite ?Hst, ?Est.
  - intros Hi. destruct (decide (x = k)) as [->|]; [by left|by apply P1].
  - destruct (decide (x = k)) as [->|]; [intros _; right; by left|]. intros Hi. destruct (P2 x Hi); auto.
  - intros Hi. destruct (decide (x = k)) as [->|]; [|by apply P3]. apply P3 in Hi. congruence.
  - destruct (decide (x = k)) as [->|]; [done|]. intros Hi. destruct (P4 x Hi); auto.
  - intros Hi. destruct (decide (x = k)) as [->|]; [|by apply P5]. apply P5 in Hi. congruence.
  - destruct (decide (x = k)) as [->|]; [done|]. intros Hi. destruct (P6 x Hi); auto.
  - destruct (decide (x = k)) as [->|]; [done|]. apply P7.
  - intros Hi. cbn [procs w1 set_procs set_queue set_waiters set_events set_threads].
    destruct (decide (x = k)) as [->|].
    + rewrite fn_lookup_insert. split; [done|]. cbn [p_threads]. rewrite elem_of_app. right. by left.
    + destruct (P8 x Hi) as [H1 H2]. destruct (decide (x.1 = k.1)) as [E|]; [|by rewrite fn_lookup_insert_ne].
      rewrite E, fn_lookup_insert. cbn [p_state p_threads]. rewrite E in H1, H2. split; [done|].
      rewrite elem_of_app. by left.
Qed.

Lemma place_thread_placed w k :
  placed [k] w → st w k = Ready → placed [] (place_thread w k).
Proof.
  intros Hp Hk. unfold place_thread, enqueue_ready_thread_local.
  destruct (enqueue_perm w (ready_queues w) k) as (H1 & H2 & H3);
    [apply (pl_queues _ _ Hp)|by apply dispatchable_ready|].
  destruct (enqueue_ready_thread w (ready_queues w) k) as [q o]. cbn [fst snd] in *. subst o.
  eapply placed_same; [apply same_need_resched|].
  eapply (placed_requeue [] w k w); [done| | | |by rewrite Hk|done|done].
  - split; try done. intros x. destruct (decide (x = k)) as [->|]; done.
  - intros Hi. apply (pl_parked _ _ Hp) in Hi. congruence.
  - intros Hc. apply (pl_current _ _ Hp) in Hc. congruence.
Qed.

Lemma spawn_thread_placed w k :
  placed [] w → st w k = Terminated → k ∉ rkeys w → p_state (procs w k.1) ≠ PTerminated →
  k.2 ∉ p_threads (procs w k.1) → placed [] (spawn_thread w k).
Proof.
  intros Hp Hk Hr Hps Hpt. destruct (new_inner_placed w k) as [H1 H2]; try done.
  by apply place_thread_placed.
Qed.

Lemma create_ready_process_placed w pid :
  placed [] w → (∀ k, k.1 = pid → st w k = Terminated) → placed [] (create_ready_process w pid).
Proof.
  intros Hp Hn. pose proof (pl_process _ _ Hp) as P. destruct Hp. split; try done.
  intros x Hx. cbn [procs create_ready_process set_queue set_waiters set_events set_procs].
  destruct (decide (x.1 = pid)) as [E|]; [|rewrite fn_lookup_insert_ne by done; by apply P].
  exfalso. apply Hx. by apply Hn.
Qed.
