(* ===== verification/SchedTheorems.v ===== *)
(** * What the scheduler guarantees, and where it does not

    The runs of one CPU as a transition system, the placement of every thread
    along them, dispatch order, deadlines, the starvation boost and work
    stealing; then the stop, kill and exit paths that leave a thread behind. *)

From stdpp Require Import base tactics decidable numbers list functions relations.
From S2P Require Import Prelude Thread ReadyQueue Sched SchedInv SchedOps.

(** ** Runs of one CPU

    A thread that was never created looks like a terminated one.  The
    dispatcher's loop runs only while no thread is current: every path into it
    empties the slot before the switch.  The two halves of [wake_with] are
    steps of their own, since a timer interrupt may come between them. *)

Definition dead : Thread := with_state Terminated Thread_new.

Definition sched_new (p : Z → Process) : world :=
  mkWorld (λ _, dead) p (replicate THREAD_PRIORITY_COUNT []) [] None false 0 (λ _, 0)
    (λ _, []) (λ _, 0) (λ _, mkEventState ManualReset false).

Definition fresh (w : world) (k : key) : Prop :=
  st w k = Terminated ∧ (k ∉ concat (ready_queues w)) ∧
  p_state (procs w k.1) ≠ PTerminated ∧ k.2 ∉ p_threads (procs w k.1).

(** The selections under a wait queue's lock. *)
Inductive selection := SelectOne | SelectAll | SelectRelease (n : nat) | SelectSignal.

Definition select (q : queue_id) (s : selection) (w : world) : world * list key :=
  match s with
  | SelectOne => let '(w, r) := pop_waiter w q in (w, option_list r)
  | SelectAll => let w := prune_stale_waiters w q in (set_queue w q [], waiters w q)
  | SelectRelease n => release_select q n w
  | SelectSignal => signal_select q w
  end.

Inductive sched_step `{SchedEnv} (w : world) : world → Prop :=
| step_process pid : (∀ k, k.1 = pid → st w k = Terminated) → sched_step w (create_ready_process w pid)
| step_spawn k : fresh w k → sched_step w (spawn_thread w k)
| step_dispatch : current w = None → sched_step w (schedule_round w).1
| step_schedule : sched_step w (schedule_simulated w)
| step_yield : sched_step w (yield_current_thread w)
| step_preempt : sched_step w (preempt_current_thread_from_interrupt w).1
| step_tick now b : sched_step w (handle_timer_tick_with_preemption w now b).1
| step_local_tick now b : sched_step w (handle_local_timer_tick_with_preemption w now b).1
| step_sleep n : sched_step w (sleep_current_thread w n)
| step_block q : sched_step w (block_current w q).1
| step_select q s : sched_step w (wake_select w q (select q s)).1
| step_wake k : sched_step w (wake_thread w k).1
| step_try_acquire q : sched_step w (try_acquire w q).1
| step_acquire q : sched_step w (acquire w q).1
| step_acquire_timeout q t : sched_step w (acquire_timeout w q t).1
| step_release q n : sched_step w (release w q n).1
| step_wait q : sched_step w (wait w q).1
| step_wait_timeout q t : sched_step w (wait_timeout w q t).1
| step_signal q : sched_step w (signal w q).1
| step_reset q : sched_step w (event_reset w q)
| step_exit : sched_step w (finish_current_thread w).1
| step_priority k p : sched_step w (set_priority w k p)
| step_request k : sched_step w (request_termination w k).

Definition sched_reach `{SchedEnv} (w : world) : Prop := ∃ p, rtc sched_step (sched_new p) w.

Section runs.
Context `{E : SchedEnv}.

Lemma sched_new_placed p : placed [] (sched_new p).
Proof.
  split; try done; try exact (NoDup_nil_2 (A := key)).
  all: intros k Hk; unfold rkeys, wkeys in Hk; cbn in Hk; by apply elem_of_nil in Hk.
Qed.

Lemma same_select q s w : same_place w (select q s w).1.
Proof.
  destruct s; cbn [select].
  - pose proof (same_pop w q) as S. by destruct (pop_waiter w q).
  - by split.
  - apply same_release_select.
  - apply same_signal_select.
Qed.

Lemma sched_step_placed w w' : sched_step w w' → placed [] w → placed [] w'.
Proof.
  intros Hs Hp. destruct Hs as [pid H|k H|H| | | |now b|now b|n|q|q s|k|q|q|q t|q n|q|q t|q|q| |k p|k].
  - by apply create_ready_process_placed.
  - destruct H as (? & ? & ? & ?). by apply spawn_thread_placed.
  - by apply schedule_round_placed.
  - by apply schedule_simulated_placed.
  - by apply leave_cpu_placed.
  - by apply leave_cpu_placed.
  - by apply tick_placed.
  - by apply local_tick_placed.
  - by apply sleep_placed.
  - apply block_current_if_placed; [done|apply edits_push].
  - eapply placed_same; [|exact Hp]. etrans; [apply same_prune|apply same_select].
  - by apply wake_thread_placed.
  - eapply placed_same; [apply same_try_acquire|done].
  - apply block_current_if_placed; [done|apply edits_acquire].
  - by apply acquire_timeout_placed.
  - by apply release_placed.
  - apply block_current_if_placed; [done|apply edits_wait].
  - by apply wait_timeout_placed.
  - by apply signal_placed.
  - eapply placed_same; [|exact Hp]. by split.
  - by apply finish_current_thread_placed.
  - eapply placed_same; [|exact Hp]. auto with sched.
  - eapply placed_same; [|exact Hp]. unfold request_termination. auto with sched.
Qed.

Lemma sched_reach_placed w : sched_reach w → placed [] w.
Proof.
  intros [p Hr]. assert (H0 : placed [] (sched_new p)) by apply sched_new_placed. revert H0.
  induction Hr as [|w1 w2 w3 H1 _ IH]; [done|]. intros H0. by apply IH, (sched_step_placed w1).
Qed.


(** A tick wakes exactly the sleepers whose deadline has passed: each of
    them is [Ready] with the outcome [TimedOut], and in a ready queue; the
    count it answers is theirs; and no other thread is touched. *)
Theorem wake_ready_threads_exact w now :
  sched_reach w →
  let r := wake_ready_threads w now in
  r.2 = Z.of_nat (length (filter (λ k, elapsed w now k) (tw_thread <$> waiting_queue w))) ∧
  (∀ k, st w k = Waiting → elapsed w now k = true →
     st r.1 k = Ready ∧ wait_outcome (threads r.1 k) = TimedOut ∧
     k ∈ concat (ready_queues r.1) ∧ (k ∉ tw_thread <$> waiting_queue r.1)) ∧
  (∀ k, st w k ≠ Waiting ∨ elapsed w now k = false → threads r.1 k = threads w k).
Proof.
  intros Hp%sched_reach_placed r. destruct (wake_ready_threads_spec w now Hp) as (H1 & _ & H2 & H3 & H4).
  fold r in H1, H2, H3, H4. split_and!; [done| |done]. intros k Hk He. destruct (H3 k Hk He) as [Hr Ho].
  split_and!; [done|done| |].
  - destruct (pl_ready _ _ H1 k Hr) as [|Hn]; [done|by apply elem_of_nil in Hn].
  - intros Hi. apply (pl_parked _ _ H1) in Hi. congruence.
Qed.

(** The starvation boost moves threads between queues and loses none: the
    queued threads are the same, so the debug assertion at its end holds, and
    no thread changes its state. *)
Theorem boost_loses_nothing w :
  sched_reach w →
  concat (ready_queues (boost_starved_threads w)) ≡ₚ concat (ready_queues w) ∧
  ready_queue_len (ready_queues (boost_starved_threads w)) = ready_queue_len (ready_queues w) ∧
  ∀ k, st (boost_starved_threads w) k = st w k.
Proof.
  intros Hp%sched_reach_placed. destruct (boost_spec [] w Hp) as (_ & Hq & _ & Hs).
  split_and!; [done| |done]. unfold ready_queue_len. by rewrite Hq.
Qed.

End runs.

(** ** Dispatch order *)

(** The dispatch walk answers the first thread that may run of the highest
    priority that has one.  It drops what it passes, none of which may run;
    lower priorities and the rest of the thread's queue stay.  It answers
    [None] only when no queued thread may run. *)
Theorem take_next_highest_first w q :
  length q = THREAD_PRIORITY_COUNT →
  match take_next_dispatchable_thread_with_dropped w q with
  | (q', Some k, _) => ∃ i pre post,
      (i < THREAD_PRIORITY_COUNT)%nat ∧ q !! i = Some (pre ++ k :: post) ∧ st w k = Ready ∧
      Forall (λ x, st w x ≠ Ready) pre ∧
      (∀ j l, (i < j)%nat → q !! j = Some l → Forall (λ x, st w x ≠ Ready) l) ∧
      q' !! i = Some post ∧ (∀ j, (j < i)%nat → q' !! j = q !! j)
  | (q', None, _) => Forall (λ x, st w x ≠ Ready) (concat q) ∧ concat q' = []
  end.
Proof.
  intros Hlen. unfold take_next_dispatchable_thread_with_dropped.
  pose proof (take_from_spec w q THREAD_PRIORITY_COUNT 0) as H. rewrite Hlen in H. specialize (H ltac:(lia)).
  destruct (take_from w q THREAD_PRIORITY_COUNT 0) as [[q' r] d]. destruct H as (Hlen' & _ & H).
  assert (Hd : ∀ l, Forall (λ x, dispatchable w x = false) l → Forall (λ x, st w x ≠ Ready) l).
  { intros l Hl. eapply Forall_impl; [exact Hl|]. intros x Hx. unfold dispatchable, should_dispatch_ready_thread in Hx.
    by apply bool_decide_eq_false in Hx. }
  destruct r as [k|].
  - destruct H as (i & pre & post & [T1 T2 T3 T4 T5 T6]). exists i, pre, post.
    unfold dispatchable, should_dispatch_ready_thread in T3. apply bool_decide_eq_true in T3.
    split_and!; try done; auto.
    + intros j l Hj Hl. apply Hd, (T5 j); [|done]. apply lookup_lt_Some in Hl. lia.
    + rewrite T6. by rewrite decide_True.
    + intros j Hj. rewrite T6, !decide_False by lia. done.
  - destruct H as [H1 H2]. split.
    + apply Forall_forall. intros x (l & Hl & Hx)%list_elem_of_In%in_concat.
      apply list_elem_of_In, list_elem_of_lookup in Hl as [j Hj]. apply list_elem_of_In in Hx.
      assert (Hf := Hd l (H1 j l ltac:(apply lookup_lt_Some in Hj; lia) Hj)). rewrite Forall_forall in Hf. by apply Hf.
    + assert (q' = replicate THREAD_PRIORITY_COUNT []) as ->; [|done].
      apply list_eq. intros j. rewrite H2. destruct (decide (j < THREAD_PRIORITY_COUNT)%nat) as [Hj|Hj].
      * by rewrite lookup_replicate_2.
      * rewrite !lookup_ge_None_2; [done| |lia]. rewrite length_replicate. lia.
Qed.

(** Queueing a [Ready] thread leaves exactly one copy of it, in the queue
    of its priority, whatever queues held it before: at the back when it is
    woken, and for a preempted thread at the front if its policy is FIFO.  A
    thread that is not [Ready] is refused and nothing changes. *)
Theorem enqueue_once w q k :
  length q = THREAD_PRIORITY_COUNT →
  let i := prio_index (priority (threads w k)) in
  (st w k ≠ Ready →
     enqueue_ready_thread w q k = (q, NotReady) ∧ requeue_preempted_thread w q k = (q, false)) ∧
  (st w k = Ready →
     ∃ q1 q2, enqueue_ready_thread w q k = (q1, Enqueued) ∧ requeue_preempted_thread w q k = (q2, true) ∧
     ∀ j l, q !! j = Some l →
       let rest := filter (λ x, x ≠ k) l in
       q1 !! j = Some (if decide (j = i) then rest ++ [k] else rest) ∧
       q2 !! j = Some (if decide (j = i) then
                         if decide (sched_policy (threads w k) = SchedFifo) then k :: rest else rest ++ [k]
                       else rest)).
Proof.
  intros Hlen i. unfold enqueue_ready_thread, requeue_preempted_thread, dispatchable, should_dispatch_ready_thread.
  split; intros Hk; [by rewrite bool_decide_eq_false_2|]. rewrite bool_decide_eq_true_2 by done. cbn [negb].
  eexists _, (if decide (sched_policy (threads w k) = SchedFifo) then push_front (remove_queued_thread q k) i k
              else push_back (remove_queued_thread q k) i k).
  split; [done|]. split; [by destruct (decide _)|]. intros j l Hl. set (rest := filter (λ x, x ≠ k) l).
  assert (Hr : remove_queued_thread q k !! j = Some rest) by (unfold remove_queued_thread; by rewrite list_lookup_fmap, Hl).
  assert (Hb : push_back (remove_queued_thread q k) i k !! j = Some (if decide (j = i) then rest ++ [k] else rest)).
  { unfold push_back. destruct (decide (j = i)) as [->|]; [by rewrite list_lookup_alter_eq, Hr|].
    by rewrite list_lookup_alter_ne. }
  split; [exact Hb|]. destruct (decide (sched_policy _ = _)); [|exact Hb].
  unfold push_front. destruct (decide (j = i)) as [->|]; [by rewrite list_lookup_alter_eq, Hr|].
  by rewrite list_lookup_alter_ne.
Qed.

(** ** Work stealing *)

Lemma steal_from_spec w c l n :
  let '(rest, skipped, stolen) := steal_from w c l n in
  ∃ dropped, l ≡ₚ dropped ++ stolen ++ skipped ++ rest ∧
    Forall (λ k, st w k ≠ Ready ∧ can_steal w c k = true) dropped ∧
    Forall (λ k, st w k = Ready ∧ can_steal w c k = true) stolen ∧
    Forall (λ k, can_steal w c k = false) skipped ∧
    (length stolen ≤ n)%nat ∧ ((length stolen < n)%nat → rest = []).
Proof.
  revert n. induction l as [|k l IH]; intros n.
  { destruct n; simpl; exists []; split_and!; try done; lia. }
  destruct n as [|n]; [simpl; exists []; split_and!; try done; lia|]. cbn [steal_from].
  destruct (can_steal w c k) eqn:Hc; cbn [negb].
  - destruct (dispatchable w k) eqn:Hd; unfold dispatchable, should_dispatch_ready_thread in Hd.
    + apply bool_decide_eq_true in Hd. specialize (IH n). destruct (steal_from w c l n) as [[rest skipped] stolen].
      destruct IH as (dropped & H1 & H2 & H3 & H4 & H5 & H6). exists dropped.
      split_and!; [|done|by constructor|done|simpl; lia|simpl; intros; apply H6; lia].
      rewrite H1. simpl. by rewrite Permutation_middle.
    + apply bool_decide_eq_false in Hd. specialize (IH (S n)). destruct (steal_from w c l (S n)) as [[rest skipped] stolen].
      destruct IH as (dropped & H1 & H2 & H3 & H4 & H5 & H6). exists (k :: dropped).
      split_and!; try done; [by rewrite H1|by constructor].
  - specialize (IH (S n)). destruct (steal_from w c l (S n)) as [[rest skipped] stolen].
    destruct IH as (dropped & H1 & H2 & H3 & H4 & H5 & H6). exists dropped.
    split_and!; try done; [|by constructor]. rewrite H1. simpl.
    by rewrite (app_assoc dropped stolen (k :: _)), <- Permutation_middle, <- app_assoc.
Qed.

Lemma steal_loop_spec w c q n count :
  (n ≤ length q)%nat →
  let '(q', stolen) := steal_loop w c q n count in
  length q' = length q ∧ (∀ j, (n ≤ j)%nat → q' !! j = q !! j) ∧
  (∃ dropped, concat q ≡ₚ dropped ++ stolen ++ concat q' ∧
     Forall (λ k, st w k ≠ Ready ∧ can_steal w c k = true) dropped) ∧
  Forall (λ k, st w k = Ready ∧ can_steal w c k = true) stolen ∧
  (length stolen ≤ count)%nat ∧
  ((length stolen < count)%nat →
     ∀ j l, (j < n)%nat → q' !! j = Some l → Forall (λ k, can_steal w c k = false) l).
Proof.
  revert q count. induction n as [|n IH]; intros q count Hn.
  { simpl. split_and!; try done; [by exists []|lia|]. intros; lia. }
  cbn [steal_loop]. destruct (lookup_lt_is_Some_2 q n) as [l Hl]; [lia|]. rewrite Hl. cbn [default from_option id].
  pose proof (steal_from_spec w c l count) as Hs. destruct (steal_from w c l count) as [[rest skipped] stolen].
  destruct Hs as (dropped & H1 & H2 & H3 & H4 & H5 & H6). cbv zeta.
  assert (Hc : concat q ≡ₚ (dropped ++ stolen) ++ concat (<[n:=rest ++ skipped]> q)).
  { apply (concat_insert_perm q n l); [done|]. by rewrite H1, <- app_assoc, (Permutation_app_comm rest). }
  set (q1 := <[n:=rest ++ skipped]> q) in *. assert (L1 : length q1 = length q) by apply length_insert.
  assert (K1 : ∀ j, j ≠ n → q1 !! j = q !! j) by (intros; by apply list_lookup_insert_ne).
  destruct (count - length stolen)%nat as [|r] eqn:Er.
  - split_and!; try done; [|by exists dropped; split; [by rewrite Hc, <- app_assoc|]|lia].
    intros j Hj. apply K1. lia.
  - specialize (IH q1 (S r)). rewrite L1 in IH. specialize (IH ltac:(lia)).
    destruct (steal_loop w c q1 n (S r)) as [q2 more].
    destruct IH as (I1 & I2 & (d2 & I3 & I4) & I5 & I6 & I7). split_and!.
    + done.
    + intros j Hj. rewrite I2 by lia. apply K1. lia.
    + exists (dropped ++ d2). split; [|by apply Forall_app]. rewrite Hc, I3, <- !app_assoc. f_equiv.
      by rewrite !app_assoc, (Permutation_app_comm stolen d2).
    + by apply Forall_app.
    + rewrite length_app. lia.
    + rewrite length_app. intros Hlt j l2 Hj Hl2. destruct (decide (j = n)) as [->|]; [|apply (I7 ltac:(lia) j); [lia|done]].
      rewrite I2 in Hl2 by lia. unfold q1 in Hl2. rewrite list_lookup_insert_eq in Hl2 by lia. injection Hl2 as <-.
      rewrite H6 by lia. done.
Qed.

(** Stealing takes at most [count] threads, all [Ready] and allowed on the
    thief's CPU; every thread is then stolen or still queued, once, except
    the ones that may not run, which are discarded; and it takes fewer than
    [count] only when no thread it may take is left. *)
Theorem steal_conserves w q count c :
  length q = THREAD_PRIORITY_COUNT →
  let '(q', stolen) := steal_ready_threads w q count c in
  (length stolen ≤ count)%nat ∧ length q' = THREAD_PRIORITY_COUNT ∧
  Forall (λ k, st w k = Ready ∧ can_steal w c k = true) stolen ∧
  (∃ dropped, concat q ≡ₚ dropped ++ stolen ++ concat q' ∧ Forall (λ k, st w k ≠ Ready) dropped) ∧
  ((length stolen < count)%nat → Forall (λ k, can_steal w c k = false) (concat q')).
Proof.
  intros Hlen. unfold steal_ready_threads. pose proof (steal_loop_spec w c q THREAD_PRIORITY_COUNT count) as H.
  rewrite Hlen in H. specialize (H ltac:(lia)). destruct (steal_loop w c q THREAD_PRIORITY_COUNT count) as [q' stolen].
  destruct H as (H1 & _ & (dropped & H2 & H3) & H4 & H5 & H6). split_and!; try done.
  - exists dropped. split; [done|]. eapply Forall_impl; [exact H3|]. by intros x [? _].
  - intros Hlt. apply Forall_forall. intros x (l & Hl & Hx)%list_elem_of_In%in_concat.
    apply list_elem_of_In, list_elem_of_lookup in Hl as [j Hj]. apply list_elem_of_In in Hx.
    assert (Hf : Forall (λ k, can_steal w c k = false) l).
    { apply (H6 Hlt j l); [|done]. apply lookup_lt_Some in Hj. lia. }
    rewrite Forall_forall in Hf. by apply Hf.
Qed.

(** ** Stop and continue *)

Lemma st_suspend w x k : x ≠ k → st (suspend w x).1 k = st w k.
Proof.
  intros Hx. unfold suspend. destruct (st w x); cbn [fst]; try done; unfold set_state; rewrite st_update;
    by rewrite decide_False.
Qed.

Lemma suspend_stops w k :
  st w k = Ready ∨ st w k = Running ∨ st w k = Stopped → st (suspend w k).1 k = Stopped.
Proof.
  intros Hk. unfold suspend. destruct (st w k) eqn:E; destruct Hk as [?|[?|?]]; try done; cbn [fst];
    unfold set_state; rewrite st_update; by rewrite decide_True.
Qed.

Lemma st_suspend_all w l k :
  (st w k = Ready ∨ st w k = Stopped) →
  st (suspend_all w l) k = if decide (k ∈ l) then Stopped else st w k.
Proof.
  unfold suspend_all. revert w. induction l as [|x l IH]; intros w Hk; cbn [foldl].
  { by rewrite decide_False by apply not_elem_of_nil. }
  destruct (decide (x = k)) as [->|Hx].
  - assert (Hs : st (suspend w k).1 k = Stopped) by (apply suspend_stops; tauto).
    rewrite IH by (by right). rewrite Hs. rewrite (decide_True (P := k ∈ k :: l)) by by left. by destruct (decide _).
  - rewrite IH by by rewrite st_suspend. rewrite st_suspend by done.
    destruct (decide (k ∈ l)) as [Hi|Hi]; [by rewrite decide_True by by right|].
    rewrite decide_False; [done|]. intros [|]%elem_of_cons; [by subst|done].
Qed.

Lemma st_wake_waiter w x k o : x ≠ k → st (wake_waiter w x o).1 k = st w k.
Proof.
  intros Hx. unfold wake_waiter, set_process_and_thread_state, set_wait_outcome, set_state.
  repeat case_match; simplify_eq/=; try done;
    unfold st; cbn [threads update set_threads set_procs set_process_state];
    repeat (rewrite fn_lookup_insert_ne by done); done.
Qed.

Lemma st_stop_waiters w l k : k ∉ tw_thread <$> l → st (foldl stop_waiter w l) k = st w k.
Proof.
  revert w. induction l as [|x l IH]; intros w Hk; [done|]. rewrite fmap_cons, not_elem_of_cons in Hk.
  destruct Hk as [Hx Hk]. cbn [foldl]. rewrite IH by done. unfold stop_waiter, wake_by_timeout.
  rewrite st_wake_waiter by done. by destruct (tw_cleanup x).
Qed.

Lemma st_resume_all w pid l k : k ∉ l → st (resume_all w pid l).1 k = st w k.
Proof.
  unfold resume_all. generalize 0. revert w. induction l as [|x l IH]; intros w n Hk; [done|].
  rewrite not_elem_of_cons in Hk. destruct Hk as [Hx Hk]. cbn [foldl].
  destruct (of_process pid x && is_stopped w x); rewrite IH by done; [|done].
  unfold resume, set_process_and_thread_state. destruct (_ || _); cbn [fst]; [done|].
  unfold set_state. rewrite st_update. by rewrite decide_False.
Qed.

(** The frames of the steps of [stop_threads_of_process]. *)
Lemma frame_suspend_all w l :
  ready_queues (suspend_all w l) = ready_queues w ∧ waiting_queue (suspend_all w l) = waiting_queue w ∧
  current (suspend_all w l) = current w.
Proof.
  unfold suspend_all. revert w. induction l as [|x l IH]; intros w; [done|]. cbn [foldl].
  destruct (IH (suspend w x).1) as (-> & -> & ->). unfold suspend. by destruct (st w x).
Qed.

Lemma frame_stop_waiters w l :
  ready_queues (foldl stop_waiter w l) = ready_queues w ∧
  waiting_queue (foldl stop_waiter w l) = waiting_queue w ∧ current (foldl stop_waiter w l) = current w.
Proof.
  revert w. induction l as [|x l IH]; intros w; [done|]. cbn [foldl].
  destruct (IH (stop_waiter w x)) as (-> & -> & ->).
  unfold stop_waiter, wake_by_timeout, wake_waiter, set_process_and_thread_state, remove_waiter.
  repeat case_match; simplify_eq/=; done.
Qed.

Lemma frame_resume_all w pid l :
  ready_queues (resume_all w pid l).1 = ready_queues w ∧ waiting_queue (resume_all w pid l).1 = waiting_queue w ∧
  current (resume_all w pid l).1 = current w.
Proof.
  unfold resume_all. generalize 0. revert w. induction l as [|x l IH]; intros w n; [done|]. cbn [foldl].
  destruct (of_process pid x && is_stopped w x).
  - destruct (IH (resume w x).1 (n + 1)) as (-> & -> & ->). unfold resume, set_process_and_thread_state.
    by destruct (_ || _).
  - apply IH.
Qed.

Lemma stop_thread_frames w pid :
  let w' := (stop_threads_of_process w pid).1 in
  ready_queues w' = map (filter (λ k, negb (of_process pid k))) (ready_queues w) ∧
  waiting_queue w' = filter (λ x, negb (of_process pid (tw_thread x))) (waiting_queue w) ∧
  current w' = current w.
Proof.
  unfold stop_threads_of_process. cbv zeta.
  set (r := filter (λ k, of_process pid k) (concat (ready_queues w))).
  destruct (frame_suspend_all w r) as (F1 & F2 & F3). set (w1 := suspend_all w r) in *.
  set (w2 := set_ready_queues w1 _). set (x := filter _ (waiting_queue w2)).
  destruct (frame_suspend_all w2 (tw_thread <$> x)) as (G1 & G2 & G3). set (w3 := suspend_all w2 _) in *.
  set (w4 := set_waiting_queue w3 _). destruct (frame_stop_waiters w4 x) as (K1 & K2 & K3).
  set (w5 := foldl stop_waiter w4 x) in *.
  assert (ready_queues w5 = map (filter (λ k, negb (of_process pid k))) (ready_queues w)) as R1.
  { rewrite K1. cbn [ready_queues w4 set_waiting_queue]. rewrite G1. cbn [ready_queues w2 set_ready_queues]. by rewrite F1. }
  assert (waiting_queue w5 = filter (λ x, negb (of_process pid (tw_thread x))) (waiting_queue w)) as R2.
  { rewrite K2. cbn [waiting_queue w4 set_waiting_queue]. rewrite G2. cbn [waiting_queue w2 set_ready_queues]. by rewrite F2. }
  assert (current w5 = current w) as R3.
  { rewrite K3. cbn [current w4 set_waiting_queue]. rewrite G3. exact F3. }
  destruct (current w5) as [k|] eqn:Ec; [|by rewrite <- R3 in *].
  destruct (of_process pid k); cbn [fst]; [|by rewrite Ec].
  unfold suspend. destruct (st w5 k); cbn [fst]; rewrite <- R3; done.
Qed.

Lemma of_process_true pid k : of_process pid k = true ↔ k.1 = pid.
Proof. unfold of_process. apply bool_decide_eq_true. Qed.

Lemma st_suspend_all_other w l k : k ∉ l → st (suspend_all w l) k = st w k.
Proof.
  unfold suspend_all. revert w. induction l as [|x l IH]; intros w Hk; [done|].
  rewrite not_elem_of_cons in Hk. destruct Hk as [Hx Hk]. cbn [foldl]. rewrite IH by done. by apply st_suspend.
Qed.

(** The states a stop leaves: threads of other processes keep theirs. *)
Lemma st_stop_other w pid k : k.1 ≠ pid → st (stop_threads_of_process w pid).1 k = st w k.
Proof.
  intros Hk. unfold stop_threads_of_process. cbv zeta.
  set (r := filter (λ k, of_process pid k) (concat (ready_queues w))). set (w1 := suspend_all w r).
  set (w2 := set_ready_queues w1 _). set (x := filter _ (waiting_queue w2)).
  set (w3 := suspend_all w2 _). set (w4 := set_waiting_queue w3 _). set (w5 := foldl stop_waiter w4 x).
  assert (Hx : k ∉ tw_thread <$> x).
  { intros (y & -> & [Hy _]%list_elem_of_filter)%list_elem_of_fmap. by apply Hk, of_process_true, Is_true_true. }
  assert (Hr : k ∉ r).
  { intros [Hy _]%list_elem_of_filter. by apply Hk, of_process_true, Is_true_true. }
  assert (Hs : st w5 k = st w k).
  { unfold w5. rewrite st_stop_waiters by done. change (st w4 k) with (st w3 k). unfold w3.
    rewrite st_suspend_all_other by done. change (st w2 k) with (st w1 k). by apply st_suspend_all_other. }
  destruct (current w5) as [c|]; [|done]. destruct (of_process pid c) eqn:Ec; cbn [fst]; [|done].
  rewrite st_suspend; [done|]. intros ->. by apply Hk, of_process_true.
Qed.

(** A [Ready] thread of the process is stopped. *)
Lemma st_stop_ready w k :
  placed [] w → st w k = Ready → st (stop_threads_of_process w k.1).1 k = Stopped.
Proof.
  intros Hp Hk. unfold stop_threads_of_process. cbv zeta.
  set (r := filter (λ x, of_process k.1 x) (concat (ready_queues w))). set (w1 := suspend_all w r).
  set (w2 := set_ready_queues w1 _). set (x := filter _ (waiting_queue w2)).
  set (w3 := suspend_all w2 _). set (w4 := set_waiting_queue w3 _). set (w5 := foldl stop_waiter w4 x).
  assert (Hr : k ∈ r).
  { apply list_elem_of_filter. split; [by apply Is_true_true, of_process_true|].
    destruct (pl_ready _ _ Hp k Hk) as [|Hn]; [done|by apply elem_of_nil in Hn]. }
  assert (S1 : st w1 k = Stopped) by (unfold w1; rewrite st_suspend_all by (by left); by rewrite decide_True).
  assert (S3 : st w3 k = Stopped).
  { unfold w3. rewrite st_suspend_all by by right. change (st w2 k) with (st w1 k). rewrite S1. by destruct (decide _). }
  assert (Hx : k ∉ tw_thread <$> x).
  { intros (y & -> & [_ Hy]%list_elem_of_filter)%list_elem_of_fmap. cbn [waiting_queue w2 set_ready_queues] in Hy.
    unfold w1 in Hy. rewrite (proj1 (proj2 (frame_suspend_all w r))) in Hy.
    assert (Hi : tw_thread y ∈ wkeys w) by by apply list_elem_of_fmap_2. apply (pl_parked _ _ Hp) in Hi. congruence. }
  assert (S5 : st w5 k = Stopped) by (unfold w5; by rewrite st_stop_waiters).
  destruct (current w5) as [c|]; [|done]. destruct (of_process k.1 c); cbn [fst]; [|done].
  destruct (decide (c = k)) as [->|]; [|by rewrite st_suspend]. apply suspend_stops. auto.
Qed.

(** A thread that is stopped while it is [Ready] is lost: the stop takes
    it out of every queue, the continue looks for stopped threads in the queues
    only, and the thread is [Stopped] for ever, in no queue, after both. *)
Theorem stop_then_continue_loses `{SchedEnv} w k :
  sched_reach w → st w k = Ready →
  let w1 := (stop_threads_of_process w k.1).1 in
  let w2 := (continue_threads_of_process w1 k.1).1 in
  st w1 k = Stopped ∧ st w2 k = Stopped ∧ (k ∉ concat (ready_queues w2)) ∧
  (k ∉ tw_thread <$> waiting_queue w2) ∧ current w2 ≠ Some k.
Proof.
  intros Hp%sched_reach_placed Hk w1 w2.
  pose proof (st_stop_ready w k Hp Hk) as H1. fold w1 in H1.
  destruct (stop_thread_frames w k.1) as (F1 & F2 & F3). fold w1 in F1, F2, F3.
  assert (N1 : k ∉ concat (ready_queues w1)).
  { rewrite F1, concat_filter. intros [Hi _]%list_elem_of_filter.
    rewrite (proj2 (of_process_true k.1 k)) in Hi; done. }
  assert (N2 : k ∉ tw_thread <$> waiting_queue w1).
  { rewrite F2. intros (y & -> & [Hi _]%list_elem_of_filter)%list_elem_of_fmap.
    rewrite (proj2 (of_process_true (tw_thread y).1 (tw_thread y))) in Hi; done. }
  assert (N3 : current w1 ≠ Some k).
  { rewrite F3. intros Hc. apply (pl_current _ _ Hp) in Hc. congruence. }
  destruct (frame_resume_all w1 k.1 (concat (ready_queues w1) ++ (tw_thread <$> waiting_queue w1) ++ option_list (current w1)))
    as (G1 & G2 & G3).
  unfold w2, continue_threads_of_process. rewrite G1, G2, G3. split_and!; try done.
  rewrite st_resume_all; [done|]. rewrite !elem_of_app. intros [?|[?|Hi]]; try done.
  destruct (current w1) as [c|]; [|by apply elem_of_nil in Hi]. apply list_elem_of_singleton in Hi. by subst.
Qed.

Definition alive (w : world) (p : Z) : Prop := p_state (procs w p) ≠ PTerminated.

Lemma alive_suspend_all w l p : alive w p → alive (suspend_all w l) p.
Proof.
  unfold suspend_all. revert w. induction l as [|x l IH]; intros w Hp; [done|]. cbn [foldl]. apply IH.
  unfold suspend. by destruct (st w x).
Qed.

Lemma alive_set w pid s p : s ≠ PTerminated → alive w p → alive (set_process_state w pid s) p.
Proof.
  intros Hs Hp. unfold alive. cbn [procs set_process_state set_procs].
  destruct (decide (p = pid)) as [->|]; [by rewrite fn_lookup_insert|by rewrite fn_lookup_insert_ne].
Qed.

Lemma alive_stop_waiters w l p : alive w p → alive (foldl stop_waiter w l) p.
Proof.
  revert w. induction l as [|x l IH]; intros w Hp; [done|]. cbn [foldl]. apply IH.
  unfold stop_waiter, wake_by_timeout, wake_waiter, set_process_and_thread_state.
  assert (Hr : alive (remove_waiter w (tw_cleanup x) (tw_thread x)) p) by (unfold remove_waiter; by destruct (tw_cleanup x)).
  set (w1 := remove_waiter w (tw_cleanup x) (tw_thread x)) in *.
  pose proof (alive_set w1 (tw_thread x).1 PReady p ltac:(done) Hr) as Hs. unfold alive in *.
  by repeat case_match; simplify_eq/=.
Qed.

Lemma alive_stop w pid p : alive w p → alive (stop_threads_of_process w pid).1 p.
Proof.
  intros Hp. unfold stop_threads_of_process. cbv zeta.
  set (w1 := suspend_all w _). set (w2 := set_ready_queues w1 _). set (x := filter _ (waiting_queue w2)).
  set (w3 := suspend_all w2 _). set (w4 := set_waiting_queue w3 _).
  assert (H1 : alive w1 p) by by apply alive_suspend_all.
  assert (H3 : alive w3 p) by (apply alive_suspend_all; exact H1).
  pose proof (alive_stop_waiters w4 x p H3) as H5. set (w5 := foldl stop_waiter w4 x) in *.
  destruct (current w5) as [c|]; [|done]. destruct (of_process pid c); cbn [fst]; [|done].
  unfold suspend. by destruct (st w5 c).
Qed.

(** The thread that is running when its process is stopped. *)
Lemma st_stop_current w k :
  placed [] w → current w = Some k → st (stop_threads_of_process w k.1).1 k = Stopped.
Proof.
  intros Hp Hc. assert (Hk : st w k = Running) by by apply (pl_current _ _ Hp).
  unfold stop_threads_of_process. cbv zeta.
  set (r := filter (λ x, of_process k.1 x) (concat (ready_queues w))).
  destruct (frame_suspend_all w r) as (_ & F2 & F3). set (w1 := suspend_all w r) in *.
  set (w2 := set_ready_queues w1 _). set (x := filter _ (waiting_queue w2)).
  destruct (frame_suspend_all w2 (tw_thread <$> x)) as (_ & _ & G3). set (w3 := suspend_all w2 _) in *.
  set (w4 := set_waiting_queue w3 _). destruct (frame_stop_waiters w4 x) as (_ & _ & K3).
  set (w5 := foldl stop_waiter w4 x) in *.
  assert (Hr : k ∉ r).
  { intros [_ Hi]%list_elem_of_filter. apply (pl_queued _ _ Hp) in Hi as [?|?]; congruence. }
  assert (Hx : k ∉ tw_thread <$> x).
  { intros (y & -> & [_ Hy]%list_elem_of_filter)%list_elem_of_fmap. cbn [waiting_queue w2 set_ready_queues] in Hy.
    rewrite F2 in Hy. assert (Hi : tw_thread y ∈ wkeys w) by by apply list_elem_of_fmap_2.
    apply (pl_parked _ _ Hp) in Hi. congruence. }
  assert (S5 : st w5 k = Running).
  { unfold w5. rewrite st_stop_waiters by done. change (st w4 k) with (st w3 k). unfold w3.
    rewrite st_suspend_all_other by done. change (st w2 k) with (st w1 k). unfold w1.
    by rewrite st_suspend_all_other. }
  assert (Ec : current w5 = Some k).
  { rewrite K3. cbn [current w4 set_waiting_queue]. rewrite G3. cbn [current w2 set_ready_queues]. by rewrite F3. }
  rewrite Ec, (proj2 (of_process_true k.1 k)) by done. cbn [fst]. apply suspend_stops. auto.
Qed.

Lemma has_dispatchable_true w q x :
  x ∈ concat q → st w x = Ready → (has_dispatchable_ready_thread w q).2 = true.
Proof.
  intros Hx Hr. unfold has_dispatchable_ready_thread. cbn [snd].
  assert (Hi : x ∈ concat (prune_nondispatchable_ready_threads w q)).
  { unfold prune_nondispatchable_ready_threads. rewrite concat_filter. apply list_elem_of_filter.
    split; [|done]. apply Is_true_true. by apply dispatchable_ready. }
  revert Hi. generalize (prune_nondispatchable_ready_threads w q). clear.
  intros q. induction q as [|l q IH]; simpl; [by intros ?%elem_of_nil|]. intros [Hl|Hl]%elem_of_app.
  - rewrite bool_decide_eq_false_2; [done|]. intros ->. by apply elem_of_nil in Hl.
  - rewrite IH by done. by rewrite orb_true_r.
Qed.

(** Preemption of a thread that may be made [Ready], whatever its state. *)
Lemma leave_cpu_requeues w k x :
  current w = Some k → st w k ≠ Terminated → alive w k.1 → length (ready_queues w) = THREAD_PRIORITY_COUNT →
  x ∈ concat (ready_queues w) → st w x = Ready →
  st (leave_cpu w true).1 k = Ready ∧ k ∈ concat (ready_queues (leave_cpu w true).1).
Proof.
  intros Hc Hk Ha Hlen Hi Hx. unfold leave_cpu. rewrite Hc. set (v := set_current w None).
  pose proof (has_dispatchable_true v (ready_queues v) x Hi Hx) as Hd.
  unfold has_dispatchable_ready_thread in *. cbn [snd] in Hd. rewrite Hd. cbn [negb].
  set (v2 := set_ready_queues v _). unfold yield_back_to_ready. rewrite spts_live by done. cbn [fst].
  set (v3 := set_state _ k Ready).
  assert (Hr : st (observe v3 preempt_count 1) k = Ready).
  { change (st (update (set_process_state v2 k.1 PReady) k (with_state Ready)) k = Ready).
    rewrite st_update. by rewrite decide_True. }
  destruct (requeue_perm (observe v3 preempt_count 1) (ready_queues (observe v3 preempt_count 1)) k) as (R1 & _ & R3);
    [|by apply dispatchable_ready|].
  { change (length (prune_nondispatchable_ready_threads v (ready_queues v)) = THREAD_PRIORITY_COUNT).
    unfold prune_nondispatchable_ready_threads. by rewrite length_map. }
  destruct (requeue_preempted_thread _ _ k) as [q b]. cbn [fst snd] in *. subst b. cbn [fst]. split; [exact Hr|].
  cbn [ready_queues set_ready_queues]. rewrite R3. by left.
Qed.

(** A stop does not hold the running thread: its state becomes [Stopped]
    while it goes on running, and when it is next preempted for a thread of
    another process it is made [Ready] and queued again. *)
Theorem stop_running_undone `{SchedEnv} w k x :
  sched_reach w → current w = Some k → st w x = Ready → x.1 ≠ k.1 →
  let w1 := (stop_threads_of_process w k.1).1 in
  let w2 := (preempt_current_thread_from_interrupt w1).1 in
  st w1 k = Stopped ∧ current w1 = Some k ∧ st w2 k = Ready ∧ k ∈ concat (ready_queues w2).
Proof.
  intros Hp%sched_reach_placed Hc Hx Hne w1 w2.
  pose proof (st_stop_current w k Hp Hc) as H1. fold w1 in H1.
  destruct (stop_thread_frames w k.1) as (F1 & _ & F3). fold w1 in F1, F3. rewrite Hc in F3.
  split; [done|]. split; [done|]. apply (leave_cpu_requeues w1 k x); [done|by rewrite H1| | | |].
  - apply alive_stop. apply (pl_process _ _ Hp k). by rewrite (pl_current _ _ Hp k Hc).
  - rewrite F1, length_map. apply (pl_queues _ _ Hp).
  - rewrite F1, concat_filter. apply list_elem_of_filter. split.
    + destruct (of_process k.1 x) eqn:E; [|done]. by apply of_process_true in E.
    + destruct (pl_ready _ _ Hp x Hx) as [|Hn]; [done|by apply elem_of_nil in Hn].
  - unfold w1. by rewrite st_stop_other.
Qed.

(** ** Killing a running process *)

(** Preemption of a thread whose process is already marked terminated. *)
Lemma leave_cpu_drops w k x :
  current w = Some k → st w k = Running → process_state w k.1 = PTerminated →
  x ∈ concat (ready_queues w) → st w x = Ready → (k ∉ concat (ready_queues w)) →
  let w' := (leave_cpu w true).1 in
  threads w' = threads w ∧ current w' = None ∧ (k ∉ concat (ready_queues w')) ∧
  waiting_queue w' = waiting_queue w ∧ events w' = events w ∧
  hotspot w' dropped_current_count = saturating_add (hotspot w dropped_current_count) 1.
Proof.
  intros Hc Hk Hp Hi Hx Hn. unfold leave_cpu. rewrite Hc. set (v := set_current w None).
  pose proof (has_dispatchable_true v (ready_queues v) x Hi Hx) as Hd.
  unfold has_dispatchable_ready_thread in *. cbn [snd] in Hd. rewrite Hd. cbn [negb].
  set (v2 := set_ready_queues v _). unfold yield_back_to_ready, set_process_and_thread_state.
  rewrite (bool_decide_eq_true_2 (process_state v2 k.1 = PTerminated)) by done. rewrite orb_true_r. cbn [fst].
  unfold requeue_preempted_thread, dispatchable, should_dispatch_ready_thread.
  rewrite bool_decide_eq_false_2 by (change (st w k ≠ Ready); by rewrite Hk). cbn [negb fst].
  split_and!; try done.
  - change (k ∉ concat (prune_nondispatchable_ready_threads v (ready_queues v))).
    unfold prune_nondispatchable_ready_threads. rewrite concat_filter. by intros [_ ?]%list_elem_of_filter.
Qed.

(** A process with one live thread, the running one. *)
Definition sole_thread (w : world) (k : key) : Prop :=
  current w = Some k ∧ ∀ x, x.1 = k.1 → st w x ≠ Terminated → x = k.

Lemma finish_terminated_all w l :
  Forall (λ x, st w x = Terminated) l → foldl finish_termination w l = w.
Proof.
  induction 1 as [|x l Hx Hl IH]; [done|]. cbn [foldl]. unfold finish_termination at 2.
  by rewrite bool_decide_eq_true_2.
Qed.

(** What a kill does to such a process. *)
Lemma kill_sole w k :
  placed [] w → sole_thread w k →
  process_request_termination w k.1 =
    request_termination
      (set_waiting_queue
        (set_ready_queues (set_process_state w k.1 PTerminated)
           (map (filter (λ x, negb (of_process k.1 x))) (ready_queues w)))
        (filter (λ x, negb (of_process k.1 (tw_thread x))) (waiting_queue w))) k.
Proof.
  intros Hp [Hc Hs]. assert (Hk : st w k = Running) by by apply (pl_current _ _ Hp).
  unfold process_request_termination.
  rewrite bool_decide_eq_false_2 by (apply (pl_process _ _ Hp k); by rewrite Hk).
  unfold terminate_threads_of_process. cbn [ready_queues waiting_queue set_process_state set_procs set_ready_queues set_waiting_queue].
  assert (Hw : filter (λ x, of_process k.1 (tw_thread x)) (waiting_queue w) = []).
  { apply elem_of_nil_inv. intros x [H1 H2]%list_elem_of_filter.
    assert (H3 : st w (tw_thread x) = Waiting) by (apply (pl_parked _ _ Hp); by apply list_elem_of_fmap_2).
    assert (tw_thread x = k) as E; [|congruence]. apply Hs; [by apply of_process_true, Is_true_true|by rewrite H3]. }
  rewrite Hw. cbn [fmap list_fmap app remove_timed_waiters_from_wait_queues foldl]. rewrite app_nil_r.
  rewrite finish_terminated_all.
  - cbn [current set_waiting_queue set_ready_queues set_process_state set_procs]. rewrite Hc.
    by rewrite (proj2 (of_process_true k.1 k)).
  - apply Forall_forall. intros x [H1 H2]%list_elem_of_filter.
    destruct (pl_queued _ _ Hp x H2) as [H3|H3]; [|done].
    assert (x = k) as E; [|congruence]. apply Hs; [by apply of_process_true, Is_true_true|by rewrite H3].
Qed.

Lemma events_remove_timed_waiter w k : events (remove_timed_waiter w k) = events w.
Proof.
  unfold remove_timed_waiter. destruct (take_timed_waiters_by_identity _ k) as [rest removed].
  assert (H : ∀ u, events (foldl (λ w x, if lost_waiter w x then observe w waiter_lost_count 1 else w) u removed) = events u).
  { induction removed as [|x removed IH]; intros u; [done|]. cbn [foldl]. rewrite IH. by destruct (lost_waiter u x). }
  by rewrite H.
Qed.

Lemma events_wake_threads w l : events (wake_threads w l).1 = events w.
Proof.
  pose proof events_remove_timed_waiter as H1.
  assert (H2 : ∀ w k, events (wake_thread w k).1 = events w).
  { intros v k. unfold wake_thread.
    assert (He : events (wake_by_signal v k).1 = events v).
    { unfold wake_by_signal, wake_waiter, set_process_and_thread_state. by repeat case_match; simplify_eq/=. }
    destruct (wake_by_signal v k) as [v1 []]; cbn [fst] in *; [|done].
    unfold enqueue_ready_thread_local, maybe_set_need_resched.
    destruct (enqueue_ready_thread _ _ k) as [q []]; cbn [fst]; [|by cbn [events set_ready_queues]; rewrite H1].
    repeat case_match; cbn [events set_need_resched observe set_hotspot set_ready_queues]; by rewrite H1. }
  revert w. induction l as [|k l IH]; intros w; [done|]. cbn [wake_threads].
  pose proof (H2 w k) as E. destruct (wake_thread w k) as [w1 b]. cbn [fst] in E. rewrite <- E, <- (IH w1).
  by destruct (wake_threads w1 l).
Qed.

Lemma events_signal w q q' : q ≠ q' → events (signal w q).1 q' = events w q'.
Proof.
  intros Hq. unfold signal, wake_with, wake_select.
  assert (H : events (signal_select q (prune_stale_waiters w q)).1 q' = events w q').
  { unfold signal_select. repeat case_match; cbn [fst events set_queue set_waiters set_signaled set_events];
      try (unfold pop_waiter in *; repeat case_match; simplify_eq);
      cbn [events set_queue set_waiters set_events set_signaled]; by rewrite fn_lookup_insert_ne. }
  destruct (signal_select q _) as [w1 l]. cbn [fst] in H. by rewrite events_wake_threads.
Qed.

(** The state after the kill of such a process. *)
Record killed (w w1 : world) (k : key) : Prop := {
  ki_st y : st w1 y = st w y;
  ki_process : process_state w1 k.1 = PTerminated;
  ki_ready y : y ∈ concat (ready_queues w1) ↔ y ∈ concat (ready_queues w) ∧ y.1 ≠ k.1;
  ki_wait y : y ∈ tw_thread <$> waiting_queue w1 ↔ y ∈ tw_thread <$> waiting_queue w ∧ y.1 ≠ k.1;
  ki_current : current w1 = current w;
  ki_events : events w1 = events w;
  ki_hotspot : hotspot w1 = hotspot w;
}.

Lemma kill_sole_killed w k :
  placed [] w → sole_thread w k → killed w (process_request_termination w k.1) k.
Proof.
  intros Hp Hs. rewrite (kill_sole w k Hp Hs).
  assert (Hb : ∀ y, negb (of_process k.1 y) ↔ y.1 ≠ k.1).
  { intros y. unfold of_process. case_bool_decide; simpl; tauto. }
  split; try done.
  - intros y. unfold request_termination. rewrite st_update. by destruct (decide (y = k)) as [->|].
  - unfold process_state. cbn. by rewrite fn_lookup_insert.
  - intros y. cbn [ready_queues request_termination update set_threads set_waiting_queue set_ready_queues].
    rewrite concat_filter, list_elem_of_filter, Hb. tauto.
  - intros y. cbn [waiting_queue request_termination update set_threads set_waiting_queue].
    rewrite (filter_keys (λ x, negb (of_process k.1 x))), list_elem_of_filter, Hb. tauto.
Qed.

(** Honouring the request ends the thread, and signals no exit of the process. *)
Lemma finish_killed w w1 k :
  killed w w1 k → current w = Some k → st w k = Running →
  events (finish_current_thread w1).1 (ProcessExit k.1) = events w (ProcessExit k.1).
Proof.
  intros K Hc Hk. unfold finish_current_thread. rewrite (ki_current _ _ _ K), Hc. cbn [fst].
  rewrite events_remove_timed_waiter. unfold terminate_sibling_threads. set (v := set_current w1 None).
  assert (Hd : filter (λ x, is_sibling k x) (concat (ready_queues v)) ++
               filter (λ x, is_sibling k x) (tw_thread <$> waiting_queue v) = []).
  { apply elem_of_nil_inv. intros y. rewrite elem_of_app, !list_elem_of_filter. unfold is_sibling.
    intros [[Hy Hi]|[Hy Hi]]; apply andb_prop_elim in Hy as [Hy _]; apply bool_decide_unpack in Hy.
    - by apply (ki_ready _ _ _ K) in Hi as [_ ?].
    - by apply (ki_wait _ _ _ K) in Hi as [_ ?]. }
  rewrite Hd. cbn [foldl]. set (v2 := set_waiting_queue _ _). unfold finish_termination.
  rewrite bool_decide_eq_false_2 by (change (st w1 k ≠ Terminated); by rewrite (ki_st _ _ _ K), Hk).
  change (events (signal (finish_thread_termination (set_state v2 k Terminated) k) (ThreadExit k)).1 (ProcessExit k.1)
          = events w (ProcessExit k.1)).
  rewrite events_signal by done. rewrite <- (ki_events _ _ _ K). unfold finish_thread_termination.
  destruct (negb _); [done|].
  rewrite (bool_decide_eq_true_2 (p_state _ = PTerminated)) by exact (ki_process _ _ _ K). by rewrite orb_true_r.
Qed.

(** A kill of a process whose thread is running is never finished.  The
    process is marked terminated at once.  On a target with context switches
    the next preemption drops the thread: it is neither terminated nor in any
    queue, and nothing runs it again.  On one without, the thread is
    terminated, but the process's exit event is not signalled either, because
    the process was marked before its last thread ended. *)
Theorem kill_running_never_completes `{SchedEnv} w k x :
  sched_reach w → sole_thread w k → st w x = Ready →
  let w1 := process_request_termination w k.1 in
  let w2 := (preempt_current_thread_from_interrupt w1).1 in
  let w3 := (finish_current_thread w1).1 in
  process_state w1 k.1 = PTerminated ∧
  (st w2 k = Running ∧ current w2 = None ∧ (k ∉ concat (ready_queues w2)) ∧
   (k ∉ tw_thread <$> waiting_queue w2) ∧ hotspot w2 dropped_current_count = 1 ∧
   events w2 (ProcessExit k.1) = events w (ProcessExit k.1)) ∧
  events w3 (ProcessExit k.1) = events w (ProcessExit k.1).
Proof.
  intros Hp%sched_reach_placed Hs Hx w1 w2 w3. pose proof (kill_sole_killed w k Hp Hs) as K. fold w1 in K.
  destruct Hs as [Hc Hs]. assert (Hk : st w k = Running) by by apply (pl_current _ _ Hp).
  split; [apply (ki_process _ _ _ K)|]. split; [|by apply finish_killed].
  destruct (leave_cpu_drops w1 k x) as (D1 & D2 & D3 & D4 & D5 & D6).
  - by rewrite (ki_current _ _ _ K).
  - by rewrite (ki_st _ _ _ K).
  - apply (ki_process _ _ _ K).
  - apply (ki_ready _ _ _ K). split.
    + destruct (pl_ready _ _ Hp x Hx) as [|Hn]; [done|by apply elem_of_nil in Hn].
    + intros E. assert (x = k) by (apply Hs; [done|by rewrite Hx]). congruence.
  - by rewrite (ki_st _ _ _ K).
  - by intros [_ ?]%(ki_ready _ _ _ K).
  - unfold w2, preempt_current_thread_from_interrupt. split_and!; try done.
    + unfold st. rewrite D1. rewrite <- Hk. apply (ki_st _ _ _ K).
    + rewrite D4. by intros [_ ?]%(ki_wait _ _ _ K).
    + rewrite D6, (ki_hotspot _ _ _ K). by rewrite (proj2 (pl_counters _ _ Hp)).
    + by rewrite D5, (ki_events _ _ _ K).
Qed.

(** ** Concrete runs

    A target with context switches, one CPU, every address space ready. *)

#[local] Instance demo_sched : SchedEnv :=
  {| context_switch := true; cpu_id := 0; address_space_ok := λ _, true |}.

#[local] Instance fresh_dec w k : Decision (fresh w k).
Proof. unfold fresh. apply _. Defined.

Lemma reach_step w w' : sched_reach w → sched_step w w' → sched_reach w'.
Proof. intros [p Hr] Hs. exists p. by eapply rtc_r. Qed.

(** Two processes, no thread yet. *)
Definition two_processes : world :=
  create_ready_process (create_ready_process (sched_new (λ _, mkProcess PNew [])) 1) 2.

Lemma two_processes_reach : sched_reach two_processes.
Proof.
  exists (λ _, mkProcess PNew []). eapply rtc_l; [by apply (step_process _ 1)|].
  eapply rtc_l; [by apply (step_process _ 2)|]. done.
Qed.

Definition spawn_all (w : world) (l : list key) : world := foldl spawn_thread w l.

Fixpoint all_fresh (w : world) (l : list key) : bool :=
  match l with [] => true | k :: l => bool_decide (fresh w k) && all_fresh (spawn_thread w k) l end.

Lemma spawn_all_reach w l : sched_reach w → all_fresh w l = true → sched_reach (spawn_all w l).
Proof.
  revert w. induction l as [|k l IH]; intros w Hr Hf; [done|]. cbn [all_fresh] in Hf.
  apply andb_true_iff in Hf as [Hk Hf]. apply bool_decide_eq_true in Hk. cbn [spawn_all foldl].
  apply (IH (spawn_thread w k)); [|done]. eapply reach_step; [done|by apply step_spawn].
Qed.

(** Three threads; the first runs. *)
Definition three : world := (schedule_round (spawn_all two_processes [(1, 1); (1, 2); (2, 1)])).1.

Lemma three_reach : sched_reach three.
Proof.
  eapply reach_step; [apply (spawn_all_reach two_processes [(1, 1); (1, 2); (2, 1)] two_processes_reach); by vm_compute|].
  apply step_dispatch. by vm_compute.
Qed.

(** The running thread sleeps for five ticks. *)
Definition sleeping : world := sleep_current_thread three 5.

Lemma sleeping_reach : sched_reach sleeping.
Proof. eapply reach_step; [apply three_reach|apply step_sleep]. Qed.


(** C21 at the tick the sleeper waits for. *)
Lemma wake_ready_threads_exact_witness :
  (wake_ready_threads sleeping 5).2 = 1 ∧ st (wake_ready_threads sleeping 5).1 (1, 1) = Ready.
Proof.
  destruct (wake_ready_threads_exact sleeping 5 sleeping_reach) as (H1 & H2 & _).
  split; [rewrite H1; by vm_compute|]. by apply (H2 (1, 1)); vm_compute.
Defined.

Lemma three_queued : ready_queue_len (ready_queues three) = 2%nat.
Proof. by vm_compute. Qed.

(** C22 with two queued threads. *)
Lemma boost_loses_nothing_witness : ready_queue_len (ready_queues (boost_starved_threads three)) = 2%nat.
Proof. exact (eq_trans (proj1 (proj2 (boost_loses_nothing three three_reach))) three_queued). Defined.

(** C23 at the same queues. *)
Lemma take_next_highest_first_witness :
  ∃ q, take_next_dispatchable_thread_with_dropped three (ready_queues three) = (q, Some (1, 2), 0) ∧
    ∃ i pre post, ready_queues three !! i = Some (pre ++ (1, 2) :: post).
Proof.
  pose proof (take_next_highest_first three (ready_queues three) ltac:(by vm_compute)) as H.
  destruct (take_next_dispatchable_thread_with_dropped three (ready_queues three)) as [[q r] d] eqn:E.
  assert (r = Some (1, 2) ∧ d = 0) as [-> ->] by (vm_compute in E; by simplify_eq).
  exists q. split; [done|]. destruct H as (i & pre & post & _ & H & _). by exists i, pre, post.
Defined.

(** A thread that is already queued is queued once. *)
Lemma enqueue_once_witness :
  ∃ q1, enqueue_ready_thread three (ready_queues three) (1, 2) = (q1, Enqueued) ∧
    q1 !! 1%nat = Some [(2, 1); (1, 2)].
Proof.
  destruct (enqueue_once three (ready_queues three) (1, 2) ltac:(by vm_compute)) as [_ H].
  destruct H as (q1 & q2 & H1 & _ & H); [by vm_compute|]. exists q1. split; [done|].
  destruct (H 1%nat [(1, 2); (2, 1)] ltac:(by vm_compute)) as [E _].
  etrans; [exact E|]. by vm_compute.
Defined.

(** Stealing one of the two. *)
Lemma steal_conserves_witness :
  ∃ q stolen, steal_ready_threads three (ready_queues three) 1 (Some 1) = (q, stolen) ∧ (length stolen ≤ 1)%nat.
Proof.
  pose proof (steal_conserves three (ready_queues three) 1 (Some 1) ltac:(by vm_compute)) as H.
  destruct (steal_ready_threads three (ready_queues three) 1 (Some 1)) as [q stolen].
  exists q, stolen. split; [done|]. apply H.
Defined.

(** C26 for the queued thread of process 1. *)
Lemma stop_then_continue_loses_witness :
  st (continue_threads_of_process (stop_threads_of_process three 1).1 1).1 (1, 2) = Stopped.
Proof. apply (stop_then_continue_loses three (1, 2) three_reach); by vm_compute. Defined.

(** C27 for its running thread. *)
Lemma stop_running_undone_witness :
  st (preempt_current_thread_from_interrupt (stop_threads_of_process three 1).1).1 (1, 1) = Ready.
Proof. apply (stop_running_undone three (1, 1) (2, 1) three_reach); by vm_compute. Defined.

(** A process whose only thread runs, and another process. *)
Definition single : world := (schedule_round (spawn_all two_processes [(1, 1); (2, 1)])).1.

Lemma single_reach : sched_reach single.
Proof.
  eapply reach_step; [apply (spawn_all_reach two_processes [(1, 1); (2, 1)] two_processes_reach); by vm_compute|].
  apply step_dispatch. by vm_compute.
Qed.

Lemma single_sole : sole_thread single (1, 1).
Proof.
  split; [by vm_compute|]. intros [p t] Hp Ht. simpl in Hp. subst p.
  pose proof (pl_process _ _ (sched_reach_placed _ single_reach) (1, t) Ht) as [_ Hi].
  assert (E : p_threads (procs single 1) = [1]) by by vm_compute.
  change (t ∈ p_threads (procs single 1)) in Hi. rewrite E in Hi.
  apply list_elem_of_singleton in Hi. by subst.
Qed.

(** C28 there. *)
Lemma kill_running_never_completes_witness :
  st (preempt_current_thread_from_interrupt (process_request_termination single 1)).1 (1, 1) = Running.
Proof.
  destruct (kill_running_never_completes single (1, 1) (2, 1) single_reach single_sole) as (_ & (H & _) & _);
    [by vm_compute|exact H].
Defined.

(** ** A thread joined by a sibling *)

(** Thread 3 waits for thread 2 to end, thread 1 runs. *)
Definition joined : world :=
  (schedule_round (wait (schedule_round (spawn_all two_processes [(1, 3); (1, 1); (1, 2)])).1
                     (ThreadExit (1, 2))).1).1.

Lemma joined_reach : sched_reach joined.
Proof.
  eapply reach_step; [|apply step_dispatch; by vm_compute].
  eapply reach_step; [|apply step_wait].
  eapply reach_step; [|apply step_dispatch; by vm_compute].
  apply (spawn_all_reach two_processes [(1, 3); (1, 1); (1, 2)] two_processes_reach). by vm_compute.
Qed.

(** When a thread ends while one of its siblings joins another, the joiner
    is woken into a ready queue after the exit has taken it out of the queues
    and before it is terminated: a terminated thread stays queued, and the next
    dispatch counts a dropped ready thread, the counter that should read zero. *)
Theorem exit_queues_dead_joiner :
  ∃ w, sched_reach w ∧ current w = Some (1, 1) ∧
    let w1 := (finish_current_thread w).1 in
    st w1 (1, 3) = Terminated ∧ (1, 3) ∈ concat (ready_queues w1) ∧
    hotspot (schedule_round w1).1 dropped_ready_count = 1.
Proof.
  exists joined. split; [apply joined_reach|]. split; [by vm_compute|]. cbv zeta. split_and!; [by vm_compute| |by vm_compute].
  apply (bool_decide_unpack _). by vm_compute.
Qed.
