(* ===== verification/WaitTheorems.v ===== *)
(** * Semaphores and events

    What [Semaphore] and [Event] (src/kernel/process/wait) promise when their
    operations run undisturbed, and the permit that is lost when a deadline
    expires between the two halves of a release. *)

From stdpp Require Import base tactics decidable numbers list functions relations.
From S2P Require Import Prelude Thread ReadyQueue Sched SchedInv SchedOps SchedTheorems.

(** ** Waking a list of waiting threads *)

Lemma wake_threads_spec D w l :
  placed D w → NoDup l → Forall (λ k, st w k = Waiting) l →
  let r := wake_threads w l in
  r.2 = Z.of_nat (length l) ∧
  (∀ k, k ∈ l → st r.1 k = Ready ∧ wait_outcome (threads r.1 k) = Completed) ∧
  (∀ k, k ∉ l → threads r.1 k = threads w k) ∧
  waiters r.1 = waiters w ∧ permits r.1 = permits w ∧ events r.1 = events w.
Proof.
  revert w. induction l as [|k l IH]; intros w Hp Hnd Hl.
  { split_and!; try done. intros k Hk. by apply elem_of_nil in Hk. }
  apply NoDup_cons in Hnd as [Hk Hnd]. apply Forall_cons in Hl as [Hs Hl]. cbn [wake_threads].
  destruct (wake_thread_spec D w k Hp Hs) as (w1 & -> & H1 & Hw).
  destruct (IH w1 H1 Hnd) as (R1 & R2 & R3 & R4 & R5 & R6).
  { apply Forall_forall. intros x Hx. unfold st. rewrite (wo_others _ _ _ _ Hw) by (by intros ->).
    rewrite Forall_forall in Hl. by apply Hl. }
  destruct (wake_threads w1 l) as [w2 n]. cbn [fst snd] in *. subst n. split_and!.
  - simpl length. lia.
  - intros x [->|Hx]%elem_of_cons; [|auto]. unfold st. rewrite (R3 _ Hk).
    split; [apply (wo_state _ _ _ _ Hw)|apply (wo_outcome _ _ _ _ Hw)].
  - intros x [Hx1 Hx2]%not_elem_of_cons. rewrite R3, (wo_others _ _ _ _ Hw) by done. done.
  - by rewrite R4, (wo_waiters _ _ _ _ Hw).
  - by rewrite R5, (wo_permits _ _ _ _ Hw).
  - by rewrite R6, (wo_events _ _ _ _ Hw).
Qed.

(** The waiters of a queue that can be served. *)
Definition active (w : world) (q : queue_id) : list key := filter (λ k, is_active_waiter w k) (waiters w q).

Lemma active_waiting w q k : k ∈ active w q → st w k = Waiting.
Proof.
  intros [Hk _]%list_elem_of_filter. unfold is_active_waiter in Hk.
  apply andb_prop_elim in Hk as [Hk _]. by apply bool_decide_unpack in Hk.
Qed.

Lemma waiters_prune w q : waiters (prune_stale_waiters w q) q = active w q.
Proof. unfold prune_stale_waiters, set_queue. cbn [waiters set_waiters]. by rewrite fn_lookup_insert. Qed.

Lemma pop_active w q k l :
  is_active_waiter w k = true → waiters w q = k :: l → pop_waiter w q = (set_queue w q l, Some k).
Proof. intros Hk Hq. unfold pop_waiter. rewrite Hq. cbn [take_next_waiter]. by rewrite Hk. Qed.

Lemma pop_empty w q : waiters w q = [] → pop_waiter w q = (set_queue w q [], None).
Proof. intros Hq. unfold pop_waiter. by rewrite Hq. Qed.

(** What a selection leaves alone. *)
Record selected (w : world) (q : queue_id) (w' : world) (l : list key) : Prop := {
  se_threads : threads w' = threads w;
  se_procs : procs w' = procs w;
  se_waiters : waiters w' q = l;
  se_same : same_place w w';
}.

Lemma active_same w w' k :
  threads w' = threads w → procs w' = procs w → is_active_waiter w' k = is_active_waiter w k.
Proof. intros Ht Hp. unfold is_active_waiter, st, process_state. by rewrite Ht, Hp. Qed.

Lemma release_select_spec q n w :
  Forall (λ k, is_active_waiter w k = true) (waiters w q) → 0 ≤ permits w q →
  permits w q + Z.of_nat n ≤ u64_max →
  let r := release_select q n w in
  selected w q r.1 (drop n (waiters w q)) ∧ r.2 = take n (waiters w q) ∧
  permits r.1 q + Z.of_nat (length r.2) = permits w q + Z.of_nat n.
Proof.
  revert w. induction n as [|n IH]; intros w Ha H0 Hm.
  { cbn [release_select fst snd]. rewrite drop_0, take_0. split_and!; [by split|done|simpl; lia]. }
  cbn [release_select]. destruct (waiters w q) as [|k l] eqn:Eq.
  - rewrite pop_empty by done. set (w1 := set_permit _ q _).
    assert (P1 : permits w1 q = permits w q + 1).
    { unfold w1, set_permit. cbn [permits set_permits]. rewrite fn_lookup_insert.
      cbn [permits set_queue set_waiters]. unfold saturating_add. lia. }
    assert (Q1 : waiters w1 q = []).
    { unfold w1, set_permit. cbn [waiters set_permits set_queue set_waiters]. by rewrite fn_lookup_insert. }
    destruct (IH w1) as ([S1 S2 S3 S4] & -> & R3); [by rewrite Q1|lia|lia|].
    rewrite Q1 in *. rewrite drop_nil in S3. rewrite take_nil in *. rewrite !drop_nil, !take_nil.
    split_and!; [|done|simpl in *; lia]. split; [by rewrite S1|by rewrite S2|done|].
    etrans; [|exact S4]. by split.
  - apply Forall_cons in Ha as [Hk Ha]. rewrite (pop_active w q k l) by done. set (w1 := set_queue w q l).
    assert (Q1 : waiters w1 q = l) by (unfold w1, set_queue; cbn [waiters set_waiters]; by rewrite fn_lookup_insert).
    destruct (IH w1) as ([S1 S2 S3 S4] & R2 & R3); [by rewrite Q1| | |].
    { done. } { change (permits w1 q) with (permits w q). lia. }
    rewrite Q1 in *. change (permits w1 q) with (permits w q) in R3.
    destruct (release_select q n w1) as [w2 l2]. cbn [fst snd] in *. rewrite R2 in *.
    split_and!; [|done|simpl length in *; lia]. split; [by rewrite S1|by rewrite S2|done|].
    etrans; [|exact S4]. by split.
Qed.


(** Signalling a manual-reset event leaves it signalled and wakes every
    waiter; an auto-reset event wakes its first waiter and is not signalled, or
    has none and is signalled. *)
Theorem signal_wakes `{SchedEnv} w q :
  sched_reach w → NoDup (waiters w q) →
  let served := match mode (events w q) with ManualReset => active w q | AutoReset => take 1 (active w q) end in
  let r := signal w q in
  r.2 = Z.of_nat (length served) ∧
  (∀ k, k ∈ served → st r.1 k = Ready ∧ wait_outcome (threads r.1 k) = Completed) ∧
  (∀ k, k ∉ served → threads r.1 k = threads w k) ∧
  events r.1 q = mkEventState (mode (events w q))
    match mode (events w q) with ManualReset => true | AutoReset => bool_decide (active w q = []) end.
Proof.
  intros Hp%sched_reach_placed Hnd served r. unfold r, signal, wake_with, wake_select.
  set (w0 := prune_stale_waiters w q). assert (Q0 : waiters w0 q = active w q) by apply waiters_prune.
  assert (Hs : ∃ w1, signal_select q w0 = (w1, served) ∧ threads w1 = threads w ∧ same_place w w1 ∧
    events w1 q = mkEventState (mode (events w q))
      match mode (events w q) with ManualReset => true | AutoReset => bool_decide (active w q = []) end).
  { pose proof (same_signal_select q w0) as S. unfold signal_select in *.
    change (mode (events w0 q)) with (mode (events w q)) in *. unfold served. destruct (mode (events w q)) eqn:Em.
    - eexists. rewrite Q0. split; [done|]. split; [done|]. split; [by split|].
      cbn [events set_queue set_waiters set_signaled set_events]. rewrite fn_lookup_insert. by f_equal.
    - destruct (active w q) as [|k l] eqn:Ea.
      + rewrite pop_empty by done. eexists. split; [done|]. split; [done|]. split; [by split|].
        cbn [events set_queue set_waiters set_signaled set_events]. rewrite fn_lookup_insert. by f_equal.
      + assert (Hk : is_active_waiter w0 k = true).
        { rewrite (active_same w w0) by done. assert (Hi : k ∈ active w q) by (rewrite Ea; by left).
          apply list_elem_of_filter in Hi as [Hi _]. by apply Is_true_true. }
        rewrite (pop_active w0 q k l) by done. eexists. split; [done|]. split; [done|]. split; [by split|].
        cbn [events set_queue set_waiters set_signaled set_events]. rewrite fn_lookup_insert. by f_equal. }
  destruct Hs as (w1 & -> & St & Ss & Se).
  assert (Hl : ∀ k, k ∈ served → k ∈ active w q).
  { intros k Hk. unfold served in Hk. destruct (mode (events w q)); [done|].
    by eapply elem_of_take in Hk as (i & Hi%list_elem_of_lookup_2 & _). }
  destruct (wake_threads_spec [] w1 served) as (T1 & T2 & T3 & _ & _ & T6).
  - by eapply placed_same.
  - unfold served. assert (NoDup (active w q)) by by apply NoDup_filter.
    destruct (mode (events w q)); [done|]. eapply sublist_NoDup; [done|]. apply sublist_take.
  - apply Forall_forall. intros k Hk. unfold st. rewrite St. by apply (active_waiting w q), Hl.
  - rewrite T6. split_and!; try done. intros k Hk. rewrite T3 by done. by rewrite St.
Qed.

(** ** Taking a permit *)

Lemma dispatch_next_frame w :
  let w' := (dispatch_next_simulated w).1 in
  waiters w' = waiters w ∧ permits w' = permits w ∧ waiting_queue w' = waiting_queue w ∧
  ∀ k, st w k = Waiting → length (ready_queues w) = THREAD_PRIORITY_COUNT → st w' k = Waiting.
Proof.
  unfold dispatch_next_simulated, take_next_dispatchable_thread, take_next_dispatchable_thread_with_dropped.
  pose proof (take_from_perm w (ready_queues w) THREAD_PRIORITY_COUNT 0) as Hd.
  destruct (take_from w (ready_queues w) THREAD_PRIORITY_COUNT 0) as [[q [x|]] d]; cbn [fst]; [|done].
  unfold restore_context, set_process_and_thread_state. destruct (_ || _); cbn [fst]; [done|].
  split_and!; try done. intros k Hk Hlen. rewrite Hlen in Hd. destruct (Hd ltac:(lia)) as (_ & _ & _ & _ & Hx).
  unfold dispatchable, should_dispatch_ready_thread in Hx. apply bool_decide_eq_true in Hx.
  cbn [observe set_hotspot set_current]. change (st (set_state (set_process_state (set_ready_queues w q) x.1 PRunning) x Running) k = Waiting).
  unfold set_state. rewrite st_update. destruct (decide (k = x)) as [->|]; [congruence|done].
Qed.

Lemma block_state w k t : st w k ≠ Terminated → p_state (procs w k.1) ≠ PTerminated →
  st (enter_waiting_state w k t) k = Waiting ∧ waiters (enter_waiting_state w k t) = waiters w ∧
  permits (enter_waiting_state w k t) = permits w ∧ ready_queues (enter_waiting_state w k t) = ready_queues w.
Proof.
  intros Hk Hp. unfold enter_waiting_state. rewrite spts_live by done. split; [|done].
  unfold set_wait_outcome, set_state, st. rewrite !threads_update. by destruct (decide (k = k)).
Qed.

(** With a permit to take, [acquire] takes one and goes on running with
    the outcome [Completed]; with none, the thread waits, is parked, and is the
    last of the waiters that can be woken. *)
Theorem acquire_takes_or_waits `{SchedEnv} w q k :
  sched_reach w → current w = Some k →
  let r := acquire w q in
  (0 < permits w q →
     r.2 = false ∧ permits r.1 q = permits w q - 1 ∧ current r.1 = Some k ∧ st r.1 k = Running ∧
     wait_outcome (threads r.1 k) = Completed) ∧
  (permits w q ≤ 0 →
     r.2 = true ∧ permits r.1 q = permits w q ∧ st r.1 k = Waiting ∧
     k ∈ tw_thread <$> waiting_queue r.1 ∧ waiters r.1 q = active w q ++ [k]).
Proof.
  intros Hp%sched_reach_placed Hc r. assert (Hk : st w k = Running) by by apply (pl_current _ _ Hp).
  unfold r, acquire, block_current_if, block_current_thread_if. rewrite Hc.
  set (v := prune_stale_waiters (set_current w None) q). unfold acquire_prepare.
  change (permits v q) with (permits w q). split; intros Hq.
  - rewrite (proj2 (Z.ltb_lt _ _)) by lia. cbn [fst snd]. split_and!; try done.
    + cbn [permits set_current set_wait_outcome update set_threads set_permit set_permits]. by rewrite fn_lookup_insert.
    + change (st (update (set_permit v q (permits w q - 1)) k (with_outcome Completed)) k = Running).
      rewrite st_update. by rewrite decide_True.
    + change (wait_outcome (threads (update (set_permit v q (permits w q - 1)) k (with_outcome Completed)) k) = Completed).
      rewrite threads_update. by rewrite decide_True.
  - rewrite (proj2 (Z.ltb_ge _ _)) by lia. cbn [fst snd]. set (v1 := push_waiter v q k).
    assert (Q1 : waiters v1 q = active w q ++ [k]).
    { unfold v1, push_waiter, set_queue. cbn [waiters set_waiters]. rewrite fn_lookup_insert.
      unfold v. by rewrite waiters_prune. }
    destruct (block_state v1 k None) as (B1 & B2 & B3 & B4);
      [by change (st w k ≠ Terminated); rewrite Hk|by apply (pl_process _ _ Hp k); rewrite Hk|].
    set (v2 := observe (park_thread (block v1 k) k None) block_count 1).
    assert (Hw : k ∈ tw_thread <$> waiting_queue v2).
    { unfold v2. cbn [waiting_queue observe set_hotspot park_thread set_waiting_queue].
      rewrite fmap_app, elem_of_app. right. by left. }
    assert (P2 : permits v2 q = permits w q).
    { change (permits (enter_waiting_state v1 k None) q = permits w q). by rewrite B3. }
    assert (W2 : waiters v2 q = active w q ++ [k]).
    { change (waiters (enter_waiting_state v1 k None) q = active w q ++ [k]). by rewrite B2. }
    assert (S2 : st v2 k = Waiting) by exact B1.
    destruct context_switch; [done|].
    destruct (dispatch_next_frame v2) as (D1 & D2 & D3 & D4). rewrite D1, D2, D3. split_and!; try done.
    apply D4; [done|]. change (length (ready_queues (enter_waiting_state v1 k None)) = THREAD_PRIORITY_COUNT).
    rewrite B4. apply (pl_queues _ _ Hp).
Qed.

(** ** Concrete runs *)

#[local] Instance demo_wait : SchedEnv :=
  {| context_switch := true; cpu_id := 0; address_space_ok := λ _, true |}.

(** Thread [(1, 1)] runs; [(1, 2)] and [(2, 1)] are queued. *)
Definition running : world :=
  (schedule_round (spawn_all two_processes [(1, 1); (1, 2); (2, 1)])).1.

Lemma running_reach : sched_reach running.
Proof.
  eapply reach_step; [apply (spawn_all_reach two_processes [(1, 1); (1, 2); (2, 1)] two_processes_reach); by vm_compute|].
  apply step_dispatch. by vm_compute.
Qed.

(** It waits for a permit of semaphore [Obj 7], for at most three ticks. *)
Definition blocked : world := (acquire_timeout running (Obj 7) 3).1.

Lemma blocked_reach : sched_reach blocked.
Proof. eapply reach_step; [apply running_reach|apply step_acquire_timeout]. Qed.


(** A manual-reset event with the waiter of [blocked]. *)
Lemma signal_wakes_witness : (signal blocked (Obj 7)).2 = 1.
Proof.
  destruct (signal_wakes blocked (Obj 7) blocked_reach) as (H1 & _).
  - apply (bool_decide_unpack _). by vm_compute.
  - rewrite H1. by vm_compute.
Defined.

(** C32 with no permit. *)
Lemma acquire_takes_or_waits_witness : st (acquire running (Obj 7)).1 (1, 1) = Waiting.
Proof.
  destruct (acquire_takes_or_waits running (Obj 7) (1, 1) running_reach ltac:(by vm_compute)) as [_ H].
  apply H. by vm_compute.
Defined.

(** A permit can be lost.  The release selects the waiter under the queue's
    lock and wakes it after the lock is released; when the waiter's deadline
    expires in between, the wake-up finds it [Ready] and is refused.  The
    release has then given its permit to nobody: the waiter reports a time-out,
    the count is still zero, and no thread was woken. *)
Theorem release_loses_permit :
  ∃ w q k, sched_reach w ∧ st w k = Waiting ∧ permits w q = 0 ∧
    let '(w1, waking) := wake_select w q (release_select q 1) in
    let w2 := (handle_timer_tick_with_preemption w1 3 false).1 in
    let '(w3, n) := wake_threads w2 waking in
    sched_reach w2 ∧ waking = [k] ∧ n = 0 ∧ permits w3 q = 0 ∧ waiters w3 q = [] ∧
    st w3 k = Ready ∧ wait_outcome (threads w3 k) = TimedOut.
Proof.
  exists blocked, (Obj 7), (1, 1). split; [apply blocked_reach|]. split; [by vm_compute|]. split; [by vm_compute|].
  destruct (wake_select blocked (Obj 7) (release_select (Obj 7) 1)) as [w1 waking] eqn:E1. cbv zeta.
  destruct (wake_threads _ waking) as [w3 n] eqn:E3. split.
  - eapply reach_step; [|apply step_tick]. assert (E : w1 = (wake_select blocked (Obj 7) (select (Obj 7) (SelectRelease 1))).1)
      by (change (select (Obj 7) (SelectRelease 1)) with (release_select (Obj 7) 1); by rewrite E1).
    rewrite E. eapply reach_step; [apply blocked_reach|apply step_select].
  - assert (w1 = (wake_select blocked (Obj 7) (release_select (Obj 7) 1)).1) as -> by by rewrite E1.
    assert (waking = (wake_select blocked (Obj 7) (release_select (Obj 7) 1)).2) as -> by by rewrite E1.
    apply (f_equal fst) in E3 as F3. apply (f_equal snd) in E3 as F4. cbn [fst snd] in F3, F4. rewrite <- F3, <- F4.
    clear. split_and!; by vm_compute.
Qed.
