(* ===== verification/SlotPool.v ===== *)
(** * Slot pools: numbered regions shared by address spaces

    memory/slot_pool.rs.  A [SlotPool] is one atomic word of taken indices and
    one atomic reference count per index.  The operations are lock free, so
    each is split into its atomic accesses: [machine] holds the pool, the
    program counter of every CPU, and, as a ghost, the regions that the live
    address spaces hold.  A step runs one atomic access of one CPU, and the
    CPUs interleave freely. *)

From stdpp Require Import base tactics decidable numbers list sets.
From Stdlib Require Import ZArith Lia Bool.
From S2P Require Import Prelude.

(** ** The pool and its atomic accesses *)

Record SlotPool := mkPool {
  taken : Z;
  references : list Z
}.

(** [1u64 << index]. *)
Definition slot_mask (index : nat) : Z := Z.shiftl 1 (Z.of_nat index).

Definition compare_exchange (p : SlotPool) (old new : Z) : SlotPool * bool :=
  if taken p =? old then (mkPool new (references p), true) else (p, false).

Definition store_reference (p : SlotPool) (index : nat) (v : Z) : SlotPool :=
  mkPool (taken p) (<[index := v]> (references p)).

(** The count an index has, [0] past the end (no operation reads there). *)
Definition reference (p : SlotPool) (index : nat) : Z := default 0 (references p !! index).

Definition fetch_add_reference (p : SlotPool) (index : nat) : SlotPool :=
  store_reference p index (wrapping_add (reference p index) 1).

Definition fetch_sub_reference (p : SlotPool) (index : nat) : SlotPool * Z :=
  (store_reference p index (wrapping_sub (reference p index) 1), reference p index).

Definition fetch_and_taken (p : SlotPool) (v : Z) : SlotPool :=
  mkPool (Z.land (taken p) v) (references p).

Section Pool.
Context (COUNT : nat).

Definition new_pool : SlotPool := mkPool 0 (replicate COUNT 0).

(** The scan of [claim] over a snapshot of the taken word. *)
Fixpoint scan_free (snapshot : Z) (indices : list nat) : option nat :=
  match indices with
  | [] => None
  | index :: rest =>
      if Z.land snapshot (slot_mask index) =? 0 then Some index
      else scan_free snapshot rest
  end.

Definition find_free (snapshot : Z) : option nat := scan_free snapshot (seq 0 COUNT).

(** [claim] when no other CPU runs between its accesses. *)
Definition claim (p : SlotPool) : SlotPool * option nat :=
  match find_free (taken p) with
  | None => (p, None)
  | Some index =>
      let '(p, won) := compare_exchange p (taken p) (Z.lor (taken p) (slot_mask index)) in
      if won then (store_reference p index 1, Some index) else (p, None)
  end.

Definition retain (p : SlotPool) (index : nat) : SlotPool :=
  if decide (index < COUNT)%nat then fetch_add_reference p index else p.

(** The first access of [release]; [true] when the bitmap is to be cleared. *)
Definition release_begin (p : SlotPool) (index : nat) : SlotPool * bool :=
  if decide (index < COUNT)%nat then
    let '(p, previous) := fetch_sub_reference p index in (p, previous <=? 1)
  else (p, false).

Definition release_end (p : SlotPool) (index : nat) : SlotPool :=
  fetch_and_taken p (unot64 (slot_mask index)).

Definition release_slot (p : SlotPool) (index : nat) : SlotPool :=
  let '(p, last) := release_begin p index in
  if last then release_end p index else p.

Definition is_taken (p : SlotPool) (index : nat) : bool :=
  bool_decide (index < COUNT)%nat && negb (Z.land (taken p) (slot_mask index) =? 0).

Definition holders (p : SlotPool) (index : nat) : Z :=
  if decide (index < COUNT)%nat then reference p index else 0.

(** ** The interleaving machine *)

(** Where a CPU stands between two atomic accesses. *)
Inductive pc :=
| Idle
| Claiming
| Loaded (snapshot : Z)
| Won (index : nat)
| Freeing (index : nat).

#[global] Instance pc_eq_dec : EqDecision pc.
Proof. solve_decision. Defined.

Record machine := mkMachine {
  pool : SlotPool;
  cpus : list pc;
  held : list nat
}.

Inductive access :=
| CallClaim
| LoadTaken
| ExchangeTaken
| StoreCount
| CallRetain (index : nat)
| CallRelease (index : nat)
| ClearTaken.

Definition moves (m : machine) (cpu : nat) (p : SlotPool) (c : pc) (h : list nat) : machine :=
  mkMachine p (<[cpu := c]> (cpus m)) h.

(** The first occurrence of a holding is given up. *)
Fixpoint drop_one (index : nat) (l : list nat) : list nat :=
  match l with
  | [] => []
  | j :: l => if decide (j = index) then l else j :: drop_one index l
  end.

(** One atomic access of one CPU.  [CallRetain] and [CallRelease] are made for
    an address space that holds the region ([fork] and teardown), and there are
    fewer address spaces than a [usize] counts. *)
Definition step (m : machine) (cpu : nat) (a : access) : option machine :=
  match cpus m !! cpu, a with
  | Some Idle, CallClaim => Some (moves m cpu (pool m) Claiming (held m))
  | Some Claiming, LoadTaken => Some (moves m cpu (pool m) (Loaded (taken (pool m))) (held m))
  | Some (Loaded snapshot), ExchangeTaken =>
      match find_free snapshot with
      | None => Some (moves m cpu (pool m) Idle (held m))
      | Some index =>
          let '(p, won) :=
            compare_exchange (pool m) snapshot (Z.lor snapshot (slot_mask index)) in
          Some (moves m cpu p (if won then Won index else Claiming) (held m))
      end
  | Some (Won index), StoreCount =>
      Some (moves m cpu (store_reference (pool m) index 1) Idle (index :: held m))
  | Some Idle, CallRetain index =>
      if decide (index ∈ held m ∧ Z.of_nat (length (held m)) < u64_max) then
        Some (moves m cpu (retain (pool m) index) Idle (index :: held m))
      else None
  | Some Idle, CallRelease index =>
      if decide (index ∈ held m) then
        let '(p, last) := release_begin (pool m) index in
        Some (moves m cpu p (if last then Freeing index else Idle) (drop_one index (held m)))
      else None
  | Some (Freeing index), ClearTaken =>
      Some (moves m cpu (release_end (pool m) index) Idle (held m))
  | _, _ => None
  end.

Definition boot (ncpus : nat) : machine := mkMachine new_pool (replicate ncpus Idle) [].

Inductive reach (ncpus : nat) : machine → Prop :=
| reach_boot : reach ncpus (boot ncpus)
| reach_step m cpu a m' : reach ncpus m → step m cpu a = Some m' → reach ncpus m'.

(** A run of accesses, for executions. *)
Fixpoint run (m : machine) (l : list (nat * access)) : option machine :=
  match l with
  | [] => Some m
  | (cpu, a) :: l => match step m cpu a with Some m' => run m' l | None => None end
  end.

End Pool.

(** ** Bits of the taken word *)

Lemma land_slot_mask x i : (Z.land x (slot_mask i) =? 0) = negb (Z.testbit x (Z.of_nat i)).
Proof.
  unfold slot_mask. rewrite Z.shiftl_1_l.
  destruct (Z.testbit x (Z.of_nat i)) eqn:E; cbn [negb].
  - apply Z.eqb_neq. apply (testbit_nonzero _ (Z.of_nat i)).
    rewrite Z.land_spec, E, Z.pow2_bits_true by lia. done.
  - apply Z.eqb_eq, Z.bits_inj'. intros j Hj. rewrite Z.land_spec, Z.bits_0, Z.pow2_bits_eqb by lia.
    destruct (Z.eqb_spec (Z.of_nat i) j) as [<-|]; [by rewrite E|apply andb_false_r].
Qed.

Lemma testbit_set_slot x i j :
  Z.testbit (Z.lor x (slot_mask i)) (Z.of_nat j) = Z.testbit x (Z.of_nat j) || bool_decide (j = i).
Proof.
  unfold slot_mask. rewrite Z.shiftl_1_l, Z.lor_spec, Z.pow2_bits_eqb by lia. f_equal.
  case_bool_decide; cmp_cases; lia.
Qed.

Lemma testbit_clear_slot x i j : (i < 64)%nat → (j < 64)%nat →
  Z.testbit (Z.land x (unot64 (slot_mask i))) (Z.of_nat j)
  = Z.testbit x (Z.of_nat j) && negb (bool_decide (j = i)).
Proof.
  intros Hi Hj. rewrite Z.land_spec. f_equal. unfold slot_mask, unot64, u64_max.
  rewrite Z.shiftl_1_l.
  replace (2 ^ 64 - 1 - 2 ^ Z.of_nat i) with (Z.ldiff (Z.ones 64) (2 ^ Z.of_nat i)).
  - rewrite Z.ldiff_spec, Z.testbit_ones, Z.pow2_bits_eqb by lia.
    case_bool_decide; cmp_cases; simpl; lia.
  - rewrite <- Z.sub_nocarry_ldiff; [rewrite Z.ones_equiv; lia|].
    apply Z.bits_inj'. intros k Hk.
    rewrite Z.ldiff_spec, Z.bits_0, Z.testbit_ones, Z.pow2_bits_eqb by lia.
    cmp_cases; simpl; lia.
Qed.

(** ** The scan answers the lowest clear bit *)

Lemma scan_free_spec x l :
  match scan_free x l with
  | Some i => ∃ l1 l2, l = l1 ++ i :: l2 ∧ Z.testbit x (Z.of_nat i) = false ∧
                       Forall (λ j, Z.testbit x (Z.of_nat j) = true) l1
  | None => Forall (λ j, Z.testbit x (Z.of_nat j) = true) l
  end.
Proof.
  induction l as [|j l IH]; simpl; [constructor|].
  rewrite land_slot_mask. destruct (Z.testbit x (Z.of_nat j)) eqn:E; simpl.
  - destruct (scan_free x l) as [i|]; [|by constructor].
    destruct IH as (l1 & l2 & -> & Hi & Hl). exists (j :: l1), l2. auto.
  - exists [], l. auto.
Qed.

Lemma find_free_spec COUNT x :
  match find_free COUNT x with
  | Some i => (i < COUNT)%nat ∧ Z.testbit x (Z.of_nat i) = false ∧
              ∀ j, (j < i)%nat → Z.testbit x (Z.of_nat j) = true
  | None => ∀ j, (j < COUNT)%nat → Z.testbit x (Z.of_nat j) = true
  end.
Proof.
  pose proof (scan_free_spec x (seq 0 COUNT)) as H. unfold find_free.
  destruct (scan_free x (seq 0 COUNT)) as [i|].
  - destruct H as (l1 & l2 & E & Hi & Hl).
    assert (L : seq 0 COUNT !! length l1 = Some i) by (rewrite E; by apply list_lookup_middle).
    apply lookup_seq in L as [-> L]. simpl. split_and!; [done|done|]. intros j Hj.
    rewrite Forall_lookup in Hl. apply (Hl j).
    rewrite <- (lookup_app_l l1 (length l1 :: l2)) by done. simpl in E. rewrite <- E.
    apply lookup_seq. lia.
  - intros j Hj. rewrite Forall_forall in H. apply H, elem_of_seq. lia.
Qed.

(** ** How many address spaces hold a region *)

Definition holdings (index : nat) (h : list nat) : Z :=
  Z.of_nat (length (filter (λ j, j = index) h)).

Lemma holdings_cons i j h : holdings i (j :: h) = holdings i h + (if decide (j = i) then 1 else 0).
Proof. unfold holdings. rewrite filter_cons. case_decide; simpl; lia. Qed.

Lemma holdings_elem i h : i ∈ h ↔ 0 < holdings i h.
Proof.
  unfold holdings. induction h as [|j h IH]; [split; [by intros ?%elem_of_nil|simpl; lia]|].
  rewrite elem_of_cons, filter_cons, IH. case_decide; simpl; naive_solver lia.
Qed.

Lemma holdings_le i h : holdings i h ≤ Z.of_nat (length h).
Proof. unfold holdings. pose proof (length_filter (λ j, j = i) h). lia. Qed.

Lemma holdings_nonneg i h : 0 ≤ holdings i h.
Proof. unfold holdings. lia. Qed.

Lemma holdings_drop_one i j h :
  j ∈ h → holdings i (drop_one j h) = holdings i h - (if decide (j = i) then 1 else 0).
Proof.
  induction h as [|k h IH]; [by intros ?%elem_of_nil|]. intros Hj. simpl.
  destruct (decide (k = j)) as [->|Hne].
  - rewrite holdings_cons. lia.
  - apply elem_of_cons in Hj as [|Hj]; [done|]. rewrite !holdings_cons, IH by done. lia.
Qed.

(** ** The invariant of the machine *)

Section Invariant.
Context (COUNT : nat).

(** A CPU owns an index between winning it and storing its count, and between
    dropping the last count and clearing its bit. *)
Definition owns (c : pc) (index : nat) : bool :=
  match c with Won i | Freeing i => bool_decide (i = index) | _ => false end.

Record pool_ok (m : machine) : Prop := {
  ok_length : length (references (pool m)) = COUNT;
  ok_counts : ∀ i, (i < COUNT)%nat → reference (pool m) i = holdings i (held m);
  ok_range : ∀ i, i ∈ held m → (i < COUNT)%nat;
  ok_owner_range : ∀ a c i, cpus m !! a = Some c → owns c i → (i < COUNT)%nat;
  ok_width : ∀ i, holdings i (held m) ≤ u64_max;
  ok_taken : ∀ i, (i < COUNT)%nat →
    Z.testbit (taken (pool m)) (Z.of_nat i) = true ↔
    i ∈ held m ∨ ∃ a c, cpus m !! a = Some c ∧ owns c i;
  ok_free : ∀ a c i, cpus m !! a = Some c → owns c i → i ∉ held m;
  ok_unique : ∀ a b c d i, cpus m !! a = Some c → cpus m !! b = Some d →
    owns c i → owns d i → a = b
}.

Lemma reference_store p i j v : (i < length (references p))%nat →
  reference (store_reference p i v) j = if decide (j = i) then v else reference p j.
Proof.
  intros Hi. unfold reference, store_reference; simpl. case_decide as E.
  - subst. by rewrite list_lookup_insert_eq.
  - by rewrite list_lookup_insert_ne.
Qed.

Lemma boot_ok ncpus : pool_ok (boot COUNT ncpus).
Proof.
  assert (H : ∀ a c, replicate ncpus Idle !! a = Some c → c = Idle).
  { intros a c [-> _]%lookup_replicate. done. }
  split; simpl.
  - apply length_replicate.
  - intros i Hi. unfold reference; simpl. by rewrite lookup_replicate_2.
  - by intros i ?%elem_of_nil.
  - by intros a c i ->%H.
  - intros i. unfold holdings, u64_max; simpl. lia.
  - intros i _. rewrite Z.testbit_0_l. split; [done|].
    intros [?%elem_of_nil|(a & c & ->%H & [])]; done.
  - by intros a c i ->%H.
  - by intros a b c d i ->%H.
Qed.

(** A CPU that owns nothing moves to a place where it owns nothing, and
    neither the pool nor the holdings change. *)
Lemma ok_local m cpu c c' :
  pool_ok m → cpus m !! cpu = Some c → (∀ i, owns c i = false) → (∀ i, owns c' i = false) →
  pool_ok (moves m cpu (pool m) c' (held m)).
Proof.
  intros [H1 H2 H3 H4 H5 H6 H7 H8] Hc Ho Ho'.
  assert (K : ∀ a d i, <[cpu := c']> (cpus m) !! a = Some d → owns d i → cpus m !! a = Some d).
  { intros a d i [(-> & -> & _)|[Hne L]]%list_lookup_insert_Some Hd; [by rewrite Ho' in Hd|done]. }
  assert (Kr : ∀ a d i, cpus m !! a = Some d → owns d i → <[cpu := c']> (cpus m) !! a = Some d).
  { intros a d i L Hd. destruct (decide (a = cpu)) as [->|].
    - rewrite Hc in L. injection L as <-. by rewrite Ho in Hd.
    - by rewrite list_lookup_insert_ne. }
  split; simpl; eauto.
  intros i Hi. rewrite (H6 i Hi). naive_solver.
Qed.

(** [compare_exchange] succeeds: the CPU owns an index nobody had. *)
Lemma ok_win m cpu s i :
  pool_ok m → cpus m !! cpu = Some (Loaded s) → taken (pool m) = s → (i < COUNT)%nat →
  Z.testbit s (Z.of_nat i) = false →
  pool_ok (moves m cpu (mkPool (Z.lor s (slot_mask i)) (references (pool m))) (Won i) (held m)).
Proof.
  intros [H1 H2 H3 H4 H5 H6 H7 H8] Hc <- Hi Hb.
  assert (Hn : (i ∉ held m) ∧ (∀ a c, cpus m !! a = Some c → ¬ owns c i)).
  { split; [intros Hh|intros a c Hac Ho]; assert (Z.testbit (taken (pool m)) (Z.of_nat i) = true)
      by (apply H6; eauto); congruence. }
  destruct Hn as [Hn1 Hn2].
  assert (K : ∀ a d j, <[cpu := Won i]> (cpus m) !! a = Some d → owns d j →
    (a = cpu ∧ j = i) ∨ (a ≠ cpu ∧ cpus m !! a = Some d ∧ j ≠ i)).
  { intros a d j [(-> & <- & _)|[Hne L]]%list_lookup_insert_Some Hd.
    - left. by apply bool_decide_unpack in Hd.
    - right. split_and!; [done..|]. intros ->. by eapply Hn2. }
  split; simpl.
  - done.
  - done.
  - done.
  - intros a c j L Ho. destruct (K a c j L Ho) as [[_ ->]|(_ & L' & _)]; eauto.
  - done.
  - intros j Hj. rewrite testbit_set_slot, orb_true_iff, bool_decide_eq_true, H6 by done. split.
    + intros [[?|(a & c & L & Ho)] | ->]; [by left| |].
      * right. exists a, c. rewrite list_lookup_insert_ne; [done|].
        intros <-. rewrite Hc in L. injection L as <-. done.
      * right. exists cpu, (Won i). rewrite list_lookup_insert_eq by (by eapply lookup_lt_Some).
        split; [done|]. by apply bool_decide_pack.
    + intros [?|(a & c & L & Ho)]; [by left; left|].
      destruct (K a c j L Ho) as [[_ ->]|(_ & L' & _)]; [by right|left; right; eauto].
  - intros a c j L Ho. destruct (K a c j L Ho) as [[_ ->]|(_ & L' & _)]; eauto.
  - intros a b c d j L1 L2 O1 O2.
    destruct (K a c j L1 O1) as [[-> ->]|(? & L1' & ?)], (K b d _ L2 O2) as [[-> E]|(? & L2' & ?)];
      naive_solver.
Qed.

Lemma owner_insert (l : list pc) cpu c' a d i :
  <[cpu := c']> l !! a = Some d → owns d i →
  (a = cpu ∧ owns c' i) ∨ (a ≠ cpu ∧ l !! a = Some d).
Proof. intros [(-> & <- & _)|[Hne L]]%list_lookup_insert_Some Hd; auto. Qed.

(** The winner stores the count of its holder. *)
Lemma ok_store m cpu i :
  pool_ok m → cpus m !! cpu = Some (Won i) →
  pool_ok (moves m cpu (store_reference (pool m) i 1) Idle (i :: held m)).
Proof.
  intros [H1 H2 H3 H4 H5 H6 H7 H8] Hc.
  assert (Oi : owns (Won i) i) by by apply bool_decide_pack.
  pose proof (H4 _ _ _ Hc Oi) as Hi. pose proof (H7 _ _ _ Hc Oi) as Hn.
  assert (E0 : holdings i (held m) = 0).
  { pose proof (holdings_nonneg i (held m)). rewrite holdings_elem in Hn. lia. }
  assert (K : ∀ a d j, <[cpu := Idle]> (cpus m) !! a = Some d → owns d j →
    a ≠ cpu ∧ cpus m !! a = Some d ∧ j ≠ i).
  { intros a d j L Hd. destruct (owner_insert _ _ _ _ _ _ L Hd) as [[_ []]|[Hne L']].
    split_and!; [done..|]. intros ->. by apply Hne, (H8 a cpu d (Won i) i). }
  split; simpl.
  - by rewrite length_insert.
  - intros j Hj. rewrite reference_store, holdings_cons by lia. case_decide as E1.
    + subst. rewrite decide_True by done. lia.
    + rewrite decide_False by done. rewrite H2 by done. lia.
  - intros j [->|Hj]%elem_of_cons; auto.
  - intros a d j L Hd. destruct (K a d j L Hd) as (_ & L' & _). eauto.
  - intros j. rewrite holdings_cons. specialize (H5 j). case_decide as E1; [|lia].
    subst. unfold u64_max. lia.
  - intros j Hj. rewrite H6, elem_of_cons by done. split.
    + intros [?|(a & c & L & Ho)]; [by left; right|].
      destruct (decide (a = cpu)) as [->|Hne].
      * rewrite Hc in L. injection L as <-. apply bool_decide_unpack in Ho. by left; left.
      * right. exists a, c. by rewrite list_lookup_insert_ne.
    + intros [[->|?]|(a & c & L & Ho)]; [by right; eauto|by left|].
      destruct (K a c j L Ho) as (_ & L' & _). right; eauto.
  - intros a d j L Hd. destruct (K a d j L Hd) as (_ & L' & Hne).
    intros [->|Hj]%elem_of_cons; [done|by eapply H7].
  - intros a b c d j L1 L2 O1 O2.
    destruct (K a c j L1 O1) as (_ & ? & _), (K b d j L2 O2) as (_ & ? & _). eauto.
Qed.

(** A holder's address space is duplicated. *)
Lemma ok_retain m cpu i :
  pool_ok m → cpus m !! cpu = Some Idle → i ∈ held m → Z.of_nat (length (held m)) < u64_max →
  pool_ok (moves m cpu (retain COUNT (pool m) i) Idle (i :: held m)).
Proof.
  intros Hm Hc Hi Hw. pose proof Hm as [H1 H2 H3 H4 H5 H6 H7 H8].
  pose proof (ok_local m cpu Idle Idle Hm Hc (λ _, eq_refl) (λ _, eq_refl)) as [_ _ _ G4 _ G6 G7 G8].
  simpl in *. pose proof (H3 i Hi) as Hb. pose proof (holdings_le i (held m)) as Hle.
  pose proof (holdings_nonneg i (held m)) as Hge.
  unfold retain. rewrite decide_True by done. split; simpl.
  - by rewrite length_insert.
  - intros j Hj. unfold fetch_add_reference. rewrite reference_store, holdings_cons by lia.
    case_decide as E.
    + subst. rewrite decide_True, H2, wrapping_add_small by (unfold u64_max in *; lia). done.
    + rewrite decide_False, H2 by done. lia.
  - intros j [->|Hj]%elem_of_cons; auto.
  - done.
  - intros j. rewrite holdings_cons. specialize (H5 j). case_decide; subst; lia.
  - intros j Hj. rewrite G6, elem_of_cons by done. naive_solver.
  - intros a c j L Ho [->|Hj]%elem_of_cons; by eapply G7.
  - done.
Qed.

(** A CPU clears the bit of the region whose last count it dropped. *)
Lemma ok_clear m cpu i :
  (COUNT ≤ 64)%nat → pool_ok m → cpus m !! cpu = Some (Freeing i) →
  pool_ok (moves m cpu (release_end (pool m) i) Idle (held m)).
Proof.
  intros H64 [H1 H2 H3 H4 H5 H6 H7 H8] Hc.
  assert (Oi : owns (Freeing i) i) by by apply bool_decide_pack.
  pose proof (H4 _ _ _ Hc Oi) as Hi. pose proof (H7 _ _ _ Hc Oi) as Hn.
  assert (K : ∀ a d j, <[cpu := Idle]> (cpus m) !! a = Some d → owns d j →
    a ≠ cpu ∧ cpus m !! a = Some d ∧ j ≠ i).
  { intros a d j L Hd. destruct (owner_insert _ _ _ _ _ _ L Hd) as [[_ []]|[Hne L']].
    split_and!; [done..|]. intros ->. by apply Hne, (H8 a cpu d (Freeing i) i). }
  split; simpl; try done.
  - intros a d j L Hd. destruct (K a d j L Hd) as (_ & L' & _). eauto.
  - intros j Hj. rewrite testbit_clear_slot, andb_true_iff, negb_true_iff, bool_decide_eq_false, H6
      by lia. split.
    + intros [[?|(a & c & L & Ho)] Hne]; [by left|]. right. exists a, c.
      rewrite list_lookup_insert_ne; [done|]. intros <-. rewrite Hc in L. injection L as <-.
      by apply bool_decide_unpack in Ho.
    + intros [Hj'|(a & c & L & Ho)].
      * split; [by left|]. by intros ->.
      * destruct (K a c j L Ho) as (_ & L' & Hne). split; [right; eauto|done].
  - intros a d j L Hd. destruct (K a d j L Hd) as (_ & L' & Hne). eauto.
  - intros a b c d j L1 L2 O1 O2.
    destruct (K a c j L1 O1) as (_ & ? & _), (K b d j L2 O2) as (_ & ? & _). eauto.
Qed.

(** One holder drops its count; the one who drops the last owns the index. *)
Lemma ok_release m cpu i :
  pool_ok m → cpus m !! cpu = Some Idle → i ∈ held m →
  pool_ok (moves m cpu (release_begin COUNT (pool m) i).1
    (if (release_begin COUNT (pool m) i).2 then Freeing i else Idle) (drop_one i (held m))).
Proof.
  intros [H1 H2 H3 H4 H5 H6 H7 H8] Hc Hi. pose proof (H3 i Hi) as Hb.
  pose proof (proj1 (holdings_elem i (held m)) Hi) as Hp. pose proof (H5 i) as Hw.
  unfold release_begin. rewrite decide_True by done. simpl. rewrite H2 by done.
  set (c' := if holdings i (held m) <=? 1 then Freeing i else Idle).
  assert (D : ∀ j, holdings j (drop_one i (held m)) =
    holdings j (held m) - (if decide (i = j) then 1 else 0)) by (intros; by apply holdings_drop_one).
  assert (Din : ∀ j, j ∈ drop_one i (held m) → j ∈ held m).
  { intros j. rewrite !holdings_elem, D. case_decide; lia. }
  assert (Dne : ∀ j, j ≠ i → j ∈ held m → j ∈ drop_one i (held m)).
  { intros j Hne. rewrite !holdings_elem, D, decide_False by done. lia. }
  assert (Oc : ∀ j, owns c' j ↔ j = i ∧ i ∉ drop_one i (held m)).
  { intros j. rewrite holdings_elem, D, decide_True by done. unfold c'.
    destruct (Z.leb_spec (holdings i (held m)) 1); simpl; [rewrite bool_decide_spec|];
      naive_solver lia. }
  assert (K : ∀ a d j, <[cpu := c']> (cpus m) !! a = Some d → owns d j →
    (a = cpu ∧ j = i ∧ i ∉ drop_one i (held m)) ∨ (a ≠ cpu ∧ cpus m !! a = Some d)).
  { intros a d j L Hd. destruct (owner_insert _ _ _ _ _ _ L Hd) as [[-> Ho]|?]; [left|by right].
    by apply Oc in Ho. }
  split; simpl.
  - by rewrite length_insert.
  - intros j Hj. rewrite reference_store, D by lia. case_decide as E.
    + subst. rewrite decide_True, wrapping_sub_small by (unfold u64_max in *; lia). done.
    + rewrite decide_False, H2 by done. lia.
  - eauto.
  - intros a d j L Hd. destruct (K a d j L Hd) as [(-> & -> & _)|[_ L']]; eauto.
  - intros j. rewrite D. specialize (H5 j). case_decide; lia.
  - intros j Hj. rewrite H6 by done. split.
    + intros [Hh|(a & d & L & Ho)].
      * destruct (decide (j ∈ drop_one i (held m))) as [|Hn]; [by left|]. right.
        assert (j = i) as -> by (destruct (decide (j = i)); [done|]; by destruct Hn; apply Dne).
        exists cpu, c'. rewrite list_lookup_insert_eq by (by eapply lookup_lt_Some).
        split; [done|]. by apply Oc.
      * right. exists a, d. rewrite list_lookup_insert_ne; [done|].
        intros <-. rewrite Hc in L. by injection L as <-.
    + intros [?|(a & d & L & Ho)]; [left; auto|].
      destruct (K a d j L Ho) as [(-> & -> & _)|[_ L']]; [by left|right; eauto].
  - intros a d j L Hd. destruct (K a d j L Hd) as [(-> & -> & ?)|[_ L']]; [done|].
    intros ?%Din. by eapply H7.
  - intros a b c d j L1 L2 O1 O2.
    destruct (K a c j L1 O1) as [(-> & -> & ?)|[_ L1']], (K b d _ L2 O2) as [(-> & E & ?)|[_ L2']];
      [done| | |by eauto].
    + by destruct (H7 b d i L2' O2).
    + subst. by destruct (H7 a c i L1' O1).
Qed.

Lemma step_ok m cpu a m' :
  (COUNT ≤ 64)%nat → pool_ok m → step COUNT m cpu a = Some m' → pool_ok m'.
Proof.
  intros H64 Hm Hs. unfold step in Hs. destruct (cpus m !! cpu) as [c|] eqn:Hc; [|done].
  destruct c as [| |s|i|i], a as [| | | |i'|i'|]; try done.
  - injection Hs as <-. by eapply ok_local.
  - case_decide as E; [|done]. injection Hs as <-. destruct E. by apply ok_retain.
  - case_decide as E; [|done]. pose proof (ok_release m cpu i' Hm Hc E) as Hr.
    destruct (release_begin COUNT (pool m) i') as [p last]. by injection Hs as <-.
  - injection Hs as <-. by eapply ok_local.
  - pose proof (find_free_spec COUNT s) as Hf. destruct (find_free COUNT s) as [i|].
    + unfold compare_exchange in Hs. destruct (Z.eqb_spec (taken (pool m)) s) as [E|E];
        injection Hs as <-; [|by eapply ok_local].
      destruct Hf as (Hi & Hb & _). by apply ok_win.
    + injection Hs as <-. by eapply ok_local.
  - injection Hs as <-. by apply ok_store.
  - injection Hs as <-. by apply ok_clear.
Qed.

Lemma reach_ok ncpus m : (COUNT ≤ 64)%nat → reach COUNT ncpus m → pool_ok m.
Proof. intros H64. induction 1; [apply boot_ok|by eapply step_ok]. Qed.

Lemma is_taken_testbit p i :
  is_taken COUNT p i = bool_decide (i < COUNT)%nat && Z.testbit (taken p) (Z.of_nat i).
Proof. unfold is_taken. by rewrite land_slot_mask, negb_involutive. Qed.

End Invariant.

(** ** Properties *)

(** C10. However the CPUs interleave, a region is handed out only while nobody
    holds it.  In every reachable state the count of an index is the number of
    address spaces that hold it, a held index is taken, and an index a CPU has
    won but not yet counted is held by no address space and owned by no other
    CPU.  When every CPU is idle, an index is taken exactly when somebody holds
    it (nothing leaks), and [claim] answers the lowest index nobody holds with
    count one, or [None] only if all are held. *)
Theorem slot_pool_exclusive (COUNT ncpus : nat) (m : machine) :
  (COUNT ≤ 64)%nat → reach COUNT ncpus m →
  (∀ i, (i < COUNT)%nat → holders COUNT (pool m) i = holdings i (held m)) ∧
  (∀ i, i ∈ held m → is_taken COUNT (pool m) i = true) ∧
  (∀ cpu i, cpus m !! cpu = Some (Won i) →
     (i ∉ held m) ∧ ∀ cpu' c, cpus m !! cpu' = Some c → owns c i → cpu' = cpu) ∧
  ((∀ cpu c, cpus m !! cpu = Some c → c = Idle) →
     (∀ i, (i < COUNT)%nat → is_taken COUNT (pool m) i = bool_decide (i ∈ held m)) ∧
     match claim COUNT (pool m) with
     | (p, Some i) => (i < COUNT)%nat ∧ (i ∉ held m) ∧ (∀ j, (j < i)%nat → j ∈ held m) ∧
                      holders COUNT p i = 1 ∧ is_taken COUNT p i = true
     | (p, None) => p = pool m ∧ ∀ i, (i < COUNT)%nat → i ∈ held m
     end).
Proof.
  intros H64 Hr. pose proof (reach_ok COUNT ncpus m H64 Hr) as [H1 H2 H3 H4 H5 H6 H7 H8].
  split_and!.
  - intros i Hi. unfold holders. by rewrite decide_True, H2.
  - intros i Hi. pose proof (H3 i Hi). rewrite is_taken_testbit, bool_decide_eq_true_2 by done.
    apply H6; auto.
  - intros cpu i Hc. assert (Oi : owns (Won i) i) by by apply bool_decide_pack.
    split; [by eapply H7|]. intros cpu' c L Ho. by eapply H8.
  - intros Hidle.
    assert (T : ∀ i, (i < COUNT)%nat → Z.testbit (taken (pool m)) (Z.of_nat i) = true ↔ i ∈ held m).
    { intros i Hi. rewrite H6 by done. split; [|auto]. intros [?|(a & c & L & Ho)]; [done|].
      by rewrite (Hidle _ _ L) in Ho. }
    split.
    { intros i Hi. rewrite is_taken_testbit, bool_decide_eq_true_2 by done. simpl.
      apply eq_bool_prop_intro. by rewrite bool_decide_spec, Is_true_true, T. }
    pose proof (find_free_spec COUNT (taken (pool m))) as Hf. unfold claim, compare_exchange.
    destruct (find_free COUNT (taken (pool m))) as [i|].
    + rewrite Z.eqb_refl. destruct Hf as (Hi & Hb & Hlow). split_and!.
      * done.
      * intros Hh%T; [congruence|done].
      * intros j Hj. apply T; [lia|auto].
      * unfold holders. rewrite decide_True by done. rewrite reference_store by (simpl; lia).
        by rewrite decide_True.
      * rewrite is_taken_testbit, bool_decide_eq_true_2 by done. simpl.
        rewrite testbit_set_slot, bool_decide_eq_true_2 by done. by rewrite orb_true_r.
    + split; [done|]. intros i Hi. apply T; auto.
Qed.

(** Two CPUs race for the last two regions: both load the same snapshot, the
    second exchange fails and its CPU takes the other region. *)
Definition race : list (nat * access) :=
  [(0%nat, CallClaim); (1%nat, CallClaim); (0%nat, LoadTaken); (1%nat, LoadTaken);
   (0%nat, ExchangeTaken); (1%nat, ExchangeTaken); (1%nat, LoadTaken); (0%nat, StoreCount);
   (1%nat, ExchangeTaken); (1%nat, StoreCount); (0%nat, CallRetain 0%nat);
   (0%nat, CallRelease 0%nat); (1%nat, CallRelease 1%nat); (1%nat, ClearTaken)].

Lemma run_reach COUNT ncpus m l m' :
  reach COUNT ncpus m → run COUNT m l = Some m' → reach COUNT ncpus m'.
Proof.
  revert m. induction l as [|[cpu a] l IH]; simpl; intros m Hm Hr; [by injection Hr as <-|].
  destruct (step COUNT m cpu a) as [m1|] eqn:E; [|done].
  eapply IH; [|done]. by eapply reach_step.
Qed.

Definition after_race : machine := mkMachine (mkPool 1 [1; 0]) [Idle; Idle] [0%nat].

Lemma slot_pool_exclusive_witness :
  run 2 (boot 2 2) race = Some after_race ∧
  is_taken 2 (pool after_race) 0 = true ∧ (claim 2 (pool after_race)).2 = Some 1%nat ∧
  holders 2 (pool after_race) 0 = holdings 0 (held after_race).
Proof.
  split_and!; [vm_compute; reflexivity..|].
  assert (Hr : reach 2 2 after_race).
  { apply (run_reach 2 2 (boot 2 2) race); [constructor|vm_compute; reflexivity]. }
  exact (proj1 (slot_pool_exclusive 2 2 after_race ltac:(lia) Hr) 0%nat ltac:(lia)).
Defined.

(** [claim] is obstruction free and does what its sequential reading says:
    from any state of the pool, a CPU about to claim that runs on its own
    finishes after one load, one exchange and one store, with the result of
    [claim]; and an exchange fails only if another CPU changed the taken word
    after the load. *)
Theorem claim_runs_alone (COUNT : nat) (m : machine) (cpu : nat) :
  cpus m !! cpu = Some Claiming →
  match claim COUNT (pool m) with
  | (p, Some i) => run COUNT m [(cpu, LoadTaken); (cpu, ExchangeTaken); (cpu, StoreCount)]
                   = Some (moves m cpu p Idle (i :: held m))
  | (p, None) => p = pool m ∧ run COUNT m [(cpu, LoadTaken); (cpu, ExchangeTaken)]
                   = Some (moves m cpu p Idle (held m))
  end ∧
  (∀ m1 s m2, cpus m1 !! cpu = Some (Loaded s) → step COUNT m1 cpu ExchangeTaken = Some m2 →
     cpus m2 !! cpu = Some Claiming → taken (pool m1) ≠ s).
Proof.
  intros Hc. pose proof (lookup_lt_Some _ _ _ Hc) as Hl. split.
  - assert (L : ∀ c (l : list pc), length l = length (cpus m) → <[cpu := c]> l !! cpu = Some c).
    { intros c l E. apply list_lookup_insert_eq. lia. }
    unfold claim, compare_exchange, run, step. rewrite Hc. simpl. rewrite L by done.
    destruct (find_free COUNT (taken (pool m))) as [i|]; simpl; rewrite ?Z.eqb_refl.
    + unfold compare_exchange. rewrite Z.eqb_refl. simpl. rewrite L by (by rewrite length_insert). unfold moves; simpl.
      by rewrite !list_insert_insert_eq.
    + split; [done|]. unfold moves; simpl. by rewrite list_insert_insert_eq.
  - intros m1 s m2 H1 H2 H3 E. unfold step in H2. rewrite H1 in H2.
    pose proof (lookup_lt_Some _ _ _ H1) as Hl1. unfold compare_exchange in H2.
    destruct (find_free COUNT s); [rewrite E, Z.eqb_refl in H2|]; injection H2 as <-;
      simpl in H3; by rewrite list_lookup_insert_eq in H3.
Qed.

Lemma claim_runs_alone_witness :
  run 2 (mkMachine (mkPool 1 [3; 0]) [Claiming] [0%nat; 0%nat; 0%nat])
    [(0%nat, LoadTaken); (0%nat, ExchangeTaken); (0%nat, StoreCount)]
  = Some (mkMachine (mkPool 3 [3; 1]) [Idle] [1%nat; 0%nat; 0%nat; 0%nat]).
Proof.
  exact (proj1 (claim_runs_alone 2 (mkMachine (mkPool 1 [3; 0]) [Claiming]
    [0%nat; 0%nat; 0%nat]) 0 eq_refl)).
Defined.
