(* ===== verification/Bytes.v ===== *)
(** * Byte strings

    The byte slices of the source: lists of integers in [0, 256), indexing and
    slicing, big- and little-endian words, chunking and exclusive or.  Shared by
    the network formats and the cryptographic primitives. *)

From stdpp Require Import base tactics decidable numbers list.
From Stdlib Require Import ZArith Lia Bool.
From S2P Require Import Prelude.

(** ** Bytes and big-endian words *)

Notation bytes := (list Z).

Definition is_byte (b : Z) : Prop := 0 ≤ b < 256.
Definition is_bytes (l : bytes) : Prop := Forall is_byte l.

#[global] Instance is_byte_dec b : Decision (is_byte b).
Proof. unfold is_byte. apply _. Defined.
#[global] Instance is_bytes_dec l : Decision (is_bytes l).
Proof. unfold is_bytes. apply _. Defined.

(** [data[i]]; every use is behind a length check. *)
Definition byte (data : bytes) (i : nat) : Z := default 0 (data !! i).

(** [u16::from_be_bytes], [u32::from_be_bytes] and [to_be_bytes]. *)
Definition be16 (a b : Z) : Z := a * 256 + b.
Definition be32 (a b c d : Z) : Z := be16 (be16 (be16 a b) c) d.
Definition to_be16 (x : Z) : bytes := [Z.shiftr x 8 mod 256; x mod 256].
Definition to_be32 (x : Z) : bytes :=
  [Z.shiftr x 24 mod 256; Z.shiftr x 16 mod 256; Z.shiftr x 8 mod 256; x mod 256].

Definition wrap8 (x : Z) : Z := x mod 2 ^ 8.
Definition wrap16 (x : Z) : Z := x mod 2 ^ 16.
Definition wrap32 (x : Z) : Z := x mod 2 ^ 32.

(** Checked 128-bit arithmetic: a result that does not fit panics. *)
Definition u128 (x : Z) : outcome Z := if x <? 2 ^ 128 then Ret x else Panic.

(** [data[from..to]]. *)
Definition slice (data : bytes) (from to : nat) : bytes := take (to - from) (drop from data).

(** [buf[off..off + data.len()].copy_from_slice(data)]. *)
Definition copy_at (buf : bytes) (off : nat) (data : bytes) : outcome bytes :=
  if (off + length data <=? length buf)%nat
  then Ret (take off buf ++ data ++ drop (off + length data) buf) else Panic.

(** ** Arithmetic of words *)

Lemma be16_split x : 0 ≤ x < 65536 → be16 (Z.shiftr x 8 mod 256) (x mod 256) = x.
Proof.
  intros Hx. unfold be16. rewrite Z.shiftr_div_pow2 by lia. change (2 ^ 8) with 256.
  rewrite (Z.mod_small (x / 256)) by (split; [apply Z.div_pos|apply Z.div_lt_upper_bound]; lia).
  pose proof (Z.div_mod x 256). lia.
Qed.

Lemma be32_split x : 0 ≤ x < 2 ^ 32 →
  be32 (Z.shiftr x 24 mod 256) (Z.shiftr x 16 mod 256) (Z.shiftr x 8 mod 256) (x mod 256) = x.
Proof.
  intros Hx. unfold be32, be16. rewrite !Z.shiftr_div_pow2 by lia.
  change (2 ^ 24) with (256 * 256 * 256). change (2 ^ 16) with (256 * 256).
  change (2 ^ 8) with 256. rewrite <- !Z.div_div by lia.
  pose proof (Z.div_mod x 256 ltac:(lia)). pose proof (Z.div_mod (x / 256) 256 ltac:(lia)).
  pose proof (Z.div_mod (x / 256 / 256) 256 ltac:(lia)).
  pose proof (Z.mod_pos_bound x 256 ltac:(lia)).
  pose proof (Z.mod_pos_bound (x / 256) 256 ltac:(lia)).
  pose proof (Z.mod_pos_bound (x / 256 / 256) 256 ltac:(lia)).
  rewrite (Z.mod_small (x / 256 / 256 / 256)) by lia. lia.
Qed.

Lemma mod256_byte x : is_byte (x mod 256).
Proof. apply Z.mod_pos_bound. lia. Qed.

Lemma be16_bound a b : is_byte a → is_byte b → 0 ≤ be16 a b < 65536.
Proof. unfold is_byte, be16. lia. Qed.

Lemma to_be16_bytes x : is_bytes (to_be16 x).
Proof. unfold is_bytes, to_be16. repeat constructor; apply mod256_byte. Qed.

Lemma to_be32_bytes x : is_bytes (to_be32 x).
Proof. unfold is_bytes, to_be32. repeat constructor; apply mod256_byte. Qed.

Lemma is_bytes_app l1 l2 : is_bytes (l1 ++ l2) ↔ is_bytes l1 ∧ is_bytes l2.
Proof. apply Forall_app. Qed.

Lemma slice_prefix l1 l2 n : length l1 = n → slice (l1 ++ l2) 0 n = l1.
Proof. intros <-. unfold slice. rewrite drop_0, Nat.sub_0_r. apply take_app_length. Qed.

Lemma byte_bound l i : is_bytes l → is_byte (byte l i).
Proof.
  intros Hl. unfold byte. destruct (l !! i) eqn:E; [|done].
  by apply (Forall_lookup_1 _ _ _ _ Hl E).
Qed.

Definition word32 (x : Z) : Prop := 0 ≤ x < 2 ^ 32.

#[global] Instance word32_dec x : Decision (word32 x).
Proof. unfold word32. apply _. Defined.

(** ** Little-endian integers *)

(** [uN::from_le_bytes] and [to_le_bytes], for any width. *)
Fixpoint from_le (l : bytes) : Z :=
  match l with
  | [] => 0
  | b :: l => b + 256 * from_le l
  end.

Fixpoint to_le (n : nat) (x : Z) : bytes :=
  match n with
  | O => []
  | S n => x mod 256 :: to_le n (x / 256)
  end.

(** [uN::from_be_bytes] and [to_be_bytes]. *)
Definition from_be (l : bytes) : Z := from_le (rev l).
Definition to_be (n : nat) (x : Z) : bytes := rev (to_le n x).

Lemma length_to_le n x : length (to_le n x) = n.
Proof. revert x. induction n; simpl; auto. Qed.

Lemma to_le_bytes n x : is_bytes (to_le n x).
Proof.
  revert x. induction n as [|n IH]; intros x; [constructor|].
  apply Forall_cons. split; [apply mod256_byte|apply IH].
Qed.

Lemma from_le_to_le n x : from_le (to_le n x) = x mod 256 ^ Z.of_nat n.
Proof.
  revert x. induction n as [|n IH]; intros x; simpl; [by rewrite Z.mod_1_r|].
  rewrite IH. replace (Z.of_nat (S n)) with (1 + Z.of_nat n) by lia.
  rewrite Z.pow_add_r, Z.pow_1_r by lia.
  rewrite Z.rem_mul_r; [lia|lia|]. apply Z.pow_pos_nonneg; lia.
Qed.

Lemma from_le_bound l : is_bytes l → 0 ≤ from_le l < 256 ^ Z.of_nat (length l).
Proof.
  unfold is_bytes. induction l as [|b l IH]; intros Hl; simpl; [lia|].
  apply Forall_cons in Hl as [Hb Hl]. specialize (IH Hl). unfold is_byte in Hb.
  replace (Z.of_nat (S (length l))) with (1 + Z.of_nat (length l)) by lia.
  rewrite Z.pow_add_r by lia. lia.
Qed.

Lemma to_le_from_le l : is_bytes l → to_le (length l) (from_le l) = l.
Proof.
  unfold is_bytes. induction l as [|b l IH]; intros Hl; simpl; [done|].
  apply Forall_cons in Hl as [Hb Hl]. unfold is_byte in Hb. f_equal.
  - replace (b + 256 * from_le l) with (b + from_le l * 256) by lia.
    rewrite Z.mod_add by lia. by apply Z.mod_small.
  - replace (b + 256 * from_le l) with (from_le l * 256 + b) by lia.
    rewrite Z.div_add_l, Z.div_small by lia. rewrite Z.add_0_r. by apply IH.
Qed.

Lemma from_le_app l1 l2 :
  from_le (l1 ++ l2) = from_le l1 + 256 ^ Z.of_nat (length l1) * from_le l2.
Proof.
  induction l1 as [|b l IH]; [by rewrite Z.mul_1_l|]. cbn [app from_le length]. rewrite IH.
  replace (Z.of_nat (S (length l))) with (1 + Z.of_nat (length l)) by lia.
  rewrite Z.pow_add_r by lia. lia.
Qed.

Lemma from_le_zeros n : from_le (replicate n 0) = 0.
Proof. induction n as [|n IH]; [done|]. cbn [replicate from_le]. by rewrite IH. Qed.

Lemma to_le_mod n x : to_le n (x mod 256 ^ Z.of_nat n) = to_le n x.
Proof.
  rewrite <- from_le_to_le. pose proof (to_le_from_le (to_le n x) (to_le_bytes n x)) as H.
  by rewrite length_to_le in H.
Qed.

(** ** Slices *)

Lemma length_slice l a b : (a ≤ b)%nat → (b ≤ length l)%nat → length (slice l a b) = (b - a)%nat.
Proof. intros. unfold slice. rewrite length_take, length_drop. lia. Qed.

Lemma slice_bytes l a b : is_bytes l → is_bytes (slice l a b).
Proof. intros. by apply Forall_take, Forall_drop. Qed.

Lemma slice_split l a : (a ≤ length l)%nat → l = slice l 0 a ++ slice l a (length l).
Proof.
  intros H. unfold slice. rewrite drop_0, Nat.sub_0_r.
  rewrite (take_ge (drop a l)) by (rewrite length_drop; lia). by rewrite take_drop.
Qed.

(** ** Chunks

    [chunks(n)], and the loops that peel [n] bytes at a time: the fuel is the
    length, which bounds the number of chunks. *)
Fixpoint chunks_fuel (fuel n : nat) (l : bytes) : list bytes :=
  match fuel, l with
  | S fuel, _ :: _ => take n l :: chunks_fuel fuel n (drop n l)
  | _, _ => []
  end.

Definition chunks (n : nat) (l : bytes) : list bytes := chunks_fuel (length l) n l.

Lemma chunks_fuel_enough n f1 f2 l :
  (0 < n)%nat → (length l ≤ f1)%nat → (length l ≤ f2)%nat →
  chunks_fuel f1 n l = chunks_fuel f2 n l.
Proof.
  intros Hn. revert f2 l. induction f1 as [|f1 IH]; intros f2 l H1 H2.
  - destruct l; [|simpl in H1; lia]. by destruct f2.
  - destruct l as [|b l]; [by destruct f2|]. destruct f2 as [|f2]; [simpl in H2; lia|].
    cbn [chunks_fuel]. f_equal. apply IH; rewrite length_drop; simpl in *; lia.
Qed.

Lemma chunks_nil n : chunks n [] = [].
Proof. done. Qed.

Lemma chunks_cons n l : (0 < n)%nat → l ≠ [] → chunks n l = take n l :: chunks n (drop n l).
Proof.
  intros Hn Hl. destruct l as [|b l]; [done|]. unfold chunks at 1. cbn [length chunks_fuel]. f_equal.
  apply chunks_fuel_enough; [done| |done]. rewrite length_drop. simpl. lia.
Qed.

(** Induction along the chunks of a slice. *)
Lemma chunks_ind (n : nat) (Hn : (0 < n)%nat) (P : bytes → Prop) :
  P [] → (∀ l, l ≠ [] → P (drop n l) → P l) → ∀ l, P l.
Proof.
  intros H0 H1 l. remember (length l) as k eqn:E. revert l E.
  induction k as [k IH] using lt_wf_ind. intros l ->. destruct l as [|b l]; [done|].
  apply H1; [done|]. eapply IH; [|done]. rewrite length_drop. simpl. lia.
Qed.

Lemma concat_chunks n l : (0 < n)%nat → concat (chunks n l) = l.
Proof.
  intros Hn. induction l as [|l Hl IH] using (chunks_ind n Hn); [done|].
  rewrite chunks_cons by done. cbn [concat]. by rewrite IH, take_drop.
Qed.

Lemma chunks_bytes n l : (0 < n)%nat → is_bytes l → Forall is_bytes (chunks n l).
Proof.
  intros Hn. induction l as [|l Hl IH] using (chunks_ind n Hn); [constructor|].
  intros Hb. rewrite chunks_cons by done. apply Forall_cons. split; [by apply Forall_take|].
  apply IH. by apply Forall_drop.
Qed.

Lemma chunks_length n l :
  (0 < n)%nat → Forall (λ c, (0 < length c ≤ n)%nat) (chunks n l).
Proof.
  intros Hn. induction l as [|l Hl IH] using (chunks_ind n Hn); [constructor|].
  rewrite chunks_cons by done. apply Forall_cons. split; [|done].
  rewrite length_take. destruct l; [done|]. simpl. lia.
Qed.

(** ** Exclusive or of byte strings *)

(** [for (a, b) in out.iter_mut().zip(k) { *a ^= b }]: bytes of [out] past the
    end of [k] stay. *)
Fixpoint xor_into (out k : bytes) : bytes :=
  match out, k with
  | a :: out, b :: k => Z.lxor a b :: xor_into out k
  | out, [] => out
  | [], _ => []
  end.

Lemma length_xor_into out k : length (xor_into out k) = length out.
Proof. revert k. induction out as [|a out IH]; intros [|b k]; simpl; auto. Qed.

Lemma xor_into_involutive out k : xor_into (xor_into out k) k = out.
Proof.
  revert k. induction out as [|a out IH]; intros [|b k]; simpl; [done..|]. f_equal; [|apply IH].
  by rewrite Z.lxor_assoc, Z.lxor_nilpotent, Z.lxor_0_r.
Qed.

Lemma lxor_bound w a b : 0 ≤ w → 0 ≤ a < 2 ^ w → 0 ≤ b < 2 ^ w → 0 ≤ Z.lxor a b < 2 ^ w.
Proof.
  intros Hw Ha Hb. assert (0 ≤ Z.lxor a b) by (apply Z.lxor_nonneg; lia). split; [done|].
  apply testbit_bounded; [done..|]. intros i Hi. rewrite Z.lxor_spec.
  by rewrite (testbit_above a w), (testbit_above b w).
Qed.

Lemma lxor_byte a b : is_byte a → is_byte b → is_byte (Z.lxor a b).
Proof. apply (lxor_bound 8). lia. Qed.

Lemma xor_into_bytes out k : is_bytes out → is_bytes k → is_bytes (xor_into out k).
Proof.
  revert k. induction out as [|a out IH]; intros [|b k] Ho Hk; simpl; [done..|].
  apply Forall_cons in Ho as [? ?], Hk as [? ?]. apply Forall_cons. split; [by apply lxor_byte|].
  by apply IH.
Qed.

(** The comparison loop [diff |= a[i] ^ b[i]]. *)
Fixpoint xor_diff (a b : bytes) : Z :=
  match a, b with
  | x :: a, y :: b => Z.lor (Z.lxor x y) (xor_diff a b)
  | _, _ => 0
  end.

Lemma xor_diff_zero a b : length a = length b → xor_diff a b = 0 ↔ a = b.
Proof.
  revert b. induction a as [|x a IH]; intros [|y b] Hl; simpl in *; [done..|].
  injection Hl as Hl. rewrite Z.lor_eq_0_iff, Z.lxor_eq_0_iff, (IH b Hl). split.
  - by intros [-> ->].
  - by intros [= -> ->].
Qed.

Definition constant_time_eq (a b : bytes) : bool :=
  if decide (length a = length b) then xor_diff a b =? 0 else false.

Lemma constant_time_eq_ok a b : constant_time_eq a b = bool_decide (a = b).
Proof.
  unfold constant_time_eq. case_decide as Hl; cycle 1.
  { symmetry. apply bool_decide_false. congruence. }
  apply eq_true_iff_eq. by rewrite Z.eqb_eq, bool_decide_eq_true, xor_diff_zero.
Qed.

(** ** Masks *)

Lemma testbit_low_high b x i : is_byte b → 0 ≤ i →
  Z.testbit (b + 256 * x) i = if i <? 8 then Z.testbit b i else Z.testbit x (i - 8).
Proof.
  intros Hb Hi. unfold is_byte in Hb. replace (b + 256 * x) with (b + x * 2 ^ 8) by lia.
  destruct (Z.ltb_spec i 8).
  - rewrite <- (Z.mod_pow2_bits_low (b + x * 2 ^ 8) 8) by lia. rewrite Z.mod_add by lia.
    by rewrite Z.mod_small by lia.
  - replace i with (i - 8 + 8) at 1 by lia. rewrite <- Z.div_pow2_bits by lia.
    rewrite Z.div_add by lia. by rewrite Z.div_small by lia.
Qed.

Lemma land_byte a b : is_byte a → is_byte (Z.land a b).
Proof.
  intros Ha. unfold is_byte in *. assert (0 ≤ Z.land a b) by (apply Z.land_nonneg; lia).
  split; [done|]. change 256 with (2 ^ 8). apply testbit_bounded; [lia|done|].
  intros i Hi. rewrite Z.land_spec. by rewrite (testbit_above a 8) by lia.
Qed.

Lemma lor_byte a b : is_byte a → is_byte b → is_byte (Z.lor a b).
Proof.
  intros Ha Hb. unfold is_byte in *. assert (0 ≤ Z.lor a b) by (apply Z.lor_nonneg; lia).
  split; [done|]. change 256 with (2 ^ 8). apply testbit_bounded; [lia|done|].
  intros i Hi. rewrite Z.lor_spec. by rewrite (testbit_above a 8), (testbit_above b 8) by lia.
Qed.

(** Bits that do not meet add up. *)
Lemma lor_shifted a b k : 0 ≤ k → 0 ≤ a < 2 ^ k → Z.lor a (b * 2 ^ k) = a + b * 2 ^ k.
Proof.
  intros Hk Ha. assert (E : Z.land a (b * 2 ^ k) = 0).
  { apply Z.bits_inj'. intros n Hn. rewrite Z.land_spec, Z.bits_0.
    destruct (Z.lt_ge_cases n k); [by rewrite Z.mul_pow2_bits_low, andb_false_r|].
    by rewrite (testbit_above a k) by lia. }
  by rewrite <- Z.lxor_lor, <- Z.add_nocarry_lxor.
Qed.

(** A bit of a number is a bit of one of its bytes. *)
Lemma testbit_from_le l i : is_bytes l →
  Z.testbit (from_le l) (Z.of_nat i) = Z.testbit (byte l (i / 8)) (Z.of_nat (i mod 8)).
Proof.
  intros Hl. revert i. induction Hl as [|b l Hb _ IH]; intros i.
  - cbn [from_le]. unfold byte. rewrite lookup_nil. by rewrite !Z.bits_0.
  - cbn [from_le]. rewrite testbit_low_high by (done || lia). destruct (Z.ltb_spec (Z.of_nat i) 8).
    + rewrite Nat.div_small, Nat.mod_small by lia. done.
    + replace i with (1 * 8 + (i - 8))%nat at 2 3 by lia.
      rewrite Nat.div_add_l, (Nat.add_comm (1 * 8)), Nat.Div0.mod_add by lia.
      replace (Z.of_nat i - 8) with (Z.of_nat (i - 8)) by lia. rewrite IH. done.
Qed.

Lemma from_le_land l m :
  is_bytes l → is_bytes m → length l = length m →
  from_le (zip_with Z.land l m) = Z.land (from_le l) (from_le m).
Proof.
  unfold is_bytes. revert m. induction l as [|a l IH]; intros [|b m] Hl Hm E; try done.
  apply Forall_cons in Hl as [Ha Hl], Hm as [Hb Hm]. injection E as E. cbn [zip_with from_le].
  rewrite IH by done. apply Z.bits_inj'. intros i Hi.
  rewrite Z.land_spec, !testbit_low_high by (done || by apply land_byte).
  destruct (i <? 8); by rewrite Z.land_spec.
Qed.

Lemma land_255 b : is_byte b → Z.land b 255 = b.
Proof. intros Hb. change 255 with (Z.ones 8). rewrite Z.land_ones by lia. by apply Z.mod_small. Qed.

Lemma land_mask_bound b k : 0 ≤ k → 0 ≤ Z.land b (Z.ones k) < 2 ^ k.
Proof. intros Hk. rewrite Z.land_ones by done. apply Z.mod_pos_bound. lia. Qed.

Lemma to_le_app n m x y :
  0 ≤ x < 256 ^ Z.of_nat n → 0 ≤ y < 256 ^ Z.of_nat m →
  to_le (n + m) (x + 256 ^ Z.of_nat n * y) = to_le n x ++ to_le m y.
Proof.
  intros Hx Hy. set (l := to_le n x ++ to_le m y).
  assert (Hl : is_bytes l) by (apply is_bytes_app; auto using to_le_bytes).
  assert (Ll : length l = (n + m)%nat) by (unfold l; by rewrite length_app, !length_to_le).
  rewrite <- (to_le_from_le l Hl), Ll. f_equal.
  unfold l. rewrite from_le_app, length_to_le, !from_le_to_le. by rewrite !Z.mod_small.
Qed.

(** ** Stream ciphers

    The loops that exclusive-or a keystream into a buffer chunk by chunk: [ks]
    is the keystream block of a counter state, [next] advances the counter. *)

Lemma length_chunk_pieces n (l : bytes) : l ≠ [] →
  length (take n l) = n ∨ drop n l = [] ∧ (length (take n l) ≤ n)%nat.
Proof.
  intros Hl. rewrite length_take. destruct (Nat.le_gt_cases n (length l)).
  - left. lia.
  - right. split; [apply drop_ge; lia|lia].
Qed.

Lemma chunks_app n (c l : bytes) :
  (0 < n)%nat → c ≠ [] → length c = n ∨ l = [] ∧ (length c ≤ n)%nat →
  chunks n (c ++ l) = c :: chunks n l.
Proof.
  intros Hn Hc Hl. rewrite chunks_cons by (done || by destruct c).
  destruct Hl as [Hl|[-> Hl]].
  - by rewrite take_app_length', drop_app_length'.
  - rewrite app_nil_r, take_ge, drop_ge by lia. done.
Qed.

Section Stream.
Context {S : Type} (next : S → S) (ks : S → bytes).

Fixpoint xor_stream (st : S) (cs : list bytes) : bytes :=
  match cs with
  | [] => []
  | c :: cs => xor_into c (ks st) ++ xor_stream (next st) cs
  end.

Context (n : nat) (Hn : (0 < n)%nat).

Lemma xor_stream_involutive st l :
  xor_stream st (chunks n (xor_stream st (chunks n l))) = l.
Proof.
  revert st. induction l as [|l Hl IH] using (chunks_ind n Hn); intros st; [done|].
  rewrite (chunks_cons n l) by done. cbn [xor_stream].
  set (c := xor_into (take n l) _). set (l' := xor_stream _ (chunks n (drop n l))).
  assert (Lc : length c = length (take n l)) by apply length_xor_into.
  rewrite chunks_app; [|done| |].
  - cbn [xor_stream]. unfold c, l'. rewrite IH, xor_into_involutive. apply take_drop.
  - intros E. rewrite E in Lc. rewrite length_take in Lc. destruct l; [done|]. simpl in Lc. lia.
  - destruct (length_chunk_pieces n l) as [E|[E1 E2]]; [done|left; lia|right].
    split; [|lia]. unfold l'. by rewrite E1.
Qed.

Lemma length_xor_stream st l : length (xor_stream st (chunks n l)) = length l.
Proof.
  revert st. induction l as [|l Hl IH] using (chunks_ind n Hn); intros st; [done|].
  rewrite (chunks_cons n l) by done. cbn [xor_stream].
  rewrite length_app, length_xor_into, IH, length_take, length_drop. lia.
Qed.

Lemma xor_stream_bytes (P : S → Prop) st l :
  (∀ st, P st → is_bytes (ks st) ∧ P (next st)) → P st →
  is_bytes l → is_bytes (xor_stream st (chunks n l)).
Proof.
  intros Hk. revert st. induction l as [|l Hl IH] using (chunks_ind n Hn); intros st Hst Hb; [constructor|].
  rewrite (chunks_cons n l) by done. cbn [xor_stream]. destruct (Hk st Hst). apply is_bytes_app. split.
  - apply xor_into_bytes; [by apply Forall_take|done].
  - apply IH; [done|]. by apply Forall_drop.
Qed.

End Stream.

(** Whole chunks in front keep the chunking of what follows. *)
Lemma chunks_app_whole n q (l1 l2 : bytes) :
  (0 < n)%nat → length l1 = (q * n)%nat → chunks n (l1 ++ l2) = chunks n l1 ++ chunks n l2.
Proof.
  intros Hn. revert l1. induction q as [|q IH]; intros l1 Hl.
  - by destruct l1.
  - rewrite <- (take_drop n l1). assert (Lt : length (take n l1) = n) by (rewrite length_take; lia).
    assert (Ht : take n l1 ≠ []) by (intros E; rewrite E in Lt; simpl in Lt; lia).
    rewrite <- app_assoc, (chunks_app n _ (drop n l1 ++ l2)), (chunks_app n _ (drop n l1))
      by (done || by left).
    cbn [app]. f_equal. apply IH.
    rewrite length_drop. lia.
Qed.

(** Zero bytes up to the next multiple of sixteen. *)
Definition pad16 (l : bytes) : bytes := replicate ((16 - length l mod 16) mod 16) 0.

(** ** Big-endian numbers *)

Lemma from_be_cons b l : from_be (b :: l) = b * 256 ^ Z.of_nat (length l) + from_be l.
Proof.
  unfold from_be. cbn [rev]. rewrite from_le_app, length_rev. cbn [from_le]. lia.
Qed.

Lemma from_be_bound l : is_bytes l → 0 ≤ from_be l < 256 ^ Z.of_nat (length l).
Proof. intros Hl. rewrite <- length_rev. by apply from_le_bound, Forall_rev. Qed.

Lemma from_le_lxor l m :
  length l = length m → is_bytes l → is_bytes m →
  from_le (xor_into l m) = Z.lxor (from_le l) (from_le m).
Proof.
  revert m. induction l as [|a l IH]; intros [|b m] Hl Ha Hb; try done.
  apply Forall_cons_iff in Ha as [Ha Hl'], Hb as [Hb Hm].
  cbn [xor_into from_le]. rewrite IH by (simpl in Hl; (done || lia)).
  apply Z.bits_inj'. intros i Hi. rewrite Z.lxor_spec.
  rewrite !testbit_low_high by (done || by apply lxor_byte).
  destruct (i <? 8); by rewrite Z.lxor_spec.
Qed.

Lemma xor_into_app l1 l2 m1 m2 :
  length l1 = length m1 → xor_into (l1 ++ l2) (m1 ++ m2) = xor_into l1 m1 ++ xor_into l2 m2.
Proof.
  revert m1. induction l1 as [|a l1 IH]; intros [|b m1] Hl; try done.
  cbn [app xor_into]. f_equal. apply IH. simpl in Hl. lia.
Qed.

Lemma rev_xor_into l m : length l = length m → rev (xor_into l m) = xor_into (rev l) (rev m).
Proof.
  revert m. induction l as [|a l IH]; intros [|b m] Hl; try done.
  cbn [xor_into rev]. simpl in Hl. rewrite IH by lia. rewrite xor_into_app; [done|].
  rewrite !length_rev. lia.
Qed.

Lemma from_be_lxor l m :
  length l = length m → is_bytes l → is_bytes m →
  from_be (xor_into l m) = Z.lxor (from_be l) (from_be m).
Proof.
  intros Hl Ha Hb. unfold from_be. rewrite rev_xor_into by done.
  apply from_le_lxor; [by rewrite !length_rev|by apply Forall_rev|by apply Forall_rev].
Qed.

Lemma length_to_be n x : length (to_be n x) = n.
Proof. unfold to_be. by rewrite length_rev, length_to_le. Qed.

Lemma to_be_bytes n x : is_bytes (to_be n x).
Proof. apply Forall_rev, to_le_bytes. Qed.

Lemma pad16_bytes l : is_bytes (pad16 l).
Proof. unfold pad16. apply Forall_replicate. unfold is_byte. lia. Qed.

(** ** Statements about every byte, by enumeration *)

Definition count_bytes (n : nat) : bytes := map Z.of_nat (seq 0 n).

Lemma byte_forall (P : Z → bool) :
  forallb P (count_bytes 256) = true → ∀ b, is_byte b → P b = true.
Proof.
  intros H b Hb. rewrite forallb_forall in H. apply H. unfold count_bytes.
  apply in_map_iff. exists (Z.to_nat b). split; [unfold is_byte in Hb; lia|].
  apply in_seq. unfold is_byte in Hb. lia.
Qed.

Ltac all_bytes P :=
  let H := fresh in
  pose proof (byte_forall P ltac:(vm_compute; reflexivity)) as H; cbn beta in H.

(** ** Writing into a buffer *)

Definition covers (off : nat) (data : bytes) (j : nat) : Prop := (off ≤ j < off + length data)%nat.

Lemma copy_at_ok buf off data : (off + length data ≤ length buf)%nat →
  ∃ buf', copy_at buf off data = Ret buf' ∧ length buf' = length buf ∧
    ∀ j, buf' !! j = if decide (covers off data j) then data !! (j - off)%nat else buf !! j.
Proof.
  intros Hl. unfold copy_at. rewrite (proj2 (Nat.leb_le _ _) Hl). eexists. split; [done|].
  split; [rewrite !length_app, length_take, length_drop; lia|]. intros j. unfold covers. case_decide as Hj.
  - rewrite lookup_app_r by (rewrite length_take; lia). rewrite length_take, Nat.min_l by lia.
    by rewrite lookup_app_l by lia.
  - destruct (decide (j < off)%nat).
    + rewrite lookup_app_l by (rewrite length_take; lia). by rewrite lookup_take_lt.
    + rewrite lookup_app_r by (rewrite length_take; lia). rewrite length_take, Nat.min_l by lia.
      rewrite lookup_app_r by lia. rewrite lookup_drop. f_equal. lia.
Qed.
