(* ===== verification/Patch.v ===== *)
(** * Writing into byte strings

    A write of a slice into a buffer, as a list function, and how bytes and
    slices of the result read: shared by the packet rewrites and the on-disk
    formats. *)

From stdpp Require Import base tactics decidable numbers list.
From Stdlib Require Import ZArith Lia Bool.
From S2P Require Import Prelude Bytes.

(** What [copy_at] leaves when it is in range. *)
Definition patch (buf : bytes) (off : nat) (data : bytes) : bytes :=
  take off buf ++ data ++ drop (off + length data) buf.

Lemma copy_at_patch buf off data :
  (off + length data ≤ length buf)%nat → copy_at buf off data = Ret (patch buf off data).
Proof. intros H. unfold copy_at. by rewrite (proj2 (Nat.leb_le _ _) H). Qed.

Lemma length_patch buf off data : (off + length data ≤ length buf)%nat → length (patch buf off data) = length buf.
Proof. intros. unfold patch. rewrite !length_app, length_take, length_drop. lia. Qed.

Lemma patch_lookup buf off data j : (off + length data ≤ length buf)%nat →
  patch buf off data !! j = if decide (covers off data j) then data !! (j - off)%nat else buf !! j.
Proof.
  intros H. destruct (copy_at_ok buf off data H) as (b & E & _ & Hj).
  rewrite copy_at_patch in E by done. injection E as <-. apply Hj.
Qed.

Lemma patch_bytes buf off data : is_bytes buf → is_bytes data → is_bytes (patch buf off data).
Proof.
  intros Hb Hd. unfold patch. rewrite !is_bytes_app. split_and!; [|done|]; unfold is_bytes in *.
  - by apply Forall_take. - by apply Forall_drop.
Qed.

Lemma byte_patch_out buf off data j : (off + length data ≤ length buf)%nat →
  ¬ covers off data j → byte (patch buf off data) j = byte buf j.
Proof. intros H Hj. unfold byte. rewrite patch_lookup by done. by rewrite decide_False. Qed.

Lemma slice_lookup (l : bytes) a b j :
  slice l a b !! j = if decide (j < b - a)%nat then l !! (a + j)%nat else None.
Proof.
  unfold slice. case_decide.
  - by rewrite lookup_take_lt, lookup_drop by done.
  - by apply lookup_take_ge; lia.
Qed.

Lemma slice_patch_out buf off data a b : (off + length data ≤ length buf)%nat →
  (b ≤ off ∨ off + length data ≤ a)%nat → slice (patch buf off data) a b = slice buf a b.
Proof.
  intros H Hd. apply list_eq. intros j. rewrite !slice_lookup. case_decide; [|done].
  rewrite patch_lookup by done. rewrite decide_False; [done|]. unfold covers. lia.
Qed.

Lemma slice_patch_in buf off data b : (off + length data ≤ length buf)%nat →
  b = (off + length data)%nat → slice (patch buf off data) off b = data.
Proof.
  intros H ->. apply list_eq. intros j. rewrite slice_lookup. case_decide.
  - rewrite patch_lookup by done. rewrite decide_True by (unfold covers; lia). f_equal. lia.
  - symmetry. apply lookup_ge_None. lia.
Qed.

(** A patch below [n], and one from [n] on, seen from the two halves. *)
Lemma take_patch_low buf off data n : (n ≤ length buf)%nat → (off + length data ≤ n)%nat →
  take n (patch buf off data) = patch (take n buf) off data.
Proof.
  intros Hn H. apply list_eq. intros j. rewrite patch_lookup by (rewrite length_take; lia).
  destruct (decide (j < n)%nat).
  - rewrite !lookup_take_lt by lia. by rewrite patch_lookup by lia.
  - rewrite lookup_take_ge, decide_False, lookup_take_ge; [done|lia|unfold covers; lia|lia].
Qed.

Lemma drop_patch_low buf off data n : (n ≤ length buf)%nat → (off + length data ≤ n)%nat →
  drop n (patch buf off data) = drop n buf.
Proof.
  intros Hn H. apply list_eq. intros j. rewrite !lookup_drop, patch_lookup by lia.
  rewrite decide_False; [done|unfold covers; lia].
Qed.

Lemma take_patch_high buf off data n : (off + length data ≤ length buf)%nat → (n ≤ off)%nat →
  take n (patch buf off data) = take n buf.
Proof.
  intros Hn H. apply list_eq. intros j. destruct (decide (j < n)%nat).
  - rewrite !lookup_take_lt by lia. rewrite patch_lookup by lia. rewrite decide_False; [done|unfold covers; lia].
  - by rewrite !lookup_take_ge by lia.
Qed.

Lemma drop_patch_high buf off data n : (n + off + length data ≤ length buf)%nat →
  drop n (patch buf (n + off) data) = patch (drop n buf) off data.
Proof.
  intros H. apply list_eq. intros j. rewrite lookup_drop, !patch_lookup by (rewrite ?length_drop; lia).
  rewrite lookup_drop. unfold covers. repeat case_decide; try lia; f_equal; lia.
Qed.

Lemma slice_take (l : bytes) n a b : (b ≤ n)%nat → slice (take n l) a b = slice l a b.
Proof.
  intros H. apply list_eq. intros j. rewrite !slice_lookup. case_decide; [|done]. by rewrite lookup_take_lt by lia.
Qed.

Lemma slice_drop (l : bytes) n a b : slice (drop n l) a b = slice l (n + a) (n + b).
Proof. apply list_eq. intros j. rewrite !slice_lookup, lookup_drop. repeat case_decide; try lia; [f_equal; lia|done]. Qed.

