(* ===== verification/PageCodec.v ===== *)
(** * Page compression

    memory/compressed.rs: the encoding of a 4 KiB page as a zero page, a
    repeated byte, an LZSS token stream or, for files, the raw bytes.  A position
    in the stream being decoded is the part of it that is left.  Indexing is
    checked: an access out of range, or a position subtracted below zero, is a
    [Panic]. *)

From stdpp Require Import base tactics decidable numbers list.
From Stdlib Require Import ZArith Lia Bool.
From S2P Require Import Prelude Bytes.

Definition PAGE_SIZE : nat := Z.to_nat 4096.
Definition HASH_BITS : Z := 12.
Definition HASH_SIZE : Z := Z.shiftl 1 HASH_BITS.
Definition MIN_MATCH : nat := 3.
Definition MAX_MATCH : nat := 10.
Definition MAX_DIST : nat := Z.to_nat 4096.
Definition u16_MAX : Z := 65535.

(** [l[i]] and [l[i] = x]. *)
Definition index (l : list Z) (i : nat) : outcome Z :=
  match l !! i with Some x => Ret x | None => Panic end.
Definition store (l : list Z) (i : nat) (x : Z) : outcome (list Z) :=
  if (i <? length l)%nat then Ret (<[i := x]> l) else Panic.

(** ** The LZSS compressor *)

Definition hash3 (a b c : Z) : Z :=
  Z.land (Z.lxor (Z.lxor (Z.shiftl a 8) (Z.shiftl b 4)) c) (HASH_SIZE - 1).

(** [hash3(&input[p..])]. *)
Definition hash_at (input : bytes) (p : nat) : outcome nat :=
  a ← index input p;
  b ← index input (p + 1);
  c ← index input (p + 2);
  Ret (Z.to_nat (hash3 a b c)).

(** The pending literals go out in runs of at most 128. *)
Definition literal_run (run : bytes) : bytes := Z.of_nat (length run - 1) :: run.
Definition flush_literals (out literals : bytes) : bytes :=
  out ++ concat (literal_run <$> chunks 128 literals).

(** The length of the match of [input[a..]] and [input[b..]], at most [n]. *)
Fixpoint match_len (n : nat) (input : bytes) (a b : nat) : outcome nat :=
  match n with
  | O => Ret 0%nat
  | S n =>
      x ← index input a;
      y ← index input b;
      if x =? y then m ← match_len n input (S a) (S b); Ret (S m) else Ret 0%nat
  end.

(** The length and the distance of the match at [pos], or a length of zero. *)
Definition find_match (input : bytes) (hash_tab : list Z) (pos : nat) : outcome (nat * nat) :=
  let len := length input in
  if (MIN_MATCH <=? pos)%nat && (MIN_MATCH <=? len - pos)%nat then
    h ← hash_at input pos;
    cand ← index hash_tab h;
    if cand =? u16_MAX then Ret (0, 0)%nat else
    let cand := Z.to_nat cand in
    if (pos <? cand)%nat then Panic else
    if (pos - cand <=? MAX_DIST)%nat then
      let max_len := Nat.min (len - pos) MAX_MATCH in
      mlen ← match_len max_len input cand pos;
      if (MIN_MATCH <=? mlen)%nat then Ret (mlen, (pos - cand)%nat) else Ret (0, 0)%nat
    else Ret (0, 0)%nat
  else Ret (0, 0)%nat.

(** The position of a three-byte sequence is recorded where one starts. *)
Definition record (input : bytes) (hash_tab : list Z) (p : nat) : outcome (list Z) :=
  if (p + MIN_MATCH <=? length input)%nat then
    h ← hash_at input p; store hash_tab h (Z.of_nat p mod 2 ^ 16)
  else Ret hash_tab.

Fixpoint record_run (n : nat) (input : bytes) (hash_tab : list Z) (p : nat) : outcome (list Z) :=
  match n with
  | O => Ret hash_tab
  | S n => tab ← record input hash_tab p; record_run n input tab (S p)
  end.

Definition match_token (best_len best_dist : nat) : bytes :=
  let len_code := Z.of_nat (best_len - MIN_MATCH) in
  let dist_code := Z.of_nat (best_dist - 1) in
  [Z.lor (Z.lor 128 (wrap8 (Z.shiftl len_code 4))) (wrap8 (Z.shiftr dist_code 8));
   wrap8 (Z.land dist_code 255)].

(** The [while pos < len] loop. *)
Fixpoint compress_loop (fuel : nat) (input out literals : bytes) (hash_tab : list Z) (pos : nat)
    : outcome bytes :=
  if (pos <? length input)%nat then
    match fuel with
    | O => NoFuel
    | S fuel =>
        '(best_len, best_dist) ← find_match input hash_tab pos;
        if (MIN_MATCH <=? best_len)%nat then
          let out := flush_literals out literals ++ match_token best_len best_dist in
          tab ← record_run best_len input hash_tab pos;
          compress_loop fuel input out [] tab (pos + best_len)
        else
          b ← index input pos;
          let literals := literals ++ [b] in
          tab ← record input hash_tab pos;
          if (length literals =? 128)%nat
          then compress_loop fuel input (flush_literals out literals) [] tab (S pos)
          else compress_loop fuel input out literals tab (S pos)
    end
  else Ret (flush_literals out literals).

Definition lzss_compress (input : bytes) : outcome bytes :=
  compress_loop (length input) input [] [] (replicate (Z.to_nat HASH_SIZE) u16_MAX) 0.

(** ** The LZSS decompressor *)

(** [for k in 0..n { out[op + k] = out[op + k - dist] }]. *)
Fixpoint copy_match (n : nat) (out : bytes) (op dist : nat) : outcome bytes :=
  match n with
  | O => Ret out
  | S n =>
      x ← index out (op - dist);
      out ← store out op x;
      copy_match n out (S op) dist
  end.

(** The [while ip < src.len()] loop: [src] is what is left of the stream. *)
Fixpoint decompress_loop (fuel : nat) (src out : bytes) (op : nat) : outcome (bool * bytes) :=
  match src with
  | [] => Ret ((op =? length out)%nat, out)
  | b :: rest =>
      match fuel with
      | O => NoFuel
      | S fuel =>
          if Z.land b 128 =? 0 then
            let count := (Z.to_nat b + 1)%nat in
            if (length rest <? count)%nat || (length out <? op + count)%nat then Ret (false, out) else
            out ← copy_at out op (take count rest);
            decompress_loop fuel (drop count rest) out (op + count)
          else
            match rest with
            | [] => Ret (false, out)
            | b2 :: rest =>
                let len := (Z.to_nat (Z.land (Z.shiftr b 4) 7) + MIN_MATCH)%nat in
                let dist := (Z.to_nat (Z.lor (Z.shiftl (Z.land b 15) 8) b2) + 1)%nat in
                if (op <? dist)%nat || (length out <? op + len)%nat then Ret (false, out) else
                out ← copy_match len out op dist;
                decompress_loop fuel rest out (op + len)
            end
      end
  end.

Definition lzss_decompress (src out : bytes) : outcome (bool * bytes) :=
  decompress_loop (length src) src out 0.

(** ** Pages *)

Definition compress_page (input : bytes) : outcome (option bytes) :=
  if negb (length input =? PAGE_SIZE)%nat then Ret None else
  if forallb (λ b, b =? 0) input then Ret (Some [0]) else
  first ← index input 0;
  if forallb (λ b, b =? first) (drop 1 input) then Ret (Some [1; first]) else
  stream ← lzss_compress input;
  if (1 + length stream <? PAGE_SIZE)%nat then Ret (Some (2 :: stream)) else Ret None.

(** [debug_assert!] is checked in debug builds: a chunk of another size panics. *)
Definition compress_chunk (input : bytes) : outcome bytes :=
  if negb (length input =? PAGE_SIZE)%nat then Panic else
  page ← compress_page input;
  Ret (match page with Some data => data | None => 3 :: input end).

(** The answer and what is in [output] afterwards. *)
Definition decompress_page (encoded output : bytes) : outcome (bool * bytes) :=
  if negb (length output =? PAGE_SIZE)%nat then Ret (false, output) else
  match encoded with
  | [] => Ret (false, output)
  | tag :: payload =>
      if tag =? 0 then Ret ((length encoded =? 1)%nat, replicate (length output) 0)
      else if tag =? 1 then
        match payload with
        | [b] => Ret (true, replicate (length output) b)
        | _ => Ret (false, output)
        end
      else if tag =? 2 then lzss_decompress payload output
      else if tag =? 3 then
        if (length encoded =? 1 + PAGE_SIZE)%nat then Ret (true, payload) else Ret (false, output)
      else Ret (false, output)
  end.

#[global] Arguments PAGE_SIZE : simpl never.
#[global] Arguments MAX_DIST : simpl never.
