(* ===== verification/PageCodecTheorems.v ===== *)
(** * Theorems on page compression

    Decompression gives back every page and chunk that was compressed; the
    compressor always returns; the decompressor answers on any input, without
    reading or writing out of range. *)

From stdpp Require Import base tactics decidable numbers list.
From Stdlib Require Import ZArith Lia Bool.
From S2P Require Import Prelude Bytes Patch PageCodec.

(** ** Indexing *)

Lemma index_ok (l : bytes) i : (i < length l)%nat → ∃ x, index l i = Ret x ∧ l !! i = Some x.
Proof. intros H. unfold index. destruct (lookup_lt_is_Some_2 l i H) as [x ->]. by exists x. Qed.

Lemma store_ok (l : list Z) i x : (i < length l)%nat → store l i x = Ret (<[i := x]> l).
Proof. intros H. unfold store. by rewrite (proj2 (Nat.ltb_lt _ _) H). Qed.

Lemma hash3_bound a b c : 0 ≤ hash3 a b c < 4096.
Proof.
  unfold hash3. change (HASH_SIZE - 1) with (Z.ones 12). rewrite Z.land_ones by lia.
  by apply Z.mod_pos_bound.
Qed.

(** ** The match token *)

Lemma lor_shift8 hi lo : is_byte lo → Z.lor (Z.shiftl hi 8) lo = hi * 256 + lo.
Proof.
  unfold is_byte. intros Hlo. rewrite Z.shiftl_mul_pow2, Z.lor_comm, lor_shifted by lia. lia.
Qed.

Definition token_head (lc hi : Z) : Z := Z.lor (Z.lor 128 (wrap8 (Z.shiftl lc 4))) (wrap8 hi).

Definition head_good (lc hi : Z) : bool :=
  let b := token_head lc hi in
  negb (Z.land b 128 =? 0) && (Z.land (Z.shiftr b 4) 7 =? lc) && (Z.land b 15 =? hi) && (0 <=? b) && (b <? 256).

Lemma heads_good : forallb (λ lc, forallb (λ hi, head_good (Z.of_nat lc) (Z.of_nat hi)) (seq 0 16)) (seq 0 8) = true.
Proof. vm_compute. reflexivity. Qed.

Lemma token_head_spec lc hi : 0 ≤ lc < 8 → 0 ≤ hi < 16 →
  let b := token_head lc hi in
  Z.land b 128 ≠ 0 ∧ Z.land (Z.shiftr b 4) 7 = lc ∧ Z.land b 15 = hi ∧ is_byte b.
Proof.
  intros Hl Hh b. pose proof heads_good as G. rewrite forallb_forall in G.
  specialize (G (Z.to_nat lc)). rewrite forallb_forall in G.
  specialize (G ltac:(apply in_seq; lia) (Z.to_nat hi) ltac:(apply in_seq; lia)).
  rewrite !Z2Nat.id in G by lia. unfold head_good in G. fold b in G.
  apply andb_prop in G as [G G5]. apply andb_prop in G as [G G4]. apply andb_prop in G as [G G3].
  apply andb_prop in G as [G1 G2]. apply negb_true_iff, Z.eqb_neq in G1. apply Z.eqb_eq in G2, G3.
  apply Z.leb_le in G4. apply Z.ltb_lt in G5. by unfold is_byte.
Qed.

(** What the decoder reads in the token of a match of [l] bytes at distance [d]. *)
Lemma match_token_spec l d : (3 ≤ l ≤ 10)%nat → (1 ≤ d)%nat → Z.of_nat d ≤ 4096 →
  ∃ b1 b2, match_token l d = [b1; b2] ∧ is_byte b1 ∧ is_byte b2 ∧ Z.land b1 128 ≠ 0 ∧
    (Z.to_nat (Z.land (Z.shiftr b1 4) 7) + MIN_MATCH)%nat = l ∧
    (Z.to_nat (Z.lor (Z.shiftl (Z.land b1 15) 8) b2) + 1)%nat = d.
Proof.
  intros Hl Hd Hd'. set (dc := Z.of_nat (d - 1)).
  assert (Hdc : 0 ≤ dc < 4096) by (unfold dc; lia).
  assert (Eh : Z.shiftr dc 8 = dc / 256) by (by rewrite Z.shiftr_div_pow2).
  assert (Hh : 0 ≤ dc / 256 < 16) by (split; [apply Z.div_pos|apply Z.div_lt_upper_bound]; lia).
  assert (Elo : wrap8 (Z.land dc 255) = dc mod 256).
  { change 255 with (Z.ones 8). rewrite Z.land_ones by lia. unfold wrap8. by rewrite Zmod_mod. }
  destruct (token_head_spec (Z.of_nat (l - 3)) (dc / 256)) as (H1 & H2 & H3 & H4); [lia|done|].
  exists (token_head (Z.of_nat (l - 3)) (dc / 256)), (dc mod 256).
  pose proof (Z.mod_pos_bound dc 256 ltac:(lia)) as Hm. pose proof (Z.div_mod dc 256 ltac:(lia)) as Edm.
  split_and!; [|done|done|done| |].
  - unfold match_token, MIN_MATCH. fold dc. by rewrite Eh, Elo.
  - rewrite H2. unfold MIN_MATCH. lia.
  - rewrite H3, lor_shift8 by (unfold is_byte; lia). unfold dc in *. lia.
Qed.

(** ** Decoding *)

Lemma decompress_fuel f1 f2 src out op : (length src ≤ f1)%nat → (length src ≤ f2)%nat →
  decompress_loop f1 src out op = decompress_loop f2 src out op.
Proof.
  revert f2 src out op. induction f1 as [|f1 IH]; intros f2 src out op H1 H2.
  { destruct src; [by destruct f2|cbn in H1; lia]. }
  destruct src as [|b rest]; [by destruct f2|]. destruct f2 as [|f2]; [cbn in H2; lia|].
  cbn [length] in H1, H2. cbn [decompress_loop]. destruct (Z.land b 128 =? 0).
  - destruct (_ || _); [done|]. destruct (copy_at _ _ _); [|done..]. apply IH; rewrite length_drop; lia.
  - destruct rest as [|b2 rest]; [done|]. cbn [length] in *. destruct (_ || _); [done|].
    destruct (copy_match _ _ _ _); [|done..]. apply IH; lia.
Qed.

Lemma lzss_decompress_eq src out op n : (length src ≤ n)%nat →
  decompress_loop n src out op = decompress_loop (length src) src out op.
Proof. intros H. by apply decompress_fuel. Qed.

Section Page.
Context (input : bytes) (Hbytes : is_bytes input) (Hlen : Z.of_nat (length input) < 65535).

(** A buffer whose first [k] bytes are those of the input. *)
Definition part (k : nat) (buf : bytes) : bytes := take k input ++ drop k buf.

Lemma length_part k buf : length buf = length input → (k ≤ length input)%nat → length (part k buf) = length input.
Proof. intros E H. unfold part. rewrite length_app, length_take, length_drop. lia. Qed.

Lemma part_lookup k buf i : length buf = length input → (k ≤ length input)%nat →
  part k buf !! i = if decide (i < k)%nat then input !! i else buf !! i.
Proof.
  intros E H. unfold part. case_decide.
  - rewrite lookup_app_l by (rewrite length_take; lia). by apply lookup_take_lt.
  - rewrite lookup_app_r by (rewrite length_take; lia). rewrite length_take, Nat.min_l, lookup_drop by lia. f_equal. lia.
Qed.

Lemma part_patch k c buf : length buf = length input → (k + c ≤ length input)%nat →
  patch (part k buf) k (slice input k (k + c)) = part (k + c) buf.
Proof.
  intros E H. assert (Ls : length (slice input k (k + c)) = c) by (rewrite length_slice; lia).
  apply list_eq. intros i. rewrite patch_lookup by (rewrite length_part; lia).
  rewrite !part_lookup by lia. rewrite slice_lookup. unfold covers. rewrite Ls.
  repeat case_decide; try lia; try done. f_equal. lia.
Qed.

Lemma part_insert k buf x : length buf = length input → input !! k = Some x →
  <[k := x]> (part k buf) = part (S k) buf.
Proof.
  intros E Hx. pose proof (lookup_lt_Some _ _ _ Hx). apply list_eq. intros i. rewrite part_lookup by lia.
  destruct (decide (i = k)) as [->|Hne].
  - rewrite list_lookup_insert_eq by (rewrite length_part; lia). by rewrite decide_True by lia.
  - rewrite list_lookup_insert_ne by done. rewrite part_lookup by lia. repeat case_decide; try lia; done.
Qed.

(** A copied match extends the part by bytes of the input. *)
Lemma copy_match_part n k d buf : length buf = length input → (1 ≤ d ≤ k)%nat → (k + n ≤ length input)%nat →
  (∀ j, (j < n)%nat → input !! (k - d + j)%nat = input !! (k + j)%nat) →
  copy_match n (part k buf) k d = Ret (part (k + n) buf).
Proof.
  revert k. induction n as [|n IH]; intros k E Hd Hk Hm; cbn [copy_match]; [by rewrite Nat.add_0_r|].
  destruct (index_ok (part k buf) (k - d)) as (x & -> & Hx); [rewrite length_part; lia|]. cbn [mbind outcome_bind].
  rewrite store_ok by (rewrite length_part; lia). cbn [mbind outcome_bind].
  rewrite part_lookup, decide_True in Hx by lia. pose proof (Hm 0%nat ltac:(lia)) as H0. rewrite !Nat.add_0_r in H0.
  rewrite part_insert by congruence. rewrite IH; [by replace (S k + n)%nat with (k + S n)%nat by lia|done|lia|lia|].
  intros j Hj. specialize (Hm (S j) ltac:(lia)).
  by replace (S k - d + j)%nat with (k - d + S j)%nat by lia; replace (S k + j)%nat with (k + S j)%nat by lia.
Qed.

Definition decode (src out : bytes) (op : nat) : outcome (bool * bytes) := decompress_loop (length src) src out op.

(** The stream [s], read with [k] bytes done, leaves [k'] done. *)
Definition decodes (s : bytes) (k k' : nat) : Prop :=
  ∀ rest buf, length buf = length input → decode (s ++ rest) (part k buf) k = decode rest (part k' buf) k'.

Lemma decodes_nil k : decodes [] k k.
Proof. by intros rest buf E. Qed.

Lemma decodes_app s1 s2 k1 k2 k3 : decodes s1 k1 k2 → decodes s2 k2 k3 → decodes (s1 ++ s2) k1 k3.
Proof. intros H1 H2 rest buf E. rewrite <- app_assoc, H1 by done. by apply H2. Qed.

Lemma literal_run_byte c : (1 ≤ c ≤ 128)%nat → Z.land (Z.of_nat (c - 1)) 128 = 0.
Proof.
  intros Hc. apply Z.bits_inj'. intros i Hi. rewrite Z.land_spec, Z.bits_0.
  destruct (decide (i = 7)) as [->|]; [rewrite (testbit_above _ 7) by lia; done|].
  change 128 with (2 ^ 7). rewrite Z.pow2_bits_false by lia. apply andb_false_r.
Qed.

Lemma decodes_literals c k : (1 ≤ c ≤ 128)%nat → (k + c ≤ length input)%nat →
  decodes (literal_run (slice input k (k + c))) k (k + c).
Proof.
  intros Hc Hk rest buf E. assert (Ls : length (slice input k (k + c)) = c) by (rewrite length_slice; lia).
  unfold literal_run, decode. rewrite Ls. cbn [app length decompress_loop].
  rewrite literal_run_byte by done. cbn [Z.eqb]. rewrite Nat2Z.id. replace (c - 1 + 1)%nat with c by lia.
  rewrite length_app, length_part, Ls by lia.
  rewrite (proj2 (Nat.ltb_ge _ _)), (proj2 (Nat.ltb_ge _ _)) by lia. cbn [orb].
  rewrite take_app_length', drop_app_length' by done.
  rewrite copy_at_patch by (rewrite length_part; lia). cbn [mbind outcome_bind].
  rewrite part_patch by done. apply lzss_decompress_eq. lia.
Qed.

Lemma decodes_match l d k : (3 ≤ l ≤ 10)%nat → (1 ≤ d ≤ k)%nat → Z.of_nat d ≤ 4096 → (k + l ≤ length input)%nat →
  (∀ j, (j < l)%nat → input !! (k - d + j)%nat = input !! (k + j)%nat) → decodes (match_token l d) k (k + l).
Proof.
  intros Hl Hd Hd' Hk Hm rest buf E.
  destruct (match_token_spec l d) as (b1 & b2 & -> & _ & _ & Hb & El & Ed); [done|lia|done|].
  unfold decode. cbn [app length decompress_loop]. rewrite (proj2 (Z.eqb_neq _ _) Hb), El, Ed, length_part by lia.
  rewrite (proj2 (Nat.ltb_ge _ _)), (proj2 (Nat.ltb_ge _ _)) by lia. cbn [orb].
  rewrite copy_match_part by done. apply (lzss_decompress_eq rest _ _ (S (length rest))). lia.
Qed.

Lemma decodes_flush m k : (k + m ≤ length input)%nat →
  decodes (concat (literal_run <$> chunks 128 (slice input k (k + m)))) k (k + m).
Proof.
  revert k. induction m as [m IH] using lt_wf_ind. intros k Hk.
  destruct (decide (m = 0%nat)) as [->|Hm].
  { rewrite Nat.add_0_r. unfold slice. rewrite Nat.sub_diag. apply decodes_nil. }
  set (c := Nat.min m 128). assert (Ls : length (slice input k (k + m)) = m) by (rewrite length_slice; lia).
  assert (Et : take 128 (slice input k (k + m)) = slice input k (k + c)).
  { unfold slice. rewrite take_take. f_equal. lia. }
  assert (Ed : drop 128 (slice input k (k + m)) = slice input (k + c) (k + c + (m - c))).
  { apply list_eq. intros i. rewrite lookup_drop, !slice_lookup. repeat case_decide; try lia; [f_equal; lia|done]. }
  rewrite chunks_cons; [|lia|intros E; rewrite E in Ls; cbn in Ls; lia]. cbn [fmap list_fmap concat]. rewrite Et, Ed.
  apply (decodes_app _ _ _ (k + c)); [apply decodes_literals; lia|].
  replace (k + m)%nat with (k + c + (m - c))%nat by lia. apply IH; lia.
Qed.

(** ** Compressing *)

(** The table holds positions before [pos]. *)
Record tab_ok (tab : list Z) (pos : nat) : Prop := {
  tab_length : Z.of_nat (length tab) = HASH_SIZE;
  tab_entry h c : tab !! h = Some c → c = u16_MAX ∨ 0 ≤ c < Z.of_nat pos
}.

Lemma tab_ok_mono tab p q : tab_ok tab p → (p ≤ q)%nat → tab_ok tab q.
Proof. intros [Hl He] H. split; [done|]. intros h c Hc. destruct (He h c Hc); [by left|right; lia]. Qed.

Lemma hash_at_ok p : (p + 3 ≤ length input)%nat → ∃ h, hash_at input p = Ret h ∧ Z.of_nat h < HASH_SIZE.
Proof.
  intros H. unfold hash_at. destruct (index_ok input p) as (a & -> & _); [lia|].
  destruct (index_ok input (p + 1)) as (b & -> & _); [lia|].
  destruct (index_ok input (p + 2)) as (c & -> & _); [lia|]. cbn [mbind outcome_bind].
  eexists. split; [done|]. pose proof (hash3_bound a b c). change HASH_SIZE with 4096. lia.
Qed.

Lemma record_ok tab p : tab_ok tab p → ∃ tab', record input tab p = Ret tab' ∧ tab_ok tab' (S p).
Proof.
  intros Ht. unfold record, MIN_MATCH. destruct (Nat.leb_spec (p + 3) (length input)); cycle 1.
  { exists tab. split; [done|]. apply (tab_ok_mono _ p); [done|lia]. }
  destruct (hash_at_ok p) as (h & -> & Hh); [lia|]. cbn [mbind outcome_bind].
  destruct Ht as [Hl He]. rewrite store_ok by lia. eexists. split; [done|]. split; [by rewrite length_insert|].
  intros h' c [(-> & <- & _)|[_ Hc]]%list_lookup_insert_Some.
  - right. rewrite Z.mod_small by lia. lia.
  - destruct (He h' c Hc); [by left|right; lia].
Qed.

Lemma record_run_ok n tab p : tab_ok tab p → ∃ tab', record_run n input tab p = Ret tab' ∧ tab_ok tab' (p + n).
Proof.
  revert tab p. induction n as [|n IH]; intros tab p Ht; cbn [record_run]; [exists tab; by rewrite Nat.add_0_r|].
  destruct (record_ok tab p Ht) as (tab1 & -> & Ht1). cbn [mbind outcome_bind].
  destruct (IH tab1 (S p) Ht1) as (tab2 & -> & Ht2). exists tab2. by replace (p + S n)%nat with (S p + n)%nat by lia.
Qed.

Lemma match_len_ok n a b : (a ≤ b)%nat → (b + n ≤ length input)%nat →
  ∃ m, match_len n input a b = Ret m ∧ (m ≤ n)%nat ∧
    ∀ j, (j < m)%nat → input !! (a + j)%nat = input !! (b + j)%nat.
Proof.
  revert a b. induction n as [|n IH]; intros a b Hab Hb; cbn [match_len].
  { exists 0%nat. split_and!; [done|lia|intros; lia]. }
  destruct (index_ok input a) as (x & -> & Hx); [lia|]. destruct (index_ok input b) as (y & -> & Hy); [lia|].
  cbn [mbind outcome_bind]. destruct (Z.eqb_spec x y) as [->|]; cycle 1.
  { exists 0%nat. split_and!; [done|lia|intros; lia]. }
  destruct (IH (S a) (S b)) as (m & -> & Hm & Hj); [lia|lia|]. exists (S m). split_and!; [done|lia|].
  intros [|j] Hj'; [rewrite !Nat.add_0_r; congruence|]. specialize (Hj j ltac:(lia)).
  by replace (a + S j)%nat with (S a + j)%nat by lia; replace (b + S j)%nat with (S b + j)%nat by lia.
Qed.

(** A match that is found is one the decoder can copy. *)
Lemma find_match_ok tab pos : tab_ok tab pos → (pos ≤ length input)%nat →
  ∃ l d, find_match input tab pos = Ret (l, d) ∧
    (l = 0%nat ∨ ((3 ≤ l ≤ 10)%nat ∧ (1 ≤ d ≤ pos)%nat ∧ Z.of_nat d ≤ 4096 ∧ (pos + l ≤ length input)%nat ∧
      ∀ j, (j < l)%nat → input !! (pos - d + j)%nat = input !! (pos + j)%nat)).
Proof.
  intros [Hl He] Hp. unfold find_match, MIN_MATCH, MAX_MATCH, MAX_DIST.
  destruct (Nat.leb_spec 3 pos); [|by eauto]. destruct (Nat.leb_spec 3 (length input - pos)); [|by eauto].
  cbn [andb]. destruct (hash_at_ok pos) as (h & -> & Hh); [lia|]. cbn [mbind outcome_bind].
  destruct (index_ok tab h) as (c & -> & Hc); [lia|]. cbn [mbind outcome_bind].
  destruct (Z.eqb_spec c u16_MAX); [by eauto|]. destruct (He h c Hc) as [|Hcp]; [done|].
  destruct (Nat.ltb_spec pos (Z.to_nat c)); [lia|].
  destruct (Nat.leb_spec (pos - Z.to_nat c) (Z.to_nat 4096)); [|by eauto].
  destruct (match_len_ok (Nat.min (length input - pos) 10) (Z.to_nat c) pos) as (m & -> & Hm & Hj); [lia|lia|].
  cbn [mbind outcome_bind]. destruct (Nat.leb_spec 3 m); [|by eauto].
  eexists _, _. split; [done|]. right. split_and!; [lia|lia|lia|lia|lia|lia|].
  intros j Hjm. rewrite <- Hj by done. f_equal. lia.
Qed.

Lemma literal_runs_bytes l : is_bytes l → is_bytes (concat (literal_run <$> chunks 128 l)).
Proof.
  intros Hb. pose proof (chunks_bytes 128 l ltac:(lia) Hb) as Hc. pose proof (chunks_length 128 l ltac:(lia)) as Hl.
  induction Hc as [|c cs Hc Hcs IH]; [by constructor|]. apply Forall_cons in Hl as [Hl Hls].
  cbn [fmap list_fmap concat]. apply is_bytes_app. split; [|by apply IH].
  apply Forall_cons. split; [unfold is_byte; lia|done].
Qed.

Lemma flush_ok out k pos : (k ≤ pos ≤ length input)%nat → is_bytes out → decodes out 0 k →
  is_bytes (flush_literals out (slice input k pos)) ∧ decodes (flush_literals out (slice input k pos)) 0 pos.
Proof.
  intros Hk Hb Hd. unfold flush_literals. split.
  - apply is_bytes_app. split; [done|]. by apply literal_runs_bytes, slice_bytes.
  - apply (decodes_app _ _ _ k); [done|]. replace pos with (k + (pos - k))%nat by lia. apply decodes_flush. lia.
Qed.

Lemma slice_empty (p : nat) : slice input p p = [].
Proof. unfold slice. by rewrite Nat.sub_diag. Qed.

Lemma slice_snoc k pos b : (k ≤ pos)%nat → input !! pos = Some b → slice input k pos ++ [b] = slice input k (S pos).
Proof.
  intros Hk Hb. unfold slice. replace (S pos - k)%nat with (S (pos - k)) by lia.
  rewrite (take_S_r _ _ b); [done|]. rewrite lookup_drop. by replace (k + (pos - k))%nat with pos by lia.
Qed.

(** The loop returns a stream that decodes to the input. *)
Lemma compress_loop_ok fuel out k tab pos :
  (length input - pos ≤ fuel)%nat → (k ≤ pos ≤ length input)%nat → tab_ok tab pos →
  is_bytes out → decodes out 0 k →
  ∃ s, compress_loop fuel input out (slice input k pos) tab pos = Ret s ∧
    is_bytes s ∧ decodes s 0 (length input).
Proof.
  revert out k tab pos. induction fuel as [|fuel IH]; intros out k tab pos Hf Hk Ht Hb Hd.
  { cbn [compress_loop]. rewrite (proj2 (Nat.ltb_ge _ _)) by lia. eexists. split; [done|].
    replace (length input) with pos by lia. apply flush_ok; [lia|done|done]. }
  cbn [compress_loop]. destruct (Nat.ltb_spec pos (length input)) as [Hp|Hp]; cycle 1.
  { eexists. split; [done|]. replace (length input) with pos by lia. apply flush_ok; [lia|done|done]. }
  destruct (flush_ok out k pos Hk Hb Hd) as [Fb Fd].
  destruct (find_match_ok tab pos Ht ltac:(lia)) as (l & d & -> & Hm). cbn [mbind outcome_bind]. unfold MIN_MATCH.
  destruct (Nat.leb_spec 3 l) as [Hl|Hl].
  - destruct Hm as [->|(Hl2 & Hd1 & Hd2 & Hpl & Hj)]; [lia|].
    destruct (record_run_ok l tab pos Ht) as (tab' & -> & Ht'). cbn [mbind outcome_bind].
    destruct (match_token_spec l d) as (b1 & b2 & Et & B1 & B2 & _); [done|lia|done|].
    pose proof (IH (flush_literals out (slice input k pos) ++ match_token l d) (pos + l)%nat tab' (pos + l)%nat) as G.
    rewrite slice_empty in G. apply G; [lia|lia|done| |].
    + apply is_bytes_app. split; [done|]. rewrite Et. repeat apply Forall_cons_2; [done..|apply Forall_nil_2].
    + apply (decodes_app _ _ _ pos); [done|]. by apply decodes_match.
  - destruct (index_ok input pos Hp) as (b & -> & Hbp). cbn [mbind outcome_bind].
    destruct (record_ok tab pos Ht) as (tab' & -> & Ht'). cbn [mbind outcome_bind].
    rewrite (slice_snoc k pos b) by (done || lia). destruct (_ =? 128)%nat.
    + destruct (flush_ok out k (S pos) ltac:(lia) Hb Hd) as [Fb' Fd'].
      pose proof (IH (flush_literals out (slice input k (S pos))) (S pos) tab' (S pos)) as G.
      rewrite slice_empty in G. apply G; (done || lia).
    + apply IH; (done || lia).
Qed.

Lemma lzss_compress_ok : ∃ s, lzss_compress input = Ret s ∧ is_bytes s ∧ decodes s 0 (length input).
Proof.
  apply (compress_loop_ok (length input) [] 0 (replicate (Z.to_nat HASH_SIZE) u16_MAX) 0);
    [lia|lia| |by constructor|apply decodes_nil].
  split; [rewrite length_replicate; done|]. intros h c [-> _]%lookup_replicate. by left.
Qed.

(** What was compressed decompresses, into any buffer of its size. *)
Lemma lzss_roundtrip s buf : decodes s 0 (length input) → length buf = length input →
  lzss_decompress s buf = Ret (true, input).
Proof.
  intros Hd E. specialize (Hd [] buf E). rewrite app_nil_r in Hd. unfold lzss_decompress, decode in *.
  change (part 0 buf) with buf in Hd. rewrite Hd. cbn [length decompress_loop].
  unfold part. rewrite take_ge, drop_ge, app_nil_r by lia. by rewrite Nat.eqb_refl.
Qed.

End Page.

(** ** Pages *)

Lemma page_size_Z : Z.of_nat PAGE_SIZE = 4096.
Proof. done. Qed.

Lemma forallb_eq_replicate (l : bytes) x : forallb (λ b, b =? x) l = true → l = replicate (length l) x.
Proof.
  induction l as [|y l IH]; [done|]. cbn [forallb length replicate]. intros [E%Z.eqb_eq Hl]%andb_prop.
  f_equal; [done|by apply IH].
Qed.

(** What the two encoders promise. *)
Definition encodes (page enc : bytes) : Prop :=
  is_bytes enc ∧ ∀ buf : bytes, length buf = PAGE_SIZE → decompress_page enc buf = Ret (true, page).

Lemma page_buffer (buf : bytes) : length buf = PAGE_SIZE → negb (length buf =? PAGE_SIZE)%nat = false.
Proof. intros ->. by rewrite Nat.eqb_refl. Qed.

Lemma encodes_zero n : n = PAGE_SIZE → encodes (replicate n 0) [0].
Proof.
  intros ->. split; [by repeat constructor|]. intros buf E. unfold decompress_page. rewrite page_buffer by done.
  cbn [Z.eqb length Nat.eqb]. by rewrite E.
Qed.

Lemma encodes_run n b : n = PAGE_SIZE → is_byte b → encodes (replicate n b) [1; b].
Proof.
  intros -> Hb. split; [repeat apply Forall_cons_2; [by unfold is_byte|done|apply Forall_nil_2]|].
  intros buf E. unfold decompress_page. rewrite page_buffer by done. cbn [Z.eqb Pos.eqb]. by rewrite E.
Qed.

Lemma encodes_stream p s : length p = PAGE_SIZE → is_bytes s → decodes p s 0 (length p) → encodes p (2 :: s).
Proof.
  intros Hl Hs Hd. split; [apply Forall_cons_2; [by unfold is_byte|done]|].
  intros buf E. unfold decompress_page. rewrite page_buffer by done. cbn [Z.eqb Pos.eqb].
  apply lzss_roundtrip; [done|congruence].
Qed.

Lemma encodes_raw p : length p = PAGE_SIZE → is_bytes p → encodes p (3 :: p).
Proof.
  intros Hl Hb. split; [apply Forall_cons_2; [by unfold is_byte|done]|].
  intros buf E. unfold decompress_page. rewrite page_buffer by done. cbn [Z.eqb Pos.eqb length].
  rewrite Hl. by rewrite Nat.eqb_refl.
Qed.

(** Compression always returns; the encoding is smaller than the page and is that
    of the page. *)
Lemma compress_page_ok p : length p = PAGE_SIZE → is_bytes p →
  ∃ r, compress_page p = Ret r ∧ ∀ enc, r = Some enc → (length enc < PAGE_SIZE)%nat ∧ encodes p enc.
Proof.
  intros Hl Hb. pose proof page_size_Z as PZ. unfold compress_page. rewrite Hl, Nat.eqb_refl. cbn [negb].
  destruct (forallb (λ b, b =? 0) p) eqn:Hz.
  { eexists. split; [done|]. intros enc [= <-]. split; [cbn; lia|].
    rewrite (forallb_eq_replicate p 0 Hz). by apply encodes_zero. }
  destruct p as [|a p]; [cbn in Hl; lia|]. cbn [index lookup list_lookup mbind outcome_bind drop]. rewrite drop_0.
  destruct (forallb (λ b, b =? a) p) eqn:Hr.
  { eexists. split; [done|]. intros enc [= <-]. split; [cbn; lia|].
    rewrite (forallb_eq_replicate p a Hr). apply (encodes_run (S (length p))); [done|]. by apply Forall_cons in Hb as [? _]. }
  destruct (lzss_compress_ok (a :: p)) as (s & -> & Hs & Hd); [done|lia|]. cbn [mbind outcome_bind].
  destruct (Nat.ltb_spec (1 + length s) PAGE_SIZE); [|by exists None].
  eexists. split; [done|]. intros enc [= <-]. split; [cbn; lia|]. by apply encodes_stream.
Qed.

(** C26. Every page that compresses decompresses to itself, and every chunk does. *)
Theorem page_decompresses_to_itself (p buf : bytes) :
  length p = PAGE_SIZE → is_bytes p → length buf = PAGE_SIZE →
  (∃ r, compress_page p = Ret r ∧
     ∀ enc, r = Some enc → (length enc < PAGE_SIZE)%nat ∧ decompress_page enc buf = Ret (true, p)) ∧
  (∃ enc, compress_chunk p = Ret enc ∧ (length enc ≤ 1 + PAGE_SIZE)%nat ∧
     decompress_page enc buf = Ret (true, p)).
Proof.
  intros Hl Hb Hbuf. destruct (compress_page_ok p Hl Hb) as (r & E & Hr). split.
  - exists r. split; [done|]. intros enc ->. destruct (Hr enc eq_refl) as [? [_ Hd]]. auto.
  - unfold compress_chunk. rewrite page_buffer, E by done. cbn [mbind outcome_bind]. eexists. split; [done|].
    destruct r as [enc|].
    + destruct (Hr enc eq_refl) as [? [_ Hd]]. split; [lia|by apply Hd].
    + destruct (encodes_raw p Hl Hb) as [_ Hd]. split; [cbn; lia|by apply Hd].
Qed.

(** ** Any input *)

Lemma copy_match_total n out op d : (1 ≤ d ≤ op)%nat → (op + n ≤ length out)%nat → is_bytes out →
  ∃ out', copy_match n out op d = Ret out' ∧ length out' = length out ∧ is_bytes out'.
Proof.
  revert out op. induction n as [|n IH]; intros out op Hd Hn Hb; cbn [copy_match]; [by exists out|].
  destruct (index_ok out (op - d)) as (x & -> & Hx); [lia|]. cbn [mbind outcome_bind].
  rewrite store_ok by lia. cbn [mbind outcome_bind].
  destruct (IH (<[op := x]> out) (S op)) as (out' & -> & El & Eb); [lia|rewrite length_insert; lia| |].
  - apply Forall_insert; [done|]. by apply (Forall_lookup_1 _ _ _ _ Hb Hx).
  - exists out'. by rewrite length_insert in El.
Qed.

Lemma decompress_loop_total fuel src out op : (length src ≤ fuel)%nat → (op ≤ length out)%nat →
  is_bytes src → is_bytes out →
  ∃ ok out', decompress_loop fuel src out op = Ret (ok, out') ∧ length out' = length out ∧ is_bytes out'.
Proof.
  revert src out op. induction fuel as [|fuel IH]; intros src out op Hf Ho Hs Hb.
  { destruct src; [|cbn in Hf; lia]. by eexists _, _. }
  destruct src as [|b rest]; [by eexists _, _|]. cbn [length decompress_loop] in *.
  apply Forall_cons in Hs as [Hbb Hs]. destruct (Z.land b 128 =? 0).
  - destruct (Nat.ltb_spec (length rest) (Z.to_nat b + 1)); [by eexists _, _|].
    destruct (Nat.ltb_spec (length out) (op + (Z.to_nat b + 1))); [by eexists _, _|]. cbn [orb].
    assert (Lt : length (take (Z.to_nat b + 1) rest) = (Z.to_nat b + 1)%nat) by (rewrite length_take; lia).
    rewrite copy_at_patch by lia. cbn [mbind outcome_bind].
    destruct (IH (drop (Z.to_nat b + 1) rest) (patch out op (take (Z.to_nat b + 1) rest)) (op + (Z.to_nat b + 1))%nat)
      as (ok & out' & -> & El & Eb); [rewrite length_drop; lia|rewrite length_patch; lia|by apply Forall_drop| |].
    + apply patch_bytes; [done|by apply Forall_take].
    + exists ok, out'. by rewrite length_patch in El by lia.
  - destruct rest as [|b2 rest]; [by eexists _, _|]. cbn [length] in *. apply Forall_cons in Hs as [Hb2 Hs].
    set (l := (Z.to_nat _ + MIN_MATCH)%nat). set (d := (Z.to_nat _ + 1)%nat).
    destruct (Nat.ltb_spec op d); [by eexists _, _|]. destruct (Nat.ltb_spec (length out) (op + l)); [by eexists _, _|].
    cbn [orb]. destruct (copy_match_total l out op d) as (out1 & -> & El1 & Eb1); [unfold d in *; lia|lia|done|].
    cbn [mbind outcome_bind]. destruct (IH rest out1 (op + l)%nat) as (ok & out' & -> & El & Eb); [lia|lia|done|done|].
    exists ok, out'. by rewrite El.
Qed.


(** ** Witnesses *)

(** A page that repeats one word. *)
Definition demo_page : bytes := concat (replicate (Z.to_nat 1024) [1; 2; 3; 4]).

Lemma demo_page_ok : length demo_page = PAGE_SIZE ∧ is_bytes demo_page.
Proof.
  split; [by vm_compute|]. apply Forall_concat, Forall_replicate.
  repeat apply Forall_cons_2; try apply Forall_nil_2; unfold is_byte; lia.
Qed.

Lemma page_decompresses_to_itself_witness :
  ∃ enc, compress_chunk demo_page = Ret enc ∧ decompress_page enc (replicate PAGE_SIZE 0) = Ret (true, demo_page).
Proof.
  destruct (page_decompresses_to_itself demo_page (replicate PAGE_SIZE 0) (proj1 demo_page_ok) (proj2 demo_page_ok)
              (length_replicate PAGE_SIZE 0)) as [_ (enc & E & _ & D)].
  exact (ex_intro _ enc (conj E D)).
Defined.

