(* ===== verification/FileCodec.v ===== *)
(** * Compressed files

    fs/simplefs/compression.rs: a file is encoded chunk by chunk with the page
    codec, behind a magic number, the number of chunks and their offsets; a range
    of it is decoded from the chunks it touches. *)

From stdpp Require Import base tactics decidable numbers list.
From Stdlib Require Import ZArith Lia Bool.
From S2P Require Import Prelude Bytes PageCodec.

Definition COMPRESSED_CHUNK_SIZE : nat := Z.to_nat 4096.
Definition COMPRESSED_MAGIC : Z := 1346587987.

(** [usize::div_ceil]. *)
Definition chunks_for (len : nat) : nat :=
  ((len + (COMPRESSED_CHUNK_SIZE - 1)) / COMPRESSED_CHUNK_SIZE)%nat.

(** ** Encoding *)

(** The page of chunk [index], the last one padded with zeros. *)
Definition chunk_page (contents : bytes) (index : nat) : outcome bytes :=
  let start := (index * COMPRESSED_CHUNK_SIZE)%nat in
  let end_ := Nat.min ((index + 1) * COMPRESSED_CHUNK_SIZE) (length contents) in
  copy_at (replicate COMPRESSED_CHUNK_SIZE 0) 0 (slice contents start end_).

Fixpoint encode_chunks (n index : nat) (contents : bytes) : outcome (list bytes) :=
  match n with
  | O => Ret []
  | S n =>
      page ← chunk_page contents index;
      chunk ← compress_chunk page;
      chunks ← encode_chunks n (S index) contents;
      Ret (chunk :: chunks)
  end.

(** The offsets of the chunks and, last, the end; they have to fit 32 bits. *)
Fixpoint chunk_offsets (cursor : Z) (chunks : list bytes) : outcome (list Z) :=
  match chunks with
  | [] => Ret [cursor]
  | chunk :: chunks =>
      let next := cursor + wrap32 (Z.of_nat (length chunk)) in
      if next <=? u32_max then
        offsets ← chunk_offsets next chunks; Ret (cursor :: offsets)
      else Panic
  end.

Definition encode_file (contents : bytes) : outcome bytes :=
  let chunk_count := chunks_for (length contents) in
  chunks ← encode_chunks chunk_count 0 contents;
  offsets ← chunk_offsets 0 chunks;
  Ret (to_le 4 COMPRESSED_MAGIC ++ to_le 4 (Z.of_nat chunk_count) ++
       concat (to_le 4 <$> offsets) ++ concat chunks).

(** ** Decoding *)

(** [encoded.get(base..base + 4)], read as a little-endian word. *)
Definition get_u32 (encoded : bytes) (base : nat) : option Z :=
  if (base + 4 <=? length encoded)%nat then Some (from_le (slice encoded base (base + 4))) else None.

Fixpoint read_offsets (n index : nat) (encoded : bytes) : result (list Z) :=
  match n with
  | O => Ok []
  | S n =>
      match get_u32 encoded (8 + index * 4) with
      | None => Err InvalidArgument
      | Some offset =>
          match read_offsets n (S index) encoded with
          | Ok offsets => Ok (offset :: offsets)
          | Err e => Err e
          end
      end
  end.

(** Chunk [index] decoded, and what the request [offset .. offset + count] wants
    of it copied to [out]. *)
Definition decode_chunk (encoded : bytes) (data_start : nat) (offsets : list Z)
    (offset count index_ : nat) (out : bytes) : outcome (result bytes) :=
  o1 ← index offsets index_;
  o2 ← index offsets (index_ + 1);
  let chunk_start := (data_start + Z.to_nat o1)%nat in
  let chunk_end := (data_start + Z.to_nat o2)%nat in
  if (chunk_start <=? chunk_end)%nat && (chunk_end <=? length encoded)%nat then
    '(ok, page) ← decompress_page (slice encoded chunk_start chunk_end) (replicate COMPRESSED_CHUNK_SIZE 0);
    if negb ok then Ret (Err DeviceError) else
    let chunk_logical_start := (index_ * COMPRESSED_CHUNK_SIZE)%nat in
    let chunk_logical_end := (chunk_logical_start + COMPRESSED_CHUNK_SIZE)%nat in
    let is_ := Nat.max offset chunk_logical_start in
    let ie := Nat.min (offset + count) chunk_logical_end in
    if (ie <=? is_)%nat then Ret (Ok out) else
    let src := (is_ - chunk_logical_start)%nat in
    let dst := (is_ - offset)%nat in
    let len := (ie - is_)%nat in
    out ← copy_at out dst (slice page src (src + len));
    Ret (Ok out)
  else Ret (Err InvalidArgument).

Fixpoint decode_chunks (n index_ : nat) (encoded : bytes) (data_start : nat) (offsets : list Z)
    (offset count : nat) (out : bytes) : outcome (result bytes) :=
  match n with
  | O => Ret (Ok out)
  | S n =>
      r ← decode_chunk encoded data_start offsets offset count index_ out;
      match r with
      | Ok out => decode_chunks n (S index_) encoded data_start offsets offset count out
      | Err e => Ret (Err e)
      end
  end.

(** [offset + count] is checked in debug builds. *)
Definition decode_file (encoded : bytes) (offset count : nat) : outcome (result bytes) :=
  if (length encoded <? 8)%nat then Ret (Err InvalidArgument) else
  if negb (from_le (slice encoded 0 4) =? COMPRESSED_MAGIC) then Ret (Err InvalidArgument) else
  let chunk_count := Z.to_nat (from_le (slice encoded 4 8)) in
  match checked_mul (Z.of_nat (chunk_count + 1)) 4 with
  | None => Ret (Err InvalidArgument)
  | Some table =>
      match checked_add 8 table with
      | None => Ret (Err InvalidArgument)
      | Some data_start =>
          let data_start := Z.to_nat data_start in
          if (length encoded <? data_start)%nat then Ret (Err InvalidArgument) else
          match read_offsets (chunk_count + 1) 0 encoded with
          | Err e => Ret (Err e)
          | Ok offsets =>
              if (count =? 0)%nat then Ret (Ok []) else
              let first_chunk := (offset / COMPRESSED_CHUNK_SIZE)%nat in
              if u64_max <? Z.of_nat (offset + count) then Panic else
              let last_chunk := chunks_for (offset + count) in
              if (chunk_count <? last_chunk)%nat then Ret (Err InvalidArgument) else
              decode_chunks (last_chunk - first_chunk) first_chunk encoded data_start offsets
                offset count (replicate count 0)
          end
      end
  end.

#[global] Arguments COMPRESSED_CHUNK_SIZE : simpl never.
