(* ===== verification/FileCodecTheorems.v ===== *)
(** * Theorems on compressed files

    A range of an encoded file decodes to that range of its contents; ranges past
    the last chunk are refused. *)

From stdpp Require Import base tactics decidable numbers list.
From Stdlib Require Import ZArith Lia Bool.
From S2P Require Import Prelude Bytes Patch PageCodec PageCodecTheorems FileCodec.

(** ** Pieces of concatenations *)

(** Piece [i] of pieces of one size. *)
Lemma slice_concat_fixed {A} (f : A → bytes) (k : nat) (l : list A) i x :
  (∀ y, length (f y) = k) → l !! i = Some x → slice (concat (f <$> l)) (i * k) (i * k + k) = f x.
Proof.
  intros Hf. revert i. induction l as [|y l IH]; intros [|i] Hx; try done; cbn [fmap list_fmap concat].
  - injection Hx as ->. apply slice_prefix. by rewrite Hf.
  - replace (S i * k)%nat with (k + i * k)%nat by lia. rewrite <- Nat.add_assoc, <- slice_drop.
    rewrite drop_app_length' by done. by apply IH.
Qed.

Lemma length_concat_fixed {A} (f : A → bytes) (k : nat) (l : list A) :
  (∀ y, length (f y) = k) → length (concat (f <$> l)) = (length l * k)%nat.
Proof. intros Hf. induction l as [|y l IH]; [done|]. cbn [fmap list_fmap concat length]. rewrite length_app, IH, Hf. lia. Qed.

(** Piece [i] of pieces of any size lies behind those before it. *)
Lemma slice_concat (l : list bytes) i c : l !! i = Some c →
  slice (concat l) (length (concat (take i l))) (length (concat (take (S i) l))) = c ∧
  length (concat (take (S i) l)) = (length (concat (take i l)) + length c)%nat.
Proof.
  revert i. induction l as [|d l IH]; intros [|i] Hc; try done.
  - injection Hc as ->. cbn. rewrite app_nil_r. split; [by apply slice_prefix|done].
  - destruct (IH i Hc) as [E1 E2]. cbn [take concat]. rewrite !length_app. split; [|cbn [take concat] in E2; lia].
    rewrite <- slice_drop, drop_app_length. exact E1.
Qed.

Lemma concat_take_le (l : list bytes) i : (length (concat (take i l)) ≤ length (concat l))%nat.
Proof. rewrite <- (take_drop i l) at 2. rewrite concat_app, length_app. lia. Qed.

(** ** The pages of a file *)

Lemma chunk_size_Z : Z.of_nat COMPRESSED_CHUNK_SIZE = 4096.
Proof. done. Qed.

Lemma chunk_size_page : COMPRESSED_CHUNK_SIZE = PAGE_SIZE.
Proof. done. Qed.

Lemma chunks_for_bounds n : (chunks_for n * COMPRESSED_CHUNK_SIZE < n + COMPRESSED_CHUNK_SIZE)%nat ∧
  (n ≤ chunks_for n * COMPRESSED_CHUNK_SIZE)%nat.
Proof.
  unfold chunks_for. pose proof chunk_size_Z. set (k := COMPRESSED_CHUNK_SIZE) in *. clearbody k.
  pose proof (Nat.div_mod (n + (k - 1)) k ltac:(lia)). pose proof (Nat.mod_upper_bound (n + (k - 1)) k ltac:(lia)). nia.
Qed.

Section File.
Context (contents : bytes) (Hbytes : is_bytes contents).

(** The contents, padded to whole chunks. *)
Definition padded : bytes := contents ++ replicate (chunks_for (length contents) * COMPRESSED_CHUNK_SIZE - length contents) 0.

Definition page_of (i : nat) : bytes := slice padded (i * COMPRESSED_CHUNK_SIZE) ((i + 1) * COMPRESSED_CHUNK_SIZE).

Lemma length_padded : length padded = (chunks_for (length contents) * COMPRESSED_CHUNK_SIZE)%nat.
Proof. unfold padded. rewrite length_app, length_replicate. pose proof (chunks_for_bounds (length contents)). lia. Qed.

Lemma padded_bytes : is_bytes padded.
Proof. apply is_bytes_app. split; [done|]. by apply Forall_replicate. Qed.

Lemma padded_lookup j : (j < length padded)%nat →
  padded !! j = if decide (j < length contents)%nat then contents !! j else Some 0.
Proof.
  intros H. unfold padded in *. rewrite length_app, length_replicate in H. case_decide.
  - by apply lookup_app_l.
  - rewrite lookup_app_r by lia. apply lookup_replicate_2. lia.
Qed.

Lemma length_page_of i : (i < chunks_for (length contents))%nat → length (page_of i) = PAGE_SIZE.
Proof.
  intros H. unfold page_of. rewrite length_slice; [rewrite <- chunk_size_page; lia|lia|].
  rewrite length_padded. pose proof chunk_size_Z. nia.
Qed.

Lemma chunk_page_ok i : (i < chunks_for (length contents))%nat → chunk_page contents i = Ret (page_of i).
Proof.
  intros Hi. unfold chunk_page. pose proof (chunks_for_bounds (length contents)) as [B1 B2]. pose proof chunk_size_Z as CZ.
  pose proof length_padded as LP. pose proof (length_page_of i Hi) as LPi. rewrite <- chunk_size_page in LPi.
  assert (Hin : (i * COMPRESSED_CHUNK_SIZE < length contents)%nat) by nia.
  set (k := COMPRESSED_CHUNK_SIZE) in *. set (e := Nat.min ((i + 1) * k) (length contents)).
  assert (Ls : length (slice contents (i * k) e) = (e - i * k)%nat) by (apply length_slice; lia).
  rewrite copy_at_patch by (rewrite length_replicate; lia). f_equal. apply list_eq. intros j.
  destruct (decide (j < k)%nat) as [Hj|Hj]; cycle 1.
  { rewrite !lookup_ge_None_2; [done|lia|rewrite length_patch, length_replicate by (rewrite length_replicate; lia); lia]. }
  rewrite patch_lookup by (rewrite length_replicate; lia). unfold page_of, covers. fold k. rewrite Ls, !slice_lookup.
  rewrite (decide_True (P := (j < (i + 1) * k - i * k)%nat)) by lia.
  rewrite padded_lookup by nia. repeat case_decide; try lia.
  - f_equal. lia.
  - apply lookup_replicate_2. lia.
Qed.

(** ** The encoded file *)

(** [chunks] are encodings of the pages from [index] on. *)
Definition chunks_of (index : nat) (chunks : list bytes) : Prop :=
  ∀ j c, chunks !! j = Some c → encodes (page_of (index + j)) c ∧ (length c ≤ 1 + PAGE_SIZE)%nat.

Lemma compress_chunk_ok p : length p = PAGE_SIZE → is_bytes p →
  ∃ c, compress_chunk p = Ret c ∧ encodes p c ∧ (length c ≤ 1 + PAGE_SIZE)%nat.
Proof.
  intros Hl Hb. destruct (compress_page_ok p Hl Hb) as (r & E & Hr). unfold compress_chunk.
  rewrite page_buffer, E by done. cbn [mbind outcome_bind]. eexists. split; [done|]. destruct r as [enc|].
  - destruct (Hr enc eq_refl). split; [done|lia].
  - split; [by apply encodes_raw|cbn; lia].
Qed.

Lemma encode_chunks_ok n index : (index + n ≤ chunks_for (length contents))%nat →
  ∃ chunks, encode_chunks n index contents = Ret chunks ∧ length chunks = n ∧ chunks_of index chunks.
Proof.
  revert index. induction n as [|n IH]; intros i Hi; cbn [encode_chunks].
  { exists []. split; [done|]. split; [done|]. by intros j c. }
  rewrite chunk_page_ok by lia. cbn [mbind outcome_bind].
  destruct (compress_chunk_ok (page_of i)) as (c & -> & Hc & Hl); [apply length_page_of; lia|apply slice_bytes, padded_bytes|].
  cbn [mbind outcome_bind]. destruct (IH (S i) ltac:(lia)) as (cs & -> & Hn & Hcs). cbn [mbind outcome_bind].
  exists (c :: cs). split; [done|]. split; [cbn; lia|]. intros [|j] d Hd; cbn in Hd.
  - injection Hd as <-. by rewrite Nat.add_0_r.
  - replace (i + S j)%nat with (S i + j)%nat by lia. by apply Hcs.
Qed.

Lemma chunks_size index chunks : chunks_of index chunks →
  Z.of_nat (length (concat chunks)) ≤ 4097 * Z.of_nat (length chunks).
Proof.
  revert index. induction chunks as [|c cs IH]; intros i H; [done|]. cbn [concat length]. rewrite length_app.
  destruct (H 0%nat c eq_refl) as [_ Hl]. assert (Hcs : chunks_of (S i) cs).
  { intros j d Hd. replace (S i + j)%nat with (i + S j)%nat by lia. by apply H. }
  specialize (IH (S i) Hcs). pose proof page_size_Z. lia.
Qed.
End File.

Lemma chunk_offsets_ok cursor chunks : 0 ≤ cursor → cursor + Z.of_nat (length (concat chunks)) ≤ u32_max →
  ∃ offs, chunk_offsets cursor chunks = Ret offs ∧ length offs = S (length chunks) ∧
    ∀ j, (j ≤ length chunks)%nat → offs !! j = Some (cursor + Z.of_nat (length (concat (take j chunks)))).
Proof.
  revert cursor. induction chunks as [|c cs IH]; intros cursor H0 Hm; cbn [chunk_offsets concat] in *.
  { exists [cursor]. split; [done|]. split; [done|]. intros [|j] Hj; cbn in *; [f_equal; lia|lia]. }
  rewrite length_app in Hm. unfold wrap32. rewrite Z.mod_small by (unfold u32_max in *; lia).
  destruct (Z.leb_spec (cursor + Z.of_nat (length c)) u32_max); [|lia].
  destruct (IH (cursor + Z.of_nat (length c))) as (offs & -> & Hl & Ho); [lia|lia|]. cbn [mbind outcome_bind].
  exists (cursor :: offs). split; [done|]. split; [cbn; lia|]. intros [|j] Hj; cbn [lookup list_lookup take concat length] in *.
  - f_equal. lia.
  - rewrite length_app, Ho by lia. f_equal. lia.
Qed.

(** The offsets are read back. *)
Lemma read_offsets_ok n i hd offs tl : length hd = 8%nat → (i + n ≤ length offs)%nat → Forall word32 offs →
  read_offsets n i (hd ++ concat (to_le 4 <$> offs) ++ tl) = Ok (take n (drop i offs)).
Proof.
  intros Hh. revert i. induction n as [|n IH]; intros i Hi Hw; cbn [read_offsets]; [done|].
  destruct (lookup_lt_is_Some_2 offs i ltac:(lia)) as [o Ho].
  pose proof (length_concat_fixed (to_le 4) 4 offs (length_to_le 4)) as Lc.
  assert (Eg : get_u32 (hd ++ concat (to_le 4 <$> offs) ++ tl) (8 + i * 4) = Some o).
  { unfold get_u32. rewrite (proj2 (Nat.leb_le _ _)) by (rewrite !length_app; lia). f_equal.
    rewrite <- Nat.add_assoc, <- slice_drop, drop_app_length' by done.
    rewrite <- (slice_take _ (length (concat (to_le 4 <$> offs)))) by lia. rewrite take_app_length.
    rewrite (slice_concat_fixed (to_le 4) 4 offs i o) by (done || apply length_to_le).
    rewrite from_le_to_le. apply Z.mod_small. by apply (Forall_lookup_1 _ _ _ _ Hw Ho). }
  rewrite Eg, IH by (done || lia). by rewrite (drop_S _ _ _ Ho).
Qed.

(** ** Decoding a range *)

Section Decode.
Context (contents : bytes) (Hbytes : is_bytes contents).
Context (chunks : list bytes) (Hchunks : chunks_of contents 0 chunks)
  (Hn : length chunks = chunks_for (length contents)).
Context (hd : bytes) (offs : list Z) (data_start : nat) (Hds : length hd = data_start)
  (Hoffs : ∀ j, (j ≤ length chunks)%nat → offs !! j = Some (Z.of_nat (length (concat (take j chunks))))).
Context (offset count : nat) (Hcount : (offset + count ≤ length chunks * COMPRESSED_CHUNK_SIZE)%nat).

(** The bytes of the range up to position [k] of the file are in the buffer. *)
Definition filled (k : nat) (out : bytes) : Prop :=
  length out = count ∧
  ∀ j, (j < count)%nat →
    out !! j = if decide (offset + j < k)%nat then padded contents !! (offset + j)%nat else Some 0.

Lemma decode_chunk_ok i out : (i < length chunks)%nat → filled (i * COMPRESSED_CHUNK_SIZE) out →
  ∃ out', decode_chunk (hd ++ concat chunks) data_start offs offset count i out = Ret (Ok out') ∧
    filled ((i + 1) * COMPRESSED_CHUNK_SIZE) out'.
Proof.
  intros Hi [Lo Ho]. pose proof chunk_size_Z as CZ. unfold decode_chunk, index. rewrite !Hoffs by lia. cbn [mbind outcome_bind].
  destruct (lookup_lt_is_Some_2 chunks i Hi) as [c Hc]. destruct (Hchunks i c Hc) as [[_ Henc] _].
  destruct (slice_concat chunks i c Hc) as [Es El]. rewrite !Nat2Z.id, Nat.add_1_r.
  pose proof (concat_take_le chunks (S i)) as Hle.
  rewrite (proj2 (Nat.leb_le _ _)) by lia. rewrite (proj2 (Nat.leb_le _ _)) by (rewrite length_app; lia). cbn [andb].
  rewrite <- slice_drop, drop_app_length', Es by done.
  rewrite Henc by (rewrite length_replicate; apply chunk_size_page). cbn [mbind outcome_bind negb Nat.add].
  pose proof (length_page_of contents i ltac:(lia)) as Lp. rewrite <- chunk_size_page in Lp.
  pose proof (length_padded contents) as LP.
  set (k := COMPRESSED_CHUNK_SIZE) in *. set (is_ := Nat.max offset (i * k)). set (ie := Nat.min (offset + count) (i * k + k)).
  destruct (Nat.leb_spec ie is_) as [Hle'|Hlt].
  { exists out. split; [done|]. split; [done|]. intros j Hj. rewrite Ho by done.
    repeat case_decide; try lia; try done. }
  set (data := slice (page_of contents i) _ _).
  assert (Ld : length data = (ie - is_)%nat) by (unfold data; rewrite length_slice; lia).
  rewrite copy_at_patch by lia. cbn [mbind outcome_bind]. eexists. split; [done|].
  split; [rewrite length_patch; lia|]. intros j Hj. rewrite patch_lookup by lia. unfold covers. rewrite Ld.
  case_decide as Hc'.
  - rewrite decide_True by lia. unfold data. rewrite slice_lookup, decide_True by lia.
    unfold page_of. fold k. rewrite slice_lookup, decide_True by lia. f_equal. lia.
  - rewrite Ho by done. repeat case_decide; try lia; done.
Qed.

Lemma decode_chunks_ok n i out : (i + n ≤ length chunks)%nat → filled (i * COMPRESSED_CHUNK_SIZE) out →
  ∃ out', decode_chunks n i (hd ++ concat chunks) data_start offs offset count out = Ret (Ok out') ∧
    filled ((i + n) * COMPRESSED_CHUNK_SIZE) out'.
Proof.
  revert i out. induction n as [|n IH]; intros i out Hi Hf; cbn [decode_chunks].
  { exists out. by rewrite Nat.add_0_r. }
  destruct (decode_chunk_ok i out) as (out1 & -> & Hf1); [lia|done|]. cbn [mbind outcome_bind].
  destruct (IH (S i) out1) as (out2 & -> & Hf2); [lia|by rewrite <- Nat.add_1_r|].
  exists out2. by replace (i + S n)%nat with (S i + n)%nat by lia.
Qed.

Lemma filled_all k out : (offset + count ≤ k)%nat → filled k out → out = slice (padded contents) offset (offset + count).
Proof using Type.
  clear Hchunks Hn Hds Hoffs Hcount. intros Hk [Lo Ho]. apply list_eq. intros j. rewrite slice_lookup. case_decide.
  - rewrite Ho by lia. by rewrite decide_True by lia.
  - apply lookup_ge_None_2. lia.
Qed.

Lemma filled_none k : (k ≤ offset)%nat → filled k (replicate count 0).
Proof using Type.
  clear Hchunks Hn Hds Hoffs Hcount. intros Hk. split; [apply length_replicate|]. intros j Hj. rewrite decide_False by lia. by apply lookup_replicate_2.
Qed.
End Decode.

(** ** Reading back *)

(** What [decode_file] answers for a range of the padded contents. *)
Definition range_of (contents : bytes) (offset count : nat) : result bytes :=
  if (count =? 0)%nat then Ok [] else
  if (offset + count <=? chunks_for (length contents) * COMPRESSED_CHUNK_SIZE)%nat
  then Ok (slice (padded contents) offset (offset + count)) else Err InvalidArgument.

Lemma chunks_for_mono a k : (a ≤ k * COMPRESSED_CHUNK_SIZE)%nat ↔ (chunks_for a ≤ k)%nat.
Proof. pose proof (chunks_for_bounds a). pose proof chunk_size_Z. split; nia. Qed.

Lemma decode_encoded contents chunks offs offset count :
  is_bytes contents → Z.of_nat (length contents) ≤ 2 ^ 31 →
  chunks_of contents 0 chunks → length chunks = chunks_for (length contents) → length offs = S (length chunks) →
  Forall word32 offs →
  (∀ j, (j ≤ length chunks)%nat → offs !! j = Some (Z.of_nat (length (concat (take j chunks))))) →
  Z.of_nat (offset + count) ≤ u64_max →
  decode_file (to_le 4 COMPRESSED_MAGIC ++ to_le 4 (Z.of_nat (length chunks)) ++
    concat (to_le 4 <$> offs) ++ concat chunks) offset count = Ret (range_of contents offset count).
Proof.
  intros Hb Hl Hch Hn Lo Hw Ho Hoc. pose proof (chunks_for_bounds (length contents)) as [B1 B2]. pose proof chunk_size_Z as CZ.
  assert (Hc32 : Z.of_nat (length chunks) < 2 ^ 32) by (rewrite Hn; lia).
  set (hd8 := to_le 4 COMPRESSED_MAGIC ++ to_le 4 (Z.of_nat (length chunks))).
  assert (L8 : length hd8 = 8%nat) by done.
  pose proof (length_concat_fixed (to_le 4) 4 offs (length_to_le 4)) as Lc.
  set (enc := _ ++ _ ++ _ ++ concat chunks). assert (Ee : enc = hd8 ++ concat (to_le 4 <$> offs) ++ concat chunks).
  { unfold enc, hd8. by rewrite <- app_assoc. }
  assert (Le : length enc = (8 + length offs * 4 + length (concat chunks))%nat) by (rewrite Ee, !length_app; lia).
  unfold decode_file. rewrite (proj2 (Nat.ltb_ge _ _)) by lia.
  assert (E1 : from_le (slice enc 0 4) = COMPRESSED_MAGIC).
  { unfold enc. by rewrite slice_prefix by apply length_to_le. }
  assert (E2 : from_le (slice enc 4 8) = Z.of_nat (length chunks)).
  { transitivity (from_le (slice (drop 4 enc) 0 4)); [by rewrite slice_drop|].
    unfold enc. rewrite drop_app_length' by done.
    rewrite slice_prefix, from_le_to_le by apply length_to_le. apply Z.mod_small. lia. }
  rewrite E1, E2, Z.eqb_refl, Nat2Z.id. cbn [negb]. unfold checked_mul, checked_add.
  destruct (Z.leb_spec (Z.of_nat (length chunks + 1) * 4) u64_max); [|unfold u64_max in *; lia].
  destruct (Z.leb_spec (8 + Z.of_nat (length chunks + 1) * 4) u64_max); [|unfold u64_max in *; lia].
  replace (Z.to_nat (8 + Z.of_nat (length chunks + 1) * 4)) with (8 + length offs * 4)%nat by lia.
  rewrite (proj2 (Nat.ltb_ge _ _)) by lia. rewrite Ee, read_offsets_ok by (done || lia).
  unfold range_of. destruct (count =? 0)%nat eqn:Ec; [done|]. apply Nat.eqb_neq in Ec.
  destruct (Z.ltb_spec u64_max (Z.of_nat (offset + count))); [lia|].
  rewrite take_ge by (rewrite length_drop; lia). rewrite drop_0, <- Hn.
  destruct (Nat.leb_spec (offset + count) (length chunks * COMPRESSED_CHUNK_SIZE)) as [Hin|Hout]; cycle 1.
  { rewrite (proj2 (Nat.ltb_lt _ _)); [done|]. apply Nat.nle_gt. rewrite <- chunks_for_mono. lia. }
  rewrite (proj2 (Nat.ltb_ge _ _)) by (by apply chunks_for_mono).
  rewrite app_assoc.
  pose proof (proj1 (chunks_for_mono _ _) Hin) as Hlast. pose proof (chunks_for_bounds (offset + count)) as [_ Hend].
  assert (Hfirst : (offset / COMPRESSED_CHUNK_SIZE * COMPRESSED_CHUNK_SIZE ≤ offset)%nat).
  { pose proof (Nat.div_mod offset COMPRESSED_CHUNK_SIZE ltac:(lia)). lia. }
  assert (Hfl : (offset / COMPRESSED_CHUNK_SIZE ≤ chunks_for (offset + count))%nat) by nia.
  destruct (decode_chunks_ok contents chunks Hch Hn (hd8 ++ concat (to_le 4 <$> offs)) offs (8 + length offs * 4)
    ltac:(rewrite length_app; lia) Ho offset count Hin (chunks_for (offset + count) - offset / COMPRESSED_CHUNK_SIZE)
    (offset / COMPRESSED_CHUNK_SIZE) (replicate count 0)) as (out & -> & Hf); [lia|by apply filled_none|].
  rewrite <- Nat.le_add_sub in Hf by done. by rewrite (filled_all contents offset count _ _ Hend Hf).
Qed.


(** ** Witness *)

