(* ===== verification/Ipv4.v ===== *)
(** * IPv4: the internet checksum and the packet format

    network/internet/ipv4.rs.  A byte slice is a list of integers in [0, 256).
    [checksum_add] and [checksum_finalize] are the running RFC 791 checksum on a
    32-bit accumulator; [parse_packet] and [build_packet] read and write the
    header.  The main results: the fold loop of [checksum_finalize] ends after
    two rounds, inserting a checksum makes the covered bytes verify, and
    parsing what was built gives the header and the payload back. *)

From stdpp Require Import base tactics decidable numbers list.
From Stdlib Require Import ZArith Lia Bool.
From S2P Require Import Prelude Bytes.

(** ** The checksum *)

Fixpoint checksum_add (sum : Z) (data : bytes) : Z :=
  match data with
  | a :: b :: rest => checksum_add (wrap32 (sum + be16 a b)) rest
  | [a] => wrap32 (sum + be16 a 0)
  | [] => sum
  end.

(** The [while sum >> 16 != 0] loop, cut after [fuel] rounds. *)
Fixpoint checksum_fold (fuel : nat) (sum : Z) : Z :=
  match fuel with
  | O => sum
  | S fuel =>
      if Z.shiftr sum 16 =? 0 then sum
      else checksum_fold fuel (Z.land sum 65535 + Z.shiftr sum 16)
  end.

Definition fold_rounds : nat := 3.

Definition checksum_finalize (sum : Z) : Z :=
  65535 - wrap16 (checksum_fold fold_rounds sum).

Definition compute_checksum (data : bytes) : Z := checksum_finalize (checksum_add 0 data).

Notation Ipv4Addr := bytes.

Definition pseudo_header (source destination : Ipv4Addr) (protocol segment_len : Z) : bytes :=
  [byte source 0; byte source 1; byte source 2; byte source 3;
   byte destination 0; byte destination 1; byte destination 2; byte destination 3;
   0; protocol; Z.shiftr segment_len 8 mod 256; segment_len mod 256].

Definition pseudo_header_checksum_add
    (sum : Z) (source destination : Ipv4Addr) (protocol segment_len : Z) : Z :=
  checksum_add sum (pseudo_header source destination protocol segment_len).

(** ** The packet *)

Inductive IpProtocol :=
| Icmp | Igmp | Tcp | Udp | Dccp | Esp | Ah | Sctp | UnknownProtocol (value : Z).

Definition from_u8 (value : Z) : IpProtocol :=
  match value with
  | 1 => Icmp | 2 => Igmp | 6 => Tcp | 17 => Udp | 33 => Dccp
  | 50 => Esp | 51 => Ah | 132 => Sctp
  | other => UnknownProtocol other
  end.

Definition to_u8 (p : IpProtocol) : Z :=
  match p with
  | Icmp => 1 | Igmp => 2 | Tcp => 6 | Udp => 17 | Dccp => 33
  | Esp => 50 | Ah => 51 | Sctp => 132
  | UnknownProtocol v => v
  end.

Record Ipv4Header := mkIpv4Header {
  total_length : Z;
  identification : Z;
  flags_fragment_offset : Z;
  ttl : Z;
  protocol : IpProtocol;
  header_checksum : Z;
  source : Ipv4Addr;
  destination : Ipv4Addr
}.

Record Ipv4Packet := mkIpv4Packet {
  packet_header : Ipv4Header;
  packet_payload : bytes
}.

Definition IPV4_MIN_HEADER_SIZE : nat := 20.
Definition IPV4_VERSION_IHL : Z := 69.
Definition IP_FLAG_DF : Z := 16384.

Definition parse_packet (data : bytes) : result Ipv4Packet :=
  if decide (length data < IPV4_MIN_HEADER_SIZE)%nat then Err InvalidArgument else
  let version_ihl := byte data 0 in
  let version := Z.shiftr version_ihl 4 in
  let ihl := Z.land version_ihl 15 in
  if negb (version =? 4) then Err Unsupported else
  if ihl <? 5 then Err Unsupported else
  let header_len := (Z.to_nat ihl * 4)%nat in
  if decide (length data < header_len)%nat then Err InvalidArgument else
  let total_length := be16 (byte data 2) (byte data 3) in
  if decide (length data < Z.to_nat total_length)%nat then Err InvalidArgument else
  let header_checksum := be16 (byte data 10) (byte data 11) in
  if negb (compute_checksum (slice data 0 header_len) =? 0) then Err DeviceError else
  let payload_end := Z.to_nat total_length in
  let payload :=
    if decide (header_len < payload_end)%nat
    then slice data header_len (payload_end `min` length data) else [] in
  Ok (mkIpv4Packet
    (mkIpv4Header total_length (be16 (byte data 4) (byte data 5))
       (be16 (byte data 6) (byte data 7)) (byte data 8) (from_u8 (byte data 9))
       header_checksum (slice data 12 16) (slice data 16 20))
    payload).

(** The packet before its checksum is filled in. *)
Definition unsummed_packet (header : Ipv4Header) (payload : bytes) : bytes :=
  let total_length := wrap16 (Z.of_nat (IPV4_MIN_HEADER_SIZE + length payload)) in
  let flags_fo := Z.lor IP_FLAG_DF (Z.land (flags_fragment_offset header) 8191) in
  [IPV4_VERSION_IHL; 0] ++ to_be16 total_length ++ to_be16 (identification header) ++
  to_be16 flags_fo ++ [ttl header; to_u8 (protocol header)] ++ [0; 0] ++
  source header ++ destination header ++ payload.

(** [buf[i] = (checksum >> 8) as u8; buf[i + 1] = checksum as u8]. *)
Definition put_checksum (i : nat) (checksum : Z) (buf : bytes) : bytes :=
  <[S i := checksum mod 256]> (<[i := Z.shiftr checksum 8 mod 256]> buf).

Definition build_packet (header : Ipv4Header) (payload : bytes) : bytes :=
  let buf := unsummed_packet header payload in
  put_checksum 10 (compute_checksum (slice buf 0 IPV4_MIN_HEADER_SIZE)) buf.

(** ** The sum of the words of a slice *)

Fixpoint word_sum (data : bytes) : Z :=
  match data with
  | a :: b :: rest => be16 a b + word_sum rest
  | [a] => be16 a 0
  | [] => 0
  end.

(** Induction two bytes at a time. *)
Lemma pair_ind {A} (P : list A → Prop) :
  P [] → (∀ a, P [a]) → (∀ a b l, P l → P (a :: b :: l)) → ∀ l, P l.
Proof.
  intros H0 H1 H2. fix IH 1. intros [|a [|b l]]; [exact H0|apply H1|apply H2, IH].
Qed.

Lemma word_sum_bound data :
  is_bytes data → 0 ≤ word_sum data ≤ 32768 * Z.of_nat (length data) + 32768.
Proof.
  unfold is_bytes. induction data as [|a|a b l IH] using pair_ind; simpl; [lia| |].
  - intros [Ha _]%Forall_cons. unfold is_byte, be16 in *. lia.
  - intros [Ha [Hb Hl]%Forall_cons]%Forall_cons. specialize (IH Hl).
    pose proof (be16_bound a b Ha Hb). lia.
Qed.

Lemma word_sum_app l1 l2 :
  Nat.even (length l1) = true → word_sum (l1 ++ l2) = word_sum l1 + word_sum l2.
Proof. induction l1 as [|a|a b l IH] using pair_ind; simpl; intros H; [done|done|]. rewrite IH; [lia|done]. Qed.

Lemma checksum_add_small sum data :
  is_bytes data → 0 ≤ sum → sum + word_sum data < 2 ^ 32 →
  checksum_add sum data = sum + word_sum data.
Proof.
  revert sum. unfold is_bytes. induction data as [|a|a b l IH] using pair_ind; simpl; intros sum Hb Hs Hw.
  - lia.
  - apply Forall_cons in Hb as [Ha _]. unfold wrap32. apply Z.mod_small.
    unfold is_byte, be16 in *. lia.
  - apply Forall_cons in Hb as [Ha [Hb Hl]%Forall_cons].
    pose proof (be16_bound a b Ha Hb). pose proof (word_sum_bound l Hl).
    unfold wrap32. rewrite Z.mod_small by lia. rewrite IH by (done || lia). lia.
Qed.

(** ** Folding the carries *)

Lemma fold_round s : 0 ≤ s →
  Z.land s 65535 + Z.shiftr s 16 = s - 65535 * (s / 65536).
Proof.
  intros Hs. change 65535 with (Z.ones 16) at 1. rewrite Z.land_ones, Z.shiftr_div_pow2 by lia.
  change (2 ^ 16) with 65536. pose proof (Z.div_mod s 65536). lia.
Qed.

(** The fold of a 32-bit sum ends within its rounds, keeps the sum modulo
    [65535], and is zero only for a zero sum. *)
Lemma checksum_fold_spec s : 0 ≤ s < 2 ^ 32 →
  0 ≤ checksum_fold fold_rounds s < 65536 ∧
  (∃ k, 0 ≤ k ∧ s = checksum_fold fold_rounds s + 65535 * k) ∧
  (checksum_fold fold_rounds s = 0 → s = 0).
Proof.
  assert (G : ∀ n t, 0 ≤ t < 65536 → checksum_fold n t = t).
  { intros [|n] t Ht; simpl; [done|]. rewrite Z.shiftr_div_pow2, (Z.div_small t) by lia. done. }
  assert (R : ∀ n t, 0 ≤ t → checksum_fold (S n) t = checksum_fold n (t - 65535 * (t / 65536)) ∨
              (0 ≤ t < 65536 ∧ checksum_fold (S n) t = t)).
  { intros n t Ht. simpl. rewrite <- fold_round by done.
    destruct (Z.eqb_spec (Z.shiftr t 16) 0) as [E|E]; [right|by left].
    split; [|done]. rewrite Z.shiftr_div_pow2 in E by lia. change (2 ^ 16) with 65536 in E.
    pose proof (Z.div_mod t 65536). pose proof (Z.mod_pos_bound t 65536). lia. }
  assert (Q : ∀ t, 0 ≤ t → 0 ≤ t / 65536 ∧ 0 ≤ t - 65535 * (t / 65536) ∧
    65536 * (t / 65536) ≤ t < 65536 * (t / 65536) + 65536).
  { intros t Ht. pose proof (Z.div_mod t 65536). pose proof (Z.mod_pos_bound t 65536).
    assert (0 ≤ t / 65536) by (apply Z.div_pos; lia). lia. }
  intros Hs. unfold fold_rounds.
  destruct (R 2%nat s ltac:(lia)) as [->|[? ->]]; [|split; [lia|split; [exists 0; lia|lia]]].
  pose proof (Q s ltac:(lia)) as Q1. set (s1 := s - 65535 * (s / 65536)) in *.
  destruct (R 1%nat s1 ltac:(lia)) as [->|[? ->]];
    [|split; [lia|split; [exists (s / 65536); lia|lia]]].
  pose proof (Q s1 ltac:(lia)) as Q2. set (s2 := s1 - 65535 * (s1 / 65536)) in *.
  assert (0 ≤ s2 < 65536) as B by lia. rewrite (G 1%nat s2 B).
  split; [lia|split; [exists (s / 65536 + s1 / 65536); lia|lia]].
Qed.

Lemma checksum_finalize_bound s : 0 ≤ s < 2 ^ 32 → 0 ≤ checksum_finalize s < 65536.
Proof.
  intros Hs. destruct (checksum_fold_spec s Hs) as [B _]. unfold checksum_finalize, wrap16.
  rewrite Z.mod_small by (change (2 ^ 16) with 65536; lia). lia.
Qed.

(** A sum plus its own checksum verifies. *)
Lemma checksum_verifies s : 0 ≤ s → s + 65535 < 2 ^ 32 →
  checksum_finalize (s + checksum_finalize s) = 0.
Proof.
  intros H0 H1. pose proof (checksum_fold_spec s ltac:(lia)) as (B & (k & Hk & E) & Z0).
  pose proof (checksum_finalize_bound s ltac:(lia)) as Bc.
  assert (Ec : checksum_finalize s = 65535 - checksum_fold fold_rounds s).
  { unfold checksum_finalize, wrap16. rewrite Z.mod_small; [done|]. change (2 ^ 16) with 65536. lia. }
  pose proof (checksum_fold_spec (s + checksum_finalize s) ltac:(lia)) as (B' & (k' & Hk' & E') & Z').
  unfold checksum_finalize at 1, wrap16. rewrite Z.mod_small by (change (2 ^ 16) with 65536; lia).
  rewrite Ec in *. set (f := checksum_fold fold_rounds s) in *.
  set (g := checksum_fold fold_rounds _) in *. destruct (decide (g = 0)); lia.
Qed.

(** ** Filling in a checksum *)

Lemma put_checksum_middle pre post c :
  put_checksum (length pre) c (pre ++ [0; 0] ++ post) = pre ++ to_be16 c ++ post.
Proof.
  unfold put_checksum. induction pre as [|x pre IH]; simpl; [done|]. f_equal. apply IH.
Qed.

Lemma word_sum_to_be16 pre post c :
  Nat.even (length pre) = true → 0 ≤ c < 65536 →
  word_sum (pre ++ to_be16 c ++ post) = word_sum (pre ++ [0; 0] ++ post) + c.
Proof. intros He Hc. rewrite !word_sum_app by done. simpl. rewrite be16_split by done. unfold be16. lia. Qed.

(** Bytes whose checksum field was zero when the sum was taken verify once the
    checksum is filled in, together with what was summed before them. *)
Lemma checksum_inserted sum pre post :
  is_bytes pre → is_bytes post → Nat.even (length pre) = true →
  0 ≤ sum < 2 ^ 24 → Z.of_nat (length (pre ++ [0; 0] ++ post)) ≤ 2 ^ 16 →
  let buf := pre ++ [0; 0] ++ post in
  let c := checksum_finalize (checksum_add sum buf) in
  0 ≤ c < 65536 ∧ checksum_finalize (checksum_add sum (pre ++ to_be16 c ++ post)) = 0.
Proof.
  intros Hpre Hpost He Hs Hl buf c.
  assert (Hb : is_bytes buf).
  { unfold buf. rewrite !is_bytes_app. split_and!; [done| |done].
    by repeat constructor. }
  pose proof (word_sum_bound buf Hb) as Hw. fold buf in Hl.
  assert (Ea : checksum_add sum buf = sum + word_sum buf) by (apply checksum_add_small; [done|lia..]).
  assert (Hc : 0 ≤ c < 65536) by (apply checksum_finalize_bound; lia).
  split; [done|]. rewrite checksum_add_small.
  - rewrite word_sum_to_be16 by done. fold buf. rewrite Z.add_assoc, <- Ea. apply checksum_verifies; lia.
  - rewrite !is_bytes_app. auto using to_be16_bytes.
  - lia.
  - rewrite word_sum_to_be16 by done. fold buf. lia.
Qed.

(** ** The header that goes out, and its round trip *)

Record header_ok (h : Ipv4Header) : Prop := {
  ok_identification : 0 ≤ identification h < 65536;
  ok_flags : 0 ≤ flags_fragment_offset h < 65536;
  ok_ttl : is_byte (ttl h);
  ok_protocol : is_byte (to_u8 (protocol h));
  ok_source : length (source h) = 4%nat ∧ is_bytes (source h);
  ok_destination : length (destination h) = 4%nat ∧ is_bytes (destination h)
}.

Definition sent_flags (h : Ipv4Header) : Z :=
  Z.lor IP_FLAG_DF (Z.land (flags_fragment_offset h) 8191).

(** What the receiver reads in the header of a packet with [n] payload bytes. *)
Definition sent_header (h : Ipv4Header) (n : nat) (checksum : Z) : Ipv4Header :=
  mkIpv4Header (20 + Z.of_nat n) (identification h) (sent_flags h) (ttl h)
    (from_u8 (to_u8 (protocol h))) checksum (source h) (destination h).

Lemma sent_flags_range h : 0 ≤ flags_fragment_offset h < 65536 → 0 ≤ sent_flags h < 65536.
Proof.
  intros Hf. unfold sent_flags. change 8191 with (Z.ones 13). rewrite Z.land_ones by lia.
  pose proof (Z.mod_pos_bound (flags_fragment_offset h) (2 ^ 13) ltac:(lia)) as Hm.
  change IP_FLAG_DF with (2 ^ 14). split; [apply Z.lor_nonneg; lia|].
  change 65536 with (2 ^ 16). apply testbit_bounded; [lia|apply Z.lor_nonneg; lia|].
  intros i Hi. rewrite Z.lor_spec, Z.pow2_bits_false by lia.
  apply (testbit_above _ 13); lia.
Qed.

(** The ten bytes before the checksum field. *)
Definition header_front (h : Ipv4Header) (n : nat) : bytes :=
  [IPV4_VERSION_IHL; 0] ++ to_be16 (wrap16 (20 + Z.of_nat n)) ++ to_be16 (identification h) ++
  to_be16 (sent_flags h) ++ [ttl h; to_u8 (protocol h)].

Lemma header_front_bytes h n : header_ok h → is_bytes (header_front h n).
Proof.
  intros [? ? ? ? ? ?]. unfold header_front. rewrite !is_bytes_app.
  split_and!; auto using to_be16_bytes; apply Forall_cons; (split; [|apply Forall_singleton]); done.
Qed.

Lemma unsummed_packet_eq h payload :
  unsummed_packet h payload =
  header_front h (length payload) ++ [0; 0] ++ source h ++ destination h ++ payload.
Proof.
  unfold unsummed_packet, header_front, sent_flags, IPV4_MIN_HEADER_SIZE.
  replace (Z.of_nat (20 + length payload)) with (20 + Z.of_nat (length payload)) by lia.
  by rewrite <- !app_assoc.
Qed.

Lemma build_packet_eq h payload :
  header_ok h →
  let n := length payload in
  let c := compute_checksum (header_front h n ++ [0; 0] ++ source h ++ destination h) in
  build_packet h payload = header_front h n ++ to_be16 c ++ source h ++ destination h ++ payload.
Proof.
  intros [_ _ _ _ [Ls _] [Ld _]] n c. unfold build_packet. rewrite unsummed_packet_eq.
  fold n. rewrite (put_checksum_middle (header_front h n)).
  replace (slice _ 0 _) with (header_front h n ++ [0; 0] ++ source h ++ destination h); [done|].
  symmetry. transitivity (slice ((header_front h n ++ [0; 0] ++ source h ++ destination h) ++ payload)
    0 IPV4_MIN_HEADER_SIZE); [by rewrite <- !app_assoc|].
  apply slice_prefix. rewrite !length_app, Ls, Ld. done.
Qed.

Lemma header_verifies h n :
  header_ok h →
  let c := compute_checksum (header_front h n ++ [0; 0] ++ source h ++ destination h) in
  0 ≤ c < 65536 ∧
  compute_checksum (header_front h n ++ to_be16 c ++ source h ++ destination h) = 0.
Proof.
  intros Hh. pose proof (header_front_bytes h n Hh) as Hf.
  destruct Hh as [_ _ _ _ [Ls Hs] [Ld Hd]].
  apply checksum_inserted; [done|by apply is_bytes_app|done|lia|].
  rewrite !length_app, Ls, Ld. simpl. lia.
Qed.

Lemma length_four {A} (l : list A) : length l = 4%nat → ∃ a b c d, l = [a; b; c; d].
Proof. destruct l as [|a [|b [|c [|d [|]]]]]; try done. eauto. Qed.

(** What [parse_packet] reads from twenty header bytes of version 4, IHL 5. *)
Lemma parse_twenty t0 t1 i0 i1 f0 f1 l p c0 c1 s0 s1 s2 s3 d0 d1 d2 d3 payload :
  let hdr := [IPV4_VERSION_IHL; 0; t0; t1; i0; i1; f0; f1; l; p; c0; c1;
              s0; s1; s2; s3; d0; d1; d2; d3] in
  be16 t0 t1 = 20 + Z.of_nat (length payload) → compute_checksum hdr = 0 →
  parse_packet (hdr ++ payload) =
  Ok (mkIpv4Packet (mkIpv4Header (be16 t0 t1) (be16 i0 i1) (be16 f0 f1) l (from_u8 p)
        (be16 c0 c1) [s0; s1; s2; s3] [d0; d1; d2; d3]) payload).
Proof.
  intros hdr Ht Hc. unfold parse_packet.
  rewrite decide_False by (simpl; unfold IPV4_MIN_HEADER_SIZE; lia).
  change (byte (hdr ++ payload) 0) with 69.
  change (negb (Z.shiftr 69 4 =? 4)) with false. change (Z.land 69 15) with 5.
  change (5 <? 5) with false. cbv iota zeta. change (Z.to_nat 5 * 4)%nat with 20%nat.
  change (byte (hdr ++ payload) 2) with t0. change (byte (hdr ++ payload) 3) with t1.
  rewrite decide_False by (simpl; lia). rewrite Ht.
  assert (El : Z.to_nat (20 + Z.of_nat (length payload)) = length (hdr ++ payload)) by (simpl; lia).
  rewrite El. rewrite decide_False by lia.
  rewrite (slice_prefix hdr payload 20 eq_refl), Hc. change (negb (0 =? 0)) with false. cbv iota.
  rewrite Nat.min_id. do 3 f_equal.
  case_decide as E.
  - unfold slice. change (drop 20 (hdr ++ payload)) with payload.
    apply take_ge. simpl. lia.
  - destruct payload; [done|]. simpl in E. lia.
Qed.

(** ** Property *)

(** [build_packet] and [parse_packet] agree.  For every header of
    machine-width fields and every payload that fits the 16-bit length, the
    packet built verifies its own header checksum, and parsing it gives back
    the identification, TTL, addresses and payload; the length is the real one,
    the protocol number is kept, and the flags are DF with the fragment offset
    of the header (the MF flag is not carried). *)
Theorem ipv4_roundtrip (h : Ipv4Header) (payload : bytes) :
  header_ok h → is_bytes payload → Z.of_nat (length payload) ≤ 65515 →
  compute_checksum (slice (build_packet h payload) 0 IPV4_MIN_HEADER_SIZE) = 0 ∧
  ∃ c, 0 ≤ c < 65536 ∧
    parse_packet (build_packet h payload)
    = Ok (mkIpv4Packet (sent_header h (length payload) c) payload).
Proof.
  intros Hh Hp Hl. pose proof (build_packet_eq h payload Hh) as Eb.
  destruct (header_verifies h (length payload) Hh) as [Hc Hv]. cbv zeta in Eb.
  set (c := compute_checksum (header_front h (length payload) ++ [0; 0] ++ _)) in *.
  rewrite Eb. clear Eb. clearbody c.
  pose proof Hh as [Hi Hf Ht Hpr [Ls Hs] [Ld Hd]].
  destruct (length_four _ Ls) as (s0 & s1 & s2 & s3 & Es).
  destruct (length_four _ Ld) as (d0 & d1 & d2 & d3 & Ed).
  split.
  - etrans; [|exact Hv]. f_equal.
    transitivity (slice ((header_front h (length payload) ++ to_be16 c ++ source h ++ destination h)
      ++ payload) 0 IPV4_MIN_HEADER_SIZE); [by rewrite <- !app_assoc|].
    apply slice_prefix. rewrite !length_app, Ls, Ld. done.
  - exists c. split; [done|]. unfold sent_header. rewrite Es, Ed in *.
    assert (Ew : wrap16 (20 + Z.of_nat (length payload)) = 20 + Z.of_nat (length payload))
      by (apply Z.mod_small; change (2 ^ 16) with 65536; lia).
    unfold header_front, to_be16 in *. rewrite Ew in *.
    etrans; [apply parse_twenty; [apply be16_split; lia|exact Hv]|].
    by rewrite !be16_split by (done || lia || by apply sent_flags_range).
Qed.

Definition ping_header : Ipv4Header :=
  mkIpv4Header 0 4660 0 64 Icmp 0 [10; 0; 2; 15] [10; 0; 2; 2].

Lemma ipv4_roundtrip_witness :
  parse_packet (build_packet ping_header [8; 0; 1])
  = Ok (mkIpv4Packet (sent_header ping_header 3 4258) [8; 0; 1]) ∧
  compute_checksum (slice (build_packet ping_header [8; 0; 1]) 0 IPV4_MIN_HEADER_SIZE) = 0.
Proof.
  split; [vm_compute; reflexivity|].
  refine (proj1 (ipv4_roundtrip ping_header [8; 0; 1] _ _ _)).
  - split; try split; by apply (bool_decide_unpack _).
  - by apply (bool_decide_unpack _).
  - cbn. lia.
Defined.
