(* ===== verification/TcpSegment.v ===== *)
(** * TCP segments: headers, options and the pseudo-header checksum

    network/tcp/segment.rs and the option constants of network/tcp/types.rs,
    with the IPv6 pseudo header of network/internet/ipv6.rs.  The option
    readers are the source's [while opt_idx + 1 < options.len()] loops: they
    share [walk_options], which runs on the bytes from [opt_idx] on. *)

From stdpp Require Import base tactics decidable numbers list.
From Stdlib Require Import ZArith Lia Bool.
From S2P Require Import Prelude Bytes Ipv4.

(** ** Constants *)

Definition TCP_MIN_HEADER_SIZE : nat := 20.
Definition MIN_PEER_MSS : Z := 536.
Definition TCP_OPT_KIND_MSS : Z := 2.
Definition TCP_OPT_LEN_MSS : Z := 4.
Definition TCP_OPT_KIND_WINDOW_SCALE : Z := 3.
Definition TCP_OPT_LEN_WINDOW_SCALE : Z := 3.
Definition TCP_OPT_KIND_SACK_PERMITTED : Z := 4.
Definition TCP_OPT_LEN_SACK_PERMITTED : Z := 2.
Definition TCP_OPT_KIND_SACK : Z := 5.
Definition TCP_OPT_KIND_TIMESTAMP : Z := 8.
Definition TCP_OPT_LEN_TIMESTAMP : Z := 10.
Definition MAX_SACK_BLOCKS : nat := 3.
Definition DEFAULT_WINDOW_SCALE : Z := 6.

(** ** Headers *)

Record TcpHeader := mkTcpHeader {
  source_port : Z;
  destination_port : Z;
  sequence_number : Z;
  acknowledgment_number : Z;
  data_offset : Z;
  flags : Z;
  window_size : Z;
  checksum : Z;
  urgent_pointer : Z;
  options : bytes
}.

Definition parse_tcp_header (data : bytes) : result (TcpHeader * nat) :=
  if decide (length data < TCP_MIN_HEADER_SIZE)%nat then Err InvalidArgument else
  let b := byte data in
  let data_offset_flags := be16 (b 12%nat) (b 13%nat) in
  let data_offset := wrap8 (Z.land (Z.shiftr data_offset_flags 12) 15) in
  let flags := wrap8 (Z.land data_offset_flags 511) in
  if data_offset <? 5 then Err InvalidArgument else
  let header_len := (Z.to_nat data_offset * 4)%nat in
  if decide (length data < header_len)%nat then Err InvalidArgument else
  let options :=
    if decide (TCP_MIN_HEADER_SIZE < header_len)%nat
    then slice data TCP_MIN_HEADER_SIZE header_len else [] in
  Ok (mkTcpHeader (be16 (b 0%nat) (b 1%nat)) (be16 (b 2%nat) (b 3%nat))
        (be32 (b 4%nat) (b 5%nat) (b 6%nat) (b 7%nat))
        (be32 (b 8%nat) (b 9%nat) (b 10%nat) (b 11%nat))
        data_offset flags (be16 (b 14%nat) (b 15%nat)) (be16 (b 16%nat) (b 17%nat))
        (be16 (b 18%nat) (b 19%nat)) options,
      header_len).

(** [IpAddress] of network/internet/ip.rs. *)
Inductive IpAddress :=
| V4 (addr : bytes)
| V6 (addr : bytes).

Definition as_ipv4 (a : IpAddress) : option bytes :=
  match a with V4 a => Some a | V6 _ => None end.

Definition ipv6_pseudo_header_checksum_add
    (sum : Z) (source destination : bytes) (next_header upper_layer_len : Z) : Z :=
  let sum := checksum_add sum source in
  let sum := checksum_add sum destination in
  let sum := checksum_add sum (to_be32 upper_layer_len) in
  checksum_add sum [0; 0; 0; next_header].

(** [5 + (header.options.len() as u8).div_ceil(4)], an [u8]. *)
Definition built_data_offset (h : TcpHeader) : Z :=
  5 + div_ceil (wrap8 (Z.of_nat (length (options h)))) 4.

(** The buffer both builders fill before they compute the checksum. *)
Definition unsummed_segment (h : TcpHeader) (payload : bytes) : bytes :=
  let data_offset := built_data_offset h in
  let header_len := (Z.to_nat data_offset * 4)%nat in
  let dof := Z.lor (wrap16 (Z.shiftl data_offset 12)) (Z.land (flags h) 511) in
  let buf :=
    to_be16 (source_port h) ++ to_be16 (destination_port h) ++
    to_be32 (sequence_number h) ++ to_be32 (acknowledgment_number h) ++
    to_be16 dof ++ to_be16 (window_size h) ++ [0; 0] ++ to_be16 (urgent_pointer h) ++
    options h in
  buf ++ replicate (header_len - length buf) 0 ++ payload.

(** What the checksum covers before the segment, for each address family. *)
Definition pseudo_sum_v4 (src dst buf : bytes) : Z :=
  pseudo_header_checksum_add 0 src dst 6 (wrap16 (Z.of_nat (length buf))).

Definition pseudo_sum_v6 (src dst buf : bytes) : Z :=
  ipv6_pseudo_header_checksum_add 0 src dst 6 (wrap32 (Z.of_nat (length buf))).

Definition build_tcp_segment_v4 (h : TcpHeader) (payload src dst : bytes) : bytes :=
  let buf := unsummed_segment h payload in
  put_checksum 16 (checksum_finalize (checksum_add (pseudo_sum_v4 src dst buf) buf)) buf.

Definition build_tcp_segment_v6 (h : TcpHeader) (payload src dst : bytes) : bytes :=
  let buf := unsummed_segment h payload in
  put_checksum 16 (checksum_finalize (checksum_add (pseudo_sum_v6 src dst buf) buf)) buf.

Definition build_tcp_segment (h : TcpHeader) (payload : bytes) (src dst : IpAddress) : bytes :=
  match src, dst with
  | V4 src, V4 dst => build_tcp_segment_v4 h payload src dst
  | V6 src, V6 dst => build_tcp_segment_v6 h payload src dst
  | src, dst =>
      build_tcp_segment_v4 h payload (default [0; 0; 0; 0] (as_ipv4 src))
        (default [0; 0; 0; 0] (as_ipv4 dst))
  end.

(** ** Options *)

Section Walk.
Context {A : Type} (hit : Z → Z → bytes → option A).

(** The loop of the option readers; [rest] is [options[opt_idx..]].  [hit]
    answers for the option at hand, an option of length zero ends the walk. *)
Fixpoint walk_options_fuel (fuel : nat) (rest : bytes) : option A :=
  match fuel, rest with
  | S fuel, kind :: len :: _ =>
      match hit kind len rest with
      | Some a => Some a
      | None =>
          if len =? 0 then None
          else walk_options_fuel fuel (drop (Z.to_nat (Z.max len 1)) rest)
      end
  | _, _ => None
  end.

(** Every round skips at least one byte, so the length is fuel enough. *)
Definition walk_options (options : bytes) : option A :=
  walk_options_fuel (length options) options.

End Walk.

Definition fits (n : Z) (rest : bytes) : bool := n <=? Z.of_nat (length rest).

Definition parse_mss_option (options : bytes) : Z :=
  default MIN_PEER_MSS (walk_options (λ kind len rest,
    if (kind =? TCP_OPT_KIND_MSS) && (len =? 4) && fits 4 rest
    then Some (be16 (byte rest 2) (byte rest 3)) else None) options).

Definition parse_window_scale_option (options : bytes) : Z :=
  default 0 (walk_options (λ kind len rest,
    if (kind =? TCP_OPT_KIND_WINDOW_SCALE) && (len =? 3) && fits 3 rest
    then Some (Z.min (byte rest 2) 14) else None) options).

(** The block loop of [parse_sack_option]: [n] blocks of eight bytes. *)
Fixpoint sack_blocks (n : nat) (body : bytes) : list (Z * Z) :=
  match n with
  | O => []
  | S n =>
      (be32 (byte body 0) (byte body 1) (byte body 2) (byte body 3),
       be32 (byte body 4) (byte body 5) (byte body 6) (byte body 7)) ::
      sack_blocks n (drop 8 body)
  end.

Definition parse_sack_option (options : bytes) : list (Z * Z) :=
  default [] (walk_options (λ kind len rest,
    if (kind =? TCP_OPT_KIND_SACK) && (10 <=? len) && fits len rest
    then let body := slice rest 2 (Z.to_nat len) in
         Some (sack_blocks (length body / 8) body)
    else None) options).

Definition parse_timestamp_option (options : bytes) : option (Z * Z) :=
  walk_options (λ kind len rest,
    if (kind =? TCP_OPT_KIND_TIMESTAMP) && (len =? 10) && fits 10 rest
    then Some (be32 (byte rest 2) (byte rest 3) (byte rest 4) (byte rest 5),
               be32 (byte rest 6) (byte rest 7) (byte rest 8) (byte rest 9))
    else None) options.

Definition has_sack_permitted (options : bytes) : bool :=
  default false (walk_options (λ kind len rest,
    if (kind =? TCP_OPT_KIND_SACK_PERMITTED) && (2 <=? len) then Some true else None) options).

Definition build_mss_option (mss : Z) : bytes :=
  [TCP_OPT_KIND_MSS; TCP_OPT_LEN_MSS; Z.shiftr mss 8 mod 256; mss mod 256].

Definition WINDOW_SCALE_OPTION_BYTES : bytes :=
  [TCP_OPT_KIND_WINDOW_SCALE; TCP_OPT_LEN_WINDOW_SCALE; DEFAULT_WINDOW_SCALE].

Definition SACK_PERMITTED_OPTION_BYTES : bytes :=
  [TCP_OPT_KIND_SACK_PERMITTED; TCP_OPT_LEN_SACK_PERMITTED].

Definition build_timestamp_option (tsval tsecr : Z) : bytes :=
  [TCP_OPT_KIND_TIMESTAMP; TCP_OPT_LEN_TIMESTAMP;
   Z.shiftr tsval 24 mod 256; Z.shiftr tsval 16 mod 256; Z.shiftr tsval 8 mod 256; tsval mod 256;
   Z.shiftr tsecr 24 mod 256; Z.shiftr tsecr 16 mod 256; Z.shiftr tsecr 8 mod 256; tsecr mod 256].

Definition build_sack_option (blocks : list (Z * Z)) : bytes :=
  let n := (length blocks `min` MAX_SACK_BLOCKS)%nat in
  if decide (n = 0%nat) then [] else
  [TCP_OPT_KIND_SACK; wrap8 (Z.of_nat (2 + n * 8))] ++
  concat (map (λ '(l, r), to_be32 l ++ to_be32 r) (take n blocks)).

(** The fields of [TcpConnectionState] the option builders read. *)
Record option_state := mkOptionState {
  peer_timestamps : bool;
  ts_val : Z;
  peer_ts_val : Z;
  ooo_queue : list (Z * bytes)
}.

Definition timestamped_options (s : option_state) : bytes :=
  if peer_timestamps s then build_timestamp_option (ts_val s) (peer_ts_val s) else [].

(** The blocks an ACK reports: what has arrived out of order. *)
Definition ooo_blocks (s : option_state) : list (Z * Z) :=
  map (λ '(start, data), (start, wrap32 (start + wrap32 (Z.of_nat (length data))))) (ooo_queue s).

Definition ack_options_with_sack (s : option_state) : bytes :=
  let ts_opts := timestamped_options s in
  let sack_opts := build_sack_option (ooo_blocks s) in
  match sack_opts with
  | [] => ts_opts
  | _ => ts_opts ++ sack_opts
  end.

Definition advance_timestamp (s : option_state) (peer_tsval : Z) : option_state :=
  mkOptionState (peer_timestamps s) (wrap32 (ts_val s + 1)) peer_tsval (ooo_queue s).

(** The options of a SYN ([connect], network/tcp/ops.rs). *)
Definition syn_options (mss tsval tsecr : Z) : bytes :=
  build_mss_option mss ++ WINDOW_SCALE_OPTION_BYTES ++ SACK_PERMITTED_OPTION_BYTES ++
  build_timestamp_option tsval tsecr.

(** ** The option walk ends, and reads as the loop does *)

Lemma walk_fuel_enough {A} (hit : Z → Z → bytes → option A) n m rest :
  (length rest ≤ n)%nat → (length rest ≤ m)%nat →
  walk_options_fuel hit n rest = walk_options_fuel hit m rest.
Proof.
  revert m rest. induction n as [|n IH]; intros m rest Hn Hm.
  - destruct rest; [|simpl in Hn; lia]. by destruct m.
  - destruct m as [|m]; [destruct rest; [done|simpl in Hm; lia]|].
    destruct rest as [|k [|l rest]]; [done..|]. cbn [walk_options_fuel].
    destruct (hit k l _); [done|]. destruct (l =? 0); [done|].
    apply IH; rewrite length_drop; simpl in *; lia.
Qed.

Lemma walk_cons {A} (hit : Z → Z → bytes → option A) kind len rest :
  walk_options hit (kind :: len :: rest) =
  match hit kind len (kind :: len :: rest) with
  | Some a => Some a
  | None => if len =? 0 then None
            else walk_options hit (drop (Z.to_nat (Z.max len 1)) (kind :: len :: rest))
  end.
Proof.
  unfold walk_options at 1. cbn [length]. remember (S (length rest)) as n eqn:En.
  cbn [walk_options_fuel]. destruct (hit kind len _); [done|]. destruct (len =? 0); [done|].
  unfold walk_options. apply walk_fuel_enough; [|done].
  rewrite length_drop. cbn [length]. lia.
Qed.

Lemma walk_short {A} (hit : Z → Z → bytes → option A) rest :
  (length rest < 2)%nat → walk_options hit rest = None.
Proof. destruct rest as [|a [|b rest]]; simpl; [done..|lia]. Qed.

Lemma fits_true n rest : n ≤ Z.of_nat (length rest) → fits n rest = true.
Proof. apply Z.leb_le. Qed.

(** The zero bytes that pad a header end the walk. *)
Lemma walk_pad {A} (hit : Z → Z → bytes → option A) n :
  (∀ rest, hit 0 0 rest = None) → walk_options hit (replicate n 0) = None.
Proof.
  intros H0. destruct n as [|[|n]]; [by apply walk_short; simpl; lia..|].
  cbn [replicate]. rewrite walk_cons, H0. done.
Qed.

(** An option the reader does not look for is skipped. *)
Lemma walk_skip {A} (hit : Z → Z → bytes → option A) kind len body rest :
  len = 2 + Z.of_nat (length body) → hit kind len (kind :: len :: body ++ rest) = None →
  walk_options hit (kind :: len :: body ++ rest) = walk_options hit rest.
Proof.
  intros -> Hh. rewrite walk_cons, Hh. rewrite (proj2 (Z.eqb_neq _ _)) by lia.
  replace (Z.to_nat (Z.max (2 + Z.of_nat (length body)) 1)) with (S (S (length body))) by lia.
  cbn [drop]. by rewrite drop_app_length.
Qed.

(** ** Reading back the stack's own options *)

Lemma length_to_be32_pairs (l : list (Z * Z)) :
  length (concat (map (λ '(x, y), to_be32 x ++ to_be32 y) l)) = (length l * 8)%nat.
Proof. induction l as [|[x y] l IH]; [done|]. cbn [map concat]. rewrite length_app, IH. simpl. lia. Qed.

Definition block_ok (p : Z * Z) : Prop := word32 p.1 ∧ word32 p.2.

Lemma sack_blocks_read l rest :
  Forall block_ok l →
  sack_blocks (length l) (concat (map (λ '(x, y), to_be32 x ++ to_be32 y) l) ++ rest) = l.
Proof.
  induction l as [|[x y] l IH]; [done|]. intros [[Hx Hy] Hl]%Forall_cons. cbn [map concat length sack_blocks].
  rewrite <- !app_assoc. cbn -[be32 Z.shiftr concat map Z.modulo]. unfold byte; cbn -[be32 Z.shiftr concat map Z.modulo].
  rewrite !be32_split by done. f_equal. by apply IH.
Qed.

(** The SACK option, when there is one, as kind, length and body. *)
Lemma build_sack_cases blocks :
  let l := take MAX_SACK_BLOCKS blocks in
  build_sack_option blocks = [] ∧ l = [] ∨
  (0 < length l ≤ 3)%nat ∧
  build_sack_option blocks =
    TCP_OPT_KIND_SACK :: (2 + Z.of_nat (length l * 8)) ::
    concat (map (λ '(x, y), to_be32 x ++ to_be32 y) l).
Proof.
  intros l. unfold build_sack_option, MAX_SACK_BLOCKS in *.
  assert (El : take (length blocks `min` 3) blocks = l).
  { unfold l. destruct (Nat.le_ge_cases (length blocks) 3).
    - rewrite Nat.min_l by done. by rewrite !take_ge by lia.
    - by rewrite Nat.min_r. }
  assert (Ln : length l = (length blocks `min` 3)%nat) by (unfold l; rewrite length_take; lia).
  rewrite El, <- Ln. case_decide as E.
  - left. split; [done|]. by apply nil_length_inv.
  - right. split; [lia|]. cbn [app]. do 2 f_equal. unfold wrap8. rewrite Z.mod_small by lia. lia.
Qed.

Lemma ack_options_app s :
  ack_options_with_sack s = timestamped_options s ++ build_sack_option (ooo_blocks s).
Proof.
  unfold ack_options_with_sack. destruct (build_sack_option (ooo_blocks s)) eqn:E; [|done].
  by rewrite app_nil_r.
Qed.

Definition option_state_ok (s : option_state) : Prop :=
  word32 (ts_val s) ∧ word32 (peer_ts_val s) ∧ Forall (λ p, word32 p.1) (ooo_queue s).

Lemma ooo_blocks_ok s : option_state_ok s → Forall block_ok (ooo_blocks s).
Proof.
  intros (_ & _ & Hq). unfold ooo_blocks. apply Forall_fmap. eapply Forall_impl; [done|].
  intros [start data] Hs. split; [done|]. apply Z.mod_pos_bound. lia.
Qed.

Lemma parse_sack_sack blocks n :
  Forall block_ok blocks →
  parse_sack_option (build_sack_option blocks ++ replicate n 0) = take MAX_SACK_BLOCKS blocks.
Proof.
  intros Hb. destruct (build_sack_cases blocks) as [[-> ->]|[Hl ->]]; unfold parse_sack_option.
  - cbn [app]. by rewrite walk_pad.
  - set (l := take MAX_SACK_BLOCKS blocks) in *.
    set (body := concat _). assert (Lb : length body = (length l * 8)%nat) by apply length_to_be32_pairs.
    cbn [app]. rewrite walk_cons.
    replace (TCP_OPT_KIND_SACK =? TCP_OPT_KIND_SACK) with true by done.
    rewrite (proj2 (Z.leb_le _ _)) by lia.
    rewrite fits_true by (cbn [length]; rewrite length_app; lia).
    cbn [andb default from_option]. unfold slice.
    replace (Z.to_nat (2 + Z.of_nat (length l * 8)) - 2)%nat with (length body) by lia.
    change (drop 2 (_ :: _ :: ?r)) with r. rewrite take_app_length, Lb, Nat.div_mul by done.
    cbn [id].
    rewrite <- (app_nil_r body). apply sack_blocks_read. by apply Forall_take.
Qed.

(** What the stack puts on an acknowledgement fits the forty bytes of a header
    and is read back from the padded header. *)
Lemma ack_options_read s n :
  option_state_ok s →
  let o := ack_options_with_sack s ++ replicate n 0 in
  (length (ack_options_with_sack s) ≤ 36)%nat ∧
  parse_timestamp_option o =
    (if peer_timestamps s then Some (ts_val s, peer_ts_val s) else None) ∧
  parse_sack_option o = take MAX_SACK_BLOCKS (ooo_blocks s).
Proof.
  intros Hs. pose proof (ooo_blocks_ok s Hs) as Hb. destruct Hs as (Ht & Hp & _).
  rewrite ack_options_app. pose proof (parse_sack_sack _ n Hb) as Hread.
  unfold timestamped_options. cbv zeta. split_and!.
  - rewrite length_app. destruct (build_sack_cases (ooo_blocks s)) as [[-> _]|[Hl ->]];
      [by destruct (peer_timestamps s); simpl; lia|].
    cbn [length]. rewrite length_to_be32_pairs. destruct (peer_timestamps s); simpl; lia.
  - unfold parse_timestamp_option. destruct (peer_timestamps s).
    + unfold build_timestamp_option. cbn [app]. rewrite walk_cons. unfold byte. cbn -[be32 fits].
      rewrite fits_true by (cbn [length]; lia).
      by rewrite !be32_split.
    + cbn [app]. destruct (build_sack_cases (ooo_blocks s)) as [[-> _]|[Hl ->]]; [by apply walk_pad|].
      cbn [app]. rewrite walk_skip; [by apply walk_pad| |done].
      by rewrite length_to_be32_pairs.
  - destruct (peer_timestamps s); [|done]. etrans; [|exact Hread].
    unfold parse_sack_option. f_equal. rewrite <- app_assoc.
    by apply (walk_skip _ TCP_OPT_KIND_TIMESTAMP TCP_OPT_LEN_TIMESTAMP
      (to_be32 (ts_val s) ++ to_be32 (peer_ts_val s))).
Qed.

(** ** Header round trip *)

Record tcp_ok (h : TcpHeader) : Prop := {
  tcp_source_port : 0 ≤ source_port h < 65536;
  tcp_destination_port : 0 ≤ destination_port h < 65536;
  tcp_sequence : word32 (sequence_number h);
  tcp_acknowledgment : word32 (acknowledgment_number h);
  tcp_flags : is_byte (flags h);
  tcp_window : 0 ≤ window_size h < 65536;
  tcp_urgent : 0 ≤ urgent_pointer h < 65536;
  tcp_options : (length (options h) ≤ 40)%nat ∧ is_bytes (options h)
}.

(** Data offset and flags share a word. *)
Lemma offset_flags_read d f :
  5 ≤ d ≤ 15 → is_byte f →
  let dof := Z.lor (wrap16 (Z.shiftl d 12)) (Z.land f 511) in
  0 ≤ dof < 65536 ∧ wrap8 (Z.land (Z.shiftr dof 12) 15) = d ∧ wrap8 (Z.land dof 511) = f.
Proof.
  intros Hd Hf dof. unfold is_byte in Hf.
  assert (Ef : Z.land f 511 = f) by (change 511 with (Z.ones 9); rewrite Z.land_ones by lia;
    apply Z.mod_small; lia).
  assert (Ed : wrap16 (Z.shiftl d 12) = d * 4096)
    by (rewrite Z.shiftl_mul_pow2 by lia; apply Z.mod_small; lia).
  assert (E : dof = d * 4096 + f).
  { unfold dof. rewrite Ef, Ed. change 4096 with (2 ^ 12). rewrite <- Z.shiftl_mul_pow2 by lia.
    rewrite Z.add_nocarry_lxor.
    - apply Z.bits_inj'. intros i Hi. rewrite Z.lor_spec, Z.lxor_spec, Z.shiftl_spec by lia.
      destruct (Z.lt_ge_cases i 12); [by rewrite Z.testbit_neg_r by lia|].
      rewrite (testbit_above f 8) by lia. by destruct (Z.testbit d (i - 12)).
    - apply Z.bits_inj'. intros i Hi. rewrite Z.land_spec, Z.shiftl_spec, Z.bits_0 by lia.
      destruct (Z.lt_ge_cases i 12); [by rewrite Z.testbit_neg_r by lia|].
      rewrite (testbit_above f 8) by lia. apply andb_false_r. }
  rewrite E. split; [lia|]. rewrite Z.shiftr_div_pow2 by lia. change (2 ^ 12) with 4096.
  rewrite Z.div_add_l, Z.div_small, Z.add_0_r by lia.
  change 15 with (Z.ones 4). change 511 with (Z.ones 9). rewrite !Z.land_ones by lia.
  unfold wrap8. rewrite (Z.mod_small d) by lia. rewrite (Z.mod_small d) by lia.
  replace (d * 4096 + f) with (f + d * 8 * 2 ^ 9) by lia. rewrite Z.mod_add by lia.
  rewrite (Z.mod_small f) by lia. by rewrite Z.mod_small by lia.
Qed.

Definition offset_word (h : TcpHeader) : Z :=
  Z.lor (wrap16 (Z.shiftl (built_data_offset h) 12)) (Z.land (flags h) 511).

(** The sixteen bytes before the checksum field. *)
Definition tcp_front (h : TcpHeader) : bytes :=
  to_be16 (source_port h) ++ to_be16 (destination_port h) ++
  to_be32 (sequence_number h) ++ to_be32 (acknowledgment_number h) ++
  to_be16 (offset_word h) ++ to_be16 (window_size h).

Definition option_pad (h : TcpHeader) : nat :=
  (Z.to_nat (built_data_offset h) * 4 - (20 + length (options h)))%nat.

Definition padded_options (h : TcpHeader) : bytes := options h ++ replicate (option_pad h) 0.

Lemma unsummed_segment_eq h payload :
  unsummed_segment h payload =
  tcp_front h ++ [0; 0] ++ to_be16 (urgent_pointer h) ++ padded_options h ++ payload.
Proof.
  unfold unsummed_segment, tcp_front, padded_options, option_pad, offset_word. cbv zeta.
  rewrite <- !app_assoc. done.
Qed.

Lemma data_offset_range h : tcp_ok h →
  5 ≤ built_data_offset h ≤ 15 ∧
  (length (padded_options h) + 20 = Z.to_nat (built_data_offset h) * 4)%nat.
Proof.
  intros [_ _ _ _ _ _ _ [Hl _]]. unfold padded_options, option_pad. rewrite length_app, length_replicate.
  unfold built_data_offset, div_ceil, wrap8. rewrite Z.mod_small by lia.
  set (n := Z.of_nat (length (options h))).
  pose proof (Z.div_mod (n + 4 - 1) 4 ltac:(lia)). pose proof (Z.mod_pos_bound (n + 4 - 1) 4 ltac:(lia)).
  set (q := (n + 4 - 1) / 4) in *. lia.
Qed.

Lemma replicate_zero_bytes n : is_bytes (replicate n 0).
Proof. apply Forall_replicate. done. Qed.

(** What the receiver reads in the header of the segment. *)
Definition received (h : TcpHeader) (c : Z) : TcpHeader :=
  mkTcpHeader (source_port h) (destination_port h) (sequence_number h) (acknowledgment_number h)
    (built_data_offset h) (flags h) (window_size h) c (urgent_pointer h) (padded_options h).

Lemma parse_built h c payload :
  tcp_ok h → 0 ≤ c < 65536 →
  let seg := tcp_front h ++ to_be16 c ++ to_be16 (urgent_pointer h) ++ padded_options h ++ payload in
  let header_len := (Z.to_nat (built_data_offset h) * 4)%nat in
  parse_tcp_header seg = Ok (received h c, header_len) ∧ drop header_len seg = payload.
Proof.
  intros Hh Hc seg header_len. destruct (data_offset_range h Hh) as [Hd Hl]. fold header_len in Hl.
  destruct Hh as [? ? ? ? Hf ? ? _].
  destruct (offset_flags_read _ (flags h) Hd Hf) as (Bo & Eo & Ef). fold (offset_word h) in *.
  set (hdr := tcp_front h ++ to_be16 c ++ to_be16 (urgent_pointer h)).
  assert (Es : seg = hdr ++ padded_options h ++ payload) by (unfold seg, hdr; by rewrite <- !app_assoc).
  assert (Lh : length hdr = 20%nat) by done.
  split.
  - unfold parse_tcp_header. cbv zeta.
    rewrite decide_False by (rewrite Es, length_app, Lh; unfold TCP_MIN_HEADER_SIZE; lia).
    rewrite (be16_split (source_port h) ltac:(done) : be16 (byte seg 0) (byte seg 1) = _).
    rewrite (be16_split (destination_port h) ltac:(done) : be16 (byte seg 2) (byte seg 3) = _).
    rewrite (be32_split (sequence_number h) ltac:(done)
      : be32 (byte seg 4) (byte seg 5) (byte seg 6) (byte seg 7) = _).
    rewrite (be32_split (acknowledgment_number h) ltac:(done)
      : be32 (byte seg 8) (byte seg 9) (byte seg 10) (byte seg 11) = _).
    rewrite (be16_split (offset_word h) Bo : be16 (byte seg 12) (byte seg 13) = _).
    rewrite (be16_split (window_size h) ltac:(done) : be16 (byte seg 14) (byte seg 15) = _).
    rewrite (be16_split c Hc : be16 (byte seg 16) (byte seg 17) = _).
    rewrite (be16_split (urgent_pointer h) ltac:(done) : be16 (byte seg 18) (byte seg 19) = _).
    rewrite Eo, Ef. rewrite (proj2 (Z.ltb_ge _ _)) by lia. fold header_len.
    rewrite decide_False by (rewrite Es, !length_app, Lh; lia).
    unfold received. do 3 f_equal. unfold TCP_MIN_HEADER_SIZE. case_decide as E.
    + rewrite Es. unfold slice. rewrite drop_app_length' by done.
      replace (header_len - 20)%nat with (length (padded_options h)) by lia. apply take_app_length.
    + destruct (padded_options h); [done|]. simpl in Hl. lia.
  - rewrite Es, app_assoc. apply drop_app_length'. rewrite length_app, Lh. lia.
Qed.

(** ** The checksum of a built segment *)

(** The sum taken over a pseudo header: well below the accumulator's width. *)
Lemma checksum_add_bound sum data :
  is_bytes data → 0 ≤ sum < 2 ^ 23 → (length data ≤ 16)%nat →
  sum ≤ checksum_add sum data < sum + 2 ^ 20.
Proof.
  intros Hb Hs Hl. pose proof (word_sum_bound data Hb). rewrite checksum_add_small by (done || lia). lia.
Qed.

Lemma pseudo_sum_v4_bound src dst buf :
  is_bytes src → is_bytes dst → 0 ≤ pseudo_sum_v4 src dst buf < 2 ^ 24.
Proof.
  intros Hs Hd. unfold pseudo_sum_v4, pseudo_header_checksum_add. set (n := wrap16 _).
  assert (Hb : is_bytes (pseudo_header src dst 6 n)).
  { unfold pseudo_header, is_bytes.
    repeat (apply Forall_cons; split); first [by apply byte_bound|apply mod256_byte|done|constructor]. }
  pose proof (checksum_add_bound 0 _ Hb ltac:(lia) ltac:(simpl; lia)). lia.
Qed.

Lemma pseudo_sum_v6_bound src dst buf :
  is_bytes src → length src = 16%nat → is_bytes dst → length dst = 16%nat →
  0 ≤ pseudo_sum_v6 src dst buf < 2 ^ 24.
Proof.
  intros Hs Ls Hd Ld. unfold pseudo_sum_v6, ipv6_pseudo_header_checksum_add.
  set (n := wrap32 _). cbv zeta.
  pose proof (checksum_add_bound 0 src Hs ltac:(lia) ltac:(lia)) as B1. set (s1 := checksum_add 0 src) in *.
  pose proof (checksum_add_bound s1 dst Hd ltac:(lia) ltac:(lia)) as B2. set (s2 := checksum_add s1 dst) in *.
  pose proof (checksum_add_bound s2 (to_be32 n) (to_be32_bytes n) ltac:(lia) ltac:(simpl; lia)) as B3.
  set (s3 := checksum_add s2 _) in *.
  assert (Hz : is_bytes [0; 0; 0; 6]) by by apply (bool_decide_unpack _).
  pose proof (checksum_add_bound s3 _ Hz ltac:(lia) ltac:(simpl; lia)). lia.
Qed.

Lemma length_put_checksum i c buf : length (put_checksum i c buf) = length buf.
Proof. unfold put_checksum. by rewrite !length_insert. Qed.

(** Filling in the checksum over any pseudo-header sum. *)
Lemma segment_filled sum h payload :
  tcp_ok h → is_bytes payload → 0 ≤ sum < 2 ^ 24 →
  let buf := unsummed_segment h payload in
  Z.of_nat (length buf) ≤ 65535 →
  let c := checksum_finalize (checksum_add sum buf) in
  0 ≤ c < 65536 ∧ checksum_finalize (checksum_add sum (put_checksum 16 c buf)) = 0 ∧
  put_checksum 16 c buf =
    tcp_front h ++ to_be16 c ++ to_be16 (urgent_pointer h) ++ padded_options h ++ payload.
Proof.
  cbv zeta. rewrite unsummed_segment_eq. intros Hh Hp Hs Hl.
  set (post := to_be16 (urgent_pointer h) ++ padded_options h ++ payload) in *.
  assert (Hpost : is_bytes post).
  { unfold post, padded_options. rewrite !is_bytes_app. destruct Hh as [_ _ _ _ _ _ _ [_ Ho]].
    auto using to_be16_bytes, replicate_zero_bytes. }
  assert (Hpre : is_bytes (tcp_front h)).
  { unfold tcp_front. rewrite !is_bytes_app. auto 10 using to_be16_bytes, to_be32_bytes. }
  destruct (checksum_inserted sum (tcp_front h) post Hpre Hpost eq_refl Hs ltac:(lia)) as [Hc Hv].
  set (c := checksum_finalize (checksum_add sum (tcp_front h ++ [0; 0] ++ post))) in *.
  assert (E : put_checksum 16 c (tcp_front h ++ [0; 0] ++ post) = tcp_front h ++ to_be16 c ++ post)
    by apply (put_checksum_middle (tcp_front h)).
  split; [done|]. split; [by rewrite E|done].
Qed.

(** ** Properties *)

Definition addr_ok (a : IpAddress) : Prop :=
  match a with
  | V4 a => length a = 4%nat ∧ is_bytes a
  | V6 a => length a = 16%nat ∧ is_bytes a
  end.

(** The sum a receiver takes over the pseudo header of the two addresses. *)
Definition pseudo_sum (src dst : IpAddress) (seg : bytes) : Z :=
  match src, dst with
  | V4 src, V4 dst => pseudo_sum_v4 src dst seg
  | V6 src, V6 dst => pseudo_sum_v6 src dst seg
  | src, dst => pseudo_sum_v4 (default [0; 0; 0; 0] (as_ipv4 src))
                  (default [0; 0; 0; 0] (as_ipv4 dst)) seg
  end.

Lemma build_tcp_segment_filled h payload src dst :
  addr_ok src → addr_ok dst →
  let buf := unsummed_segment h payload in
  0 ≤ pseudo_sum src dst buf < 2 ^ 24 ∧
  build_tcp_segment h payload src dst =
  put_checksum 16 (checksum_finalize (checksum_add (pseudo_sum src dst buf) buf)) buf.
Proof.
  assert (Hz : is_bytes [0; 0; 0; 0]) by by apply (bool_decide_unpack _).
  destruct src as [src|src], dst as [dst|dst]; intros [? ?] [? ?]; cbn [build_tcp_segment pseudo_sum
    as_ipv4 default from_option id]; unfold build_tcp_segment_v4, build_tcp_segment_v6;
    cbv zeta; generalize (unsummed_segment h payload);
    intros buf; (split; [|reflexivity]).
  - by apply pseudo_sum_v4_bound.
  - by apply pseudo_sum_v4_bound.
  - by apply pseudo_sum_v4_bound.
  - by apply pseudo_sum_v6_bound.
Qed.

Lemma pseudo_sum_length src dst l1 l2 :
  length l1 = length l2 → pseudo_sum src dst l1 = pseudo_sum src dst l2.
Proof. intros E. destruct src, dst; simpl; unfold pseudo_sum_v4, pseudo_sum_v6; by rewrite E. Qed.

(** C21. For both address families, a segment built from a header of
    machine-width fields, at most forty option bytes and a payload that fits
    parses back: every field is the sender's, the data offset counts the option
    words, the options are the sender's padded with zeros, the payload follows
    the header, and the checksum verifies over the pseudo header. *)
Theorem tcp_roundtrip (h : TcpHeader) (payload : bytes) (src dst : IpAddress) :
  tcp_ok h → is_bytes payload → addr_ok src → addr_ok dst →
  Z.of_nat (length (unsummed_segment h payload)) ≤ 65535 →
  let seg := build_tcp_segment h payload src dst in
  checksum_finalize (checksum_add (pseudo_sum src dst seg) seg) = 0 ∧
  ∃ c header_len, parse_tcp_header seg = Ok (received h c, header_len) ∧
    drop header_len seg = payload.
Proof.
  intros Hh Hp Hs Hd Hl seg. destruct (build_tcp_segment_filled h payload src dst Hs Hd) as [B E].
  destruct (segment_filled _ h payload Hh Hp B Hl) as (Hc & Hv & Ef).
  fold seg in E. rewrite <- E in Hv, Ef. split.
  - rewrite (pseudo_sum_length src dst seg (unsummed_segment h payload)); [done|].
    rewrite E. apply length_put_checksum.
  - destruct (parse_built h _ payload Hh Hc) as [H1 H2]. rewrite <- Ef in H1, H2. eauto.
Qed.

(** What an acknowledgement says about timestamps and out-of-order data
    arrives.  The option bytes the stack builds fit a header, and the receiver
    of the built segment reads the timestamp pair if the connection uses
    timestamps (and none otherwise), and the first three out-of-order blocks. *)
Theorem ack_options_arrive (h : TcpHeader) (s : option_state) (src dst : IpAddress) :
  tcp_ok h → option_state_ok s → options h = ack_options_with_sack s →
  addr_ok src → addr_ok dst →
  ∃ hdr header_len,
    parse_tcp_header (build_tcp_segment h [] src dst) = Ok (hdr, header_len) ∧
    parse_timestamp_option (options hdr) =
      (if peer_timestamps s then Some (ts_val s, peer_ts_val s) else None) ∧
    parse_sack_option (options hdr) = take MAX_SACK_BLOCKS (ooo_blocks s).
Proof.
  intros Hh Hs Ho Hsrc Hdst.
  assert (Hl : Z.of_nat (length (unsummed_segment h [])) ≤ 65535).
  { rewrite unsummed_segment_eq, !length_app. pose proof (data_offset_range h Hh). simpl. lia. }
  destruct (build_tcp_segment_filled h [] src dst Hsrc Hdst) as [B E].
  destruct (segment_filled _ h [] Hh ltac:(constructor) B Hl) as (Hc & _ & Ef).
  destruct (parse_built h _ [] Hh Hc) as [Hparse _]. rewrite <- Ef, <- E in Hparse.
  exists (received h (checksum_finalize (checksum_add
    (pseudo_sum src dst (unsummed_segment h [])) (unsummed_segment h [])))), (Z.to_nat (built_data_offset h) * 4)%nat.
  split; [done|]. unfold received, padded_options. cbn [options]. rewrite Ho.
  by destruct (ack_options_read s (option_pad h) Hs) as (_ & H1 & H2).
Qed.

(** One option of concrete kind and length. *)
Ltac walk_step :=
  rewrite walk_cons; unfold byte; rewrite ?fits_true by (cbn [length]; lia);
  cbn -[be16 be32 fits walk_options Z.modulo Z.shiftr Z.max];
  repeat match goal with
  | |- context [Z.to_nat (Z.max ?a 1)] =>
      let v := eval vm_compute in (Z.to_nat (Z.max a 1)) in
      change (Z.to_nat (Z.max a 1)) with v
  end; cbn [drop].

(** The options of a SYN are read back from its padded header. *)
Lemma syn_options_read mss tsval tsecr n :
  0 ≤ mss < 65536 → word32 tsval → word32 tsecr →
  let o := syn_options mss tsval tsecr ++ replicate n 0 in
  parse_mss_option o = mss ∧ parse_window_scale_option o = DEFAULT_WINDOW_SCALE ∧
  has_sack_permitted o = true ∧ parse_timestamp_option o = Some (tsval, tsecr).
Proof.
  intros Hm Ht He o. unfold o, syn_options, build_mss_option, build_timestamp_option. cbn [app].
  unfold parse_mss_option, parse_window_scale_option, has_sack_permitted, parse_timestamp_option.
  split_and!; repeat walk_step.
  - by rewrite be16_split.
  - done.
  - done.
  - by rewrite !be32_split.
Qed.

(** A timestamp needs ten bytes. *)
Lemma timestamp_short rest : (length rest < 10)%nat → parse_timestamp_option rest = None.
Proof.
  unfold parse_timestamp_option, walk_options. generalize (length rest) at 2. intros n. revert rest.
  induction n as [|n IH]; [done|]. intros [|k [|l rest]] Hl; [done..|]. cbn [walk_options_fuel].
  replace (fits 10 _) with false by (symmetry; apply Z.leb_gt; lia).
  rewrite andb_false_r. destruct (l =? 0); [done|]. apply IH. rewrite length_drop. lia.
Qed.

(** The NOP option (kind 1, a single byte without a length) is not known to the
    walk, which takes the byte after it for a length: the layouts common stacks
    send, NOP NOP before a timestamp and NOP before a window scale, are read as
    if the option were absent. *)
Theorem nop_hides_options (tsval tsecr mss scale : Z) :
  parse_timestamp_option ([1; 1] ++ build_timestamp_option tsval tsecr) = None ∧
  parse_window_scale_option (build_mss_option mss ++ [1; 3; 3; scale]) = 0.
Proof.
  unfold parse_timestamp_option, parse_window_scale_option, build_mss_option, build_timestamp_option.
  cbn [app]. split.
  - do 2 walk_step. apply timestamp_short. simpl. lia.
  - do 2 walk_step. by rewrite walk_short by (simpl; lia).
Qed.

(** ** Executions *)

Definition demo_state : option_state :=
  mkOptionState true 77 4000000000 [(5000, [1; 2; 3]); (6000, [4])].

Definition demo_ack : TcpHeader :=
  mkTcpHeader 49152 80 305419896 2596069104 0 16 4096 0 0 (ack_options_with_sack demo_state).

Lemma demo_ack_ok : tcp_ok demo_ack.
Proof. split; try split; first [by apply (bool_decide_unpack _)|vm_compute; lia]. Qed.

Lemma tcp_roundtrip_witness :
  (∃ c, parse_tcp_header (build_tcp_segment demo_ack [104; 105] (V4 [10; 0; 2; 15]) (V4 [10; 0; 2; 2]))
        = Ok (received demo_ack c, 48%nat)) ∧
  (let seg := build_tcp_segment demo_ack [104; 105] (V4 [10; 0; 2; 15]) (V4 [10; 0; 2; 2]) in
   checksum_finalize (checksum_add (pseudo_sum (V4 [10; 0; 2; 15]) (V4 [10; 0; 2; 2]) seg) seg) = 0).
Proof.
  split; [eexists; vm_compute; reflexivity|].
  refine (proj1 (tcp_roundtrip demo_ack [104; 105] (V4 [10; 0; 2; 15]) (V4 [10; 0; 2; 2])
    demo_ack_ok _ _ _ _)).
  - by apply (bool_decide_unpack _).
  - split; [done|]. by apply (bool_decide_unpack _).
  - split; [done|]. by apply (bool_decide_unpack _).
  - vm_compute. discriminate.
Defined.

Lemma ack_options_arrive_witness :
  ∃ hdr header_len,
    parse_tcp_header (build_tcp_segment demo_ack [] (V4 [10; 0; 2; 15]) (V4 [10; 0; 2; 2]))
    = Ok (hdr, header_len) ∧
    parse_timestamp_option (options hdr) = Some (77, 4000000000) ∧
    parse_sack_option (options hdr) = [(5000, 5003); (6000, 6001)].
Proof.
  refine (ack_options_arrive demo_ack demo_state (V4 [10; 0; 2; 15]) (V4 [10; 0; 2; 2])
    demo_ack_ok _ eq_refl _ _).
  - split; [|split]; by apply (bool_decide_unpack _).
  - split; [done|]. by apply (bool_decide_unpack _).
  - split; [done|]. by apply (bool_decide_unpack _).
Defined.
