(* ===== verification/Fragments.v ===== *)
(** * Fragment reassembly (src/network/internet/fragments.rs)

    Fragments of a datagram are collected per key in any order.  An entry keeps the
    data that came before the last fragment, allocates the buffer when the last one
    tells the length, and records the 8-byte blocks that arrived in a bitmap.  The
    IPv4 and the IPv6 cache have entries of the same fields: IPv4's carries the
    header of the fragment that opened it, IPv6's the next header; both are the
    [tag] here. *)

From stdpp Require Import base tactics decidable numbers list gmap.
From Stdlib Require Import ZArith Lia Bool.
From S2P Require Import Prelude Bytes Ipv4.

Definition FRAGMENT_TIMEOUT_TICKS : Z := 3000.
Definition MAX_REASSEMBLY_ENTRIES : nat := 16.
Definition MAX_DATAGRAM_SIZE : Z := 65535.

(** ** Keys *)

Record FragmentKey := mkFragmentKey {
  k_id : Z; k_protocol : Z; k_source : Ipv4Addr; k_destination : Ipv4Addr;
}.

#[global] Instance FragmentKey_eq_dec : EqDecision FragmentKey.
Proof. solve_decision. Defined.

#[global] Instance FragmentKey_countable : Countable FragmentKey.
Proof.
  refine (inj_countable' (λ k, (k_id k, k_protocol k, k_source k, k_destination k))
    (λ '(i, p, s, d), mkFragmentKey i p s d) _). by intros [].
Defined.

Record Ipv6FragmentKey := mkIpv6FragmentKey {
  k6_identification : Z; k6_source : bytes; k6_destination : bytes;
}.

#[global] Instance Ipv6FragmentKey_eq_dec : EqDecision Ipv6FragmentKey.
Proof. solve_decision. Defined.

#[global] Instance Ipv6FragmentKey_countable : Countable Ipv6FragmentKey.
Proof.
  refine (inj_countable' (λ k, (k6_identification k, k6_source k, k6_destination k))
    (λ '(i, s, d), mkIpv6FragmentKey i s d) _). by intros [].
Defined.

(** The derived order compares the fields in turn, and arrays byte by byte. *)
Fixpoint lex_lt (a b : list Z) : bool :=
  match a, b with
  | [], [] => false
  | [], _ :: _ => true
  | _ :: _, [] => false
  | x :: a, y :: b => (x <? y) || ((x =? y) && lex_lt a b)
  end.

Definition key_fields (k : FragmentKey) : list Z :=
  k_id k :: k_protocol k :: k_source k ++ k_destination k.
Definition key6_fields (k : Ipv6FragmentKey) : list Z :=
  k6_identification k :: k6_source k ++ k6_destination k.

(** ** An entry *)

Record ReassemblyEntry (A : Type) := mkReassembly {
  r_created_at : Z;
  r_total_length : nat;
  r_buffer : option bytes;
  r_pending : list (nat * bytes);
  r_bitmap : list Z;
  r_tag : A;
  r_have_last : bool;
}.
Arguments mkReassembly {A} _ _ _ _ _ _ _.
Arguments r_created_at {A} _.
Arguments r_total_length {A} _.
Arguments r_buffer {A} _.
Arguments r_pending {A} _.
Arguments r_bitmap {A} _.
Arguments r_tag {A} _.
Arguments r_have_last {A} _.

Definition ReassemblyEntry_new {A} (tag : A) (created_at : Z) : ReassemblyEntry A :=
  mkReassembly created_at 0 None [] [] tag false.

(** [n.div_ceil(8)]. *)
Definition div_ceil8 (n : nat) : nat := ((n + 7) / 8)%nat.

Definition mark_block (bitmap : list Z) (block_index : nat) : list Z :=
  let byte_idx := (block_index / 8)%nat in
  let bit_idx := (block_index mod 8)%nat in
  let bitmap :=
    if (length bitmap <=? byte_idx)%nat then bitmap ++ replicate (byte_idx + 1 - length bitmap) 0 else bitmap in
  alter (λ b, Z.lor b (Z.shiftl 1 (Z.of_nat bit_idx))) byte_idx bitmap.

(** [for i in 0..block_count]. *)
Definition mark_blocks (bitmap : list Z) (block_start block_count : nat) : list Z :=
  foldl (λ bm i, mark_block bm (block_start + i)) bitmap (seq 0 block_count).

(** [bitmap[i / 8] & (1 << (i % 8)) != 0], false where the bitmap ends. *)
Definition block_set (bitmap : list Z) (i : nat) : bool :=
  match bitmap !! (i / 8)%nat with
  | Some b => negb (Z.land b (Z.shiftl 1 (Z.of_nat (i mod 8))) =? 0)
  | None => false
  end.

Definition overlaps (bitmap : list Z) (block_start block_count : nat) : bool :=
  existsb (λ i, block_set bitmap (block_start + i)) (seq 0 block_count).

(** Both loops index below [needed_bytes], within the bitmap. *)
Definition all_blocks {A} (e : ReassemblyEntry A) : bool :=
  let total_blocks := div_ceil8 (r_total_length e) in
  if (total_blocks =? 0)%nat then true else
  if (length (r_bitmap e) <? div_ceil8 total_blocks)%nat then false else
  forallb (block_set (r_bitmap e)) (seq 0 total_blocks).

Definition is_complete {A} (e : ReassemblyEntry A) : bool :=
  if negb (r_have_last e) then false else
  if (r_total_length e =? 0)%nat || (match r_buffer e with None => true | Some _ => false end) then false else
  all_blocks e.

Definition ipv6_is_complete {A} (e : ReassemblyEntry A) : bool :=
  if negb (r_have_last e) || (r_total_length e =? 0)%nat then false else all_blocks e.

(** A fragment's data goes into the buffer as far as it fits. *)
Definition put_fragment (buf : bytes) (off : nat) (data : bytes) : outcome bytes :=
  let end_ := Nat.min (off + length data) (length buf) in
  let copy_len := Nat.min (end_ - off) (length data) in
  if (off <? length buf)%nat then copy_at buf off (take copy_len data) else Ret buf.

(** [for (off, frag_data) in pending]. *)
Fixpoint put_pending (buf : bytes) (pending : list (nat * bytes)) : outcome bytes :=
  match pending with
  | [] => Ret buf
  | (off, data) :: pending => buf ← put_fragment buf off data; put_pending buf pending
  end.

(** ** IPv4 *)

Definition FragmentCache := gmap FragmentKey (ReassemblyEntry Ipv4Header).
Definition FragmentCache_new : FragmentCache := ∅.

Definition more_fragments (h : Ipv4Header) : bool := negb (Z.land (flags_fragment_offset h) 8192 =? 0).
Definition fragment_offset (h : Ipv4Header) : nat := Z.to_nat (Z.land (flags_fragment_offset h) 8191).

Definition fragment_key (h : Ipv4Header) : FragmentKey :=
  mkFragmentKey (identification h) (to_u8 (protocol h)) (source h) (destination h).

(** [if !mf]: the length is known, the buffer is allocated and takes what is pending. *)
Definition note_last {A} (e : ReassemblyEntry A) (total_payload : nat) : outcome (ReassemblyEntry A) :=
  match r_buffer e with
  | None =>
      if Z.of_nat total_payload <=? MAX_DATAGRAM_SIZE then
        buf ← put_pending (replicate total_payload 0) (r_pending e);
        Ret (mkReassembly (r_created_at e) total_payload (Some buf) [] (r_bitmap e) (r_tag e) true)
      else Ret (mkReassembly (r_created_at e) (r_total_length e) None (r_pending e) (r_bitmap e) (r_tag e) true)
  | Some buf =>
      Ret (mkReassembly (r_created_at e) (r_total_length e) (Some buf) (r_pending e) (r_bitmap e) (r_tag e) true)
  end.

(** The data is copied into the buffer or queued, and its blocks are marked. *)
Definition store_fragment {A} (e : ReassemblyEntry A) (block_start : nat) (data : bytes)
    : outcome (ReassemblyEntry A) :=
  let byte_offset := (block_start * 8)%nat in
  '(buffer, pending) ←
    match r_buffer e with
    | Some buf => buf ← put_fragment buf byte_offset data; Ret (Some buf, r_pending e)
    | None => Ret (None, r_pending e ++ [(byte_offset, data)])
    end;
  Ret (mkReassembly (r_created_at e) (r_total_length e) buffer pending
    (mark_blocks (r_bitmap e) block_start (div_ceil8 (length data))) (r_tag e) (r_have_last e)).

Definition reassembled_header (h : Ipv4Header) (n : nat) : Ipv4Header :=
  mkIpv4Header (Z.min (Z.of_nat (IPV4_MIN_HEADER_SIZE + n)) 65535) (identification h) 0 (ttl h)
    (protocol h) (header_checksum h) (source h) (destination h).

Definition process_ipv4_fragment (cache : FragmentCache) (packet : Ipv4Packet) (current_tick : Z)
    : outcome (FragmentCache * option Ipv4Packet) :=
  let hdr := packet_header packet in
  let mf := more_fragments hdr in
  let block_start := fragment_offset hdr in
  if negb mf && (block_start =? 0)%nat then Ret (cache, Some packet) else
  let key := fragment_key hdr in
  let entry := default (ReassemblyEntry_new hdr current_tick) (cache !! key) in
  let data := packet_payload packet in
  if overlaps (r_bitmap entry) block_start (div_ceil8 (length data)) then Ret (delete key cache, None) else
  entry ← (if mf then Ret entry else note_last entry (block_start * 8 + length data));
  entry ← store_fragment entry block_start data;
  if is_complete entry then
    let payload := default [] (r_buffer entry) in
    Ret (delete key cache, Some (mkIpv4Packet (reassembled_header (r_tag entry) (length payload)) payload))
  else Ret (<[key := entry]> cache, None).

(** ** Eviction *)

(** [keys().next()]: the least key. *)
Definition first_key {K V} `{Countable K} (fields : K → list Z) (m : gmap K V) : option K :=
  foldl (λ best kv, match best with
    | None => Some kv.1
    | Some k => if lex_lt (fields kv.1) (fields k) then Some kv.1 else best
    end) None (map_to_list m).

(** [while cache.entries.len() > MAX_REASSEMBLY_ENTRIES]. *)
Fixpoint drop_first {K V} `{Countable K} (fuel : nat) (fields : K → list Z) (m : gmap K V) : outcome (gmap K V) :=
  match fuel with
  | O => NoFuel
  | S fuel =>
      if (MAX_REASSEMBLY_ENTRIES <? size m)%nat then
        match first_key fields m with
        | Some key => drop_first fuel fields (delete key m)
        | None => Ret m
        end
      else Ret m
  end.

Definition unexpired {A} (current_tick : Z) (e : ReassemblyEntry A) : bool :=
  wrapping_sub current_tick (r_created_at e) <? FRAGMENT_TIMEOUT_TICKS.

Definition evict_expired_fragments (cache : FragmentCache) (current_tick : Z) : outcome FragmentCache :=
  let cache := filter (λ kv, unexpired current_tick kv.2 = true) cache in
  drop_first (S (size cache)) key_fields cache.

(** ** IPv6 *)

Definition Ipv6FragmentCache := gmap Ipv6FragmentKey (ReassemblyEntry Z).
Definition Ipv6FragmentCache_new : Ipv6FragmentCache := ∅.

(** The parsed fragment header; the next header is its number. *)
Record Ipv6FragmentHeader := mkIpv6FragmentHeader {
  f6_next_header : Z; f6_fragment_offset : nat; f6_more_fragments : bool; f6_identification : Z;
}.

(** [buf.resize(n, 0)] when it is shorter. *)
Definition grow (buf : bytes) (n : nat) : bytes :=
  if (length buf <? n)%nat then buf ++ replicate (n - length buf) 0 else buf.

Definition ipv6_store {A} (e : ReassemblyEntry A) (block_start : nat) (mf : bool) (payload : bytes)
    : outcome (ReassemblyEntry A) :=
  let byte_offset := (block_start * 8)%nat in
  let total := if mf then r_total_length e else (byte_offset + length payload)%nat in
  '(buffer, pending) ←
    match r_buffer e with
    | Some buf => buf ← copy_at (grow buf (byte_offset + length payload)) byte_offset payload; Ret (Some buf, r_pending e)
    | None =>
        if mf then Ret (None, r_pending e ++ [(byte_offset, payload)]) else
        buf ← copy_at (replicate total 0) byte_offset payload;
        buf ← put_pending buf (r_pending e);
        Ret (Some buf, [])
    end;
  Ret (mkReassembly (r_created_at e) total buffer pending
    (mark_blocks (r_bitmap e) block_start (div_ceil8 (length payload))) (r_tag e) (r_have_last e || negb mf)).

Definition process_ipv6_fragment (cache : Ipv6FragmentCache) (frag_header : Ipv6FragmentHeader)
    (payload src dst : bytes) (current_tick : Z) : outcome (Ipv6FragmentCache * option (Z * bytes)) :=
  let mf := f6_more_fragments frag_header in
  let block_start := f6_fragment_offset frag_header in
  if negb mf && (block_start =? 0)%nat then Ret (cache, Some (f6_next_header frag_header, payload)) else
  let key := mkIpv6FragmentKey (f6_identification frag_header) src dst in
  let entry := default (ReassemblyEntry_new (f6_next_header frag_header) current_tick) (cache !! key) in
  if negb (f6_next_header frag_header =? r_tag entry) then Ret (delete key cache, None) else
  if overlaps (r_bitmap entry) block_start (div_ceil8 (length payload)) then Ret (delete key cache, None) else
  entry ← ipv6_store entry block_start mf payload;
  if ipv6_is_complete entry then Ret (delete key cache, Some (r_tag entry, default [] (r_buffer entry)))
  else Ret (<[key := entry]> cache, None).

Definition evict_expired_ipv6_fragments (cache : Ipv6FragmentCache) (current_tick : Z) : outcome Ipv6FragmentCache :=
  let cache := filter (λ kv, unexpired current_tick kv.2 = true) cache in
  drop_first (S (size cache)) key6_fields cache.
