(* ===== verification/FragmentsTheorems.v ===== *)
(** * Reassembly gives back the datagram

    The fragments of a datagram may arrive in any order and between fragments of
    others: every one but the last to arrive is kept, and the last returns the
    datagram and frees its entry. *)

From stdpp Require Import base tactics decidable numbers list gmap.
From Stdlib Require Import ZArith Lia Bool.
From S2P Require Import Prelude Bytes Ipv4 Fragments.

(** ** The bitmap *)

Lemma land_bit b j : 0 ≤ j → negb (Z.land b (Z.shiftl 1 j) =? 0) = Z.testbit b j.
Proof.
  intros Hj. rewrite Z.shiftl_1_l. destruct (Z.testbit b j) eqn:E.
  - apply negb_true_iff, Z.eqb_neq. intros E0.
    assert (Z.testbit (Z.land b (2 ^ j)) j = true) by (rewrite Z.land_spec, E; by rewrite Z.pow2_bits_true).
    rewrite E0, Z.bits_0 in *. done.
  - apply negb_false_iff, Z.eqb_eq. apply Z.bits_inj_0. intros i. rewrite Z.land_spec.
    destruct (decide (i = j)) as [->|]; [by rewrite E|]. rewrite Z.pow2_bits_false by done. by rewrite andb_false_r.
Qed.

Lemma block_set_mark bm i x : block_set (mark_block bm i) x = block_set bm x || (x =? i)%nat.
Proof.
  unfold block_set, mark_block. set (n := (i / 8)%nat).
  set (bm' := if (length bm <=? n)%nat then bm ++ replicate (n + 1 - length bm) 0 else bm).
  assert (Hn : (n < length bm')%nat).
  { unfold bm'. destruct (Nat.leb_spec (length bm) n); [rewrite length_app, length_replicate; lia|lia]. }
  assert (Hb : ∀ k, bm' !! k = bm !! k ∨ bm !! k = None ∧ bm' !! k = Some 0 ∨ bm !! k = None ∧ bm' !! k = None).
  { intros k. unfold bm'. destruct (Nat.leb_spec (length bm) n); [|by left].
    destruct (decide (k < length bm)%nat); [left; by rewrite lookup_app_l|right].
    rewrite (lookup_ge_None_2 bm k) by lia. rewrite lookup_app_r by lia.
    destruct (replicate _ 0 !! (k - length bm)%nat) as [z|] eqn:Ez; [|by right].
    apply lookup_replicate in Ez as [-> _]. by left. }
  assert (Hset : ∀ k, match bm' !! k with Some b => Z.testbit b (Z.of_nat (x mod 8)) | None => false end =
    match bm !! k with Some b => Z.testbit b (Z.of_nat (x mod 8)) | None => false end).
  { intros k. destruct (Hb k) as [->|[[-> ->]|[-> ->]]]; [done|by rewrite Z.bits_0|done]. }
  assert (Ex : (x =? i)%nat = (x / 8 =? n)%nat && (x mod 8 =? i mod 8)%nat).
  { unfold n. pose proof (Nat.div_mod_eq x 8). pose proof (Nat.div_mod_eq i 8).
    destruct (Nat.eqb_spec x i) as [->|]; [by rewrite !Nat.eqb_refl|].
    destruct (Nat.eqb_spec (x / 8) (i / 8)), (Nat.eqb_spec (x mod 8) (i mod 8)); try done. lia. }
  rewrite Ex. specialize (Hset (x / 8)%nat). destruct (Nat.eqb_spec (x / 8) n) as [E|Hne].
  - rewrite E in *. rewrite list_lookup_alter_eq. destruct (lookup_lt_is_Some_2 bm' n Hn) as [b Eb]. rewrite Eb in *.
    cbn [fmap option_fmap option_map]. rewrite land_bit by lia. rewrite Z.lor_spec, Hset, Z.shiftl_1_l.
    f_equal; [by destruct (bm !! n); [rewrite land_bit by lia|]|]. cbn [andb].
    rewrite Z.pow2_bits_eqb by lia. apply eq_true_iff_eq. rewrite Z.eqb_eq, Nat.eqb_eq. lia.
  - rewrite list_lookup_alter_ne by done. cbn [andb]. rewrite orb_false_r.
    destruct (bm' !! (x / 8)%nat), (bm !! (x / 8)%nat); rewrite ?land_bit by lia; done.
Qed.

Lemma block_set_marks bm s n x :
  block_set (mark_blocks bm s n) x = block_set bm x || bool_decide (s ≤ x < s + n)%nat.
Proof.
  unfold mark_blocks. induction n as [|n IH].
  - rewrite bool_decide_false by lia. cbn. by rewrite orb_false_r.
  - rewrite seq_S, foldl_snoc, block_set_mark, IH, Nat.add_0_l, <- orb_assoc. f_equal.
    apply eq_true_iff_eq. rewrite orb_true_iff, !bool_decide_eq_true, Nat.eqb_eq. lia.
Qed.

Lemma overlaps_false bm s n : overlaps bm s n = false ↔ ∀ x, (s ≤ x < s + n)%nat → block_set bm x = false.
Proof.
  unfold overlaps. split.
  - intros Hf x Hx. apply not_true_is_false. intros E. apply (not_true_iff_false) in Hf. apply Hf, existsb_exists.
    exists (x - s)%nat. split; [apply in_seq; lia|]. by replace (s + (x - s))%nat with x by lia.
  - intros Hf. apply not_true_is_false. intros (i & Hi%in_seq & E)%existsb_exists. rewrite Hf in E; [done|lia].
Qed.

(** ** The buffer *)

(** Writing never goes past the buffer. *)
Lemma put_fragment_total buf off data : ∃ buf', put_fragment buf off data = Ret buf' ∧ length buf' = length buf.
Proof.
  unfold put_fragment. destruct (Nat.ltb_spec off (length buf)); [|by exists buf].
  set (n := Nat.min _ (length data)). destruct (copy_at_ok buf off (take n data)) as (b & E & Hl & _).
  { rewrite length_take. unfold n. lia. }
  by exists b.
Qed.

Lemma put_pending_total pending buf : ∃ buf', put_pending buf pending = Ret buf' ∧ length buf' = length buf.
Proof.
  revert buf. induction pending as [|[off data] pending IH]; intros buf; [by exists buf|].
  cbn [put_pending]. destruct (put_fragment_total buf off data) as (b & -> & Hl). cbn [mbind outcome_bind].
  destruct (IH b) as (b' & E & Hl'). exists b'. split; [done|congruence].
Qed.

Lemma put_fragment_ok buf off data : (off + length data ≤ length buf)%nat →
  ∃ buf', put_fragment buf off data = Ret buf' ∧ length buf' = length buf ∧
    ∀ j, buf' !! j = if decide (covers off data j) then data !! (j - off)%nat else buf !! j.
Proof.
  intros Hl. unfold put_fragment. cbv zeta.
  replace (Nat.min (Nat.min (off + length data) (length buf) - off) (length data)) with (length data) by lia.
  rewrite take_ge by lia.
  destruct (Nat.ltb_spec off (length buf)); [by apply copy_at_ok|].
  exists buf. split; [done|]. split; [done|]. intros j. unfold covers. case_decide; [lia|done].
Qed.

(** ** Pieces of a payload *)

Record piece := mkPiece { pc_off : nat; pc_more : bool; pc_data : bytes }.

Definition pc_byte (a : piece) : nat := (pc_off a * 8)%nat.
Definition has_block (a : piece) (x : nat) : Prop := (pc_off a ≤ x < pc_off a + div_ceil8 (length (pc_data a)))%nat.
Definition has_byte (a : piece) (j : nat) : Prop := covers (pc_byte a) (pc_data a) j.

(** A non-empty piece, of whole blocks unless it ends the payload. *)
Record piece_of (p : bytes) (a : piece) : Prop := {
  po_some : (0 < length (pc_data a))%nat;
  po_fits : (pc_byte a + length (pc_data a) ≤ length p)%nat;
  po_data j : has_byte a j → pc_data a !! (j - pc_byte a)%nat = p !! j;
  po_more : pc_more a = false ↔ (pc_byte a + length (pc_data a) = length p)%nat;
  po_whole : pc_more a = true → (length (pc_data a) mod 8 = 0)%nat;
}.

(** The pieces of one payload: each block in exactly one of them. *)
Record pieces_of (p : bytes) (l : list piece) : Prop := {
  ps_piece : Forall (piece_of p) l;
  ps_disjoint i j a b x : l !! i = Some a → l !! j = Some b → has_block a x → has_block b x → i = j;
  ps_cover x : (x < div_ceil8 (length p))%nat → ∃ a, a ∈ l ∧ has_block a x;
}.

Lemma div_ceil8_spec n : (8 * div_ceil8 n < n + 8 ∧ n ≤ 8 * div_ceil8 n)%nat.
Proof.
  unfold div_ceil8. pose proof (Nat.div_mod_eq (n + 7) 8). pose proof (Nat.mod_upper_bound (n + 7) 8 ltac:(lia)). lia.
Qed.

(** A byte lies in the piece that has its block. *)
Lemma block_byte p a j : piece_of p a → (j < length p)%nat → has_block a (j / 8) → has_byte a j.
Proof.
  intros [Hs Hf _ Hm Hw] Hj [H1 H2]. unfold has_byte, covers, pc_byte in *.
  pose proof (Nat.div_mod_eq j 8). pose proof (Nat.mod_upper_bound j 8 ltac:(lia)).
  pose proof (div_ceil8_spec (length (pc_data a))). split; [lia|].
  destruct (pc_more a) eqn:Em; [|pose proof (proj1 Hm eq_refl); lia].
  specialize (Hw eq_refl). pose proof (Nat.div_mod_eq (length (pc_data a)) 8).
  assert (div_ceil8 (length (pc_data a)) = (length (pc_data a) / 8)%nat) as Ed; [|rewrite Ed in *; lia].
  lia.
Qed.

(** ** What an entry holds *)

Record holds {A} (p : bytes) (got : list piece) (e : ReassemblyEntry A) : Prop := {
  h_bits x : block_set (r_bitmap e) x = true ↔ ∃ a, a ∈ got ∧ has_block a x;
  h_last : r_have_last e = true ↔ ∃ a, a ∈ got ∧ pc_more a = false;
  h_data : match r_buffer e with
    | Some buf => r_have_last e = true ∧ r_total_length e = length p ∧ length buf = length p ∧
        ∀ a j, a ∈ got → has_byte a j → buf !! j = p !! j
    | None => r_have_last e = false ∧ r_pending e = map (λ a, (pc_byte a, pc_data a)) got
    end;
}.

Lemma holds_new {A} p (tag : A) tick : holds p [] (ReassemblyEntry_new tag tick).
Proof.
  split; cbn.
  - intros x. split; [unfold block_set; by rewrite lookup_nil|]. intros (a & Ha & _). by apply elem_of_nil in Ha.
  - split; [done|]. intros (a & Ha & _). by apply elem_of_nil in Ha.
  - done.
Qed.

(** A piece copied into the buffer. *)
Lemma put_piece p a buf : piece_of p a → length buf = length p →
  ∃ buf', put_fragment buf (pc_byte a) (pc_data a) = Ret buf' ∧ length buf' = length p ∧
    ∀ j, (has_byte a j → buf' !! j = p !! j) ∧ (buf !! j = p !! j → buf' !! j = p !! j).
Proof.
  intros [Hs Hf Hd _ _] Hl. destruct (put_fragment_ok buf (pc_byte a) (pc_data a)) as (b & E & Hb & Hj); [lia|].
  exists b. split; [done|]. split; [congruence|]. intros j. rewrite Hj. split.
  - intros Hc. rewrite decide_True by done. by apply Hd.
  - intros Ej. case_decide as Hc; [by apply Hd|done].
Qed.

Lemma put_pieces p got buf : Forall (piece_of p) got → length buf = length p →
  ∃ buf', put_pending buf (map (λ a, (pc_byte a, pc_data a)) got) = Ret buf' ∧ length buf' = length p ∧
    (∀ a j, a ∈ got → has_byte a j → buf' !! j = p !! j) ∧ (∀ j, buf !! j = p !! j → buf' !! j = p !! j).
Proof.
  revert buf. induction got as [|a got IH]; intros buf Hg Hl.
  { exists buf. split; [done|]. split; [done|]. split; [|done]. intros a j Ha. by apply elem_of_nil in Ha. }
  apply Forall_cons_1 in Hg as [Ha Hg]. cbn [map put_pending].
  destruct (put_piece p a buf Ha Hl) as (b & -> & Hb & Hj). cbn [mbind outcome_bind].
  destruct (IH b Hg Hb) as (b' & E & Hb' & Hg' & Hj'). exists b'. split; [done|]. split; [done|]. split.
  - intros a' j [->|Hin]%elem_of_cons Hc; [by apply Hj', (proj1 (Hj j))|by eapply Hg'].
  - intros j Ej. by apply Hj', (proj2 (Hj j)).
Qed.

(** ** Completion *)

Lemma all_blocks_spec {A} (e : ReassemblyEntry A) :
  all_blocks e = true ↔ ∀ x, (x < div_ceil8 (r_total_length e))%nat → block_set (r_bitmap e) x = true.
Proof.
  unfold all_blocks. set (n := div_ceil8 (r_total_length e)). destruct (Nat.eqb_spec n 0) as [->|Hn].
  { split; [intros _ x Hx; lia|done]. }
  assert (Hall : forallb (block_set (r_bitmap e)) (seq 0 n) = true ↔ ∀ x, (x < n)%nat → block_set (r_bitmap e) x = true).
  { rewrite forallb_forall. split.
    - intros H x Hx. apply H, in_seq. lia.
    - intros H x Hx%in_seq. apply H. lia. }
  destruct (Nat.ltb_spec (length (r_bitmap e)) (div_ceil8 n)) as [Hlt|]; [|done]. split; [done|]. intros H.
  exfalso. specialize (H (n - 1)%nat ltac:(lia)). unfold block_set in H.
  destruct (r_bitmap e !! ((n - 1) / 8)%nat) eqn:E; [|done]. apply lookup_lt_Some in E.
  pose proof (div_ceil8_spec n). pose proof (Nat.div_mod_eq (n - 1) 8).
  pose proof (Nat.mod_upper_bound (n - 1) 8 ltac:(lia)). lia.
Qed.

Definition complete (p : bytes) (got : list piece) : Prop :=
  (∃ a, a ∈ got ∧ pc_more a = false) ∧ ∀ x, (x < div_ceil8 (length p))%nat → ∃ a, a ∈ got ∧ has_block a x.

Lemma holds_complete {A} p got (e : ReassemblyEntry A) : holds p got e → (0 < length p)%nat →
  (is_complete e = true ↔ complete p got) ∧ (ipv6_is_complete e = true ↔ complete p got).
Proof.
  intros [Hb Hl Hd] Hp. unfold is_complete, ipv6_is_complete, complete. rewrite <- Hl.
  destruct (r_buffer e) as [buf|].
  - destruct Hd as (-> & Et & _ & _). cbn [negb orb]. rewrite (proj2 (Nat.eqb_neq (r_total_length e) 0)) by lia.
    cbn [orb]. rewrite all_blocks_spec, Et.
    assert (Hx : (∀ x, (x < div_ceil8 (length p))%nat → block_set (r_bitmap e) x = true) ↔
      true = true ∧ ∀ x, (x < div_ceil8 (length p))%nat → ∃ a, a ∈ got ∧ has_block a x).
    { split; [intros H; split; [done|]; intros x Hx; by apply Hb, H|intros [_ H] x Hx; by apply Hb, H]. }
    done.
  - destruct Hd as [-> _]. cbn [negb orb]. naive_solver.
Qed.

(** A complete entry holds the payload. *)
Lemma holds_payload {A} p got (e : ReassemblyEntry A) : holds p got e → Forall (piece_of p) got →
  complete p got → r_buffer e = Some p.
Proof.
  intros [_ Hl Hd] Hg [Hlast Hc]. destruct (r_buffer e) as [buf|]; [|by destruct Hd as [E _]; apply Hl in Hlast; congruence].
  destruct Hd as (_ & _ & Hlen & Hd). f_equal. apply list_eq. intros j.
  destruct (decide (j < length p)%nat); [|by rewrite !lookup_ge_None_2 by lia].
  destruct (Hc (j / 8)%nat) as (a & Ha & Hx).
  { pose proof (div_ceil8_spec (length p)). pose proof (Nat.div_mod_eq j 8). lia. }
  apply (Hd a j Ha). apply (block_byte p); [|done|done]. by eapply Forall_forall in Hg.
Qed.

(** ** One more piece *)

Lemma exists_snoc {B} (P : B → Prop) (l : list B) (a : B) :
  (∃ b, b ∈ l ++ [a] ∧ P b) ↔ (∃ b, b ∈ l ∧ P b) ∨ P a.
Proof.
  split.
  - intros (b & [Hb|Hb%list_elem_of_singleton]%elem_of_app & Hp); [left; by exists b|right; by subst b].
  - intros [(b & Hb & Hp)|Hp]; [exists b; split; [apply elem_of_app; by left|done]|exists a].
    split; [apply elem_of_app; right; by apply list_elem_of_singleton|done].
Qed.

Lemma bits_snoc bm got a x : (block_set bm x = true ↔ ∃ b, b ∈ got ∧ has_block b x) →
  (block_set (mark_blocks bm (pc_off a) (div_ceil8 (length (pc_data a)))) x = true ↔
   ∃ b, b ∈ got ++ [a] ∧ has_block b x).
Proof.
  intros Hb. rewrite block_set_marks, orb_true_iff, Hb, bool_decide_eq_true, (exists_snoc (λ b, has_block b x)). done.
Qed.

Lemma last_snoc (last : bool) got a : (last = true ↔ ∃ b, b ∈ got ∧ pc_more b = false) →
  (last || negb (pc_more a) = true ↔ ∃ b, b ∈ got ++ [a] ∧ pc_more b = false).
Proof.
  intros Hl. rewrite orb_true_iff, Hl, negb_true_iff, (exists_snoc (λ b, pc_more b = false)). done.
Qed.

(** What the buffer or the queue holds after the piece. *)
Lemma bytes_snoc (p : bytes) got a (buf buf' : bytes) :
  (∀ b j, b ∈ got → has_byte b j → buf !! j = p !! j) →
  (∀ j, (has_byte a j → buf' !! j = p !! j) ∧ (buf !! j = p !! j → buf' !! j = p !! j)) →
  ∀ b j, b ∈ got ++ [a] → has_byte b j → buf' !! j = p !! j.
Proof.
  intros Hg Ha b j [Hb|Hb%list_elem_of_singleton]%elem_of_app Hj; [|subst b; by apply (proj1 (Ha j))].
  apply (proj2 (Ha j)). by eapply Hg.
Qed.

(** IPv4 takes a piece. *)
Lemma take_piece {A} p got (e : ReassemblyEntry A) a :
  holds p got e → Forall (piece_of p) got → piece_of p a → Z.of_nat (length p) ≤ MAX_DATAGRAM_SIZE →
  (pc_more a = false → r_have_last e = false) →
  ∃ e', (e1 ← (if pc_more a then Ret e else note_last e (pc_byte a + length (pc_data a)));
         store_fragment e1 (pc_off a) (pc_data a)) = Ret e' ∧
    holds p (got ++ [a]) e' ∧ r_tag e' = r_tag e.
Proof.
  intros [Hb Hl Hd] Hg Ha Hmax Hfresh. pose proof (last_snoc _ _ a Hl) as Hl'.
  assert (Hb' := λ x, bits_snoc _ _ a x (Hb x)).
  destruct (pc_more a) eqn:Em; cbn [negb] in Hl'; rewrite ?orb_false_r, ?orb_true_r in Hl'.
  - cbn [mbind outcome_bind]. unfold store_fragment. cbv zeta. fold (pc_byte a).
    destruct (r_buffer e) as [buf|].
    + destruct Hd as (H1 & H2 & H3 & H4). destruct (put_piece p a buf Ha H3) as (b & -> & Lb & Hj).
      cbn [mbind outcome_bind]. eexists. split; [done|]. split; [|done]. split; [exact Hb'|exact Hl'|]. cbn.
      split; [done|]. split; [done|]. split; [done|]. by eapply bytes_snoc.
    + destruct Hd as [H1 H2]. cbn [mbind outcome_bind]. eexists. split; [done|]. split; [|done].
      split; [exact Hb'|exact Hl'|]. cbn. split; [done|]. by rewrite H2, map_app.
  - specialize (Hfresh eq_refl). unfold note_last. destruct (r_buffer e) as [buf|].
    { destruct Hd as [H1 _]. congruence. }
    destruct Hd as [_ H2]. pose proof (proj1 (po_more _ _ Ha) Em) as Elen. rewrite Elen.
    rewrite (proj2 (Z.leb_le _ _) Hmax), H2.
    destruct (put_pieces p got (replicate (length p) 0) Hg) as (b & -> & Lb & Hg' & _); [apply length_replicate|].
    cbn [mbind outcome_bind]. unfold store_fragment. cbn [r_buffer r_pending r_created_at r_total_length r_bitmap r_tag r_have_last].
    fold (pc_byte a). destruct (put_piece p a b Ha Lb) as (b' & -> & Lb' & Hj).
    cbn [mbind outcome_bind]. eexists. split; [done|]. split; [|done]. split; [exact Hb'|exact Hl'|]. cbn.
    split; [done|]. split; [done|]. split; [done|]. by eapply bytes_snoc.
Qed.

(** IPv6 takes a piece. *)
Lemma ipv6_take_piece {A} p got (e : ReassemblyEntry A) a :
  holds p got e → Forall (piece_of p) got → piece_of p a →
  (pc_more a = false → r_have_last e = false) →
  ∃ e', ipv6_store e (pc_off a) (pc_more a) (pc_data a) = Ret e' ∧
    holds p (got ++ [a]) e' ∧ r_tag e' = r_tag e.
Proof.
  intros [Hb Hl Hd] Hg Ha Hfresh. pose proof (last_snoc _ _ a Hl) as Hl'.
  assert (Hb' := λ x, bits_snoc _ _ a x (Hb x)). unfold ipv6_store. cbv zeta. fold (pc_byte a).
  assert (Hcopy : ∀ buf, length buf = length p → ∃ b, copy_at buf (pc_byte a) (pc_data a) = Ret b ∧ length b = length p ∧
    ∀ j, (has_byte a j → b !! j = p !! j) ∧ (buf !! j = p !! j → b !! j = p !! j)).
  { intros buf Lb. pose proof (po_fits _ _ Ha). pose proof (po_data _ _ Ha) as Hda.
    destruct (copy_at_ok buf (pc_byte a) (pc_data a)) as (b & E & L & Hj); [lia|].
    exists b. split; [done|]. split; [congruence|]. intros j. rewrite Hj. split.
    - intros Hc. rewrite decide_True by done. by apply Hda.
    - intros Ej. case_decide; [by apply Hda|done]. }
  destruct (r_buffer e) as [buf|].
  - destruct Hd as (H1 & H2 & H3 & H4). unfold grow. pose proof (po_fits _ _ Ha).
    destruct (Nat.ltb_spec (length buf) (pc_byte a + length (pc_data a))); [lia|].
    destruct (Hcopy buf H3) as (b & -> & Lb & Hj). cbn [mbind outcome_bind].
    destruct (pc_more a) eqn:Em; [|specialize (Hfresh eq_refl); congruence].
    eexists. split; [done|]. split; [|done]. split; [exact Hb'|exact Hl'|]. cbn.
    rewrite H1. split; [done|]. split; [done|]. split; [done|]. by eapply bytes_snoc.
  - destruct Hd as [H1 H2]. destruct (pc_more a) eqn:Em; cbn [mbind outcome_bind].
    + eexists. split; [done|]. split; [|done]. split; [exact Hb'|exact Hl'|]. cbn. rewrite H1. split; [done|].
      by rewrite H2, map_app.
    + pose proof (proj1 (po_more _ _ Ha) Em) as Elen. rewrite Elen, H2.
      destruct (Hcopy (replicate (length p) 0)) as (b & -> & Lb & Hj); [apply length_replicate|].
      cbn [mbind outcome_bind]. destruct (put_pieces p got b Hg Lb) as (b' & -> & Lb' & Hg' & Hk).
      cbn [mbind outcome_bind]. eexists. split; [done|]. split; [|done]. split; [exact Hb'|exact Hl'|]. cbn.
      rewrite H1. split; [done|]. split; [done|]. split; [done|].
      intros c j [Hc|Hc%list_elem_of_singleton]%elem_of_app Hcj; [by eapply Hg'|].
      subst c. by apply Hk, (proj1 (Hj j)).
Qed.

(** ** The last piece *)

Lemma last_block p a : piece_of p a → pc_more a = false → has_block a (div_ceil8 (length p) - 1).
Proof.
  intros [Hs Hf _ Hm _] Em. apply Hm in Em. unfold has_block, pc_byte in *.
  pose proof (div_ceil8_spec (length p)). pose proof (div_ceil8_spec (length (pc_data a))). lia.
Qed.

Lemma last_block_last p a : piece_of p a → (0 < length p)%nat → has_block a (div_ceil8 (length p) - 1) → pc_more a = false.
Proof.
  intros [Hs Hf _ Hm Hw] Hp [H1 H2]. destruct (pc_more a); [exfalso|done]. specialize (Hw eq_refl).
  assert (pc_byte a + length (pc_data a) ≠ length p)%nat by (intros E; by apply Hm in E). unfold pc_byte in *.
  pose proof (div_ceil8_spec (length p)). pose proof (div_ceil8_spec (length (pc_data a))).
  pose proof (Nat.div_mod_eq (length (pc_data a)) 8). lia.
Qed.

Lemma first_block p a : piece_of p a → has_block a (pc_off a) ∧ (pc_off a < div_ceil8 (length p))%nat.
Proof.
  intros [Hs Hf _ _ _]. unfold has_block, pc_byte in *.
  pose proof (div_ceil8_spec (length p)). pose proof (div_ceil8_spec (length (pc_data a))). lia.
Qed.

(** Pieces that came and pieces to come share no block. *)
Lemma apart p got a rest b x : pieces_of p (got ++ a :: rest) → b ∈ got → has_block b x → has_block a x → False.
Proof.
  intros [_ Hd _] [i Hi]%list_elem_of_lookup Hb Ha. pose proof (lookup_lt_Some _ _ _ Hi).
  assert (i = length got); [|lia]. eapply (Hd i (length got) b a x); [by rewrite lookup_app_l| |done|done].
  rewrite lookup_app_r, Nat.sub_diag by lia. done.
Qed.

Lemma complete_all p l : pieces_of p l → (0 < length p)%nat → complete p l.
Proof.
  intros [Hp _ Hc] Hl. split; [|exact Hc]. destruct (Hc (div_ceil8 (length p) - 1)%nat) as (a & Ha & Hx).
  { pose proof (div_ceil8_spec (length p)). lia. }
  exists a. split; [done|]. apply (last_block_last p); [|done|done]. by eapply Forall_forall in Hp.
Qed.

Lemma incomplete p got a rest : pieces_of p (got ++ a :: rest) → ¬ complete p got.
Proof.
  intros Hps [_ Hc]. assert (Ha : piece_of p a).
  { pose proof (ps_piece _ _ Hps) as Hp. apply Forall_app in Hp as [_ Hp]. by apply Forall_cons_1 in Hp as [? _]. }
  destruct (first_block p a Ha) as [Hx Hlt]. destruct (Hc _ Hlt) as (b & Hb & Hbx). by eapply apart.
Qed.

(** ** Streams *)

Section Stream.
Context {P S E Out : Type} (step : S → P → outcome (S * option Out)).

Fixpoint receive (s : S) (stream : list P) : outcome (S * list (option Out)) :=
  match stream with
  | [] => Ret (s, [])
  | k :: stream =>
      '(s, o) ← step s k;
      '(s, answers) ← receive s stream;
      Ret (s, o :: answers)
  end.

(** The packets of one datagram among those of a stream, and their answers. *)
Context (mine : P → bool).

Definition own (stream : list P) : list P := filter (λ k, mine k = true) stream.
Definition own_answers (stream : list P) (answers : list (option Out)) : list (option Out) :=
  map snd (filter (λ ka, mine ka.1 = true) (zip stream answers)).

Context (look : S → option E) (pc : P → piece) (p : bytes) (inv : P → list piece → E → Prop)
  (good : P → Prop) (result : P → Out).

Definition collecting (s : S) (got : list P) : Prop :=
  match got with
  | [] => look s = None
  | first :: _ => ∃ e, look s = Some e ∧ inv first (map pc got) e
  end.

Hypothesis step_other : ∀ s k, mine k = false → ∃ s' o, step s k = Ret (s', o) ∧ look s' = look s.
Hypothesis step_own : ∀ s k got rest, mine k = true → Forall good (got ++ [k]) → pieces_of p (map pc (got ++ k :: rest)) → collecting s got →
  ∃ s' o, step s k = Ret (s', o) ∧
    (complete p (map pc (got ++ [k])) → o = Some (result (hd k got)) ∧ look s' = None) ∧
    (¬ complete p (map pc (got ++ [k])) → o = None ∧ collecting s' (got ++ [k])).

Lemma receive_others s stream : own stream = [] →
  ∃ s' answers, receive s stream = Ret (s', answers) ∧ look s' = look s ∧ own_answers stream answers = [].
Proof.
  revert s. induction stream as [|k stream IH]; intros s Ho; [by exists s, []|].
  unfold own in Ho. destruct (mine k) eqn:Em; [by rewrite filter_cons_True in Ho|].
  rewrite filter_cons_False in Ho by congruence. destruct (step_other s k Em) as (s1 & o & E1 & L1).
  destruct (IH s1 Ho) as (s2 & answers & E2 & L2 & A2). exists s2, (o :: answers). cbn [receive].
  rewrite E1. cbn [mbind outcome_bind]. rewrite E2. cbn [mbind outcome_bind]. split; [done|]. split; [congruence|].
  unfold own_answers in *. cbn [zip_with]. rewrite filter_cons_False by (cbn; congruence). done.
Qed.

(** Every piece but the last to arrive is kept, the last returns the datagram. *)
Lemma receive_collects s stream got k0 rest : own stream = k0 :: rest →
  pieces_of p (map pc (got ++ k0 :: rest)) → Forall good (got ++ k0 :: rest) → (0 < length p)%nat →
  collecting s got →
  ∃ s' answers, receive s stream = Ret (s', answers) ∧ look s' = None ∧
    own_answers stream answers = replicate (length rest) None ++ [Some (result (hd k0 got))].
Proof.
  intros Ho Hps Hg Hp Hs. revert s got k0 rest Ho Hps Hg Hs.
  induction stream as [|k stream IH]; intros s got k0 rest Ho Hps Hg Hs; [done|].
  unfold own in Ho. destruct (mine k) eqn:Em; cycle 1.
  { rewrite filter_cons_False in Ho by congruence. destruct (step_other s k Em) as (s1 & o & E1 & L1).
    destruct (IH s1 got k0 rest Ho Hps Hg) as (s2 & answers & E2 & L2 & A2).
    { unfold collecting in *. by rewrite L1. }
    exists s2, (o :: answers). cbn [receive]. rewrite E1. cbn [mbind outcome_bind]. rewrite E2. cbn [mbind outcome_bind].
    split; [done|]. split; [done|]. unfold own_answers in *. cbn [zip_with].
    rewrite filter_cons_False by (cbn; congruence). done. }
  rewrite filter_cons_True in Ho by done. injection Ho as -> Ho.
  assert (Hg1 : Forall good (got ++ [k0])).
  { apply Forall_app in Hg as [? [? _]%Forall_cons_1]. apply Forall_app. split; [done|by constructor]. }
  destruct (step_own s k0 got rest Em Hg1 Hps Hs) as (s1 & o & E1 & Hc & Hn).
  assert (Hown : ∀ answers, own_answers (k0 :: stream) (o :: answers) = o :: own_answers stream answers).
  { intros answers. unfold own_answers. cbn [zip_with]. by rewrite filter_cons_True. }
  cbn [receive]. rewrite E1. cbn [mbind outcome_bind]. destruct rest as [|k1 rest].
  - destruct Hc as [-> L1]; [by apply complete_all|].
    destruct (receive_others s1 stream Ho) as (s2 & answers & E2 & L2 & A2).
    exists s2, (Some (result (hd k0 got)) :: answers). rewrite E2. cbn [mbind outcome_bind]. split; [done|].
    split; [congruence|]. by rewrite Hown, A2.
  - rewrite (app_assoc got [k0] (k1 :: rest) : got ++ k0 :: k1 :: rest = _) in Hps, Hg.
    destruct Hn as [-> Hs1]; [rewrite map_app in Hps; by eapply incomplete|].
    destruct (IH s1 (got ++ [k0]) k1 rest Ho Hps Hg Hs1) as (s2 & answers & E2 & L2 & A2).
    exists s2, (None :: answers). rewrite E2. cbn [mbind outcome_bind]. split; [done|]. split; [done|].
    rewrite Hown, A2. by destruct got.
Qed.
End Stream.

(** ** IPv4 *)

Definition piece_in (packet : Ipv4Packet) : piece :=
  mkPiece (fragment_offset (packet_header packet)) (more_fragments (packet_header packet)) (packet_payload packet).

(** A fragment of the datagram [key] names, received at a tick. *)
Definition fragment_of (key : FragmentKey) (k : Ipv4Packet * Z) : bool :=
  let h := packet_header k.1 in
  negb (negb (more_fragments h) && (fragment_offset h =? 0)%nat) && bool_decide (fragment_key h = key).

Definition receive_ipv4 (cache : FragmentCache) (k : Ipv4Packet * Z) : outcome (FragmentCache * option Ipv4Packet) :=
  process_ipv4_fragment cache k.1 k.2.

Lemma note_last_total {A} (e : ReassemblyEntry A) n : ∃ e', note_last e n = Ret e'.
Proof.
  unfold note_last. destruct (r_buffer e); [by eexists|]. destruct (_ <=? _); [|by eexists].
  destruct (put_pending_total (r_pending e) (replicate n 0)) as (b & -> & _). by eexists.
Qed.

Lemma store_fragment_total {A} (e : ReassemblyEntry A) off data : ∃ e', store_fragment e off data = Ret e'.
Proof.
  unfold store_fragment. cbv zeta. destruct (r_buffer e) as [buf|]; [|by eexists].
  destruct (put_fragment_total buf (off * 8) data) as (b & -> & _). by eexists.
Qed.

(** A packet of another datagram: no panic, and this entry is left alone. *)
Lemma process_ipv4_other cache packet tick key :
  fragment_of key (packet, tick) = false →
  ∃ cache' o, process_ipv4_fragment cache packet tick = Ret (cache', o) ∧ cache' !! key = cache !! key.
Proof.
  unfold fragment_of. cbn [fst]. intros Hf. unfold process_ipv4_fragment. cbv zeta.
  set (h := packet_header packet) in *. destruct (negb (more_fragments h) && _); [by eexists _, _|].
  apply bool_decide_eq_false in Hf. destruct (overlaps _ _ _).
  { eexists _, _. split; [done|]. by apply lookup_delete_ne. }
  set (e := default _ _).
  assert (∃ e1, (if more_fragments h then Ret e else note_last e (fragment_offset h * 8 + length (packet_payload packet))) = Ret e1)
    as (e1 & ->) by (destruct (more_fragments h); [by eexists|apply note_last_total]).
  cbn [mbind outcome_bind]. destruct (store_fragment_total e1 (fragment_offset h) (packet_payload packet)) as (e2 & ->).
  cbn [mbind outcome_bind]. destruct (is_complete e2); eexists _, _; (split; [done|]).
  - by apply lookup_delete_ne.
  - by apply lookup_insert_ne.
Qed.

(** A piece does not overlap what came before it, and comes last once. *)
Lemma fresh_piece {A} p got a rest (e : ReassemblyEntry A) : pieces_of p (got ++ a :: rest) → holds p got e →
  overlaps (r_bitmap e) (pc_off a) (div_ceil8 (length (pc_data a))) = false ∧
  (pc_more a = false → r_have_last e = false).
Proof.
  intros Hps [Hb Hl _]. pose proof (ps_piece _ _ Hps) as [Hg [Ha _]%Forall_cons_1]%Forall_app. split.
  - apply overlaps_false. intros x Hx. apply not_true_is_false. intros (b & Hin & Hbx)%Hb. by eapply apart.
  - intros Em. apply not_true_is_false. intros (b & Hin & Eb)%Hl.
    eapply (apart p got a rest b); [done|done| |by apply last_block]. apply last_block; [|done].
    by eapply Forall_forall in Hg.
Qed.

Lemma pieces_some p a l : pieces_of p (a :: l) → (0 < length p)%nat.
Proof. intros [[[Hs Hf _ _ _] _]%Forall_cons_1 _ _]. lia. Qed.

Lemma process_ipv4_own key p cache k got rest :
  Z.of_nat (length p) ≤ MAX_DATAGRAM_SIZE → fragment_of key k = true →
  pieces_of p (map (piece_in ∘ fst) (got ++ k :: rest)) →
  collecting (lookup key) (piece_in ∘ fst) (λ first got e, holds p got e ∧ r_tag e = packet_header first.1) cache got →
  ∃ cache' o, receive_ipv4 cache k = Ret (cache', o) ∧
    (complete p (map (piece_in ∘ fst) (got ++ [k])) →
       o = Some (mkIpv4Packet (reassembled_header (packet_header (hd k got).1) (length p)) p) ∧ cache' !! key = None) ∧
    (¬ complete p (map (piece_in ∘ fst) (got ++ [k])) → o = None ∧
       collecting (lookup key) (piece_in ∘ fst) (λ first got e, holds p got e ∧ r_tag e = packet_header first.1)
         cache' (got ++ [k])).
Proof.
  destruct k as [packet tick]. intros Hmax Hm Hps Hc. unfold fragment_of in Hm. cbn [fst] in Hm.
  apply andb_prop in Hm as [Hfrag Hkey%bool_decide_eq_true]. apply negb_true_iff in Hfrag.
  rewrite map_app in Hps. cbn [map] in Hps. set (a := piece_in packet).
  change ((piece_in ∘ fst) (packet, tick)) with a in Hps.
  unfold receive_ipv4, process_ipv4_fragment. cbn [fst snd]. cbv zeta. rewrite Hfrag, Hkey.
  set (e := default _ (cache !! key)).
  assert (He : holds p (map (piece_in ∘ fst) got) e ∧ r_tag e = packet_header (hd (packet, tick) got).1).
  { unfold e. destruct got as [|first got]; cbn [collecting] in Hc.
    - rewrite Hc. split; [apply holds_new|done].
    - destruct Hc as (e0 & -> & Hh). exact Hh. }
  destruct He as [Hh Ht]. destruct (fresh_piece _ _ _ _ _ Hps Hh) as [Hov Hfresh].
  pose proof (ps_piece _ _ Hps) as [Hg [Ha _]%Forall_cons_1]%Forall_app.
  change (fragment_offset (packet_header packet)) with (pc_off a). change (packet_payload packet) with (pc_data a).
  change (more_fragments (packet_header packet)) with (pc_more a). rewrite Hov.
  destruct (take_piece p _ e a Hh Hg Ha Hmax Hfresh) as (e' & E & Hh' & Ht').
  change (pc_off a * 8)%nat with (pc_byte a).
  destruct (if pc_more a then Ret e else note_last e (pc_byte a + length (pc_data a))) as [e1| |]; [|done|done].
  cbn [mbind outcome_bind] in E |- *. rewrite E. cbn [mbind outcome_bind].
  rewrite map_app. change (map (piece_in ∘ fst) [(packet, tick)]) with [a].
  destruct (holds_complete p _ e' Hh') as [Hcp _]; [pose proof (po_some _ _ Ha); pose proof (po_fits _ _ Ha); lia|].
  destruct (is_complete e') eqn:Ec; eexists _, _; (split; [done|]); split; intros Hcomp.
  - rewrite (holds_payload p _ e' Hh'); [|apply Forall_app; by split; [|constructor]|done]. cbn [default].
    rewrite Ht', Ht. split; [done|]. by apply lookup_delete_eq.
  - exfalso. by apply Hcomp, Hcp.
  - by apply Hcp in Hcomp.
  - split; [done|]. assert (Hi : holds p (map (piece_in ∘ fst) got ++ [a]) e' ∧ r_tag e' = packet_header (hd (packet, tick) got).1).
    { split; [done|congruence]. }
    destruct got as [|first got]; cbn [app collecting]; exists e'; (split; [by apply lookup_insert_eq|]); [exact Hi|].
    rewrite map_cons, map_app. exact Hi.
Qed.

(** ** IPv6 *)

(** A fragment as it is received: its header, data, addresses and tick. *)
Record fragment6 := mkFragment6 {
  g_header : Ipv6FragmentHeader; g_data : bytes; g_source : bytes; g_destination : bytes; g_tick : Z;
}.

Definition piece_in6 (k : fragment6) : piece :=
  mkPiece (f6_fragment_offset (g_header k)) (f6_more_fragments (g_header k)) (g_data k).

Definition fragment6_key (k : fragment6) : Ipv6FragmentKey :=
  mkIpv6FragmentKey (f6_identification (g_header k)) (g_source k) (g_destination k).

Definition fragment6_of (key : Ipv6FragmentKey) (k : fragment6) : bool :=
  negb (negb (f6_more_fragments (g_header k)) && (f6_fragment_offset (g_header k) =? 0)%nat) &&
  bool_decide (fragment6_key k = key).

Definition receive_ipv6 (cache : Ipv6FragmentCache) (k : fragment6) : outcome (Ipv6FragmentCache * option (Z * bytes)) :=
  process_ipv6_fragment cache (g_header k) (g_data k) (g_source k) (g_destination k) (g_tick k).

Lemma grow_length buf n : (n ≤ length (grow buf n))%nat.
Proof. unfold grow. destruct (Nat.ltb_spec (length buf) n); [rewrite length_app, length_replicate; lia|lia]. Qed.

Lemma ipv6_store_total {A} (e : ReassemblyEntry A) off mf data : ∃ e', ipv6_store e off mf data = Ret e'.
Proof.
  unfold ipv6_store. cbv zeta. destruct (r_buffer e) as [buf|].
  - destruct (copy_at_ok (grow buf (off * 8 + length data)) (off * 8) data) as (b & -> & _); [apply grow_length|by eexists].
  - destruct mf; [by eexists|].
    destruct (copy_at_ok (replicate (off * 8 + length data) 0) (off * 8) data) as (b & -> & _); [by rewrite length_replicate|].
    cbn [mbind outcome_bind]. destruct (put_pending_total (r_pending e) b) as (b' & -> & _). by eexists.
Qed.

Lemma process_ipv6_other cache k key : fragment6_of key k = false →
  ∃ cache' o, receive_ipv6 cache k = Ret (cache', o) ∧ cache' !! key = cache !! key.
Proof.
  unfold fragment6_of, receive_ipv6, process_ipv6_fragment. cbv zeta. intros Hf.
  destruct (negb (f6_more_fragments (g_header k)) && _); [by eexists _, _|].
  apply bool_decide_eq_false in Hf. change (mkIpv6FragmentKey _ _ _) with (fragment6_key k).
  set (e := default _ _). destruct (negb (_ =? _)); [eexists _, _; split; [done|]; by apply lookup_delete_ne|].
  destruct (overlaps _ _ _); [eexists _, _; split; [done|]; by apply lookup_delete_ne|].
  destruct (ipv6_store_total e (f6_fragment_offset (g_header k)) (f6_more_fragments (g_header k)) (g_data k)) as (e' & ->).
  cbn [mbind outcome_bind]. destruct (ipv6_is_complete e'); eexists _, _; (split; [done|]).
  - by apply lookup_delete_ne.
  - by apply lookup_insert_ne.
Qed.

Lemma process_ipv6_own key p nh cache k got rest :
  fragment6_of key k = true → Forall (λ k, f6_next_header (g_header k) = nh) (got ++ [k]) →
  pieces_of p (map piece_in6 (got ++ k :: rest)) →
  collecting (lookup key) piece_in6 (λ _ got e, holds p got e ∧ r_tag e = nh) cache got →
  ∃ cache' o, receive_ipv6 cache k = Ret (cache', o) ∧
    (complete p (map piece_in6 (got ++ [k])) → o = Some (nh, p) ∧ cache' !! key = None) ∧
    (¬ complete p (map piece_in6 (got ++ [k])) → o = None ∧
       collecting (lookup key) piece_in6 (λ _ got e, holds p got e ∧ r_tag e = nh) cache' (got ++ [k])).
Proof.
  intros Hm Hn Hps Hc. apply Forall_app in Hn as [_ [Hn _]%Forall_cons_1]. unfold fragment6_of in Hm.
  apply andb_prop in Hm as [Hfrag Hkey%bool_decide_eq_true]. apply negb_true_iff in Hfrag.
  rewrite map_app in Hps. cbn [map] in Hps. set (a := piece_in6 k) in *.
  unfold receive_ipv6, process_ipv6_fragment. cbv zeta. rewrite Hfrag.
  change (mkIpv6FragmentKey _ _ _) with (fragment6_key k). rewrite Hkey. set (e := default _ (cache !! key)).
  assert (He : holds p (map piece_in6 got) e ∧ r_tag e = nh).
  { unfold e. destruct got as [|first got]; cbn [collecting] in Hc.
    - rewrite Hc. split; [apply holds_new|exact Hn].
    - destruct Hc as (e0 & -> & Hh). exact Hh. }
  destruct He as [Hh Ht]. destruct (fresh_piece _ _ _ _ _ Hps Hh) as [Hov Hfresh].
  pose proof (ps_piece _ _ Hps) as [Hg [Ha _]%Forall_cons_1]%Forall_app.
  rewrite Hn, Ht, Z.eqb_refl. cbn [negb]. change (g_data k) with (pc_data a).
  change (f6_fragment_offset (g_header k)) with (pc_off a). change (f6_more_fragments (g_header k)) with (pc_more a).
  rewrite Hov. destruct (ipv6_take_piece p _ e a Hh Hg Ha Hfresh) as (e' & -> & Hh' & Ht'). cbn [mbind outcome_bind].
  rewrite map_app. change (map piece_in6 [k]) with [a].
  destruct (holds_complete p _ e' Hh') as [_ Hcp]; [pose proof (po_some _ _ Ha); pose proof (po_fits _ _ Ha); lia|].
  destruct (ipv6_is_complete e') eqn:Ec; eexists _, _; (split; [done|]); split; intros Hcomp.
  - rewrite (holds_payload p _ e' Hh'); [|apply Forall_app; by split; [|constructor]|done]. cbn [default].
    rewrite Ht', Ht. split; [done|]. by apply lookup_delete_eq.
  - exfalso. by apply Hcomp, Hcp.
  - by apply Hcp in Hcomp.
  - split; [done|]. assert (Hi : holds p (map piece_in6 got ++ [a]) e' ∧ r_tag e' = nh) by (split; [done|congruence]).
    destruct got as [|first got]; cbn [app collecting]; exists e'; (split; [by apply lookup_insert_eq|]); [exact Hi|].
    rewrite map_cons, map_app. exact Hi.
Qed.

(** ** Reassembly *)


(** IPv6 fragments reassemble in any order.  The same for IPv6, for fragments that
    agree on the next header: the last to arrive answers that header and the payload,
    and the entry is freed. *)
Theorem ipv6_reassembles_in_any_order cache key p nh stream first rest :
  cache !! key = None → own (fragment6_of key) stream = first :: rest →
  pieces_of p (map piece_in6 (first :: rest)) → Forall (λ k, f6_next_header (g_header k) = nh) (first :: rest) →
  ∃ cache' answers, receive receive_ipv6 cache stream = Ret (cache', answers) ∧ cache' !! key = None ∧
    own_answers (fragment6_of key) stream answers = replicate (length rest) None ++ [Some (nh, p)].
Proof.
  intros Hc Ho Hps Hn.
  apply (receive_collects receive_ipv6 (fragment6_of key) (lookup key) piece_in6 p
    (λ _ got e, holds p got e ∧ r_tag e = nh) (λ k, f6_next_header (g_header k) = nh) (λ _, (nh, p)))
    with (got := []) (k0 := first).
  - intros s k Hm. by apply process_ipv6_other.
  - intros s k got rest' Hm Hg Hps' Hcol. by apply (process_ipv6_own key p nh s k got rest').
  - done.
  - done.
  - done.
  - by eapply pieces_some.
  - done.
Qed.

(** ** Eviction *)

Section Evict.
Context {K V : Type} `{Countable K} (fields : K → list Z).

Lemma first_key_from (l : list (K * V)) best k :
  foldl (λ best kv, match best with
    | None => Some kv.1
    | Some k => if lex_lt (fields kv.1) (fields k) then Some kv.1 else best
    end) best l = Some k → best = Some k ∨ ∃ v, (k, v) ∈ l.
Proof.
  revert best. induction l as [|[k0 v0] l IH]; intros best E; cbn [foldl fst] in E; [by left|].
  destruct (IH _ E) as [Eb|[v Hv]]; [|right; exists v; by right].
  destruct best as [k1|]; [destruct (lex_lt _ _)|]; simplify_eq; try (right; exists v0; by left). by left.
Qed.

Lemma first_key_some (l : list (K * V)) best : (is_Some best ∨ l ≠ []) →
  is_Some (foldl (λ best kv, match best with
    | None => Some kv.1
    | Some k => if lex_lt (fields kv.1) (fields k) then Some kv.1 else best
    end) best l).
Proof.
  revert best. induction l as [|[k0 v0] l IH]; intros best Hb; cbn [foldl fst]; [by destruct Hb|].
  apply IH. left. destruct best as [k1|]; [destruct (lex_lt _ _)|]; by eexists.
Qed.

Lemma first_key_in (m : gmap K V) : m ≠ ∅ → ∃ k v, first_key fields m = Some k ∧ m !! k = Some v.
Proof.
  intros Hm. destruct (first_key_some (map_to_list m) None) as [k Ek].
  { right. by rewrite map_to_list_empty_iff. }
  destruct (first_key_from (map_to_list m) None k Ek) as [|[v Hv]]; [done|].
  exists k, v. split; [done|]. by apply elem_of_map_to_list.
Qed.

Lemma drop_first_ok fuel (m : gmap K V) : (size m < fuel)%nat →
  ∃ m', drop_first fuel fields m = Ret m' ∧ m' ⊆ m ∧ (size m' ≤ MAX_REASSEMBLY_ENTRIES)%nat ∧
    size m' = Nat.min (size m) MAX_REASSEMBLY_ENTRIES.
Proof.
  revert m. induction fuel as [|fuel IH]; intros m Hf; [lia|]. cbn [drop_first].
  destruct (Nat.ltb_spec MAX_REASSEMBLY_ENTRIES (size m)) as [Hlt|Hle]; cycle 1.
  { exists m. split; [done|]. split; [done|]. lia. }
  destruct (first_key_in m) as (k & v & -> & Hk); [intros ->; rewrite map_size_empty in Hlt; lia|].
  pose proof (map_size_delete_Some k m (mk_is_Some _ _ Hk)) as Es.
  destruct (IH (delete k m)) as (m' & E & Hsub & Hs & Hs'); [lia|].
  exists m'. split; [done|]. split; [by etrans; [|apply delete_subseteq]|]. split; [done|]. lia.
Qed.
End Evict.

(** Eviction keeps the cache bounded.  It ends; at most
    [MAX_REASSEMBLY_ENTRIES] entries remain, each of them one the cache had and that
    is younger than the timeout, and when the unexpired ones are no more than that,
    all of them remain. *)
Theorem evict_bounds_cache (cache : FragmentCache) tick :
  ∃ cache', evict_expired_fragments cache tick = Ret cache' ∧ (size cache' ≤ MAX_REASSEMBLY_ENTRIES)%nat ∧
    (∀ key e, cache' !! key = Some e → cache !! key = Some e ∧ unexpired tick e = true) ∧
    ((size (filter (λ kv, unexpired tick kv.2 = true) cache) ≤ MAX_REASSEMBLY_ENTRIES)%nat →
     ∀ key e, cache !! key = Some e → unexpired tick e = true → cache' !! key = Some e).
Proof.
  unfold evict_expired_fragments. cbv zeta. set (m := filter _ cache).
  destruct (drop_first_ok key_fields (S (size m)) m) as (m' & E & Hsub & Hs & Hs'); [exact (Nat.lt_succ_diag_r _)|].
  exists m'. split; [done|]. split; [done|]. split.
  - intros key e Hk. pose proof (lookup_weaken _ _ _ _ Hk Hsub) as Hm. apply map_lookup_filter_Some in Hm as [? ?]. done.
  - intros Hle key e Hk Hu. assert (m' = m) as ->; [|by apply map_lookup_filter_Some].
    apply map_subseteq_size_eq; [done|]. rewrite Hs', Nat.min_l; [done|exact Hle].
Qed.

(** ** Findings *)

Definition demo_header (id flags : Z) : Ipv4Header :=
  mkIpv4Header 0 id flags 64 Udp 0 [10; 0; 2; 1] [10; 0; 2; 2].

(** A fragment with identification [id], offset and flags, received at a tick. *)
Definition demo_fragment (id flags : Z) (data : bytes) (tick : Z) : Ipv4Packet * Z :=
  (mkIpv4Packet (demo_header id flags) data, tick).

(** Over capacity, eviction drops the smallest key, not the oldest entry.  Of
    seventeen datagrams in reassembly the one that has waited longest stays and the
    newest, which has the least identification, is dropped. *)
Theorem eviction_drops_newest :
  match receive receive_ipv4 FragmentCache_new
          (map (λ i, demo_fragment (16 - Z.of_nat i) 8192 [1] (Z.of_nat i)) (seq 0 17)) with
  | Ret (cache, _) =>
      match evict_expired_fragments cache 17 with
      | Ret cache' =>
          r_created_at <$> cache' !! fragment_key (demo_header 16 0) = Some 0 ∧
          r_created_at <$> cache !! fragment_key (demo_header 0 0) = Some 16 ∧
          cache' !! fragment_key (demo_header 0 0) = None
      | _ => False
      end
  | _ => False
  end.
Proof. vm_compute. done. Qed.

(** Two last fragments make IPv6 deliver bytes that never arrived.  The second
    one shortens the recorded length but not the buffer the first one allocated: the
    datagram counts as complete when its first two blocks are there and is delivered
    with the 32 bytes of the buffer, eight of them zeros nobody sent. *)
Theorem ipv6_conflicting_last_leaves_hole :
  let h off more := mkIpv6FragmentHeader 17 off more 5 in
  let k off more data := mkFragment6 (h off more) data (replicate 16 1) (replicate 16 2) 0 in
  match receive receive_ipv6 Ipv6FragmentCache_new
          [k 3%nat false (replicate 8 3); k 0%nat true (replicate 8 4); k 1%nat false (replicate 8 5)] with
  | Ret (_, answers) =>
      answers = [None; None; Some (17, replicate 8 4 ++ replicate 8 5 ++ replicate 8 0 ++ replicate 8 3)]
  | _ => False
  end.
Proof. by vm_compute. Qed.

(** ** Concrete streams *)

Definition demo_payload : bytes := replicate 8 1 ++ replicate 8 2 ++ replicate 4 3.

(** The last fragment first, then the first and the middle one, with a fragment of
    another datagram in between. *)
Definition demo_stream : list (Ipv4Packet * Z) :=
  [demo_fragment 7 2 (replicate 4 3) 0; demo_fragment 7 8192 (replicate 8 1) 1;
   demo_fragment 8 8192 (replicate 8 9) 1; demo_fragment 7 8193 (replicate 8 2) 2].

Definition demo_pieces : list piece :=
  [mkPiece 2 false (replicate 4 3); mkPiece 0 true (replicate 8 1); mkPiece 1 true (replicate 8 2)].

(** A cut of the payload at a block. *)
Lemma piece_of_slice p off more data : (0 < length data)%nat → (off * 8 + length data ≤ length p)%nat →
  data = slice p (off * 8) (off * 8 + length data) → more = negb (off * 8 + length data =? length p)%nat →
  (more = true → (length data mod 8 = 0)%nat) → piece_of p (mkPiece off more data).
Proof.
  intros Hs Hf Hd Hm Hw. split; [done|done| | |done].
  - intros j [H1 H2]. unfold pc_byte in *. cbn [pc_off pc_data] in *. rewrite Hd. unfold slice.
    rewrite lookup_take_lt, lookup_drop by lia. f_equal. lia.
  - unfold pc_byte. cbn [pc_off pc_data pc_more]. rewrite Hm. rewrite negb_false_iff. apply Nat.eqb_eq.
Qed.

Lemma demo_pieces_of : pieces_of demo_payload demo_pieces.
Proof.
  split.
  - constructor; [|constructor; [|constructor; [|constructor]]];
      (apply piece_of_slice; [cbn; lia|vm_compute; lia|reflexivity|reflexivity|done]).
  - intros i j a b x Hi Hj Ha Hb.
    destruct i as [|[|[|i]]], j as [|[|[|j]]]; cbn in Hi, Hj; simplify_eq; try done;
      unfold has_block, div_ceil8 in *; cbn in *; lia.
  - intros x Hx. unfold div_ceil8 in Hx. cbn in Hx. destruct x as [|[|[|x]]]; [| | |lia].
    + exists (mkPiece 0 true (replicate 8 1)). split; [set_solver|unfold has_block; cbn; lia].
    + exists (mkPiece 1 true (replicate 8 2)). split; [set_solver|unfold has_block; cbn; lia].
    + exists (mkPiece 2 false (replicate 4 3)). split; [set_solver|unfold has_block; cbn; lia].
Qed.


Definition demo_fragment6 (off : nat) (more : bool) (data : bytes) : fragment6 :=
  mkFragment6 (mkIpv6FragmentHeader 17 off more 5) data (replicate 16 1) (replicate 16 2) 0.

Lemma ipv6_reassembles_in_any_order_witness :
  let stream := [demo_fragment6 2 false (replicate 4 3); demo_fragment6 0 true (replicate 8 1);
                 demo_fragment6 1 true (replicate 8 2)] in
  let key := fragment6_key (demo_fragment6 0 true []) in
  ∃ cache' answers, receive receive_ipv6 Ipv6FragmentCache_new stream = Ret (cache', answers) ∧
    cache' !! key = None ∧
    own_answers (fragment6_of key) stream answers = replicate 2 None ++ [Some (17, demo_payload)].
Proof.
  apply (ipv6_reassembles_in_any_order Ipv6FragmentCache_new (fragment6_key (demo_fragment6 0 true [])) demo_payload 17
    [demo_fragment6 2 false (replicate 4 3); demo_fragment6 0 true (replicate 8 1); demo_fragment6 1 true (replicate 8 2)]
    (demo_fragment6 2 false (replicate 4 3)) [demo_fragment6 0 true (replicate 8 1); demo_fragment6 1 true (replicate 8 2)]).
  - reflexivity.
  - vm_compute. reflexivity.
  - exact demo_pieces_of.
  - by repeat constructor.
Defined.
