(* ===== verification/NatTable.v ===== *)
(** * Network address translation

    network/internet/nat.rs and the lenient header parse it uses
    ([parse_ipv4_header] of ipv4.rs).  The table tracks sessions by their
    5-tuple, gives each one an external port and rewrites packets in both
    directions, updating the checksums incrementally.  The three [BTreeMap]s are
    finite maps and a finite set: nothing depends on their order.  A slice
    write out of range is a [Panic]. *)

From stdpp Require Import base tactics decidable numbers list gmap fin_maps.
From Stdlib Require Import ZArith Lia Bool.
From S2P Require Import Prelude Bytes Ipv4.

(** ** The lenient header parse *)

Definition parse_ipv4_header (data : bytes) : option (Ipv4Header * nat) :=
  if (length data <? IPV4_MIN_HEADER_SIZE)%nat then None else
  let version_ihl := byte data 0 in
  if negb (Z.shiftr version_ihl 4 =? 4) then None else
  let header_len := (Z.to_nat (Z.land version_ihl 15) * 4)%nat in
  if (header_len <? IPV4_MIN_HEADER_SIZE)%nat || (length data <? header_len)%nat then None else
  Some (mkIpv4Header (be16 (byte data 2) (byte data 3)) (be16 (byte data 4) (byte data 5))
          (be16 (byte data 6) (byte data 7)) (byte data 8) (from_u8 (byte data 9))
          (be16 (byte data 10) (byte data 11)) (slice data 12 16) (slice data 16 20),
        header_len).

(** ** Sessions *)

Definition NAT_PORT_START : Z := 32768.
Definition NAT_PORT_END : Z := 60999.
Definition TCP_ESTABLISHED_TIMEOUT : Z := 8640000.
Definition TCP_TIME_WAIT_TIMEOUT : Z := 12000.
Definition TCP_NEW_TIMEOUT : Z := 6000.
Definition NAT_UDP_TIMEOUT : Z := 30000.
Definition ICMP_TIMEOUT : Z := 3000.
Definition OTHER_TIMEOUT : Z := 6000.
Definition NAT_SWEEP_INTERVAL : Z := 3000.
Definition MAX_NAT_ENTRIES : nat := 1024.

Inductive NatConnState := TcpNew | TcpEstablished | TcpClosing | UdpActive | IcmpActive | OtherActive.

#[global] Instance NatConnState_eq_dec : EqDecision NatConnState.
Proof. solve_decision. Defined.

Record NatKey := mkNatKey {
  nk_src_ip : Ipv4Addr;
  nk_src_port : Z;
  nk_dst_ip : Ipv4Addr;
  nk_dst_port : Z;
  nk_protocol : Z
}.

#[global] Instance NatKey_eq_dec : EqDecision NatKey.
Proof. solve_decision. Defined.

(** The key as one list of numbers, which keeps its code short. *)
#[global] Instance NatKey_countable : Countable NatKey.
Proof.
  refine (inj_countable'
    (λ k, nk_src_port k :: nk_dst_port k :: nk_protocol k :: Z.of_nat (length (nk_src_ip k)) ::
          nk_src_ip k ++ nk_dst_ip k)
    (λ l, match l with
          | sp :: dp :: pr :: n :: rest => mkNatKey (take (Z.to_nat n) rest) sp (drop (Z.to_nat n) rest) dp pr
          | _ => mkNatKey [] 0 [] 0 0
          end) _).
  intros []. cbn. by rewrite Nat2Z.id, take_app_length, drop_app_length.
Defined.

Record NatEntry := mkNatEntry {
  ne_src_ip : Ipv4Addr;
  ne_src_port : Z;
  xlate_port : Z;
  ne_state : NatConnState;
  last_seen : Z
}.

Definition timeout_ticks (e : NatEntry) : Z :=
  match ne_state e with
  | TcpNew => TCP_NEW_TIMEOUT
  | TcpEstablished => TCP_ESTABLISHED_TIMEOUT
  | TcpClosing => TCP_TIME_WAIT_TIMEOUT
  | UdpActive => NAT_UDP_TIMEOUT
  | IcmpActive => ICMP_TIMEOUT
  | OtherActive => OTHER_TIMEOUT
  end.

Definition is_expired (current_tick : Z) (e : NatEntry) : bool :=
  timeout_ticks e <=? wrapping_sub current_tick (last_seen e).

Definition set_last_seen (tick : Z) (e : NatEntry) : NatEntry :=
  mkNatEntry (ne_src_ip e) (ne_src_port e) (xlate_port e) (ne_state e) tick.

Definition set_state (s : NatConnState) (e : NatEntry) : NatEntry :=
  mkNatEntry (ne_src_ip e) (ne_src_port e) (xlate_port e) s (last_seen e).

(** ** The table *)

Record NatTable := mkNatTable {
  entries : gmap NatKey NatEntry;
  xlate_to_key : gmap Z NatKey;
  allocated_ports : gset Z;
  external_ip : Ipv4Addr;
  last_sweep : Z;
  enabled : bool
}.

Definition nat_new : NatTable := mkNatTable ∅ ∅ ∅ [0; 0; 0; 0] 0 false.

Definition enable (ip : Ipv4Addr) (t : NatTable) : NatTable :=
  mkNatTable (entries t) (xlate_to_key t) (allocated_ports t) ip (last_sweep t) true.

Definition disable (t : NatTable) : NatTable :=
  mkNatTable ∅ ∅ ∅ (external_ip t) (last_sweep t) false.

Definition with_entry (k : NatKey) (e : NatEntry) (t : NatTable) : NatTable :=
  mkNatTable (<[k := e]> (entries t)) (xlate_to_key t) (allocated_ports t)
    (external_ip t) (last_sweep t) (enabled t).

(** The first port of [start .. start + fuel] that is not allocated. *)
Fixpoint first_vacant (fuel : nat) (port : Z) (allocated : gset Z) : option Z :=
  match fuel with
  | O => None
  | S fuel =>
      if bool_decide (port ∈ allocated) then first_vacant fuel (port + 1) allocated else Some port
  end.

Definition port_count : nat := Z.to_nat (NAT_PORT_END - NAT_PORT_START + 1).

Definition alloc_xlate_port (t : NatTable) : option (Z * NatTable) :=
  if (MAX_NAT_ENTRIES <=? size (entries t))%nat then None else
  port ← first_vacant port_count NAT_PORT_START (allocated_ports t);
  Some (port, mkNatTable (entries t) (xlate_to_key t) ({[port]} ∪ allocated_ports t)
                (external_ip t) (last_sweep t) (enabled t)).

(** ** Checksums *)

(** The [while csum > 0xFFFF] loop, cut after [fuel] rounds. *)
Fixpoint fold_carry (fuel : nat) (csum : Z) : Z :=
  match fuel with
  | O => csum
  | S fuel => if 65535 <? csum then fold_carry fuel (Z.land csum 65535 + Z.shiftr csum 16) else csum
  end.

Definition incremental_checksum_update (old_csum old_val new_val : Z) : Z :=
  let csum := 65535 - old_csum in
  let csum := wrap32 (csum + (65535 - old_val)) in
  let csum := wrap32 (csum + new_val) in
  65535 - wrap16 (fold_carry fold_rounds csum).

(** The source also computes the first update once more and drops it. *)
Definition update_ip_checksum_after_src_change (old_csum : Z) (old_src new_src : Ipv4Addr) : Z :=
  let old_high := be16 (byte old_src 0) (byte old_src 1) in
  let old_low := be16 (byte old_src 2) (byte old_src 3) in
  let new_high := be16 (byte new_src 0) (byte new_src 1) in
  let new_low := be16 (byte new_src 2) (byte new_src 3) in
  let csum := incremental_checksum_update old_csum old_high new_high in
  incremental_checksum_update csum old_low new_low.

Definition update_transport_checksum_after_nat
    (old_csum old_port new_port : Z) (old_ip new_ip : Ipv4Addr) : Z :=
  let csum := old_csum in
  let old_ip_hi := be16 (byte old_ip 0) (byte old_ip 1) in
  let old_ip_lo := be16 (byte old_ip 2) (byte old_ip 3) in
  let new_ip_hi := be16 (byte new_ip 0) (byte new_ip 1) in
  let new_ip_lo := be16 (byte new_ip 2) (byte new_ip 3) in
  let csum := incremental_checksum_update csum old_ip_hi new_ip_hi in
  let csum := incremental_checksum_update csum old_ip_lo new_ip_lo in
  incremental_checksum_update csum old_port new_port.

(** ** Translation *)

Definition extract_tcp_udp_ports (packet : bytes) (header_len : nat) : option (Z * Z) :=
  if (length packet <? header_len + 4)%nat then None else
  Some (be16 (byte packet header_len) (byte packet (header_len + 1)),
        be16 (byte packet (header_len + 2)) (byte packet (header_len + 3))).

(** The ports of a packet that is translated: those of TCP and UDP, zero for
    ICMP; other protocols are not translated. *)
Definition nat_ports (protocol : Z) (packet : bytes) (header_len : nat) : option (Z * Z) :=
  if (protocol =? 6) || (protocol =? 17) then extract_tcp_udp_ports packet header_len
  else if protocol =? 1 then Some (0, 0) else None.

(** An address of the header is replaced and the header checksum follows. *)
Definition rewrite_address (packet : bytes) (off : nat) (old_ip new_ip : Ipv4Addr) : outcome bytes :=
  new_packet ← copy_at packet off new_ip;
  let old_ip_csum := be16 (byte new_packet 10) (byte new_packet 11) in
  let new_ip_csum := update_ip_checksum_after_src_change old_ip_csum old_ip new_ip in
  copy_at new_packet 10 (to_be16 new_ip_csum).

Definition transport_csum_offset (protocol : Z) : nat := if protocol =? 6 then 16 else 6.

Definition new_state (protocol : Z) : NatConnState :=
  if protocol =? 6 then TcpNew else if protocol =? 17 then UdpActive else IcmpActive.

(** Look up or create the entry of an outbound session: its external port. *)
Definition snat_session (t : NatTable) (key : NatKey) (current_tick : Z) : option (Z * NatTable) :=
  match entries t !! key with
  | Some entry => Some (xlate_port entry, with_entry key (set_last_seen current_tick entry) t)
  | None =>
      '(port, t) ← alloc_xlate_port t;
      let entry := mkNatEntry (nk_src_ip key) (nk_src_port key) port
                     (new_state (nk_protocol key)) current_tick in
      Some (port, mkNatTable (<[key := entry]> (entries t)) (<[port := key]> (xlate_to_key t))
                    (allocated_ports t) (external_ip t) (last_sweep t) (enabled t))
  end.

(** The packet rewritten for the outside; [None] drops it. *)
Definition snat_rewrite (packet : bytes) (header_len : nat) (protocol xlate_port : Z)
    (src_ip ext_ip : Ipv4Addr) : outcome (option bytes) :=
  new_packet ← rewrite_address packet 12 src_ip ext_ip;
  if (protocol =? 6) || (protocol =? 17) then
    let csum_offset := transport_csum_offset protocol in
    if (length packet <? header_len + csum_offset + 2)%nat then Ret None else
    new_packet ← copy_at new_packet header_len (to_be16 xlate_port);
    let old_port := be16 (byte packet header_len) (byte packet (header_len + 1)) in
    let old_csum := be16 (byte new_packet (header_len + csum_offset))
                         (byte new_packet (header_len + csum_offset + 1)) in
    let new_csum := update_transport_checksum_after_nat old_csum old_port xlate_port src_ip ext_ip in
    new_packet ← copy_at new_packet (header_len + csum_offset) (to_be16 new_csum);
    Ret (Some new_packet)
  else Ret (Some new_packet).

Definition snat_ipv4 (t : NatTable) (packet : bytes) (current_tick : Z)
    : outcome (NatTable * option bytes) :=
  if negb (enabled t) then Ret (t, None) else
  match parse_ipv4_header packet with
  | None => Ret (t, None)
  | Some (header, header_len) =>
      let src_ip := source header in
      let dst_ip := destination header in
      let protocol := to_u8 (protocol header) in
      let total_len := Z.to_nat (total_length header) in
      if negb (total_len =? length packet)%nat then Ret (t, None) else
      match nat_ports protocol packet header_len with
      | None => Ret (t, None)
      | Some (src_port, dst_port) =>
          let key := mkNatKey src_ip src_port dst_ip dst_port protocol in
          match snat_session t key current_tick with
          | None => Ret (t, None)
          | Some (port, t) =>
              out ← snat_rewrite packet header_len protocol port src_ip (external_ip t);
              Ret (t, out)
          end
      end
  end.

(** The packet rewritten for the inside. *)
Definition dnat_rewrite (packet : bytes) (header_len : nat) (protocol : Z)
    (dst_ip original_dst_ip : Ipv4Addr) (original_dst_port : Z) : outcome (option bytes) :=
  new_packet ← rewrite_address packet 16 dst_ip original_dst_ip;
  if (protocol =? 6) || (protocol =? 17) then
    let csum_offset := transport_csum_offset protocol in
    if (length packet <? header_len + csum_offset + 2)%nat then Ret None else
    let old_port := be16 (byte packet (header_len + 2)) (byte packet (header_len + 3)) in
    new_packet ← copy_at new_packet (header_len + 2) (to_be16 original_dst_port);
    let old_csum := be16 (byte new_packet (header_len + csum_offset))
                         (byte new_packet (header_len + csum_offset + 1)) in
    if old_csum =? 0 then Ret (Some new_packet) else
    let new_csum := update_transport_checksum_after_nat old_csum old_port original_dst_port
                      dst_ip original_dst_ip in
    new_packet ← copy_at new_packet (header_len + csum_offset) (to_be16 new_csum);
    Ret (Some new_packet)
  else Ret (Some new_packet).

(** A reply was seen. *)
Definition touch_entry (current_tick : Z) (e : NatEntry) : NatEntry :=
  let e := set_last_seen current_tick e in
  if bool_decide (ne_state e = TcpNew) then set_state TcpEstablished e else e.

Definition dnat_ipv4 (t : NatTable) (packet : bytes) (current_tick : Z)
    : outcome (NatTable * option bytes) :=
  if negb (enabled t) then Ret (t, None) else
  match parse_ipv4_header packet with
  | None => Ret (t, None)
  | Some (header, header_len) =>
      let dst_ip := destination header in
      let protocol := to_u8 (protocol header) in
      if negb (bool_decide (dst_ip = external_ip t)) then Ret (t, None) else
      match nat_ports protocol packet header_len with
      | None => Ret (t, None)
      | Some (_, dst_port) =>
          match xlate_to_key t !! dst_port with
          | None => Ret (t, None)
          | Some key =>
              match entries t !! key with
              | None => Ret (t, None)
              | Some entry =>
                  let t := with_entry key (touch_entry current_tick entry) t in
                  out ← dnat_rewrite packet header_len protocol dst_ip
                          (ne_src_ip entry) (ne_src_port entry);
                  Ret (t, out)
              end
          end
      end
  end.

(** ** Housekeeping *)

Definition remove_entry (t : NatTable) (key : NatKey) : NatTable :=
  match entries t !! key with
  | Some entry =>
      mkNatTable (delete key (entries t)) (delete (xlate_port entry) (xlate_to_key t))
        (allocated_ports t ∖ {[xlate_port entry]}) (external_ip t) (last_sweep t) (enabled t)
  | None => t
  end.

Definition expired_keys (t : NatTable) (current_tick : Z) : list NatKey :=
  (filter (λ '(_, e), is_expired current_tick e = true) (map_to_list (entries t))).*1.

Definition sweep_expired (t : NatTable) (current_tick : Z) : NatTable :=
  if wrapping_sub current_tick (last_sweep t) <? NAT_SWEEP_INTERVAL then t else
  let t := mkNatTable (entries t) (xlate_to_key t) (allocated_ports t) (external_ip t)
             current_tick (enabled t) in
  foldl remove_entry t (expired_keys t current_tick).

Definition promote_tcp_to_established (t : NatTable) (src_ip : Ipv4Addr) (src_port : Z)
    (dst_ip : Ipv4Addr) (dst_port : Z) : NatTable :=
  let key := mkNatKey src_ip src_port dst_ip dst_port 6 in
  match entries t !! key with
  | Some entry =>
      if bool_decide (ne_state entry = TcpNew)
      then with_entry key (set_state TcpEstablished entry) t else t
  | None => t
  end.

Definition mark_tcp_closing (t : NatTable) (src_ip : Ipv4Addr) (src_port : Z)
    (dst_ip : Ipv4Addr) (dst_port : Z) : NatTable :=
  let key := mkNatKey src_ip src_port dst_ip dst_port 6 in
  match entries t !! key with
  | Some entry => with_entry key (set_state TcpClosing entry) t
  | None => t
  end.

(** ** Sequences of calls *)

Inductive nat_op :=
| Snat (packet : bytes) (tick : Z)
| Dnat (packet : bytes) (tick : Z)
| Sweep (tick : Z)
| Promote (src_ip : Ipv4Addr) (src_port : Z) (dst_ip : Ipv4Addr) (dst_port : Z)
| Closing (src_ip : Ipv4Addr) (src_port : Z) (dst_ip : Ipv4Addr) (dst_port : Z)
| Enable (ip : Ipv4Addr)
| Disable.

Definition nat_step (t : NatTable) (op : nat_op) : outcome NatTable :=
  match op with
  | Snat p tick => '(t, _) ← snat_ipv4 t p tick; Ret t
  | Dnat p tick => '(t, _) ← dnat_ipv4 t p tick; Ret t
  | Sweep tick => Ret (sweep_expired t tick)
  | Promote a b c d => Ret (promote_tcp_to_established t a b c d)
  | Closing a b c d => Ret (mark_tcp_closing t a b c d)
  | Enable ip => Ret (enable ip t)
  | Disable => Ret (disable t)
  end.

Fixpoint nat_run (t : NatTable) (ops : list nat_op) : outcome NatTable :=
  match ops with
  | [] => Ret t
  | op :: ops => t ← nat_step t op; nat_run t ops
  end.

#[global] Arguments port_count : simpl never.
