(* ===== verification/NatChecksum.v ===== *)
(** * Checksums under address translation

    The arithmetic behind the rewrites of NatTable.v: an incremental update
    keeps the one's complement sum, and replacing words of a packet changes the
    sum by their difference.  Hence a packet whose checksums verify still
    verifies after [snat_rewrite], and after [dnat_rewrite] unless its transport
    checksum is zero. *)

From stdpp Require Import base tactics decidable numbers list gmap fin_maps.
From Stdlib Require Import ZArith Lia Bool.
From S2P Require Import Prelude Bytes Patch Ipv4 NatTable.

(** ** Incremental updates *)

Lemma fold_carry_fold n s : 0 ≤ s → fold_carry n s = checksum_fold n s.
Proof.
  revert s. induction n as [|n IH]; intros s Hs; simpl; [done|].
  pose proof (fold_round s Hs) as E. rewrite Z.shiftr_div_pow2 in * by lia. change (2 ^ 16) with 65536 in *.
  pose proof (Z.div_mod s 65536). pose proof (Z.mod_pos_bound s 65536).
  assert (0 ≤ s / 65536) by (apply Z.div_pos; lia).
  destruct (Z.ltb_spec 65535 s), (Z.eqb_spec (s / 65536) 0); [lia|apply IH; lia|done|lia].
Qed.

(** The update exchanges [m] for [m'] under the sum modulo [65535]. *)
Lemma incremental_update_spec c m m' :
  0 ≤ c < 65536 → 0 ≤ m < 65536 → 0 ≤ m' < 65536 →
  0 ≤ incremental_checksum_update c m m' < 65536 ∧
  (65535 | incremental_checksum_update c m m' + m' - (c + m)).
Proof.
  intros Hc Hm Hm'. unfold incremental_checksum_update, wrap32.
  rewrite (Z.mod_small (65535 - c + _)), Z.mod_small by (try rewrite Z.mod_small; lia).
  rewrite fold_carry_fold by lia.
  destruct (checksum_fold_spec (65535 - c + (65535 - m) + m')) as (B & (k & Hk & E) & _); [lia|].
  unfold wrap16. rewrite Z.mod_small by (change (2 ^ 16) with 65536; lia).
  split; [lia|]. exists (k - 1). lia.
Qed.

Lemma finalize_zero s : 0 ≤ s < 2 ^ 32 → checksum_finalize s = 0 ↔ 0 < s ∧ (65535 | s).
Proof.
  intros Hs. destruct (checksum_fold_spec s Hs) as (B & (k & Hk & E) & Z0).
  unfold checksum_finalize, wrap16. rewrite Z.mod_small by (change (2 ^ 16) with 65536; lia).
  set (f := checksum_fold fold_rounds s) in *. split.
  - intros F. split; [lia|]. exists (k + 1). lia.
  - intros [Hp [j Hj]]. destruct (decide (f = 0)); lia.
Qed.

Definition addr_ok (a : Ipv4Addr) : Prop := length a = 4%nat ∧ is_bytes a.

Lemma word_sum_addr (a : bytes) : length a = 4%nat →
  word_sum a = be16 (byte a 0) (byte a 1) + be16 (byte a 2) (byte a 3).
Proof. destruct a as [|? [|? [|? [|? [|]]]]]; try done. intros _. cbn. lia. Qed.

Lemma word_bound (l : bytes) i j : is_bytes l → 0 ≤ be16 (byte l i) (byte l j) < 65536.
Proof. intros H. apply be16_bound; by apply byte_bound. Qed.

Lemma ip_update_spec c old new :
  0 ≤ c < 65536 → addr_ok old → addr_ok new →
  0 ≤ update_ip_checksum_after_src_change c old new < 65536 ∧
  (65535 | update_ip_checksum_after_src_change c old new + word_sum new - (c + word_sum old)).
Proof.
  intros Hc [Lo Bo] [Ln Bn]. rewrite !word_sum_addr by done. unfold update_ip_checksum_after_src_change.
  pose proof (word_bound old 0 1 Bo). pose proof (word_bound old 2 3 Bo).
  pose proof (word_bound new 0 1 Bn). pose proof (word_bound new 2 3 Bn).
  destruct (incremental_update_spec c (be16 (byte old 0) (byte old 1)) (be16 (byte new 0) (byte new 1)))
    as [B1 [k1 E1]]; [done..|].
  set (c1 := incremental_checksum_update c _ _) in *.
  destruct (incremental_update_spec c1 (be16 (byte old 2) (byte old 3)) (be16 (byte new 2) (byte new 3)))
    as [B2 [k2 E2]]; [done..|].
  split; [done|]. exists (k1 + k2). lia.
Qed.

Lemma transport_update_spec c p p' old new :
  0 ≤ c < 65536 → 0 ≤ p < 65536 → 0 ≤ p' < 65536 → addr_ok old → addr_ok new →
  0 ≤ update_transport_checksum_after_nat c p p' old new < 65536 ∧
  (65535 | update_transport_checksum_after_nat c p p' old new + word_sum new + p' - (c + word_sum old + p)).
Proof.
  intros Hc Hp Hp' Ho Hn. destruct (ip_update_spec c old new Hc Ho Hn) as [B1 [k1 E1]].
  assert (Et : update_transport_checksum_after_nat c p p' old new =
    incremental_checksum_update (update_ip_checksum_after_src_change c old new) p p')
    by (unfold update_transport_checksum_after_nat, update_ip_checksum_after_src_change; reflexivity).
  rewrite Et.
  destruct (incremental_update_spec (update_ip_checksum_after_src_change c old new) p p') as [B2 [k2 E2]]; [done..|].
  split; [done|]. exists (k1 + k2). lia.
Qed.

(** ** Patched packets *)

(** Replacing whole words changes the sum by their difference. *)
Lemma word_sum_patch buf off data : (off + length data ≤ length buf)%nat →
  Nat.even off = true → Nat.even (length data) = true →
  word_sum (patch buf off data) =
  word_sum buf - word_sum (slice buf off (off + length data)) + word_sum data.
Proof.
  intros H Ho Hd. unfold patch.
  assert (Eb : buf = take off buf ++ slice buf off (off + length data) ++ drop (off + length data) buf).
  { unfold slice. replace (off + length data - off)%nat with (length data) by lia.
    rewrite <- drop_drop. by rewrite !take_drop. }
  rewrite Eb at 3. rewrite !word_sum_app; try done; rewrite ?length_take, ?Nat.min_l by lia; try done.
  - lia.
  - rewrite length_slice by lia. by replace (off + length data - off)%nat with (length data) by lia.
Qed.

(** ** Packets that verify *)

(** The sums the receivers take: over the header, as [parse_packet] does, and
    over the pseudo header and the segment. *)
Definition header_sums (packet : bytes) (hl : nat) : Prop :=
  compute_checksum (slice packet 0 hl) = 0.

Definition transport_sums (packet : bytes) (hl : nat) : Prop :=
  checksum_finalize (checksum_add
    (pseudo_header_checksum_add 0 (slice packet 12 16) (slice packet 16 20) (byte packet 9)
       (Z.of_nat (length packet - hl))) (drop hl packet)) = 0.

Definition transport_words (packet : bytes) (hl : nat) : Z :=
  word_sum (slice packet 12 16) + word_sum (slice packet 16 20) + byte packet 9 +
  Z.of_nat (length packet - hl) + word_sum (drop hl packet).

Record sized (packet : bytes) (hl : nat) : Prop := {
  sized_bytes : is_bytes packet;
  sized_len : Z.of_nat (length packet) < 65536;
  sized_header : (20 ≤ hl ≤ length packet)%nat;
  sized_even : Nat.even hl = true
}.

Lemma slice_addr (packet : bytes) a b : is_bytes packet → b = (a + 4)%nat → (b ≤ length packet)%nat →
  addr_ok (slice packet a b).
Proof. intros H -> Hl. split; [rewrite length_slice; lia|by apply slice_bytes]. Qed.

Lemma drop_bytes (packet : bytes) n : is_bytes packet → is_bytes (drop n packet).
Proof. intros H. by apply Forall_drop. Qed.

Lemma header_sums_iff packet hl : sized packet hl →
  header_sums packet hl ↔ 0 < word_sum (take hl packet) ∧ (65535 | word_sum (take hl packet)).
Proof.
  intros [Hb Hl Hh _]. unfold header_sums, compute_checksum, slice. rewrite drop_0, Nat.sub_0_r.
  assert (Ht : is_bytes (take hl packet)) by by apply Forall_take.
  pose proof (word_sum_bound _ Ht) as W. rewrite length_take in W.
  rewrite checksum_add_small by (done || lia). apply finalize_zero. lia.
Qed.

Lemma pseudo_words src dst p n : addr_ok src → addr_ok dst → is_byte p → 0 ≤ n < 65536 →
  pseudo_header_checksum_add 0 src dst p n = word_sum src + word_sum dst + p + n ∧
  0 ≤ word_sum src < 2 ^ 18 ∧ 0 ≤ word_sum dst < 2 ^ 18.
Proof.
  intros [Ls Bs] [Ld Bd] Hp Hn.
  pose proof (word_sum_bound src Bs). pose proof (word_sum_bound dst Bd).
  unfold pseudo_header_checksum_add.
  assert (E : word_sum (pseudo_header src dst p n) = word_sum src + word_sum dst + p + n).
  { rewrite (word_sum_addr src), (word_sum_addr dst) by done. unfold pseudo_header. cbn [word_sum]. rewrite be16_split by done.
    unfold be16. lia. }
  rewrite checksum_add_small; [rewrite E; lia| |lia|unfold is_byte in Hp; rewrite E; lia].
  unfold pseudo_header. repeat apply Forall_cons_2; try apply Forall_nil_2; auto using byte_bound, mod256_byte.
  unfold is_byte. lia.
Qed.

Lemma transport_sums_iff packet hl : sized packet hl →
  transport_sums packet hl ↔ 0 < transport_words packet hl ∧ (65535 | transport_words packet hl).
Proof.
  intros [Hb Hl Hh _]. unfold transport_sums.
  destruct (pseudo_words (slice packet 12 16) (slice packet 16 20) (byte packet 9) (Z.of_nat (length packet - hl)))
    as (E & ? & ?); [apply slice_addr; (done || lia)..|by apply byte_bound|lia|].
  pose proof (word_sum_bound _ (drop_bytes packet hl Hb)) as W. rewrite length_drop in W.
  pose proof (byte_bound packet 9 Hb) as Bp. unfold is_byte in Bp.
  rewrite E, checksum_add_small by (try apply drop_bytes; done || lia).
  unfold transport_words. apply finalize_zero. lia.
Qed.

(** A nonzero first byte, and a nonzero protocol, make the sums positive. *)
Lemma header_words_pos packet hl : sized packet hl → 0 < byte packet 0 → 0 < word_sum (take hl packet).
Proof.
  intros [Hb _ Hh _] H0. destruct packet as [|a [|b l]]; cbn [length] in *; [lia|lia|].
  destruct hl as [|[|n]]; [lia|lia|]. cbn [take word_sum]. cbn in H0.
  apply Forall_cons in Hb as [Ha [Hbb Hb]%Forall_cons].
  pose proof (word_sum_bound (take n l) (Forall_take _ _ _ Hb)). unfold is_byte, be16 in *. lia.
Qed.

Lemma transport_words_pos packet hl : sized packet hl → 0 < byte packet 9 → 0 < transport_words packet hl.
Proof.
  intros [Hb _ _ _] H9. unfold transport_words. pose proof (word_sum_bound _ (drop_bytes packet hl Hb)).
  pose proof (word_sum_bound _ (slice_bytes packet 12 16 Hb)). pose proof (word_sum_bound _ (slice_bytes packet 16 20 Hb)). lia.
Qed.

(** ** The rewritten packet *)

(** The address at [ao] becomes [new], the port at [po] of the segment [port],
    and the two checksums [c1] and, at [co] of the segment, [c2]. *)
Definition rewritten (packet : bytes) (hl ao po co : nat) (new : Ipv4Addr) (c1 port c2 : Z) : bytes :=
  patch (patch (patch (patch packet ao new) 10 (to_be16 c1)) (hl + po) (to_be16 port)) (hl + co) (to_be16 c2).

Record slots (packet : bytes) (hl ao po co : nat) : Prop := {
  slots_addr : ao = 12%nat ∨ ao = 16%nat;
  slots_port : po = 0%nat ∨ po = 2%nat;
  slots_csum : co = 6%nat ∨ co = 16%nat;
  slots_fit : (hl + co + 2 ≤ length packet)%nat
}.

Lemma word_sum_be16 x : 0 ≤ x < 65536 → word_sum (to_be16 x) = x.
Proof. intros H. cbn. rewrite be16_split by done. lia. Qed.

Lemma word_sum_word (l : bytes) a : (a + 2 ≤ length l)%nat →
  word_sum (slice l a (a + 2)) = be16 (byte l a) (byte l (a + 1)).
Proof.
  intros H. assert (E0 := slice_lookup l a (a + 2) 0). assert (E1 := slice_lookup l a (a + 2) 1).
  assert (L : length (slice l a (a + 2)) = 2%nat) by (rewrite length_slice; lia).
  destruct (slice l a (a + 2)) as [|x [|y [|]]]; try done.
  rewrite decide_True in E0 by lia. rewrite decide_True in E1 by lia. rewrite Nat.add_0_r in E0. unfold byte.
  rewrite <- E0, <- E1. cbn. lia.
Qed.

Lemma length_be16 x : length (to_be16 x) = 2%nat.
Proof. done. Qed.

(** Bounds of patched, cut and encoded lists. *)
Ltac fits_patch :=
  unfold covers in *;
  repeat first [rewrite length_be16 | rewrite length_take | rewrite length_drop | rewrite length_patch];
  try done; try lia.

Section rewritten.
  Context (packet : bytes) (hl ao po co : nat) (new : Ipv4Addr) (c1 port c2 : Z).
  Context (Hs : sized packet hl) (Hl : slots packet hl ao po co) (Hn : addr_ok new).
Let out := rewritten packet hl ao po co new c1 port c2.

Lemma rewritten_length : length out = length packet.
Proof.
  destruct Hs, Hl, Hn as [Ln _]. unfold out, rewritten. rewrite !length_patch; fits_patch.
Qed.

Lemma rewritten_bytes : is_bytes out.
Proof. destruct Hs, Hn. unfold out, rewritten. auto 10 using patch_bytes, to_be16_bytes. Qed.

Lemma rewritten_sized : sized out hl.
Proof. pose proof rewritten_length as L. destruct Hs. constructor; rewrite ?L; auto using rewritten_bytes. Qed.

(** Bytes of the header outside the address and the checksum are kept. *)
Lemma rewritten_front j : (j < 10 ∨ 12 ≤ j < ao ∨ ao + 4 ≤ j < hl)%nat → byte out j = byte packet j.
Proof.
  intros Hj. destruct Hs, Hl, Hn as [Ln _]. unfold out, rewritten. rewrite !byte_patch_out; fits_patch.
Qed.

Lemma rewritten_take : take hl out = patch (patch (take hl packet) ao new) 10 (to_be16 c1).
Proof.
  destruct Hs as [Hb _ Hh He], Hl as [Ha Hp Hco Hf], Hn as [Ln Bn]. unfold out, rewritten.
  rewrite take_patch_high, take_patch_high, take_patch_low, take_patch_low; fits_patch.
Qed.

Lemma rewritten_drop : drop hl out = patch (patch (drop hl packet) po (to_be16 port)) co (to_be16 c2).
Proof.
  destruct Hs as [Hb _ Hh He], Hl as [Ha Hp Hco Hf], Hn as [Ln Bn]. unfold out, rewritten.
  rewrite drop_patch_high, drop_patch_high, drop_patch_low, drop_patch_low; fits_patch.
Qed.

Lemma rewritten_addr : slice out ao (ao + 4) = new.
Proof.
  destruct Hs as [Hb _ Hh He], Hl as [Ha Hp Hco Hf], Hn as [Ln Bn]. unfold out, rewritten.
  rewrite 3!slice_patch_out; fits_patch. apply slice_patch_in; lia.
Qed.

Lemma rewritten_other a : a = 12%nat ∨ a = 16%nat → a ≠ ao → slice out a (a + 4) = slice packet a (a + 4).
Proof.
  intros Hx Hne. destruct Hs as [Hb _ Hh He], Hl as [Ha Hp Hco Hf], Hn as [Ln Bn]. unfold out, rewritten.
  rewrite 4!slice_patch_out; fits_patch.
Qed.

Lemma rewritten_port : slice out (hl + po) (hl + po + 2) = to_be16 port.
Proof.
  destruct Hs as [Hb _ Hh He], Hl as [Ha Hp Hco Hf], Hn as [Ln Bn]. unfold out, rewritten.
  rewrite slice_patch_out; fits_patch. apply slice_patch_in; fits_patch.
Qed.

Lemma rewritten_tail : drop (hl + co + 2) out = drop (hl + co + 2) packet.
Proof.
  destruct Hs as [Hb _ Hh He], Hl as [Ha Hp Hco Hf], Hn as [Ln Bn]. unfold out, rewritten.
  rewrite 4!drop_patch_low; fits_patch.
Qed.

Lemma rewritten_header : 0 ≤ c1 < 65536 →
  word_sum (take hl out) = word_sum (take hl packet) - word_sum (slice packet ao (ao + 4)) + word_sum new
    - be16 (byte packet 10) (byte packet 11) + c1.
Proof.
  intros Hc. rewrite rewritten_take. destruct Hs as [Hb _ Hh He], Hl as [Ha Hp Hco Hf], Hn as [Ln Bn].
  rewrite word_sum_patch by fits_patch. rewrite word_sum_patch; [|fits_patch|by destruct Ha as [-> | ->]|by rewrite Ln].
  rewrite length_be16, Ln, word_sum_be16 by done.
  rewrite slice_patch_out, !slice_take by fits_patch. rewrite (word_sum_word packet 10) by lia.
  change (10 + 1)%nat with 11%nat. lia.
Qed.

Lemma rewritten_segment : 0 ≤ port < 65536 → 0 ≤ c2 < 65536 →
  word_sum (drop hl out) = word_sum (drop hl packet)
    - be16 (byte packet (hl + po)) (byte packet (hl + po + 1)) + port
    - be16 (byte packet (hl + co)) (byte packet (hl + co + 1)) + c2.
Proof.
  intros Hpt Hc. rewrite rewritten_drop. destruct Hs as [Hb _ Hh He], Hl as [Ha Hp Hco Hf].
  rewrite word_sum_patch; [|fits_patch|by destruct Hco as [-> | ->]|done].
  rewrite word_sum_patch; [|fits_patch|by destruct Hp as [-> | ->]|done].
  rewrite !length_be16, !word_sum_be16 by done.
  rewrite slice_patch_out, !slice_drop by fits_patch. rewrite !Nat.add_assoc.
  rewrite !word_sum_word by lia. lia.
Qed.

Lemma rewritten_transport : 0 ≤ port < 65536 → 0 ≤ c2 < 65536 →
  transport_words out hl = transport_words packet hl - word_sum (slice packet ao (ao + 4)) + word_sum new
    - be16 (byte packet (hl + po)) (byte packet (hl + po + 1)) + port
    - be16 (byte packet (hl + co)) (byte packet (hl + co + 1)) + c2.
Proof.
  intros Hpt Hc. unfold transport_words. rewrite rewritten_segment, rewritten_length by done.
  rewrite (rewritten_front 9) by lia. pose proof rewritten_addr as Ea. pose proof rewritten_other as Eo.
  destruct (slots_addr _ _ _ _ _ Hl) as [-> | ->]; cbn [Nat.add] in *; rewrite Ea.
  - assert (E16 : slice out 16 20 = slice packet 16 20) by (apply (Eo 16%nat); [by right|done]).
    rewrite E16. lia.
  - assert (E12 : slice out 12 16 = slice packet 12 16) by (apply (Eo 12%nat); [by left|done]).
    rewrite E12. lia.
Qed.

(** The updated checksums verify where the old ones did. *)
Lemma rewritten_verifies :
  c1 = update_ip_checksum_after_src_change (be16 (byte packet 10) (byte packet 11)) (slice packet ao (ao + 4)) new →
  c2 = update_transport_checksum_after_nat (be16 (byte packet (hl + co)) (byte packet (hl + co + 1)))
    (be16 (byte packet (hl + po)) (byte packet (hl + po + 1))) port (slice packet ao (ao + 4)) new →
  0 ≤ port < 65536 → 0 < byte packet 0 → 0 < byte packet 9 →
  header_sums packet hl → transport_sums packet hl → header_sums out hl ∧ transport_sums out hl.
Proof.
  intros E1 E2 Hpt H0 H9. rewrite !header_sums_iff, !transport_sums_iff by auto using rewritten_sized.
  intros [_ [k Hk]] [_ [m Hm]].
  assert (Ho : addr_ok (slice packet ao (ao + 4))).
  { destruct Hs, Hl. apply slice_addr; [done|done|lia]. }
  assert (Hb : is_bytes packet) by apply Hs.
  destruct (ip_update_spec (be16 (byte packet 10) (byte packet 11)) _ _ (word_bound _ _ _ Hb) Ho Hn) as [B1 [j1 J1]].
  destruct (transport_update_spec _ _ port _ _ (word_bound packet (hl + co) (hl + co + 1) Hb)
    (word_bound packet (hl + po) (hl + po + 1) Hb) Hpt Ho Hn) as [B2 [j2 J2]].
  rewrite <- E1 in B1, J1. rewrite <- E2 in B2, J2.
  split; split.
  - apply header_words_pos; [apply rewritten_sized|]. by rewrite rewritten_front by lia.
  - exists (k + j1). rewrite rewritten_header by done. lia.
  - apply transport_words_pos; [apply rewritten_sized|]. by rewrite rewritten_front by lia.
  - exists (m + j2). rewrite rewritten_transport by done. lia.
Qed.

End rewritten.
