(* ===== verification/NatTheorems.v ===== *)
(** * Theorems on the address translation table

    The invariant of [NatTable] under every sequence of calls: entries, reverse
    map and allocated ports describe the same sessions, so no two sessions share
    an external port.  On it: a port is found whenever the table has room, a
    reply to a translated packet reaches the host that sent it, the checksums of
    a translated packet verify, and a sweep removes exactly the expired
    sessions. *)

From stdpp Require Import base tactics decidable numbers list gmap fin_maps.
From Stdlib Require Import ZArith Lia Bool.
From S2P Require Import Prelude Bytes Patch Ipv4 NatTable NatChecksum.

(** ** The parsed header *)

Lemma parse_ipv4_header_ok p h hl : parse_ipv4_header p = Some (h, hl) →
  (20 ≤ hl ≤ length p)%nat ∧ Nat.even hl = true ∧ Z.shiftr (byte p 0) 4 = 4 ∧
  source h = slice p 12 16 ∧ destination h = slice p 16 20 ∧ protocol h = from_u8 (byte p 9) ∧
  total_length h = be16 (byte p 2) (byte p 3).
Proof.
  unfold parse_ipv4_header, IPV4_MIN_HEADER_SIZE. destruct (Nat.ltb_spec (length p) 20); [done|].
  destruct (Z.eqb_spec (Z.shiftr (byte p 0) 4) 4); [|done]. cbn [negb].
  destruct (Nat.ltb_spec (Z.to_nat (Z.land (byte p 0) 15) * 4) 20); [done|].
  destruct (Nat.ltb_spec (length p) (Z.to_nat (Z.land (byte p 0) 15) * 4)); [done|].
  cbn [orb]. intros [= <- <-]. cbn [source destination protocol total_length].
  split_and!; try done; try lia. rewrite Nat.even_mul. apply orb_true_r.
Qed.

Lemma parse_ipv4_header_sized p h hl : is_bytes p → Z.of_nat (length p) < 65536 →
  parse_ipv4_header p = Some (h, hl) → sized p hl.
Proof. intros Hb Hl (? & ? & _)%parse_ipv4_header_ok. by constructor. Qed.

Lemma version_pos p h hl : parse_ipv4_header p = Some (h, hl) → is_bytes p → 0 < byte p 0.
Proof.
  intros (_ & _ & E & _)%parse_ipv4_header_ok Hb. pose proof (byte_bound p 0 Hb) as [B _].
  destruct (Z.eq_dec (byte p 0) 0) as [Z0|]; [rewrite Z0 in E; done|lia].
Qed.

Lemma to_from_u8 v : to_u8 (from_u8 v) = v.
Proof. destruct v as [|v|v]; try done. do 8 (destruct v as [v|v|]; try done). Qed.

(** ** The rewritten packets *)

Definition is_transport (protocol : Z) : bool := (protocol =? 6) || (protocol =? 17).

Lemma csum_offset_cases pr : transport_csum_offset pr = 6%nat ∨ transport_csum_offset pr = 16%nat.
Proof. unfold transport_csum_offset. destruct (pr =? 6); auto. Qed.

Lemma rewrite_address_eq p off old new : (20 ≤ length p)%nat → off = 12%nat ∨ off = 16%nat → length new = 4%nat →
  rewrite_address p off old new =
  Ret (patch (patch p off new) 10 (to_be16
    (update_ip_checksum_after_src_change (be16 (byte p 10) (byte p 11)) old new))).
Proof.
  intros Hl Ho Hn. unfold rewrite_address. rewrite copy_at_patch by fits_patch. cbn [mbind outcome_bind].
  rewrite !(byte_patch_out _ _ _ _) by fits_patch. by rewrite copy_at_patch by fits_patch.
Qed.

Lemma snat_rewrite_eq p hl pr port ext :
  sized p hl → addr_ok ext → is_transport pr = true →
  let co := transport_csum_offset pr in
  let src := slice p 12 16 in
  snat_rewrite p hl pr port src ext =
  Ret (if (length p <? hl + co + 2)%nat then None else
    Some (rewritten p hl 12 0 co ext
      (update_ip_checksum_after_src_change (be16 (byte p 10) (byte p 11)) src ext) port
      (update_transport_checksum_after_nat (be16 (byte p (hl + co)) (byte p (hl + co + 1)))
         (be16 (byte p (hl + 0)) (byte p (hl + 0 + 1))) port src ext))).
Proof.
  intros [Hb Hl Hh He] [Ln Bn] Ht co src. unfold snat_rewrite, is_transport in *. rewrite Ht.
  rewrite rewrite_address_eq by (lia || auto). cbn [mbind outcome_bind]. fold co.
  pose proof (csum_offset_cases pr) as Hco. fold co in Hco.
  destruct (Nat.ltb_spec (length p) (hl + co + 2)); [done|]. unfold rewritten. rewrite Nat.add_0_r.
  rewrite copy_at_patch by fits_patch. cbn [mbind outcome_bind]. rewrite !(byte_patch_out _ _ _ (hl + co)) by fits_patch.
  rewrite !(byte_patch_out _ _ _ (hl + co + 1)) by fits_patch. by rewrite copy_at_patch by fits_patch.
Qed.

Lemma dnat_rewrite_eq p hl pr new port :
  sized p hl → addr_ok new → is_transport pr = true →
  let co := transport_csum_offset pr in
  let dst := slice p 16 20 in
  let csum := be16 (byte p (hl + co)) (byte p (hl + co + 1)) in
  (hl + co + 2 ≤ length p)%nat → csum ≠ 0 →
  dnat_rewrite p hl pr dst new port =
  Ret (Some (rewritten p hl 16 2 co new
      (update_ip_checksum_after_src_change (be16 (byte p 10) (byte p 11)) dst new) port
      (update_transport_checksum_after_nat csum
         (be16 (byte p (hl + 2)) (byte p (hl + 2 + 1))) port dst new))).
Proof.
  intros [Hb Hl Hh He] [Ln Bn] Ht co dst csum Hf Hc. unfold dnat_rewrite, is_transport in *. rewrite Ht.
  rewrite rewrite_address_eq by (lia || auto). cbn [mbind outcome_bind]. fold co.
  pose proof (csum_offset_cases pr) as Hco. fold co in Hco.
  destruct (Nat.ltb_spec (length p) (hl + co + 2)); [lia|]. unfold rewritten.
  rewrite copy_at_patch by fits_patch. cbn [mbind outcome_bind]. rewrite !(byte_patch_out _ _ _ (hl + co)) by fits_patch.
  rewrite !(byte_patch_out _ _ _ (hl + co + 1)) by fits_patch. fold csum.
  rewrite (proj2 (Z.eqb_neq _ _) Hc). rewrite copy_at_patch by fits_patch.
  by replace (hl + 2 + 1)%nat with (hl + 3)%nat by lia.
Qed.

(** No write of a rewrite is out of range. *)
Lemma snat_rewrite_total p hl pr port src ext : (20 ≤ hl ≤ length p)%nat → length ext = 4%nat →
  ∃ o, snat_rewrite p hl pr port src ext = Ret o.
Proof.
  intros Hh Ln. unfold snat_rewrite. rewrite rewrite_address_eq by (lia || auto). cbn [mbind outcome_bind].
  destruct (_ || _); [|by eexists]. pose proof (csum_offset_cases pr).
  destruct (Nat.ltb_spec (length p) (hl + transport_csum_offset pr + 2)); [by eexists|].
  rewrite copy_at_patch by fits_patch. cbn [mbind outcome_bind]. rewrite copy_at_patch by fits_patch. by eexists.
Qed.

Lemma dnat_rewrite_total p hl pr dst new port : (20 ≤ hl ≤ length p)%nat → length new = 4%nat →
  ∃ o, dnat_rewrite p hl pr dst new port = Ret o.
Proof.
  intros Hh Ln. unfold dnat_rewrite. rewrite rewrite_address_eq by (lia || auto). cbn [mbind outcome_bind].
  destruct (_ || _); [|by eexists]. pose proof (csum_offset_cases pr).
  destruct (Nat.ltb_spec (length p) (hl + transport_csum_offset pr + 2)); [by eexists|].
  rewrite copy_at_patch by fits_patch. cbn [mbind outcome_bind]. destruct (_ =? 0); [by eexists|].
  rewrite copy_at_patch by fits_patch. by eexists.
Qed.

(** ** The invariant *)

Definition key_ok (k : NatKey) : Prop := addr_ok (nk_src_ip k) ∧ 0 ≤ nk_src_port k < 65536.

Record entry_for (k : NatKey) (e : NatEntry) : Prop := {
  ef_ip : ne_src_ip e = nk_src_ip k;
  ef_port : ne_src_port e = nk_src_port k;
  ef_key : key_ok k;
  ef_range : NAT_PORT_START ≤ xlate_port e ≤ NAT_PORT_END
}.

Record nat_ok (t : NatTable) : Prop := {
  no_entry : ∀ k e, entries t !! k = Some e → entry_for k e ∧ xlate_to_key t !! xlate_port e = Some k;
  no_back : ∀ p k, xlate_to_key t !! p = Some k → ∃ e, entries t !! k = Some e ∧ xlate_port e = p;
  no_alloc : ∀ p, p ∈ allocated_ports t ↔ is_Some (xlate_to_key t !! p);
  no_size : (size (entries t) ≤ MAX_NAT_ENTRIES)%nat;
  no_ext : addr_ok (external_ip t)
}.

Lemma nat_new_ok : nat_ok nat_new.
Proof.
  constructor; cbn; try done.
  - intros p. rewrite lookup_empty. split; [set_solver|by intros [? ?]].
  - rewrite map_size_empty. lia.
  - split; [done|]. by repeat constructor.
Qed.

Lemma enable_ok ip t : addr_ok ip → nat_ok t → nat_ok (enable ip t).
Proof. intros Ha []. by constructor. Qed.

Lemma disable_ok t : nat_ok t → nat_ok (disable t).
Proof. intros []. destruct nat_new_ok. by constructor. Qed.

(** An entry is replaced by one with the same address and ports. *)
Definition same_session (e e' : NatEntry) : Prop :=
  ne_src_ip e' = ne_src_ip e ∧ ne_src_port e' = ne_src_port e ∧ xlate_port e' = xlate_port e.

Lemma with_entry_ok t k e e' : nat_ok t → entries t !! k = Some e → same_session e e' → nat_ok (with_entry k e' t).
Proof.
  intros [Hen Hba Hal Hsz Hex] Hk (E1 & E2 & E3). constructor; cbn; try done.
  - intros k' e0. rewrite lookup_insert_Some. intros [[<- <-] | [_ H]]; [|by apply Hen].
    rewrite E3. destruct (Hen k e Hk) as [[] ?]. split; [constructor; congruence|done].
  - intros p k' (e0 & H & <-)%Hba. destruct (decide (k = k')) as [<-|].
    + exists e'. rewrite lookup_insert_eq. split; [done|]. congruence.
    + exists e0. by rewrite lookup_insert_ne.
  - rewrite map_size_insert_Some; [done|by eexists].
Qed.

(** A new session takes a port that is not in use. *)
Definition add_session (t : NatTable) (k : NatKey) (e : NatEntry) : NatTable :=
  mkNatTable (<[k := e]> (entries t)) (<[xlate_port e := k]> (xlate_to_key t))
    ({[xlate_port e]} ∪ allocated_ports t) (external_ip t) (last_sweep t) (enabled t).

Lemma add_session_ok t k e : nat_ok t → entries t !! k = None → entry_for k e →
  xlate_port e ∉ allocated_ports t → (size (entries t) < MAX_NAT_ENTRIES)%nat → nat_ok (add_session t k e).
Proof.
  intros [Hen Hba Hal Hsz Hex] Hk Hf Hp Hlt.
  assert (Hx : xlate_to_key t !! xlate_port e = None) by (rewrite Hal in Hp; by apply eq_None_not_Some).
  constructor; cbn; try done.
  - intros k' e0. rewrite lookup_insert_Some. intros [[<- <-] | [Hne H]]; [by rewrite lookup_insert_eq|].
    destruct (Hen _ _ H) as [? ?]. rewrite lookup_insert_ne by congruence. done.
  - intros p k'. rewrite lookup_insert_Some. intros [[<- <-] | [Hne (e0 & H & <-)%Hba]].
    + exists e. by rewrite lookup_insert_eq.
    + exists e0. rewrite lookup_insert_ne by congruence. done.
  - intros p. rewrite elem_of_union, elem_of_singleton, Hal, lookup_insert_is_Some'. naive_solver.
  - rewrite map_size_insert_None by done. lia.
Qed.

Lemma remove_entry_ok t k : nat_ok t → nat_ok (remove_entry t k).
Proof.
  intros [Hen Hba Hal Hsz Hex]. unfold remove_entry. destruct (entries t !! k) as [e|] eqn:Hk; [|done].
  destruct (Hen _ _ Hk) as [_ Hx]. constructor; cbn; try done.
  - intros k' e0 [Hne H]%lookup_delete_Some. destruct (Hen _ _ H) as [? Hx']. split; [done|].
    rewrite lookup_delete_ne; [done|]. intros E. rewrite E in Hx. congruence.
  - intros p k' [Hne (e0 & H & <-)%Hba]%lookup_delete_Some. exists e0. split; [|done].
    rewrite lookup_delete_ne; [done|]. intros <-. congruence.
  - intros p. rewrite elem_of_difference, elem_of_singleton, Hal, lookup_delete_is_Some. naive_solver.
  - pose proof (map_size_delete_Some k (entries t) ltac:(by eexists)). lia.
Qed.

(** ** Port allocation *)

Lemma first_vacant_spec n p a :
  match first_vacant n p a with
  | Some q => p ≤ q < p + Z.of_nat n ∧ (q ∉ a) ∧ ∀ i, p ≤ i < q → i ∈ a
  | None => ∀ i, p ≤ i < p + Z.of_nat n → i ∈ a
  end.
Proof.
  revert p. induction n as [|n IH]; intros p; cbn [first_vacant]; [intros i Hi; lia|].
  case_bool_decide as Hp; [|split; [lia|split; [done|intros i Hi; lia]]].
  specialize (IH (p + 1)). destruct (first_vacant n (p + 1) a) as [q|].
  - destruct IH as (? & ? & Hi). split; [lia|]. split; [done|]. intros i ?.
    destruct (decide (i = p)) as [->|]; [done|]. apply Hi. lia.
  - intros i ?. destruct (decide (i = p)) as [->|]; [done|]. apply IH. lia.
Qed.

Lemma size_of_list (l : list Z) : (size (list_to_set l : gset Z) ≤ length l)%nat.
Proof.
  induction l as [|x l IH]; cbn [list_to_set length]; [by rewrite size_empty|].
  rewrite size_union_alt, size_singleton.
  assert (size ((list_to_set l : gset Z) ∖ {[x]}) ≤ size (list_to_set l : gset Z))%nat by (apply subseteq_size; set_solver).
  lia.
Qed.

(** Every allocated port is that of an entry. *)
Lemma allocated_size t : nat_ok t → (size (allocated_ports t) ≤ size (entries t))%nat.
Proof.
  intros [Hen Hba Hal _ _]. set (ports := (λ ke, xlate_port (snd ke)) <$> map_to_list (entries t)).
  transitivity (size (list_to_set ports : gset Z)).
  - apply subseteq_size. intros p [k (e & He & <-)%Hba]%Hal. apply elem_of_list_to_set.
    unfold ports. apply list_elem_of_fmap. exists (k, e). split; [done|]. by apply elem_of_map_to_list.
  - etrans; [apply size_of_list|]. unfold ports. by rewrite length_fmap, length_map_to_list.
Qed.

Lemma vacant_when_room t : nat_ok t → (size (entries t) < MAX_NAT_ENTRIES)%nat →
  ∃ port, alloc_xlate_port t = Some (port, mkNatTable (entries t) (xlate_to_key t) ({[port]} ∪ allocated_ports t)
            (external_ip t) (last_sweep t) (enabled t)) ∧
    NAT_PORT_START ≤ port ≤ NAT_PORT_END ∧ port ∉ allocated_ports t.
Proof.
  intros Hok Hlt. unfold alloc_xlate_port. destruct (Nat.leb_spec MAX_NAT_ENTRIES (size (entries t))); [lia|].
  pose proof (first_vacant_spec port_count NAT_PORT_START (allocated_ports t)) as F.
  assert (En : Z.of_nat port_count = NAT_PORT_END - NAT_PORT_START + 1).
  { unfold port_count. rewrite Z2Nat.id; [done|]. unfold NAT_PORT_END, NAT_PORT_START. lia. }
  destruct (first_vacant _ _ _) as [q|]; [exists q; split; [done|]; split; [lia|apply F]|exfalso].
  pose proof (allocated_size t Hok) as Hs.
  assert (Hsub : (list_to_set (seqZ NAT_PORT_START 2000) : gset Z) ⊆ allocated_ports t).
  { intros p [Hp1 Hp2]%elem_of_list_to_set%elem_of_seqZ. apply F. rewrite En. unfold NAT_PORT_END, NAT_PORT_START in *. lia. }
  apply subseteq_size in Hsub. rewrite size_list_to_set in Hsub by apply NoDup_seqZ.
  rewrite length_seqZ in Hsub. unfold MAX_NAT_ENTRIES in *. lia.
Qed.

Lemma alloc_full t : ¬ (size (entries t) < MAX_NAT_ENTRIES)%nat → alloc_xlate_port t = None.
Proof. intros H. unfold alloc_xlate_port. by rewrite (proj2 (Nat.leb_le _ _)) by lia. Qed.

(** ** The session of an outbound packet *)

(** The session is found or made unless the table is full; its entry answers
    on the port that is returned. *)
Lemma snat_session_ok t k tick : nat_ok t → key_ok k →
  match snat_session t k tick with
  | Some (port, t') => nat_ok t' ∧ xlate_to_key t' !! port = Some k ∧
      (∃ e, entries t' !! k = Some e ∧ xlate_port e = port) ∧
      external_ip t' = external_ip t ∧ enabled t' = enabled t
  | None => entries t !! k = None ∧ size (entries t) = MAX_NAT_ENTRIES
  end.
Proof.
  intros Hok Hk. unfold snat_session. destruct (entries t !! k) as [e|] eqn:E.
  - split_and!; try done.
    + by apply (with_entry_ok _ _ e).
    + cbn. by apply (no_entry t Hok) in E as [_ ?].
    + eexists. split; [apply lookup_insert_eq|done].
  - destruct (decide (size (entries t) < MAX_NAT_ENTRIES)%nat) as [Hlt|Hge].
    + destruct (vacant_when_room t Hok Hlt) as (port & -> & Hr & Hp). cbn.
      split; [|rewrite !lookup_insert_eq; split_and!; try done; by eexists].
      apply (add_session_ok t k (mkNatEntry _ _ port _ _)); try done.
    + rewrite alloc_full by done. cbn. split; [done|]. pose proof (no_size t Hok). lia.
Qed.

(** ** Every call keeps the invariant *)

Lemma nat_ports_bound pr p hl sp dp : is_bytes p → nat_ports pr p hl = Some (sp, dp) →
  0 ≤ sp < 65536 ∧ 0 ≤ dp < 65536.
Proof.
  intros Hb. unfold nat_ports, extract_tcp_udp_ports.
  destruct (_ || _); [destruct (_ <? _)%nat; [done|]|destruct (pr =? 1); [|done]].
  - intros [= <- <-]. split; by apply word_bound.
  - intros [= <- <-]. lia.
Qed.

Lemma snat_ok t p tick : nat_ok t → is_bytes p →
  ∃ t' o, snat_ipv4 t p tick = Ret (t', o) ∧ nat_ok t'.
Proof.
  intros Hok Hb. unfold snat_ipv4. destruct (enabled t); [|by eexists _, _]. cbn [negb].
  destruct (parse_ipv4_header p) as [[h hl]|] eqn:Hp; [|by eexists _, _].
  destruct (_ =? length p)%nat; [|by eexists _, _]. cbn [negb].
  destruct (nat_ports _ p hl) as [[sp dp]|] eqn:Hq; [|by eexists _, _].
  apply parse_ipv4_header_ok in Hp as (Hh & _ & _ & Es & _).
  assert (Hk : key_ok (mkNatKey (source h) sp (destination h) dp (to_u8 (protocol h)))).
  { split; cbn; [rewrite Es; apply slice_addr; [done|done|lia]|]. by eapply nat_ports_bound in Hq as [? ?]. }
  pose proof (snat_session_ok t _ tick Hok Hk) as S.
  destruct (snat_session t _ tick) as [[port t']|]; [|by eexists _, _].
  destruct S as (Hok' & _). destruct (snat_rewrite_total p hl (to_u8 (protocol h)) port (source h) (external_ip t'))
    as [o ->]; [done|apply Hok'|]. by eexists _, _.
Qed.

Lemma touch_same tick e : same_session e (touch_entry tick e).
Proof. unfold touch_entry. case_bool_decide; done. Qed.

Lemma dnat_ok t p tick : nat_ok t →
  ∃ t' o, dnat_ipv4 t p tick = Ret (t', o) ∧ nat_ok t'.
Proof.
  intros Hok. unfold dnat_ipv4. destruct (enabled t); [|by eexists _, _]. cbn [negb].
  destruct (parse_ipv4_header p) as [[h hl]|] eqn:Hp; [|by eexists _, _].
  destruct (negb _); [by eexists _, _|].
  destruct (nat_ports _ p hl) as [[sp dp]|]; [|by eexists _, _].
  destruct (xlate_to_key t !! dp) as [k|]; [|by eexists _, _].
  destruct (entries t !! k) as [e|] eqn:He; [|by eexists _, _].
  destruct (no_entry t Hok k e He) as [[Ei _ [[Hl _] _] _] _]. apply parse_ipv4_header_ok in Hp as (Hh & _).
  destruct (dnat_rewrite_total p hl (to_u8 (protocol h)) (destination h) (ne_src_ip e) (ne_src_port e))
    as [o ->]; [done|congruence|]. eexists _, _. split; [done|].
  apply (with_entry_ok _ _ e); auto using touch_same.
Qed.

Lemma foldl_remove_ok ks t : nat_ok t → nat_ok (foldl remove_entry t ks).
Proof. revert t. induction ks as [|k ks IH]; intros t H; cbn; auto using remove_entry_ok. Qed.

Lemma sweep_expired_ok t tick : nat_ok t → nat_ok (sweep_expired t tick).
Proof.
  intros H. unfold sweep_expired. destruct (_ <? _); [done|]. apply foldl_remove_ok. destruct H. by constructor.
Qed.

(** The arguments are what their types say. *)
Definition op_ok (op : nat_op) : Prop :=
  match op with
  | Snat p _ | Dnat p _ => is_bytes p
  | Enable ip => addr_ok ip
  | _ => True
  end.

Lemma nat_step_ok t op : nat_ok t → op_ok op → ∃ t', nat_step t op = Ret t' ∧ nat_ok t'.
Proof.
  intros H Ho. destruct op as [p k|p k|k|a b c d|a b c d|ip|]; cbn [nat_step op_ok] in *.
  - destruct (snat_ok t p k H Ho) as (t' & o & -> & ?). by eexists.
  - destruct (dnat_ok t p k H) as (t' & o & -> & ?). by eexists.
  - eexists. split; [done|]. by apply sweep_expired_ok.
  - eexists. split; [done|]. unfold promote_tcp_to_established. destruct (_ !! _) as [e|] eqn:E; [|done].
    case_bool_decide; [|done]. by apply (with_entry_ok _ _ e).
  - eexists. split; [done|]. unfold mark_tcp_closing. destruct (_ !! _) as [e|] eqn:E; [|done].
    by apply (with_entry_ok _ _ e).
  - eexists. split; [done|]. by apply enable_ok.
  - eexists. split; [done|]. by apply disable_ok.
Qed.

Lemma nat_run_ok ops t : nat_ok t → Forall op_ok ops → ∃ t', nat_run t ops = Ret t' ∧ nat_ok t'.
Proof.
  revert t. induction ops as [|op ops IH]; intros t Ht Ho; cbn [nat_run]; [by eexists|].
  apply Forall_cons in Ho as [H1 H2]. destruct (nat_step_ok t op Ht H1) as (t1 & -> & H). by apply IH.
Qed.

(** C23. Any sequence of calls on a new table returns, no slice write is out of range,
    the table stays bounded, and two sessions never share an external port; the
    port of a session leads back to it. *)
Theorem nat_sessions_stay_apart (ops : list nat_op) :
  Forall op_ok ops →
  ∃ t, nat_run nat_new ops = Ret t ∧ (size (entries t) ≤ MAX_NAT_ENTRIES)%nat ∧
    (∀ k e, entries t !! k = Some e →
       NAT_PORT_START ≤ xlate_port e ≤ NAT_PORT_END ∧ xlate_port e ∈ allocated_ports t ∧
       xlate_to_key t !! xlate_port e = Some k) ∧
    (∀ k1 e1 k2 e2, entries t !! k1 = Some e1 → entries t !! k2 = Some e2 →
       xlate_port e1 = xlate_port e2 → k1 = k2) ∧
    (∀ p, p ∈ allocated_ports t → ∃ k e, entries t !! k = Some e ∧ xlate_port e = p).
Proof.
  intros Ho. destruct (nat_run_ok ops nat_new nat_new_ok Ho) as (t & E & [Hen Hba Hal Hsz _]).
  exists t. split_and!; [done|done| | |].
  - intros k e H. destruct (Hen k e H) as [[_ _ _ ?] Hx]. split_and!; [lia|lia| |done]. apply Hal. by eexists.
  - intros k1 e1 k2 e2 [_ H1]%Hen [_ H2]%Hen E12. rewrite E12 in H1. congruence.
  - intros p [k (e & ? & ?)%Hba]%Hal. by exists k, e.
Qed.

(** ** Sweeping *)

Lemma remove_entry_entries t k : entries (remove_entry t k) = delete k (entries t).
Proof. unfold remove_entry. destruct (entries t !! k) eqn:E; [done|]. by rewrite delete_id. Qed.

Lemma foldl_remove_entries ks t k :
  entries (foldl remove_entry t ks) !! k = if decide (k ∈ ks) then None else entries t !! k.
Proof.
  revert t. induction ks as [|k0 ks IH]; intros t; cbn [foldl]; [by rewrite decide_False by set_solver|].
  rewrite IH, remove_entry_entries. destruct (decide (k ∈ ks)) as [Hk|Hk].
  - by rewrite decide_True by set_solver.
  - destruct (decide (k = k0)) as [->|].
    + by rewrite lookup_delete_eq, decide_True by set_solver.
    + by rewrite lookup_delete_ne, decide_False by set_solver.
Qed.

Lemma elem_of_expired t tick k : k ∈ expired_keys t tick ↔ ∃ e, entries t !! k = Some e ∧ is_expired tick e = true.
Proof.
  unfold expired_keys. rewrite list_elem_of_fmap. split.
  - intros ([k' e] & -> & [Hx Hm]%list_elem_of_filter). exists e. split; [by apply elem_of_map_to_list|done].
  - intros (e & He & Hx). exists (k, e). split; [done|]. apply list_elem_of_filter.
    split; [done|by apply elem_of_map_to_list].
Qed.

(** A sweep that is due keeps exactly the sessions that have not timed out. *)
Theorem sweep_keeps_live (t : NatTable) (tick : Z) (k : NatKey) :
  NAT_SWEEP_INTERVAL ≤ wrapping_sub tick (last_sweep t) →
  entries (sweep_expired t tick) !! k =
  match entries t !! k with
  | Some e => if is_expired tick e then None else Some e
  | None => None
  end.
Proof.
  intros Hd. unfold sweep_expired. rewrite (proj2 (Z.ltb_ge _ _) Hd). rewrite foldl_remove_entries. cbn [entries].
  destruct (decide (k ∈ _)) as [(e & He & Hx)%elem_of_expired|Hn]; cbn [entries] in *; [by rewrite He, Hx|].
  destruct (entries t !! k) as [e|] eqn:E; [|done]. destruct (is_expired tick e) eqn:Hx; [|done].
  exfalso. apply Hn, elem_of_expired. by exists e.
Qed.

(** ** What a translation sends *)

(** A packet that goes out is the rewritten one, on the port of its session. *)
Lemma snat_sends t p tick h hl t' out : nat_ok t → is_bytes p → parse_ipv4_header p = Some (h, hl) →
  is_transport (byte p 9) = true → snat_ipv4 t p tick = Ret (t', Some out) →
  let co := transport_csum_offset (byte p 9) in
  let sp := be16 (byte p hl) (byte p (hl + 1)) in
  let key := mkNatKey (slice p 12 16) sp (slice p 16 20)
    (be16 (byte p (hl + 2)) (byte p (hl + 3))) (byte p 9) in
  sized p hl ∧ enabled t' = true ∧ external_ip t' = external_ip t ∧ slots p hl 12 0 co ∧
  ∃ port e, nat_ok t' ∧ xlate_to_key t' !! port = Some key ∧ entries t' !! key = Some e ∧ xlate_port e = port ∧
    out = rewritten p hl 12 0 co (external_ip t)
      (update_ip_checksum_after_src_change (be16 (byte p 10) (byte p 11)) (slice p 12 16) (external_ip t)) port
      (update_transport_checksum_after_nat (be16 (byte p (hl + co)) (byte p (hl + co + 1)))
         (be16 (byte p (hl + 0)) (byte p (hl + 0 + 1))) port (slice p 12 16) (external_ip t)).
Proof.
  intros Hok Hb Hp Ht H co sp key. unfold snat_ipv4 in H. destruct (enabled t) eqn:En; [|done]. cbn [negb] in H.
  rewrite Hp in H. pose proof (parse_ipv4_header_ok _ _ _ Hp) as (Hh & _ & _ & Es & Ed & Ep & El).
  rewrite Ep, to_from_u8, Es, Ed, El in H.
  destruct (Nat.eqb_spec (Z.to_nat (be16 (byte p 2) (byte p 3))) (length p)) as [Hlen|]; [|done]. cbn [negb] in H.
  assert (Hs : sized p hl).
  { apply (parse_ipv4_header_sized p h); [done| |done]. pose proof (word_bound p 2 3 Hb). lia. }
  unfold nat_ports, extract_tcp_udp_ports in H. fold (is_transport (byte p 9)) in H. rewrite Ht in H.
  destruct (Nat.ltb_spec (length p) (hl + 4)); [done|]. fold sp key in H.
  assert (Hk : key_ok key) by (split; [apply slice_addr; [done|done|lia]|by apply word_bound]).
  pose proof (snat_session_ok t key tick Hok Hk) as S.
  destruct (snat_session t key tick) as [[port t1]|]; [|done]. destruct S as (Hok1 & Hx & (e & He & Hpo) & Hex & Hen).
  rewrite snat_rewrite_eq in H by (done || apply Hok1). fold co in H. cbn [mbind outcome_bind] in H.
  destruct (Nat.ltb_spec (length p) (hl + co + 2)); [done|]. injection H as <- <-. rewrite Hex, Hen.
  split_and!; try done.
  - constructor; [by left|by left|apply csum_offset_cases|done].
  - by exists port, e.
Qed.

Lemma transport_pos pr : is_transport pr = true → 0 < pr.
Proof. unfold is_transport. intros [E%Z.eqb_eq|E%Z.eqb_eq]%orb_true_iff; lia. Qed.

(** A packet that comes in goes to the host of the session its port names. *)
Lemma dnat_sends t p tick h hl t' out : nat_ok t → is_bytes p → Z.of_nat (length p) < 65536 →
  parse_ipv4_header p = Some (h, hl) → is_transport (byte p 9) = true → dnat_ipv4 t p tick = Ret (t', Some out) →
  sized p hl ∧ slots p hl 16 2 (transport_csum_offset (byte p 9)) ∧
  ∃ k e, entries t !! k = Some e ∧
    dnat_rewrite p hl (byte p 9) (slice p 16 20) (ne_src_ip e) (ne_src_port e) = Ret (Some out).
Proof.
  intros Hok Hb Hlen Hp Ht H. unfold dnat_ipv4 in H. destruct (enabled t); [|done]. cbn [negb] in H.
  rewrite Hp in H. pose proof (parse_ipv4_header_sized _ _ _ Hb Hlen Hp) as Hs.
  apply parse_ipv4_header_ok in Hp as (Hh & _ & _ & _ & Ed & Ep & _). rewrite Ep, to_from_u8, Ed in H.
  destruct (negb _); [done|]. destruct (nat_ports _ p hl) as [[sp dp]|]; [|done].
  destruct (xlate_to_key t !! dp) as [k|]; [|done]. destruct (entries t !! k) as [e|] eqn:He; [|done].
  destruct (dnat_rewrite _ _ _ _ _ _) as [o| |] eqn:E; [|done..]. injection H as _ ->.
  split; [done|]. split; [|by exists k, e].
  constructor; [by right|by right|apply csum_offset_cases|]. apply Nat.le_ngt. intros Hf.
  unfold dnat_rewrite in E. fold (is_transport (byte p 9)) in E. rewrite Ht in E.
  destruct (no_entry t Hok k e He) as [[Ei _ [[Hl _] _] _] _].
  rewrite rewrite_address_eq in E by (lia || congruence || by right). cbn [mbind outcome_bind] in E.
  by rewrite (proj2 (Nat.ltb_lt _ _) Hf) in E.
Qed.

(** C25. A packet that went out has the external address as its source, the
    destination and the payload it had, and both checksums verify if they did
    before. *)
Theorem snat_keeps_checksums (t t' : NatTable) (p out : bytes) (tick : Z) (h : Ipv4Header) (hl : nat) :
  nat_ok t → is_bytes p → parse_ipv4_header p = Some (h, hl) → is_transport (byte p 9) = true →
  header_sums p hl → transport_sums p hl →
  snat_ipv4 t p tick = Ret (t', Some out) →
  header_sums out hl ∧ transport_sums out hl ∧
  slice out 12 16 = external_ip t ∧ slice out 16 20 = slice p 16 20 ∧
  let payload := (hl + transport_csum_offset (byte p 9) + 2)%nat in drop payload out = drop payload p.
Proof.
  intros Hok Hb Hp Ht Hhs Hts H.
  destruct (snat_sends _ _ _ _ _ _ _ Hok Hb Hp Ht H) as (Hs & _ & _ & Hsl & port & e & Hok' & _ & He & Hpo & ->).
  pose proof (no_ext t Hok) as Hext. pose proof (version_pos _ _ _ Hp Hb) as H0.
  destruct (no_entry t' Hok' _ _ He) as [[_ _ _ Hr] _]. unfold NAT_PORT_START, NAT_PORT_END in Hr.
  destruct (rewritten_verifies p hl 12 0 (transport_csum_offset (byte p 9)) (external_ip t) _ port _ Hs Hsl Hext
    eq_refl eq_refl) as [Vh Vt]; [lia|done|by apply transport_pos|done|done|].
  split_and!; [exact Vh|exact Vt| | |].
  - by apply rewritten_addr.
  - apply (rewritten_other p hl 12 0 _ _ _ _ _ Hs Hsl Hext 16); [by right|done].
  - by apply rewritten_tail.
Qed.

(** An inbound packet whose checksums verify, the transport checksum not being
    zero, is delivered with checksums that verify. *)
Theorem dnat_keeps_checksums (t t' : NatTable) (p out : bytes) (tick : Z) (h : Ipv4Header) (hl : nat) :
  let co := transport_csum_offset (byte p 9) in
  nat_ok t → is_bytes p → Z.of_nat (length p) < 65536 →
  parse_ipv4_header p = Some (h, hl) → is_transport (byte p 9) = true →
  be16 (byte p (hl + co)) (byte p (hl + co + 1)) ≠ 0 →
  header_sums p hl → transport_sums p hl →
  dnat_ipv4 t p tick = Ret (t', Some out) →
  header_sums out hl ∧ transport_sums out hl ∧ slice out 12 16 = slice p 12 16 ∧
  drop (hl + co + 2) out = drop (hl + co + 2) p.
Proof.
  intros co Hok Hb Hlen Hp Ht Hc Hhs Hts H.
  destruct (dnat_sends _ _ _ _ _ _ _ Hok Hb Hlen Hp Ht H) as (Hs & Hsl & k & e & He & E).
  fold co in Hsl, E. destruct (no_entry t Hok k e He) as [[Ei Epo [Hka Hkp] _] _].
  rewrite <- Ei in Hka. rewrite <- Epo in Hkp. pose proof (version_pos _ _ _ Hp Hb) as H0.
  rewrite dnat_rewrite_eq in E by (done || apply Hsl). injection E as <-.
  destruct (rewritten_verifies p hl 16 2 co (ne_src_ip e) _ (ne_src_port e) _ Hs Hsl Hka
    eq_refl eq_refl) as [Vh Vt]; [lia|done|by apply transport_pos|done|done|].
  split_and!; [exact Vh|exact Vt| |by apply rewritten_tail].
  apply (rewritten_other p hl 16 2 _ _ _ _ _ Hs Hsl Hka 12); [by left|done].
Qed.

(** ** Replies *)

Lemma word_slice (l : bytes) a : is_bytes l → (a + 2 ≤ length l)%nat →
  to_be16 (be16 (byte l a) (byte l (a + 1))) = slice l a (a + 2).
Proof.
  intros Hb H. assert (E0 := slice_lookup l a (a + 2) 0). assert (E1 := slice_lookup l a (a + 2) 1).
  assert (L : length (slice l a (a + 2)) = 2%nat) by (rewrite length_slice; lia).
  pose proof (slice_bytes l a (a + 2) Hb) as Bs.
  destruct (slice l a (a + 2)) as [|x [|y [|]]]; try done.
  rewrite decide_True in E0 by lia. rewrite decide_True in E1 by lia. rewrite Nat.add_0_r in E0.
  unfold byte. rewrite <- E0, <- E1. change (to_be16 (be16 x y) = [x; y]).
  apply Forall_cons in Bs as [Hx [Hy _]%Forall_cons]. unfold is_byte, to_be16, be16 in *. f_equal.
  - rewrite Z.shiftr_div_pow2 by lia. change (2 ^ 8) with 256.
    rewrite Z.div_add_l, (Z.div_small y), Z.add_0_r by lia. apply Z.mod_small. lia.
  - f_equal. rewrite Z.add_comm, Z.mod_add by lia. apply Z.mod_small. lia.
Qed.

(** The inbound rewrite, whatever the checksum is. *)
Lemma dnat_rewrite_fields p hl pr dst new port : (20 ≤ hl)%nat → length new = 4%nat → is_transport pr = true →
  (hl + transport_csum_offset pr + 2 ≤ length p)%nat →
  ∃ back, dnat_rewrite p hl pr dst new port = Ret (Some back) ∧ slice back 16 20 = new ∧
    slice back 12 16 = slice p 12 16 ∧ slice back (hl + 2) (hl + 4) = to_be16 port ∧
    slice back hl (hl + 2) = slice p hl (hl + 2) ∧
    drop (hl + transport_csum_offset pr + 2) back = drop (hl + transport_csum_offset pr + 2) p.
Proof.
  intros Hh Ln Ht Hf. unfold dnat_rewrite. fold (is_transport pr). rewrite Ht.
  pose proof (csum_offset_cases pr) as Hco. set (co := transport_csum_offset pr) in *.
  rewrite rewrite_address_eq by (lia || auto). cbn [mbind outcome_bind].
  destruct (Nat.ltb_spec (length p) (hl + co + 2)); [lia|].
  rewrite copy_at_patch by fits_patch. cbn [mbind outcome_bind].
  set (b := patch (patch (patch p 16 new) 10 _) (hl + 2) (to_be16 port)).
  assert (Lb : length b = length p) by (unfold b; fits_patch).
  assert (Hb : slice b 16 20 = new ∧ slice b 12 16 = slice p 12 16 ∧ slice b (hl + 2) (hl + 4) = to_be16 port ∧
    slice b hl (hl + 2) = slice p hl (hl + 2) ∧ drop (hl + co + 2) b = drop (hl + co + 2) p).
  { unfold b. split_and!.
    - rewrite 2!slice_patch_out by fits_patch. apply slice_patch_in; fits_patch.
    - by rewrite 3!slice_patch_out by fits_patch.
    - apply slice_patch_in; fits_patch.
    - by rewrite 3!slice_patch_out by fits_patch.
    - by rewrite 3!drop_patch_low by fits_patch. }
  clearbody b. destruct (_ =? 0); [by exists b|]. rewrite copy_at_patch by fits_patch. cbn [mbind outcome_bind].
  eexists. split; [done|]. rewrite !slice_patch_out by fits_patch. by rewrite drop_patch_low by fits_patch.
Qed.

Lemma rewritten_source_port p hl co new c1 port c2 : sized p hl → slots p hl 12 0 co → addr_ok new →
  slice (rewritten p hl 12 0 co new c1 port c2) hl (hl + 2) = to_be16 port.
Proof.
  intros Hs Hl Hn. pose proof (rewritten_port p hl 12 0 co new c1 port c2 Hs Hl Hn) as E.
  by rewrite Nat.add_0_r in E.
Qed.


(** ** Packets that are not translated as intended *)

(** No ICMP reply comes back: the table is searched for port 0, which is never
    a translated port. *)
Theorem icmp_replies_dropped (t : NatTable) (p : bytes) (tick : Z) :
  nat_ok t → byte p 9 = 1 → dnat_ipv4 t p tick = Ret (t, None).
Proof.
  intros Hok H9. unfold dnat_ipv4. destruct (enabled t); [|done]. cbn [negb].
  destruct (parse_ipv4_header p) as [[h hl]|] eqn:Hp; [|done]. destruct (negb _); [done|].
  apply parse_ipv4_header_ok in Hp as (_ & _ & _ & _ & _ & -> & _). rewrite to_from_u8, H9. cbn.
  destruct (xlate_to_key t !! 0) as [k|] eqn:E; [|done]. apply (no_back t Hok) in E as (e & He & E0).
  destruct (no_entry t Hok k e He) as [[_ _ _ Hr] _]. unfold NAT_PORT_START in Hr. lia.
Qed.

Definition demo_ext : Ipv4Addr := [203; 0; 113; 5].

(** 192.168.1.10:1000 to 8.8.8.8:80 over TCP, the reply to the translated
    packet, and the same reply with another sequence number, whose checksum is
    zero. *)
Definition demo_packet : bytes :=
  [69; 0; 0; 40; 0; 1; 64; 0; 64; 6; 105; 13; 192; 168; 1; 10; 8; 8; 8; 8;
   3; 232; 0; 80; 0; 0; 0; 0; 0; 0; 0; 0; 80; 16; 16; 0; 201; 218; 0; 0].
Definition demo_reply : bytes :=
  [69; 0; 0; 40; 0; 1; 64; 0; 64; 6; 238; 185; 8; 8; 8; 8; 203; 0; 113; 5;
   0; 80; 128; 0; 0; 0; 0; 0; 0; 0; 0; 0; 80; 16; 16; 0; 211; 110; 0; 0].
Definition demo_zero_reply : bytes :=
  [69; 0; 0; 40; 0; 1; 64; 0; 64; 6; 238; 185; 8; 8; 8; 8; 203; 0; 113; 5;
   0; 80; 128; 0; 0; 0; 211; 110; 0; 0; 0; 0; 80; 16; 16; 0; 0; 0; 0; 0].

(** 192.168.1.10:1000 to 8.8.8.8:53 over UDP without a checksum. *)
Definition demo_datagram : bytes :=
  [69; 0; 0; 28; 0; 1; 64; 0; 64; 17; 105; 14; 192; 168; 1; 10; 8; 8; 8; 8;
   3; 232; 0; 53; 0; 8; 0; 0].

Definition demo_table : NatTable := enable demo_ext nat_new.
Definition sent_by (r : outcome (NatTable * option bytes)) : NatTable :=
  match r with Ret (t, _) => t | _ => nat_new end.
Definition packet_of (r : outcome (NatTable * option bytes)) : bytes :=
  match r with Ret (_, Some p) => p | _ => [] end.

Lemma bytes_checked (l : bytes) : bool_decide (is_bytes l) = true → is_bytes l.
Proof. apply bool_decide_eq_true_1. Qed.

Lemma demo_ext_ok : addr_ok demo_ext.
Proof. split; [done|]. apply bytes_checked. vm_compute. reflexivity. Qed.

Lemma demo_table_ok : nat_ok demo_table.
Proof. apply enable_ok, nat_new_ok. apply demo_ext_ok. Qed.

(** The table and the packet after the demonstration packet was sent. *)
Definition demo_sent : NatTable := Eval vm_compute in sent_by (snat_ipv4 demo_table demo_packet 100).
Definition demo_out : bytes := Eval vm_compute in packet_of (snat_ipv4 demo_table demo_packet 100).

Lemma demo_sends : snat_ipv4 demo_table demo_packet 100 = Ret (demo_sent, Some demo_out).
Proof. vm_compute. reflexivity. Qed.

Lemma demo_run : nat_run nat_new [Enable demo_ext; Snat demo_packet 100] = Ret demo_sent.
Proof. cbn [nat_run nat_step mbind outcome_bind]. fold demo_table. by rewrite demo_sends. Qed.

(** A TCP reply whose checksum is legitimately zero is delivered with a checksum
    that does not verify: the exception for UDP packets without a checksum is
    made for TCP too. *)
Theorem zero_tcp_checksum_broken :
  ∃ t t' out, nat_run nat_new [Enable demo_ext; Snat demo_packet 100] = Ret t ∧
    byte demo_zero_reply 9 = 6 ∧ header_sums demo_zero_reply 20 ∧ transport_sums demo_zero_reply 20 ∧
    dnat_ipv4 t demo_zero_reply 200 = Ret (t', Some out) ∧ ¬ transport_sums out 20.
Proof.
  exists demo_sent, (sent_by (dnat_ipv4 demo_sent demo_zero_reply 200)),
    (packet_of (dnat_ipv4 demo_sent demo_zero_reply 200)).
  split_and!; [exact demo_run|vm_compute; reflexivity..|]. intros H. vm_compute in H. discriminate.
Qed.

(** A UDP datagram without a checksum goes out with one, and it is wrong. *)
Theorem unsummed_udp_gets_checksum :
  ∃ t' out, snat_ipv4 demo_table demo_datagram 100 = Ret (t', Some out) ∧
    byte demo_datagram 9 = 17 ∧ slice demo_datagram 26 28 = [0; 0] ∧
    slice out 26 28 ≠ [0; 0] ∧ ¬ transport_sums out 20.
Proof.
  exists (sent_by (snat_ipv4 demo_table demo_datagram 100)), (packet_of (snat_ipv4 demo_table demo_datagram 100)).
  split_and!; [vm_compute; reflexivity..| |]; intros H; vm_compute in H; discriminate.
Qed.

(** ** Witnesses *)

Lemma nat_sessions_stay_apart_witness :
  ∃ t, nat_run nat_new [Enable demo_ext; Snat demo_packet 100; Dnat demo_reply 200; Sweep 9000000] = Ret t ∧
    (size (entries t) ≤ MAX_NAT_ENTRIES)%nat.
Proof.
  destruct (nat_sessions_stay_apart [Enable demo_ext; Snat demo_packet 100; Dnat demo_reply 200; Sweep 9000000])
    as (t & E & Hs & _).
  - apply Forall_cons_2; [exact demo_ext_ok|].
    apply Forall_cons_2; [apply (bytes_checked demo_packet); vm_compute; reflexivity|].
    apply Forall_cons_2; [apply (bytes_checked demo_reply); vm_compute; reflexivity|].
    apply Forall_cons_2; [exact I|apply Forall_nil_2].
  - exists t. split; [exact E|exact Hs].
Defined.

Lemma snat_keeps_checksums_witness :
  let out := demo_out in
  header_sums out 20 ∧ transport_sums out 20 ∧ slice out 12 16 = demo_ext.
Proof.
  assert (Hh : ∃ h, parse_ipv4_header demo_packet = Some (h, 20%nat)) by (eexists; vm_compute; reflexivity).
  destruct Hh as [h Hh].
  destruct (snat_keeps_checksums demo_table demo_sent demo_packet
    demo_out 100 h 20) as (A & B & C & _).
  - exact demo_table_ok.
  - apply bytes_checked. vm_compute. reflexivity.
  - exact Hh.
  - vm_compute. reflexivity.
  - vm_compute. reflexivity.
  - vm_compute. reflexivity.
  - exact demo_sends.
  - split; [exact A|]. split; [exact B|exact C].
Defined.

Lemma sent_table_ok : nat_ok demo_sent.
Proof.
  destruct (snat_ok demo_table demo_packet 100 demo_table_ok) as (t & o & E & H).
  - apply (bytes_checked demo_packet). vm_compute. reflexivity.
  - rewrite demo_sends in E. injection E as <- <-. exact H.
Qed.

Lemma dnat_keeps_checksums_witness :
  let out := packet_of (dnat_ipv4 demo_sent demo_reply 200) in
  header_sums out 20 ∧ transport_sums out 20.
Proof.
  assert (Hh : ∃ h, parse_ipv4_header demo_reply = Some (h, 20%nat)) by (eexists; vm_compute; reflexivity).
  destruct Hh as [h Hh].
  destruct (dnat_keeps_checksums demo_sent
    (sent_by (dnat_ipv4 demo_sent demo_reply 200)) demo_reply
    (packet_of (dnat_ipv4 demo_sent demo_reply 200)) 200 h 20)
    as (A & B & _).
  - exact sent_table_ok.
  - apply bytes_checked. vm_compute. reflexivity.
  - vm_compute. reflexivity.
  - exact Hh.
  - vm_compute. reflexivity.
  - vm_compute. discriminate.
  - vm_compute. reflexivity.
  - vm_compute. reflexivity.
  - vm_compute. reflexivity.
  - split; [exact A|exact B].
Defined.


Lemma sweep_keeps_live_witness :
  entries (sweep_expired demo_sent 6100) !!
    mkNatKey [192; 168; 1; 10] 1000 [8; 8; 8; 8] 80 6 = None.
Proof.
  rewrite (sweep_keeps_live demo_sent 6100).
  - vm_compute. reflexivity.
  - apply Z.leb_le. vm_compute. reflexivity.
Defined.

Lemma icmp_replies_dropped_witness :
  dnat_ipv4 demo_table (<[9%nat := 1]> demo_reply) 200 = Ret (demo_table, None).
Proof.
  apply (icmp_replies_dropped demo_table (<[9%nat := 1]> demo_reply) 200).
  - exact demo_table_ok.
  - vm_compute. reflexivity.
Defined.
