(* ===== verification/Poly1305.v ===== *)
(** * Poly1305, the one-time authenticator

    kernel/crypto.rs, [poly1305_clamp], [poly1305_mac] and [poly1305_mul_mod].
    The accumulator is three 64-bit limbs; the products are 128-bit, and their
    additions and multiplications are checked ([Panic] on overflow, as a debug
    build does).  The reference is the polynomial of RFC 8439 over the integers
    modulo [2^130 - 5]. *)

From stdpp Require Import base tactics decidable numbers list.
From Stdlib Require Import ZArith Lia Bool.
From S2P Require Import Prelude Bytes.

(** ** Checked 128-bit arithmetic *)

Definition add128 (a b : Z) : outcome Z := u128 (a + b).
Definition mul128 (a b : Z) : outcome Z := u128 (a * b).

Definition mask64 : Z := 2 ^ 64 - 1.

(** ** The key *)

(** [r[i] &= m]. *)
Definition and_at (i : nat) (m : Z) (l : bytes) : bytes := <[i := Z.land (byte l i) m]> l.

Definition poly1305_clamp (key : bytes) : bytes * bytes :=
  let r := slice key 0 16 in
  let s := slice key 16 32 in
  let r := and_at 3 15 r in
  let r := and_at 7 15 r in
  let r := and_at 11 15 r in
  let r := and_at 15 15 r in
  let r := and_at 4 252 r in
  let r := and_at 8 252 r in
  let r := and_at 12 252 r in
  (r, s).

(** ** The accumulator *)

Record accumulator := mkAcc { acc0 : Z; acc1 : Z; acc2 : Z }.

Definition poly1305_mul_mod (a : accumulator) (r0 r1 : Z) : outcome accumulator :=
  let '(mkAcc x0 x1 x2) := a in
  h0 ← mul128 x0 r0;
  h1a ← mul128 x0 r1;
  h1b ← mul128 x1 r0;
  h1 ← add128 h1a h1b;
  h2a ← mul128 x1 r1;
  h2b ← mul128 x2 r0;
  h2 ← add128 h2a h2b;
  h3 ← mul128 x2 r1;
  s1 ← add128 h1 (Z.shiftr h0 64);
  s2 ← add128 h2 (Z.shiftr s1 64);
  c3 ← add128 h3 (Z.shiftr s2 64);
  let c0 := Z.land h0 mask64 in
  let c1 := Z.land s1 mask64 in
  let c2 := Z.land s2 mask64 in
  c3s ← mul128 c3 5;
  r0_acc ← add128 c0 (Z.shiftl (Z.land c3s 3) 62);
  r1_acc ← add128 c1 (Z.land (Z.shiftr c3s 2) mask64);
  let c2_lo := Z.land c2 3 in
  let c2_hi := Z.shiftr c2 2 in
  c2_five ← mul128 c2_hi 5;
  r0_acc ← add128 r0_acc c2_five;
  let carry0 := Z.shiftr r0_acc 64 in
  let r0_acc := Z.land r0_acc mask64 in
  r1_acc ← add128 r1_acc carry0;
  let carry1 := Z.shiftr r1_acc 64 in
  let r1_acc := Z.land r1_acc mask64 in
  r2_acc ← add128 c2_lo carry1;
  Ret (mkAcc r0_acc r1_acc (wrap64 r2_acc)).

(** The 17-byte buffer of a block as its two low words; [top] is what the
    appended byte adds to the third limb. *)
Definition absorb (a : accumulator) (block : bytes) (top : Z) (r0 r1 : Z) : outcome accumulator :=
  let n0 := from_le (slice block 0 8) in
  let n1 := from_le (slice block 8 16) in
  t0 ← add128 (acc0 a) n0;
  t1 ← add128 (acc1 a) n1;
  t1 ← add128 t1 (Z.shiftr t0 64);
  poly1305_mul_mod (mkAcc (wrap64 t0) (wrap64 t1)
    (wrapping_add (wrapping_add (acc2 a) (wrap64 (Z.shiftr t1 64))) top)) r0 r1.

(** The block buffer: the chunk, the byte [1], zeros up to 17 bytes. *)
Definition block_of (chunk : bytes) : bytes := chunk ++ [1] ++ replicate (16 - length chunk) 0.

(** The loop over full blocks and the partial block that may follow it. *)
Fixpoint poly1305_blocks (a : accumulator) (cs : list bytes) (r0 r1 : Z) : outcome accumulator :=
  match cs with
  | [] => Ret a
  | c :: cs =>
      a ← absorb a (block_of c) (if decide (length c = 16%nat) then 1 else 0) r0 r1;
      poly1305_blocks a cs r0 r1
  end.

Definition poly1305_finish (a : accumulator) (s_bytes : bytes) : outcome bytes :=
  let s0 := from_le (slice s_bytes 0 8) in
  let s1 := from_le (slice s_bytes 8 16) in
  t0 ← add128 (acc0 a) s0;
  t1 ← add128 (acc1 a) s1;
  t1 ← add128 t1 (Z.shiftr t0 64);
  Ret (to_le 8 (wrap64 t0) ++ to_le 8 (wrap64 t1)).

Definition poly1305_mac (key data : bytes) : outcome bytes :=
  let '(r_bytes, s_bytes) := poly1305_clamp key in
  let r0 := from_le (slice r_bytes 0 8) in
  let r1 := from_le (slice r_bytes 8 16) in
  a ← poly1305_blocks (mkAcc 0 0 0) (chunks 16 data) r0 r1;
  poly1305_finish a s_bytes.

(** ** The reference: RFC 8439, section 2.5.1 *)

Definition P1305 : Z := 2 ^ 130 - 5.

Fixpoint rfc_accumulate (acc r : Z) (cs : list bytes) : Z :=
  match cs with
  | [] => acc
  | c :: cs => rfc_accumulate ((acc + from_le (c ++ [1])) * r mod P1305) r cs
  end.

Definition rfc_clamp (r : Z) : Z := Z.land r 21267647620597763993911028882763415551.

(** The accumulated polynomial and the number the tag encodes. *)
Definition rfc_poly (key data : bytes) : Z :=
  rfc_accumulate 0 (rfc_clamp (from_le (slice key 0 16))) (chunks 16 data).

Definition rfc_tag (key data : bytes) : bytes :=
  to_le 16 (rfc_poly key data + from_le (slice key 16 32)).

(** ** Facts about the limbs *)

Lemma u128_small x : x < 2 ^ 128 → u128 x = Ret x.
Proof. intros H. unfold u128. by rewrite (proj2 (Z.ltb_lt _ _)). Qed.

Lemma shiftr_eq x n : 0 ≤ n → Z.shiftr x n = x / 2 ^ n.
Proof. apply Z.shiftr_div_pow2. Qed.

Lemma land_mask64 x : Z.land x mask64 = x mod 2 ^ 64.
Proof. change mask64 with (Z.ones 64). by rewrite Z.land_ones. Qed.

Lemma land_three x : Z.land x 3 = x mod 4.
Proof. change 3 with (Z.ones 2). by rewrite Z.land_ones. Qed.

Definition value (a : accumulator) : Z := acc0 a + 2 ^ 64 * acc1 a + 2 ^ 128 * acc2 a.

(** Between two blocks: full low limbs, a small third one. *)
Definition acc_ok (top : Z) (a : accumulator) : Prop :=
  0 ≤ acc0 a < 2 ^ 64 ∧ 0 ≤ acc1 a < 2 ^ 64 ∧ 0 ≤ acc2 a ≤ top.

Lemma product_bound a b m n : 0 ≤ a ≤ m → 0 ≤ b ≤ n → 0 ≤ a * b ≤ m * n.
Proof. intros. split; [lia|]. apply Z.mul_le_mono_nonneg; lia. Qed.

(** A quotient and a remainder as linear facts. *)
Ltac split_div x n :=
  let q := fresh "q" in let r := fresh "r" in
  let Hq := fresh "Hq" in let Hr := fresh "Hr" in
  pose proof (Z.div_mod x n ltac:(lia)) as Hq; pose proof (Z.mod_pos_bound x n ltac:(lia)) as Hr;
  set (q := x / n) in *; set (r := x mod n) in *; clearbody q r.

(** A term under a name, with its equation for [lia]. *)
Ltac name t x E :=
  set (x := t) in *; assert (E : x = t) by reflexivity; clearbody x.

(** Run the next checked operation. *)
Ltac u128_step :=
  match goal with |- context [u128 ?x ≫= _] => rewrite (u128_small x) by lia end;
  cbn [mbind outcome_bind].

Lemma poly1305_mul_mod_spec a r0 r1 :
  acc_ok 6 a → 0 ≤ r0 < 2 ^ 60 → 0 ≤ r1 < 2 ^ 60 →
  ∃ a', poly1305_mul_mod a r0 r1 = Ret a' ∧ acc_ok 4 a' ∧
    ∃ k, value a * (r0 + 2 ^ 64 * r1) = value a' + P1305 * k.
Proof.
  intros (B0 & B1 & B2) R0 R1. destruct a as [x0 x1 x2]; cbn [acc0 acc1 acc2] in *.
  pose proof (product_bound x0 r0 (2 ^ 64 - 1) (2 ^ 60 - 1) ltac:(lia) ltac:(lia)) as P0.
  pose proof (product_bound x0 r1 (2 ^ 64 - 1) (2 ^ 60 - 1) ltac:(lia) ltac:(lia)) as P1.
  pose proof (product_bound x1 r0 (2 ^ 64 - 1) (2 ^ 60 - 1) ltac:(lia) ltac:(lia)) as P2.
  pose proof (product_bound x1 r1 (2 ^ 64 - 1) (2 ^ 60 - 1) ltac:(lia) ltac:(lia)) as P3.
  pose proof (product_bound x2 r0 6 (2 ^ 60 - 1) ltac:(lia) ltac:(lia)) as P4.
  pose proof (product_bound x2 r1 6 (2 ^ 60 - 1) ltac:(lia) ltac:(lia)) as P5.
  assert (V : (x0 + 2 ^ 64 * x1 + 2 ^ 128 * x2) * (r0 + 2 ^ 64 * r1) =
    x0 * r0 + 2 ^ 64 * (x0 * r1 + x1 * r0) + 2 ^ 128 * (x1 * r1 + x2 * r0) + 2 ^ 192 * (x2 * r1)) by ring.
  unfold poly1305_mul_mod, mul128, add128, value; cbn [acc0 acc1 acc2]. rewrite V. clear V.
  set (h0 := x0 * r0) in *. set (h1a := x0 * r1) in *. set (h1b := x1 * r0) in *.
  set (h2a := x1 * r1) in *. set (h2b := x2 * r0) in *. set (h3 := x2 * r1) in *.
  clearbody h0 h1a h1b h2a h2b h3. clear B0 B1 B2 R0 R1 x0 x1 x2 r0 r1.
  do 8 (u128_step).
  name (h1a + h1b) h1 E1. name (h2a + h2b) h2 E2.
  rewrite (shiftr_eq h0), land_mask64 by lia. split_div h0 (2 ^ 64).
  u128_step.
  name (h1 + q) s1 Es1. rewrite (shiftr_eq s1), land_mask64 by lia. split_div s1 (2 ^ 64).
  u128_step.
  name (h2 + q0) s2 Es2. rewrite (shiftr_eq s2), land_mask64 by lia. split_div s2 (2 ^ 64).
  u128_step.
  name (h3 + q1) c3 Ec3. u128_step.
  rewrite (shiftr_eq r1), !land_three by lia. change (2 ^ 2) with 4. split_div r1 4.
  rewrite (shiftr_eq (c3 * 5)), land_mask64, Z.shiftl_mul_pow2 by lia.
  change (2 ^ 2) with 4. split_div (c3 * 5) 4.
  rewrite (Z.mod_small q3) by lia. do 4 u128_step.
  name (r + r3 * 2 ^ 62 + q2 * 5) l0 El0. rewrite (shiftr_eq l0), land_mask64 by lia. split_div l0 (2 ^ 64).
  u128_step. name (r0 + q3 + q4) l1 El1. rewrite (shiftr_eq l1), land_mask64 by lia.
  split_div l1 (2 ^ 64). u128_step.
  eexists. split; [reflexivity|]. cbn [acc0 acc1 acc2]. rewrite wrap64_small by lia.
  split; [unfold acc_ok; cbn [acc0 acc1 acc2]; lia|].
  exists (c3 * 2 ^ 62 + q2). unfold P1305. lia.
Qed.

(** ** One block *)

Lemma sixteen_words l :
  length l = 16%nat → from_le l = from_le (slice l 0 8) + 2 ^ 64 * from_le (slice l 8 16).
Proof.
  intros Hl. rewrite (slice_split l 8) at 1 by lia. rewrite from_le_app, Hl.
  rewrite length_slice by lia. done.
Qed.

Lemma eight_bound l a : is_bytes l → (a + 8 ≤ length l)%nat → 0 ≤ from_le (slice l a (a + 8)) < 2 ^ 64.
Proof.
  intros Hl La. pose proof (from_le_bound _ (slice_bytes l a (a + 8) Hl)) as B.
  rewrite length_slice in B by lia. replace (a + 8 - a)%nat with 8%nat in B by lia. done.
Qed.

Lemma slice_app_l l1 l2 a b : (b ≤ length l1)%nat → slice (l1 ++ l2) a b = slice l1 a b.
Proof.
  intros Hb. unfold slice. destruct (Nat.le_gt_cases a (length l1)).
  - rewrite drop_app_le, take_app_le by (rewrite ?length_drop; lia). done.
  - by replace (b - a)%nat with 0%nat by lia.
Qed.

(** The buffer's two words and the bit above them make the block's number. *)
Lemma block_words c :
  is_bytes c → (0 < length c ≤ 16)%nat →
  let n0 := from_le (slice (block_of c) 0 8) in
  let n1 := from_le (slice (block_of c) 8 16) in
  let top := if decide (length c = 16%nat) then 1 else 0 in
  0 ≤ n0 < 2 ^ 64 ∧ 0 ≤ n1 < 2 ^ 64 ∧ from_le (c ++ [1]) = n0 + 2 ^ 64 * n1 + 2 ^ 128 * top.
Proof.
  intros Hc Hl n0 n1 top.
  assert (Hb : is_bytes (block_of c)).
  { unfold block_of. rewrite !is_bytes_app. split_and!; [done|by apply (bool_decide_unpack _)|].
    by apply Forall_replicate. }
  assert (Lb : length (block_of c) = 17%nat)
    by (unfold block_of; rewrite !length_app, length_replicate; simpl; lia).
  split; [apply (eight_bound _ 0); [done|lia]|].
  split; [apply (eight_bound _ 8); [done|lia]|].
  unfold n0, n1, top, block_of. case_decide as E.
  - rewrite E. cbn [Nat.sub replicate app]. rewrite from_le_app, E.
    rewrite !slice_app_l, (sixteen_words c E) by lia. simpl. lia.
  - transitivity (from_le ((c ++ [1]) ++ replicate (15 - length c) 0)).
    + rewrite (from_le_app (c ++ [1])), from_le_zeros. lia.
    + rewrite sixteen_words by (rewrite !length_app, length_replicate; simpl; lia).
      replace (c ++ [1] ++ replicate (16 - length c) 0)
        with (((c ++ [1]) ++ replicate (15 - length c) 0) ++ [0]).
      * rewrite !(slice_app_l ((c ++ [1]) ++ _)) by (rewrite !length_app, length_replicate; simpl; lia).
        lia.
      * rewrite <- !app_assoc. do 2 f_equal.
        replace (16 - length c)%nat with (S (15 - length c)) by lia. by rewrite replicate_S_end.
Qed.

Lemma absorb_spec a c r0 r1 :
  acc_ok 4 a → is_bytes c → (0 < length c ≤ 16)%nat →
  0 ≤ r0 < 2 ^ 60 → 0 ≤ r1 < 2 ^ 60 →
  ∃ a', absorb a (block_of c) (if decide (length c = 16%nat) then 1 else 0) r0 r1 = Ret a' ∧
    acc_ok 4 a' ∧
    ∃ k, (value a + from_le (c ++ [1])) * (r0 + 2 ^ 64 * r1) = value a' + P1305 * k.
Proof.
  intros (B0 & B1 & B2) Hc Hl R0 R1.
  destruct (block_words c Hc Hl) as (N0 & N1 & Ev). unfold absorb. cbv zeta.
  set (n0 := from_le (slice (block_of c) 0 8)) in *.
  set (n1 := from_le (slice (block_of c) 8 16)) in *.
  set (top := if decide (length c = 16%nat) then 1 else 0) in *.
  assert (T : 0 ≤ top ≤ 1) by (unfold top; case_decide; lia).
  clearbody n0 n1 top. destruct a as [x0 x1 x2]; cbn [acc0 acc1 acc2] in *.
  unfold add128. do 2 u128_step. rewrite (shiftr_eq (x0 + n0)) by lia. unfold wrap64 at 1.
  split_div (x0 + n0) (2 ^ 64). u128_step.
  rewrite (shiftr_eq (x1 + n1 + q)) by lia. unfold wrap64 at 1. split_div (x1 + n1 + q) (2 ^ 64).
  rewrite wrap64_small by lia. rewrite !wrapping_add_small by (rewrite ?wrapping_add_small; lia).
  destruct (poly1305_mul_mod_spec (mkAcc r r2 (x2 + q0 + top)) r0 r1) as (a' & E & Ha & k & Ek).
  { split_and!; cbn [acc0 acc1 acc2]; lia. }
  { done. }
  { done. }
  exists a'. split; [done|]. split; [done|]. exists k. rewrite <- Ek. f_equal.
  unfold value; cbn [acc0 acc1 acc2]. rewrite Ev. lia.
Qed.

(** ** Clamping *)

Definition clamp_mask : bytes :=
  [255; 255; 255; 15; 252; 255; 255; 15; 252; 255; 255; 15; 252; 255; 255; 15].

Lemma poly1305_clamp_mask key :
  is_bytes key → length key = 32%nat →
  poly1305_clamp key = (zip_with Z.land (slice key 0 16) clamp_mask, slice key 16 32).
Proof.
  intros Hk Lk. unfold poly1305_clamp.
  assert (L : length (slice key 0 16) = 16%nat) by (rewrite length_slice; lia).
  pose proof (slice_bytes key 0 16 Hk) as Hb. destruct (slice key 0 16) as [|b0 l]; [done|].
  do 15 (destruct l as [|? l]; [done|]). destruct l; [|done].
  f_equal. unfold and_at, byte, clamp_mask. cbn.
  unfold is_bytes in Hb. repeat (apply Forall_cons in Hb as [? Hb]).
  by rewrite !land_255.
Qed.

Lemma clamp_words key :
  is_bytes key → length key = 32%nat →
  let r := (poly1305_clamp key).1 in
  let r0 := from_le (slice r 0 8) in
  let r1 := from_le (slice r 8 16) in
  0 ≤ r0 < 2 ^ 60 ∧ 0 ≤ r1 < 2 ^ 60 ∧
  r0 + 2 ^ 64 * r1 = rfc_clamp (from_le (slice key 0 16)).
Proof.
  intros Hk Lk. rewrite poly1305_clamp_mask by done. cbn [fst].
  assert (L : length (slice key 0 16) = 16%nat) by (rewrite length_slice; lia).
  pose proof (slice_bytes key 0 16 Hk) as Hb. set (k := slice key 0 16) in *. clearbody k.
  assert (Em : rfc_clamp (from_le k) = from_le (zip_with Z.land k clamp_mask)).
  { rewrite from_le_land; [done|done|by apply (bool_decide_unpack _)|done]. }
  rewrite Em, (sixteen_words (zip_with Z.land k clamp_mask)) by (rewrite length_zip_with, L; done).
  destruct k as [|b0 l]; [done|]. do 15 (destruct l as [|? l]; [done|]). destruct l; [|done].
  unfold is_bytes in Hb. repeat (apply Forall_cons in Hb as [? Hb]).
  unfold slice, clamp_mask. cbn [zip_with drop take Nat.sub from_le].
  repeat match goal with
  | H : is_byte ?b |- context [Z.land ?b ?m] => pose proof (land_byte b m H); clear H
  end.
  unfold is_byte in *.
  repeat match goal with
  | |- context [Z.land ?b 15] => pose proof (land_mask_bound b 4 ltac:(lia) : 0 ≤ Z.land b 15 < 16);
      set (Z.land b 15) in *
  end.
  lia.
Qed.

(** ** The whole message *)

Lemma rfc_accumulate_mod acc acc' r cs :
  acc mod P1305 = acc' mod P1305 →
  rfc_accumulate acc r cs mod P1305 = rfc_accumulate acc' r cs mod P1305.
Proof.
  revert acc acc'. induction cs as [|c cs IH]; intros acc acc' E; [done|]. cbn [rfc_accumulate].
  f_equal. f_equal. rewrite Z.mul_mod, Z.add_mod, E, <- Z.add_mod, <- Z.mul_mod by done. done.
Qed.

Lemma rfc_accumulate_bound acc r cs :
  0 ≤ acc < P1305 → 0 ≤ rfc_accumulate acc r cs < P1305.
Proof.
  revert acc. induction cs as [|c cs IH]; intros acc Ha; [done|]. apply IH, Z.mod_pos_bound. done.
Qed.

Lemma poly1305_blocks_spec a r0 r1 cs :
  acc_ok 4 a → Forall is_bytes cs → Forall (λ c, (0 < length c ≤ 16)%nat) cs →
  0 ≤ r0 < 2 ^ 60 → 0 ≤ r1 < 2 ^ 60 →
  ∃ a', poly1305_blocks a cs r0 r1 = Ret a' ∧ acc_ok 4 a' ∧
    value a' mod P1305 = rfc_accumulate (value a) (r0 + 2 ^ 64 * r1) cs mod P1305.
Proof.
  intros Ha Hb Hl R0 R1. revert a Ha. induction cs as [|c cs IH]; intros a Ha; [by exists a|].
  apply Forall_cons in Hb as [Hc Hb], Hl as [Lc Hl]. cbn [poly1305_blocks rfc_accumulate].
  destruct (absorb_spec a c r0 r1 Ha Hc Lc R0 R1) as (a1 & -> & Ha1 & k & Ek).
  cbn [mbind outcome_bind]. destruct (IH Hb Hl a1 Ha1) as (a' & E & Ha' & Ev).
  exists a'. split; [done|]. split; [done|]. rewrite Ev. apply rfc_accumulate_mod.
  rewrite Ek, Z.mod_mod by done.
  replace (value a1 + P1305 * k) with (value a1 + k * P1305) by lia. by rewrite Z.mod_add.
Qed.

Lemma poly1305_finish_spec a s :
  acc_ok 4 a → is_bytes s → length s = 16%nat →
  poly1305_finish a s = Ret (to_le 16 (value a + from_le s)).
Proof.
  intros (B0 & B1 & B2) Hs Ls. unfold poly1305_finish. rewrite (sixteen_words s Ls).
  pose proof (eight_bound s 0 Hs ltac:(lia)) as S0. pose proof (eight_bound s 8 Hs ltac:(lia)) as S1.
  cbn [Nat.add] in *. set (s0 := from_le (slice s 0 8)) in *. set (s1 := from_le (slice s 8 16)) in *.
  clearbody s0 s1. unfold value. destruct a as [x0 x1 x2]; cbn [acc0 acc1 acc2] in *.
  unfold add128. do 2 u128_step. rewrite (shiftr_eq (x0 + s0)) by lia. unfold wrap64 at 1.
  split_div (x0 + s0) (2 ^ 64). u128_step. f_equal.
  rewrite <- (to_le_mod 16). change (256 ^ Z.of_nat 16) with (2 ^ 128).
  unfold wrap64. split_div (x1 + s1 + q) (2 ^ 64).
  replace (x0 + 2 ^ 64 * x1 + 2 ^ 128 * x2 + (s0 + 2 ^ 64 * s1))
    with (r + 2 ^ 64 * r0 + (q0 + x2) * 2 ^ 128) by lia.
  rewrite Z.mod_add, Z.mod_small by lia. symmetry. apply (to_le_app 8 8); simpl; lia.
Qed.

(** The authenticator answers for every message. *)
Lemma poly1305_mac_total key data :
  is_bytes key → length key = 32%nat → is_bytes data →
  ∃ acc, acc_ok 4 acc ∧ value acc mod P1305 = rfc_poly key data ∧
    poly1305_mac key data = Ret (to_le 16 (value acc + from_le (slice key 16 32))).
Proof.
  intros Hk Lk Hd. destruct (clamp_words key Hk Lk) as (R0 & R1 & Er).
  unfold poly1305_mac. rewrite (surjective_pairing (poly1305_clamp key)).
  rewrite poly1305_clamp_mask by done. rewrite poly1305_clamp_mask in R0, R1, Er by done.
  cbn [fst snd] in *. cbv zeta.
  set (r0 := from_le (slice _ 0 8)) in *. set (r1 := from_le (slice (zip_with _ _ _) 8 16)) in *.
  destruct (poly1305_blocks_spec (mkAcc 0 0 0) r0 r1 (chunks 16 data)) as (a & -> & Ha & Ev); try done.
  { by apply chunks_bytes; [lia|]. }
  { by apply chunks_length; lia. }
  cbn [mbind outcome_bind]. set (s := slice key 16 32).
  assert (Hs : is_bytes s) by by apply slice_bytes.
  assert (Ls : length s = 16%nat) by (unfold s; rewrite length_slice; lia).
  rewrite (poly1305_finish_spec a s Ha Hs Ls). rewrite Er in Ev.
  change (rfc_accumulate (value (mkAcc 0 0 0)) _ _) with (rfc_poly key data) in Ev.
  pose proof (rfc_accumulate_bound 0 (rfc_clamp (from_le (slice key 0 16))) (chunks 16 data)
    ltac:(done)) as Bp. fold (rfc_poly key data) in Bp.
  rewrite (Z.mod_small (rfc_poly key data)) in Ev by done. by exists a.
Qed.

(** ** Properties *)

(** [poly1305_mac] never overflows its 128-bit arithmetic and computes the
    polynomial of RFC 8439 with the clamped key, up to the last reduction: the
    tag encodes the RFC's number, or that number minus five (when the
    accumulator is left at or above the modulus [2^130 - 5]). *)
Theorem poly1305_mac_near_rfc (key data : bytes) :
  is_bytes key → length key = 32%nat → is_bytes data →
  poly1305_mac key data = Ret (rfc_tag key data) ∨
  poly1305_mac key data = Ret (to_le 16 (rfc_poly key data + from_le (slice key 16 32) - 5)).
Proof.
  intros Hk Lk Hd. destruct (poly1305_mac_total key data Hk Lk Hd) as (a & (B0 & B1 & B2) & Ev & ->).
  set (s := slice key 16 32).
  assert (Bp : 0 ≤ rfc_poly key data < P1305) by (apply rfc_accumulate_bound; done).
  pose proof (Z.div_mod (value a) P1305 ltac:(done)) as Dv. rewrite Ev in Dv.
  assert (Hq : value a / P1305 = 0 ∨ value a / P1305 = 1).
  { unfold value, P1305 in *. lia. }
  destruct Hq as [Hq|Hq]; rewrite Hq in Dv.
  - left. assert (E : value a = rfc_poly key data) by lia. by rewrite E.
  - right. assert (E : value a = rfc_poly key data + P1305) by lia. f_equal.
    rewrite E, <- (to_le_mod 16 (_ + _)), <- (to_le_mod 16 (_ - 5)). f_equal.
    change (256 ^ Z.of_nat 16) with (2 ^ 128). unfold P1305.
    replace (rfc_poly key data + (2 ^ 130 - 5) + from_le s)
      with (rfc_poly key data + from_le s - 5 + 4 * 2 ^ 128) by lia.
    by rewrite Z.mod_add.
Qed.

(** C40. The second case happens: the accumulator is never reduced below the
    modulus at the end, so for this key and this sixteen-byte message the tag is
    not the RFC's. *)
Theorem poly1305_mac_misses_rfc :
  ∃ key data, is_bytes key ∧ length key = 32%nat ∧ is_bytes data ∧
    poly1305_mac key data
    = Ret [202; 157; 108; 187; 56; 10; 217; 39; 165; 118; 69; 148; 17; 227; 177; 0] ∧
    rfc_tag key data = [207; 157; 108; 187; 56; 10; 217; 39; 165; 118; 69; 148; 17; 227; 177; 0].
Proof.
  exists (replicate 16 2 ++ replicate 16 0), (replicate 16 98).
  split; [by apply (bool_decide_unpack _)|]. split; [done|].
  split; [by apply (bool_decide_unpack _)|]. split; vm_compute; reflexivity.
Qed.

(** The test vector of RFC 8439, section 2.5.2. *)
Definition rfc_key : bytes :=
  [133; 214; 190; 120; 87; 85; 109; 51; 127; 68; 82; 254; 66; 213; 6; 168;
   1; 3; 128; 138; 251; 13; 178; 253; 74; 191; 246; 175; 65; 73; 245; 27].
Definition rfc_message : bytes :=
  [67; 114; 121; 112; 116; 111; 103; 114; 97; 112; 104; 105; 99; 32; 70; 111; 114; 117; 109;
   32; 82; 101; 115; 101; 97; 114; 99; 104; 32; 71; 114; 111; 117; 112].

Lemma poly1305_mac_near_rfc_witness :
  rfc_tag rfc_key rfc_message = [168; 6; 29; 193; 48; 81; 54; 198; 194; 43; 139; 175; 12; 1; 39; 169] ∧
  poly1305_mac rfc_key rfc_message = Ret (rfc_tag rfc_key rfc_message).
Proof.
  split; [vm_compute; reflexivity|].
  destruct (poly1305_mac_near_rfc rfc_key rfc_message) as [H|H].
  - by apply (bool_decide_unpack _).
  - done.
  - by apply (bool_decide_unpack _).
  - exact H.
  - exfalso. vm_compute in H. discriminate.
Defined.
