(* ===== verification/ChaCha20.v ===== *)
(** * ChaCha20 and the ChaCha20-Poly1305 AEAD

    kernel/crypto.rs.  The cipher's state is sixteen 32-bit words, updated in
    place by the quarter rounds; the AEAD derives its one-time key from block
    zero, encrypts from block one and authenticates the padded associated data
    and ciphertext with [poly1305_mac]. *)

From stdpp Require Import base tactics decidable numbers list.
From Stdlib Require Import ZArith Lia Bool.
From S2P Require Import Prelude Bytes Poly1305.

(** ** 32-bit words *)

Definition add32 (a b : Z) : Z := wrap32 (a + b).
Definition rotate_left32 (x n : Z) : Z :=
  Z.lor (wrap32 (Z.shiftl x n)) (Z.shiftr x (32 - n)).

(** [state[i]] and [state[i] = v] on a fixed array of words. *)
Definition word (s : list Z) (i : nat) : Z := default 0 (s !! i).
Definition set_word (s : list Z) (i : nat) (v : Z) : list Z := <[i := v]> s.

(** ** The block function *)

(** [state[i] += state[j]], [state[i] ^= state[j]] and [state[i] <<<= n]. *)
Definition add_word (s : list Z) (i j : nat) : list Z := set_word s i (add32 (word s i) (word s j)).
Definition xor_word (s : list Z) (i j : nat) : list Z := set_word s i (Z.lxor (word s i) (word s j)).
Definition rotate_word (s : list Z) (i : nat) (n : Z) : list Z :=
  set_word s i (rotate_left32 (word s i) n).

Definition chacha20_quarter_round (s : list Z) (a b c d : nat) : list Z :=
  let s := add_word s a b in
  let s := xor_word s d a in
  let s := rotate_word s d 16 in
  let s := add_word s c d in
  let s := xor_word s b c in
  let s := rotate_word s b 12 in
  let s := add_word s a b in
  let s := xor_word s d a in
  let s := rotate_word s d 8 in
  let s := add_word s c d in
  let s := xor_word s b c in
  rotate_word s b 7.

(** [n] little-endian words of a byte string. *)
Definition le_words (l : bytes) : list Z := map from_le (chunks 4 l).

Definition chacha20_initial (key : bytes) (counter : Z) (nonce : bytes) : list Z :=
  [1634760805; 857760878; 2036477234; 1797285236] ++ le_words key ++ [counter] ++ le_words nonce.

Definition chacha20_double_round (s : list Z) : list Z :=
  let s := chacha20_quarter_round s 0 4 8 12 in
  let s := chacha20_quarter_round s 1 5 9 13 in
  let s := chacha20_quarter_round s 2 6 10 14 in
  let s := chacha20_quarter_round s 3 7 11 15 in
  let s := chacha20_quarter_round s 0 5 10 15 in
  let s := chacha20_quarter_round s 1 6 11 12 in
  let s := chacha20_quarter_round s 2 7 8 13 in
  chacha20_quarter_round s 3 4 9 14.

Definition chacha20_block (key : bytes) (counter : Z) (nonce : bytes) : bytes :=
  let initial := chacha20_initial key counter nonce in
  let state := Nat.iter 10 chacha20_double_round initial in
  concat (map (to_le 4) (zip_with add32 state initial)).

(** ** The stream cipher *)

Section Stream.
Context (key nonce : bytes).

(** The loop over [chunks_mut(64)] with its wrapping block counter. *)
Definition xor_blocks : Z → list bytes → bytes :=
  xor_stream (λ counter, wrap32 (counter + 1)) (λ counter, chacha20_block key counter nonce).

Fixpoint keystream_blocks (counter : Z) (cs : list bytes) : bytes :=
  match cs with
  | [] => []
  | c :: cs =>
      take (length c) (chacha20_block key counter nonce) ++
      keystream_blocks (wrap32 (counter + 1)) cs
  end.

Definition chacha20_encrypt_inner (start_counter : Z) (data : bytes) : bytes :=
  xor_blocks start_counter (chunks 64 data).

Definition chacha20_encrypt (data : bytes) : bytes := xor_blocks 0 (chunks 64 data).

Definition chacha20_keystream (counter : Z) (out : bytes) : bytes :=
  keystream_blocks counter (chunks 64 out).

End Stream.

(** ** The AEAD *)

Definition aead_mac_input (aad ciphertext : bytes) : bytes :=
  aad ++ pad16 aad ++ ciphertext ++ pad16 ciphertext ++
  to_le 8 (Z.of_nat (length aad)) ++ to_le 8 (Z.of_nat (length ciphertext)).

Definition aead_key (key nonce : bytes) : bytes :=
  chacha20_keystream key nonce 0 (replicate 32 0).

Definition chacha20_poly1305_encrypt (key nonce aad plaintext : bytes) : outcome (bytes * bytes) :=
  let poly_key := aead_key key nonce in
  let ciphertext := chacha20_encrypt_inner key nonce 1 plaintext in
  tag ← poly1305_mac poly_key (aead_mac_input aad ciphertext);
  Ret (ciphertext, tag).

Definition chacha20_poly1305_decrypt (key nonce aad ciphertext tag : bytes) :
    outcome (result bytes) :=
  let poly_key := aead_key key nonce in
  computed_tag ← poly1305_mac poly_key (aead_mac_input aad ciphertext);
  if negb (xor_diff computed_tag tag =? 0) then Ret (Err InvalidCredential)
  else Ret (Ok (chacha20_encrypt_inner key nonce 1 ciphertext)).

(** ** Sizes *)

Lemma length_set_word s i v : length (set_word s i v) = length s.
Proof. apply length_insert. Qed.

Lemma length_quarter_round s a b c d : length (chacha20_quarter_round s a b c d) = length s.
Proof.
  unfold chacha20_quarter_round. cbv zeta.
  do 4 (etrans; [apply length_set_word|]; etrans; [apply length_set_word|];
        etrans; [apply length_set_word|]).
  done.
Qed.

Lemma length_double_round s : length (chacha20_double_round s) = length s.
Proof. unfold chacha20_double_round. by rewrite !length_quarter_round. Qed.

Lemma length_rounds n s : length (Nat.iter n chacha20_double_round s) = length s.
Proof. induction n as [|n IH]; [reflexivity|]. etrans; [apply length_double_round|exact IH]. Qed.

Lemma length_le_words l n : length l = (n * 4)%nat → length (le_words l) = n.
Proof.
  unfold le_words. rewrite length_map. revert l. induction n as [|n IH]; intros l Hl.
  - by destruct l.
  - rewrite chunks_cons by (lia || by destruct l). simpl length. f_equal. apply IH.
    rewrite length_drop. lia.
Qed.

Lemma concat_to_le_bytes n l : is_bytes (concat (map (to_le n) l)).
Proof. induction l as [|x l IH]; [constructor|]. apply is_bytes_app. auto using to_le_bytes. Qed.

Lemma length_concat_to_le n l : length (concat (map (to_le n) l)) = (n * length l)%nat.
Proof.
  induction l as [|x l IH]; simpl; [lia|]. rewrite length_app, length_to_le, IH. lia.
Qed.

Lemma chacha20_block_bytes key counter nonce : is_bytes (chacha20_block key counter nonce).
Proof. apply concat_to_le_bytes. Qed.

Lemma length_chacha20_block key counter nonce :
  length key = 32%nat → length nonce = 12%nat → length (chacha20_block key counter nonce) = 64%nat.
Proof.
  intros Hk Hn. unfold chacha20_block. cbv zeta.
  rewrite length_concat_to_le, length_zip_with, length_rounds, Nat.min_id.
  unfold chacha20_initial. rewrite !length_app, (length_le_words key 8), (length_le_words nonce 3) by done.
  done.
Qed.

Lemma aead_key_eq key nonce :
  length key = 32%nat → length nonce = 12%nat →
  aead_key key nonce = take 32 (chacha20_block key 0 nonce).
Proof.
  intros Hk Hn. unfold aead_key, chacha20_keystream.
  change (chunks 64 (replicate 32 0)) with [replicate 32 0]. cbn [keystream_blocks].
  rewrite length_replicate. apply app_nil_r.
Qed.

Lemma aead_key_ok key nonce :
  length key = 32%nat → length nonce = 12%nat →
  is_bytes (aead_key key nonce) ∧ length (aead_key key nonce) = 32%nat.
Proof.
  intros Hk Hn. rewrite aead_key_eq by done.
  split; [apply Forall_take, chacha20_block_bytes|].
  rewrite length_take, length_chacha20_block by done. done.
Qed.

Lemma aead_mac_input_bytes aad ct : is_bytes aad → is_bytes ct → is_bytes (aead_mac_input aad ct).
Proof.
  intros. unfold aead_mac_input. rewrite !is_bytes_app. auto 10 using pad16_bytes, to_le_bytes.
Qed.

Lemma xor_blocks_bytes key nonce counter l :
  is_bytes l → is_bytes (xor_blocks key nonce counter (chunks 64 l)).
Proof.
  intros. apply (xor_stream_bytes _ _ 64 ltac:(lia) (λ _, True)); [|done|done].
  intros. split; [apply chacha20_block_bytes|done].
Qed.

(** The tag the AEAD expects on a ciphertext. *)
Lemma aead_tag_total key nonce aad ct :
  is_bytes aad → is_bytes ct → length key = 32%nat → length nonce = 12%nat →
  ∃ tag, poly1305_mac (aead_key key nonce) (aead_mac_input aad ct) = Ret tag ∧
    length tag = 16%nat ∧ is_bytes tag.
Proof.
  intros Ha Hc Hk Hn. destruct (aead_key_ok key nonce Hk Hn) as [Bk Lk].
  destruct (poly1305_mac_total _ _ Bk Lk (aead_mac_input_bytes aad ct Ha Hc)) as (a & _ & _ & E).
  exists (to_le 16 (value a + from_le (slice (aead_key key nonce) 16 32))).
  rewrite E, length_to_le. auto using to_le_bytes.
Qed.

(** ** Property *)

(** The AEAD opens what it sealed and nothing else.  For every key, nonce,
    associated data and plaintext, sealing succeeds with a ciphertext of the
    plaintext's length and a sixteen-byte tag, and opening them gives the
    plaintext back; opening any ciphertext with sixteen tag bytes other than the
    ones computed over it is refused with [InvalidCredential]. *)
Theorem aead_opens_what_it_sealed (key nonce aad plaintext : bytes) :
  length key = 32%nat → length nonce = 12%nat → is_bytes aad → is_bytes plaintext →
  (∃ ciphertext tag,
     chacha20_poly1305_encrypt key nonce aad plaintext = Ret (ciphertext, tag) ∧
     length ciphertext = length plaintext ∧ length tag = 16%nat ∧
     chacha20_poly1305_decrypt key nonce aad ciphertext tag = Ret (Ok plaintext)) ∧
  (∀ ciphertext tag, is_bytes ciphertext → length tag = 16%nat →
     poly1305_mac (aead_key key nonce) (aead_mac_input aad ciphertext) ≠ Ret tag →
     chacha20_poly1305_decrypt key nonce aad ciphertext tag = Ret (Err InvalidCredential)).
Proof.
  intros Hk Hn Ha Hp. split.
  - set (ct := chacha20_encrypt_inner key nonce 1 plaintext).
    assert (Hct : is_bytes ct) by by apply xor_blocks_bytes.
    destruct (aead_tag_total key nonce aad ct Ha Hct Hk Hn) as (tag & E & Lt & _).
    exists ct, tag. unfold chacha20_poly1305_encrypt, chacha20_poly1305_decrypt. fold ct. cbv zeta.
    rewrite E. cbn [mbind outcome_bind]. rewrite (proj2 (xor_diff_zero tag tag eq_refl)) by done.
    split_and!; [done|apply length_xor_stream; lia|done|].
    do 2 f_equal. apply xor_stream_involutive. lia.
  - intros ct tag Hct Lt Hne. destruct (aead_tag_total key nonce aad ct Ha Hct Hk Hn) as (t & E & Lt' & _).
    unfold chacha20_poly1305_decrypt. cbv zeta. rewrite E in Hne |- *. cbn [mbind outcome_bind].
    destruct (Z.eqb_spec (xor_diff t tag) 0) as [D|D]; [|done].
    apply xor_diff_zero in D; [|congruence]. congruence.
Qed.

Lemma aead_opens_what_it_sealed_witness :
  ∃ ciphertext tag,
    chacha20_poly1305_encrypt (replicate 32 7) (replicate 12 1) [1; 2] [104; 105] = Ret (ciphertext, tag) ∧
    length ciphertext = 2%nat ∧ length tag = 16%nat ∧
    chacha20_poly1305_decrypt (replicate 32 7) (replicate 12 1) [1; 2] ciphertext tag
    = Ret (Ok [104; 105]).
Proof.
  refine (proj1 (aead_opens_what_it_sealed (replicate 32 7) (replicate 12 1) [1; 2] [104; 105]
    eq_refl eq_refl _ _)); by apply (bool_decide_unpack _).
Defined.

(** The block function on the test vector of RFC 8439, section 2.3.2. *)
Example chacha20_block_vector :
  take 16 (chacha20_block (map Z.of_nat (seq 0 32)) 1 [0; 0; 0; 9; 0; 0; 0; 74; 0; 0; 0; 0])
  = [16; 241; 231; 228; 209; 59; 89; 21; 80; 15; 221; 31; 163; 32; 113; 196].
Proof. vm_compute. reflexivity. Qed.
