(* ===== verification/Sha256.v ===== *)
(** * SHA-256 and what is built on it

    kernel/crypto.rs: [sha256] with its padding, [hmac_sha256], the two HKDF
    steps, [pbkdf2_hmac_sha256] and [mgf1_sha256].  The implementation hashes
    full blocks straight from the message and builds padding only for the rest;
    the reference pads the whole message first, as FIPS 180-4 does. *)

From stdpp Require Import base tactics decidable numbers list.
From Stdlib Require Import ZArith Lia Bool.
From S2P Require Import Prelude Bytes.

(** ** Words *)

Definition wadd32 (a b : Z) : Z := wrap32 (a + b).
Definition rotate_right32 (x n : Z) : Z :=
  Z.lor (Z.shiftr x n) (wrap32 (Z.shiftl x (32 - n))).

Definition H_INIT : list Z :=
  [1779033703; 3144134277; 1013904242; 2773480762; 1359893119; 2600822924; 528734635; 1541459225].

Definition K : list Z :=
  [1116352408; 1899447441; 3049323471; 3921009573; 961987163; 1508970993; 2453635748; 2870763221;
   3624381080; 310598401; 607225278; 1426881987; 1925078388; 2162078206; 2614888103; 3248222580;
   3835390401; 4022224774; 264347078; 604807628; 770255983; 1249150122; 1555081692; 1996064986;
   2554220882; 2821834349; 2952996808; 3210313671; 3336571891; 3584528711; 113926993; 338241895;
   666307205; 773529912; 1294757372; 1396182291; 1695183700; 1986661051; 2177026350; 2456956037;
   2730485921; 2820302411; 3259730800; 3345764771; 3516065817; 3600352804; 4094571909; 275423344;
   430227734; 506948616; 659060556; 883997877; 958139571; 1322822218; 1537002063; 1747873779;
   1955562222; 2024104815; 2227730452; 2361852424; 2428436474; 2756734187; 3204031479; 3329325298].

Definition ch (x y z : Z) : Z := Z.lxor (Z.land x y) (Z.land (unot32 x) z).
Definition maj (x y z : Z) : Z := Z.lxor (Z.lxor (Z.land x y) (Z.land x z)) (Z.land y z).
Definition cap_sigma0 (x : Z) : Z :=
  Z.lxor (Z.lxor (rotate_right32 x 2) (rotate_right32 x 13)) (rotate_right32 x 22).
Definition cap_sigma1 (x : Z) : Z :=
  Z.lxor (Z.lxor (rotate_right32 x 6) (rotate_right32 x 11)) (rotate_right32 x 25).
Definition sigma0 (x : Z) : Z :=
  Z.lxor (Z.lxor (rotate_right32 x 7) (rotate_right32 x 18)) (Z.shiftr x 3).
Definition sigma1 (x : Z) : Z :=
  Z.lxor (Z.lxor (rotate_right32 x 17) (rotate_right32 x 19)) (Z.shiftr x 10).

(** ** The compression function *)

Definition at_word (w : list Z) (i : nat) : Z := default 0 (w !! i).

(** [w[t]] for [t] from 16 on, appended to the words so far. *)
Definition extend_schedule (w : list Z) : list Z :=
  let t := length w in
  w ++ [wadd32 (wadd32 (wadd32 (sigma1 (at_word w (t - 2))) (at_word w (t - 7)))
          (sigma0 (at_word w (t - 15)))) (at_word w (t - 16))].

Definition message_schedule (block : bytes) : list Z :=
  Nat.iter 48 extend_schedule (map from_be (chunks 4 block)).

Record working := mkWorking {
  va : Z; vb : Z; vc : Z; vd : Z; ve : Z; vf : Z; vg : Z; vh : Z
}.

Definition round (v : working) (kw : Z * Z) : working :=
  let '(mkWorking a b c d e f g h) := v in
  let t1 := wadd32 (wadd32 (wadd32 (wadd32 h (cap_sigma1 e)) (ch e f g)) kw.1) kw.2 in
  let t2 := wadd32 (cap_sigma0 a) (maj a b c) in
  mkWorking (wadd32 t1 t2) a b c (wadd32 d t1) e f g.

Definition compress (state : list Z) (block : bytes) : list Z :=
  let w := message_schedule block in
  let s := at_word state in
  let v := fold_left round (zip K w)
    (mkWorking (s 0%nat) (s 1%nat) (s 2%nat) (s 3%nat) (s 4%nat) (s 5%nat) (s 6%nat) (s 7%nat)) in
  [wadd32 (s 0%nat) (va v); wadd32 (s 1%nat) (vb v); wadd32 (s 2%nat) (vc v);
   wadd32 (s 3%nat) (vd v); wadd32 (s 4%nat) (ve v); wadd32 (s 5%nat) (vf v);
   wadd32 (s 6%nat) (vg v); wadd32 (s 7%nat) (vh v)].

(** ** The hash *)

(** The [while remaining.len() >= 64] loop; its answer is the state and the
    bytes that are left. *)
Fixpoint sha256_blocks (fuel : nat) (state : list Z) (remaining : bytes) : list Z * bytes :=
  match fuel with
  | O => (state, remaining)
  | S fuel =>
      if decide (64 ≤ length remaining)%nat
      then sha256_blocks fuel (compress state (take 64 remaining)) (drop 64 remaining)
      else (state, remaining)
  end.

(** The last one or two blocks. *)
Definition sha256_padded (remaining : bytes) (bit_len : Z) : bytes :=
  let total_padded := if decide (length remaining < 56)%nat then 64%nat else 128%nat in
  let padded := remaining ++ [128] in
  let padded := padded ++ replicate (total_padded - 8 - length padded) 0 in
  padded ++ to_be 8 bit_len.

Definition sha256_digest (state : list Z) : bytes := concat (map (to_be 4) state).

Definition sha256 (data : bytes) : bytes :=
  let bit_len := wrap64 (Z.of_nat (length data) * 8) in
  let '(state, remaining) := sha256_blocks (length data) H_INIT data in
  let padded := sha256_padded remaining bit_len in
  sha256_digest (fold_left compress (chunks 64 padded) state).

(** ** HMAC, HKDF, PBKDF2 and MGF1 *)

Definition HMAC_IPAD : Z := 54.
Definition HMAC_OPAD : Z := 92.
Definition HMAC_BLOCK_SIZE : nat := 64.

Definition hmac_sha256 (key data : bytes) : bytes :=
  let normalized_key :=
    if decide (HMAC_BLOCK_SIZE < length key)%nat then sha256 key else key in
  let key_block := normalized_key ++ replicate (HMAC_BLOCK_SIZE - length normalized_key) 0 in
  let inner_hash := sha256 (map (λ b, Z.lxor b HMAC_IPAD) key_block ++ data) in
  sha256 (map (λ b, Z.lxor b HMAC_OPAD) key_block ++ inner_hash).

Definition hkdf_sha256_extract (salt ikm : bytes) : bytes :=
  let effective_salt := match salt with [] => replicate 32 0 | _ => salt end in
  hmac_sha256 effective_salt ikm.

(** [for i in 0..n]: the [T(i)] appended so far, the last one kept. *)
Fixpoint hkdf_blocks (prk info t_prev : bytes) (i n : nat) : bytes :=
  match n with
  | O => []
  | S n =>
      let t := hmac_sha256 prk (t_prev ++ info ++ [wrap8 (Z.of_nat i + 1)]) in
      t ++ hkdf_blocks prk info t (S i) n
  end.

Definition hkdf_sha256_expand (prk info : bytes) (output_len : nat) : outcome bytes :=
  if decide (output_len ≤ 255 * 32)%nat then
    let n := Z.to_nat (div_ceil (Z.of_nat output_len) 32) in
    Ret (take output_len (hkdf_blocks prk info [] 0 n))
  else Panic.

(** [U_2] to [U_c], exclusive-ored into the block. *)
Fixpoint pbkdf2_iterate (password u_last block_out : bytes) (n : nat) : bytes :=
  match n with
  | O => block_out
  | S n =>
      let u := hmac_sha256 password u_last in
      pbkdf2_iterate password u (xor_into block_out u) n
  end.

Definition pbkdf2_block (password salt : bytes) (iterations : nat) (block : nat) : bytes :=
  let u1 := hmac_sha256 password (salt ++ to_be 4 (wrap32 (Z.of_nat block))) in
  pbkdf2_iterate password u1 u1 (iterations - 1).

Definition pbkdf2_hmac_sha256 (password salt : bytes) (iterations dklen : nat) : outcome bytes :=
  if decide (0 < iterations)%nat then
    let num_blocks := Z.to_nat (div_ceil (Z.of_nat dklen) 32) in
    Ret (take dklen (concat (map (pbkdf2_block password salt iterations) (seq 1 num_blocks))))
  else Panic.

(** The mask of [len] bytes generated from [seed]. *)
Definition mgf1_sha256 (seed : bytes) (len : nat) : bytes :=
  let n_blocks := Z.to_nat (div_ceil (Z.of_nat len) 32) in
  take len (concat (map (λ counter, sha256 (seed ++ to_be 4 (wrap32 (Z.of_nat counter))))
    (seq 0 n_blocks))).

(** [generate_salt]: the first half of the name's hash. *)
Definition generate_salt (username : bytes) : bytes := take 16 (sha256 username).

(** ** The reference: FIPS 180-4, sections 5.1.1 and 6.2 *)

(** The number of zero bytes between the marker byte and the length. *)
Definition fips_zeros (n : nat) : nat := ((119 - n mod 64) mod 64)%nat.

Definition fips_pad (m : bytes) : bytes :=
  m ++ [128] ++ replicate (fips_zeros (length m)) 0 ++
  to_be 8 (wrap64 (Z.of_nat (length m) * 8)).

Definition fips_sha256 (m : bytes) : bytes :=
  sha256_digest (fold_left compress (chunks 64 (fips_pad m)) H_INIT).

Definition abc : bytes := [97; 98; 99].

Example sha256_abc :
  sha256 abc =
  [186; 120; 22; 191; 143; 1; 207; 234; 65; 65; 64; 222; 93; 174; 34; 35;
   176; 3; 97; 163; 150; 23; 122; 156; 180; 16; 255; 97; 242; 0; 21; 173].
Proof. vm_compute. reflexivity. Qed.

(** ** The streaming hash is the padded one *)

Lemma sha256_blocks_spec fuel state l :
  (length l ≤ fuel)%nat →
  let q := (length l / 64)%nat in
  sha256_blocks fuel state l =
  (fold_left compress (chunks 64 (take (q * 64) l)) state, drop (q * 64) l).
Proof.
  revert state l. induction fuel as [|fuel IH]; intros state l Hl q.
  - destruct l; [done|simpl in Hl; lia].
  - cbn [sha256_blocks]. case_decide as E.
    + assert (Eq : q = S (length (drop 64 l) / 64)).
      { unfold q. rewrite length_drop. replace (length l) with (1 * 64 + (length l - 64))%nat at 1 by lia.
        rewrite Nat.div_add_l by lia. lia. }
      assert (Lt : length (take 64 l) = 64%nat) by (rewrite length_take; lia).
      rewrite IH by (rewrite length_drop; lia). rewrite Eq. cbv zeta.
      set (q' := (length (drop 64 l) / 64)%nat). f_equal.
      * replace (S q' * 64)%nat with (64 + q' * 64)%nat by lia.
        rewrite <- take_take_drop, chunks_app; [done|lia| |by left].
        intros E0. rewrite E0 in Lt. done.
      * rewrite drop_drop. done.
    + assert (q = 0%nat) as -> by (apply Nat.div_small; lia). done.
Qed.

Lemma sha256_padded_fips m :
  let q := (length m / 64)%nat in
  take (q * 64) m ++ sha256_padded (drop (q * 64) m) (wrap64 (Z.of_nat (length m) * 8)) = fips_pad m.
Proof.
  intros q. unfold sha256_padded, fips_pad. cbv zeta. set (r := drop (q * 64) m).
  pose proof (Nat.div_mod (length m) 64 ltac:(lia)) as Dm. fold q in Dm.
  pose proof (Nat.mod_upper_bound (length m) 64 ltac:(lia)) as Bm.
  assert (Lr : length r = (length m mod 64)%nat) by (unfold r; rewrite length_drop; lia).
  assert (Ez : ((if decide (length r < 56)%nat then 64%nat else 128%nat) - 8 - length (r ++ [128%Z]))%nat
    = fips_zeros (length m)).
  { unfold fips_zeros. rewrite length_app, <- Lr. simpl length. rewrite Lr in *. case_decide.
    - symmetry. rewrite <- (Nat.mod_small (64 - 8 - (length m mod 64 + 1)) 64) by lia.
      replace (119 - length m mod 64)%nat with (64 - 8 - (length m mod 64 + 1) + 1 * 64)%nat by lia.
      apply Nat.Div0.mod_add.
    - rewrite (Nat.mod_small (119 - length m mod 64)) by lia. lia. }
  rewrite Ez, <- !app_assoc. unfold r. by rewrite app_assoc, take_drop.
Qed.


(** ** Lengths of derived keys *)

(** A digest is eight words. *)
Lemma length_compress state block : length (compress state block) = 8%nat.
Proof. done. Qed.

Lemma length_blocks_state cs state :
  length state = 8%nat → length (fold_left compress cs state) = 8%nat.
Proof. revert state. induction cs as [|c cs IH]; intros state Hs; [done|]. by apply IH. Qed.

Lemma length_sha256_digest state : length (sha256_digest state) = (length state * 4)%nat.
Proof.
  unfold sha256_digest. induction state as [|x state IH]; [done|]. cbn [map concat length].
  rewrite length_app, length_to_be, IH. lia.
Qed.

Lemma sha256_digest_bytes state : is_bytes (sha256_digest state).
Proof.
  unfold sha256_digest. induction state as [|x state IH]; [constructor|]. cbn [map concat].
  apply is_bytes_app. split; [|done]. apply to_be_bytes.
Qed.

Lemma sha256_ok m : length (sha256 m) = 32%nat ∧ is_bytes (sha256 m).
Proof.
  unfold sha256. cbv zeta. rewrite (sha256_blocks_spec _ _ _ (Nat.le_refl _)).
  split; [|apply sha256_digest_bytes]. rewrite length_sha256_digest.
  rewrite length_blocks_state; [done|]. by apply length_blocks_state.
Qed.

Lemma hmac_sha256_ok key data : length (hmac_sha256 key data) = 32%nat ∧ is_bytes (hmac_sha256 key data).
Proof. apply sha256_ok. Qed.

Lemma length_hkdf_blocks prk info t i n : length (hkdf_blocks prk info t i n) = (n * 32)%nat.
Proof.
  revert t i. induction n as [|n IH]; intros t i; [done|]. cbn [hkdf_blocks].
  rewrite length_app, IH, (proj1 (hmac_sha256_ok _ _)). lia.
Qed.

Lemma length_pbkdf2_iterate password u out n :
  length (pbkdf2_iterate password u out n) = length out.
Proof.
  revert u out. induction n as [|n IH]; intros u out; [done|]. cbn [pbkdf2_iterate].
  by rewrite IH, length_xor_into.
Qed.

Lemma length_pbkdf2_blocks password salt iterations i n :
  length (concat (map (pbkdf2_block password salt iterations) (seq i n))) = (n * 32)%nat.
Proof.
  revert i. induction n as [|n IH]; intros i; [done|]. cbn [seq map concat].
  rewrite length_app, IH. unfold pbkdf2_block.
  rewrite length_pbkdf2_iterate, (proj1 (hmac_sha256_ok _ _)). lia.
Qed.

(** Enough blocks of 32 bytes for [n] bytes. *)
Lemma blocks_enough n : (n ≤ Z.to_nat (div_ceil (Z.of_nat n) 32) * 32)%nat.
Proof.
  unfold div_ceil. pose proof (Z.div_mod (Z.of_nat n + 32 - 1) 32 ltac:(lia)).
  pose proof (Z.mod_pos_bound (Z.of_nat n + 32 - 1) 32 ltac:(lia)).
  set (q := (Z.of_nat n + 32 - 1) / 32) in *. lia.
Qed.

(** The key derivations answer exactly the length asked for: HKDF-Expand up
    to its limit of 8160 bytes (and panics beyond it), PBKDF2 for every positive
    iteration count (and panics for none). *)
Theorem derived_key_length (prk info password salt : bytes) (iterations n : nat) :
  match hkdf_sha256_expand prk info n with
  | Ret okm => (n ≤ 255 * 32)%nat ∧ length okm = n
  | _ => (255 * 32 < n)%nat ∧ hkdf_sha256_expand prk info n = Panic
  end ∧
  match pbkdf2_hmac_sha256 password salt iterations n with
  | Ret key => iterations ≠ 0%nat ∧ length key = n
  | _ => iterations = 0%nat ∧ pbkdf2_hmac_sha256 password salt iterations n = Panic
  end.
Proof.
  split.
  - unfold hkdf_sha256_expand. case_decide as E; [|split; [lia|done]]. split; [lia|]. cbv zeta.
    rewrite length_take, length_hkdf_blocks. pose proof (blocks_enough n). lia.
  - unfold pbkdf2_hmac_sha256. case_decide as E; [|split; [lia|done]]. split; [lia|]. cbv zeta.
    rewrite length_take, length_pbkdf2_blocks. pose proof (blocks_enough n). lia.
Qed.
