(* ===== verification/Crc.v ===== *)
(** * CRC-32 and CRC-32C, of [src/src/kernel/crypto.rs]

    The two table-driven checksums with their tables, and the hexadecimal digest.
    The reference is the checksum's definition, a bit at a time, with the
    reflected polynomial; the theorem says that a table look-up per byte computes
    it on all inputs, which also checks every entry of both tables. *)

From stdpp Require Import base tactics decidable numbers list.
From Stdlib Require Import ZArith Lia Bool.
From S2P Require Import Prelude Bytes Sha256.

Definition CRC32C_TABLE : list Z :=
  [0; 4067132163; 3778769143; 324072436; 3348797215; 904991772; 648144872; 3570033899;
   2329499855; 2024987596; 1809983544; 2575936315; 1296289744; 3207089363; 2893594407; 1578318884;
   274646895; 3795141740; 4049975192; 51262619; 3619967088; 632279923; 922689671; 3298075524;
   2592579488; 1760304291; 2075979607; 2312596564; 1562183871; 2943781820; 3156637768; 1313733451;
   549293790; 3537243613; 3246849577; 871202090; 3878099393; 357341890; 102525238; 4101499445;
   2858735121; 1477399826; 1264559846; 3107202533; 1845379342; 2677391885; 2361733625; 2125378298;
   820201905; 3263744690; 3520608582; 598981189; 4151959214; 85089709; 373468761; 3827903834;
   3124367742; 1213305469; 1526817161; 2842354314; 2107672161; 2412447074; 2627466902; 1861252501;
   1098587580; 3004210879; 2688576843; 1378610760; 2262928035; 1955203488; 1742404180; 2511436119;
   3416409459; 969524848; 714683780; 3639785095; 205050476; 4266873199; 3976438427; 526918040;
   1361435347; 2739821008; 2954799652; 1114974503; 2529119692; 1691668175; 2005155131; 2247081528;
   3690758684; 697762079; 986182379; 3366744552; 476452099; 3993867776; 4250756596; 255256311;
   1640403810; 2477592673; 2164122517; 1922457750; 2791048317; 1412925310; 1197962378; 3037525897;
   3944729517; 427051182; 170179418; 4165941337; 746937522; 3740196785; 3451792453; 1070968646;
   1905808397; 2213795598; 2426610938; 1657317369; 3053634322; 1147748369; 1463399397; 2773627110;
   4215344322; 153784257; 444234805; 3893493558; 1021025245; 3467647198; 3722505002; 797665321;
   2197175160; 1889384571; 1674398607; 2443626636; 1164749927; 3070701412; 2757221520; 1446797203;
   137323447; 4198817972; 3910406976; 461344835; 3484808360; 1037989803; 781091935; 3705997148;
   2460548119; 1623424788; 1939049696; 2180517859; 1429367560; 2807687179; 3020495871; 1180866812;
   410100952; 3927582683; 4182430767; 186734380; 3756733383; 763408580; 1053836080; 3434856499;
   2722870694; 1344288421; 1131464017; 2971354706; 1708204729; 2545590714; 2229949006; 1988219213;
   680717673; 3673779818; 3383336350; 1002577565; 4010310262; 493091189; 238226049; 4233660802;
   2987750089; 1082061258; 1395524158; 2705686845; 1972364758; 2279892693; 2494862625; 1725896226;
   952904198; 3399985413; 3656866545; 731699698; 4283874585; 222117402; 510512622; 3959836397;
   3280807620; 837199303; 582374963; 3504198960; 68661723; 4135334616; 3844915500; 390545967;
   1230274059; 3141532936; 2825850620; 1510247935; 2395924756; 2091215383; 1878366691; 2644384480;
   3553878443; 565732008; 854102364; 3229815391; 340358836; 3861050807; 4117890627; 119113024;
   1493875044; 2875275879; 3090270611; 1247431312; 2660249211; 1828433272; 2141937292; 2378227087;
   3811616794; 291187481; 34330861; 4032846830; 615137029; 3603020806; 3314634738; 939183345;
   1776939221; 2609017814; 2295496738; 2058945313; 2926798794; 1545135305; 1330124605; 3173225534;
   4084100981; 17165430; 307568514; 3762199681; 888469610; 3332340585; 3587147933; 665062302;
   2042050490; 2346497209; 2559330125; 1793573966; 3190661285; 1279665062; 1595330642; 2910671697].

Definition CRC32_TABLE : list Z :=
  [0; 1996959894; 3993919788; 2567524794; 124634137; 1886057615; 3915621685; 2657392035;
   249268274; 2044508324; 3772115230; 2547177864; 162941995; 2125561021; 3887607047; 2428444049;
   498536548; 1789927666; 4089016648; 2227061214; 450548861; 1843258603; 4107580753; 2211677639;
   325883990; 1684777152; 4251122042; 2321926636; 335633487; 1661365465; 4195302755; 2366115317;
   997073096; 1281953886; 3579855332; 2724688242; 1006888145; 1258607687; 3524101629; 2768942443;
   901097722; 1119000684; 3686517206; 2898065728; 853044451; 1172266101; 3705015759; 2882616665;
   651767980; 1373503546; 3369554304; 3218104598; 565507253; 1454621731; 3485111705; 3099436303;
   671266974; 1594198024; 3322730930; 2970347812; 795835527; 1483230225; 3244367275; 3060149565;
   1994146192; 31158534; 2563907772; 4023717930; 1907459465; 112637215; 2680153253; 3904427059;
   2013776290; 251722036; 2517215374; 3775830040; 2137656763; 141376813; 2439277719; 3865271297;
   1802195444; 476864866; 2238001368; 4066508878; 1812370925; 453092731; 2181625025; 4111451223;
   1706088902; 314042704; 2344532202; 4240017532; 1658658271; 366619977; 2362670323; 4224994405;
   1303535960; 984961486; 2747007092; 3569037538; 1256170817; 1037604311; 2765210733; 3554079995;
   1131014506; 879679996; 2909243462; 3663771856; 1141124467; 855842277; 2852801631; 3708648649;
   1342533948; 654459306; 3188396048; 3373015174; 1466479909; 544179635; 3110523913; 3462522015;
   1591671054; 702138776; 2966460450; 3352799412; 1504918807; 783551873; 3082640443; 3233442989;
   3988292384; 2596254646; 62317068; 1957810842; 3939845945; 2647816111; 81470997; 1943803523;
   3814918930; 2489596804; 225274430; 2053790376; 3826175755; 2466906013; 167816743; 2097651377;
   4027552580; 2265490386; 503444072; 1762050814; 4150417245; 2154129355; 426522225; 1852507879;
   4275313526; 2312317920; 282753626; 1742555852; 4189708143; 2394877945; 397917763; 1622183637;
   3604390888; 2714866558; 953729732; 1340076626; 3518719985; 2797360999; 1068828381; 1219638859;
   3624741850; 2936675148; 906185462; 1090812512; 3747672003; 2825379669; 829329135; 1181335161;
   3412177804; 3160834842; 628085408; 1382605366; 3423369109; 3138078467; 570562233; 1426400815;
   3317316542; 2998733608; 733239954; 1555261956; 3268935591; 3050360625; 752459403; 1541320221;
   2607071920; 3965973030; 1969922972; 40735498; 2617837225; 3943577151; 1913087877; 83908371;
   2512341634; 3803740692; 2075208622; 213261112; 2463272603; 3855990285; 2094854071; 198958881;
   2262029012; 4057260610; 1759359992; 534414190; 2176718541; 4139329115; 1873836001; 414664567;
   2282248934; 4279200368; 1711684554; 285281116; 2405801727; 4167216745; 1634467795; 376229701;
   2685067896; 3608007406; 1308918612; 956543938; 2808555105; 3495958263; 1231636301; 1047427035;
   2932959818; 3654703836; 1088359270; 936918000; 2847714899; 3736837829; 1202900863; 817233897;
   3183342108; 3401237130; 1404277552; 615818150; 3134207493; 3453421203; 1423857449; 601450431;
   3009837614; 3294710456; 1567103746; 711928724; 3020668471; 3272380065; 1510334235; 755167117].

(** One round of the loops: the byte's table entry and the rest of the sum. *)
Definition crc_table_step (table : list Z) (crc byte : Z) : Z :=
  let idx := Z.lxor (Z.land crc 255) byte in
  Z.lxor (default 0 (table !! Z.to_nat idx)) (Z.shiftr crc 8).

Definition crc32c (data : bytes) : Z :=
  unot32 (fold_left (crc_table_step CRC32C_TABLE) data (unot32 0)).

Definition crc32 (data : bytes) : Z :=
  unot32 (fold_left (crc_table_step CRC32_TABLE) data (unot32 0)).

(** [sha256_hex]: two lower-case digits per byte, as their character codes. *)
Definition HEX_CHARS : list Z :=
  [48; 49; 50; 51; 52; 53; 54; 55; 56; 57; 97; 98; 99; 100; 101; 102].

Definition hex_digit (n : Z) : Z := default 0 (HEX_CHARS !! Z.to_nat n).

Definition sha256_hex (data : bytes) : list Z :=
  concat (map (λ b, [hex_digit (Z.shiftr b 4); hex_digit (Z.land b 15)]) (sha256 data)).

(** ** The reference: the division, a bit at a time *)

(** The reflected polynomials: Castagnoli's and IEEE 802.3's. *)
Definition POLY_C : Z := 2197175160.
Definition POLY_IEEE : Z := 3988292384.

Definition crc_bit (poly crc : Z) : Z :=
  if Z.odd crc then Z.lxor (Z.shiftr crc 1) poly else Z.shiftr crc 1.

Fixpoint crc_bits (n : nat) (poly crc : Z) : Z :=
  match n with O => crc | S n => crc_bits n poly (crc_bit poly crc) end.

Definition crc_byte (poly crc byte : Z) : Z := crc_bits 8 poly (Z.lxor crc byte).

Definition crc_bitwise (poly : Z) (data : bytes) : Z :=
  unot32 (fold_left (crc_byte poly) data (unot32 0)).

(** The check values of the two checksums. *)
Definition check_input : bytes := [49; 50; 51; 52; 53; 54; 55; 56; 57].

Example crc_check_values : crc32c check_input = 3808858755 ∧ crc32 check_input = 3421780262.
Proof. split; reflexivity. Qed.

(** ** The table step is eight bit steps *)

Lemma crc_bit_lxor poly a b : crc_bit poly (Z.lxor a b) = Z.lxor (crc_bit poly a) (crc_bit poly b).
Proof.
  unfold crc_bit. rewrite <- !Z.bit0_odd, Z.lxor_spec, Z.shiftr_lxor.
  destruct (Z.testbit a 0), (Z.testbit b 0); cbn [xorb]; apply Z.bits_inj'; intros i _;
    rewrite !Z.lxor_spec; by destruct (Z.testbit (Z.shiftr a 1) i), (Z.testbit (Z.shiftr b 1) i),
      (Z.testbit poly i).
Qed.

Lemma crc_bits_lxor n poly a b :
  crc_bits n poly (Z.lxor a b) = Z.lxor (crc_bits n poly a) (crc_bits n poly b).
Proof.
  revert a b. induction n as [|n IH]; intros a b; [done|]. cbn [crc_bits]. by rewrite crc_bit_lxor.
Qed.

(** Bits above the low [n] only move down. *)
Lemma crc_bits_shiftl n poly x : crc_bits n poly (Z.shiftl x (Z.of_nat n)) = x.
Proof.
  induction n as [|n IH]; [apply Z.shiftl_0_r|]. cbn [crc_bits].
  assert (E : crc_bit poly (Z.shiftl x (Z.of_nat (S n))) = Z.shiftl x (Z.of_nat n)); [|by rewrite E].
  rewrite Nat2Z.inj_succ, <- Z.add_1_r, <- Z.shiftl_shiftl by lia. set (y := Z.shiftl x _).
  unfold crc_bit. rewrite Z.shiftl_mul_pow2 by lia. change (2 ^ 1) with 2.
  rewrite Z.odd_mul, andb_false_r, Z.shiftr_div_pow2 by lia. by apply Z.div_mul.
Qed.

Lemma split_low_byte x : 0 ≤ x → x = Z.lxor (Z.land x 255) (Z.shiftl (Z.shiftr x 8) 8).
Proof.
  intros Hx. apply Z.bits_inj'. intros i Hi. rewrite Z.lxor_spec, Z.land_spec.
  change 255 with (Z.ones 8). destruct (Z.lt_ge_cases i 8).
  - rewrite Z.ones_spec_low, Z.shiftl_spec_low by lia. by rewrite andb_true_r, xorb_false_r.
  - rewrite Z.ones_spec_high, Z.shiftl_spec, Z.shiftr_spec by lia.
    rewrite andb_false_r, xorb_false_l. f_equal. lia.
Qed.

(** A table is right when each entry is the eight-step sum of its index. *)
Definition table_ok (poly : Z) (table : list Z) : Prop :=
  ∀ b, is_byte b → default 0 (table !! Z.to_nat b) = crc_bits 8 poly b.

Lemma tables_ok : table_ok POLY_C CRC32C_TABLE ∧ table_ok POLY_IEEE CRC32_TABLE.
Proof.
  split; intros b Hb.
  - all_bytes (λ b, default 0 (CRC32C_TABLE !! Z.to_nat b) =? crc_bits 8 POLY_C b).
    by apply Z.eqb_eq, H.
  - all_bytes (λ b, default 0 (CRC32_TABLE !! Z.to_nat b) =? crc_bits 8 POLY_IEEE b).
    by apply Z.eqb_eq, H.
Qed.

Lemma crc_table_step_ok poly table crc b :
  table_ok poly table → 0 ≤ crc → is_byte b →
  crc_table_step table crc b = crc_byte poly crc b.
Proof.
  intros Ht Hc Hb. unfold crc_table_step, crc_byte. cbv zeta.
  assert (Hl : is_byte (Z.land crc 255)) by (apply (land_mask_bound crc 8); lia).
  assert (E : Z.lxor crc b = Z.lxor (Z.lxor (Z.land crc 255) b) (Z.shiftl (Z.shiftr crc 8) (Z.of_nat 8))).
  { rewrite (split_low_byte crc Hc) at 1. rewrite !Z.lxor_assoc. f_equal. apply Z.lxor_comm. }
  by rewrite (Ht _ (lxor_byte _ _ Hl Hb)), E, (crc_bits_lxor 8 poly (Z.lxor _ _)), crc_bits_shiftl.
Qed.

Lemma crc_bit_word poly crc : word32 poly → word32 crc → word32 (crc_bit poly crc).
Proof.
  unfold word32. intros Hp Hc. unfold crc_bit.
  assert (0 ≤ Z.shiftr crc 1 < 2 ^ 32).
  { rewrite Z.shiftr_div_pow2 by lia. split; [apply Z.div_pos; lia|apply Z.div_lt_upper_bound; lia]. }
  destruct (Z.odd crc); [by apply lxor_bound|done].
Qed.

Lemma crc_bits_word n poly crc : word32 poly → word32 crc → word32 (crc_bits n poly crc).
Proof.
  intros Hp. revert crc. induction n as [|n IH]; intros crc Hc; [done|]. by apply IH, crc_bit_word.
Qed.

Lemma crc_fold poly table data crc :
  table_ok poly table → word32 poly → word32 crc → is_bytes data →
  fold_left (crc_table_step table) data crc = fold_left (crc_byte poly) data crc ∧
  word32 (fold_left (crc_byte poly) data crc).
Proof.
  intros Ht Hp Hc Hd. revert crc Hc. induction Hd as [|b data Hb _ IH]; intros crc Hc; [done|].
  cbn [fold_left]. rewrite (crc_table_step_ok poly table) by (done || apply Hc). apply IH.
  apply crc_bits_word; [done|]. apply (lxor_bound 32); [lia|done|]. unfold is_byte in Hb. lia.
Qed.

(** The table-driven checksums are the bitwise divisions by Castagnoli's and
    IEEE 802.3's polynomial, on data of every length; and they are 32-bit words. *)
Theorem crc_tables_divide (data : bytes) (Hd : is_bytes data) :
  crc32c data = crc_bitwise POLY_C data ∧ crc32 data = crc_bitwise POLY_IEEE data ∧
  word32 (crc32c data) ∧ word32 (crc32 data).
Proof.
  unfold crc32c, crc32, crc_bitwise. destruct tables_ok as [Tc Ti].
  assert (Hw : word32 (unot32 0) ∧ word32 POLY_C ∧ word32 POLY_IEEE) by by apply (bool_decide_unpack _).
  destruct Hw as (Hw & Hc & Hi).
  destruct (crc_fold _ _ data _ Tc Hc Hw Hd) as [-> Wc], (crc_fold _ _ data _ Ti Hi Hw Hd) as [-> Wi].
  unfold word32, unot32, u32_max in *. split_and!; done || lia.
Qed.

Lemma crc_tables_divide_witness :
  crc32c check_input = crc_bitwise POLY_C check_input ∧ crc32 check_input = crc_bitwise POLY_IEEE check_input.
Proof.
  assert (H : is_bytes check_input) by by apply (bool_decide_unpack _).
  destruct (crc_tables_divide check_input H) as (H1 & H2 & _). exact (conj H1 H2).
Defined.
