(* ===== verification/Aes.v ===== *)
(** * AES: the block cipher of [src/src/kernel/crypto.rs]

    The key schedules, the round functions and the encryption and decryption of
    one block, for the 128-bit and the 256-bit key.  A block is the list of its
    sixteen bytes, column by column as in the source; a round function that
    assigns [state[i]] in place is a function that inserts at [i].  The theorems
    show that decryption inverts encryption under every key, and that the S-box
    is the function FIPS 197 defines, not merely a permutation. *)

From stdpp Require Import base list numbers option.
From S2P Require Import Prelude Bytes.

(** ** Tables *)

Definition AES_SBOX : bytes :=
  [99; 124; 119; 123; 242; 107; 111; 197; 48; 1; 103; 43; 254; 215; 171; 118;
   202; 130; 201; 125; 250; 89; 71; 240; 173; 212; 162; 175; 156; 164; 114; 192;
   183; 253; 147; 38; 54; 63; 247; 204; 52; 165; 229; 241; 113; 216; 49; 21;
   4; 199; 35; 195; 24; 150; 5; 154; 7; 18; 128; 226; 235; 39; 178; 117;
   9; 131; 44; 26; 27; 110; 90; 160; 82; 59; 214; 179; 41; 227; 47; 132;
   83; 209; 0; 237; 32; 252; 177; 91; 106; 203; 190; 57; 74; 76; 88; 207;
   208; 239; 170; 251; 67; 77; 51; 133; 69; 249; 2; 127; 80; 60; 159; 168;
   81; 163; 64; 143; 146; 157; 56; 245; 188; 182; 218; 33; 16; 255; 243; 210;
   205; 12; 19; 236; 95; 151; 68; 23; 196; 167; 126; 61; 100; 93; 25; 115;
   96; 129; 79; 220; 34; 42; 144; 136; 70; 238; 184; 20; 222; 94; 11; 219;
   224; 50; 58; 10; 73; 6; 36; 92; 194; 211; 172; 98; 145; 149; 228; 121;
   231; 200; 55; 109; 141; 213; 78; 169; 108; 86; 244; 234; 101; 122; 174; 8;
   186; 120; 37; 46; 28; 166; 180; 198; 232; 221; 116; 31; 75; 189; 139; 138;
   112; 62; 181; 102; 72; 3; 246; 14; 97; 53; 87; 185; 134; 193; 29; 158;
   225; 248; 152; 17; 105; 217; 142; 148; 155; 30; 135; 233; 206; 85; 40; 223;
   140; 161; 137; 13; 191; 230; 66; 104; 65; 153; 45; 15; 176; 84; 187; 22].

Definition AES_RCON : bytes := [0; 1; 2; 4; 8; 16; 32; 64; 128; 27; 54].

Definition AES_INV_SBOX : bytes :=
  [82; 9; 106; 213; 48; 54; 165; 56; 191; 64; 163; 158; 129; 243; 215; 251;
   124; 227; 57; 130; 155; 47; 255; 135; 52; 142; 67; 68; 196; 222; 233; 203;
   84; 123; 148; 50; 166; 194; 35; 61; 238; 76; 149; 11; 66; 250; 195; 78;
   8; 46; 161; 102; 40; 217; 36; 178; 118; 91; 162; 73; 109; 139; 209; 37;
   114; 248; 246; 100; 134; 104; 152; 22; 212; 164; 92; 204; 93; 101; 182; 146;
   108; 112; 72; 80; 253; 237; 185; 218; 94; 21; 70; 87; 167; 141; 157; 132;
   144; 216; 171; 0; 140; 188; 211; 10; 247; 228; 88; 5; 184; 179; 69; 6;
   208; 44; 30; 143; 202; 63; 15; 2; 193; 175; 189; 3; 1; 19; 138; 107;
   58; 145; 17; 65; 79; 103; 220; 234; 151; 242; 207; 206; 240; 180; 230; 115;
   150; 172; 116; 34; 231; 173; 53; 133; 226; 249; 55; 232; 28; 117; 223; 110;
   71; 241; 26; 113; 29; 41; 197; 137; 111; 183; 98; 14; 170; 24; 190; 27;
   252; 86; 62; 75; 198; 210; 121; 32; 154; 219; 192; 254; 120; 205; 90; 244;
   31; 221; 168; 51; 136; 7; 199; 49; 177; 18; 16; 89; 39; 128; 236; 95;
   96; 81; 127; 169; 25; 181; 74; 13; 45; 229; 122; 159; 147; 201; 156; 239;
   160; 224; 59; 77; 174; 42; 245; 176; 200; 235; 187; 60; 131; 83; 153; 97;
   23; 43; 4; 126; 186; 119; 214; 38; 225; 105; 20; 99; 85; 33; 12; 125].

(** A byte of a table, indexed by a byte. *)
Definition table (t : bytes) (b : Z) : Z := byte t (Z.to_nat b).

Definition sbox (b : Z) : Z := table AES_SBOX b.
Definition inv_sbox (b : Z) : Z := table AES_INV_SBOX b.

(** ** Round functions *)

Definition aes_add_round_key (state rk : bytes) : bytes := xor_into state rk.
Definition aes_sub_bytes (state : bytes) : bytes := map sbox state.
Definition aes_inv_sub_bytes (state : bytes) : bytes := map inv_sbox state.

(** The assignments [state[d] = tmp[s]] of the row shifts, in their order. *)
Definition copy_bytes (state : bytes) (moves : list (nat * nat)) : bytes :=
  fold_left (λ st m, <[m.1 := byte state m.2]> st) moves state.

Definition aes_shift_rows (state : bytes) : bytes :=
  copy_bytes state
    [(1, 5); (5, 9); (9, 13); (13, 1);
     (2, 10); (6, 14); (10, 2); (14, 6);
     (3, 15); (7, 3); (11, 7); (15, 11)]%nat.

Definition aes_inv_shift_rows (state : bytes) : bytes :=
  copy_bytes state
    [(1, 13); (5, 1); (9, 5); (13, 9);
     (2, 10); (6, 14); (10, 2); (14, 6);
     (3, 7); (7, 11); (11, 15); (15, 3)]%nat.

Definition aes_xtime (x : Z) : Z :=
  let hi := bool_decide (Z.land x 128 ≠ 0) in
  let r := wrap8 (Z.shiftl x 1) in
  if hi then Z.lxor r 27 else r.

Local Notation "x ⊕ y" := (Z.lxor x y) (at level 50, left associativity).

(** The body of the column loops: the four bytes at [base] replaced. *)
Definition set_column (f : Z → Z → Z → Z → bytes) (state : bytes) (col : nat) : bytes :=
  let base := (col * 4)%nat in
  let s0 := byte state base in
  let s1 := byte state (base + 1) in
  let s2 := byte state (base + 2) in
  let s3 := byte state (base + 3) in
  let out := f s0 s1 s2 s3 in
  <[(base + 3)%nat := byte out 3]> (<[(base + 2)%nat := byte out 2]>
    (<[(base + 1)%nat := byte out 1]> (<[base := byte out 0]> state))).

Definition mix_column (s0 s1 s2 s3 : Z) : bytes :=
  [aes_xtime s0 ⊕ aes_xtime s1 ⊕ s1 ⊕ s2 ⊕ s3;
   s0 ⊕ aes_xtime s1 ⊕ aes_xtime s2 ⊕ s2 ⊕ s3;
   s0 ⊕ s1 ⊕ aes_xtime s2 ⊕ aes_xtime s3 ⊕ s3;
   aes_xtime s0 ⊕ s0 ⊕ s1 ⊕ s2 ⊕ aes_xtime s3].

Definition aes_mix_columns (state : bytes) : bytes :=
  fold_left (set_column mix_column) (seq 0 4) state.

(** The eight rounds of [aes_gmul]: the product so far, [a] and [b]. *)
Fixpoint gmul_loop (n : nat) (p a b : Z) : Z :=
  match n with
  | O => p
  | S n =>
      let p := if bool_decide (Z.land b 1 ≠ 0) then p ⊕ a else p in
      let hi := bool_decide (Z.land a 128 ≠ 0) in
      let a := wrap8 (Z.shiftl a 1) in
      let a := if hi then a ⊕ 27 else a in
      gmul_loop n p a (Z.shiftr b 1)
  end.

Definition aes_gmul (x y : Z) : Z := gmul_loop 8 0 x y.

Definition inv_mix_column (s0 s1 s2 s3 : Z) : bytes :=
  [aes_gmul 14 s0 ⊕ aes_gmul 11 s1 ⊕ aes_gmul 13 s2 ⊕ aes_gmul 9 s3;
   aes_gmul 9 s0 ⊕ aes_gmul 14 s1 ⊕ aes_gmul 11 s2 ⊕ aes_gmul 13 s3;
   aes_gmul 13 s0 ⊕ aes_gmul 9 s1 ⊕ aes_gmul 14 s2 ⊕ aes_gmul 11 s3;
   aes_gmul 11 s0 ⊕ aes_gmul 13 s1 ⊕ aes_gmul 9 s2 ⊕ aes_gmul 14 s3].

Definition aes_inv_mix_columns (state : bytes) : bytes :=
  fold_left (set_column inv_mix_column) (seq 0 4) state.

(** ** Key schedules *)

(** [temp.rotate_left(1)]. *)
Definition rotate_left1 (l : bytes) : bytes := drop 1 l ++ take 1 l.

(** [temp[0] ^= rcon]. *)
Definition xor_first (l : bytes) (rcon : Z) : bytes := <[0%nat := byte l 0 ⊕ rcon]> l.

(** [rk[i][j] = back[j] ^ temp[j]] for the first word, and
    [rk[i][j] = back[j] ^ rk[i][j - 4]] for the others. *)
Definition next_round_key (back temp : bytes) : bytes :=
  let w0 := xor_into (slice back 0 4) temp in
  let w1 := xor_into (slice back 4 8) w0 in
  let w2 := xor_into (slice back 8 12) w1 in
  let w3 := xor_into (slice back 12 16) w2 in
  w0 ++ w1 ++ w2 ++ w3.

Definition round_key (rk : list bytes) (i : nat) : bytes := default [] (rk !! i).

Definition aes128_round_key (rk : list bytes) (i : nat) : list bytes :=
  let temp := slice (round_key rk (i - 1)) 12 16 in
  let temp := map sbox (rotate_left1 temp) in
  let temp := xor_first temp (byte AES_RCON i) in
  rk ++ [next_round_key (round_key rk (i - 1)) temp].

Definition aes128_key_expand (key : bytes) : list bytes :=
  fold_left aes128_round_key (seq 1 10) [key].

Definition aes256_round_key (rk : list bytes) (i : nat) : list bytes :=
  let temp := slice (round_key rk (i - 1)) 12 16 in
  let temp :=
    if decide (i mod 2 = 0)%nat
    then xor_first (map sbox (rotate_left1 temp)) (byte AES_RCON (i / 2))
    else map sbox temp in
  rk ++ [next_round_key (round_key rk (i - 2)) temp].

Definition aes256_key_expand (key : bytes) : list bytes :=
  fold_left aes256_round_key (seq 2 13) [slice key 0 16; slice key 16 32].

(** ** Blocks *)

Definition aes_round (block rk_round : bytes) : bytes :=
  aes_add_round_key (aes_mix_columns (aes_shift_rows (aes_sub_bytes block))) rk_round.

Definition aes_final_round (block rk_last : bytes) : bytes :=
  aes_add_round_key (aes_shift_rows (aes_sub_bytes block)) rk_last.

Definition aes_inv_round (block rk_round : bytes) : bytes :=
  aes_inv_mix_columns (aes_add_round_key (aes_inv_sub_bytes (aes_inv_shift_rows block)) rk_round).

Definition aes_inv_final_round (block rk_first : bytes) : bytes :=
  aes_add_round_key (aes_inv_sub_bytes (aes_inv_shift_rows block)) rk_first.

(** The bodies of [aes128_encrypt_block] and [aes256_encrypt_block], which
    differ in the schedule and the number [n] of its last round key. *)
Definition aes_encrypt_with (rk : list bytes) (n : nat) (block : bytes) : bytes :=
  let block := aes_add_round_key block (round_key rk 0) in
  let block := fold_left aes_round (take (n - 1) (drop 1 rk)) block in
  aes_final_round block (round_key rk n).

Definition aes_decrypt_with (rk : list bytes) (n : nat) (block : bytes) : bytes :=
  let block := aes_add_round_key block (round_key rk n) in
  let block := fold_left aes_inv_round (map (round_key rk) (rev (seq 1 (n - 1)))) block in
  aes_inv_final_round block (round_key rk 0).

Definition aes128_encrypt_block (key block : bytes) : bytes :=
  aes_encrypt_with (aes128_key_expand key) 10 block.
Definition aes256_encrypt_block (key block : bytes) : bytes :=
  aes_encrypt_with (aes256_key_expand key) 14 block.
Definition aes128_decrypt_block (key block : bytes) : bytes :=
  aes_decrypt_with (aes128_key_expand key) 10 block.
Definition aes256_decrypt_block (key block : bytes) : bytes :=
  aes_decrypt_with (aes256_key_expand key) 14 block.

(** FIPS 197, appendix C.1 and C.3. *)
Definition fips_plaintext : bytes := map (λ i, Z.of_nat i * 17) (seq 0 16).

Example aes128_vector :
  aes128_encrypt_block (count_bytes 16) fips_plaintext =
  [105; 196; 224; 216; 106; 123; 4; 48; 216; 205; 183; 128; 112; 180; 197; 90].
Proof. vm_compute. reflexivity. Qed.

Example aes256_vector :
  aes256_encrypt_block (count_bytes 32) fips_plaintext =
  [142; 162; 183; 202; 81; 103; 69; 191; 234; 252; 73; 144; 75; 73; 96; 137].
Proof. vm_compute. reflexivity. Qed.

(** ** The reference: the S-box of FIPS 197, section 5.1.1 *)

(** The inverse of the field's multiplicative group, [b] to the power 254, and
    zero for zero: the product of the squares [b^2], [b^4], ..., [b^128]. *)
Fixpoint gf_squares (n : nat) (b : Z) : Z :=
  match n with
  | O => 1
  | S n => let b2 := aes_gmul b b in aes_gmul b2 (gf_squares n b2)
  end.

Definition gf_inverse (b : Z) : Z := gf_squares 7 b.

Definition rotate_byte (b : Z) (k : Z) : Z :=
  Z.lor (wrap8 (Z.shiftl b k)) (Z.shiftr b (8 - k)).

Definition fips_affine (b : Z) : Z :=
  b ⊕ rotate_byte b 1 ⊕ rotate_byte b 2 ⊕ rotate_byte b 3 ⊕ rotate_byte b 4 ⊕ 99.

Lemma sbox_ok b : is_byte b → inv_sbox (sbox b) = b ∧ is_byte (sbox b).
Proof.
  intros Hb.
  all_bytes (λ b, (inv_sbox (sbox b) =? b) && (0 <=? sbox b) && (sbox b <? 256))%Z%bool.
  specialize (H b Hb). rewrite !andb_true_iff, Z.eqb_eq, Z.leb_le, Z.ltb_lt in H.
  unfold is_byte. tauto.
Qed.

(** The S-box the code carries as a table is the one FIPS 197 defines: the
    affine transform of the inverse in the field that [aes_gmul] multiplies in,
    where that inverse is one, and the inverse table undoes it. *)
Theorem sbox_is_fips (b : Z) (Hb : is_byte b) :
  sbox b = fips_affine (gf_inverse b) ∧
  (b ≠ 0 → aes_gmul b (gf_inverse b) = 1) ∧
  inv_sbox (sbox b) = b.
Proof.
  all_bytes (λ b, (sbox b =? fips_affine (gf_inverse b)) &&
    ((b =? 0) || (aes_gmul b (gf_inverse b) =? 1)))%Z%bool.
  specialize (H b Hb). rewrite andb_true_iff, orb_true_iff, !Z.eqb_eq in H.
  destruct (sbox_ok b Hb). tauto.
Qed.

Lemma sbox_is_fips_witness : sbox 83 = fips_affine (gf_inverse 83) ∧ sbox 83 = 237.
Proof. split; [apply (sbox_is_fips 83); unfold is_byte; lia|reflexivity]. Defined.

(** ** Exclusive or is a ring's addition *)

Lemma lxor_ring :
  ring_theory 0 (-1) Z.lxor Z.land Z.lxor (λ x, x) (@eq Z).
Proof.
  constructor; intros.
  - apply Z.lxor_0_l.
  - apply Z.lxor_comm.
  - symmetry. apply Z.lxor_assoc.
  - apply Z.land_m1_l.
  - apply Z.land_comm.
  - apply Z.land_assoc.
  - apply Z.bits_inj'. intros n _. rewrite Z.lxor_spec, !Z.land_spec, Z.lxor_spec.
    by destruct (Z.testbit x n), (Z.testbit y n), (Z.testbit z n).
  - done.
  - apply Z.lxor_nilpotent.
Qed.

(** In this section [ring] proves equations between exclusive ors. *)
Section XorRing.
Add Ring lxor_ring : lxor_ring.

Lemma wrap8_land x : wrap8 x = Z.land x 255.
Proof. unfold wrap8. by rewrite <- (Z.land_ones x 8). Qed.

Lemma land_128 x : bool_decide (Z.land x 128 ≠ 0) = Z.testbit x 7.
Proof.
  assert (E : Z.land x 128 = if Z.testbit x 7 then 128 else 0).
  { apply Z.bits_inj'. intros n Hn. rewrite Z.land_spec, (Z.pow2_bits_eqb 7) by lia.
    destruct (Z.eqb_spec 7 n) as [<-|Hn7].
    - by destruct (Z.testbit x 7).
    - rewrite andb_false_r. destruct (Z.testbit x 7); [|by rewrite Z.bits_0].
      symmetry. apply (Z.pow2_bits_false 7). lia. }
  rewrite E. by destruct (Z.testbit x 7).
Qed.

Lemma aes_xtime_lxor a b : aes_xtime (a ⊕ b) = aes_xtime a ⊕ aes_xtime b.
Proof.
  unfold aes_xtime. cbv zeta. rewrite !land_128, !wrap8_land, Z.lxor_spec, Z.shiftl_lxor.
  destruct (Z.testbit a 7), (Z.testbit b 7); cbn [xorb]; try ring.
  transitivity (Z.land (a ≪ 1 ⊕ b ≪ 1) 255 ⊕ (27 ⊕ 27)); [|ring].
  by rewrite Z.lxor_nilpotent, Z.lxor_0_r.
Qed.

Lemma aes_xtime_byte a : is_byte (aes_xtime a).
Proof.
  unfold aes_xtime. cbv zeta. assert (is_byte (wrap8 (a ≪ 1))) by apply mod256_byte.
  destruct (bool_decide _); [|done]. by apply lxor_byte.
Qed.

(** The product is linear in the multiplier. *)
Lemma land_1 x : bool_decide (Z.land x 1 ≠ 0) = Z.odd x.
Proof.
  pose proof (Z.land_ones x 1 ltac:(lia)) as E. change (Z.ones 1) with 1 in E. rewrite E.
  change (2 ^ 1) with 2. rewrite Zmod_odd. by destruct (Z.odd x).
Qed.

Lemma gmul_loop_lxor n p1 p2 a b1 b2 :
  gmul_loop n (p1 ⊕ p2) a (b1 ⊕ b2) = gmul_loop n p1 a b1 ⊕ gmul_loop n p2 a b2.
Proof.
  revert p1 p2 a b1 b2. induction n as [|n IH]; intros p1 p2 a b1 b2; [done|].
  cbn [gmul_loop]. cbv zeta. rewrite Z.shiftr_lxor, <- IH, !land_1. f_equal.
  rewrite <- !Z.bit0_odd, Z.lxor_spec.
  destruct (Z.testbit b1 0), (Z.testbit b2 0); cbn [xorb]; try ring.
  transitivity (p1 ⊕ p2 ⊕ (a ⊕ a)); [|ring]. by rewrite Z.lxor_nilpotent, Z.lxor_0_r.
Qed.

Lemma aes_gmul_lxor c a b : aes_gmul c (a ⊕ b) = aes_gmul c a ⊕ aes_gmul c b.
Proof. apply (gmul_loop_lxor 8 0 0). Qed.

(** ** Each round function is undone by its inverse *)

(** What one byte of a column contributes to the four bytes of the column mixed
    and unmixed: itself to its own place, nothing to the others. *)
Lemma gmul_mix s : is_byte s →
  aes_gmul 14 (aes_xtime s) ⊕ aes_gmul 11 s ⊕ aes_gmul 13 s ⊕ (aes_gmul 9 (aes_xtime s) ⊕ aes_gmul 9 s) = s ∧
  aes_gmul 9 (aes_xtime s) ⊕ aes_gmul 14 s ⊕ aes_gmul 11 s ⊕ (aes_gmul 13 (aes_xtime s) ⊕ aes_gmul 13 s) = 0 ∧
  aes_gmul 13 (aes_xtime s) ⊕ aes_gmul 9 s ⊕ aes_gmul 14 s ⊕ (aes_gmul 11 (aes_xtime s) ⊕ aes_gmul 11 s) = 0 ∧
  aes_gmul 11 (aes_xtime s) ⊕ aes_gmul 13 s ⊕ aes_gmul 9 s ⊕ (aes_gmul 14 (aes_xtime s) ⊕ aes_gmul 14 s) = 0.
Proof.
  intros Hs. pose (part := λ a b c d s,
    aes_gmul a (aes_xtime s) ⊕ aes_gmul b s ⊕ aes_gmul c s ⊕ (aes_gmul d (aes_xtime s) ⊕ aes_gmul d s)).
  all_bytes (λ s, (part 14 11 13 9 s =? s) && (part 9 14 11 13 s =? 0) &&
    (part 13 9 14 11 s =? 0) && (part 11 13 9 14 s =? 0))%Z%bool.
  specialize (H s Hs). rewrite !andb_true_iff, !Z.eqb_eq in H. tauto.
Qed.

(** A sum of products is the sum of four known parts. *)
Ltac by_parts A B C D :=
  match type of A with ?a = _ => match type of B with ?b = _ =>
  match type of C with ?c = _ => match type of D with ?d = _ =>
    transitivity (a ⊕ b ⊕ c ⊕ d);
      [clear;
       repeat match goal with |- context [aes_gmul ?x ?y] => generalize (aes_gmul x y); intro end;
       ring
      |rewrite A, B, C, D, ?Z.lxor_0_l, ?Z.lxor_0_r; reflexivity]
  end end end end.

#[local] Opaque aes_gmul aes_xtime.

Lemma inv_mix_column_mix s0 s1 s2 s3 :
  is_byte s0 → is_byte s1 → is_byte s2 → is_byte s3 →
  ∀ m0 m1 m2 m3, mix_column s0 s1 s2 s3 = [m0; m1; m2; m3] →
  inv_mix_column m0 m1 m2 m3 = [s0; s1; s2; s3].
Proof.
  intros H0 H1 H2 H3 m0 m1 m2 m3 Em. injection Em as <- <- <- <-. apply gmul_mix in H0, H1, H2, H3.
  destruct H0 as (A0 & B0 & C0 & D0), H1 as (A1 & B1 & C1 & D1),
    H2 as (A2 & B2 & C2 & D2), H3 as (A3 & B3 & C3 & D3).
  unfold inv_mix_column. rewrite !aes_gmul_lxor.
  f_equal; [by_parts A0 D1 C2 B3|].
  f_equal; [by_parts B0 A1 D2 C3|].
  f_equal; [by_parts C0 B1 A2 D3|].
  f_equal. by_parts D0 C1 B2 A3.
Qed.

End XorRing.

Lemma unmix_column s0 s1 s2 s3 :
  is_byte s0 → is_byte s1 → is_byte s2 → is_byte s3 →
  inv_mix_column (byte (mix_column s0 s1 s2 s3) 0) (byte (mix_column s0 s1 s2 s3) 1)
    (byte (mix_column s0 s1 s2 s3) 2) (byte (mix_column s0 s1 s2 s3) 3) = [s0; s1; s2; s3].
Proof. intros. by apply inv_mix_column_mix. Qed.

Lemma mix_column_bytes s0 s1 s2 s3 :
  is_byte s0 → is_byte s1 → is_byte s2 → is_byte s3 → is_bytes (mix_column s0 s1 s2 s3).
Proof.
  intros. unfold mix_column, is_bytes.
  repeat apply Forall_cons_2; try apply Forall_nil_2;
    repeat apply lxor_byte; done || apply aes_xtime_byte.
Qed.

(** A block: sixteen bytes. *)
Definition is_block (s : bytes) : Prop := length s = 16%nat ∧ is_bytes s.

#[global] Instance is_block_dec s : Decision (is_block s).
Proof. unfold is_block. apply _. Defined.

Ltac sixteen s :=
  let H := fresh "Hlen" in
  match goal with H' : length s = 16%nat |- _ => rename H' into H end;
  do 16 (destruct s as [|? s]; [discriminate H|]);
  destruct s as [|? s]; [clear H|discriminate H].

Lemma shift_rows_undone s : length s = 16%nat → aes_inv_shift_rows (aes_shift_rows s) = s.
Proof. intros Hs. sixteen s. reflexivity. Qed.

Lemma shift_rows_block s : is_block s → is_block (aes_shift_rows s).
Proof.
  intros [Hl Hs]. sixteen s. split; [reflexivity|].
  unfold is_bytes in *. rewrite !Forall_cons_iff in Hs.
  cbn -[is_byte]. rewrite !Forall_cons_iff. tauto.
Qed.

Lemma sub_bytes_undone s : is_bytes s → aes_inv_sub_bytes (aes_sub_bytes s) = s.
Proof.
  intros Hs. unfold aes_inv_sub_bytes, aes_sub_bytes. rewrite map_map.
  induction Hs as [|b s Hb Hs IH]; [done|]. cbn [map]. by rewrite IH, (proj1 (sbox_ok b Hb)).
Qed.

Lemma sub_bytes_block s : is_block s → is_block (aes_sub_bytes s).
Proof.
  intros [Hl Hs]. split; [by etrans; [apply length_map|]|]. apply Forall_map.
  eapply Forall_impl; [|exact Hs]. intros b Hb. by apply sbox_ok.
Qed.

Lemma add_round_key_block s k : is_block s → is_bytes k → is_block (aes_add_round_key s k).
Proof. intros [Hl Hs] Hk. split; [by rewrite length_xor_into|by apply xor_into_bytes]. Qed.

(** The column loop on the sixteen bytes of a block. *)
Lemma columns_expand f a0 a1 a2 a3 b0 b1 b2 b3 c0 c1 c2 c3 d0 d1 d2 d3 :
  fold_left (set_column f) (seq 0 4)
    [a0; a1; a2; a3; b0; b1; b2; b3; c0; c1; c2; c3; d0; d1; d2; d3] =
  concat (map (λ out, [byte out 0; byte out 1; byte out 2; byte out 3])
    [f a0 a1 a2 a3; f b0 b1 b2 b3; f c0 c1 c2 c3; f d0 d1 d2 d3]).
Proof. reflexivity. Qed.

Lemma mix_columns_block s : is_block s → is_block (aes_mix_columns s).
Proof.
  intros [Hl Hs]. sixteen s. unfold is_bytes in *. rewrite !Forall_cons_iff in Hs.
  unfold aes_mix_columns. rewrite columns_expand.
  split; [reflexivity|]. apply Forall_concat, Forall_map.
  repeat apply Forall_cons_2; try apply Forall_nil_2;
    repeat apply Forall_cons_2; try apply Forall_nil_2;
    apply byte_bound, mix_column_bytes; tauto.
Qed.

Lemma mix_columns_undone s : is_block s → aes_inv_mix_columns (aes_mix_columns s) = s.
Proof.
  intros [Hl Hs]. sixteen s. unfold is_bytes in *. rewrite !Forall_cons_iff in Hs.
  unfold aes_mix_columns, aes_inv_mix_columns. rewrite columns_expand.
  cbn [map concat app]. rewrite columns_expand.
  rewrite !unmix_column by tauto. reflexivity.
Qed.

Lemma aes_round_block s k : is_block s → is_bytes k → is_block (aes_round s k).
Proof.
  intros. apply add_round_key_block; [|done].
  by apply mix_columns_block, shift_rows_block, sub_bytes_block.
Qed.

Lemma aes_final_round_block s k : is_block s → is_bytes k → is_block (aes_final_round s k).
Proof. intros. apply add_round_key_block; [|done]. by apply shift_rows_block, sub_bytes_block. Qed.

(** The decryption interleaves the inverses one step off: undoing the key, then
    the rows and the substitution of a round leaves the block before it. *)
Lemma rows_and_sub_undone s :
  is_block s → aes_inv_sub_bytes (aes_inv_shift_rows (aes_shift_rows (aes_sub_bytes s))) = s.
Proof.
  intros Hs. rewrite shift_rows_undone by apply (sub_bytes_block _ Hs).
  by apply sub_bytes_undone, Hs.
Qed.

Lemma fold_left_preserves {A B} (P : A → Prop) (Q : B → Prop) (f : A → B → A) l a :
  (∀ a b, P a → Q b → P (f a b)) → P a → Forall Q l → P (fold_left f l a).
Proof.
  intros Hf Ha Hl. revert a Ha. induction Hl as [|b l Hb _ IH]; intros a Ha; [done|].
  by apply IH, Hf.
Qed.

Lemma rounds_block ks s :
  is_block s → Forall is_bytes ks → is_block (fold_left aes_round ks s).
Proof. apply fold_left_preserves, aes_round_block. Qed.

(** Rounds forward with [ks], then a last one, undone: every inverse round takes
    the key of the round before it, the first key [k0] at the end. *)
Lemma rounds_undone ks k0 s :
  is_block s → is_bytes k0 → Forall is_bytes ks →
  let u := fold_left aes_round ks (aes_add_round_key s k0) in
  aes_inv_final_round
    (fold_left aes_inv_round (rev ks) (aes_shift_rows (aes_sub_bytes u))) k0 = s.
Proof.
  intros Hs H0. cbv zeta. induction ks as [|k ks IH] using rev_ind; intros Hks.
  - cbn [fold_left rev]. unfold aes_inv_final_round.
    rewrite rows_and_sub_undone by (by apply add_round_key_block).
    apply xor_into_involutive.
  - apply Forall_app in Hks as [Hks Hk]. apply Forall_cons_iff in Hk as [Hk _].
    rewrite rev_app_distr, !fold_left_app. cbn [rev app fold_left].
    set (u := fold_left aes_round ks (aes_add_round_key s k0)) in *.
    assert (Hu : is_block u) by (apply rounds_block; [by apply add_round_key_block|done]).
    assert (E : aes_inv_round (aes_shift_rows (aes_sub_bytes (aes_round u k))) k =
      aes_shift_rows (aes_sub_bytes u)).
    { unfold aes_inv_round. rewrite rows_and_sub_undone by (by apply aes_round_block).
      unfold aes_round, aes_add_round_key. rewrite xor_into_involutive.
      by apply mix_columns_undone, shift_rows_block, sub_bytes_block. }
    rewrite E. by apply IH.
Qed.

(** A schedule: [n + 1] round keys of sixteen bytes. *)
Definition schedule (n : nat) (rk : list bytes) : Prop := length rk = S n ∧ Forall is_block rk.

Lemma round_key_block rk i : (i < length rk)%nat → Forall is_block rk → is_block (round_key rk i).
Proof.
  intros Hi Hrk. unfold round_key. destruct (lookup_lt_is_Some_2 rk i Hi) as [k Hk]. rewrite Hk.
  by apply (Forall_lookup_1 _ _ _ _ Hrk Hk).
Qed.

Lemma map_round_key rk i n :
  (i + n ≤ length rk)%nat → map (round_key rk) (seq i n) = take n (drop i rk).
Proof.
  revert i. induction n as [|n IH]; intros i Hi; [done|]. cbn [seq map].
  destruct (lookup_lt_is_Some_2 rk i ltac:(lia)) as [k Hk].
  rewrite (drop_S rk k i Hk). cbn [take]. rewrite IH by lia. unfold round_key. by rewrite Hk.
Qed.

Lemma middle_keys rk n : Forall is_block rk → Forall is_bytes (take n (drop 1 rk)).
Proof.
  intros Hrk. apply Forall_take, Forall_drop. eapply Forall_impl; [|exact Hrk]. by intros k [].
Qed.

Lemma aes_decrypt_encrypt rk n s :
  (0 < n)%nat → schedule n rk → is_block s →
  aes_decrypt_with rk n (aes_encrypt_with rk n s) = s.
Proof.
  intros Hn [Hl Hrk] Hs. unfold aes_decrypt_with, aes_encrypt_with. cbv zeta.
  rewrite map_rev, map_round_key by lia. unfold aes_final_round, aes_add_round_key at 1.
  rewrite xor_into_involutive. apply rounds_undone; [done| |].
  - apply round_key_block; [lia|done].
  - by apply middle_keys.
Qed.

Lemma aes_encrypt_block_ok rk n s :
  (0 < n)%nat → schedule n rk → is_block s → is_block (aes_encrypt_with rk n s).
Proof.
  intros Hn [Hl Hrk] Hs. unfold aes_encrypt_with. cbv zeta.
  apply aes_final_round_block; [|apply round_key_block; [lia|done]].
  apply rounds_block; [|by apply middle_keys].
  apply add_round_key_block; [done|apply round_key_block; [lia|done]].
Qed.

(** ** The schedules *)

Lemma sbox_bytes l : is_bytes l → is_bytes (map sbox l).
Proof.
  intros Hl. apply Forall_map. eapply Forall_impl; [|exact Hl]. intros b Hb. by apply sbox_ok.
Qed.

Lemma rotate_left1_ok l : is_bytes l → is_bytes (rotate_left1 l).
Proof. intros Hl. apply is_bytes_app. split; [by apply Forall_drop|by apply Forall_take]. Qed.

Lemma xor_first_ok l r : is_bytes l → is_byte r → is_bytes (xor_first l r).
Proof.
  intros Hl Hr. apply Forall_insert; [done|]. apply lxor_byte; [by apply byte_bound|done].
Qed.

Lemma next_round_key_block back temp :
  is_block back → is_bytes temp → is_block (next_round_key back temp).
Proof.
  intros [Hl Hb] Ht. unfold next_round_key. cbv zeta.
  assert (Hs : ∀ a b, is_bytes (slice back a b)) by (intros; by apply slice_bytes).
  split.
  - rewrite !length_app, !length_xor_into, !length_slice by lia. done.
  - repeat (apply is_bytes_app; split); repeat (apply xor_into_bytes; [done|]); done.
Qed.

Lemma rcon_byte i : is_byte (byte AES_RCON i).
Proof. apply byte_bound. by apply (bool_decide_unpack _). Qed.

Lemma aes128_round_key_ok rk i :
  (1 ≤ i)%nat → length rk = i → Forall is_block rk →
  length (aes128_round_key rk i) = S i ∧ Forall is_block (aes128_round_key rk i).
Proof.
  intros Hi Hl Hrk. assert (Hp : is_block (round_key rk (i - 1))) by (apply round_key_block; [lia|done]).
  unfold aes128_round_key. cbv zeta. split; [rewrite length_app; simpl; lia|].
  apply Forall_app. split; [done|]. apply Forall_singleton, next_round_key_block; [done|].
  apply xor_first_ok, rcon_byte. by apply sbox_bytes, rotate_left1_ok, slice_bytes, Hp.
Qed.

Lemma aes256_round_key_ok rk i :
  (2 ≤ i)%nat → length rk = i → Forall is_block rk →
  length (aes256_round_key rk i) = S i ∧ Forall is_block (aes256_round_key rk i).
Proof.
  intros Hi Hl Hrk. assert (Hp : is_block (round_key rk (i - 1))) by (apply round_key_block; [lia|done]).
  unfold aes256_round_key. cbv zeta. split; [rewrite length_app; simpl; lia|].
  apply Forall_app. split; [done|].
  apply Forall_singleton, next_round_key_block; [apply round_key_block; [lia|done]|].
  destruct (decide _).
  - apply xor_first_ok, rcon_byte. by apply sbox_bytes, rotate_left1_ok, slice_bytes, Hp.
  - by apply sbox_bytes, slice_bytes, Hp.
Qed.

Lemma expand_ok step i n rk :
  (∀ rk j, (i ≤ j)%nat → length rk = j → Forall is_block rk →
     length (step rk j) = S j ∧ Forall is_block (step rk j)) →
  length rk = i → Forall is_block rk →
  length (fold_left step (seq i n) rk) = (i + n)%nat ∧ Forall is_block (fold_left step (seq i n) rk).
Proof.
  revert i rk. induction n as [|n IH]; intros i rk Hstep Hl Hrk; [split; [simpl; lia|done]|].
  cbn [seq fold_left]. destruct (Hstep rk i (Nat.le_refl i) Hl Hrk) as [Hl' Hrk'].
  rewrite <- Nat.add_succ_comm. apply IH; [|done|done]. intros. apply Hstep; [lia|done|done].
Qed.

Lemma aes128_schedule key : is_block key → schedule 10 (aes128_key_expand key).
Proof.
  intros Hk. apply (expand_ok aes128_round_key 1 10); [|done|by apply Forall_singleton].
  apply aes128_round_key_ok.
Qed.

(** A 256-bit key. *)
Definition is_key256 (key : bytes) : Prop := length key = 32%nat ∧ is_bytes key.

#[global] Instance is_key256_dec key : Decision (is_key256 key).
Proof. unfold is_key256. apply _. Defined.

Lemma aes256_schedule key : is_key256 key → schedule 14 (aes256_key_expand key).
Proof.
  intros [Hl Hk]. apply (expand_ok aes256_round_key 2 13); [|done|].
  - apply aes256_round_key_ok.
  - repeat apply Forall_cons_2; [..|done]; (split; [rewrite length_slice; lia|by apply slice_bytes]).
Qed.

Lemma aes128_block key s :
  is_block key → is_block s →
  is_block (aes128_encrypt_block key s) ∧
  aes128_decrypt_block key (aes128_encrypt_block key s) = s.
Proof.
  intros Hk Hs. apply aes128_schedule in Hk. unfold aes128_decrypt_block, aes128_encrypt_block.
  revert Hk. generalize (aes128_key_expand key). intros rk Hk.
  split; [apply aes_encrypt_block_ok|apply aes_decrypt_encrypt]; done || lia.
Qed.

Lemma aes256_block key s :
  is_key256 key → is_block s →
  is_block (aes256_encrypt_block key s) ∧
  aes256_decrypt_block key (aes256_encrypt_block key s) = s.
Proof.
  intros Hk Hs. apply aes256_schedule in Hk. unfold aes256_decrypt_block, aes256_encrypt_block.
  revert Hk. generalize (aes256_key_expand key). intros rk Hk.
  split; [apply aes_encrypt_block_ok|apply aes_decrypt_encrypt]; done || lia.
Qed.

(** C20. Under every key, decrypting an encrypted block gives the block back, for
    both key sizes; and what encryption leaves in the buffer is a block. *)
Theorem aes_decrypts_what_it_encrypted (key128 key256 block : bytes)
    (H128 : is_block key128) (H256 : is_key256 key256) (Hb : is_block block) :
  aes128_decrypt_block key128 (aes128_encrypt_block key128 block) = block ∧
  aes256_decrypt_block key256 (aes256_encrypt_block key256 block) = block ∧
  is_block (aes128_encrypt_block key128 block) ∧
  is_block (aes256_encrypt_block key256 block).
Proof.
  destruct (aes128_block _ _ H128 Hb), (aes256_block _ _ H256 Hb). done.
Qed.

Lemma count_bytes_key : is_block (count_bytes 16) ∧ is_key256 (count_bytes 32) ∧ is_block fips_plaintext.
Proof. by apply (bool_decide_unpack _). Qed.

Lemma aes_decrypts_what_it_encrypted_witness :
  aes128_decrypt_block (count_bytes 16) (aes128_encrypt_block (count_bytes 16) fips_plaintext)
  = fips_plaintext.
Proof.
  exact (proj1 (aes_decrypts_what_it_encrypted (count_bytes 16) (count_bytes 32) fips_plaintext
    (proj1 count_bytes_key) (proj1 (proj2 count_bytes_key)) (proj2 (proj2 count_bytes_key)))).
Defined.
