(* ===== verification/AesModes.v ===== *)
(** * AES in its modes: GCM and XTS, of [src/src/kernel/crypto.rs]

    GCM with its field multiplication, counter and hash, and the disk mode XTS
    with its tweak.  The theorems relate the byte loops to the operations on
    128-bit numbers of NIST SP 800-38D, and show that each mode's decryption
    gives back what its encryption took. *)

From stdpp Require Import base tactics decidable numbers list.
From Stdlib Require Import ZArith Lia Bool.
From S2P Require Import Prelude Bytes Aes.

(** ** The field of GHASH *)

(** [v >>= 1], big-endian: the bytes from the last down to the second take a
    bit from the byte before them. *)
Definition shift_right_bytes (v : bytes) : bytes :=
  let v := fold_left
    (λ v j, <[j := Z.lor (Z.shiftr (byte v j) 1) (wrap8 (Z.shiftl (byte v (j - 1)) 7))]> v)
    (rev (seq 1 15)) v in
  <[0%nat := Z.shiftr (byte v 0) 1]> v.

(** The rounds of the inner loop: the sum, the shifted factor and the bits of
    the byte that are left. *)
Fixpoint gf128_bits (n : nat) (xi : Z) (zv : bytes * bytes) : bytes * bytes :=
  match n with
  | O => zv
  | S n =>
      let '(z, v) := zv in
      let z := if bool_decide (Z.land xi 128 ≠ 0) then xor_into z v else z in
      let lsb := Z.land (byte v 15) 1 in
      let v := shift_right_bytes v in
      let v := if bool_decide (lsb ≠ 0) then <[0%nat := Z.lxor (byte v 0) 225]> v else v in
      gf128_bits n (wrap8 (Z.shiftl xi 1)) (z, v)
  end.

Definition gf128_mul (x y : bytes) : bytes :=
  (fold_left (λ zv xi, gf128_bits 8 xi zv) x (replicate 16 0, y)).1.

(** ** GCM *)

(** [for i in (12..16).rev()] with its [break]. *)
Fixpoint ctr_inc_loop (js : list nat) (counter : bytes) : bytes :=
  match js with
  | [] => counter
  | i :: js =>
      let counter := <[i := wrap8 (byte counter i + 1)]> counter in
      if bool_decide (byte counter i ≠ 0) then counter else ctr_inc_loop js counter
  end.

Definition gcm_ctr_inc (counter : bytes) : bytes := ctr_inc_loop (rev (seq 12 4)) counter.

Definition ghash (h data : bytes) : bytes :=
  fold_left (λ y chunk, gf128_mul (xor_into y chunk) h) (chunks 16 data) (replicate 16 0).

Definition gcm_ghash_input (aad ciphertext : bytes) : bytes :=
  aad ++ pad16 aad ++ ciphertext ++ pad16 ciphertext ++
  to_be 8 (wrap64 (Z.of_nat (length aad) * 8)) ++
  to_be 8 (wrap64 (Z.of_nat (length ciphertext) * 8)).

Definition gcm_ghash (h aad ciphertext : bytes) : bytes := ghash h (gcm_ghash_input aad ciphertext).

(** [J0], the nonce with a one after it. *)
Definition gcm_j0 (nonce : bytes) : bytes := nonce ++ [0; 0; 0; 1].

(** The counter mode both directions run, from [J0 + 1]. *)
Definition gcm_ctr (key nonce data : bytes) : bytes :=
  xor_stream gcm_ctr_inc (aes128_encrypt_block key) (gcm_ctr_inc (gcm_j0 nonce)) (chunks 16 data).

Definition gcm_tag (key nonce aad ciphertext : bytes) : bytes :=
  let h := aes128_encrypt_block key (replicate 16 0) in
  xor_into (gcm_ghash h aad ciphertext) (aes128_encrypt_block key (gcm_j0 nonce)).

Definition aes128_gcm_encrypt (key nonce aad plaintext : bytes) : bytes * bytes :=
  let ciphertext := gcm_ctr key nonce plaintext in
  (ciphertext, gcm_tag key nonce aad ciphertext).

Definition aes128_gcm_decrypt (key nonce aad ciphertext tag : bytes) : result bytes :=
  let computed_tag := gcm_tag key nonce aad ciphertext in
  if negb (xor_diff computed_tag tag =? 0) then Err InvalidCredential
  else Ok (gcm_ctr key nonce ciphertext).

(** ** XTS *)

(** The [while i < 15] loop, which takes the byte after. *)
Definition xts_mul_alpha (tweak : bytes) : bytes :=
  let carry := Z.shiftr (byte tweak 0) 7 in
  let t := fold_left
    (λ t i, <[i := Z.lor (wrap8 (Z.shiftl (byte t i) 1)) (Z.shiftr (byte t (i + 1)) 7)]> t)
    (seq 0 15) tweak in
  let t := <[15%nat := wrap8 (Z.shiftl (byte t 15) 1)]> t in
  if carry =? 1 then <[15%nat := Z.lxor (byte t 15) 135]> t else t.

(** The block loop of both directions, [cipher] the block function under the
    data key; a block shorter than sixteen bytes panics. *)
Fixpoint xts_blocks (cipher : bytes → bytes) (tweak : bytes) (blocks : list bytes) : outcome bytes :=
  match blocks with
  | [] => Ret []
  | c :: blocks =>
      if decide (length c = 16%nat) then
        let c := xor_into (cipher (xor_into c tweak)) tweak in
        rest ← xts_blocks cipher (xts_mul_alpha tweak) blocks;
        Ret (c ++ rest)
      else Panic
  end.

Definition xts_tweak (key : bytes) (sector_id : Z) : bytes :=
  aes256_encrypt_block (slice key 32 64) (to_le 8 sector_id ++ replicate 8 0).

Definition aes_xts_encrypt (key : bytes) (sector_id : Z) (data : bytes) : outcome bytes :=
  xts_blocks (aes256_encrypt_block (slice key 0 32)) (xts_tweak key sector_id) (chunks 16 data).

Definition aes_xts_decrypt (key : bytes) (sector_id : Z) (data : bytes) : outcome bytes :=
  xts_blocks (aes256_decrypt_block (slice key 0 32)) (xts_tweak key sector_id) (chunks 16 data).

(** ** The reference: NIST SP 800-38D, section 6 *)

(** The polynomial's constant [R = 11100001 || 0^120]. *)
Definition nist_R : Z := Z.shiftl 225 120.

Definition nist_shift (v : Z) : Z :=
  if Z.odd v then Z.lxor (Z.shiftr v 1) nist_R else Z.shiftr v 1.

Definition nist_step (zv : Z * Z) (x : bool) : Z * Z :=
  (if x then Z.lxor zv.1 zv.2 else zv.1, nist_shift zv.2).

(** The bits of a block, the leftmost first. *)
Definition nist_bits (n : nat) (x : Z) : list bool :=
  map (λ i, Z.testbit x (Z.of_nat (n - 1 - i))) (seq 0 n).

Definition nist_mul (x y : Z) : Z := (fold_left nist_step (nist_bits 128 x) (0, y)).1.

(** [inc_32]: the number in the last 32 bits incremented, the rest kept. *)
Definition nist_inc32 (x : Z) : Z := x - x mod 2 ^ 32 + (x + 1) mod 2 ^ 32.

(** SP 800-38D test case 2: the zero key and nonce, a zero block. *)
Example gcm_vector :
  aes128_gcm_encrypt (replicate 16 0) (replicate 12 0) [] (replicate 16 0) =
  ([3; 136; 218; 206; 96; 182; 163; 146; 243; 40; 194; 185; 113; 178; 254; 120],
   [171; 110; 71; 212; 44; 236; 19; 189; 245; 58; 103; 178; 18; 87; 189; 223]).
Proof. vm_compute. reflexivity. Qed.

(** ** Shifting bytes is shifting the number *)

(** The loop's bytes from the front, each with the byte before it. *)
Fixpoint shr_bytes (prev : Z) (l : bytes) : bytes :=
  match l with
  | [] => []
  | b :: l => Z.lor (Z.shiftr b 1) (wrap8 (Z.shiftl prev 7)) :: shr_bytes b l
  end.

Lemma shift_right_shr v : length v = 16%nat → shift_right_bytes v = shr_bytes 0 v.
Proof.
  intros Hv. sixteen v. cbn -[Z.lor Z.shiftr Z.shiftl wrap8].
  change (wrap8 (Z.shiftl 0 7)) with 0. rewrite Z.lor_0_r. reflexivity.
Qed.

Lemma shr_byte b p : is_byte b → is_byte p →
  Z.lor (Z.shiftr b 1) (wrap8 (Z.shiftl p 7)) = p mod 2 * 128 + b / 2.
Proof.
  intros Hb Hp.
  assert (E : wrap8 (Z.shiftl p 7) = p mod 2 * 128).
  { unfold wrap8. rewrite Z.shiftl_mul_pow2 by lia. change (2 ^ 8) with (2 * 2 ^ 7).
    by rewrite Z.mul_mod_distr_r by lia. }
  rewrite E. pose proof (Z.mod_pos_bound p 2 ltac:(lia)).
  rewrite Z.shiftr_div_pow2 by lia. change (2 ^ 1) with 2.
  all_bytes (λ b, Z.lor (b / 2) 128 =? 128 + b / 2)%Z.
  assert (p mod 2 = 0 ∨ p mod 2 = 1) as [->| ->] by lia.
  - by rewrite Z.lor_0_r.
  - apply Z.eqb_eq. by apply H0.
Qed.

Lemma shr_bytes_ok p l : is_byte p → is_bytes l →
  length (shr_bytes p l) = length l ∧ is_bytes (shr_bytes p l) ∧
  from_be (shr_bytes p l) = (p mod 2 * 256 ^ Z.of_nat (length l) + from_be l) / 2.
Proof.
  intros Hp Hl. revert p Hp. induction Hl as [|b l Hb Hl IH]; intros p Hp.
  - split; [done|]. split; [constructor|]. pose proof (Z.mod_pos_bound p 2 ltac:(lia)).
    cbn. symmetry. apply Z.div_small. lia.
  - destruct (IH b Hb) as (IHl & IHb & IHn). cbn [shr_bytes length].
    rewrite (shr_byte b p Hb Hp).
    pose proof (Z.mod_pos_bound p 2 ltac:(lia)). unfold is_byte in Hb.
    pose proof (Z.div_mod b 2 ltac:(lia)). pose proof (Z.mod_pos_bound b 2 ltac:(lia)).
    split; [by rewrite IHl|]. split.
    + apply Forall_cons_2; [|done]. unfold is_byte. lia.
    + rewrite !from_be_cons, IHl, IHn, Nat2Z.inj_succ, Z.pow_succ_r by lia.
      set (P := 256 ^ Z.of_nat (length l)). rewrite <- Z.div_add_l by lia. f_equal.
      rewrite (Z.div_mod b 2) at 3 by lia. ring.
Qed.

Lemma shift_right_ok v : is_block v →
  is_block (shift_right_bytes v) ∧ from_be (shift_right_bytes v) = Z.shiftr (from_be v) 1.
Proof.
  intros [Hl Hv]. destruct (shr_bytes_ok 0 v ltac:(unfold is_byte; lia) Hv) as (L & B & E).
  rewrite shift_right_shr by done. split; [split; [by rewrite L|done]|].
  rewrite E, Z.shiftr_div_pow2 by lia. done.
Qed.

Lemma odd_last v : length v = 16%nat → is_bytes v → Z.odd (byte v 15) = Z.odd (from_be v).
Proof.
  intros Hl Hv. sixteen v. unfold from_be. cbn -[Z.mul Z.add Z.odd].
  rewrite Z.odd_add, Z.odd_mul. by rewrite xorb_false_r.
Qed.

Lemma reduce_first v : is_block v →
  is_block (<[0%nat := Z.lxor (byte v 0) 225]> v) ∧
  from_be (<[0%nat := Z.lxor (byte v 0) 225]> v) = Z.lxor (from_be v) nist_R.
Proof.
  intros [Hl Hv].
  assert (E : <[0%nat := Z.lxor (byte v 0) 225]> v = xor_into v (225 :: replicate 15 0)).
  { clear Hv. sixteen v. cbn -[Z.lxor]. by rewrite !Z.lxor_0_r. }
  rewrite E. assert (B : is_bytes (225 :: replicate 15 0)) by by apply (bool_decide_unpack _).
  split; [split; [by rewrite length_xor_into|by apply xor_into_bytes]|].
  by rewrite from_be_lxor.
Qed.

(** One round of the inner loop is one step of the reference. *)
Definition same_state (zv : bytes * bytes) (ZV : Z * Z) : Prop :=
  is_block zv.1 ∧ is_block zv.2 ∧ ZV = (from_be zv.1, from_be zv.2).

Lemma gf128_bits_nist n xi zv ZV :
  (n ≤ 8)%nat → is_byte xi → same_state zv ZV →
  same_state (gf128_bits n xi zv)
    (fold_left nist_step (map (λ i, Z.testbit xi (7 - Z.of_nat i)) (seq 0 n)) ZV).
Proof.
  revert xi zv ZV. induction n as [|n IH]; intros xi [z v] ZV Hn Hx Hs; [done|].
  destruct Hs as ([Lz Bz] & Hv & ->). cbn [fst snd] in *.
  cbn [gf128_bits seq map fold_left]. cbv zeta. rewrite <- seq_shift, map_map.
  replace (map _ (seq 0 n)) with
    (map (λ i, Z.testbit (wrap8 (Z.shiftl xi 1)) (7 - Z.of_nat i)) (seq 0 n)).
  2:{ apply map_ext_in. intros i Hi. apply in_seq in Hi. rewrite wrap8_land, Z.land_spec.
      rewrite (Z.ones_spec_low 8) by lia. rewrite andb_true_r, Z.shiftl_spec by lia. f_equal. lia. }
  apply IH; [lia|apply mod256_byte|].
  rewrite land_1, land_128. destruct Hv as [Lv Bv]. rewrite (odd_last v Lv Bv).
  destruct (shift_right_ok v (conj Lv Bv)) as [Hr Er].
  destruct (reduce_first _ Hr) as [Hf Ef]. unfold same_state, nist_step, nist_shift. cbn [fst snd].
  split; [|split].
  - destruct (Z.testbit xi 7); [|done]. split; [by rewrite length_xor_into|by apply xor_into_bytes].
  - by destruct (Z.odd (from_be v)).
  - f_equal.
    + replace (7 - Z.of_nat 0) with 7 by lia. destruct (Z.testbit xi 7); [|done].
      symmetry. apply from_be_lxor; [congruence|done|done].
    + destruct (Z.odd (from_be v)); [by rewrite Ef, Er|by rewrite Er].
Qed.

(** The bits of a number, a byte at a time. *)
Lemma nist_bits_cons b l : is_byte b → is_bytes l →
  nist_bits (8 * S (length l)) (from_be (b :: l)) =
  map (λ i, Z.testbit b (7 - Z.of_nat i)) (seq 0 8) ++ nist_bits (8 * length l) (from_be l).
Proof.
  intros Hb Hl. set (n := length l). unfold nist_bits.
  replace (8 * S n)%nat with (8 + 8 * n)%nat by lia.
  rewrite seq_app, map_app. pose proof (from_be_bound l Hl) as Hx. fold n in Hx.
  rewrite from_be_cons. fold n.
  assert (E : 256 ^ Z.of_nat n = 2 ^ Z.of_nat (8 * n)).
  { change 256 with (2 ^ 8). rewrite <- Z.pow_mul_r by lia. f_equal. lia. }
  rewrite E in *. f_equal.
  - apply map_ext_in. intros i Hi. apply in_seq in Hi.
    replace (Z.of_nat (8 + 8 * n - 1 - i)) with (7 - Z.of_nat i + Z.of_nat (8 * n)) by lia.
    rewrite <- Z.div_pow2_bits by lia. rewrite Z.div_add_l by lia. by rewrite Z.div_small, Z.add_0_r.
  - change (0 + 8)%nat with (8 + 0)%nat. rewrite <- (fmap_add_seq 8 0 (8 * n)).
    unfold fmap, list_fmap. etrans; [apply map_map|].
    apply map_ext_in. intros i Hi. apply in_seq in Hi.
    replace (8 + 8 * n - 1 - (8 + i))%nat with (8 * n - 1 - i)%nat by lia.
    rewrite <- (Z.mod_pow2_bits_low _ (Z.of_nat (8 * n))) by lia.
    rewrite Z.add_comm, Z.mod_add by lia. by rewrite Z.mod_small.
Qed.

Lemma gf128_bytes_nist x zv ZV :
  is_bytes x → same_state zv ZV →
  same_state (fold_left (λ zv xi, gf128_bits 8 xi zv) x zv)
    (fold_left nist_step (nist_bits (8 * length x) (from_be x)) ZV).
Proof.
  intros Hx. revert zv ZV. induction Hx as [|b x Hb Hx IH]; intros zv ZV Hs; [done|].
  cbn [length]. rewrite nist_bits_cons, fold_left_app by done. cbn [fold_left].
  apply IH. by apply gf128_bits_nist.
Qed.

Lemma zero_block : is_block (replicate 16 0).
Proof. by apply (bool_decide_unpack _). Qed.

Lemma gf128_mul_ok x y : is_block x → is_block y →
  is_block (gf128_mul x y) ∧ from_be (gf128_mul x y) = nist_mul (from_be x) (from_be y).
Proof.
  intros [Lx Bx] Hy. unfold gf128_mul, nist_mul.
  destruct (gf128_bytes_nist x (replicate 16 0, y) (0, from_be y)) as (Hz & _ & E); [done| |].
  { split; [apply zero_block|done]. }
  rewrite Lx in E. change (8 * 16)%nat with 128%nat in E. by rewrite E.
Qed.

(** ** The counter *)

Lemma wrap8_succ b : is_byte b → wrap8 (b + 1) = if decide (b = 255) then 0 else b + 1.
Proof.
  unfold is_byte, wrap8. intros Hb. case_decide; [by subst|]. apply Z.mod_small. lia.
Qed.

Lemma nist_inc32_split high low : 0 ≤ low < 2 ^ 32 →
  nist_inc32 (low + 2 ^ 32 * high) =
  (if decide (low + 1 = 2 ^ 32) then 0 else low + 1) + 2 ^ 32 * high.
Proof.
  intros Hl. unfold nist_inc32.
  replace (low + 2 ^ 32 * high + 1) with (low + 1 + high * 2 ^ 32) by lia.
  replace (low + 2 ^ 32 * high) with (low + high * 2 ^ 32) by lia.
  rewrite !Z.mod_add by lia. rewrite (Z.mod_small low) by lia.
  case_decide as E; [rewrite E, Z.mod_same by lia; lia|]. rewrite Z.mod_small by lia. lia.
Qed.

Lemma gcm_ctr_inc_cases high b0 b1 b2 b3 : length high = 12%nat →
  is_byte b0 → is_byte b1 → is_byte b2 → is_byte b3 →
  gcm_ctr_inc (high ++ [b0; b1; b2; b3]) = high ++
    (if decide (b3 = 255) then
       if decide (b2 = 255) then
         if decide (b1 = 255) then [if decide (b0 = 255) then 0 else b0 + 1; 0; 0; 0]
         else [b0; b1 + 1; 0; 0]
       else [b0; b1; b2 + 1; 0]
     else [b0; b1; b2; b3 + 1]).
Proof.
  intros Hl H0 H1 H2 H3. do 12 (destruct high as [|? high]; [done|]). destruct high; [clear Hl|done].
  unfold gcm_ctr_inc. cbn -[wrap8]. rewrite !wrap8_succ by done. unfold is_byte in *.
  repeat case_decide; repeat case_bool_decide; try done; lia.
Qed.

Lemma gcm_ctr_inc_ok c : is_block c →
  is_block (gcm_ctr_inc c) ∧ from_be (gcm_ctr_inc c) = nist_inc32 (from_be c).
Proof.
  intros [Hl Hc]. rewrite <- (take_drop 12 c) in Hc |- *. apply is_bytes_app in Hc as [Hh Ht].
  assert (Lh : length (take 12 c) = 12%nat) by (rewrite length_take; lia).
  assert (Lt : length (drop 12 c) = 4%nat) by (rewrite length_drop; lia).
  set (high := take 12 c) in *. destruct (drop 12 c) as [|b0 [|b1 [|b2 [|b3 [|]]]]]; try done.
  unfold is_bytes in Ht. rewrite !Forall_cons_iff in Ht. destruct Ht as (H0 & H1 & H2 & H3 & _).
  rewrite gcm_ctr_inc_cases by done. unfold from_be. rewrite !rev_app_distr. cbn [rev app].
  set (h := from_le (rev high)).
  assert (E : from_le (b3 :: b2 :: b1 :: b0 :: rev high) =
    (b3 + 256 * b2 + 65536 * b1 + 16777216 * b0) + 2 ^ 32 * h) by (cbn [from_le]; fold h; lia).
  rewrite E, nist_inc32_split by (unfold is_byte in *; lia). clear E.
  unfold is_block, is_byte in *. rewrite length_app, Lh. split; [split|].
  - repeat case_decide; done.
  - apply is_bytes_app. split; [done|].
    repeat case_decide; repeat apply Forall_cons_2; try apply Forall_nil_2; unfold is_byte; lia.
  - repeat case_decide; cbn [rev app from_le]; fold h; lia.
Qed.

(** ** GHASH *)

Lemma ghash_blocks_ok (h : bytes) cs y : is_block h → is_block y → Forall is_block cs →
  let g := fold_left (λ y c, gf128_mul (xor_into y c) h) cs y in
  is_block g ∧
  from_be g = fold_left (λ Y X, nist_mul (Z.lxor Y X) (from_be h)) (map from_be cs) (from_be y).
Proof.
  intros Hh Hy Hcs. revert y Hy. induction Hcs as [|c cs Hc _ IH]; intros y Hy g; [done|].
  subst g. cbn [fold_left map]. destruct Hy as [Ly By], Hc as [Lc Bc].
  assert (Hx : is_block (xor_into y c)).
  { split; [by rewrite length_xor_into|by apply xor_into_bytes]. }
  destruct (gf128_mul_ok _ h Hx Hh) as [Hm Em]. destruct (IH _ Hm) as [Hg Eg].
  split; [done|]. rewrite Eg, Em, from_be_lxor; [done|congruence|done|done].
Qed.

Lemma chunks_blocks q l :
  length l = (q * 16)%nat → is_bytes l → Forall is_block (chunks 16 l).
Proof.
  revert l. induction q as [|q IH]; intros l Hl Hb; [destruct l; [constructor|done]|].
  rewrite chunks_cons by (lia || by destruct l). apply Forall_cons_2.
  - split; [rewrite length_take; lia|by apply Forall_take].
  - apply IH; [rewrite length_drop; lia|by apply Forall_drop].
Qed.

(** GHASH over the blocks of [data]. *)
Definition nist_ghash (H : Z) (data : bytes) : Z :=
  fold_left (λ Y X, nist_mul (Z.lxor Y X) H) (map from_be (chunks 16 data)) 0.

Lemma ghash_ok q h data : length data = (q * 16)%nat → is_bytes data → is_block h →
  is_block (ghash h data) ∧ from_be (ghash h data) = nist_ghash (from_be h) data.
Proof.
  intros Hl Hb Hh.
  apply (ghash_blocks_ok h (chunks 16 data) (replicate 16 0)); [done|apply zero_block|].
  by apply (chunks_blocks q).
Qed.

Lemma pad16_multiple l : ∃ q, length (l ++ pad16 l) = (q * 16)%nat.
Proof.
  unfold pad16. rewrite length_app, length_replicate.
  pose proof (Nat.div_mod (length l) 16 ltac:(lia)) as E.
  pose proof (Nat.mod_upper_bound (length l) 16 ltac:(lia)).
  set (q := (length l / 16)%nat) in *. set (r := (length l mod 16)%nat) in *. clearbody q r.
  destruct (decide (r = 0%nat)) as [Er|Er].
  - exists q. rewrite Er. change ((16 - 0) mod 16)%nat with 0%nat. lia.
  - exists (S q). rewrite Nat.mod_small by lia. lia.
Qed.

Lemma gcm_ghash_input_whole aad ct : ∃ q, length (gcm_ghash_input aad ct) = (q * 16)%nat.
Proof.
  unfold gcm_ghash_input. destruct (pad16_multiple aad) as [q1 E1], (pad16_multiple ct) as [q2 E2].
  exists (q1 + q2 + 1)%nat. rewrite length_app in E1, E2.
  rewrite !length_app, !length_to_be. lia.
Qed.

Lemma gcm_ghash_input_bytes aad ct : is_bytes aad → is_bytes ct → is_bytes (gcm_ghash_input aad ct).
Proof.
  intros. unfold gcm_ghash_input. rewrite !is_bytes_app. auto 8 using pad16_bytes, to_be_bytes.
Qed.

Lemma gcm_j0_block nonce : length nonce = 12%nat → is_bytes nonce → is_block (gcm_j0 nonce).
Proof.
  intros Hl Hb. split; [unfold gcm_j0; rewrite length_app; simpl; lia|].
  apply is_bytes_app. split; [done|]. by apply (bool_decide_unpack _).
Qed.

Lemma gcm_tag_ok key nonce aad ct :
  is_block key → length nonce = 12%nat → is_bytes nonce → is_bytes aad → is_bytes ct →
  is_block (gcm_tag key nonce aad ct).
Proof.
  intros Hk Ln Bn Ba Bc. unfold gcm_tag. cbv zeta.
  destruct (gcm_ghash_input_whole aad ct) as [q Hq].
  destruct (ghash_ok q (aes128_encrypt_block key (replicate 16 0)) (gcm_ghash_input aad ct) Hq
    (gcm_ghash_input_bytes aad ct Ba Bc)) as [[Lg Bg] _].
  { apply aes128_block; [done|apply zero_block]. }
  destruct (aes128_block key _ Hk (gcm_j0_block nonce Ln Bn)) as [[_ Bj] _].
  split; [by rewrite length_xor_into|by apply xor_into_bytes].
Qed.

(** ** Properties of GCM *)

(** The byte loops of GCM compute the operations of SP 800-38D on 128-bit
    numbers: the product in GF(2^128), the 32-bit increment of the counter, and
    the hash of the padded associated data, ciphertext and lengths. *)
Theorem gcm_primitives_are_nist (x y h aad ciphertext : bytes)
    (Hx : is_block x) (Hy : is_block y) (Hh : is_block h)
    (Ha : is_bytes aad) (Hc : is_bytes ciphertext) :
  from_be (gf128_mul x y) = nist_mul (from_be x) (from_be y) ∧
  from_be (gcm_ctr_inc x) = nist_inc32 (from_be x) ∧
  from_be (gcm_ghash h aad ciphertext) =
    nist_ghash (from_be h) (gcm_ghash_input aad ciphertext) ∧
  is_block (gcm_ghash h aad ciphertext).
Proof.
  split; [by apply gf128_mul_ok|]. split; [by apply gcm_ctr_inc_ok|].
  destruct (gcm_ghash_input_whole aad ciphertext) as [q Hq].
  destruct (ghash_ok q h _ Hq (gcm_ghash_input_bytes aad ciphertext Ha Hc) Hh). done.
Qed.

Lemma gcm_blocks : is_block (replicate 16 255) ∧ is_bytes [1; 2] ∧ is_bytes [3].
Proof. by apply (bool_decide_unpack _). Qed.

Lemma gcm_primitives_are_nist_witness :
  from_be (gcm_ctr_inc (replicate 16 255)) = nist_inc32 (from_be (replicate 16 255)).
Proof.
  destruct gcm_blocks as (H & H1 & H2).
  exact (proj1 (proj2 (gcm_primitives_are_nist _ _ _ _ _ H H H H1 H2))).
Defined.

(** AES-128-GCM opens what it sealed and refuses every other tag.  For every
    key, nonce, associated data and plaintext the ciphertext has the plaintext's
    length and the tag sixteen bytes, opening them gives the plaintext back, and
    opening any ciphertext with sixteen tag bytes that are not the ones computed
    over it is refused with [InvalidCredential]. *)
Theorem gcm_opens_what_it_sealed (key nonce aad plaintext : bytes)
    (Hk : is_block key) (Ln : length nonce = 12%nat) (Hn : is_bytes nonce)
    (Ha : is_bytes aad) (Hp : is_bytes plaintext) :
  let '(ciphertext, tag) := aes128_gcm_encrypt key nonce aad plaintext in
  length ciphertext = length plaintext ∧ length tag = 16%nat ∧
  aes128_gcm_decrypt key nonce aad ciphertext tag = Ok plaintext ∧
  (∀ ct t, is_bytes ct → length t = 16%nat → t ≠ gcm_tag key nonce aad ct →
     aes128_gcm_decrypt key nonce aad ct t = Err InvalidCredential).
Proof.
  assert (Bc : is_bytes (gcm_ctr key nonce plaintext)).
  { apply (xor_stream_bytes _ _ 16 ltac:(lia) is_block); [|by apply gcm_ctr_inc_ok, gcm_j0_block|done].
    intros c Hc. split; [by apply aes128_block|by apply gcm_ctr_inc_ok]. }
  unfold aes128_gcm_encrypt, aes128_gcm_decrypt. cbv zeta.
  destruct (gcm_tag_ok key nonce aad _ Hk Ln Hn Ha Bc) as [Lt _].
  split; [apply length_xor_stream; lia|]. split; [done|]. split.
  - rewrite (proj2 (xor_diff_zero _ _ eq_refl)) by done. cbn [Z.eqb negb].
    f_equal. apply xor_stream_involutive. lia.
  - intros ct t Hct Hl Hne. destruct (gcm_tag_ok key nonce aad ct Hk Ln Hn Ha Hct) as [Lt' _].
    destruct (Z.eqb_spec (xor_diff (gcm_tag key nonce aad ct) t) 0) as [D|D]; [|done].
    apply xor_diff_zero in D; [|congruence]. congruence.
Qed.

Lemma gcm_opens_what_it_sealed_witness :
  let '(ciphertext, tag) := aes128_gcm_encrypt (replicate 16 255) (replicate 12 1) [1; 2] [3] in
  aes128_gcm_decrypt (replicate 16 255) (replicate 12 1) [1; 2] ciphertext tag = Ok [3].
Proof.
  destruct gcm_blocks as (H & H1 & H2).
  assert (Hn : is_bytes (replicate 12 1)) by by apply (bool_decide_unpack _).
  exact (proj1 (proj2 (proj2 (gcm_opens_what_it_sealed _ (replicate 12 1) _ _ H eq_refl Hn H1 H2)))).
Defined.

(** ** XTS *)

Lemma shiftr_byte b k : 0 ≤ k → is_byte b → is_byte (Z.shiftr b k).
Proof.
  intros Hk [H0 H1]. rewrite Z.shiftr_div_pow2 by done. split; [by apply Z.div_pos; [|apply Z.pow_pos_nonneg]|].
  apply Z.le_lt_trans with b; [|done]. apply Z.div_le_upper_bound; [by apply Z.pow_pos_nonneg|].
  assert (1 ≤ 2 ^ k) by (pose proof (Z.pow_pos_nonneg 2 k); lia). nia.
Qed.

Lemma is_block_insert s i b : is_block s → is_byte b → is_block (<[i := b]> s).
Proof. intros [Hl Hs] Hb. split; [by rewrite length_insert|by apply Forall_insert]. Qed.

Lemma xts_mul_alpha_block t : is_block t → is_block (xts_mul_alpha t).
Proof.
  intros Ht. unfold xts_mul_alpha. cbv zeta. set (t1 := fold_left _ _ _).
  assert (H1 : is_block t1).
  { apply (fold_left_preserves is_block (λ _, True)); [|done|by apply Forall_true].
    intros s i Hs _. apply is_block_insert; [done|].
    apply lor_byte; [apply mod256_byte|]. apply shiftr_byte; [lia|]. apply byte_bound, Hs. }
  set (t2 := <[15%nat := _]> t1).
  assert (H2 : is_block t2) by (apply is_block_insert; [done|apply mod256_byte]).
  destruct (_ =? 1); [|done]. apply is_block_insert; [done|].
  apply lxor_byte; [apply byte_bound, H2|]. unfold is_byte. lia.
Qed.

Section XtsBlocks.
Context (enc dec : bytes → bytes).
Context (Henc : ∀ s, is_block s → is_block (enc s)) (Hdec : ∀ s, is_block s → dec (enc s) = s).

Lemma xts_blocks_undone q tweak l :
  is_block tweak → length l = (q * 16)%nat → is_bytes l →
  ∃ ct, xts_blocks enc tweak (chunks 16 l) = Ret ct ∧ length ct = (q * 16)%nat ∧ is_bytes ct ∧
    xts_blocks dec tweak (chunks 16 ct) = Ret l.
Proof.
  revert tweak l. induction q as [|q IH]; intros tweak l Ht Hl Hb.
  { destruct l; [|done]. by exists []. }
  destruct (IH (xts_mul_alpha tweak) (drop 16 l)) as (rest & Er & Lr & Br & Dr).
  { by apply xts_mul_alpha_block. } { rewrite length_drop. lia. } { by apply Forall_drop. }
  assert (Lc : length (take 16 l) = 16%nat) by (rewrite length_take; lia).
  assert (Bc : is_bytes (take 16 l)) by by apply Forall_take.
  destruct Ht as [Lt Bt].
  assert (Hx : is_block (xor_into (take 16 l) tweak)).
  { split; [by rewrite length_xor_into|by apply xor_into_bytes]. }
  set (c := xor_into (enc (xor_into (take 16 l) tweak)) tweak).
  assert (Lc' : length c = 16%nat) by (unfold c; rewrite length_xor_into; by apply Henc).
  exists (c ++ rest). rewrite chunks_cons by (lia || by destruct l).
  rewrite (chunks_app 16 c rest); [|lia|by destruct c|by left]. cbn [xts_blocks].
  rewrite decide_True by done. rewrite decide_True by done. rewrite Er, Dr. cbn [mbind outcome_bind].
  split; [done|]. split; [rewrite length_app; lia|]. split.
  { apply is_bytes_app. split; [|done]. apply xor_into_bytes; [by apply Henc|done]. }
  unfold c. rewrite xor_into_involutive, Hdec, xor_into_involutive by done. by rewrite take_drop.
Qed.

Lemma xts_blocks_panics cipher tweak l :
  (length l mod 16 ≠ 0)%nat → xts_blocks cipher tweak (chunks 16 l) = Panic.
Proof.
  revert tweak. induction l as [|l Hl IH] using (chunks_ind 16 ltac:(lia)); intros tweak Hm; [done|].
  rewrite chunks_cons by (lia || done). cbn [xts_blocks]. case_decide as Hc; [|done].
  rewrite length_take in Hc. rewrite IH; [done|].
  rewrite length_drop. intros E. apply Hm.
  replace (length l) with (length l - 16 + 1 * 16)%nat by lia. by rewrite Nat.Div0.mod_add.
Qed.
End XtsBlocks.

(** Data of whole blocks is encrypted to as many bytes, and back. *)
Lemma xts_undone key data sector_id :
  length key = 64%nat → is_bytes key → is_bytes data → (length data mod 16 = 0)%nat →
  ∃ ct, aes_xts_encrypt key sector_id data = Ret ct ∧ length ct = length data ∧ is_bytes ct ∧
    aes_xts_decrypt key sector_id ct = Ret data.
Proof.
  intros Lk Hk Hd E.
  assert (Hs : ∀ a, (a + 32 ≤ 64)%nat → is_key256 (slice key a (a + 32))).
  { intros a Ha. split; [rewrite length_slice; lia|by apply slice_bytes]. }
  pose proof (Hs 0%nat ltac:(lia)) as H0. pose proof (Hs 32%nat ltac:(lia)) as H32. cbn in H0, H32.
  assert (Hl : length data = (length data / 16 * 16)%nat).
  { pose proof (Nat.div_mod (length data) 16 ltac:(lia)). lia. }
  destruct (xts_blocks_undone (aes256_encrypt_block (slice key 0 32))
    (aes256_decrypt_block (slice key 0 32))) with (q := (length data / 16)%nat)
    (tweak := xts_tweak key sector_id) (l := data) as (ct & E1 & E2 & E3 & E4); [| | |done|done|].
  - intros s Hb. by apply aes256_block.
  - intros s Hb. by apply aes256_block.
  - apply aes256_block; [done|].
    split; [by rewrite length_app, length_to_le|]. apply is_bytes_app.
    split; [apply to_le_bytes|by apply (bool_decide_unpack _)].
  - exists ct. split; [done|]. split; [congruence|]. by split.
Qed.

(** A sector encrypted in XTS decrypts to itself.  For every 64-byte key and
    sector number, data of whole blocks is encrypted to as many bytes, which
    decrypt to the data; data that is not whole blocks panics in both. *)
Theorem xts_decrypts_what_it_encrypted (key data : bytes) (sector_id : Z)
    (Lk : length key = 64%nat) (Hk : is_bytes key) (Hd : is_bytes data) :
  if decide (length data mod 16 = 0)%nat then
    ∃ ct, aes_xts_encrypt key sector_id data = Ret ct ∧ length ct = length data ∧
      aes_xts_decrypt key sector_id ct = Ret data
  else aes_xts_encrypt key sector_id data = Panic ∧ aes_xts_decrypt key sector_id data = Panic.
Proof.
  case_decide as E; [|split; by apply xts_blocks_panics].
  destruct (xts_undone key data sector_id Lk Hk Hd E) as (ct & E1 & E2 & _ & E3). by exists ct.
Qed.

Lemma xts_decrypts_what_it_encrypted_witness :
  ∃ ct, aes_xts_encrypt (replicate 64 7) 5 (replicate 32 9) = Ret ct ∧ length ct = 32%nat ∧
    aes_xts_decrypt (replicate 64 7) 5 ct = Ret (replicate 32 9).
Proof.
  assert (H : is_bytes (replicate 64 7) ∧ is_bytes (replicate 32 9)) by by apply (bool_decide_unpack _).
  exact (xts_decrypts_what_it_encrypted (replicate 64 7) (replicate 32 9) 5 eq_refl (proj1 H) (proj2 H)).
Defined.

(** ** Whole sectors decrypt *)

Lemma length_set_column f st i : length (set_column f st i) = length st.
Proof. unfold set_column. by rewrite !length_insert. Qed.

Lemma length_fold {B} (f : bytes → B → bytes) l st :
  (∀ st x, length (f st x) = length st) → length (fold_left f l st) = length st.
Proof.
  intros Hf. revert st. induction l as [|x l IH]; intros st; [done|]. cbn [fold_left]. by rewrite IH.
Qed.

Lemma length_copy_bytes st moves : length (copy_bytes st moves) = length st.
Proof. apply length_fold. intros. apply length_insert. Qed.

Lemma length_aes_decrypt rk n st : length (aes_decrypt_with rk n st) = length st.
Proof.
  unfold aes_decrypt_with, aes_inv_final_round, aes_add_round_key, aes_inv_sub_bytes, aes_inv_shift_rows.
  rewrite length_xor_into, length_map, length_copy_bytes, length_fold, length_xor_into; [done|].
  intros s k. unfold aes_inv_round, aes_inv_mix_columns. rewrite length_fold by apply length_set_column.
  unfold aes_add_round_key, aes_inv_sub_bytes, aes_inv_shift_rows.
  by rewrite length_xor_into, length_map, length_copy_bytes.
Qed.

Lemma length_aes256_decrypt key st : length (aes256_decrypt_block key st) = length st.
Proof. unfold aes256_decrypt_block. generalize (aes256_key_expand key). intros. apply length_aes_decrypt. Qed.

Lemma xts_blocks_total cipher tweak l :
  (∀ s, length (cipher s) = length s) → (length l mod 16 = 0)%nat →
  ∃ out, xts_blocks cipher tweak (chunks 16 l) = Ret out ∧ length out = length l.
Proof.
  intros Hc. revert tweak. induction l as [|l Hl IH] using (chunks_ind 16 ltac:(lia)); intros tweak Hm.
  { by exists []. }
  assert (16 ≤ length l)%nat.
  { destruct (decide (length l < 16)%nat); [|lia]. rewrite Nat.mod_small in Hm by done. by destruct l. }
  rewrite chunks_cons by (lia || done). cbn [xts_blocks]. rewrite decide_True by (rewrite length_take; lia).
  destruct (IH (xts_mul_alpha tweak)) as (out & -> & Lo).
  { rewrite length_drop. replace (length l) with (length l - 16 + 1 * 16)%nat in Hm by lia.
    by rewrite Nat.Div0.mod_add in Hm. }
  cbn [mbind outcome_bind]. eexists. split; [done|].
  rewrite length_app, length_xor_into, Hc, length_xor_into, length_take, Lo, length_drop. lia.
Qed.

Lemma xts_decrypt_total key sector_id data : (length data mod 16 = 0)%nat →
  ∃ pt, aes_xts_decrypt key sector_id data = Ret pt ∧ length pt = length data.
Proof. intros. apply xts_blocks_total; [apply length_aes256_decrypt|done]. Qed.
