(* ===== verification/Fe25519.v ===== *)
(** * The field of Curve25519, of [src/src/kernel/crypto.rs]

    Field elements are five limbs of 51 bits in 64-bit words, as in the source;
    [fe_val] is the number they stand for.  The arithmetic keeps the source's
    wrapping 64-bit and 128-bit operations, its carry loop (with fuel, the value
    falls by a multiple of the prime in every round) and its debug assertions
    ([Panic]).  The lemmas show that on tight elements (limbs below [2^51]) every
    operation returns, no wrap-around happens and the result is the operation of
    the integers modulo [2^255 - 19]. *)

From stdpp Require Import base tactics decidable numbers list.
From Stdlib Require Import ZArith Lia Bool.
From S2P Require Import Prelude Bytes.

Definition MASK_51 : Z := Z.shiftl 1 51 - 1.

(** A field element: its limbs, the lowest first. *)
Notation Fe := (list Z) (only parsing).

Definition limb (x : Fe) (i : nat) : Z := default 0 (x !! i).

Definition FE25519_PRIME : Fe := [MASK_51 - 18; MASK_51; MASK_51; MASK_51; MASK_51].
Definition FE25519_ZERO : Fe := [0; 0; 0; 0; 0].
Definition FE25519_ONE : Fe := [1; 0; 0; 0; 0].

(** The number the limbs stand for, and the field's prime. *)
Fixpoint fe_val (x : Fe) : Z :=
  match x with
  | [] => 0
  | l :: x => l + 2 ^ 51 * fe_val x
  end.

Definition p25519 : Z := 2 ^ 255 - 19.

(** ** Carries *)

Definition wrap_at (w x : Z) : Z := x mod 2 ^ w.

(** One step of the forward sweep, on limbs of [w] bits: the high part of limb
    [i] goes to limb [i + 1]. *)
Definition carry_limb (w : Z) (x : Fe) (i : nat) : Fe :=
  let carry := Z.shiftr (limb x i) 51 in
  let x := <[i := Z.land (limb x i) MASK_51]> x in
  <[S i := wrap_at w (limb x (S i) + carry)]> x.

Definition sweep (w : Z) (x : Fe) : Fe := fold_left (carry_limb w) (seq 0 4) x.

(** The carry out of the last limb goes to the first, times nineteen. *)
Definition fold_top (w : Z) (x : Fe) : Fe :=
  let wrap := Z.shiftr (limb x 4) 51 in
  let x := <[4%nat := Z.land (limb x 4) MASK_51]> x in
  <[0%nat := wrap_at w (limb x 0 + wrap_at w (wrap * 19))]> x.

(** The [loop] of [fe25519_carry]. *)
Fixpoint carry_loop (fuel : nat) (x : Fe) : outcome Fe :=
  match fuel with
  | O => NoFuel
  | S fuel =>
      let x := sweep 64 x in
      if Z.shiftr (limb x 4) 51 =? 0 then Ret x else carry_loop fuel (fold_top 64 x)
  end.

Definition fe25519_carry (x : Fe) : outcome Fe :=
  carry_loop (S (Z.to_nat (fe_val x / p25519))) x.

(** ** Subtraction at 64 bits, and the full reduction *)

(** [overflowing_sub] twice: the limb and the borrow out of it. *)
Definition sub_borrow (a b borrow : Z) : Z * Z :=
  let sub1 := wrap64 (a - b) in
  let br1 := a <? b in
  let sub2 := wrap64 (sub1 - borrow) in
  let br2 := sub1 <? borrow in
  (sub2, if br1 || br2 then 1 else 0).

Fixpoint sub_internal_loop (a b : Fe) (borrow : Z) : Fe * Z :=
  match a, b with
  | x :: a, y :: b =>
      let '(sub, borrow) := sub_borrow x y borrow in
      let '(out, borrow) := sub_internal_loop a b borrow in
      (sub :: out, borrow)
  | _, _ => ([], borrow)
  end.

Definition fe25519_sub_internal (a b : Fe) : Fe * bool :=
  let '(out, borrow) := sub_internal_loop a b 0 in
  (out, negb (borrow =? 0)).

Definition fe25519_reduce (x : Fe) : outcome Fe :=
  x ← fe25519_carry x;
  let '(below, borrow) := fe25519_sub_internal x FE25519_PRIME in
  Ret (if negb borrow then below else x).

(** ** Field operations *)

Definition fe25519_add (a b : Fe) : outcome Fe :=
  fe25519_reduce (zip_with wrapping_add a b).

(** A subtraction loop at 51-bit boundaries: the limbs and the last borrow. *)
Fixpoint sub51_loop (a b : Fe) (borrow : Z) : Fe * Z :=
  match a, b with
  | x :: a, y :: b =>
      let diff := x - y - borrow in
      let '(r, borrow) :=
        if diff <? 0 then (wrap64 (diff + 2 ^ 51), 1) else (wrap64 diff, 0) in
      let '(out, borrow) := sub51_loop a b borrow in
      (r :: out, borrow)
  | _, _ => ([], borrow)
  end.

Definition fe25519_sub (a b : Fe) : outcome Fe :=
  let '(result, borrow) := sub51_loop a b 0 in
  if 0 <? borrow then
    let '(b_minus_a, b_borrow) := sub51_loop b a 0 in
    if negb (b_borrow =? 0) then Panic else
    let '(result, p_borrow) := sub51_loop FE25519_PRIME b_minus_a 0 in
    if negb (p_borrow =? 0) then Panic else Ret result
  else Ret result.

(** One partial product, folded into its limb. *)
Definition mul_step (a b : Fe) (acc : list Z) (ij : nat * nat) : list Z :=
  let '(i, j) := ij in
  let prod := limb a i * limb b j in
  let pos := (i + j)%nat in
  if decide (pos < 5)%nat then <[pos := wrap_at 128 (limb acc pos + prod)]> acc
  else <[(pos - 5)%nat := wrap_at 128 (limb acc (pos - 5) + wrap_at 128 (prod * 19))]> acc.

Definition mul_products (a b : Fe) : list Z :=
  fold_left (mul_step a b) (list_prod (seq 0 5) (seq 0 5)) (replicate 5 0).

(** A carry pass over the 128-bit accumulator. *)
Definition mul_pass (acc : list Z) : list Z := fold_top 128 (sweep 128 acc).

Definition fe25519_mul (a b : Fe) : outcome Fe :=
  let acc := mul_products a b in
  let acc := mul_pass (mul_pass (mul_pass acc)) in
  fe25519_reduce (map wrap64 acc).

Definition fe25519_square (a : Fe) : outcome Fe := fe25519_mul a a.

(** [while i >= 0]: the bits of [p - 2] below the highest. *)
Fixpoint inv_loop (n : nat) (a result : Fe) : outcome Fe :=
  match n with
  | O => Ret result
  | S i =>
      result ← fe25519_square result;
      result ← (if negb (i =? 2)%nat && negb (i =? 4)%nat then fe25519_mul result a
                else Ret result);
      inv_loop i a result
  end.

Definition fe25519_inv (a : Fe) : outcome Fe := inv_loop 254 a a.

Definition fe25519_cswap (a b : Fe) (swap : bool) : Fe * Fe :=
  let mask := if swap then unot64 0 else 0 in
  let t := zip_with (λ x y, Z.land mask (Z.lxor x y)) a b in
  (zip_with Z.lxor a t, zip_with Z.lxor b t).

(** ** Bytes *)

Definition shl128 (x k : Z) : Z := wrap_at 128 (Z.shiftl x k).

Definition mask127 : Z := 2 ^ 127 - 1.

Definition fe25519_from_bytes (b : bytes) : Fe :=
  let lo := from_le (slice b 0 16) in
  let hi_raw := from_le (slice b 16 32) in
  let hi := Z.land hi_raw mask127 in
  let out0 := wrap64 (Z.land lo MASK_51) in
  let v1 := Z.lor (Z.shiftr lo 51) (shl128 hi 77) in
  let hi1 := Z.shiftr hi 51 in
  let out1 := wrap64 (Z.land v1 MASK_51) in
  let v2 := Z.lor (Z.shiftr v1 51) (shl128 hi1 77) in
  let hi2 := Z.shiftr hi1 51 in
  let out2 := wrap64 (Z.land v2 MASK_51) in
  let v3 := Z.lor (Z.shiftr v2 51) (shl128 hi2 77) in
  let hi3 := Z.shiftr hi2 51 in
  let out3 := wrap64 (Z.land v3 MASK_51) in
  let v4 := Z.lor (Z.shiftr v3 51) (shl128 hi3 77) in
  [out0; out1; out2; out3; wrap64 (Z.land v4 MASK_51)].

Definition fe25519_to_bytes (t : Fe) : bytes :=
  let total_lo :=
    Z.lor (Z.lor (limb t 0) (shl128 (limb t 1) 51)) (shl128 (limb t 2) 102) in
  let total_hi :=
    Z.lor (Z.lor (Z.shiftr (limb t 2) 26) (shl128 (limb t 3) 25)) (shl128 (limb t 4) (25 + 51)) in
  let hi := Z.land total_hi mask127 in
  to_le 16 total_lo ++ to_le 16 hi.

(** ** Tight elements *)

Definition is_limb (l : Z) : Prop := 0 ≤ l < 2 ^ 51.
Definition tight (x : Fe) : Prop := length x = 5%nat ∧ Forall is_limb x.

#[global] Instance is_limb_dec l : Decision (is_limb l).
Proof. unfold is_limb. apply _. Defined.
#[global] Instance tight_dec x : Decision (tight x).
Proof. unfold tight. apply _. Defined.

Ltac five x :=
  let H := fresh "Hlen" in
  match goal with H' : length x = 5%nat |- _ => rename H' into H end;
  do 5 (destruct x as [|? x]; [discriminate H|]);
  destruct x as [|? x]; [clear H|discriminate H].

(** Five limbs as numbers, and back. *)
Lemma tight_five x :
  tight x ↔ ∃ a b c d e, x = [a; b; c; d; e] ∧
    is_limb a ∧ is_limb b ∧ is_limb c ∧ is_limb d ∧ is_limb e.
Proof.
  split.
  - intros [Hl Hx]. five x. rewrite !Forall_cons_iff in Hx. naive_solver.
  - intros (a & b & c & d & e & -> & Ha & Hb & Hc & Hd & He). split; [done|].
    repeat apply Forall_cons_2; done.
Qed.

Lemma fe_val_five a b c d e :
  fe_val [a; b; c; d; e] = a + 2 ^ 51 * b + 2 ^ 102 * c + 2 ^ 153 * d + 2 ^ 204 * e.
Proof. cbn [fe_val]. ring. Qed.

Lemma tight_bound x : tight x → 0 ≤ fe_val x < 2 ^ 255.
Proof.
  rewrite tight_five. intros (a & b & c & d & e & -> & Ha & Hb & Hc & Hd & He).
  rewrite fe_val_five. unfold is_limb in *. lia.
Qed.

Lemma mask51_mod a : Z.land a MASK_51 = a mod 2 ^ 51.
Proof. change MASK_51 with (Z.ones 51). by apply Z.land_ones. Qed.

Lemma shiftr_div a k : 0 ≤ k → Z.shiftr a k = a / 2 ^ k.
Proof. apply Z.shiftr_div_pow2. Qed.

Lemma wrap_at_small w x : 0 ≤ x < 2 ^ w → wrap_at w x = x.
Proof. apply Z.mod_small. Qed.

(** ** Carries keep the value *)

Lemma carry_step w a b : 64 ≤ w → 0 ≤ a < 2 ^ w → 0 ≤ b < 2 ^ (w - 1) →
  is_limb (Z.land a MASK_51) ∧ 0 ≤ wrap_at w (b + Z.shiftr a 51) < 2 ^ w ∧
  Z.land a MASK_51 + 2 ^ 51 * wrap_at w (b + Z.shiftr a 51) = a + 2 ^ 51 * b.
Proof.
  intros Hw Ha Hb. rewrite mask51_mod, shiftr_div by lia.
  pose proof (Z.div_mod a (2 ^ 51) ltac:(lia)). pose proof (Z.mod_pos_bound a (2 ^ 51) ltac:(lia)).
  assert (E1 : 2 ^ w = 2 * 2 ^ (w - 1)) by (rewrite <- Z.pow_succ_r by lia; f_equal; lia).
  assert (a / 2 ^ 51 ≤ 2 ^ (w - 1)).
  { apply Z.lt_le_incl, Z.div_lt_upper_bound; lia. }
  assert (0 ≤ a / 2 ^ 51) by (apply Z.div_pos; lia).
  rewrite wrap_at_small by lia. unfold is_limb. lia.
Qed.

Lemma sweep_ok w a b c d e :
  64 ≤ w → Forall (λ l, 0 ≤ l < 2 ^ (w - 1)) [a; b; c; d; e] →
  ∃ a' b' c' d' e', sweep w [a; b; c; d; e] = [a'; b'; c'; d'; e'] ∧
    is_limb a' ∧ is_limb b' ∧ is_limb c' ∧ is_limb d' ∧ 0 ≤ e' < 2 ^ w ∧
    fe_val [a'; b'; c'; d'; e'] = fe_val [a; b; c; d; e].
Proof.
  intros Hw H. rewrite !Forall_cons_iff in H. destruct H as (Ha & Hb & Hc & Hd & He & _).
  assert (Ha' : 0 ≤ a < 2 ^ w).
  { assert (2 ^ w = 2 * 2 ^ (w - 1)) by (rewrite <- Z.pow_succ_r by lia; f_equal; lia). lia. }
  destruct (carry_step w a b Hw Ha' Hb) as (La & Hs1 & E1).
  destruct (carry_step w _ c Hw Hs1 Hc) as (Lb & Hs2 & E2).
  destruct (carry_step w _ d Hw Hs2 Hd) as (Lc & Hs3 & E3).
  destruct (carry_step w _ e Hw Hs3 He) as (Ld & Hs4 & E4).
  set (s1 := wrap_at w (b + _)) in *. set (s2 := wrap_at w (c + _)) in *.
  set (s3 := wrap_at w (d + _)) in *. set (s4 := wrap_at w (e + _)) in *.
  exists (Z.land a MASK_51), (Z.land s1 MASK_51), (Z.land s2 MASK_51), (Z.land s3 MASK_51), s4.
  split; [reflexivity|]. do 5 (split; [done|]). rewrite !fe_val_five. lia.
Qed.

Lemma fold_top_ok w a b c d e : 64 ≤ w → is_limb a → 0 ≤ e < 2 ^ w →
  fold_top w [a; b; c; d; e] = [a + 19 * (e / 2 ^ 51); b; c; d; e mod 2 ^ 51].
Proof.
  intros Hw Ha He. unfold fold_top. cbn -[Z.pow Z.land Z.shiftr Z.mul wrap_at].
  rewrite mask51_mod, shiftr_div by lia.
  assert (Eq : 2 ^ w = 2 ^ 51 * (2 ^ 13 * 2 ^ (w - 64))).
  { rewrite <- !Z.pow_add_r by lia. f_equal. lia. }
  assert (1 ≤ 2 ^ (w - 64)) by (pose proof (Z.pow_pos_nonneg 2 (w - 64)); lia).
  assert (e / 2 ^ 51 < 2 ^ 13 * 2 ^ (w - 64)) by (apply Z.div_lt_upper_bound; lia).
  assert (0 ≤ e / 2 ^ 51) by (apply Z.div_pos; lia). unfold is_limb in Ha.
  rewrite (wrap_at_small w (e / 2 ^ 51 * 19)), wrap_at_small by lia.
  by rewrite (Z.mul_comm 19).
Qed.

(** A sweep and a fold take the multiple of the prime that the value holds
    above [2^255]. *)
Lemma pass_ok w a b c d e :
  64 ≤ w → Forall (λ l, 0 ≤ l < 2 ^ (w - 1)) [a; b; c; d; e] →
  let v := fe_val [a; b; c; d; e] in
  (∃ a' b' c' d' e', sweep w [a; b; c; d; e] = [a'; b'; c'; d'; e'] ∧
     fold_top w (sweep w [a; b; c; d; e]) = [a' + 19 * (v / 2 ^ 255); b'; c'; d'; e' mod 2 ^ 51] ∧
     is_limb a' ∧ is_limb b' ∧ is_limb c' ∧ is_limb d' ∧
     0 ≤ e' ∧ e' / 2 ^ 51 = v / 2 ^ 255 ∧ fe_val [a'; b'; c'; d'; e'] = v) ∧
  fe_val (fold_top w (sweep w [a; b; c; d; e])) = v - p25519 * (v / 2 ^ 255).
Proof.
  intros Hw H v. destruct (sweep_ok w a b c d e Hw H) as (a' & b' & c' & d' & e' & -> & La & Lb & Lc & Ld & Le & Ev).
  fold v in Ev. rewrite fold_top_ok by done. rewrite fe_val_five in Ev.
  pose proof (Z.div_mod e' (2 ^ 51) ltac:(lia)) as De.
  pose proof (Z.mod_pos_bound e' (2 ^ 51) ltac:(lia)) as Be. unfold is_limb in *.
  assert (Eq : e' / 2 ^ 51 = v / 2 ^ 255).
  { apply (Z.div_unique v (2 ^ 255) _ (a' + 2 ^ 51 * b' + 2 ^ 102 * c' + 2 ^ 153 * d' + 2 ^ 204 * (e' mod 2 ^ 51)));
      lia. }
  rewrite <- Eq. split.
  - exists a', b', c', d', e'. rewrite fe_val_five. repeat (split; [done || lia|]). done.
  - rewrite fe_val_five. unfold p25519. lia.
Qed.

(** Elements whose limbs are far from wrapping at [w] bits. *)
Definition loose (w : Z) (x : Fe) : Prop := length x = 5%nat ∧ Forall (λ l, 0 ≤ l < 2 ^ (w - 1)) x.

Lemma carry_loop_ok fuel x :
  loose 64 x → fe_val x < Z.of_nat fuel * p25519 →
  ∃ y, carry_loop fuel x = Ret y ∧ tight y ∧ fe_val y mod p25519 = fe_val x mod p25519.
Proof.
  revert x. induction fuel as [|fuel IH]; intros x [Hl Hx] Hf.
  - exfalso. five x. rewrite fe_val_five in Hf. rewrite !Forall_cons_iff in Hx. lia.
  - five x. cbn [carry_loop]. cbv zeta.
    destruct (pass_ok 64 z z0 z1 z2 z3 ltac:(lia) Hx) as
      ((a & b & c & d & e & Es & Ef & La & Lb & Lc & Ld & Le & Eq & Ev) & Ev').
    set (v := fe_val [z; z0; z1; z2; z3]) in *. rewrite Ef in *. rewrite Es.
    change (limb [a; b; c; d; e] 4) with e. rewrite shiftr_div, Eq by lia.
    rewrite !Forall_cons_iff in Hx.
    assert (Bv : 0 ≤ v < 2 ^ 268) by (unfold v; rewrite fe_val_five; lia).
    pose proof (Z.div_pos v (2 ^ 255) ltac:(lia) ltac:(lia)).
    assert (v / 2 ^ 255 < 2 ^ 13) by (apply Z.div_lt_upper_bound; lia).
    pose proof (Z.mod_pos_bound e (2 ^ 51) ltac:(lia)).
    destruct (Z.eqb_spec (v / 2 ^ 255) 0) as [E0|E0].
    + exists [a; b; c; d; e]. split; [done|]. split; [|by rewrite Ev].
      apply tight_five. exists a, b, c, d, e. split_and!; try done. unfold is_limb.
      rewrite E0 in Eq. pose proof (Z.div_mod e (2 ^ 51) ltac:(lia)). lia.
    + unfold is_limb in *. destruct (IH [a + 19 * (v / 2 ^ 255); b; c; d; e mod 2 ^ 51]) as (y & Ey & Ty & My).
      * split; [done|]. repeat apply Forall_cons_2; [lia..|done].
      * rewrite Ev'. nia.
      * exists y. split; [done|]. split; [done|]. rewrite My, Ev'.
        replace (v - p25519 * (v / 2 ^ 255)) with (v + - (v / 2 ^ 255) * p25519) by lia.
        by apply Z.mod_add.
Qed.

Lemma fe25519_carry_ok x : loose 64 x →
  ∃ y, fe25519_carry x = Ret y ∧ tight y ∧ fe_val y mod p25519 = fe_val x mod p25519.
Proof.
  intros Hx. apply carry_loop_ok; [done|].
  assert (0 ≤ fe_val x).
  { destruct Hx as [Hl Hx]. five x. rewrite fe_val_five. rewrite !Forall_cons_iff in Hx. lia. }
  assert (0 < p25519) by done.
  pose proof (Z.div_mod (fe_val x) p25519 ltac:(lia)). pose proof (Z.mod_pos_bound (fe_val x) p25519 ltac:(lia)).
  assert (0 ≤ fe_val x / p25519) by (apply Z.div_pos; lia).
  rewrite Nat2Z.inj_succ, Z2Nat.id by done. lia.
Qed.

(** ** The full reduction *)

Lemma sub_borrow_ok a b borrow : is_limb a → is_limb b → borrow = 0 ∨ borrow = 1 →
  sub_borrow a b borrow =
  if a <? b + borrow then (a - b - borrow + 2 ^ 64, 1) else (a - b - borrow, 0).
Proof.
  unfold is_limb. intros Ha Hb Hbr. unfold sub_borrow. cbv zeta.
  assert (E : wrap64 (a - b) = if a <? b then a - b + 2 ^ 64 else a - b).
  { unfold wrap64. destruct (Z.ltb_spec a b); [|apply Z.mod_small; lia].
    rewrite <- (Z.mod_add _ 1) by lia. rewrite Z.mod_small; lia. }
  rewrite E. destruct (Z.ltb_spec a b), (Z.ltb_spec a (b + borrow)); try lia.
  - cbn [orb]. rewrite wrap64_small by lia. f_equal. lia.
  - assert ((a - b <? borrow) = true) as -> by (apply Z.ltb_lt; lia). cbn [orb].
    f_equal. unfold wrap64. rewrite <- (Z.mod_add _ 1) by lia. rewrite Z.mod_small; lia.
  - assert ((a - b <? borrow) = false) as -> by (apply Z.ltb_ge; lia). cbn [orb].
    f_equal. apply wrap64_small. lia.
Qed.

(** The borrow out of the last limb compares the values. *)
Lemma sub_internal_borrow a b borrow :
  length a = length b → Forall is_limb a → Forall is_limb b → borrow = 0 ∨ borrow = 1 →
  (sub_internal_loop a b borrow).2 = if fe_val a <? fe_val b + borrow then 1 else 0.
Proof.
  revert b borrow. induction a as [|x a IH]; intros [|y b] borrow Hl Ha Hb Hbr; try done.
  - cbn [sub_internal_loop snd fe_val]. by destruct Hbr as [->| ->].
  - apply Forall_cons_iff in Ha as [Hx Ha], Hb as [Hy Hb]. injection Hl as Hl.
    cbn [sub_internal_loop fe_val]. rewrite (sub_borrow_ok x y borrow Hx Hy Hbr).
    set (br := if x <? y + borrow then 1 else 0).
    assert (Hbr' : br = 0 ∨ br = 1) by (unfold br; destruct (_ <? _); auto).
    assert (E : (let '(sub, borrow0) := if x <? y + borrow then (x - y - borrow + 2 ^ 64, 1)
                  else (x - y - borrow, 0) in
        let '(out, borrow1) := sub_internal_loop a b borrow0 in (sub :: out, borrow1)).2
      = (sub_internal_loop a b br).2).
    { unfold br. destruct (_ <? _); by destruct (sub_internal_loop a b _). }
    rewrite E, IH by done. unfold br, is_limb in *.
    destruct (Z.ltb_spec x (y + borrow)); cmp_cases; lia.
Qed.

Lemma prime_tight : tight FE25519_PRIME ∧ fe_val FE25519_PRIME = p25519.
Proof. split; [by apply (bool_decide_unpack _)|reflexivity]. Qed.

Lemma reduce_tight x : tight x →
  let '(below, borrow) := fe25519_sub_internal x FE25519_PRIME in
  tight (if negb borrow then below else x) ∧
  fe_val (if negb borrow then below else x) = fe_val x mod p25519.
Proof.
  intros Hx. pose proof (tight_bound x Hx) as Bx. destruct prime_tight as [[Lp Tp] Ep].
  pose proof (sub_internal_borrow x FE25519_PRIME 0) as Hb. rewrite Ep in Hb.
  unfold fe25519_sub_internal. destruct (sub_internal_loop x FE25519_PRIME 0) as [out br] eqn:Eo.
  cbn [snd] in Hb. destruct Hx as [Hl Ht]. rewrite Hb by (done || auto || congruence). clear Hb.
  rewrite Z.add_0_r. destruct (Z.ltb_spec (fe_val x) p25519) as [Hlt|Hge]; cbn [Z.eqb negb].
  - split; [by split|]. symmetry. apply Z.mod_small. lia.
  - five x. rewrite !Forall_cons_iff in Ht. rewrite fe_val_five in *. unfold p25519, is_limb in *.
    assert (z0 = 2 ^ 51 - 1 ∧ z1 = 2 ^ 51 - 1 ∧ z2 = 2 ^ 51 - 1 ∧ z3 = 2 ^ 51 - 1 ∧ 2 ^ 51 - 19 ≤ z)
      as (-> & -> & -> & -> & Hz) by lia.
    unfold FE25519_PRIME in Eo. cbn [sub_internal_loop] in Eo.
    change MASK_51 with (2 ^ 51 - 1) in Eo.
    rewrite (sub_borrow_ok z) in Eo by (unfold is_limb; lia).
    destruct (Z.ltb_spec z (2 ^ 51 - 1 - 18 + 0)); [lia|].
    assert (E0 : sub_borrow (2 ^ 51 - 1) (2 ^ 51 - 1) 0 = (0, 0)) by reflexivity.
    rewrite !E0 in Eo. injection Eo as <- _. split.
    + apply tight_five. do 5 eexists. split; [reflexivity|]. unfold is_limb. lia.
    + rewrite fe_val_five. apply (Z.mod_unique _ _ 1); lia.
Qed.

(** ** The operations *)

Lemma fe25519_reduce_ok x : loose 64 x →
  ∃ y, fe25519_reduce x = Ret y ∧ tight y ∧ fe_val y = fe_val x mod p25519.
Proof.
  intros Hx. destruct (fe25519_carry_ok x Hx) as (y & Ey & Ty & My).
  unfold fe25519_reduce. rewrite Ey. cbn [mbind outcome_bind].
  pose proof (reduce_tight y Ty) as Hr. destruct (fe25519_sub_internal y FE25519_PRIME) as [below br].
  eexists. split; [reflexivity|]. by rewrite <- My.
Qed.

Lemma fe25519_add_ok a b : tight a → tight b →
  ∃ y, fe25519_add a b = Ret y ∧ tight y ∧ fe_val y = (fe_val a + fe_val b) mod p25519.
Proof.
  rewrite !tight_five. intros (a0 & a1 & a2 & a3 & a4 & -> & Ha) (b0 & b1 & b2 & b3 & b4 & -> & Hb).
  unfold is_limb in *.
  assert (E : zip_with wrapping_add [a0; a1; a2; a3; a4] [b0; b1; b2; b3; b4] =
    [a0 + b0; a1 + b1; a2 + b2; a3 + b3; a4 + b4]).
  { cbn [zip_with]. rewrite !wrapping_add_small by lia. done. }
  unfold fe25519_add. rewrite E.
  destruct (fe25519_reduce_ok [a0 + b0; a1 + b1; a2 + b2; a3 + b3; a4 + b4]) as (y & Ey & Ty & Vy).
  { split; [done|]. repeat apply Forall_cons_2; [lia..|done]. }
  exists y. split; [done|]. split; [done|]. rewrite Vy, !fe_val_five. f_equal. ring.
Qed.

Lemma sub51_ok a b borrow :
  length a = length b → Forall is_limb a → Forall is_limb b → borrow = 0 ∨ borrow = 1 →
  let '(out, br) := sub51_loop a b borrow in
  length out = length a ∧ Forall is_limb out ∧
  br = (if fe_val a <? fe_val b + borrow then 1 else 0) ∧
  fe_val out = fe_val a - fe_val b - borrow + br * 2 ^ (51 * Z.of_nat (length a)).
Proof.
  revert b borrow. induction a as [|x a IH]; intros [|y b] borrow Hl Ha Hb Hbr; try done.
  - cbn. split; [done|]. split; [constructor|]. destruct Hbr as [->| ->]; done.
  - apply Forall_cons_iff in Ha as [Hx Ha], Hb as [Hy Hb]. injection Hl as Hl.
    cbn [sub51_loop fe_val length]. cbv zeta.
    assert (Ex : ∃ r br', (if x - y - borrow <? 0 then (wrap64 (x - y - borrow + 2 ^ 51), 1)
        else (wrap64 (x - y - borrow), 0)) = (r, br') ∧ is_limb r ∧ (br' = 0 ∨ br' = 1) ∧
        br' = (if x <? y + borrow then 1 else 0) ∧ r = x - y - borrow + br' * 2 ^ 51).
    { unfold is_limb in *. destruct (Z.ltb_spec (x - y - borrow) 0), (Z.ltb_spec x (y + borrow)); try lia;
        do 2 eexists; (split; [reflexivity|]); rewrite wrap64_small by lia; split_and!; (lia || auto). }
    destruct Ex as (r & br' & -> & Hr & Hbr' & Ebr & Er).
    specialize (IH b br' Hl Ha Hb Hbr'). destruct (sub51_loop a b br') as [out br].
    destruct IH as (Lo & Fo & Bo & Vo). cbn [length fe_val].
    split; [by rewrite Lo|]. split; [by apply Forall_cons_2|].
    split.
    + rewrite Bo. unfold is_limb in *. destruct (Z.ltb_spec x (y + borrow)); subst br'; cmp_cases; lia.
    + rewrite Vo, Er, Nat2Z.inj_succ.
      replace (51 * Z.succ (Z.of_nat (length a))) with (51 + 51 * Z.of_nat (length a)) by lia.
      rewrite Z.pow_add_r by lia. ring.
Qed.

Lemma fe25519_sub_ok a b : tight a → tight b → fe_val b - fe_val a ≤ p25519 →
  ∃ y, fe25519_sub a b = Ret y ∧ tight y ∧ fe_val y mod p25519 = (fe_val a - fe_val b) mod p25519.
Proof.
  intros Ha Hb Hd. pose proof (tight_bound a Ha). pose proof (tight_bound b Hb).
  destruct Ha as [La Ta], Hb as [Lb Tb], prime_tight as [[Lp Tp] Ep]. unfold fe25519_sub.
  pose proof (sub51_ok a b 0 ltac:(congruence) Ta Tb ltac:(auto)) as Hab.
  destruct (sub51_loop a b 0) as [r br]. destruct Hab as (Lr & Tr & Br & Vr).
  rewrite La in *. change (2 ^ (51 * Z.of_nat 5)) with (2 ^ 255) in *. rewrite Z.add_0_r in Br.
  destruct (Z.ltb_spec (fe_val a) (fe_val b)); rewrite Br; cbn [Z.ltb Z.compare].
  - pose proof (sub51_ok b a 0 ltac:(congruence) Tb Ta ltac:(auto)) as Hba.
    destruct (sub51_loop b a 0) as [r2 br2]. destruct Hba as (Lr2 & Tr2 & Br2 & Vr2).
    rewrite Lb in *. change (2 ^ (51 * Z.of_nat 5)) with (2 ^ 255) in *. rewrite Z.add_0_r in Br2.
    destruct (Z.ltb_spec (fe_val b) (fe_val a)); [lia|]. rewrite Br2 in *. cbn [Z.eqb negb].
    pose proof (sub51_ok FE25519_PRIME r2 0 ltac:(congruence) Tp Tr2 ltac:(auto)) as Hp.
    destruct (sub51_loop FE25519_PRIME r2 0) as [r3 br3]. destruct Hp as (Lr3 & Tr3 & Br3 & Vr3).
    rewrite Ep in *. destruct (Z.ltb_spec p25519 (fe_val r2 + 0)); [lia|]. rewrite Br3 in *. cbn [Z.eqb negb].
    exists r3. split; [done|]. split; [by split|]. rewrite Vr3, Vr2.
    rewrite <- (Z.mod_add (fe_val a - fe_val b) 1) by done. f_equal. lia.
  - exists r. split; [done|]. split; [by split|]. rewrite Vr, Br. f_equal. lia.
Qed.

(** The products, before any carry. *)
Lemma wrap_add_l w x y : wrap_at w (wrap_at w x + y) = wrap_at w (x + y).
Proof. apply Zplus_mod_idemp_l. Qed.

Lemma wrap_add_r w x y : wrap_at w (x + wrap_at w y) = wrap_at w (x + y).
Proof. apply Zplus_mod_idemp_r. Qed.

Lemma limb_mul a b : is_limb a → is_limb b → 0 ≤ a * b < 2 ^ 102.
Proof.
  unfold is_limb. intros Ha Hb. split; [nia|]. change (2 ^ 102) with (2 ^ 51 * 2 ^ 51). nia.
Qed.

(** A limb of the products: five of them, some folded with nineteen. *)
Lemma five_products p q r s t :
  0 ≤ p < 2 ^ 107 → 0 ≤ q < 2 ^ 107 → 0 ≤ r < 2 ^ 107 → 0 ≤ s < 2 ^ 107 → 0 ≤ t < 2 ^ 107 →
  0 ≤ p + q + r + s + t < 2 ^ 110.
Proof. lia. Qed.

Lemma limb_mul_bounds a b : is_limb a → is_limb b →
  0 ≤ a * b < 2 ^ 107 ∧ 0 ≤ a * b * 19 < 2 ^ 107.
Proof. intros Ha Hb. pose proof (limb_mul a b Ha Hb). lia. Qed.

Lemma mul_products_eq a0 a1 a2 a3 a4 b0 b1 b2 b3 b4 :
  Forall is_limb [a0; a1; a2; a3; a4] → Forall is_limb [b0; b1; b2; b3; b4] →
  let c := mul_products [a0; a1; a2; a3; a4] [b0; b1; b2; b3; b4] in
  c = [a0 * b0 + a1 * b4 * 19 + a2 * b3 * 19 + a3 * b2 * 19 + a4 * b1 * 19;
       a0 * b1 + a1 * b0 + a2 * b4 * 19 + a3 * b3 * 19 + a4 * b2 * 19;
       a0 * b2 + a1 * b1 + a2 * b0 + a3 * b4 * 19 + a4 * b3 * 19;
       a0 * b3 + a1 * b2 + a2 * b1 + a3 * b0 + a4 * b4 * 19;
       a0 * b4 + a1 * b3 + a2 * b2 + a3 * b1 + a4 * b0] ∧
  Forall (λ l, 0 ≤ l < 2 ^ 110) c.
Proof.
  rewrite !Forall_cons_iff. intros (A0 & A1 & A2 & A3 & A4 & _) (B0 & B1 & B2 & B3 & B4 & _) c.
  set (c0 := a0 * b0 + _ + _ + _ + _). set (c1 := a0 * b1 + _ + _ + _ + _).
  set (c2 := a0 * b2 + _ + _ + _ + _). set (c3 := a0 * b3 + _ + _ + _ + _).
  set (c4 := a0 * b4 + _ + _ + _ + _).
  assert (Hc : Forall (λ l, 0 ≤ l < 2 ^ 110) [c0; c1; c2; c3; c4]).
  { unfold c0, c1, c2, c3, c4. clear c.
    repeat apply Forall_cons_2; try done; apply five_products; by apply limb_mul_bounds. }
  assert (E : c = [c0; c1; c2; c3; c4]); [|by rewrite E].
  transitivity (map (wrap_at 128) [c0; c1; c2; c3; c4]).
  - unfold c, c0, c1, c2, c3, c4. cbv -[Z.mul Z.add wrap_at].
    rewrite !wrap_add_r, <- !Z.add_assoc, !wrap_add_l, !Z.add_0_l, <- !Z.add_assoc.
    rewrite !wrap_add_l, <- !Z.add_assoc, !wrap_add_l. reflexivity.
  - rewrite !Forall_cons_iff in Hc. cbn [map]. rewrite !wrap_at_small by lia. reflexivity.
Qed.

Lemma mul_products_ok a b : tight a → tight b →
  loose 128 (mul_products a b) ∧ 0 ≤ fe_val (mul_products a b) < 2 ^ 320 ∧
  fe_val (mul_products a b) mod p25519 = (fe_val a * fe_val b) mod p25519.
Proof.
  intros [La Ha] [Lb Hb]. five a. five b.
  destruct (mul_products_eq _ _ _ _ _ _ _ _ _ _ Ha Hb) as [E Hc]. rewrite E in *. split; [|split].
  - split; [done|]. eapply Forall_impl; [exact Hc|]. intros l Hl. cbv beta in *. lia.
  - rewrite fe_val_five. rewrite !Forall_cons_iff in Hc. lia.
  - rewrite !fe_val_five.
    rewrite <- (Z.mod_add _ (z0 * z8 + z1 * z7 + z2 * z6 + z3 * z5 +
      2 ^ 51 * (z1 * z8 + z2 * z7 + z3 * z6) + 2 ^ 102 * (z2 * z8 + z3 * z7) + 2 ^ 153 * (z3 * z8)))
      by done. f_equal. unfold p25519. ring.
Qed.

Lemma mul_pass_ok x : loose 128 x → 0 ≤ fe_val x < 2 ^ 320 →
  let v := fe_val x in
  loose 128 (mul_pass x) ∧ fe_val (mul_pass x) = v mod 2 ^ 255 + 19 * (v / 2 ^ 255) ∧
  fe_val (mul_pass x) mod p25519 = v mod p25519 ∧ (v < 2 ^ 255 → tight (mul_pass x)).
Proof.
  intros [Hl Hx] Hv v0. subst v0. five x. unfold mul_pass.
  destruct (pass_ok 128 z z0 z1 z2 z3 ltac:(lia) Hx) as
    ((a & b & c & d & e & _ & Ef & La & Lb & Lc & Ld & Le & Eq & Ev) & Ev').
  set (v := fe_val [z; z0; z1; z2; z3]) in *. rewrite Ef in *.
  assert (0 ≤ v / 2 ^ 255) by (apply Z.div_pos; lia).
  assert (v / 2 ^ 255 < 2 ^ 65) by (apply Z.div_lt_upper_bound; lia).
  pose proof (Z.mod_pos_bound e (2 ^ 51) ltac:(lia)). pose proof (Z.div_mod v (2 ^ 255) ltac:(lia)).
  unfold is_limb in *. split; [|split; [|split]].
  - split; [done|]. repeat apply Forall_cons_2; [lia..|done].
  - rewrite Ev'. unfold p25519. lia.
  - rewrite Ev'. replace (v - p25519 * (v / 2 ^ 255)) with (v + - (v / 2 ^ 255) * p25519) by lia.
    by apply Z.mod_add.
  - intros Hlt. assert (E0 : v / 2 ^ 255 = 0) by (apply Z.div_small; lia). rewrite E0.
    apply tight_five. do 5 eexists. split; [reflexivity|]. unfold is_limb. lia.
Qed.

Lemma fe25519_mul_ok a b : tight a → tight b →
  ∃ y, fe25519_mul a b = Ret y ∧ tight y ∧ fe_val y = (fe_val a * fe_val b) mod p25519.
Proof.
  intros Ha Hb. destruct (mul_products_ok a b Ha Hb) as (L0 & V0 & M0). unfold fe25519_mul. cbv zeta.
  set (c := mul_products a b) in *. clearbody c.
  destruct (mul_pass_ok c L0 V0) as (L1 & V1 & M1 & _). set (c1 := mul_pass c) in *. clearbody c1.
  pose proof (Z.mod_pos_bound (fe_val c) (2 ^ 255) ltac:(lia)).
  assert (0 ≤ fe_val c / 2 ^ 255) by (apply Z.div_pos; lia).
  assert (fe_val c / 2 ^ 255 < 2 ^ 65) by (apply Z.div_lt_upper_bound; lia).
  destruct (mul_pass_ok c1 L1 ltac:(lia)) as (L2 & V2 & M2 & _). set (c2 := mul_pass c1) in *. clearbody c2.
  assert (V2' : 0 ≤ fe_val c2 < 2 ^ 255).
  { rewrite V2. pose proof (Z.div_mod (fe_val c1) (2 ^ 255) ltac:(lia)).
    pose proof (Z.mod_pos_bound (fe_val c1) (2 ^ 255) ltac:(lia)).
    assert (0 ≤ fe_val c1 / 2 ^ 255) by (apply Z.div_pos; lia).
    assert (fe_val c1 / 2 ^ 255 < 2) by (apply Z.div_lt_upper_bound; lia). lia. }
  destruct (mul_pass_ok c2 L2 ltac:(lia)) as (_ & _ & M3 & T3). set (c3 := mul_pass c2) in *. clearbody c3.
  destruct (T3 ltac:(lia)) as [Ll Tl].
  assert (E : map wrap64 c3 = c3).
  { clear -Tl. induction Tl as [|l x Hl _ IH]; [done|]. cbn [map]. unfold is_limb in Hl.
    rewrite IH, wrap64_small by lia. done. }
  rewrite E. destruct (fe25519_reduce_ok c3) as (y & Ey & Ty & Vy).
  { split; [done|]. eapply Forall_impl; [exact Tl|]. unfold is_limb. intros l Hl. lia. }
  exists y. split; [done|]. split; [done|]. congruence.
Qed.

(** The exponent that the square-and-multiply loop builds. *)
Fixpoint inv_exponent (n : nat) (E : Z) : Z :=
  match n with
  | O => E
  | S i => inv_exponent i (2 * E + (if negb (i =? 2)%nat && negb (i =? 4)%nat then 1 else 0))
  end.

Lemma inv_exponent_254 : inv_exponent 254 1 = p25519 - 2.
Proof. reflexivity. Qed.

Lemma inv_loop_ok n a r E : tight a → tight r → 0 ≤ E →
  fe_val r mod p25519 = fe_val a ^ E mod p25519 →
  ∃ y, inv_loop n a r = Ret y ∧ tight y ∧
    fe_val y mod p25519 = fe_val a ^ inv_exponent n E mod p25519.
Proof.
  intros Ha. revert r E. induction n as [|n IH]; intros r E Hr HE Hv; [by exists r|].
  cbn [inv_loop inv_exponent]. unfold fe25519_square.
  destruct (fe25519_mul_ok r r Hr Hr) as (s & Es & Ts & Vs). rewrite Es. cbn [mbind outcome_bind].
  assert (Hs : fe_val s mod p25519 = fe_val a ^ (2 * E) mod p25519).
  { rewrite Vs, Zmod_mod, Zmult_mod, Hv, <- Zmult_mod, <- Z.pow_add_r by done. f_equal. f_equal. lia. }
  destruct (_ && _).
  - destruct (fe25519_mul_ok s a Ts Ha) as (t & Et & Tt & Vt). rewrite Et. cbn [mbind outcome_bind].
    apply IH; [done|lia|]. rewrite Vt, Zmod_mod, Zmult_mod, Hs, <- Zmult_mod, Z.pow_add_r, Z.pow_1_r by lia.
    done.
  - cbn [mbind outcome_bind]. apply IH; [done|lia|]. by rewrite Z.add_0_r.
Qed.

Lemma fe25519_inv_ok a : tight a →
  ∃ y, fe25519_inv a = Ret y ∧ tight y ∧
    fe_val y mod p25519 = fe_val a ^ (p25519 - 2) mod p25519.
Proof.
  intros Ha. rewrite <- inv_exponent_254. apply inv_loop_ok; [done|done|lia|]. by rewrite Z.pow_1_r.
Qed.

Lemma cswap_limbs (mask : bool) a b : length a = length b → Forall is_limb a → Forall is_limb b →
  fe25519_cswap a b mask = if mask then (b, a) else (a, b).
Proof.
  unfold fe25519_cswap. revert b.
  induction a as [|x a IH]; intros [|y b] Hl Ha Hb; try done; [by destruct mask|].
  apply Forall_cons_iff in Ha as [Hx Ha], Hb as [Hy Hb]. injection Hl as Hl.
  specialize (IH b Hl Ha Hb). cbn [zip_with]. destruct mask; injection IH as E1 E2; rewrite E1, E2.
  - change (unot64 0) with (Z.ones 64). rewrite Z.land_comm, Z.land_ones by lia.
    assert (Hxy : 0 ≤ Z.lxor x y < 2 ^ 64) by (unfold is_limb in *; apply lxor_bound; lia).
    rewrite (Z.mod_small _ _ Hxy). f_equal.
    + by rewrite <- Z.lxor_assoc, Z.lxor_nilpotent, Z.lxor_0_l.
    + by rewrite (Z.lxor_comm x y), <- Z.lxor_assoc, Z.lxor_nilpotent, Z.lxor_0_l.
  - by rewrite !Z.land_0_l, !Z.lxor_0_r.
Qed.

Lemma fe25519_cswap_ok a b swap : tight a → tight b →
  fe25519_cswap a b swap = if swap then (b, a) else (a, b).
Proof. intros [La Ta] [Lb Tb]. apply cswap_limbs; [congruence|done|done]. Qed.

(** ** Bytes *)

Lemma shl128_split x k : 0 ≤ k ≤ 128 → shl128 x k = x mod 2 ^ (128 - k) * 2 ^ k.
Proof.
  intros Hk. unfold shl128, wrap_at. rewrite Z.shiftl_mul_pow2 by lia.
  replace (2 ^ 128) with (2 ^ (128 - k) * 2 ^ k) by (rewrite <- Z.pow_add_r by lia; f_equal; lia).
  by rewrite Z.mul_mod_distr_r by (apply Z.pow_nonzero; lia).
Qed.

(** Taking a limb off a 256-bit number held in two words. *)
Lemma extract_limb v h : 0 ≤ v < 2 ^ 128 → 0 ≤ h →
  let v' := Z.lor (Z.shiftr v 51) (shl128 h 77) in
  let h' := Z.shiftr h 51 in
  0 ≤ v' < 2 ^ 128 ∧ 0 ≤ h' ∧ is_limb (wrap64 (Z.land v MASK_51)) ∧
  v + 2 ^ 128 * h = wrap64 (Z.land v MASK_51) + 2 ^ 51 * (v' + 2 ^ 128 * h').
Proof.
  intros Hv Hh v' h'. unfold v', h'. rewrite shl128_split, mask51_mod, !shiftr_div by lia.
  change (128 - 77) with 51.
  pose proof (Z.div_mod v (2 ^ 51) ltac:(lia)). pose proof (Z.mod_pos_bound v (2 ^ 51) ltac:(lia)).
  pose proof (Z.div_mod h (2 ^ 51) ltac:(lia)). pose proof (Z.mod_pos_bound h (2 ^ 51) ltac:(lia)).
  assert (0 ≤ v / 2 ^ 51) by (apply Z.div_pos; lia).
  assert (v / 2 ^ 51 < 2 ^ 77) by (apply Z.div_lt_upper_bound; lia).
  assert (0 ≤ h / 2 ^ 51) by (apply Z.div_pos; lia).
  rewrite lor_shifted, wrap64_small by lia. unfold is_limb. lia.
Qed.

Lemma fe25519_from_bytes_ok b : length b = 32%nat → is_bytes b →
  tight (fe25519_from_bytes b) ∧ fe_val (fe25519_from_bytes b) = from_le b mod 2 ^ 255.
Proof.
  intros Hl Hb. unfold fe25519_from_bytes. cbv zeta.
  pose proof (from_le_bound _ (slice_bytes b 0 16 Hb)) as Blo.
  pose proof (from_le_bound _ (slice_bytes b 16 32 Hb)) as Bhi.
  rewrite length_slice in Blo, Bhi by lia. change (256 ^ Z.of_nat _) with (2 ^ 128) in Blo, Bhi.
  assert (Eb : from_le b = from_le (slice b 0 16) + 2 ^ 128 * from_le (slice b 16 32)).
  { rewrite (slice_split b 16) at 1 by lia. rewrite from_le_app, length_slice, Hl by lia. done. }
  set (lo := from_le (slice b 0 16)) in *. set (hi := from_le (slice b 16 32)) in *. clearbody lo hi.
  change mask127 with (Z.ones 127). rewrite (Z.land_ones hi 127) by lia.
  pose proof (Z.mod_pos_bound hi (2 ^ 127) ltac:(lia)) as Bh. set (h := hi mod 2 ^ 127) in *.
  assert (En : from_le b mod 2 ^ 255 = lo + 2 ^ 128 * h).
  { symmetry. apply (Z.mod_unique _ _ (hi / 2 ^ 127)); [lia|]. rewrite Eb. unfold h.
    pose proof (Z.div_mod hi (2 ^ 127) ltac:(lia)). lia. }
  rewrite En. clearbody h. clear Eb En.
  destruct (extract_limb lo h ltac:(lia) ltac:(lia)) as (V1 & H1 & L0 & E0).
  set (v1 := Z.lor (Z.shiftr lo 51) _) in *. set (h1 := Z.shiftr h 51) in *. clearbody v1 h1.
  destruct (extract_limb v1 h1 V1 H1) as (V2 & H2 & L1 & E1).
  set (v2 := Z.lor (Z.shiftr v1 51) _) in *. set (h2 := Z.shiftr h1 51) in *. clearbody v2 h2.
  destruct (extract_limb v2 h2 V2 H2) as (V3 & H3 & L2 & E2).
  set (v3 := Z.lor (Z.shiftr v2 51) _) in *. set (h3 := Z.shiftr h2 51) in *. clearbody v3 h3.
  destruct (extract_limb v3 h3 V3 H3) as (V4 & H4 & L3 & E3).
  set (v4 := Z.lor (Z.shiftr v3 51) _) in *. set (h4 := Z.shiftr h3 51) in *. clearbody v4 h4.
  assert (E4 : wrap64 (Z.land v4 MASK_51) = v4 ∧ h4 = 0).
  { unfold is_limb in *. rewrite mask51_mod. rewrite (Z.mod_small v4), wrap64_small by lia. lia. }
  destruct E4 as [-> ->]. split.
  - apply tight_five. do 5 eexists. split; [reflexivity|]. unfold is_limb in *. lia.
  - rewrite fe_val_five. lia.
Qed.

Lemma fe25519_to_bytes_ok t : tight t → fe25519_to_bytes t = to_le 32 (fe_val t).
Proof.
  rewrite tight_five. intros (t0 & t1 & t2 & t3 & t4 & -> & H0 & H1 & H2 & H3 & H4).
  unfold fe25519_to_bytes, is_limb in *. cbv zeta.
  change (limb _ 0) with t0. change (limb _ 1) with t1. change (limb _ 2) with t2.
  change (limb _ 3) with t3. change (limb _ 4) with t4.
  rewrite !shl128_split, shiftr_div by lia. change (128 - 51) with 77. change (128 - 102) with 26.
  change (128 - 25) with 103. change (25 + 51) with 76. change (128 - 76) with 52.
  rewrite (Z.mod_small t1), (Z.mod_small t3), (Z.mod_small t4) by lia.
  pose proof (Z.div_mod t2 (2 ^ 26) ltac:(lia)). pose proof (Z.mod_pos_bound t2 (2 ^ 26) ltac:(lia)).
  assert (0 ≤ t2 / 2 ^ 26) by (apply Z.div_pos; lia).
  assert (t2 / 2 ^ 26 < 2 ^ 25) by (apply Z.div_lt_upper_bound; lia).
  rewrite (lor_shifted t0), (lor_shifted (t0 + _)) by lia.
  rewrite (lor_shifted (t2 / 2 ^ 26)), (lor_shifted (t2 / 2 ^ 26 + _)) by lia.
  change mask127 with (Z.ones 127). rewrite Z.land_ones by lia. rewrite (Z.mod_small (t2 / 2 ^ 26 + _ + _)) by lia.
  rewrite <- (to_le_app 16 16) by (change (256 ^ Z.of_nat 16) with (2 ^ 128); lia).
  change (256 ^ Z.of_nat 16) with (2 ^ 128). rewrite fe_val_five. f_equal. lia.
Qed.
