(* ===== verification/X25519.v ===== *)
(** * X25519, of [src/src/kernel/crypto.rs]

    The Montgomery ladder over the limbs of [Fe25519], with the scalar's
    clamping, the conditional swaps and the final inversion.  The reference is
    the pseudocode of RFC 7748, section 5, over the integers modulo
    [2^255 - 19]; the theorem says that the two agree on all inputs, so that the
    limb arithmetic never overflows, never trips an assertion and always
    terminates. *)

From stdpp Require Import base tactics decidable numbers list.
From Stdlib Require Import ZArith Zpow_facts Lia Bool.
From S2P Require Import Prelude Bytes Sha256 Fe25519.

Record ladder := mkLadder { lx2 : list Z; lz2 : list Z; lx3 : list Z; lz3 : list Z }.

Definition A24 : list Z := [121665; 0; 0; 0; 0].

Definition x25519_ladder_step (x1 : list Z) (s : ladder) : outcome ladder :=
  let '(mkLadder x2 z2 x3 z3) := s in
  a ← fe25519_add x2 z2;
  aa ← fe25519_square a;
  b ← fe25519_sub x2 z2;
  bb ← fe25519_square b;
  e ← fe25519_sub aa bb;
  c ← fe25519_add x3 z3;
  d ← fe25519_sub x3 z3;
  da ← fe25519_mul d a;
  cb ← fe25519_mul c b;
  sum ← fe25519_add da cb;
  x3 ← fe25519_square sum;
  tmp ← fe25519_sub da cb;
  tmp2 ← fe25519_square tmp;
  z3 ← fe25519_mul x1 tmp2;
  x2 ← fe25519_mul aa bb;
  a24e ← fe25519_mul A24 e;
  s24 ← fe25519_add aa a24e;
  z2 ← fe25519_mul e s24;
  Ret (mkLadder x2 z2 x3 z3).

Definition clamp (scalar : bytes) : bytes :=
  let c := <[0%nat := Z.land (byte scalar 0) 248]> scalar in
  let c := <[31%nat := Z.land (byte c 31) 127]> c in
  <[31%nat := Z.lor (byte c 31) 64]> c.

(** Both conditional swaps. *)
Definition ladder_swap (s : ladder) (swap : bool) : ladder :=
  let '(x2, x3) := fe25519_cswap (lx2 s) (lx3 s) swap in
  let '(z2, z3) := fe25519_cswap (lz2 s) (lz3 s) swap in
  mkLadder x2 z2 x3 z3.

(** [for i in (0..n).rev()]. *)
Fixpoint ladder_loop (n : nat) (clamped : bytes) (x1 : list Z) (s : ladder) (swap : bool)
    : outcome (ladder * bool) :=
  match n with
  | O => Ret (s, swap)
  | S i =>
      let bit := Z.land (Z.shiftr (byte clamped (Nat.shiftr i 3)) (Z.of_nat (Nat.land i 7))) 1 in
      let do_swap := xorb (bit =? 1) swap in
      let s := ladder_swap s do_swap in
      s ← x25519_ladder_step x1 s;
      ladder_loop i clamped x1 s (bit =? 1)
  end.

Definition x25519 (scalar u_coord : bytes) : outcome bytes :=
  let clamped := clamp scalar in
  let u := fe25519_from_bytes u_coord in
  '(s, swap) ← ladder_loop 255 clamped u (mkLadder FE25519_ONE FE25519_ZERO u FE25519_ONE) false;
  let s := ladder_swap s swap in
  z2_inv ← fe25519_inv (lz2 s);
  result_pt ← fe25519_mul (lx2 s) z2_inv;
  Ret (fe25519_to_bytes result_pt).


Definition X25519_BASE_POINT_BYTES : bytes := 9 :: replicate 31 0.

(** The bytes of [b"protofire-x25519-keygen"]. *)
Definition keygen_salt : bytes :=
  [112; 114; 111; 116; 111; 102; 105; 114; 101; 45; 120; 50; 53; 53; 49; 57; 45;
   107; 101; 121; 103; 101; 110].

Definition x25519_keygen : outcome (bytes * bytes) :=
  let private := clamp (sha256 keygen_salt) in
  public ← x25519 private X25519_BASE_POINT_BYTES;
  Ret (private, public).

(** ** The reference: RFC 7748, section 5 *)

Definition fadd (x y : Z) : Z := (x + y) mod p25519.
Definition fsub (x y : Z) : Z := (x - y) mod p25519.
Definition fmul (x y : Z) : Z := (x * y) mod p25519.

Definition rfc_state : Type := Z * Z * Z * Z.

Definition rfc_step (x1 : Z) (s : rfc_state) : rfc_state :=
  let '(x2, z2, x3, z3) := s in
  let A := fadd x2 z2 in
  let AA := fmul A A in
  let B := fsub x2 z2 in
  let BB := fmul B B in
  let E := fsub AA BB in
  let C := fadd x3 z3 in
  let D := fsub x3 z3 in
  let DA := fmul D A in
  let CB := fmul C B in
  let sum := fadd DA CB in
  let diff := fsub DA CB in
  (fmul AA BB, fmul E (fadd AA (fmul 121665 E)), fmul sum sum, fmul x1 (fmul diff diff)).

Definition rfc_cswap (s : rfc_state) (swap : bool) : rfc_state :=
  let '(x2, z2, x3, z3) := s in if swap then (x3, z3, x2, z2) else s.

(** [for t = n-1 down to 0], [k_t] the bits of the scalar. *)
Fixpoint rfc_ladder (n : nat) (k x1 : Z) (s : rfc_state) (swap : bool) : rfc_state * bool :=
  match n with
  | O => (s, swap)
  | S t =>
      let k_t := Z.testbit k (Z.of_nat t) in
      rfc_ladder t k x1 (rfc_step x1 (rfc_cswap s (xorb swap k_t))) k_t
  end.

(** The function on numbers: the scalar [k] and the coordinate [u]. *)
Definition rfc_x25519 (k u : Z) : Z :=
  let x1 := u mod p25519 in
  let '(s, swap) := rfc_ladder 255 k x1 (1, 0, x1, 1) false in
  let '(x2, z2, _, _) := rfc_cswap s swap in
  fmul x2 (z2 ^ (p25519 - 2) mod p25519).

(** ** Limbs stand for residues *)

(** [x] stands for the residue [v]; [canon] when its value is [v] itself. *)
Definition repr (x : list Z) (v : Z) : Prop := tight x ∧ fe_val x mod p25519 = v.
Definition canon (x : list Z) (v : Z) : Prop := tight x ∧ fe_val x = v ∧ 0 ≤ v < p25519.

Lemma canon_repr x v : canon x v → repr x v.
Proof. intros (T & V & B). split; [done|]. rewrite V. by apply Z.mod_small. Qed.

Lemma residue_bound v : 0 ≤ v mod p25519 < p25519.
Proof. by apply Z.mod_pos_bound. Qed.

Lemma add_repr a b x y : repr a x → repr b y →
  ∃ r, fe25519_add a b = Ret r ∧ canon r (fadd x y).
Proof.
  intros [Ta Va] [Tb Vb]. destruct (fe25519_add_ok a b Ta Tb) as (r & Er & Tr & Vr).
  exists r. split; [done|]. split; [done|]. split; [|apply residue_bound].
  unfold fadd. rewrite <- Va, <- Vb, <- Zplus_mod. done.
Qed.

Lemma mul_repr a b x y : repr a x → repr b y →
  ∃ r, fe25519_mul a b = Ret r ∧ canon r (fmul x y).
Proof.
  intros [Ta Va] [Tb Vb]. destruct (fe25519_mul_ok a b Ta Tb) as (r & Er & Tr & Vr).
  exists r. split; [done|]. split; [done|]. split; [|apply residue_bound].
  unfold fmul. rewrite <- Va, <- Vb, <- Zmult_mod. done.
Qed.

Lemma sub_repr a b x y : repr a x → canon b y →
  ∃ r, fe25519_sub a b = Ret r ∧ repr r (fsub x y).
Proof.
  intros [Ta Va] (Tb & Vb & By). pose proof (tight_bound a Ta).
  destruct (fe25519_sub_ok a b Ta Tb ltac:(lia)) as (r & Er & Tr & Vr).
  exists r. split; [done|]. split; [done|]. unfold fsub. rewrite Vr, <- Va, Vb.
  by rewrite Zminus_mod_idemp_l.
Qed.

Lemma inv_repr a x : repr a x →
  ∃ r, fe25519_inv a = Ret r ∧ repr r (x ^ (p25519 - 2) mod p25519).
Proof.
  intros [Ta Va]. destruct (fe25519_inv_ok a Ta) as (r & Er & Tr & Vr).
  exists r. split; [done|]. split; [done|]. rewrite Vr, <- Va. by rewrite Zpower_mod.
Qed.

Lemma bind_step {A B} (m : outcome A) (f : A → outcome B) a (P : B → Prop) :
  m = Ret a → (∃ b, f a = Ret b ∧ P b) → ∃ b, (m ≫= f) = Ret b ∧ P b.
Proof. by intros ->. Qed.

Lemma bind_ret {A B} (m : outcome A) (f : A → outcome B) a : m = Ret a → (m ≫= f) = f a.
Proof. by intros ->. Qed.

Create HintDb fe.
#[local] Hint Resolve canon_repr : fe.

(** One field operation of a monadic chain, run on the residues. *)
Ltac field_op :=
  match goal with
  | |- ∃ _, (fe25519_add ?a ?b ≫= _) = _ ∧ _ =>
      let E := fresh in let r := fresh "r" in let H := fresh "H" in
      edestruct (add_repr a b) as (r & E & H); [eauto with fe..|]; apply (bind_step _ _ _ _ E); clear E
  | |- ∃ _, (fe25519_mul ?a ?b ≫= _) = _ ∧ _ =>
      let E := fresh in let r := fresh "r" in let H := fresh "H" in
      edestruct (mul_repr a b) as (r & E & H); [eauto with fe..|]; apply (bind_step _ _ _ _ E); clear E
  | |- ∃ _, (fe25519_sub ?a ?b ≫= _) = _ ∧ _ =>
      let E := fresh in let r := fresh "r" in let H := fresh "H" in
      edestruct (sub_repr a b) as (r & E & H); [eauto with fe..|]; apply (bind_step _ _ _ _ E); clear E
  end; cbv beta.

(** The state of the ladder: the coordinates [x] are tight, the [z] canonical. *)
Definition same_ladder (s : ladder) (v : rfc_state) : Prop :=
  let '(x2, z2, x3, z3) := v in
  repr (lx2 s) x2 ∧ canon (lz2 s) z2 ∧ repr (lx3 s) x3 ∧ canon (lz3 s) z3.

Lemma A24_repr : repr A24 121665.
Proof. split; [by apply (bool_decide_unpack _)|reflexivity]. Qed.
#[local] Hint Resolve A24_repr : fe.

Lemma ladder_step_rfc x1 v1 s v : repr x1 v1 → same_ladder s v →
  ∃ s', x25519_ladder_step x1 s = Ret s' ∧ same_ladder s' (rfc_step v1 v).
Proof.
  destruct s as [x2 z2 x3 z3], v as [[[v2 w2] v3] w3]. cbn [same_ladder lx2 lz2 lx3 lz3].
  intros H1 (H2 & Hz2 & H3 & Hz3). cbn [x25519_ladder_step]. unfold fe25519_square.
  do 18 field_op. eexists. split; [reflexivity|]. cbn [rfc_step same_ladder lx2 lz2 lx3 lz3].
  eauto 6 with fe.
Qed.

Lemma ladder_swap_rfc s v swap : same_ladder s v → same_ladder (ladder_swap s swap) (rfc_cswap v swap).
Proof.
  destruct v as [[[v2 w2] v3] w3]. intros ([T2 V2] & [Tz2 Vz2] & [T3 V3] & [Tz3 Vz3]).
  unfold ladder_swap. rewrite (fe25519_cswap_ok _ _ _ T2 T3), (fe25519_cswap_ok _ _ _ Tz2 Tz3).
  by destruct swap.
Qed.

Lemma scalar_bit (c : bytes) i : is_bytes c →
  (Z.land (Z.shiftr (byte c (Nat.shiftr i 3)) (Z.of_nat (Nat.land i 7))) 1 =? 1) =
  Z.testbit (from_le c) (Z.of_nat i).
Proof.
  intros Hc. rewrite testbit_from_le by done. rewrite Nat.shiftr_div_pow2.
  pose proof (Nat.land_ones i 3) as E7. change (Nat.ones 3) with 7%nat in E7.
  change (2 ^ 3)%nat with 8%nat in *. rewrite E7.
  set (b := byte c (i / 8)). set (k := Z.of_nat (i mod 8)).
  pose proof (Z.land_ones (Z.shiftr b k) 1 ltac:(lia)) as E. change (Z.ones 1) with 1 in E.
  rewrite E. change (2 ^ 1) with 2. rewrite Zmod_odd, <- Z.bit0_odd, Z.shiftr_spec by lia. rewrite Z.add_0_l.
  by destruct (Z.testbit b k).
Qed.

Lemma ladder_loop_rfc n c x1 v1 s v swap :
  is_bytes c → repr x1 v1 → same_ladder s v →
  ∃ s', ladder_loop n c x1 s swap = Ret (s', (rfc_ladder n (from_le c) v1 v swap).2) ∧
    same_ladder s' (rfc_ladder n (from_le c) v1 v swap).1.
Proof.
  intros Hc H1. revert s v swap. induction n as [|n IH]; intros s v swap Hs; [by exists s|].
  cbn [ladder_loop rfc_ladder]. cbv zeta. rewrite (scalar_bit c n Hc), xorb_comm.
  set (k := Z.testbit (from_le c) (Z.of_nat n)).
  destruct (ladder_step_rfc x1 v1 _ _ H1 (ladder_swap_rfc s v (xorb swap k) Hs)) as (s1 & E1 & Hs1).
  rewrite (bind_ret _ _ _ E1). by apply IH.
Qed.

Lemma clamp_bytes s : length s = 32%nat → is_bytes s → length (clamp s) = 32%nat ∧ is_bytes (clamp s).
Proof.
  intros Hl Hs. unfold clamp. cbv zeta.
  assert (B1 : is_bytes (<[0%nat := Z.land (byte s 0) 248]> s))
    by (apply Forall_insert; [done|apply land_byte, byte_bound, Hs]).
  assert (B2 : is_bytes (<[31%nat := Z.land (byte (<[0%nat := Z.land (byte s 0) 248]> s) 31) 127]>
    (<[0%nat := Z.land (byte s 0) 248]> s))) by (apply Forall_insert; [done|apply land_byte, byte_bound, B1]).
  split; [by rewrite !length_insert|]. apply Forall_insert; [done|].
  apply lor_byte; [by apply byte_bound|]. unfold is_byte. lia.
Qed.

Lemma one_zero_canon : canon FE25519_ONE 1 ∧ canon FE25519_ZERO 0.
Proof.
  split; (split; [by apply (bool_decide_unpack _)|]); (split; [reflexivity|unfold p25519; lia]).
Qed.

(** C9. On every scalar and coordinate of 32 bytes, [x25519] returns, and what it
    returns is the function of RFC 7748: the ladder over the integers modulo
    [2^255 - 19], run with the clamped scalar on the coordinate with its top bit
    masked, encoded in 32 little-endian bytes.  In particular coordinates that
    are not reduced are accepted as the RFC asks. *)
Theorem x25519_is_rfc7748 (scalar u_coord : bytes)
    (Ls : length scalar = 32%nat) (Hs : is_bytes scalar)
    (Lu : length u_coord = 32%nat) (Hu : is_bytes u_coord) :
  x25519 scalar u_coord =
  Ret (to_le 32 (rfc_x25519 (from_le (clamp scalar)) (from_le u_coord mod 2 ^ 255))).
Proof.
  destruct (clamp_bytes scalar Ls Hs) as [_ Hc].
  destruct (fe25519_from_bytes_ok u_coord Lu Hu) as [Tu Vu]. unfold x25519, rfc_x25519. cbv zeta.
  set (x1 := (from_le u_coord mod 2 ^ 255) mod p25519).
  assert (H1 : repr (fe25519_from_bytes u_coord) x1) by (split; [done|by rewrite Vu]).
  destruct (ladder_loop_rfc 255 (clamp scalar) _ x1
    (mkLadder FE25519_ONE FE25519_ZERO (fe25519_from_bytes u_coord) FE25519_ONE) (1, 0, x1, 1) false Hc H1)
    as (s & Es & Hsl).
  { destruct one_zero_canon as [H'1 H'0]. split; [by apply canon_repr|]. done. }
  rewrite (bind_ret _ _ _ Es). destruct (rfc_ladder 255 _ x1 _ false) as [v swap]. cbn [fst snd] in *.
  apply (ladder_swap_rfc _ _ swap) in Hsl. destruct (rfc_cswap v swap) as [[[x2 z2] x3] z3].
  destruct Hsl as (H2 & Hz2 & _ & _).
  destruct (inv_repr _ _ (canon_repr _ _ Hz2)) as (zi & Ei & Hi). rewrite (bind_ret _ _ _ Ei).
  destruct (mul_repr _ _ _ _ H2 Hi) as (r & Er & Tr & Vr & _). rewrite (bind_ret _ _ _ Er).
  f_equal. by rewrite fe25519_to_bytes_ok, Vr.
Qed.

Lemma x25519_bytes_ok : is_bytes (replicate 32 7) ∧ is_bytes X25519_BASE_POINT_BYTES.
Proof. by apply (bool_decide_unpack _). Qed.

Lemma x25519_is_rfc7748_witness :
  x25519 (replicate 32 7) X25519_BASE_POINT_BYTES =
  Ret (to_le 32 (rfc_x25519 (from_le (clamp (replicate 32 7)))
    (from_le X25519_BASE_POINT_BYTES mod 2 ^ 255))).
Proof.
  exact (x25519_is_rfc7748 (replicate 32 7) X25519_BASE_POINT_BYTES
    eq_refl (proj1 x25519_bytes_ok) eq_refl (proj2 x25519_bytes_ok)).
Defined.
