(* ===== verification/Limbs.v ===== *)
(** * Multi-word arithmetic

    Numbers held in lists of 64-bit words, the lowest first, as the RSA and P-256
    code of [src/src/kernel/crypto.rs] holds them in arrays, with the loops both
    share: subtraction and addition with [overflowing_sub] and
    [overflowing_add], comparison from the top word down, and the
    multiply-accumulate row with its carry propagation.  [lval] is the number a
    list stands for; each loop is shown to compute on it. *)

From stdpp Require Import base tactics decidable numbers list.
From Stdlib Require Import ZArith Lia Bool.
From S2P Require Import Prelude Bytes.

Fixpoint lval (l : list Z) : Z :=
  match l with
  | [] => 0
  | x :: l => x + 2 ^ 64 * lval l
  end.

Definition is_word (x : Z) : Prop := 0 ≤ x < 2 ^ 64.
Definition words (l : list Z) : Prop := Forall is_word l.

#[global] Instance is_word_dec x : Decision (is_word x).
Proof. unfold is_word. apply _. Defined.
#[global] Instance words_dec l : Decision (words l).
Proof. unfold words. apply _. Defined.

(** The weight of the words after [n]. *)
Definition radix (n : nat) : Z := 2 ^ (64 * Z.of_nat n).

(** ** The loops *)

Definition b2z (b : bool) : Z := if b then 1 else 0.

(** Two [overflowing_sub] and the borrow they leave. *)
Definition sub_word (a b borrow : Z) : Z * Z :=
  let s1 := wrap64 (a - b) in
  let b1 := a <? b in
  let s2 := wrap64 (s1 - borrow) in
  let b2 := s1 <? borrow in
  (s2, b2z b1 + b2z b2).

Fixpoint sub_limbs (a b : list Z) (borrow : Z) : list Z * Z :=
  match a, b with
  | x :: a, y :: b =>
      let '(s, borrow) := sub_word x y borrow in
      let '(out, borrow) := sub_limbs a b borrow in
      (s :: out, borrow)
  | _, _ => ([], borrow)
  end.

(** Two [overflowing_add] and the carry they leave. *)
Definition add_word (a b carry : Z) : Z * Z :=
  let s1 := wrap64 (a + b) in
  let c1 := 2 ^ 64 <=? a + b in
  let s2 := wrap64 (s1 + carry) in
  let c2 := 2 ^ 64 <=? s1 + carry in
  (s2, b2z c1 + b2z c2).

Fixpoint add_limbs (a b : list Z) (carry : Z) : list Z * Z :=
  match a, b with
  | x :: a, y :: b =>
      let '(s, carry) := add_word x y carry in
      let '(out, carry) := add_limbs a b carry in
      (s :: out, carry)
  | _, _ => ([], carry)
  end.

(** The comparison from the highest word down. *)
Fixpoint cmp_be (a b : list Z) : comparison :=
  match a, b with
  | x :: a, y :: b => match x ?= y with Eq => cmp_be a b | c => c end
  | _, _ => Eq
  end.

Definition cmp_limbs (a b : list Z) : comparison := cmp_be (rev a) (rev b).

Definition limbs_ge (a b : list Z) : bool :=
  match cmp_limbs a b with Lt => false | _ => true end.

(** [while carry != 0]: the carry runs into the words that follow. *)
Fixpoint propagate (t : list Z) (carry : Z) : list Z * Z :=
  match t with
  | [] => ([], carry)
  | x :: t =>
      if carry =? 0 then (x :: t, 0) else
      let sum := x + carry in
      let '(out, carry) := propagate t (Z.shiftr sum 64) in
      (wrap64 sum :: out, carry)
  end.

(** [t += x * b] from the front of [t], the carry propagated behind [b]; its
    answer is [t] and the carry out of it.  A [t] shorter than [b] is an index
    out of bounds. *)
Fixpoint mac_row (x : Z) (b t : list Z) (carry : Z) : outcome (list Z * Z) :=
  match b with
  | [] => Ret (propagate t carry)
  | y :: b =>
      match t with
      | [] => Panic
      | z :: t =>
          prod ← u128 (x * y + z + carry);
          '(out, carry) ← mac_row x b t (wrap64 (Z.shiftr prod 64));
          Ret (wrap64 prod :: out, carry)
      end
  end.

(** ** Values *)

Lemma radix_0 : radix 0 = 1.
Proof. done. Qed.

Lemma radix_S n : radix (S n) = 2 ^ 64 * radix n.
Proof. unfold radix. rewrite <- Z.pow_add_r by lia. f_equal. lia. Qed.

Lemma radix_pos n : 0 < radix n.
Proof. unfold radix. apply Z.pow_pos_nonneg; lia. Qed.

Lemma radix_add n m : radix (n + m) = radix n * radix m.
Proof. unfold radix. rewrite <- Z.pow_add_r by lia. f_equal. lia. Qed.

Lemma lval_app a b : lval (a ++ b) = lval a + radix (length a) * lval b.
Proof.
  induction a as [|x a IH]; [cbn [app lval length]; rewrite radix_0; lia|].
  cbn [app lval length]. rewrite IH, radix_S. ring.
Qed.

Lemma lval_bound l : words l → 0 ≤ lval l < radix (length l).
Proof.
  induction 1 as [|x l Hx _ IH]; [cbn; rewrite radix_0; lia|].
  cbn [lval length]. rewrite radix_S. unfold is_word in Hx. lia.
Qed.

Lemma lval_zeros n : lval (replicate n 0) = 0.
Proof. induction n as [|n IH]; [done|]. cbn [replicate lval]. lia. Qed.

Lemma words_app a b : words (a ++ b) ↔ words a ∧ words b.
Proof. apply Forall_app. Qed.

Lemma words_zeros n : words (replicate n 0).
Proof. apply Forall_replicate. unfold is_word. lia. Qed.

Lemma words_cons x l : words (x :: l) ↔ is_word x ∧ words l.
Proof. apply Forall_cons_iff. Qed.

Lemma wrap64_word x : is_word (wrap64 x).
Proof. unfold is_word, wrap64. apply Z.mod_pos_bound. lia. Qed.

(** A number below the weight of a prefix has its value in the prefix. *)
Lemma lval_take l n : words l → (n ≤ length l)%nat → lval l < radix n → lval (take n l) = lval l.
Proof.
  intros Hl Hn Hv. rewrite <- (take_drop n l) in Hl, Hv |- * at 2. apply words_app in Hl as [Ht Hd].
  rewrite lval_app, length_take, Nat.min_l in Hv |- * by lia.
  pose proof (lval_bound _ Ht). pose proof (lval_bound _ Hd). pose proof (radix_pos n).
  assert (lval (drop n l) = 0) as -> by nia. lia.
Qed.

(** ** Subtraction, addition, comparison *)

Lemma sub_word_ok a b borrow : is_word a → is_word b → borrow = 0 ∨ borrow = 1 →
  ∃ s br, sub_word a b borrow = (s, br) ∧ is_word s ∧ (br = 0 ∨ br = 1) ∧
    s = a - b - borrow + 2 ^ 64 * br.
Proof.
  unfold is_word. intros Ha Hb Hbr. unfold sub_word. cbv zeta.
  assert (E : wrap64 (a - b) = a - b + 2 ^ 64 * b2z (a <? b)).
  { unfold wrap64, b2z. destruct (Z.ltb_spec a b); [|rewrite Z.mod_small; lia].
    rewrite <- (Z.mod_add _ 1) by lia. rewrite Z.mod_small; lia. }
  set (s1 := wrap64 (a - b)) in *. set (br1 := b2z (a <? b)) in *.
  assert (H1 : br1 = 0 ∨ br1 = 1) by (unfold br1, b2z; destruct (a <? b); auto).
  assert (H1' : br1 = 1 → 1 ≤ s1) by lia.
  assert (Hs1 : 0 ≤ s1 < 2 ^ 64) by apply wrap64_word. clearbody s1 br1.
  destruct (Z.ltb_spec s1 borrow); cbn [b2z].
  - exists (2 ^ 64 - 1), 1. assert (br1 = 0) as -> by lia.
    assert (wrap64 (s1 - borrow) = 2 ^ 64 - 1) as ->.
    { unfold wrap64. rewrite <- (Z.mod_add _ 1) by lia. rewrite Z.mod_small; lia. }
    split; [done|]. lia.
  - exists (s1 - borrow), br1. rewrite wrap64_small, Z.add_0_r by lia. split; [done|]. lia.
Qed.

Lemma sub_limbs_ok a b borrow :
  length a = length b → words a → words b → borrow = 0 ∨ borrow = 1 →
  ∃ out br, sub_limbs a b borrow = (out, br) ∧ words out ∧ length out = length a ∧
    (br = 0 ∨ br = 1) ∧ lval out = lval a - lval b - borrow + radix (length a) * br.
Proof.
  revert b borrow. induction a as [|x a IH]; intros [|y b] borrow Hl Ha Hb Hbr; try done.
  - exists [], borrow. cbn. rewrite radix_0. split_and!; (done || lia || constructor).
  - apply words_cons in Ha as [Hx Ha], Hb as [Hy Hb]. injection Hl as Hl. cbn [sub_limbs].
    destruct (sub_word_ok x y borrow Hx Hy Hbr) as (s & br & -> & Hs & Hbr' & Es).
    destruct (IH b br Hl Ha Hb Hbr') as (out & br' & -> & Ho & Lo & Hbr'' & Vo).
    exists (s :: out), br'. cbn [length lval]. rewrite Lo, Vo, radix_S.
    split; [done|]. split; [by apply words_cons|]. split; [done|]. split; [done|].
    rewrite Es. ring.
Qed.

Lemma add_word_ok a b carry : is_word a → is_word b → carry = 0 ∨ carry = 1 →
  ∃ s c, add_word a b carry = (s, c) ∧ is_word s ∧ (c = 0 ∨ c = 1) ∧ s + 2 ^ 64 * c = a + b + carry.
Proof.
  unfold is_word. intros Ha Hb Hc. unfold add_word. cbv zeta.
  assert (E : wrap64 (a + b) = a + b - 2 ^ 64 * b2z (2 ^ 64 <=? a + b)).
  { unfold wrap64, b2z. destruct (Z.leb_spec (2 ^ 64) (a + b)); [|rewrite Z.mod_small; lia].
    rewrite <- (Z.mod_add _ (-1)) by lia. rewrite Z.mod_small; lia. }
  set (s1 := wrap64 (a + b)) in *. set (c1 := b2z (2 ^ 64 <=? a + b)) in *.
  assert (H1 : c1 = 0 ∨ c1 = 1) by (unfold c1, b2z; destruct (_ <=? _); auto).
  assert (Hs1 : 0 ≤ s1 < 2 ^ 64) by apply wrap64_word. clearbody s1 c1.
  destruct (Z.leb_spec (2 ^ 64) (s1 + carry)); cbn [b2z].
  - exists 0, 1. assert (c1 = 0) as -> by lia.
    assert (wrap64 (s1 + carry) = 0) as ->.
    { unfold wrap64. rewrite <- (Z.mod_add _ (-1)) by lia. rewrite Z.mod_small; lia. }
    split; [done|]. lia.
  - exists (s1 + carry), c1. rewrite wrap64_small, Z.add_0_r by lia. split; [done|]. lia.
Qed.

Lemma add_limbs_ok a b carry :
  length a = length b → words a → words b → carry = 0 ∨ carry = 1 →
  ∃ out c, add_limbs a b carry = (out, c) ∧ words out ∧ length out = length a ∧
    (c = 0 ∨ c = 1) ∧ lval out + radix (length a) * c = lval a + lval b + carry.
Proof.
  revert b carry. induction a as [|x a IH]; intros [|y b] carry Hl Ha Hb Hc; try done.
  - exists [], carry. cbn. rewrite radix_0. split_and!; (done || lia || constructor).
  - apply words_cons in Ha as [Hx Ha], Hb as [Hy Hb]. injection Hl as Hl. cbn [add_limbs].
    destruct (add_word_ok x y carry Hx Hy Hc) as (s & c & -> & Hs & Hc' & Es).
    destruct (IH b c Hl Ha Hb Hc') as (out & c' & -> & Ho & Lo & Hc'' & Vo).
    exists (s :: out), c'. cbn [length lval]. rewrite Lo, radix_S.
    split; [done|]. split; [by apply words_cons|]. split; [done|]. split; [done|]. lia.
Qed.

Lemma cmp_limbs_ok a b : length a = length b → words a → words b →
  cmp_limbs a b = (lval a ?= lval b).
Proof.
  unfold cmp_limbs. revert b. induction a as [|x a IH] using rev_ind; intros b Hl Ha Hb.
  - by destruct b.
  - destruct b as [|y b _] using rev_ind; [rewrite length_app in Hl; simpl in Hl; lia|].
    rewrite !length_app in Hl. simpl in Hl. assert (Hl' : length a = length b) by lia.
    apply words_app in Ha as [Ha Hx], Hb as [Hb Hy]. rewrite !rev_app_distr. cbn [rev app cmp_be].
    rewrite IH, !lval_app, Hl' by done. cbn [lval]. rewrite !Z.mul_0_r, !Z.add_0_r.
    pose proof (lval_bound a Ha). pose proof (lval_bound b Hb). rewrite Hl' in *.
    destruct (Z.compare_spec x y) as [->|Hc|Hc]; symmetry.
    + by rewrite !(Z.add_comm (lval _)), Z.add_compare_mono_l.
    + apply Z.compare_lt_iff. nia.
    + apply Z.compare_gt_iff. nia.
Qed.

Lemma limbs_ge_ok a b : length a = length b → words a → words b →
  limbs_ge a b = (lval b <=? lval a).
Proof.
  intros. unfold limbs_ge. rewrite cmp_limbs_ok by done.
  destruct (Z.compare_spec (lval a) (lval b)), (Z.leb_spec (lval b) (lval a)); (done || lia).
Qed.

(** ** Rows *)

Lemma propagate_ok t carry : words t → is_word carry →
  ∃ out c, propagate t carry = (out, c) ∧ words out ∧ length out = length t ∧ is_word c ∧
    lval out + radix (length t) * c = lval t + carry.
Proof.
  revert carry. induction t as [|x t IH]; intros carry Ht Hc.
  - exists [], carry. cbn. rewrite radix_0. split_and!; (done || lia || constructor).
  - apply words_cons in Ht as [Hx Ht]. cbn [propagate]. destruct (Z.eqb_spec carry 0) as [->|Hne].
    { exists (x :: t), 0. split; [done|]. split; [by apply words_cons|].
      unfold is_word. split; [done|]. lia. }
    cbv zeta. unfold is_word in Hx, Hc.
    pose proof (Z.div_mod (x + carry) (2 ^ 64) ltac:(lia)).
    assert (0 ≤ (x + carry) / 2 ^ 64) by (apply Z.div_pos; lia).
    assert ((x + carry) / 2 ^ 64 < 2) by (apply Z.div_lt_upper_bound; lia).
    rewrite Z.shiftr_div_pow2 by lia.
    destruct (IH ((x + carry) / 2 ^ 64) Ht ltac:(unfold is_word; lia)) as (out & c & -> & Ho & Lo & Hw & Vo).
    exists (wrap64 (x + carry) :: out), c. cbn [length lval]. rewrite radix_S, Lo.
    split; [done|]. split; [by apply words_cons; split; [apply wrap64_word|]|].
    split; [done|]. split; [done|]. unfold wrap64. lia.
Qed.

(** The accumulated product fits in 128 bits, exactly. *)
Lemma mac_word x y z carry : is_word x → is_word y → is_word z → is_word carry →
  let prod := x * y + z + carry in
  u128 prod = Ret prod ∧ is_word (wrap64 (Z.shiftr prod 64)) ∧
  wrap64 prod + 2 ^ 64 * wrap64 (Z.shiftr prod 64) = prod.
Proof.
  intros Hx Hy Hz Hc prod. unfold is_word in Hx, Hy, Hz, Hc.
  assert (Hp : 0 ≤ prod < 2 ^ 128).
  { unfold prod. split; [nia|]. change (2 ^ 128) with (2 ^ 64 * 2 ^ 64). nia. }
  split; [unfold u128; by destruct (Z.ltb_spec prod (2 ^ 128)); [|lia]|].
  split; [apply wrap64_word|]. rewrite Z.shiftr_div_pow2 by lia.
  pose proof (Z.div_mod prod (2 ^ 64) ltac:(lia)).
  rewrite (wrap64_small (prod / 2 ^ 64)).
  - unfold wrap64. lia.
  - split; [apply Z.div_pos; lia|apply Z.div_lt_upper_bound; lia].
Qed.

Lemma mac_row_ok x b t carry :
  is_word x → words b → words t → is_word carry → (length b ≤ length t)%nat →
  ∃ out c, mac_row x b t carry = Ret (out, c) ∧ words out ∧ length out = length t ∧ is_word c ∧
    lval out + radix (length t) * c = lval t + x * lval b + carry.
Proof.
  intros Hx. revert t carry. induction b as [|y b IH]; intros t carry Hb Ht Hc Hl.
  - cbn [mac_row lval]. destruct (propagate_ok t carry Ht Hc) as (out & c & -> & Ho & Lo & Hw & Vo).
    exists out, c. rewrite Z.mul_0_r, Z.add_0_r. done.
  - destruct t as [|z t]; [simpl in Hl; lia|]. simpl in Hl. apply words_cons in Hb as [Hy Hb], Ht as [Hz Ht].
    cbn [mac_row]. destruct (mac_word x y z carry Hx Hy Hz Hc) as (-> & Hw & E). cbn [mbind outcome_bind].
    set (prod := x * y + z + carry) in *.
    destruct (IH t _ Hb Ht Hw ltac:(lia)) as (out & c & -> & Ho & Lo & Hc' & Vo). cbn [mbind outcome_bind].
    exists (wrap64 prod :: out), c. cbn [length lval]. rewrite radix_S, Lo.
    split; [done|]. split; [apply words_cons; split; [apply wrap64_word|done]|].
    split; [done|]. split; [done|]. unfold prod in *. lia.
Qed.

(** With room for the result, the carry out is zero. *)
Lemma mac_row_fits x b t carry :
  is_word x → words b → words t → is_word carry → (length b ≤ length t)%nat →
  lval t + x * lval b + carry < radix (length t) →
  ∃ out, mac_row x b t carry = Ret (out, 0) ∧ words out ∧ length out = length t ∧
    lval out = lval t + x * lval b + carry.
Proof.
  intros Hx Hb Ht Hc Hl Hf. destruct (mac_row_ok x b t carry Hx Hb Ht Hc Hl) as (out & c & E & Ho & Lo & Hw & Vo).
  pose proof (lval_bound out Ho). unfold is_word in Hw. pose proof (radix_pos (length t)). rewrite Lo in *.
  assert (c = 0) as -> by nia. exists out. split; [done|]. split; [done|]. split; [done|]. lia.
Qed.
