(* ===== verification/Rsa.v ===== *)
(** * RSA, of [src/src/kernel/crypto.rs]: the modular exponentiation

    The byte and limb conversions, Montgomery multiplication, the conversion to
    Montgomery form with its shift-and-subtract reduction, the
    square-and-multiply loop and the public-key operation.  An array
    [[u64; RSA_MAX_LIMBS]] of which the code uses the first [num_limbs] words is
    the list of these words; the double-width buffers of [rsa_to_mont] are lists
    of all their words. *)

From stdpp Require Import base tactics decidable numbers list.
From Stdlib Require Import ZArith Lia Bool.
From S2P Require Import Prelude Bytes Limbs.

Definition RSA_MAX_LIMBS : nat := 64.
Definition RSA_MAX_BYTES : nat := RSA_MAX_LIMBS * 8.

Definition word_at (l : list Z) (i : nat) : Z := default 0 (l !! i).

(** ** Bytes and limbs *)

(** [limbs[pos / 8] |= (b as u64) << ((pos % 8) * 8)]. *)
Definition put_byte (len : nat) (limbs : list Z) (ib : nat * Z) : list Z :=
  let pos := (len - 1 - ib.1)%nat in
  <[(pos / 8)%nat := Z.lor (word_at limbs (pos / 8))
     (wrap64 (Z.shiftl ib.2 (Z.of_nat (pos mod 8 * 8))))]> limbs.

(** [while n > 1 && limbs[n - 1] == 0]. *)
Fixpoint trim_limbs (n : nat) (limbs : list Z) : nat :=
  match n with
  | S (S _ as m) => if word_at limbs m =? 0 then trim_limbs m limbs else n
  | _ => n
  end.

(** The limbs and the number of them that are not zero at the top. *)
Definition rsa_bytes_to_limbs (b : bytes) : outcome (list Z * nat) :=
  if decide (length b ≤ RSA_MAX_LIMBS * 8)%nat then
    let limbs := fold_left (put_byte (length b)) (zip (seq 0 (length b)) b)
      (replicate RSA_MAX_LIMBS 0) in
    let n := Z.to_nat (div_ceil (Z.of_nat (length b)) 8) in
    Ret (limbs, trim_limbs n limbs)
  else Panic.

(** The bytes of a limb, and [out[n - 1 - bp] = ...] for each of them. *)
Definition limb_bytes (limb : Z) : bytes :=
  map (λ bi, wrap8 (Z.shiftr limb (Z.of_nat (bi * 8)))) (seq 0 8).

Fixpoint put_bytes (n bp : nat) (bs out : bytes) : bytes :=
  match bs with
  | [] => out
  | b :: bs =>
      put_bytes n (S bp) bs (if decide (bp < n)%nat then <[(n - 1 - bp)%nat := b]> out else out)
  end.

Definition rsa_limbs_to_bytes (limbs : list Z) (n : nat) : bytes :=
  put_bytes n 0 (concat (map limb_bytes limbs)) (replicate n 0).

Definition leading_zeros (x : Z) : Z := if x =? 0 then 64 else 63 - Z.log2 x.

(** The loop from the top limb: [top] is big-endian. *)
Fixpoint bitlen_from (top : list Z) : Z :=
  match top with
  | [] => 0
  | x :: top =>
      if negb (x =? 0) then Z.of_nat (length top) * 64 + 64 - leading_zeros x else bitlen_from top
  end.

Definition rsa_limbs_bitlen (limbs : list Z) : Z := bitlen_from (rev limbs).

(** ** Montgomery multiplication *)

Definition newton_step (a x : Z) : Z := wrap64 (x * wrapping_sub 2 (wrap64 (a * x))).

Definition rsa_modinv_u64 (a : Z) : Z :=
  let x := a in
  let x := newton_step a x in
  let x := newton_step a x in
  let x := newton_step a x in
  let x := newton_step a x in
  newton_step a x.

(** One round of the outer loop: [t += a_i * b], [t += m * n], [t >>= 64]. *)
Definition mont_round (b n : list Z) (nprime0 ai : Z) (t : list Z) : outcome (list Z) :=
  '(t, _) ← mac_row ai b t 0;
  let m := wrap64 (word_at t 0 * nprime0) in
  '(t, _) ← mac_row m n t 0;
  Ret (drop 1 t ++ [0]).

Fixpoint mont_rounds (a b n : list Z) (nprime0 : Z) (t : list Z) : outcome (list Z) :=
  match a with
  | [] => Ret t
  | ai :: a =>
      t ← mont_round b n nprime0 ai t;
      mont_rounds a b n nprime0 t
  end.

(** The final comparison and subtraction run over the guard limbs too. *)
Definition rsa_mont_mul (a b n : list Z) (nprime0 : Z) : outcome (list Z) :=
  let num_limbs := length n in
  t ← mont_rounds a b n nprime0 (replicate (num_limbs + 2) 0);
  let nv := n ++ [0; 0] in
  let t := if limbs_ge t nv then (sub_limbs t nv 0).1 else t in
  Ret (take num_limbs t).

(** ** To Montgomery form *)

(** [r <<= 1] and the carry out of it. *)
Fixpoint shl1_limbs (r : list Z) (carry : Z) : list Z * Z :=
  match r with
  | [] => ([], carry)
  | x :: r =>
      let next_carry := Z.shiftr x 63 in
      let '(out, c) := shl1_limbs r next_carry in
      (Z.lor (wrap64 (Z.shiftl x 1)) carry :: out, c)
  end.

Definition double_mod (n r : list Z) : list Z :=
  let '(r, carry) := shl1_limbs r 0 in
  if limbs_ge r n || (0 <? carry) then (sub_limbs r n 0).1 else r.

Fixpoint repeat_n {A} (k : nat) (f : A → A) (x : A) : A :=
  match k with O => x | S k => repeat_n k f (f x) end.

(** [R mod n]: one, doubled 64 times for each limb. *)
Definition r_mod (n : list Z) : list Z :=
  repeat_n (length n) (repeat_n 64 (double_mod n)) (1 :: replicate (length n - 1) 0).

(** The rows of the schoolbook square; a carry past the buffer is an index out
    of bounds. *)
Fixpoint square_rows (avs r : list Z) (i : nat) (prod : list Z) : outcome (list Z) :=
  match avs with
  | [] => Ret prod
  | av :: avs =>
      prod ← (if av =? 0 then Ret prod else
        '(row, carry) ← mac_row av r (drop i prod) 0;
        if carry =? 0 then Ret (take i prod ++ row) else Panic);
      square_rows avs r (S i) prod
  end.

(** [sub = n << shift], a limb at a time. *)
Fixpoint shifted_rows (n : list Z) (idx : nat) (bit_shift : Z) (sub : list Z) : outcome (list Z) :=
  match n with
  | [] => Ret sub
  | x :: n =>
      if decide (idx < length sub)%nat then
        let sub := <[idx := Z.lor (word_at sub idx) (wrap64 (Z.shiftl x bit_shift))]> sub in
        let sub :=
          if (0 <? bit_shift) && bool_decide (idx + 1 < 2 * RSA_MAX_LIMBS)%nat
          then <[(idx + 1)%nat := Z.lor (word_at sub (idx + 1)) (Z.shiftr x (64 - bit_shift))]> sub
          else sub in
        shifted_rows n (S idx) bit_shift sub
      else Panic
  end.

Definition shifted (n : list Z) (shift : Z) : outcome (list Z) :=
  shifted_rows n (Z.to_nat (shift / 64)) (shift mod 64) (replicate (2 * RSA_MAX_LIMBS) 0).

(** The inner [loop]: [work] less [n << shift], or less [n << (shift - 1)], and
    so on; [None] is [break 'reduce]. *)
Fixpoint subtract_shifted (fuel : nat) (n : list Z) (shift : Z) (work : list Z)
    : outcome (option (list Z)) :=
  match fuel with
  | O => NoFuel
  | S fuel =>
      let k := (2 * length n)%nat in
      sub ← shifted n shift;
      if limbs_ge (take k work) (take k sub)
      then Ret (Some ((sub_limbs (take k work) (take k sub) 0).1 ++ drop k work))
      else if shift =? 0 then Ret None
      else subtract_shifted fuel n (shift - 1) work
  end.

(** ['reduce: loop]. *)
Fixpoint reduce_loop (fuel : nat) (n : list Z) (n_bits : Z) (work : list Z) : outcome (list Z) :=
  match fuel with
  | O => NoFuel
  | S fuel =>
      let w_bits := rsa_limbs_bitlen (take (2 * length n) work) in
      if w_bits <? n_bits then Ret work else
      next ← subtract_shifted (S (Z.to_nat (w_bits - n_bits))) n (w_bits - n_bits) work;
      match next with
      | None => Ret work
      | Some work => reduce_loop fuel n n_bits work
      end
  end.

Definition rsa_to_mont (a n : list Z) (nprime0 : Z) : outcome (list Z) :=
  let num_limbs := length n in
  let r_mod_n := r_mod n in
  r2_prod ← square_rows r_mod_n r_mod_n 0 (replicate (2 * RSA_MAX_LIMBS) 0);
  let n_bits := rsa_limbs_bitlen n in
  work ← reduce_loop (S (2 * RSA_MAX_LIMBS * 64)) n n_bits r2_prod;
  let r_sq := take num_limbs work in
  rsa_mont_mul a r_sq n nprime0.

(** ** Exponentiation *)

(** [for bit in (0..k).rev()]. *)
Fixpoint pow_loop (k : nat) (exp base n : list Z) (nprime0 : Z) (result : list Z) : outcome (list Z) :=
  match k with
  | O => Ret result
  | S bit =>
      result ← rsa_mont_mul result result n nprime0;
      let set := negb (Z.land (Z.shiftr (word_at exp (bit / 64)) (Z.of_nat (bit mod 64))) 1 =? 0) in
      result ← (if bool_decide (bit / 64 < RSA_MAX_LIMBS)%nat && set
                then rsa_mont_mul result base n nprime0 else Ret result);
      pow_loop bit exp base n nprime0 result
  end.

Definition rsa_mod_pow (base exp : list Z) (exp_bits : Z) (n : list Z) (nprime0 : Z)
    : outcome (list Z) :=
  base_mont ← rsa_to_mont base n nprime0;
  let one_mont := r_mod n in
  result ← pow_loop (Z.to_nat exp_bits) exp base_mont n nprime0 one_mont;
  rsa_mont_mul result (1 :: replicate (length n - 1) 0) n nprime0.

(** ** The public-key operation *)

Definition rsa_public_key_op (n_bytes e_bytes signature : bytes) : outcome (option (bytes * nat)) :=
  let k := length n_bytes in
  if decide (RSA_MAX_LIMBS * 8 < k)%nat then Ret None else
  if negb (length signature =? k)%nat then Ret None else
  let num_limbs := Z.to_nat (div_ceil (Z.of_nat k) 8) in
  '(n, _) ← rsa_bytes_to_limbs n_bytes;
  '(s, _) ← rsa_bytes_to_limbs signature;
  let n := take num_limbs n in
  let s := take num_limbs s in
  if limbs_ge s n then Ret None else
  '(e_limbs, e_num) ← rsa_bytes_to_limbs e_bytes;
  let e_bits := rsa_limbs_bitlen (take e_num e_limbs) in
  let inv := rsa_modinv_u64 (word_at n 0) in
  let nprime0_correct := wrapping_sub 0 inv in
  m_limbs ← rsa_mod_pow s e_limbs e_bits n nprime0_correct;
  Ret (Some (rsa_limbs_to_bytes m_limbs k ++ replicate (RSA_MAX_BYTES - k) 0, k)).

(** [rsa_mod_bits]. *)
Definition rsa_mod_bits (n_bytes : bytes) : outcome Z :=
  '(n, num) ← rsa_bytes_to_limbs n_bytes;
  Ret (rsa_limbs_bitlen (take num n)).

(** Five cubed modulo [2^64 + 13]. *)
Example rsa_small :
  rsa_public_key_op [1; 0; 0; 0; 0; 0; 0; 0; 13] [3] [0; 0; 0; 0; 0; 0; 0; 0; 5]
  = Ret (Some ([0; 0; 0; 0; 0; 0; 0; 0; 125] ++ replicate 503 0, 9%nat)).
Proof. vm_compute. reflexivity. Qed.
