(* ===== verification/RsaMont.v ===== *)
(** * RSA: the limb arithmetic computes modulo [n]

    Proofs for [Rsa].  [mont_mul_ok] gives Montgomery multiplication its value,
    [r_mod_ok] and [to_mont_ok] the conversion, [mod_pow_ok] the exponentiation:
    for an odd modulus the limbs end in [base^exp mod n]. *)

From stdpp Require Import base tactics decidable numbers list.
From Stdlib Require Import ZArith Lia Bool.
From S2P Require Import Prelude Bytes Limbs Rsa.

(** ** The inverse modulo 2^64 *)

Lemma wrap64_eq x : ∃ q, wrap64 x = x + 2 ^ 64 * q.
Proof. exists (- (x / 2 ^ 64)). unfold wrap64. pose proof (Z.div_mod x (2 ^ 64) ltac:(lia)). lia. Qed.

Lemma newton_step_eq a x : ∃ q, newton_step a x = x * (2 - a * x) + 2 ^ 64 * q.
Proof.
  unfold newton_step, wrapping_sub. destruct (wrap64_eq (a * x)) as [q1 ->].
  destruct (wrap64_eq (2 - (a * x + 2 ^ 64 * q1))) as [q2 ->].
  destruct (wrap64_eq (x * (2 - (a * x + 2 ^ 64 * q1) + 2 ^ 64 * q2))) as [q3 ->].
  exists (q3 + x * (q2 - q1)). ring.
Qed.

Lemma pow2_divide j k : 0 ≤ j ≤ k → (2 ^ j | 2 ^ k).
Proof. intros H. exists (2 ^ (k - j)). rewrite <- Z.pow_add_r by lia. f_equal. lia. Qed.

(** A step doubles the number of correct bits. *)
Lemma newton_step_ok a x k : 0 ≤ k → (2 ^ k | a * x - 1) →
  (2 ^ Z.min (2 * k) 64 | a * newton_step a x - 1).
Proof.
  intros Hk [q Hq]. destruct (newton_step_eq a x) as [r ->].
  assert (E : a * (x * (2 - a * x) + 2 ^ 64 * r) - 1 = - (q * q) * 2 ^ (2 * k) + a * r * 2 ^ 64).
  { replace (2 ^ (2 * k)) with (2 ^ k * 2 ^ k) by (rewrite <- Z.pow_add_r by lia; f_equal; lia).
    assert (a * x = q * 2 ^ k + 1) by lia. nia. }
  rewrite E. apply Z.divide_add_r; apply Z.divide_mul_r; apply pow2_divide; lia.
Qed.

Lemma modinv_ok a : Z.odd a = true → (2 ^ 64 | a * rsa_modinv_u64 a - 1).
Proof.
  intros Ha. assert (H3 : (2 ^ 3 | a * a - 1)).
  { apply Z.odd_spec in Ha as [b ->]. destruct (Z.Even_or_Odd b) as [[c ->]|[c ->]].
    - exists (2 * c * c + c). ring.
    - exists (2 * c * c + 3 * c + 1). ring. }
  unfold rsa_modinv_u64. cbv zeta.
  do 5 (apply newton_step_ok in H3; [|lia]). exact H3.
Qed.

Lemma nprime0_ok n0 : Z.odd n0 = true → (2 ^ 64 | n0 * wrapping_sub 0 (rsa_modinv_u64 n0) + 1).
Proof.
  intros Hn. destruct (modinv_ok n0 Hn) as [q Hq]. unfold wrapping_sub.
  destruct (wrap64_eq (0 - rsa_modinv_u64 n0)) as [r ->]. exists (n0 * r - q). lia.
Qed.

(** ** Montgomery multiplication *)

Section Mont.
Context (n : list Z) (Hn : words n) (np : Z).
Context (Hinv : (2 ^ 64 | lval n * np + 1)).

Let L : nat := length n.
Let N : Z := lval n.

Lemma word_at_0 t : words t → word_at t 0 = lval t mod 2 ^ 64.
Proof.
  destruct t as [|x t]; intros Ht; [done|]. apply words_cons in Ht as [Hx _].
  change (word_at (x :: t) 0) with x. cbn [lval].
  rewrite (Z.mul_comm (2 ^ 64)), Z.mod_add, Z.mod_small by (done || lia). done.
Qed.

(** A round divides the running sum by 2^64 after adding a multiple of [n]. *)
Lemma mont_round_ok b ai t :
  words b → length b = L → is_word ai → words t → length t = (L + 2)%nat →
  lval b < N → lval t < lval b + N →
  ∃ t' m, mont_round b n np ai t = Ret t' ∧ words t' ∧ length t' = (L + 2)%nat ∧
    lval t' < lval b + N ∧ 0 ≤ m ∧ 2 ^ 64 * lval t' = lval t + ai * lval b + m * N.
Proof.
  intros Hb Lb Ha Ht Lt Bb Bt. unfold mont_round.
  pose proof (lval_bound n Hn) as Bn. fold L N in Bn. pose proof (lval_bound b Hb) as Bb'. pose proof (lval_bound t Ht).
  assert (Hr : radix (length t) = 2 ^ 64 * (2 ^ 64 * radix L)).
  { rewrite Lt, Nat.add_comm. change (2 + L)%nat with (S (S L)). by rewrite !radix_S. }
  assert (H0 : is_word 0) by (unfold is_word; lia). unfold is_word in Ha.
  assert (Ea : ai * lval b ≤ (2 ^ 64 - 1) * lval b) by nia. assert (0 ≤ ai * lval b) by nia.
  destruct (mac_row_fits ai b t 0 Ha Hb Ht H0 ltac:(lia)) as (t1 & -> & Ht1 & L1 & V1); [lia|].
  cbn [mbind outcome_bind]. set (m := wrap64 (word_at t1 0 * np)).
  assert (Hm : is_word m) by apply wrap64_word. unfold is_word in Hm.
  assert (Em : m * N ≤ (2 ^ 64 - 1) * N) by nia. assert (0 ≤ m * N) by nia.
  rewrite <- L1 in Lt.
  destruct (mac_row_fits m n t1 0 Hm Hn Ht1 H0) as (t2 & -> & Ht2 & L2 & V2).
  { fold L. lia. } { rewrite L1. fold N. lia. }
  cbn [mbind outcome_bind]. fold N in V2.
  assert (Hdiv : (2 ^ 64 | lval t1 + m * N)).
  { unfold m. destruct (wrap64_eq (word_at t1 0 * np)) as [q ->], Hinv as [r Hr'].
    fold N in Hr'. rewrite word_at_0 by done.
    pose proof (Z.div_mod (lval t1) (2 ^ 64) ltac:(lia)) as D. set (y := lval t1 mod 2 ^ 64) in *.
    exists (lval t1 / 2 ^ 64 + y * r + q * N). nia. }
  destruct t2 as [|x t2]; [simpl in L2; lia|]. apply words_cons in Ht2 as [Hx Ht2]. cbn [lval] in V2.
  assert (x = 0) as ->.
  { destruct Hdiv as [q Hq]. unfold is_word in Hx. nia. }
  exists (t2 ++ [0]), m. cbn [drop].
  assert (Ev : lval (t2 ++ [0]) = lval t2) by (rewrite lval_app; cbn [lval]; lia).
  rewrite Ev, length_app. simpl in L2 |- *.
  split; [done|]. split; [apply words_app; split; [done|by apply (bool_decide_unpack _)]|]. split; [lia|].
  split; [nia|]. split; lia.
Qed.

Lemma mont_rounds_ok a b t :
  words b → length b = L → words a → words t → length t = (L + 2)%nat →
  lval b < N → lval t < lval b + N →
  ∃ t' M, mont_rounds a b n np t = Ret t' ∧ words t' ∧ length t' = (L + 2)%nat ∧
    lval t' < lval b + N ∧ radix (length a) * lval t' = lval t + lval a * lval b + M * N.
Proof.
  intros Hb Lb Ha. revert t. induction Ha as [|ai a Hai _ IH]; intros t Ht Lt Bb Bt.
  - exists t, 0. cbn [mont_rounds lval length]. rewrite radix_0. split_and!; (done || lia).
  - cbn [mont_rounds]. destruct (mont_round_ok b ai t Hb Lb Hai Ht Lt Bb Bt) as (t1 & m & -> & Ht1 & L1 & B1 & _ & V1).
    cbn [mbind outcome_bind]. destruct (IH t1 Ht1 L1 Bb B1) as (t2 & M & -> & Ht2 & L2 & B2 & V2).
    exists t2, (m + 2 ^ 64 * M). cbn [length lval]. rewrite radix_S.
    split; [done|]. split; [done|]. split; [done|]. split; [done|].
    rewrite <- Z.mul_assoc, V2. ring_simplify. lia.
Qed.

(** Residues: [x * R = y (mod n)] determines [x], for [n] is odd. *)
Lemma mont_mul_ok a b :
  words a → length a = L → words b → length b = L → lval b < N →
  ∃ r, rsa_mont_mul a b n np = Ret r ∧ words r ∧ length r = L ∧ lval r < N ∧
    (lval r * radix L) mod N = (lval a * lval b) mod N.
Proof.
  intros Ha La Hb Lb Bb. unfold rsa_mont_mul. fold L. cbv zeta.
  pose proof (lval_bound n Hn) as Bn. fold L N in Bn. pose proof (lval_bound b Hb).
  destruct (mont_rounds_ok a b (replicate (L + 2) 0)) as (t & M & -> & Ht & Lt & Bt & Vt);
    [done|done|done|apply words_zeros|apply length_replicate|done|rewrite lval_zeros; lia|].
  cbn [mbind outcome_bind]. rewrite lval_zeros, La, Z.add_0_l in Vt.
  assert (Hv : words (n ++ [0; 0]) ∧ length (n ++ [0; 0]) = (L + 2)%nat ∧ lval (n ++ [0; 0]) = N).
  { split; [apply words_app; split; [done|by apply (bool_decide_unpack _)]|].
    split; [rewrite length_app; done|]. rewrite lval_app. cbn [lval]. fold N. lia. }
  destruct Hv as (Hv & Lv & Vv). rewrite limbs_ge_ok by (done || congruence). rewrite Vv.
  assert (Hfin : ∀ x, words x → length x = (L + 2)%nat → lval x < N →
    lval x mod N = lval t mod N →
    ∃ r, Ret (take L x) = Ret r ∧ words r ∧ length r = L ∧ lval r < N ∧
      (lval r * radix L) mod N = (lval a * lval b) mod N).
  { intros x Hx Lx Bx Ex. exists (take L x). split; [done|]. split; [by apply Forall_take|].
    split; [rewrite length_take; lia|]. rewrite lval_take by (done || lia). split; [done|].
    rewrite <- Zmult_mod_idemp_l, Ex, Zmult_mod_idemp_l, Z.mul_comm, Vt. by apply Z_mod_plus_full. }
  destruct (Z.leb_spec N (lval t)); [|by apply Hfin].
  destruct (sub_limbs_ok t (n ++ [0; 0]) 0) as (out & br & -> & Ho & Lo & Hbr & Vo);
    [congruence|done|done|by left|]. cbn [fst]. rewrite Vv in Vo. rewrite Lt in *.
  pose proof (lval_bound out Ho). rewrite Lo in *. pose proof (radix_pos (L + 2)).
  apply Hfin; [done|done| |]; destruct Hbr as [->| ->]; try nia.
  rewrite Vo. replace (lval t - N - 0 + radix (L + 2) * 0) with (lval t + -1 * N) by lia.
  apply Z_mod_plus_full.
Qed.
End Mont.

(** ** [R mod n] *)

Lemma shl1_word x carry : is_word x → carry = 0 ∨ carry = 1 →
  is_word (Z.lor (wrap64 (Z.shiftl x 1)) carry) ∧ (Z.shiftr x 63 = 0 ∨ Z.shiftr x 63 = 1) ∧
  Z.lor (wrap64 (Z.shiftl x 1)) carry + 2 ^ 64 * Z.shiftr x 63 = 2 * x + carry.
Proof.
  unfold is_word. intros Hx Hc. rewrite Z.shiftr_div_pow2, Z.shiftl_mul_pow2 by lia.
  assert (E : wrap64 (x * 2 ^ 1) = x mod 2 ^ 63 * 2 ^ 1).
  { unfold wrap64. change (2 ^ 64) with (2 ^ 63 * 2 ^ 1). by rewrite Z.mul_mod_distr_r by lia. }
  rewrite E, Z.lor_comm, lor_shifted by lia.
  pose proof (Z.div_mod x (2 ^ 63) ltac:(lia)). pose proof (Z.mod_pos_bound x (2 ^ 63) ltac:(lia)).
  assert (0 ≤ x / 2 ^ 63) by (apply Z.div_pos; lia).
  assert (x / 2 ^ 63 < 2) by (apply Z.div_lt_upper_bound; lia). lia.
Qed.

Lemma shl1_limbs_ok r carry : words r → carry = 0 ∨ carry = 1 →
  ∃ out c, shl1_limbs r carry = (out, c) ∧ words out ∧ length out = length r ∧
    (c = 0 ∨ c = 1) ∧ lval out + radix (length r) * c = 2 * lval r + carry.
Proof.
  intros Hr. revert carry. induction Hr as [|x r Hx _ IH]; intros carry Hc.
  - exists [], carry. cbn. rewrite radix_0. split_and!; (done || lia || constructor).
  - cbn [shl1_limbs]. destruct (shl1_word x carry Hx Hc) as (Hw & Hn & Ew).
    destruct (IH _ Hn) as (out & c & -> & Ho & Lo & Hc' & Vo).
    exists (Z.lor (wrap64 (Z.shiftl x 1)) carry :: out), c. cbn [length lval]. rewrite radix_S, Lo.
    split; [done|]. split; [by apply words_cons|]. split; [done|]. split; [done|]. lia.
Qed.

Lemma double_mod_ok n r : words n → words r → length r = length n → lval r < lval n →
  words (double_mod n r) ∧ length (double_mod n r) = length n ∧
  lval (double_mod n r) = (2 * lval r) mod lval n.
Proof.
  intros Hn Hr Lr Br. unfold double_mod. pose proof (lval_bound n Hn). pose proof (lval_bound r Hr).
  destruct (shl1_limbs_ok r 0 Hr ltac:(by left)) as (x & c & -> & Hx & Lx & Hc & Vx).
  pose proof (lval_bound x Hx). rewrite limbs_ge_ok by (done || congruence). rewrite Lr in *.
  destruct (sub_limbs_ok x n 0 ltac:(congruence) Hx Hn ltac:(by left)) as (out & br & -> & Ho & Lo & Hbr & Vo).
  pose proof (lval_bound out Ho). rewrite Lo, Lx in *. set (N := lval n) in *. set (R := radix (length n)) in *.
  destruct (Z.leb_spec N (lval x)), (Z.ltb_spec 0 c); cbn [orb fst].
  - exfalso. destruct Hc as [->| ->]; lia.
  - split; [done|]. split; [congruence|]. apply (Z.mod_unique _ _ 1); destruct Hbr as [->| ->]; nia.
  - split; [done|]. split; [congruence|]. assert (c = 1) as -> by lia.
    apply (Z.mod_unique _ _ 1); destruct Hbr as [->| ->]; nia.
  - split; [done|]. split; [congruence|]. assert (c = 0) as -> by lia.
    rewrite Z.mod_small by lia. lia.
Qed.

Lemma double_mod_repeat n r k : words n → words r → length r = length n → lval r < lval n →
  let x := repeat_n k (double_mod n) r in
  words x ∧ length x = length n ∧ lval x = (2 ^ Z.of_nat k * lval r) mod lval n.
Proof.
  intros Hn. revert r. induction k as [|k IH]; intros r Hr Lr Br x.
  - subst x. cbn [repeat_n]. split; [done|]. split; [done|]. pose proof (lval_bound r Hr).
    rewrite Z.mul_1_l, Z.mod_small by lia. done.
  - subst x. cbn [repeat_n]. destruct (double_mod_ok n r Hn Hr Lr Br) as (H1 & L1 & V1).
    assert (B1 : lval (double_mod n r) < lval n).
    { rewrite V1. apply Z.mod_pos_bound. pose proof (lval_bound r Hr). lia. }
    destruct (IH _ H1 L1 B1) as (H2 & L2 & V2). split; [done|]. split; [done|].
    rewrite V2, V1, Zmult_mod_idemp_r. f_equal. rewrite Nat2Z.inj_succ, Z.pow_succ_r by lia. ring.
Qed.

Lemma repeat_n_add {A} (f : A → A) i j x : repeat_n j f (repeat_n i f x) = repeat_n (i + j) f x.
Proof. revert x. induction i as [|i IH]; intros x; [done|]. cbn [repeat_n Nat.add]. apply IH. Qed.

Lemma repeat_n_nested {A} (f : A → A) k m x : repeat_n k (repeat_n m f) x = repeat_n (k * m) f x.
Proof.
  revert x. induction k as [|k IH]; intros x; [done|]. cbn [repeat_n Nat.mul].
  by rewrite IH, repeat_n_add.
Qed.

(** One, as limbs. *)
Lemma one_limbs k : (0 < k)%nat →
  words (1 :: replicate (k - 1) 0) ∧ length (1 :: replicate (k - 1) 0) = k ∧
  lval (1 :: replicate (k - 1) 0) = 1.
Proof.
  intros Hk. split; [apply words_cons; split; [unfold is_word; lia|apply words_zeros]|].
  cbn [length lval]. rewrite length_replicate, lval_zeros. lia.
Qed.

Lemma r_mod_ok n : words n → 1 < lval n →
  words (r_mod n) ∧ length (r_mod n) = length n ∧ lval (r_mod n) = radix (length n) mod lval n.
Proof.
  intros Hn HN. assert (Hk : (0 < length n)%nat) by (destruct n; simpl in *; lia).
  destruct (one_limbs (length n) Hk) as (H1 & L1 & V1). unfold r_mod. rewrite repeat_n_nested.
  destruct (double_mod_repeat n _ (length n * 64) Hn H1 L1 ltac:(lia)) as (H2 & L2 & V2).
  split; [done|]. split; [done|]. rewrite V2, V1, Z.mul_1_r. unfold radix. do 2 f_equal. lia.
Qed.

(** ** The square and its reduction *)

Lemma square_rows_ok avs r i prod :
  words avs → words r → words prod → (i + length avs + length r ≤ length prod)%nat →
  lval prod + radix i * (lval avs * lval r) < radix (length prod) →
  ∃ out, square_rows avs r i prod = Ret out ∧ words out ∧ length out = length prod ∧
    lval out = lval prod + radix i * (lval avs * lval r).
Proof.
  intros Ha Hr. revert i prod. induction Ha as [|av avs Hav Ha IH]; intros i prod Hp Hl Hf.
  { exists prod. cbn [square_rows lval]. split_and!; (done || lia). }
  cbn [square_rows lval length] in *. pose proof (lval_bound r Hr). pose proof (lval_bound avs Ha).
  pose proof (radix_pos i). unfold is_word in Hav.
  assert (Hrow : ∃ p1, (if av =? 0 then Ret prod else
      '(row, carry) ← mac_row av r (drop i prod) 0;
      if carry =? 0 then Ret (take i prod ++ row) else Panic) = Ret p1 ∧
      words p1 ∧ length p1 = length prod ∧ lval p1 = lval prod + radix i * (av * lval r)).
  { destruct (Z.eqb_spec av 0) as [->|_]; [exists prod; split_and!; (done || lia)|].
    assert (Ht : words (take i prod)) by by apply Forall_take.
    assert (Hd : words (drop i prod)) by by apply Forall_drop.
    assert (Ev : lval prod = lval (take i prod) + radix i * lval (drop i prod)).
    { rewrite <- (take_drop i prod) at 1. rewrite lval_app, length_take, Nat.min_l by lia. done. }
    pose proof (lval_bound _ Ht).
    assert (Er : radix (length prod) = radix i * radix (length prod - i)) by (rewrite <- radix_add; f_equal; lia).
    destruct (mac_row_fits av r (drop i prod) 0) as (row & -> & Hw & Lw & Vw);
      [done|done|done|unfold is_word; lia|rewrite length_drop; lia| |].
    { rewrite length_drop. rewrite Er, Ev in Hf. nia. }
    cbn [mbind outcome_bind Z.eqb]. exists (take i prod ++ row). rewrite length_drop in Lw.
    split; [done|]. split; [by apply words_app|]. split; [rewrite length_app, length_take; lia|].
    rewrite lval_app, length_take, Nat.min_l, Vw by lia. lia. }
  destruct Hrow as (p1 & -> & Hp1 & L1 & V1). cbn [mbind outcome_bind].
  destruct (IH (S i) p1 Hp1 ltac:(lia)) as (out & -> & Ho & Lo & Vo).
  { rewrite V1, radix_S, L1. lia. }
  exists out. split; [done|]. split; [done|]. split; [congruence|]. rewrite Vo, V1, radix_S. ring.
Qed.

Lemma word_at_middle pre x l : word_at (pre ++ x :: l) (length pre) = x.
Proof. unfold word_at. by rewrite list_lookup_middle. Qed.

Lemma insert_middle pre (x y : Z) l : <[length pre := y]> (pre ++ x :: l) = pre ++ y :: l.
Proof. rewrite insert_app_r_alt by lia. by rewrite Nat.sub_diag. Qed.

(** A limb shifted into its two words. *)
Lemma shift_word x lo bs : is_word x → 0 ≤ bs < 64 → 0 ≤ lo < 2 ^ bs →
  let y := Z.lor lo (wrap64 (Z.shiftl x bs)) in
  is_word y ∧ 0 ≤ Z.shiftr x (64 - bs) < 2 ^ bs ∧
  y + 2 ^ 64 * Z.shiftr x (64 - bs) = lo + 2 ^ bs * x.
Proof.
  intros Hx Hb Hlo y. unfold is_word in Hx.
  assert (Ep : 2 ^ 64 = 2 ^ (64 - bs) * 2 ^ bs) by (rewrite <- Z.pow_add_r by lia; f_equal; lia).
  assert (0 < 2 ^ (64 - bs)) by (apply Z.pow_pos_nonneg; lia).
  assert (0 < 2 ^ bs) by (apply Z.pow_pos_nonneg; lia).
  assert (Ey : y = lo + x mod 2 ^ (64 - bs) * 2 ^ bs).
  { unfold y, wrap64. rewrite Z.shiftl_mul_pow2, Ep, Z.mul_mod_distr_r by lia. apply lor_shifted; lia. }
  rewrite Z.shiftr_div_pow2 by lia. set (m := 2 ^ (64 - bs)) in *. set (w := 2 ^ bs) in *.
  pose proof (Z.div_mod x m ltac:(lia)). pose proof (Z.mod_pos_bound x m ltac:(lia)).
  assert (0 ≤ x / m) by (apply Z.div_pos; lia).
  assert (x / m < w) by (apply Z.div_lt_upper_bound; lia).
  unfold is_word. rewrite Ep, Ey. split; [nia|]. split; [lia|]. nia.
Qed.

Lemma shifted_rows_ok n pre lo k bs :
  words n → words pre → 0 ≤ bs < 64 → 0 ≤ lo < 2 ^ bs →
  (length pre + S k = 2 * RSA_MAX_LIMBS)%nat → (length n ≤ S k)%nat →
  lval pre + radix (length pre) * (lo + 2 ^ bs * lval n) < radix (2 * RSA_MAX_LIMBS) →
  ∃ out, shifted_rows n (length pre) bs (pre ++ lo :: replicate k 0) = Ret out ∧ words out ∧
    length out = (2 * RSA_MAX_LIMBS)%nat ∧
    lval out = lval pre + radix (length pre) * (lo + 2 ^ bs * lval n).
Proof.
  intros Hn. revert pre lo k. induction Hn as [|x n Hx Hn IH]; intros pre lo k Hp Hb Hlo Hk Hl Hf.
  - exists (pre ++ lo :: replicate k 0). cbn [shifted_rows lval]. split; [done|].
    assert (2 ^ bs < 2 ^ 64) by (apply Z.pow_lt_mono_r; lia).
    split; [apply words_app; split; [done|apply words_cons; split; [unfold is_word; lia|apply words_zeros]]|].
    rewrite length_app. cbn [length]. rewrite length_replicate. split; [done|].
    rewrite lval_app. cbn [lval]. rewrite lval_zeros. lia.
  - cbn [shifted_rows lval length] in *. rewrite length_app. cbn [length]. rewrite length_replicate.
    rewrite decide_True by lia. cbv zeta. rewrite word_at_middle, insert_middle.
    destruct (shift_word x lo bs Hx Hb Hlo) as (Hy & Hh & Ey).
    set (y := Z.lor lo (wrap64 (Z.shiftl x bs))) in *. set (hi := Z.shiftr x (64 - bs)) in *.
    pose proof (lval_bound n Hn). pose proof (lval_bound pre Hp). pose proof (radix_pos (length pre)).
    assert (0 < 2 ^ bs) by (apply Z.pow_pos_nonneg; lia).
    assert (Hpy : words (pre ++ [y])) by (apply words_app; split; [done|by apply Forall_singleton]).
    assert (Lpy : length (pre ++ [y]) = S (length pre)) by (rewrite length_app; simpl; lia).
    assert (Vpy : lval (pre ++ [y]) = lval pre + radix (length pre) * y) by (rewrite lval_app; cbn [lval]; lia).
    destruct k as [|k].
    + assert (n = []) as -> by (destruct n; [done|simpl in Hl; lia]). cbn [lval shifted_rows] in *.
      rewrite bool_decide_false, andb_false_r by lia. exists (pre ++ [y]). split; [done|]. split; [done|].
      split; [lia|]. rewrite Vpy. assert (hi = 0); [|lia].
      pose proof (lval_bound _ Hpy). rewrite Lpy, radix_S in *.
      replace (2 * RSA_MAX_LIMBS)%nat with (S (length pre)) in Hf by lia. rewrite radix_S in Hf. nia.
    + assert (Esub : (if (0 <? bs) && bool_decide (length pre + 1 < 2 * RSA_MAX_LIMBS)%nat
        then <[(length pre + 1)%nat := Z.lor (word_at (pre ++ y :: replicate (S k) 0) (length pre + 1)) hi]>
          (pre ++ y :: replicate (S k) 0)
        else pre ++ y :: replicate (S k) 0) = (pre ++ [y]) ++ hi :: replicate k 0).
      { replace (length pre + 1)%nat with (length (pre ++ [y])) by lia.
        replace (pre ++ y :: replicate (S k) 0) with ((pre ++ [y]) ++ 0 :: replicate k 0)
          by (by rewrite <- app_assoc).
        rewrite word_at_middle, insert_middle, bool_decide_true, andb_true_r by lia.
        destruct (Z.ltb_spec 0 bs); [by rewrite Z.lor_0_l|].
        assert (bs = 0) as -> by lia. change (2 ^ 0) with 1 in *. assert (hi = 0) as -> by lia. done. }
      rewrite Esub, <- Lpy. destruct (IH (pre ++ [y]) hi k) as (out & -> & Ho & Lo & Vo);
        [done|done|done|lia|lia| |].
      { rewrite Vpy, Lpy, radix_S. nia. }
      exists out. split; [done|]. split; [done|]. split; [done|]. rewrite Vo, Vpy, Lpy, radix_S. nia.
Qed.

Lemma shifted_ok n shift : words n → 0 ≤ shift →
  (Z.to_nat (shift / 64) + length n ≤ 2 * RSA_MAX_LIMBS)%nat → (0 < length n)%nat →
  lval n * 2 ^ shift < radix (2 * RSA_MAX_LIMBS) →
  ∃ sub, shifted n shift = Ret sub ∧ words sub ∧ length sub = (2 * RSA_MAX_LIMBS)%nat ∧
    lval sub = lval n * 2 ^ shift.
Proof.
  intros Hn Hs Hl Hpos Hf. unfold shifted. set (q := Z.to_nat (shift / 64)) in *.
  assert (0 ≤ shift / 64) by (apply Z.div_pos; lia).
  pose proof (Z.div_mod shift 64 ltac:(lia)). pose proof (Z.mod_pos_bound shift 64 ltac:(lia)).
  assert (Ep : radix q * 2 ^ (shift mod 64) = 2 ^ shift).
  { unfold radix, q. rewrite Z2Nat.id by done. rewrite <- Z.pow_add_r by lia. f_equal. lia. }
  assert (Es : replicate (2 * RSA_MAX_LIMBS) 0 =
    replicate q 0 ++ 0 :: replicate (2 * RSA_MAX_LIMBS - q - 1) 0).
  { change (0 :: replicate ?k 0) with (replicate (S k) 0). rewrite <- replicate_add. f_equal. lia. }
  destruct (shifted_rows_ok n (replicate q 0) 0 (2 * RSA_MAX_LIMBS - q - 1) (shift mod 64)) as (out & Eo & Ho & Lo & Vo);
    [done|apply words_zeros|done| |rewrite length_replicate; lia|lia| |].
  - split; [done|]. apply Z.pow_pos_nonneg; lia.
  - rewrite lval_zeros, length_replicate. nia.
  - rewrite length_replicate in Eo. rewrite Es. exists out. split; [done|]. split; [done|]. split; [done|].
    rewrite Vo, lval_zeros, length_replicate. nia.
Qed.

(** ** Bit lengths *)

Definition bit_length (v : Z) : Z := if v =? 0 then 0 else Z.log2 v + 1.

Lemma bit_length_bounds v : 0 ≤ v → 0 ≤ bit_length v ∧ v < 2 ^ bit_length v ∧
  (0 < v → 0 < bit_length v ∧ 2 ^ (bit_length v - 1) ≤ v).
Proof.
  intros Hv. unfold bit_length. destruct (Z.eqb_spec v 0) as [->|]; [lia|].
  pose proof (Z.log2_spec v ltac:(lia)). pose proof (Z.log2_nonneg v).
  rewrite <- Z.add_1_r in *. rewrite Z.add_simpl_r. lia.
Qed.

Lemma bit_length_unique v k : 0 < k → 2 ^ (k - 1) ≤ v < 2 ^ k → bit_length v = k.
Proof.
  intros Hk Hv. assert (0 < 2 ^ (k - 1)) by (apply Z.pow_pos_nonneg; lia).
  unfold bit_length. destruct (Z.eqb_spec v 0); [lia|].
  rewrite (Z.log2_unique v (k - 1)); [lia|lia|]. by replace (Z.succ (k - 1)) with k by lia.
Qed.

Lemma bitlen_ok l : words l → rsa_limbs_bitlen l = bit_length (lval l).
Proof.
  unfold rsa_limbs_bitlen. induction l as [|x l IH] using rev_ind; intros Hl; [done|].
  apply words_app in Hl as [Hl Hx]. apply words_cons in Hx as [Hx _].
  rewrite rev_app_distr, lval_app. cbn [rev app bitlen_from lval]. rewrite length_rev, Z.mul_0_r, Z.add_0_r.
  pose proof (lval_bound l Hl). unfold is_word in Hx. destruct (Z.eqb_spec x 0) as [->|Hne]; cbn [negb].
  { rewrite IH by done. f_equal. lia. }
  unfold leading_zeros. destruct (Z.eqb_spec x 0); [done|].
  pose proof (Z.log2_spec x ltac:(lia)) as Hlog. pose proof (Z.log2_nonneg x).
  symmetry. replace (Z.of_nat (length l) * 64 + 64 - (63 - Z.log2 x))
    with (64 * Z.of_nat (length l) + Z.succ (Z.log2 x)) by lia.
  apply bit_length_unique; [lia|].
  replace (64 * Z.of_nat (length l) + Z.succ (Z.log2 x) - 1) with (64 * Z.of_nat (length l) + Z.log2 x) by lia.
  rewrite !Z.pow_add_r by lia. unfold radix in *. nia.
Qed.

(** ** The shift-and-subtract reduction *)

Lemma lval_pos_length l : 0 < lval l → (0 < length l)%nat.
Proof. destruct l; simpl; lia. Qed.

Section Reduce.
Context (n : list Z) (Hn : words n) (HN : 0 < lval n) (HL : (length n ≤ RSA_MAX_LIMBS)%nat).
Let L : nat := length n.
Let N : Z := lval n.
Let n_bits : Z := rsa_limbs_bitlen n.

(** A buffer whose value lies in its first [2 * num_limbs] words. *)
Definition buffer (work : list Z) : Prop :=
  words work ∧ length work = (2 * RSA_MAX_LIMBS)%nat ∧ lval work < radix (2 * L).

Lemma buffer_take work : buffer work →
  words (take (2 * L) work) ∧ length (take (2 * L) work) = (2 * L)%nat ∧
  lval (take (2 * L) work) = lval work ∧ lval (drop (2 * L) work) = 0.
Proof.
  intros (Hw & Lw & Bw). assert (Hl : (2 * L ≤ length work)%nat) by (unfold L; lia).
  split; [by apply Forall_take|]. split; [rewrite length_take; lia|].
  pose proof (lval_take work (2 * L) Hw Hl Bw) as E. split; [done|].
  assert (Ev : lval work = lval (take (2 * L) work) + radix (2 * L) * lval (drop (2 * L) work)).
  { rewrite <- (take_drop (2 * L) work) at 1. rewrite lval_app, length_take, Nat.min_l by lia. done. }
  pose proof (radix_pos (2 * L)). nia.
Qed.

Lemma n_bits_ok : 0 < n_bits ≤ 64 * Z.of_nat L ∧ 2 ^ (n_bits - 1) ≤ N < 2 ^ n_bits.
Proof.
  unfold n_bits. rewrite bitlen_ok by done. fold N. pose proof (lval_bound n Hn) as Hb. fold L N in Hb.
  destruct (bit_length_bounds N ltac:(lia)) as (H0 & H1 & H2). destruct (H2 HN) as [H3 H4].
  split; [|done]. split; [done|]. destruct (Z.le_gt_cases (bit_length N) (64 * Z.of_nat L)); [done|].
  assert (radix L ≤ 2 ^ (bit_length N - 1)); [|lia]. apply Z.pow_le_mono_r; lia.
Qed.

Lemma subtract_shifted_ok fuel shift work :
  0 ≤ shift → shift < Z.of_nat fuel → shift ≤ 64 * Z.of_nat L →
  buffer work → N * 2 ^ shift < radix (2 * L) → lval work < N * 2 ^ (shift + 1) →
  ∃ r, subtract_shifted fuel n shift work = Ret r ∧
    match r with
    | None => lval work < N
    | Some w => buffer w ∧ ∃ j, 0 ≤ j ≤ shift ∧ lval w = lval work - N * 2 ^ j ∧ 0 ≤ lval w ∧
        lval w < N * 2 ^ j ∧ (j = shift ∨ lval w < N * 2 ^ (shift - 1))
    end.
Proof.
  revert shift. induction fuel as [|fuel IH]; intros shift Hs Hf HsL Hw Hr Hlt; [lia|].
  pose proof (buffer_take work Hw) as (Tw & Lw & Vw & Dw). destruct Hw as (Hw & Lwk & Bw).
  assert (HLp : (0 < L)%nat) by by apply lval_pos_length.
  assert (Er : radix (2 * L) ≤ radix (2 * RSA_MAX_LIMBS)) by (apply Z.pow_le_mono_r; unfold L; lia).
  assert (Hq : (Z.to_nat (shift / 64) + length n ≤ 2 * RSA_MAX_LIMBS)%nat).
  { assert (shift / 64 ≤ Z.of_nat L) by (apply Z.div_le_upper_bound; lia). fold L.
    assert (0 ≤ shift / 64) by (apply Z.div_pos; lia). unfold L in *. lia. }
  destruct (shifted_ok n shift Hn Hs Hq HLp) as (sub & Es & Hsub & Lsub & Vsub); [fold N; lia|].
  cbn [subtract_shifted]. cbv zeta. rewrite Es. cbn [mbind outcome_bind]. fold L.
  pose proof (buffer_take sub) as Hb. destruct Hb as (Ts & Ls & Vs & _).
  { split; [done|]. split; [done|]. rewrite Vsub. exact Hr. }
  fold N in Vsub. rewrite limbs_ge_ok by (done || congruence). rewrite Vs, Vw, Vsub.
  assert (Hp2 : 0 < 2 ^ shift) by (apply Z.pow_pos_nonneg; lia).
  rewrite Z.pow_add_r in Hlt by lia. change (2 ^ 1) with 2 in Hlt.
  destruct (Z.leb_spec (N * 2 ^ shift) (lval work)) as [Hge|Hless].
  - destruct (sub_limbs_ok (take (2 * L) work) (take (2 * L) sub) 0) as (out & br & -> & Ho & Lo & Hbr & Vo);
      [congruence|done|done|by left|]. cbn [fst]. rewrite Vw, Vs, Vsub, Lw in *.
    pose proof (lval_bound out Ho). rewrite Lo in *. pose proof (radix_pos (2 * L)).
    assert (br = 0) as -> by (destruct Hbr; [done|nia]).
    eexists. split; [reflexivity|].
    assert (Ew : lval (out ++ drop (2 * L) work) = lval work - N * 2 ^ shift)
      by (rewrite lval_app, Dw; lia).
    split; [split; [|split]|].
    + apply words_app. split; [done|by apply Forall_drop].
    + rewrite length_app, length_drop, Lo. unfold L in *. lia.
    + lia.
    + exists shift. rewrite Ew. split; [lia|]. split; [done|]. split; [lia|]. split; [lia|by left].
  - destruct (Z.eqb_spec shift 0) as [->|Hne].
    { exists None. split; [done|]. by rewrite Z.pow_0_r, Z.mul_1_r in Hless. }
    assert (E2 : 2 ^ shift = 2 * 2 ^ (shift - 1)) by (rewrite <- Z.pow_succ_r by lia; f_equal; lia).
    destruct (IH (shift - 1)) as (r & Er' & Hr'); [lia|lia|lia|done|nia| |].
    { replace (shift - 1 + 1) with shift by lia. lia. }
    exists r. split; [done|]. destruct r as [w|]; [|done]. destruct Hr' as (Hb' & j & Hj & Vj & Pj & Lj & Oj).
    split; [done|]. exists j. split; [lia|]. split; [done|]. split; [done|]. split; [done|]. right.
    assert (2 ^ j ≤ 2 ^ (shift - 1)) by (apply Z.pow_le_mono_r; lia). nia.
Qed.

(** A round that is not the last takes a bit off the buffer. *)
Lemma reduce_round work :
  buffer work → lval work < N * radix L → n_bits ≤ bit_length (lval work) →
  let w_bits := bit_length (lval work) in
  ∃ r, subtract_shifted (S (Z.to_nat (w_bits - n_bits))) n (w_bits - n_bits) work = Ret r ∧
    match r with
    | None => lval work < N
    | Some w => buffer w ∧ lval w < 2 ^ (w_bits - 1) ∧ lval w ≤ lval work ∧
        lval w mod N = lval work mod N
    end.
Proof.
  intros Hb HNR Hge w_bits. pose proof n_bits_ok as (Bn & Bn1 & Bn2).
  pose proof (lval_bound work (proj1 Hb)). set (W := lval work) in *.
  destruct (bit_length_bounds W ltac:(lia)) as (W0 & W1 & W2). fold w_bits in W0, W1, W2, Hge.
  assert (HW : 0 < W).
  { destruct (Z.eqb_spec W 0) as [E|]; [|lia]. exfalso.
    assert (w_bits = 0) by (unfold w_bits; by rewrite E). lia. }
  destruct (W2 HW) as [W3 W4]. set (shift := w_bits - n_bits).
  assert (HwL : w_bits ≤ n_bits + 64 * Z.of_nat L).
  { destruct (Z.le_gt_cases w_bits (n_bits + 64 * Z.of_nat L)); [done|].
    assert (2 ^ (n_bits + 64 * Z.of_nat L) ≤ 2 ^ (w_bits - 1)) by (apply Z.pow_le_mono_r; lia).
    rewrite Z.pow_add_r in * by lia. unfold radix in HNR. nia. }
  assert (Hw2 : 2 ^ w_bits ≤ radix (2 * L)).
  { destruct Hb as (_ & _ & Bw). fold W in Bw.
    destruct (Z.le_gt_cases w_bits (64 * Z.of_nat (2 * L))); [by apply Z.pow_le_mono_r; lia|].
    assert (radix (2 * L) ≤ 2 ^ (w_bits - 1)) by (apply Z.pow_le_mono_r; lia). lia. }
  assert (E1 : 2 ^ w_bits = 2 ^ n_bits * 2 ^ shift) by (rewrite <- Z.pow_add_r by lia; f_equal; lia).
  assert (E2 : 2 ^ n_bits = 2 * 2 ^ (n_bits - 1)) by (rewrite <- Z.pow_succ_r by lia; f_equal; lia).
  assert (E3 : 2 ^ w_bits = 2 * 2 ^ (w_bits - 1)) by (rewrite <- Z.pow_succ_r by lia; f_equal; lia).
  assert (Hp : 0 < 2 ^ shift) by (apply Z.pow_pos_nonneg; lia).
  destruct (subtract_shifted_ok (S (Z.to_nat shift)) shift work) as (r & Er & Hr); [lia|lia|lia|done|nia| |].
  { fold W. rewrite Z.pow_add_r by lia. change (2 ^ 1) with 2. nia. }
  exists r. split; [done|]. destruct r as [w|]; [|done]. fold W in Hr.
  destruct Hr as (Hbw & j & Hj & Vj & Pj & Lj & Oj).
  assert (Hpj : 0 < 2 ^ j) by (apply Z.pow_pos_nonneg; lia).
  split; [done|]. split; [|split; [nia|]].
  - destruct Oj as [->|Oj]; [nia|]. destruct (Z.eqb_spec shift 0) as [E0|].
    + assert (j = 0) as -> by lia. rewrite E0 in *. change (2 ^ 0) with 1 in *. lia.
    + assert (2 ^ shift = 2 * 2 ^ (shift - 1)) by (rewrite <- Z.pow_succ_r by lia; f_equal; lia). nia.
  - rewrite Vj. replace (W - N * 2 ^ j) with (W + - 2 ^ j * N) by lia. apply Z_mod_plus_full.
Qed.

Lemma reduce_loop_S fuel work :
  reduce_loop (S fuel) n n_bits work =
  let w_bits := rsa_limbs_bitlen (take (2 * length n) work) in
  if w_bits <? n_bits then Ret work else
  next ← subtract_shifted (S (Z.to_nat (w_bits - n_bits))) n (w_bits - n_bits) work;
  match next with None => Ret work | Some work => reduce_loop fuel n n_bits work end.
Proof. reflexivity. Qed.

Lemma reduce_loop_ok fuel work :
  buffer work → lval work < 2 ^ Z.of_nat fuel → lval work < N * radix L →
  ∃ out, reduce_loop (S fuel) n n_bits work = Ret out ∧ buffer out ∧
    lval out < N ∧ lval out mod N = lval work mod N.
Proof.
  revert work. induction fuel as [|fuel IH]; intros work Hb Hf HNR; rewrite reduce_loop_S; cbv zeta; fold L;
    pose proof (buffer_take work Hb) as (Tw & _ & Vw & _); rewrite (bitlen_ok _ Tw), Vw;
    pose proof (lval_bound work (proj1 Hb)); pose proof n_bits_ok as (Bn & Bn1 & _);
    destruct (bit_length_bounds (lval work) ltac:(lia)) as (W0 & W1 & W2);
    (destruct (Z.ltb_spec (bit_length (lval work)) n_bits) as [Hlt|Hge];
      [exists work; split; [done|]; split; [done|]; split; [|done];
       assert (2 ^ bit_length (lval work) ≤ 2 ^ (n_bits - 1)) by (apply Z.pow_le_mono_r; lia); lia|]).
  - exfalso. simpl in Hf. assert (E : lval work = 0) by lia. rewrite E in Hge.
    change (bit_length 0) with 0 in Hge. lia.
  - destruct (reduce_round work Hb HNR Hge) as (r & -> & Hr). cbn [mbind outcome_bind].
    destruct r as [w|]; [|by exists work]. destruct Hr as (Hbw & Bw & Dw & Mw).
    destruct (IH w Hbw) as (out & -> & Ho & Bo & Mo); [|lia|].
    + eapply Z.lt_le_trans; [exact Bw|]. apply Z.pow_le_mono_r; [lia|].
      destruct (Z.le_gt_cases (bit_length (lval work) - 1) (Z.of_nat fuel)); [done|].
      assert (Hw : 0 < lval work) by (destruct (Z.eqb_spec (lval work) 0) as [E|]; [rewrite E in *; change (bit_length 0) with 0 in *; lia|lia]).
      destruct (W2 Hw) as [_ W4].
      assert (2 ^ Z.of_nat (S fuel) ≤ 2 ^ (bit_length (lval work) - 1)) by (apply Z.pow_le_mono_r; lia). lia.
    + exists out. split; [done|]. split; [done|]. split; [done|]. congruence.
Qed.
End Reduce.

(** ** Montgomery form *)

Lemma gcd_pow2 N k : Z.odd N = true → Z.gcd N (2 ^ Z.of_nat k) = 1.
Proof.
  intros Ho. assert (H2 : Z.gcd N 2 = 1).
  { apply Z.odd_spec in Ho as [b ->]. rewrite Z.gcd_comm. apply Z.bezout_1_gcd. exists (- b), 1. lia. }
  induction k as [|k IH]; [apply Z.gcd_1_r|]. rewrite Nat2Z.inj_succ, Z.pow_succ_r by lia.
  by apply Z.coprime_mul_r.
Qed.

Lemma radix_coprime N k : Z.odd N = true → Z.gcd N (radix k) = 1.
Proof.
  intros Ho. unfold radix. replace (64 * Z.of_nat k) with (Z.of_nat (64 * k)) by lia. by apply gcd_pow2.
Qed.

Lemma cancel_mod N R u v : 0 < N → Z.gcd N R = 1 → (u * R) mod N = (v * R) mod N → u mod N = v mod N.
Proof.
  intros HN Hr E. assert (Hd : (N | R * (u - v))).
  { apply Z.mod_divide; [lia|]. replace (R * (u - v)) with (u * R - v * R) by ring.
    by rewrite Zminus_mod, E, Z.sub_diag, Z.mod_0_l by lia. }
  apply Z.gauss in Hd as [q Hq]; [|done]. replace u with (v + q * N) by lia. apply Z_mod_plus_full.
Qed.

(** A word is a part of the number, and a bit of the word one of the number. *)
Lemma word_at_lval l q : words l → word_at l q = (lval l / radix q) mod 2 ^ 64.
Proof.
  intros Hl. revert q. induction Hl as [|x l Hx Hl IH]; intros q.
  - unfold word_at. rewrite lookup_nil. cbn [lval]. by rewrite Z.div_0_l by (pose proof (radix_pos q); lia).
  - unfold is_word in Hx. destruct q as [|q].
    + change (word_at (x :: l) 0) with x. cbn [lval]. rewrite radix_0, Z.div_1_r.
      rewrite (Z.mul_comm (2 ^ 64)), Z.mod_add, Z.mod_small; lia.
    + change (word_at (x :: l) (S q)) with (word_at l q). rewrite IH. cbn [lval]. f_equal.
      pose proof (radix_pos q). rewrite radix_S, <- Z.div_div by lia.
      rewrite (Z.mul_comm (2 ^ 64)), Z.div_add, (Z.div_small x) by lia. done.
Qed.

Lemma exp_bit exp bit : words exp →
  negb (Z.land (Z.shiftr (word_at exp (bit / 64)) (Z.of_nat (bit mod 64))) 1 =? 0) =
  Z.testbit (lval exp) (Z.of_nat bit).
Proof.
  intros He. pose proof (Nat.div_mod bit 64 ltac:(lia)) as D.
  pose proof (Nat.mod_upper_bound bit 64 ltac:(lia)). rewrite (word_at_lval exp _ He).
  set (q := (bit / 64)%nat) in *. set (r := (bit mod 64)%nat) in *. clearbody q r.
  set (v := (lval exp / radix q) mod 2 ^ 64).
  assert (E : Z.land (Z.shiftr v (Z.of_nat r)) 1 = Z.b2z (Z.testbit v (Z.of_nat r))).
  { rewrite Z.testbit_spec', Z.shiftr_div_pow2 by lia. apply (Z.land_ones _ 1). lia. }
  rewrite E. unfold v. rewrite Z.mod_pow2_bits_low by lia. unfold radix.
  rewrite Z.div_pow2_bits by lia. replace (Z.of_nat r + 64 * Z.of_nat q) with (Z.of_nat bit) by lia.
  by destruct (Z.testbit (lval exp) (Z.of_nat bit)).
Qed.

Lemma mod_pow2_succ v k : 0 ≤ k →
  v mod (2 * 2 ^ k) = (if Z.testbit v k then 2 ^ k else 0) + v mod 2 ^ k.
Proof.
  intros Hk. assert (0 < 2 ^ k) by (apply Z.pow_pos_nonneg; lia).
  rewrite (Z.mul_comm 2), Z.rem_mul_r by lia. rewrite Z.add_comm. f_equal.
  rewrite <- Z.testbit_spec' by lia. destruct (Z.testbit v k); cbn [Z.b2z]; lia.
Qed.

Section Power.
Context (n : list Z) (Hn : words n) (HN : 1 < lval n) (Hodd : Z.odd (lval n) = true).
Context (HL : (length n ≤ RSA_MAX_LIMBS)%nat) (np : Z).
Context (Hinv : (2 ^ 64 | lval n * np + 1)).
Let L : nat := length n.
Let N : Z := lval n.
Let R : Z := radix L.

(** The limbs [x] are the Montgomery form of [v]. *)
Definition mont (x : list Z) (v : Z) : Prop :=
  words x ∧ length x = L ∧ lval x < N ∧ lval x mod N = (v * R) mod N.

Lemma R_prime : Z.gcd N R = 1.
Proof. by apply radix_coprime. Qed.

(** Multiplying forms multiplies the values. *)
Lemma mont_mul_mont a b x y : mont a x → mont b y →
  ∃ r, rsa_mont_mul a b n np = Ret r ∧ mont r (x * y).
Proof.
  intros (Ha & La & Ba & Ea) (Hb & Lb & Bb & Eb).
  destruct (mont_mul_ok n Hn np Hinv a b Ha La Hb Lb Bb) as (r & Er & Hr & Lr & Br & Vr).
  exists r. split; [done|]. split; [done|]. split; [done|]. split; [done|].
  apply (cancel_mod N R); [unfold N; lia|apply R_prime|]. fold N L R in Vr.
  rewrite Vr, Zmult_mod, Ea, Eb, <- Zmult_mod. f_equal. ring.
Qed.

Lemma one_mont : mont (r_mod n) 1.
Proof.
  destruct (r_mod_ok n Hn HN) as (H1 & L1 & V1). fold L N R in L1, V1.
  split; [done|]. split; [done|]. rewrite V1, Z.mul_1_l, Zmod_mod. split; [|done].
  apply Z.mod_pos_bound. unfold N. lia.
Qed.

Lemma to_mont_ok a : words a → length a = L →
  ∃ r, rsa_to_mont a n np = Ret r ∧ mont r (lval a).
Proof.
  intros Ha La. unfold rsa_to_mont. cbv zeta. fold L.
  destruct one_mont as (H1 & L1 & B1 & V1). set (r := r_mod n) in *.
  pose proof (lval_bound r H1) as Br. pose proof (lval_bound n Hn) as Bn. fold N L R in Bn. rewrite L1 in Br. fold R in Br.
  assert (Er : radix (2 * L) = R * R) by (unfold R; rewrite <- radix_add; f_equal; lia).
  assert (Em : radix (2 * L) ≤ radix (2 * RSA_MAX_LIMBS)) by (apply Z.pow_le_mono_r; lia).
  destruct (square_rows_ok r r 0 (replicate (2 * RSA_MAX_LIMBS) 0)) as (p & -> & Hp & Lp & Vp);
    [done|done|apply words_zeros|rewrite length_replicate; lia| |].
  { rewrite lval_zeros, length_replicate, radix_0. nia. }
  rewrite lval_zeros, radix_0, length_replicate, Z.mul_1_l, Z.add_0_l in *. cbn [mbind outcome_bind].
  assert (Hb : buffer n p) by (split; [done|split; [done|fold L; nia]]).
  destruct (reduce_loop_ok n Hn ltac:(lia) HL (2 * RSA_MAX_LIMBS * 64) p Hb) as (w & -> & (Hw & Lw & Bw) & Bw' & Mw).
  { pose proof (lval_bound p Hp) as Bp. rewrite Lp in Bp.
    replace (Z.of_nat (2 * RSA_MAX_LIMBS * 64)) with (64 * Z.of_nat (2 * RSA_MAX_LIMBS)) by lia. apply Bp. }
  { fold N L R. nia. }
  cbn [mbind outcome_bind]. fold N in Bw', Mw.
  assert (Vw : lval (take L w) = lval w) by (apply lval_take; [done|rewrite Lw; lia|fold R; lia]).
  destruct (mont_mul_ok n Hn np Hinv a (take L w)) as (x & Ex & Hx & Lx & Bx & Vx);
    [done|done|by apply Forall_take|rewrite length_take, Lw; lia|fold N; lia|].
  exists x. split; [done|]. split; [done|]. split; [done|]. split; [done|].
  apply (cancel_mod N R); [unfold N; lia|apply R_prime|]. fold N L R in Vx.
  rewrite Vx, Vw, <- Zmult_mod_idemp_r, Mw, Vp, (Zmult_mod (lval r)), V1, <- Zmult_mod, Zmult_mod_idemp_r.
  f_equal. ring.
Qed.

(** After the bits [k - 1] down to 0 the exponent so far, [E], has them appended. *)
Lemma pow_loop_ok k exp base result x E :
  words exp → length exp = RSA_MAX_LIMBS → (k ≤ 64 * RSA_MAX_LIMBS)%nat → 0 ≤ E →
  mont base x → mont result (x ^ E) →
  ∃ r, pow_loop k exp base n np result = Ret r ∧
    mont r (x ^ (E * 2 ^ Z.of_nat k + lval exp mod 2 ^ Z.of_nat k)).
Proof.
  intros Hexp Lexp Hk HE Hbase. revert result E HE Hk.
  induction k as [|k IH]; intros result E HE Hk Hres.
  { exists result. cbn [pow_loop]. change (2 ^ Z.of_nat 0) with 1.
    rewrite Z.mod_1_r, Z.mul_1_r, Z.add_0_r. done. }
  cbn [pow_loop]. destruct (mont_mul_mont _ _ _ _ Hres Hres) as (sq & -> & Hsq). cbn [mbind outcome_bind].
  rewrite <- Z.pow_add_r in Hsq by done. rewrite exp_bit by done.
  assert (Hlt : bool_decide (k / 64 < RSA_MAX_LIMBS)%nat = true).
  { apply bool_decide_true. apply Nat.Div0.div_lt_upper_bound. lia. }
  rewrite Hlt, andb_true_l. clear Hlt.
  assert (Ev : lval exp mod 2 ^ Z.of_nat (S k) =
    (if Z.testbit (lval exp) (Z.of_nat k) then 2 ^ Z.of_nat k else 0) + lval exp mod 2 ^ Z.of_nat k).
  { rewrite Nat2Z.inj_succ, (Z.pow_succ_r 2) by lia. apply mod_pow2_succ. lia. }
  assert (Ep : 2 ^ Z.of_nat (S k) = 2 * 2 ^ Z.of_nat k) by (rewrite Nat2Z.inj_succ, Z.pow_succ_r; lia).
  rewrite Ev, Ep. destruct (Z.testbit (lval exp) (Z.of_nat k)).
  - destruct (mont_mul_mont _ _ _ _ Hsq Hbase) as (mu & -> & Hmu). cbn [mbind outcome_bind].
    destruct (IH mu (E + E + 1)) as (r & -> & Hr); [lia|lia| |].
    { rewrite Z.pow_add_r, Z.pow_1_r by lia. done. }
    exists r. split; [done|]. set (p := 2 ^ Z.of_nat k) in *. set (m := lval exp mod p) in *.
    by replace (E * (2 * p) + (p + m)) with ((E + E + 1) * p + m) by ring.
  - cbn [mbind outcome_bind]. destruct (IH sq (E + E)) as (r & -> & Hr); [lia|lia|done|].
    exists r. split; [done|]. set (p := 2 ^ Z.of_nat k) in *. set (m := lval exp mod p) in *.
    by replace (E * (2 * p) + (0 + m)) with ((E + E) * p + m) by ring.
Qed.

Lemma mod_pow_ok base exp :
  words base → length base = L → words exp → length exp = RSA_MAX_LIMBS →
  ∃ r, rsa_mod_pow base exp (bit_length (lval exp)) n np = Ret r ∧
    words r ∧ length r = L ∧ lval r = lval base ^ lval exp mod N.
Proof.
  intros Hb Lb He Le. unfold rsa_mod_pow. destruct (to_mont_ok base Hb Lb) as (bm & -> & Hbm).
  cbn [mbind outcome_bind]. pose proof (lval_bound exp He) as Be. rewrite Le in Be.
  destruct (bit_length_bounds (lval exp) ltac:(lia)) as (B0 & B1 & B2).
  assert (Bk : bit_length (lval exp) ≤ 64 * Z.of_nat RSA_MAX_LIMBS).
  { destruct (Z.le_gt_cases (bit_length (lval exp)) (64 * Z.of_nat RSA_MAX_LIMBS)); [done|].
    assert (lval exp ≠ 0) by (intros E; rewrite E in *; change (bit_length 0) with 0 in *; lia).
    destruct B2 as [_ B2]; [lia|].
    assert (radix RSA_MAX_LIMBS ≤ 2 ^ (bit_length (lval exp) - 1)) by (apply Z.pow_le_mono_r; lia). lia. }
  destruct (pow_loop_ok (Z.to_nat (bit_length (lval exp))) exp bm (r_mod n) (lval base) 0) as (r & -> & Hr);
    [done|done|lia|lia|done|apply one_mont|].
  rewrite Z2Nat.id, Z.mul_0_l, Z.add_0_l, Z.mod_small in Hr by lia. cbn [mbind outcome_bind].
  destruct (one_limbs (length n)) as (H1 & L1 & V1); [apply lval_pos_length; lia|].
  destruct Hr as (Hrw & Lr & Br & Vr).
  destruct (mont_mul_ok n Hn np Hinv r (1 :: replicate (length n - 1) 0)) as (u & Eu & Hu & Lu & Bu & Vu);
    [done|done|done|done|lia|].
  exists u. split; [done|]. split; [done|]. split; [done|]. rewrite V1, Z.mul_1_r in Vu.
  fold L in Vu, Lu. fold N in Vu, Bu. fold R in Vu.
  pose proof (lval_bound u Hu). rewrite <- (Z.mod_small (lval u) N) by lia.
  apply (cancel_mod N R); [unfold N; lia|apply R_prime|]. by rewrite Vu.
Qed.
End Power.
