(* ===== verification/RsaTheorems.v ===== *)
(** * RSA: conversions and the public-key operation

    The byte and limb conversions are the big-endian number and back, and
    [rsa_public_key_op] answers [s^e mod n] in the bytes of the modulus' length,
    with each of its refusals as the code decides them. *)

From stdpp Require Import base tactics decidable numbers list.
From Stdlib Require Import ZArith Lia Bool.
From S2P Require Import Prelude Bytes Limbs Rsa RsaMont.

(** ** Bytes to limbs *)

Lemma lval_insert l q y : (q < length l)%nat →
  lval (<[q := y]> l) = lval l + radix q * (y - word_at l q).
Proof.
  revert q. induction l as [|x l IH]; intros [|q] Hq; simpl in Hq; try lia.
  - change (<[0%nat := y]> (x :: l)) with (y :: l). change (word_at (x :: l) 0) with x.
    cbn [lval]. rewrite radix_0. lia.
  - change (<[S q := y]> (x :: l)) with (x :: <[q := y]> l).
    change (word_at (x :: l) (S q)) with (word_at l q). cbn [lval]. rewrite IH, radix_S by lia. ring.
Qed.

Lemma pow256 k : 0 ≤ k → 256 ^ k = 2 ^ (8 * k).
Proof. intros. change 256 with (2 ^ 8). by rewrite <- Z.pow_mul_r by lia. Qed.

(** The byte at [pos] goes where the number has only zeros. *)
Lemma put_byte_ok len limbs i b V pos :
  words limbs → is_byte b → 0 ≤ V → pos = (len - 1 - i)%nat → (pos / 8 < length limbs)%nat →
  lval limbs = V * 256 ^ (Z.of_nat pos + 1) →
  words (put_byte len limbs (i, b)) ∧ length (put_byte len limbs (i, b)) = length limbs ∧
  lval (put_byte len limbs (i, b)) = (256 * V + b) * 256 ^ Z.of_nat pos.
Proof.
  intros Hw Hb HV Hpos Hq Ev. unfold put_byte. cbn [fst snd]. rewrite <- Hpos. cbv zeta. unfold is_byte in Hb.
  pose proof (Nat.div_mod pos 8 ltac:(lia)) as D. pose proof (Nat.mod_upper_bound pos 8 ltac:(lia)) as Br.
  set (q := (pos / 8)%nat) in *. set (r := (pos mod 8)%nat) in *.
  set (k := 8 * Z.of_nat r). assert (Hk : 0 ≤ k ≤ 56) by (unfold k; lia).
  assert (E256 : 256 ^ Z.of_nat pos = radix q * 2 ^ k).
  { rewrite pow256 by lia. unfold radix, k. rewrite <- Z.pow_add_r by lia. f_equal. lia. }
  assert (E1 : 256 ^ (Z.of_nat pos + 1) = radix q * 2 ^ (k + 8)).
  { rewrite Z.pow_add_r, E256, Z.pow_add_r by lia. ring. }
  assert (Hp : 0 < 2 ^ k) by (apply Z.pow_pos_nonneg; lia). pose proof (radix_pos q).
  assert (Ep : 2 ^ 64 = 2 ^ (56 - k) * 2 ^ (k + 8)) by (rewrite <- Z.pow_add_r by lia; f_equal; lia).
  assert (Ek8 : 2 ^ (k + 8) = 256 * 2 ^ k) by (rewrite Z.pow_add_r by lia; lia).
  assert (Hp2 : 0 < 2 ^ (56 - k)) by (apply Z.pow_pos_nonneg; lia).
  assert (Ew : word_at limbs q = V mod 2 ^ (56 - k) * 2 ^ (k + 8)).
  { rewrite word_at_lval, Ev, E1 by done.
    replace (V * (radix q * 2 ^ (k + 8))) with (V * 2 ^ (k + 8) * radix q) by ring.
    rewrite Z.div_mul, Ep, Z.mul_mod_distr_r by lia. done. }
  replace (Z.of_nat (r * 8)) with k by lia. rewrite Z.shiftl_mul_pow2, wrap64_small by nia.
  assert (Eo : Z.lor (word_at limbs q) (b * 2 ^ k) = word_at limbs q + b * 2 ^ k).
  { rewrite Ew, Z.lor_comm, lor_shifted by nia. ring. }
  rewrite Eo. pose proof (Z.mod_pos_bound V (2 ^ (56 - k)) Hp2).
  split; [apply Forall_insert; [done|]; unfold is_word; nia|]. split; [apply length_insert|].
  rewrite lval_insert, Ev, E1, E256, Ek8 by done. ring.
Qed.

Lemma put_bytes_fold len bs i limbs V :
  (i + length bs = len)%nat → (len ≤ 8 * length limbs)%nat → is_bytes bs → words limbs → 0 ≤ V →
  lval limbs = V * 256 ^ Z.of_nat (length bs) →
  let out := fold_left (put_byte len) (zip (seq i (length bs)) bs) limbs in
  words out ∧ length out = length limbs ∧ lval out = V * 256 ^ Z.of_nat (length bs) + from_be bs.
Proof.
  revert i limbs V. induction bs as [|b bs IH]; intros i limbs V Hi Hlen Hbs Hw HV Ev out.
  - subst out. cbn [length seq zip_with fold_left] in *. split; [done|]. split; [done|].
    rewrite Ev. unfold from_be. simpl. lia.
  - apply Forall_cons_iff in Hbs as [Hb Hbs]. cbn [length] in *.
    assert (Ep : (length bs = len - 1 - i)%nat) by lia.
    assert (Hq : (length bs / 8 < length limbs)%nat) by (apply Nat.Div0.div_lt_upper_bound; lia).
    destruct (put_byte_ok len limbs i b V (length bs) Hw Hb HV Ep Hq) as (H1 & L1 & V1).
    { rewrite Ev. do 2 f_equal. lia. }
    unfold is_byte in Hb. subst out. cbn [seq zip_with fold_left zip].
    destruct (IH (S i) (put_byte len limbs (i, b)) (256 * V + b)) as (H2 & L2 & V2);
      [lia|lia|done|done|lia|done|].
    split; [done|]. split; [congruence|]. etrans; [exact V2|].
    rewrite from_be_cons, Nat2Z.inj_succ, Z.pow_succ_r by lia. ring.
Qed.

Lemma trim_limbs_ok m limbs : words limbs → (m ≤ length limbs)%nat →
  lval (take (trim_limbs m limbs) limbs) = lval (take m limbs) ∧ (trim_limbs m limbs ≤ m)%nat.
Proof.
  intros Hw. induction m as [|m IH]; intros Hm; [done|]. cbn [trim_limbs].
  destruct m as [|m]; [done|]. destruct (Z.eqb_spec (word_at limbs (S m)) 0) as [E|]; [|done].
  destruct (IH ltac:(lia)) as [IH1 IH2]. split; [|lia]. rewrite IH1.
  destruct (lookup_lt_is_Some_2 limbs (S m) ltac:(lia)) as [x Hx].
  rewrite (take_S_r limbs (S m) x Hx), lval_app. unfold word_at in E. rewrite Hx in E. cbn in E.
  subst x. cbn [lval]. lia.
Qed.

Lemma div_ceil_8 k : (k ≤ 8 * Z.to_nat (div_ceil (Z.of_nat k) 8) < k + 8)%nat.
Proof.
  unfold div_ceil. pose proof (Z.div_mod (Z.of_nat k + 8 - 1) 8 ltac:(lia)).
  pose proof (Z.mod_pos_bound (Z.of_nat k + 8 - 1) 8 ltac:(lia)).
  set (q := (Z.of_nat k + 8 - 1) / 8) in *. lia.
Qed.

(** [rsa_bytes_to_limbs] is the big-endian number; its first limbs carry it. *)
Lemma bytes_to_limbs_ok b : is_bytes b → (length b ≤ RSA_MAX_LIMBS * 8)%nat →
  ∃ limbs cnt, rsa_bytes_to_limbs b = Ret (limbs, cnt) ∧ words limbs ∧
    length limbs = RSA_MAX_LIMBS ∧ lval limbs = from_be b ∧ lval (take cnt limbs) = from_be b ∧
    lval (take (Z.to_nat (div_ceil (Z.of_nat (length b)) 8)) limbs) = from_be b.
Proof.
  intros Hb Hl. unfold rsa_bytes_to_limbs. rewrite decide_True by done. cbv zeta.
  destruct (put_bytes_fold (length b) b 0 (replicate RSA_MAX_LIMBS 0) 0) as (Hw & Lw & Vw);
    [lia|rewrite length_replicate; lia|done|apply words_zeros|lia|by rewrite lval_zeros|].
  rewrite length_replicate in Lw. rewrite Z.mul_0_l, Z.add_0_l in Vw.
  set (limbs := fold_left _ _ _) in *. pose proof (div_ceil_8 (length b)) as Hc.
  set (m := Z.to_nat (div_ceil (Z.of_nat (length b)) 8)) in *.
  assert (Hm : (m ≤ RSA_MAX_LIMBS)%nat) by (unfold RSA_MAX_LIMBS in *; lia).
  assert (Et : lval (take m limbs) = from_be b).
  { rewrite lval_take, Vw; [done|done|lia|]. rewrite Vw. pose proof (from_be_bound b Hb) as Bb.
    eapply Z.lt_le_trans; [apply Bb|]. rewrite pow256 by lia. apply Z.pow_le_mono_r; lia. }
  exists limbs, (trim_limbs m limbs). split; [done|]. split; [done|]. split; [done|]. split; [done|].
  split; [|done]. by rewrite (proj1 (trim_limbs_ok m limbs Hw ltac:(lia))).
Qed.

(** ** Limbs to bytes *)

Lemma limb_bytes_ok x : limb_bytes x = to_le 8 x.
Proof.
  unfold limb_bytes, wrap8. cbn [seq map to_le]. rewrite !Z.shiftr_div_pow2 by lia.
  rewrite !Z.div_div by lia. cbn [Z.of_nat Nat.mul]. by rewrite Z.div_1_r.
Qed.

Lemma limbs_le l : words l → concat (map limb_bytes l) = to_le (8 * length l) (lval l).
Proof.
  induction l as [|x l IH]; intros Hw; [done|]. apply words_cons in Hw as [Hx Hw].
  cbn [map concat length lval]. rewrite IH, limb_bytes_ok by done.
  replace (8 * S (length l))%nat with (8 + 8 * length l)%nat by lia.
  change (2 ^ 64) with (256 ^ Z.of_nat 8). symmetry. apply to_le_app; [exact Hx|].
  pose proof (lval_bound l Hw) as B. unfold radix in B. rewrite pow256 by lia.
  by replace (8 * Z.of_nat (8 * length l)) with (64 * Z.of_nat (length l)) by lia.
Qed.

Lemma take_to_le n m x : (n ≤ m)%nat → take n (to_le m x) = to_le n x.
Proof.
  revert m x. induction n as [|n IH]; intros [|m] x Hn; try done; [lia|].
  cbn [to_le]. rewrite firstn_cons, IH by lia. done.
Qed.

Lemma put_bytes_ok n bp bs d : length d = Nat.min bp n →
  put_bytes n bp bs (replicate (n - bp) 0 ++ d) =
  replicate (n - bp - length bs) 0 ++ rev (take (n - bp) bs) ++ d.
Proof.
  revert bp d. induction bs as [|b bs IH]; intros bp d Hd.
  - cbn [put_bytes length]. by rewrite take_nil, Nat.sub_0_r.
  - cbn [put_bytes length]. destruct (decide (bp < n)%nat) as [Hlt|Hge].
    + replace (n - bp)%nat with (S (n - S bp))%nat by lia.
      rewrite replicate_S_end, <- app_assoc. cbn [app].
      replace (n - 1 - bp)%nat with (length (replicate (n - S bp) 0)) by (rewrite length_replicate; lia).
      rewrite insert_middle, IH by (cbn [length]; lia). cbn [take rev].
      rewrite <- !app_assoc. cbn [app].
      by replace (S (n - S bp) - S (length bs))%nat with (n - S bp - length bs)%nat by lia.
    + replace (n - bp)%nat with (n - S bp)%nat by lia. rewrite IH by lia.
      replace (n - S bp)%nat with 0%nat by lia. done.
Qed.

(** [rsa_limbs_to_bytes] writes the low [n] bytes, big-endian. *)
Lemma limbs_to_bytes_ok l n : words l → (n ≤ 8 * length l)%nat →
  rsa_limbs_to_bytes l n = to_be n (lval l).
Proof.
  intros Hw Hn. unfold rsa_limbs_to_bytes, to_be.
  pose proof (put_bytes_ok n 0 (concat (map limb_bytes l)) [] eq_refl) as E.
  rewrite Nat.sub_0_r, !app_nil_r in E. rewrite E, limbs_le, length_to_le, take_to_le by done.
  by replace (n - 8 * length l)%nat with 0%nat by lia.
Qed.

(** ** The public-key operation *)

Lemma modulus_constant n : words n → 1 < lval n → Z.odd (lval n) = true →
  (2 ^ 64 | lval n * wrapping_sub 0 (rsa_modinv_u64 (word_at n 0)) + 1).
Proof.
  intros Hw HN Ho. rewrite word_at_0 by done.
  assert (E : lval n = lval n mod 2 ^ 64 + 2 ^ 64 * (lval n / 2 ^ 64))
    by (pose proof (Z.div_mod (lval n) (2 ^ 64)); lia).
  assert (Ho' : Z.odd (lval n mod 2 ^ 64) = true).
  { rewrite <- !Z.bit0_odd in *. by rewrite Z.mod_pow2_bits_low by lia. }
  destruct (nprime0_ok _ Ho') as [q Hq].
  set (np := wrapping_sub 0 _) in *. rewrite E at 1.
  exists (q + lval n / 2 ^ 64 * np). lia.
Qed.

(** What the operation answers, from the numbers its arguments denote. *)
Definition public_key_spec (n_bytes e_bytes signature : bytes) : outcome (option (bytes * nat)) :=
  let k := length n_bytes in
  if decide (RSA_MAX_BYTES < k)%nat then Ret None else
  if decide (length signature = k) then
    if from_be n_bytes <=? from_be signature then Ret None else
    if decide (RSA_MAX_BYTES < length e_bytes)%nat then Panic else
    let m := from_be signature ^ from_be e_bytes mod from_be n_bytes in
    Ret (Some (to_be k m ++ replicate (RSA_MAX_BYTES - k) 0, k))
  else Ret None.

Lemma public_key_op_ok n_bytes e_bytes signature :
  is_bytes n_bytes → is_bytes e_bytes → is_bytes signature →
  1 < from_be n_bytes → Z.odd (from_be n_bytes) = true →
  rsa_public_key_op n_bytes e_bytes signature = public_key_spec n_bytes e_bytes signature.
Proof.
  intros Hn He Hs HN Ho. unfold rsa_public_key_op, public_key_spec. cbv zeta.
  change RSA_MAX_BYTES with (RSA_MAX_LIMBS * 8)%nat. set (k := length n_bytes).
  destruct (decide (RSA_MAX_LIMBS * 8 < k)%nat) as [|Hk]; [done|].
  destruct (Nat.eqb_spec (length signature) k) as [Hl|Hl]; cycle 1.
  { by rewrite (decide_False _ _ Hl). }
  rewrite (decide_True _ _ Hl). cbn [negb].
  destruct (bytes_to_limbs_ok n_bytes Hn ltac:(unfold k in *; lia)) as (n & nc & -> & Wn & Ln & _ & _ & Vn).
  destruct (bytes_to_limbs_ok signature Hs ltac:(lia)) as (s & sc & -> & Ws & Ls & _ & _ & Vs).
  cbn [mbind outcome_bind]. rewrite Hl in Vs. fold k in Vn. pose proof (div_ceil_8 k) as Hc.
  set (m := Z.to_nat (div_ceil (Z.of_nat k) 8)) in *.
  assert (Hm : (m ≤ RSA_MAX_LIMBS)%nat) by (unfold RSA_MAX_LIMBS in *; lia).
  assert (Wn' : words (take m n)) by by apply Forall_take.
  assert (Ws' : words (take m s)) by by apply Forall_take.
  assert (Ln' : length (take m n) = m) by (rewrite length_take; lia).
  assert (Ls' : length (take m s) = m) by (rewrite length_take; lia).
  rewrite limbs_ge_ok, Vn, Vs by (done || congruence).
  destruct (from_be n_bytes <=? from_be signature); [done|].
  destruct (decide (RSA_MAX_LIMBS * 8 < length e_bytes)%nat) as [Hle|Hle].
  { unfold rsa_bytes_to_limbs. by rewrite decide_False by lia. }
  destruct (bytes_to_limbs_ok e_bytes He ltac:(lia)) as (e & ec & -> & We & Le & Ve & Vec & _).
  cbn [mbind outcome_bind]. rewrite bitlen_ok, Vec, <- Ve by by apply Forall_take.
  rewrite <- Vn in HN, Ho. pose proof (modulus_constant _ Wn' HN Ho) as Hinv.
  destruct (mod_pow_ok (take m n) Wn' HN Ho ltac:(lia) _ Hinv (take m s) e)
    as (r & -> & Wr & Lr & Vr); [done|congruence|done|done|].
  cbn [mbind outcome_bind]. by rewrite limbs_to_bytes_ok, Vr, Vn, Vs by (done || lia).
Qed.
