(* ===== verification/RsaVerify.v ===== *)
(** * RSA signature verification, of [src/src/kernel/crypto.rs]

    [rsa_pkcs1v15_verify] and [rsa_pss_verify] over the public-key operation.
    Both recover the encoded message and inspect it field by field; the theorems
    say that this inspection accepts exactly the encodings of RFC 8017. *)

From stdpp Require Import base tactics decidable numbers list.
From Stdlib Require Import ZArith Lia Bool.
From S2P Require Import Prelude Bytes Sha256 Limbs Rsa RsaMont RsaTheorems.

(** ** PKCS #1 v1.5 *)

Definition DIGEST_INFO_PREFIX_SHA256 : bytes :=
  [48; 49; 48; 13; 6; 9; 96; 134; 72; 1; 101; 3; 4; 2; 1; 5; 0; 4; 32].

(** [while idx < k && em[idx] == 0xFF]: the bytes from [idx] up to [k]. *)
Fixpoint skip_ff (rest : bytes) (idx : nat) : nat :=
  match rest with
  | b :: rest => if b =? 255 then skip_ff rest (S idx) else idx
  | [] => idx
  end.

(** The inspection of the encoded message. *)
Definition check_pkcs1v15 (em : bytes) (k : nat) (message : bytes) : bool :=
  let hash := sha256 message in
  let digest_info_len := (length DIGEST_INFO_PREFIX_SHA256 + length hash)%nat in
  if decide (k < digest_info_len + 11)%nat then false else
  if negb (byte em 0 =? 0) || negb (byte em 1 =? 1) then false else
  let idx := skip_ff (slice em 2 k) 2 in
  if decide (idx < 2 + 8)%nat then false else
  if bool_decide (k ≤ idx)%nat || negb (byte em idx =? 0) then false else
  let di_start := (idx + 1)%nat in
  if negb (di_start + digest_info_len =? k)%nat then false else
  let di_end := (di_start + length DIGEST_INFO_PREFIX_SHA256)%nat in
  if negb (bool_decide (slice em di_start di_end = DIGEST_INFO_PREFIX_SHA256)) then false else
  constant_time_eq hash (slice em di_end k).

Definition rsa_pkcs1v15_verify (n_bytes e_bytes message signature : bytes) : outcome bool :=
  op ← rsa_public_key_op n_bytes e_bytes signature;
  match op with
  | None => Ret false
  | Some (em, k) => Ret (check_pkcs1v15 em k message)
  end.

(** ** PSS *)

(** [for i in 0..n { if db[i] != 0 { return false } }]. *)
Definition all_zero (l : bytes) : bool := forallb (λ b, b =? 0) l.

(** The leading bits of [db]: the whole bytes must be zero ([None] is the
    [return false]), the bits of the next byte are cleared.  The code runs this
    block twice. *)
Definition zero_leading (zero_bits : nat) (db : bytes) : option bytes :=
  if decide (0 < zero_bits)%nat then
    let full_bytes := (zero_bits / 8)%nat in
    if negb (all_zero (take full_bytes db)) then None else
    let rem_bits := (zero_bits mod 8)%nat in
    if decide (0 < rem_bits ∧ full_bytes < length db)%nat
    then Some (<[full_bytes := Z.land (byte db full_bytes) (Z.shiftr 255 (Z.of_nat rem_bits))]> db)
    else Some db
  else Some db.

(** The inspection of the encoded message; [mod_bits] is the modulus' length in
    bits.  The two subtractions of the bit counts are checked ones. *)
Definition check_pss (em : bytes) (k : nat) (mod_bits : Z) (m_hash : bytes) : outcome bool :=
  if decide (0 < k)%nat then
    if negb (byte em (k - 1) =? 188) then Ret false else
    let h_len := 32%nat in
    if decide (k < h_len + 1)%nat then Ret false else
    let db_len := (k - h_len - 1)%nat in
    let masked_db := take db_len em in
    let h_val := slice em db_len (db_len + h_len) in
    let db_mask := mgf1_sha256 h_val db_len in
    let db := xor_into masked_db db_mask in
    if mod_bits <? 1 then Panic else
    let em_bits := mod_bits - 1 in
    if 8 * Z.of_nat k <? em_bits then Panic else
    let zero_bits := Z.to_nat (8 * Z.of_nat k - em_bits) in
    match zero_leading zero_bits db with
    | None => Ret false
    | Some db =>
      match zero_leading zero_bits db with
      | None => Ret false
      | Some db =>
        let s_len := 32%nat in
        if decide (db_len < s_len + 2)%nat then Ret false else
        let ps_len := (db_len - s_len - 1)%nat in
        if negb (all_zero (take ps_len db)) then Ret false else
        if negb (byte db ps_len =? 1) then Ret false else
        let salt := slice db (db_len - s_len) db_len in
        let h_prime := sha256 (replicate 8 0 ++ m_hash ++ salt) in
        Ret (constant_time_eq h_prime h_val)
      end
    end
  else Panic.

Definition rsa_pss_verify (n_bytes e_bytes message signature : bytes) : outcome bool :=
  op ← rsa_public_key_op n_bytes e_bytes signature;
  match op with
  | None => Ret false
  | Some (em, k) =>
      mod_bits ← rsa_mod_bits n_bytes;
      check_pss em k mod_bits message
  end.

(** ** EMSA-PKCS1-v1_5 *)

(** [0x00 || 0x01 || PS || 0x00 || DigestInfo], of [k] bytes. *)
Definition emsa_pkcs1v15 (message : bytes) (k : nat) : bytes :=
  [0; 1] ++ replicate (k - 54) 255 ++ [0] ++ DIGEST_INFO_PREFIX_SHA256 ++ sha256 message.

Lemma length_sha256 m : length (sha256 m) = 32%nat.
Proof. apply sha256_ok. Qed.

Lemma skip_ff_run j l idx : skip_ff (replicate j 255 ++ 0 :: l) idx = (idx + j)%nat.
Proof.
  revert idx. induction j as [|j IH]; intros idx; cbn [replicate app skip_ff Z.eqb Pos.eqb]; [lia|].
  rewrite IH. lia.
Qed.

Lemma skip_ff_split l idx : ∃ j r, l = replicate j 255 ++ r ∧ skip_ff l idx = (idx + j)%nat.
Proof.
  revert idx. induction l as [|b l IH]; intros idx; [exists 0%nat, []; split; [done|simpl; lia]|].
  cbn [skip_ff]. destruct (Z.eqb_spec b 255) as [->|].
  - destruct (IH (S idx)) as (j & r & -> & ->). exists (S j), r. split; [done|lia].
  - exists 0%nat, (b :: l). split; [done|lia].
Qed.

Lemma byte_app_l l1 l2 i : (i < length l1)%nat → byte (l1 ++ l2) i = byte l1 i.
Proof. intros. unfold byte. by rewrite lookup_app_l. Qed.

Lemma byte_middle l1 x l2 i : length l1 = i → byte (l1 ++ x :: l2) i = x.
Proof. intros <-. unfold byte. by rewrite lookup_app_r, Nat.sub_diag by lia. Qed.

Lemma slice_app l1 l2 l3 a b : length l1 = a → length l2 = (b - a)%nat → slice (l1 ++ l2 ++ l3) a b = l2.
Proof. intros <- E. unfold slice. by rewrite drop_app_length, <- E, take_app_length. Qed.

Lemma slice_within l1 r l3 a b : (length l1 ≤ a ≤ b)%nat → (b ≤ length l1 + length r)%nat →
  slice (l1 ++ r ++ l3) a b = slice r (a - length l1) (b - length l1).
Proof.
  intros Ha Hb. unfold slice. rewrite drop_app_ge, drop_app_le, take_app_le by (rewrite ?length_drop; lia).
  f_equal. lia.
Qed.

Lemma check_pkcs1v15_complete pad m k : (62 ≤ k)%nat →
  check_pkcs1v15 (emsa_pkcs1v15 m k ++ pad) k m = true.
Proof.
  intros Hk. unfold check_pkcs1v15. cbv zeta. rewrite length_sha256.
  change (length DIGEST_INFO_PREFIX_SHA256) with 19%nat. rewrite decide_False by lia.
  set (h := sha256 m). set (pre := DIGEST_INFO_PREFIX_SHA256).
  assert (Lh : length h = 32%nat) by apply length_sha256.
  set (ff := replicate (k - 54) 255). assert (Lf : length ff = (k - 54)%nat) by apply length_replicate.
  assert (E : emsa_pkcs1v15 m k = [0; 1] ++ ff ++ [0] ++ pre ++ h) by done.
  assert (Lp : length pre = 19%nat) by done.
  replace (emsa_pkcs1v15 m k ++ pad) with ([0; 1] ++ (ff ++ [0] ++ pre ++ h) ++ pad)
    by (rewrite E; by rewrite <- !app_assoc).
  set (em := [0; 1] ++ (ff ++ [0] ++ pre ++ h) ++ pad).
  assert (Es : slice em 2 k = ff ++ [0] ++ pre ++ h).
  { apply (slice_app [0; 1]); [done|]. rewrite !length_app, Lf, Lp, Lh. simpl. lia. }
  assert (Em : em = ([0; 1] ++ ff) ++ 0 :: pre ++ h ++ pad) by (unfold em; by rewrite <- !app_assoc).
  assert (Eb : byte em (2 + (k - 54)) = 0).
  { rewrite Em. apply byte_middle. rewrite length_app, Lf. done. }
  assert (Em2 : em = ([0; 1] ++ ff ++ [0]) ++ pre ++ h ++ pad) by (unfold em; by rewrite <- !app_assoc).
  assert (Ep : slice em (2 + (k - 54) + 1) (2 + (k - 54) + 1 + 19) = pre).
  { rewrite Em2. apply slice_app; [rewrite !length_app, Lf; simpl; lia|lia]. }
  assert (Em3 : em = ([0; 1] ++ ff ++ [0] ++ pre) ++ h ++ pad) by (unfold em; by rewrite <- !app_assoc).
  assert (Eh : slice em (2 + (k - 54) + 1 + 19) k = h).
  { rewrite Em3. apply slice_app; [rewrite !length_app, Lf, Lp; simpl; lia|lia]. }
  rewrite Es. change (byte em 0) with 0. change (byte em 1) with 1. cbn [Z.eqb negb orb Pos.eqb].
  assert (Ei : skip_ff (ff ++ [0] ++ pre ++ h) 2 = (2 + (k - 54))%nat) by apply skip_ff_run.
  rewrite Ei, Eb, decide_False, (bool_decide_false (k ≤ 2 + (k - 54))%nat) by lia. cbn [orb Z.eqb negb].
  replace (2 + (k - 54) + 1 + (19 + 32) =? k)%nat with true by (symmetry; apply Nat.eqb_eq; lia).
  cbn [negb]. rewrite Ep, bool_decide_true, Eh, constant_time_eq_ok by done. by apply bool_decide_true.
Qed.

Lemma check_pkcs1v15_sound l pad m :
  check_pkcs1v15 (l ++ pad) (length l) m = true →
  (62 ≤ length l)%nat ∧ l = emsa_pkcs1v15 m (length l).
Proof.
  unfold check_pkcs1v15. cbv zeta. rewrite length_sha256.
  change (length DIGEST_INFO_PREFIX_SHA256) with 19%nat.
  case_decide as Hk; [done|]. destruct l as [|a [|b l]]; [simpl in Hk; lia|simpl in Hk; lia|].
  cbn [app]. change (byte (a :: b :: l ++ pad) 0) with a. change (byte (a :: b :: l ++ pad) 1) with b.
  destruct (Z.eqb_spec a 0) as [->|]; [|done]. destruct (Z.eqb_spec b 1) as [->|]; [|done]. cbn [negb orb].
  change (0 :: 1 :: l ++ pad) with ([0; 1] ++ l ++ pad).
  rewrite (slice_app [0; 1]) by (done || simpl; lia).
  destruct (skip_ff_split l 2) as (j & r & -> & ->).
  cbn [length] in *. rewrite length_app, length_replicate in *.
  case_decide as Hj; [done|]. case_bool_decide as Hr; [done|]. cbn [orb].
  destruct r as [|z r]; [simpl in Hr; lia|].
  rewrite <- app_assoc. cbn [app length] in *.
  change (0 :: 1 :: replicate j 255 ++ z :: r ++ pad) with ((0 :: 1 :: replicate j 255) ++ z :: r ++ pad).
  rewrite byte_middle by (simpl; rewrite length_replicate; lia).
  destruct (Z.eqb_spec z 0) as [->|]; [|done]. cbn [negb].
  case_match eqn:El; [done|]. apply negb_false_iff, Nat.eqb_eq in El.
  change (0 :: r ++ pad) with ([0] ++ r ++ pad). rewrite (app_assoc _ [0]).
  set (front := _ ++ [0]). assert (Lf : length front = (j + 3)%nat).
  { unfold front. rewrite length_app. simpl. rewrite length_replicate. lia. }
  rewrite !slice_within, Lf by lia. replace (2 + j + 1 - (j + 3))%nat with 0%nat by lia.
  replace (2 + j + 1 + 19 - (j + 3))%nat with 19%nat by lia.
  case_bool_decide as Ep; [|done]. cbn [negb]. rewrite constant_time_eq_ok, bool_decide_eq_true.
  intros Eh. split; [lia|]. unfold emsa_pkcs1v15. replace (S (S (j + S (length r))) - 54)%nat with j by lia.
  rewrite <- Ep, Eh. cbn [app]. do 4 f_equal.
  replace (S (S (j + S (length r))) - (j + 3))%nat with (length r) by lia. apply slice_split. lia.
Qed.

(** ** EMSA-PSS *)

(** The leading [z] bits of the first byte cleared. *)
Definition clear_top (z : nat) (l : bytes) : bytes :=
  match l with
  | [] => []
  | b :: l => Z.land b (Z.shiftr 255 (Z.of_nat z)) :: l
  end.

(** EMSA-PSS-ENCODE with SHA-256, MGF1 and a salt of 32 bytes, into [k] bytes of
    which the first [z] bits are unused. *)
Definition emsa_pss (m_hash salt : bytes) (k z : nat) : bytes :=
  let h := sha256 (replicate 8 0 ++ m_hash ++ salt) in
  let db := replicate (k - 66) 0 ++ [1] ++ salt in
  clear_top z (xor_into db (mgf1_sha256 h (k - 33))) ++ h ++ [188].

Lemma length_clear_top z l : length (clear_top z l) = length l.
Proof. by destruct l. Qed.

Lemma clear_top_app z l1 l2 : l1 ≠ [] → clear_top z (l1 ++ l2) = clear_top z l1 ++ l2.
Proof. by destruct l1. Qed.

Lemma clear_top_idem z l : clear_top z (clear_top z l) = clear_top z l.
Proof. destruct l; [done|]. cbn. by rewrite <- Z.land_assoc, Z.land_diag. Qed.

Lemma clear_top_xor z l m : clear_top z (xor_into (clear_top z l) m) = clear_top z (xor_into l m).
Proof.
  destruct l as [|b l], m as [|c m]; try done.
  - cbn. by rewrite <- Z.land_assoc, Z.land_diag.
  - cbn [clear_top xor_into]. f_equal. apply Z.bits_inj'. intros i Hi.
    rewrite !Z.land_spec, !Z.lxor_spec, Z.land_spec.
    destruct (Z.testbit b i), (Z.testbit c i), (Z.testbit (Z.shiftr 255 (Z.of_nat z)) i); done.
Qed.

Lemma zero_leading_bits z db : (1 ≤ z ≤ 7)%nat → db ≠ [] → zero_leading z db = Some (clear_top z db).
Proof.
  intros Hz Hd. unfold zero_leading. rewrite decide_True by lia. cbv zeta.
  rewrite Nat.div_small, Nat.mod_small by lia. cbn [take all_zero forallb negb].
  destruct db as [|b db]; [done|]. by rewrite decide_True by (simpl; lia).
Qed.

Lemma all_zero_iff l : all_zero l = true ↔ l = replicate (length l) 0.
Proof.
  induction l as [|b l IH]; [done|]. cbn [all_zero forallb length replicate].
  rewrite andb_true_iff, Z.eqb_eq. fold (all_zero l). rewrite IH. split; [intros [-> ->]|intros [= E1 E2]].
  - by rewrite length_replicate.
  - done.
Qed.

Lemma length_mgf1 seed n : length (mgf1_sha256 seed n) = n.
Proof.
  unfold mgf1_sha256. cbv zeta. rewrite length_take.
  assert (E : ∀ i m, length (concat (map (λ c, sha256 (seed ++ to_be 4 (wrap32 (Z.of_nat c)))) (seq i m)))
                     = (m * 32)%nat).
  { intros i m. revert i. induction m as [|m IH]; intros i; [done|]. cbn [seq map concat].
    rewrite length_app, IH, length_sha256. lia. }
  rewrite E. pose proof (blocks_enough n). lia.
Qed.

(** The data block the checks accept, and its salt. *)
Lemma data_block_iff db : (34 ≤ length db)%nat →
  all_zero (take (length db - 33) db) = true ∧ byte db (length db - 33) = 1 ↔
  db = replicate (length db - 33) 0 ++ [1] ++ slice db (length db - 32) (length db).
Proof.
  intros Hl. set (p := (length db - 33)%nat). rewrite all_zero_iff, length_take.
  replace (p `min` length db)%nat with p by lia.
  destruct (lookup_lt_is_Some_2 db p ltac:(lia)) as [x Hx].
  assert (E : db = take p db ++ [x] ++ slice db (length db - 32) (length db)).
  { unfold slice. rewrite (take_ge (drop _ db)) by (rewrite length_drop; lia).
    replace (length db - 32)%nat with (S p) by lia. symmetry. by apply take_drop_middle. }
  unfold byte. rewrite Hx. change (default 0 (Some x)) with x. set (t := slice db _ _) in *. split.
  - intros [E1 ->]. by rewrite <- E1.
  - intros E2. rewrite E in E2 at 1. apply app_inj_1 in E2 as [E2 E3].
    + split; [done|]. by injection E3.
    + rewrite length_take, length_replicate. lia.
Qed.

Section PssCheck.
Context (mdb h pad m_hash : bytes) (x : Z) (k z : nat) (mod_bits : Z).
Context (Hk : k = (length mdb + 33)%nat) (Hh : length h = 32%nat).
Context (Hz : (1 ≤ z ≤ 7)%nat) (Hbits : mod_bits = 8 * Z.of_nat k - Z.of_nat z + 1).
Let em : bytes := (mdb ++ h ++ [x]) ++ pad.
Let db : bytes := clear_top z (xor_into mdb (mgf1_sha256 h (length mdb))).
Let salt : bytes := slice db (length mdb - 32) (length mdb).

Lemma length_db : length db = length mdb.
Proof. unfold db. by rewrite length_clear_top, length_xor_into. Qed.

(** The checks, on the parts of the encoded message. *)
Lemma check_pss_parts : (34 ≤ length mdb)%nat →
  check_pss em k mod_bits m_hash =
  Ret ((x =? 188) && all_zero (take (length mdb - 33) db) && (byte db (length mdb - 33) =? 1) &&
       bool_decide (sha256 (replicate 8 0 ++ m_hash ++ salt) = h)).
Proof.
  intros Hl. unfold check_pss. rewrite decide_True by lia. cbv zeta.
  replace (byte em (k - 1)) with x; cycle 1.
  { unfold em. rewrite byte_app_l by (rewrite !length_app; simpl; lia). rewrite app_assoc. symmetry.
    apply byte_middle. rewrite length_app. lia. }
  destruct (x =? 188); [|done]. cbn [negb andb]. rewrite decide_False by lia.
  replace (k - 32 - 1)%nat with (length mdb) by lia.
  replace (take (length mdb) em) with mdb by (unfold em; by rewrite <- app_assoc, take_app_length).
  replace (slice em (length mdb) (length mdb + 32)) with h; cycle 1.
  { unfold em. rewrite <- !app_assoc. symmetry. apply slice_app; [done|lia]. }
  rewrite (proj2 (Z.ltb_ge mod_bits 1)), (proj2 (Z.ltb_ge _ (mod_bits - 1))) by lia.
  replace (Z.to_nat _) with z by lia.
  assert (Hx : xor_into mdb (mgf1_sha256 h (length mdb)) ≠ []).
  { intros E. apply (f_equal length) in E. rewrite length_xor_into in E. simpl in E. lia. }
  rewrite zero_leading_bits by done. fold db.
  assert (Hd : db ≠ []) by (intros E; pose proof length_db as E'; rewrite E in E'; simpl in E'; lia).
  rewrite zero_leading_bits by done. unfold db at 1 2 3. rewrite clear_top_idem. fold db.
  rewrite decide_False by lia. replace (length mdb - 32 - 1)%nat with (length mdb - 33)%nat by lia.
  destruct (all_zero _); [|done]. destruct (byte db _ =? 1); [|done]. cbn [negb andb].
  by rewrite constant_time_eq_ok.
Qed.

(** They accept exactly the encodings, up to the unused bits. *)
Lemma check_pss_iff : (34 ≤ length mdb)%nat → ∃ ok, check_pss em k mod_bits m_hash = Ret ok ∧
  (ok = true ↔ ∃ s, length s = 32%nat ∧ clear_top z (mdb ++ h ++ [x]) = emsa_pss m_hash s k z).
Proof.
  intros Hl. rewrite check_pss_parts by done. eexists. split; [done|].
  rewrite !andb_true_iff, !Z.eqb_eq, bool_decide_eq_true.
  assert (Hm : mdb ≠ []) by (intros ->; simpl in Hl; lia).
  rewrite clear_top_app by done. pose proof length_db as Ld. unfold emsa_pss. cbv zeta.
  replace (k - 33)%nat with (length mdb) by lia. replace (k - 66)%nat with (length mdb - 33)%nat by lia.
  pose proof (data_block_iff db ltac:(lia)) as Hdb. rewrite Ld in Hdb. fold salt in Hdb. split.
  - intros (((-> & H1) & H2) & H3). exists salt.
    split; [unfold salt; rewrite length_slice; lia|]. rewrite H3. f_equal.
    rewrite <- (proj1 Hdb (conj H1 H2)). unfold db.
    by rewrite clear_top_xor, xor_into_involutive.
  - intros (s & Ls & E). apply app_inj_1 in E as [E1 E2]; cycle 1.
    { rewrite !length_clear_top, length_xor_into, !length_app, length_replicate. simpl. lia. }
    apply app_inj_1 in E2 as [E2 [= E3]]; [|by rewrite length_sha256].
    assert (Eb : db = replicate (length mdb - 33) 0 ++ [1] ++ s).
    { unfold db. rewrite <- clear_top_xor, E1, <- E2, clear_top_xor, xor_into_involutive.
      by replace (length mdb - 33)%nat with (S (length mdb - 34)) by lia. }
    assert (Es : salt = s).
    { unfold salt. rewrite Eb. rewrite app_assoc, <- (app_nil_r s) at 1.
      apply slice_app; [rewrite length_app, length_replicate; simpl; lia|lia]. }
    rewrite Es in Hdb. rewrite Es. destruct (proj2 Hdb Eb) as [H1 H2]. done.
Qed.
End PssCheck.

Lemma check_pss_short em k mod_bits m_hash :
  (0 < k < 67)%nat → 1 ≤ mod_bits ≤ 8 * Z.of_nat k + 1 → check_pss em k mod_bits m_hash = Ret false.
Proof.
  intros Hk Hb. unfold check_pss. rewrite decide_True by lia. cbv zeta.
  destruct (negb _); [done|]. case_decide; [done|].
  rewrite (proj2 (Z.ltb_ge mod_bits 1)), (proj2 (Z.ltb_ge _ (mod_bits - 1))) by lia.
  destruct (zero_leading _ _); [|done]. destruct (zero_leading _ _); [|done].
  by rewrite decide_True by lia.
Qed.

(** ** The verifications *)

Lemma mod_bits_ok n : is_bytes n → (length n ≤ RSA_MAX_LIMBS * 8)%nat →
  rsa_mod_bits n = Ret (bit_length (from_be n)).
Proof.
  intros Hn Hl. unfold rsa_mod_bits.
  destruct (bytes_to_limbs_ok n Hn Hl) as (l & c & -> & Wl & _ & _ & Vc & _).
  cbn [mbind outcome_bind]. by rewrite bitlen_ok, Vc by by apply Forall_take.
Qed.

(** A modulus whose first byte is at least two leaves one to seven bits of the
    encoded message unused. *)
Lemma unused_bits n : is_bytes n → 2 ≤ byte n 0 →
  1 ≤ 8 * Z.of_nat (length n) - bit_length (from_be n) + 1 ≤ 7.
Proof.
  intros Hn H0. destruct n as [|b n]; [unfold byte in H0; simpl in H0; lia|]. change (byte (b :: n) 0) with b in H0.
  pose proof (from_be_bound _ Hn) as B. pose proof (from_be_cons b n) as E. inversion Hn as [|? ? Hb Hn']; subst.
  pose proof (from_be_bound n Hn') as Bn. cbn [length] in *. rewrite pow256 in * by lia.
  set (N := from_be (b :: n)) in *. set (k := Z.of_nat (length n)) in *.
  replace (Z.of_nat (S (length n))) with (k + 1) in * by lia.
  assert (HN : 2 ^ (8 * k + 1) ≤ N).
  { rewrite E, Z.pow_add_r by lia. assert (0 < 2 ^ (8 * k)) by (apply Z.pow_pos_nonneg; lia). nia. }
  assert (0 < 2 ^ (8 * k + 1)) by (apply Z.pow_pos_nonneg; lia).
  destruct (bit_length_bounds N ltac:(lia)) as (B0 & B1 & B2). destruct B2 as [B2 B3]; [lia|].
  assert (8 * k + 1 < bit_length N) by (apply (Z.pow_lt_mono_r_iff 2); lia).
  assert (bit_length N - 1 < 8 * (k + 1)) by (apply (Z.pow_lt_mono_r_iff 2); lia). lia.
Qed.

Section Verify.
Context (n_bytes e_bytes signature : bytes).
Context (Hn : is_bytes n_bytes) (He : is_bytes e_bytes) (Hs : is_bytes signature).
Context (HN : 1 < from_be n_bytes) (Hodd : Z.odd (from_be n_bytes) = true).
Context (Hle : (length e_bytes ≤ RSA_MAX_BYTES)%nat).
Let k : nat := length n_bytes.

(** The signature is in range: RSAVP1 does not reject it. *)
Definition in_range : Prop :=
  (length n_bytes ≤ RSA_MAX_BYTES)%nat ∧ length signature = length n_bytes ∧
  from_be signature < from_be n_bytes.

#[global] Instance in_range_dec : Decision in_range.
Proof. unfold in_range. apply _. Defined.

(** RSAVP1 and I2OSP: the message representative, in the modulus' length. *)
Definition message_representative : bytes :=
  to_be (length n_bytes) (from_be signature ^ from_be e_bytes mod from_be n_bytes).

Lemma public_key_cases : rsa_public_key_op n_bytes e_bytes signature =
  Ret (if decide in_range
       then Some (message_representative ++ replicate (RSA_MAX_BYTES - k) 0, k) else None).
Proof.
  rewrite public_key_op_ok by done. unfold public_key_spec, in_range. cbv zeta. fold k.
  destruct (decide (RSA_MAX_BYTES < k)%nat); [rewrite decide_False by lia; done|].
  destruct (decide (length signature = k)); [|rewrite decide_False by lia; done].
  destruct (Z.leb_spec (from_be n_bytes) (from_be signature)); [rewrite decide_False by lia; done|].
  rewrite (decide_False (P := (RSA_MAX_BYTES < length e_bytes)%nat)) by lia.
  by rewrite decide_True by lia.
Qed.

(** C29. [rsa_pkcs1v15_verify] is RSASSA-PKCS1-v1_5 verification (RFC 8017,
    section 8.2.2) for every odd modulus and every exponent of at most 512 bytes:
    it accepts exactly when the signature has the modulus' length, its number is
    below the modulus, and its power is the encoding of the message with padding
    of at least eight bytes; it never panics. *)
Theorem rsa_pkcs1v15_verify_exact (message : bytes) :
  rsa_pkcs1v15_verify n_bytes e_bytes message signature =
  Ret (bool_decide (in_range ∧ (62 ≤ length n_bytes)%nat ∧
    message_representative = emsa_pkcs1v15 message (length n_bytes))).
Proof.
  unfold rsa_pkcs1v15_verify. rewrite public_key_cases. cbn [mbind outcome_bind].
  case_decide as Hr; [|by rewrite bool_decide_false by tauto]. f_equal. apply eq_true_iff_eq.
  assert (Lm : length message_representative = k) by apply length_to_be.
  rewrite bool_decide_eq_true. split.
  - rewrite <- Lm at 2. intros H. apply check_pkcs1v15_sound in H. rewrite Lm in H. done.
  - intros (_ & Hk & ->). by apply check_pkcs1v15_complete.
Qed.

(** [rsa_pss_verify] is RSASSA-PSS verification (RFC 8017, section 8.1.2,
    with SHA-256, MGF1 and a salt of 32 bytes) for every odd modulus whose first
    byte is at least two: it accepts exactly when the signature is in range and
    its power, with its unused leading bits cleared, is the encoding of the hash
    under some salt; it never panics.  (The standard also requires these bits to
    be zero; the code clears them.) *)
Theorem rsa_pss_verify_exact (m_hash : bytes) (H0 : 2 ≤ byte n_bytes 0) :
  let z := Z.to_nat (8 * Z.of_nat (length n_bytes) - bit_length (from_be n_bytes) + 1) in
  ∃ ok, rsa_pss_verify n_bytes e_bytes m_hash signature = Ret ok ∧
    (ok = true ↔ in_range ∧ (67 ≤ length n_bytes)%nat ∧ ∃ salt, length salt = 32%nat ∧
      clear_top z message_representative = emsa_pss m_hash salt (length n_bytes) z).
Proof.
  intros z. unfold rsa_pss_verify. rewrite public_key_cases. cbn [mbind outcome_bind].
  case_decide as Hr; [|exists false; split; [done|]; split; [done|tauto]].
  rewrite mod_bits_ok by (done || apply Hr). cbn [mbind outcome_bind].
  assert (Hk0 : (0 < length n_bytes)%nat).
  { pose proof (from_be_bound _ Hn). destruct (length n_bytes); simpl in *; lia. }
  pose proof (unused_bits _ Hn H0) as Bz. set (m := message_representative) in *.
  assert (Lm : length m = length n_bytes) by apply length_to_be. fold k in Bz, Lm, Hk0 |- *.
  destruct (decide (67 ≤ k)%nat) as [Hk|Hk].
  - set (mdb := take (k - 33) m). set (h := slice m (k - 33) (k - 1)).
    destruct (lookup_lt_is_Some_2 m (k - 1) ltac:(lia)) as [x Hx].
    assert (Em : m = mdb ++ h ++ [x]).
    { rewrite <- (take_drop (k - 33) m) at 1. f_equal. unfold h, slice.
      rewrite <- (take_drop (k - 1 - (k - 33)) (drop (k - 33) m)) at 1. f_equal.
      rewrite drop_drop. replace (k - 33 + (k - 1 - (k - 33)))%nat with (k - 1)%nat by lia.
      rewrite (drop_S m x) by done. by rewrite drop_ge by lia. }
    assert (Ld : length mdb = (k - 33)%nat) by (unfold mdb; rewrite length_take; lia).
    assert (Lh : length h = 32%nat) by (unfold h; rewrite length_slice; lia).
    rewrite Em. destruct (check_pss_iff mdb h (replicate (RSA_MAX_BYTES - k) 0) m_hash x k z
      (bit_length (from_be n_bytes)) ltac:(lia) Lh ltac:(lia) ltac:(lia) ltac:(lia)) as (ok & -> & Hok).
    exists ok. split; [done|]. rewrite Hok. tauto.
  - exists false. split; [|split; [done|intros (_ & ? & _); lia]].
    apply check_pss_short; lia.
Qed.
End Verify.

(** A modulus of 70 bytes. *)
Definition example_modulus : bytes := 3 :: replicate 68 0 ++ [1].

Lemma rsa_pkcs1v15_verify_exact_witness :
  rsa_pkcs1v15_verify example_modulus [3] [104; 105] (replicate 70 1) =
  Ret (bool_decide (in_range example_modulus (replicate 70 1) ∧ (62 ≤ 70)%nat ∧
    message_representative example_modulus [3] (replicate 70 1) = emsa_pkcs1v15 [104; 105] 70)).
Proof.
  apply (rsa_pkcs1v15_verify_exact example_modulus [3] (replicate 70 1));
    by apply (bool_decide_unpack _).
Defined.

Lemma rsa_pss_verify_exact_witness :
  ∃ ok, rsa_pss_verify example_modulus [3] (replicate 32 7) (replicate 70 1) = Ret ok.
Proof.
  destruct (rsa_pss_verify_exact example_modulus [3] (replicate 70 1)
    ltac:(by apply (bool_decide_unpack _)) ltac:(by apply (bool_decide_unpack _))
    ltac:(by apply (bool_decide_unpack _)) eq_refl eq_refl ltac:(by apply (bool_decide_unpack _))
    (replicate 32 7) ltac:(by apply (bool_decide_unpack _))) as (ok & H & _).
  exists ok. exact H.
Defined.
