(* ===== verification/BlockDevice.v ===== *)
(** * Block devices (src/kernel/block.rs)

    The trait [BlockDevice] as a class of operations, what its documentation
    promises as a class of laws, and the devices of the block layer as instances:
    the in-memory device and a slice of another device.  Clients (the encrypted
    device, the block cache) are proved against the laws. *)

From stdpp Require Import base tactics decidable numbers list.
From Stdlib Require Import ZArith Lia Bool.
From S2P Require Import Prelude Bytes.

Definition BLOCK_SIZE : nat := 512.

(** A ticket is its number; [DONE] is the one of a request finished in place. *)
Definition Ticket : Type := Z.
Definition DONE : Ticket := u64_max.

Inductive RequestState : Type :=
| Pending
| Done (r : result unit).

(** ** The interface

    The methods take [&self]: the device's state is passed and returned.  A read
    is given the length of its buffer. *)
Class BlockDevice (D : Type) := {
  block_size : D → nat;
  block_count : D → Z;
  is_read_only : D → bool;
  read_blocks : D → Z → nat → outcome (D * result bytes);
  write_blocks : D → Z → bytes → outcome (D * result unit);
  queue_depth : D → Z;
  submit_write : D → Z → bytes → outcome (D * result Ticket);
  poll : D → Ticket → D * RequestState;
}.

(** The trait's default methods. *)
Definition default_block_size {D} (_ : D) : nat := BLOCK_SIZE.
Definition default_queue_depth {D} (_ : D) : Z := 1.

Definition default_submit_write {D} (write : D → Z → bytes → outcome (D * result unit))
    (d : D) (lba : Z) (data : bytes) : outcome (D * result Ticket) :=
  '(d, r) ← write d lba data;
  Ret (d, match r with Ok _ => Ok DONE | Err e => Err e end).

Definition default_poll {D} (d : D) (_ : Ticket) : D * RequestState := (d, Done (Ok ())).

(** ** The contract *)

(** What is known of a block: its content, nothing (it does not exist, or a
    write of it failed), or a write that was accepted and has not been answered. *)
Inductive block_state : Type :=
| Stable (b : bytes)
| Unknown
| Flying (t : Ticket) (b : bytes).

Definition flying (s : block_state) : bool := match s with Flying _ _ => true | _ => false end.

(** The bytes of one block. *)
Definition is_sector (b : bytes) : Prop := length b = BLOCK_SIZE ∧ is_bytes b.

#[global] Instance is_sector_dec b : Decision (is_sector b).
Proof. unfold is_sector. apply _. Defined.

(** Block [i] of a buffer. *)
Definition sector (data : bytes) (i : nat) : bytes :=
  slice data (i * BLOCK_SIZE) (i * BLOCK_SIZE + BLOCK_SIZE).

(** After a write of [b]: accepted, the block holds it; refused, it is what it
    was or unknown. *)
Definition written (before after : block_state) (b : bytes) (ok : bool) : Prop :=
  if ok then after = Stable b else after = before ∨ after = Unknown.

(** A write answered by its ticket: [ok] says how. *)
Definition settle (t : Ticket) (ok : bool) (s : block_state) : block_state :=
  match s with
  | Flying t' b => if t =? t' then (if ok then Stable b else Unknown) else s
  | _ => s
  end.

(** A queued write that was accepted: finished in place, under the ticket
    [DONE], or in flight under a ticket of its own. *)
Definition accepted {D} (blocks : D → Z → block_state) (d d' : D) (lba : Z) (b : bytes) (t : Ticket) : Prop :=
  (t = DONE ∧ blocks d' lba = Stable b) ∨
  (t ≠ DONE ∧ blocks d' lba = Flying t b ∧ ∀ a b', blocks d a ≠ Flying t b').

Definition is_ok {A} (r : result A) : bool := match r with Ok _ => true | Err _ => false end.

Class BlockContract (D : Type) `{BlockDevice D} := {
  dev_ok : D → Prop;
  blocks : D → Z → block_state;
  (** The device takes every write of the block. *)
  takes : D → Z → bool;
  size_law d : dev_ok d → block_size d = BLOCK_SIZE;
  depth_law d : dev_ok d → 0 ≤ queue_depth d < 2 ^ 16;
  length_law d a b : dev_ok d → blocks d a = Stable b → length b = BLOCK_SIZE;
  (** A read changes nothing and returns the contents of the run. *)
  read_law d lba n : dev_ok d → 0 ≤ lba → lba + Z.of_nat n ≤ u64_max →
    ∃ d' r, read_blocks d lba (n * BLOCK_SIZE) = Ret (d', r) ∧ dev_ok d' ∧
      (∀ a, blocks d' a = blocks d a) ∧
      ∀ data, r = Ok data → length data = (n * BLOCK_SIZE)%nat ∧
        ∀ i b, (i < n)%nat → blocks d (lba + Z.of_nat i) = Stable b → sector data i = b;
  (** A write is of its block alone. *)
  write_law d lba b : dev_ok d → 0 ≤ lba < u64_max → is_sector b → flying (blocks d lba) = false →
    ∃ d' r, write_blocks d lba b = Ret (d', r) ∧ dev_ok d' ∧
      (∀ a, a ≠ lba → blocks d' a = blocks d a) ∧
      written (blocks d lba) (blocks d' lba) b (is_ok r);
  (** So is a queued one, which may be in flight when the call returns. *)
  submit_law d lba b : dev_ok d → 0 ≤ lba < u64_max → is_sector b → flying (blocks d lba) = false →
    ∃ d' r, submit_write d lba b = Ret (d', r) ∧ dev_ok d' ∧
      (∀ a, a ≠ lba → blocks d' a = blocks d a) ∧
      match r with
      | Ok t => accepted blocks d d' lba b t
      | Err _ => written (blocks d lba) (blocks d' lba) b false
      end;
  (** A poll answers for its own ticket. *)
  poll_law d t : dev_ok d → let '(d', s) := poll d t in dev_ok d' ∧
    ∀ a, blocks d' a = match s with Pending => blocks d a | Done r => settle t (is_ok r) (blocks d a) end;
  (** Which writes it takes is fixed. *)
  takes_law d lba b d' r : dev_ok d → 0 ≤ lba < u64_max → is_sector b → takes d lba = true →
    write_blocks d lba b = Ret (d', r) → is_ok r = true;
  takes_writable d a : takes d a = true → is_read_only d = false;
  read_takes d lba n d' r a : dev_ok d → read_blocks d lba n = Ret (d', r) → takes d' a = takes d a;
  write_takes d lba b d' r a : dev_ok d → 0 ≤ lba < u64_max → is_sector b →
    write_blocks d lba b = Ret (d', r) → takes d' a = takes d a;
  submit_takes d lba b d' r a : dev_ok d → 0 ≤ lba < u64_max → is_sector b →
    submit_write d lba b = Ret (d', r) → takes d' a = takes d a;
  poll_takes d t a : takes (poll d t).1 a = takes d a;
}.

(** ** [MemoryBlockDevice] *)

Record MemoryBlockDevice := mkMemory { storage : bytes; mem_read_only : bool }.

(** [vec[start..end].copy_from_slice(data)]. *)
Definition splice (l : bytes) (start : nat) (data : bytes) : bytes :=
  take start l ++ data ++ drop (start + length data) l.

Definition MemoryBlockDevice_new (image : bytes) (read_only : bool) : MemoryBlockDevice :=
  let remainder := (length image mod BLOCK_SIZE)%nat in
  let image :=
    if decide (remainder = 0%nat) then image else image ++ replicate (BLOCK_SIZE - remainder) 0 in
  mkMemory image read_only.

(** The range a request of [len] bytes at [lba] touches, or its refusal. *)
Definition memory_range (d : MemoryBlockDevice) (lba : Z) (len : nat) : result (nat * nat) :=
  if negb (len mod BLOCK_SIZE =? 0)%nat then Err InvalidArgument else
  match checked_mul lba (Z.of_nat BLOCK_SIZE) with
  | None => Err InvalidArgument
  | Some start =>
      match checked_add start (Z.of_nat len) with
      | None => Err InvalidArgument
      | Some end_ =>
          if Z.of_nat (length (storage d)) <? end_ then Err InvalidArgument
          else Ok (Z.to_nat start, Z.to_nat end_)
      end
  end.

Definition memory_read_blocks (d : MemoryBlockDevice) (lba : Z) (len : nat) :
    outcome (MemoryBlockDevice * result bytes) :=
  Ret (d, match memory_range d lba len with
          | Ok (start, end_) => Ok (slice (storage d) start end_)
          | Err e => Err e
          end).

Definition memory_write_blocks (d : MemoryBlockDevice) (lba : Z) (data : bytes) :
    outcome (MemoryBlockDevice * result unit) :=
  if mem_read_only d then Ret (d, Err PermissionDenied) else
  match memory_range d lba (length data) with
  | Ok (start, _) => Ret (mkMemory (splice (storage d) start data) (mem_read_only d), Ok ())
  | Err e => Ret (d, Err e)
  end.

#[global] Instance memory_device : BlockDevice MemoryBlockDevice := {
  block_size := default_block_size;
  block_count d := Z.of_nat (length (storage d) / BLOCK_SIZE);
  is_read_only d := mem_read_only d;
  read_blocks := memory_read_blocks;
  write_blocks := memory_write_blocks;
  queue_depth := default_queue_depth;
  submit_write := default_submit_write memory_write_blocks;
  poll := default_poll;
}.

(** ** [BlockSliceDevice] *)

Record BlockSliceDevice (D : Type) := mkSlice {
  parent : D;
  start_block : Z;
  slice_block_count : Z;
  slice_read_only : bool;
}.
Arguments mkSlice {D} _ _ _ _.
Arguments parent {D} _.
Arguments start_block {D} _.
Arguments slice_block_count {D} _.
Arguments slice_read_only {D} _.

Section Slice.
Context {D : Type} `{BlockDevice D}.

Definition with_parent (s : BlockSliceDevice D) (d : D) : BlockSliceDevice D :=
  mkSlice d (start_block s) (slice_block_count s) (slice_read_only s).

(** The parent's block for a request of [len] bytes at [lba], or its refusal. *)
Definition slice_range (s : BlockSliceDevice D) (lba : Z) (len : nat) : result Z :=
  if negb (len mod BLOCK_SIZE =? 0)%nat then Err InvalidArgument else
  let blocks := Z.of_nat (len / BLOCK_SIZE) in
  match checked_add lba blocks with
  | None => Err InvalidArgument
  | Some end_ =>
      if slice_block_count s <? end_ then Err InvalidArgument else
      match checked_add (start_block s) lba with
      | None => Err InvalidArgument
      | Some parent_lba => Ok parent_lba
      end
  end.

Definition slice_read_blocks (s : BlockSliceDevice D) (lba : Z) (len : nat) :
    outcome (BlockSliceDevice D * result bytes) :=
  match slice_range s lba len with
  | Err e => Ret (s, Err e)
  | Ok parent_lba =>
      '(d, r) ← read_blocks (parent s) parent_lba len;
      Ret (with_parent s d, r)
  end.

Definition slice_write_blocks (s : BlockSliceDevice D) (lba : Z) (data : bytes) :
    outcome (BlockSliceDevice D * result unit) :=
  if slice_read_only s then Ret (s, Err PermissionDenied) else
  match slice_range s lba (length data) with
  | Err e => Ret (s, Err e)
  | Ok parent_lba =>
      '(d, r) ← write_blocks (parent s) parent_lba data;
      Ret (with_parent s d, r)
  end.

Definition slice_submit_write (s : BlockSliceDevice D) (lba : Z) (data : bytes) :
    outcome (BlockSliceDevice D * result Ticket) :=
  if slice_read_only s then Ret (s, Err PermissionDenied) else
  match slice_range s lba (length data) with
  | Err e => Ret (s, Err e)
  | Ok parent_lba =>
      '(d, r) ← submit_write (parent s) parent_lba data;
      Ret (with_parent s d, r)
  end.

Definition slice_poll (s : BlockSliceDevice D) (t : Ticket) : BlockSliceDevice D * RequestState :=
  let '(d, r) := poll (parent s) t in (with_parent s d, r).

#[global] Instance slice_device : BlockDevice (BlockSliceDevice D) := {
  block_size := default_block_size;
  block_count s := slice_block_count s;
  is_read_only s := slice_read_only s;
  read_blocks := slice_read_blocks;
  write_blocks := slice_write_blocks;
  queue_depth s := queue_depth (parent s);
  submit_write := slice_submit_write;
  poll := slice_poll;
}.
End Slice.

(** ** The in-memory device keeps the contract *)

(** A queued write of a device of depth one is its write. *)
Lemma default_submit_ok {D} (write : D → Z → bytes → outcome (D * result unit))
    (dev_ok : D → Prop) (blocks : D → Z → block_state) d lba b :
  (∃ d' r, write d lba b = Ret (d', r) ∧ dev_ok d' ∧
    (∀ a, a ≠ lba → blocks d' a = blocks d a) ∧ written (blocks d lba) (blocks d' lba) b (is_ok r)) →
  ∃ d' r, default_submit_write write d lba b = Ret (d', r) ∧ dev_ok d' ∧
    (∀ a, a ≠ lba → blocks d' a = blocks d a) ∧
    match r with
    | Ok t => accepted blocks d d' lba b t
    | Err _ => written (blocks d lba) (blocks d' lba) b false
    end.
Proof.
  intros (d' & r & E & H1 & H2 & H3). unfold default_submit_write. rewrite E. cbn [mbind outcome_bind].
  eexists _, _. split; [done|]. split; [done|]. split; [done|]. destruct r; [left; by split|done].
Qed.

Lemma default_submit_inv {D} (write : D → Z → bytes → outcome (D * result unit)) d lba b d' r :
  default_submit_write write d lba b = Ret (d', r) → ∃ r', write d lba b = Ret (d', r').
Proof.
  unfold default_submit_write. destruct (write d lba b) as [[d1 r1]| |]; [|done|done]. cbn. intros E.
  simplify_eq. by exists r1.
Qed.

Lemma settle_quiet t ok s : flying s = false → settle t ok s = s.
Proof. by destruct s. Qed.

Definition memory_ok (d : MemoryBlockDevice) : Prop :=
  is_bytes (storage d) ∧ (length (storage d) mod BLOCK_SIZE = 0)%nat ∧
  Z.of_nat (length (storage d)) ≤ u64_max.

Definition in_memory (d : MemoryBlockDevice) (lba : Z) (n : nat) : Prop :=
  0 ≤ lba ∧ (lba + Z.of_nat n) * Z.of_nat BLOCK_SIZE ≤ Z.of_nat (length (storage d)).

#[global] Instance in_memory_dec d lba n : Decision (in_memory d lba n).
Proof. unfold in_memory. apply _. Defined.

Definition memory_blocks (d : MemoryBlockDevice) (a : Z) : block_state :=
  if decide (in_memory d a 1)
  then Stable (slice (storage d) (Z.to_nat a * BLOCK_SIZE) (Z.to_nat a * BLOCK_SIZE + BLOCK_SIZE))
  else Unknown.

Lemma memory_range_ok d lba n : memory_ok d → 0 ≤ lba →
  memory_range d lba (n * BLOCK_SIZE) =
  if decide (in_memory d lba n)
  then Ok (Z.to_nat lba * BLOCK_SIZE, Z.to_nat lba * BLOCK_SIZE + n * BLOCK_SIZE)%nat
  else Err InvalidArgument.
Proof.
  intros (_ & _ & Hmax) Hlba. unfold memory_range. rewrite Nat.Div0.mod_mul. cbn [Nat.eqb negb].
  unfold checked_mul, checked_add. unfold in_memory.
  destruct (Z.leb_spec (lba * Z.of_nat BLOCK_SIZE) u64_max); [|rewrite decide_False by lia; done].
  destruct (Z.leb_spec (lba * Z.of_nat BLOCK_SIZE + Z.of_nat (n * BLOCK_SIZE)) u64_max);
    [|rewrite decide_False by lia; done].
  destruct (Z.ltb_spec (Z.of_nat (length (storage d))) (lba * Z.of_nat BLOCK_SIZE + Z.of_nat (n * BLOCK_SIZE)));
    [rewrite decide_False by lia; done|].
  rewrite decide_True by lia. do 2 f_equal; lia.
Qed.

Lemma length_splice l start data :
  (start + length data ≤ length l)%nat → length (splice l start data) = length l.
Proof. intros. unfold splice. rewrite !length_app, length_take, length_drop. lia. Qed.

Lemma splice_bytes l start data : is_bytes l → is_bytes data → is_bytes (splice l start data).
Proof. intros. apply is_bytes_app. split; [by apply Forall_take|]. apply is_bytes_app. by split; [|apply Forall_drop]. Qed.

Lemma slice_splice_same l start data : (start + length data ≤ length l)%nat →
  slice (splice l start data) start (start + length data) = data.
Proof.
  intros Hl. unfold slice, splice. rewrite drop_app_ge by (rewrite length_take; lia).
  rewrite length_take, Nat.min_l, Nat.sub_diag, drop_0 by lia.
  replace (start + length data - start)%nat with (length data) by lia. apply take_app_length.
Qed.

Lemma slice_splice_other l start data a b : (start + length data ≤ length l)%nat → (a ≤ b)%nat →
  (b ≤ start ∨ start + length data ≤ a)%nat →
  slice (splice l start data) a b = slice l a b.
Proof.
  intros Hl Hab Ho. unfold slice, splice. apply list_eq. intros i.
  destruct (decide (i < b - a)%nat) as [Hi|Hi]; [|by rewrite !lookup_take_ge by lia].
  rewrite !lookup_take_lt, !lookup_drop by done. destruct Ho as [Ho|Ho].
  - rewrite lookup_app_l by (rewrite length_take; lia). by rewrite lookup_take_lt by lia.
  - rewrite lookup_app_r by (rewrite length_take; lia). rewrite length_take, Nat.min_l by lia.
    rewrite lookup_app_r by lia. rewrite lookup_drop. f_equal. lia.
Qed.

(** A block of a run of blocks. *)
Lemma sector_slice l a n i : (i < n)%nat →
  sector (slice l (a * BLOCK_SIZE) (a * BLOCK_SIZE + n * BLOCK_SIZE)) i =
  slice l ((a + i) * BLOCK_SIZE) ((a + i) * BLOCK_SIZE + BLOCK_SIZE).
Proof.
  intros Hi. assert (Hm : (S i * BLOCK_SIZE ≤ n * BLOCK_SIZE)%nat) by (apply Nat.mul_le_mono_r; lia).
  unfold sector, slice. apply list_eq. intros j.
  destruct (decide (j < BLOCK_SIZE)%nat); [|by rewrite !lookup_take_ge by lia].
  rewrite !lookup_take_lt, !lookup_drop, lookup_take_lt, lookup_drop by lia. f_equal. lia.
Qed.

Lemma memory_write_ok d lba b : memory_ok d → 0 ≤ lba → is_sector b →
  ∃ d' r, memory_write_blocks d lba b = Ret (d', r) ∧
    memory_ok d' ∧ (∀ a, a ≠ lba → memory_blocks d' a = memory_blocks d a) ∧
    written (memory_blocks d lba) (memory_blocks d' lba) b (is_ok r).
Proof.
  intros Hok Hlba [Lb Hb]. unfold memory_write_blocks.
  destruct (mem_read_only d); [eexists _, _; split; [done|]; split; [done|]; split; [done|by left]|].
  rewrite Lb. pose proof (memory_range_ok d lba 1 Hok Hlba) as Er. rewrite Nat.mul_1_l in Er. rewrite Er.
  case_decide as Hin; eexists _, _; (split; [done|]); cycle 1.
  { split; [done|]; split; [done|by left]. }
  destruct Hok as (Hbytes & Hmod & Hmax). pose proof Hin as [_ Hend].
  assert (Hfit : (Z.to_nat lba * BLOCK_SIZE + length b ≤ length (storage d))%nat) by lia.
  set (d' := mkMemory _ _).
  assert (Ll : length (storage d') = length (storage d)) by by apply length_splice.
  assert (Hin' : ∀ a n, in_memory d' a n ↔ in_memory d a n) by (intros; unfold in_memory; by rewrite Ll).
  split; [|split].
  - split; [by apply splice_bytes|]. by rewrite Ll.
  - intros a Ha. unfold memory_blocks.
    destruct (decide (in_memory d' a 1)) as [H1|H1]; rewrite Hin' in H1; [|by rewrite decide_False].
    rewrite decide_True by done. f_equal. destruct H1 as [Ha0 Ha1].
    apply slice_splice_other; [done|lia|]. rewrite Lb. nia.
  - cbn [is_ok written]. unfold memory_blocks. rewrite decide_True by (apply Hin'; split; lia).
    f_equal. pose proof (slice_splice_same _ _ _ Hfit) as Es. by rewrite Lb in Es.
Qed.

(** A block within the storage of a writable device. *)
Definition memory_takes (d : MemoryBlockDevice) (a : Z) : bool :=
  negb (mem_read_only d) && bool_decide (in_memory d a 1).

Lemma memory_write_takes d lba b d' r a : memory_ok d → 0 ≤ lba → is_sector b →
  memory_write_blocks d lba b = Ret (d', r) →
  memory_takes d' a = memory_takes d a ∧ (memory_takes d lba = true → is_ok r = true).
Proof.
  intros Hok Hlba [Lb Hb] E. unfold memory_write_blocks in E. unfold memory_takes.
  destruct (mem_read_only d) eqn:Hro; [simplify_eq; by rewrite Hro|].
  rewrite Lb in E. pose proof (memory_range_ok d lba 1 Hok Hlba) as Er. rewrite Nat.mul_1_l in Er. rewrite Er in E.
  case_decide as Hin; simplify_eq; cbn [mem_read_only negb andb is_ok].
  - destruct Hin as [_ Hend]. split; [|done]. apply bool_decide_ext. unfold in_memory. cbn [storage].
    by rewrite length_splice by lia.
  - rewrite Hro. split; [done|]. by rewrite bool_decide_false.
Qed.

#[global] Program Instance memory_contract : BlockContract MemoryBlockDevice := {
  dev_ok := memory_ok;
  blocks := memory_blocks;
  takes := memory_takes;
}.
Next Obligation. done. Qed.
Next Obligation. intros d _. cbn. unfold default_queue_depth. lia. Qed.
Next Obligation.
  intros d a b (Hb & _) E. unfold memory_blocks in E. case_decide as Hin; [|done]. simplify_eq.
  destruct Hin. rewrite length_slice; lia.
Qed.
Next Obligation.
  intros d lba n Hok Hlba Hmax. cbn. unfold memory_read_blocks. rewrite memory_range_ok by done.
  eexists _, _. split; [done|]. split; [done|]. split; [done|]. intros data E.
  case_decide as Hin; [|done]. simplify_eq. destruct Hin as [_ Hin]. split.
  - rewrite length_slice; lia.
  - intros i b Hi E. unfold memory_blocks in E. case_decide; [|done]. simplify_eq.
    rewrite sector_slice by done. by replace (Z.to_nat (lba + Z.of_nat i)) with (Z.to_nat lba + i)%nat by lia.
Qed.
Next Obligation.
  intros d lba b Hok Hlba Hb _. apply memory_write_ok; (done || lia).
Qed.
Next Obligation.
  intros d lba b Hok Hlba Hb _. apply default_submit_ok, memory_write_ok; (done || lia).
Qed.
Next Obligation.
  intros d t Hok. cbn. split; [done|]. intros a. symmetry. apply settle_quiet.
  unfold memory_blocks. by case_decide.
Qed.
Next Obligation. intros d lba b d' r Hok [Hlba _] Hb Ht E. by eapply (memory_write_takes d lba b d' r 0). Qed.
Next Obligation. intros d a Ht. apply andb_prop in Ht as [Ht _]. by apply negb_true_iff. Qed.
Next Obligation. intros d lba n d' r a _ E. cbn in E. unfold memory_read_blocks in E. by simplify_eq. Qed.
Next Obligation. intros d lba b d' r a Hok [Hlba _] Hb E. by eapply memory_write_takes. Qed.
Next Obligation.
  intros d lba b d' r a Hok [Hlba _] Hb E. destruct (default_submit_inv _ _ _ _ _ _ E) as (r' & E').
  by eapply memory_write_takes.
Qed.
Next Obligation. done. Qed.

(** ** A slice keeps the contract of its parent *)

Section SliceContract.
Context {D : Type} `{BlockContract D}.

(** The window lies within the addresses of the parent. *)
Definition slice_ok (s : BlockSliceDevice D) : Prop :=
  dev_ok (parent s) ∧ 0 ≤ start_block s ∧ start_block s + slice_block_count s ≤ u64_max.

(** The parent's blocks, within the slice. *)
Definition slice_blocks (s : BlockSliceDevice D) (a : Z) : block_state :=
  if decide (0 ≤ a < slice_block_count s) then blocks (parent s) (start_block s + a) else Unknown.

Lemma slice_range_ok (s : BlockSliceDevice D) lba n :
  slice_ok s → 0 ≤ lba → lba + Z.of_nat n ≤ u64_max →
  slice_range s lba (n * BLOCK_SIZE) =
  if decide (lba + Z.of_nat n ≤ slice_block_count s)
  then Ok (start_block s + lba) else Err InvalidArgument.
Proof.
  intros (_ & Hs & Hc) Hlba Hn. unfold slice_range.
  rewrite Nat.Div0.mod_mul, Nat.div_mul by done. cbn [Nat.eqb negb].
  unfold checked_add. rewrite (proj2 (Z.leb_le _ _) Hn).
  destruct (Z.ltb_spec (slice_block_count s) (lba + Z.of_nat n)); [by rewrite decide_False by lia|].
  rewrite decide_True by lia. by rewrite (proj2 (Z.leb_le _ _)) by lia.
Qed.

Lemma slice_range_sector (s : BlockSliceDevice D) lba b :
  slice_ok s → 0 ≤ lba < u64_max → is_sector b →
  slice_range s lba (length b) =
  if decide (lba + 1 ≤ slice_block_count s) then Ok (start_block s + lba) else Err InvalidArgument.
Proof.
  intros Hs Hlba [-> _]. pose proof (slice_range_ok s lba 1 Hs ltac:(lia) ltac:(lia)) as E.
  by rewrite Nat.mul_1_l in E.
Qed.

(** A parent that changed one block of the window. *)
Lemma slice_frame (s : BlockSliceDevice D) d lba :
  (∀ a, a ≠ start_block s + lba → blocks d a = blocks (parent s) a) →
  ∀ a, a ≠ lba → slice_blocks (with_parent s d) a = slice_blocks s a.
Proof. intros Hd a Ha. unfold slice_blocks, with_parent. cbn. case_decide; [|done]. apply Hd. lia. Qed.

Lemma slice_blocks_in (s : BlockSliceDevice D) lba :
  0 ≤ lba < slice_block_count s → slice_blocks s lba = blocks (parent s) (start_block s + lba).
Proof. intros. unfold slice_blocks. by rewrite decide_True. Qed.

Definition slice_takes (s : BlockSliceDevice D) (a : Z) : bool :=
  negb (slice_read_only s) && bool_decide (0 ≤ a < slice_block_count s) && takes (parent s) (start_block s + a).

Lemma slice_takes_parent (s : BlockSliceDevice D) d a : (∀ a, takes d a = takes (parent s) a) →
  slice_takes (with_parent s d) a = slice_takes s a.
Proof. intros Hd. unfold slice_takes. cbn. by rewrite Hd. Qed.

#[global] Program Instance slice_contract : BlockContract (BlockSliceDevice D) := {
  dev_ok := slice_ok;
  blocks := slice_blocks;
  takes := slice_takes;
}.
Next Obligation. done. Qed.
Next Obligation. intros s (Hs & _). by apply (depth_law (parent s)). Qed.
Next Obligation.
  intros s a b (Hs & _) E. unfold slice_blocks in E. case_decide; [|done]. by eapply (length_law (parent s)).
Qed.
Next Obligation.
  intros s lba n Hs Hlba Hn. pose proof Hs as (Hp & Hlo & Hhi). cbn. unfold slice_read_blocks.
  rewrite slice_range_ok by done. case_decide as Hin; [|eexists _, _; split; [done|]; by split].
  destruct (read_law (parent s) (start_block s + lba) n Hp ltac:(lia) ltac:(lia))
    as (d' & r & -> & Hd & Hb & Hr). cbn [mbind outcome_bind].
  exists (with_parent s d'), r. split; [done|]. split; [by split|]. split.
  - intros a. unfold slice_blocks. cbn. by case_decide.
  - intros data E. destruct (Hr data E) as (L & Hdata). split; [done|].
    intros i b Hi Eb. apply Hdata; [done|]. rewrite slice_blocks_in in Eb by lia. by rewrite <- Z.add_assoc.
Qed.
Next Obligation.
  intros s lba b Hs Hlba Hb Hf. pose proof Hs as (Hp & Hlo & Hhi). cbn. unfold slice_write_blocks.
  destruct (slice_read_only s); [eexists _, _; split; [done|]; split; [done|]; split; [done|by left]|].
  rewrite slice_range_sector by done.
  case_decide as Hin; [|eexists _, _; split; [done|]; split; [done|]; split; [done|by left]].
  rewrite slice_blocks_in in * by lia.
  destruct (write_law (parent s) (start_block s + lba) b Hp ltac:(lia) Hb Hf)
    as (d' & r & -> & Hd & Ho & Hw). cbn [mbind outcome_bind].
  exists (with_parent s d'), r. split; [done|]. split; [by split|]. split; [by apply slice_frame|].
  by rewrite slice_blocks_in by (cbn; lia).
Qed.
Next Obligation.
  intros s lba b Hs Hlba Hb Hf. pose proof Hs as (Hp & Hlo & Hhi). cbn. unfold slice_submit_write.
  destruct (slice_read_only s); [eexists _, _; split; [done|]; split; [done|]; split; [done|by left]|].
  rewrite slice_range_sector by done.
  case_decide as Hin; [|eexists _, _; split; [done|]; split; [done|]; split; [done|by left]].
  rewrite slice_blocks_in in * by lia.
  destruct (submit_law (parent s) (start_block s + lba) b Hp ltac:(lia) Hb Hf)
    as (d' & r & -> & Hd & Ho & Hw). cbn [mbind outcome_bind].
  exists (with_parent s d'), r. split; [done|]. split; [by split|]. split; [by apply slice_frame|].
  destruct r as [t|er]; [|by rewrite slice_blocks_in by (cbn; lia)].
  unfold accepted in *. rewrite slice_blocks_in by (cbn; lia). cbn.
  destruct Hw as [Hw|(Ht & Hw & Hn)]; [by left|]. right. split; [done|]. split; [done|].
  intros a b'. unfold slice_blocks. by case_decide.
Qed.
Next Obligation.
  intros s t (Hp & Hlo & Hhi). cbn. unfold slice_poll. pose proof (poll_law (parent s) t Hp) as Hl.
  destruct (poll (parent s) t) as [d' r]. destruct Hl as [Hd Hb]. split; [by split|].
  intros a. unfold slice_blocks. cbn. case_decide; [rewrite Hb|]; by destruct r.
Qed.
Next Obligation.
  intros s lba b s' r Hs Hlba Hb Ht E. pose proof Hs as (Hp & Hlo & Hhi). unfold slice_takes in Ht.
  apply andb_prop in Ht as [[Hro Hin%bool_decide_eq_true]%andb_prop Ht].
  cbn in E. unfold slice_write_blocks in E. apply negb_true_iff in Hro. rewrite Hro in E.
  rewrite slice_range_sector, decide_True in E by (done || lia).
  destruct (write_blocks (parent s) (start_block s + lba) b) as [[d' r']| |] eqn:Ew; [|done|done].
  cbn in E. simplify_eq. by eapply (takes_law (parent s)); [..|exact Ew]; [|lia|..].
Qed.
Next Obligation. intros s a Ht. apply andb_prop in Ht as [[Ht _]%andb_prop _]. by apply negb_true_iff. Qed.
Next Obligation.
  intros s lba n s' r a (Hp & _) E. cbn in E. unfold slice_read_blocks in E.
  destruct (slice_range s lba n) as [p|]; [|by simplify_eq].
  destruct (read_blocks (parent s) p n) as [[d' r']| |] eqn:Er; [|done|done]. cbn in E. simplify_eq.
  apply slice_takes_parent. intros a'. by eapply read_takes.
Qed.
Next Obligation.
  intros s lba b s' r a Hs Hlba Hb E. pose proof Hs as (Hp & Hlo & Hhi). cbn in E. unfold slice_write_blocks in E.
  destruct (slice_read_only s) eqn:Hro; [by simplify_eq|]. rewrite slice_range_sector in E by done.
  case_decide; [|by simplify_eq].
  destruct (write_blocks (parent s) (start_block s + lba) b) as [[d' r']| |] eqn:Ew; [|done|done].
  cbn in E. simplify_eq. apply slice_takes_parent. intros a'. by eapply write_takes; [..|exact Ew]; [|lia|].
Qed.
Next Obligation.
  intros s lba b s' r a Hs Hlba Hb E. pose proof Hs as (Hp & Hlo & Hhi). cbn in E. unfold slice_submit_write in E.
  destruct (slice_read_only s) eqn:Hro; [by simplify_eq|]. rewrite slice_range_sector in E by done.
  case_decide; [|by simplify_eq].
  destruct (submit_write (parent s) (start_block s + lba) b) as [[d' r']| |] eqn:Ew; [|done|done].
  cbn in E. simplify_eq. apply slice_takes_parent. intros a'. by eapply submit_takes; [..|exact Ew]; [|lia|].
Qed.
Next Obligation.
  intros s t a. cbn. unfold slice_poll. pose proof (poll_takes (parent s) t) as Ht.
  destruct (poll (parent s) t) as [d' r]. cbn in Ht |- *. by apply slice_takes_parent.
Qed.
End SliceContract.
