(* ===== verification/CryptDevice.v ===== *)
(** * The encrypted block device (src/fs/crypt_device.rs)

    [EncryptedBlockDevice] wraps another device and runs every sector through
    AES-256-XTS with its block number as tweak.  It keeps the contract of block
    devices whenever its inner device does. *)

From stdpp Require Import base tactics decidable numbers list.
From Stdlib Require Import ZArith Lia Bool.
From S2P Require Import Prelude Bytes Aes AesModes BlockDevice.

Record EncryptedBlockDevice (D : Type) := mkEncrypted { inner : D; key : bytes }.
Arguments mkEncrypted {D} _ _.
Arguments inner {D} _.
Arguments key {D} _.

(** [for sector in 0..sectors]: every sector in place, under its own number. *)
Fixpoint crypt_sectors (cipher : Z → bytes → outcome bytes) (sector_id : Z) (sectors : list bytes)
    : outcome bytes :=
  match sectors with
  | [] => Ret []
  | s :: sectors =>
      s ← cipher sector_id s;
      rest ← crypt_sectors cipher (wrapping_add sector_id 1) sectors;
      Ret (s ++ rest)
  end.

Section Encrypted.
Context {D : Type} `{BlockDevice D}.

Definition with_inner (e : EncryptedBlockDevice D) (d : D) : EncryptedBlockDevice D :=
  mkEncrypted d (key e).

Definition encrypted_read_blocks (e : EncryptedBlockDevice D) (lba : Z) (len : nat) :
    outcome (EncryptedBlockDevice D * result bytes) :=
  let bs := block_size (inner e) in
  if negb (len mod bs =? 0)%nat then Ret (e, Err InvalidArgument) else
  '(d, r) ← read_blocks (inner e) lba len;
  match r with
  | Err er => Ret (with_inner e d, Err er)
  | Ok buffer =>
      plain ← crypt_sectors (aes_xts_decrypt (key e)) lba (chunks bs buffer);
      Ret (with_inner e d, Ok plain)
  end.

Definition encrypted_write_blocks (e : EncryptedBlockDevice D) (lba : Z) (data : bytes) :
    outcome (EncryptedBlockDevice D * result unit) :=
  if is_read_only (inner e) then Ret (e, Err PermissionDenied) else
  let bs := block_size (inner e) in
  if negb (length data mod bs =? 0)%nat then Ret (e, Err InvalidArgument) else
  encrypted ← crypt_sectors (aes_xts_encrypt (key e)) lba (chunks bs data);
  '(d, r) ← write_blocks (inner e) lba encrypted;
  Ret (with_inner e d, r).

#[global] Instance encrypted_device : BlockDevice (EncryptedBlockDevice D) := {
  block_size e := block_size (inner e);
  block_count e := block_count (inner e);
  is_read_only e := is_read_only (inner e);
  read_blocks := encrypted_read_blocks;
  write_blocks := encrypted_write_blocks;
  queue_depth := default_queue_depth;
  submit_write := default_submit_write encrypted_write_blocks;
  poll := default_poll;
}.
End Encrypted.

(** ** Sectors *)

Lemma sector_cons s l i : length s = BLOCK_SIZE →
  sector (s ++ l) (S i) = sector l i ∧ sector (s ++ l) 0 = s.
Proof.
  intros Hs. unfold sector, slice. split.
  - rewrite drop_app_ge by lia. replace (S i * BLOCK_SIZE - length s)%nat with (i * BLOCK_SIZE)%nat by lia.
    f_equal; lia.
  - rewrite Nat.mul_0_l, drop_0, Nat.sub_0_r. replace (0 + BLOCK_SIZE)%nat with (length s) by lia.
    apply take_app_length.
Qed.

Lemma crypt_sectors_ok cipher n lba data :
  (∀ id s, length s = BLOCK_SIZE → ∃ p, cipher id s = Ret p ∧ length p = BLOCK_SIZE) →
  length data = (n * BLOCK_SIZE)%nat → 0 ≤ lba → lba + Z.of_nat n ≤ u64_max →
  ∃ out, crypt_sectors cipher lba (chunks BLOCK_SIZE data) = Ret out ∧
    length out = (n * BLOCK_SIZE)%nat ∧
    ∀ i, (i < n)%nat → cipher (lba + Z.of_nat i) (sector data i) = Ret (sector out i).
Proof.
  intros Hc. revert lba data. induction n as [|n IH]; intros lba data Hl H0 H1.
  { destruct data; [|done]. exists []. split; [done|]. split; [done|]. lia. }
  assert (Hne : data ≠ []) by (intros ->; simpl in Hl; lia).
  rewrite chunks_cons by (done || (unfold BLOCK_SIZE; lia)). cbn [crypt_sectors].
  set (s := take BLOCK_SIZE data). set (l := drop BLOCK_SIZE data).
  assert (Ls : length s = BLOCK_SIZE) by (unfold s; rewrite length_take; lia).
  assert (Ed : data = s ++ l) by (unfold s, l; by rewrite take_drop).
  destruct (Hc lba s Ls) as (p & Ep & Lp). rewrite Ep. cbn [mbind outcome_bind].
  unfold wrapping_add. rewrite wrap64_small by (unfold u64_max in *; lia).
  destruct (IH (lba + 1) l) as (out & Eo & Lo & Ho); [unfold l; rewrite length_drop; lia|lia|lia|].
  rewrite Eo. cbn [mbind outcome_bind]. exists (p ++ out). split; [done|].
  split; [rewrite length_app; lia|]. intros [|i] Hi.
  - rewrite Z.add_0_r, Ed, (proj2 (sector_cons s l 0 Ls)), (proj2 (sector_cons p out 0 Lp)). done.
  - rewrite Ed, (proj1 (sector_cons s l i Ls)), (proj1 (sector_cons p out i Lp)).
    rewrite <- Ho by lia. f_equal. lia.
Qed.

(** ** The contract *)

Section EncryptedContract.
Context {D : Type} `{BlockContract D}.

(** The device is not shared with a caller that queues. *)
Definition encrypted_ok (e : EncryptedBlockDevice D) : Prop :=
  dev_ok (inner e) ∧ length (key e) = 64%nat ∧ is_bytes (key e) ∧
  ∀ a, flying (blocks (inner e) a) = false.

(** What the device shows of a block: its decryption. *)
Definition decrypted (k : bytes) (a : Z) (s : block_state) : block_state :=
  match s with
  | Stable b => match aes_xts_decrypt k a b with Ret p => Stable p | _ => Unknown end
  | _ => Unknown
  end.

Definition encrypted_blocks (e : EncryptedBlockDevice D) (a : Z) : block_state :=
  decrypted (key e) a (blocks (inner e) a).

Lemma sector_whole (b : bytes) : length b = BLOCK_SIZE → (length b mod 16 = 0)%nat.
Proof. by intros ->. Qed.

Lemma decrypted_stable e a p : dev_ok (inner e) → encrypted_blocks e a = Stable p →
  ∃ b, blocks (inner e) a = Stable b ∧ length b = BLOCK_SIZE ∧ aes_xts_decrypt (key e) a b = Ret p ∧
    length p = BLOCK_SIZE.
Proof.
  unfold encrypted_blocks. intros Hd E. destruct (blocks (inner e) a) as [b| |] eqn:Eb; [|done|done].
  pose proof (length_law _ _ _ Hd Eb) as Lb. exists b. split; [done|]. split; [done|]. cbn [decrypted] in E.
  destruct (xts_decrypt_total (key e) a b (sector_whole b Lb)) as (q & Eq & Lq). rewrite Eq in E.
  simplify_eq. split; [done|congruence].
Qed.

Lemma one_sector (f : Z → bytes → outcome bytes) lba b ct : length b = BLOCK_SIZE →
  f lba b = Ret ct → crypt_sectors f lba (chunks BLOCK_SIZE b) = Ret ct.
Proof.
  intros Lb E. rewrite chunks_cons; [|unfold BLOCK_SIZE; lia|by intros ->].
  rewrite take_ge, drop_ge, chunks_nil by lia. cbn [crypt_sectors]. rewrite E. cbn [mbind outcome_bind].
  by rewrite app_nil_r.
Qed.

Lemma encrypted_write_ok e lba b : encrypted_ok e → 0 ≤ lba < u64_max → is_sector b →
  ∃ e' r, encrypted_write_blocks e lba b = Ret (e', r) ∧ encrypted_ok e' ∧
    (∀ a, a ≠ lba → encrypted_blocks e' a = encrypted_blocks e a) ∧
    written (encrypted_blocks e lba) (encrypted_blocks e' lba) b (is_ok r).
Proof.
  intros He Hlba [Lb Bb]. pose proof He as (Hd & Lk & Bk & Hf). unfold encrypted_write_blocks.
  destruct (is_read_only (inner e)).
  { eexists _, _. split; [done|]. split; [done|]. split; [done|by left]. }
  cbv zeta. rewrite size_law, Lb by done. rewrite Nat.Div0.mod_same. cbn [Nat.eqb negb].
  destruct (xts_undone (key e) b lba Lk Bk Bb (sector_whole b Lb)) as (ct & Ee & Lc & Bc & Ed).
  rewrite (one_sector _ _ _ _ Lb Ee). cbn [mbind outcome_bind].
  destruct (write_law (inner e) lba ct Hd Hlba) as (d' & r & -> & Hd' & Ho & Hw);
    [split; [congruence|done]|apply Hf|]. cbn [mbind outcome_bind].
  exists (with_inner e d'), r. split; [done|]. split; [|split].
  - split; [done|]. split; [done|]. split; [done|]. intros a. cbn.
    destruct (decide (a = lba)) as [->|Ha]; [|rewrite Ho by done; apply Hf]. specialize (Hf lba).
    destruct r; cbn in Hw; [by rewrite Hw|destruct Hw as [-> | ->]; done].
  - intros a Ha. unfold encrypted_blocks. cbn. by rewrite Ho.
  - unfold encrypted_blocks. cbn. destruct r; cbn in Hw |- *; [by rewrite Hw; cbn; rewrite Ed|].
    destruct Hw as [-> | ->]; [by left|by right].
Qed.

Lemma encrypted_write_takes e lba b e' r a : encrypted_ok e → 0 ≤ lba < u64_max → is_sector b →
  encrypted_write_blocks e lba b = Ret (e', r) →
  takes (inner e') a = takes (inner e) a ∧ (takes (inner e) lba = true → is_ok r = true).
Proof.
  intros (Hd & Lk & Bk & Hf) Hlba [Lb Bb] E. unfold encrypted_write_blocks in E.
  destruct (is_read_only (inner e)) eqn:Hro.
  { simplify_eq. split; [done|]. intros Ht. apply takes_writable in Ht. congruence. }
  cbv zeta in E. rewrite size_law, Lb in E by done. rewrite Nat.Div0.mod_same in E. cbn [Nat.eqb negb] in E.
  destruct (xts_undone (key e) b lba Lk Bk Bb (sector_whole b Lb)) as (ct & Ee & Lc & Bc & _).
  rewrite (one_sector _ _ _ _ Lb Ee) in E. cbn [mbind outcome_bind] in E.
  assert (Hct : is_sector ct) by (split; [congruence|done]).
  destruct (write_blocks (inner e) lba ct) as [[d' r']| |] eqn:Ew; [|done|done]. cbn in E. simplify_eq.
  split; [by eapply write_takes|]. intros Ht. by eapply takes_law.
Qed.

#[global] Program Instance encrypted_contract : BlockContract (EncryptedBlockDevice D) := {
  dev_ok := encrypted_ok;
  blocks := encrypted_blocks;
  takes e a := takes (inner e) a;
}.
Next Obligation. intros e (Hd & _). by apply (size_law (inner e)). Qed.
Next Obligation. intros e _. cbn. unfold default_queue_depth. lia. Qed.
Next Obligation. intros e a p (Hd & _) E. by destruct (decrypted_stable e a p Hd E) as (b & _ & _ & _ & ?). Qed.
Next Obligation.
  intros e lba n He Hlba Hn. pose proof He as (Hd & Lk & Bk & Hf). cbn. unfold encrypted_read_blocks.
  cbv zeta. rewrite size_law by done. rewrite Nat.Div0.mod_mul. cbn [Nat.eqb negb].
  destruct (read_law (inner e) lba n Hd Hlba Hn) as (d' & r & -> & Hd' & Hb & Hr).
  cbn [mbind outcome_bind].
  assert (Hsame : ∀ a, encrypted_blocks (with_inner e d') a = encrypted_blocks e a).
  { intros a. unfold encrypted_blocks. cbn. by rewrite Hb. }
  assert (He' : encrypted_ok (with_inner e d')).
  { split; [done|]. split; [done|]. split; [done|]. intros a. cbn. by rewrite Hb. }
  destruct r as [buffer|er]; [|eexists _, _; split; [done|]; by split].
  destruct (Hr buffer eq_refl) as (Lbuf & Hbuf).
  destruct (crypt_sectors_ok (aes_xts_decrypt (key e)) n lba buffer) as (out & -> & Lo & Hout); try done.
  { intros id s Ls. destruct (xts_decrypt_total (key e) id s (sector_whole s Ls)) as (p & Ep & Lp).
    exists p. split; [done|congruence]. }
  cbn [mbind outcome_bind]. eexists _, _. split; [done|]. split; [done|]. split; [done|].
  intros data [= <-]. split; [done|]. intros i p Hi Ep.
  destruct (decrypted_stable e _ p Hd Ep) as (b & Eb & Lb & Edec & _).
  pose proof (Hout i Hi) as E. rewrite (Hbuf i b Hi Eb), Edec in E. congruence.
Qed.
Next Obligation. intros e lba b He Hlba Hb _. by apply encrypted_write_ok. Qed.
Next Obligation. intros e lba b He Hlba Hb _. by apply default_submit_ok, encrypted_write_ok. Qed.
Next Obligation.
  intros e t He. cbn. split; [done|]. intros a. symmetry. apply settle_quiet.
  unfold encrypted_blocks, decrypted. destruct (blocks (inner e) a); try done. by destruct (aes_xts_decrypt _ _ _).
Qed.
Next Obligation. intros e lba b e' r He Hlba Hb Ht E. by eapply (encrypted_write_takes e lba b e' r 0). Qed.
Next Obligation. intros e a Ht. exact (takes_writable (inner e) a Ht). Qed.
Next Obligation.
  intros e lba n e' r a (Hd & _) E. cbn in E. unfold encrypted_read_blocks in E.
  destruct (negb _); [by simplify_eq|].
  destruct (read_blocks (inner e) lba n) as [[d' [buffer|er]]| |] eqn:Er; cbn in E; try done.
  - destruct (crypt_sectors _ _ _); cbn in E; [|done|done]. simplify_eq. by eapply read_takes.
  - simplify_eq. by eapply read_takes.
Qed.
Next Obligation. intros e lba b e' r a He Hlba Hb E. by eapply encrypted_write_takes. Qed.
Next Obligation.
  intros e lba b e' r a He Hlba Hb E. destruct (default_submit_inv _ _ _ _ _ _ E) as (r' & E').
  by eapply encrypted_write_takes.
Qed.
Next Obligation. done. Qed.

Lemma encrypted_write_stores e lba b : encrypted_ok e → 0 ≤ lba < u64_max → is_sector b →
  is_read_only (inner e) = false →
  ∃ ct d r, aes_xts_encrypt (key e) lba b = Ret ct ∧
    encrypted_write_blocks e lba b = Ret (with_inner e d, r) ∧
    (∀ a, a ≠ lba → blocks d a = blocks (inner e) a) ∧
    written (blocks (inner e) lba) (blocks d lba) ct (is_ok r).
Proof.
  intros (Hd & Lk & Bk & Hf) Hlba [Lb Bb] Hro. unfold encrypted_write_blocks. rewrite Hro. cbv zeta.
  rewrite size_law, Lb by done. rewrite Nat.Div0.mod_same. cbn [Nat.eqb negb].
  destruct (xts_undone (key e) b lba Lk Bk Bb (sector_whole b Lb)) as (ct & Ee & Lc & Bc & _).
  rewrite (one_sector _ _ _ _ Lb Ee). cbn [mbind outcome_bind].
  destruct (write_law (inner e) lba ct Hd Hlba) as (d & r & -> & _ & Ho & Hw); [split; [congruence|done]|apply Hf|].
  by exists ct, d, r.
Qed.

(** C32. What is written through the encrypted device is stored enciphered and read
    back in the clear.  A write that succeeds leaves the XTS encryption of the block
    under its own number on the inner device and every other block there as it was;
    a read of it that succeeds returns the block.  A write that fails changes no
    other block either, and one to a read-only device changes nothing at all. *)
Theorem encrypted_write_reads_back (e : EncryptedBlockDevice D) lba b :
  encrypted_ok e → 0 ≤ lba < u64_max → is_sector b →
  match encrypted_write_blocks e lba b with
  | Ret (e1, Ok _) =>
      (∃ ct, aes_xts_encrypt (key e) lba b = Ret ct ∧ blocks (inner e1) lba = Stable ct) ∧
      (∀ a, a ≠ lba → blocks (inner e1) a = blocks (inner e) a) ∧
      ∃ e2 r, encrypted_read_blocks e1 lba BLOCK_SIZE = Ret (e2, r) ∧ ∀ data, r = Ok data → data = b
  | Ret (e1, Err er) =>
      (∀ a, a ≠ lba → blocks (inner e1) a = blocks (inner e) a) ∧
      (is_read_only (inner e) = true → e1 = e ∧ er = PermissionDenied)
  | _ => False
  end.
Proof.
  intros He Hlba Hb. destruct (is_read_only (inner e)) eqn:Hro.
  { unfold encrypted_write_blocks. rewrite Hro. by split. }
  destruct (encrypted_write_stores e lba b He Hlba Hb Hro) as (ct & d & r & Ee & E & Ho & Hw).
  destruct (encrypted_write_ok e lba b He Hlba Hb) as (e1 & r1 & E1 & He1 & _ & Hw1).
  rewrite E in E1. injection E1 as <- <-. rewrite E. destruct r as [u|er]; [|by split].
  split; [by exists ct|]. split; [done|].
  destruct (@read_law _ _ encrypted_contract (with_inner e d) lba 1 He1 ltac:(lia) ltac:(lia)) as (e2 & r2 & E2 & _ & _ & Hr2).
  rewrite Nat.mul_1_l in E2, Hr2. exists e2, r2. split; [exact E2|]. intros data ->.
  destruct (Hr2 data eq_refl) as [Ld Hdata]. rewrite <- (Hdata 0%nat b).
  - unfold sector, slice. rewrite Nat.mul_0_l, drop_0. symmetry. apply take_ge. lia.
  - lia.
  - rewrite Z.add_0_r. exact Hw1.
Qed.
End EncryptedContract.

Definition crypt_demo : EncryptedBlockDevice MemoryBlockDevice :=
  mkEncrypted (MemoryBlockDevice_new (replicate (4 * BLOCK_SIZE) 5) false) (replicate 64 9).

Lemma encrypted_write_reads_back_witness :
  match encrypted_write_blocks crypt_demo 2 (replicate BLOCK_SIZE 3) with
  | Ret (e1, Ok _) =>
      (∃ ct, aes_xts_encrypt (key crypt_demo) 2 (replicate BLOCK_SIZE 3) = Ret ct ∧ blocks (inner e1) 2 = Stable ct) ∧
      (∀ a, a ≠ 2 → blocks (inner e1) a = blocks (inner crypt_demo) a) ∧
      ∃ e2 r, encrypted_read_blocks e1 2 BLOCK_SIZE = Ret (e2, r) ∧
        ∀ data, r = Ok data → data = replicate BLOCK_SIZE 3
  | Ret (e1, Err er) =>
      (∀ a, a ≠ 2 → blocks (inner e1) a = blocks (inner crypt_demo) a) ∧
      (is_read_only (inner crypt_demo) = true → e1 = crypt_demo ∧ er = PermissionDenied)
  | _ => False
  end.
Proof.
  apply (encrypted_write_reads_back crypt_demo 2 (replicate BLOCK_SIZE 3)).
  - split; [split; [by apply Forall_replicate|by split]|]. split; [done|]. split; [by apply Forall_replicate|].
    intros a. cbn [blocks memory_contract]. unfold memory_blocks. by case_decide.
  - unfold u64_max. lia.
  - split; [apply length_replicate|by apply Forall_replicate].
Defined.
