(* ===== verification/BlockCache.v ===== *)
(** * The block cache (src/fs/block_cache.rs)

    A cache of [CACHE_CAPACITY] blocks in front of a device: reads with
    read-ahead, write-through and write-back, eviction of the least recently
    used block, and flushes through the device's queue.  Each method runs under
    the cache's locks and is one function on its state; a flush, which drops the
    lock while its writes are in flight, is composed of three such functions.
    The clock that ages dirty blocks is a global: methods that read it take its
    value [now]. *)

From stdpp Require Import base tactics decidable numbers list.
From Stdlib Require Import ZArith Lia Bool.
From S2P Require Import Prelude Bytes BlockDevice.

(** ** The clock *)

Definition advance_cache_ticks (tick n : Z) : Z := wrapping_add tick n.
Definition advance_cache_tick (tick : Z) : Z := advance_cache_ticks tick 1.

(** ** State *)

Definition WRITE_BACK_PERIOD_TICKS : Z := 300.
Definition WRITE_BACK_AGE_TICKS : Z := 600.
Definition CACHE_CAPACITY : nat := 512.
Definition WRITE_BACK_PRESSURE_THRESHOLD : nat := CACHE_CAPACITY / 2.
Definition PREFETCH_RUN_BLOCKS : nat := 4.
Definition FLUSH_POLL_LIMIT : Z := 50000000.
Definition EMPTY_LBA : Z := u64_max.

Record PendingWrite := mkPending { p_ticket : Ticket; p_lba : Z; p_generation : Z }.

Record CacheStats := mkStats {
  hits : Z; misses : Z; evictions : Z; dirty_writebacks : Z; sequential_hits : Z;
  prefetches_issued : Z; pressure_flushes : Z; aged_writebacks : Z;
}.

Definition CacheStats_default : CacheStats := mkStats 0 0 0 0 0 0 0 0.

Record CacheEntry := mkEntry {
  e_lba : Z; e_data : bytes; e_generation : Z; e_dirty : bool; e_dirty_since : Z;
}.

Definition empty_entry : CacheEntry := mkEntry EMPTY_LBA (replicate BLOCK_SIZE 0) 0 false 0.

Definition is_empty (e : CacheEntry) : bool := e_lba e =? EMPTY_LBA.

Definition set_generation (g : Z) (e : CacheEntry) : CacheEntry :=
  mkEntry (e_lba e) (e_data e) g (e_dirty e) (e_dirty_since e).
Definition set_clean (e : CacheEntry) : CacheEntry :=
  mkEntry (e_lba e) (e_data e) (e_generation e) false 0.
Definition set_data (data : bytes) (dirty : bool) (since : Z) (e : CacheEntry) : CacheEntry :=
  mkEntry (e_lba e) data (e_generation e) dirty since.

Record BlockCache (D : Type) := mkCache {
  device : D;
  entries : list CacheEntry;
  generation : Z;
  stats : CacheStats;
  last_read_lba : Z;
  read_ahead_depth : nat;
}.
Arguments mkCache {D} _ _ _ _ _ _.
Arguments device {D} _.
Arguments entries {D} _.
Arguments generation {D} _.
Arguments stats {D} _.
Arguments last_read_lba {D} _.
Arguments read_ahead_depth {D} _.

(** [iter().find(|e| e.lba == lba)], with its position. *)
Definition find_lba (lba : Z) (l : list CacheEntry) : option (nat * CacheEntry) :=
  list_find (λ e, e_lba e = lba) l.

(** [min_by_key(|(_, e)| e.generation)] of the entries that satisfy [p]: the
    first of the least. *)
Fixpoint lru_from (p : CacheEntry → bool) (l : list CacheEntry) (i : nat) (best : option (nat * Z))
    : option (nat * Z) :=
  match l with
  | [] => best
  | e :: l =>
      let best :=
        if p e then
          match best with
          | Some (_, g) => if e_generation e <? g then Some (i, e_generation e) else best
          | None => Some (i, e_generation e)
          end
        else best in
      lru_from p l (S i) best
  end.

Definition lru (p : CacheEntry → bool) (l : list CacheEntry) : option nat :=
  fst <$> lru_from p l 0 None.

Section Cache.
Context {D : Type} `{BlockDevice D}.
Notation cache := (BlockCache D).

Definition set_device (c : cache) (d : D) : cache :=
  mkCache d (entries c) (generation c) (stats c) (last_read_lba c) (read_ahead_depth c).
Definition set_entries (c : cache) (l : list CacheEntry) : cache :=
  mkCache (device c) l (generation c) (stats c) (last_read_lba c) (read_ahead_depth c).
Definition set_last_read (c : cache) (lba : Z) : cache :=
  mkCache (device c) (entries c) (generation c) (stats c) lba (read_ahead_depth c).
Definition with_stats (c : cache) (f : CacheStats → CacheStats) : cache :=
  mkCache (device c) (entries c) (generation c) (f (stats c)) (last_read_lba c) (read_ahead_depth c).

Definition BlockCache_new (d : D) : cache :=
  mkCache d (replicate CACHE_CAPACITY empty_entry) 0 CacheStats_default u64_max 0.
Definition with_read_ahead (d : D) (depth : nat) : cache :=
  mkCache d (replicate CACHE_CAPACITY empty_entry) 0 CacheStats_default u64_max depth.

(** The counters wrap; nothing reads them back. *)
Definition inc_hits (c : cache) : cache := with_stats c (λ s,
  mkStats (wrapping_add (hits s) 1) (misses s) (evictions s) (dirty_writebacks s)
    (sequential_hits s) (prefetches_issued s) (pressure_flushes s) (aged_writebacks s)).
Definition inc_misses (c : cache) : cache := with_stats c (λ s,
  mkStats (hits s) (wrapping_add (misses s) 1) (evictions s) (dirty_writebacks s)
    (sequential_hits s) (prefetches_issued s) (pressure_flushes s) (aged_writebacks s)).
Definition add_evictions (c : cache) (n : Z) : cache := with_stats c (λ s,
  mkStats (hits s) (misses s) (wrapping_add (evictions s) n) (dirty_writebacks s)
    (sequential_hits s) (prefetches_issued s) (pressure_flushes s) (aged_writebacks s)).
Definition inc_evictions (c : cache) : cache := add_evictions c 1.
Definition add_dirty_writebacks (c : cache) (n : Z) : cache := with_stats c (λ s,
  mkStats (hits s) (misses s) (evictions s) (wrapping_add (dirty_writebacks s) n)
    (sequential_hits s) (prefetches_issued s) (pressure_flushes s) (aged_writebacks s)).
Definition inc_dirty_writebacks (c : cache) : cache := add_dirty_writebacks c 1.
Definition inc_sequential_hits (c : cache) : cache := with_stats c (λ s,
  mkStats (hits s) (misses s) (evictions s) (dirty_writebacks s)
    (wrapping_add (sequential_hits s) 1) (prefetches_issued s) (pressure_flushes s) (aged_writebacks s)).
Definition inc_prefetches_issued (c : cache) : cache := with_stats c (λ s,
  mkStats (hits s) (misses s) (evictions s) (dirty_writebacks s)
    (sequential_hits s) (wrapping_add (prefetches_issued s) 1) (pressure_flushes s) (aged_writebacks s)).
Definition inc_pressure_flushes (c : cache) : cache := with_stats c (λ s,
  mkStats (hits s) (misses s) (evictions s) (dirty_writebacks s)
    (sequential_hits s) (prefetches_issued s) (wrapping_add (pressure_flushes s) 1) (aged_writebacks s)).
Definition add_aged_writebacks (c : cache) (n : Z) : cache := with_stats c (λ s,
  mkStats (hits s) (misses s) (evictions s) (dirty_writebacks s)
    (sequential_hits s) (prefetches_issued s) (pressure_flushes s) (wrapping_add (aged_writebacks s) n)).

(** ** Internal helpers *)

Definition next_generation (c : cache) : cache * Z :=
  (mkCache (device c) (entries c) (wrapping_add (generation c) 1) (stats c)
     (last_read_lba c) (read_ahead_depth c), generation c).

(** [if let Some(entry) = entries.iter_mut().find(..)]: the entry changed in
    place, and whether there was one. *)
Definition update_lba (f : CacheEntry → CacheEntry) (lba : Z) (c : cache) : cache * bool :=
  match find_lba lba (entries c) with
  | Some (i, e) => (set_entries c (<[i := f e]> (entries c)), true)
  | None => (c, false)
  end.

Definition bump_generation_and_update (c : cache) (lba : Z) : cache :=
  let '(c, gen) := next_generation c in
  (update_lba (set_generation gen) lba c).1.

Definition is_cached (c : cache) (lba : Z) : bool := existsb (λ e, e_lba e =? lba) (entries c).

Definition cached (c : cache) (lba : Z) : option bytes :=
  e_data ∘ snd <$> find_lba lba (entries c).

Definition populated_slots (c : cache) : nat := length (filter (λ e, is_empty e = false) (entries c)).
Definition dirty_slots (c : cache) : nat := length (filter (λ e, e_dirty e = true) (entries c)).

(** [copy_from_slice] into a block panics unless the lengths agree; every path of
    [insert] copies [data] once. *)
Definition insert (c : cache) (now lba : Z) (data : bytes) (dirty : bool) : outcome cache :=
  if decide (length data = BLOCK_SIZE) then
    let '(c, gen) := next_generation c in
    let dirty_since := if dirty then now else 0 in
    let fresh := mkEntry lba data gen dirty dirty_since in
    match find_lba lba (entries c) with
    | Some (i, _) => Ret (set_entries c (<[i := fresh]> (entries c)))
    | None =>
      match list_find (λ e, is_empty e = true) (entries c) with
      | Some (i, _) => Ret (set_entries c (<[i := fresh]> (entries c)))
      | None =>
        match lru (λ e, negb (e_dirty e)) (entries c) with
        | Some idx => Ret (inc_evictions (set_entries c (<[idx := fresh]> (entries c))))
        | None =>
          match lru (λ _, true) (entries c) with
          | None => Panic
          | Some victim_idx =>
            match entries c !! victim_idx with
            | None => Panic
            | Some victim =>
              let c := set_entries c (<[victim_idx := empty_entry]> (entries c)) in
              '(d, _) ← write_blocks (device c) (e_lba victim) (e_data victim);
              let c := inc_dirty_writebacks (inc_evictions (set_device c d)) in
              match list_find (λ e, is_empty e = true) (entries c) with
              | None => Panic
              | Some (i, _) => Ret (set_entries c (<[i := fresh]> (entries c)))
              end
            end
          end
        end
      end
    end
  else Panic.

(** ** Reads *)

(** [while lookahead < depth && !self.is_cached(lba + lookahead as u64 + 1)], [n]
    rounds left. *)
Fixpoint lookahead_blocks (c : cache) (lba : Z) (n lookahead : nat) : outcome nat :=
  match n with
  | O => Ret lookahead
  | S n =>
      match checked_add (lba + Z.of_nat lookahead) 1 with
      | None => Panic
      | Some next =>
          if is_cached c next then Ret lookahead else lookahead_blocks c lba n (S lookahead)
      end
  end.

(** [for i in 0..blocks]: the blocks of a run go into the cache clean; those
    [counted] are prefetches. *)
Fixpoint insert_run (c : cache) (lba : Z) (run : list bytes) (counted : bool) : outcome cache :=
  match run with
  | [] => Ret c
  | b :: run =>
      c ← insert c 0 lba b false;
      let c := if counted then inc_prefetches_issued c else c in
      match run with
      | [] => Ret c
      | _ =>
        match checked_add lba 1 with
        | None => Panic
        | Some next => insert_run c next run true
        end
      end
  end.

Definition read_cached (c : cache) (lba : Z) (buffer_len : nat) : outcome (cache * result bytes) :=
  if decide (buffer_len = BLOCK_SIZE) then
    match find_lba lba (entries c) with
    | Some (_, e) =>
        let c := inc_hits (bump_generation_and_update c lba) in
        let last := last_read_lba c in
        let c := if negb (last =? u64_max) && (lba =? last + 1) then inc_sequential_hits c else c in
        Ret (set_last_read c lba, Ok (e_data e))
    | None =>
        let last := last_read_lba c in
        let is_sequential := negb (last =? u64_max) && (lba =? last + 1) in
        let c := set_last_read c lba in
        lookahead ← (if is_sequential
                     then lookahead_blocks c lba (Nat.min (read_ahead_depth c) PREFETCH_RUN_BLOCKS) 0
                     else Ret 0%nat);
        if decide (lookahead = 0%nat) then
          '(d, r) ← read_blocks (device c) lba BLOCK_SIZE;
          let c := set_device c d in
          match r with
          | Err e => Ret (c, Err e)
          | Ok buffer =>
              c ← insert (inc_misses c) 0 lba buffer false;
              Ret (c, Ok buffer)
          end
        else
          let blocks := (lookahead + 1)%nat in
          '(d, r) ← read_blocks (device c) lba (blocks * BLOCK_SIZE);
          let c := set_device c d in
          match r with
          | Err e => Ret (c, Err e)
          | Ok run =>
              c ← insert_run (inc_misses c) lba (chunks BLOCK_SIZE run) false;
              Ret (c, Ok (sector run 0))
          end
    end
  else Panic.

(** ** Read-ahead on its own *)

(** [while blocks > 0]: a run in chunks of [PREFETCH_RUN_BLOCKS]. *)
Fixpoint read_run_loop (fuel : nat) (c : cache) (lba : Z) (blocks : nat) : outcome cache :=
  match fuel with
  | O => NoFuel
  | S fuel =>
      if decide (blocks = 0%nat) then Ret c else
      let chunk := Nat.min blocks PREFETCH_RUN_BLOCKS in
      '(d, r) ← read_blocks (device c) lba (chunk * BLOCK_SIZE);
      let c := set_device c d in
      match r with
      | Err _ => Ret c
      | Ok buffer =>
          c ← insert_run c lba (chunks BLOCK_SIZE buffer) true;
          match checked_add lba (Z.of_nat chunk) with
          | None => Panic
          | Some lba => read_run_loop fuel c lba (blocks - chunk)
          end
      end
  end.

(** The run, if there is one. *)
Definition read_run (c : cache) (run_start : option Z) (run_blocks : nat) : outcome cache :=
  match run_start with
  | None => Ret c
  | Some start => read_run_loop (S run_blocks) c start run_blocks
  end.

(** [for offset in 0..count]. *)
Fixpoint prefetch_loop (c : cache) (start_lba : Z) (offsets : list nat) (run_start : option Z)
    (run_blocks : nat) : outcome cache :=
  match offsets with
  | [] => read_run c run_start run_blocks
  | offset :: offsets =>
      let lba := saturating_add start_lba (Z.of_nat offset) in
      if is_cached c lba then
        c ← read_run c run_start run_blocks;
        prefetch_loop c start_lba offsets None 0
      else
        let run_start := match run_start with None => Some lba | s => s end in
        prefetch_loop c start_lba offsets run_start (S run_blocks)
  end.

Definition prefetch (c : cache) (start_lba : Z) (count : nat) : outcome cache :=
  prefetch_loop c start_lba (seq 0 count) None 0.

(** ** Writes *)

Definition write_through (c : cache) (lba : Z) (data : bytes) : outcome (cache * result unit) :=
  if decide (length data = BLOCK_SIZE) then
    '(d, r) ← write_blocks (device c) lba data;
    let c := set_device c d in
    match r with
    | Err e => Ret (c, Err e)
    | Ok _ =>
        let '(c, found) := update_lba (set_data data false 0) lba c in
        Ret (if found then bump_generation_and_update c lba else c, Ok ())
    end
  else Panic.

Definition write_back (c : cache) (now lba : Z) (data : bytes) : outcome (cache * result unit) :=
  if decide (length data = BLOCK_SIZE) then
    let '(c, found) := update_lba (set_data data true now) lba c in
    if found then Ret (bump_generation_and_update c lba, Ok ())
    else c ← insert c now lba data true; Ret (c, Ok ())
  else Panic.

Definition populate_clean (c : cache) (lba : Z) (data : bytes) : outcome cache :=
  if decide (length data = BLOCK_SIZE) then insert c 0 lba data false else Panic.

(** ** Flushes *)

(** Which dirty block [submit_selected] takes next. *)
Definition selected (select : CacheEntry → bool) (attempted : list Z) (e : CacheEntry) : bool :=
  e_dirty e && select e && negb (bool_decide (e_lba e ∈ attempted)).

(** [while pending.len() < depth]: the queue is topped up under the lock. *)
Fixpoint submit_selected (fuel : nat) (select : CacheEntry → bool) (depth : nat) (c : cache)
    (pending : list PendingWrite) (attempted : list Z)
    : outcome (cache * list PendingWrite * list Z * result unit) :=
  match fuel with
  | O => NoFuel
  | S fuel =>
      if decide (length pending < depth)%nat then
        match list_find (λ e, selected select attempted e = true) (entries c) with
        | None => Ret (c, pending, attempted, Ok ())
        | Some (index, e) =>
            let '(c, gen) := next_generation c in
            let c := set_entries c (<[index := set_generation gen e]> (entries c)) in
            '(d, r) ← submit_write (device c) (e_lba e) (e_data e);
            let c := set_device c d in
            match r with
            | Err er => Ret (c, pending, attempted, Err er)
            | Ok ticket =>
                submit_selected fuel select depth c
                  (pending ++ [mkPending ticket (e_lba e) gen]) (attempted ++ [e_lba e])
            end
        end
      else Ret (c, pending, attempted, Ok ())
  end.

(** The polls of [wait_for_write]: at most [2^k] rounds, [inr] is an answer. *)
Fixpoint poll_rounds (k : nat) (ticket : Ticket) (d : D) (polls : Z) : D * (Z + result unit) :=
  match k with
  | O =>
      match poll d ticket with
      | (d, Pending) =>
          let polls := polls + 1 in
          if FLUSH_POLL_LIMIT <? polls then (d, inr (Err TimedOut)) else (d, inl polls)
      | (d, Done r) => (d, inr r)
      end
  | S k =>
      match poll_rounds k ticket d polls with
      | (d, inl polls) => poll_rounds k ticket d polls
      | answer => answer
      end
  end.

Definition wait_polls (k : nat) (c : cache) (ticket : Ticket) : outcome (cache * result unit) :=
  match poll_rounds k ticket (device c) 0 with
  | (d, inr r) => Ret (set_device c d, r)
  | (_, inl _) => NoFuel
  end.

(** [2^26] rounds exceed the limit. *)
Definition wait_for_write (c : cache) (ticket : Ticket) : outcome (cache * result unit) :=
  wait_polls 26 c ticket.

Definition retire_write (c : cache) (w : PendingWrite) : cache * bool :=
  match list_find (λ e, e_lba e = p_lba w ∧ e_generation e = p_generation w) (entries c) with
  | None => (c, true)
  | Some (i, e) =>
      if e_dirty e then (set_entries c (<[i := set_clean e]> (entries c)), true) else (c, false)
  end.

(** [if failure.is_none()]: more writes are submitted until one fails. *)
Definition top_up (select : CacheEntry → bool) (depth : nat) (c : cache) (pending : list PendingWrite)
    (attempted : list Z) (failure : option Error)
    : outcome (cache * list PendingWrite * list Z * option Error) :=
  match failure with
  | Some _ => Ret (c, pending, attempted, failure)
  | None =>
      '(c, pending, attempted, r) ← submit_selected (S (length (entries c))) select depth c pending attempted;
      Ret (c, pending, attempted, match r with Ok _ => None | Err e => Some e end)
  end.

(** The loop of [flush_selected]. *)
Fixpoint flush_loop (fuel : nat) (select : CacheEntry → bool) (depth : nat) (c : cache)
    (pending : list PendingWrite) (attempted : list Z) (flushed : nat) (failure : option Error)
    : outcome (cache * result nat) :=
  match fuel with
  | O => NoFuel
  | S fuel =>
      '(c, pending, attempted, failure) ← top_up select depth c pending attempted failure;
      match pending with
      | [] => Ret (c, match failure with Some e => Err e | None => Ok flushed end)
      | write :: pending =>
          '(c, r) ← wait_for_write c (p_ticket write);
          match r with
          | Ok _ =>
              let '(c, counted) := retire_write c write in
              flush_loop fuel select depth c pending attempted
                (if counted then S flushed else flushed) failure
          | Err e =>
              flush_loop fuel select depth c pending attempted flushed
                (match failure with None => Some e | f => f end)
          end
      end
  end.

Definition flush_selected (c : cache) (select : CacheEntry → bool) : outcome (cache * result nat) :=
  let depth := Z.to_nat (Z.max 1 (queue_depth (device c))) in
  flush_loop (length (entries c) + 2) select depth c [] [] 0 None.

Definition flush (c : cache) : outcome (cache * result unit) :=
  '(c, r) ← flush_selected c (λ _, true);
  match r with
  | Err e => Ret (c, Err e)
  | Ok count =>
      Ret (if decide (0 < count)%nat then add_dirty_writebacks c (Z.of_nat count) else c, Ok ())
  end.

Definition flush_aged (c : cache) (now age_ticks : Z) : outcome (cache * result nat) :=
  '(c, r) ← flush_selected c (λ e, age_ticks <=? wrapping_sub now (e_dirty_since e));
  match r with
  | Err e => Ret (c, Err e)
  | Ok flushed =>
      Ret (if decide (0 < flushed)%nat then add_aged_writebacks c (Z.of_nat flushed) else c, Ok flushed)
  end.

Definition flush_range (c : cache) (start_lba count : Z) : outcome (cache * result unit) :=
  let end_lba := saturating_add start_lba count in
  '(c, r) ← flush_selected c (λ e, (start_lba <=? e_lba e) && (e_lba e <? end_lba));
  match r with
  | Err e => Ret (c, Err e)
  | Ok flushed =>
      Ret (if decide (0 < flushed)%nat then add_dirty_writebacks c (Z.of_nat flushed) else c, Ok ())
  end.

Definition write_back_under_pressure (c : cache) : bool :=
  bool_decide (WRITE_BACK_PRESSURE_THRESHOLD ≤ dirty_slots c)%nat.

Definition flush_if_under_pressure (c : cache) : outcome cache :=
  if write_back_under_pressure c then
    '(c, _) ← flush c; Ret (inc_pressure_flushes c)
  else Ret c.

Definition aged_dirty_count (c : cache) (now age_ticks : Z) : nat :=
  length (filter (λ e, e_dirty e && (age_ticks <=? wrapping_sub now (e_dirty_since e)) = true)
    (entries c)).

(** ** Invalidation *)

Definition invalidate (c : cache) (lba : Z) : cache :=
  let '(c, found) := update_lba (λ _, empty_entry) lba c in
  if found then inc_evictions c else c.

Definition in_range (start_lba end_lba : Z) (e : CacheEntry) : bool :=
  negb (is_empty e) && (start_lba <=? e_lba e) && (e_lba e <? end_lba).

Definition invalidate_range (c : cache) (start_lba count : Z) : cache :=
  let end_lba := saturating_add start_lba count in
  let evicted := length (filter (λ e, in_range start_lba end_lba e = true) (entries c)) in
  let c := set_entries c
    (map (λ e, if in_range start_lba end_lba e then empty_entry else e) (entries c)) in
  if decide (0 < evicted)%nat then add_evictions c (Z.of_nat evicted) else c.
End Cache.

Arguments insert {D H} _ _ _ _ _ : simpl never.
Arguments flush_loop {D H} _ _ _ _ _ _ _ _ : simpl never.
