(* ===== verification/BlockCacheInv.v ===== *)
(** * The invariant of the block cache, and what its operations keep

    The contents a cache stands for ([view]): a dirty block is its cached data, any
    other block what the device holds.  The invariant ties clean entries to the
    device and keeps the entries of distinct blocks apart. *)

From stdpp Require Import base tactics decidable numbers list.
From Stdlib Require Import ZArith Lia Bool.
From S2P Require Import Prelude Bytes BlockDevice BlockCache.

(** ** Entries *)

Lemma is_empty_lba e : is_empty e = true ↔ e_lba e = EMPTY_LBA.
Proof. unfold is_empty. apply Z.eqb_eq. Qed.

Lemma not_empty_lba e : is_empty e = false ↔ e_lba e ≠ EMPTY_LBA.
Proof. unfold is_empty. apply Z.eqb_neq. Qed.

(** No block has two entries. *)
Definition unique (l : list CacheEntry) : Prop :=
  ∀ i j e1 e2, l !! i = Some e1 → l !! j = Some e2 → e_lba e1 = e_lba e2 →
    is_empty e1 = false → i = j.

Lemma find_lba_Some a l i e : find_lba a l = Some (i, e) → l !! i = Some e ∧ e_lba e = a.
Proof. intros (? & ? & _)%list_find_Some. done. Qed.

Lemma find_lba_None a l i e : find_lba a l = None → l !! i = Some e → e_lba e ≠ a.
Proof. intros Hf Hi. apply list_find_None in Hf. by eapply (Forall_lookup_1 _ _ _ _ Hf Hi). Qed.

Lemma find_unique l i e : unique l → l !! i = Some e → is_empty e = false →
  find_lba (e_lba e) l = Some (i, e).
Proof.
  intros Hu Hi He. destruct (find_lba (e_lba e) l) as [[j e']|] eqn:Hf.
  - apply find_lba_Some in Hf as [Hj Hl].
    assert (i = j) as <- by (by eapply Hu). congruence.
  - by pose proof (find_lba_None _ _ _ _ Hf Hi).
Qed.

(** An entry that may take the slot of [e0]: empty, of the same block, or of a
    block that is not cached. *)
Definition admissible (l : list CacheEntry) (e0 e1 : CacheEntry) : Prop :=
  is_empty e1 = true ∨ e_lba e1 = e_lba e0 ∨ find_lba (e_lba e1) l = None.

Lemma unique_insert l i e0 e1 :
  unique l → l !! i = Some e0 → admissible l e0 e1 → unique (<[i := e1]> l).
Proof.
  intros Hu Hi Ha j k a b Hj Hk Eab He. pose proof (lookup_lt_Some _ _ _ Hi).
  apply list_lookup_insert_Some in Hj as [(-> & <- & _)|[Hij Hj]], Hk as [(-> & <- & _)|[Hik Hk]];
    [done| | |by eapply Hu].
  - destruct Ha as [Ha|[Ha|Ha]]; [congruence| |].
    + eapply Hu; [done|done|congruence|]. apply not_empty_lba in He. apply not_empty_lba. congruence.
    + by pose proof (find_lba_None _ _ _ _ Ha Hk).
  - destruct Ha as [Ha|[Ha|Ha]].
    + apply is_empty_lba in Ha. apply not_empty_lba in He. congruence.
    + eapply Hu; [done|done|congruence|done].
    + by pose proof (find_lba_None _ _ _ _ Ha Hj).
Qed.

Lemma find_insert l i e0 e1 a :
  unique l → l !! i = Some e0 → admissible l e0 e1 → a ≠ EMPTY_LBA →
  find_lba a (<[i := e1]> l) =
  if decide (a = e_lba e1) then Some (i, e1)
  else if decide (a = e_lba e0) then None else find_lba a l.
Proof.
  intros Hu Hi Had Ha. pose proof (lookup_lt_Some _ _ _ Hi) as Hlt.
  pose proof (unique_insert _ _ _ _ Hu Hi Had) as Hu'. case_decide as E1; [|case_decide as E0].
  - subst a. apply find_unique; [done|by apply list_lookup_insert_eq|by apply not_empty_lba].
  - apply list_find_None, Forall_lookup. intros j e Hj Ej.
    apply list_lookup_insert_Some in Hj as [(-> & <- & _)|[Hij Hj]]; [congruence|].
    apply Hij. eapply Hu; [done|done|congruence|]. apply not_empty_lba. congruence.
  - destruct (find_lba a l) as [[j e]|] eqn:Hf.
    + apply find_lba_Some in Hf as [Hj <-]. assert (i ≠ j) by (intros <-; congruence).
      apply find_unique; [done| |by apply not_empty_lba]. by rewrite list_lookup_insert_ne.
    + apply list_find_None, Forall_lookup. intros j e Hj.
      apply list_lookup_insert_Some in Hj as [(-> & <- & _)|[Hij Hj]]; [congruence|].
      by eapply find_lba_None.
Qed.

(** The data of the dirty entry of a block. *)
Definition dirty_data (e : CacheEntry) : option bytes :=
  if e_dirty e then Some (e_data e) else None.

Definition dirty_at (l : list CacheEntry) (a : Z) : option bytes :=
  '(_, e) ← find_lba a l; dirty_data e.

Lemma dirty_at_insert l i e0 e1 a :
  unique l → l !! i = Some e0 → admissible l e0 e1 → a ≠ EMPTY_LBA →
  dirty_at (<[i := e1]> l) a =
  if decide (a = e_lba e1) then dirty_data e1
  else if decide (a = e_lba e0) then None else dirty_at l a.
Proof.
  intros. unfold dirty_at. erewrite find_insert by done. case_decide; [done|]. by case_decide.
Qed.

Lemma dirty_at_entry l i e : unique l → l !! i = Some e → is_empty e = false →
  dirty_at l (e_lba e) = dirty_data e.
Proof. intros. unfold dirty_at. by erewrite find_unique. Qed.

(** ** The least recently used entry *)

Lemma lru_from_spec p l i best :
  match lru_from p l i best with
  | Some (k, g) =>
      (best = Some (k, g) ∨ ∃ j e, l !! j = Some e ∧ k = (i + j)%nat ∧ p e = true ∧ g = e_generation e) ∧
      (∀ j e, l !! j = Some e → p e = true → g ≤ e_generation e) ∧
      (∀ k' g', best = Some (k', g') → g ≤ g')
  | None => best = None ∧ ∀ j e, l !! j = Some e → p e = false
  end.
Proof.
  revert i best. induction l as [|e l IH]; intros i best; cbn [lru_from].
  { destruct best as [[k g]|]; [|done]. split; [by left|]. split; [done|]. intros k' g' [= _ <-]. done. }
  set (best' := if p e then _ else best). specialize (IH (S i) best').
  destruct (lru_from p l (S i) best') as [[k g]|].
  - destruct IH as (Hk & Hl & Hb).
    assert (Hbest : ∀ k' g', best = Some (k', g') → g ≤ g').
    { intros k' g' ->. unfold best' in Hb. destruct (p e); [|by eapply Hb].
      destruct (Z.ltb_spec (e_generation e) g'); [|by eapply Hb].
      specialize (Hb _ _ eq_refl). lia. }
    assert (He : p e = true → g ≤ e_generation e).
    { intros Hp. unfold best' in Hb. rewrite Hp in Hb. destruct best as [[k0 g0]|]; [|by eapply Hb].
      destruct (Z.ltb_spec (e_generation e) g0); [by eapply Hb|]. specialize (Hb _ _ eq_refl). lia. }
    split; [|split; [|done]].
    + destruct Hk as [Hk|(j & e' & Hj & -> & Hp & ->)];
        [|right; exists (S j), e'; split; [done|]; split; [lia|done]].
      unfold best' in Hk. destruct (p e) eqn:Hp; [|by left].
      assert (Hnew : Some (i, e_generation e) = Some (k, g) → ∃ j e', (e :: l) !! j = Some e' ∧
        k = (i + j)%nat ∧ p e' = true ∧ g = e_generation e').
      { intros [= <- <-]. exists 0%nat, e. split; [done|]. split; [lia|done]. }
      destruct best as [[k0 g0]|]; [|by right; apply Hnew].
      destruct (e_generation e <? g0); [by right; apply Hnew|by left].
    + intros [|j] e' Hj; [by injection Hj as <-|]. by apply (Hl j).
  - destruct IH as [Hb Hl]. unfold best' in Hb. destruct (p e) eqn:Hp.
    { destruct best as [[k0 g0]|]; [|done]. by destruct (_ <? _). }
    split; [done|]. intros [|j] e' Hj; [by injection Hj as <-|by apply (Hl j)].
Qed.

Lemma lru_Some p l i : lru p l = Some i → ∃ e, l !! i = Some e ∧ p e = true ∧
  ∀ j e', l !! j = Some e' → p e' = true → e_generation e ≤ e_generation e'.
Proof.
  unfold lru. pose proof (lru_from_spec p l 0 None) as Hs.
  destruct (lru_from p l 0 None) as [[k g]|]; [|done]. intros [= <-].
  destruct Hs as ([|(j & e & Hj & -> & Hp & ->)] & Hmin & _); [done|]. by exists e.
Qed.

Lemma lru_None p l j e : lru p l = None → l !! j = Some e → p e = false.
Proof.
  unfold lru. pose proof (lru_from_spec p l 0 None) as Hs.
  destruct (lru_from p l 0 None) as [[k g]|]; [done|]. intros _. by apply Hs.
Qed.

(** ** The invariant and the view *)

Definition stable (s : block_state) : option bytes :=
  match s with Stable b => Some b | _ => None end.

Section Inv.
Context {D : Type} `{BlockContract D}.

Definition entry_ok (d : D) (e : CacheEntry) : Prop :=
  if is_empty e then e_dirty e = false else
  0 ≤ e_lba e < EMPTY_LBA ∧ length (e_data e) = BLOCK_SIZE ∧
  if e_dirty e then is_bytes (e_data e) else ∀ b, blocks d (e_lba e) = Stable b → b = e_data e.

Definition cache_wf (c : BlockCache D) : Prop :=
  dev_ok (device c) ∧ length (entries c) = CACHE_CAPACITY ∧
  Forall (entry_ok (device c)) (entries c) ∧ unique (entries c).

(** No write is in flight. *)
Definition quiet (d : D) : Prop := ∀ a, flying (blocks d a) = false.

Definition cache_ok (c : BlockCache D) : Prop := cache_wf c ∧ quiet (device c).

(** What the cache holds for a block; [None] when a failed write left it open. *)
Definition view (c : BlockCache D) (a : Z) : option bytes :=
  match dirty_at (entries c) a with
  | Some b => Some b
  | None => stable (blocks (device c) a)
  end.

Definition valid_lba (a : Z) : Prop := 0 ≤ a < EMPTY_LBA.

(** A cache that differs in its counters and its read history only. *)
Definition same_blocks (c c' : BlockCache D) : Prop :=
  device c' = device c ∧ entries c' = entries c.

Lemma same_blocks_ok c c' : same_blocks c c' → cache_ok c → cache_ok c'.
Proof. intros [Ed Ee]. unfold cache_ok, cache_wf. by rewrite Ed, Ee. Qed.

Lemma same_blocks_view c c' a : same_blocks c c' → view c' a = view c a.
Proof. intros [Ed Ee]. unfold view. by rewrite Ed, Ee. Qed.

Lemma entry_ok_lookup c i e : cache_wf c → entries c !! i = Some e → entry_ok (device c) e.
Proof. intros (_ & _ & Hf & _) Hi. by eapply (Forall_lookup_1 _ _ _ _ Hf). Qed.

Lemma dirty_entry_ok d e : entry_ok d e → e_dirty e = true →
  is_empty e = false ∧ valid_lba (e_lba e) ∧ is_sector (e_data e).
Proof.
  unfold entry_ok. intros He Hd. destruct (is_empty e); [congruence|]. rewrite Hd in He.
  destruct He as (? & ? & ?). by split.
Qed.

(** One slot changes. *)
Lemma wf_set_slot c i e0 e1 : cache_wf c → entries c !! i = Some e0 → admissible (entries c) e0 e1 →
  entry_ok (device c) e1 → cache_wf (set_entries c (<[i := e1]> (entries c))).
Proof.
  intros (Hd & Hl & Hf & Hu) Hi Ha He. split; [done|]. split; [cbn; by rewrite length_insert|].
  split; [by apply Forall_insert|by eapply unique_insert].
Qed.

Lemma view_set_slot c i e0 e1 a : cache_wf c → entries c !! i = Some e0 → admissible (entries c) e0 e1 →
  valid_lba a →
  view (set_entries c (<[i := e1]> (entries c))) a =
  if decide (a = e_lba e1) then
    match dirty_data e1 with Some b => Some b | None => stable (blocks (device c) a) end
  else if decide (a = e_lba e0) then stable (blocks (device c) a) else view c a.
Proof.
  intros (_ & _ & _ & Hu) Hi Had Ha. unfold view. cbn [set_entries entries device].
  erewrite dirty_at_insert; [|done|done|done|unfold valid_lba in Ha; lia].
  case_decide; [done|]. by case_decide.
Qed.

(** The device changes at one block. *)
Lemma wf_set_device c d x : cache_wf c → dev_ok d →
  (∀ a, a ≠ x → blocks d a = blocks (device c) a) →
  (∀ i e, entries c !! i = Some e → e_lba e = x → entry_ok d e) →
  cache_wf (set_device c d).
Proof.
  intros (Hd & Hl & Hf & Hu) Hd' Ho Hx. split; [done|]. split; [done|]. split; [|done]. cbn.
  apply Forall_lookup. intros i e Hi. destruct (decide (e_lba e = x)) as [E|E]; [by eapply Hx|].
  pose proof (Forall_lookup_1 _ _ _ _ Hf Hi) as He. unfold entry_ok in *. by rewrite Ho.
Qed.

Lemma quiet_written d d' x b ok : quiet d → (∀ a, a ≠ x → blocks d' a = blocks d a) →
  written (blocks d x) (blocks d' x) b ok → quiet d'.
Proof.
  intros Hq Ho Hw a. destruct (decide (a = x)) as [->|]; [|rewrite Ho by done; apply Hq].
  specialize (Hq x). destruct ok; cbn in Hw; [by rewrite Hw|]. destruct Hw as [-> | ->]; done.
Qed.

(** ** [insert] *)

(** What an insertion of [data] leaves: a block of another number keeps its view
    unless it was evicted dirty and the device refused it. *)
Record inserted (c c' : BlockCache D) (lba : Z) (data : bytes) (dirty : bool) (gen : Z) : Prop := {
  ins_ok : cache_ok c';
  ins_takes a : takes (device c') a = takes (device c) a;
  ins_view a : valid_lba a → a ≠ lba → view c' a = view c a ∨ takes (device c) a = false;
  ins_lba : view c' lba = if dirty then Some data else stable (blocks (device c) lba);
  ins_blocks a : find_lba a (entries c) = None → blocks (device c') a = blocks (device c) a;
  ins_absent a : valid_lba a → a ≠ lba → find_lba a (entries c) = None → find_lba a (entries c') = None;
  ins_depth : read_ahead_depth c' = read_ahead_depth c;
  ins_found : ∃ i since, find_lba lba (entries c') = Some (i, mkEntry lba data gen dirty since);
}.

Lemma fresh_entry_ok (d : D) lba data gen (dirty : bool) since :
  valid_lba lba → length data = BLOCK_SIZE →
  (if dirty then is_bytes data else ∀ b, blocks d lba = Stable b → b = data) →
  entry_ok d (mkEntry lba data gen dirty since).
Proof.
  intros Hv Hl Hd. unfold entry_ok. rewrite (proj2 (not_empty_lba _)) by (unfold valid_lba in Hv; cbn; lia).
  cbn. by split; [|split].
Qed.

(** The new entry takes a slot whose block is its own, none, or clean. *)
Lemma inserted_slot c i e0 lba data gen (dirty : bool) since (f : BlockCache D → BlockCache D) :
  (∀ c : BlockCache D, same_blocks c (f c)) → (∀ c, read_ahead_depth (f c) = read_ahead_depth c) →
  cache_ok c → valid_lba lba → length data = BLOCK_SIZE →
  (if dirty then is_bytes data else ∀ b, blocks (device c) lba = Stable b → b = data) →
  entries c !! i = Some e0 → (e_lba e0 = lba ∨ find_lba lba (entries c) = None ∧ e_dirty e0 = false) →
  inserted c (f (set_entries c (<[i := mkEntry lba data gen dirty since]> (entries c)))) lba data dirty gen.
Proof.
  intros Hf Hfd [Hwf Hq] Hv Hl Hd Hi Ho. set (e1 := mkEntry lba data gen dirty since).
  set (c1 := set_entries c (<[i := e1]> (entries c))).
  assert (Had : admissible (entries c) e0 e1) by (destruct Ho as [<-|[Ho _]]; [by right; left|by right; right]).
  assert (He1 : entry_ok (device c) e1) by by apply fresh_entry_ok.
  assert (Hv' : ∀ a, valid_lba a → a ≠ lba → view c1 a = view c a).
  { intros a Ha Hne. unfold c1. erewrite view_set_slot by done. rewrite decide_False by done.
    case_decide as E0; [|done]. destruct Ho as [Ho|[_ Ho]]; [congruence|].
    unfold view. subst a. rewrite (dirty_at_entry _ i e0); [|apply Hwf|done|].
    - unfold dirty_data. by rewrite Ho.
    - apply not_empty_lba. unfold valid_lba in Ha. lia. }
  split.
  - apply (same_blocks_ok c1); [apply Hf|]. split; [by eapply wf_set_slot|done].
  - intros a. by rewrite (proj1 (Hf c1)).
  - intros a Ha Hne. left. rewrite (same_blocks_view c1) by apply Hf. by apply Hv'.
  - rewrite (same_blocks_view c1) by apply Hf. unfold c1. erewrite view_set_slot by done.
    rewrite decide_True by done. unfold dirty_data. cbn. by destruct dirty.
  - intros a _. by rewrite (proj1 (Hf c1)).
  - intros a Ha Hne Hfa. rewrite (proj2 (Hf c1)). cbn [c1 set_entries entries].
    erewrite find_insert; [|apply Hwf|done|done|unfold valid_lba in Ha; lia].
    rewrite decide_False by done. by case_decide.
  - by rewrite Hfd.
  - rewrite (proj2 (Hf c1)). cbn [c1 set_entries entries].
    erewrite find_insert; [|apply Hwf|done|done|unfold valid_lba in Hv; lia]. rewrite decide_True by done.
    by exists i, since.
Qed.

(** A dirty block leaves the cache for the device. *)
Lemma evict_dirty c v victim :
  cache_ok c → entries c !! v = Some victim → e_dirty victim = true →
  ∃ d r, write_blocks (device c) (e_lba victim) (e_data victim) = Ret (d, r) ∧
    let c' := set_device (set_entries c (<[v := empty_entry]> (entries c))) d in
    cache_ok c' ∧ find_lba (e_lba victim) (entries c') = None ∧
    (∀ a, a ≠ e_lba victim → blocks d a = blocks (device c) a) ∧
    (∀ a, takes d a = takes (device c) a) ∧
    (∀ a, valid_lba a → view c' a = view c a ∨ takes (device c) a = false) ∧
    (∀ a, valid_lba a → find_lba a (entries c) = None → find_lba a (entries c') = None).
Proof.
  intros [Hwf Hq] Hv Hd. destruct (dirty_entry_ok _ _ (entry_ok_lookup _ _ _ Hwf Hv) Hd) as (Hne & Hlba & Hs).
  destruct (write_law (device c) (e_lba victim) (e_data victim)) as (d & r & E & Hd' & Ho & Hw);
    [apply Hwf|done|done|apply Hq|].
  exists d, r. split; [done|]. set (c1 := set_entries c _).
  assert (Had : admissible (entries c) victim empty_entry) by by left.
  assert (Hwf1 : cache_wf c1) by (by eapply wf_set_slot).
  assert (Hfind : ∀ a, valid_lba a → find_lba a (entries c1) =
    if decide (a = e_lba victim) then None else find_lba a (entries c)).
  { intros a Ha. unfold valid_lba in Ha. unfold c1. cbn [set_entries entries].
    erewrite find_insert; [|apply Hwf|done|done|lia]. rewrite decide_False; [done|]. cbn. lia. }
  assert (Hgone : find_lba (e_lba victim) (entries c1) = None) by (rewrite Hfind by done; by rewrite decide_True).
  cbv zeta. split; [|split; [done|split; [done|split; [|split]]]].
  - split; [|by eapply quiet_written].
    apply (wf_set_device c1 d (e_lba victim)); [done|done|done|].
    intros i e Hi He. exfalso. by apply (find_lba_None _ _ _ _ Hgone Hi).
  - intros a. by eapply write_takes; [..|exact E]; [apply Hwf|..].
  - intros a Ha. assert (Hda : dirty_at (entries (set_device c1 d)) a =
      if decide (a = e_lba victim) then None else dirty_at (entries c) a).
    { unfold dirty_at. change (entries (set_device c1 d)) with (entries c1). rewrite Hfind by done.
      by case_decide. }
    unfold view. rewrite Hda. cbn [set_device device]. case_decide as Ea; [|left; by rewrite Ho].
    subst a. rewrite (dirty_at_entry _ v victim); [|apply Hwf|done|done].
    unfold dirty_data. rewrite Hd. destruct r as [u|er]; [left; cbn in Hw; by rewrite Hw|].
    right. apply not_true_is_false. intros Ht.
    by pose proof (takes_law (device c) _ _ _ _ (proj1 Hwf) Hlba Hs Ht E).
  - intros a Ha Hf. change (entries (set_device c1 d)) with (entries c1). rewrite Hfind by done.
    by case_decide.
Qed.

Lemma next_generation_same c : same_blocks c (next_generation c).1.
Proof. done. Qed.

Lemma no_empty_slot l i e : list_find (λ e, is_empty e = true) l = None → l !! i = Some e → is_empty e = false.
Proof.
  intros Hf Hi. apply list_find_None in Hf. apply not_true_is_false.
  by apply (Forall_lookup_1 _ _ _ _ Hf Hi).
Qed.

(** The slot a dirty victim leaves is taken by the new block. *)
Lemma inserted_evicting c v victim lba data gen (dirty : bool) since :
  cache_ok c → valid_lba lba → length data = BLOCK_SIZE →
  (if dirty then is_bytes data else ∀ b, blocks (device c) lba = Stable b → b = data) →
  find_lba lba (entries c) = None → entries c !! v = Some victim → e_dirty victim = true →
  ∃ d r, write_blocks (device c) (e_lba victim) (e_data victim) = Ret (d, r) ∧
    let c2 := inc_dirty_writebacks (inc_evictions
      (set_device (set_entries c (<[v := empty_entry]> (entries c))) d)) in
    ∃ i e, list_find (λ e, is_empty e = true) (entries c2) = Some (i, e) ∧
      inserted c (set_entries c2 (<[i := mkEntry lba data gen dirty since]> (entries c2))) lba data dirty gen.
Proof.
  intros Hok Hv Hl Hd Hfind Hvi Hvd.
  destruct (evict_dirty c v victim Hok Hvi Hvd) as (d & r & Ew & Hok1 & Hgone & Hblk & Htk & Hview & Habs).
  exists d, r. split; [done|]. cbv zeta in *. set (c1 := set_device _ d) in *.
  set (c2 := inc_dirty_writebacks (inc_evictions _)).
  assert (Hok2 : cache_ok c2) by by apply (same_blocks_ok c1).
  assert (Hnv : lba ≠ e_lba victim) by (intros ->; by apply (find_lba_None _ _ _ _ Hfind Hvi)).
  destruct (list_find (λ e, is_empty e = true) (entries c2)) as [[i e]|] eqn:Hempty2; cycle 1.
  { exfalso. assert (Hs : entries c2 !! v = Some empty_entry).
    { apply list_lookup_insert_eq. by eapply lookup_lt_Some. }
    by pose proof (no_empty_slot _ _ _ Hempty2 Hs). }
  apply list_find_Some in Hempty2 as (Hi & He & _). exists i, e. split; [done|].
  pose proof (entry_ok_lookup _ _ _ (proj1 Hok2) Hi) as Hent. unfold entry_ok in Hent. rewrite He in Hent.
  destruct (inserted_slot c2 i e lba data gen dirty since (λ c, c)) as [O1 O0 O2 O3 O4 O5 O6 O7]; try done.
  { destruct dirty; [done|]. change (device c2) with d. rewrite Hblk by done. exact Hd. }
  { right. split; [|done]. by apply (Habs lba). }
  split; [done| | | | | |done|done].
  - intros a. by rewrite O0.
  - intros a Ha Hne. destruct (O2 a Ha Hne) as [E|E]; [|right; rewrite <- Htk; exact E]. destruct (Hview a Ha) as [E'|]; [|by right].
    left. etrans; [exact E|exact E'].
  - etrans; [exact O3|]. change (device c2) with d. by rewrite Hblk.
  - intros a Ha. refine (Hblk a _). intros ->. by apply (find_lba_None _ _ _ _ Ha Hvi).
  - intros a Ha Hne Hfa. apply O5; [done|done|]. by apply Habs.
Qed.

Lemma insert_ok c now lba data (dirty : bool) :
  cache_ok c → valid_lba lba → length data = BLOCK_SIZE →
  (if dirty then is_bytes data else ∀ b, blocks (device c) lba = Stable b → b = data) →
  ∃ c', insert c now lba data dirty = Ret c' ∧ inserted c c' lba data dirty (generation c).
Proof.
  intros Hok0 Hv Hl Hd. unfold insert. rewrite decide_True by done.
  cbn [next_generation]. set (c0 := mkCache _ _ _ _ _ _). set (gen := generation c).
  set (since := if dirty then now else 0). set (fresh := mkEntry lba data gen dirty since).
  assert (Hok : cache_ok c0) by by apply (same_blocks_ok c).
  assert (Hsame : ∀ c', inserted c0 c' lba data dirty gen → inserted c c' lba data dirty gen) by by intros c' [].
  assert (Hid : ∀ c : BlockCache D, same_blocks c ((λ c, c) c)) by done.
  destruct (find_lba lba (entries c0)) as [[i e]|] eqn:Hfind.
  { eexists. split; [done|]. apply Hsame. apply find_lba_Some in Hfind as [Hi He].
    apply (inserted_slot c0 i e lba data gen dirty since (λ c, c)); auto. }
  destruct (list_find (λ e, is_empty e = true) (entries c0)) as [[i e]|] eqn:Hempty.
  { eexists. split; [done|]. apply Hsame. apply list_find_Some in Hempty as (Hi & He & _).
    apply (inserted_slot c0 i e lba data gen dirty since (λ c, c)); auto. right. split; [done|].
    pose proof (entry_ok_lookup _ _ _ (proj1 Hok) Hi) as Hent. unfold entry_ok in Hent. by rewrite He in Hent. }
  destruct (lru (λ e, negb (e_dirty e)) (entries c0)) as [idx|] eqn:Hclean.
  { eexists. split; [done|]. apply Hsame. apply lru_Some in Hclean as (e & Hi & Hp & _).
    apply (inserted_slot c0 idx e lba data gen dirty since inc_evictions); try done.
    right. split; [done|]. by apply negb_true_iff. }
  destruct (lru (λ _, true) (entries c0)) as [v|] eqn:Hlru; cycle 1.
  { exfalso. destruct Hok as [(_ & Hlen & _) _]. destruct (entries c0) as [|e l] eqn:E; [done|].
    by pose proof (lru_None _ _ 0%nat e Hlru eq_refl). }
  apply lru_Some in Hlru as (victim & Hvi & _ & _). rewrite Hvi.
  assert (Hvd : e_dirty victim = true).
  { pose proof (lru_None _ _ _ _ Hclean Hvi) as E. by apply negb_false_iff in E. }
  destruct (inserted_evicting c0 v victim lba data gen dirty since Hok Hv Hl Hd Hfind Hvi Hvd)
    as (d & r & Ew & i & e & Ei & Hins).
  cbn [set_entries device]. rewrite Ew. cbn [mbind outcome_bind]. cbv zeta in Ei, Hins.
  set (c2 := inc_dirty_writebacks (inc_evictions _)) in *. rewrite Ei. eexists. split; [done|]. by apply Hsame.
Qed.
End Inv.
