(* ===== verification/BlockCacheOps.v ===== *)
(** * Reads and writes through the block cache

    Every operation keeps the invariant, and the view of every block it does not
    write, unless the device refuses the write-back of a dirty block the operation
    evicts. *)

From stdpp Require Import base tactics decidable numbers list.
From Stdlib Require Import ZArith Lia Bool.
From S2P Require Import Prelude Bytes BlockDevice BlockCache BlockCacheInv.

Section Ops.
Context {D : Type} `{BlockContract D}.

(** The invariant holds, the device takes the writes it took, and each block it
    takes keeps its view. *)
Record kept (c c' : BlockCache D) : Prop := {
  kept_ok : cache_ok c';
  kept_takes a : takes (device c') a = takes (device c) a;
  kept_view a : valid_lba a → view c' a = view c a ∨ takes (device c) a = false;
}.

Lemma kept_refl c : cache_ok c → kept c c.
Proof. intros. split; [done|done|by left]. Qed.

Lemma kept_trans c1 c2 c3 : kept c1 c2 → kept c2 c3 → kept c1 c3.
Proof.
  intros [_ T12 H12] [H3 T23 H23]. split; [done|intros a; by rewrite T23|]. intros a Ha.
  destruct (H23 a Ha) as [E|E]; [|right; by rewrite <- T12]. rewrite E. by apply H12.
Qed.

Lemma kept_same c c' c'' : same_blocks c' c'' → kept c c' → kept c c''.
Proof.
  intros Hs [Hok Ht Hv]. split; [by eapply same_blocks_ok|intros a; by rewrite (proj1 Hs)|]. intros a Ha.
  rewrite (same_blocks_view c') by done. by apply Hv.
Qed.

(** The device answers, and its blocks stay as they are. *)
Lemma kept_device c d : cache_ok c → dev_ok d → (∀ a, blocks d a = blocks (device c) a) →
  (∀ a, takes d a = takes (device c) a) → kept c (set_device c d).
Proof.
  intros [(Hd & Hl & Hf & Hu) Hq] Hd' Hb Ht. split; [split| |].
  - split; [done|]. split; [done|]. split; [|done]. eapply Forall_impl; [exact Hf|].
    intros e He. unfold entry_ok in *. by rewrite Hb.
  - intros a. cbn. rewrite Hb. apply Hq.
  - exact Ht.
  - intros a _. left. unfold view. cbn. by rewrite Hb.
Qed.

(** ** Entries changed in place *)

Lemma update_lba_ok c f lba : cache_ok c → valid_lba lba → (∀ e, e_lba (f e) = e_lba e) →
  (∀ i e, entries c !! i = Some e → e_lba e = lba → entry_ok (device c) (f e)) →
  match find_lba lba (entries c) with
  | None => update_lba f lba c = (c, false)
  | Some (i, e) =>
      ∃ c', update_lba f lba c = (c', true) ∧ cache_ok c' ∧ device c' = device c ∧
        find_lba lba (entries c') = Some (i, f e) ∧
        (∀ a, valid_lba a → a ≠ lba → view c' a = view c a) ∧
        view c' lba = match dirty_data (f e) with Some b => Some b | None => stable (blocks (device c) lba) end
  end.
Proof.
  intros [Hwf Hq] Hv Hf He. unfold update_lba. destruct (find_lba lba (entries c)) as [[i e]|] eqn:Hfind; [|done].
  apply find_lba_Some in Hfind as [Hi Hlba].
  assert (Had : admissible (entries c) e (f e)) by (right; left; apply Hf).
  eexists. split; [done|]. split; [split; [|done]; eapply wf_set_slot; eauto|]. split; [done|]. split; [|split].
  - cbn [set_entries entries]. erewrite find_insert; [|apply Hwf|done|done|unfold valid_lba in Hv; lia].
    by rewrite decide_True by (rewrite Hf; congruence).
  - intros a Ha Hne. erewrite view_set_slot by done. rewrite Hf, Hlba. by rewrite !decide_False.
  - erewrite view_set_slot by done. by rewrite Hf, Hlba, decide_True.
Qed.

Lemma bump_ok c lba : cache_ok c → valid_lba lba →
  cache_ok (bump_generation_and_update c lba) ∧
  device (bump_generation_and_update c lba) = device c ∧
  (∀ i e, find_lba lba (entries c) = Some (i, e) →
    find_lba lba (entries (bump_generation_and_update c lba)) = Some (i, set_generation (generation c) e)) ∧
  ∀ a, valid_lba a → view (bump_generation_and_update c lba) a = view c a.
Proof.
  intros Hok Hv. unfold bump_generation_and_update, next_generation. set (c0 := mkCache _ _ _ _ _ _).
  set (g := generation c). assert (Hok0 : cache_ok c0) by by apply (same_blocks_ok c).
  pose proof (update_lba_ok c0 (set_generation g) lba Hok0 Hv) as Hu.
  destruct (find_lba lba (entries c0)) as [[i e]|] eqn:Hf.
  - destruct Hu as (c' & -> & Hok' & Hd & Hfd & Ho & Hl); [done| |].
    { intros j e' Hj Hl. exact (entry_ok_lookup c0 j e' (proj1 Hok0) Hj). }
    cbn [fst]. split; [done|]. split; [done|]. split.
    { intros j e' E. assert (Some (j, e') = Some (i, e)) as [= -> ->] by (rewrite <- E, <- Hf; done). done. }
    intros a Ha.
    destruct (decide (a = lba)) as [->|Hne]; [|by apply Ho].
    rewrite Hl. unfold view, dirty_at. change (entries c) with (entries c0). by rewrite Hf.
  - rewrite Hu; [|done|]; [|intros j e' Hj Hl; exact (entry_ok_lookup c0 j e' (proj1 Hok0) Hj)].
    split; [done|]. split; [done|]. split; [|done]. intros i e E. assert (Some (i, e) = None) by (rewrite <- E, <- Hf; done).
    done.
Qed.

(** ** Runs of blocks go in clean *)

Lemma is_cached_find (c : BlockCache D) a : is_cached c a = false ↔ find_lba a (entries c) = None.
Proof.
  unfold is_cached, find_lba. rewrite list_find_None, Forall_forall, <- not_true_iff_false, existsb_exists.
  split.
  - intros Hn e He E. apply Hn. exists e. split; [by apply list_elem_of_In|by apply Z.eqb_eq].
  - intros Hn (e & He & E). apply (Hn e); [by apply list_elem_of_In|by apply Z.eqb_eq].
Qed.

Lemma absent_view c a : find_lba a (entries c) = None → view c a = stable (blocks (device c) a).
Proof. intros Hf. unfold view, dirty_at. by rewrite Hf. Qed.

(** The blocks of a run, none of them cached, with what the device holds. *)
Definition run_ok (c : BlockCache D) (lba : Z) (run : list bytes) : Prop :=
  0 ≤ lba ∧ lba + Z.of_nat (length run) ≤ EMPTY_LBA ∧
  ∀ i b, run !! i = Some b → length b = BLOCK_SIZE ∧
    find_lba (lba + Z.of_nat i) (entries c) = None ∧
    ∀ b', blocks (device c) (lba + Z.of_nat i) = Stable b' → b' = b.

Lemma insert_run_ok c lba run counted : cache_ok c → run_ok c lba run →
  ∃ c', insert_run c lba run counted = Ret c' ∧ kept c c' ∧
    read_ahead_depth c' = read_ahead_depth c ∧
    ∀ a, valid_lba a → (a < lba ∨ lba + Z.of_nat (length run) ≤ a) →
      find_lba a (entries c) = None →
      find_lba a (entries c') = None ∧ blocks (device c') a = blocks (device c) a.
Proof.
  revert c lba counted. induction run as [|b run IH]; intros c lba counted Hok (Hlo & Hhi & Hrun).
  { exists c. split; [done|]. split; [by apply kept_refl|]. by split. }
  cbn [length] in Hhi. destruct (Hrun 0%nat b eq_refl) as (Hl & Hf & Hb).
  rewrite Z.add_0_r in Hf, Hb. assert (Hv : valid_lba lba) by (unfold valid_lba; lia).
  destruct (insert_ok c 0 lba b false Hok Hv Hl Hb) as (c1 & E1 & [I1 I0 I2 I3 I4 I5 I6 _]).
  cbn [insert_run]. rewrite E1. cbn [mbind outcome_bind].
  set (c2 := if counted then inc_prefetches_issued c1 else c1).
  assert (Hs : same_blocks c1 c2) by by destruct counted.
  assert (Hk : kept c c2).
  { apply (kept_same c c1); [done|]. split; [done|done|]. intros a Ha.
    destruct (decide (a = lba)) as [->|Hne]; [left; by rewrite I3, absent_view|by apply I2]. }
  assert (Hd2 : read_ahead_depth c2 = read_ahead_depth c) by (rewrite <- I6; by destruct counted).
  assert (Hout : ∀ a, valid_lba a → a ≠ lba → find_lba a (entries c) = None →
    find_lba a (entries c2) = None ∧ blocks (device c2) a = blocks (device c) a).
  { intros a Ha Hne Hfa. rewrite (proj1 Hs), (proj2 Hs). split; [by apply I5|by apply I4]. }
  destruct run as [|b1 run].
  { exists c2. split; [done|]. split; [done|]. split; [done|]. intros a Ha Ho. apply Hout; [done|].
    cbn [length] in Ho. lia. }
  unfold checked_add. rewrite (proj2 (Z.leb_le _ _)) by (cbn [length] in Hhi; unfold EMPTY_LBA in Hhi; lia).
  assert (Hrun' : run_ok c2 (lba + 1) (b1 :: run)).
  { split; [lia|]. split; [lia|]. intros i b' Hi. destruct (Hrun (S i) b' Hi) as (Hl' & Hf' & Hb').
    pose proof (lookup_lt_Some _ _ _ Hi) as Hlt.
    replace (lba + 1 + Z.of_nat i) with (lba + Z.of_nat (S i)) by lia.
    destruct (Hout (lba + Z.of_nat (S i))) as [E2 E3]; [unfold valid_lba; lia|lia|done|].
    rewrite E3. by split. }
  destruct (IH c2 (lba + 1) true (kept_ok _ _ Hk) Hrun') as (c3 & E3 & Hk3 & Hd3 & Ho3).
  exists c3. split; [done|]. split; [by eapply kept_trans|]. split; [congruence|].
  intros a Ha Ho Hfa. cbn [length] in Ho, Ho3. destruct (Hout a Ha ltac:(lia) Hfa) as [F1 F2].
  destruct (Ho3 a Ha ltac:(lia) F1) as [F3 F4]. by rewrite F4.
Qed.

(** What a read of the device gives is such a run. *)
Lemma chunks_sectors n data i b : length data = (n * BLOCK_SIZE)%nat →
  chunks BLOCK_SIZE data !! i = Some b → b = sector data i ∧ (i < n)%nat ∧ length b = BLOCK_SIZE.
Proof.
  revert data i. induction n as [|n IH]; intros data i Hl Hi.
  { destruct data; [|done]. by rewrite chunks_nil in Hi. }
  assert (Hne : data ≠ []) by (intros ->; simpl in Hl; lia).
  rewrite chunks_cons in Hi by (done || (unfold BLOCK_SIZE; lia)).
  assert (Lt : length (take BLOCK_SIZE data) = BLOCK_SIZE) by (rewrite length_take; lia).
  destruct i as [|i].
  - injection Hi as <-. split; [|split; [lia|done]]. unfold sector, slice.
    rewrite Nat.mul_0_l, drop_0. f_equal; lia.
  - destruct (IH (drop BLOCK_SIZE data) i) as (-> & Hlt & Hlen); [rewrite length_drop; lia|done|].
    split; [|split; [lia|done]]. unfold sector, slice. rewrite drop_drop. f_equal; try lia; f_equal; lia.
Qed.

Lemma whole_chunk data : length data = BLOCK_SIZE → chunks BLOCK_SIZE data = [data].
Proof.
  intros Hl. rewrite chunks_cons; [|unfold BLOCK_SIZE; lia|by intros ->].
  by rewrite take_ge, drop_ge, chunks_nil by lia.
Qed.

Lemma slice_whole data : length data = BLOCK_SIZE →
  slice data (0 * BLOCK_SIZE) (0 * BLOCK_SIZE + BLOCK_SIZE) = data.
Proof. intros Hl. unfold slice. rewrite Nat.mul_0_l, drop_0. apply take_ge. lia. Qed.

Lemma device_run c lba n : cache_ok c → 0 ≤ lba → lba + Z.of_nat n ≤ EMPTY_LBA →
  (∀ i, (i < n)%nat → find_lba (lba + Z.of_nat i) (entries c) = None) →
  ∃ d r, read_blocks (device c) lba (n * BLOCK_SIZE) = Ret (d, r) ∧ kept c (set_device c d) ∧
    ∀ data, r = Ok data → length data = (n * BLOCK_SIZE)%nat ∧
      run_ok (set_device c d) lba (chunks BLOCK_SIZE data) ∧ (length (chunks BLOCK_SIZE data) ≤ n)%nat ∧
      ∀ i b, (i < n)%nat → view c (lba + Z.of_nat i) = Some b → sector data i = b.
Proof.
  intros Hok Hlo Hhi Hf. pose proof (proj1 (proj1 Hok)) as Hd.
  destruct (read_law (device c) lba n Hd Hlo Hhi) as (d & r & E & Hd' & Hb & Hr).
  exists d, r. split; [done|]. split; [apply kept_device; [done|done|done|intros a; by eapply read_takes]|]. intros data ->.
  destruct (Hr data eq_refl) as [Hlen Hdata].
  assert (Hn : (length (chunks BLOCK_SIZE data) ≤ n)%nat).
  { destruct (decide (length (chunks BLOCK_SIZE data) ≤ n)%nat); [done|].
    destruct (lookup_lt_is_Some_2 (chunks BLOCK_SIZE data) n) as [b Hb']; [lia|].
    apply (chunks_sectors n data) in Hb' as (_ & Hlt & _); [lia|done]. }
  split; [done|]. split; [|split; [done|]].
  - split; [done|]. split; [lia|]. intros i b Hi.
    apply (chunks_sectors n data) in Hi as (-> & Hlt & Hl); [|done]. split; [done|].
    split; [by apply Hf|]. intros b' Eb. cbn in Eb. rewrite Hb in Eb. symmetry. by apply Hdata.
  - intros i b Hi Ev. apply Hdata; [done|]. rewrite absent_view in Ev by by apply Hf.
    destruct (blocks (device c) (lba + Z.of_nat i)); simplify_eq/=. done.
Qed.

(** ** Reading *)

Lemma lookahead_blocks_ok (c : BlockCache D) lba n k :
  0 ≤ lba → lba + Z.of_nat (k + n) ≤ u64_max →
  (∀ i, (1 ≤ i ≤ k)%nat → find_lba (lba + Z.of_nat i) (entries c) = None) →
  ∃ m, lookahead_blocks c lba n k = Ret m ∧ (k ≤ m ≤ k + n)%nat ∧
    ∀ i, (1 ≤ i ≤ m)%nat → find_lba (lba + Z.of_nat i) (entries c) = None.
Proof.
  intros Hlo. revert k. induction n as [|n IH]; intros k Hhi Hf; cbn [lookahead_blocks].
  { exists k. split; [done|]. split; [lia|done]. }
  unfold checked_add. rewrite (proj2 (Z.leb_le _ _)) by lia.
  destruct (is_cached c (lba + Z.of_nat k + 1)) eqn:Ec; [exists k; split; [done|]; split; [lia|done]|].
  apply is_cached_find in Ec. destruct (IH (S k)) as (m & E & Hm & Hfm); [lia| |exists m; split; [done|]; split; [lia|done]].
  intros i Hi. destruct (decide (i = S k)) as [->|]; [|apply Hf; lia].
  by replace (lba + Z.of_nat (S k)) with (lba + Z.of_nat k + 1) by lia.
Qed.

(** A hit answers the view. *)
Lemma hit_view c i e lba b : cache_ok c → valid_lba lba → find_lba lba (entries c) = Some (i, e) →
  view c lba = Some b → e_data e = b.
Proof.
  intros [Hwf _] Hv Hf Ev. pose proof (find_lba_Some _ _ _ _ Hf) as [Hi Hl].
  pose proof (entry_ok_lookup _ _ _ Hwf Hi) as He. unfold view, dirty_at in Ev. rewrite Hf in Ev.
  cbn in Ev. unfold dirty_data in Ev. unfold entry_ok in He.
  rewrite (proj2 (not_empty_lba e)) in He by (unfold valid_lba in Hv; lia). destruct He as (_ & _ & He).
  destruct (e_dirty e); [congruence|]. destruct (blocks (device c) lba) eqn:Eb; simplify_eq/=.
  symmetry. by apply He.
Qed.

(** How far a miss reads: only blocks that are not cached. *)
Lemma miss_lookahead (c : BlockCache D) lba last : 0 ≤ lba → lba + 5 ≤ EMPTY_LBA →
  find_lba lba (entries c) = None →
  ∃ m, (if negb (last =? u64_max) && (lba =? last + 1)
        then lookahead_blocks c lba (Nat.min (read_ahead_depth c) PREFETCH_RUN_BLOCKS) 0 else Ret 0%nat) = Ret m ∧
    (m ≤ 4)%nat ∧ ∀ i, (i < m + 1)%nat → find_lba (lba + Z.of_nat i) (entries c) = None.
Proof.
  intros Hlo Hhi Hf. assert (Hz : ∀ i, (i < 0 + 1)%nat → find_lba (lba + Z.of_nat i) (entries c) = None).
  { intros i Hi. by replace (lba + Z.of_nat i) with lba by lia. }
  destruct (negb _ && _); [|by exists 0%nat; split; [|split; [lia|]]].
  set (n := Nat.min _ _). assert (n ≤ 4)%nat by (unfold n, PREFETCH_RUN_BLOCKS; lia).
  destruct (lookahead_blocks_ok c lba n 0) as (m & E & Hm & Hfm); [lia|unfold EMPTY_LBA in Hhi; lia|intros; lia|].
  exists m. split; [done|]. split; [lia|]. intros [|i] Hi; [by apply Hz; lia|apply Hfm; lia].
Qed.

(** A miss reads a run of the device and caches it. *)
Lemma miss_fills c lba n : cache_ok c → 0 ≤ lba → lba + Z.of_nat n ≤ EMPTY_LBA → (0 < n)%nat →
  (∀ i, (i < n)%nat → find_lba (lba + Z.of_nat i) (entries c) = None) →
  ∃ d r, read_blocks (device c) lba (n * BLOCK_SIZE) = Ret (d, r) ∧ kept c (set_device c d) ∧
    ∀ data, r = Ok data → length data = (n * BLOCK_SIZE)%nat ∧
      ∃ c', insert_run (inc_misses (set_device c d)) lba (chunks BLOCK_SIZE data) false = Ret c' ∧ kept c c' ∧
        ∀ b, view c lba = Some b → sector data 0 = b.
Proof.
  intros Hok Hlo Hhi Hn Habs. destruct (device_run c lba n Hok Hlo Hhi Habs) as (d & r & E & Hk & Hr).
  exists d, r. split; [done|]. split; [done|]. intros data ->. destruct (Hr data eq_refl) as (Hl & Hrun & _ & Hdata).
  split; [done|]. assert (Hk2 : kept c (inc_misses (set_device c d))) by by apply (kept_same c (set_device c d)).
  destruct (insert_run_ok _ lba _ false (kept_ok _ _ Hk2) Hrun) as (c2 & E2 & Hk3 & _). exists c2.
  split; [done|]. split; [exact (kept_trans _ _ _ Hk2 Hk3)|]. intros b Ev. apply Hdata; [lia|]. by rewrite Z.add_0_r.
Qed.

Lemma read_cached_ok c lba : cache_ok c → 0 ≤ lba → lba + 5 ≤ EMPTY_LBA →
  ∃ c' r, read_cached c lba BLOCK_SIZE = Ret (c', r) ∧ kept c c' ∧
    ∀ data b, r = Ok data → view c lba = Some b → data = b.
Proof.
  intros Hok Hlo Hhi. assert (Hv : valid_lba lba) by (unfold valid_lba; lia). unfold read_cached.
  rewrite decide_True by done. destruct (find_lba lba (entries c)) as [[i e]|] eqn:Hf.
  { eexists _, _. split; [done|]. split; [|intros data b [= <-] Ev; by eapply hit_view].
    destruct (bump_ok c lba Hok Hv) as (Hok' & Hdev & _ & Hview).
    apply (kept_same c (bump_generation_and_update c lba)); [by destruct (negb _ && _)|].
    split; [done|by rewrite Hdev|]. intros a Ha. left. by apply Hview. }
  set (c1 := set_last_read c lba). assert (Hk1 : kept c c1) by (apply (kept_same c c); [done|by apply kept_refl]).
  destruct (miss_lookahead c1 lba (last_read_lba c) Hlo Hhi Hf) as (m & Em & Hm & Habs).
  rewrite Em. cbn [mbind outcome_bind].
  destruct (miss_fills c1 lba (m + 1) (kept_ok _ _ Hk1) Hlo ltac:(lia) ltac:(lia) Habs) as (d & r & E & Hk & Hr).
  assert (Herr : kept c (set_device c1 d)) by exact (kept_trans _ _ _ Hk1 Hk).
  assert (Hread : read_blocks (device c1) lba (if decide (m = 0%nat) then BLOCK_SIZE else (m + 1) * BLOCK_SIZE)%nat
    = Ret (d, r)) by (case_decide; [subst m|]; exact E).
  case_decide as Em0; rewrite Hread; cbn [mbind outcome_bind];
    (destruct r as [data|er]; [|by eexists _, _; split; [|split]]);
    destruct (Hr data eq_refl) as (Hl & c2 & E2 & Hk2 & Hb).
  - subst m. rewrite whole_chunk in E2 by (rewrite Hl; lia). cbn [insert_run] in E2.
    destruct (insert (inc_misses (set_device c1 d)) 0 lba data false) as [c3| |]; [|done|done].
    cbn [mbind outcome_bind] in E2 |- *. injection E2 as ->. exists c2, (Ok data). split; [done|].
    split; [exact (kept_trans _ _ _ Hk1 Hk2)|]. intros data' b [= <-] Ev. rewrite <- (Hb b Ev). symmetry. unfold sector.
    apply slice_whole. rewrite Hl. lia.
  - rewrite E2. cbn [mbind outcome_bind]. exists c2, (Ok (sector data 0)). split; [done|].
    split; [exact (kept_trans _ _ _ Hk1 Hk2)|]. intros data' b [= <-] Ev. by apply Hb.
Qed.

(** ** Writing *)

Lemma set_data_entry_ok (d : D) e data (dirty : bool) since lba :
  e_lba e = lba → valid_lba lba → is_sector data →
  (if dirty then True else ∀ b, blocks d lba = Stable b → b = data) →
  entry_ok d (set_data data dirty since e).
Proof.
  intros <- Hv [Hl Hb] Hd. unfold entry_ok, set_data. cbn.
  rewrite (proj2 (not_empty_lba _)) by (unfold valid_lba in Hv; cbn; lia).
  split; [done|]. split; [done|]. by destruct dirty.
Qed.

Lemma write_back_ok c now lba data : cache_ok c → valid_lba lba → is_sector data →
  ∃ c', write_back c now lba data = Ret (c', Ok ()) ∧ cache_ok c' ∧ view c' lba = Some data ∧
    (∃ i since, find_lba lba (entries c') = Some (i, mkEntry lba data (generation c) true since)) ∧
    (∀ a, takes (device c') a = takes (device c) a) ∧
    ∀ a, valid_lba a → a ≠ lba → view c' a = view c a ∨ takes (device c) a = false.
Proof.
  intros Hok Hv Hs. unfold write_back. rewrite decide_True by apply Hs.
  pose proof (update_lba_ok c (set_data data true now) lba Hok Hv) as Hu.
  destruct (find_lba lba (entries c)) as [[i e]|] eqn:Hf.
  - destruct Hu as (c1 & Eu & Hok1 & Hd1 & Hf1 & Ho & Hl); [done| |].
    { intros j e' Hj El. by apply (set_data_entry_ok _ _ _ true _ lba). }
    assert (Hg1 : generation c1 = generation c) by (unfold update_lba in Eu; rewrite Hf in Eu; by injection Eu as <-).
    destruct (bump_ok c1 lba Hok1 Hv) as (Hok2 & Hd2 & Hf2 & Hv2). rewrite Eu. eexists. split; [done|].
    split; [done|]. split; [by rewrite Hv2|]. split.
    { exists i, now. rewrite (Hf2 _ _ Hf1), Hg1. destruct (find_lba_Some _ _ _ _ Hf) as [_ <-]. done. }
    split; [by rewrite Hd2, Hd1|]. intros a Ha Hne. left. rewrite Hv2 by done. by apply Ho.
  - rewrite Hu; [|done|].
    2: { intros j e' Hj El. by apply (set_data_entry_ok _ _ _ true _ lba). }
    destruct (insert_ok c now lba data true Hok Hv (proj1 Hs) (proj2 Hs)) as (c' & -> & [I1 I0 I2 I3 _ _ _ I7]).
    cbn [mbind outcome_bind]. exists c'. by split; [|split; [|split; [|split; [|split]]]].
Qed.

(** The device and the slot of one block change together. *)
Lemma wf_write_slot c d i e0 e1 : cache_wf c → dev_ok d →
  (∀ a, a ≠ e_lba e1 → blocks d a = blocks (device c) a) →
  entries c !! i = Some e0 → e_lba e0 = e_lba e1 → is_empty e0 = false → entry_ok d e1 →
  cache_wf (set_entries (set_device c d) (<[i := e1]> (entries c))).
Proof.
  intros (Hd & Hl & Hf & Hu) Hd' Ho Hi Hlba Hne He. split; [done|].
  split; [cbn; by rewrite length_insert|]. split; [|eapply unique_insert; [done|done|by right; left]].
  cbn. apply Forall_lookup. intros j e Hj.
  apply list_lookup_insert_Some in Hj as [(-> & <- & _)|[Hij Hj]]; [done|].
  pose proof (Forall_lookup_1 _ _ _ _ Hf Hj) as Hej. unfold entry_ok in *.
  rewrite Ho; [done|]. intros E. apply Hij. by eapply Hu; [done|done|congruence|].
Qed.

(** A write the device took, of a cached block: the entry is set clean. *)
Lemma written_hit c d i e lba data : cache_ok c → valid_lba lba → is_sector data → dev_ok d →
  (∀ a, a ≠ lba → blocks d a = blocks (device c) a) → blocks d lba = Stable data →
  find_lba lba (entries c) = Some (i, e) →
  let c1 := set_entries (set_device c d) (<[i := set_data data false 0 e]> (entries c)) in
  cache_ok c1 ∧ (∀ a, valid_lba a → a ≠ lba → view c1 a = view c a) ∧ view c1 lba = Some data.
Proof.
  intros [Hwf Hq] Hv Hs Hd Ho Hw Hf c1. pose proof (find_lba_Some _ _ _ _ Hf) as [Hi Hl].
  set (e1 := set_data data false 0 e) in *.
  assert (He1 : entry_ok d e1).
  { apply (set_data_entry_ok _ _ _ false _ lba); [done|done|done|]. intros b Eb. congruence. }
  assert (Hne : is_empty e = false) by (apply not_empty_lba; unfold valid_lba in Hv; lia).
  assert (Hda : ∀ a, valid_lba a → dirty_at (entries c1) a =
    if decide (a = lba) then None else dirty_at (entries c) a).
  { intros a Ha. unfold valid_lba in Ha. unfold c1. cbn [set_entries entries].
    erewrite dirty_at_insert; [|apply Hwf|done|by right; left|lia].
    change (e_lba e1) with (e_lba e). rewrite Hl. by repeat case_decide. }
  split; [split|split].
  - apply (wf_write_slot c d i e e1); try done. intros a Ha. apply Ho. by rewrite <- Hl.
  - apply (quiet_written (device c) d lba data true Hq Ho Hw).
  - intros a Ha Hna. unfold view. rewrite Hda, decide_False by done. cbn. by rewrite Ho.
  - unfold view. rewrite Hda, decide_True by done. cbn. by rewrite Hw.
Qed.

(** A write of a block that is not cached, or one the device refused. *)
Lemma written_device c d lba data ok : cache_ok c → dev_ok d →
  (∀ a, a ≠ lba → blocks d a = blocks (device c) a) →
  written (blocks (device c) lba) (blocks d lba) data ok → (ok = true → find_lba lba (entries c) = None) →
  cache_ok (set_device c d) ∧ (∀ a, valid_lba a → a ≠ lba → view (set_device c d) a = view c a) ∧
  if ok then view (set_device c d) lba = Some data
  else view (set_device c d) lba = view c lba ∨ view (set_device c d) lba = None.
Proof.
  intros [Hwf Hq] Hd Ho Hw Hf. split; [split|split].
  - apply (wf_set_device c d lba Hwf Hd Ho). intros i e Hi Hl.
    destruct ok; [exfalso; by apply (find_lba_None _ _ _ _ (Hf eq_refl) Hi)|].
    pose proof (entry_ok_lookup _ _ _ Hwf Hi) as He. unfold entry_ok in *. rewrite Hl in *.
    destruct (is_empty e); [done|]. destruct He as (? & ? & He). split; [done|]. split; [done|].
    destruct (e_dirty e); [done|]. destruct Hw as [-> | ->]; [done|]. by intros b Eb.
  - by eapply quiet_written.
  - intros a Ha Hna. unfold view. cbn. by rewrite Ho.
  - unfold view, dirty_at. cbn [set_device entries device]. destruct ok; [rewrite Hf by done; cbn in Hw; by rewrite Hw|].
    destruct (find_lba lba (entries c) ≫= _); [by left|]. destruct Hw as [-> | ->]; [by left|by right].
Qed.

Lemma write_through_ok c lba data : cache_ok c → valid_lba lba → is_sector data →
  ∃ c' r, write_through c lba data = Ret (c', r) ∧ cache_ok c' ∧
    (∀ a, takes (device c') a = takes (device c) a) ∧
    (∀ a, valid_lba a → a ≠ lba → view c' a = view c a) ∧
    match r with
    | Ok _ => view c' lba = Some data
    | Err _ => (view c' lba = view c lba ∨ view c' lba = None) ∧ takes (device c) lba = false
    end.
Proof.
  intros Hok Hv Hs. pose proof Hok as [[Hd0 _] Hq]. unfold write_through. rewrite decide_True by apply Hs.
  destruct (write_law (device c) lba data Hd0 Hv Hs (Hq lba)) as (d & r & E & Hd & Ho & Hw).
  rewrite E. cbn [mbind outcome_bind].
  assert (Ht : ∀ a, takes d a = takes (device c) a) by (intros a; by eapply write_takes).
  destruct r as [u|er]; cycle 1.
  { eexists _, _. split; [done|]. destruct (written_device c d lba data false Hok Hd Ho Hw) as (H1 & H2 & H3); [done|].
    split; [done|]. split; [done|]. split; [done|]. split; [done|]. apply not_true_is_false. intros Htk.
    by pose proof (takes_law _ _ _ _ _ Hd0 Hv Hs Htk E). }
  unfold update_lba. change (entries (set_device c d)) with (entries c).
  destruct (find_lba lba (entries c)) as [[i e]|] eqn:Hf; eexists _, _; (split; [done|]); cycle 1.
  { destruct (written_device c d lba data true Hok Hd Ho Hw) as (H1 & H2 & H3); [done|]. by split. }
  destruct (written_hit c d i e lba data Hok Hv Hs Hd Ho Hw Hf) as (Hok1 & Hv1 & Hl1). set (c1 := set_entries _ _) in *.
  destruct (bump_ok c1 lba Hok1 Hv) as (Hok2 & Hd2 & _ & Hv2). split; [done|]. split; [intros a; by rewrite Hd2|].
  split; [|by rewrite Hv2]. intros a Ha Hna. rewrite Hv2 by done. by apply Hv1.
Qed.

(** ** Read-ahead *)

(** The blocks of a range are not cached. *)
Definition absent (c : BlockCache D) (lba : Z) (n : nat) : Prop :=
  ∀ i, (i < n)%nat → find_lba (lba + Z.of_nat i) (entries c) = None.

Lemma read_run_loop_ok fuel c lba n : cache_ok c → 0 ≤ lba → lba + Z.of_nat n ≤ EMPTY_LBA →
  absent c lba n → (n < fuel)%nat → ∃ c', read_run_loop fuel c lba n = Ret c' ∧ kept c c'.
Proof.
  revert c lba n. induction fuel as [|fuel IH]; intros c lba n Hok Hlo Hhi Hf Hfuel; [lia|].
  cbn [read_run_loop]. case_decide as Hn; [exists c; split; [done|by apply kept_refl]|].
  set (k := Nat.min n PREFETCH_RUN_BLOCKS).
  assert (Hk : (1 ≤ k ≤ n)%nat) by (unfold k, PREFETCH_RUN_BLOCKS; lia).
  destruct (device_run c lba k Hok Hlo ltac:(lia)) as (d & r & -> & Hkd & Hr).
  { intros i Hi. apply Hf. lia. }
  cbn [mbind outcome_bind]. destruct r as [data|er]; [|by eexists].
  destruct (Hr data eq_refl) as (_ & Hrun & Hlen & _).
  destruct (insert_run_ok _ lba _ true (kept_ok _ _ Hkd) Hrun) as (c1 & -> & Hk1 & _ & Ho). cbn [mbind outcome_bind].
  unfold checked_add. rewrite (proj2 (Z.leb_le _ _)) by (unfold EMPTY_LBA in Hhi; lia).
  destruct (IH c1 (lba + Z.of_nat k) (n - k)%nat) as (c2 & E2 & Hk2); [apply Hk1|lia|lia| |lia|].
  - intros i Hi. apply Ho; [unfold valid_lba; lia|lia|].
    replace (lba + Z.of_nat k + Z.of_nat i) with (lba + Z.of_nat (k + i)) by lia. apply Hf. lia.
  - exists c2. split; [done|]. eapply kept_trans; [exact Hkd|]. by eapply kept_trans.
Qed.

(** A run collected up to [lba]. *)
Definition collected (c : BlockCache D) (run_start : option Z) (run_blocks : nat) (lba : Z) : Prop :=
  match run_start with
  | None => run_blocks = 0%nat
  | Some s => 0 ≤ s ∧ s + Z.of_nat run_blocks = lba ∧ absent c s run_blocks
  end.

Lemma read_run_ok c run_start run_blocks lba : cache_ok c → lba ≤ EMPTY_LBA →
  collected c run_start run_blocks lba →
  ∃ c', read_run c run_start run_blocks = Ret c' ∧ kept c c'.
Proof.
  intros Hok Hhi Hc. destruct run_start as [s|]; [|exists c; split; [done|by apply kept_refl]].
  destruct Hc as (Hs & Hl & Ha). apply read_run_loop_ok; [done|done|lia|done|lia].
Qed.

Lemma prefetch_loop_ok c start o n run_start run_blocks : cache_ok c → 0 ≤ start →
  start + Z.of_nat (o + n) ≤ EMPTY_LBA → collected c run_start run_blocks (start + Z.of_nat o) →
  ∃ c', prefetch_loop c start (seq o n) run_start run_blocks = Ret c' ∧ kept c c'.
Proof.
  revert c o run_start run_blocks. induction n as [|n IH]; intros c o rs rb Hok Hlo Hhi Hc; cbn [seq prefetch_loop].
  { apply (read_run_ok c rs rb (start + Z.of_nat o)); [done|lia|done]. }
  unfold saturating_add. rewrite Z.min_l by (unfold EMPTY_LBA in Hhi; lia).
  destruct (is_cached c (start + Z.of_nat o)) eqn:Ec.
  - destruct (read_run_ok c rs rb (start + Z.of_nat o)) as (c1 & -> & Hk1); [done|lia|done|].
    cbn [mbind outcome_bind].
    destruct (IH c1 (S o) None 0%nat) as (c2 & E2 & Hk2); [apply Hk1|done|lia|done|].
    exists c2. split; [done|]. by eapply kept_trans.
  - apply is_cached_find in Ec. apply IH; [done|done|lia|].
    destruct rs as [s|]; cbn in Hc |- *.
    + destruct Hc as (Hs & Hl & Ha). split; [done|]. split; [lia|]. intros i Hi.
      destruct (decide (i = rb)) as [->|]; [by rewrite Hl|apply Ha; lia].
    + subst rb. split; [lia|]. split; [lia|]. intros i Hi. by replace (start + Z.of_nat o + Z.of_nat i) with (start + Z.of_nat o) by lia.
Qed.

Lemma prefetch_ok c start n : cache_ok c → 0 ≤ start → start + Z.of_nat n ≤ EMPTY_LBA →
  ∃ c', prefetch c start n = Ret c' ∧ kept c c'.
Proof. intros. by apply prefetch_loop_ok. Qed.

(** ** Invalidation drops what was not written back *)

Lemma invalidate_ok c lba : cache_ok c → valid_lba lba →
  cache_ok (invalidate c lba) ∧ device (invalidate c lba) = device c ∧
  view (invalidate c lba) lba = stable (blocks (device c) lba) ∧
  find_lba lba (entries (invalidate c lba)) = None ∧
  ∀ a, valid_lba a → a ≠ lba → view (invalidate c lba) a = view c a.
Proof.
  intros [Hwf Hq] Hv. unfold invalidate, update_lba.
  destruct (find_lba lba (entries c)) as [[i e]|] eqn:Hf; [|split; [done|]; split; [done|]; split; [by apply absent_view|done]].
  apply find_lba_Some in Hf as [Hi Hl]. set (c1 := set_entries c _).
  assert (Had : admissible (entries c) e empty_entry) by by left.
  assert (Hne : ∀ a, valid_lba a → a ≠ e_lba empty_entry) by (unfold valid_lba; cbn; lia).
  assert (Hfind : find_lba lba (entries c1) = None).
  { unfold c1. cbn [set_entries entries]. erewrite find_insert; [|apply Hwf|done|done|by apply Hne].
    rewrite decide_False by by apply Hne. by rewrite decide_True. }
  change (entries (inc_evictions c1)) with (entries c1).
  split; [|split; [done|split; [|split]]].
  - apply (same_blocks_ok c1); [done|]. split; [by eapply wf_set_slot|done].
  - rewrite (same_blocks_view c1) by done. exact (absent_view c1 lba Hfind).
  - done.
  - intros a Ha Hna. rewrite (same_blocks_view c1) by done. unfold c1. erewrite view_set_slot by done.
    rewrite decide_False by by apply Hne. rewrite decide_False by congruence. done.
Qed.

(** Blocks of a range dropped at once. *)
Lemma find_dropped p l a : (∀ e, p e = true → is_empty e = false) → a ≠ EMPTY_LBA → unique l →
  find_lba a (map (λ e, if p e then empty_entry else e) l) =
  match find_lba a l with Some (i, e) => if p e then None else Some (i, e) | None => None end.
Proof.
  intros Hp Ha Hu. destruct (find_lba a l) as [[i e]|] eqn:Hf.
  - pose proof (find_lba_Some _ _ _ _ Hf) as [Hi He]. destruct (p e) eqn:Ep.
    + apply list_find_None, Forall_lookup. intros j e' Hj. rewrite list_lookup_fmap in Hj.
      destruct (l !! j) as [e0|] eqn:Hj0; [|done]. injection Hj as <-.
      destruct (p e0) eqn:Ep0; [done|]. intros E. assert (i = j) as <- by (eapply Hu; [done|done|congruence|by apply Hp]).
      congruence.
    + apply list_find_Some. split; [|split; [done|]].
      * rewrite list_lookup_fmap, Hi. cbn. by rewrite Ep.
      * intros j e' Hj Hlt. rewrite list_lookup_fmap in Hj. destruct (l !! j) as [e0|] eqn:Hj0; [|done].
        injection Hj as <-. destruct (p e0); [done|]. apply list_find_Some in Hf as (_ & _ & Hf). by eapply Hf.
  - apply list_find_None, Forall_lookup. intros j e' Hj. rewrite list_lookup_fmap in Hj.
    destruct (l !! j) as [e0|] eqn:Hj0; [|done]. injection Hj as <-.
    destruct (p e0); [done|]. by eapply find_lba_None.
Qed.

Lemma invalidate_range_ok c start count : cache_ok c → 0 ≤ start → 0 ≤ count →
  let c' := invalidate_range c start count in
  cache_ok c' ∧ device c' = device c ∧
  ∀ a, valid_lba a → view c' a =
    if decide (start ≤ a < start + count) then stable (blocks (device c) a) else view c a.
Proof.
  intros Hok Hs Hn. pose proof Hok as [(Hd & Hl & Hf & Hu) Hq]. unfold invalidate_range. cbv zeta.
  set (p := in_range start (saturating_add start count)). set (c1 := set_entries c _).
  assert (Hp : ∀ e, p e = true → is_empty e = false).
  { intros e E. apply andb_prop in E as [[E _]%andb_prop _]. by apply negb_true_iff. }
  assert (Hok1 : cache_ok c1).
  { split; [|done]. split; [done|]. split; [cbn; by rewrite length_map|]. cbn. split.
    - apply Forall_fmap. eapply Forall_impl; [exact Hf|]. intros e He. cbn. by destruct (p e).
    - intros i j e1 e2 Hi Hj El Hne. rewrite list_lookup_fmap in Hi, Hj.
      destruct (entries c !! i) as [e1'|] eqn:Hi'; [|done]. destruct (entries c !! j) as [e2'|] eqn:Hj'; [|done].
      injection Hi as <-. injection Hj as <-. destruct (p e1'); [done|].
      destruct (p e2'); [apply not_empty_lba in Hne; by cbn in El|]. by eapply Hu. }
  assert (Hv1 : ∀ a, valid_lba a → view c1 a =
    if decide (start ≤ a < start + count) then stable (blocks (device c) a) else view c a).
  { intros a Ha. unfold valid_lba, EMPTY_LBA in Ha. unfold view, dirty_at. cbn [c1 set_entries entries device].
    rewrite find_dropped; [|done|unfold EMPTY_LBA; lia|done].
    destruct (find_lba a (entries c)) as [[i e]|] eqn:Hfa; [|by case_decide].
    apply find_lba_Some in Hfa as [Hi El]. assert (Ep : p e = bool_decide (start ≤ a < start + count)).
    { unfold p, in_range, saturating_add. rewrite (proj2 (not_empty_lba e)) by (unfold EMPTY_LBA; lia).
      rewrite El. cbn [negb andb]. destruct (Z.leb_spec start a); [|rewrite bool_decide_false by lia; done].
      cbn [andb]. destruct (Z.ltb_spec a (Z.min (start + count) u64_max));
        [rewrite bool_decide_true by lia; done|rewrite bool_decide_false by lia; done]. }
    rewrite Ep. destruct (decide (start ≤ a < start + count)) as [Hr|Hr];
      [rewrite bool_decide_true by exact Hr|rewrite bool_decide_false by exact Hr]; done. }
  destruct (decide (0 < _)%nat); (split; [done|]); by split.
Qed.
End Ops.
