(* ===== verification/BlockCacheFlush.v ===== *)
(** * Flushing the block cache

    A flush hands the selected dirty blocks to the device's queue, waits for each
    and clears its flag.  It ends, loses nothing whatever the device answers, and
    when it succeeds the device holds every selected block. *)

From stdpp Require Import base tactics decidable numbers list.
From Stdlib Require Import ZArith Lia Bool.
From S2P Require Import Prelude Bytes BlockDevice BlockCache BlockCacheInv.

Section Flush.
Context {D : Type} `{BlockContract D}.

(** ** Waiting *)

Lemma poll_rounds_ok k t (d : D) polls : dev_ok d →
  let '(d', x) := poll_rounds k t d polls in dev_ok d' ∧ (∀ a, takes d' a = takes d a) ∧
  match x with
  | inl p => p = polls + 2 ^ Z.of_nat k ∧ p ≤ FLUSH_POLL_LIMIT ∧ ∀ a, blocks d' a = blocks d a
  | inr r => (∀ a, blocks d' a = settle t (is_ok r) (blocks d a)) ∨
      (r = Err TimedOut ∧ ∀ a, blocks d' a = blocks d a)
  end.
Proof.
  revert d polls. induction k as [|k IH]; intros d polls Hd; cbn [poll_rounds].
  - pose proof (poll_law d t Hd) as Hp. pose proof (poll_takes d t) as Ht.
    destruct (poll d t) as [d' [|r]]; destruct Hp as [Hd' Hb]; cbn in Hb, Ht.
    + destruct (Z.ltb_spec FLUSH_POLL_LIMIT (polls + 1)); (split; [done|]); (split; [done|]); [by right|]. by split.
    + split; [done|]. split; [done|]. by left.
  - pose proof (IH d polls Hd) as H1. destruct (poll_rounds k t d polls) as [d1 [p|r]]; [|done].
    destruct H1 as (Hd1 & Ht1 & -> & Hl1 & Hb1). pose proof (IH d1 (polls + 2 ^ Z.of_nat k) Hd1) as H2.
    destruct (poll_rounds k t d1 _) as [d2 [p|r]]; destruct H2 as (Hd2 & Ht2 & H2);
      (split; [done|]); (split; [intros a; by rewrite Ht2|]).
    + destruct H2 as (-> & Hl2 & Hb2). split; [|split; [done|intros a; by rewrite Hb2]].
      rewrite Nat2Z.inj_succ, Z.pow_succ_r by lia. lia.
    + destruct H2 as [Hb2|[-> Hb2]]; [left; intros a; by rewrite Hb2, Hb1|right].
      split; [done|]. intros a. by rewrite Hb2.
Qed.

(** A device that answers every ticket within the limit. *)
Definition prompt : Prop := ∀ (c : BlockCache D) t c' r a b,
  dev_ok (device c) → wait_for_write c t = Ret (c', r) → blocks (device c') a ≠ Flying t b.

Lemma wait_polls_ok k (c : BlockCache D) t : FLUSH_POLL_LIMIT < 2 ^ Z.of_nat k → dev_ok (device c) →
  ∃ d r, wait_polls k c t = Ret (set_device c d, r) ∧ dev_ok d ∧ (∀ a, takes d a = takes (device c) a) ∧
    ((∀ a, blocks d a = settle t (is_ok r) (blocks (device c) a)) ∨
     (r = Err TimedOut ∧ ∀ a, blocks d a = blocks (device c) a)).
Proof.
  intros Hk Hd. unfold wait_polls. pose proof (poll_rounds_ok k t (device c) 0 Hd) as Hp.
  destruct (poll_rounds k t (device c) 0) as [d [p|r]]; destruct Hp as (Hd' & Ht & Hp).
  - exfalso. lia.
  - by exists d, r.
Qed.

Lemma wait_for_write_ok (c : BlockCache D) t : dev_ok (device c) →
  ∃ d r, wait_for_write c t = Ret (set_device c d, r) ∧ dev_ok d ∧ (∀ a, takes d a = takes (device c) a) ∧
    ((∀ a, blocks d a = settle t (is_ok r) (blocks (device c) a)) ∨
     (r = Err TimedOut ∧ ∀ a, blocks d a = blocks (device c) a)) ∧
    (prompt → ∀ a b, blocks d a ≠ Flying t b).
Proof.
  intros Hd. destruct (wait_polls_ok 26 c t) as (d & r & E & Hd' & Ht & Hb); [done|done|].
  exists d, r. split; [exact E|]. split; [done|]. split; [done|]. split; [done|]. intros Hpr a b.
  exact (Hpr c t (set_device c d) r a b Hd E).
Qed.

(** ** The state of a flush *)

(** A write in the queue is of a dirty entry of its generation, done or in flight. *)
Definition queued (c : BlockCache D) (w : PendingWrite) : Prop :=
  ∃ i e, entries c !! i = Some e ∧ e_lba e = p_lba w ∧ e_generation e = p_generation w ∧
    e_dirty e = true ∧
    (p_ticket w = DONE ∧ blocks (device c) (p_lba w) = Stable (e_data e) ∨
     p_ticket w ≠ DONE ∧ blocks (device c) (p_lba w) = Flying (p_ticket w) (e_data e)).

Record flushing (c0 c : BlockCache D) (pending : list PendingWrite) (attempted : list Z) (failed : bool)
    : Prop := {
  fl_wf : cache_wf c;
  fl_view a : valid_lba a → view c a = view c0 a;
  fl_nodup : NoDup attempted;
  fl_cached a : a ∈ attempted → valid_lba a ∧ ∃ i e, entries c !! i = Some e ∧ e_lba e = a;
  fl_pending_nodup : NoDup (map p_lba pending);
  fl_pending w : w ∈ pending → p_lba w ∈ attempted ∧ queued c w;
  fl_flying a t b : blocks (device c) a = Flying t b → t ≠ DONE ∧ a ∈ attempted ∧ dirty_at (entries c) a ≠ None;
  fl_ticket a a' t b b' : blocks (device c) a = Flying t b → blocks (device c) a' = Flying t b' → a = a';
  fl_answered a t b : failed = false ∨ prompt → blocks (device c) a = Flying t b → a ∈ map p_lba pending;
  fl_retired a : failed = false → a ∈ attempted → a ∉ map p_lba pending → dirty_at (entries c) a = None;
  fl_takes a : takes (device c) a = takes (device c0) a;
}.

(** Distinct blocks of the cache are at most its slots. *)
Lemma attempted_bound c0 c pending attempted failed :
  flushing c0 c pending attempted failed → (length attempted ≤ length (entries c))%nat.
Proof.
  intros [_ _ Hn Hc _ _ _ _ _ _ _]. rewrite <- (length_map e_lba (entries c)).
  apply submseteq_length, NoDup_submseteq; [done|]. intros a Ha.
  destruct (Hc a Ha) as (_ & i & e & Hi & <-). apply list_elem_of_fmap. exists e. split; [done|].
  by eapply list_elem_of_lookup_2.
Qed.

Lemma dirty_at_some c i e : cache_wf c → entries c !! i = Some e → e_dirty e = true →
  dirty_at (entries c) (e_lba e) = Some (e_data e).
Proof.
  intros Hwf Hi Hd. destruct (dirty_entry_ok _ _ (entry_ok_lookup _ _ _ Hwf Hi) Hd) as (Hne & _ & _).
  rewrite (dirty_at_entry _ i e); [|apply Hwf|done|done]. unfold dirty_data. by rewrite Hd.
Qed.

Lemma flushing_start c : cache_ok c → flushing c c [] [] false.
Proof.
  intros [Hwf Hq]. assert (Hn : ∀ a t b, blocks (device c) a ≠ Flying t b).
  { intros a t b E. specialize (Hq a). by rewrite E in Hq. }
  split.
  - done.
  - done.
  - constructor.
  - intros a Ha. by apply elem_of_nil in Ha.
  - constructor.
  - intros w Hw. by apply elem_of_nil in Hw.
  - intros a t b E. by apply Hn in E.
  - intros a a' t b b' E. by apply Hn in E.
  - intros a t b _ E. by apply Hn in E.
  - intros a _ Ha. by apply elem_of_nil in Ha.
  - done.
Qed.

(** ** Submitting *)

(** The entry of a block takes a new generation. *)
Lemma regenerate c index e gen : cache_wf c → entries c !! index = Some e → e_dirty e = true →
  let c1 := set_entries c (<[index := set_generation gen e]> (entries c)) in
  cache_wf c1 ∧ (∀ a, valid_lba a → dirty_at (entries c1) a = dirty_at (entries c) a) ∧
  (∀ a, valid_lba a → view c1 a = view c a).
Proof.
  intros Hwf Hi Hd c1. pose proof (entry_ok_lookup _ _ _ Hwf Hi) as He.
  assert (Had : admissible (entries c) e (set_generation gen e)) by by right; left.
  assert (Hda : ∀ a, valid_lba a → dirty_at (entries c1) a = dirty_at (entries c) a).
  { intros a Ha. unfold valid_lba in Ha. unfold c1. cbn [set_entries entries].
    erewrite dirty_at_insert; [|apply Hwf|done|done|lia]. cbn [set_generation e_lba].
    case_decide as E; [|done]. subst a. rewrite (dirty_at_some c index e) by done.
    unfold dirty_data. cbn. by rewrite Hd. }
  split; [by eapply wf_set_slot|]. split; [done|]. intros a Ha. unfold view. by rewrite Hda.
Qed.

(** The device changes at the block of a dirty entry: nothing of the cache does. *)
Lemma dirty_block_changes c d index e : cache_wf c → entries c !! index = Some e → e_dirty e = true →
  dev_ok d → (∀ a, a ≠ e_lba e → blocks d a = blocks (device c) a) →
  cache_wf (set_device c d) ∧ ∀ a, valid_lba a → view (set_device c d) a = view c a.
Proof.
  intros Hwf Hi Hd Hdev Ho. split.
  - apply (wf_set_device c d (e_lba e) Hwf Hdev Ho). intros j e' Hj El.
    pose proof (dirty_entry_ok _ _ (entry_ok_lookup _ _ _ Hwf Hi) Hd) as (Hne & _ & _).
    destruct Hwf as (Hd0 & Hl & Hf & Hu). assert (index = j) as <- by by eapply Hu.
    simplify_eq. pose proof (Forall_lookup_1 _ _ _ _ Hf Hi) as He. unfold entry_ok in *.
    by rewrite Hd in *.
  - intros a Ha. unfold view. cbn [set_device entries device]. destruct (decide (a = e_lba e)) as [->|Hne].
    + by rewrite (dirty_at_some c index e).
    + by rewrite Ho.
Qed.

(** One write handed to the device: what holds whatever it answers. *)
Lemma submit_keeps c0 c pending attempted failed index e :
  flushing c0 c pending attempted failed →
  entries c !! index = Some e → e_dirty e = true → e_lba e ∉ attempted →
  let '(c1, gen) := next_generation c in
  let c2 := set_entries c1 (<[index := set_generation gen e]> (entries c1)) in
  ∃ d r, submit_write (device c2) (e_lba e) (e_data e) = Ret (d, r) ∧
    let c3 := set_device c2 d in
    let old := blocks (device c) in
    (cache_wf c3 ∧ (∀ a, valid_lba a → view c3 a = view c0 a) ∧ ∀ a, takes d a = takes (device c0) a) ∧
    (∀ a, a ∈ e_lba e :: attempted → valid_lba a ∧ ∃ i e, entries c3 !! i = Some e ∧ e_lba e = a) ∧
    (∀ w, w ∈ pending → p_lba w ∈ attempted ∧ queued c3 w) ∧
    (∀ a, valid_lba a → dirty_at (entries c3) a = dirty_at (entries c) a) ∧
    entries c3 !! index = Some (set_generation gen e) ∧
    dirty_at (entries c3) (e_lba e) = Some (e_data e) ∧
    (∀ a, a ≠ e_lba e → blocks d a = old a) ∧
    flying (old (e_lba e)) = false ∧
    match r with
    | Ok t => accepted blocks (device c) d (e_lba e) (e_data e) t
    | Err _ => written (old (e_lba e)) (blocks d (e_lba e)) (e_data e) false
    end.
Proof.
  intros [Hwf Hview Hn Hc Hpn Hp Hf Ht Ha Hr Htk] Hi Hd Hna. cbn [next_generation].
  set (c1 := mkCache _ _ _ _ _ _). set (gen := generation c).
  assert (Hwf1 : cache_wf c1) by done.
  destruct (regenerate c1 index e gen Hwf1 Hi Hd) as (Hwf2 & Hda2 & Hv2). set (c2 := set_entries c1 _) in *.
  set (e2 := set_generation gen e).
  assert (Hi2 : entries c2 !! index = Some e2) by (apply list_lookup_insert_eq; by eapply lookup_lt_Some).
  destruct (dirty_entry_ok _ _ (entry_ok_lookup _ _ _ Hwf Hi) Hd) as (Hne & Hv & Hs).
  assert (Hnf : flying (blocks (device c2) (e_lba e)) = false).
  { destruct (blocks (device c2) (e_lba e)) as [| |t b] eqn:E; [done|done|].
    by destruct (Hf _ _ _ E) as (_ & ? & _). }
  destruct (submit_law (device c2) (e_lba e) (e_data e) (proj1 Hwf) Hv Hs Hnf) as (d & r & E & Hdev & Ho & Hw).
  destruct (dirty_block_changes c2 d index e2 Hwf2 Hi2 Hd Hdev Ho) as [Hwf3 Hv3].
  set (c3 := set_device c2 d) in *.
  assert (Hview3 : ∀ a, valid_lba a → view c3 a = view c0 a).
  { intros a Hva. rewrite Hv3, Hv2 by done. by apply Hview. }
  assert (Hc3 : ∀ a, a ∈ e_lba e :: attempted → valid_lba a ∧ ∃ i e, entries c3 !! i = Some e ∧ e_lba e = a).
  { intros a [->|Hin]%elem_of_cons; [split; [done|]; by exists index, e2|]. destruct (Hc a Hin) as (Hva & j & e' & Hj & Hl). split; [done|].
    destruct (decide (j = index)) as [->|Hij]; [exists index, e2; split; [done|cbn; congruence]|].
    exists j, e'. split; [|done]. change (entries c3 !! j) with (<[index := e2]> (entries c1) !! j).
    by rewrite list_lookup_insert_ne. }
  assert (Hp3 : ∀ w, w ∈ pending → p_lba w ∈ attempted ∧ queued c3 w).
  { intros w Hw'. destruct (Hp w Hw') as (Hin & j & e' & Hj & Hl & Hg & Hd' & Hb). split; [done|].
    exists j, e'. assert (p_lba w ≠ e_lba e) by (intros E'; by rewrite E' in Hin).
    split; [|by rewrite Ho].
    change (entries c3 !! j) with (<[index := e2]> (entries c1) !! j). rewrite list_lookup_insert_ne; [done|].
    intros ->. congruence. }
  assert (Hda3 : ∀ a, valid_lba a → dirty_at (entries c3) a = dirty_at (entries c) a) by exact Hda2.
  assert (Hlba : dirty_at (entries c3) (e_lba e) = Some (e_data e)).
  { exact (dirty_at_some c3 index e2 Hwf3 Hi2 Hd). }
  assert (Htk3 : ∀ a, takes d a = takes (device c0) a).
  { intros a. rewrite <- Htk. by eapply (submit_takes (device c2)); [apply Hwf|..]. }
  exists d, r. split; [done|]. split; [done|]. by repeat (split; [done|]).
Qed.

(** One write handed to the device. *)
Lemma flushing_submit c0 c pending attempted failed index e :
  flushing c0 c pending attempted failed →
  entries c !! index = Some e → e_dirty e = true → e_lba e ∉ attempted →
  let '(c1, gen) := next_generation c in
  let c2 := set_entries c1 (<[index := set_generation gen e]> (entries c1)) in
  ∃ d r, submit_write (device c2) (e_lba e) (e_data e) = Ret (d, r) ∧
    match r with
    | Ok t => flushing c0 (set_device c2 d) (pending ++ [mkPending t (e_lba e) gen])
                (attempted ++ [e_lba e]) failed
    | Err _ => flushing c0 (set_device c2 d) pending attempted failed
    end.
Proof.
  intros Hfl Hi Hd Hna. pose proof (submit_keeps c0 c pending attempted failed index e Hfl Hi Hd Hna) as Hk.
  destruct Hfl as [Hwf Hview Hn Hc Hpn Hp Hf Ht Ha Hr Htk].
  destruct (next_generation c) as [c1 gen]. set (c2 := set_entries c1 _) in *.
  destruct Hk as (d & r & E & (Hwf3 & Hview3 & Htk3) & Hc3 & Hp3 & Hda3 & Hi3 & Hlba & Ho & Hnf & Hw).
  exists d, r. split; [done|]. set (c3 := set_device c2 d) in *.
  assert (Hf3 : ∀ a t b, a ≠ e_lba e → blocks d a = Flying t b →
    t ≠ DONE ∧ a ∈ attempted ∧ dirty_at (entries c3) a ≠ None).
  { intros a t b Hne' Eb. rewrite Ho in Eb by done. destruct (Hf a t b Eb) as (? & Hin & ?).
    split; [done|]. split; [done|]. rewrite Hda3; [done|]. by apply Hc. }
  assert (Hold : ∀ a t b, a ≠ e_lba e → blocks d a = Flying t b → blocks (device c) a = Flying t b).
  { intros a t b Hne' Eb. by rewrite Ho in Eb. }
  destruct r as [t|er].
  - split; [done|done| | | | | | | | |done].
    + apply NoDup_app. split; [done|]. split; [|apply NoDup_singleton].
      intros a Hin Hin'. apply list_elem_of_singleton in Hin' as ->. done.
    + intros a [Hin|Hin%list_elem_of_singleton]%elem_of_app; apply Hc3; [by right|subst a; by left].
    + rewrite map_app. apply NoDup_app. split; [done|]. split; [|apply NoDup_singleton].
      intros a (w & -> & Hw')%list_elem_of_fmap Hin'. apply list_elem_of_singleton in Hin'.
      destruct (Hp w Hw') as [Hin _]. cbn in Hin'. by rewrite Hin' in Hin.
    + intros w [Hin|Hin%list_elem_of_singleton]%elem_of_app.
      * destruct (Hp3 w Hin) as [Hin' Hq']. split; [apply elem_of_app; by left|done].
      * subst w. cbn. split; [apply elem_of_app; right; by apply list_elem_of_singleton|].
        eexists index, _. split; [done|]. split; [done|]. split; [done|]. split; [done|].
        destruct Hw as [[-> Hw]|(Hw1 & Hw2 & _)]; [by left|by right].
    + intros a t' b Eb. destruct (decide (a = e_lba e)) as [->|Hne'].
      * split; [|split; [apply elem_of_app; right; by apply list_elem_of_singleton|by rewrite Hlba]].
        cbn in Eb. destruct Hw as [[_ Hw]|(Hw1 & Hw2 & _)]; [congruence|]. rewrite Hw2 in Eb. congruence.
      * destruct (Hf3 a t' b Hne' Eb) as (? & ? & ?). split; [done|]. split; [apply elem_of_app; by left|done].
    + intros a a' t' b b' Ea Ea'. cbn in Ea, Ea'. destruct Hw as [[_ Hw]|(Hw1 & Hw2 & Hw3)].
      * eapply (Ht a a' t' b b'); apply Hold; congruence.
      * destruct (decide (a = e_lba e)) as [->|Hne1], (decide (a' = e_lba e)) as [->|Hne2]; [done| | |].
        -- exfalso. rewrite Hw2 in Ea. simplify_eq. eapply (Hw3 a' b'). by rewrite <- Ho.
        -- exfalso. rewrite Hw2 in Ea'. simplify_eq. eapply (Hw3 a b). by rewrite <- Ho.
        -- eapply (Ht a a' t' b b'); by apply Hold.
    + intros a t' b Hok Eb. rewrite map_app. apply elem_of_app.
      destruct (decide (a = e_lba e)) as [->|Hne']; [right; by apply list_elem_of_singleton|left].
      apply (Ha a t' b Hok). by apply Hold.
    + intros a Hok Hin Hnp. rewrite map_app in Hnp. apply not_elem_of_app in Hnp as [Hnp1 Hnp2].
      apply elem_of_app in Hin as [Hin|Hin%list_elem_of_singleton]; cycle 1.
      { exfalso. apply Hnp2, list_elem_of_singleton. done. }
      rewrite Hda3; [by apply Hr|]. by apply Hc.
  - assert (Hnf3 : ∀ a t b, blocks (device c3) a = Flying t b → a ≠ e_lba e).
    { intros a t b Eb ->. cbn in Eb, Hw. destruct Hw as [Hw|Hw]; rewrite Hw in Eb; [|done].
      by rewrite Eb in Hnf. }
    split; [done|done|done| |done|done| | | | |done].
    + intros a Hin. apply Hc3. by right.
    + intros a t b Eb. apply (Hf3 a t b); [by eapply Hnf3|done].
    + intros a a' t b b' Ea Ea'. eapply (Ht a a' t b b'); apply Hold; (done || by eapply Hnf3).
    + intros a t b Hok Eb. apply (Ha a t b Hok). apply Hold; [by eapply Hnf3|done].
    + intros a Hok Hin Hnp. rewrite Hda3; [by apply Hr|]. by apply Hc.
Qed.

Lemma flushing_fails c0 c pending attempted :
  flushing c0 c pending attempted false → flushing c0 c pending attempted true.
Proof. intros [Hwf Hview Hn Hc Hpn Hp Hf Ht Ha Hr Htk]. split; eauto; done. Qed.

(** The queue is filled: the device takes the writes up to its depth, or every
    selected block has been tried, or it refuses one. *)
Lemma submit_selected_ok select depth c0 fuel : ∀ c pending attempted,
  flushing c0 c pending attempted false →
  (length (entries c) < fuel + length attempted)%nat →
  ∃ c' pending' attempted' r,
    submit_selected fuel select depth c pending attempted = Ret (c', pending', attempted', r) ∧
    flushing c0 c' pending' attempted' (negb (is_ok r)) ∧
    length (entries c') = length (entries c) ∧
    (length attempted' + length pending = length attempted + length pending')%nat ∧
    (is_ok r = true → (depth ≤ length pending')%nat ∨
      ∀ e, e ∈ entries c' → selected select attempted' e = false).
Proof.
  induction fuel as [|fuel IH]; intros c pending attempted Hfl Hfuel.
  { pose proof (attempted_bound _ _ _ _ _ Hfl). lia. }
  cbn [submit_selected]. case_decide as Hdepth; cycle 1.
  { exists c, pending, attempted, (Ok ()). split; [done|]. repeat (split; [done|]). left. lia. }
  destruct (list_find _ (entries c)) as [[index e]|] eqn:El; cycle 1.
  { exists c, pending, attempted, (Ok ()). split; [done|]. repeat (split; [done|]). right. intros e He.
    apply list_find_None in El. rewrite Forall_forall in El. apply not_true_is_false. by apply El. }
  apply list_find_Some in El as (Hi & Hsel & _). unfold selected in Hsel.
  apply andb_prop in Hsel as [[Hd _]%andb_prop Hna%negb_true_iff%bool_decide_eq_false].
  pose proof (flushing_submit c0 c pending attempted false index e Hfl Hi Hd Hna) as Hs.
  pose proof (next_generation_same c) as [_ Ee]. destruct (next_generation c) as [c1 gen]. cbn [fst] in Ee.
  destruct Hs as (d & r & E & Hs). rewrite E. cbn [mbind outcome_bind].
  assert (Hlen : length (<[index := set_generation gen e]> (entries c1)) = length (entries c)).
  { by rewrite length_insert, Ee. }
  destruct r as [t|er].
  - destruct (IH _ _ _ Hs) as (c' & p' & a' & r' & E' & Hfl' & Hlen' & Hcount & Hdone).
    { rewrite length_app. cbn [set_device set_entries entries length]. lia. }
    exists c', p', a', r'. split; [exact E'|]. split; [done|].
    split; [rewrite Hlen'; exact Hlen|]. split; [rewrite !length_app in Hcount; cbn [length] in Hcount; lia|done].
  - eexists _, pending, attempted, (Err er). split; [reflexivity|]. split; [by apply flushing_fails|].
    split; [exact Hlen|]. by split.
Qed.

(** ** Answers *)

Lemma settle_elsewhere c0 c w pending attempted failed ok a :
  flushing c0 c (w :: pending) attempted failed → a ≠ p_lba w →
  settle (p_ticket w) ok (blocks (device c) a) = blocks (device c) a.
Proof.
  intros Hfl Hne. destruct (blocks (device c) a) as [| |t b] eqn:Eb; [done|done|]. cbn.
  destruct (Z.eqb_spec (p_ticket w) t) as [<-|]; [exfalso|done].
  destruct (fl_pending _ _ _ _ _ Hfl w) as [_ (i & e & _ & _ & _ & _ & [[Hd _]|[_ Hb]])]; [by left| |].
  - by destruct (fl_flying _ _ _ _ _ Hfl _ _ _ Eb).
  - by apply Hne, (fl_ticket _ _ _ _ _ Hfl _ _ _ _ _ Eb Hb).
Qed.

(** The write at the head of the queue is answered: the rest stays queued. *)
Lemma flushing_answered c0 c d w pending attempted failed :
  flushing c0 c (w :: pending) attempted failed → dev_ok d → (∀ a, takes d a = takes (device c) a) →
  (∀ a, a ≠ p_lba w → blocks d a = blocks (device c) a) →
  (∀ t b, blocks d (p_lba w) = Flying t b → blocks (device c) (p_lba w) = Flying t b ∧ ¬ prompt) →
  flushing c0 (set_device c d) pending attempted true.
Proof.
  intros Hfl Hdev Htk' Ho Hw. destruct (fl_pending _ _ _ _ _ Hfl w) as [_ (i & e & Hi & Hl & _ & Hd & _)]; [by left|].
  rewrite <- Hl in Ho. destruct (dirty_block_changes c d i e (fl_wf _ _ _ _ _ Hfl) Hi Hd Hdev Ho) as [Hwf' Hv'].
  rewrite Hl in Ho. destruct Hfl as [Hwf Hview Hn Hc Hpn Hp Hf Ht Ha Hr Htk].
  assert (Hold : ∀ a t b, blocks d a = Flying t b → blocks (device c) a = Flying t b).
  { intros a t b Eb. destruct (decide (a = p_lba w)) as [->|Hne]; [by apply Hw|]. by rewrite <- Ho. }
  cbn in Hpn. apply NoDup_cons in Hpn as [Hnw Hpn].
  split; [done| |done|done|done| | | | |done|intros a; cbn; by rewrite Htk'].
  - intros a Hva. rewrite Hv' by done. by apply Hview.
  - intros w' Hin. destruct (Hp w') as [? (j & e' & Hj & Hl' & Hg & Hd' & Hb)]; [by right|].
    split; [done|]. exists j, e'. cbn [set_device device]. rewrite Ho; [done|].
    intros E. apply Hnw. rewrite <- E. apply list_elem_of_fmap. by exists w'.
  - intros a t b Eb. by apply (Hf a t b), Hold.
  - intros a a' t b b' Ea Ea'. by eapply (Ht a a' t b b'); apply Hold.
  - intros a t b [|Hpr] Eb; [done|]. pose proof (Ha a t b (or_intror Hpr) (Hold _ _ _ Eb)) as Hin.
    cbn in Hin. apply elem_of_cons in Hin as [->|?]; [|done]. by destruct (Hw t b Eb).
Qed.

(** The entry of a write that reached the device is clean. *)
Lemma flushing_retire c0 c w pending attempted failed i e :
  flushing c0 c pending attempted true → p_lba w ∉ map p_lba pending →
  entries c !! i = Some e → e_lba e = p_lba w → e_dirty e = true →
  blocks (device c) (p_lba w) = Stable (e_data e) →
  (∀ a t b, failed = false ∨ prompt → blocks (device c) a = Flying t b → a ∈ map p_lba pending) →
  (∀ a, failed = false → a ∈ attempted → a ≠ p_lba w → a ∉ map p_lba pending → dirty_at (entries c) a = None) →
  flushing c0 (set_entries c (<[i := set_clean e]> (entries c))) pending attempted failed.
Proof.
  intros [Hwf Hview Hn Hc Hpn Hp Hf Ht _ _ Htk] Hnw Hi Hl Hd Hb Ha Hr.
  destruct (dirty_entry_ok _ _ (entry_ok_lookup _ _ _ Hwf Hi) Hd) as (Hne & Hv & [Hs _]).
  assert (Had : admissible (entries c) e (set_clean e)) by by right; left.
  assert (Hda : ∀ a, valid_lba a → dirty_at (<[i := set_clean e]> (entries c)) a =
    if decide (a = p_lba w) then None else dirty_at (entries c) a).
  { intros a Hva. unfold valid_lba in Hva. erewrite dirty_at_insert; [|apply Hwf|done|done|lia].
    cbn [set_clean e_lba]. rewrite Hl. by repeat case_decide. }
  split; [| |done| |done| | |done|done| |done].
  - eapply wf_set_slot; [done..|]. unfold entry_ok. change (is_empty (set_clean e)) with (is_empty e). rewrite Hne.
    split; [done|]. split; [done|]. cbn. intros b Eb. rewrite Hl in Eb. congruence.
  - intros a Hva. rewrite <- Hview by done. unfold view. cbn [set_entries entries device]. rewrite Hda by done.
    case_decide as E; [|done]. subst a. rewrite <- Hl at 2. rewrite (dirty_at_some c i e) by done. by rewrite Hb.
  - intros a Hin. destruct (Hc a Hin) as (Hva & j & e' & Hj & Hl'). split; [done|].
    destruct (decide (j = i)) as [->|Hij]; cbn [set_entries entries].
    + exists i, (set_clean e). split; [apply list_lookup_insert_eq; by eapply lookup_lt_Some|cbn; congruence].
    + exists j, e'. by rewrite list_lookup_insert_ne.
  - intros w' Hin. destruct (Hp w' Hin) as [? (j & e' & Hj & Hl' & Hg & Hd' & Hb')]. split; [done|].
    exists j, e'. cbn [set_entries entries device]. rewrite list_lookup_insert_ne; [done|]. intros ->.
    apply Hnw, list_elem_of_fmap. exists w'. split; [congruence|done].
  - intros a t b Eb. destruct (Hf a t b Eb) as (? & Hin & ?). split; [done|]. split; [done|].
    cbn [set_entries entries]. rewrite Hda by by apply Hc. case_decide; [|done]. subst a. cbn in Eb. congruence.
  - intros a Hok Hin Hnp. cbn [set_entries entries]. rewrite Hda by by apply Hc. case_decide; [done|]. by apply Hr.
Qed.

(** [retire_write] finds the entry its write was of. *)
Lemma retire_write_queued c w i e : cache_wf c → entries c !! i = Some e →
  e_lba e = p_lba w → e_generation e = p_generation w → e_dirty e = true →
  retire_write c w = (set_entries c (<[i := set_clean e]> (entries c)), true).
Proof.
  intros Hwf Hi Hl Hg Hd. unfold retire_write.
  destruct (dirty_entry_ok _ _ (entry_ok_lookup _ _ _ Hwf Hi) Hd) as (Hne & _ & _).
  destruct (list_find _ (entries c)) as [[j e']|] eqn:El; cycle 1.
  { apply list_find_None in El. exfalso. rewrite Forall_forall in El.
    eapply El; [by eapply list_elem_of_lookup_2|by split]. }
  apply list_find_Some in El as (Hj & [Hl' _] & _). destruct Hwf as (_ & _ & _ & Hu).
  assert (i = j) as <- by (eapply (Hu i j); eauto; congruence). simplify_eq. by rewrite Hd.
Qed.

(** One round: the head of the queue is waited for, and retired when it succeeded. *)
Lemma flushing_wait c0 c w pending attempted failed :
  flushing c0 c (w :: pending) attempted failed →
  ∃ d r, wait_for_write c (p_ticket w) = Ret (set_device c d, r) ∧
    match r with
    | Ok _ => ∃ i e, retire_write (set_device c d) w =
        (set_entries (set_device c d) (<[i := set_clean e]> (entries c)), true) ∧
        flushing c0 (set_entries (set_device c d) (<[i := set_clean e]> (entries c))) pending attempted failed
    | Err _ => flushing c0 (set_device c d) pending attempted true
    end.
Proof.
  intros Hfl. destruct (wait_for_write_ok c (p_ticket w)) as (d & r & E & Hdev & Htk & Hb & Hpr).
  { apply (fl_wf _ _ _ _ _ Hfl). }
  exists d, r. split; [exact E|].
  assert (Ho : ∀ a, a ≠ p_lba w → blocks d a = blocks (device c) a).
  { intros a Hne. destruct Hb as [Hb|[_ Hb]]; rewrite Hb; [|done]. by eapply settle_elsewhere. }
  destruct (fl_pending _ _ _ _ _ Hfl w) as [Hin (i & e & Hi & Hl & Hg & Hd & Hst)]; [by left|].
  assert (Hw : ∀ t b, blocks d (p_lba w) = Flying t b → blocks (device c) (p_lba w) = Flying t b ∧ ¬ prompt).
  { intros t b Eb. destruct Hst as [[_ Hs]|[_ Hs]].
    - destruct Hb as [Hb|[_ Hb]]; rewrite Hb, Hs in Eb; done.
    - destruct Hb as [Hb|[_ Hb]]; rewrite Hb, Hs in Eb; cbn in Eb.
      { rewrite Z.eqb_refl in Eb. by destruct (is_ok r). }
      rewrite Hs. split; [done|]. intros Hp. eapply (Hpr Hp (p_lba w)). rewrite Hb. exact Hs. }
  pose proof (flushing_answered _ _ _ _ _ _ _ Hfl Hdev Htk Ho Hw) as Hfl'.
  destruct r as [[]|er]; [|done]. exists i, e.
  split; [exact (retire_write_queued (set_device c d) w i e (fl_wf _ _ _ _ _ Hfl') Hi Hl Hg Hd)|].
  assert (Hst' : blocks d (p_lba w) = Stable (e_data e)).
  { destruct Hb as [Hb|[? _]]; [|done]. rewrite Hb. destruct Hst as [[_ ->]|[_ ->]]; [done|].
    cbn. by rewrite Z.eqb_refl. }
  pose proof (fl_pending_nodup _ _ _ _ _ Hfl) as [Hnw _]%NoDup_cons.
  eapply (flushing_retire c0 (set_device c d) w); try done.
  - intros a t b Hok Eb. cbn in Eb. destruct (decide (a = p_lba w)) as [->|Hne]; [congruence|].
    rewrite Ho in Eb by done. pose proof (fl_answered _ _ _ _ _ Hfl _ _ _ Hok Eb) as Hin'.
    by apply elem_of_cons in Hin' as [?|?].
  - intros a Hok Hin' Hne Hnp. apply (fl_retired _ _ _ _ _ Hfl); [done|done|].
    by intros [?|?]%elem_of_cons.
Qed.

Definition failing (failure : option Error) : bool :=
  match failure with Some _ => true | None => false end.

Lemma top_up_ok select depth c0 c pending attempted failure : (0 < depth)%nat →
  flushing c0 c pending attempted (failing failure) →
  ∃ c1 p1 a1 f1, top_up select depth c pending attempted failure = Ret (c1, p1, a1, f1) ∧
    flushing c0 c1 p1 a1 (failing f1) ∧ length (entries c1) = length (entries c) ∧
    (length a1 + length pending = length attempted + length p1)%nat ∧
    (f1 = None → p1 = [] → ∀ e, e ∈ entries c1 → selected select a1 e = false).
Proof.
  intros Hdepth Hfl. destruct failure as [er|]; [by exists c, pending, attempted, (Some er)|].
  destruct (submit_selected_ok select depth c0 (S (length (entries c))) c pending attempted Hfl)
    as (c' & p' & a' & r & E & Hfl' & Hlen & Hcount & Hsel); [lia|].
  unfold top_up. rewrite E. exists c', p', a'. cbn [mbind outcome_bind]. eexists. split; [done|].
  split; [by destruct r|]. split; [done|]. split; [done|]. destruct r; [|done]. intros _ ->.
  destruct (Hsel eq_refl) as [Hle|?]; [cbn in Hle; lia|done].
Qed.

Lemma flush_loop_ok select depth c0 fuel : (0 < depth)%nat → ∀ c pending attempted flushed failure,
  flushing c0 c pending attempted (failing failure) →
  (length (entries c) + length pending < fuel + length attempted)%nat →
  ∃ c' attempted' r, flush_loop fuel select depth c pending attempted flushed failure = Ret (c', r) ∧
    flushing c0 c' [] attempted' (negb (is_ok r)) ∧
    (is_ok r = true → ∀ e, e ∈ entries c' → selected select attempted' e = false).
Proof.
  intros Hdepth. induction fuel as [|fuel IH]; intros c pending attempted flushed failure Hfl Hfuel.
  { pose proof (attempted_bound _ _ _ _ _ Hfl). lia. }
  destruct (top_up_ok select depth c0 c pending attempted failure Hdepth Hfl)
    as (c1 & p1 & a1 & f1 & E1 & Hfl1 & Hlen & Hcount & Hsel).
  unfold flush_loop; fold (@flush_loop D _).
  rewrite E1. cbn [mbind outcome_bind]. destruct p1 as [|w p1].
  { exists c1, a1. eexists. split; [done|]. destruct f1 as [er|]; [done|]. split; [done|]. intros _. by apply Hsel. }
  destruct (flushing_wait _ _ _ _ _ _ Hfl1) as (d & r & E & Hr). rewrite E. cbn [mbind outcome_bind].
  cbn [length] in Hcount. destruct r as [u|er].
  - destruct Hr as (i & e & Er & Hr). rewrite Er. apply IH; [done|].
    cbn [set_entries entries]. rewrite length_insert. lia.
  - apply IH; [by destruct f1|]. cbn [set_device entries]. lia.
Qed.

(** ** The flush *)

(** What a flush answers: it always returns, the cache holds what it held,
    nothing is left in flight unless the device let a write time out, and a
    success leaves no selected block dirty. *)
Lemma flush_selected_ok c select : cache_ok c →
  ∃ c' r, flush_selected c select = Ret (c', r) ∧ cache_wf c' ∧
    (∀ a, valid_lba a → view c' a = view c a) ∧ (∀ a, takes (device c') a = takes (device c) a) ∧
    (is_ok r = true ∨ prompt → quiet (device c')) ∧
    (is_ok r = true → ∀ e, e ∈ entries c' → e_dirty e = true → select e = false).
Proof.
  intros Hok. unfold flush_selected. set (depth := Z.to_nat _).
  destruct (flush_loop_ok select depth c (length (entries c) + 2)) with (c := c) (pending := @nil PendingWrite)
    (attempted := @nil Z) (flushed := 0%nat) (failure := @None Error) as (c' & a' & r & E & Hfl & Hsel).
  - lia.
  - by apply flushing_start.
  - cbn [length]. lia.
  - exists c', r. split; [exact E|]. split; [apply (fl_wf _ _ _ _ _ Hfl)|].
    split; [apply (fl_view _ _ _ _ _ Hfl)|]. split; [apply (fl_takes _ _ _ _ _ Hfl)|]. split.
    + intros Ho a. destruct (blocks (device c') a) as [| |t b] eqn:Eb; [done|done|exfalso].
      assert (Hin : a ∈ map p_lba []); [|by apply elem_of_nil in Hin].
      apply (fl_answered _ _ _ _ _ Hfl a t b); [|done]. destruct Ho as [->|?]; [by left|by right].
    + intros Ho e He Hd. specialize (Hsel Ho e He). unfold selected in Hsel. rewrite Hd in Hsel. cbn in Hsel.
      destruct (select e); [|done]. exfalso. cbn in Hsel. apply negb_false_iff, bool_decide_eq_true in Hsel.
      apply list_elem_of_lookup in He as [i Hi].
      assert (Hdn : dirty_at (entries c') (e_lba e) = None).
      { apply (fl_retired _ _ _ _ _ Hfl); [by rewrite Ho|done|]. apply not_elem_of_nil. }
      by rewrite (dirty_at_some c' i e (fl_wf _ _ _ _ _ Hfl) Hi Hd) in Hdn.
Qed.
End Flush.
