(* ===== verification/BlockCacheTheorems.v ===== *)
(** * The block cache is transparent

    A cache in front of a device answers as the device would: whatever sequence
    of reads, writes, prefetches, flushes and invalidations runs, a read returns
    the last content written, unless the device refused a write of that block.  A
    flush that succeeds leaves the device with all of it.  Two theorems show where
    the cache gives that up: a dirty block that is evicted is dropped when its
    write fails, and read-ahead makes the last block of a device unreadable. *)

From stdpp Require Import base tactics decidable numbers list.
From Stdlib Require Import ZArith Lia Bool.
From S2P Require Import Prelude Bytes AesModes BlockDevice CryptDevice BlockCache BlockCacheInv BlockCacheOps BlockCacheFlush.

(** ** Sequences of operations *)

Inductive cache_op :=
| ReadCached (lba : Z)
| WriteBack (now lba : Z) (data : bytes)
| WriteThrough (lba : Z) (data : bytes)
| Prefetch (start : Z) (count : nat)
| Flush
| FlushAged (now age : Z)
| FlushRange (start count : Z)
| FlushUnderPressure
| Invalidate (lba : Z)
| InvalidateRange (start count : Z).

Inductive answer :=
| Data (r : result bytes)
| Status (r : result unit)
| Nothing.

Definition status {A} (r : result A) : answer := Status (match r with Ok _ => Ok () | Err e => Err e end).

(** Requests within the 64-bit block numbers, of whole blocks. *)
Definition op_ok (op : cache_op) : Prop :=
  match op with
  | ReadCached lba => 0 ≤ lba ∧ lba + 5 ≤ EMPTY_LBA
  | WriteBack _ lba data | WriteThrough lba data => valid_lba lba ∧ is_sector data
  | Prefetch start count => 0 ≤ start ∧ start + Z.of_nat count ≤ EMPTY_LBA
  | Invalidate lba => valid_lba lba
  | InvalidateRange start count => 0 ≤ start ∧ 0 ≤ count
  | Flush | FlushAged _ _ | FlushRange _ _ | FlushUnderPressure => True
  end.

#[global] Instance op_ok_dec op : Decision (op_ok op).
Proof. destruct op; cbn [op_ok]; unfold valid_lba; apply _. Defined.

Section Run.
Context {D : Type} `{BlockDevice D}.

Definition step (c : BlockCache D) (op : cache_op) : outcome (BlockCache D * answer) :=
  match op with
  | ReadCached lba => '(c, r) ← read_cached c lba BLOCK_SIZE; Ret (c, Data r)
  | WriteBack now lba data => '(c, r) ← write_back c now lba data; Ret (c, Status r)
  | WriteThrough lba data => '(c, r) ← write_through c lba data; Ret (c, Status r)
  | Prefetch start count => c ← prefetch c start count; Ret (c, Nothing)
  | Flush => '(c, r) ← flush c; Ret (c, Status r)
  | FlushAged now age => '(c, r) ← flush_aged c now age; Ret (c, status r)
  | FlushRange start count => '(c, r) ← flush_range c start count; Ret (c, Status r)
  | FlushUnderPressure => c ← flush_if_under_pressure c; Ret (c, Nothing)
  | Invalidate lba => Ret (invalidate c lba, Nothing)
  | InvalidateRange start count => Ret (invalidate_range c start count, Nothing)
  end.

Fixpoint run (c : BlockCache D) (ops : list cache_op) : outcome (BlockCache D * list answer) :=
  match ops with
  | [] => Ret (c, [])
  | op :: ops =>
      '(c, a) ← step c op;
      '(c, answers) ← run c ops;
      Ret (c, a :: answers)
  end.
End Run.

(** ** What the answers must be *)

(** The content of the disk after an operation; [None] where a refused write or an
    invalidation leaves it open. *)
Definition after (m : Z → option bytes) (op : cache_op) (a : answer) : Z → option bytes :=
  match op, a with
  | WriteBack _ lba data, _ => λ x, if decide (x = lba) then Some data else m x
  | WriteThrough lba data, Status (Ok _) => λ x, if decide (x = lba) then Some data else m x
  | WriteThrough lba _, _ => λ x, if decide (x = lba) then None else m x
  | Invalidate lba, _ => λ x, if decide (x = lba) then None else m x
  | InvalidateRange start count, _ => λ x, if decide (start ≤ x < start + count) then None else m x
  | _, _ => m
  end.

(** A read answers the content of its block, where the device takes writes; a
    write-back is accepted, and so is a write the device takes. *)
Definition right_answer (taken : Z → bool) (m : Z → option bytes) (op : cache_op) (a : answer) : Prop :=
  match op, a with
  | ReadCached lba, Data (Ok data) => taken lba = true → ∀ b, m lba = Some b → data = b
  | ReadCached _, Data (Err _) => True
  | WriteBack _ _ _, Status r => r = Ok ()
  | WriteThrough lba _, Status r => taken lba = true → r = Ok ()
  | Prefetch _ _, Nothing | FlushUnderPressure, Nothing
  | Invalidate _, Nothing | InvalidateRange _ _, Nothing => True
  | Flush, Status _ | FlushAged _ _, Status _ | FlushRange _ _, Status _ => True
  | _, _ => False
  end.

Fixpoint right_answers (taken : Z → bool) (m : Z → option bytes) (ops : list cache_op) (answers : list answer) : Prop :=
  match ops, answers with
  | [], [] => True
  | op :: ops, a :: answers => right_answer taken m op a ∧ right_answers taken (after m op a) ops answers
  | _, _ => False
  end.

Fixpoint finally (m : Z → option bytes) (ops : list cache_op) (answers : list answer) : Z → option bytes :=
  match ops, answers with
  | op :: ops, a :: answers => finally (after m op a) ops answers
  | _, _ => m
  end.

Section Transparent.
Context {D : Type} `{BlockContract D}.

(** ** Flushes *)

Record flushed (c c' : BlockCache D) (ok : bool) (select : CacheEntry → bool) : Prop := {
  fd_wf : cache_wf c';
  fd_view a : valid_lba a → view c' a = view c a;
  fd_takes a : takes (device c') a = takes (device c) a;
  fd_quiet : ok = true ∨ prompt (D := D) → quiet (device c');
  fd_clean e : ok = true → e ∈ entries c' → e_dirty e = true → select e = false;
}.

Lemma flushed_same c c' c'' ok select : same_blocks c' c'' → flushed c c' ok select → flushed c c'' ok select.
Proof.
  intros Hs [Hwf Hv Ht Hq Hc]. pose proof Hs as [Ed Ee]. split.
  - unfold cache_wf. by rewrite Ed, Ee.
  - intros a Ha. rewrite (same_blocks_view c') by done. by apply Hv.
  - by rewrite Ed.
  - by rewrite Ed.
  - by rewrite Ee.
Qed.

Lemma flush_selected_flushed c select : cache_ok c →
  ∃ c' r, flush_selected c select = Ret (c', r) ∧ flushed c c' (is_ok r) select.
Proof.
  intros Hok. destruct (flush_selected_ok c select Hok) as (c' & r & E & Hwf & Hv & Ht & Hq & Hc).
  exists c', r. split; [done|]. split; auto.
Qed.

Lemma flush_flushed c : cache_ok c →
  ∃ c' r, flush c = Ret (c', r) ∧ flushed c c' (is_ok r) (λ _, true).
Proof.
  intros Hok. destruct (flush_selected_flushed c (λ _, true) Hok) as (c' & r & E & Hf).
  unfold flush. rewrite E. cbn [mbind outcome_bind]. destruct r as [n|er]; eexists _, _; (split; [done|]); [|done].
  apply (flushed_same c c'); [by case_decide|done].
Qed.

Lemma flush_aged_flushed c now age : cache_ok c →
  ∃ c' r, flush_aged c now age = Ret (c', r) ∧
    flushed c c' (is_ok r) (λ e, age <=? wrapping_sub now (e_dirty_since e)).
Proof.
  intros Hok. unfold flush_aged. set (select := λ e : CacheEntry, _ : bool).
  destruct (flush_selected_flushed c select Hok) as (c' & r & E & Hf). rewrite E. cbn [mbind outcome_bind].
  destruct r as [n|er]; eexists _, _; (split; [done|]); [|done].
  apply (flushed_same c c'); [by case_decide|done].
Qed.

Lemma flush_range_flushed c start count : cache_ok c →
  ∃ c' r, flush_range c start count = Ret (c', r) ∧
    flushed c c' (is_ok r) (λ e, (start <=? e_lba e) && (e_lba e <? saturating_add start count)).
Proof.
  intros Hok. unfold flush_range. cbv zeta. set (select := λ e : CacheEntry, _ : bool).
  destruct (flush_selected_flushed c select Hok) as (c' & r & E & Hf). rewrite E. cbn [mbind outcome_bind].
  destruct r as [n|er]; eexists _, _; (split; [done|]); [|done].
  apply (flushed_same c c'); [by case_decide|done].
Qed.

(** ** One operation *)

(** The cache holds the content of every block the device takes writes of. *)
Definition mirrors (c : BlockCache D) (m : Z → option bytes) : Prop :=
  ∀ a b, valid_lba a → takes (device c) a = true → m a = Some b → view c a = Some b.

(** What each step gives. *)
Record stepped (c c' : BlockCache D) (m : Z → option bytes) (op : cache_op) (a : answer) : Prop := {
  st_ok : cache_ok c';
  st_takes x : takes (device c') x = takes (device c) x;
  st_right : right_answer (takes (device c)) m op a;
  st_mirrors : mirrors c' (after m op a);
}.

Lemma mirrors_kept c c' m : kept c c' → mirrors c m → mirrors c' m.
Proof.
  intros [_ Ht Hv] Hm a b Ha Hta Eb. rewrite Ht in Hta.
  destruct (Hv a Ha) as [E|E]; [|congruence]. rewrite E. by apply Hm.
Qed.

Lemma kept_flushed c c' ok select : prompt (D := D) → flushed c c' ok select → kept c c'.
Proof.
  intros Hp [Hwf Hv Ht Hq _]. split; [split; [done|apply Hq; by right]|done|]. intros a Ha. left. by apply Hv.
Qed.

Lemma stepped_kept c c' m op a : kept c c' → mirrors c m → after m op a = m →
  right_answer (takes (device c)) m op a → stepped c c' m op a.
Proof.
  intros Hk Hm Ea Hr. split; [apply Hk|apply Hk|done|]. rewrite Ea. by eapply mirrors_kept.
Qed.

Lemma step_read c m lba : cache_ok c → mirrors c m → op_ok (ReadCached lba) →
  ∃ c' a, step c (ReadCached lba) = Ret (c', a) ∧ stepped c c' m (ReadCached lba) a.
Proof.
  intros Hok Hm [Hlo Hhi]. destruct (read_cached_ok c lba Hok Hlo Hhi) as (c' & r & E & Hk & Hr).
  cbn [step]. rewrite E. cbn [mbind outcome_bind]. eexists _, _. split; [done|]. apply stepped_kept; [done|done|done|].
  destruct r as [data|er]; [|done]. intros Ht b Eb. apply (Hr data b eq_refl). apply Hm; [unfold valid_lba; lia|done|done].
Qed.

Lemma step_write_back c m now lba data : cache_ok c → mirrors c m → op_ok (WriteBack now lba data) →
  ∃ c' a, step c (WriteBack now lba data) = Ret (c', a) ∧ stepped c c' m (WriteBack now lba data) a.
Proof.
  intros Hok Hm [Hv Hs]. destruct (write_back_ok c now lba data Hok Hv Hs) as (c' & E & Hok' & Hl & _ & Ht & Ho).
  cbn [step]. rewrite E. cbn [mbind outcome_bind]. eexists _, _. split; [done|]. split; [done|done|done|].
  intros a b Ha Hta Eb. cbn in Eb. rewrite Ht in Hta. case_decide; [subst a; congruence|].
  destruct (Ho a) as [E'|?]; [done|done| |congruence]. rewrite E'. by apply Hm.
Qed.

Lemma step_write_through c m lba data : cache_ok c → mirrors c m → op_ok (WriteThrough lba data) →
  ∃ c' a, step c (WriteThrough lba data) = Ret (c', a) ∧ stepped c c' m (WriteThrough lba data) a.
Proof.
  intros Hok Hm [Hv Hs]. destruct (write_through_ok c lba data Hok Hv Hs) as (c' & r & E & Hok' & Ht & Ho & Hl).
  cbn [step]. rewrite E. cbn [mbind outcome_bind]. eexists _, _. split; [done|]. split; [done|done| |].
  - destruct r as [[]|er]; cbn; [done|]. destruct Hl as [_ Hl]. by rewrite Hl.
  - intros a b Ha Hta Eb. rewrite Ht in Hta. destruct (decide (a = lba)) as [->|Hne].
    + destruct r as [u|er]; cbn in Eb; rewrite decide_True in Eb by done; congruence.
    + rewrite Ho by done. apply Hm; [done|done|]. destruct r; cbn in Eb; by rewrite decide_False in Eb.
Qed.

Lemma step_invalidate c m lba : cache_ok c → mirrors c m → op_ok (Invalidate lba) →
  ∃ c' a, step c (Invalidate lba) = Ret (c', a) ∧ stepped c c' m (Invalidate lba) a.
Proof.
  intros Hok Hm Hv. destruct (invalidate_ok c lba Hok Hv) as (Hok' & Hdev & _ & _ & Ho).
  eexists _, _. split; [done|]. split; [done|by rewrite Hdev|done|].
  intros a b Ha Hta Eb. rewrite Hdev in Hta. cbn in Eb. case_decide; [done|]. rewrite Ho by done. by apply Hm.
Qed.

Lemma step_invalidate_range c m start count : cache_ok c → mirrors c m → op_ok (InvalidateRange start count) →
  ∃ c' a, step c (InvalidateRange start count) = Ret (c', a) ∧ stepped c c' m (InvalidateRange start count) a.
Proof.
  intros Hok Hm [Hs Hn]. destruct (invalidate_range_ok c start count Hok Hs Hn) as (Hok' & Hdev & Ho).
  eexists _, _. split; [done|]. split; [done|by rewrite Hdev|done|].
  intros a b Ha Hta Eb. rewrite Hdev in Hta. cbn in Eb. rewrite Ho by done.
  destruct (decide (start ≤ a < start + count)); [done|]. by apply Hm.
Qed.

Lemma cache_step_ok c m op : prompt (D := D) → cache_ok c → mirrors c m → op_ok op →
  ∃ c' a, step c op = Ret (c', a) ∧ stepped c c' m op a.
Proof.
  intros Hp Hok Hm Hop. destruct op as [| | |start n| |now age|start n| | |]; cbn [step].
  - by apply step_read.
  - by apply step_write_back.
  - by apply step_write_through.
  - destruct Hop as [Hlo Hhi]. destruct (prefetch_ok c start n Hok Hlo Hhi) as (c' & -> & Hk).
    eexists _, _. split; [done|]. by apply stepped_kept.
  - destruct (flush_flushed c Hok) as (c' & r & -> & Hf). eexists _, _. split; [done|].
    apply stepped_kept; try done. by eapply kept_flushed.
  - destruct (flush_aged_flushed c now age Hok) as (c' & r & -> & Hf). eexists _, _. split; [done|].
    apply stepped_kept; try done. by eapply kept_flushed.
  - destruct (flush_range_flushed c start n Hok) as (c' & r & -> & Hf). eexists _, _. split; [done|].
    apply stepped_kept; try done. by eapply kept_flushed.
  - unfold flush_if_under_pressure. destruct (write_back_under_pressure c); cycle 1.
    { eexists _, _. split; [done|]. apply stepped_kept; try done. by apply kept_refl. }
    destruct (flush_flushed c Hok) as (c' & r & -> & Hf). eexists _, _. split; [done|].
    apply stepped_kept; try done. apply (kept_same c c'); [done|]. by eapply kept_flushed.
  - by apply step_invalidate.
  - by apply step_invalidate_range.
Qed.

Lemma run_ok_from ops c m : prompt (D := D) → cache_ok c → mirrors c m → Forall op_ok ops →
  ∃ c' answers, run c ops = Ret (c', answers) ∧ cache_ok c' ∧
    (∀ x, takes (device c') x = takes (device c) x) ∧
    right_answers (takes (device c)) m ops answers ∧ mirrors c' (finally m ops answers).
Proof.
  intros Hp. revert c m. induction ops as [|op ops IH]; intros c m Hok Hm Hops; [by exists c, []|].
  apply Forall_cons_1 in Hops as [Hop Hops]. destruct (cache_step_ok c m op Hp Hok Hm Hop) as (c1 & a & E & [H1 H2 H3 H4]).
  destruct (IH c1 _ H1 H4 Hops) as (c2 & answers & E2 & Hok2 & Ht2 & Hr2 & Hm2).
  cbn [run]. rewrite E. cbn [mbind outcome_bind]. rewrite E2. cbn [mbind outcome_bind].
  exists c2, (a :: answers). split; [done|]. split; [done|]. split; [intros x; by rewrite Ht2|]. split; [|done].
  split; [done|]. revert Hr2. clear -H2. generalize (after m op a). revert answers.
  induction ops as [|op' ops IH]; intros [|a' answers] m'; try done. cbn [right_answers]. intros [Hr Hrs].
  split; [|by apply IH]. revert Hr. destruct op'; cbn; try done; by rewrite H2.
Qed.

(** ** A new cache *)

Lemma new_cache_ok (d : D) depth : dev_ok d → quiet d → cache_ok (with_read_ahead d depth).
Proof.
  intros Hd Hq. split; [|done]. split; [done|]. split; [apply length_replicate|]. cbn [with_read_ahead entries device].
  split; [by apply Forall_replicate|]. intros i j e1 e2 Hi _ _ Hne. apply lookup_replicate in Hi as [-> _]. done.
Qed.

Lemma new_cache_view (d : D) depth a : valid_lba a → view (with_read_ahead d depth) a = stable (blocks d a).
Proof.
  intros Ha. apply absent_view. apply list_find_None, Forall_replicate. cbn. unfold valid_lba in Ha. lia.
Qed.

(** A device that never leaves a write in flight answers in time. *)
Lemma quiet_is_prompt : (∀ d : D, dev_ok d → quiet d) → prompt (D := D).
Proof.
  intros Hq c t c' r a b Hd E. destruct (wait_for_write_ok c t Hd) as (d & r' & E' & Hd' & _).
  rewrite E' in E. simplify_eq. intros Eb. specialize (Hq d Hd' a). cbn in Eb. by rewrite Eb in Hq.
Qed.

(** The cache stays well formed.  Over any device that keeps the block-device
    contract and answers its queue, every sequence of operations on a new cache runs
    to its end without a panic, and leaves [CACHE_CAPACITY] slots with no block in
    two of them, every clean slot equal to what the device holds, every dirty slot a
    whole block with a valid number, and nothing in flight. *)
Theorem block_cache_stays_well_formed (d : D) depth ops :
  dev_ok d → quiet d → prompt (D := D) → Forall op_ok ops →
  ∃ c answers, run (with_read_ahead d depth) ops = Ret (c, answers) ∧
    length answers = length ops ∧ cache_wf c ∧ quiet (device c).
Proof.
  intros Hd Hq Hp Hops. pose proof (new_cache_ok d depth Hd Hq) as Hok.
  destruct (run_ok_from ops _ (λ _, None) Hp Hok) as (c & answers & E & [Hwf Hq'] & _ & Hr & _); [done|done|].
  exists c, answers. split; [done|]. split; [|done]. clear -Hr. revert Hr. generalize (λ _ : Z, @None bytes).
  revert answers. induction ops as [|op ops IH]; intros [|a answers] m Hr; try done. cbn. f_equal. by eapply IH, Hr.
Qed.


(** C30. A flush is durable, and loses nothing when it fails.  It always returns.
    When it succeeds no block is dirty, no write is in flight, and the device holds
    every block as the cache showed it; when it fails, by a refused or unanswered
    write, the cache still shows every block as before. *)
Theorem flush_durable (c : BlockCache D) : cache_ok c →
  match flush c with
  | Ret (c', Ok _) => cache_wf c' ∧ quiet (device c') ∧ (∀ e, e ∈ entries c' → e_dirty e = false) ∧
      ∀ a b, valid_lba a → view c a = Some b → blocks (device c') a = Stable b
  | Ret (c', Err _) => cache_wf c' ∧ ∀ a, valid_lba a → view c' a = view c a
  | _ => False
  end.
Proof.
  intros Hok. destruct (flush_flushed c Hok) as (c' & r & -> & [Hwf Hv _ Hq Hc]). destruct r as [u|er]; [|done].
  assert (Hclean : ∀ e, e ∈ entries c' → e_dirty e = false).
  { intros e He. destruct (e_dirty e) eqn:Ed; [|done]. by specialize (Hc e eq_refl He Ed). }
  split; [done|]. split; [apply Hq; by left|]. split; [done|]. intros a b Ha Eb. rewrite <- Hv in Eb by done.
  unfold view, dirty_at in Eb. destruct (find_lba a (entries c')) as [[i e]|] eqn:Hf; cbn in Eb.
  - apply find_lba_Some in Hf as [Hi _]. unfold dirty_data in Eb.
    rewrite Hclean in Eb by by eapply list_elem_of_lookup_2. by destruct (blocks (device c') a); simplify_eq/=.
  - by destruct (blocks (device c') a); simplify_eq/=.
Qed.

(** A block written back is read back at once, whatever the device does: the
    write-back succeeds and the read is a hit. *)
Theorem write_back_reads_back (c : BlockCache D) now lba data :
  cache_ok c → valid_lba lba → is_sector data →
  ∃ c1 c2, write_back c now lba data = Ret (c1, Ok ()) ∧ read_cached c1 lba BLOCK_SIZE = Ret (c2, Ok data).
Proof.
  intros Hok Hv Hs. destruct (write_back_ok c now lba data Hok Hv Hs) as (c1 & E & Hok1 & Hl & (i & since & Hf) & _).
  unfold read_cached. exists c1. eexists. split; [done|]. rewrite decide_True, Hf by done.
  done.
Qed.

(** A block rewritten while its write is in flight stays dirty.  A flush drops
    the lock while it waits; when the block is written back again in that time, the
    completion of the older write finds another generation and leaves the newer
    content marked for the next flush. *)
Theorem rewritten_block_stays_dirty (c : BlockCache D) now lba data w :
  cache_ok c → valid_lba lba → is_sector data → p_lba w = lba → p_generation w ≠ generation c →
  ∃ c1, write_back c now lba data = Ret (c1, Ok ()) ∧ retire_write c1 w = (c1, true) ∧
    dirty_at (entries c1) lba = Some data.
Proof.
  intros Hok Hv Hs Hw Hg. destruct (write_back_ok c now lba data Hok Hv Hs) as (c1 & E & Hok1 & _ & (i & since & Hf) & _).
  exists c1. split; [done|]. split; [|unfold dirty_at; by rewrite Hf]. unfold retire_write.
  destruct (list_find _ (entries c1)) as [[j e]|] eqn:El; [exfalso|done].
  apply list_find_Some in El as (Hj & [Hl Hge] & _). pose proof (find_lba_Some _ _ _ _ Hf) as [Hi _].
  destruct Hok1 as [(_ & _ & _ & Hu) _]. assert (i = j) as <-.
  { eapply (Hu i j); [done|done|cbn; congruence|]. apply not_empty_lba. cbn. unfold valid_lba in Hv. lia. }
  by simplify_eq.
Qed.

(** ** Eviction *)

Lemma first_empty l i e : (∀ e, e ∈ l → is_empty e = false) → (i < length l)%nat → is_empty e = true →
  list_find (λ e, is_empty e = true) (<[i := e]> l) = Some (i, e).
Proof.
  intros Hl Hi He. apply list_find_Some. split; [by apply list_lookup_insert_eq|]. split; [done|].
  intros j y Hj Hlt. rewrite list_lookup_insert_ne in Hj by lia. rewrite Hl; [done|].
  by eapply list_elem_of_lookup_2.
Qed.

(** A full cache evicts the least recently used block, a clean one as long as
    there is one.  The new block takes its slot; a clean victim costs no device
    access, and a dirty one, taken only when every block is dirty, is written to the
    device. *)
Theorem insert_evicts_oldest (c : BlockCache D) now lba data (dirty : bool) :
  cache_ok c → length data = BLOCK_SIZE → find_lba lba (entries c) = None →
  (∀ e, e ∈ entries c → is_empty e = false) →
  ∃ i victim c', insert c now lba data dirty = Ret c' ∧ entries c !! i = Some victim ∧
    entries c' = <[i := mkEntry lba data (generation c) dirty (if dirty then now else 0)]> (entries c) ∧
    (e_dirty victim = false ∧ device c' = device c ∧
       (∀ e, e ∈ entries c → e_dirty e = false → e_generation victim ≤ e_generation e) ∨
     (∀ e, e ∈ entries c → e_dirty e = true ∧ e_generation victim ≤ e_generation e) ∧
       ∃ r, write_blocks (device c) (e_lba victim) (e_data victim) = Ret (device c', r)).
Proof.
  intros Hok Hl Hf Hne. unfold insert. rewrite decide_True by done. cbn [next_generation].
  set (c0 := mkCache _ _ _ _ _ _). change (entries c0) with (entries c). rewrite Hf.
  destruct (list_find _ (entries c)) as [[i e]|] eqn:He.
  { apply list_find_Some in He as (Hi & He & _). rewrite Hne in He; [done|]. by eapply list_elem_of_lookup_2. }
  clear He. destruct (lru (λ e, negb (e_dirty e)) (entries c)) as [i|] eqn:Hclean.
  { apply lru_Some in Hclean as (victim & Hi & Hp%negb_true_iff & Hmin). exists i, victim. eexists.
    split; [done|]. split; [done|]. split; [done|]. left. split; [done|]. split; [done|]. intros e Hin Ed.
    apply list_elem_of_lookup in Hin as [j Hj]. eapply Hmin; [done|]. by rewrite Ed. }
  destruct (lru (λ _, true) (entries c)) as [i|] eqn:Hlru; cycle 1.
  { exfalso. destruct Hok as [(_ & Hlen & _) _]. destruct (entries c) as [|e l]; [done|].
    by pose proof (lru_None _ _ 0%nat e Hlru eq_refl). }
  apply lru_Some in Hlru as (victim & Hi & _ & Hmin). rewrite Hi.
  assert (Hd : ∀ e, e ∈ entries c → e_dirty e = true).
  { intros e [j Hj]%list_elem_of_lookup. pose proof (lru_None _ _ _ _ Hclean Hj) as E. by apply negb_false_iff in E. }
  destruct (evict_dirty c i victim Hok Hi) as (d & r & Ew & _); [apply Hd; by eapply list_elem_of_lookup_2|].
  cbn [set_entries device]. change (device c0) with (device c). rewrite Ew. cbn [mbind outcome_bind].
  set (c2 := inc_dirty_writebacks _). change (entries c2) with (<[i := empty_entry]> (entries c)).
  rewrite first_empty by (done || by eapply lookup_lt_Some). exists i, victim. eexists.
  split; [done|]. split; [done|]. split; [apply list_insert_insert_eq|]. right. split; [|by exists r].
  intros e Hin. split; [by apply Hd|]. apply list_elem_of_lookup in Hin as [j Hj]. by eapply Hmin.
Qed.
End Transparent.

(** ** Where the cache is not transparent *)

(** A block filled with one byte. *)
Definition filled (b : Z) : bytes := replicate BLOCK_SIZE b.

(** A dirty block whose write-back fails during an eviction is lost without a
    report.  On a device that refuses writes, one write-back more than the cache has
    slots succeeds like all the others; the first block, evicted by it, then reads
    back as the old content of the device. *)
Theorem eviction_drops_refused_block :
  match run (BlockCache_new (MemoryBlockDevice_new (filled 7) true))
          (map (λ k, WriteBack 0 (Z.of_nat k) (filled 1)) (seq 0 (S CACHE_CAPACITY)) ++ [ReadCached 0]) with
  | Ret (_, answers) => answers = replicate (S CACHE_CAPACITY) (Status (Ok ())) ++ [Data (Ok (filled 7))]
  | _ => False
  end.
Proof. by vm_compute. Qed.

Lemma find_new a k : a ≠ EMPTY_LBA → find_lba a (replicate k empty_entry) = None.
Proof. intros Ha. apply list_find_None, Forall_replicate. cbn. congruence. Qed.

(** The first block read into a new cache takes the first slot. *)
Lemma insert_first (c : BlockCache MemoryBlockDevice) lba data :
  entries c = replicate CACHE_CAPACITY empty_entry → length data = BLOCK_SIZE → lba ≠ EMPTY_LBA →
  ∃ c', insert c 0 lba data false = Ret c' ∧ device c' = device c ∧ last_read_lba c' = last_read_lba c ∧
    read_ahead_depth c' = read_ahead_depth c ∧
    ∀ a, a ≠ EMPTY_LBA → a ≠ lba → find_lba a (entries c') = None.
Proof.
  intros He Hl Hne. unfold insert. rewrite decide_True by done. cbn [next_generation]. set (c0 := mkCache _ _ _ _ _ _).
  change (entries c0) with (entries c). rewrite He, find_new by done.
  change (replicate CACHE_CAPACITY empty_entry) with (empty_entry :: replicate 511 empty_entry).
  cbn [list_find]. rewrite decide_True by done. eexists. split; [done|]. do 3 (split; [done|]).
  intros a Ha Hal. cbn [set_entries entries]. apply list_find_None. constructor; [cbn; congruence|].
  apply Forall_replicate. cbn. congruence.
Qed.

Lemma lookahead_starts (c : BlockCache MemoryBlockDevice) lba n : 0 ≤ lba → lba + Z.of_nat (S n) ≤ u64_max →
  find_lba (lba + 1) (entries c) = None →
  ∃ m, lookahead_blocks c lba (S n) 0 = Ret m ∧ (1 ≤ m ≤ S n)%nat.
Proof.
  intros Hlo Hhi Hf. cbn [lookahead_blocks]. unfold checked_add. rewrite Z.add_0_r.
  rewrite (proj2 (Z.leb_le _ _)) by lia. rewrite (proj2 (is_cached_find c (lba + 1)) Hf).
  destruct (lookahead_blocks_ok c lba n 1) as (m & E & Hm & _); [lia|lia| |by exists m].
  intros i Hi. by replace (lba + Z.of_nat i) with (lba + 1) by lia.
Qed.

(** A device read within the storage, and one past its end. *)
Lemma memory_read_at (d : MemoryBlockDevice) lba k : memory_ok d → 0 ≤ lba →
  memory_read_blocks d lba (k * BLOCK_SIZE) = Ret (d,
    if decide (in_memory d lba k)
    then Ok (slice (storage d) (Z.to_nat lba * BLOCK_SIZE) (Z.to_nat lba * BLOCK_SIZE + k * BLOCK_SIZE))
    else Err InvalidArgument).
Proof. intros Hd Hlba. unfold memory_read_blocks. rewrite memory_range_ok by done. by case_decide. Qed.

(** A sequential miss whose next block is not cached reads past the end. *)
Lemma read_past_end (c : BlockCache MemoryBlockDevice) d (n : nat) : memory_ok d → device c = d →
  length (storage d) = (n * BLOCK_SIZE)%nat → (1 ≤ n)%nat → Z.of_nat n + 5 ≤ u64_max →
  last_read_lba c = Z.of_nat n - 2 → last_read_lba c ≠ u64_max → (1 ≤ read_ahead_depth c)%nat →
  find_lba (Z.of_nat n - 1) (entries c) = None → find_lba (Z.of_nat n) (entries c) = None →
  ∃ c', read_cached c (Z.of_nat n - 1) BLOCK_SIZE = Ret (c', Err InvalidArgument).
Proof.
  intros Hd Hdev Hlen Hn Hu Hlast Hmax Hra Hf1 Hf2. unfold read_cached. rewrite decide_True by done. rewrite Hf1.
  rewrite (proj2 (Z.eqb_neq _ _) Hmax). replace (Z.of_nat n - 1 =? last_read_lba c + 1) with true by lia.
  cbn [negb andb]. set (c0 := set_last_read c _).
  destruct (Nat.min (read_ahead_depth c0) PREFETCH_RUN_BLOCKS) as [|k] eqn:Ek.
  { exfalso. unfold PREFETCH_RUN_BLOCKS in Ek. cbn [c0 set_last_read read_ahead_depth] in Ek. lia. }
  destruct (lookahead_starts c0 (Z.of_nat n - 1) k) as (m & E & Hm).
  { lia. }
  { unfold PREFETCH_RUN_BLOCKS in Ek. lia. }
  { replace (Z.of_nat n - 1 + 1) with (Z.of_nat n) by lia. exact Hf2. }
  rewrite E. cbn [mbind outcome_bind]. rewrite decide_False by lia.
  change (device c0) with (device c). rewrite Hdev.
  change (read_blocks d ?x ?l) with (memory_read_blocks d x l). rewrite memory_read_at by (done || lia).
  rewrite decide_False; [by eexists|]. unfold in_memory. rewrite Hlen. unfold BLOCK_SIZE. lia.
Qed.

(** With read-ahead, the last block of a device cannot be read sequentially.
    After a read of the block before it, the request for the last block also asks
    for blocks past the end; the device refuses it as a whole and the read fails,
    although the device has the block. *)
Theorem read_ahead_fails_at_end (d : MemoryBlockDevice) (n depth : nat) :
  memory_ok d → length (storage d) = (n * BLOCK_SIZE)%nat → (2 ≤ n)%nat → (1 ≤ depth)%nat →
  ∃ c1 c2 b1 b2,
    read_cached (with_read_ahead d depth) (Z.of_nat n - 2) BLOCK_SIZE = Ret (c1, Ok b1) ∧
    read_cached c1 (Z.of_nat n - 1) BLOCK_SIZE = Ret (c2, Err InvalidArgument) ∧
    memory_read_blocks d (Z.of_nat n - 1) BLOCK_SIZE = Ret (d, Ok b2).
Proof.
  intros Hd Hlen Hn Hdepth. pose proof Hd as (_ & _ & Hmax). rewrite Hlen in Hmax.
  assert (Hu : Z.of_nat n + 5 ≤ u64_max) by (unfold u64_max, BLOCK_SIZE in *; lia).
  assert (Hr : ∀ lba, 0 ≤ lba < Z.of_nat n → memory_read_blocks d lba BLOCK_SIZE = Ret (d,
    Ok (slice (storage d) (Z.to_nat lba * BLOCK_SIZE) (Z.to_nat lba * BLOCK_SIZE + BLOCK_SIZE)))).
  { intros lba Hl. pose proof (memory_read_at d lba 1 Hd ltac:(lia)) as E. rewrite Nat.mul_1_l in E. rewrite E.
    rewrite decide_True; [done|]. unfold in_memory. rewrite Hlen. unfold BLOCK_SIZE. lia. }
  set (x := Z.of_nat n - 2). set (b1 := slice (storage d) (Z.to_nat x * BLOCK_SIZE) (Z.to_nat x * BLOCK_SIZE + BLOCK_SIZE)).
  assert (Hb1 : length b1 = BLOCK_SIZE) by (unfold b1, x; rewrite length_slice; unfold BLOCK_SIZE in *; lia).
  destruct (insert_first (inc_misses (set_device (set_last_read (with_read_ahead d depth) x) d)) x b1)
    as (c1 & E1 & Hdev & Hlast & Hra & Habs); [done|done|unfold x, EMPTY_LBA; lia|].
  destruct (read_past_end c1 d n) as (c2 & E2); try done.
  { lia. }
  { rewrite Hlast. cbn. unfold x, u64_max in *. lia. }
  { by rewrite Hra. }
  { apply Habs; unfold x, EMPTY_LBA; lia. }
  { apply Habs; unfold x, EMPTY_LBA; lia. }
  exists c1, c2, b1. eexists. split; [|split; [done|apply Hr; lia]].
  unfold read_cached. rewrite decide_True by done. cbn [with_read_ahead entries].
  rewrite find_new by (unfold x, EMPTY_LBA; lia). rewrite Z.eqb_refl. cbn [negb andb mbind outcome_bind].
  rewrite decide_True by done. change (read_blocks ?d' x BLOCK_SIZE) with (memory_read_blocks d' x BLOCK_SIZE).
  change (device (set_last_read (with_read_ahead d depth) x)) with d.
  rewrite Hr by (unfold x; lia). cbn [mbind outcome_bind]. fold b1. by rewrite E1.
Qed.

(** ** Concrete stacks *)

(** A disk of eight blocks, and an encrypted partition of four of them. *)
Definition demo_disk : MemoryBlockDevice := MemoryBlockDevice_new (replicate (8 * BLOCK_SIZE) 5) false.
Definition demo_stack : EncryptedBlockDevice (BlockSliceDevice MemoryBlockDevice) :=
  mkEncrypted (mkSlice demo_disk 2 4 false) (replicate 64 9).

Lemma demo_disk_ok : memory_ok demo_disk.
Proof. split; [by apply Forall_replicate|]. by split. Qed.

Lemma memory_quiet (d : MemoryBlockDevice) : quiet d.
Proof. intros a. cbn. unfold memory_blocks. by case_decide. Qed.

Lemma encrypted_quiet (e : EncryptedBlockDevice (BlockSliceDevice MemoryBlockDevice)) : quiet e.
Proof.
  intros a. cbn [blocks encrypted_contract]. unfold encrypted_blocks, decrypted.
  destruct (blocks (inner e) a) as [b| |]; [|done|done]. by destruct (aes_xts_decrypt (key e) a b).
Qed.

Lemma demo_stack_ok : dev_ok demo_stack.
Proof.
  split; [split; [exact demo_disk_ok|by split]|]. split; [done|]. split; [by apply Forall_replicate|].
  intros a. cbn [demo_stack inner blocks slice_contract]. unfold slice_blocks. case_decide; [|done].
  apply (memory_quiet demo_disk).
Qed.

Lemma filled_sector b : is_byte b → is_sector (filled b).
Proof. intros Hb. split; [apply length_replicate|by apply Forall_replicate]. Qed.

Definition demo_ops : list cache_op :=
  [ReadCached 0; WriteBack 0 1 (filled 3); ReadCached 1; WriteThrough 0 (filled 4); Flush; Prefetch 0 4;
   Invalidate 1; ReadCached 1; FlushAged 700 600; FlushRange 0 2; FlushUnderPressure; InvalidateRange 0 4].

Lemma demo_ops_ok : Forall op_ok demo_ops.
Proof.
  repeat constructor; cbn; try (by apply length_replicate); unfold EMPTY_LBA, u64_max; try lia;
    by apply Forall_replicate.
Qed.

Lemma block_cache_stays_well_formed_witness :
  ∃ c answers, run (with_read_ahead demo_stack 4) demo_ops = Ret (c, answers) ∧
    length answers = length demo_ops ∧ cache_wf c ∧ quiet (device c).
Proof.
  exact (block_cache_stays_well_formed demo_stack 4 demo_ops demo_stack_ok (encrypted_quiet demo_stack)
    (quiet_is_prompt (λ d _, encrypted_quiet d)) demo_ops_ok).
Defined.


(** A cache with a dirty block in every slot. *)
Definition full_cache : BlockCache MemoryBlockDevice :=
  mkCache demo_disk (map (λ k, mkEntry (Z.of_nat k) (filled 1) (Z.of_nat k) true 0) (seq 0 CACHE_CAPACITY))
    1000 CacheStats_default u64_max 4.

Lemma full_cache_entry i e : entries full_cache !! i = Some e →
  e = mkEntry (Z.of_nat i) (filled 1) (Z.of_nat i) true 0 ∧ (i < CACHE_CAPACITY)%nat.
Proof.
  cbn [full_cache entries]. rewrite list_lookup_fmap. destruct (seq 0 CACHE_CAPACITY !! i) as [k|] eqn:Ek; [|done].
  apply lookup_seq in Ek as [-> Hk]. intros [= <-]. done.
Qed.

Lemma full_cache_ok : cache_ok full_cache.
Proof.
  split; [|apply memory_quiet]. split; [exact demo_disk_ok|]. split; [cbn [full_cache entries]; by rewrite length_map, length_seq|]. split.
  - apply Forall_lookup. intros i e [-> Hi]%full_cache_entry. unfold entry_ok, CACHE_CAPACITY in *.
    rewrite (proj2 (not_empty_lba _)) by (cbn [e_lba]; unfold EMPTY_LBA, u64_max; lia). cbn [e_lba e_data e_dirty].
    split; [unfold EMPTY_LBA, u64_max; lia|]. by apply filled_sector.
  - intros i j e1 e2 [-> _]%full_cache_entry [-> _]%full_cache_entry El _. cbn [e_lba] in El. lia.
Qed.

Lemma flush_durable_witness :
  match flush full_cache with
  | Ret (c', Ok _) => cache_wf c' ∧ quiet (device c') ∧ (∀ e, e ∈ entries c' → e_dirty e = false) ∧
      ∀ a b, valid_lba a → view full_cache a = Some b → blocks (device c') a = Stable b
  | Ret (c', Err _) => cache_wf c' ∧ ∀ a, valid_lba a → view c' a = view full_cache a
  | _ => False
  end.
Proof. exact (flush_durable full_cache full_cache_ok). Defined.

Lemma write_back_reads_back_witness :
  ∃ c1 c2, write_back full_cache 7 3 (filled 2) = Ret (c1, Ok ()) ∧
    read_cached c1 3 BLOCK_SIZE = Ret (c2, Ok (filled 2)).
Proof.
  apply (write_back_reads_back full_cache 7 3 (filled 2) full_cache_ok).
  - unfold valid_lba, EMPTY_LBA, u64_max. lia.
  - by apply filled_sector.
Defined.

Lemma rewritten_block_stays_dirty_witness :
  ∃ c1, write_back full_cache 7 3 (filled 2) = Ret (c1, Ok ()) ∧
    retire_write c1 (mkPending 11 3 3) = (c1, true) ∧ dirty_at (entries c1) 3 = Some (filled 2).
Proof.
  apply (rewritten_block_stays_dirty full_cache 7 3 (filled 2) (mkPending 11 3 3) full_cache_ok).
  - unfold valid_lba, EMPTY_LBA, u64_max. lia.
  - by apply filled_sector.
  - done.
  - done.
Defined.

Lemma insert_evicts_oldest_witness :
  ∃ i victim c', insert full_cache 9 600 (filled 2) false = Ret c' ∧ entries full_cache !! i = Some victim ∧
    entries c' = <[i := mkEntry 600 (filled 2) 1000 false 0]> (entries full_cache) ∧
    (e_dirty victim = false ∧ device c' = device full_cache ∧
       (∀ e, e ∈ entries full_cache → e_dirty e = false → e_generation victim ≤ e_generation e) ∨
     (∀ e, e ∈ entries full_cache → e_dirty e = true ∧ e_generation victim ≤ e_generation e) ∧
       ∃ r, write_blocks (device full_cache) (e_lba victim) (e_data victim) = Ret (device c', r)).
Proof.
  apply (insert_evicts_oldest full_cache 9 600 (filled 2) false full_cache_ok).
  - apply length_replicate.
  - apply list_find_None, Forall_lookup. intros i e [-> Hi]%full_cache_entry. unfold CACHE_CAPACITY in Hi. cbn [e_lba]. lia.
  - intros e [i [-> Hi]%full_cache_entry]%list_elem_of_lookup. unfold CACHE_CAPACITY in Hi.
    apply not_empty_lba. cbn [e_lba]. unfold EMPTY_LBA, u64_max. lia.
Defined.

Lemma read_ahead_fails_at_end_witness :
  ∃ c1 c2 b1 b2,
    read_cached (with_read_ahead demo_disk 4) (Z.of_nat 8 - 2) BLOCK_SIZE = Ret (c1, Ok b1) ∧
    read_cached c1 (Z.of_nat 8 - 1) BLOCK_SIZE = Ret (c2, Err InvalidArgument) ∧
    memory_read_blocks demo_disk (Z.of_nat 8 - 1) BLOCK_SIZE = Ret (demo_disk, Ok b2).
Proof.
  apply (read_ahead_fails_at_end demo_disk 8 4 demo_disk_ok).
  - unfold demo_disk, MemoryBlockDevice_new. rewrite length_replicate. vm_compute. reflexivity.
  - lia.
  - lia.
Defined.
