(* ===== verification/BlockRuns.v ===== *)
(** * Runs of blocks (src/kernel/block.rs)

    What a device promises of requests of several blocks: a write of a run is of
    its blocks alone, each of which holds its part of the data once the write is
    answered, and reads of blocks the device answers for succeed.  The in-memory
    device, the slice and the encrypted device keep it. *)

From stdpp Require Import base tactics decidable numbers list.
From Stdlib Require Import ZArith Lia Bool.
From S2P Require Import Prelude Bytes Aes AesModes BlockDevice CryptDevice.

(** After a write of [data] at [lba]: what lies outside the run is as it was,
    and every block of it is written with its part. *)
Definition run_written (before after : Z → block_state) (lba : Z) (n : nat) (data : bytes) (ok : bool) : Prop :=
  (∀ a, a < lba ∨ lba + Z.of_nat n ≤ a → after a = before a) ∧
  ∀ i, (i < n)%nat → written (before (lba + Z.of_nat i)) (after (lba + Z.of_nat i)) (sector data i) ok.

(** [lba..lba + n] are addresses. *)
Definition is_run (lba : Z) (n : nat) : Prop := 0 ≤ lba ∧ (0 < n)%nat ∧ lba + Z.of_nat n ≤ u64_max.

(** [data] is [n] blocks. *)
Definition is_sectors (n : nat) (data : bytes) : Prop := length data = (n * BLOCK_SIZE)%nat ∧ is_bytes data.

(** Every block of the run. *)
Definition over_run (p : Z → Prop) (lba : Z) (n : nat) : Prop := ∀ i, (i < n)%nat → p (lba + Z.of_nat i).

Class RunContract (D : Type) `{BlockContract D} := {
  (** The device answers every read of the block. *)
  answers : D → Z → bool;
  answer_law d lba n d' r : dev_ok d → is_run lba n → over_run (λ a, answers d a = true) lba n →
    read_blocks d lba (n * BLOCK_SIZE) = Ret (d', r) → is_ok r = true;
  read_answers d lba n d' r a : dev_ok d → read_blocks d lba n = Ret (d', r) → answers d' a = answers d a;
  run_law d lba n data : dev_ok d → is_run lba n → is_sectors n data →
    over_run (λ a, flying (blocks d a) = false) lba n →
    ∃ d' r, write_blocks d lba data = Ret (d', r) ∧ dev_ok d' ∧
      run_written (blocks d) (blocks d') lba n data (is_ok r) ∧
      (∀ a, takes d' a = takes d a) ∧ (∀ a, answers d' a = answers d a) ∧
      (over_run (λ a, takes d a = true) lba n → is_ok r = true);
}.

(** ** Sectors of a buffer *)

Lemma sector_bytes data i : is_bytes data → is_bytes (sector data i).
Proof. intros. by apply Forall_take, Forall_drop. Qed.

Lemma length_sector n data i : length data = (n * BLOCK_SIZE)%nat → (i < n)%nat → length (sector data i) = BLOCK_SIZE.
Proof. intros Hl Hi. unfold sector. rewrite length_slice; nia. Qed.

Lemma is_sectors_sector n data i : is_sectors n data → (i < n)%nat → is_sector (sector data i).
Proof. intros [Hl Hb] Hi. split; [by eapply length_sector|by apply sector_bytes]. Qed.

(** A buffer is determined by its sectors. *)
Lemma sectors_eq n x y : length x = (n * BLOCK_SIZE)%nat → length y = (n * BLOCK_SIZE)%nat →
  (∀ i, (i < n)%nat → sector x i = sector y i) → x = y.
Proof.
  revert x y. induction n as [|n IH]; intros x y Hx Hy Hs.
  { destruct x, y; done. }
  rewrite <- (take_drop BLOCK_SIZE x), <- (take_drop BLOCK_SIZE y).
  assert (Lx : length (take BLOCK_SIZE x) = BLOCK_SIZE) by (rewrite length_take; lia).
  assert (Ly : length (take BLOCK_SIZE y) = BLOCK_SIZE) by (rewrite length_take; lia).
  f_equal.
  - pose proof (Hs 0%nat ltac:(lia)) as E.
    rewrite <- (take_drop BLOCK_SIZE x), <- (take_drop BLOCK_SIZE y) in E.
    rewrite (proj2 (sector_cons _ _ 0 Lx)), (proj2 (sector_cons _ _ 0 Ly)) in E. exact E.
  - apply IH; [rewrite length_drop; lia|rewrite length_drop; lia|]. intros i Hi.
    pose proof (Hs (S i) ltac:(lia)) as E.
    rewrite <- (take_drop BLOCK_SIZE x), <- (take_drop BLOCK_SIZE y) in E.
    rewrite (proj1 (sector_cons _ _ i Lx)), (proj1 (sector_cons _ _ i Ly)) in E. exact E.
Qed.

Lemma sectors_bytes n x : length x = (n * BLOCK_SIZE)%nat →
  (∀ i, (i < n)%nat → is_bytes (sector x i)) → is_bytes x.
Proof.
  revert x. induction n as [|n IH]; intros x Hx Hs.
  { by destruct x; [apply Forall_nil|]. }
  assert (Lx : length (take BLOCK_SIZE x) = BLOCK_SIZE) by (rewrite length_take; lia).
  assert (Ll : length (drop BLOCK_SIZE x) = (n * BLOCK_SIZE)%nat) by (rewrite length_drop; lia).
  rewrite <- (take_drop BLOCK_SIZE x) in Hs |- *. apply is_bytes_app. split.
  - pose proof (Hs 0%nat ltac:(lia)) as E. by rewrite (proj2 (sector_cons _ _ 0 Lx)) in E.
  - apply IH; [done|]. intros i Hi. pose proof (Hs (S i) ltac:(lia)) as E.
    by rewrite (proj1 (sector_cons _ _ i Lx)) in E.
Qed.

Lemma is_run_div n data : is_sectors n data → (length data / BLOCK_SIZE)%nat = n.
Proof. intros [-> _]. by apply Nat.div_mul. Qed.

(** Nothing written. *)
Lemma run_refused s lba n data : run_written s s lba n data false.
Proof. split; [done|]. intros. by left. Qed.

(** ** The in-memory device *)

Definition memory_answers (d : MemoryBlockDevice) (a : Z) : bool := bool_decide (in_memory d a 1).

Lemma in_memory_run d lba n : is_run lba n → over_run (λ a, in_memory d a 1) lba n → in_memory d lba n.
Proof.
  intros (Hz & Hn & _) Hr. split; [done|]. destruct (Hr (n - 1)%nat ltac:(lia)) as [_ Hx].
  by replace (lba + Z.of_nat (n - 1) + Z.of_nat 1) with (lba + Z.of_nat n) in Hx by lia.
Qed.

#[global] Program Instance memory_runs : RunContract MemoryBlockDevice := { answers := memory_answers }.
Next Obligation.
  intros d lba n d' r Hok Hrun Ha E. pose proof Hrun as (Hz & _). cbn in E. unfold memory_read_blocks in E.
  rewrite memory_range_ok, decide_True in E; [by simplify_eq| |done|done]. apply in_memory_run; [done|].
  intros i Hi. by apply (bool_decide_eq_true_1 (in_memory d _ 1)), Ha.
Qed.
Next Obligation. intros d lba n d' r a _ E. cbn in E. unfold memory_read_blocks in E. by simplify_eq. Qed.
Next Obligation.
  intros d lba n data Hok Hrun [Ld Hb] _. pose proof Hrun as (Hz & Hn & Hmax). cbn. unfold memory_write_blocks.
  destruct (mem_read_only d) eqn:Hro.
  { eexists _, _. split; [done|]. split; [done|]. split; [apply run_refused|]. split; [done|]. split; [done|].
    intros Ht. specialize (Ht 0%nat Hn). unfold memory_takes in Ht. by rewrite Hro in Ht. }
  rewrite Ld, memory_range_ok by done. case_decide as Hin; eexists _, _; (split; [done|]); cycle 1.
  { split; [done|]. split; [apply run_refused|]. split; [done|]. split; [done|].
    intros Ht. destruct Hin. apply in_memory_run; [done|]. intros i Hi. specialize (Ht i Hi).
    apply andb_prop in Ht as [_ Ht]. by apply bool_decide_eq_true in Ht. }
  destruct Hok as (Hbytes & Hmod & Hlen). pose proof Hin as [_ Hend].
  assert (Hfit : (Z.to_nat lba * BLOCK_SIZE + length data ≤ length (storage d))%nat) by lia.
  set (d' := mkMemory _ _).
  assert (Ll : length (storage d') = length (storage d)) by by apply length_splice.
  assert (Hin' : ∀ a k, in_memory d' a k ↔ in_memory d a k) by (intros; unfold in_memory; by rewrite Ll).
  split; [split; [by apply splice_bytes|by rewrite Ll]|]. split; [split|split; [|split; [|done]]].
  - intros a Ha. unfold memory_blocks.
    destruct (decide (in_memory d' a 1)) as [H1|H1]; rewrite Hin' in H1; [|by rewrite decide_False].
    rewrite decide_True by done. f_equal. destruct H1 as [Ha0 Ha1]. apply slice_splice_other; [done|lia|]. nia.
  - intros i Hi. cbn [is_ok written]. unfold memory_blocks. rewrite decide_True by (apply Hin'; split; nia). f_equal.
    pose proof (slice_splice_same _ _ _ Hfit) as Es. rewrite Ld in Es.
    replace (Z.to_nat (lba + Z.of_nat i)) with (Z.to_nat lba + i)%nat by lia.
    rewrite <- (sector_slice _ _ n) by done. unfold d'. cbn [storage]. by rewrite Es.
  - intros a. unfold memory_takes. rewrite Hro. apply bool_decide_ext, Hin'.
  - intros a. apply bool_decide_ext, Hin'.
Qed.

(** ** A slice of a device *)

Section SliceRuns.
Context {D : Type} `{RunContract D}.

Definition slice_answers (s : BlockSliceDevice D) (a : Z) : bool :=
  bool_decide (0 ≤ a < slice_block_count s) && answers (parent s) (start_block s + a).

Lemma slice_run_in (s : BlockSliceDevice D) lba n : is_run lba n →
  over_run (λ a, 0 ≤ a < slice_block_count s) lba n → lba + Z.of_nat n ≤ slice_block_count s.
Proof. intros (Hz & Hn & _) Hr. specialize (Hr (n - 1)%nat ltac:(lia)). cbn in Hr. lia. Qed.

#[global] Program Instance slice_runs : RunContract (BlockSliceDevice D) := { answers := slice_answers }.
Next Obligation.
  intros s lba n s' r Hs Hrun Ha E. pose proof Hs as (Hp & Hlo & Hhi). pose proof Hrun as (Hz & Hn & Hm).
  assert (Hin : lba + Z.of_nat n ≤ slice_block_count s).
  { apply slice_run_in; [done|]. intros i Hi. specialize (Ha i Hi). apply andb_prop in Ha as [Ha _].
    by apply bool_decide_eq_true in Ha. }
  cbn in E. unfold slice_read_blocks in E. rewrite slice_range_ok, decide_True in E by (done || lia).
  destruct (read_blocks (parent s) (start_block s + lba) (n * BLOCK_SIZE)) as [[d' r']| |] eqn:Er; [|done|done].
  cbn in E. simplify_eq. eapply (answer_law (parent s)); [done| | |exact Er]; [split; [lia|split; lia]|].
  intros i Hi. specialize (Ha i Hi). apply andb_prop in Ha as [_ Ha]. by rewrite <- Z.add_assoc.
Qed.
Next Obligation.
  intros s lba n s' r a (Hp & _) E. cbn in E. unfold slice_read_blocks in E.
  destruct (slice_range s lba n) as [p|]; [|by simplify_eq].
  destruct (read_blocks (parent s) p n) as [[d' r']| |] eqn:Er; [|done|done]. cbn in E. simplify_eq.
  unfold slice_answers. cbn. by erewrite read_answers by done.
Qed.
Next Obligation.
  intros s lba n data Hs Hrun Hd Hf. pose proof Hs as (Hp & Hlo & Hhi). pose proof Hrun as (Hz & Hn & Hm).
  cbn. unfold slice_write_blocks. destruct (slice_read_only s) eqn:Hro.
  { eexists _, _. split; [done|]. split; [done|]. split; [apply run_refused|]. split; [done|]. split; [done|].
    intros Ht. specialize (Ht 0%nat Hn). unfold slice_takes in Ht. by rewrite Hro in Ht. }
  pose proof Hd as [Ld _]. rewrite Ld, slice_range_ok by done. case_decide as Hin; cycle 1.
  { eexists _, _. split; [done|]. split; [done|]. split; [apply run_refused|]. split; [done|]. split; [done|].
    intros Ht. destruct Hin. apply slice_run_in; [done|]. intros i Hi. specialize (Ht i Hi).
    apply andb_prop in Ht as [[_ Ht]%andb_prop _]. by apply bool_decide_eq_true in Ht. }
  destruct (run_law (parent s) (start_block s + lba) n data Hp) as (d' & r & -> & Hd' & [Ho Hw] & Ht & Ha & Hr);
    [split; [lia|split; lia]|done| |].
  { intros i Hi. specialize (Hf i Hi). cbn in Hf. rewrite slice_blocks_in in Hf by lia. by rewrite <- Z.add_assoc. }
  cbn [mbind outcome_bind]. exists (with_parent s d'), r. split; [done|]. split; [by split|]. split; [split|split; [|split]].
  - intros a Ha'. unfold slice_blocks, with_parent. cbn. case_decide; [|done]. apply Ho. lia.
  - intros i Hi. rewrite !slice_blocks_in by (cbn; lia). cbn [with_parent parent start_block]. rewrite Z.add_assoc. by apply Hw.
  - intros a. by apply slice_takes_parent.
  - intros a. unfold slice_answers. cbn. by rewrite Ha.
  - intros Hall. apply Hr. intros i Hi. specialize (Hall i Hi). apply andb_prop in Hall as [_ Hall].
    by rewrite <- Z.add_assoc.
Qed.
End SliceRuns.

(** ** The encrypted device *)

Section EncryptedRuns.
Context {D : Type} `{RunContract D}.

(** A run is enciphered sector by sector. *)
Lemma encrypt_run (k : bytes) lba n data :
  length k = 64%nat → is_bytes k → is_run lba n → is_sectors n data →
  ∃ out, crypt_sectors (aes_xts_encrypt k) lba (chunks BLOCK_SIZE data) = Ret out ∧ is_sectors n out ∧
    ∀ i, (i < n)%nat → aes_xts_decrypt k (lba + Z.of_nat i) (sector out i) = Ret (sector data i).
Proof.
  clear. intros Lk Bk (Hz & Hn & Hm) [Ld Hb].
  destruct (crypt_sectors_ok (λ id s, if decide (is_bytes s) then aes_xts_encrypt k id s else Ret s) n lba data)
    as (out & E & Lo & Ho); try done.
  { intros id s Ls. case_decide; [|by exists s].
    destruct (xts_undone k s id Lk Bk ltac:(done) (sector_whole s Ls)) as (ct & Ee & Lc & _).
    exists ct. split; [done|congruence]. }
  assert (Hs : ∀ i, (i < n)%nat → is_bytes (sector out i) ∧
    aes_xts_decrypt k (lba + Z.of_nat i) (sector out i) = Ret (sector data i)).
  { intros i Hi. pose proof (Ho i Hi) as Ei. rewrite decide_True in Ei by (by apply sector_bytes).
    destruct (xts_undone k (sector data i) (lba + Z.of_nat i) Lk Bk (sector_bytes _ _ Hb)
      (sector_whole _ (length_sector n _ i Ld Hi))) as (ct & Ee & _ & Bc & Ed). rewrite Ee in Ei.
    injection Ei as ->. by split. }
  exists out. split; [|split; [split; [done|]|]].
  - rewrite <- E. clear -Hb. revert lba. pose proof (chunks_bytes BLOCK_SIZE data ltac:(unfold BLOCK_SIZE; lia) Hb) as Hc.
    induction Hc as [|s l Hs _ IH]; intros lba; [done|]. cbn [crypt_sectors]. rewrite decide_True by done.
    by rewrite IH.
  - apply (sectors_bytes n); [done|]. intros i Hi. by apply Hs.
  - intros i Hi. by apply Hs.
Qed.

#[global] Program Instance encrypted_runs : RunContract (EncryptedBlockDevice D) := {
  answers e a := answers (inner e) a;
}.
Next Obligation.
  intros e lba n e' r He Hrun Ha E. pose proof He as (Hd & Lk & Bk & Hf). pose proof Hrun as (Hz & Hn & Hm).
  destruct (@read_law _ _ encrypted_contract e lba n He Hz Hm) as (e1 & r1 & E1 & _). rewrite E in E1. simplify_eq.
  cbn in E. unfold encrypted_read_blocks in E. cbv zeta in E.
  rewrite size_law, Nat.Div0.mod_mul in E by done. cbn [Nat.eqb negb] in E.
  destruct (read_blocks (inner e) lba (n * BLOCK_SIZE)) as [[d' r']| |] eqn:Er; [|done|done].
  pose proof (answer_law _ _ _ _ _ Hd Hrun Ha Er) as Hr. destruct r' as [buffer|]; [|done].
  cbn in E. destruct (crypt_sectors _ _ _); [|done|done]. cbn in E. by simplify_eq.
Qed.
Next Obligation.
  intros e lba n e' r a (Hd & _) E. cbn in E. unfold encrypted_read_blocks in E.
  destruct (negb _); [by simplify_eq|].
  destruct (read_blocks (inner e) lba n) as [[d' [buffer|er]]| |] eqn:Er; cbn in E; try done.
  - destruct (crypt_sectors _ _ _); cbn in E; [|done|done]. simplify_eq. by eapply read_answers.
  - simplify_eq. by eapply read_answers.
Qed.
Next Obligation.
  intros e lba n data He Hrun Hs _. pose proof He as (Hd & Lk & Bk & Hf). cbn. unfold encrypted_write_blocks.
  destruct (is_read_only (inner e)) eqn:Hro.
  { eexists _, _. split; [done|]. split; [done|]. split; [apply run_refused|]. split; [done|]. split; [done|].
    intros Ht. destruct Hrun as (_ & Hn & _). pose proof (takes_writable _ _ (Ht 0%nat Hn)). congruence. }
  cbv zeta. pose proof Hs as [Ld _]. rewrite size_law, Ld by done. rewrite Nat.Div0.mod_mul. cbn [Nat.eqb negb].
  destruct (encrypt_run (key e) lba n data Lk Bk Hrun Hs) as (out & -> & Hout & Hdec). cbn [mbind outcome_bind].
  destruct (run_law (inner e) lba n out Hd Hrun Hout) as (d' & r & -> & Hd' & [Ho Hw] & Ht & Ha & Hr).
  { intros i _. apply Hf. }
  cbn [mbind outcome_bind]. exists (with_inner e d'), r. split; [done|]. split; [|split; [split|by split]].
  - split; [done|]. split; [done|]. split; [done|]. intros a. cbn.
    destruct (decide (a < lba ∨ lba + Z.of_nat n ≤ a)) as [Hx|Hx]; [rewrite Ho by done; apply Hf|].
    specialize (Hw (Z.to_nat (a - lba)) ltac:(lia)).
    replace (lba + Z.of_nat (Z.to_nat (a - lba))) with a in Hw by lia. specialize (Hf a).
    destruct r; cbn in Hw; [by rewrite Hw|]. by destruct Hw as [-> | ->].
  - intros a Hx. unfold encrypted_blocks. cbn. by rewrite Ho.
  - intros i Hi. unfold encrypted_blocks. cbn. specialize (Hw i Hi).
    destruct r; cbn in Hw |- *; [by rewrite Hw; cbn; rewrite Hdec|]. destruct Hw as [-> | ->]; [by left|by right].
Qed.
End EncryptedRuns.
