(* ===== verification/Swap.v ===== *)
(** * The swap area (src/memory/swap.rs)

    A range of blocks of a device as a stack of page slots.  The theorems are
    against the contract of runs of blocks, so they hold over the in-memory
    device, slices of a disk and the encrypted device alike. *)

From stdpp Require Import base tactics decidable numbers list gmap.
From Stdlib Require Import ZArith Lia Bool.
From S2P Require Import Prelude Bytes BlockDevice CryptDevice BlockRuns PageCodec.

(** Blocks per page slot. *)
Definition BLOCKS_PER_PAGE : Z := Z.of_nat PAGE_SIZE / Z.of_nat BLOCK_SIZE.

(** [b"ADASWAP\x00"]. *)
Definition SWAP_MAGIC : bytes := [65; 68; 65; 83; 87; 65; 80; 0].

(** [free_slots] has the top of the stack first. *)
Record SwapArea (D : Type) := mkSwap {
  device : D;
  start_lba : Z;
  total_pages : Z;
  free_slots : list Z;
}.
Arguments mkSwap {D} _ _ _ _.
Arguments device {D} _.
Arguments start_lba {D} _.
Arguments total_pages {D} _.
Arguments free_slots {D} _.

Section Swap.
Context {D : Type} `{BlockDevice D}.

Definition probe_device (d : D) : outcome (D * option (Z * Z)) :=
  '(d, r) ← read_blocks d 0 BLOCK_SIZE;
  match r with
  | Err _ => Ret (d, None)
  | Ok header =>
      if negb (bool_decide (take 8 header = SWAP_MAGIC)) then Ret (d, None) else
      let page_count := from_le (slice header 8 16) in
      if page_count =? 0 then Ret (d, None) else
      Ret (d, Some (0, page_count))
  end.

(** [room] says whether the allocator has memory for the stack. *)
Definition SwapArea_new (room : Z → bool) (d : D) (start page_count : Z) : result (SwapArea D) :=
  if page_count =? 0 then Err InvalidArgument else
  match checked_mul page_count BLOCKS_PER_PAGE with
  | None => Err InvalidArgument
  | Some blocks_needed =>
      match checked_add start blocks_needed with
      | None => Err InvalidArgument
      | Some end_lba =>
          if block_count d <? end_lba then Err InvalidArgument else
          if negb (room page_count) then Err OutOfMemory else
          Ok (mkSwap d start page_count (seqZ 0 page_count))
      end
  end.

Definition allocate_slot (a : SwapArea D) : SwapArea D * option Z :=
  match free_slots a with
  | [] => (a, None)
  | slot :: rest => (mkSwap (device a) (start_lba a) (total_pages a) rest, Some slot)
  end.

Definition free_slot (a : SwapArea D) (slot : Z) : SwapArea D :=
  mkSwap (device a) (start_lba a) (total_pages a) (slot :: free_slots a).

Definition slot_lba (a : SwapArea D) (slot : Z) : outcome Z :=
  match checked_mul slot BLOCKS_PER_PAGE with
  | None => Panic
  | Some offset => match checked_add (start_lba a) offset with None => Panic | Some lba => Ret lba end
  end.

Definition with_device (a : SwapArea D) (d : D) : SwapArea D :=
  mkSwap d (start_lba a) (total_pages a) (free_slots a).

Definition write_page (a : SwapArea D) (slot : Z) (data : bytes) : outcome (SwapArea D * result unit) :=
  if negb (length data =? PAGE_SIZE)%nat then Ret (a, Err InvalidArgument) else
  lba ← slot_lba a slot;
  '(d, r) ← write_blocks (device a) lba data;
  Ret (with_device a d, r).

(** [len] is the length of the buffer. *)
Definition read_page (a : SwapArea D) (slot : Z) (len : nat) : outcome (SwapArea D * result bytes) :=
  if negb (len =? PAGE_SIZE)%nat then Ret (a, Err InvalidArgument) else
  lba ← slot_lba a slot;
  '(d, r) ← read_blocks (device a) lba len;
  Ret (with_device a d, r).

Definition free_pages (a : SwapArea D) : Z := Z.of_nat (length (free_slots a)).

Definition used_pages (a : SwapArea D) : outcome Z :=
  match checked_sub (total_pages a) (free_pages a) with None => Panic | Some n => Ret n end.

(** ** The area and its client *)

(** What a client asks for, and what it is answered. *)
Inductive swap_op : Type :=
| Allocate
| Free (slot : Z)
| WritePage (slot : Z) (data : bytes)
| ReadPage (slot : Z).

Inductive swap_answer : Type :=
| Slot (slot : option Z)
| Freed
| Wrote (r : result unit)
| Page (r : result bytes).

Definition run_op (a : SwapArea D) (op : swap_op) : outcome (SwapArea D * swap_answer) :=
  match op with
  | Allocate => let '(a, slot) := allocate_slot a in Ret (a, Slot slot)
  | Free slot => Ret (free_slot a slot, Freed)
  | WritePage slot data => '(a, r) ← write_page a slot data; Ret (a, Wrote r)
  | ReadPage slot => '(a, r) ← read_page a slot PAGE_SIZE; Ret (a, Page r)
  end.

(** The client's holdings: the slots it holds, each with the page last written
    there, if that write succeeded.  It uses and frees the slots it holds, and
    writes whole pages. *)
Definition allowed (h : gmap Z (option bytes)) (op : swap_op) : Prop :=
  match op with
  | Allocate => True
  | Free slot | ReadPage slot => is_Some (h !! slot)
  | WritePage slot data => is_Some (h !! slot) ∧ length data = PAGE_SIZE ∧ is_bytes data
  end.

Definition after (h : gmap Z (option bytes)) (op : swap_op) (ans : swap_answer) : gmap Z (option bytes) :=
  match op, ans with
  | Allocate, Slot (Some slot) => <[slot := None]> h
  | Free slot, _ => delete slot h
  | WritePage slot data, Wrote (Ok _) => <[slot := Some data]> h
  | WritePage slot data, Wrote (Err _) => <[slot := None]> h
  | _, _ => h
  end.

(** The right answers, over [n] pages: a slot nobody holds, unless all are held,
    and the page that was written. *)
Definition right (n : Z) (h : gmap Z (option bytes)) (op : swap_op) (ans : swap_answer) : Prop :=
  match op, ans with
  | Allocate, Slot (Some slot) => 0 ≤ slot < n ∧ h !! slot = None
  | Allocate, Slot None => Z.of_nat (size h) = n
  | Free _, Freed => True
  | WritePage _ _, Wrote _ => True
  | ReadPage slot, Page r =>
      ∀ data, r = Ok data → length data = PAGE_SIZE ∧ ∀ page, h !! slot = Some (Some page) → data = page
  | _, _ => False
  end.

(** No error. *)
Definition served (ans : swap_answer) : Prop :=
  match ans with Wrote r => is_ok r = true | Page r => is_ok r = true | _ => True end.

(** What a client and the area reach from [a0]. *)
Inductive reaches (a0 : SwapArea D) : SwapArea D → gmap Z (option bytes) → Prop :=
| reach_new : reaches a0 a0 ∅
| reach_step a h op a' ans :
    reaches a0 a h → allowed h op → run_op a op = Ret (a', ans) → reaches a0 a' (after h op ans).
End Swap.
