(* ===== verification/SwapTheorems.v ===== *)
(** * Theorems on the swap area

    Slots are handed out once, a page reads back as it was written, and the area
    never panics for a client that keeps to its slots.  The area that is found by
    its signature overwrites that signature. *)

From stdpp Require Import base tactics decidable numbers list gmap.
From Stdlib Require Import ZArith Lia Bool.
From S2P Require Import Prelude Bytes BlockDevice CryptDevice BlockRuns PageCodec Swap.

Lemma blocks_per_page : BLOCKS_PER_PAGE = 8.
Proof. by vm_compute. Qed.

Lemma page_blocks : PAGE_SIZE = (8 * BLOCK_SIZE)%nat.
Proof. by vm_compute. Qed.

Section Invariant.
Context {D : Type} `{RunContract D}.

(** Block [i] of slot [s]. *)
Definition slot_block (a : SwapArea D) (s : Z) (i : nat) : Z := start_lba a + 8 * s + Z.of_nat i.

Record swap_inv (a : SwapArea D) (h : gmap Z (option bytes)) : Prop := {
  inv_dev : dev_ok (device a);
  inv_range : 0 ≤ start_lba a ∧ start_lba a + 8 * total_pages a ≤ u64_max;
  inv_quiet : ∀ x, flying (blocks (device a) x) = false;
  inv_nodup : NoDup (free_slots a);
  inv_split : ∀ s, s ∈ free_slots a ↔ 0 ≤ s < total_pages a ∧ h !! s = None;
  inv_held : ∀ s, is_Some (h !! s) → 0 ≤ s < total_pages a;
  inv_pages : ∀ s page, h !! s = Some (Some page) → length page = PAGE_SIZE ∧
    ∀ i, (i < 8)%nat → blocks (device a) (slot_block a s i) = Stable (sector page i);
}.

(** Every block of the area is taken and answered. *)
Definition sound (a : SwapArea D) : Prop :=
  ∀ x, start_lba a ≤ x < start_lba a + 8 * total_pages a →
    takes (device a) x = true ∧ answers (device a) x = true.

Lemma new_inv room (d : D) start n a :
  dev_ok d → (∀ x, flying (blocks d x) = false) → 0 ≤ start → 0 ≤ n →
  SwapArea_new room d start n = Ok a → swap_inv a ∅ ∧ total_pages a = n ∧ device a = d ∧ start_lba a = start.
Proof.
  intros Hd Hq Hs Hn. unfold SwapArea_new. destruct (n =? 0); [done|].
  unfold checked_mul, checked_add. rewrite blocks_per_page. destruct (Z.leb_spec (n * 8) u64_max); [|done].
  destruct (Z.leb_spec (start + n * 8) u64_max); [|done].
  destruct (block_count d <? start + n * 8); [done|]. destruct (negb (room n)); [done|]. intros [= <-].
  split; [|done]. split; cbn [device start_lba total_pages free_slots]; try done.
  - lia.
  - apply NoDup_seqZ.
  - intros s. rewrite elem_of_seqZ, lookup_empty. split; [intros; split; [lia|done]|lia].
  - intros s [? E]. by rewrite lookup_empty in E.
Qed.

(** The slots in use and the free ones are all of them. *)
Lemma inv_count a h : swap_inv a h → 0 ≤ total_pages a →
  Z.of_nat (size h) + free_pages a = total_pages a.
Proof.
  intros Hi Hn. unfold free_pages.
  assert (E : dom h ∪ list_to_set (free_slots a) =@{gset Z} list_to_set (seqZ 0 (total_pages a))).
  { apply set_eq. intros s. rewrite elem_of_union, elem_of_dom, !elem_of_list_to_set, elem_of_seqZ, (inv_split a h Hi).
    pose proof (inv_held a h Hi s) as Hh. destruct (h !! s); split.
    - intros _. specialize (Hh ltac:(eauto)). lia.
    - intros _. left. eauto.
    - intros [[? ?]|[? _]]; [done|lia].
    - intros. right. split; [lia|done]. }
  apply (f_equal size) in E. rewrite size_union, size_dom in E.
  - rewrite !size_list_to_set in E by (apply NoDup_seqZ || apply (inv_nodup a h Hi)).
    rewrite length_seqZ in E. lia.
  - intros s Hs%elem_of_dom Hf%elem_of_list_to_set. apply (inv_split a h Hi) in Hf as [_ E0].
    rewrite E0 in Hs. by destruct Hs.
Qed.

Lemma slot_lba_ok a h s : swap_inv a h → is_Some (h !! s) →
  slot_lba a s = Ret (start_lba a + 8 * s) ∧ is_run (start_lba a + 8 * s) 8.
Proof.
  intros Hi Hs. apply (inv_held a h Hi) in Hs. destruct (inv_range a h Hi).
  unfold slot_lba, checked_mul, checked_add. rewrite blocks_per_page.
  rewrite (proj2 (Z.leb_le _ _)) by lia. rewrite (proj2 (Z.leb_le _ _)) by lia.
  split; [f_equal; lia|]. split; lia.
Qed.

Lemma allocate_ok a h : swap_inv a h → 0 ≤ total_pages a →
  let '(a', slot) := allocate_slot a in
  right (total_pages a) h Allocate (Slot slot) ∧ swap_inv a' (after h Allocate (Slot slot)).
Proof.
  intros Hi Hn. pose proof (inv_count a h Hi Hn) as Hc. unfold allocate_slot, free_pages in *.
  pose proof (inv_split a h Hi) as Hs. pose proof (inv_nodup a h Hi) as Hnd. pose proof (inv_held a h Hi) as Hh.
  destruct (free_slots a) as [|s rest] eqn:Ef; cbn in *; [split; [lia|done]|].
  apply NoDup_cons in Hnd as [Hns Hnd]. destruct (proj1 (Hs s) ltac:(by left)) as [Hr Hfree]. split; [done|].
  split; cbn; try apply Hi; try done.
  - intros s'. rewrite lookup_insert_None. split.
    + intros Hin. destruct (proj1 (Hs s') ltac:(by right)). split; [done|]. split; [done|]. by intros ->.
    + intros (Hr' & E & Hne). pose proof (proj2 (Hs s') (conj Hr' E)) as Hin. apply elem_of_cons in Hin as [|]; [congruence|done].
  - intros s'. destruct (decide (s' = s)) as [->|Hne]; [lia|]. rewrite lookup_insert_ne by done. apply Hh.
  - intros s' page E. apply lookup_insert_Some in E as [[_ ?]|[_ E]]; [done|]. by apply (inv_pages a h Hi).
Qed.

Lemma free_ok a h s : swap_inv a h → is_Some (h !! s) → swap_inv (free_slot a s) (delete s h).
Proof.
  intros Hi Hs. pose proof (inv_held a h Hi) as Hh. split; cbn; try apply Hi.
  - apply NoDup_cons. split; [|apply (inv_nodup a h Hi)]. intros [_ E]%(inv_split a h Hi). rewrite E in Hs. by destruct Hs.
  - intros s'. rewrite elem_of_cons, lookup_delete_None, (inv_split a h Hi). split.
    + intros [-> |[? ?]]; [split; [by apply Hh|by left]|by split; [|right]].
    + intros [? [-> |?]]; [by left|by right].
  - intros s' [x E]. apply lookup_delete_Some in E as [_ E]. apply Hh. eauto.
  - intros s' page E. apply lookup_delete_Some in E as [_ E]. by apply (inv_pages a h Hi).
Qed.

Lemma write_ok a h s data : swap_inv a h → is_Some (h !! s) → length data = PAGE_SIZE → is_bytes data →
  ∃ d r, write_page a s data = Ret (with_device a d, r) ∧
    swap_inv (with_device a d) (<[s := match r with Ok _ => Some data | Err _ => None end]> h) ∧
    (∀ x, takes d x = takes (device a) x) ∧ (∀ x, answers d x = answers (device a) x) ∧
    (sound a → is_ok r = true).
Proof.
  intros Hi Hs Hl Hb. pose proof (inv_held a h Hi) as Hh. destruct (slot_lba_ok a h s Hi Hs) as [El Hrun].
  unfold write_page. rewrite Hl, Nat.eqb_refl. cbn [negb]. rewrite El. cbn [mbind outcome_bind].
  destruct (run_law (device a) (start_lba a + 8 * s) 8 data (inv_dev a h Hi) Hrun)
    as (d & r & -> & Hd & [Ho Hw] & Ht & Ha & Hok).
  { split; [by rewrite Hl, page_blocks|done]. }
  { intros i _. apply (inv_quiet a h Hi). }
  cbn [mbind outcome_bind]. exists d, r. split; [done|]. split; [|split; [done|split; [done|]]].
  - split; cbn; try apply Hi; try done.
    + intros x. destruct (decide (x < start_lba a + 8 * s ∨ start_lba a + 8 * s + 8 ≤ x)) as [Hx|Hx].
      { rewrite Ho by done. apply (inv_quiet a h Hi). }
      specialize (Hw (Z.to_nat (x - (start_lba a + 8 * s))) ltac:(lia)).
      replace (start_lba a + 8 * s + Z.of_nat (Z.to_nat (x - (start_lba a + 8 * s)))) with x in Hw by lia.
      pose proof (inv_quiet a h Hi x). destruct r; cbn in Hw; [by rewrite Hw|by destruct Hw as [-> | ->]].
    + intros s'. rewrite lookup_insert_None, (inv_split a h Hi).
      split; [|by intros (? & ? & _)]. intros [? E]. split; [done|]. split; [done|]. intros ->. rewrite E in Hs. by destruct Hs.
    + intros s'. destruct (decide (s' = s)) as [->|Hne]; [by intros; apply Hh|]. rewrite lookup_insert_ne by done. apply Hh.
    + intros s' page E. apply lookup_insert_Some in E as [[<- E]|[Hne E]].
      * destruct r; [|done]. injection E as ->. split; [done|]. intros i Hi'. apply (Hw i Hi').
      * destruct (inv_pages a h Hi s' page E) as [? Hp]. split; [done|]. intros i Hi'. rewrite <- Hp by done.
        unfold slot_block. cbn. apply Ho. lia.
  - intros Hso. apply Hok. intros i Hi'. apply Hso. specialize (Hh s Hs). lia.
Qed.

Lemma read_ok a h s : swap_inv a h → is_Some (h !! s) →
  ∃ d r, read_page a s PAGE_SIZE = Ret (with_device a d, r) ∧ swap_inv (with_device a d) h ∧
    right (total_pages a) h (ReadPage s) (Page r) ∧
    (∀ x, takes d x = takes (device a) x) ∧ (∀ x, answers d x = answers (device a) x) ∧
    (sound a → is_ok r = true).
Proof.
  intros Hi Hs. pose proof (inv_held a h Hi s Hs) as Hh. destruct (slot_lba_ok a h s Hi Hs) as [El Hrun].
  pose proof Hrun as (Hz & _ & Hm). unfold read_page. rewrite Nat.eqb_refl. cbn [negb]. rewrite El. cbn [mbind outcome_bind].
  rewrite page_blocks. destruct (read_law (device a) (start_lba a + 8 * s) 8 (inv_dev a h Hi) Hz Hm)
    as (d & r & E & Hd & Hb & Hr). rewrite E. cbn [mbind outcome_bind]. exists d, r.
  split; [done|]. split; [|split; [|split; [|split]]].
  - split; cbn; try apply Hi; [done| |].
    + intros x. rewrite Hb. apply (inv_quiet a h Hi).
    + intros s' page Ep. destruct (inv_pages a h Hi s' page Ep) as [? Hp]. split; [done|]. intros i Hi'.
      rewrite Hb. by apply Hp.
  - cbn. intros data ->. destruct (Hr data eq_refl) as [Ld Hdata]. split; [done|]. intros page Ep.
    destruct (inv_pages a h Hi s page Ep) as [Lp Hp]. apply (sectors_eq 8); [done|by rewrite Lp|].
    intros i Hi'. by apply Hdata, Hp.
  - intros x. by eapply read_takes; [apply Hi|].
  - intros x. by eapply read_answers; [apply Hi|].
  - intros Hso. eapply answer_law; [apply Hi|done| |exact E]. intros i Hi'. apply Hso. lia.
Qed.

(** One step of the client. *)
Lemma swap_step_ok a h op : swap_inv a h → 0 ≤ total_pages a → allowed h op →
  ∃ a' ans, run_op a op = Ret (a', ans) ∧ right (total_pages a) h op ans ∧ swap_inv a' (after h op ans) ∧
    start_lba a' = start_lba a ∧ total_pages a' = total_pages a ∧
    (sound a → sound a' ∧ served ans).
Proof.
  intros Hi Hn Ha. destruct op as [|s|s data|s]; cbn [run_op allowed] in *.
  - pose proof (allocate_ok a h Hi Hn) as Hal. unfold allocate_slot in *.
    destruct (free_slots a) as [|s rest]; destruct Hal; eexists _, _; (split; [done|]); (split; [done|]); (split; [done|]);
      done.
  - eexists _, _. split; [done|]. split; [done|]. split; [by apply free_ok|]. done.
  - destruct Ha as (Hs & Hl & Hb). destruct (write_ok a h s data Hi Hs Hl Hb) as (d & r & -> & Hi' & Ht & Han & Hso).
    cbn [mbind outcome_bind]. eexists _, _. split; [done|]. split; [done|].
    split; [by destruct r|]. split; [done|]. split; [done|]. intros Hs'. split; [|by apply Hso].
    intros x Hx. cbn. rewrite Ht, Han. by apply Hs'.
  - destruct (read_ok a h s Hi Ha) as (d & r & -> & Hi' & Hr & Ht & Han & Hso).
    cbn [mbind outcome_bind]. eexists _, _. split; [done|]. split; [done|].
    split; [done|]. split; [done|]. split; [done|]. intros Hs'. split; [|by apply Hso].
    intros x Hx. cbn. rewrite Ht, Han. by apply Hs'.
Qed.

Lemma reaches_inv a0 a h : swap_inv a0 ∅ → 0 ≤ total_pages a0 → reaches a0 a h →
  swap_inv a h ∧ start_lba a = start_lba a0 ∧ total_pages a = total_pages a0 ∧ (sound a0 → sound a).
Proof.
  intros H0' Hn Hr. induction Hr as [|a h op a' ans _ (Hi & Es & Et & Hso) Hal E]; [done|].
  destruct (swap_step_ok a h op Hi ltac:(lia) Hal) as (a1 & ans1 & E1 & _ & Hi1 & Es1 & Et1 & Hso1).
  rewrite E in E1. simplify_eq. split; [done|]. split; [congruence|]. split; [congruence|]. intros Hs. by apply Hso1, Hso.
Qed.

(** C13. A swap area serves its client.  Whatever slots the client has taken, freed,
    written and read so far, the slots it holds are slots of the area and
    [used_pages] counts them; and whatever it asks next is answered without a
    panic, with a slot nobody holds or none when all are held, and with the page
    last written to the slot.  On a device that takes and answers every block of
    the area, no request fails. *)
Theorem swap_serves_pages room (d : D) start n a0 :
  dev_ok d → (∀ x, flying (blocks d x) = false) → 0 ≤ start → 0 ≤ n →
  SwapArea_new room d start n = Ok a0 →
  ∀ a h, reaches a0 a h →
    (∀ s, is_Some (h !! s) → 0 ≤ s < n) ∧ used_pages a = Ret (Z.of_nat (size h)) ∧
    ∀ op, allowed h op → ∃ a' ans, run_op a op = Ret (a', ans) ∧ right n h op ans ∧ (sound a0 → served ans).
Proof.
  intros Hd Hq Hs Hn E a h Hr. destruct (new_inv room d start n a0 Hd Hq Hs Hn E) as (Hi0 & En & _).
  destruct (reaches_inv a0 a h Hi0 ltac:(lia) Hr) as (Hi & _ & Et & Hso).
  assert (Eta : total_pages a = n) by congruence. split; [|split].
  - intros s Hsome. rewrite <- Eta. by apply (inv_held a h Hi).
  - pose proof (inv_count a h Hi ltac:(lia)). unfold used_pages, free_pages in *.
    rewrite checked_sub_small by lia. f_equal. lia.
  - intros op Hal. destruct (swap_step_ok a h op Hi ltac:(lia) Hal) as (a' & ans & E' & Hri & _ & _ & _ & Hso').
    exists a', ans. rewrite Eta in Hri. split; [done|]. split; [done|]. intros Hs0. by apply Hso', Hso.
Qed.

(** An area that has a slot has pages. *)
Lemma new_nonneg room (d : D) start n a0 a1 s :
  SwapArea_new room d start n = Ok a0 → allocate_slot a0 = (a1, Some s) → 0 ≤ n.
Proof.
  intros En Ea. destruct (Z.lt_ge_cases n 0) as [Hlt|]; [|lia]. exfalso.
  unfold SwapArea_new in En. destruct (n =? 0); [done|]. destruct (checked_mul _ _); [|done].
  destruct (checked_add _ _); [|done]. destruct (_ <? _); [done|]. destruct (negb _); [done|]. simplify_eq.
  unfold allocate_slot in Ea. cbn [free_slots] in Ea. by rewrite seqZ_nil in Ea by lia.
Qed.

(** What the probe reads: the first block. *)
Lemma probe_reads (d : D) : dev_ok d →
  ∃ d' r, probe_device d = Ret (d', r) ∧ dev_ok d' ∧ (∀ x, blocks d' x = blocks d x) ∧
    (∀ start n, r = Some (start, n) → start = 0) ∧
    (∀ b, blocks d 0 = Stable b → take 8 b ≠ SWAP_MAGIC → r = None).
Proof.
  intros Hd. destruct (read_law d 0 1 Hd ltac:(lia) ltac:(unfold u64_max; lia)) as (d' & r & Er & Hd' & Hb & Hr).
  unfold probe_device. replace BLOCK_SIZE with (1 * BLOCK_SIZE)%nat by lia. rewrite Er. cbn [mbind outcome_bind].
  destruct r as [header|]; [|by exists d', None]. destruct (Hr header eq_refl) as [_ Hh].
  case_bool_decide as Hm; cbn [negb]; [|by exists d', None].
  destruct (_ =? 0); [by exists d', None|]. exists d', (Some (0, from_le (slice header 8 16))).
  split; [done|]. split; [done|]. split; [done|]. split; [by intros start n [= <- _]|]. intros b Eb Hne.
  specialize (Hh 0%nat b ltac:(lia) Eb). destruct Hne. rewrite <- Hm, <- Hh.
  unfold sector, slice. by rewrite Nat.mul_0_l, drop_0, take_take.
Qed.

(** C37. The signature and the pages share the first block: once the area a device's
    signature describes has written its first page, the device has no signature,
    unless the page starts with one. *)
Theorem first_page_erases_signature room (d d1 : D) start n a0 a1 a2 page :
  dev_ok d → (∀ x, flying (blocks d x) = false) → is_bytes page → take 8 page ≠ SWAP_MAGIC →
  probe_device d = Ret (d1, Some (start, n)) →
  SwapArea_new room d1 start n = Ok a0 → allocate_slot a0 = (a1, Some 0) →
  write_page a1 0 page = Ret (a2, Ok ()) →
  ∃ d2, probe_device (device a2) = Ret (d2, None).
Proof.
  intros Hd Hq Hb Hm Ep En Ea Ew. destruct (probe_reads d Hd) as (d' & r & Ep' & Hd1 & Hb1 & Hst & _).
  rewrite Ep in Ep'. simplify_eq. rewrite (Hst start n eq_refl) in *.
  pose proof (new_nonneg room d' 0 n a0 a1 0 En Ea) as Hn.
  destruct (new_inv room d' 0 n a0 Hd1 ltac:(intros x; by rewrite Hb1) ltac:(lia) Hn En) as (Hi0 & Et & _ & Es).
  pose proof (allocate_ok a0 ∅ Hi0 ltac:(lia)) as Hal. rewrite Ea in Hal. destruct Hal as [_ Hi1].
  assert (Es1 : start_lba a1 = 0) by (unfold allocate_slot in Ea; destruct (free_slots a0); by simplify_eq).
  assert (Hl : length page = PAGE_SIZE).
  { unfold write_page in Ew. destruct (Nat.eqb_spec (length page) PAGE_SIZE); [done|]. by simplify_eq. }
  cbn [after] in Hi1. assert (Hs : is_Some (<[0:=None]> (∅ : gmap Z (option bytes)) !! 0)) by (by rewrite lookup_insert_eq).
  destruct (write_ok a1 _ 0 page Hi1 Hs Hl Hb) as (d2 & r2 & E2 & Hi2 & _).
  rewrite Ew in E2. simplify_eq. destruct (inv_pages _ _ Hi2 0 page ltac:(by rewrite lookup_insert_eq)) as [_ Hp].
  specialize (Hp 0%nat ltac:(lia)). unfold slot_block in Hp.
  cbn [with_device device start_lba Z.of_nat Z.mul Z.add] in Hp. rewrite Es1 in Hp.
  destruct (probe_reads d2 (inv_dev _ _ Hi2)) as (d3 & r3 & E3 & _ & _ & _ & Hno). exists d3.
  cbn [device with_device]. rewrite E3, (Hno _ Hp); [done|].
  unfold sector, slice. by rewrite Nat.mul_0_l, drop_0, take_take.
Qed.
End Invariant.

(** ** Witnesses *)

(** A disk of sixteen blocks with the signature of an area of two pages. *)
Definition swap_disk : MemoryBlockDevice :=
  mkMemory (SWAP_MAGIC ++ [2; 0; 0; 0; 0; 0; 0; 0] ++ replicate (Z.to_nat 8176) 0) false.

Definition swap_demo : SwapArea MemoryBlockDevice := mkSwap swap_disk 0 2 [0; 1].

Lemma swap_disk_ok : dev_ok swap_disk ∧ ∀ x, flying (blocks swap_disk x) = false.
Proof.
  split; [split; [|by vm_compute]|].
  - apply is_bytes_app. split; [by repeat constructor|]. apply is_bytes_app. split; [by repeat constructor|].
    by apply Forall_replicate.
  - intros x. cbn. unfold memory_blocks. by case_decide.
Qed.

Lemma swap_demo_new : SwapArea_new (λ _, true) swap_disk 0 2 = Ok swap_demo.
Proof. by vm_compute. Qed.

Lemma swap_demo_sound : sound swap_demo.
Proof.
  intros x Hx. cbn [swap_demo start_lba total_pages device] in *. cbn [takes answers memory_contract memory_runs].
  unfold memory_takes, memory_answers. cbn [swap_disk mem_read_only negb andb].
  assert (in_memory swap_disk x 1); [|by rewrite !bool_decide_true].
  unfold in_memory, swap_disk. cbn [storage]. rewrite !length_app, length_replicate.
  unfold SWAP_MAGIC, BLOCK_SIZE. cbn [length]. lia.
Qed.

Lemma swap_serves_pages_witness :
  ∃ a' ans, run_op (mkSwap swap_disk 0 2 [1]) (WritePage 0 (replicate PAGE_SIZE 7)) = Ret (a', ans) ∧ served ans.
Proof.
  destruct (swap_serves_pages (λ _, true) swap_disk 0 2 swap_demo (proj1 swap_disk_ok) (proj2 swap_disk_ok)
              ltac:(lia) ltac:(lia) swap_demo_new (mkSwap swap_disk 0 2 [1]) (<[0 := None]> ∅)) as (_ & _ & Hop).
  - exact (reach_step swap_demo swap_demo ∅ Allocate _ (Slot (Some 0)) (reach_new _) I eq_refl).
  - destruct (Hop (WritePage 0 (replicate PAGE_SIZE 7))) as (a' & ans & E & _ & Hs).
    + split; [by rewrite lookup_insert_eq|]. split; [apply length_replicate|]. apply Forall_replicate. unfold is_byte; lia.
    + exact (ex_intro _ a' (ex_intro _ ans (conj E (Hs swap_demo_sound)))).
Defined.

Lemma first_page_erases_signature_witness :
  ∃ a2 d2, write_page (mkSwap swap_disk 0 2 [1]) 0 (replicate PAGE_SIZE 7) = Ret (a2, Ok ()) ∧
    probe_device (device a2) = Ret (d2, None).
Proof.
  exists (mkSwap (mkMemory (replicate PAGE_SIZE 7 ++ replicate PAGE_SIZE 0) false) 0 2 [1]).
  assert (Ew : write_page (mkSwap swap_disk 0 2 [1]) 0 (replicate PAGE_SIZE 7) =
    Ret (mkSwap (mkMemory (replicate PAGE_SIZE 7 ++ replicate PAGE_SIZE 0) false) 0 2 [1], Ok ())) by (by vm_compute).
  assert (Ep : probe_device swap_disk = Ret (swap_disk, Some (0, 2))) by (by vm_compute).
  destruct (first_page_erases_signature (λ _, true) swap_disk swap_disk 0 2 swap_demo (mkSwap swap_disk 0 2 [1])
              (mkSwap (mkMemory (replicate PAGE_SIZE 7 ++ replicate PAGE_SIZE 0) false) 0 2 [1]) (replicate PAGE_SIZE 7))
    as [d2 E].
  - exact (proj1 swap_disk_ok).
  - exact (proj2 swap_disk_ok).
  - apply Forall_replicate. unfold is_byte; lia.
  - by vm_compute.
  - exact Ep.
  - exact swap_demo_new.
  - reflexivity.
  - exact Ew.
  - exact (ex_intro _ d2 (conj Ew E)).
Defined.
