(* ===== verification/PageTable.v ===== *)
(** * The software page table (src/memory/paging.rs)

    One table of mappings for the whole machine, each owned by an address space.
    Mapping, unmapping with the fragments that stay, translation as an address
    space sees it, and the updates of a mapping in place. *)

From stdpp Require Import base tactics decidable numbers list.
From Stdlib Require Import ZArith Lia Bool.
From S2P Require Import Prelude Bytes PageCodec.

Definition PAGE : Z := Z.of_nat PAGE_SIZE.

Inductive AdviceHint : Type := Normal | Random | Sequential.

#[global] Instance AdviceHint_eq_dec : EqDecision AdviceHint.
Proof. solve_decision. Defined.

Inductive MappingKind : Type :=
| KernelHeap | KernelStack | Anonymous | Identity | DeviceMemory | DemandPaged | Cow | Shared | Locked.

#[global] Instance MappingKind_eq_dec : EqDecision MappingKind.
Proof. solve_decision. Defined.

(** An address space is the address of its root table. *)
Definition AddressSpaceId : Type := Z.
Definition KERNEL : AddressSpaceId := 0.

(** [self.matches(wanted)]. *)
Definition matches (self wanted : AddressSpaceId) : bool := (wanted =? self) || (self =? KERNEL).

(** Permission bits. *)
Definition READ : Z := 1.
Definition WRITE : Z := 2.
Definition EXECUTE : Z := 4.
Definition READ_WRITE : Z := Z.lor READ WRITE.
Definition READ_EXECUTE : Z := Z.lor READ EXECUTE.
Definition contains (self other : Z) : bool := Z.land self other =? other.

(** What a page that is shared after a fork may do in the child. *)
Definition fork_child_permissions (permissions : Z) : Z :=
  if contains permissions WRITE then
    if contains permissions EXECUTE then READ_EXECUTE else READ
  else permissions.

Record Mapping := mkMapping {
  m_virtual_address : Z;
  m_physical_address : Z;
  m_length : Z;
  m_permissions : Z;
  m_kind : MappingKind;
  m_accessed : bool;
  m_advice : AdviceHint;
  m_owner : Z;  (** an [AddressSpaceId] *)
}.

Record PageTable := mkPageTable { mappings : list Mapping; initialized : bool }.

Definition PageTable_new : PageTable := mkPageTable [] false.
Definition PageTable_init (t : PageTable) : PageTable := mkPageTable (mappings t) true.

(** ** Addresses *)

Definition align_down (value : Z) : Z := Z.land value (unot64 (PAGE - 1)).
Definition align_up (value : Z) : option Z := align_down <$> checked_add value (PAGE - 1).
Definition range_end (start len : Z) : option Z := checked_add start len.

(** The pages [len] bytes at an address touch: their start and length. *)
Definition normalize_virtual_range (virtual_address len : Z) : result (Z * Z) :=
  if len =? 0 then Err InvalidArgument else
  let start := align_down virtual_address in
  let offset := Z.land virtual_address (PAGE - 1) in
  match checked_add offset len with
  | None => Err InvalidArgument
  | Some span =>
      match align_up span with
      | None => Err InvalidArgument
      | Some len =>
          match range_end start len with
          | None => Err InvalidArgument
          | Some _ => Ok (start, len)
          end
      end
  end.

Definition normalize_mapping (virtual_address physical_address len : Z) : result (Z * Z * Z) :=
  let virtual_offset := Z.land virtual_address (PAGE - 1) in
  let physical_offset := Z.land physical_address (PAGE - 1) in
  if negb (virtual_offset =? physical_offset) then Err InvalidArgument else
  match normalize_virtual_range virtual_address len with
  | Err e => Err e
  | Ok (start, len) =>
      let physical_start := align_down physical_address in
      match range_end physical_start len with
      | None => Err InvalidArgument
      | Some _ => Ok (start, physical_start, len)
      end
  end.

Definition overlaps (m : Mapping) (start len : Z) : bool :=
  match range_end (m_virtual_address m) (m_length m) with
  | None => true
  | Some self_end =>
      match range_end start len with
      | None => true
      | Some end_ => (m_virtual_address m <? end_) && (start <? self_end)
      end
  end.

Definition mapping_covers (m : Mapping) (address : Z) : bool :=
  match range_end (m_virtual_address m) (m_length m) with
  | None => false
  | Some end_ => (m_virtual_address m <=? address) && (address <? end_)
  end.

(** ** Mapping and unmapping

    [room] says whether the allocator has memory for that many more entries. *)
Definition map_to_owned (room : nat → bool) (t : PageTable) (owner : AddressSpaceId)
    (virtual_address physical_address len permissions : Z) (kind : MappingKind) : PageTable * result unit :=
  if negb (initialized t) then (t, Err InvalidArgument) else
  match normalize_mapping virtual_address physical_address len with
  | Err e => (t, Err e)
  | Ok (virtual_address, physical_address, len) =>
      if existsb (λ m, matches (m_owner m) owner && overlaps m virtual_address len) (mappings t)
      then (t, Err AlreadyExists) else
      if negb (room 1%nat) then (t, Err OutOfMemory) else
      (mkPageTable
         (mappings t ++ [mkMapping virtual_address physical_address len permissions kind false Normal owner])
         (initialized t),
       Ok ())
  end.

(** What stays of a mapping that meets the range [start, end_). *)
Definition prefix_fragment (m : Mapping) (unmap_start : Z) : list Mapping :=
  if m_virtual_address m <? unmap_start then
    [mkMapping (m_virtual_address m) (m_physical_address m) (unmap_start - m_virtual_address m)
       (m_permissions m) (m_kind m) (m_accessed m) (m_advice m) (m_owner m)]
  else [].

Definition suffix_fragment (m : Mapping) (mapping_end unmap_end : Z) : outcome (list Mapping) :=
  if unmap_end <? mapping_end then
    let removed_prefix := unmap_end - m_virtual_address m in
    match checked_add (m_physical_address m) removed_prefix with
    | None => Panic
    | Some physical_address =>
        Ret [mkMapping unmap_end physical_address (mapping_end - unmap_end)
               (m_permissions m) (m_kind m) false (m_advice m) (m_owner m)]
    end
  else Ret [].

(** [for mapping in self.mappings]: the entries that stay and whether one met the
    range; [None] is the early [Err(InternalError)]. *)
Fixpoint unmap_loop (owner : AddressSpaceId) (unmap_start unmap_end : Z) (l next : list Mapping) (found : bool)
    : outcome (option (list Mapping * bool)) :=
  match l with
  | [] => Ret (Some (next, found))
  | m :: l =>
      match range_end (m_virtual_address m) (m_length m) with
      | None => Ret None
      | Some mapping_end =>
          if negb (matches (m_owner m) owner) || (mapping_end <=? unmap_start) ||
             (unmap_end <=? m_virtual_address m)
          then unmap_loop owner unmap_start unmap_end l (next ++ [m]) found
          else
            suffix ← suffix_fragment m mapping_end unmap_end;
            unmap_loop owner unmap_start unmap_end l (next ++ prefix_fragment m unmap_start ++ suffix) true
      end
  end.

Definition unmap_owned (room : nat → bool) (t : PageTable) (owner : AddressSpaceId) (virtual_address len : Z)
    : outcome (PageTable * result unit) :=
  if negb (initialized t) then Ret (t, Err InvalidArgument) else
  match normalize_virtual_range virtual_address len with
  | Err e => Ret (t, Err e)
  | Ok (unmap_start, unmap_length) =>
      match range_end unmap_start unmap_length with
      | None => Ret (t, Err InvalidArgument)
      | Some unmap_end =>
          if negb (room (S (length (mappings t)))) then Ret (t, Err OutOfMemory) else
          r ← unmap_loop owner unmap_start unmap_end (mappings t) [] false;
          match (r : option (list Mapping * bool)) with
          | None => Ret (t, Err InternalError)
          | Some (next, found) =>
              if found then Ret (mkPageTable next (initialized t), Ok ()) else Ret (t, Err NotFound)
          end
      end
  end.

(** ** Translation *)

Definition find_owned (t : PageTable) (owner : AddressSpaceId) (address : Z) : option Mapping :=
  find (λ m, (m_owner m =? owner) && mapping_covers m address) (mappings t).

Definition lookup_mapping_owned (t : PageTable) (owner : AddressSpaceId) (address : Z)
    : outcome (option (Z * Z * MappingKind)) :=
  let chosen := match find_owned t owner address with Some m => Some m | None => find_owned t KERNEL address end in
  match chosen with
  | None => Ret None
  | Some m =>
      match checked_add (m_physical_address m) (address - m_virtual_address m) with
      | None => Panic
      | Some physical => Ret (Some (physical, m_permissions m, m_kind m))
      end
  end.

(** ** Updates in place

    [iter_mut().find(..)]: the first mapping that starts at the page. *)
Fixpoint update_first (p : Mapping → bool) (f : Mapping → Mapping) (l : list Mapping) : option (list Mapping) :=
  match l with
  | [] => None
  | m :: l => if p m then Some (f m :: l) else (λ l, m :: l) <$> update_first p f l
  end.

Definition starts_at (owner : AddressSpaceId) (page_addr : Z) (m : Mapping) : bool :=
  (m_owner m =? owner) && (m_virtual_address m =? page_addr).

Definition update_mapping (t : PageTable) (owner : AddressSpaceId) (virtual_address : Z) (f : Mapping → Mapping)
    : PageTable * result unit :=
  match update_first (starts_at owner (align_down virtual_address)) f (mappings t) with
  | Some l => (mkPageTable l (initialized t), Ok ())
  | None => (t, Err NotFound)
  end.

Definition set_kind (kind : MappingKind) (m : Mapping) : Mapping :=
  mkMapping (m_virtual_address m) (m_physical_address m) (m_length m) (m_permissions m) kind
    (m_accessed m) (m_advice m) (m_owner m).
Definition set_accessed (accessed : bool) (m : Mapping) : Mapping :=
  mkMapping (m_virtual_address m) (m_physical_address m) (m_length m) (m_permissions m) (m_kind m)
    accessed (m_advice m) (m_owner m).
Definition set_advice (advice : AdviceHint) (m : Mapping) : Mapping :=
  mkMapping (m_virtual_address m) (m_physical_address m) (m_length m) (m_permissions m) (m_kind m)
    (m_accessed m) advice (m_owner m).
Definition set_permissions (permissions : Z) (m : Mapping) : Mapping :=
  mkMapping (m_virtual_address m) (m_physical_address m) (m_length m) permissions (m_kind m)
    (m_accessed m) (m_advice m) (m_owner m).
Definition set_phys (physical_address : Z) (m : Mapping) : Mapping :=
  mkMapping (m_virtual_address m) physical_address (m_length m) (m_permissions m) (m_kind m)
    (m_accessed m) (m_advice m) (m_owner m).

Definition mark_accessed_owned (t : PageTable) (owner : AddressSpaceId) (virtual_address : Z) : PageTable * bool :=
  let '(t, r) := update_mapping t owner virtual_address (set_accessed true) in
  (t, match r with Ok _ => true | Err _ => false end).

(** The accessed bit the mapping had. *)
Definition clear_accessed_owned (t : PageTable) (owner : AddressSpaceId) (virtual_address : Z)
    : PageTable * option bool :=
  let was := m_accessed <$> find (starts_at owner (align_down virtual_address)) (mappings t) in
  ((update_mapping t owner virtual_address (set_accessed false)).1, was).

Definition replace_mapping_kind_owned (t : PageTable) (owner : AddressSpaceId) (virtual_address : Z)
    (kind : MappingKind) : PageTable * result unit :=
  update_mapping t owner virtual_address (set_kind kind).

Definition replace_mapping_advice_owned (t : PageTable) (owner : AddressSpaceId) (virtual_address : Z)
    (advice : AdviceHint) : PageTable * result unit :=
  update_mapping t owner virtual_address (set_advice advice).

Definition replace_mapping_permissions_owned (t : PageTable) (owner : AddressSpaceId) (virtual_address permissions : Z)
    : PageTable * result unit :=
  update_mapping t owner virtual_address (set_permissions permissions).

Definition replace_mapping_phys_owned (t : PageTable) (owner : AddressSpaceId) (virtual_address physical_address : Z)
    : PageTable * result unit :=
  update_mapping t owner virtual_address (set_phys (align_down physical_address)).

(** The forms that act for the kernel's own mappings. *)
Definition map_to_with_kind room t va pa len permissions kind :=
  map_to_owned room t KERNEL va pa len permissions kind.
Definition unmap room t va len := unmap_owned room t KERNEL va len.
Definition lookup_mapping t address := lookup_mapping_owned t KERNEL address.
Definition replace_mapping_kind t va kind := replace_mapping_kind_owned t KERNEL va kind.
Definition replace_mapping_advice t va advice := replace_mapping_advice_owned t KERNEL va advice.
Definition replace_mapping_phys t va pa := replace_mapping_phys_owned t KERNEL va pa.
Definition map_region_with_kind room t va len permissions kind :=
  map_to_with_kind room t va va len permissions kind.

Definition mapping_count (t : PageTable) : nat := length (mappings t).
Definition mapping_count_by_kind (t : PageTable) (kind : MappingKind) : nat :=
  length (filter (λ m, m_kind m = kind) (mappings t)).
