(* ===== verification/PageTableTheorems.v ===== *)
(** * Theorems on the software page table

    The table refines a map from addresses to translations per address space:
    mapping adds the pages of its range, unmapping removes exactly the pages the
    owner can see, an update changes one mapping, and translation reads the map,
    the owner's own entry first. *)

From stdpp Require Import base tactics decidable numbers list sorting.
From Stdlib Require Import ZArith Lia Bool.
From S2P Require Import Prelude Bytes PageCodec PageTable.

(** ** Addresses *)

Lemma page_4096 : PAGE = 4096.
Proof. by vm_compute. Qed.

(** An address fits a register. *)
Definition word (x : Z) : Prop := 0 ≤ x ≤ u64_max.

Lemma align_down_spec v : word v → align_down v = v - v mod 4096.
Proof.
  intros [? ?]. unfold align_down. rewrite page_4096. apply (land_unot64_pow2 v 12); [unfold u64_max in *; lia|lia].
Qed.

Lemma land_page v : word v → Z.land v (PAGE - 1) = v mod 4096.
Proof. intros [? ?]. rewrite page_4096. change (4096 - 1) with (Z.ones 12). by rewrite Z.land_ones by lia. Qed.

(** [s] and [l] are the pages that [len] bytes at [va] touch. *)
Definition pages_of (va len s l : Z) : Prop :=
  s mod 4096 = 0 ∧ l mod 4096 = 0 ∧ s ≤ va ∧ va + len ≤ s + l ∧ va - s < 4096 ∧ s + l < va + len + 4096 ∧
  0 ≤ s ∧ 0 < l ∧ s + l ≤ u64_max.

Lemma mod_split v : 0 ≤ v mod 4096 < 4096 ∧ (v - v mod 4096) mod 4096 = 0.
Proof. split; [apply Z.mod_pos_bound; lia|]. rewrite Zminus_mod_idemp_r, Z.sub_diag. done. Qed.

Lemma normalize_range_ok va len s l : word va → word len →
  normalize_virtual_range va len = Ok (s, l) → pages_of va len s l.
Proof.
  intros Hva Hlen. unfold normalize_virtual_range. destruct (Z.eqb_spec len 0); [done|].
  rewrite align_down_spec, land_page by done. unfold checked_add at 1.
  destruct (Z.leb_spec (va mod 4096 + len) u64_max) as [Hs|]; [|done].
  unfold align_up, checked_add. rewrite page_4096. pose proof (mod_split va) as [? ?].
  destruct (Z.leb_spec (va mod 4096 + len + (4096 - 1)) u64_max) as [Hx|]; [|done]. cbn [fmap option_fmap option_map].
  rewrite align_down_spec by (destruct Hva, Hlen; split; lia).
  set (x := va mod 4096 + len + (4096 - 1)) in *. pose proof (mod_split x) as [? ?].
  unfold range_end, checked_add. destruct (Z.leb_spec (va - va mod 4096 + (x - x mod 4096)) u64_max); [|done].
  intros [= <- <-]. destruct Hva, Hlen. pose proof (Z.mod_le va 4096 ltac:(lia) ltac:(lia)).
  assert (Ex : x = va mod 4096 + len + (4096 - 1)) by reflexivity. clearbody x. unfold pages_of. repeat split; lia.
Qed.

Lemma normalize_mapping_ok va pa len s p l : word va → word pa → word len →
  normalize_mapping va pa len = Ok (s, p, l) →
  pages_of va len s l ∧ p = pa - pa mod 4096 ∧ va - s = pa - p ∧ 0 ≤ p ∧ p + l ≤ u64_max.
Proof.
  intros Hva Hpa Hlen. unfold normalize_mapping. rewrite !land_page by done.
  destruct (Z.eqb_spec (va mod 4096) (pa mod 4096)) as [Eo|]; [|done]. cbn [negb].
  destruct (normalize_virtual_range va len) as [[s' l']|] eqn:E; [|done].
  pose proof (normalize_range_ok va len s' l' Hva Hlen E) as Hp. rewrite align_down_spec by done.
  unfold range_end, checked_add. destruct (Z.leb_spec (pa - pa mod 4096 + l') u64_max); [|done].
  intros [= <- <- <-]. pose proof (mod_split va) as [? ?]. pose proof (mod_split pa) as [? ?].
  split; [done|]. split; [done|]. destruct Hpa.
  pose proof (Z.mod_le pa 4096 ltac:(lia) ltac:(lia)). split; [|lia].
  destruct Hp as (M1 & _ & ? & _ & ? & _).
  assert (va mod 4096 = va - s') as Em; [|lia].
  symmetry. apply (Zmod_unique_full va 4096 (s' / 4096)); [left; lia|].
  pose proof (Z.div_mod s' 4096 ltac:(lia)). lia.
Qed.

(** ** Well-formed tables *)

Definition m_end (m : Mapping) : Z := m_virtual_address m + m_length m.

(** Whole pages, at addresses that do not wrap. *)
Record mapping_ok (m : Mapping) : Prop := {
  ok_va : 0 ≤ m_virtual_address m ∧ m_virtual_address m mod 4096 = 0;
  ok_pa : 0 ≤ m_physical_address m ∧ m_physical_address m mod 4096 = 0;
  ok_len : 0 < m_length m ∧ m_length m mod 4096 = 0;
  ok_end : m_end m ≤ u64_max ∧ m_physical_address m + m_length m ≤ u64_max;
}.

(** Mappings of one owner do not share an address. *)
Definition apart (m n : Mapping) : Prop :=
  m_owner m = m_owner n → m_end m ≤ m_virtual_address n ∨ m_end n ≤ m_virtual_address m.

Definition table_ok (t : PageTable) : Prop :=
  Forall mapping_ok (mappings t) ∧ StronglySorted apart (mappings t).

Lemma covers_spec m a : mapping_ok m → mapping_covers m a = true ↔ m_virtual_address m ≤ a < m_end m.
Proof.
  intros Hm. destruct (ok_end m Hm) as [He _]. unfold mapping_covers, range_end, checked_add.
  rewrite (proj2 (Z.leb_le _ _)) by done. unfold m_end in *. rewrite andb_true_iff, Z.leb_le, Z.ltb_lt. lia.
Qed.

Lemma covers_false m a : mapping_ok m → ¬ (m_virtual_address m ≤ a < m_end m) → mapping_covers m a = false.
Proof. intros Hm Ha. destruct (mapping_covers m a) eqn:E; [|done]. by apply covers_spec in E. Qed.

Lemma overlaps_spec m s l : mapping_ok m → s + l ≤ u64_max →
  overlaps m s l = true ↔ m_virtual_address m < s + l ∧ s < m_end m.
Proof.
  intros Hm Hs. destruct (ok_end m Hm) as [He _]. unfold overlaps, range_end, checked_add.
  rewrite !(proj2 (Z.leb_le _ _)) by done. unfold m_end. rewrite andb_true_iff, !Z.ltb_lt. done.
Qed.

(** ** The map of an address space *)

Definition entry : Type := (Z * Z * MappingKind).

Definition translate (m : Mapping) (a : Z) : entry :=
  (m_physical_address m + (a - m_virtual_address m), m_permissions m, m_kind m).

Definition owns (o a : Z) (m : Mapping) : bool := (m_owner m =? o) && mapping_covers m a.

(** What [o]'s own mappings make of the address. *)
Definition view_of (l : list Mapping) (o a : Z) : option entry :=
  (λ m, translate m a) <$> find (owns o a) l.
Definition view (t : PageTable) (o a : Z) : option entry := view_of (mappings t) o a.

Lemma owns_spec o a m : mapping_ok m → owns o a m = true ↔ m_owner m = o ∧ m_virtual_address m ≤ a < m_end m.
Proof. intros. unfold owns. by rewrite andb_true_iff, Z.eqb_eq, covers_spec. Qed.

Lemma view_cons m l o a :
  view_of (m :: l) o a = if owns o a m then Some (translate m a) else view_of l o a.
Proof. unfold view_of. cbn. by destruct (owns o a m). Qed.

Lemma view_app l1 l2 o a :
  view_of (l1 ++ l2) o a = match view_of l1 o a with Some e => Some e | None => view_of l2 o a end.
Proof. induction l1 as [|m l1 IH]; [done|]. cbn [app]. rewrite !view_cons. by destruct (owns o a m). Qed.

Lemma view_none l o a : view_of l o a = None ↔ Forall (λ m, owns o a m = false) l.
Proof.
  induction l as [|m l IH]; [by split|]. rewrite view_cons, Forall_cons. destruct (owns o a m); [|by rewrite IH; split; [split|intros [_ ?]]].
  split; [done|by intros [? _]].
Qed.

Lemma view_some l o a : (∃ m, m ∈ l ∧ owns o a m = true) ↔ is_Some (view_of l o a).
Proof.
  split.
  - intros (m & Hm & Ho). destruct (view_of l o a) eqn:E; [done|]. apply view_none in E.
    rewrite Forall_forall in E. rewrite (E m Hm) in Ho. done.
  - intros [e E]. unfold view_of in E. apply fmap_Some in E as (m & E & _). apply find_some in E as [Hin E].
    exists m. split; [by apply list_elem_of_In|done].
Qed.

(** ** Mapping *)

Lemma apart_sym m n : apart m n → apart n m.
Proof. unfold apart. intros Hmn E. destruct (Hmn (eq_sym E)); auto. Qed.

(** What a mapping operation did, seen through the map. *)
Definition map_spec (owner va pa len perms : Z) (kind : MappingKind) (v v' : Z → Z → option entry) (r : result unit) : Prop :=
  match r with
  | Ok _ => ∃ s p l, pages_of va len s l ∧ va - s = pa - p ∧
      (∀ a, s ≤ a < s + l → v owner a = None ∧ v KERNEL a = None) ∧
      ∀ o a, v' o a = if decide (o = owner ∧ s ≤ a < s + l) then Some (p + (a - s), perms, kind) else v o a
  | Err e => (∀ o a, v' o a = v o a) ∧
      (e = AlreadyExists → ∃ s l a, pages_of va len s l ∧ s ≤ a < s + l ∧ (is_Some (v owner a) ∨ is_Some (v KERNEL a)))
  end.

(** Ranges that meet have an address in common. *)
Lemma meet_address m s l : mapping_ok m → 0 < l → m_virtual_address m < s + l ∧ s < m_end m →
  let a := Z.max s (m_virtual_address m) in s ≤ a < s + l ∧ m_virtual_address m ≤ a < m_end m.
Proof. intros Hm Hl Ho. destruct (ok_len m Hm). unfold m_end in *. cbn. lia. Qed.

Lemma matches_spec o w : matches o w = true ↔ o = w ∨ o = KERNEL.
Proof. unfold matches. rewrite orb_true_iff, !Z.eqb_eq. split; intros [|]; auto. Qed.

(** A range that meets no visible mapping is free. *)
Lemma no_overlap_free t owner s l : Forall mapping_ok (mappings t) → s + l ≤ u64_max →
  existsb (λ m, matches (m_owner m) owner && overlaps m s l) (mappings t) = false →
  ∀ a, s ≤ a < s + l → view t owner a = None ∧ view t KERNEL a = None.
Proof.
  intros Hok Hsl Ex a Ha. unfold view. rewrite !view_none. rewrite Forall_forall in Hok.
  assert (Hall : ∀ m, m ∈ mappings t → matches (m_owner m) owner && overlaps m s l = false).
  { intros m Hin. destruct (_ && _) eqn:Em; [|done].
    rewrite <- Ex. symmetry. apply existsb_exists. exists m. split; [by apply list_elem_of_In|done]. }
  split; apply Forall_forall; intros m Hin; specialize (Hok m Hin); specialize (Hall m Hin);
    destruct (owns _ a m) eqn:Eow; try done; apply owns_spec in Eow as [Eow Ham]; try done;
    rewrite (proj2 (overlaps_spec m s l Hok Hsl)), (proj2 (matches_spec _ _)) in Hall; auto; lia.
Qed.

Lemma map_to_owned_ok room t owner va pa len perms kind :
  table_ok t → word va → word pa → word len →
  let '(t', r) := map_to_owned room t owner va pa len perms kind in
  table_ok t' ∧ map_spec owner va pa len perms kind (view t) (view t') r.
Proof.
  intros Ht Hva Hpa Hlen. pose proof Ht as [Hok Hap]. unfold map_to_owned.
  destruct (initialized t); cbn [negb]; [|by split; [|split]].
  destruct (normalize_mapping va pa len) as [[[s p] l]|e] eqn:E; cycle 1.
  { split; [done|]. split; [done|]. intros ->. unfold normalize_mapping, normalize_virtual_range in E.
    repeat case_match; by simplify_eq. }
  pose proof (normalize_mapping_ok va pa len s p l Hva Hpa Hlen E) as (Hp & Ep & Eo & Hp0 & Hpl).
  pose proof Hp as (M1 & M2 & _ & _ & _ & _ & Hs & Hl & Hsl).
  destruct (existsb _ (mappings t)) eqn:Ex.
  - split; [done|]. split; [done|]. intros _. apply existsb_exists in Ex as (m & Hin & [Hm Ho]%andb_prop).
    apply list_elem_of_In in Hin. assert (Hmok : mapping_ok m) by (by rewrite Forall_forall in Hok; apply Hok).
    apply overlaps_spec in Ho; [|done|done]. pose proof (meet_address m s l Hmok Hl Ho) as [Ha Ham].
    exists s, l, (Z.max s (m_virtual_address m)). split; [done|]. split; [done|].
    apply matches_spec in Hm. unfold view. rewrite <- !view_some.
    destruct Hm as [<-|<-]; [left|right]; exists m; (split; [done|]); by apply owns_spec.
  - pose proof (no_overlap_free t owner s l Hok Hsl Ex) as Hfree.
    destruct (negb (room 1%nat)); [by split; [|split]|].
    set (m := mkMapping s p l perms kind false Normal owner).
    assert (Hm : mapping_ok m).
    { split; cbn; unfold m_end; cbn; try lia. split; [done|]. rewrite Ep. apply mod_split. }
    split; [split|].
    + cbn. apply Forall_app. split; [done|]. by apply Forall_singleton.
    + cbn. apply StronglySorted_app. split; [|split; [done|by repeat constructor]].
      intros x y Hx ->%list_elem_of_singleton Eow. cbn in Eow |- *. rewrite Forall_forall in Hok. specialize (Hok x Hx).
      unfold m_end at 2. cbn. destruct (decide (m_end x ≤ s ∨ s + l ≤ m_virtual_address x)); [done|exfalso].
      pose proof (meet_address x s l Hok Hl ltac:(lia)) as [Ha Hax]. destruct (Hfree _ Ha) as [Hn _].
      unfold view in Hn. rewrite view_none, Forall_forall in Hn. specialize (Hn x Hx).
      rewrite (proj2 (owns_spec _ _ _ Hok)) in Hn; [done|by rewrite Eow].
    + exists s, p, l. split; [done|]. split; [done|]. split; [done|]. intros o a. unfold view. cbn [mappings].
      rewrite view_app, view_cons. case_decide as Hc.
      * destruct Hc as [-> Ha]. destruct (Hfree a Ha) as [Hn _]. unfold view in Hn. rewrite Hn.
        by rewrite (proj2 (owns_spec owner a m Hm)).
      * destruct (owns o a m) eqn:Eow; [apply (owns_spec o a m Hm) in Eow as [? ?]; cbn in *; by destruct Hc|].
        by destruct (view_of (mappings t) o a).
Qed.

(** ** Unmapping *)

(** The mapping meets the range and its owner is visible. *)
Definition met (owner s e : Z) (m : Mapping) : bool :=
  matches (m_owner m) owner && (s <? m_end m) && (m_virtual_address m <? e).

(** The mappings that stay of one. *)
Definition pieces (owner s e : Z) (m : Mapping) : list Mapping :=
  if met owner s e m then
    prefix_fragment m s ++
    (if e <? m_end m then
       [mkMapping e (m_physical_address m + (e - m_virtual_address m)) (m_end m - e)
          (m_permissions m) (m_kind m) false (m_advice m) (m_owner m)]
     else [])
  else [m].

Lemma unmap_loop_ok owner s e l next found : Forall mapping_ok l →
  unmap_loop owner s e l next found =
  Ret (Some (next ++ concat (pieces owner s e <$> l), found || existsb (met owner s e) l)).
Proof.
  intros Hl. revert next found. induction Hl as [|m l Hm Hl IH]; intros next found.
  { cbn. by rewrite app_nil_r, orb_false_r. }
  destruct (ok_end m Hm) as [He Hp]. cbn [unmap_loop fmap list_fmap concat existsb]. unfold range_end.
  rewrite checked_add_small by done. fold (m_end m).
  assert (Eg : negb (matches (m_owner m) owner) || (m_end m <=? s) || (e <=? m_virtual_address m) = negb (met owner s e m)).
  { unfold met. rewrite !negb_andb, !Z.leb_antisym. done. }
  rewrite Eg. pose proof (eq_refl (pieces owner s e m)) as Ep. unfold pieces at 2 in Ep.
  destruct (met owner s e m) eqn:Em; cbn [negb]; rewrite Ep.
  - apply andb_prop in Em as [[_ ?]%andb_prop Hv%Z.ltb_lt]. unfold suffix_fragment.
    destruct (Z.ltb_spec e (m_end m)); cbn [mbind outcome_bind].
    + rewrite checked_add_small by (unfold m_end in *; lia). cbn [mbind outcome_bind]. rewrite IH.
      rewrite orb_true_r. by rewrite <- !app_assoc.
    + rewrite IH, orb_true_r. by rewrite <- !app_assoc.
  - rewrite IH. by rewrite <- app_assoc.
Qed.

(** A piece lies in its mapping. *)
Lemma pieces_inside owner s e m x : mapping_ok m → s mod 4096 = 0 → e mod 4096 = 0 → s < e →
  x ∈ pieces owner s e m →
  mapping_ok x ∧ m_owner x = m_owner m ∧ m_virtual_address m ≤ m_virtual_address x ∧ m_end x ≤ m_end m.
Proof.
  intros Hm Hs He Hse. unfold pieces. destruct (met owner s e m) eqn:Em; [|by intros ->%list_elem_of_singleton].
  destruct Hm as [[? Mv] [? Mp] [? Ml] [? ?]]. apply andb_prop in Em as [[_ ?%Z.ltb_lt]%andb_prop Hv%Z.ltb_lt].
  unfold prefix_fragment, m_end in *. intros Hx. apply elem_of_app in Hx as [Hx|Hx].
  - destruct (Z.ltb_spec (m_virtual_address m) s); [|by destruct (not_elem_of_nil _ Hx)].
    apply list_elem_of_singleton in Hx as ->. cbn. split; [|split; [done|lia]].
    split; unfold m_end; cbn; [done|done| |lia]. split; [lia|]. by rewrite Zminus_mod, Hs, Mv.
  - destruct (Z.ltb_spec e (m_virtual_address m + m_length m)); [|by destruct (not_elem_of_nil _ Hx)].
    apply list_elem_of_singleton in Hx as ->. cbn. split; [|split; [done|lia]].
    split; unfold m_end; cbn; [lia| | |lia].
    + split; [lia|]. by rewrite Zplus_mod, Mp, Zminus_mod, He, Mv.
    + split; [lia|]. by rewrite Zminus_mod, Zplus_mod, Mv, Ml, He.
Qed.

Lemma pieces_apart owner s e m : s < e → StronglySorted apart (pieces owner s e m).
Proof.
  intros Hse. unfold pieces, prefix_fragment. destruct (met owner s e m); [|by repeat constructor].
  destruct (_ <? s), (e <? _); repeat apply SSorted_cons; try apply SSorted_nil; repeat constructor.
  unfold m_end. cbn. lia.
Qed.

Lemma unmap_table_ok owner s e l : s mod 4096 = 0 → e mod 4096 = 0 → s < e →
  Forall mapping_ok l → StronglySorted apart l →
  Forall mapping_ok (concat (pieces owner s e <$> l)) ∧ StronglySorted apart (concat (pieces owner s e <$> l)).
Proof.
  intros Hs He Hse Hok Hap. induction Hap as [|m l Hap IH Hm]; [by split; constructor|].
  apply Forall_cons in Hok as [Hmok Hok]. destruct (IH Hok) as [IH1 IH2]. cbn. split.
  - apply Forall_app. split; [|done]. apply Forall_forall. intros x Hx.
    exact (proj1 (pieces_inside owner s e m x Hmok Hs He Hse Hx)).
  - apply StronglySorted_app. split; [|by split; [apply pieces_apart|]]. intros x y Hx Hy Eo.
    apply list_elem_of_In, in_concat in Hy as (ys & Hys & Hy%list_elem_of_In).
    apply list_elem_of_In, list_elem_of_fmap in Hys as (n & -> & Hn). rewrite Forall_forall in Hm, Hok.
    destruct (pieces_inside owner s e m x Hmok Hs He Hse Hx) as (_ & Ex & ? & ?).
    destruct (pieces_inside owner s e n y (Hok n Hn) Hs He Hse Hy) as (_ & Ey & ? & ?).
    destruct (Hm n Hn ltac:(congruence)); [left|right]; lia.
Qed.

(** Every piece translates as its mapping did. *)
Lemma pieces_translate owner s e m x a : x ∈ pieces owner s e m → translate x a = translate m a.
Proof.
  unfold pieces, prefix_fragment. destruct (met owner s e m); [|by intros ->%list_elem_of_singleton].
  intros [Hx|Hx]%elem_of_app; (destruct (_ <? _); [|by destruct (not_elem_of_nil _ Hx)]);
    apply list_elem_of_singleton in Hx as ->; unfold translate; cbn; [done|]. do 2 f_equal. lia.
Qed.

(** The pieces cover what the mapping did, but for the range. *)
Lemma pieces_cover owner s e m o a : mapping_ok m → s mod 4096 = 0 → e mod 4096 = 0 → s < e →
  (∃ x, x ∈ pieces owner s e m ∧ owns o a x = true) ↔
  owns o a m = true ∧ ¬ ((o = owner ∨ o = KERNEL) ∧ s ≤ a < e).
Proof.
  intros Hm Hs He Hse. pose proof (λ x, pieces_inside owner s e m x Hm Hs He Hse) as Hin. rewrite owns_spec by done.
  unfold pieces, met in *. destruct (matches (m_owner m) owner) eqn:Em; cbn [andb] in *; cycle 1.
  { split; [intros (x & ->%list_elem_of_singleton & [Eo ?]%owns_spec); [|done]|].
    - split; [done|]. intros [Hv _]. rewrite <- Eo in Hv. apply matches_spec in Hv. congruence.
    - intros [Hx _]. exists m. split; [by left|by apply owns_spec]. }
  apply matches_spec in Em. unfold prefix_fragment in *.
  destruct (Z.ltb_spec s (m_end m)), (Z.ltb_spec (m_virtual_address m) e); cbn [andb] in *;
    try (split; [intros (x & ->%list_elem_of_singleton & ?%owns_spec); [split; [done|lia]|done]|
                 intros [Hx _]; exists m; split; [by left|by apply owns_spec]]).
  split.
  - intros (x & Hx & Ex). destruct (Hin x Hx) as (Hxo & Eo & ? & ?). apply (owns_spec o a x Hxo) in Ex as [? ?].
    split; [split; [congruence|lia]|]. intros [_ Hr]. revert Hx. rewrite elem_of_app.
    intros [Hx|Hx]; (destruct (_ <? _) in Hx; [|by destruct (not_elem_of_nil _ Hx)]);
      apply list_elem_of_singleton in Hx as ->; unfold m_end in *; cbn in *; lia.
  - intros [[Eo Ha] Hn]. destruct (decide (a < s)) as [Hlt|Hge].
    + destruct (Z.ltb_spec (m_virtual_address m) s); [|lia]. eexists. split; [by left|].
      apply owns_spec; [apply Hin; by left|]. unfold m_end. cbn. split; [done|lia].
    + assert (e ≤ a) by (apply Z.nlt_ge; intros ?; apply Hn; split; [rewrite <- Eo; tauto|lia]).
      destruct (Z.ltb_spec e (m_end m)); [|lia]. eexists. split; [apply elem_of_app; right; by left|].
      apply owns_spec; [apply Hin, elem_of_app; right; by left|]. unfold m_end in *. cbn. split; [done|lia].
Qed.

Lemma unmap_view owner s e l o a : Forall mapping_ok l → s mod 4096 = 0 → e mod 4096 = 0 → s < e →
  view_of (concat (pieces owner s e <$> l)) o a =
  if decide ((o = owner ∨ o = KERNEL) ∧ s ≤ a < e) then None else view_of l o a.
Proof.
  intros Hl Hs He Hse. induction Hl as [|m l Hm Hl IH]; cbn [fmap list_fmap concat]; [by case_decide|].
  rewrite view_app, view_cons. pose proof (pieces_cover owner s e m o a Hm Hs He Hse) as Hc.
  rewrite view_some in Hc. destruct (view_of (pieces owner s e m) o a) as [v|] eqn:Ev.
  - destruct (proj1 Hc ltac:(eauto)) as [-> Hn]. rewrite decide_False by done. f_equal.
    unfold view_of in Ev. apply fmap_Some in Ev as (x & [Hx _]%find_some & ->).
    by apply (pieces_translate owner s e), list_elem_of_In.
  - fold (@fmap list _ _ _ (pieces owner s e) l). rewrite IH. case_decide as Hd; [done|].
    destruct (owns o a m); [|done]. destruct (proj2 Hc (conj eq_refl Hd)). done.
Qed.

Lemma met_address owner s e l : Forall mapping_ok l → s < e →
  existsb (met owner s e) l = true ↔
  ∃ a, s ≤ a < e ∧ (is_Some (view_of l owner a) ∨ is_Some (view_of l KERNEL a)).
Proof.
  intros Hl Hse. rewrite existsb_exists. split.
  - intros (m & Hin%list_elem_of_In & [[Hv%matches_spec H1%Z.ltb_lt]%andb_prop H2%Z.ltb_lt]%andb_prop).
    rewrite Forall_forall in Hl. specialize (Hl m Hin).
    pose proof (meet_address m s (e - s) Hl ltac:(lia) ltac:(lia)) as [? ?].
    exists (Z.max s (m_virtual_address m)). split; [lia|]. rewrite <- !view_some.
    destruct Hv as [<-|<-]; [left|right]; exists m; (split; [done|]); by apply owns_spec.
  - intros (a & Ha & Hv). rewrite <- !view_some in Hv. rewrite Forall_forall in Hl.
    assert (∃ m, m ∈ l ∧ (m_owner m = owner ∨ m_owner m = KERNEL) ∧ m_virtual_address m ≤ a < m_end m)
      as (m & Hin & Ho & Hm).
    { destruct Hv as [(m & Hin & [? ?]%owns_spec)|(m & Hin & [? ?]%owns_spec)]; eauto. }
    exists m. split; [by apply list_elem_of_In|]. unfold met.
    rewrite (proj2 (matches_spec _ _)), !(proj2 (Z.ltb_lt _ _)) by (tauto || lia). done.
Qed.

Definition unmap_spec (owner va len : Z) (v v' : Z → Z → option entry) (r : result unit) : Prop :=
  match r with
  | Ok _ => ∃ s l, pages_of va len s l ∧
      (∃ a, s ≤ a < s + l ∧ (is_Some (v owner a) ∨ is_Some (v KERNEL a))) ∧
      ∀ o a, v' o a = if decide ((o = owner ∨ o = KERNEL) ∧ s ≤ a < s + l) then None else v o a
  | Err e => (∀ o a, v' o a = v o a) ∧
      (e = NotFound → ∃ s l, pages_of va len s l ∧ ∀ a, s ≤ a < s + l → v owner a = None ∧ v KERNEL a = None)
  end.

Lemma unmap_owned_ok room t owner va len : table_ok t → word va → word len →
  ∃ t' r, unmap_owned room t owner va len = Ret (t', r) ∧ table_ok t' ∧
    unmap_spec owner va len (view t) (view t') r.
Proof.
  intros Ht Hva Hlen. pose proof Ht as [Hok Hap]. unfold unmap_owned.
  destruct (initialized t); cbn [negb]; [|by eexists _, _; split; [done|]; split; [|split]].
  destruct (normalize_virtual_range va len) as [[s l]|e] eqn:E; cycle 1.
  { eexists _, _. split; [done|]. split; [done|]. split; [done|]. intros ->. unfold normalize_virtual_range in E.
    repeat case_match; by simplify_eq. }
  pose proof (normalize_range_ok va len s l Hva Hlen E) as Hp. pose proof Hp as (M1 & M2 & _ & _ & _ & _ & Hs & Hl & Hsl).
  unfold range_end. rewrite checked_add_small by done.
  destruct (negb (room _)); [by eexists _, _; split; [done|]; split; [|split]|].
  rewrite unmap_loop_ok by done. cbn [mbind outcome_bind app orb].
  assert (Me : (s + l) mod 4096 = 0) by (by rewrite Zplus_mod, M1, M2).
  pose proof (met_address owner s (s + l) (mappings t) Hok ltac:(lia)) as Hmet.
  destruct (existsb _ _); eexists _, _; (split; [done|]).
  - split; [by apply unmap_table_ok; try done; lia|]. exists s, l. split; [done|]. split; [by apply Hmet|].
    intros o a. apply unmap_view; (done || lia).
  - split; [done|]. split; [done|]. intros _. exists s, l. split; [done|]. intros a Ha.
    destruct (view t owner a) eqn:E1; [|destruct (view t KERNEL a) eqn:E2; [|done]];
      (assert (false = true); [|done]); apply Hmet; exists a; (split; [done|]); [left|right]; unfold view in *; eauto.
Qed.

(** ** Updates in place *)

Lemma update_first_split p f l :
  match update_first p f l with
  | Some l' => ∃ l1 m l2, l = l1 ++ m :: l2 ∧ l' = l1 ++ f m :: l2 ∧ p m = true
  | None => Forall (λ m, p m = false) l
  end.
Proof.
  induction l as [|m l IH]; cbn; [done|]. destruct (p m) eqn:Ep; [by exists [], m, l|].
  destruct (update_first p f l) as [l'|]; cbn; [|by constructor].
  destruct IH as (l1 & m' & l2 & -> & -> & ?). by exists (m :: l1), m', l2.
Qed.

(** An update that keeps the pages and the owner, and turns translations by [g]. *)
Record keeps (f : Mapping → Mapping) (g : Z → entry → entry) (m : Mapping) : Prop := {
  keeps_va : m_virtual_address (f m) = m_virtual_address m;
  keeps_len : m_length (f m) = m_length m;
  keeps_owner : m_owner (f m) = m_owner m;
  keeps_ok : mapping_ok (f m);
  keeps_entry : ∀ a, translate (f m) a = g a (translate m a);
}.

Definition update_spec (owner va : Z) (g : Z → entry → entry) (v v' : Z → Z → option entry) (r : result unit) : Prop :=
  match r with
  | Ok _ => ∃ s l, s = va - va mod 4096 ∧ 0 < l ∧ is_Some (v owner s) ∧
      ∀ o a, v' o a = if decide (o = owner ∧ s ≤ a < s + l) then g a <$> v o a else v o a
  | Err e => e = NotFound ∧ ∀ o a, v' o a = v o a
  end.

Lemma update_view l1 m l2 f g o a : Forall mapping_ok (l1 ++ m :: l2) → StronglySorted apart (l1 ++ m :: l2) →
  keeps f g m →
  view_of (l1 ++ f m :: l2) o a =
  if decide (o = m_owner m ∧ m_virtual_address m ≤ a < m_end m)
  then g a <$> view_of (l1 ++ m :: l2) o a else view_of (l1 ++ m :: l2) o a.
Proof.
  intros Hok Hap [Ev El Eo Hf Ee]. apply Forall_app in Hok as [H1 [Hm _]%Forall_cons].
  rewrite !view_app, !view_cons.
  assert (Eow : owns o a (f m) = owns o a m).
  { apply eq_true_iff_eq. rewrite !owns_spec by done. unfold m_end. by rewrite Ev, El, Eo. }
  rewrite Eow. case_decide as Hd.
  - destruct Hd as [-> Ha]. assert (E1 : view_of l1 (m_owner m) a = None).
    { apply view_none, Forall_forall. intros x Hx. destruct (owns _ a x) eqn:E; [|done]. rewrite Forall_forall in H1.
      apply (owns_spec _ _ _ (H1 x Hx)) in E as [E ?]. unfold m_end in *.
      destruct (StronglySorted_app_1_elem_of _ _ _ x m Hap Hx ltac:(by left) E); unfold m_end in *; lia. }
    rewrite E1, (proj2 (owns_spec _ _ _ Hm)) by done. cbn. by rewrite Ee.
  - destruct (owns o a m) eqn:E; [|done]. apply (owns_spec _ _ _ Hm) in E as [? ?]. destruct Hd. by split.
Qed.

Lemma update_mapping_ok t owner va f g : table_ok t → word va →
  (∀ m, m ∈ mappings t → starts_at owner (align_down va) m = true → keeps f g m) →
  let '(t', r) := update_mapping t owner va f in table_ok t' ∧ update_spec owner va g (view t) (view t') r.
Proof.
  intros Ht Hva Hk. pose proof Ht as [Hok Hap]. unfold update_mapping.
  pose proof (update_first_split (starts_at owner (align_down va)) f (mappings t)) as Hu.
  destruct (update_first _ f (mappings t)) as [l'|]; [|done].
  destruct Hu as (l1 & m & l2 & El & -> & Hp). rewrite El in *.
  specialize (Hk m ltac:(apply elem_of_app; right; by left) Hp).
  pose proof (λ o a, update_view l1 m l2 f g o a Hok Hap Hk) as Hv.
  apply andb_prop in Hp as [Eo%Z.eqb_eq Ev%Z.eqb_eq]. rewrite align_down_spec in Ev by done.
  pose proof Hok as [Hok1 [Hm Hok2]%Forall_cons]%Forall_app. destruct Hk as [Kv Kl Ko Kok _]. split; [split|].
  - apply Forall_app. split; [done|]. by apply Forall_cons.
  - apply StronglySorted_app in Hap as (Ha & Hap1 & Hap2). apply StronglySorted_inv in Hap2 as [Hap2 Hm2].
    assert (Hsame : ∀ n, (apart n m → apart n (f m)) ∧ (apart m n → apart (f m) n)).
    { intros n. unfold apart, m_end. by rewrite Kv, Kl, Ko. }
    apply StronglySorted_app. split; [|split; [done|]].
    + intros x y Hx [->|Hy]%elem_of_cons; [apply Hsame, Ha; [done|by left]|apply Ha; [done|by right]].
    + constructor; [done|]. eapply Forall_impl; [exact Hm2|]. intros n. apply Hsame.
  - exists (va - va mod 4096), (m_length m). split; [done|]. split; [apply (ok_len m Hm)|]. split.
    + unfold view. rewrite El, <- view_some. exists m. split; [apply elem_of_app; right; by left|].
      apply owns_spec; [done|]. destruct (ok_len m Hm). unfold m_end. lia.
    + intros o a. unfold view. cbn [mappings]. rewrite El, Hv, Eo. unfold m_end. by rewrite Ev.
Qed.

(** ** Every table that is built *)

Inductive pt_op : Type :=
| MapTo (owner va pa len perms : Z) (kind : MappingKind)
| Unmap (owner va len : Z)
| SetKind (owner va : Z) (kind : MappingKind)
| SetAdvice (owner va : Z) (advice : AdviceHint)
| SetPermissions (owner va perms : Z)
| SetPhys (owner va pa : Z)
| MarkAccessed (owner va : Z)
| ClearAccessed (owner va : Z).

Definition pt_run (room : nat → bool) (t : PageTable) (op : pt_op) : outcome (PageTable * result unit) :=
  match op with
  | MapTo owner va pa len perms kind => Ret (map_to_owned room t owner va pa len perms kind)
  | Unmap owner va len => unmap_owned room t owner va len
  | SetKind owner va kind => Ret (replace_mapping_kind_owned t owner va kind)
  | SetAdvice owner va advice => Ret (replace_mapping_advice_owned t owner va advice)
  | SetPermissions owner va perms => Ret (replace_mapping_permissions_owned t owner va perms)
  | SetPhys owner va pa => Ret (replace_mapping_phys_owned t owner va pa)
  | MarkAccessed owner va => let '(t, ok) := mark_accessed_owned t owner va in Ret (t, if ok : bool then Ok () else Err NotFound)
  | ClearAccessed owner va =>
      let '(t, was) := clear_accessed_owned t owner va in
      Ret (t, match was with Some _ => Ok () | None => Err NotFound end)
  end.

(** Addresses are machine words, and a frame is given to a mapping that fits
    behind it. *)
Definition pt_allowed (t : PageTable) (op : pt_op) : Prop :=
  match op with
  | MapTo _ va pa len _ _ => word va ∧ word pa ∧ word len
  | Unmap _ va len => word va ∧ word len
  | SetPhys owner va pa => word va ∧ word pa ∧
      ∀ m, m ∈ mappings t → starts_at owner (align_down va) m = true → pa + m_length m ≤ u64_max
  | SetKind _ va _ | SetAdvice _ va _ | SetPermissions _ va _ | MarkAccessed _ va | ClearAccessed _ va => word va
  end.

Definition pt_spec (op : pt_op) (v v' : Z → Z → option entry) (r : result unit) : Prop :=
  match op with
  | MapTo owner va pa len perms kind => map_spec owner va pa len perms kind v v' r
  | Unmap owner va len => unmap_spec owner va len v v' r
  | SetKind owner va kind => update_spec owner va (λ _ '(p, q, _), (p, q, kind)) v v' r
  | SetPermissions owner va perms => update_spec owner va (λ _ '(p, _, k), (p, perms, k)) v v' r
  | SetPhys owner va pa =>
      update_spec owner va (λ a '(_, q, k), (pa - pa mod 4096 + (a - (va - va mod 4096)), q, k)) v v' r
  | SetAdvice owner va _ | MarkAccessed owner va | ClearAccessed owner va => update_spec owner va (λ _ e, e) v v' r
  end.

Inductive built (room : nat → bool) : PageTable → Prop :=
| built_new : built room (PageTable_init PageTable_new)
| built_step t op t' r : built room t → pt_allowed t op → pt_run room t op = Ret (t', r) → built room t'.

(** Updates of a mapping that keep its pages and its owner. *)
Ltac keep_mapping Hm := destruct Hm as [? ? ? ?]; split; [done|done|done|split; done|intros ?; reflexivity].

Lemma clear_accessed_ok t owner va : table_ok t → word va →
  let '(t', was) := clear_accessed_owned t owner va in
  table_ok t' ∧
  update_spec owner va (λ _ e, e) (view t) (view t') (match was with Some _ => Ok () | None => Err NotFound end).
Proof.
  intros Ht Hva. pose proof Ht as [Hok _]. rewrite Forall_forall in Hok.
  pose proof (update_mapping_ok t owner va (set_accessed false) (λ _ e, e) Ht Hva) as H.
  unfold clear_accessed_owned, update_mapping in *.
  pose proof (update_first_split (starts_at owner (align_down va)) (set_accessed false) (mappings t)) as Hu.
  destruct (update_first _ _ _) as [l'|].
  - destruct H as [? Hs]; [intros m Hm%Hok _; keep_mapping Hm|]. destruct Hu as (l1 & m & l2 & El & _ & Hp).
    destruct (find _ (mappings t)) eqn:Ef; [done|].
    eapply find_none in Ef; [by rewrite Ef in Hp|]. rewrite El. apply in_app_iff. right. by left.
  - destruct (find _ (mappings t)) eqn:Ef; [|done].
    apply find_some in Ef as [Hin Ef]. rewrite Forall_forall in Hu. rewrite Hu in Ef; [done|by apply list_elem_of_In].
Qed.

Lemma pt_step_ok room t op : table_ok t → pt_allowed t op →
  ∃ t' r, pt_run room t op = Ret (t', r) ∧ table_ok t' ∧ pt_spec op (view t) (view t') r.
Proof.
  intros Ht Ha. pose proof Ht as [Hok _]. rewrite Forall_forall in Hok.
  destruct op as [owner va pa len perms kind|owner va len|owner va kind|owner va advice|owner va perms|owner va pa
    |owner va|owner va]; cbn [pt_run pt_allowed pt_spec] in *.
  - destruct Ha as (Hva & Hpa & Hlen). pose proof (map_to_owned_ok room t owner va pa len perms kind Ht Hva Hpa Hlen) as H.
    destruct (map_to_owned _ _ _ _ _ _ _ _) as [t' r]. by exists t', r.
  - destruct Ha. by apply unmap_owned_ok.
  - pose proof (update_mapping_ok t owner va (set_kind kind) (λ _ '(p, q, _), (p, q, kind)) Ht Ha) as H.
    unfold replace_mapping_kind_owned. destruct (update_mapping _ _ _ _) as [t' r]. exists t', r. split; [done|].
    apply H. intros m Hm%Hok _. keep_mapping Hm.
  - pose proof (update_mapping_ok t owner va (set_advice advice) (λ _ e, e) Ht Ha) as H.
    unfold replace_mapping_advice_owned. destruct (update_mapping _ _ _ _) as [t' r]. exists t', r. split; [done|].
    apply H. intros m Hm%Hok _. keep_mapping Hm.
  - pose proof (update_mapping_ok t owner va (set_permissions perms) (λ _ '(p, _, k), (p, perms, k)) Ht Ha) as H.
    unfold replace_mapping_permissions_owned. destruct (update_mapping _ _ _ _) as [t' r]. exists t', r. split; [done|].
    apply H. intros m Hm%Hok _. keep_mapping Hm.
  - destruct Ha as (Hva & Hpa & Hfit).
    pose proof (update_mapping_ok t owner va (set_phys (align_down pa))
      (λ a '(_, q, k), (pa - pa mod 4096 + (a - (va - va mod 4096)), q, k)) Ht Hva) as H.
    unfold replace_mapping_phys_owned. destruct (update_mapping _ _ _ _) as [t' r]. exists t', r. split; [done|].
    apply H. intros m Hin Hs. specialize (Hfit m Hin Hs). apply Hok in Hin as [? ? ? [? ?]].
    apply andb_prop in Hs as [_ Ev%Z.eqb_eq]. rewrite align_down_spec in Ev by done.
    pose proof (mod_split pa) as [? ?]. destruct Hpa. pose proof (Z.mod_le pa 4096 ltac:(lia) ltac:(lia)).
    split; [done|done|done| |].
    + split; cbn; try done; rewrite align_down_spec by done; [by split; [lia|]|]. split; [done|lia].
    + intros a. unfold translate. cbn. by rewrite align_down_spec, Ev by done.
  - pose proof (update_mapping_ok t owner va (set_accessed true) (λ _ e, e) Ht Ha) as H.
    unfold mark_accessed_owned. destruct (update_mapping _ _ _ _) as [t' r].
    destruct H as [? Hs]; [intros m Hm%Hok _; keep_mapping Hm|].
    destruct r as [[]|e]; [by exists t', (Ok ())|]. exists t', (Err NotFound). destruct Hs as [-> ?]. by split.
  - pose proof (clear_accessed_ok t owner va Ht Ha) as H. destruct (clear_accessed_owned _ _ _) as [t' was].
    eexists _, _. by split.
Qed.

Lemma built_ok room t : built room t → table_ok t.
Proof.
  induction 1 as [|t op t' r _ Ht Ha E]; [by split; constructor|].
  destruct (pt_step_ok room t op Ht Ha) as (t1 & r1 & E1 & ? & _). rewrite E in E1. by simplify_eq.
Qed.

Lemma find_owned_ok t o a m : table_ok t → find_owned t o a = Some m →
  view t o a = Some (translate m a) ∧
  checked_add (m_physical_address m) (a - m_virtual_address m) = Some (m_physical_address m + (a - m_virtual_address m)).
Proof.
  intros [Hok _] E. split; [unfold view, view_of; unfold find_owned in E; fold (owns o a) in E; by rewrite E|].
  apply find_some in E as [Hin Eo]. rewrite Forall_forall in Hok. specialize (Hok m (proj2 (list_elem_of_In _ _) Hin)).
  apply (owns_spec o a m Hok) in Eo as [_ ?]. destruct (ok_end m Hok). apply checked_add_small. unfold m_end in *. lia.
Qed.

(** A translation reads the owner's map, and the kernel's where it has none. *)
Lemma lookup_ok t o a : table_ok t →
  lookup_mapping_owned t o a = Ret (match view t o a with Some e => Some e | None => view t KERNEL a end).
Proof.
  intros Ht. unfold lookup_mapping_owned. destruct (find_owned t o a) as [m|] eqn:E.
  { destruct (find_owned_ok t o a m Ht E) as [-> ->]. done. }
  assert (view t o a = None) as -> by (unfold view, view_of; unfold find_owned in E; fold (owns o a) in E; by rewrite E).
  destruct (find_owned t KERNEL a) as [m|] eqn:Ek; [by destruct (find_owned_ok t KERNEL a m Ht Ek) as [-> ->]|].
  unfold view, view_of. unfold find_owned in Ek. fold (owns KERNEL a) in Ek. by rewrite Ek.
Qed.

(** C12. The page table refines a map from addresses to translations per address space.
    For every table that operations build: mappings are whole pages and those of one
    owner never share an address; a translation reads the owner's map, and the
    kernel's where the owner has none; every further operation returns without a
    panic and changes the maps as its specification says, which is: mapping adds the
    pages of its range to the owner, if neither the owner nor the kernel has one of
    them; unmapping takes away the pages of the range from the owner and the kernel
    and leaves everything else; an update changes the mapping that starts at the page
    and nothing else; an error changes nothing. *)
Theorem page_table_refines room t : built room t →
  table_ok t ∧
  (∀ o a, lookup_mapping_owned t o a = Ret (match view t o a with Some e => Some e | None => view t KERNEL a end)) ∧
  ∀ op, pt_allowed t op → ∃ t' r, pt_run room t op = Ret (t', r) ∧ pt_spec op (view t) (view t') r.
Proof.
  intros Hb. apply built_ok in Hb as Ht. split; [done|]. split.
  - intros o a. by apply lookup_ok.
  - intros op Ha. destruct (pt_step_ok room t op Ht Ha) as (t' & r & ? & _ & ?). by exists t', r.
Qed.

(** The address space an operation acts for. *)
Definition acts_for (op : pt_op) : AddressSpaceId :=
  match op with
  | MapTo o _ _ _ _ _ | Unmap o _ _ | SetKind o _ _ | SetAdvice o _ _ | SetPermissions o _ _ | SetPhys o _ _
  | MarkAccessed o _ | ClearAccessed o _ => o
  end.

(** An operation for one address space leaves the own mappings of every other
    process's address space as they were. *)
Theorem address_spaces_apart room t op t' r o a : built room t → pt_allowed t op →
  pt_run room t op = Ret (t', r) → o ≠ acts_for op → o ≠ KERNEL → view t' o a = view t o a.
Proof.
  intros Hb Ha E Ho Hk. destruct (pt_step_ok room t op (built_ok room t Hb) Ha) as (t1 & r1 & E1 & _ & Hs).
  rewrite E in E1. simplify_eq. destruct op; cbn [pt_spec acts_for] in *; destruct r1 as [[]|e];
    first [apply Hs|destruct Hs as (s & l & _ & _ & _ & ->); rewrite decide_False; [done|tauto]|idtac].
  - destruct Hs as (s & p & l & _ & _ & _ & ->). rewrite decide_False; [done|tauto].
  - destruct Hs as (s & l & _ & _ & ->). rewrite decide_False; [done|tauto].
Qed.

(** ** Witnesses *)

(** A process maps three pages and unmaps the middle one. *)
Definition demo_ops : list pt_op :=
  [MapTo 8192 65536 1048576 12288 READ_WRITE Anonymous; Unmap 8192 69632 4096].

Definition demo_table : PageTable :=
  mkPageTable
    [mkMapping 65536 1048576 4096 READ_WRITE Anonymous false Normal 8192;
     mkMapping 73728 1056768 4096 READ_WRITE Anonymous false Normal 8192] true.

Lemma demo_built : built (λ _, true) demo_table.
Proof.
  eapply (built_step _ _ (Unmap 8192 69632 4096) _ (Ok ())); [eapply (built_step _ _ (MapTo 8192 65536 1048576 12288 READ_WRITE Anonymous) _ (Ok ()))|..].
  - apply built_new.
  - cbn [pt_allowed]. unfold word, u64_max. lia.
  - by vm_compute.
  - cbn [pt_allowed]. unfold word, u64_max. lia.
  - by vm_compute.
Qed.

Lemma page_table_refines_witness :
  lookup_mapping_owned demo_table 8192 73729 = Ret (Some (1056769, READ_WRITE, Anonymous)) ∧
  ∃ t' r, pt_run (λ _, true) demo_table (SetKind 8192 65536 DemandPaged) = Ret (t', r) ∧
    pt_spec (SetKind 8192 65536 DemandPaged) (view demo_table) (view t') r.
Proof.
  destruct (page_table_refines (λ _, true) demo_table demo_built) as (_ & Hl & Hop). split.
  - rewrite Hl. by vm_compute.
  - apply Hop. cbn [pt_allowed]. unfold word, u64_max. lia.
Defined.

Lemma address_spaces_apart_witness :
  ∃ t', pt_run (λ _, true) demo_table (MapTo 4096 65536 0 4096 READ Shared) = Ret (t', Ok ()) ∧
    view t' 8192 65536 = view demo_table 8192 65536.
Proof.
  eexists. split; [by vm_compute|].
  eapply (address_spaces_apart (λ _, true) demo_table (MapTo 4096 65536 0 4096 READ Shared) _ (Ok ())).
  - exact demo_built.
  - cbn [pt_allowed]. unfold word, u64_max. lia.
  - by vm_compute.
  - done.
  - done.
Defined.
