(* ===== verification/MemManager.v ===== *)
(** * The memory manager's paging (src/memory/manager/)

    Reclaiming pages of the software page table into the swap area, the
    compressed cache or the raw content store (swap.rs, mapping.rs), resolving
    faults with the copy of the page and prefetching its neighbours, private
    copies of shared frames (pfault.rs), and moving frames (compact.rs).

    The machine below is given by two interfaces: the architecture's live
    translation tables and the pool of physical frames. *)

From stdpp Require Import base tactics decidable numbers list gmap.
From Stdlib Require Import ZArith Lia Bool.
From S2P Require Import Prelude Bytes BlockDevice PageCodec Swap PageTable.

(** ** Interfaces *)

(** The live tables (src/arch/mmu.rs).  [translation m root va] is what the
    table rooted at [root] makes of a page; both operations edit the table the
    CPU is running on. *)
Class Mmu (M : Type) := {
  current_root : M → Z;
  translation : M → Z → Z → option Z;
  install_user_page : M → Z → Z → Z → M * bool;
  unmap_page : M → Z → M * bool;
}.

(** The pool of frames, asked for one at a time (src/memory/manager/init.rs). *)
Class Frames (P : Type) := {
  allocate_frames : P → P * option Z;
  deallocate_frames : P → Z → P * bool;
}.

(** ** The manager *)

(** The budget of the compressed cache. *)
Definition MAX_COMPRESSED_CACHE_BYTES : Z := 16 * 1024 * 1024.

(** Pages are named by their address space and address. *)
Record MemoryManager (P D M : Type) := mkManager {
  frame_pool : P;
  page_table : PageTable;
  page_content : list (Z * Z * bytes);
  frame_refcounts : gmap Z Z;
  reclaim_hand : Z;
  swap_area : option (SwapArea D);
  swap_map : gmap (Z * Z) Z;
  compressed_pages : gmap (Z * Z) bytes;
  compressed_cache_bytes : Z;
  (** The machine: its live tables and the content of its frames. *)
  mmu : M;
  ram : Z → bytes;
}.
Arguments mkManager {P D M} _ _ _ _ _ _ _ _ _ _ _.
Arguments frame_pool {P D M} _.
Arguments page_table {P D M} _.
Arguments page_content {P D M} _.
Arguments frame_refcounts {P D M} _.
Arguments reclaim_hand {P D M} _.
Arguments swap_area {P D M} _.
Arguments swap_map {P D M} _.
Arguments compressed_pages {P D M} _.
Arguments compressed_cache_bytes {P D M} _.
Arguments mmu {P D M} _.
Arguments ram {P D M} _.

Section Manager.
Context {P D M : Type} `{Frames P} `{BlockDevice D} `{Mmu M}.

Definition set_pool (s : MemoryManager P D M) (p : P) : MemoryManager P D M :=
  mkManager p (page_table s) (page_content s) (frame_refcounts s) (reclaim_hand s) (swap_area s) (swap_map s)
    (compressed_pages s) (compressed_cache_bytes s) (mmu s) (ram s).
Definition set_table (s : MemoryManager P D M) (t : PageTable) : MemoryManager P D M :=
  mkManager (frame_pool s) t (page_content s) (frame_refcounts s) (reclaim_hand s) (swap_area s) (swap_map s)
    (compressed_pages s) (compressed_cache_bytes s) (mmu s) (ram s).
Definition set_content (s : MemoryManager P D M) (l : list (Z * Z * bytes)) : MemoryManager P D M :=
  mkManager (frame_pool s) (page_table s) l (frame_refcounts s) (reclaim_hand s) (swap_area s) (swap_map s)
    (compressed_pages s) (compressed_cache_bytes s) (mmu s) (ram s).
Definition set_refcounts (s : MemoryManager P D M) (r : gmap Z Z) : MemoryManager P D M :=
  mkManager (frame_pool s) (page_table s) (page_content s) r (reclaim_hand s) (swap_area s) (swap_map s)
    (compressed_pages s) (compressed_cache_bytes s) (mmu s) (ram s).
Definition set_hand (s : MemoryManager P D M) (h : Z) : MemoryManager P D M :=
  mkManager (frame_pool s) (page_table s) (page_content s) (frame_refcounts s) h (swap_area s) (swap_map s)
    (compressed_pages s) (compressed_cache_bytes s) (mmu s) (ram s).
Definition set_swap (s : MemoryManager P D M) (a : option (SwapArea D)) (m : gmap (Z * Z) Z) : MemoryManager P D M :=
  mkManager (frame_pool s) (page_table s) (page_content s) (frame_refcounts s) (reclaim_hand s) a m
    (compressed_pages s) (compressed_cache_bytes s) (mmu s) (ram s).
Definition set_compressed (s : MemoryManager P D M) (c : gmap (Z * Z) bytes) (n : Z) : MemoryManager P D M :=
  mkManager (frame_pool s) (page_table s) (page_content s) (frame_refcounts s) (reclaim_hand s) (swap_area s)
    (swap_map s) c n (mmu s) (ram s).
Definition set_mmu (s : MemoryManager P D M) (m : M) : MemoryManager P D M :=
  mkManager (frame_pool s) (page_table s) (page_content s) (frame_refcounts s) (reclaim_hand s) (swap_area s)
    (swap_map s) (compressed_pages s) (compressed_cache_bytes s) m (ram s).
Definition set_frame (s : MemoryManager P D M) (frame : Z) (content : bytes) : MemoryManager P D M :=
  mkManager (frame_pool s) (page_table s) (page_content s) (frame_refcounts s) (reclaim_hand s) (swap_area s)
    (swap_map s) (compressed_pages s) (compressed_cache_bytes s) (mmu s)
    (λ f, if f =? frame then content else ram s f).

(** ** The raw content store *)

Definition key_eqb (a b : Z * Z) : bool := (a.1 =? b.1) && (a.2 =? b.2).

(** Replace the entry of the key, or append one. *)
Fixpoint upsert (key : Z * Z) (content : bytes) (l : list (Z * Z * bytes)) : list (Z * Z * bytes) :=
  match l with
  | [] => [(key, content)]
  | e :: l => if key_eqb e.1 key then (e.1, content) :: l else e :: upsert key content l
  end.

Definition store_page_content (s : MemoryManager P D M) (owner va : Z) (content : bytes) : MemoryManager P D M :=
  set_content s (upsert (owner, align_down va) content (page_content s)).

Definition get_page_content (s : MemoryManager P D M) (owner va : Z) : option bytes :=
  snd <$> find (λ e, key_eqb e.1 (owner, align_down va)) (page_content s).

(** ** The compressed cache

    The counters of saved bytes and evictions are for the statistics alone. *)

Definition remove_compressed_page (s : MemoryManager P D M) (owner va : Z) : MemoryManager P D M :=
  let key := (owner, align_down va) in
  match compressed_pages s !! key with
  | Some page =>
      set_compressed s (delete key (compressed_pages s))
        (saturating_sub (compressed_cache_bytes s) (Z.of_nat (length page)))
  | None => s
  end.

(** [pop_first]: the entry with the least key. *)
Definition first_entry (m : gmap (Z * Z) bytes) : option (Z * Z * bytes) :=
  foldl (λ best e, match best with
    | None => Some e
    | Some b => if (e.1.1 <? b.1.1) || ((e.1.1 =? b.1.1) && (e.1.2 <? b.1.2)) then Some e else best
    end) None (map_to_list m).

(** [while self.compressed_cache_bytes > budget]: entries go to the raw store. *)
Fixpoint evict_compressed (fuel : nat) (s : MemoryManager P D M) : outcome (MemoryManager P D M) :=
  match fuel with
  | O => NoFuel
  | S fuel =>
      if MAX_COMPRESSED_CACHE_BYTES <? compressed_cache_bytes s then
        match first_entry (compressed_pages s) with
        | None => Ret s
        | Some ((evict_owner, evict_va), evict_page) =>
            let s := set_compressed s (delete (evict_owner, evict_va) (compressed_pages s))
                       (saturating_sub (compressed_cache_bytes s) (Z.of_nat (length evict_page))) in
            '(ok, raw) ← decompress_page evict_page (replicate PAGE_SIZE 0);
            evict_compressed fuel (if ok : bool then store_page_content s evict_owner evict_va raw else s)
        end
      else Ret s
  end.

Definition add_compressed_page (s : MemoryManager P D M) (owner va : Z) (page : bytes) : outcome (MemoryManager P D M) :=
  let page_addr := align_down va in
  let s := remove_compressed_page s owner page_addr in
  match checked_add (compressed_cache_bytes s) (Z.of_nat (length page)) with
  | None => Panic
  | Some n =>
      s ← evict_compressed (S (size (compressed_pages s))) (set_compressed s (compressed_pages s) n);
      Ret (set_compressed s (<[(owner, page_addr) := page]> (compressed_pages s)) (compressed_cache_bytes s))
  end.

(** Drops what is stored of every address space. *)
Definition clear_page_content (s : MemoryManager P D M) : MemoryManager P D M :=
  set_compressed (set_content s []) ∅ 0.

(** ** Reference counts of shared frames *)

Definition inc_frame_refcount (s : MemoryManager P D M) (phys : Z) : MemoryManager P D M :=
  set_refcounts s (<[phys := default 0 (frame_refcounts s !! phys) + 1]> (frame_refcounts s)).

(** The new count; at zero the frame, a box of the heap, is dropped. *)
Definition dec_frame_refcount (s : MemoryManager P D M) (phys : Z) : MemoryManager P D M * Z :=
  match frame_refcounts s !! phys with
  | Some count =>
      if count - 1 =? 0 then (set_refcounts s (delete phys (frame_refcounts s)), 0)
      else (set_refcounts s (<[phys := count - 1]> (frame_refcounts s)), count - 1)
  | None => (s, 0)
  end.

Definition get_frame_refcount (s : MemoryManager P D M) (phys : Z) : Z := default 0 (frame_refcounts s !! phys).

(** ** The swap area *)

Definition init_swap (room : Z → bool) (s : MemoryManager P D M) (d : D) (start_lba page_count : Z)
    : MemoryManager P D M * result unit :=
  match SwapArea_new room d start_lba page_count with
  | Err e => (s, Err e)
  | Ok area => (set_swap s (Some area) (swap_map s), Ok ())
  end.

(** [if let Some(ref mut area) = self.swap_area]: try a slot of the swap area. *)
Definition swap_out (s : MemoryManager P D M) (owner addr : Z) (content : bytes) : outcome (MemoryManager P D M * bool) :=
  match swap_area s with
  | None => Ret (s, false)
  | Some area =>
      match allocate_slot area with
      | (area, None) => Ret (set_swap s (Some area) (swap_map s), false)
      | (area, Some slot) =>
          '(area, r) ← write_page area slot content;
          match r with
          | Ok _ => Ret (set_swap s (Some area) (<[(owner, addr) := slot]> (swap_map s)), true)
          | Err _ => Ret (set_swap s (Some (free_slot area slot)) (swap_map s), false)
          end
      end
  end.

(** The page's content is kept: in the swap area, else compressed, else raw. *)
Definition save_page (s : MemoryManager P D M) (owner addr : Z) (content : bytes) : outcome (MemoryManager P D M) :=
  '(s, swapped) ← swap_out s owner addr content;
  if swapped : bool then Ret s else
  r ← compress_page content;
  match (r : option bytes) with
  | Some page => add_compressed_page s owner addr page
  | None => Ret (store_page_content s owner addr content)
  end.

(** ** Reclaiming *)

(** A page without recent use, from saving its content on; [true] when its frame
    was freed. *)
Definition reclaim_page (s : MemoryManager P D M) (page_owner page_addr phys : Z) : outcome (MemoryManager P D M * bool) :=
  s ← save_page s page_owner page_addr (ram s phys);
  match unmap_page (mmu s) page_addr with
  | (m, false) => Ret (set_mmu s m, false)
  | (m, true) =>
      let s := set_mmu s m in
      let '(p, _) := deallocate_frames (frame_pool s) phys in
      let s := set_pool s p in
      Ret (set_table s (replace_mapping_kind_owned (page_table s) page_owner page_addr DemandPaged).1, true)
  end.

(** One turn of the clock at the mapping of index [mapping_idx]. *)
Definition reclaim_turn (s : MemoryManager P D M) (mapping_idx : nat) : outcome (MemoryManager P D M * bool) :=
  match mappings (page_table s) !! mapping_idx with
  | None => Panic
  | Some m =>
      if negb (bool_decide (m_kind m = Anonymous)) then Ret (s, false) else
      let page_owner := m_owner m in
      let page_addr := m_virtual_address m in
      if bool_decide (m_advice m = Random) then
        Ret (set_table s (mark_accessed_owned (page_table s) page_owner page_addr).1, false)
      else if m_accessed m && negb (bool_decide (m_advice m = Sequential)) then
        Ret (set_table s (clear_accessed_owned (page_table s) page_owner page_addr).1, false)
      else if 1 <? get_frame_refcount s (m_physical_address m) then Ret (s, false)
      else reclaim_page s page_owner page_addr (m_physical_address m)
  end.

(** [while reclaimed < target && scanned < max_scan]; the fuel is what is left to
    scan. *)
Fixpoint reclaim_loop (fuel : nat) (s : MemoryManager P D M) (anonymous_indices : list nat) (target reclaimed : Z)
    : outcome (MemoryManager P D M * Z) :=
  match fuel with
  | O => Ret (s, reclaimed)
  | S fuel =>
      if target <=? reclaimed then Ret (s, reclaimed) else
      let anon_pos := Z.to_nat (reclaim_hand s mod Z.of_nat (length anonymous_indices)) in
      match anonymous_indices !! anon_pos with
      | None => Panic
      | Some mapping_idx =>
          '(s, freed) ← reclaim_turn s mapping_idx;
          let s := set_hand s (wrapping_add (reclaim_hand s) 1) in
          reclaim_loop fuel s anonymous_indices target (if freed : bool then reclaimed + 1 else reclaimed)
      end
  end.

Definition anonymous_from (i : nat) (l : list Mapping) : list nat :=
  fst <$> filter (λ e, m_kind e.2 = Anonymous) (zip (seq i (length l)) l).

Definition reclaim_pages (s : MemoryManager P D M) (target : Z) : outcome (MemoryManager P D M * Z) :=
  let mapping_count := mapping_count (page_table s) in
  if (mapping_count =? 0)%nat then Ret (s, 0) else
  let anonymous_indices := anonymous_from 0 (mappings (page_table s)) in
  let n := Z.of_nat (length anonymous_indices) in
  if n =? 0 then Ret (s, 0) else
  match checked_mul target 4 with
  | None => Panic
  | Some bound =>
      let max_scan := Z.max (Z.min (n * 2) bound) n in
      '(s, reclaimed) ← reclaim_loop (Z.to_nat max_scan) s anonymous_indices target 0;
      Ret (if Z.of_nat mapping_count <=? reclaim_hand s then set_hand s 0 else s, reclaimed)
  end.

Definition reclaimable_page_count (s : MemoryManager P D M) : nat :=
  length (filter (λ m, m_kind m = Anonymous ∧ get_frame_refcount s (m_physical_address m) ≤ 1) (mappings (page_table s))).
End Manager.
