(* ===== verification/MemFault.v ===== *)
(** * Faults, registration and relocation (src/memory/manager/)

    Resolving a page fault (pfault.rs): backfill of a demand-paged page from the
    swap area, the compressed cache, the raw store or zeros, the pages around it,
    and private copies of shared frames.  Registering and unregistering a
    process's pages (mapping.rs) and moving a frame (compact.rs). *)

From stdpp Require Import base tactics decidable numbers list gmap.
From Stdlib Require Import ZArith Lia Bool.
From S2P Require Import Prelude Bytes BlockDevice PageCodec Swap PageTable MemManager.

Definition FAULT_AROUND_PAGES : nat := 8.

Section Fault.
Context {P D M : Type} `{Frames P} `{BlockDevice D} `{Mmu M}.

(** [oom] is the kernel's out-of-memory killer: it may free frames. *)
Context (oom : MemoryManager P D M → MemoryManager P D M * bool).

(** A frame of the pool comes zeroed. *)
Definition take_frame (s : MemoryManager P D M) : MemoryManager P D M * option Z :=
  match allocate_frames (frame_pool s) with
  | (p, None) => (set_pool s p, None)
  | (p, Some frame) => (set_frame (set_pool s p) frame (replicate PAGE_SIZE 0), Some frame)
  end.

Definition take_frame_or_kill (s : MemoryManager P D M) : MemoryManager P D M * option Z :=
  match take_frame s with
  | (s, Some frame) => (s, Some frame)
  | (s, None) =>
      match oom s with
      | (s, true) => take_frame s
      | (s, false) => (s, None)
      end
  end.

Definition give_frame (s : MemoryManager P D M) (frame : Z) : MemoryManager P D M :=
  set_pool s (deallocate_frames (frame_pool s) frame).1.

(** [copy_nonoverlapping(content, frame, min(content.len(), PAGE_SIZE))]. *)
Definition copy_to_frame (s : MemoryManager P D M) (frame : Z) (content : bytes) : MemoryManager P D M :=
  let copy_len := Nat.min (length content) PAGE_SIZE in
  set_frame s frame (take copy_len content ++ drop copy_len (ram s frame)).

(** The page's saved content goes into the frame; [false] when it could not be
    had, and the frame has been given back. *)
Definition backfill (s : MemoryManager P D M) (owner page_addr frame : Z) : outcome (MemoryManager P D M * bool) :=
  match swap_map s !! (owner, page_addr) with
  | Some slot =>
      let s := set_swap s (swap_area s) (delete (owner, page_addr) (swap_map s)) in
      match swap_area s with
      | None => Ret (give_frame s frame, false)
      | Some area =>
          '(area, r) ← read_page area slot PAGE_SIZE;
          match r with
          | Err _ => Ret (give_frame (set_swap s (Some area) (swap_map s)) frame, false)
          | Ok data => Ret (set_frame (set_swap s (Some (free_slot area slot)) (swap_map s)) frame data, true)
          end
      end
  | None =>
      match compressed_pages s !! (owner, page_addr) with
      | Some page =>
          let s := set_compressed s (delete (owner, page_addr) (compressed_pages s))
                     (saturating_sub (compressed_cache_bytes s) (Z.of_nat (length page))) in
          '(ok, data) ← decompress_page page (ram s frame);
          let s := set_frame s frame data in
          if ok : bool then Ret (s, true) else Ret (give_frame s frame, false)
      | None =>
          match get_page_content s owner page_addr with
          | Some content => Ret (copy_to_frame s frame content, true)
          | None => Ret (set_frame s frame (replicate PAGE_SIZE 0), true)
          end
      end
  end.

(** The page is present: the software table follows. *)
Definition record_present (s : MemoryManager P D M) (owner page_addr frame : Z) : MemoryManager P D M :=
  let t := (replace_mapping_phys_owned (page_table s) owner page_addr frame).1 in
  let t := (replace_mapping_kind_owned t owner page_addr Anonymous).1 in
  set_table s (mark_accessed_owned t owner page_addr).1.

(** One neighbour; [false] ends the direction. *)
Definition prefetch_page (s : MemoryManager P D M) (owner adj_va : Z) : outcome (MemoryManager P D M * bool) :=
  found ← lookup_mapping_owned (page_table s) owner adj_va;
  match (found : option (Z * Z * MappingKind)) with
  | None => Ret (s, false)
  | Some (_, adj_perms, adj_kind) =>
      if negb (bool_decide (adj_kind = DemandPaged)) then Ret (s, false) else
      match get_page_content s owner adj_va with
      | None => Ret (s, false)
      | Some content =>
          match take_frame s with
          | (s, None) => Ret (s, false)
          | (s, Some adj_frame) =>
              let s := copy_to_frame s adj_frame content in
              match install_user_page (mmu s) adj_va adj_frame adj_perms with
              | (m, false) => Ret (give_frame (set_mmu s m) adj_frame, false)
              | (m, true) => Ret (record_present (set_mmu s m) owner adj_va adj_frame, true)
              end
          end
      end
  end.

(** [page_addr.wrapping_add(offset * PAGE_SIZE * direction as usize)]. *)
Definition adjacent (page_addr direction : Z) (offset : nat) : Z :=
  wrapping_add page_addr (wrap64 (Z.of_nat offset * PAGE * wrap64 direction)).

(** [for offset in 1..=FAULT_AROUND_PAGES]. *)
Fixpoint fault_around (offsets : list nat) (s : MemoryManager P D M) (owner page_addr direction : Z)
    : outcome (MemoryManager P D M) :=
  match offsets with
  | [] => Ret s
  | offset :: offsets =>
      let adj_va := adjacent page_addr direction offset in
      if (direction <? 0) && (page_addr <? adj_va) then Ret s else
      '(s, more) ← prefetch_page s owner adj_va;
      if more : bool then fault_around offsets s owner page_addr direction else Ret s
  end.

Definition resolve_demand_paged (s : MemoryManager P D M) (owner page_addr perms : Z)
    : outcome (MemoryManager P D M * bool) :=
  match take_frame_or_kill s with
  | (s, None) => Ret (s, false)
  | (s, Some frame) =>
      '(s, filled) ← backfill s owner page_addr frame;
      if negb filled then Ret (s, false) else
      match install_user_page (mmu s) page_addr frame perms with
      | (m, false) => Ret (give_frame (set_mmu s m) frame, false)
      | (m, true) =>
          let s := record_present (set_mmu s m) owner page_addr frame in
          s ← fault_around (seq 1 FAULT_AROUND_PAGES) s owner page_addr (-1);
          s ← fault_around (seq 1 FAULT_AROUND_PAGES) s owner page_addr 1;
          Ret (s, true)
      end
  end.

(** [room] is the allocator's memory for the table. *)
Definition resolve_cow (room : nat → bool) (s : MemoryManager P D M) (owner page_addr phys : Z) (is_write : bool)
    : outcome (MemoryManager P D M * bool) :=
  if negb is_write then Ret (s, false) else
  match take_frame_or_kill s with
  | (s, None) => Ret (s, false)
  | (s, Some new_frame) =>
      let s := set_frame s new_frame (ram s phys) in
      let s := (dec_frame_refcount s phys).1 in
      match install_user_page (mmu s) page_addr new_frame READ_WRITE with
      | (m, false) => Ret (give_frame (set_mmu s m) new_frame, false)
      | (m, true) =>
          let s := set_mmu s m in
          '(t, _) ← unmap_owned room (page_table s) owner page_addr PAGE;
          match map_to_owned room t owner page_addr new_frame PAGE READ_WRITE Anonymous with
          | (t, Err _) => Ret (give_frame (set_table s t) new_frame, false)
          | (t, Ok _) => Ret (set_table s (mark_accessed_owned t owner page_addr).1, true)
          end
      end
  end.

Definition resolve_page_fault_owned (room : nat → bool) (s : MemoryManager P D M) (owner virtual_address : Z)
    (is_write : bool) : outcome (MemoryManager P D M * bool) :=
  let page_addr := align_down virtual_address in
  found ← lookup_mapping_owned (page_table s) owner page_addr;
  match (found : option (Z * Z * MappingKind)) with
  | None => Ret (s, false)
  | Some (phys, perms, kind) =>
      match kind with
      | DemandPaged => resolve_demand_paged s owner page_addr perms
      | Cow => resolve_cow room s owner page_addr phys is_write
      | _ => Ret (s, false)
      end
  end.

(** The fault is of the address space the CPU runs on. *)
Definition resolve_page_fault (room : nat → bool) (s : MemoryManager P D M) (virtual_address : Z) (is_write : bool)
    : outcome (MemoryManager P D M * bool) :=
  resolve_page_fault_owned room s (current_root (mmu s)) virtual_address is_write.

(** ** Registering a process's pages *)

Definition is_kernel_kind (k : MappingKind) : bool :=
  match k with KernelHeap | KernelStack | Identity | DeviceMemory => true | _ => false end.

Fixpoint register_user_pages (room : nat → bool) (t : PageTable) (owner : Z) (pages : list (Z * Z * Z * MappingKind))
    (count : Z) : outcome (PageTable * Z) :=
  match pages with
  | [] => Ret (t, count)
  | (va, pa, perms, kind) :: pages =>
      let page_addr := align_down va in
      found ← lookup_mapping_owned t owner page_addr;
      match (found : option (Z * Z * MappingKind)) with
      | Some (_, _, existing_kind) =>
          if is_kernel_kind existing_kind then register_user_pages room t owner pages count else
          '(t, _) ← unmap_owned room t owner page_addr PAGE;
          match map_to_owned room t owner page_addr pa PAGE perms kind with
          | (t, Ok _) => register_user_pages room t owner pages (count + 1)
          | (t, Err _) => register_user_pages room t owner pages count
          end
      | None =>
          match map_to_owned room t owner page_addr pa PAGE perms kind with
          | (t, Ok _) => register_user_pages room t owner pages (count + 1)
          | (t, Err _) => register_user_pages room t owner pages count
          end
      end
  end.

Definition is_user_kind (k : MappingKind) : bool :=
  match k with Anonymous | DemandPaged | Cow | Shared => true | _ => false end.

(** [while addr < hi]: one page of the mapping at a time. *)
Fixpoint unregister_pages (fuel : nat) (room : nat → bool) (s : MemoryManager P D M) (owner : Z) (m : Mapping)
    (addr hi count : Z) : outcome (MemoryManager P D M * Z) :=
  if negb (addr <? hi) then Ret (s, count) else
  match fuel with
  | O => NoFuel
  | S fuel =>
      let phys := saturating_add (m_physical_address m) (addr - m_virtual_address m) in
      let s := if bool_decide (m_kind m = Cow) then (dec_frame_refcount s phys).1 else s in
      let s := match swap_map s !! (owner, addr) with
               | Some slot =>
                   set_swap s ((λ area, free_slot area slot) <$> swap_area s) (delete (owner, addr) (swap_map s))
               | None => s
               end in
      let s := remove_compressed_page s owner addr in
      '(t, r) ← unmap_owned room (page_table s) owner addr PAGE;
      unregister_pages fuel room (set_table s t) owner m (saturating_add addr PAGE) hi
        (match r with Ok _ => count + 1 | Err _ => count end)
  end.

Fixpoint unregister_loop (room : nat → bool) (s : MemoryManager P D M) (owner page_start page_end : Z)
    (snapshot : list Mapping) (count : Z) : outcome (MemoryManager P D M * Z) :=
  match snapshot with
  | [] => Ret (s, count)
  | m :: snapshot =>
      let mapping_start := m_virtual_address m in
      let mapping_end := saturating_add mapping_start (m_length m) in
      let lo := Z.max mapping_start page_start in
      let hi := Z.min mapping_end page_end in
      if negb (m_owner m =? owner) || (hi <=? lo) || negb (is_user_kind (m_kind m))
      then unregister_loop room s owner page_start page_end snapshot count
      else
        '(s, count) ← unregister_pages (Z.to_nat ((hi - align_down lo) / PAGE + 1)) room s owner m (align_down lo) hi count;
        unregister_loop room s owner page_start page_end snapshot count
  end.

Definition unregister_user_page_range (room : nat → bool) (s : MemoryManager P D M) (owner start len : Z)
    : outcome (MemoryManager P D M * Z) :=
  let page_start := align_down start in
  let page_end := align_down (saturating_add (saturating_add start len) (PAGE - 1)) in
  unregister_loop room s owner page_start page_end (mappings (page_table s)) 0.

(** ** Moving a frame *)

(** The mappings of one page whose frame is [old_addr], and the last movable one. *)
Definition frame_references (l : list Mapping) (old_addr : Z) : nat * option Mapping :=
  let refs := filter (λ m, m_length m = PAGE ∧ m_physical_address m = old_addr) l in
  (length refs, last (filter (λ m, m_kind m = Anonymous ∨ m_kind m = Locked) refs)).

(** [bare_metal] is the architecture's answer. *)
Definition relocate_user_frame (bare_metal : bool) (t : PageTable) (hw : M) (old_addr new_addr : Z)
    : PageTable * M * bool :=
  match frame_references (mappings t) old_addr with
  | (_, None) => (t, hw, false)
  | (refs, Some m) =>
      if negb (refs =? 1)%nat then (t, hw, false) else
      let va := m_virtual_address m in
      let perms := m_permissions m in
      let '(hw, had_mapping) := unmap_page hw va in
      let '(hw, installed) := if bare_metal then install_user_page hw va new_addr perms else (hw, true) in
      if negb installed then
        (t, if had_mapping : bool then (install_user_page hw va old_addr perms).1 else hw, false)
      else
        let '(t, r) := replace_mapping_phys t va new_addr in
        (t, hw, match r with Ok _ => true | Err _ => false end)
  end.
End Fault.
