(* ===== verification/MemSave.v ===== *)
(** * Saved pages

    The three stores of the memory manager as one map from pages to contents: a
    page saved is kept as it is whatever store takes it, and the pages saved
    before are kept too, also when the compressed cache overflows into the raw
    store. *)

From stdpp Require Import base tactics decidable numbers list gmap.
From Stdlib Require Import ZArith Lia Bool.
From S2P Require Import Prelude Bytes BlockDevice CryptDevice BlockRuns PageCodec PageCodecTheorems Swap SwapTheorems.
From S2P Require Import PageTable PageTableTheorems MemManager.

(** ** The compressed cache *)

Definition zero_page : bytes := replicate PAGE_SIZE 0.

(** What an encoded page decompresses to. *)
Definition decoded (enc : bytes) : bytes :=
  match decompress_page enc zero_page with Ret (true, page) => page | _ => [] end.

(** The bytes of a map of encoded pages. *)
Definition cache_total (m : gmap (Z * Z) bytes) : Z := map_fold (λ _ enc n, Z.of_nat (length enc) + n) 0 m.

Lemma cache_total_empty : cache_total ∅ = 0.
Proof. apply map_fold_empty. Qed.

Lemma cache_total_insert m k enc : m !! k = None →
  cache_total (<[k := enc]> m) = Z.of_nat (length enc) + cache_total m.
Proof. intros E. unfold cache_total. rewrite map_fold_insert_L; [done|intros; lia|done]. Qed.

Lemma cache_total_delete m k enc : m !! k = Some enc →
  cache_total m = Z.of_nat (length enc) + cache_total (delete k m).
Proof.
  intros E. rewrite <- (cache_total_insert (delete k m) k enc) by apply lookup_delete_eq.
  by rewrite insert_delete_id.
Qed.

Lemma cache_total_nonneg m : 0 ≤ cache_total m.
Proof.
  unfold cache_total. apply (map_fold_weak_ind (λ r _, 0 ≤ r)); [lia|]. intros. lia.
Qed.

Lemma first_entry_spec m : match first_entry m with Some (k, enc) => m !! k = Some enc | None => m = ∅ end.
Proof.
  unfold first_entry. set (f := λ best e, _).
  assert (Hf : ∀ l best, (∀ e, best = Some e → m !! e.1 = Some e.2) → (∀ e, e ∈ l → m !! e.1 = Some e.2) →
    (∀ e, foldl f best l = Some e → m !! e.1 = Some e.2) ∧ (foldl f best l = None → best = None ∧ l = [])).
  { induction l as [|e l IH]; intros best Hb Hl; cbn; [by split|].
    destruct (IH (f best e)) as [I1 I2].
    - intros e' E. destruct best as [b|]; cbn in E; [|simplify_eq; apply Hl; by left].
      destruct (_ || _) in E; simplify_eq; [apply Hl; by left|by apply Hb].
    - intros e' He. apply Hl. by right.
    - split; [done|]. intros E. destruct (I2 E) as [E' _]. destruct best as [b|]; cbn in E'; [|done]. by destruct (_ || _) in E'. }
  destruct (Hf (map_to_list m) None) as [H1 H2]; [done|by intros [k e] He%elem_of_map_to_list|].
  destruct (foldl f None (map_to_list m)) as [[k e]|]; [exact (H1 _ eq_refl)|].
  apply map_to_list_empty_iff. by apply H2.
Qed.

(** ** The raw store *)

Lemma key_eqb_spec a b : key_eqb a b = true ↔ a = b.
Proof.
  destruct a as [x y], b as [x' y']. unfold key_eqb. cbn. rewrite andb_true_iff, !Z.eqb_eq.
  split; [by intros [-> ->]|by intros [= -> ->]].
Qed.

Definition content_of (l : list (Z * Z * bytes)) (k : Z * Z) : option bytes :=
  snd <$> find (λ e, key_eqb e.1 k) l.

Lemma content_upsert l k c k' :
  content_of (upsert k c l) k' = if decide (k' = k) then Some c else content_of l k'.
Proof.
  unfold content_of. induction l as [|[k1 c1] l IH]; cbn.
  - destruct (key_eqb k k') eqn:E; case_decide as Hd; try done.
    + by apply key_eqb_spec in E.
    + subst. by rewrite (proj2 (key_eqb_spec k k) eq_refl) in E.
  - destruct (key_eqb k1 k) eqn:E1; cbn.
    + apply key_eqb_spec in E1 as ->. destruct (key_eqb k k') eqn:E; case_decide as Hd; try done.
      * by apply key_eqb_spec in E.
      * subst. by rewrite (proj2 (key_eqb_spec k k) eq_refl) in E.
    + destruct (key_eqb k1 k') eqn:E; [|exact IH]. apply key_eqb_spec in E as ->. case_decide as Hd; [|done].
      subst. by rewrite (proj2 (key_eqb_spec k k) eq_refl) in E1.
Qed.

(** A stored content in a zeroed page. *)
Definition padded (content : bytes) : bytes :=
  let copy_len := Nat.min (length content) PAGE_SIZE in take copy_len content ++ drop copy_len zero_page.

Lemma padded_page content : length content = PAGE_SIZE → padded content = content.
Proof.
  intros L. unfold padded. rewrite L, Nat.min_id, firstn_all2 by lia.
  rewrite drop_ge by (unfold zero_page; rewrite length_replicate; lia). apply app_nil_r.
Qed.

Definition is_page (page : bytes) : Prop := length page = PAGE_SIZE ∧ is_bytes page.

Lemma zero_page_ok : is_page zero_page.
Proof. split; [apply length_replicate|]. apply Forall_replicate. unfold is_byte; lia. Qed.

Lemma padded_is_page content : is_bytes content → is_page (padded content).
Proof.
  intros Hb. destruct zero_page_ok as [Lz Bz]. split.
  - unfold padded. rewrite length_app, length_take, length_drop, Lz. lia.
  - apply is_bytes_app. split; [by apply Forall_take|by apply Forall_drop].
Qed.

(** An entry of the compressed cache. *)
Definition entry_ok (k : Z * Z) (enc : bytes) : Prop :=
  align_down k.2 = k.2 ∧ is_page (decoded enc) ∧ encodes (decoded enc) enc ∧ (length enc < PAGE_SIZE)%nat.

Lemma encodes_decoded page enc : encodes page enc → decoded enc = page.
Proof. intros [_ He]. unfold decoded. by rewrite He by apply zero_page_ok. Qed.

Section Store.
Context {P D M : Type} `{Frames P} `{RunContract D} `{Mmu M}.
Implicit Type s : MemoryManager P D M.

(** The content a page is given back with: that of its slot, else that of its
    compressed copy, else the raw one, else zeros. *)
Definition saved s (h : gmap Z (option bytes)) (k : Z * Z) : bytes :=
  match swap_map s !! k with
  | Some slot => default [] (default None (h !! slot))
  | None =>
      match compressed_pages s !! k with
      | Some enc => decoded enc
      | None => match content_of (page_content s) k with Some content => padded content | None => zero_page end
      end
  end.

(** The swap area and the map into it, [h] being what it holds. *)
Record swap_part s (h : gmap Z (option bytes)) : Prop := {
  sp_area : match swap_area s with Some a => swap_inv a h ∧ 0 ≤ total_pages a | None => swap_map s = ∅ end;
  sp_slot : ∀ k slot, swap_map s !! k = Some slot → ∃ page, h !! slot = Some (Some page) ∧ is_page page;
  sp_inj : ∀ k k' slot, swap_map s !! k = Some slot → swap_map s !! k' = Some slot → k = k';
}.

(** The compressed cache, with [extra] bytes accounted for in advance. *)
Record cache_part s (extra : Z) : Prop := {
  cp_entry : ∀ k enc, compressed_pages s !! k = Some enc → entry_ok k enc;
  cp_bytes : compressed_cache_bytes s = cache_total (compressed_pages s) + extra;
}.

Definition content_part s : Prop := ∀ k content, content_of (page_content s) k = Some content → is_bytes content.

Record store_ok s (h : gmap Z (option bytes)) : Prop := {
  so_swap : swap_part s h;
  so_cache : cache_part s 0;
  so_budget : compressed_cache_bytes s ≤ MAX_COMPRESSED_CACHE_BYTES;
  so_content : content_part s;
  (** A page is in one of the swap area and the cache. *)
  so_one : ∀ k, swap_map s !! k = None ∨ compressed_pages s !! k = None;
}.

(** Nothing but the stores changed. *)
Definition same_machine s s' : Prop :=
  frame_pool s' = frame_pool s ∧ page_table s' = page_table s ∧ frame_refcounts s' = frame_refcounts s ∧
  reclaim_hand s' = reclaim_hand s ∧ mmu s' = mmu s ∧ ram s' = ram s.

Lemma saved_is_page s h k : store_ok s h → is_page (saved s h k).
Proof.
  intros [Hs Hc _ Hp _]. unfold saved. destruct (swap_map s !! k) as [slot|] eqn:E1.
  { destruct (sp_slot s h Hs k slot E1) as (page & -> & ?). done. }
  destruct (compressed_pages s !! k) as [enc|] eqn:E2; [by destruct (cp_entry s 0 Hc k enc E2) as (_ & ? & _)|].
  destruct (content_of (page_content s) k) eqn:E3; [by eapply padded_is_page, Hp|apply zero_page_ok].
Qed.

(** *** Eviction *)

Lemma evict_compressed_ok s h fuel extra : (size (compressed_pages s) < fuel)%nat →
  cache_part s extra → content_part s → 0 ≤ extra ≤ MAX_COMPRESSED_CACHE_BYTES →
  ∃ s', evict_compressed fuel s = Ret s' ∧ same_machine s s' ∧ swap_area s' = swap_area s ∧ swap_map s' = swap_map s ∧
    cache_part s' extra ∧ compressed_cache_bytes s' ≤ MAX_COMPRESSED_CACHE_BYTES ∧ content_part s' ∧
    (∀ k, compressed_pages s !! k = None → compressed_pages s' !! k = None) ∧ ∀ k, saved s' h k = saved s h k.
Proof.
  revert s. induction fuel as [|fuel IH]; intros s Hf Hc Hp He; [lia|]. cbn [evict_compressed].
  destruct (Z.ltb_spec MAX_COMPRESSED_CACHE_BYTES (compressed_cache_bytes s)) as [Hov|]; [|by exists s].
  pose proof (first_entry_spec (compressed_pages s)) as Hfe.
  destruct (first_entry (compressed_pages s)) as [[[o a] enc]|]; cycle 1.
  { exfalso. rewrite (cp_bytes s extra Hc), Hfe, cache_total_empty in Hov. lia. }
  pose proof (cp_entry s extra Hc _ _ Hfe) as (Ha & Hdec & [Henc Ed] & _). cbn in Ha.
  rewrite (Ed (replicate PAGE_SIZE 0)) by apply length_replicate. cbn [mbind outcome_bind].
  set (s1 := store_page_content _ o a _).
  assert (Ec1 : compressed_pages s1 = delete (o, a) (compressed_pages s)) by reflexivity.
  assert (Eb1 : compressed_cache_bytes s1 = saturating_sub (compressed_cache_bytes s) (Z.of_nat (length enc))) by reflexivity.
  pose proof (cache_total_delete _ _ _ Hfe) as Et. pose proof (cp_bytes s extra Hc) as Eb.
  assert (Hsz : (size (compressed_pages s1) < fuel)%nat).
  { rewrite Ec1, map_size_delete_Some by eauto. assert (size (compressed_pages s) ≠ 0%nat); [|lia].
    intros E0%map_size_empty_inv. by rewrite E0, lookup_empty in Hfe. }
  assert (Hct : ∀ k, content_of (page_content s1) k = if decide (k = (o, a)) then Some (decoded enc) else content_of (page_content s) k).
  { intros k. cbn. rewrite Ha. apply content_upsert. }
  destruct (IH s1 Hsz) as (s' & E' & Hm & Ea' & Em' & Hc' & Hb' & Hp' & Hn' & Hs').
  - split.
    + intros k e E. rewrite Ec1 in E. apply lookup_delete_Some in E as [_ E]. by eapply (cp_entry s extra Hc).
    + rewrite Eb1, Ec1. unfold saturating_sub. pose proof (cache_total_nonneg (delete (o, a) (compressed_pages s))). lia.
  - intros k c E. rewrite Hct in E. case_decide; [simplify_eq; apply Hdec|by eapply Hp].
  - done.
  - exists s'. split; [done|]. split; [done|]. split; [done|]. split; [done|]. split; [done|]. split; [done|].
    split; [done|]. split.
    + intros k E. apply Hn'. rewrite Ec1. apply lookup_delete_None. by right.
    + intros k. rewrite Hs'. unfold saved. rewrite Hct, Ec1. change (swap_map s1) with (swap_map s).
      destruct (swap_map s !! k); [done|]. destruct (decide (k = (o, a))) as [->|Hne].
      * rewrite lookup_delete_eq, Hfe. apply padded_page, Hdec.
      * by rewrite lookup_delete_ne by done.
Qed.

(** *** Saving a page *)

(** Pages without a newer copy than the raw one. *)
Definition no_copy s (k : Z * Z) : Prop := swap_map s !! k = None ∧ compressed_pages s !! k = None.

(** What saving the content of [k] did. *)
Definition saves s h s' h' (k : Z * Z) (content : bytes) : Prop :=
  same_machine s s' ∧ store_ok s' h' ∧ saved s' h' k = content ∧
  ∀ k', k' ≠ k → saved s' h' k' = saved s h k' ∧ (no_copy s k' → no_copy s' k').

Lemma swap_out_ok s h o a content : store_ok s h → no_copy s (o, a) → is_page content →
  ∃ s' h' b, swap_out s o a content = Ret (s', b) ∧ same_machine s s' ∧ store_ok s' h' ∧
    compressed_pages s' = compressed_pages s ∧ page_content s' = page_content s ∧
    (∀ k', k' ≠ (o, a) → saved s' h' k' = saved s h k' ∧ swap_map s' !! k' = swap_map s !! k') ∧
    if b then saved s' h' (o, a) = content else swap_map s' = swap_map s ∧ saved s' h' (o, a) = saved s h (o, a).
Proof.
  intros Hok [Hk Hk2] [Hl Hb]. pose proof Hok as [[Har Hsl Hinj] Hc Hbu Hp Hone]. unfold swap_out.
  destruct (swap_area s) as [area|] eqn:Ea; [|by exists s, h, false]. destruct Har as [Hi Hn].
  pose proof (allocate_ok area h Hi Hn) as Hal. destruct (allocate_slot area) as [area1 [slot|]] eqn:Es; cycle 1.
  { exists (set_swap s (Some area1) (swap_map s)), h, false. split; [done|]. split; [done|]. split; [|done].
    split; [|by destruct Hc|done|done|done]. split; [cbn|done|done].
    split; [apply Hal|]. unfold allocate_slot in Es. by destruct (free_slots area); simplify_eq. }
  destruct Hal as [[Hr Hfree] Hi1]. cbn [right after] in *.
  assert (Hn1 : 0 ≤ total_pages area1) by (unfold allocate_slot in Es; by destruct (free_slots area); simplify_eq).
  destruct (write_ok area1 _ slot content Hi1 ltac:(by rewrite lookup_insert_eq) Hl Hb)
    as (d & r & -> & Hi2 & _). cbn [mbind outcome_bind]. rewrite insert_insert_eq in Hi2.
  assert (Hne : ∀ k sl0, swap_map s !! k = Some sl0 → sl0 ≠ slot).
  { intros k sl0 E ->. destruct (Hsl k slot E) as (page & E' & _). congruence. }
  destruct r as [[]|er].
  - exists (set_swap s (Some (with_device area1 d)) (<[(o, a):=slot]> (swap_map s))), (<[slot:=Some content]> h), true.
    split; [done|]. split; [done|]. split; [|split; [done|split; [done|split]]].
    + split; [split; cbn; [done| |]|by destruct Hc|done|done|].
      * intros k sl0 [[<- <-]|[_ E]]%lookup_insert_Some; [exists content; by rewrite lookup_insert_eq|].
        rewrite lookup_insert_ne by (intros <-; by destruct (Hne _ _ E)). by eapply Hsl.
      * intros k k' sl0 [[<- E1]|[_ E1]]%lookup_insert_Some [[<- E2]|[_ E2]]%lookup_insert_Some; try done;
          [subst; by destruct (Hne _ _ E2)|subst; by destruct (Hne _ _ E1)|by eapply Hinj].
      * intros k. cbn [swap_map compressed_pages set_swap]. destruct (decide (k = (o, a))) as [->|Hka]; [by right|].
        rewrite lookup_insert_ne by congruence. apply Hone.
    + intros k' Hk'. split; [|by apply lookup_insert_ne]. unfold saved.
      cbn [swap_map set_swap compressed_pages page_content]. rewrite lookup_insert_ne by congruence.
      destruct (swap_map s !! k') as [sl0|] eqn:E0; [|reflexivity]. rewrite lookup_insert_ne; [reflexivity|]. intros <-. by destruct (Hne _ _ E0).
    + unfold saved. cbn [swap_map set_swap]. by rewrite !lookup_insert_eq.
  - exists (set_swap s (Some (free_slot (with_device area1 d) slot)) (swap_map s)), h, false.
    split; [done|]. split; [done|]. split; [|done].
    split; [split; cbn|by destruct Hc|done|done|done]; [|done|done]. split; [|done].
    rewrite <- (delete_insert_id h slot None Hfree). apply free_ok; [done|by rewrite lookup_insert_eq].
Qed.

Lemma saved_raw s h k : no_copy s k →
  saved s h k = match content_of (page_content s) k with Some content => padded content | None => zero_page end.
Proof. intros [E1 E2]. unfold saved. by rewrite E1, E2. Qed.

Lemma add_compressed_ok s h o a content enc : store_ok s h → no_copy s (o, a) → align_down a = a →
  is_page content → encodes content enc → (length enc < PAGE_SIZE)%nat →
  ∃ s', add_compressed_page s o a enc = Ret s' ∧ saves s h s' h (o, a) content.
Proof.
  intros [Hs Hc Hbu Hp Hone] [Hn1 Hn2] Ha Hpg Henc Hlt. unfold add_compressed_page, remove_compressed_page.
  rewrite !Ha, Hn2. pose proof (cp_bytes s 0 Hc) as Eb. pose proof page_size_Z as PZ.
  unfold MAX_COMPRESSED_CACHE_BYTES in Hbu. rewrite checked_add_small by (unfold u64_max; lia).
  destruct (evict_compressed_ok (set_compressed s (compressed_pages s) (compressed_cache_bytes s + Z.of_nat (length enc)))
              h (S (size (compressed_pages s))) (Z.of_nat (length enc)))
    as (s1 & E1 & Hm & Ea & Em & Hc1 & Hb1 & Hp1 & Hn & Hsv).
  { cbn [compressed_pages set_compressed]. lia. }
  { split; [apply (cp_entry s 0 Hc)|]. cbn. lia. }
  { done. }
  { unfold MAX_COMPRESSED_CACHE_BYTES. lia. }
  rewrite E1. cbn [mbind outcome_bind]. eexists. split; [reflexivity|]. cbn [compressed_pages set_compressed] in Hn.
  pose proof (Hn _ Hn2) as Hn1'.
  split; [exact Hm|]. split; [|split].
  - split.
    + split; cbn; [|rewrite Em; apply Hs..]. rewrite Ea, Em. apply Hs.
    + split; cbn [compressed_pages set_compressed compressed_cache_bytes].
      * intros k e [[<- <-]|[_ E]]%lookup_insert_Some; [|by eapply (cp_entry s1 _ Hc1)].
        unfold entry_ok. by rewrite (encodes_decoded _ _ Henc).
      * rewrite cache_total_insert by done. rewrite (cp_bytes s1 _ Hc1). lia.
    + done.
    + done.
    + intros k. cbn [swap_map compressed_pages set_compressed]. rewrite Em. destruct (decide (k = (o, a))) as [->|Hka]; [by left|].
      rewrite lookup_insert_ne by congruence. destruct (Hone k); [by left|right]. by apply Hn.
  - unfold saved. cbn [swap_map compressed_pages set_compressed]. rewrite Em. cbn [swap_map set_compressed].
    rewrite Hn1, lookup_insert_eq. by apply encodes_decoded.
  - intros k' Hk'. specialize (Hsv k'). split.
    + transitivity (saved s1 h k'); [|exact Hsv]. unfold saved. cbn [swap_map compressed_pages set_compressed page_content].
      by rewrite lookup_insert_ne by congruence.
    + intros [E2 E3]. split; cbn [swap_map compressed_pages set_compressed]; [by rewrite Em|].
      rewrite lookup_insert_ne by congruence. by apply Hn.
Qed.

Lemma store_raw_ok s h o a content : store_ok s h → no_copy s (o, a) → align_down a = a → is_page content →
  saves s h (store_page_content s o a content) h (o, a) content.
Proof.
  intros [Hs Hc Hbu Hp Hone] Hn Ha [Hl Hb]. unfold store_page_content. rewrite Ha. split; [done|]. split; [|split].
  - split; [by destruct Hs|by destruct Hc|done| |done]. intros k c. cbn [page_content set_content]. rewrite content_upsert.
    case_decide; [by intros [= <-]|apply Hp].
  - rewrite saved_raw by exact Hn. cbn [page_content set_content]. rewrite content_upsert, decide_True by done.
    by apply padded_page.
  - intros k' Hk'. split; [|done]. unfold saved. cbn [swap_map compressed_pages page_content set_content].
    by rewrite content_upsert, decide_False by done.
Qed.

(** Whatever store takes it, a page is saved with its content, and the pages that
    were saved before stay as they are. *)
Lemma save_page_ok s h o a content : store_ok s h → no_copy s (o, a) → align_down a = a → is_page content →
  ∃ s' h', save_page s o a content = Ret s' ∧ saves s h s' h' (o, a) content.
Proof.
  intros Hok Hn Ha Hpg. unfold save_page. pose proof Hn as [Hn1 Hn2].
  destruct (swap_out_ok s h o a content Hok Hn Hpg) as (s1 & h1 & b & -> & Hm & Hok1 & Ec & Ep & Hsv & Hb).
  cbn [mbind outcome_bind]. destruct b.
  { exists s1, h1. split; [done|]. split; [done|]. split; [done|]. split; [done|]. intros k' Hk'.
    destruct (Hsv k' Hk') as [? Em]. split; [done|]. intros [? ?]. split; congruence. }
  destruct Hb as [Em Hb]. assert (Hn' : no_copy s1 (o, a)) by (split; congruence).
  destruct Hpg as [Hl Hby]. destruct (compress_page_ok content Hl Hby) as (r & -> & Hr). cbn [mbind outcome_bind].
  assert (Hall : ∃ s', match r with Some page => add_compressed_page s1 o a page | None => Ret (store_page_content s1 o a content) end = Ret s' ∧
    saves s1 h1 s' h1 (o, a) content).
  { destruct r as [enc|]; [destruct (Hr enc eq_refl); by apply add_compressed_ok|].
    eexists. split; [done|]. by apply store_raw_ok. }
  destruct Hall as (s' & E & Hm' & Hok' & Hs' & Ho'). exists s', h1. split; [exact E|].
  split; [|split; [done|split; [done|]]].
  - destruct Hm as (?&?&?&?&?&?), Hm' as (?&?&?&?&?&?). repeat split; congruence.
  - intros k' Hk'. destruct (Ho' k' Hk') as [E1 E2], (Hsv k' Hk') as [E3 E4]. split; [congruence|].
    intros [? ?]. apply E2. split; congruence.
Qed.
End Store.
