(* ===== verification/MemReclaim.v ===== *)
(** * Reclaiming keeps the memory of processes

    The memory of a process as its pages show it: the frame of a page that is
    present, the saved content of one that is not.  Reclaiming pages of the
    running address space changes where a page is, never what it holds. *)

From stdpp Require Import base tactics decidable numbers list gmap sorting.
From Stdlib Require Import ZArith Lia Bool.
From S2P Require Import Prelude Bytes BlockDevice CryptDevice BlockRuns PageCodec PageCodecTheorems Swap SwapTheorems.
From S2P Require Import PageTable PageTableTheorems MemManager MemSave.

(** ** What the machine below promises *)

(** The live tables: an installed page is translated, an unmapped one is not any
    more, in the table the CPU runs on and in no other.  [unmap_page] answers
    whether the page was mapped. *)
Class MmuContract (M : Type) `{Mmu M} := {
  install_law m va pa perms : let '(m', ok) := install_user_page m va pa perms in
    current_root m' = current_root m ∧
    ∀ r a, translation m' r a =
      if ok && (r =? current_root m) && (a =? va) then Some pa else translation m r a;
  unmap_page_law m va : let '(m', ok) := unmap_page m va in
    current_root m' = current_root m ∧
    ok = bool_decide (is_Some (translation m (current_root m) va)) ∧
    ∀ r a, translation m' r a =
      if ok && (r =? current_root m) && (a =? va) then None else translation m r a;
}.

(** The pool: a frame it gives was not in use, and a frame given back is not. *)
Class FramesContract (P : Type) `{Frames P} := {
  pool_ok : P → Prop;
  in_use : P → Z → Prop;
  allocate_law p : pool_ok p → let '(p', r) := allocate_frames p in pool_ok p' ∧
    match r with
    | Some f => ¬ in_use p f ∧ 0 ≤ f ∧ f mod 4096 = 0 ∧ f + 4096 ≤ u64_max ∧ ∀ g, in_use p' g ↔ g = f ∨ in_use p g
    | None => ∀ g, in_use p' g ↔ in_use p g
    end;
  deallocate_law p f : pool_ok p → in_use p f → let '(p', ok) := deallocate_frames p f in
    ok = true ∧ pool_ok p' ∧ ∀ g, in_use p' g ↔ in_use p g ∧ g ≠ f;
}.

(** ** Tables by their mappings *)

(** One mapping of an owner covers an address. *)
Lemma mapping_unique l m n a : Forall mapping_ok l → StronglySorted apart l → m ∈ l → n ∈ l → m_owner m = m_owner n →
  m_virtual_address m ≤ a < m_end m → m_virtual_address n ≤ a < m_end n → m = n.
Proof.
  intros Hok Hap. induction Hap as [|x l Hap IH Hx]; [by intros []%not_elem_of_nil|].
  apply Forall_cons in Hok as [_ Hok]. rewrite Forall_forall in Hx.
  intros [->|Hm]%elem_of_cons [->|Hn]%elem_of_cons Eo Ham Han.
  - done.
  - destruct (Hx n Hn Eo); lia.
  - destruct (Hx m Hm (eq_sym Eo)); lia.
  - by apply IH.
Qed.

Lemma view_elem t o a e : table_ok t →
  view t o a = Some e ↔ ∃ m, m ∈ mappings t ∧ m_owner m = o ∧ m_virtual_address m ≤ a < m_end m ∧ translate m a = e.
Proof.
  intros [Hok Hap]. pose proof Hok as Hok'. rewrite Forall_forall in Hok'. split.
  - intros E. unfold view, view_of in E. apply fmap_Some in E as (m & [Hin Eo]%find_some & ->).
    apply list_elem_of_In in Hin. apply owns_spec in Eo as [? ?]; [|by apply Hok']. by exists m.
  - intros (m & Hin & <- & Ha & <-). unfold view, view_of.
    destruct (find (owns (m_owner m) a) (mappings t)) as [n|] eqn:Ef.
    + apply find_some in Ef as [Hn%list_elem_of_In En]. apply owns_spec in En as [En ?]; [|by apply Hok'].
      by rewrite (mapping_unique (mappings t) n m a).
    + eapply find_none in Ef; [|by apply list_elem_of_In]. rewrite (proj2 (owns_spec _ _ _ (Hok' m Hin))) in Ef; done.
Qed.

(** An update in place replaces the mapping of the page. *)
Lemma update_elems t o va f g m : table_ok t → m ∈ mappings t → m_owner m = o → m_virtual_address m = align_down va →
  keeps f g m →
  ∃ t', update_mapping t o va f = (t', Ok ()) ∧ table_ok t' ∧ length (mappings t') = length (mappings t) ∧
    ∀ n, n ∈ mappings t' ↔ n = f m ∨ n ∈ mappings t ∧ ¬ (m_owner n = o ∧ m_virtual_address n = align_down va).
Proof.
  intros Ht Hm Eo Ev Hk. pose proof Ht as [Hok Hap]. unfold update_mapping.
  pose proof (update_first_split (starts_at o (align_down va)) f (mappings t)) as Hu.
  destruct (update_first _ f (mappings t)) as [l'|] eqn:Ef; cycle 1.
  { rewrite Forall_forall in Hu. specialize (Hu m Hm). unfold starts_at in Hu.
    by rewrite (proj2 (Z.eqb_eq _ _) Eo), (proj2 (Z.eqb_eq _ _) Ev) in Hu. }
  destruct Hu as (l1 & m' & l2 & El & -> & Hp). apply andb_prop in Hp as [Eo'%Z.eqb_eq Ev'%Z.eqb_eq].
  assert (Hat : ∀ n, n ∈ mappings t → m_owner n = o ∧ m_virtual_address n = align_down va → n = m).
  { intros n Hn [Eno Env]. pose proof Hok as Hok'. rewrite Forall_forall in Hok'.
    pose proof (ok_len n (Hok' n Hn)). pose proof (ok_len m (Hok' m Hm)).
    apply (mapping_unique (mappings t) n m (align_down va)); try done; unfold m_end; [congruence|lia|lia]. }
  assert (m' = m) as -> by (apply Hat; [rewrite El; apply elem_of_app; right; by left|done]).
  eexists. split; [done|]. split; [|split].
  - split; cbn [mappings]; rewrite El in Hok, Hap.
    + apply Forall_app in Hok as [? [_ ?]%Forall_cons]. apply Forall_app. split; [done|]. apply Forall_cons. split; [apply Hk|done].
    + destruct Hk as [Kv Kl Ko _ _]. apply StronglySorted_app in Hap as (Ha & Hap1 & [Hap2 Hm2]%StronglySorted_inv).
      assert (Hsame : ∀ n, (apart n m → apart n (f m)) ∧ (apart m n → apart (f m) n))
        by (intros n; unfold apart, m_end; by rewrite Kv, Kl, Ko).
      apply StronglySorted_app. split; [|split; [done|]].
      * intros x y Hx [->|Hy]%elem_of_cons; [apply Hsame, Ha; [done|by left]|apply Ha; [done|by right]].
      * constructor; [done|]. eapply Forall_impl; [exact Hm2|]. intros n. apply Hsame.
  - cbn [mappings]. rewrite El, !length_app. done.
  - intros n. cbn [mappings]. rewrite El, !elem_of_app, !elem_of_cons.
    assert (Hother : ∀ x, x ∈ l1 ∨ x ∈ l2 → ¬ (m_owner x = o ∧ m_virtual_address x = align_down va)).
    { intros x Hx Hxo. rewrite El in Hap, Hok. apply StronglySorted_app in Hap as (Ha & _ & [_ Hm2]%StronglySorted_inv).
      rewrite Forall_forall in Hm2. apply Forall_app in Hok as [Hok1 [Hokm Hok2]%Forall_cons].
      rewrite Forall_forall in Hok1, Hok2. destruct Hxo. pose proof (ok_len m Hokm). destruct Hx as [Hx|Hx].
      - pose proof (ok_len x (Hok1 x Hx)). destruct (Ha x m Hx ltac:(by left) ltac:(congruence)); unfold m_end in *; lia.
      - pose proof (ok_len x (Hok2 x Hx)). destruct (Hm2 x Hx ltac:(congruence)); unfold m_end in *; lia. }
    split.
    + intros [Hn|[->|Hn]]; [right; split; [tauto|by apply Hother; left]|by left|right; split; [tauto|by apply Hother; right]].
    + intros [->|[[Hn|[->|Hn]] Hno]]; [tauto|tauto|by destruct Hno|tauto].
Qed.

(** ** The memory of processes *)

Section Image.
Context {P D M : Type} `{FramesContract P} `{RunContract D} `{MmuContract M}.
Implicit Type s : MemoryManager P D M.

(** What process [o] has at the page [a]. *)
Definition image s (h : gmap Z (option bytes)) (o a : Z) : option bytes :=
  match view (page_table s) o a with
  | Some (pa, _, Anonymous) => Some (ram s pa)
  | Some (_, _, DemandPaged) => Some (saved s h (o, a))
  | _ => None
  end.

(** A page that is present: its frame is its own, the hardware shows it, and no
    older copy is kept that would shadow the next one. *)
Record present_ok s (m : Mapping) : Prop := {
  pr_used : in_use (frame_pool s) (m_physical_address m);
  pr_page : is_page (ram s (m_physical_address m));
  pr_live : translation (mmu s) (m_owner m) (m_virtual_address m) = Some (m_physical_address m);
  pr_copy : no_copy s (m_owner m, m_virtual_address m);
}.

Definition pageable (k : MappingKind) : Prop := k = Anonymous ∨ k = DemandPaged.

Record mm_ok s (h : gmap Z (option bytes)) : Prop := {
  mo_table : table_ok (page_table s);
  mo_single : ∀ m, m ∈ mappings (page_table s) → pageable (m_kind m) → m_length m = 4096;
  mo_pool : pool_ok (frame_pool s);
  mo_present : ∀ m, m ∈ mappings (page_table s) → m_kind m = Anonymous → present_ok s m;
  mo_inj : ∀ m n, m ∈ mappings (page_table s) → n ∈ mappings (page_table s) →
    m_kind m = Anonymous → m_kind n = Anonymous → m_physical_address m = m_physical_address n →
    m_owner m = m_owner n ∧ m_virtual_address m = m_virtual_address n;
  mo_store : store_ok s h;
}.

Definition keeps_image s h s' h' : Prop := ∀ o a, a mod 4096 = 0 → image s' h' o a = image s h o a.

Lemma image_spec s h o a c : mm_ok s h → a mod 4096 = 0 →
  image s h o a = Some c ↔
  ∃ m, m ∈ mappings (page_table s) ∧ m_owner m = o ∧ m_virtual_address m = a ∧
    ((m_kind m = Anonymous ∧ c = ram s (m_physical_address m)) ∨ (m_kind m = DemandPaged ∧ c = saved s h (o, a))).
Proof.
  intros Hok Ha. pose proof (mo_table s h Hok) as Ht. pose proof Ht as [Htok _]. rewrite Forall_forall in Htok. split.
  - intros E. unfold image in E. destruct (view (page_table s) o a) as [[[pa q] k]|] eqn:Ev; [|done].
    apply (view_elem _ _ _ _ Ht) in Ev as (m & Hm & Eo & Hr & [= <- <- <-]). exists m. split; [done|]. split; [done|].
    assert (Hk : pageable (m_kind m)) by (unfold pageable; destruct (m_kind m); try done; tauto).
    pose proof (mo_single s h Hok m Hm Hk) as El. destruct (ok_va m (Htok m Hm)) as [_ Mv]. unfold m_end in Hr.
    assert (Eq : m_virtual_address m = a).
    { pose proof (Z.div_mod a 4096 ltac:(lia)). pose proof (Z.div_mod (m_virtual_address m) 4096 ltac:(lia)).
      assert (a / 4096 = m_virtual_address m / 4096) by nia. lia. }
    split; [done|]. rewrite <- Eq, Z.sub_diag, Z.add_0_r in E. destruct Hk as [Hk|Hk]; rewrite Hk in E; simplify_eq; auto.
  - intros (m & Hm & Eo & Ev & Hc). pose proof (ok_len m (Htok m Hm)) as [Hl _].
    assert (Hv : view (page_table s) o a = Some (translate m a)).
    { apply (view_elem _ _ _ _ Ht). exists m. split; [done|]. split; [done|]. split; [unfold m_end; lia|done]. }
    unfold image. rewrite Hv. unfold translate. rewrite Ev, Z.sub_diag, Z.add_0_r.
    destruct Hc as [[-> ->]|[-> ->]]; done.
Qed.

(** Two states with the same pages. *)
Lemma keeps_image_by s h s' h' : mm_ok s h → mm_ok s' h' →
  (∀ o a c, a mod 4096 = 0 → image s' h' o a = Some c ↔ image s h o a = Some c) → keeps_image s h s' h'.
Proof. intros _ _ Hi o a Ha. apply option_eq. intros c. by apply Hi. Qed.

(** *** One page *)

(** The page of [m] is reclaimed: its mapping is demand-paged, its frame free, and
    its content saved. *)
Lemma reclaimed_ok s h s' h' m : mm_ok s h → m ∈ mappings (page_table s) → m_kind m = Anonymous →
  let k := (m_owner m, m_virtual_address m) in
  table_ok (page_table s') → pool_ok (frame_pool s') → store_ok s' h' →
  (∀ n, n ∈ mappings (page_table s') ↔
     n = set_kind DemandPaged m ∨ n ∈ mappings (page_table s) ∧ ¬ (m_owner n = m_owner m ∧ m_virtual_address n = m_virtual_address m)) →
  (∀ f, in_use (frame_pool s') f ↔ in_use (frame_pool s) f ∧ f ≠ m_physical_address m) →
  (∀ r a, (r, a) ≠ k → translation (mmu s') r a = translation (mmu s) r a) →
  ram s' = ram s → saved s' h' k = ram s (m_physical_address m) →
  (∀ k', k' ≠ k → saved s' h' k' = saved s h k' ∧ (no_copy s k' → no_copy s' k')) →
  mm_ok s' h' ∧ keeps_image s h s' h'.
Proof.
  intros Hok Hm Hka k Ht Hp Hst Hel Hus Htr Era Hsk Hso.
  assert (Hold : ∀ n, n ∈ mappings (page_table s') → m_kind n = Anonymous →
    n ∈ mappings (page_table s) ∧ (m_owner n, m_virtual_address n) ≠ k).
  { intros n [->|[Hn Hne]]%Hel Hk; [done|]. split; [done|]. intros E. apply Hne. by injection E. }
  assert (Hok' : mm_ok s' h').
  { split; try done.
    - intros n [->|[Hn _]]%Hel Hk; [cbn; by apply (mo_single s h Hok); [|left]|by apply (mo_single s h Hok)].
    - intros n Hn Hk. destruct (Hold n Hn Hk) as [Hn' Hne]. destruct (mo_present s h Hok n Hn' Hk) as [? ? ? ?]. split.
      + apply Hus. split; [done|]. intros E. apply Hne. unfold k.
        destruct (mo_inj s h Hok n m Hn' Hm Hk Hka E) as [-> ->]. done.
      + by rewrite Era.
      + by rewrite Htr.
      + by apply Hso.
    - intros n n' Hn Hn' Hk Hk' E. destruct (Hold n Hn Hk), (Hold n' Hn' Hk'). by apply (mo_inj s h Hok). }
  split; [done|]. apply keeps_image_by; [done|done|]. intros o a c Ha. rewrite !image_spec by done. split.
  - intros (n & [->|[Hn Hne]]%Hel & Eo & Ev & Hc).
    + exists m. cbn in *. split; [done|]. split; [done|]. split; [done|]. destruct Hc as [[? _]|[_ ->]]; [done|]. left.
      split; [done|]. by rewrite <- Eo, <- Ev.
    + exists n. split; [done|]. split; [done|]. split; [done|]. rewrite Era in Hc.
      destruct Hc as [?|[? ->]]; [by left|right]. split; [done|]. apply Hso. intros [= E1 E2]. apply Hne. by subst.
  - intros (n & Hn & Eo & Ev & Hc). destruct (decide (o = m_owner m ∧ a = m_virtual_address m)) as [[E1 E2]|Hne].
    + assert (n = m) as ->.
      { pose proof (mo_table s h Hok) as [Hok1 Hap]. pose proof Hok1 as Hf. rewrite Forall_forall in Hf.
        pose proof (ok_len n (Hf n Hn)). pose proof (ok_len m (Hf m Hm)).
        apply (mapping_unique (mappings (page_table s)) n m a); try done; unfold m_end; [congruence|lia|lia]. }
      exists (set_kind DemandPaged m). split; [apply Hel; by left|]. cbn. split; [done|]. split; [done|]. right. split; [done|].
      destruct Hc as [[_ ->]|[? _]]; [|congruence]. rewrite <- Hsk. unfold k. by rewrite E1, E2.
    + exists n. split; [apply Hel; right; split; [done|]; intros [E1 E2]; apply Hne; split; congruence|].
      split; [done|]. split; [done|]. rewrite Era. destruct Hc as [?|[? ->]]; [by left|right]. split; [done|].
      symmetry. apply Hso. intros [= E1 E2]. by apply Hne.
Qed.

Lemma page_aligned a : 0 ≤ a ≤ u64_max → a mod 4096 = 0 → align_down a = a.
Proof. clear. intros Ha Hm. rewrite align_down_spec by done. lia. Qed.

Lemma mapping_word m : mapping_ok m → word (m_virtual_address m) ∧ align_down (m_virtual_address m) = m_virtual_address m.
Proof.
  clear. intros Hm. destruct (ok_va m Hm) as [? ?], (ok_len m Hm), (ok_end m Hm). unfold m_end in *.
  assert (word (m_virtual_address m)) by (split; lia). split; [done|]. by apply page_aligned.
Qed.

Lemma reclaim_page_ok s h m : mm_ok s h → m ∈ mappings (page_table s) → m_kind m = Anonymous →
  m_owner m = current_root (mmu s) →
  ∃ s' h', reclaim_page s (m_owner m) (m_virtual_address m) (m_physical_address m) = Ret (s', true) ∧
    mm_ok s' h' ∧ keeps_image s h s' h' ∧ current_root (mmu s') = current_root (mmu s) ∧
    length (mappings (page_table s')) = length (mappings (page_table s)) ∧
    (∀ n, n ∈ mappings (page_table s') → m_kind n = Anonymous → n ∈ mappings (page_table s)).
Proof.
  intros Hok Hm Hk Ho. destruct (mo_present s h Hok m Hm Hk) as [Hu Hpg Htr Hnc].
  pose proof (mo_table s h Hok) as Ht. pose proof Ht as [Htok _]. rewrite Forall_forall in Htok. specialize (Htok m Hm).
  destruct (mapping_word m Htok) as [Hw Hal].
  destruct (save_page_ok s h _ _ _ (mo_store s h Hok) Hnc Hal Hpg) as (s1 & h1 & E1 & (Ep & Et & Er & _ & Em & Era) & Hst & Hsk & Hso).
  unfold reclaim_page. rewrite E1. cbn [mbind outcome_bind]. rewrite Em.
  pose proof (unmap_page_law (mmu s) (m_virtual_address m)) as Hlaw.
  destruct (unmap_page (mmu s) (m_virtual_address m)) as [hw ok]. destruct Hlaw as (Hroot & -> & Htl).
  rewrite bool_decide_true in * by (rewrite <- Ho, Htr; eauto).
  pose proof (deallocate_law (frame_pool s) _ (mo_pool s h Hok) Hu) as Hd. cbn [frame_pool set_mmu]. rewrite Ep.
  destruct (deallocate_frames (frame_pool s) (m_physical_address m)) as [p okd]. destruct Hd as (_ & Hpok & Hus).
  destruct (update_elems (page_table s) (m_owner m) (m_virtual_address m) (set_kind DemandPaged)
    (λ _ '(p, q, _), (p, q, DemandPaged)) m Ht Hm eq_refl (eq_sym Hal)) as (t' & E2 & Ht' & El & Hel).
  { keep_mapping Htok. }
  unfold replace_mapping_kind_owned. cbn [page_table set_pool set_mmu]. rewrite Et, E2. cbn [fst].
  rewrite Hal in Hel. eexists _, h1. split; [done|].
  destruct (reclaimed_ok s h (set_table (set_pool (set_mmu s1 hw) p) t') h1 m Hok Hm Hk) as [Hok' Him]; try done.
  { destruct Hst as [[] [] ? ? ?]. split; [by split|by split|done|done|done]. }
  { intros r a Hne. cbn [mmu set_table set_pool set_mmu]. rewrite Htl. cbn [andb]. rewrite <- Ho.
    destruct (Z.eqb_spec r (m_owner m)) as [->|], (Z.eqb_spec a (m_virtual_address m)) as [->|]; done. }
  split; [done|]. split; [done|]. split; [done|]. split; [done|].
  intros n [->|[? _]]%Hel ?; done.
Qed.

(** *** The clock *)

(** Mappings that differ in their accessed bit or advice alone. *)
Definition same_shape (m n : Mapping) : Prop :=
  m_virtual_address m = m_virtual_address n ∧ m_physical_address m = m_physical_address n ∧ m_length m = m_length n ∧
  m_kind m = m_kind n ∧ m_owner m = m_owner n.

Lemma reshaped_ok s h t' : mm_ok s h → table_ok t' →
  (∀ n, n ∈ mappings t' → ∃ m, m ∈ mappings (page_table s) ∧ same_shape n m) →
  (∀ m, m ∈ mappings (page_table s) → ∃ n, n ∈ mappings t' ∧ same_shape n m) →
  mm_ok (set_table s t') h ∧ keeps_image s h (set_table s t') h.
Proof.
  intros Hok Ht H1' H2'. assert (Hok' : mm_ok (set_table s t') h).
  { destruct Hok as [_ Hs Hp Hpr Hin [[] [] ? ? ?]]. split; cbn [page_table set_table].
    - done.
    - intros n (m & Hm & _ & _ & El & Ek & _)%H1'. rewrite El, Ek. by apply Hs.
    - done.
    - intros n (m & Hm & Ev & Ep & _ & Ek & Eo)%H1' Hk. destruct (Hpr m Hm ltac:(congruence)).
      split; rewrite ?Eo, ?Ev, ?Ep; assumption.
    - intros n n' (m & Hm & Ev & Ep & _ & Ek & Eo)%H1' (m' & Hm' & Ev' & Ep' & _ & Ek' & Eo')%H1' Hk Hk' E.
      destruct (Hin m m' Hm Hm' ltac:(congruence) ltac:(congruence) ltac:(congruence)). split; congruence.
    - split; [by split|by split|done|done|done]. }
  split; [done|]. apply keeps_image_by; [done|done|]. intros o a c Ha. rewrite !image_spec by done.
  cbn [page_table set_table]. split.
  - intros (n & (m & Hm & Ev & Ep & _ & Ek & Eo)%H1' & ? & ? & Hc). exists m. split; [done|].
    split; [congruence|]. split; [congruence|]. rewrite Ek, Ep in Hc. exact Hc.
  - intros (m & (n & Hn & Ev & Ep & _ & Ek & Eo)%H2' & ? & ? & Hc). exists n. split; [done|].
    split; [congruence|]. split; [congruence|]. rewrite <- Ek, <- Ep in Hc. exact Hc.
Qed.

(** Everything that can be reclaimed belongs to the running address space. *)
Definition here s : Prop :=
  ∀ m, m ∈ mappings (page_table s) → m_kind m = Anonymous → m_owner m = current_root (mmu s).

(** What a turn of the clock keeps. *)
Definition turned s h s' h' : Prop :=
  mm_ok s' h' ∧ keeps_image s h s' h' ∧ here s' ∧ length (mappings (page_table s')) = length (mappings (page_table s)).

Lemma accessed_ok s h m b : mm_ok s h → here s → m ∈ mappings (page_table s) →
  turned s h (set_table s (update_mapping (page_table s) (m_owner m) (m_virtual_address m) (set_accessed b)).1) h.
Proof.
  intros Hok Hh Hm. pose proof (mo_table s h Hok) as Ht. pose proof Ht as [Htok Hap]. pose proof Htok as Hf.
  rewrite Forall_forall in Hf. pose proof (Hf m Hm) as Hmok. destruct (mapping_word m Hmok) as [_ Hal].
  destruct (update_elems (page_table s) (m_owner m) (m_virtual_address m) (set_accessed b) (λ _ e, e) m Ht Hm eq_refl (eq_sym Hal))
    as (t' & -> & Ht' & El & Hel); [keep_mapping Hmok|]. cbn [fst]. rewrite Hal in Hel.
  assert (Hsh : ∀ n, n ∈ mappings t' → ∃ m, m ∈ mappings (page_table s) ∧ same_shape n m).
  { intros n [->|[Hn _]]%Hel; [by exists m|by exists n]. }
  destruct (reshaped_ok s h t' Hok Ht' Hsh) as [? ?].
  { intros n Hn. destruct (decide (m_owner n = m_owner m ∧ m_virtual_address n = m_virtual_address m)) as [[E1 E2]|Hne].
    - exists (set_accessed b m). split; [apply Hel; by left|]. pose proof (ok_len n (Hf n Hn)). pose proof (ok_len m Hmok).
      rewrite (mapping_unique (mappings (page_table s)) n m (m_virtual_address m)); try done; unfold m_end; lia.
    - exists n. split; [apply Hel; by right|done]. }
  split; [done|]. split; [done|]. split; [|done].
  intros n (m' & Hm' & _ & _ & _ & Ek & Eo)%Hsh Hk. cbn. rewrite Eo. apply Hh; congruence.
Qed.

Lemma turn_ok s h idx : mm_ok s h → here s → (idx < length (mappings (page_table s)))%nat →
  ∃ s' h' b, reclaim_turn s idx = Ret (s', b) ∧ turned s h s' h'.
Proof.
  intros Hok Hh Hi. unfold reclaim_turn. destruct (lookup_lt_is_Some_2 _ _ Hi) as [m Em]. rewrite Em.
  pose proof (list_elem_of_lookup_2 _ _ _ Em) as Hm.
  case_bool_decide as Hk; cbn [negb]; [|by exists s, h, false].
  case_bool_decide; [|destruct (_ && _); [|destruct (1 <? _); [by exists s, h, false|]]].
  - eexists _, h, false. split; [done|]. unfold mark_accessed_owned.
    pose proof (accessed_ok s h m true Hok Hh Hm) as Ha. destruct (update_mapping _ _ _ _) as [t r]. done.
  - eexists _, h, false. split; [done|]. apply (accessed_ok s h m false Hok Hh Hm).
  - destruct (reclaim_page_ok s h m Hok Hm Hk (Hh m Hm Hk)) as (s' & h' & E & Hok' & Hi' & Hr & El & Hn).
    exists s', h', true. split; [done|]. split; [done|]. split; [done|]. split; [|done].
    intros n Hin Hkn. rewrite Hr. apply Hh; [by apply Hn|done].
Qed.

Lemma hand_ok s h n : mm_ok s h → mm_ok (set_hand s n) h.
Proof.
  intros [? ? ? Hpr ? [[] [] ? ? ?]]. split; [done|done|done| |done|].
  - intros m Hm Hk. destruct (Hpr m Hm Hk). by split.
  - split; [by split|by split|done|done|done].
Qed.

Lemma loop_ok fuel s h idxs target reclaimed : mm_ok s h → here s → idxs ≠ [] →
  Forall (λ i, (i < length (mappings (page_table s)))%nat) idxs → 0 ≤ reclaimed ≤ target →
  ∃ s' h' n, reclaim_loop fuel s idxs target reclaimed = Ret (s', n) ∧ turned s h s' h' ∧ reclaimed ≤ n ≤ target.
Proof.
  revert s h reclaimed. induction fuel as [|fuel IH]; intros s h reclaimed Hok Hh Hne Hall Hr; cbn [reclaim_loop].
  { exists s, h, reclaimed. split; [done|]. split; [done|lia]. }
  destruct (Z.leb_spec target reclaimed); [exists s, h, reclaimed; split; [done|]; split; [done|lia]|].
  assert (Hlen : (0 < length idxs)%nat) by (destruct idxs; [done|cbn; lia]).
  pose proof (Z.mod_pos_bound (reclaim_hand s) (Z.of_nat (length idxs)) ltac:(lia)).
  destruct (lookup_lt_is_Some_2 idxs (Z.to_nat (reclaim_hand s mod Z.of_nat (length idxs))) ltac:(lia)) as [i Ei]. rewrite Ei.
  destruct (turn_ok s h i Hok Hh) as (s1 & h1 & b & -> & Hok1 & Him1 & Hh1 & El1); [exact (Forall_lookup_1 _ _ _ _ Hall Ei)|].
  cbn [mbind outcome_bind]. set (s2 := set_hand s1 _).
  pose proof (hand_ok s1 h1 (wrapping_add (reclaim_hand s1) 1) Hok1) as Hok2.
  destruct (IH s2 h1 (if b then reclaimed + 1 else reclaimed) Hok2 Hh1 Hne) as (s' & h' & n & E & (? & Him & ? & El) & ?).
  { eapply Forall_impl; [exact Hall|]. intros j Hj. cbn. cbn in Hj. by rewrite El1. }
  { destruct b; lia. }
  exists s', h', n. split; [exact E|]. split; [|destruct b; lia]. split; [done|].
  split; [|split; [done|by rewrite El]]. intros o a Ha. rewrite Him by done. by apply Him1.
Qed.

Lemma anonymous_from_lt i l : Forall (λ j, (j < i + length l)%nat) (anonymous_from i l).
Proof.
  clear. apply Forall_forall. intros j Hj. unfold anonymous_from in Hj.
  apply list_elem_of_fmap in Hj as ([j' m] & -> & [_ Hz]%list_elem_of_filter).
  apply elem_of_zip_l in Hz. apply elem_of_seq in Hz. cbn. lia.
Qed.

(** C5. Reclaiming pages keeps the memory of every process.  With a well-formed
    manager whose reclaimable pages are of the running address space, a request
    for any number of pages returns, without a panic and within the target; pages
    have moved to the swap area, the compressed cache or the raw store, with or
    without errors of the swap device, and every page of every process holds what
    it held. *)
Theorem reclaim_keeps_memory s h target : mm_ok s h → here s → 0 ≤ target → target * 4 ≤ u64_max →
  ∃ s' h' n, reclaim_pages s target = Ret (s', n) ∧ mm_ok s' h' ∧ keeps_image s h s' h' ∧ 0 ≤ n ≤ target.
Proof.
  intros Hok Hh Ht Hov. unfold reclaim_pages. destruct (mapping_count _ =? 0)%nat; [exists s, h, 0; split; [done|]; split; [done|]; split; [done|lia]|].
  set (idxs := anonymous_from 0 _). destruct (Z.eqb_spec (Z.of_nat (length idxs)) 0) as [|Hne].
  { exists s, h, 0. split; [done|]. split; [done|]. split; [done|lia]. }
  unfold checked_mul. rewrite (proj2 (Z.leb_le _ _) Hov).
  destruct (loop_ok (Z.to_nat (Z.max (Z.min (Z.of_nat (length idxs) * 2) (target * 4)) (Z.of_nat (length idxs)))) s h idxs target 0
    Hok Hh) as (s1 & h1 & n & -> & (Hok1 & Him & _) & Hn).
  { intros E. by rewrite E in Hne. }
  { exact (anonymous_from_lt 0 (mappings (page_table s))). }
  { lia. }
  cbn [mbind outcome_bind]. eexists _, h1, n. split; [done|].
  destruct (_ <=? reclaim_hand s1); [|done]. split; [by apply hand_ok|done].
Qed.
End Image.
