(* ===== verification/MemFaultTheorems.v ===== *)
(** * Faults give the memory back

    A fault that is resolved brings the page back with the content it had, and
    leaves every other page as it was, provided no page around it has a raw copy
    older than the one it was saved with last.  Without that proviso, and where
    an operation fails half-way or acts on the wrong table, pages are lost. *)

From stdpp Require Import base tactics decidable numbers list gmap sorting.
From Stdlib Require Import ZArith Lia Bool.
From S2P Require Import Prelude Bytes BlockDevice CryptDevice BlockRuns PageCodec PageCodecTheorems Swap SwapTheorems.
From S2P Require Import PageTable PageTableTheorems MemManager MemFault MemSave MemReclaim.

Section Present.
Context {P D M : Type} `{FramesContract P} `{RunContract D} `{MmuContract M}.
Implicit Type s : MemoryManager P D M.

(** The mapping of a page that is present in [frame]. *)
Definition present_at (frame : Z) (m : Mapping) : Mapping :=
  set_accessed true (set_kind Anonymous (set_phys frame m)).

Lemma record_elems s o a frame m : table_ok (page_table s) → m ∈ mappings (page_table s) →
  m_owner m = o → m_virtual_address m = a → m_length m = 4096 → 0 ≤ frame → frame mod 4096 = 0 → frame + 4096 ≤ u64_max →
  ∃ t', record_present s o a frame = set_table s t' ∧ table_ok t' ∧
    ∀ n, n ∈ mappings t' ↔ n = present_at frame m ∨ n ∈ mappings (page_table s) ∧ ¬ (m_owner n = o ∧ m_virtual_address n = a).
Proof.
  intros Ht Hm Eo Ev El Hf0 Hfm Hfu. pose proof Ht as [Hok _]. rewrite Forall_forall in Hok. pose proof (Hok m Hm) as Hmok.
  destruct (mapping_word m Hmok) as [_ Hal]. rewrite Ev in Hal.
  assert (Hfa : align_down frame = frame) by (apply page_aligned; [lia|done]).
  unfold record_present, replace_mapping_phys_owned. rewrite Hfa.
  destruct (update_elems (page_table s) o a (set_phys frame)
    (λ x '(_, q, k), (frame + (x - m_virtual_address m), q, k)) m Ht Hm Eo ltac:(congruence))
    as (t1 & -> & Ht1 & _ & H1').
  { destruct Hmok as [? ? ? [? ?]]. split; [done|done|done| |done]. split; cbn; try done. split; [done|lia]. }
  cbn [fst]. assert (Hm1 : set_phys frame m ∈ mappings t1) by (apply H1'; by left).
  pose proof Ht1 as [Hok1 _]. rewrite Forall_forall in Hok1. pose proof (Hok1 _ Hm1) as Hmok1.
  unfold replace_mapping_kind_owned.
  destruct (update_elems t1 o a (set_kind Anonymous) (λ _ '(p, q, _), (p, q, Anonymous)) _ Ht1 Hm1 Eo ltac:(cbn; congruence))
    as (t2 & -> & Ht2 & _ & H2'); [keep_mapping Hmok1|].
  cbn [fst]. assert (Hm2 : set_kind Anonymous (set_phys frame m) ∈ mappings t2) by (apply H2'; by left).
  pose proof Ht2 as [Hok2 _]. rewrite Forall_forall in Hok2. pose proof (Hok2 _ Hm2) as Hmok2.
  unfold mark_accessed_owned.
  destruct (update_elems t2 o a (set_accessed true) (λ _ e, e) _ Ht2 Hm2 Eo ltac:(cbn; congruence))
    as (t3 & -> & Ht3 & _ & H3'); [keep_mapping Hmok2|].
  cbn [fst]. exists t3. split; [done|]. split; [done|]. intros n. rewrite H3', H2', H1', Hal. unfold present_at.
  split; [intros [->|[[->|[[->|?] ?]] Hn]]|intros [->|[? ?]]]; try tauto; destruct Hn; cbn; split; congruence.
Qed.

(** The page of [m] becomes present in [frame], with the content it was saved with. *)
Lemma presented_ok s h s' h' m frame : mm_ok s h → m ∈ mappings (page_table s) → m_kind m = DemandPaged →
  let k := (m_owner m, m_virtual_address m) in
  table_ok (page_table s') → pool_ok (frame_pool s') → store_ok s' h' →
  (∀ n, n ∈ mappings (page_table s') ↔
     n = present_at frame m ∨ n ∈ mappings (page_table s) ∧ ¬ (m_owner n = m_owner m ∧ m_virtual_address n = m_virtual_address m)) →
  ¬ in_use (frame_pool s) frame → (∀ f, in_use (frame_pool s') f ↔ f = frame ∨ in_use (frame_pool s) f) →
  (∀ r a, translation (mmu s') r a = if decide ((r, a) = k) then Some frame else translation (mmu s) r a) →
  (∀ f, ram s' f = if decide (f = frame) then saved s h k else ram s f) → no_copy s' k →
  (∀ k', k' ≠ k → saved s' h' k' = saved s h k' ∧ (no_copy s k' → no_copy s' k')) →
  mm_ok s' h' ∧ keeps_image s h s' h'.
Proof.
  intros Hok Hm Hkd k Ht Hp Hst Hel Hfree Hus Htr Era Hnk Hso.
  assert (Hfr : ∀ n, n ∈ mappings (page_table s) → m_kind n = Anonymous → m_physical_address n ≠ frame).
  { intros n Hn Hk E. destruct (mo_present s h Hok n Hn Hk) as [? _ _ _]. apply Hfree. by rewrite <- E. }
  assert (Hok' : mm_ok s' h').
  { split; try done.
    - intros n [->|[Hn _]]%Hel Hk; [cbn; by apply (mo_single s h Hok); [|right]|by apply (mo_single s h Hok)].
    - intros n [->|[Hn Hne]]%Hel Hk.
      + split; cbn [present_at set_accessed set_kind set_phys m_physical_address m_owner m_virtual_address].
        * apply Hus. by left.
        * rewrite Era, decide_True by done. by apply saved_is_page, (mo_store s h Hok).
        * by rewrite Htr, decide_True.
        * done.
      + destruct (mo_present s h Hok n Hn Hk) as [? ? ? ?].
        assert (Hnk' : (m_owner n, m_virtual_address n) ≠ k) by (intros E; apply Hne; by injection E). split.
        * apply Hus. by right.
        * by rewrite Era, decide_False by (by apply Hfr).
        * by rewrite Htr, decide_False.
        * by apply Hso.
    - intros n n' [->|[Hn Hne]]%Hel [->|[Hn' Hne']]%Hel Hk Hk' E; [done| | |by apply (mo_inj s h Hok)].
      + by destruct (Hfr n' Hn' Hk').
      + by destruct (Hfr n Hn Hk). }
  split; [done|]. apply keeps_image_by; [done|done|]. intros o a c Ha. rewrite !image_spec by done. split.
  - intros (n & [->|[Hn Hne]]%Hel & Eo & Ev & Hc).
    + exists m. cbn in *. split; [done|]. split; [done|]. split; [done|]. right. split; [done|].
      destruct Hc as [[_ ->]|[? _]]; [|done]. rewrite Era, decide_True by done. by rewrite <- Eo, <- Ev.
    + exists n. split; [done|]. split; [done|]. split; [done|].
      destruct Hc as [[Hk ->]|[? ->]]; [left; split; [done|]; rewrite Era, decide_False; [done|by apply Hfr]|right].
      split; [done|]. apply Hso. intros [= E1 E2]. apply Hne. by subst.
  - intros (n & Hn & Eo & Ev & Hc). destruct (decide (o = m_owner m ∧ a = m_virtual_address m)) as [[E1 E2]|Hne].
    + assert (n = m) as ->.
      { pose proof (mo_table s h Hok) as [Hok1 Hap]. pose proof Hok1 as Hf. rewrite Forall_forall in Hf.
        pose proof (ok_len n (Hf n Hn)). pose proof (ok_len m (Hf m Hm)).
        apply (mapping_unique (mappings (page_table s)) n m a); try done; unfold m_end; [congruence|lia|lia]. }
      exists (present_at frame m). split; [apply Hel; by left|]. split; [done|]. split; [done|]. left. split; [done|].
      cbn. rewrite Era, decide_True by done. destruct Hc as [[? _]|[_ ->]]; [congruence|]. unfold k. by rewrite E1, E2.
    + exists n. split; [apply Hel; right; split; [done|]; intros [E1 E2]; apply Hne; split; congruence|].
      split; [done|]. split; [done|].
      destruct Hc as [[Hk ->]|[? ->]]; [left; split; [done|]; rewrite Era, decide_False; [done|by apply Hfr]|right].
      split; [done|]. symmetry. apply Hso. intros [= E1 E2]. by apply Hne.
Qed.

(** *** The content of a page *)

(** What a backfill that succeeded did. *)
Definition filled s h s' h' (k : Z * Z) (frame : Z) : Prop :=
  frame_pool s' = frame_pool s ∧ page_table s' = page_table s ∧ mmu s' = mmu s ∧ page_content s' = page_content s ∧
  store_ok s' h' ∧ no_copy s' k ∧
  (∀ f, ram s' f = if decide (f = frame) then saved s h k else ram s f) ∧
  ∀ k', k' ≠ k → saved s' h' k' = saved s h k' ∧ (no_copy s k' → no_copy s' k').

Lemma set_frame_ram s frame c f : ram (set_frame s frame c) f = if decide (f = frame) then c else ram s f.
Proof. clear. cbn. destruct (Z.eqb_spec f frame); by case_decide. Qed.

Lemma set_frame_store s h frame c : store_ok s h → store_ok (set_frame s frame c) h.
Proof. clear. intros [[] [] ? ? ?]. split; [by split|by split|done|done|done]. Qed.

Lemma backfill_swap s h o a frame slot : store_ok s h → swap_map s !! (o, a) = Some slot →
  ∃ s' b, backfill s o a frame = Ret (s', b) ∧ (b = true → ∃ h', filled s h s' h' (o, a) frame).
Proof.
  intros [Hs Hc Hb Hp Hone] E. unfold backfill. rewrite E. cbn [swap_area set_swap]. pose proof (sp_area s h Hs) as Har.
  destruct (swap_area s) as [area|] eqn:Ea; [|by rewrite Har, lookup_empty in E]. destruct Har as [Hi Hn].
  destruct (sp_slot s h Hs _ _ E) as (page & Eh & Hpage).
  destruct (read_ok area h slot Hi ltac:(eauto)) as (d & r & -> & Hi' & Hr & _). cbn [mbind outcome_bind].
  destruct r as [data|er]; [|by eexists _, false]. eexists _, true. split; [done|]. intros _. exists (delete slot h).
  destruct (Hr data eq_refl) as [_ Hdata]. specialize (Hdata page Eh) as ->.
  assert (Hne : ∀ k sl, k ≠ (o, a) → swap_map s !! k = Some sl → sl ≠ slot).
  { intros k sl Hk Ek ->. apply Hk. by eapply (sp_inj s h Hs). }
  split; [done|]. split; [done|]. split; [done|]. split; [done|]. split; [|split; [|split]].
  - apply set_frame_store. split; [|by destruct Hc|done|done|].
    2: { intros k. cbn [swap_map compressed_pages set_swap]. destruct (Hone k); [left|by right]. apply lookup_delete_None. by right. }
    split; cbn.
    + split; [by apply free_ok|done].
    + intros k sl [Hk Ek]%lookup_delete_Some. rewrite lookup_delete_ne by (intros <-; by eapply (Hne k)). by eapply (sp_slot s h Hs).
    + intros k k' sl [_ E1]%lookup_delete_Some [_ E2]%lookup_delete_Some. by eapply (sp_inj s h Hs).
  - split; cbn [swap_map compressed_pages set_frame set_swap]; [apply lookup_delete_eq|].
    destruct (Hone (o, a)); congruence.
  - intros f. rewrite set_frame_ram. case_decide; [|done]. unfold saved. by rewrite E, Eh.
  - intros k' Hk'. unfold saved, no_copy. cbn [swap_map compressed_pages page_content set_frame set_swap].
    rewrite lookup_delete_ne by congruence. split; [|done].
    destruct (swap_map s !! k') as [sl|] eqn:Ek; [|done]. rewrite lookup_delete_ne; [done|]. intros <-. by eapply (Hne k').
Qed.

Lemma backfill_compressed s h o a frame enc : store_ok s h → swap_map s !! (o, a) = None →
  compressed_pages s !! (o, a) = Some enc → length (ram s frame) = PAGE_SIZE →
  ∃ s', backfill s o a frame = Ret (s', true) ∧ filled s h s' h (o, a) frame.
Proof.
  intros [Hs Hc Hb Hp Hone] E Ec Hl. unfold backfill. rewrite E, Ec. cbn [ram set_compressed].
  destruct (cp_entry s 0 Hc _ _ Ec) as (_ & Hpg & [_ Hd] & _). rewrite Hd by done. cbn [mbind outcome_bind].
  eexists. split; [done|]. pose proof (cache_total_delete _ _ _ Ec) as Et. pose proof (cp_bytes s 0 Hc) as Eb.
  pose proof (cache_total_nonneg (delete (o, a) (compressed_pages s))).
  split; [done|]. split; [done|]. split; [done|]. split; [done|]. split; [|split; [|split]].
  - apply set_frame_store. split; [by destruct Hs| | |done|]; [split| |]; cbn [compressed_pages compressed_cache_bytes set_compressed swap_map].
    + intros k e [_ Ek]%lookup_delete_Some. by eapply (cp_entry s 0 Hc).
    + unfold saturating_sub. lia.
    + unfold saturating_sub. lia.
    + intros k. destruct (Hone k); [by left|right]. apply lookup_delete_None. by right.
  - split; cbn [swap_map compressed_pages set_frame set_compressed]; [done|apply lookup_delete_eq].
  - intros f. rewrite set_frame_ram. case_decide; [|done]. unfold saved. by rewrite E, Ec.
  - intros k' Hk'. unfold saved, no_copy. cbn [swap_map compressed_pages page_content set_frame set_compressed].
    by rewrite lookup_delete_ne by congruence.
Qed.

Lemma backfill_raw s h o a frame : store_ok s h → no_copy s (o, a) → align_down a = a → ram s frame = zero_page →
  ∃ s', backfill s o a frame = Ret (s', true) ∧ filled s h s' h (o, a) frame.
Proof.
  intros Hst Hn Ha Hz. pose proof Hn as [E1 E2]. unfold backfill. rewrite E1, E2. unfold get_page_content. rewrite Ha.
  fold (content_of (page_content s) (o, a)). pose proof (saved_raw s h (o, a) Hn) as Es.
  assert (Hall : ∀ c, c = saved s h (o, a) → filled s h (set_frame s frame c) h (o, a) frame).
  { intros c ->. split; [done|]. split; [done|]. split; [done|]. split; [done|]. split; [by apply set_frame_store|].
    split; [done|]. split; [|done]. intros f. apply set_frame_ram. }
  destruct (content_of (page_content s) (o, a)) as [content|].
  - eexists. split; [done|]. unfold copy_to_frame. apply Hall. rewrite Es, Hz. done.
  - eexists. split; [done|]. apply Hall. by rewrite Es.
Qed.

(** Raw copies older than the one a page was saved with last do not exist. *)
Definition fresh_raw s : Prop := ∀ k, is_Some (content_of (page_content s) k) → no_copy s k.

Lemma backfill_ok s h o a frame : store_ok s h → align_down a = a → ram s frame = zero_page →
  ∃ s' b, backfill s o a frame = Ret (s', b) ∧ (b = true → ∃ h', filled s h s' h' (o, a) frame) ∧
    (swap_map s !! (o, a) = None → b = true).
Proof.
  intros Hst Ha Hz. destruct (swap_map s !! (o, a)) as [slot|] eqn:E1.
  - destruct (backfill_swap s h o a frame slot Hst E1) as (s' & b & E & Hb). by exists s', b.
  - destruct (compressed_pages s !! (o, a)) as [enc|] eqn:E2.
    + destruct (backfill_compressed s h o a frame enc Hst E1 E2) as (s' & E & Hf).
      { rewrite Hz. apply zero_page_ok. }
      exists s', true. split; [done|]. split; [|done]. intros _. by exists h.
    + destruct (backfill_raw s h o a frame Hst (conj E1 E2) Ha Hz) as (s' & E & Hf).
      exists s', true. split; [done|]. split; [|done]. intros _. by exists h.
Qed.

(** *** One page becomes present *)

Lemma present_page_ok s h s2 h2 m frame perms hw : mm_ok s h → m ∈ mappings (page_table s) → m_kind m = DemandPaged →
  let k := (m_owner m, m_virtual_address m) in
  m_owner m = current_root (mmu s) →
  page_table s2 = page_table s → mmu s2 = mmu s → pool_ok (frame_pool s2) → store_ok s2 h2 →
  ¬ in_use (frame_pool s) frame → 0 ≤ frame → frame mod 4096 = 0 → frame + 4096 ≤ u64_max →
  (∀ f, in_use (frame_pool s2) f ↔ f = frame ∨ in_use (frame_pool s) f) →
  (∀ f, ram s2 f = if decide (f = frame) then saved s h k else ram s f) → no_copy s2 k →
  (∀ k', k' ≠ k → saved s2 h2 k' = saved s h k' ∧ (no_copy s k' → no_copy s2 k')) →
  install_user_page (mmu s2) (m_virtual_address m) frame perms = (hw, true) →
  ∃ t', record_present (set_mmu s2 hw) (m_owner m) (m_virtual_address m) frame = set_table (set_mmu s2 hw) t' ∧
    mm_ok (set_table (set_mmu s2 hw) t') h2 ∧ keeps_image s h (set_table (set_mmu s2 hw) t') h2 ∧
    current_root hw = current_root (mmu s) ∧ present_at frame m ∈ mappings t' ∧
    (∀ n, n ∈ mappings t' → m_kind n = DemandPaged → n ∈ mappings (page_table s)) ∧
    (∀ n, n ∈ mappings (page_table s) → m_kind n = Anonymous → n ∈ mappings t').
Proof.
  intros Hok Hm Hk k Ho Et Em Hp Hst Hfree Hf0 Hfm Hfu Hus Hra Hnc Hso Ein.
  pose proof (mo_table s h Hok) as Ht. pose proof (mo_single s h Hok m Hm (or_intror Hk)) as El.
  destruct (record_elems (set_mmu s2 hw) (m_owner m) (m_virtual_address m) frame m) as (t' & -> & Ht' & Hel); try done;
    try (cbn [page_table set_mmu]; by rewrite Et).
  cbn [page_table set_mmu] in Hel. rewrite Et in Hel. exists t'. split; [done|].
  pose proof (install_law (mmu s2) (m_virtual_address m) frame perms) as Hlaw. rewrite Ein, Em in Hlaw.
  destruct Hlaw as [Hroot Htl].
  destruct (presented_ok s h (set_table (set_mmu s2 hw) t') h2 m frame Hok Hm Hk) as [Hok' Hki]; try done.
  { destruct Hst as [[] [] ? ? ?]. split; [by split|by split|done|done|done]. }
  { intros r a. cbn [mmu set_table set_mmu]. rewrite Htl. cbn [andb]. rewrite <- Ho.
    case_decide as E; [injection E as -> ->; by rewrite !Z.eqb_refl|].
    destruct (Z.eqb_spec r (m_owner m)) as [->|], (Z.eqb_spec a (m_virtual_address m)) as [->|]; done. }
  split; [done|]. split; [done|]. split; [done|]. split; [apply Hel; by left|]. split.
  - intros n [->|[? _]]%Hel ?; done.
  - intros n Hn Hkn. apply Hel. right. split; [done|]. intros [E1 E2]. pose proof Ht as [Hf Hap]. pose proof Hf as Hf'.
    rewrite Forall_forall in Hf'. pose proof (ok_len m (Hf' m Hm)). pose proof (ok_len n (Hf' n Hn)).
    assert (n = m) as ->; [|congruence].
    apply (mapping_unique (mappings (page_table s)) n m (m_virtual_address m)); try done; unfold m_end; lia.
Qed.

(** Frames that no page uses may change. *)
Lemma unmoved_ok s h s' : mm_ok s h → page_table s' = page_table s → pool_ok (frame_pool s') →
  (∀ f, in_use (frame_pool s) f → in_use (frame_pool s') f ∧ ram s' f = ram s f) →
  (∀ r a, translation (mmu s') r a = translation (mmu s) r a) →
  swap_area s' = swap_area s → swap_map s' = swap_map s → compressed_pages s' = compressed_pages s →
  compressed_cache_bytes s' = compressed_cache_bytes s → page_content s' = page_content s →
  mm_ok s' h ∧ keeps_image s h s' h.
Proof.
  intros Hok Et Hp Hra Htr Ea Em Ec Eb Ep.
  assert (Hsv : ∀ k, saved s' h k = saved s h k) by (intros k; unfold saved; by rewrite Em, Ec, Ep).
  assert (Hok' : mm_ok s' h).
  { destruct Hok as [? ? ? Hpr ? [[Har Hsl Hin] [Hen Hby] Hbu Hct Hone]]. split; rewrite ?Et; try done.
    - intros m Hm Hk. destruct (Hpr m Hm Hk) as [Hu Hpg Hl [? ?]]. destruct (Hra _ Hu) as [Hu' Er]. split.
      + done.
      + by rewrite Er.
      + by rewrite Htr.
      + split; congruence.
    - split; [split; rewrite ?Ea, ?Em; done|split; rewrite ?Ec, ?Eb; done|by rewrite Eb|unfold content_part; by rewrite Ep|].
      intros k. rewrite Em, Ec. apply Hone. }
  split; [done|]. apply keeps_image_by; [done|done|]. intros o a c Ha. rewrite !image_spec by done. rewrite Et.
  assert (Hr : ∀ m, m ∈ mappings (page_table s) → m_kind m = Anonymous → ram s' (m_physical_address m) = ram s (m_physical_address m)).
  { intros m Hm Hk. apply Hra. by destruct (mo_present s h Hok m Hm Hk). }
  split; intros (m & Hm & Eo & Ev & [[Hk ->]|[Hk ->]]); exists m; (split; [done|]); (split; [done|]); (split; [done|]).
  - left. by rewrite Hr.
  - right. by rewrite Hsv.
  - left. by rewrite Hr.
  - right. by rewrite Hsv.
Qed.

(** ** Faults *)

(** The kernel's own pages are resident. *)
Definition kernel_resident s : Prop :=
  ∀ m, m ∈ mappings (page_table s) → m_kind m = DemandPaged → m_owner m ≠ KERNEL.

Record fault_inv s h : Prop := {
  fi_ok : mm_ok s h;
  fi_fresh : fresh_raw s;
  fi_kernel : kernel_resident s;
}.

(** What resolving faults keeps. *)
Definition faulted s h s' h' : Prop :=
  fault_inv s' h' ∧ keeps_image s h s' h' ∧ current_root (mmu s') = current_root (mmu s) ∧
  ∀ n, n ∈ mappings (page_table s) → m_kind n = Anonymous → n ∈ mappings (page_table s').

Lemma faulted_trans s1 h1 s2 h2 s3 h3 : faulted s1 h1 s2 h2 → faulted s2 h2 s3 h3 → faulted s1 h1 s3 h3.
Proof.
  intros (_ & I1 & R1 & N1) (F & I2 & R2 & N2). split; [done|]. split; [|split; [congruence|]].
  - intros o a Ha. rewrite I2 by done. by apply I1.
  - intros n Hn Hk. apply N2; [by apply N1|done].
Qed.

(** A demand-paged translation is that of a mapping of the page. *)
Lemma demand_mapping s h o a pa q : fault_inv s h → a mod 4096 = 0 →
  lookup_mapping_owned (page_table s) o a = Ret (Some (pa, q, DemandPaged)) →
  ∃ m, m ∈ mappings (page_table s) ∧ m_owner m = o ∧ m_virtual_address m = a ∧ m_kind m = DemandPaged.
Proof.
  intros [Hok _ Hkr] Ha. pose proof (mo_table s h Hok) as Ht. rewrite (lookup_ok _ _ _ Ht). intros [= E].
  assert (Hx : ∃ o', view (page_table s) o' a = Some (pa, q, DemandPaged) ∧ (o' = o ∨ o' = KERNEL)).
  { destruct (view (page_table s) o a) eqn:Ev; [exists o|exists KERNEL]; rewrite ?Ev; auto. }
  destruct Hx as (o' & Ev & Hor).
  assert (image s h o' a = Some (saved s h (o', a))) as (m & Hm & Eo & Eva & Hc)%(image_spec s h o' a _ Hok Ha)
    by (unfold image; by rewrite Ev).
  apply (view_elem _ _ _ _ Ht) in Ev as (n & Hn & Eno & Hr & [= _ _ Hkn]).
  pose proof Ht as [Hf Hap]. pose proof Hf as Hf'. rewrite Forall_forall in Hf'. pose proof (ok_len m (Hf' m Hm)).
  assert (n = m) as ->.
  { apply (mapping_unique (mappings (page_table s)) n m a); try done; [congruence|unfold m_end; lia]. }
  exists m. split; [done|]. split; [|done]. destruct Hor as [->| ->]; [done|]. by destruct (Hkr m Hm Hkn).
Qed.

(** The frame the pool gave, zeroed. *)
Definition with_frame s (p : P) (frame : Z) : MemoryManager P D M := set_frame (set_pool s p) frame zero_page.

Lemma with_frame_ram s p frame f : ram (with_frame s p frame) f = if decide (f = frame) then zero_page else ram s f.
Proof. apply (set_frame_ram (set_pool s p)). Qed.

Lemma inv_unmoved s h s' : fault_inv s h → mm_ok s' h ∧ keeps_image s h s' h → page_table s' = page_table s →
  current_root (mmu s') = current_root (mmu s) →
  swap_map s' = swap_map s → compressed_pages s' = compressed_pages s → page_content s' = page_content s →
  faulted s h s' h.
Proof.
  intros [Hok Hfr Hk] [Hok' Hi] Et Er Em Ec Ep. split; [split; [done| |]|].
  - intros k. unfold no_copy. rewrite Ep, Em, Ec. apply Hfr.
  - unfold kernel_resident. by rewrite Et.
  - split; [done|]. split; [done|]. by rewrite Et.
Qed.

(** A frame that was taken and given back. *)
Lemma given_back_ok s h p frame s' : fault_inv s h → allocate_frames (frame_pool s) = (p, Some frame) →
  frame_pool s' = p → page_table s' = page_table s → (∀ f, f ≠ frame → ram s' f = ram s f) →
  (∀ r a, translation (mmu s') r a = translation (mmu s) r a) → current_root (mmu s') = current_root (mmu s) →
  swap_area s' = swap_area s → swap_map s' = swap_map s → compressed_pages s' = compressed_pages s →
  compressed_cache_bytes s' = compressed_cache_bytes s → page_content s' = page_content s →
  faulted s h (give_frame s' frame) h.
Proof.
  intros Hf Ea Ep Et Hra Htr Hroot. intros. pose proof (allocate_law (frame_pool s) (mo_pool s h (fi_ok s h Hf))) as Hal.
  rewrite Ea in Hal. destruct Hal as (Hp & Hnu & _ & _ & _ & Hus).
  pose proof (deallocate_law p frame Hp (proj2 (Hus frame) (or_introl eq_refl))) as Hd.
  unfold give_frame. rewrite Ep. destruct (deallocate_frames p frame) as [p' ok]. destruct Hd as (_ & Hp' & Hus').
  apply inv_unmoved; try done. apply unmoved_ok; try done; [apply Hf|].
  intros f Hfu. assert (f ≠ frame) by (intros ->; done). split; [apply Hus'; split; [apply Hus; by right|done]|by apply Hra].
Qed.

Lemma prefetch_page_ok s h a : fault_inv s h → word a → a mod 4096 = 0 →
  ∃ s' b, prefetch_page s (current_root (mmu s)) a = Ret (s', b) ∧ faulted s h s' h.
Proof.
  intros Hf Hw Ha. pose proof (fi_ok s h Hf) as Hok. pose proof (mo_table s h Hok) as Ht.
  assert (Hself : faulted s h s h) by done. unfold prefetch_page.
  pose proof (lookup_ok (page_table s) (current_root (mmu s)) a Ht) as El. rewrite El. cbn [mbind outcome_bind].
  destruct (match view (page_table s) _ a with Some e => Some e | None => _ end) as [[[pa q] kd]|]; [|by exists s, false].
  case_bool_decide as Hk; cbn [negb]; [subst kd|by exists s, false].
  destruct (demand_mapping s h _ a pa q Hf Ha El) as (m & Hm & Eo & Ev & Hk).
  unfold get_page_content. rewrite page_aligned by done. fold (content_of (page_content s) (current_root (mmu s), a)).
  destruct (content_of (page_content s) _) as [content|] eqn:Ec; [|by exists s, false].
  assert (Hn : no_copy s (m_owner m, m_virtual_address m)) by (rewrite Eo, Ev; apply (fi_fresh s h Hf); eauto).
  pose proof (allocate_law (frame_pool s) (mo_pool s h Hok)) as Hal. unfold take_frame.
  destruct (allocate_frames (frame_pool s)) as [p [frame|]] eqn:Eal; cycle 1.
  { destruct Hal as [Hp Hus]. exists (set_pool s p), false. split; [done|]. apply inv_unmoved; try done.
    apply unmoved_ok; try done. intros f. split; [by apply Hus|done]. }
  destruct Hal as (Hp & Hnu & Hf0 & Hfm & Hfu & Hus). fold zero_page (with_frame s p frame). cbv zeta.
  set (s2 := copy_to_frame (with_frame s p frame) frame content).
  assert (Hra : ∀ f, ram s2 f = if decide (f = frame) then saved s h (m_owner m, m_virtual_address m) else ram s f).
  { intros f. unfold s2, copy_to_frame. rewrite set_frame_ram.
    case_decide; [|by rewrite with_frame_ram, decide_False].
    rewrite with_frame_ram, decide_True by done. rewrite (saved_raw s h _ Hn), Eo, Ev, Ec. done. }
  destruct (install_user_page (mmu s2) a frame q) as [hw ok] eqn:Ein. destruct ok; cycle 1.
  - pose proof (install_law (mmu s2) a frame q) as Hl. rewrite Ein in Hl. destruct Hl as [Hroot Htl].
    eexists _, false. split; [done|]. apply (given_back_ok s h p frame); try done.
    intros f Hne. cbn [ram set_mmu]. by rewrite Hra, decide_False.
  - rewrite <- Ev in Ein. destruct (present_page_ok s h s2 h m frame q hw Hok Hm Hk Eo) as (t' & E & Hok' & Hi & Hroot & _ & Hdp & Han);
      try done; [apply set_frame_store, set_frame_store; destruct (mo_store s h Hok) as [[] [] ? ? ?]; split; [by split|by split|done|done|done]|].
    rewrite Eo, Ev in E. rewrite E. eexists _, true. split; [done|]. split; [|done]. split; [done| |].
    + apply (fi_fresh s h Hf).
    + intros n Hin Hkn. apply (fi_kernel s h Hf); [by apply Hdp|done].
Qed.

Lemma adjacent_ok page_addr direction offset : page_addr mod 4096 = 0 →
  word (adjacent page_addr direction offset) ∧ adjacent page_addr direction offset mod 4096 = 0.
Proof.
  clear. intros Ha. unfold adjacent, wrapping_add, wrap64. rewrite page_4096. split.
  - pose proof (Z.mod_pos_bound (page_addr + (Z.of_nat offset * 4096 * (direction mod 2 ^ 64)) mod 2 ^ 64) (2 ^ 64) ltac:(lia)).
    unfold word, u64_max. lia.
  - assert (Hmm : ∀ x, (x mod 2 ^ 64) mod 4096 = x mod 4096) by (intros x; apply Z.mod_mod_divide; by exists (2 ^ 52)).
    rewrite Hmm, Zplus_mod, Hmm, Ha, Z.add_0_l, Zmod_mod.
    replace (Z.of_nat offset * 4096 * (direction mod 2 ^ 64)) with (Z.of_nat offset * (direction mod 2 ^ 64) * 4096) by lia.
    by rewrite Z_mod_mult.
Qed.

Lemma fault_around_ok offsets s h page_addr direction : fault_inv s h → page_addr mod 4096 = 0 →
  ∃ s', fault_around offsets s (current_root (mmu s)) page_addr direction = Ret s' ∧ faulted s h s' h.
Proof.
  revert s. induction offsets as [|offset offsets IH]; intros s Hf Ha; cbn [fault_around]; [by exists s|].
  destruct (_ && _); [by exists s|]. destruct (adjacent_ok page_addr direction offset Ha) as [Hw Hm].
  destruct (prefetch_page_ok s h _ Hf Hw Hm) as (s1 & b & -> & Hf1). cbn [mbind outcome_bind]. destruct b; [|by exists s1].
  pose proof Hf1 as (Hi1 & _ & Hr1 & _). destruct (IH s1 Hi1 Ha) as (s' & E & Hf'). rewrite Hr1 in E.
  exists s'. split; [done|]. by eapply faulted_trans.
Qed.

(** Both directions. *)
Lemma around_ok s h o page_addr : fault_inv s h → o = current_root (mmu s) → page_addr mod 4096 = 0 →
  ∃ s', (s ← fault_around (seq 1 FAULT_AROUND_PAGES) s o page_addr (-1);
         s ← fault_around (seq 1 FAULT_AROUND_PAGES) s o page_addr 1; Ret (s, true)) = Ret (s', true) ∧
    faulted s h s' h.
Proof.
  intros Hf -> Ha. destruct (fault_around_ok (seq 1 FAULT_AROUND_PAGES) s h page_addr (-1) Hf Ha) as (s1 & -> & Hf1).
  cbn [mbind outcome_bind]. pose proof Hf1 as (Hi1 & _ & Hr1 & _). rewrite <- Hr1.
  destruct (fault_around_ok (seq 1 FAULT_AROUND_PAGES) s1 h page_addr 1 Hi1 Ha) as (s2 & -> & Hf2).
  exists s2. split; [done|]. by eapply faulted_trans.
Qed.

Context (oom : MemoryManager P D M → MemoryManager P D M * bool) (room : nat → bool).

(** From a frame of the pool to the page in it. *)
Lemma demand_paged_ok s h m frame perms : fault_inv s h → m ∈ mappings (page_table s) → m_kind m = DemandPaged →
  m_owner m = current_root (mmu s) → (allocate_frames (frame_pool s)).2 = Some frame →
  ∃ s' b, resolve_demand_paged oom s (m_owner m) (m_virtual_address m) perms = Ret (s', b) ∧
    (b = true → ∃ h', faulted s h s' h' ∧ present_at frame m ∈ mappings (page_table s')) ∧
    (swap_map s !! (m_owner m, m_virtual_address m) = None →
     (install_user_page (mmu s) (m_virtual_address m) frame perms).2 = true → b = true).
Proof.
  intros Hf Hm Hk Eo Hal. pose proof (fi_ok s h Hf) as Hok. pose proof (mo_table s h Hok) as [Ht _].
  rewrite Forall_forall in Ht. destruct (mapping_word m (Ht m Hm)) as [_ Haa]. destruct (ok_va m (Ht m Hm)) as [_ Ha].
  unfold resolve_demand_paged, take_frame_or_kill, take_frame.
  pose proof (allocate_law (frame_pool s) (mo_pool s h Hok)) as Hlaw.
  destruct (allocate_frames (frame_pool s)) as [p r]. cbn in Hal. subst r.
  destruct Hlaw as (Hp & Hnu & Hf0 & Hfm & Hfu & Hus). fold zero_page (with_frame s p frame).
  assert (Hst1 : store_ok (with_frame s p frame) h).
  { apply set_frame_store. destruct (mo_store s h Hok) as [[] [] ? ? ?]. split; [by split|by split|done|done|done]. }
  destruct (backfill_ok (with_frame s p frame) h (m_owner m) (m_virtual_address m) frame Hst1 Haa)
    as (s2 & b & -> & Hb & Hbt); [by rewrite with_frame_ram, decide_True|].
  cbn [mbind outcome_bind]. destruct b; cbn [negb]; [|by exists s2, false; split_and!; [..|intros E _; apply Hbt]].
  destruct (Hb eq_refl) as (h2 & Ep2 & Et2 & Em2 & Ec2 & Hst2 & Hnc2 & Hra2 & Hso2).
  destruct (install_user_page (mmu s2) (m_virtual_address m) frame perms) as [hw ok] eqn:Ein.
  destruct ok; [|by eexists _, false; split_and!; [..|intros _; change (mmu s) with (mmu (with_frame s p frame)); rewrite <- Em2, Ein]].
  destruct (present_page_ok s h s2 h2 m frame perms hw Hok Hm Hk Eo) as (t' & -> & Hok3 & Hi3 & Hr3 & Hpm & Hdp & Han); try done.
  { by rewrite Ep2. }
  { intros f. rewrite Ep2. apply Hus. }
  { intros f. rewrite Hra2, with_frame_ram. by case_decide. }
  set (s3 := set_table (set_mmu s2 hw) t') in *.
  assert (Hf3 : faulted s h s3 h2).
  { split; [|done]. split; [done| |].
    - intros k Hc. change (page_content s3) with (page_content s2) in Hc. rewrite Ec2 in Hc. change (no_copy s2 k).
      destruct (decide (k = (m_owner m, m_virtual_address m))) as [->|Hne]; [done|]. apply Hso2; [done|]. by apply (fi_fresh s h Hf).
    - intros n Hn Hkn. apply (fi_kernel s h Hf); [by apply Hdp|done]. }
  destruct (around_ok s3 h2 (m_owner m) (m_virtual_address m) (proj1 Hf3)) as (s5 & E5 & Hf5); [|done|].
  { rewrite Eo. by symmetry. }
  exists s5, true. split; [exact E5|]. split; [|done]. intros _. exists h2. split; [by eapply faulted_trans|].
  destruct Hf5 as (_ & _ & _ & Ha5). by apply Ha5.
Qed.

(** What the fault handler is given: a demand-paged page of the running address
    space, and a frame of the pool. *)
Record faulting s h (a frame : Z) : Prop := {
  fg_inv : fault_inv s h;
  fg_page : ∃ m, m ∈ mappings (page_table s) ∧ m_owner m = current_root (mmu s) ∧
    m_virtual_address m = align_down a ∧ m_kind m = DemandPaged;
  fg_frame : (allocate_frames (frame_pool s)).2 = Some frame;
}.

(** The page is present in the frame, in the table and in the hardware. *)
Definition resident s (o a frame : Z) : Prop :=
  (∃ m, m ∈ mappings (page_table s) ∧ m_owner m = o ∧ m_virtual_address m = a ∧ m_kind m = Anonymous ∧
     m_physical_address m = frame) ∧ translation (mmu s) o a = Some frame.

End Present.
