(* ===== verification/MemMachine.v ===== *)
(** * The machine below the memory manager

    The frame allocators of the nodes as the pool of frames
    (src/memory/manager/init.rs), and translation tables as a map: the interfaces
    the memory manager is proved against are kept by the frame allocators, and can
    be kept by live tables. *)

From stdpp Require Import base tactics decidable numbers list gmap sorting.
From Stdlib Require Import ZArith Lia Bool.
From S2P Require Import Prelude Bytes Frame FrameTheorems BlockDevice BlockRuns PageCodec Swap PageTable PageTableTheorems.
From S2P Require Import MemManager MemSave MemReclaim.

(** ** The nodes' frames

    [MemoryManager::allocate_frames] and [deallocate_frames]: one frame allocator
    per node, the local node first.  The contents of frames are with the manager. *)

Definition NUMA_NODE_NONE : Z := 255.

(** The node of the CPU and the allocators of the [num_nodes] nodes. *)
Record Nodes := mkNodes { numa_node_id : Z; frame_allocators : list FrameAllocator }.

Definition node_allocate (a : FrameAllocator) (count : Z) : FrameAllocator * option Z :=
  let '(a, _, r) := allocate a (λ _, 0) count in (a, r).

(** [for i in 0..self.num_nodes]: the first node that has the frames. *)
Fixpoint allocate_any (l : list FrameAllocator) (count : Z) : list FrameAllocator * option Z :=
  match l with
  | [] => ([], None)
  | a :: l =>
      match node_allocate a count with
      | (a, Some addr) => (a :: l, Some addr)
      | (a, None) => let '(l, r) := allocate_any l count in (a :: l, r)
      end
  end.

Definition allocate_local (n : Nodes) (count : Z) : list FrameAllocator * option Z :=
  let l := frame_allocators n in
  if negb (numa_node_id n =? NUMA_NODE_NONE) && (numa_node_id n <? Z.of_nat (length l)) then
    match l !! Z.to_nat (numa_node_id n) with
    | Some a => let '(a, r) := node_allocate a count in (<[Z.to_nat (numa_node_id n) := a]> l, r)
    | None => (l, None)
    end
  else (l, None).

Definition nodes_allocate (n : Nodes) (count : Z) : Nodes * option Z :=
  match allocate_local n count with
  | (l, Some addr) => (mkNodes (numa_node_id n) l, Some addr)
  | (l, None) => let '(l, r) := allocate_any l count in (mkNodes (numa_node_id n) l, r)
  end.

Fixpoint deallocate_any (l : list FrameAllocator) (ptr count : Z) : list FrameAllocator * bool :=
  match l with
  | [] => ([], false)
  | a :: l =>
      match deallocate a ptr count with
      | (a, true) => (a :: l, true)
      | (a, false) => let '(l, r) := deallocate_any l ptr count in (a :: l, r)
      end
  end.

Definition nodes_deallocate (n : Nodes) (ptr count : Z) : Nodes * bool :=
  let '(l, r) := deallocate_any (frame_allocators n) ptr count in (mkNodes (numa_node_id n) l, r).

#[global] Instance node_frames : Frames Nodes := {
  allocate_frames n := nodes_allocate n 1;
  deallocate_frames n ptr := nodes_deallocate n ptr 1;
}.

(** *** One node *)

(** The pool starts at a page, and addresses past it do not wrap. *)
Definition node_ok (a : FrameAllocator) : Prop := frames_ok a ∧ base a mod 4096 = 0.

Definition node_in_use (a : FrameAllocator) (f : Z) : Prop := ∃ i, f = base a + i * FRAME_SIZE ∧ live a i.

Definition pool_end (a : FrameAllocator) : Z := base a + total_frames a * FRAME_SIZE.

(** The pool stays where it is. *)
Definition same_pool (a a' : FrameAllocator) : Prop := base a' = base a ∧ total_frames a' = total_frames a.

Lemma allocate_same_pool a m n : same_pool a (allocate a m n).1.1.
Proof. unfold allocate. repeat case_match; by simplify_eq. Qed.

Lemma rewind_same_pool fuel a : same_pool a (rewind fuel a).
Proof.
  revert a. induction fuel as [|fuel IH]; intros a; cbn; repeat case_match; try done.
  match goal with |- same_pool a (rewind fuel ?b) => destruct (IH b) as [E1 E2] end. by split; rewrite ?E1, ?E2.
Qed.

Lemma deallocate_same_pool a f n : same_pool a (deallocate a f n).1.
Proof.
  unfold deallocate, rewind_tail_high_water_mark. repeat case_match; try done. cbn [fst].
  match goal with |- same_pool a (rewind ?k ?b) => destruct (rewind_same_pool k b) as [E1 E2] end. by split; rewrite ?E1, ?E2.
Qed.

Lemma node_in_use_inside a f : node_ok a → node_in_use a f → base a ≤ f < pool_end a.
Proof.
  intros [Hok _] (i & -> & Hi & _). pose proof (fo_next a Hok). unfold pool_end, FRAME_SIZE. nia.
Qed.

Lemma node_allocate_ok a : node_ok a →
  match node_allocate a 1 with
  | (a', Some f) => node_ok a' ∧ same_pool a a' ∧ ¬ node_in_use a f ∧ base a ≤ f < pool_end a ∧ f mod 4096 = 0 ∧
      f + 4096 ≤ u64_max ∧ 0 ≤ f ∧ ∀ g, node_in_use a' g ↔ g = f ∨ node_in_use a g
  | (a', None) => a' = a
  end.
Proof.
  intros [Hok Hb]. unfold node_allocate. pose proof (allocate_same_pool a (λ _, 0) 1) as Hsp.
  destruct (allocate a (λ _, 0) 1) as [[a' m'] r] eqn:E. pose proof (allocate_spec a _ 1 a' m' r Hok ltac:(lia) E) as Hs.
  cbn [fst] in Hsp. destruct r as [f|]; [|by destruct Hs as (-> & _)]. pose proof Hsp as [Hba Hto].
  destruct Hs as (i & -> & Hok' & Hi & Hlen & Hl & Hnl & _). specialize (Hnl i ltac:(lia)) as [Hnl _].
  pose proof (fo_end a Hok). pose proof (fo_base a Hok). unfold node_ok, node_in_use, pool_end, FRAME_SIZE in *. rewrite Hba.
  split; [done|]. split; [done|]. split; [|split; [nia|split; [by rewrite Zplus_mod, Hb, Z_mod_mult|split; [nia|split; [nia|]]]]].
  - intros (j & Ej & Hj). assert (j = i) as -> by lia. done.
  - intros g. split.
    + intros (j & -> & Hj). apply Hl in Hj as [Hj|Hj]; [right; by exists j|left]. by assert (j = i) as -> by lia.
    + intros [->|(j & -> & Hj)]; [exists i|exists j]; (split; [done|]); apply Hl; [right; lia|by left].
Qed.

Lemma node_deallocate_ok a f : node_ok a → node_in_use a f →
  ∃ a', deallocate a f 1 = (a', true) ∧ node_ok a' ∧ same_pool a a' ∧ ∀ g, node_in_use a' g ↔ node_in_use a g ∧ g ≠ f.
Proof.
  intros [Hok Hb] (i & -> & Hi). pose proof (deallocate_same_pool a (base a + i * FRAME_SIZE) 1) as Hsp.
  destruct (deallocate_spec a i 1 Hok ltac:(lia)) as (a' & E & Hok' & Hl).
  { by destruct Hi as [[? ?] _]. }
  { intros g Hg. by replace g with i by lia. }
  rewrite E in Hsp. cbn [fst] in Hsp. pose proof Hsp as [Hba _]. exists a'. unfold node_ok, node_in_use, FRAME_SIZE in *.
  rewrite Hba. split; [done|]. split; [done|]. split; [done|]. intros g. split.
  - intros (j & -> & [Hj Hne]%Hl). split; [by exists j|lia].
  - intros [(j & -> & Hj) Hne]. exists j. split; [done|]. apply Hl. split; [done|]. intros ?. apply Hne. lia.
Qed.

(** A node refuses an address that is not in its pool. *)
Lemma deallocate_outside a f : node_ok a → ¬ base a ≤ f < pool_end a → deallocate a f 1 = (a, false).
Proof.
  intros [Hok _] Hf. pose proof (fo_base a Hok). unfold deallocate, pool_end, FRAME_SIZE in *.
  destruct (_ || _ || _); [done|]. destruct (Z.ltb_spec f (base a)); [done|]. destruct (is_multiple_of _ _); [|done]. cbn [negb].
  unfold checked_add. destruct (_ <=? u64_max); [|done].
  pose proof (Z.div_le_lower_bound (f - base a) 4096 (total_frames a) ltac:(lia) ltac:(lia)).
  by rewrite (proj2 (Z.ltb_lt (total_frames a) _)) by lia.
Qed.

(** *** All nodes *)

Definition pools_apart (a b : FrameAllocator) : Prop := pool_end a ≤ base b ∨ pool_end b ≤ base a.

Definition pools_ok (l : list FrameAllocator) : Prop := Forall node_ok l ∧ StronglySorted pools_apart l.
Definition pools_in_use (l : list FrameAllocator) (f : Z) : Prop := ∃ a, a ∈ l ∧ node_in_use a f.

Lemma pools_in_use_middle l1 a l2 f :
  pools_in_use (l1 ++ a :: l2) f ↔ node_in_use a f ∨ pools_in_use (l1 ++ l2) f.
Proof. unfold pools_in_use. set_solver. Qed.

(** Another node does not have the frame. *)
Lemma pools_elsewhere l1 a l2 f : pools_ok (l1 ++ a :: l2) → base a ≤ f < pool_end a →
  Forall (λ b, ¬ base b ≤ f < pool_end b) l1 ∧ ¬ pools_in_use (l1 ++ l2) f.
Proof.
  intros [Hok Hap] Hf. apply StronglySorted_app in Hap as (H1 & _ & [_ H2]%StronglySorted_inv).
  rewrite Forall_forall in Hok, H2.
  assert (Hb : ∀ b, b ∈ l1 ++ l2 → ¬ base b ≤ f < pool_end b).
  { intros b [Hb|Hb]%elem_of_app Hfb; [destruct (H1 b a Hb ltac:(by left))|destruct (H2 b Hb)]; lia. }
  split.
  - apply Forall_forall. intros b Hb1. apply Hb. set_solver.
  - intros (b & Hb1 & Hu). apply (Hb b Hb1), node_in_use_inside; [|done]. apply Hok. set_solver.
Qed.

(** A node changes within its pool. *)
Lemma pools_change l1 a l2 a' : pools_ok (l1 ++ a :: l2) → node_ok a' → same_pool a a' → pools_ok (l1 ++ a' :: l2).
Proof.
  intros [Hok Hap] Ha' [Eb Et]. apply Forall_app in Hok as [Hok1 [_ Hok2]%Forall_cons].
  apply StronglySorted_app in Hap as (H1 & Hs1 & [Hs2 H2]%StronglySorted_inv).
  assert (He : ∀ b, (pools_apart b a → pools_apart b a') ∧ (pools_apart a b → pools_apart a' b)).
  { intros b. unfold pools_apart, pool_end. by rewrite Eb, Et. }
  split; [by apply Forall_app; split; [|apply Forall_cons]|]. apply StronglySorted_app. split; [|split; [done|]].
  - intros x y Hx [->|Hy]%elem_of_cons; [apply He, H1; [done|by left]|apply H1; [done|by right]].
  - apply SSorted_cons; [done|]. eapply Forall_impl; [exact H2|]. intros b. apply He.
Qed.

(** What an allocation from the nodes gives. *)
Definition gives (l : list FrameAllocator) (o : list FrameAllocator * option Z) : Prop :=
  match o with
  | (l', Some f) => ∃ l1 a l2 a', l = l1 ++ a :: l2 ∧ l' = l1 ++ a' :: l2 ∧ node_allocate a 1 = (a', Some f)
  | (l', None) => l' = l
  end.

Lemma allocate_any_gives l : Forall node_ok l → gives l (allocate_any l 1).
Proof.
  intros Hl. induction Hl as [|a l Ha Hl IH]; [done|]. cbn [allocate_any]. pose proof (node_allocate_ok a Ha) as Hna.
  destruct (node_allocate a 1) as [a' [f|]] eqn:E; [by exists [], a, l, a'|]. subst a'.
  destruct (allocate_any l 1) as [l' [f|]]; cbn [gives] in *; [|by subst].
  destruct IH as (l1 & b & l2 & b' & -> & -> & ?). by exists (a :: l1), b, l2, b'.
Qed.

Lemma allocate_local_gives n : Forall node_ok (frame_allocators n) → gives (frame_allocators n) (allocate_local n 1).
Proof.
  intros Hl. unfold allocate_local. destruct (_ && _); [|done].
  destruct (frame_allocators n !! _) as [a|] eqn:Ea; [|done]. pose proof (Forall_lookup_1 _ _ _ _ Hl Ea) as Ha.
  pose proof (node_allocate_ok a Ha) as Hna. pose proof (take_drop_middle _ _ _ Ea) as El.
  pose proof (lookup_lt_Some _ _ _ Ea) as Hlen.
  destruct (node_allocate a 1) as [a' [f|]] eqn:E; [|by cbn; rewrite Hna; apply list_insert_id].
  eexists _, a, _, a'. split; [by rewrite El|]. split; [|done]. by rewrite insert_take_drop.
Qed.

(** The frame is in one node's pool, and taken there. *)
Lemma gives_ok l l' f : pools_ok l → gives l (l', Some f) →
  pools_ok l' ∧ ¬ pools_in_use l f ∧ 0 ≤ f ∧ f mod 4096 = 0 ∧ f + 4096 ≤ u64_max ∧
  ∀ g, pools_in_use l' g ↔ g = f ∨ pools_in_use l g.
Proof.
  intros Hok (l1 & a & l2 & a' & -> & -> & E).
  assert (Ha : node_ok a) by (destruct Hok as [Hf _]; rewrite Forall_forall in Hf; apply Hf; set_solver).
  pose proof (node_allocate_ok a Ha) as Hna. rewrite E in Hna.
  destruct Hna as (Hok' & Hsp & Hnu & Hin & Hm & Hu & Hz & Hus). pose proof (pools_elsewhere l1 a l2 f Hok Hin) as [_ Hel].
  split; [by eapply pools_change|]. split; [rewrite pools_in_use_middle; tauto|]. split; [done|]. split; [done|]. split; [done|].
  intros g. rewrite !pools_in_use_middle, Hus. tauto.
Qed.

#[global] Program Instance node_contract : FramesContract Nodes := {
  pool_ok n := pools_ok (frame_allocators n);
  in_use n := pools_in_use (frame_allocators n);
}.
Next Obligation.
  intros n Hok. cbn. unfold nodes_allocate. pose proof (allocate_local_gives n (proj1 Hok)) as Hl.
  destruct (allocate_local n 1) as [l [f|]]; [by apply gives_ok|]. cbn [gives] in Hl. subst l.
  pose proof (allocate_any_gives _ (proj1 Hok)) as Ha. destruct (allocate_any _ 1) as [l [f|]]; [by apply gives_ok|].
  cbn [gives] in Ha. by subst l.
Qed.
Next Obligation.
  intros n f Hok (a & (l1 & l2 & El)%list_elem_of_split & Hu). cbn in Hok |- *. unfold nodes_deallocate. rewrite El in *.
  assert (Hf : Forall node_ok (l1 ++ a :: l2)) by apply Hok. apply Forall_app in Hf as [Hf1 [Ha _]%Forall_cons].
  destruct (pools_elsewhere l1 a l2 f Hok (node_in_use_inside a f Ha Hu)) as [Hout Hel].
  destruct (node_deallocate_ok a f Ha Hu) as (a' & E & Ha' & Hsp & Hus).
  assert (Ed : deallocate_any (l1 ++ a :: l2) f 1 = (l1 ++ a' :: l2, true)).
  { clear El Hok Hel. induction l1 as [|b l1 IH]; cbn [app deallocate_any]; [by rewrite E|].
    apply Forall_cons in Hout as [Hb Hout]. apply Forall_cons in Hf1 as [Hb1 Hf1].
    by rewrite deallocate_outside, IH. }
  rewrite Ed. cbn [frame_allocators]. split; [done|]. split; [by eapply pools_change|].
  intros g. rewrite !pools_in_use_middle, Hus. split; [|tauto]. intros [[? ?]|Hg]; [tauto|]. split; [tauto|]. by intros ->.
Qed.

(** ** Tables as a map *)

(** The root the CPU runs on, and the frame each page of each root has. *)
Record LiveTables := mkTables { live_root : Z; live_pages : gmap (Z * Z) Z }.

(** Tables that always have room for an entry. *)
#[global] Instance live_mmu : Mmu LiveTables := {
  current_root := live_root;
  translation m r a := live_pages m !! (r, a);
  install_user_page m va pa _ := (mkTables (live_root m) (<[(live_root m, va) := pa]> (live_pages m)), true);
  unmap_page m va := (mkTables (live_root m) (delete (live_root m, va) (live_pages m)),
                      bool_decide (is_Some (live_pages m !! (live_root m, va))));
}.

#[global] Program Instance live_contract : MmuContract LiveTables.
Next Obligation.
  intros m va pa perms. cbn [install_user_page live_mmu]. split; [done|]. intros r a. cbn [translation current_root live_mmu live_pages andb].
  destruct (Z.eqb_spec r (live_root m)) as [->|], (Z.eqb_spec a va) as [->|]; cbn [andb];
    [by rewrite lookup_insert_eq|..]; by rewrite lookup_insert_ne by congruence.
Qed.
Next Obligation.
  intros m va. cbn [unmap_page live_mmu]. split; [done|]. split; [done|]. intros r a. cbn [translation current_root live_mmu live_pages].
  destruct (Z.eqb_spec r (live_root m)) as [->|], (Z.eqb_spec a va) as [->|]; rewrite ?andb_false_r; cbn [andb];
    try by rewrite lookup_delete_ne by congruence.
  rewrite !andb_true_r, lookup_delete_eq. case_bool_decide as Hs; [done|]. by destruct (live_pages m !! _); [destruct Hs|].
Qed.
