(* ===== verification/MemLosses.v ===== *)
(** * Where the memory manager loses pages

    The cases outside the hypotheses of the theorems on reclaiming and faults:
    pages of another address space, neighbours with an old raw copy, steps that
    fail half-way, frames that are moved, and what stays of a process that is
    gone.  The witnesses of both groups of theorems are here. *)

From stdpp Require Import base tactics decidable numbers list gmap sorting.
From Stdlib Require Import ZArith Lia Bool.
From S2P Require Import Prelude Bytes Frame BlockDevice CryptDevice BlockRuns PageCodec PageCodecTheorems Swap SwapTheorems.
From S2P Require Import PageTable PageTableTheorems MemManager MemFault MemSave MemReclaim MemFaultTheorems MemMachine.

Section Losses.
Context {P D M : Type} `{FramesContract P} `{RunContract D} `{MmuContract M}.
Implicit Type s : MemoryManager P D M.

(** C36. Reclaiming a page of another address space frees a frame its owner still
    uses.  [unmap_page] edits the table the CPU runs on: when the running process
    has a page at the same address, that page is unmapped, and the owner's table
    keeps translating to the frame that went back to the pool. *)
Theorem reclaim_frees_mapped_frame s h m x : mm_ok s h → m ∈ mappings (page_table s) → m_kind m = Anonymous →
  m_owner m ≠ current_root (mmu s) → translation (mmu s) (current_root (mmu s)) (m_virtual_address m) = Some x →
  ∃ s', reclaim_page s (m_owner m) (m_virtual_address m) (m_physical_address m) = Ret (s', true) ∧
    translation (mmu s') (m_owner m) (m_virtual_address m) = Some (m_physical_address m) ∧
    ¬ in_use (frame_pool s') (m_physical_address m) ∧
    translation (mmu s') (current_root (mmu s)) (m_virtual_address m) = None.
Proof.
  intros Hok Hm Hk Ho Hx. destruct (mo_present s h Hok m Hm Hk) as [Hu Hpg Htr Hnc].
  pose proof (mo_table s h Hok) as [Htok _]. rewrite Forall_forall in Htok.
  destruct (mapping_word m (Htok m Hm)) as [_ Hal].
  destruct (save_page_ok s h _ _ _ (mo_store s h Hok) Hnc Hal Hpg) as (s1 & h1 & E1 & (Ep & Et & _ & _ & Em & _) & _).
  unfold reclaim_page. rewrite E1. cbn [mbind outcome_bind]. rewrite Em.
  pose proof (unmap_page_law (mmu s) (m_virtual_address m)) as Hlaw.
  destruct (unmap_page (mmu s) (m_virtual_address m)) as [hw ok]. destruct Hlaw as (_ & -> & Htl).
  rewrite bool_decide_true in * by (rewrite Hx; eauto). cbn [frame_pool set_mmu]. rewrite Ep.
  pose proof (deallocate_law (frame_pool s) _ (mo_pool s h Hok) Hu) as Hd.
  destruct (deallocate_frames (frame_pool s) (m_physical_address m)) as [p okd]. destruct Hd as (_ & _ & Hus).
  eexists. split; [done|]. cbn [mmu frame_pool set_table set_pool set_mmu]. rewrite !Htl, !Z.eqb_refl. cbn [andb]. split; [|split].
  - by rewrite (proj2 (Z.eqb_neq _ _) Ho).
  - intros [_ Hne]%Hus. done.
  - done.
Qed.

(** A frame of a process is never moved, but its page is remapped.  The new frame
    is installed before the software table is asked for the kernel's mapping at
    the address; that mapping does not exist, the move is refused, and the
    hardware is left with the new frame while the table names the old one. *)
Theorem relocation_leaves_new_frame (t : PageTable) (hw hw1 : M) (ok : bool) hw2 m old_addr new_addr :
  table_ok t → frame_references (mappings t) old_addr = (1%nat, Some m) →
  (∀ n, n ∈ mappings t → m_virtual_address n = m_virtual_address m → m_owner n ≠ KERNEL) →
  unmap_page hw (m_virtual_address m) = (hw1, ok) →
  install_user_page hw1 (m_virtual_address m) new_addr (m_permissions m) = (hw2, true) →
  relocate_user_frame true t hw old_addr new_addr = (t, hw2, false) ∧
  translation hw2 (current_root hw) (m_virtual_address m) = Some new_addr.
Proof.
  intros Ht Hr Hn Eu Ei. pose proof (unmap_page_law hw (m_virtual_address m)) as Hu. rewrite Eu in Hu.
  destruct Hu as (Hroot & _ & _). pose proof (install_law hw1 (m_virtual_address m) new_addr (m_permissions m)) as Hi.
  rewrite Ei in Hi. destruct Hi as [_ Htl]. split; [|by rewrite Htl, Hroot, !Z.eqb_refl].
  unfold relocate_user_frame. rewrite Hr. cbn [Nat.eqb negb]. rewrite Eu, Ei. cbn [negb].
  unfold replace_mapping_phys, replace_mapping_phys_owned, update_mapping.
  assert (Hm : m ∈ mappings t).
  { unfold frame_references in Hr. injection Hr as _ Hl. apply last_Some_elem_of in Hl.
    by apply list_elem_of_filter in Hl as [_ [_ ?]%list_elem_of_filter]. }
  pose proof Ht as [Hok _]. rewrite Forall_forall in Hok. destruct (mapping_word m (Hok m Hm)) as [_ ->].
  pose proof (update_first_split (starts_at KERNEL (m_virtual_address m)) (set_phys (align_down new_addr)) (mappings t)) as Hs.
  destruct (update_first _ _ _) as [l'|]; [|done]. destruct Hs as (l1 & n & l2 & El & _ & Hp).
  apply andb_prop in Hp as [Eo%Z.eqb_eq Ev%Z.eqb_eq]. destruct (Hn n); [rewrite El; apply elem_of_app; right; by left|done|done].
Qed.

(** A private copy that cannot be installed still gives up the shared frame: the
    page keeps mapping it, and its reference is gone. *)
Theorem failed_copy_drops_reference oom room s owner page_addr phys p frame count :
  allocate_frames (frame_pool s) = (p, Some frame) → frame_refcounts s !! phys = Some count → 1 ≤ count →
  (install_user_page (mmu s) page_addr frame READ_WRITE).2 = false →
  ∃ s', resolve_cow oom room s owner page_addr phys true = Ret (s', false) ∧ page_table s' = page_table s ∧
    (∀ r a, translation (mmu s') r a = translation (mmu s) r a) ∧ get_frame_refcount s' phys = count - 1.
Proof.
  intros Ea Hc Hpos Hi. unfold resolve_cow, take_frame_or_kill, take_frame. rewrite Ea. cbn [negb].
  unfold dec_frame_refcount. cbn [frame_refcounts set_frame set_pool]. rewrite Hc.
  pose proof (install_law (mmu s) page_addr frame READ_WRITE) as Hl.
  destruct (Z.eqb_spec (count - 1) 0) as [E0|E0]; cbn [fst mmu set_refcounts set_frame set_pool];
    destruct (install_user_page (mmu s) page_addr frame READ_WRITE) as [hw ok]; cbn in Hi; subst ok; destruct Hl as [_ Htl];
    eexists; (split; [done|]); (split; [done|]); (split; [exact Htl|]);
    unfold get_frame_refcount; cbn [frame_refcounts give_frame set_pool set_mmu set_refcounts].
  - rewrite lookup_delete_eq. cbn. lia.
  - by rewrite lookup_insert_eq.
Qed.

(** Whether it succeeds or not, a backfill forgets the copies of the page. *)
Lemma backfill_forgets s h o a frame s' b : store_ok s h → backfill s o a frame = Ret (s', b) →
  no_copy s' (o, a) ∧ page_content s' = page_content s.
Proof.
  intros Hst E. pose proof (so_one s h Hst (o, a)) as Hone. unfold backfill in E.
  destruct (swap_map s !! (o, a)) as [slot|] eqn:E1.
  - destruct Hone as [?|Hone]; [done|]. cbn [swap_area set_swap] in E.
    destruct (swap_area s) as [area|]; cycle 1.
    { simplify_eq. split; [|done]. split; [apply lookup_delete_eq|done]. }
    destruct (read_page area slot PAGE_SIZE) as [[area' [data|er]]| |]; cbn [mbind outcome_bind] in E; simplify_eq;
      (split; [|done]); (split; [apply lookup_delete_eq|done]).
  - destruct (compressed_pages s !! (o, a)) as [enc|] eqn:E2.
    + cbn [ram set_compressed] in E. destruct (decompress_page enc (ram s frame)) as [[ok data]| |]; cbn [mbind outcome_bind] in E; [|done|done].
      destruct ok; simplify_eq; (split; [|done]); (split; [done|apply lookup_delete_eq]).
    + destruct (get_page_content s o a); by simplify_eq.
Qed.

(** A fault that fails after the copy of the page was taken loses the page: the
    copy is dropped before the page is installed, and before it is read from the
    swap device.  A page without a raw copy comes back as zeros next time. *)
Theorem failed_fault_forgets_page oom s h m frame perms s' : fault_inv s h →
  m ∈ mappings (page_table s) → (allocate_frames (frame_pool s)).2 = Some frame →
  content_of (page_content s) (m_owner m, m_virtual_address m) = None →
  resolve_demand_paged oom s (m_owner m) (m_virtual_address m) perms = Ret (s', false) →
  ∀ h', saved s' h' (m_owner m, m_virtual_address m) = zero_page.
Proof.
  intros Hf Hm Hal Hc E h'. unfold resolve_demand_paged, take_frame_or_kill, take_frame in E.
  destruct (allocate_frames (frame_pool s)) as [p r]. cbn in Hal. subst r. fold zero_page (with_frame s p frame) in E.
  assert (Hst1 : store_ok (with_frame s p frame) h).
  { apply set_frame_store. destruct (mo_store s h (fi_ok s h Hf)) as [[] [] ? ? ?]. split; [by split|by split|done|done|done]. }
  destruct (backfill (with_frame s p frame) _ _ frame) as [[s2 b]| |] eqn:Eb; [|done|done].
  destruct (backfill_forgets _ h _ _ _ _ _ Hst1 Eb) as [Hn Ec]. cbn [mbind outcome_bind] in E.
  assert (Hz : saved s2 h' (m_owner m, m_virtual_address m) = zero_page).
  { rewrite saved_raw, Ec by done. change (page_content (with_frame s p frame)) with (page_content s). by rewrite Hc. }
  destruct b; cbn [negb] in E; [|by simplify_eq].
  destruct (install_user_page (mmu s2) (m_virtual_address m) frame perms) as [hw ok]. destruct ok.
  - destruct (fault_around _ _ _ _ _) as [s3| |]; [|done|done]. cbn [mbind outcome_bind] in E.
    by destruct (fault_around _ s3 _ _ _); [|done|done].
  - by simplify_eq.
Qed.

(** The raw copies of a process outlive it.  Unregistering its pages drops their
    slots and compressed copies and leaves the raw store as it was, where the next
    address space with the same root finds them. *)
Theorem unregister_keeps_raw_copies room s owner start len s' n :
  unregister_user_page_range room s owner start len = Ret (s', n) → page_content s' = page_content s.
Proof.
  unfold unregister_user_page_range. generalize (mappings (page_table s)) 0.
  intros snapshot. revert s. induction snapshot as [|m l IH]; intros s count E; cbn [unregister_loop] in E; [by simplify_eq|].
  destruct (_ || _); [by eapply IH|].
  assert (Hp : ∀ fuel s1 addr hi c s2 c2, unregister_pages fuel room s1 owner m addr hi c = Ret (s2, c2) →
    page_content s2 = page_content s1).
  { clear. induction fuel as [|fuel IHf]; intros s1 addr hi c s2 c2 E; cbn [unregister_pages] in E;
      (destruct (negb _); [by simplify_eq|]); [done|].
    destruct (unmap_owned _ _ _ _ _) as [[t r]| |]; cbn [mbind outcome_bind] in E; [|done|done].
    rewrite (IHf _ _ _ _ _ _ E). clear. cbn [page_content set_table]. unfold remove_compressed_page, dec_frame_refcount.
    repeat case_match; done. }
  destruct (unregister_pages _ _ _ _ _ _ _ _) as [[s1 c1]| |] eqn:E1; cbn [mbind outcome_bind] in E; [|done|done].
  rewrite (IH _ _ E). by eapply Hp.
Qed.
End Losses.

(** ** A machine with one process *)

Definition Manager : Type := MemoryManager Nodes MemoryBlockDevice LiveTables.

Definition sevens : bytes := replicate PAGE_SIZE 7.

(** Process 8192 has a page in the first frame and one that was never touched. *)
Definition two_pages : PageTable :=
  mkPageTable [mkMapping 65536 1048576 4096 READ_WRITE Anonymous false Normal 8192;
               mkMapping 69632 0 4096 READ_WRITE DemandPaged false Normal 8192] true.

Definition one_process : Manager :=
  mkManager (mkNodes 0 [mkFrameAllocator 1048576 8 1 []]) two_pages [] ∅ 0 None ∅ ∅ 0
    (mkTables 8192 {[(8192, 65536) := 1048576]}) (λ _, sevens).

Lemma sevens_page : is_page sevens.
Proof. split; [apply length_replicate|]. apply Forall_replicate. unfold is_byte; lia. Qed.

Lemma one_process_ok : mm_ok one_process ∅.
Proof.
  split.
  - split.
    + repeat apply Forall_cons_2; [split|split|apply Forall_nil_2]; by vm_compute.
    + apply SSorted_cons; [by repeat constructor|]. apply Forall_singleton. intros _. left. by vm_compute.
  - intros m [->|[->|[]%not_elem_of_nil]%elem_of_cons]%elem_of_cons _; done.
  - split; [|by repeat constructor]. apply Forall_singleton. split; [|done]. split; cbn; unfold FRAME_SIZE, u64_max; lia.
  - intros m [->|[->|[]%not_elem_of_nil]%elem_of_cons]%elem_of_cons Hk; [|done]. split.
    + eexists. split; [by left|]. exists 0. split; [done|]. split; [cbn; lia|]. intros (x & c & []%not_elem_of_nil & _).
    + apply sevens_page.
    + done.
    + done.
  - intros m n [->|[->|[]%not_elem_of_nil]%elem_of_cons]%elem_of_cons [->|[->|[]%not_elem_of_nil]%elem_of_cons]%elem_of_cons; done.
  - split; [split; [done|by intros|by intros]
           |split; [by intros|done]|done|by intros|by left].
Qed.

Lemma reclaim_keeps_memory_witness :
  ∃ s' h' n, reclaim_pages one_process 1 = Ret (s', n) ∧ mm_ok s' h' ∧ keeps_image one_process ∅ s' h' ∧ 0 ≤ n ≤ 1.
Proof.
  apply reclaim_keeps_memory.
  - exact one_process_ok.
  - intros m [->|[->|[]%not_elem_of_nil]%elem_of_cons]%elem_of_cons Hk; [reflexivity|discriminate Hk].
  - lia.
  - unfold u64_max. lia.
Defined.

Lemma one_process_faulting : faulting one_process ∅ 69700 1052672.
Proof.
  split.
  - split; [exact one_process_ok| |].
    + intros k [c E]. discriminate E.
    + intros m [->|[->|[]%not_elem_of_nil]%elem_of_cons]%elem_of_cons Hk; [discriminate Hk|done].
  - eexists. split; [by right; left|]. split; [done|]. by vm_compute.
  - by vm_compute.
Qed.


(** The CPU runs on another root, which has a page of its own at the address. *)
Definition two_processes : Manager :=
  set_mmu one_process (mkTables 12288 {[(8192, 65536) := 1048576; (12288, 65536) := 1052672]}).

Lemma two_processes_ok : mm_ok two_processes ∅.
Proof.
  destruct one_process_ok as [? ? ? Hp ? [[] [] ? ? ?]]. split; [done|done|done| |done|split; [by split|by split|done|done|done]].
  intros m Hm Hk. destruct (Hp m Hm Hk) as [? ? _ ?]. split; [done|done| |done].
  apply elem_of_cons in Hm as [->|[->|[]%not_elem_of_nil]%elem_of_cons]; [by vm_compute|done].
Qed.

Lemma reclaim_frees_mapped_frame_witness :
  ∃ s', reclaim_page two_processes 8192 65536 1048576 = Ret (s', true) ∧
    translation (mmu s') 8192 65536 = Some 1048576 ∧ ¬ in_use (frame_pool s') 1048576 ∧
    translation (mmu s') 12288 65536 = None.
Proof.
  apply (reclaim_frees_mapped_frame two_processes ∅
    (mkMapping 65536 1048576 4096 READ_WRITE Anonymous false Normal 8192) 1052672 two_processes_ok).
  - left.
  - reflexivity.
  - discriminate.
  - reflexivity.
Defined.

(** *** A neighbour with an old raw copy

    A page the loader stored is faulted in, written, reclaimed into the compressed
    cache, and brought back, by a fault on the page before it, as it was loaded. *)

Definition loaded : Manager :=
  mkManager (mkNodes 0 [mkFrameAllocator 1048576 8 0 []])
    (mkPageTable [mkMapping 65536 0 4096 READ_WRITE DemandPaged false Normal 8192;
                  mkMapping 69632 0 4096 READ_WRITE DemandPaged false Normal 8192] true)
    [((8192, 69632), [1])] ∅ 0 None ∅ ∅ 0 (mkTables 8192 ∅) (λ _, zero_page).

Definition fault (s : Manager) (a : Z) : outcome (Manager * bool) :=
  resolve_page_fault (λ s, (s, false)) (λ _, true) s a false.

