(* ===== verification/MemSyscalls.v ===== *)
(** * The memory system calls (src/syscall/memory/)

    The handlers of mmap and munmap (map.rs), mlock and munlock (mlock.rs) and
    madvise (madvise.rs): their checks and what they ask of the page table and the
    memory manager.  The invalidation of translation caches is not modelled.
    Additions are checked, as in a build with debug assertions. *)

From stdpp Require Import base tactics decidable numbers list gmap.
From Stdlib Require Import ZArith Lia Bool.
From S2P Require Import Prelude Bytes BlockDevice PageCodec Swap PageTable MemManager MemFault.

(** ** Arguments *)

(** [context.args], six words; the handlers index them by constants. *)
Definition arg (args : list Z) (index : nat) : Z := nth index args 0.

(** The arguments from [start] on are zero. *)
Definition validate_zeroed_args (args : list Z) (start : nat) : bool :=
  let start := Nat.min start (length args) in
  negb (existsb (λ a, negb (a =? 0)) (drop start args)).

(** [x as i32]. *)
Definition as_i32 (x : Z) : Z :=
  let low := wrap32 x in if low <? 2 ^ 31 then low else low - 2 ^ 32.

Definition PROT_READ : Z := 1.
Definition PROT_WRITE : Z := 2.
Definition PROT_EXEC : Z := 4.
Definition MAP_ANONYMOUS : Z := 32.
Definition MAP_PRIVATE : Z := 2.
Definition MAP_KNOWN_FLAGS : Z := Z.lor MAP_ANONYMOUS MAP_PRIVATE.
Definition MAX_LOCKED_PAGES : Z := 16384.
Definition MADV_NORMAL : Z := 0.
Definition MADV_RANDOM : Z := 1.
Definition MADV_SEQUENTIAL : Z := 2.
Definition MADV_WILLNEED : Z := 3.
Definition MADV_DONTNEED : Z := 4.
Definition MADV_REMOVE : Z := 9.

Definition translate_prot (prot : Z) : result Z :=
  let read := negb (Z.land prot PROT_READ =? 0) in
  let write := negb (Z.land prot PROT_WRITE =? 0) in
  let exec := negb (Z.land prot PROT_EXEC =? 0) in
  if write && exec then Err InvalidArgument else
  match read, write, exec with
  | true, false, false => Ok READ
  | true, true, false => Ok READ_WRITE
  | true, false, true => Ok READ_EXECUTE
  | _, _, _ => Err InvalidArgument
  end.

(** [(len + PAGE_SIZE - 1) & !(PAGE_SIZE - 1)] of map.rs and madvise.rs. *)
Definition length_align_up (len : Z) : outcome Z :=
  match checked_add len PAGE with None => Panic | Some x => Ret (align_down (x - 1)) end.

(** [(len + 0xFFF) & !0xFFF] of mlock.rs. *)
Definition mlock_align_up (len : Z) : outcome Z :=
  match checked_add len 4095 with None => Panic | Some x => Ret (align_down x) end.

Section Calls.
Context {P D M : Type} `{Frames P} `{BlockDevice D} `{Mmu M}.
Context (oom : MemoryManager P D M → MemoryManager P D M * bool) (room : nat → bool).

(** The registered manager with its count of locked pages, if there is one. *)
Record Memory := mkMemory { manager : MemoryManager P D M; locked_pages : Z }.

Definition on_table (m : Memory) (t : PageTable) : Memory := mkMemory (set_table (manager m) t) (locked_pages m).
Definition table_of (m : Memory) : PageTable := page_table (manager m).

(** [global_mut().ok_or(Error::InternalError)?]. *)
Definition with_memory (memory : option Memory) (f : Memory → outcome (Memory * result Z))
    : outcome (option Memory * result Z) :=
  match memory with
  | None => Ret (None, Err InternalError)
  | Some m => '(m, r) ← f m; Ret (Some m, r)
  end.

(** [for offset in (0..len).step_by(PAGE_SIZE)], [n] pages from [offset] on. *)
Fixpoint each_page (n : nat) (va offset : Z) (f : Memory → Z → outcome Memory) (m : Memory) : outcome Memory :=
  match n with
  | O => Ret m
  | S n =>
      match checked_add va offset with
      | None => Panic
      | Some page_va => m ← f m page_va; each_page n va (offset + PAGE) f m
      end
  end.

Definition pages (len_aligned : Z) : nat := Z.to_nat (len_aligned / PAGE).

(** ** mmap and munmap *)

Definition mmap (args : list Z) (memory : option Memory) : outcome (option Memory * result Z) :=
  if negb (validate_zeroed_args args 5) then Ret (memory, Err InvalidArgument) else
  let addr_hint := arg args 0 in
  let len := arg args 1 in
  let prot := arg args 2 in
  let flags := arg args 3 in
  if (len =? 0) || (268435456 <? len) then Ret (memory, Err InvalidArgument) else
  if negb (Z.land flags (unot64 MAP_KNOWN_FLAGS) =? 0) then Ret (memory, Err InvalidArgument) else
  if Z.land flags MAP_ANONYMOUS =? 0 then Ret (memory, Err InvalidArgument) else
  match translate_prot prot with
  | Err e => Ret (memory, Err e)
  | Ok perms =>
      let va := align_down addr_hint in
      len_aligned ← length_align_up len;
      if va =? 0 then Ret (memory, Err InvalidArgument) else
      with_memory memory (λ m,
        match map_region_with_kind room (table_of m) va len_aligned perms Anonymous with
        | (t, Err e) => Ret (on_table m t, Err e)
        | (t, Ok _) => Ret (on_table m t, Ok va)
        end)
  end.

Definition munmap (args : list Z) (memory : option Memory) : outcome (option Memory * result Z) :=
  if negb (validate_zeroed_args args 2) then Ret (memory, Err InvalidArgument) else
  let addr := arg args 0 in
  let len := arg args 1 in
  if len =? 0 then Ret (memory, Err InvalidArgument) else
  let va := align_down addr in
  len_aligned ← length_align_up len;
  if va =? 0 then Ret (memory, Err InvalidArgument) else
  with_memory memory (λ m,
    '(t, r) ← unmap room (table_of m) va len_aligned;
    match r with
    | Err e => Ret (on_table m t, Err e)
    | Ok _ => Ret (on_table m t, Ok 0)
    end).

(** ** mlock and munlock *)

Definition lock_page (m : Memory) (page_va : Z) : outcome Memory :=
  match replace_mapping_kind (table_of m) page_va Locked with
  | (_, Err _) => Ret m
  | (t, Ok _) =>
      match checked_add (locked_pages m) 1 with
      | None => Panic
      | Some n => Ret (mkMemory (set_table (manager m) t) n)
      end
  end.

Definition mlock (args : list Z) (memory : option Memory) : outcome (option Memory * result Z) :=
  if negb (validate_zeroed_args args 2) then Ret (memory, Err InvalidArgument) else
  let addr := arg args 0 in
  let len := arg args 1 in
  if len =? 0 then Ret (memory, Err InvalidArgument) else
  let va := align_down addr in
  len_aligned ← mlock_align_up len;
  with_memory memory (λ m,
    let pages_needed := len_aligned / 4096 in
    match checked_add (locked_pages m) pages_needed with
    | None => Panic
    | Some wanted =>
        if MAX_LOCKED_PAGES <? wanted then Ret (m, Err OutOfMemory) else
        m ← each_page (pages len_aligned) va 0 lock_page m;
        Ret (m, Ok 0)
    end).

Definition unlock_page (m : Memory) (page_va : Z) : outcome Memory :=
  match replace_mapping_kind (table_of m) page_va Anonymous with
  | (_, Err _) => Ret m
  | (t, Ok _) =>
      Ret (mkMemory (set_table (manager m) t) (if 0 <? locked_pages m then locked_pages m - 1 else locked_pages m))
  end.

Definition munlock (args : list Z) (memory : option Memory) : outcome (option Memory * result Z) :=
  if negb (validate_zeroed_args args 2) then Ret (memory, Err InvalidArgument) else
  let addr := arg args 0 in
  let len := arg args 1 in
  if len =? 0 then Ret (memory, Err InvalidArgument) else
  let va := align_down addr in
  len_aligned ← mlock_align_up len;
  with_memory memory (λ m,
    m ← each_page (pages len_aligned) va 0 unlock_page m;
    Ret (m, Ok 0)).

(** ** madvise *)

Definition hint_page (hint : AdviceHint) (m : Memory) (page_va : Z) : outcome Memory :=
  Ret (on_table m (replace_mapping_advice (table_of m) page_va hint).1).

(** A page that some address space has demand-paged is faulted in. *)
Definition willneed_page (m : Memory) (page_va : Z) : outcome Memory :=
  let should_fault :=
    existsb (λ e, (m_virtual_address e =? page_va) && bool_decide (m_kind e = DemandPaged)) (mappings (table_of m)) in
  if should_fault then
    '(s, _) ← resolve_page_fault oom room (manager m) page_va false;
    Ret (mkMemory s (locked_pages m))
  else Ret m.

Definition dontneed_page (m : Memory) (page_va : Z) : outcome Memory :=
  '(t, _) ← unmap room (table_of m) page_va PAGE;
  let '(t, _) := map_region_with_kind room t page_va PAGE READ_WRITE DemandPaged in
  Ret (on_table m t).

(** What each page is asked, by the advice. *)
Definition advice_of (advice : Z) : option (Memory → Z → outcome Memory) :=
  if (advice =? MADV_NORMAL) || (advice =? MADV_RANDOM) || (advice =? MADV_SEQUENTIAL) then
    Some (hint_page (if advice =? MADV_RANDOM then Random
                     else if advice =? MADV_SEQUENTIAL then Sequential else Normal))
  else if advice =? MADV_WILLNEED then Some willneed_page
  else if (advice =? MADV_DONTNEED) || (advice =? MADV_REMOVE) then Some dontneed_page
  else None.

Definition madvise (args : list Z) (memory : option Memory) : outcome (option Memory * result Z) :=
  let addr := arg args 0 in
  let len := arg args 1 in
  let advice := as_i32 (arg args 2) in
  if negb (validate_zeroed_args args 3) then Ret (memory, Err InvalidArgument) else
  if len =? 0 then Ret (memory, Err InvalidArgument) else
  let va := align_down addr in
  len_aligned ← length_align_up len;
  with_memory memory (λ m,
    match advice_of advice with
    | None => Ret (m, Err InvalidArgument)
    | Some f => m ← each_page (pages len_aligned) va 0 f m; Ret (m, Ok 0)
    end).

(** ** The calls by name *)

Inductive memory_call : Type := Mmap | Munmap | Mlock | Munlock | Madvise.

Definition handle (call : memory_call) : list Z → option Memory → outcome (option Memory * result Z) :=
  match call with
  | Mmap => mmap
  | Munmap => munmap
  | Mlock => mlock
  | Munlock => munlock
  | Madvise => madvise
  end.
End Calls.
