(* ===== verification/MemSyscallTheorems.v ===== *)
(** * Theorems on the memory system calls

    The calls act on the kernel's mappings: but for the advice to fault pages in,
    none of them changes a mapping of the process that makes it, and unmapping
    and unlocking reach the kernel's own. *)

From stdpp Require Import base tactics decidable numbers list gmap sorting.
From Stdlib Require Import ZArith Lia Bool.
From S2P Require Import Prelude Bytes Frame BlockDevice PageCodec Swap PageTable PageTableTheorems.
From S2P Require Import MemManager MemFault MemSave MemReclaim MemMachine MemSyscalls.

(** ** The processes' mappings *)

Definition users (t : PageTable) : list Mapping := filter (λ m, m_owner m ≠ KERNEL) (mappings t).

Lemma users_app l1 l2 i : users (mkPageTable (l1 ++ l2) i) = users (mkPageTable l1 i) ++ users (mkPageTable l2 i).
Proof. apply filter_app. Qed.

Lemma users_cons m l i : users (mkPageTable (m :: l) i) =
  if decide (m_owner m ≠ KERNEL) then m :: users (mkPageTable l i) else users (mkPageTable l i).
Proof. done. Qed.

Lemma pieces_users s e m : users (mkPageTable (pieces KERNEL s e m) true) = users (mkPageTable [m] true).
Proof.
  unfold pieces. destruct (met KERNEL s e m) eqn:Em; [|done].
  apply andb_prop in Em as [[[Eo|Eo]%matches_spec _]%andb_prop _]; unfold prefix_fragment;
    (rewrite users_cons, decide_False by (by intros [])); destruct (_ <? s), (e <? _); cbn [app];
    rewrite ?users_cons; cbn [m_owner]; rewrite ?decide_False by (by intros []); done.
Qed.

Lemma unmapped_users s e l : users (mkPageTable (concat (pieces KERNEL s e <$> l)) true) = users (mkPageTable l true).
Proof.
  induction l as [|m l IH]; [done|]. cbn [fmap list_fmap concat]. rewrite users_app, pieces_users.
  fold (@fmap list _ _ _ (pieces KERNEL s e) l). rewrite IH, !users_cons. by case_decide.
Qed.

Lemma updated_users t va f t' r : (∀ m, m_owner (f m) = m_owner m) → update_mapping t KERNEL va f = (t', r) →
  users t' = users t.
Proof.
  intros Hf. unfold update_mapping. pose proof (update_first_split (starts_at KERNEL (align_down va)) f (mappings t)) as Hu.
  destruct (update_first _ f (mappings t)) as [l'|]; intros [= <- _]; [|done].
  destruct Hu as (l1 & m & l2 & El & -> & [Eo%Z.eqb_eq _]%andb_prop).
  unfold users. cbn [mappings]. rewrite El, !filter_app. f_equal. rewrite !filter_cons, Hf.
  by rewrite !decide_False by (by intros []).
Qed.

(** An operation of the kernel leaves the processes' mappings. *)
Lemma kernel_keeps_users room t op t' r : table_ok t → acts_for op = KERNEL → pt_run room t op = Ret (t', r) →
  users t' = users t.
Proof.
  intros [Ht _] Ha E. destruct op as [o va pa len q k|o va len|o va k|o va adv|o va q|o va pa|o va|o va]; cbn in Ha; subst o; cbn in E.
  - injection E as E. unfold map_to_owned in E. repeat case_match; simplify_eq; try done.
    unfold users. cbn [mappings]. rewrite filter_app, filter_cons, decide_False by (by intros []). apply app_nil_r.
  - unfold unmap_owned in E. repeat case_match; simplify_eq; try done. rewrite unmap_loop_ok in E by done.
    cbn [mbind outcome_bind app] in E. destruct (_ || _); simplify_eq; [|done]. apply (unmapped_users _ _ (mappings t)).
  - injection E as E. by apply (updated_users t va (set_kind k) t' r).
  - injection E as E. by apply (updated_users t va (set_advice adv) t' r).
  - injection E as E. by apply (updated_users t va (set_permissions q) t' r).
  - injection E as E. by apply (updated_users t va (set_phys (align_down pa)) t' r).
  - unfold mark_accessed_owned in E. destruct (update_mapping t KERNEL va (set_accessed true)) eqn:Eu. simplify_eq.
    by apply updated_users in Eu.
  - unfold clear_accessed_owned in E. destruct (update_mapping t KERNEL va (set_accessed false)) eqn:Eu. simplify_eq.
    by apply updated_users in Eu.
Qed.

Lemma kernel_step_ok room t op : table_ok t → pt_allowed t op → acts_for op = KERNEL →
  ∃ t' r, pt_run room t op = Ret (t', r) ∧ table_ok t' ∧ users t' = users t ∧ pt_spec op (view t) (view t') r.
Proof.
  intros Ht Hal Ha. destruct (pt_step_ok room t op Ht Hal) as (t' & r & E & Ht' & Hs). exists t', r.
  split; [done|]. split; [done|]. split; [|done]. by eapply kernel_keeps_users.
Qed.

(** ** The pages of a range *)

Lemma aligned_length len : 0 ≤ len → len + 4096 ≤ u64_max →
  ∃ n : nat, length_align_up len = Ret (Z.of_nat n * 4096) ∧ mlock_align_up len = Ret (Z.of_nat n * 4096) ∧
    len ≤ Z.of_nat n * 4096 < len + 4096.
Proof.
  intros Hz Hl. unfold length_align_up, mlock_align_up. rewrite page_4096, !checked_add_small by lia.
  replace (len + 4096 - 1) with (len + 4095) by lia. rewrite align_down_spec by (split; lia).
  exists (Z.to_nat ((len + 4095) / 4096)). pose proof (Z.div_mod (len + 4095) 4096 ltac:(lia)).
  pose proof (Z.mod_pos_bound (len + 4095) 4096 ltac:(lia)). pose proof (Z.div_pos (len + 4095) 4096 ltac:(lia) ltac:(lia)).
  rewrite Z2Nat.id by lia. repeat split; try lia; f_equal; lia.
Qed.

Lemma pages_of_length n : pages (Z.of_nat n * 4096) = n.
Proof. unfold pages. rewrite page_4096, Z.div_mul by lia. lia. Qed.

Lemma aligned_start a : word a → 0 ≤ align_down a ≤ a.
Proof. intros Ha. rewrite align_down_spec by done. pose proof (mod_split a). destruct Ha. pose proof (Z.mod_le a 4096). lia. Qed.

Lemma start_aligned e : mapping_ok e → align_down (m_virtual_address e) = m_virtual_address e.
Proof. intros [[? Ha] ? [? ?] [Hm ?]]. unfold m_end in *. rewrite align_down_spec by (split; lia). lia. Qed.

Lemma length_aligned e : mapping_ok e → m_end e + 4096 ≤ u64_max →
  length_align_up (m_length e) = Ret (m_length e) ∧ mlock_align_up (m_length e) = Ret (m_length e).
Proof.
  intros [[? _] _ [? Hl] _] Hb. unfold m_end in *. destruct (aligned_length (m_length e)) as (n & -> & -> & Hn); [lia..|].
  assert (Z.of_nat n * 4096 = m_length e) as ->; [|done]. pose proof (Z.div_mod (m_length e) 4096 ltac:(lia)). lia.
Qed.

Lemma normalize_whole e : mapping_ok e → m_end e + 4096 ≤ u64_max →
  normalize_virtual_range (m_virtual_address e) (m_length e) = Ok (m_virtual_address e, m_length e).
Proof.
  intros He Hb. pose proof He as [[? Hv] _ [? Hl] _]. unfold normalize_virtual_range, range_end, PageTable.align_up, m_end in *.
  rewrite (proj2 (Z.eqb_neq _ _)), start_aligned, land_page, Hv by (done || lia || split; lia).
  rewrite checked_add_small, page_4096, checked_add_small by lia. cbn [fmap option_fmap option_map].
  rewrite align_down_spec by (split; lia). pose proof (Z.div_mod (m_length e) 4096 ltac:(lia)).
  replace (0 + m_length e + (4096 - 1)) with (4095 + m_length e / 4096 * 4096) by lia.
  rewrite Z_mod_plus_full. change (4095 mod 4096) with 4095.
  replace (4095 + m_length e / 4096 * 4096 - 4095) with (m_length e) by lia. by rewrite checked_add_small by lia.
Qed.

(** Unmapping a whole mapping for its owner. *)
Lemma unmap_whole room t e : table_ok t → initialized t = true → (∀ n, room n = true) → e ∈ mappings t →
  m_end e + 4096 ≤ u64_max →
  ∃ t', unmap_owned room t (m_owner e) (m_virtual_address e) (m_length e) = Ret (t', Ok ()) ∧ table_ok t' ∧
    ∀ o a, view t' o a =
      if decide ((o = m_owner e ∨ o = KERNEL) ∧ m_virtual_address e ≤ a < m_end e) then None else view t o a.
Proof.
  intros Ht Hi Hroom Hm Hb. pose proof Ht as [Hf _]. pose proof Hf as Hf'. rewrite Forall_forall in Hf'.
  pose proof (Hf' e Hm) as He. pose proof He as [[? Hv] _ [? Hl] _].
  assert (Hend : m_end e mod 4096 = 0) by (unfold m_end; by rewrite Zplus_mod, Hv, Hl).
  unfold unmap_owned. rewrite Hi, Hroom, normalize_whole by done. cbn [negb]. unfold range_end.
  rewrite checked_add_small by (unfold m_end in *; lia). fold (m_end e). rewrite unmap_loop_ok by done.
  cbn [mbind outcome_bind app orb].
  assert (Hmet : existsb (met (m_owner e) (m_virtual_address e) (m_end e)) (mappings t) = true).
  { apply existsb_exists. exists e. split; [by apply list_elem_of_In|]. unfold met, m_end.
    by rewrite (proj2 (matches_spec _ _)), !(proj2 (Z.ltb_lt _ _)) by (tauto || lia). }
  rewrite Hmet. eexists. split; [done|]. split.
  - apply unmap_table_ok; try done; [unfold m_end; lia|apply Ht].
  - intros o a. apply unmap_view; try done. unfold m_end. lia.
Qed.

(** ** The loops over pages *)

Section Calls.
Context {P D M : Type} `{Frames P} `{BlockDevice D} `{Mmu M}.
Context (oom : MemoryManager P D M → MemoryManager P D M * bool) (room : nat → bool).
Implicit Type m : Memory (P := P) (D := D) (M := M).

(** [I n] holds with [n] pages left. *)
Lemma each_page_ok (I : nat → Memory → Prop) f n va offset m :
  (∀ k m page, word page → I (S k) m → ∃ m', f m page = Ret m' ∧ I k m') →
  0 ≤ va → 0 ≤ offset → va + offset + Z.of_nat n * 4096 ≤ u64_max → I n m →
  ∃ m', each_page n va offset f m = Ret m' ∧ I 0%nat m'.
Proof.
  intros Hf Hva. revert offset m. induction n as [|n IH]; intros offset m Ho Hb Hi; cbn [each_page]; [by exists m|].
  rewrite checked_add_small by lia. destruct (Hf n m (va + offset)) as (m1 & -> & Hi1); [split; lia|done|].
  cbn [mbind outcome_bind]. apply IH; [rewrite page_4096; lia..|done].
Qed.

(** What the calls keep. *)
Definition kept (l : list Mapping) m : Prop := table_ok (table_of m) ∧ users (table_of m) = l.

Lemma hint_page_ok l hint m page : word page → kept l m → ∃ m', hint_page hint m page = Ret m' ∧ kept l m'.
Proof.
  intros Hp [Ht Hl]. destruct (kernel_step_ok room (table_of m) (SetAdvice KERNEL page hint) Ht Hp eq_refl)
    as (t' & r & [= E] & Ht' & Hu & _).
  eexists. split; [done|]. unfold replace_mapping_advice. rewrite E. split; [done|]. by rewrite <- Hl.
Qed.

Lemma dontneed_page_ok l m page : word page → kept l m → ∃ m', dontneed_page room m page = Ret m' ∧ kept l m'.
Proof.
  intros Hp [Ht Hl]. assert (Hw : word PAGE) by (by vm_compute). unfold dontneed_page, unmap, map_region_with_kind, map_to_with_kind.
  destruct (kernel_step_ok room (table_of m) (Unmap KERNEL page PAGE) Ht (conj Hp Hw) eq_refl) as (t1 & r1 & E1 & Ht1 & Hu1 & _).
  cbn [pt_run] in E1. rewrite E1. cbn [mbind outcome_bind].
  destruct (kernel_step_ok room t1 (MapTo KERNEL page page PAGE READ_WRITE DemandPaged) Ht1 (conj Hp (conj Hp Hw)) eq_refl)
    as (t2 & r2 & [= E2] & Ht2 & Hu2 & _).
  rewrite E2. eexists. split; [done|]. split; [done|]. by rewrite <- Hl, <- Hu1, <- Hu2.
Qed.

(** The count of locked pages leaves room for [n] more. *)
Definition counted (n : nat) m : Prop := 0 ≤ locked_pages m ∧ locked_pages m + Z.of_nat n ≤ u64_max.

Lemma lock_page_ok l k m page : word page → kept l m ∧ counted (S k) m →
  ∃ m', lock_page m page = Ret m' ∧ kept l m' ∧ counted k m'.
Proof.
  intros Hp [[Ht Hl] [Hc0 Hc]]. unfold lock_page, replace_mapping_kind.
  destruct (kernel_step_ok room (table_of m) (SetKind KERNEL page Locked) Ht Hp eq_refl) as (t' & r & [= E] & Ht' & Hu & _).
  rewrite E. destruct r.
  - rewrite checked_add_small by lia. eexists. split; [done|]. split; [split; [done|by rewrite <- Hl]|]. split; cbn; lia.
  - exists m. split; [done|]. split; [done|]. split; lia.
Qed.

Lemma unlock_page_ok l m page : word page → kept l m → ∃ m', unlock_page m page = Ret m' ∧ kept l m'.
Proof.
  intros Hp [Ht Hl]. unfold unlock_page, replace_mapping_kind.
  destruct (kernel_step_ok room (table_of m) (SetKind KERNEL page Anonymous) Ht Hp eq_refl) as (t' & r & [= E] & Ht' & Hu & _).
  rewrite E. destruct r; eexists; (split; [done|]); [split; [done|by rewrite <- Hl]|done].
Qed.

(** ** The handlers *)

(** A call whose range does not reach the end of the address space. *)
Record sane_args (args : list Z) : Prop := {
  sa_words : word (arg args 0) ∧ word (arg args 1);
  sa_range : arg args 0 + arg args 1 + 4096 ≤ u64_max;
}.

(** The calls that fault pages in. *)
Definition prefaults (call : memory_call) (args : list Z) : bool :=
  match call with Madvise => as_i32 (arg args 2) =? MADV_WILLNEED | _ => false end.

(** A call that went through, keeping the processes' mappings. *)
Definition harmless (l : list Mapping) (o : outcome (option Memory * result Z)) : Prop :=
  ∃ m r, o = Ret (Some m, r) ∧ kept l m.

Lemma mmap_ok l args m : kept l m → sane_args args → harmless l (mmap room args (Some m)).
Proof.
  intros [Ht Hl] [[[Ha1 Ha2] [Hb1 Hb2]] Hr]. unfold mmap, harmless. destruct (negb _); [by eexists _, _|].
  destruct (_ || _); [by eexists _, _|]. destruct (negb _); [by eexists _, _|]. destruct (_ =? 0); [by eexists _, _|].
  destruct (translate_prot _) as [perms|]; [|by eexists _, _].
  destruct (aligned_length (arg args 1)) as (n & -> & _ & Hn); [lia..|]. cbn [mbind outcome_bind].
  destruct (_ =? 0); [by eexists _, _|]. cbn [with_memory]. unfold map_region_with_kind, map_to_with_kind.
  pose proof (aligned_start (arg args 0) (conj Ha1 Ha2)) as Hv.
  assert (Hw : word (align_down (arg args 0))) by (split; lia).
  destruct (kernel_step_ok room (table_of m) (MapTo KERNEL (align_down (arg args 0)) (align_down (arg args 0))
    (Z.of_nat n * 4096) perms Anonymous) Ht) as (t' & r & [= E] & Ht' & Hu & _); [split; [done|split; [done|split; lia]]|done|].
  rewrite E. destruct r; eexists _, _; (split; [done|]); (split; [done|by rewrite <- Hl]).
Qed.

Lemma munmap_ok l args m : kept l m → sane_args args → harmless l (munmap room args (Some m)).
Proof.
  intros [Ht Hl] [[[Ha1 Ha2] [Hb1 Hb2]] Hr]. unfold munmap, harmless. destruct (negb _); [by eexists _, _|].
  destruct (_ =? 0); [by eexists _, _|].
  destruct (aligned_length (arg args 1)) as (n & -> & _ & Hn); [lia..|]. cbn [mbind outcome_bind].
  destruct (_ =? 0); [by eexists _, _|]. cbn [with_memory]. unfold unmap.
  pose proof (aligned_start (arg args 0) (conj Ha1 Ha2)) as Hv.
  destruct (kernel_step_ok room (table_of m) (Unmap KERNEL (align_down (arg args 0)) (Z.of_nat n * 4096)) Ht)
    as (t' & r & E & Ht' & Hu & _); [split; split; lia|done|].
  cbn [pt_run] in E. rewrite E. cbn [mbind outcome_bind].
  destruct r; eexists _, _; (split; [done|]); (split; [done|by rewrite <- Hl]).
Qed.

(** The pages of the range, one by one. *)
Lemma walk_ok l f n args m : (∀ m page, word page → kept l m → ∃ m', f m page = Ret m' ∧ kept l m') →
  kept l m → word (arg args 0) → arg args 0 + Z.of_nat n * 4096 ≤ u64_max →
  ∃ m', each_page n (align_down (arg args 0)) 0 f m = Ret m' ∧ kept l m'.
Proof.
  intros Hf Hk Ha Hb. pose proof (aligned_start _ Ha). apply (each_page_ok (λ _, kept l)); [|lia..|done].
  intros _ m1 page. apply Hf.
Qed.

Lemma mlock_ok l args m : kept l m → sane_args args → 0 ≤ locked_pages m ≤ MAX_LOCKED_PAGES →
  harmless l (mlock args (Some m)).
Proof.
  intros Hk [[Ha [Hb1 Hb2]] Hr] Hc. unfold mlock, harmless. destruct (negb _); [by eexists _, _|].
  destruct (_ =? 0); [by eexists _, _|].
  destruct (aligned_length (arg args 1)) as (n & _ & -> & Hn); [destruct Ha; lia..|]. cbn [mbind outcome_bind with_memory].
  rewrite Z.div_mul by lia. assert (Hmax : MAX_LOCKED_PAGES = 16384) by done.
  assert (Hsum : locked_pages m + Z.of_nat n ≤ u64_max) by (destruct Ha; unfold u64_max in *; lia).
  rewrite checked_add_small by lia. destruct (_ <? _); [by eexists _, _|]. rewrite pages_of_length.
  pose proof (aligned_start _ Ha). destruct (each_page_ok (λ k m, kept l m ∧ counted k m) lock_page n
    (align_down (arg args 0)) 0 m) as (m' & E & Hk' & _); [|lia..|split; [done|split; lia]|].
  - intros k m1 page. apply lock_page_ok.
  - rewrite E. by eexists _, _.
Qed.

Lemma munlock_ok l args m : kept l m → sane_args args → harmless l (munlock args (Some m)).
Proof.
  intros Hk [[Ha [Hb1 Hb2]] Hr]. unfold munlock, harmless. destruct (negb _); [by eexists _, _|].
  destruct (_ =? 0); [by eexists _, _|].
  destruct (aligned_length (arg args 1)) as (n & _ & -> & Hn); [destruct Ha; lia..|]. cbn [mbind outcome_bind with_memory].
  rewrite pages_of_length. destruct (walk_ok l unlock_page n args m) as (m' & E & Hk'); [apply unlock_page_ok|done|done|lia|].
  rewrite E. by eexists _, _.
Qed.

Lemma madvise_ok l args m : kept l m → sane_args args → as_i32 (arg args 2) ≠ MADV_WILLNEED →
  harmless l (madvise oom room args (Some m)).
Proof.
  intros Hk [[Ha [Hb1 Hb2]] Hr] Hn. unfold madvise, harmless. destruct (negb _); [by eexists _, _|].
  destruct (_ =? 0); [by eexists _, _|].
  destruct (aligned_length (arg args 1)) as (n & -> & _ & Hl); [destruct Ha; lia..|]. cbn [mbind outcome_bind with_memory].
  unfold advice_of. rewrite pages_of_length. destruct (_ || _ || _).
  { set (hint := if _ =? MADV_RANDOM then _ else _).
    destruct (walk_ok l _ n args m (hint_page_ok l hint) Hk Ha) as (m' & E & Hk'); [lia|]. rewrite E. by eexists _, _. }
  rewrite (proj2 (Z.eqb_neq _ _) Hn). destruct (_ || _); [|by eexists _, _].
  destruct (walk_ok l _ n args m (dontneed_page_ok l) Hk Ha) as (m' & E & Hk'); [lia|]. rewrite E. by eexists _, _.
Qed.


(** ** The kernel's mappings *)

(** A range, as the calls are given it. *)
Definition call_on (va len : Z) : list Z := [va; len; 0; 0; 0; 0].

(** A process unmaps the kernel.  A mapping of the kernel, its heap, a stack or a
    device, is removed by a process that names its range: the call answers
    success, and where an address space has no mapping of its own the addresses
    translate to nothing. *)
Theorem munmap_drops_kernel_mapping m (e : Mapping) : table_ok (table_of m) → initialized (table_of m) = true →
  (∀ n, room n = true) → e ∈ mappings (table_of m) → m_owner e = KERNEL → m_virtual_address e ≠ 0 →
  m_end e + 4096 ≤ u64_max →
  ∃ m', handle oom room Munmap (call_on (m_virtual_address e) (m_length e)) (Some m) = Ret (Some m', Ok 0) ∧
    ∀ o a, m_virtual_address e ≤ a < m_end e → view (table_of m) o a = None ∨ o = KERNEL →
      lookup_mapping_owned (table_of m') o a = Ret None.
Proof.
  intros Ht Hi Hroom Hm Ho Hz Hb. pose proof Ht as [Hf _]. rewrite Forall_forall in Hf. pose proof (Hf e Hm) as He.
  pose proof He as [[Hv Hva] _ [Hl Hla] _]. cbn [handle]. unfold munmap, call_on.
  change (validate_zeroed_args _ 2) with true. cbn [negb arg nth]. rewrite (proj2 (Z.eqb_neq (m_length e) 0)) by lia.
  rewrite (proj1 (length_aligned e He Hb)), start_aligned by done. cbn [mbind outcome_bind with_memory].
  rewrite (proj2 (Z.eqb_neq _ _) Hz). unfold unmap.
  destruct (unmap_whole room (table_of m) e Ht Hi Hroom Hm Hb) as (t' & E & Ht' & Hview). rewrite Ho in E, Hview.
  rewrite E. cbn [mbind outcome_bind]. eexists. split; [done|]. intros o a Ha Hoa. change (table_of (on_table m t')) with t'.
  rewrite (lookup_ok t' o a Ht'), !Hview, (decide_True (P := (_ ∨ KERNEL = KERNEL) ∧ _)) by tauto.
  case_decide as Hd; [done|]. destruct Hoa as [->| ->]; [done|]. destruct Hd. tauto.
Qed.

(** A process makes the kernel's memory reclaimable.  Unlocking a page at which a
    mapping of the kernel starts, whatever it is and though it was never locked,
    turns the mapping into an anonymous one, the kind that is reclaimed and moved,
    and takes one off the count of locked pages. *)
Theorem munlock_turns_kernel_anonymous m (e : Mapping) : table_ok (table_of m) → e ∈ mappings (table_of m) →
  m_owner e = KERNEL → 0 < locked_pages m →
  ∃ m', handle oom room Munlock (call_on (m_virtual_address e) 4096) (Some m) = Ret (Some m', Ok 0) ∧
    set_kind Anonymous e ∈ mappings (table_of m') ∧ locked_pages m' = locked_pages m - 1.
Proof.
  intros Ht Hm Ho Hc. pose proof Ht as [Hf _]. rewrite Forall_forall in Hf. pose proof (Hf e Hm) as He.
  cbn [handle]. unfold munlock, call_on. change (validate_zeroed_args _ 2) with true. cbn [negb arg nth].
  change (4096 =? 0) with false. change (mlock_align_up 4096) with (Ret 4096). cbn [mbind outcome_bind with_memory].
  change (pages 4096) with 1%nat. rewrite start_aligned by done. cbn [each_page]. pose proof He as [[? ?] _ [? ?] [? ?]].
  unfold m_end in *. rewrite checked_add_small, Z.add_0_r by lia. unfold unlock_page, replace_mapping_kind, replace_mapping_kind_owned.
  destruct (update_elems (table_of m) KERNEL (m_virtual_address e) (set_kind Anonymous) (λ _ '(p, q, _), (p, q, Anonymous)) e)
    as (t' & E & _ & _ & Hel); [done|done|done|by rewrite start_aligned|keep_mapping He|].
  rewrite E. cbn [mbind outcome_bind]. eexists. split; [done|]. split; [apply Hel; by left|].
  cbn [locked_pages]. by rewrite (proj2 (Z.ltb_lt _ _)).
Qed.

(** A length near the top of the address space overflows where it is rounded up,
    before anything about it is checked. *)
Theorem huge_length_panics call va len memory : call ≠ Mmap → u64_max - 4095 < len ≤ u64_max →
  handle oom room call (call_on va len) memory = Panic.
Proof.
  intros Hcall Hl. assert (Hz : (len =? 0) = false) by (apply Z.eqb_neq; unfold u64_max in *; lia).
  assert (E1 : length_align_up len = Panic).
  { unfold length_align_up, checked_add. rewrite page_4096. destruct (Z.leb_spec (len + 4096) u64_max); [lia|done]. }
  assert (E2 : mlock_align_up len = Panic).
  { unfold mlock_align_up, checked_add. destruct (Z.leb_spec (len + 4095) u64_max); [lia|done]. }
  destruct call; cbn [handle]; unfold munmap, mlock, munlock, madvise, call_on; cbn [arg nth]; rewrite ?Hz, ?E1, ?E2; done.
Qed.
End Calls.

(** ** Witnesses *)

(** The kernel's stack in two pages, and a page of a process. *)
Definition stack_table : PageTable :=
  mkPageTable [mkMapping 4194304 4194304 8192 READ_WRITE KernelStack false Normal KERNEL;
               mkMapping 65536 1048576 4096 READ_WRITE Anonymous false Normal 8192] true.

Definition stack_memory : Memory (P := Nodes) (D := MemoryBlockDevice) (M := LiveTables) :=
  mkMemory (mkManager (mkNodes 0 [mkFrameAllocator 1048576 8 1 []]) stack_table [] ∅ 0 None ∅ ∅ 0
              (mkTables 8192 {[(8192, 65536) := 1048576]}) (λ _, zero_page)) 1.

Lemma stack_table_ok : table_ok (table_of stack_memory).
Proof.
  split.
  - repeat apply Forall_cons_2; [split|split|apply Forall_nil_2]; by vm_compute.
  - apply SSorted_cons; [by repeat constructor|]. apply Forall_singleton. intros E. discriminate E.
Qed.


Lemma munmap_drops_kernel_mapping_witness :
  ∃ m', handle (λ s, (s, false)) (λ _, true) Munmap (call_on 4194304 8192) (Some stack_memory) = Ret (Some m', Ok 0) ∧
    ∀ o a, 4194304 ≤ a < 4202496 → view (table_of stack_memory) o a = None ∨ o = KERNEL →
      lookup_mapping_owned (table_of m') o a = Ret None.
Proof.
  apply (munmap_drops_kernel_mapping (λ s, (s, false)) (λ _, true) stack_memory
    (mkMapping 4194304 4194304 8192 READ_WRITE KernelStack false Normal KERNEL) stack_table_ok).
  - reflexivity.
  - reflexivity.
  - left.
  - reflexivity.
  - discriminate.
  - unfold m_end, u64_max. cbn. lia.
Defined.
