(* ===== verification/Unicode.v ===== *)
(** * Strings and names (src/fs/unicode)

    What the source uses of Rust's strings, which are UTF-8 byte strings (their
    characters and the lossy conversion of bytes), and the comparison of file
    names that ignores case (casefold.rs), with its search of the folding table
    (casefold_tables.rs).  The comparison is an equivalence: it holds of two strings exactly when their
    folded characters are the same, and folding twice is folding once. *)

From stdpp Require Import base tactics decidable numbers list.
From Stdlib Require Import ZArith Lia Bool.
From S2P Require Import Prelude Bytes.

(** ** The folding table

    The folded form of every character that has one, as pairs of code points
    sorted by the first. *)
Definition SIMPLE_FOLDS : list (Z * Z) := [
  (65, 97); (66, 98); (67, 99); (68, 100); (69, 101); (70, 102); (71, 103);
  (72, 104); (73, 105); (74, 106); (75, 107); (76, 108); (77, 109); (78, 110);
  (79, 111); (80, 112); (81, 113); (82, 114); (83, 115); (84, 116); (85, 117);
  (86, 118); (87, 119); (88, 120); (89, 121); (90, 122); (181, 956); (192, 224);
  (193, 225); (194, 226); (195, 227); (196, 228); (197, 229); (198, 230); (199, 231);
  (200, 232); (201, 233); (202, 234); (203, 235); (204, 236); (205, 237); (206, 238);
  (207, 239); (208, 240); (209, 241); (210, 242); (211, 243); (212, 244); (213, 245);
  (214, 246); (216, 248); (217, 249); (218, 250); (219, 251); (220, 252); (221, 253);
  (222, 254); (256, 257); (258, 259); (260, 261); (262, 263); (264, 265); (266, 267);
  (268, 269); (270, 271); (272, 273); (274, 275); (276, 277); (278, 279); (280, 281);
  (282, 283); (284, 285); (286, 287); (288, 289); (290, 291); (292, 293); (294, 295);
  (296, 297); (298, 299); (300, 301); (302, 303); (306, 307); (308, 309); (310, 311);
  (313, 314); (315, 316); (317, 318); (319, 320); (321, 322); (323, 324); (325, 326);
  (327, 328); (330, 331); (332, 333); (334, 335); (336, 337); (338, 339); (340, 341);
  (342, 343); (344, 345); (346, 347); (348, 349); (350, 351); (352, 353); (354, 355);
  (356, 357); (358, 359); (360, 361); (362, 363); (364, 365); (366, 367); (368, 369);
  (370, 371); (372, 373); (374, 375); (376, 255); (377, 378); (379, 380); (381, 382);
  (383, 115); (385, 595); (386, 387); (388, 389); (390, 596); (391, 392); (393, 598);
  (394, 599); (395, 396); (398, 477); (399, 601); (400, 603); (401, 402); (403, 608);
  (404, 611); (406, 617); (407, 616); (408, 409); (412, 623); (413, 626); (415, 629);
  (416, 417); (418, 419); (420, 421); (422, 640); (423, 424); (425, 643); (428, 429);
  (430, 648); (431, 432); (433, 650); (434, 651); (435, 436); (437, 438); (439, 658);
  (440, 441); (444, 445); (452, 454); (453, 454); (455, 457); (456, 457); (458, 460);
  (459, 460); (461, 462); (463, 464); (465, 466); (467, 468); (469, 470); (471, 472);
  (473, 474); (475, 476); (478, 479); (480, 481); (482, 483); (484, 485); (486, 487);
  (488, 489); (490, 491); (492, 493); (494, 495); (497, 499); (498, 499); (500, 501);
  (502, 405); (503, 447); (504, 505); (506, 507); (508, 509); (510, 511); (512, 513);
  (514, 515); (516, 517); (518, 519); (520, 521); (522, 523); (524, 525); (526, 527);
  (528, 529); (530, 531); (532, 533); (534, 535); (536, 537); (538, 539); (540, 541);
  (542, 543); (544, 414); (546, 547); (548, 549); (550, 551); (552, 553); (554, 555);
  (556, 557); (558, 559); (560, 561); (562, 563); (570, 11365); (571, 572); (573, 410);
  (574, 11366); (577, 578); (579, 384); (580, 649); (581, 652); (582, 583); (584, 585);
  (586, 587); (588, 589); (590, 591); (837, 953); (880, 881); (882, 883); (886, 887);
  (895, 1011); (902, 940); (904, 941); (905, 942); (906, 943); (908, 972); (910, 973);
  (911, 974); (913, 945); (914, 946); (915, 947); (916, 948); (917, 949); (918, 950);
  (919, 951); (920, 952); (921, 953); (922, 954); (923, 955); (924, 956); (925, 957);
  (926, 958); (927, 959); (928, 960); (929, 961); (931, 963); (932, 964); (933, 965);
  (934, 966); (935, 967); (936, 968); (937, 969); (938, 970); (939, 971); (962, 963);
  (975, 983); (976, 946); (977, 952); (981, 966); (982, 960); (984, 985); (986, 987);
  (988, 989); (990, 991); (992, 993); (994, 995); (996, 997); (998, 999); (1000, 1001);
  (1002, 1003); (1004, 1005); (1006, 1007); (1008, 954); (1009, 961); (1012, 952); (1013, 949);
  (1015, 1016); (1017, 1010); (1018, 1019); (1021, 891); (1022, 892); (1023, 893); (1024, 1104);
  (1025, 1105); (1026, 1106); (1027, 1107); (1028, 1108); (1029, 1109); (1030, 1110); (1031, 1111);
  (1032, 1112); (1033, 1113); (1034, 1114); (1035, 1115); (1036, 1116); (1037, 1117); (1038, 1118);
  (1039, 1119); (1040, 1072); (1041, 1073); (1042, 1074); (1043, 1075); (1044, 1076); (1045, 1077);
  (1046, 1078); (1047, 1079); (1048, 1080); (1049, 1081); (1050, 1082); (1051, 1083); (1052, 1084);
  (1053, 1085); (1054, 1086); (1055, 1087); (1056, 1088); (1057, 1089); (1058, 1090); (1059, 1091);
  (1060, 1092); (1061, 1093); (1062, 1094); (1063, 1095); (1064, 1096); (1065, 1097); (1066, 1098);
  (1067, 1099); (1068, 1100); (1069, 1101); (1070, 1102); (1071, 1103); (1120, 1121); (1122, 1123);
  (1124, 1125); (1126, 1127); (1128, 1129); (1130, 1131); (1132, 1133); (1134, 1135); (1136, 1137);
  (1138, 1139); (1140, 1141); (1142, 1143); (1144, 1145); (1146, 1147); (1148, 1149); (1150, 1151);
  (1152, 1153); (1162, 1163); (1164, 1165); (1166, 1167); (1168, 1169); (1170, 1171); (1172, 1173);
  (1174, 1175); (1176, 1177); (1178, 1179); (1180, 1181); (1182, 1183); (1184, 1185); (1186, 1187);
  (1188, 1189); (1190, 1191); (1192, 1193); (1194, 1195); (1196, 1197); (1198, 1199); (1200, 1201);
  (1202, 1203); (1204, 1205); (1206, 1207); (1208, 1209); (1210, 1211); (1212, 1213); (1214, 1215);
  (1216, 1231); (1217, 1218); (1219, 1220); (1221, 1222); (1223, 1224); (1225, 1226); (1227, 1228);
  (1229, 1230); (1232, 1233); (1234, 1235); (1236, 1237); (1238, 1239); (1240, 1241); (1242, 1243);
  (1244, 1245); (1246, 1247); (1248, 1249); (1250, 1251); (1252, 1253); (1254, 1255); (1256, 1257);
  (1258, 1259); (1260, 1261); (1262, 1263); (1264, 1265); (1266, 1267); (1268, 1269); (1270, 1271);
  (1272, 1273); (1274, 1275); (1276, 1277); (1278, 1279); (1280, 1281); (1282, 1283); (1284, 1285);
  (1286, 1287); (1288, 1289); (1290, 1291); (1292, 1293); (1294, 1295); (1296, 1297); (1298, 1299);
  (1300, 1301); (1302, 1303); (1304, 1305); (1306, 1307); (1308, 1309); (1310, 1311); (1312, 1313);
  (1314, 1315); (1316, 1317); (1318, 1319); (1320, 1321); (1322, 1323); (1324, 1325); (1326, 1327);
  (1329, 1377); (1330, 1378); (1331, 1379); (1332, 1380); (1333, 1381); (1334, 1382); (1335, 1383);
  (1336, 1384); (1337, 1385); (1338, 1386); (1339, 1387); (1340, 1388); (1341, 1389); (1342, 1390);
  (1343, 1391); (1344, 1392); (1345, 1393); (1346, 1394); (1347, 1395); (1348, 1396); (1349, 1397);
  (1350, 1398); (1351, 1399); (1352, 1400); (1353, 1401); (1354, 1402); (1355, 1403); (1356, 1404);
  (1357, 1405); (1358, 1406); (1359, 1407); (1360, 1408); (1361, 1409); (1362, 1410); (1363, 1411);
  (1364, 1412); (1365, 1413); (1366, 1414); (4256, 11520); (4257, 11521); (4258, 11522); (4259, 11523);
  (4260, 11524); (4261, 11525); (4262, 11526); (4263, 11527); (4264, 11528); (4265, 11529); (4266, 11530);
  (4267, 11531); (4268, 11532); (4269, 11533); (4270, 11534); (4271, 11535); (4272, 11536); (4273, 11537);
  (4274, 11538); (4275, 11539); (4276, 11540); (4277, 11541); (4278, 11542); (4279, 11543); (4280, 11544);
  (4281, 11545); (4282, 11546); (4283, 11547); (4284, 11548); (4285, 11549); (4286, 11550); (4287, 11551);
  (4288, 11552); (4289, 11553); (4290, 11554); (4291, 11555); (4292, 11556); (4293, 11557); (4295, 11559);
  (4301, 11565); (5112, 5104); (5113, 5105); (5114, 5106); (5115, 5107); (5116, 5108); (5117, 5109);
  (7296, 1074); (7297, 1076); (7298, 1086); (7299, 1089); (7300, 1090); (7301, 1090); (7302, 1098);
  (7303, 1123); (7304, 42571); (7305, 7306); (7312, 4304); (7313, 4305); (7314, 4306); (7315, 4307);
  (7316, 4308); (7317, 4309); (7318, 4310); (7319, 4311); (7320, 4312); (7321, 4313); (7322, 4314);
  (7323, 4315); (7324, 4316); (7325, 4317); (7326, 4318); (7327, 4319); (7328, 4320); (7329, 4321);
  (7330, 4322); (7331, 4323); (7332, 4324); (7333, 4325); (7334, 4326); (7335, 4327); (7336, 4328);
  (7337, 4329); (7338, 4330); (7339, 4331); (7340, 4332); (7341, 4333); (7342, 4334); (7343, 4335);
  (7344, 4336); (7345, 4337); (7346, 4338); (7347, 4339); (7348, 4340); (7349, 4341); (7350, 4342);
  (7351, 4343); (7352, 4344); (7353, 4345); (7354, 4346); (7357, 4349); (7358, 4350); (7359, 4351);
  (7680, 7681); (7682, 7683); (7684, 7685); (7686, 7687); (7688, 7689); (7690, 7691); (7692, 7693);
  (7694, 7695); (7696, 7697); (7698, 7699); (7700, 7701); (7702, 7703); (7704, 7705); (7706, 7707);
  (7708, 7709); (7710, 7711); (7712, 7713); (7714, 7715); (7716, 7717); (7718, 7719); (7720, 7721);
  (7722, 7723); (7724, 7725); (7726, 7727); (7728, 7729); (7730, 7731); (7732, 7733); (7734, 7735);
  (7736, 7737); (7738, 7739); (7740, 7741); (7742, 7743); (7744, 7745); (7746, 7747); (7748, 7749);
  (7750, 7751); (7752, 7753); (7754, 7755); (7756, 7757); (7758, 7759); (7760, 7761); (7762, 7763);
  (7764, 7765); (7766, 7767); (7768, 7769); (7770, 7771); (7772, 7773); (7774, 7775); (7776, 7777);
  (7778, 7779); (7780, 7781); (7782, 7783); (7784, 7785); (7786, 7787); (7788, 7789); (7790, 7791);
  (7792, 7793); (7794, 7795); (7796, 7797); (7798, 7799); (7800, 7801); (7802, 7803); (7804, 7805);
  (7806, 7807); (7808, 7809); (7810, 7811); (7812, 7813); (7814, 7815); (7816, 7817); (7818, 7819);
  (7820, 7821); (7822, 7823); (7824, 7825); (7826, 7827); (7828, 7829); (7835, 7777); (7838, 223);
  (7840, 7841); (7842, 7843); (7844, 7845); (7846, 7847); (7848, 7849); (7850, 7851); (7852, 7853);
  (7854, 7855); (7856, 7857); (7858, 7859); (7860, 7861); (7862, 7863); (7864, 7865); (7866, 7867);
  (7868, 7869); (7870, 7871); (7872, 7873); (7874, 7875); (7876, 7877); (7878, 7879); (7880, 7881);
  (7882, 7883); (7884, 7885); (7886, 7887); (7888, 7889); (7890, 7891); (7892, 7893); (7894, 7895);
  (7896, 7897); (7898, 7899); (7900, 7901); (7902, 7903); (7904, 7905); (7906, 7907); (7908, 7909);
  (7910, 7911); (7912, 7913); (7914, 7915); (7916, 7917); (7918, 7919); (7920, 7921); (7922, 7923);
  (7924, 7925); (7926, 7927); (7928, 7929); (7930, 7931); (7932, 7933); (7934, 7935); (7944, 7936);
  (7945, 7937); (7946, 7938); (7947, 7939); (7948, 7940); (7949, 7941); (7950, 7942); (7951, 7943);
  (7960, 7952); (7961, 7953); (7962, 7954); (7963, 7955); (7964, 7956); (7965, 7957); (7976, 7968);
  (7977, 7969); (7978, 7970); (7979, 7971); (7980, 7972); (7981, 7973); (7982, 7974); (7983, 7975);
  (7992, 7984); (7993, 7985); (7994, 7986); (7995, 7987); (7996, 7988); (7997, 7989); (7998, 7990);
  (7999, 7991); (8008, 8000); (8009, 8001); (8010, 8002); (8011, 8003); (8012, 8004); (8013, 8005);
  (8025, 8017); (8027, 8019); (8029, 8021); (8031, 8023); (8040, 8032); (8041, 8033); (8042, 8034);
  (8043, 8035); (8044, 8036); (8045, 8037); (8046, 8038); (8047, 8039); (8072, 8064); (8073, 8065);
  (8074, 8066); (8075, 8067); (8076, 8068); (8077, 8069); (8078, 8070); (8079, 8071); (8088, 8080);
  (8089, 8081); (8090, 8082); (8091, 8083); (8092, 8084); (8093, 8085); (8094, 8086); (8095, 8087);
  (8104, 8096); (8105, 8097); (8106, 8098); (8107, 8099); (8108, 8100); (8109, 8101); (8110, 8102);
  (8111, 8103); (8120, 8112); (8121, 8113); (8122, 8048); (8123, 8049); (8124, 8115); (8126, 953);
  (8136, 8050); (8137, 8051); (8138, 8052); (8139, 8053); (8140, 8131); (8147, 912); (8152, 8144);
  (8153, 8145); (8154, 8054); (8155, 8055); (8163, 944); (8168, 8160); (8169, 8161); (8170, 8058);
  (8171, 8059); (8172, 8165); (8184, 8056); (8185, 8057); (8186, 8060); (8187, 8061); (8188, 8179);
  (8486, 969); (8490, 107); (8491, 229); (8498, 8526); (8544, 8560); (8545, 8561); (8546, 8562);
  (8547, 8563); (8548, 8564); (8549, 8565); (8550, 8566); (8551, 8567); (8552, 8568); (8553, 8569);
  (8554, 8570); (8555, 8571); (8556, 8572); (8557, 8573); (8558, 8574); (8559, 8575); (8579, 8580);
  (9398, 9424); (9399, 9425); (9400, 9426); (9401, 9427); (9402, 9428); (9403, 9429); (9404, 9430);
  (9405, 9431); (9406, 9432); (9407, 9433); (9408, 9434); (9409, 9435); (9410, 9436); (9411, 9437);
  (9412, 9438); (9413, 9439); (9414, 9440); (9415, 9441); (9416, 9442); (9417, 9443); (9418, 9444);
  (9419, 9445); (9420, 9446); (9421, 9447); (9422, 9448); (9423, 9449); (11264, 11312); (11265, 11313);
  (11266, 11314); (11267, 11315); (11268, 11316); (11269, 11317); (11270, 11318); (11271, 11319); (11272, 11320);
  (11273, 11321); (11274, 11322); (11275, 11323); (11276, 11324); (11277, 11325); (11278, 11326); (11279, 11327);
  (11280, 11328); (11281, 11329); (11282, 11330); (11283, 11331); (11284, 11332); (11285, 11333); (11286, 11334);
  (11287, 11335); (11288, 11336); (11289, 11337); (11290, 11338); (11291, 11339); (11292, 11340); (11293, 11341);
  (11294, 11342); (11295, 11343); (11296, 11344); (11297, 11345); (11298, 11346); (11299, 11347); (11300, 11348);
  (11301, 11349); (11302, 11350); (11303, 11351); (11304, 11352); (11305, 11353); (11306, 11354); (11307, 11355);
  (11308, 11356); (11309, 11357); (11310, 11358); (11311, 11359); (11360, 11361); (11362, 619); (11363, 7549);
  (11364, 637); (11367, 11368); (11369, 11370); (11371, 11372); (11373, 593); (11374, 625); (11375, 592);
  (11376, 594); (11378, 11379); (11381, 11382); (11390, 575); (11391, 576); (11392, 11393); (11394, 11395);
  (11396, 11397); (11398, 11399); (11400, 11401); (11402, 11403); (11404, 11405); (11406, 11407); (11408, 11409);
  (11410, 11411); (11412, 11413); (11414, 11415); (11416, 11417); (11418, 11419); (11420, 11421); (11422, 11423);
  (11424, 11425); (11426, 11427); (11428, 11429); (11430, 11431); (11432, 11433); (11434, 11435); (11436, 11437);
  (11438, 11439); (11440, 11441); (11442, 11443); (11444, 11445); (11446, 11447); (11448, 11449); (11450, 11451);
  (11452, 11453); (11454, 11455); (11456, 11457); (11458, 11459); (11460, 11461); (11462, 11463); (11464, 11465);
  (11466, 11467); (11468, 11469); (11470, 11471); (11472, 11473); (11474, 11475); (11476, 11477); (11478, 11479);
  (11480, 11481); (11482, 11483); (11484, 11485); (11486, 11487); (11488, 11489); (11490, 11491); (11499, 11500);
  (11501, 11502); (11506, 11507); (42560, 42561); (42562, 42563); (42564, 42565); (42566, 42567); (42568, 42569);
  (42570, 42571); (42572, 42573); (42574, 42575); (42576, 42577); (42578, 42579); (42580, 42581); (42582, 42583);
  (42584, 42585); (42586, 42587); (42588, 42589); (42590, 42591); (42592, 42593); (42594, 42595); (42596, 42597);
  (42598, 42599); (42600, 42601); (42602, 42603); (42604, 42605); (42624, 42625); (42626, 42627); (42628, 42629);
  (42630, 42631); (42632, 42633); (42634, 42635); (42636, 42637); (42638, 42639); (42640, 42641); (42642, 42643);
  (42644, 42645); (42646, 42647); (42648, 42649); (42650, 42651); (42786, 42787); (42788, 42789); (42790, 42791);
  (42792, 42793); (42794, 42795); (42796, 42797); (42798, 42799); (42802, 42803); (42804, 42805); (42806, 42807);
  (42808, 42809); (42810, 42811); (42812, 42813); (42814, 42815); (42816, 42817); (42818, 42819); (42820, 42821);
  (42822, 42823); (42824, 42825); (42826, 42827); (42828, 42829); (42830, 42831); (42832, 42833); (42834, 42835);
  (42836, 42837); (42838, 42839); (42840, 42841); (42842, 42843); (42844, 42845); (42846, 42847); (42848, 42849);
  (42850, 42851); (42852, 42853); (42854, 42855); (42856, 42857); (42858, 42859); (42860, 42861); (42862, 42863);
  (42873, 42874); (42875, 42876); (42877, 7545); (42878, 42879); (42880, 42881); (42882, 42883); (42884, 42885);
  (42886, 42887); (42891, 42892); (42893, 613); (42896, 42897); (42898, 42899); (42902, 42903); (42904, 42905);
  (42906, 42907); (42908, 42909); (42910, 42911); (42912, 42913); (42914, 42915); (42916, 42917); (42918, 42919);
  (42920, 42921); (42922, 614); (42923, 604); (42924, 609); (42925, 620); (42926, 618); (42928, 670);
  (42929, 647); (42930, 669); (42931, 43859); (42932, 42933); (42934, 42935); (42936, 42937); (42938, 42939);
  (42940, 42941); (42942, 42943); (42944, 42945); (42946, 42947); (42948, 42900); (42949, 642); (42950, 7566);
  (42951, 42952); (42953, 42954); (42955, 612); (42956, 42957); (42958, 42959); (42960, 42961); (42962, 42963);
  (42964, 42965); (42966, 42967); (42968, 42969); (42970, 42971); (42972, 411); (42997, 42998); (43888, 5024);
  (43889, 5025); (43890, 5026); (43891, 5027); (43892, 5028); (43893, 5029); (43894, 5030); (43895, 5031);
  (43896, 5032); (43897, 5033); (43898, 5034); (43899, 5035); (43900, 5036); (43901, 5037); (43902, 5038);
  (43903, 5039); (43904, 5040); (43905, 5041); (43906, 5042); (43907, 5043); (43908, 5044); (43909, 5045);
  (43910, 5046); (43911, 5047); (43912, 5048); (43913, 5049); (43914, 5050); (43915, 5051); (43916, 5052);
  (43917, 5053); (43918, 5054); (43919, 5055); (43920, 5056); (43921, 5057); (43922, 5058); (43923, 5059);
  (43924, 5060); (43925, 5061); (43926, 5062); (43927, 5063); (43928, 5064); (43929, 5065); (43930, 5066);
  (43931, 5067); (43932, 5068); (43933, 5069); (43934, 5070); (43935, 5071); (43936, 5072); (43937, 5073);
  (43938, 5074); (43939, 5075); (43940, 5076); (43941, 5077); (43942, 5078); (43943, 5079); (43944, 5080);
  (43945, 5081); (43946, 5082); (43947, 5083); (43948, 5084); (43949, 5085); (43950, 5086); (43951, 5087);
  (43952, 5088); (43953, 5089); (43954, 5090); (43955, 5091); (43956, 5092); (43957, 5093); (43958, 5094);
  (43959, 5095); (43960, 5096); (43961, 5097); (43962, 5098); (43963, 5099); (43964, 5100); (43965, 5101);
  (43966, 5102); (43967, 5103); (64261, 64262); (65313, 65345); (65314, 65346); (65315, 65347); (65316, 65348);
  (65317, 65349); (65318, 65350); (65319, 65351); (65320, 65352); (65321, 65353); (65322, 65354); (65323, 65355);
  (65324, 65356); (65325, 65357); (65326, 65358); (65327, 65359); (65328, 65360); (65329, 65361); (65330, 65362);
  (65331, 65363); (65332, 65364); (65333, 65365); (65334, 65366); (65335, 65367); (65336, 65368); (65337, 65369);
  (65338, 65370); (66560, 66600); (66561, 66601); (66562, 66602); (66563, 66603); (66564, 66604); (66565, 66605);
  (66566, 66606); (66567, 66607); (66568, 66608); (66569, 66609); (66570, 66610); (66571, 66611); (66572, 66612);
  (66573, 66613); (66574, 66614); (66575, 66615); (66576, 66616); (66577, 66617); (66578, 66618); (66579, 66619);
  (66580, 66620); (66581, 66621); (66582, 66622); (66583, 66623); (66584, 66624); (66585, 66625); (66586, 66626);
  (66587, 66627); (66588, 66628); (66589, 66629); (66590, 66630); (66591, 66631); (66592, 66632); (66593, 66633);
  (66594, 66634); (66595, 66635); (66596, 66636); (66597, 66637); (66598, 66638); (66599, 66639); (66736, 66776);
  (66737, 66777); (66738, 66778); (66739, 66779); (66740, 66780); (66741, 66781); (66742, 66782); (66743, 66783);
  (66744, 66784); (66745, 66785); (66746, 66786); (66747, 66787); (66748, 66788); (66749, 66789); (66750, 66790);
  (66751, 66791); (66752, 66792); (66753, 66793); (66754, 66794); (66755, 66795); (66756, 66796); (66757, 66797);
  (66758, 66798); (66759, 66799); (66760, 66800); (66761, 66801); (66762, 66802); (66763, 66803); (66764, 66804);
  (66765, 66805); (66766, 66806); (66767, 66807); (66768, 66808); (66769, 66809); (66770, 66810); (66771, 66811);
  (66928, 66967); (66929, 66968); (66930, 66969); (66931, 66970); (66932, 66971); (66933, 66972); (66934, 66973);
  (66935, 66974); (66936, 66975); (66937, 66976); (66938, 66977); (66940, 66979); (66941, 66980); (66942, 66981);
  (66943, 66982); (66944, 66983); (66945, 66984); (66946, 66985); (66947, 66986); (66948, 66987); (66949, 66988);
  (66950, 66989); (66951, 66990); (66952, 66991); (66953, 66992); (66954, 66993); (66956, 66995); (66957, 66996);
  (66958, 66997); (66959, 66998); (66960, 66999); (66961, 67000); (66962, 67001); (66964, 67003); (66965, 67004);
  (68736, 68800); (68737, 68801); (68738, 68802); (68739, 68803); (68740, 68804); (68741, 68805); (68742, 68806);
  (68743, 68807); (68744, 68808); (68745, 68809); (68746, 68810); (68747, 68811); (68748, 68812); (68749, 68813);
  (68750, 68814); (68751, 68815); (68752, 68816); (68753, 68817); (68754, 68818); (68755, 68819); (68756, 68820);
  (68757, 68821); (68758, 68822); (68759, 68823); (68760, 68824); (68761, 68825); (68762, 68826); (68763, 68827);
  (68764, 68828); (68765, 68829); (68766, 68830); (68767, 68831); (68768, 68832); (68769, 68833); (68770, 68834);
  (68771, 68835); (68772, 68836); (68773, 68837); (68774, 68838); (68775, 68839); (68776, 68840); (68777, 68841);
  (68778, 68842); (68779, 68843); (68780, 68844); (68781, 68845); (68782, 68846); (68783, 68847); (68784, 68848);
  (68785, 68849); (68786, 68850); (68944, 68976); (68945, 68977); (68946, 68978); (68947, 68979); (68948, 68980);
  (68949, 68981); (68950, 68982); (68951, 68983); (68952, 68984); (68953, 68985); (68954, 68986); (68955, 68987);
  (68956, 68988); (68957, 68989); (68958, 68990); (68959, 68991); (68960, 68992); (68961, 68993); (68962, 68994);
  (68963, 68995); (68964, 68996); (68965, 68997); (71840, 71872); (71841, 71873); (71842, 71874); (71843, 71875);
  (71844, 71876); (71845, 71877); (71846, 71878); (71847, 71879); (71848, 71880); (71849, 71881); (71850, 71882);
  (71851, 71883); (71852, 71884); (71853, 71885); (71854, 71886); (71855, 71887); (71856, 71888); (71857, 71889);
  (71858, 71890); (71859, 71891); (71860, 71892); (71861, 71893); (71862, 71894); (71863, 71895); (71864, 71896);
  (71865, 71897); (71866, 71898); (71867, 71899); (71868, 71900); (71869, 71901); (71870, 71902); (71871, 71903);
  (93760, 93792); (93761, 93793); (93762, 93794); (93763, 93795); (93764, 93796); (93765, 93797); (93766, 93798);
  (93767, 93799); (93768, 93800); (93769, 93801); (93770, 93802); (93771, 93803); (93772, 93804); (93773, 93805);
  (93774, 93806); (93775, 93807); (93776, 93808); (93777, 93809); (93778, 93810); (93779, 93811); (93780, 93812);
  (93781, 93813); (93782, 93814); (93783, 93815); (93784, 93816); (93785, 93817); (93786, 93818); (93787, 93819);
  (93788, 93820); (93789, 93821); (93790, 93822); (93791, 93823); (93856, 93883); (93857, 93884); (93858, 93885);
  (93859, 93886); (93860, 93887); (93861, 93888); (93862, 93889); (93863, 93890); (93864, 93891); (93865, 93892);
  (93866, 93893); (93867, 93894); (93868, 93895); (93869, 93896); (93870, 93897); (93871, 93898); (93872, 93899);
  (93873, 93900); (93874, 93901); (93875, 93902); (93876, 93903); (93877, 93904); (93878, 93905); (93879, 93906);
  (93880, 93907); (125184, 125218); (125185, 125219); (125186, 125220); (125187, 125221); (125188, 125222); (125189, 125223);
  (125190, 125224); (125191, 125225); (125192, 125226); (125193, 125227); (125194, 125228); (125195, 125229); (125196, 125230);
  (125197, 125231); (125198, 125232); (125199, 125233); (125200, 125234); (125201, 125235); (125202, 125236); (125203, 125237);
  (125204, 125238); (125205, 125239); (125206, 125240); (125207, 125241); (125208, 125242); (125209, 125243); (125210, 125244);
  (125211, 125245); (125212, 125246); (125213, 125247); (125214, 125248); (125215, 125249); (125216, 125250); (125217, 125251)
].

(** ** UTF-8 *)

Definition between (a b x : Z) : bool := (a <=? x) && (x <=? b).
Definition is_continuation (b : Z) : bool := between 128 191 b.

(** Which second bytes may follow the first byte [b] of three or of four. *)
Definition second_of_three (b x : Z) : bool :=
  (b =? 224) && between 160 191 x || between 225 236 b && between 128 191 x ||
  (b =? 237) && between 128 159 x || between 238 239 b && between 128 191 x.
Definition second_of_four (b x : Z) : bool :=
  (b =? 240) && between 144 191 x || between 241 243 b && between 128 191 x ||
  (b =? 244) && between 128 143 x.

(** The bytes of the character (or of the broken start of one) at the front of
    [b :: l], and whether it is a character; a missing byte reads as zero. *)
Definition utf8_char (b : Z) (l : bytes) : nat * bool :=
  if b <? 128 then (1%nat, true)
  else if between 194 223 b then
    if is_continuation (byte l 0) then (2%nat, true) else (1%nat, false)
  else if between 224 239 b then
    if negb (second_of_three b (byte l 0)) then (1%nat, false)
    else if negb (is_continuation (byte l 1)) then (2%nat, false) else (3%nat, true)
  else if between 240 244 b then
    if negb (second_of_four b (byte l 0)) then (1%nat, false)
    else if negb (is_continuation (byte l 1)) then (2%nat, false)
    else if negb (is_continuation (byte l 2)) then (3%nat, false) else (4%nat, true)
  else (1%nat, false).

(** U+FFFD. *)
Definition REPLACEMENT : bytes := [239; 191; 189].

(** [String::from_utf8_lossy]. *)
Fixpoint lossy_fuel (fuel : nat) (l : bytes) : bytes :=
  match fuel, l with
  | S fuel, b :: rest =>
      let '(n, valid) := utf8_char b rest in
      (if valid then take n l else REPLACEMENT) ++ lossy_fuel fuel (drop n l)
  | _, _ => []
  end.
Definition from_utf8_lossy (l : bytes) : bytes := lossy_fuel (length l) l.

(** What a [String] holds. *)
Fixpoint utf8_fuel (fuel : nat) (l : bytes) : bool :=
  match fuel, l with
  | S fuel, b :: rest =>
      let '(n, valid) := utf8_char b rest in valid && utf8_fuel fuel (drop n l)
  | O, _ :: _ => false
  | _, [] => true
  end.
Definition is_utf8 (l : bytes) : bool := utf8_fuel (length l) l.

(** The code point of a character's bytes: the payload of the first, then six
    bits of each of the others. *)
Definition code_point (c : bytes) : Z :=
  match c with
  | [] => 0
  | b :: rest =>
      let first :=
        match rest with
        | [] => b | [_] => Z.land b 31 | [_; _] => Z.land b 15 | _ => Z.land b 7
        end in
      foldl (λ acc x, Z.lor (Z.shiftl acc 6) (Z.land x 63)) first rest
  end.

(** [str::chars], as code points. *)
Fixpoint chars_fuel (fuel : nat) (l : bytes) : list Z :=
  match fuel, l with
  | S fuel, b :: rest =>
      let n := (utf8_char b rest).1 in code_point (take n l) :: chars_fuel fuel (drop n l)
  | _, _ => []
  end.
Definition chars (l : bytes) : list Z := chars_fuel (length l) l.

(** ** [fold_char] *)

(** [char::from_u32]: no surrogate, and below the end of Unicode. *)
Definition char_from_u32 (x : Z) : option Z :=
  if (x <? 55296) || ((57344 <=? x) && (x <? 1114112)) then Some x else None.

(** [slice::binary_search_by_key] between [low] and [low + len]. *)
Fixpoint bisect (fuel : nat) (table : list (Z * Z)) (code : Z) (low len : nat) : option nat :=
  match fuel with
  | O => None
  | S fuel =>
      match len with
      | O => None
      | _ =>
          let half := (len / 2)%nat in
          match table !! (low + half)%nat with
          | None => None
          | Some (src, _) =>
              if src =? code then Some (low + half)%nat
              else if src <? code then bisect fuel table code (low + half + 1) (len - half - 1)
              else bisect fuel table code low half
          end
      end
  end.
Definition binary_search (table : list (Z * Z)) (code : Z) : option nat :=
  bisect (S (length table)) table code 0 (length table).

Definition fold_char (ch : Z) : Z :=
  if ch <? 128 then if between 65 90 ch then ch + 32 else ch
  else
    match binary_search SIMPLE_FOLDS ch with
    | Some idx =>
        match SIMPLE_FOLDS !! idx with
        | Some (_, dst) => default ch (char_from_u32 dst)
        | None => ch
        end
    | None => ch
    end.

(** The loop over both iterators. *)
Fixpoint eq_folded (l r : list Z) : bool :=
  match l, r with
  | a :: l, b :: r => if fold_char a =? fold_char b then eq_folded l r else false
  | [], [] => true
  | _, _ => false
  end.
Definition eq_unicode_insensitive (l r : bytes) : bool := eq_folded (chars l) (chars r).

(** ** Lossy conversion *)

Lemma lossy_utf8_fuel f l : utf8_fuel f l = true → lossy_fuel f l = l.
Proof.
  revert l. induction f as [|f IH]; intros [|b l]; try done. cbn.
  destruct (utf8_char b l) as [n valid]. intros [-> Hf]%andb_prop. rewrite IH by done. apply (take_drop n (b :: l)).
Qed.

(** A [String] is its own lossy conversion. *)
Lemma from_utf8_lossy_ok l : is_utf8 l = true → from_utf8_lossy l = l.
Proof. apply lossy_utf8_fuel. Qed.

(** ** The search of the table *)

(** The keys ascend. *)
Definition ascending (table : list (Z * Z)) : Prop :=
  ∀ i j x y, (i < j)%nat → table !! i = Some x → table !! j = Some y → x.1 < y.1.

Fixpoint ascends (table : list (Z * Z)) : bool :=
  match table with
  | x :: (y :: _) as table => (x.1 <? y.1) && ascends table
  | _ => true
  end.

Lemma ascends_head x table : ascends (x :: table) = true → Forall (λ y, x.1 < y.1) table.
Proof.
  revert x. induction table as [|y table IH]; intros x H; [apply Forall_nil_2|].
  cbn [ascends] in H. apply andb_prop in H as [Hxy%Z.ltb_lt H]. apply Forall_cons_2; [done|].
  eapply Forall_impl; [by apply IH|]. cbn. lia.
Qed.

Lemma ascends_ok table : ascends table = true → ascending table.
Proof.
  induction table as [|x table IH]; intros H i j a b Hij Ha Hb; [done|].
  pose proof (ascends_head _ _ H) as Hall.
  assert (Htl : ascends table = true). { destruct table; [done|]. by apply andb_prop in H as [_ H]. }
  destruct i as [|i], j as [|j]; try lia; cbn in Ha, Hb.
  - simplify_eq. by eapply Forall_lookup_1 in Hall. - eapply (IH Htl i j); [lia|done|done].
Qed.

(** A search between two bounds finds the key if it is there. *)
Lemma bisect_ok fuel table code low len : ascending table → (len < fuel)%nat → (low + len ≤ length table)%nat →
  match bisect fuel table code low len with
  | Some i => ∃ dst, table !! i = Some (code, dst)
  | None => ∀ i dst, (low ≤ i < low + len)%nat → table !! i ≠ Some (code, dst)
  end.
Proof.
  intros Hasc. revert low len. induction fuel as [|fuel IH]; intros low len Hf Hl; [lia|]. cbn [bisect].
  destruct len as [|len]; [intros; lia|]. remember (S len) as k eqn:Ek. set (half := (k / 2)%nat).
  assert (Hh : (half < k)%nat) by (apply Nat.div_lt; lia).
  destruct (lookup_lt_is_Some_2 table (low + half)) as [[src dst] Hs]; [lia|]. rewrite Hs.
  destruct (Z.eqb_spec src code) as [->|Hne]; [by eexists|].
  destruct (Z.ltb_spec src code) as [Hlt|Hge].
  - specialize (IH (low + half + 1)%nat (k - half - 1)%nat ltac:(lia) ltac:(lia)).
    case_match; [done|]. intros i d Hi Hc. destruct (decide (low + half < i)%nat).
    + by apply (IH i d); [lia|].
    + destruct (decide (i = low + half)%nat) as [->|]; [congruence|].
      pose proof (Hasc i (low + half)%nat _ _ ltac:(lia) Hc Hs) as H'. cbn in H'. lia.
  - specialize (IH low half ltac:(lia) ltac:(lia)).
    case_match; [done|]. intros i d Hi Hc. destruct (decide (i < low + half)%nat).
    + by apply (IH i d); [lia|].
    + destruct (decide (i = low + half)%nat) as [->|]; [congruence|].
      pose proof (Hasc (low + half)%nat i _ _ ltac:(lia) Hs Hc) as H'. cbn in H'. lia.
Qed.

Lemma SIMPLE_FOLDS_ascending : ascending SIMPLE_FOLDS.
Proof. apply ascends_ok. by vm_compute. Qed.

(** The folded form of a character is the table's, if it has one. *)
Lemma fold_char_spec ch : 128 ≤ ch →
  (∃ dst, (ch, dst) ∈ SIMPLE_FOLDS ∧ fold_char ch = default ch (char_from_u32 dst)) ∨
  ((∀ dst, (ch, dst) ∉ SIMPLE_FOLDS) ∧ fold_char ch = ch).
Proof.
  intros Hc. unfold fold_char. rewrite (proj2 (Z.ltb_ge _ _)) by done. unfold binary_search.
  pose proof (bisect_ok (S (length SIMPLE_FOLDS)) SIMPLE_FOLDS ch 0 (length SIMPLE_FOLDS)
    SIMPLE_FOLDS_ascending ltac:(lia) ltac:(lia)) as Hs.
  destruct (bisect _ _ _ _ _) as [i|].
  - destruct Hs as [dst Hi]. rewrite Hi. left. exists dst. split; [by eapply list_elem_of_lookup_2|done].
  - right. split; [|done]. intros dst [i Hi]%list_elem_of_lookup.
    apply (Hs i dst); [|done]. apply lookup_lt_Some in Hi. lia.
Qed.

(** No entry of the table has a folded form that folds further, and every one
    is a character. *)
Definition settled (d : Z) : bool :=
  (if d <? 128 then negb (between 65 90 d) else forallb (λ p, negb (p.1 =? d)) SIMPLE_FOLDS)
  && bool_decide (char_from_u32 d = Some d).

Lemma SIMPLE_FOLDS_settled : Forall (λ p, settled p.2 = true) SIMPLE_FOLDS.
Proof.
  apply Forall_forall. intros p Hp%list_elem_of_In.
  assert (forallb (λ p, settled p.2) SIMPLE_FOLDS = true) as H by by vm_compute.
  by apply (proj1 (forallb_forall _ _) H).
Qed.

Lemma settled_fold d : settled d = true → fold_char d = d.
Proof.
  intros [H1 _]%andb_prop. destruct (Z.ltb_spec d 128) as [Hd|Hd].
  - unfold fold_char. rewrite (proj2 (Z.ltb_lt _ _)) by done. apply negb_true_iff in H1. by rewrite H1.
  - destruct (fold_char_spec d Hd) as [(dst & Hin & _)|[_ ?]]; [|done].
    rewrite forallb_forall in H1. specialize (H1 (d, dst) (proj1 (list_elem_of_In _ _) Hin)).
    cbn in H1. by rewrite Z.eqb_refl in H1.
Qed.

(** Folding a folded character changes nothing. *)
Lemma fold_char_idempotent ch : 0 ≤ ch → fold_char (fold_char ch) = fold_char ch.
Proof.
  intros H0. destruct (Z.ltb_spec ch 128) as [Hc|Hc].
  - unfold fold_char at 2 3. rewrite (proj2 (Z.ltb_lt _ _)) by done.
    unfold between. destruct ((65 <=? ch) && (ch <=? 90)) eqn:E.
    + apply andb_prop in E as [?%Z.leb_le ?%Z.leb_le]. unfold fold_char.
      rewrite (proj2 (Z.ltb_lt _ _)) by lia. unfold between. rewrite (proj2 (Z.leb_gt (ch + 32) 90)) by lia.
      by rewrite andb_false_r.
    + unfold fold_char. rewrite (proj2 (Z.ltb_lt _ _)) by done. unfold between. by rewrite E.
  - destruct (fold_char_spec ch Hc) as [(dst & Hin & ->)|[_ E]]; [|by rewrite !E].
    pose proof (proj1 (Forall_forall _ _) SIMPLE_FOLDS_settled _ Hin) as Hs. cbn in Hs.
    pose proof Hs as [_ Hd%bool_decide_eq_true]%andb_prop. rewrite Hd. by apply settled_fold.
Qed.

(** ** The comparison *)

Lemma eq_folded_spec l r : eq_folded l r = true ↔ fold_char <$> l = fold_char <$> r.
Proof.
  revert r. induction l as [|a l IH]; intros [|b r]; try done. cbn.
  destruct (Z.eqb_spec (fold_char a) (fold_char b)) as [E|E].
  - rewrite IH, E. split; [by intros ->|by intros [= ->]].
  - split; [done|]. by intros [= ? _].
Qed.

(** Two names are the same when their characters fold to the same. *)
Lemma eq_unicode_insensitive_spec l r :
  eq_unicode_insensitive l r = true ↔ fold_char <$> chars l = fold_char <$> chars r.
Proof. apply eq_folded_spec. Qed.

Lemma eq_unicode_insensitive_refl l : eq_unicode_insensitive l l = true.
Proof. by apply eq_unicode_insensitive_spec. Qed.

Lemma eq_unicode_insensitive_sym l r : eq_unicode_insensitive l r = eq_unicode_insensitive r l.
Proof. apply eq_true_iff_eq. rewrite !eq_unicode_insensitive_spec. by split. Qed.
