(* ===== verification/SfsFormat.v ===== *)
(** * The on-disk format of SimpleFS (src/fs/simplefs)

    The superblock, the inode, directory-entry and extended-attribute tables:
    the records of types.rs, the byte accessors of free_fns.rs and the encoders
    and decoders of format_io.rs and superblock.rs.  A table is encoded into a
    zeroed image of its slot and decoded from the blocks read of it.  Counts,
    block numbers and fields are integers; offsets into a buffer are naturals,
    with the source's overflow checks written out. *)

From stdpp Require Import base tactics decidable numbers list.
From Stdlib Require Import ZArith Lia Bool.
From S2P Require Import Prelude Bytes Unicode BlockDevice.

(** [let x = e?;] in a function that returns a [Result]. *)
Definition result_bind {A B} (r : result A) (k : A → result B) : result B :=
  match r with Ok a => k a | Err e => Err e end.
Notation "'let?' x := e 'in' k" := (result_bind e (λ x, k))
  (at level 10, x binder, e at level 100, k at level 200,
   format "'let?'  x  :=  e  'in' '//' k").

(** [o.ok_or(e)]. *)
Definition ok_or {A} (o : option A) (e : Error) : result A :=
  match o with Some a => Ok a | None => Err e end.

(** ** Constants *)

Definition MAGIC : bytes := [65; 68; 65; 70; 83; 49; 0; 0].
Definition PRIMARY_SUPERBLOCK_BLOCK : Z := 0.
Definition SECONDARY_SUPERBLOCK_BLOCK : Z := 1.
Definition SUPERBLOCK_LABEL_OFFSET : nat := 64.
Definition SUPERBLOCK_LABEL_LEN : nat := 32.
Definition SUPERBLOCK_ACTIVE_INODE_TABLE_OFFSET : nat := 24.
Definition SUPERBLOCK_ACTIVE_DIRENT_TABLE_OFFSET : nat := 28.
Definition SUPERBLOCK_DATA_BLOCK_START_OFFSET : nat := 32.
Definition SUPERBLOCK_SHADOW_INODE_TABLE_OFFSET : nat := 36.
Definition SUPERBLOCK_SHADOW_DIRENT_TABLE_OFFSET : nat := 40.
Definition SUPERBLOCK_INODE_TABLE_BLOCKS_OFFSET : nat := 44.
Definition SUPERBLOCK_DIRENT_TABLE_BLOCKS_OFFSET : nat := 48.
Definition SUPERBLOCK_GENERATION_OFFSET : nat := 52.
Definition SUPERBLOCK_CHECKSUM_OFFSET : nat := 56.
Definition SUPERBLOCK_PENDING_COMMIT_OFFSET : nat := 96.
Definition SUPERBLOCK_ACTIVE_XATTR_TABLE_OFFSET : nat := 100.
Definition SUPERBLOCK_SHADOW_XATTR_TABLE_OFFSET : nat := 104.
Definition SUPERBLOCK_XATTR_TABLE_BLOCKS_OFFSET : nat := 108.
Definition SUPERBLOCK_XATTR_COUNT_OFFSET : nat := 112.
Definition INODE_SIZE : nat := 32.
Definition DIRENT_SIZE : nat := 64.
Definition INODE_FLAG_DELETED : Z := 1.
Definition INODE_FLAG_COMPRESSED : Z := 2.
Definition INODE_FLAG_DEDUPED : Z := 4.
Definition XATTR_NAME_MAX : nat := 64.
Definition XATTR_VALUE_MAX : nat := 256.
Definition XATTR_RECORD_SIZE : nat := 336.

(** ** Records *)

Inductive NodeKind := Directory | File | Device | Symlink.

Inductive SimpleFsFormatVersion :=
| V2
| V3PersistentSecurityDescriptors
| V4PersistentSecurityDescriptorsWithXattrs.

Record PersistentSecurityDescriptorLayout := mkLayout {
  mode_offset : nat; owner_uid_offset : nat; owner_gid_offset : nat;
}.

Record OnDiskPersistentSecurityDescriptor := mkSecurity { owner_uid : Z; owner_gid : Z; mode : Z }.

Record OnDiskInode := mkInode {
  i_kind : NodeKind; deleted : bool; entry_start : Z; entry_count : Z; data_block : Z;
  i_block_count : Z; size : Z; persistent_security : option OnDiskPersistentSecurityDescriptor;
  data_checksum : Z; compressed : bool; deduped : bool;
}.

Record OnDiskDirEntry := mkDirent { inode_index : Z; d_kind : NodeKind; name : bytes }.

Record XattrRecord := mkXattr {
  x_inode_index : Z; name_len : Z; value_len : Z; status : Z; x_name : bytes; x_value : bytes;
}.

Record SuperblockRecord := mkSuper {
  inode_count : Z; dirent_count : Z; active_inode_table_block : Z; active_dirent_table_block : Z;
  shadow_inode_table_block : Z; shadow_dirent_table_block : Z; inode_table_blocks : Z;
  dirent_table_blocks : Z; data_block_start : Z; sb_generation : Z; pending_commit : Z;
  active_xattr_table_block : Z; shadow_xattr_table_block : Z; xattr_table_blocks : Z; xattr_count : Z;
}.

Record ParsedSuperblock := mkParsed { format_version : SimpleFsFormatVersion; record : SuperblockRecord }.

#[global] Instance NodeKind_eq_dec : EqDecision NodeKind.
Proof. solve_decision. Defined.
#[global] Instance SimpleFsFormatVersion_eq_dec : EqDecision SimpleFsFormatVersion.
Proof. solve_decision. Defined.
#[global] Instance OnDiskPersistentSecurityDescriptor_eq_dec : EqDecision OnDiskPersistentSecurityDescriptor.
Proof. solve_decision. Defined.
#[global] Instance OnDiskInode_eq_dec : EqDecision OnDiskInode.
Proof. solve_decision. Defined.
#[global] Instance OnDiskDirEntry_eq_dec : EqDecision OnDiskDirEntry.
Proof. solve_decision. Defined.
#[global] Instance XattrRecord_eq_dec : EqDecision XattrRecord.
Proof. solve_decision. Defined.
#[global] Instance SuperblockRecord_eq_dec : EqDecision SuperblockRecord.
Proof. solve_decision. Defined.

(** ** [impl SimpleFsFormatVersion]: the offsets of the fields are the same in
    every version *)

Definition on_disk_value (v : SimpleFsFormatVersion) : Z :=
  match v with
  | V2 => 2
  | V3PersistentSecurityDescriptors => 3
  | V4PersistentSecurityDescriptorsWithXattrs => 4
  end.

Definition persistent_security_descriptor_layout (v : SimpleFsFormatVersion)
    : option PersistentSecurityDescriptorLayout :=
  match v with V2 => None | _ => Some (mkLayout 2 24 28) end.

Definition has_layout (v : SimpleFsFormatVersion) : bool :=
  match persistent_security_descriptor_layout v with Some _ => true | None => false end.

Definition supports_runtime_mount (v : SimpleFsFormatVersion) (device_read_only : bool) : bool :=
  match v with V2 => true | _ => true end.

Definition ensure_runtime_mount_supported (v : SimpleFsFormatVersion) (device_read_only : bool) : result unit :=
  if supports_runtime_mount v device_read_only then Ok () else Err Unsupported.

Definition supports_persistent_xattrs (v : SimpleFsFormatVersion) : bool :=
  match v with V4PersistentSecurityDescriptorsWithXattrs => true | _ => false end.

Definition inode_size (_ : SimpleFsFormatVersion) : nat := INODE_SIZE.
Definition dirent_size (_ : SimpleFsFormatVersion) : nat := DIRENT_SIZE.
Definition dirent_name_max_len (v : SimpleFsFormatVersion) : nat := dirent_size v - 8.

Definition inode_capacity (v : SimpleFsFormatVersion) (table_blocks : Z) : Z :=
  table_blocks * Z.of_nat BLOCK_SIZE / Z.of_nat (inode_size v).
Definition dirent_capacity (v : SimpleFsFormatVersion) (table_blocks : Z) : Z :=
  table_blocks * Z.of_nat BLOCK_SIZE / Z.of_nat (dirent_size v).
Definition xattr_capacity (_ : SimpleFsFormatVersion) (table_blocks : Z) : Z :=
  table_blocks * Z.of_nat BLOCK_SIZE / Z.of_nat XATTR_RECORD_SIZE.

Definition table_bytes (entry_size : nat) (count : Z) : result Z :=
  ok_or (checked_mul count (Z.of_nat entry_size)) InvalidArgument.
Definition inode_table_bytes (v : SimpleFsFormatVersion) : Z → result Z := table_bytes (inode_size v).
Definition dirent_table_bytes (v : SimpleFsFormatVersion) : Z → result Z := table_bytes (dirent_size v).
Definition xattr_table_bytes (_ : SimpleFsFormatVersion) : Z → result Z := table_bytes XATTR_RECORD_SIZE.

(** [table_block * BLOCK_SIZE + index * entry_size], each step checked. *)
Definition entry_offset (entry_size : nat) (table_block : Z) (index : nat) : result nat :=
  let? base := ok_or (checked_mul table_block (Z.of_nat BLOCK_SIZE)) InvalidArgument in
  let? offset := ok_or (checked_mul (Z.of_nat index) (Z.of_nat entry_size)) InvalidArgument in
  let? sum := ok_or (checked_add base offset) InvalidArgument in
  Ok (Z.to_nat sum).
Definition inode_table_entry_offset (v : SimpleFsFormatVersion) : Z → nat → result nat :=
  entry_offset (inode_size v).
Definition dirent_table_entry_offset (v : SimpleFsFormatVersion) : Z → nat → result nat :=
  entry_offset (dirent_size v).
Definition xattr_table_entry_offset (_ : SimpleFsFormatVersion) : Z → nat → result nat :=
  entry_offset XATTR_RECORD_SIZE.

Definition inode_kind_offset : nat := 0.
Definition inode_flags_offset : nat := 1.
Definition inode_entry_start_offset : nat := 4.
Definition inode_entry_count_offset : nat := 8.
Definition inode_data_block_offset : nat := 12.
Definition inode_block_count_offset : nat := 16.
Definition inode_size_field_offset : nat := 20.
Definition data_checksum_offset (v : SimpleFsFormatVersion) : option nat :=
  match v with V2 => Some 28%nat | _ => None end.
Definition dirent_inode_index_offset : nat := 0.
Definition dirent_kind_offset : nat := 4.
Definition dirent_name_len_offset : nat := 5.
Definition dirent_name_offset : nat := 8.

Definition parse_supported (raw : Z) : result SimpleFsFormatVersion :=
  if raw =? on_disk_value V2 then Ok V2
  else if raw =? on_disk_value V3PersistentSecurityDescriptors then Ok V3PersistentSecurityDescriptors
  else if raw =? on_disk_value V4PersistentSecurityDescriptorsWithXattrs
  then Ok V4PersistentSecurityDescriptorsWithXattrs
  else Err Unsupported.

(** ** free_fns.rs *)

Definition encode_kind (k : NodeKind) : Z :=
  match k with Directory => 1 | File => 2 | Device => 3 | Symlink => 4 end.

Definition decode_kind (value : Z) : result NodeKind :=
  if value =? 1 then Ok Directory else if value =? 2 then Ok File
  else if value =? 3 then Ok Device else if value =? 4 then Ok Symlink
  else Err InvalidArgument.

(** [bytes.get(from..to)]; [from <= to] at every use. *)
Definition get_range (data : bytes) (from to : nat) : option bytes :=
  if (to <=? length data)%nat then Some (slice data from to) else None.

Definition read_uint (n : nat) (data : bytes) (offset : nat) : result Z :=
  let? end_ := ok_or (checked_add (Z.of_nat offset) (Z.of_nat n)) InvalidArgument in
  let? value := ok_or (get_range data offset (Z.to_nat end_)) InvalidArgument in
  Ok (from_le value).
Definition read_u32 : bytes → nat → result Z := read_uint 4.
Definition read_u16 : bytes → nat → result Z := read_uint 2.
Definition read_u8 (data : bytes) (offset : nat) : result Z := ok_or (data !! offset) InvalidArgument.

(** The writes of the encoders: a slice copied into the image, which panics out
    of range; a list of them is performed in order. *)
Fixpoint write_all (image : bytes) (ws : list (nat * bytes)) : outcome bytes :=
  match ws with
  | [] => Ret image
  | (offset, data) :: ws => image ← copy_at image offset data; write_all image ws
  end.

Definition write_u32 (offset : nat) (x : Z) : nat * bytes := (offset, to_le 4 x).
Definition write_u16 (offset : nat) (x : Z) : nat * bytes := (offset, to_le 2 x).
Definition write_u8 (offset : nat) (x : Z) : nat * bytes := (offset, [x]).

Definition blocks_for (byte_len : Z) : Z :=
  if byte_len =? 0 then 0 else div_ceil byte_len (Z.of_nat BLOCK_SIZE).

(** ** The superblock *)

(** [for (index, byte) in block.iter().enumerate()]. *)
Fixpoint checksum_from (hash : Z) (index : nat) (block : bytes) : Z :=
  match block with
  | [] => hash
  | b :: block =>
      let hash :=
        if (SUPERBLOCK_CHECKSUM_OFFSET <=? index)%nat && (index <? SUPERBLOCK_CHECKSUM_OFFSET + 4)%nat
        then hash else wrap32 (Z.lxor hash b * 16777619) in
      checksum_from hash (S index) block
  end.
Definition superblock_checksum (block : bytes) : Z := checksum_from 2166136261 0 block.

(** The fields [write_superblock] writes before the label, in its order. *)
Definition superblock_fields (v : SimpleFsFormatVersion) (r : SuperblockRecord) : list (nat * bytes) :=
  [ (0%nat, MAGIC);
    write_u32 8 (on_disk_value v);
    write_u32 12 (Z.of_nat BLOCK_SIZE);
    write_u32 16 (inode_count r);
    write_u32 20 (dirent_count r);
    write_u32 SUPERBLOCK_ACTIVE_INODE_TABLE_OFFSET (active_inode_table_block r);
    write_u32 SUPERBLOCK_ACTIVE_DIRENT_TABLE_OFFSET (active_dirent_table_block r);
    write_u32 SUPERBLOCK_DATA_BLOCK_START_OFFSET (data_block_start r);
    write_u32 SUPERBLOCK_SHADOW_INODE_TABLE_OFFSET (shadow_inode_table_block r);
    write_u32 SUPERBLOCK_SHADOW_DIRENT_TABLE_OFFSET (shadow_dirent_table_block r);
    write_u32 SUPERBLOCK_INODE_TABLE_BLOCKS_OFFSET (inode_table_blocks r);
    write_u32 SUPERBLOCK_DIRENT_TABLE_BLOCKS_OFFSET (dirent_table_blocks r);
    write_u32 SUPERBLOCK_ACTIVE_XATTR_TABLE_OFFSET (active_xattr_table_block r);
    write_u32 SUPERBLOCK_SHADOW_XATTR_TABLE_OFFSET (shadow_xattr_table_block r);
    write_u32 SUPERBLOCK_XATTR_TABLE_BLOCKS_OFFSET (xattr_table_blocks r);
    write_u32 SUPERBLOCK_XATTR_COUNT_OFFSET (xattr_count r);
    write_u32 SUPERBLOCK_GENERATION_OFFSET (sb_generation r) ] ++
  (if has_layout v then [write_u32 SUPERBLOCK_PENDING_COMMIT_OFFSET (pending_commit r)] else []).

(** Of a buffer of one block, which it fills with zeroes first. *)
Definition write_superblock (label : bytes) (v : SimpleFsFormatVersion) (r : SuperblockRecord) : outcome bytes :=
  let label_len := Nat.min (length label) SUPERBLOCK_LABEL_LEN in
  block ← write_all (replicate BLOCK_SIZE 0)
    (superblock_fields v r ++ [(SUPERBLOCK_LABEL_OFFSET, take label_len label)]);
  write_all block [write_u32 SUPERBLOCK_CHECKSUM_OFFSET (superblock_checksum block)].

(** The bytes before the first zero: [position(..).unwrap_or(len)]. *)
Fixpoint until_nul (l : bytes) : bytes :=
  match l with
  | [] => []
  | b :: l => if b =? 0 then [] else b :: until_nul l
  end.

Definition parse_label (block : bytes) : bytes :=
  from_utf8_lossy (until_nul
    (slice block SUPERBLOCK_LABEL_OFFSET (SUPERBLOCK_LABEL_OFFSET + SUPERBLOCK_LABEL_LEN))).

Definition validate_superblock_record (r : SuperblockRecord) : result unit :=
  if inode_table_blocks r =? 0 then Err InvalidArgument else
  let? active_inode_end := ok_or (checked_add (active_inode_table_block r) (inode_table_blocks r)) InvalidArgument in
  let? active_dirent_end := ok_or (checked_add (active_dirent_table_block r) (dirent_table_blocks r)) InvalidArgument in
  let? shadow_inode_end := ok_or (checked_add (shadow_inode_table_block r) (inode_table_blocks r)) InvalidArgument in
  let? shadow_dirent_end := ok_or (checked_add (shadow_dirent_table_block r) (dirent_table_blocks r)) InvalidArgument in
  if (active_inode_table_block r <=? SECONDARY_SUPERBLOCK_BLOCK)
     || negb (active_dirent_table_block r =? active_inode_end)
     || (shadow_inode_table_block r <=? SECONDARY_SUPERBLOCK_BLOCK)
     || negb (shadow_dirent_table_block r =? shadow_inode_end)
  then Err InvalidArgument
  else if (active_dirent_end <=? active_inode_table_block r) || (shadow_dirent_end <=? shadow_inode_table_block r)
  then Err InvalidArgument
  else if (active_inode_table_block r <? shadow_dirent_end) && (shadow_inode_table_block r <? active_dirent_end)
  then Err InvalidArgument
  else if (data_block_start r <? active_dirent_end) || (data_block_start r <? shadow_dirent_end)
  then Err InvalidArgument
  else Ok ().

(** [superblock[..8]] is of a buffer of one block. *)
Definition parse_superblock (block : bytes) : result (bytes * ParsedSuperblock) :=
  if negb (bool_decide (slice block 0 8 = MAGIC)) then Err InvalidArgument else
  let? raw := read_u32 block 8 in
  let? v := parse_supported raw in
  let? block_size := read_u32 block 12 in
  if negb (block_size =? Z.of_nat BLOCK_SIZE) then Err Unsupported else
  let? stored_checksum := read_u32 block SUPERBLOCK_CHECKSUM_OFFSET in
  if negb (stored_checksum =? superblock_checksum block) then Err InvalidArgument else
  let? inode_count := read_u32 block 16 in
  let? dirent_count := read_u32 block 20 in
  let? active_inode := read_u32 block SUPERBLOCK_ACTIVE_INODE_TABLE_OFFSET in
  let? active_dirent := read_u32 block SUPERBLOCK_ACTIVE_DIRENT_TABLE_OFFSET in
  let? data_start := read_u32 block SUPERBLOCK_DATA_BLOCK_START_OFFSET in
  let? shadow_inode := read_u32 block SUPERBLOCK_SHADOW_INODE_TABLE_OFFSET in
  let? shadow_dirent := read_u32 block SUPERBLOCK_SHADOW_DIRENT_TABLE_OFFSET in
  let? inode_blocks := read_u32 block SUPERBLOCK_INODE_TABLE_BLOCKS_OFFSET in
  let? dirent_blocks := read_u32 block SUPERBLOCK_DIRENT_TABLE_BLOCKS_OFFSET in
  let? gen := read_u32 block SUPERBLOCK_GENERATION_OFFSET in
  let? pending := (if has_layout v then read_u32 block SUPERBLOCK_PENDING_COMMIT_OFFSET else Ok 0) in
  let? active_xattr := read_u32 block SUPERBLOCK_ACTIVE_XATTR_TABLE_OFFSET in
  let? shadow_xattr := read_u32 block SUPERBLOCK_SHADOW_XATTR_TABLE_OFFSET in
  let? xattr_blocks := read_u32 block SUPERBLOCK_XATTR_TABLE_BLOCKS_OFFSET in
  let? xattr_count := read_u32 block SUPERBLOCK_XATTR_COUNT_OFFSET in
  let r := mkSuper inode_count dirent_count active_inode active_dirent shadow_inode shadow_dirent
    inode_blocks dirent_blocks data_start gen pending active_xattr shadow_xattr xattr_blocks xattr_count in
  let? _ := validate_superblock_record r in
  Ok (parse_label block, mkParsed v r).

(** ** The inode table *)

Definition read_inode_persistent_security_descriptor (data : bytes) (v : SimpleFsFormatVersion) (base : nat)
    : result (option OnDiskPersistentSecurityDescriptor) :=
  match persistent_security_descriptor_layout v with
  | None => Ok None
  | Some layout =>
      let? uid := read_u32 data (base + owner_uid_offset layout) in
      let? gid := read_u32 data (base + owner_gid_offset layout) in
      let? mode := read_u16 data (base + mode_offset layout) in
      Ok (Some (mkSecurity uid gid mode))
  end.

Definition has_flag (flags bit : Z) : bool := negb (Z.land flags bit =? 0).

(** One round of the loop of [decode_inodes]. *)
Definition decode_inode (v : SimpleFsFormatVersion) (buffer : bytes) (index : nat) : result OnDiskInode :=
  let? base := inode_table_entry_offset v 0 index in
  let? kind := read_u8 buffer (base + inode_kind_offset) in
  let? flags := read_u8 buffer (base + inode_flags_offset) in
  let? checksum :=
    match data_checksum_offset v with
    | Some offset => read_u32 buffer (base + offset)
    | None => Ok 0
    end in
  let? kind := decode_kind kind in
  let? start := read_u32 buffer (base + inode_entry_start_offset) in
  let? count := read_u32 buffer (base + inode_entry_count_offset) in
  let? data := read_u32 buffer (base + inode_data_block_offset) in
  let? blocks := read_u32 buffer (base + inode_block_count_offset) in
  let? size := read_u32 buffer (base + inode_size_field_offset) in
  let? security := read_inode_persistent_security_descriptor buffer v base in
  Ok (mkInode kind (has_flag flags INODE_FLAG_DELETED) start count data blocks size security checksum
    (has_flag flags INODE_FLAG_COMPRESSED) (has_flag flags INODE_FLAG_DEDUPED)).

(** [for index in 0..count], collected or cut short by the first error. *)
Fixpoint collect {A} (f : nat → result A) (indices : list nat) : result (list A) :=
  match indices with
  | [] => Ok []
  | i :: indices => let? a := f i in let? l := collect f indices in Ok (a :: l)
  end.

Definition decode_inodes (v : SimpleFsFormatVersion) (buffer : bytes) (count : Z) : result (list OnDiskInode) :=
  collect (decode_inode v buffer) (seq 0 (Z.to_nat count)).

Definition inode_flags (i : OnDiskInode) : Z :=
  let flags := if deleted i then INODE_FLAG_DELETED else 0 in
  let flags := if compressed i then Z.lor flags INODE_FLAG_COMPRESSED else flags in
  if deduped i then Z.lor flags INODE_FLAG_DEDUPED else flags.

(** The writes of [write_inode_persistent_security_descriptor] into the record
    at [base]. *)
Definition security_fields (base : nat) (v : SimpleFsFormatVersion)
    (s : option OnDiskPersistentSecurityDescriptor) : list (nat * bytes) :=
  match persistent_security_descriptor_layout v with
  | None => []
  | Some layout =>
      [ write_u16 (base + mode_offset layout) (default 0 (mode <$> s));
        write_u32 (base + owner_uid_offset layout) (default 0 (owner_uid <$> s));
        write_u32 (base + owner_gid_offset layout) (default 0 (owner_gid <$> s)) ]
  end.

Definition inode_fields (base : nat) (i : OnDiskInode) : list (nat * bytes) :=
  [ write_u8 (base + inode_kind_offset) (encode_kind (i_kind i));
    write_u8 (base + inode_flags_offset) (inode_flags i);
    write_u32 (base + inode_entry_start_offset) (entry_start i);
    write_u32 (base + inode_entry_count_offset) (entry_count i);
    write_u32 (base + inode_data_block_offset) (data_block i);
    write_u32 (base + inode_block_count_offset) (i_block_count i);
    write_u32 (base + inode_size_field_offset) (size i) ].

Definition checksum_fields (base : nat) (v : SimpleFsFormatVersion) (i : OnDiskInode) : list (nat * bytes) :=
  match data_checksum_offset v with
  | Some offset => [write_u32 (base + offset) (data_checksum i)]
  | None => []
  end.

(** [for (index, entry) in entries.iter().enumerate()] of a table's encoder. *)
Fixpoint write_table {A} (write : bytes → nat → A → outcome (result bytes)) (image : bytes) (index : nat)
    (l : list A) : outcome (result bytes) :=
  match l with
  | [] => Ret (Ok image)
  | a :: l =>
      r ← write image index a;
      match r with
      | Ok image => write_table write image (S index) l
      | Err e => Ret (Err e)
      end
  end.

Definition write_runtime_inode (v : SimpleFsFormatVersion) (table_block : Z) (image : bytes) (index : nat)
    (i : OnDiskInode) : outcome (result bytes) :=
  match inode_table_entry_offset v table_block index with
  | Err e => Ret (Err e)
  | Ok base =>
      image ← write_all image (inode_fields base i);
      match checked_add (Z.of_nat base) (Z.of_nat (inode_size v)) with
      | None => Ret (Err InvalidArgument)
      | Some inode_end =>
          if (Z.to_nat inode_end <=? length image)%nat then
            image ← write_all image (security_fields base v (persistent_security i) ++ checksum_fields base v i);
            Ret (Ok image)
          else Ret (Err InvalidArgument)
      end
  end.

Definition write_runtime_inode_table (image : bytes) (v : SimpleFsFormatVersion) (table_block : Z)
    (inodes : list OnDiskInode) : outcome (result bytes) :=
  write_table (write_runtime_inode v table_block) image 0 inodes.

(** ** The directory-entry table *)

Definition decode_dir_entry (v : SimpleFsFormatVersion) (buffer : bytes) (index : nat) : result OnDiskDirEntry :=
  let? base := dirent_table_entry_offset v 0 index in
  let? inode := read_u32 buffer (base + dirent_inode_index_offset) in
  let? kind := read_u8 buffer (base + dirent_kind_offset) in
  let? kind := decode_kind kind in
  let? name_len := read_u8 buffer (base + dirent_name_len_offset) in
  if Z.of_nat (dirent_name_max_len v) <? name_len then Err InvalidArgument else
  let name_start := (base + dirent_name_offset)%nat in
  let? name_end := ok_or (checked_add (Z.of_nat name_start) name_len) InvalidArgument in
  let? name := ok_or (get_range buffer name_start (Z.to_nat name_end)) InvalidArgument in
  Ok (mkDirent inode kind (from_utf8_lossy name)).

Definition decode_dir_entries (v : SimpleFsFormatVersion) (buffer : bytes) (count : Z) : result (list OnDiskDirEntry) :=
  collect (decode_dir_entry v buffer) (seq 0 (Z.to_nat count)).

Definition dirent_fields (base : nat) (e : OnDiskDirEntry) : list (nat * bytes) :=
  [ write_u32 (base + dirent_inode_index_offset) (inode_index e);
    write_u8 (base + dirent_kind_offset) (encode_kind (d_kind e));
    write_u8 (base + dirent_name_len_offset) (wrap8 (Z.of_nat (length (name e))));
    ((base + dirent_name_offset)%nat, name e) ].

Definition write_runtime_dir_entry (v : SimpleFsFormatVersion) (table_block : Z) (image : bytes) (index : nat)
    (e : OnDiskDirEntry) : outcome (result bytes) :=
  match dirent_table_entry_offset v table_block index with
  | Err er => Ret (Err er)
  | Ok base => image ← write_all image (dirent_fields base e); Ret (Ok image)
  end.

Definition write_runtime_dir_entry_table (image : bytes) (v : SimpleFsFormatVersion) (table_block : Z)
    (dir_entries : list OnDiskDirEntry) : outcome (result bytes) :=
  write_table (write_runtime_dir_entry v table_block) image 0 dir_entries.

(** ** The extended-attribute table *)

Definition xattr_fields (base : nat) (x : XattrRecord) : list (nat * bytes) :=
  [ write_u32 base (x_inode_index x);
    write_u32 (base + 4) (name_len x);
    write_u32 (base + 8) (value_len x);
    write_u32 (base + 12) (status x);
    ((base + 16)%nat, x_name x);
    ((base + 16 + XATTR_NAME_MAX)%nat, x_value x) ].

(** [copy_from_slice] of the name and value arrays, whose lengths are fixed. *)
Definition write_runtime_xattr (v : SimpleFsFormatVersion) (table_block : Z) (image : bytes) (index : nat)
    (x : XattrRecord) : outcome (result bytes) :=
  match xattr_table_entry_offset v table_block index with
  | Err er => Ret (Err er)
  | Ok base =>
      match checked_add (Z.of_nat base) (Z.of_nat XATTR_RECORD_SIZE) with
      | None => Ret (Err InvalidArgument)
      | Some end_ =>
          if (Z.to_nat end_ <=? length image)%nat
          then image ← write_all image (xattr_fields base x); Ret (Ok image)
          else Ret (Err InvalidArgument)
      end
  end.

Definition write_runtime_xattr_table (image : bytes) (v : SimpleFsFormatVersion) (table_block : Z)
    (xattrs : list XattrRecord) : outcome (result bytes) :=
  write_table (write_runtime_xattr v table_block) image 0 xattrs.

(** The loop of [read_xattr_records], up to the first slot of zeroes. *)
Fixpoint parse_xattrs (v : SimpleFsFormatVersion) (buffer : bytes) (indices : list nat) : result (list XattrRecord) :=
  match indices with
  | [] => Ok []
  | index :: indices =>
      let? base := xattr_table_entry_offset v 0 index in
      let? end_ := ok_or (checked_add (Z.of_nat base) (Z.of_nat XATTR_RECORD_SIZE)) InvalidArgument in
      let? slot := ok_or (get_range buffer base (Z.to_nat end_)) InvalidArgument in
      if forallb (λ b, b =? 0) slot then Ok [] else
      let? inode := read_u32 slot 0 in
      let? name_len := read_u32 slot 4 in
      let? value_len := read_u32 slot 8 in
      let? status := read_u32 slot 12 in
      let x := mkXattr inode name_len value_len status (slice slot 16 (16 + XATTR_NAME_MAX))
        (slice slot (16 + XATTR_NAME_MAX) (16 + XATTR_NAME_MAX + XATTR_VALUE_MAX)) in
      let? l := parse_xattrs v buffer indices in
      Ok (x :: l)
  end.
