(* ===== verification/SfsFormatTheorems.v ===== *)
(** * The on-disk format reads back what it writes

    A list of writes that do not overlap leaves every one of them readable; from
    this the superblock and the three tables of SimpleFS decode to what was
    encoded, up to the fields the format version does not store. *)

From stdpp Require Import base tactics decidable numbers list.
From Stdlib Require Import ZArith Lia Bool.
From S2P Require Import Prelude Bytes Patch Unicode BlockDevice SfsFormat.

(** ** Lists of writes *)

Definition write_list (image : bytes) (ws : list (nat * bytes)) : bytes :=
  foldl (λ image w, patch image w.1 w.2) image ws.

(** The write lies in [from..to]. *)
Definition lies_in (from to : nat) (w : nat * bytes) : Prop := (from ≤ w.1 ∧ w.1 + length w.2 ≤ to)%nat.

Definition apart (w w' : nat * bytes) : Prop :=
  (w.1 + length w.2 ≤ w'.1 ∨ w'.1 + length w'.2 ≤ w.1)%nat.

Fixpoint separate (ws : list (nat * bytes)) : Prop :=
  match ws with
  | [] => True
  | w :: ws => Forall (apart w) ws ∧ separate ws
  end.

(** The buffer reads back the writes. *)
Definition holds (buffer : bytes) (ws : list (nat * bytes)) : Prop :=
  Forall (λ w, (w.1 + length w.2 ≤ length buffer)%nat ∧ slice buffer w.1 (w.1 + length w.2) = w.2) ws.

Lemma length_write_list image ws : Forall (lies_in 0 (length image)) ws →
  length (write_list image ws) = length image.
Proof.
  revert image. induction ws as [|w ws IH]; [done|]. intros image [Hw Hws]%Forall_cons. destruct Hw as [_ Hw].
  cbn. assert (L : length (patch image w.1 w.2) = length image) by by apply length_patch.
  etrans; [apply IH; by rewrite L|done].
Qed.

Lemma write_all_list image ws : Forall (lies_in 0 (length image)) ws →
  write_all image ws = Ret (write_list image ws).
Proof.
  revert image. induction ws as [|[o d] ws IH]; [done|]. intros image [[_ Hw] Hws]%Forall_cons. cbn in *.
  rewrite copy_at_patch by done. etrans; [apply (IH (patch image o d))|done]. by rewrite length_patch.
Qed.

Lemma write_list_app image ws ws' : write_list image (ws ++ ws') = write_list (write_list image ws) ws'.
Proof. apply foldl_app. Qed.

(** What the writes miss is as it was. *)
Lemma slice_write_list image ws a b : Forall (lies_in 0 (length image)) ws →
  Forall (λ w, (b ≤ w.1 ∨ w.1 + length w.2 ≤ a)%nat) ws →
  slice (write_list image ws) a b = slice image a b.
Proof.
  revert image. induction ws as [|w ws IH]; [done|].
  intros image [[_ Hw] Hws]%Forall_cons [Hm Hms]%Forall_cons. cbn.
  etrans; [apply IH; [by rewrite length_patch|done]|]. by apply slice_patch_out.
Qed.

Lemma holds_write_list image ws : Forall (lies_in 0 (length image)) ws → separate ws →
  holds (write_list image ws) ws.
Proof.
  revert image. induction ws as [|w ws IH]; intros image Hin Hsep; [by apply Forall_nil|].
  pose proof (length_write_list _ _ Hin) as L. apply Forall_cons in Hin as [[_ Hw] Hws]. destruct Hsep as [Hap Hsep].
  assert (Lp : length (patch image w.1 w.2) = length image) by by apply length_patch.
  apply Forall_cons. split; [split; [by rewrite L|]|].
  - cbn. etrans; [apply slice_write_list; [by rewrite Lp|]|by apply slice_patch_in].
    eapply Forall_impl; [exact Hap|]. unfold apart. cbn. lia.
  - apply (IH (patch image w.1 w.2)); [by rewrite Lp|done].
Qed.

Lemma write_list_bytes image ws : is_bytes image → Forall (λ w, is_bytes w.2) ws → is_bytes (write_list image ws).
Proof.
  revert image. induction ws as [|w ws IH]; [done|]. intros image Hi [Hw Hws]%Forall_cons.
  apply IH; [by apply patch_bytes|done].
Qed.

Lemma holds_app buffer ws ws' : holds buffer (ws ++ ws') ↔ holds buffer ws ∧ holds buffer ws'.
Proof. apply Forall_app. Qed.

(** Seen through a longer buffer's prefix. *)
Lemma holds_take buffer n ws : holds buffer ws → Forall (lies_in 0 n) ws → holds (take n buffer) ws.
Proof.
  intros Hh Hn. unfold holds in *. rewrite Forall_forall in *. intros w Hw.
  destruct (Hh w Hw) as [Hl Hs], (Hn w Hw) as [_ Hb]. split; [rewrite length_take; lia|].
  by rewrite slice_take.
Qed.

(** ** Reading fields back *)

Definition u32_ok (x : Z) : Prop := 0 ≤ x < 2 ^ 32.
Definition u16_ok (x : Z) : Prop := 0 ≤ x < 2 ^ 16.

#[global] Instance u32_ok_dec x : Decision (u32_ok x).
Proof. unfold u32_ok. apply _. Defined.
#[global] Instance u16_ok_dec x : Decision (u16_ok x).
Proof. unfold u16_ok. apply _. Defined.

(** Buffers are shorter than the address space. *)
Definition addressable (buffer : bytes) : Prop := Z.of_nat (length buffer) ≤ u64_max.

Lemma read_uint_ok n buffer o x : addressable buffer → holds buffer [(o, to_le n x)] →
  0 ≤ x < 256 ^ Z.of_nat n → read_uint n buffer o = Ok x.
Proof.
  unfold addressable. intros Ha [[Hl Hs] _]%Forall_cons Hx. cbn [fst snd write_u8 write_u32] in Hl, Hs. rewrite length_to_le in Hl, Hs.
  unfold read_uint, checked_add, get_range. rewrite (proj2 (Z.leb_le _ _)) by lia. cbn.
  replace (Z.to_nat (Z.of_nat o + Z.of_nat n)) with (o + n)%nat by lia.
  rewrite (proj2 (Nat.leb_le _ _)) by lia. cbn. by rewrite Hs, from_le_to_le, Z.mod_small.
Qed.

Lemma read_u32_ok buffer o x : addressable buffer → holds buffer [write_u32 o x] → u32_ok x →
  read_u32 buffer o = Ok x.
Proof. intros. by apply read_uint_ok. Qed.

Lemma read_u16_ok buffer o x : addressable buffer → holds buffer [write_u16 o x] → u16_ok x →
  read_u16 buffer o = Ok x.
Proof. intros. by apply read_uint_ok. Qed.

Lemma read_u8_ok buffer o x : holds buffer [write_u8 o x] → read_u8 buffer o = Ok x.
Proof.
  intros [[Hl Hs] _]%Forall_cons. cbn [fst snd write_u8 write_u32] in Hl, Hs. unfold read_u8.
  pose proof (slice_lookup buffer o (o + length [x]) 0) as E. rewrite Hs in E.
  rewrite decide_True, Nat.add_0_r in E by (cbn; lia). by rewrite <- E.
Qed.

Lemma holds_lookup buffer ws i w : holds buffer ws → ws !! i = Some w → holds buffer [w].
Proof. intros Hh Hi. apply Forall_singleton. by eapply Forall_lookup_1 in Hh. Qed.

(** Reads the field that the [i]th write of [H] left. *)
Ltac read_field lem H i :=
  erewrite lem; [ |assumption|by apply (holds_lookup _ _ i _ H)|assumption]; cbn [result_bind].
Ltac read_byte H i :=
  erewrite read_u8_ok; [ |by apply (holds_lookup _ _ i _ H)]; cbn [result_bind].

Lemma decode_encode_kind k : decode_kind (encode_kind k) = Ok k.
Proof. by destruct k. Qed.

(** ** Tables *)

Lemma entry_offset_ok sz index n : (index * sz ≤ n)%nat → Z.of_nat n ≤ u64_max →
  entry_offset sz 0 index = Ok (index * sz)%nat.
Proof.
  intros Hi Hn. unfold entry_offset, checked_mul, checked_add.
  rewrite (proj2 (Z.leb_le _ _)) by (cbn; lia). cbn [ok_or result_bind].
  rewrite (proj2 (Z.leb_le _ _)) by lia. cbn [ok_or result_bind].
  rewrite (proj2 (Z.leb_le _ _)) by lia. cbn [ok_or result_bind]. f_equal. lia.
Qed.

Section Table.
Context {A : Type} (sz : nat) (fields : nat → A → list (nat * bytes)) (good : A → Prop).
Context (write : bytes → nat → A → outcome (result bytes)).
Hypothesis fields_in : ∀ base a, good a → Forall (lies_in base (base + sz)) (fields base a).
Hypothesis fields_separate : ∀ base a, good a → separate (fields base a).
Hypothesis fields_bytes : ∀ base a, good a → Forall (λ w, is_bytes w.2) (fields base a).
Hypothesis write_ok : ∀ image index a, good a → addressable image →
  (index * sz + sz ≤ length image)%nat →
  write image index a = Ret (Ok (write_list image (fields (index * sz) a))).

(** The image holds the records of [l], from record [index] on. *)
Definition table_of (image : bytes) (index : nat) (l : list A) : Prop :=
  ∀ i a, l !! i = Some a → holds image (fields ((index + i) * sz) a).

Lemma fields_within (image : bytes) index a : good a → (index * sz + sz ≤ length image)%nat →
  Forall (lies_in 0 (length image)) (fields (index * sz) a).
Proof. intros Hg Hl. eapply Forall_impl; [by apply fields_in|]. unfold lies_in. lia. Qed.

(** Writes of one record leave the bytes of the others. *)
Lemma write_record_out (image : bytes) index a x y : good a → (index * sz + sz ≤ length image)%nat →
  (y ≤ index * sz ∨ index * sz + sz ≤ x)%nat →
  slice (write_list image (fields (index * sz) a)) x y = slice image x y.
Proof.
  intros Hg Hl Hxy. apply slice_write_list; [by apply fields_within|].
  eapply Forall_impl; [by apply fields_in|]. unfold lies_in. lia.
Qed.

Lemma write_table_from image index (l : list A) : Forall good l → addressable image →
  ((index + length l) * sz ≤ length image)%nat →
  ∃ image', write_table write image index l = Ret (Ok image') ∧ length image' = length image ∧
    table_of image' index l ∧ (is_bytes image → is_bytes image') ∧
    ∀ x y, (y ≤ index * sz ∨ (index + length l) * sz ≤ x)%nat → slice image' x y = slice image x y.
Proof.
  revert image index. induction l as [|a l IH]; intros image index Hg Ha Hl.
  { exists image. split_and!; [done|done|by intros ? ? ?|done|done]. }
  apply Forall_cons in Hg as [Hga Hgl]. simpl in Hl.
  assert (Hi : (index * sz + sz ≤ length image)%nat) by nia.
  pose proof (length_write_list _ _ (fields_within _ _ _ Hga Hi)) as L.
  destruct (IH (write_list image (fields (index * sz) a)) (S index)) as (im & E & Lm & Ht & Hb & Ho);
    [done|unfold addressable in *; by rewrite L|rewrite L; nia|].
  exists im. cbn. rewrite write_ok by done. split; [exact E|]. split; [congruence|]. split; [|split].
  - intros [|i] b Hb'; cbn in Hb'; [simplify_eq|].
    + rewrite Nat.add_0_r. pose proof (holds_write_list _ _ (fields_within _ _ _ Hga Hi) (fields_separate _ _ Hga)) as Hh.
      pose proof (fields_in (index * sz) b Hga) as Hin. unfold holds in *. rewrite Forall_forall in *.
      intros w Hw. destruct (Hh w Hw) as [Hw1 Hw2], (Hin w Hw). split; [by rewrite Lm|].
      rewrite Ho; [done|]. left. nia.
    + replace (index + S i)%nat with (S index + i)%nat by lia. by apply Ht.
  - intros Hbi. apply Hb, write_list_bytes; [done|by apply fields_bytes].
  - intros x y Hxy. rewrite Ho by (cbn in Hxy; nia). apply write_record_out; [done|done|]. cbn in Hxy. nia.
Qed.

Lemma write_table_ok image (l : list A) : Forall good l → addressable image → (length l * sz ≤ length image)%nat →
  ∃ image', write_table write image 0 l = Ret (Ok image') ∧ length image' = length image ∧
    table_of image' 0 l ∧ (is_bytes image → is_bytes image') ∧
    ∀ x y, (length l * sz ≤ x)%nat → slice image' x y = slice image x y.
Proof.
  intros Hg Ha Hl. destruct (write_table_from image 0 l Hg Ha) as (im & E & L & Ht & Hb & Ho); [lia|].
  exists im. split_and!; [done|done|done|done|]. intros x y Hx. apply Ho. by right.
Qed.

(** The records are also in the blocks that hold them. *)
Lemma table_take image n (l : list A) : Forall good l → table_of image 0 l → (length l * sz ≤ n)%nat →
  table_of (take n image) 0 l.
Proof.
  intros Hg Ht Hn i a Hi. apply holds_take; [by apply Ht|].
  pose proof (lookup_lt_Some _ _ _ Hi). eapply Forall_impl; [eapply fields_in, Forall_lookup_1; done|].
  unfold lies_in. nia.
Qed.

(** A decoder that reads one record reads them all. *)
Lemma collect_table {B} (decode : nat → result B) (f : A → B) image (l : list A) :
  table_of image 0 l → Forall good l →
  (∀ i a, l !! i = Some a → good a → holds image (fields (i * sz) a) → decode i = Ok (f a)) →
  collect decode (seq 0 (length l)) = Ok (f <$> l).
Proof.
  intros Ht Hg Hd.
  assert (∀ k l', (∀ i a, l' !! i = Some a → decode (k + i)%nat = Ok (f a)) →
    collect decode (seq k (length l')) = Ok (f <$> l')) as Hall.
  { intros k l'. revert k. induction l' as [|a l' IH]; intros k Hk; [done|]. cbn.
    pose proof (Hk 0%nat a eq_refl) as E. rewrite Nat.add_0_r in E. rewrite E. cbn.
    rewrite (IH (S k)); [done|]. intros i b Hi. replace (S k + i)%nat with (k + S i)%nat by lia. by apply Hk. }
  apply Hall. intros i a Hi. apply Hd; [done|by eapply Forall_lookup_1|by apply (Ht i)].
Qed.
End Table.

(** ** The inode table *)

Definition security_ok (s : OnDiskPersistentSecurityDescriptor) : Prop :=
  u32_ok (owner_uid s) ∧ u32_ok (owner_gid s) ∧ u16_ok (mode s).

(** The fields have their widths. *)
Definition inode_ok (i : OnDiskInode) : Prop :=
  u32_ok (entry_start i) ∧ u32_ok (entry_count i) ∧ u32_ok (data_block i) ∧ u32_ok (i_block_count i) ∧
  u32_ok (size i) ∧ u32_ok (data_checksum i) ∧ from_option security_ok True (persistent_security i).

#[global] Instance inode_ok_dec i : Decision (inode_ok i).
Proof. unfold inode_ok, security_ok. destruct (persistent_security i); apply _. Defined.

(** What the version keeps of an inode: [V2] has no descriptors, the others have
    one (of zeroes where there was none) in the place of the checksum. *)
Definition stored_inode (v : SimpleFsFormatVersion) (i : OnDiskInode) : OnDiskInode :=
  mkInode (i_kind i) (deleted i) (entry_start i) (entry_count i) (data_block i) (i_block_count i) (size i)
    (if has_layout v then Some (default (mkSecurity 0 0 0) (persistent_security i)) else None)
    (match v with V2 => data_checksum i | _ => 0 end) (compressed i) (deduped i).

Definition all_inode_fields (v : SimpleFsFormatVersion) (base : nat) (i : OnDiskInode) : list (nat * bytes) :=
  inode_fields base i ++ security_fields base v (persistent_security i) ++ checksum_fields base v i.

Create HintDb sfs.
#[export] Hint Unfold lies_in apart write_u8 write_u16 write_u32 INODE_SIZE DIRENT_SIZE XATTR_RECORD_SIZE
  XATTR_NAME_MAX XATTR_VALUE_MAX inode_kind_offset inode_flags_offset inode_entry_start_offset
  inode_entry_count_offset inode_data_block_offset inode_block_count_offset inode_size_field_offset
  dirent_inode_index_offset dirent_kind_offset dirent_name_len_offset dirent_name_offset : sfs.

(** Splits the list of writes of a record. *)
Ltac each_field := repeat (apply Forall_cons; split); try apply Forall_nil.

Lemma inode_fields_in v base i : Forall (lies_in base (base + INODE_SIZE)) (all_inode_fields v base i).
Proof. destruct v; each_field; autounfold with sfs; cbn; lia. Qed.

Lemma inode_fields_separate v base i : separate (all_inode_fields v base i).
Proof. destruct v; repeat (split; [each_field; autounfold with sfs; cbn; lia|]); exact I. Qed.

Lemma inode_flags_cases i : (inode_flags i = (if deleted i then 1 else 0) + (if compressed i then 2 else 0) + (if deduped i then 4 else 0))%Z.
Proof. unfold inode_flags. by destruct (deleted i), (compressed i), (deduped i). Qed.

Lemma inode_fields_bytes v base i : Forall (λ w, is_bytes w.2) (all_inode_fields v base i).
Proof.
  assert (is_byte (encode_kind (i_kind i))) by (destruct (i_kind i); unfold is_byte; cbn; lia).
  assert (is_byte (inode_flags i))
    by (rewrite inode_flags_cases; unfold is_byte; destruct (deleted i), (compressed i), (deduped i); lia).
  destruct v; each_field; first [done|apply mod256_byte].
Qed.

Lemma write_runtime_inode_ok v image index i : addressable image →
  (index * INODE_SIZE + INODE_SIZE ≤ length image)%nat →
  write_runtime_inode v 0 image index i = Ret (Ok (write_list image (all_inode_fields v (index * INODE_SIZE) i))).
Proof.
  intros Ha Hl. unfold write_runtime_inode, inode_table_entry_offset, inode_size.
  rewrite (entry_offset_ok _ _ (length image)) by (done || lia). set (base := (index * INODE_SIZE)%nat) in *.
  assert (Hall : Forall (lies_in 0 (length image)) (all_inode_fields v base i)).
  { eapply Forall_impl; [apply inode_fields_in|]. unfold lies_in. lia. }
  pose proof Hall as [H1 H2]%Forall_app. rewrite write_all_list by done. cbn [mbind outcome_bind].
  pose proof (length_write_list _ _ H1) as L. unfold checked_add. unfold addressable in Ha.
  rewrite (proj2 (Z.leb_le _ _)) by lia. rewrite L, (proj2 (Nat.leb_le _ _)) by lia.
  rewrite write_all_list by by rewrite L. unfold all_inode_fields. by rewrite (write_list_app _ (inode_fields base i)).
Qed.

Lemma has_flags i :
  has_flag (inode_flags i) INODE_FLAG_DELETED = deleted i ∧
  has_flag (inode_flags i) INODE_FLAG_COMPRESSED = compressed i ∧
  has_flag (inode_flags i) INODE_FLAG_DEDUPED = deduped i.
Proof. rewrite inode_flags_cases. by destruct (deleted i), (compressed i), (deduped i). Qed.

Lemma read_security_ok v buffer base s : addressable buffer → has_layout v = true →
  from_option security_ok True s → holds buffer (security_fields base v s) →
  read_inode_persistent_security_descriptor buffer v base = Ok (Some (default (mkSecurity 0 0 0) s)).
Proof.
  intros Ha Hv Hs Hh. destruct v; [done| |]; unfold read_inode_persistent_security_descriptor, security_fields in *;
    cbn [persistent_security_descriptor_layout owner_uid_offset owner_gid_offset mode_offset] in *;
    (destruct s as [[uid gid md]|]; [destruct Hs as (Hu & Hg & Hm)|]; cbn [default fmap option_fmap option_map from_option] in *;
     cbn in Hh |- *;
     [read_field read_u32_ok Hh 1%nat; read_field read_u32_ok Hh 2%nat; read_field read_u16_ok Hh 0%nat; done|]);
    assert (u32_ok 0) by done; assert (u16_ok 0) by done;
    read_field read_u32_ok Hh 1%nat; read_field read_u32_ok Hh 2%nat; read_field read_u16_ok Hh 0%nat; done.
Qed.

Lemma decode_inode_ok v buffer index i : addressable buffer → inode_ok i →
  holds buffer (all_inode_fields v (index * INODE_SIZE) i) →
  decode_inode v buffer index = Ok (stored_inode v i).
Proof.
  intros Ha (H1 & H2 & H3 & H4 & H5 & H6 & Hs) Hh. unfold decode_inode, inode_table_entry_offset, inode_size.
  pose proof Hh as [Hf [Hsec Hck]%holds_app]%holds_app.
  assert (index * INODE_SIZE ≤ length buffer)%nat.
  { apply Forall_cons in Hf as [[Hf _] _]. cbn in Hf. lia. }
  rewrite (entry_offset_ok _ _ (length buffer)) by done. cbn [result_bind].
  set (base := (index * INODE_SIZE)%nat) in *. unfold inode_fields in Hf.
  read_byte Hf 0%nat. read_byte Hf 1%nat.
  assert ((match data_checksum_offset v with Some offset => read_u32 buffer (base + offset) | None => Ok 0 end)
    = Ok (match v with V2 => data_checksum i | _ => 0 end)) as ->.
  { destruct v; [|done|done]. cbn in Hck |- *. by apply read_u32_ok. }
  cbn [result_bind]. rewrite decode_encode_kind. cbn [result_bind].
  read_field read_u32_ok Hf 2%nat. read_field read_u32_ok Hf 3%nat. read_field read_u32_ok Hf 4%nat.
  read_field read_u32_ok Hf 5%nat. read_field read_u32_ok Hf 6%nat.
  assert (read_inode_persistent_security_descriptor buffer v base =
    Ok (if has_layout v then Some (default (mkSecurity 0 0 0) (persistent_security i)) else None)) as ->.
  { destruct (has_layout v) eqn:Hv; [by apply read_security_ok|by destruct v]. }
  destruct (has_flags i) as (-> & -> & ->). done.
Qed.

(** ** The directory-entry table *)

Definition dirent_ok (e : OnDiskDirEntry) : Prop :=
  u32_ok (inode_index e) ∧ (length (name e) ≤ DIRENT_SIZE - 8)%nat ∧ is_bytes (name e) ∧ is_utf8 (name e) = true.

#[global] Instance dirent_ok_dec e : Decision (dirent_ok e).
Proof. unfold dirent_ok. apply _. Defined.

Lemma dirent_fields_in base e : dirent_ok e → Forall (lies_in base (base + DIRENT_SIZE)) (dirent_fields base e).
Proof. intros (_ & Hl & _). unfold DIRENT_SIZE in Hl. each_field; autounfold with sfs; cbn in *; lia. Qed.

Lemma dirent_fields_separate base e : separate (dirent_fields base e).
Proof. repeat (split; [each_field; autounfold with sfs; cbn; lia|]); exact I. Qed.

Lemma dirent_fields_bytes base e : dirent_ok e → Forall (λ w, is_bytes w.2) (dirent_fields base e).
Proof.
  intros (_ & _ & Hb & _).
  assert (is_byte (encode_kind (d_kind e))) by (destruct (d_kind e); unfold is_byte; cbn; lia).
  each_field; first [done|apply mod256_byte].
Qed.

Lemma write_runtime_dir_entry_ok v image index e : dirent_ok e → addressable image →
  (index * DIRENT_SIZE + DIRENT_SIZE ≤ length image)%nat →
  write_runtime_dir_entry v 0 image index e = Ret (Ok (write_list image (dirent_fields (index * DIRENT_SIZE) e))).
Proof.
  intros He Ha Hl. unfold write_runtime_dir_entry, dirent_table_entry_offset, dirent_size.
  rewrite (entry_offset_ok _ _ (length image)) by (done || lia). rewrite write_all_list; [done|].
  eapply Forall_impl; [by apply dirent_fields_in|]. unfold lies_in. lia.
Qed.

Lemma get_range_ok (data : bytes) o e : (e ≤ length data)%nat → get_range data o e = Some (slice data o e).
Proof. intros. unfold get_range. by rewrite (proj2 (Nat.leb_le _ _)). Qed.

Lemma decode_dir_entry_ok v buffer index e : addressable buffer → dirent_ok e →
  holds buffer (dirent_fields (index * DIRENT_SIZE) e) → decode_dir_entry v buffer index = Ok e.
Proof.
  intros Ha (Hi & Hl & Hb & Hu) Hh. unfold decode_dir_entry, dirent_table_entry_offset, dirent_size.
  assert (index * DIRENT_SIZE ≤ length buffer)%nat.
  { apply Forall_cons in Hh as [[Hf _] _]. cbn in Hf. lia. }
  rewrite (entry_offset_ok _ _ (length buffer)) by done. cbn [result_bind].
  set (base := (index * DIRENT_SIZE)%nat) in *. unfold dirent_fields in Hh.
  read_field read_u32_ok Hh 0%nat. read_byte Hh 1%nat. rewrite decode_encode_kind. cbn [result_bind].
  read_byte Hh 2%nat. unfold DIRENT_SIZE in Hl. unfold wrap8. rewrite Z.mod_small by (cbn in Hl; lia).
  rewrite (proj2 (Z.ltb_ge _ _)) by (unfold dirent_name_max_len, dirent_size, DIRENT_SIZE; cbn in Hl |- *; lia).
  pose proof (holds_lookup _ _ 3%nat _ Hh eq_refl) as [Hn Hs]%Forall_singleton. cbn [fst snd] in Hn, Hs.
  unfold checked_add, addressable in *. rewrite (proj2 (Z.leb_le _ _)) by lia. cbn [ok_or result_bind].
  replace (Z.to_nat _) with (base + dirent_name_offset + length (name e))%nat by lia.
  rewrite get_range_ok by done. cbn [ok_or result_bind]. rewrite Hs, from_utf8_lossy_ok by done. by destruct e.
Qed.

(** ** The extended-attribute table *)

(** A record has arrays of fixed lengths, and a name or the mark of a deletion. *)
Definition xattr_ok (x : XattrRecord) : Prop :=
  u32_ok (x_inode_index x) ∧ u32_ok (name_len x) ∧ u32_ok (value_len x) ∧ u32_ok (status x) ∧
  (length (x_name x) = XATTR_NAME_MAX ∧ is_bytes (x_name x)) ∧
  (length (x_value x) = XATTR_VALUE_MAX ∧ is_bytes (x_value x)) ∧
  (name_len x ≠ 0 ∨ status x ≠ 0).

#[global] Instance xattr_ok_dec x : Decision (xattr_ok x).
Proof. unfold xattr_ok. apply _. Defined.

Lemma xattr_fields_in base x : xattr_ok x → Forall (lies_in base (base + XATTR_RECORD_SIZE)) (xattr_fields base x).
Proof.
  intros (_ & _ & _ & _ & [Hn _] & [Hv _] & _).
  each_field; autounfold with sfs in *; cbn [fst snd]; rewrite ?Hn, ?Hv, ?length_to_le; lia.
Qed.

Lemma xattr_fields_separate base x : xattr_ok x → separate (xattr_fields base x).
Proof.
  intros (_ & _ & _ & _ & [Hn _] & [Hv _] & _).
  repeat (split; [each_field; autounfold with sfs in *; cbn [fst snd]; rewrite ?Hn, ?Hv, ?length_to_le; lia|]); exact I.
Qed.

Lemma xattr_fields_bytes base x : xattr_ok x → Forall (λ w, is_bytes w.2) (xattr_fields base x).
Proof. intros (_ & _ & _ & _ & [_ Hn] & [_ Hv] & _). each_field; first [done|apply mod256_byte]. Qed.

Lemma write_runtime_xattr_ok v image index x : xattr_ok x → addressable image →
  (index * XATTR_RECORD_SIZE + XATTR_RECORD_SIZE ≤ length image)%nat →
  write_runtime_xattr v 0 image index x = Ret (Ok (write_list image (xattr_fields (index * XATTR_RECORD_SIZE) x))).
Proof.
  intros Hx Ha Hl. unfold write_runtime_xattr, xattr_table_entry_offset.
  rewrite (entry_offset_ok _ _ (length image)) by (done || lia). unfold checked_add, addressable in *.
  rewrite (proj2 (Z.leb_le _ _)) by lia. rewrite (proj2 (Nat.leb_le _ _)) by lia. rewrite write_all_list; [done|].
  eapply Forall_impl; [by apply xattr_fields_in|]. unfold lies_in. lia.
Qed.

Lemma slice_slice (l : bytes) a b o e : (a + e ≤ b)%nat → slice (slice l a b) o e = slice l (a + o) (a + e).
Proof.
  intros H. apply list_eq. intros j. rewrite !slice_lookup.
  destruct (decide (j < e - o)%nat); [|by rewrite decide_False by lia].
  rewrite !decide_True by lia. f_equal. lia.
Qed.

Lemma xattr_fields_shift base x : xattr_fields base x = (λ w, ((base + w.1)%nat, w.2)) <$> xattr_fields 0 x.
Proof.
  unfold xattr_fields, write_u32. cbn [fmap list_fmap fst snd].
  repeat (apply f_equal2; [apply f_equal2; [autounfold with sfs; lia|done]|]). done.
Qed.

(** A record's writes, in its slot. *)
Lemma holds_slot buffer base x n : holds buffer (xattr_fields base x) → xattr_ok x →
  n = (base + XATTR_RECORD_SIZE)%nat → (n ≤ length buffer)%nat → holds (slice buffer base n) (xattr_fields 0 x).
Proof.
  intros Hh Hx -> Hn. pose proof (xattr_fields_in 0 x Hx) as Hin. unfold holds in *.
  rewrite Forall_forall in *. intros w Hw. destruct (Hin w Hw) as [_ Hw2].
  assert (((base + w.1)%nat, w.2) ∈ xattr_fields base x) as Hm.
  { rewrite (xattr_fields_shift base). by apply (list_elem_of_fmap_2 (λ w, ((base + w.1)%nat, w.2))). }
  destruct (Hh _ Hm) as [_ Hs]. cbn [fst snd] in Hs. split; [rewrite length_slice; lia|].
  rewrite slice_slice by lia. by rewrite Nat.add_assoc, Hs.
Qed.

Lemma zero_slice l a b : forallb (λ b, b =? 0) l = true → from_le (slice l a b) = 0.
Proof.
  intros H. assert (Forall (λ x, x = 0) (slice l a b)) as Hz.
  { apply Forall_take, Forall_drop. apply Forall_forall. intros x Hx. rewrite forallb_forall in H.
    apply Z.eqb_eq, H. by apply list_elem_of_In. }
  induction Hz as [|x l' -> _ IH]; [done|]. cbn. lia.
Qed.

Lemma slot_not_zero l x : holds l (xattr_fields 0 x) → xattr_ok x → forallb (λ b, b =? 0) l = false.
Proof.
  intros Hh (_ & H2 & _ & H4 & _ & _ & Hnz). destruct (forallb _ l) eqn:E; [|done].
  pose proof (holds_lookup _ _ 1%nat _ Hh eq_refl) as [_ Hn]%Forall_singleton.
  pose proof (holds_lookup _ _ 3%nat _ Hh eq_refl) as [_ Hs]%Forall_singleton. cbn [fst snd write_u32] in Hn, Hs.
  pose proof (zero_slice l (0 + 4) (0 + 4 + length (to_le 4 (name_len x))) E) as Z1.
  pose proof (zero_slice l (0 + 12) (0 + 12 + length (to_le 4 (status x))) E) as Z2.
  rewrite Hn, from_le_to_le, Z.mod_small in Z1 by done. rewrite Hs, from_le_to_le, Z.mod_small in Z2 by done. lia.
Qed.

(** Past the records the slots are zero. *)
Definition zero_from (buffer : bytes) (n : nat) : Prop := ∀ a b, (n ≤ a)%nat → forallb (λ b, b =? 0) (slice buffer a b) = true.

Lemma parse_xattrs_from v buffer l index n : addressable buffer → Forall xattr_ok l →
  ((index + n) * XATTR_RECORD_SIZE ≤ length buffer)%nat → (length l ≤ n)%nat →
  table_of XATTR_RECORD_SIZE xattr_fields buffer index l →
  zero_from buffer ((index + length l) * XATTR_RECORD_SIZE) →
  parse_xattrs v buffer (seq index n) = Ok l.
Proof.
  intros Ha. revert l index. induction n as [|n IH]; intros l index Hok Hlen Hl Ht Hz.
  { by destruct l; [|cbn in Hl; lia]. }
  cbn [seq parse_xattrs]. unfold xattr_table_entry_offset.
  rewrite (entry_offset_ok _ _ (length buffer)) by (done || nia). cbn [result_bind].
  unfold checked_add. pose proof Ha as Hmax. unfold addressable in Hmax.
  rewrite (proj2 (Z.leb_le _ _)) by nia. cbn [ok_or result_bind].
  replace (Z.to_nat _) with (index * XATTR_RECORD_SIZE + XATTR_RECORD_SIZE)%nat by lia.
  rewrite get_range_ok by nia. cbn [ok_or result_bind].
  destruct l as [|x l].
  { rewrite Hz by (cbn; lia). done. }
  apply Forall_cons in Hok as [Hx Hok]. pose proof (Ht 0%nat x eq_refl) as Hh. rewrite Nat.add_0_r in Hh.
  set (slot := slice buffer _ _) in *.
  assert (Hs : holds slot (xattr_fields 0 x)) by (apply holds_slot; [done|done|done|nia]).
  rewrite (slot_not_zero _ _ Hs Hx).
  assert (Has : addressable slot). { unfold addressable, slot. rewrite length_slice by nia. nia. }
  destruct Hx as (H1 & H2 & H3 & H4 & [Hn _] & [Hv _] & _).
  unfold xattr_fields in Hs. cbn [Nat.add] in Hs.
  read_field read_u32_ok Hs 0%nat. read_field read_u32_ok Hs 1%nat.
  read_field read_u32_ok Hs 2%nat. read_field read_u32_ok Hs 3%nat.
  rewrite (IH l (S index)); [|done|nia|cbn in Hl; lia| |by replace (S index + length l)%nat with (index + length (x :: l))%nat by (cbn; lia)];
    cycle 1.
  { intros i y Hi. replace (S index + i)%nat with (index + S i)%nat by lia. by apply (Ht (S i)). }
  cbn [result_bind].
  pose proof (holds_lookup _ _ 4%nat _ Hs eq_refl) as [_ Hsn]%Forall_singleton.
  pose proof (holds_lookup _ _ 5%nat _ Hs eq_refl) as [_ Hsv]%Forall_singleton. cbn [fst snd] in Hsn, Hsv.
  rewrite Hn in Hsn. rewrite Hv in Hsv. f_equal. f_equal.
  transitivity (mkXattr (x_inode_index x) (name_len x) (value_len x) (status x) (x_name x) (x_value x)); [by f_equal|].
  by destruct x.
Qed.

(** ** The superblock *)

Definition super_ok (r : SuperblockRecord) : Prop :=
  Forall u32_ok
    [inode_count r; dirent_count r; active_inode_table_block r; active_dirent_table_block r;
     data_block_start r; shadow_inode_table_block r; shadow_dirent_table_block r; inode_table_blocks r;
     dirent_table_blocks r; active_xattr_table_block r; shadow_xattr_table_block r; xattr_table_blocks r;
     xattr_count r; sb_generation r; pending_commit r].

#[global] Instance super_ok_dec r : Decision (super_ok r).
Proof. unfold super_ok. apply _. Defined.

(** What the version keeps: [V2] has no pending mark. *)
Definition stored_record (v : SimpleFsFormatVersion) (r : SuperblockRecord) : SuperblockRecord :=
  mkSuper (inode_count r) (dirent_count r) (active_inode_table_block r) (active_dirent_table_block r)
    (shadow_inode_table_block r) (shadow_dirent_table_block r) (inode_table_blocks r) (dirent_table_blocks r)
    (data_block_start r) (sb_generation r) (if has_layout v then pending_commit r else 0)
    (active_xattr_table_block r) (shadow_xattr_table_block r) (xattr_table_blocks r) (xattr_count r).

(** The first bytes of the label, up to a zero. *)
Definition stored_label (label : bytes) : bytes := from_utf8_lossy (until_nul (take SUPERBLOCK_LABEL_LEN label)).

Lemma checksum_outside l l' h i : length l = length l' →
  (∀ j, ¬ (SUPERBLOCK_CHECKSUM_OFFSET ≤ i + j < SUPERBLOCK_CHECKSUM_OFFSET + 4)%nat → l !! j = l' !! j) →
  checksum_from h i l = checksum_from h i l'.
Proof.
  revert l' h i. induction l as [|b l IH]; intros [|b' l'] h i Hl Hj; try done. cbn [checksum_from].
  assert (Hrest : ∀ h, checksum_from h (S i) l = checksum_from h (S i) l').
  { intros h'. apply IH; [by injection Hl|]. intros j Hn. apply (Hj (S j)). lia. }
  destruct ((_ <=? i)%nat && _) eqn:E; [apply Hrest|].
  assert (Some b = Some b') as [= ->]; [|apply Hrest].
  apply (Hj 0%nat). intros [H1 H2]. rewrite Nat.add_0_r in *. apply andb_false_iff in E as [E|E].
  - apply Nat.leb_gt in E. lia. - apply Nat.ltb_ge in E. lia.
Qed.

Lemma checksum_bound l h i : u32_ok h → u32_ok (checksum_from h i l).
Proof.
  revert h i. induction l as [|b l IH]; intros h i Hh; [done|]. cbn [checksum_from]. apply IH.
  case_match; [done|]. unfold u32_ok, wrap32. by apply Z.mod_pos_bound.
Qed.

Lemma until_nul_zeros l n : until_nul (l ++ replicate n 0) = until_nul l.
Proof. induction l as [|b l IH]; [by destruct n|]. cbn. case_match; [done|]. by rewrite IH. Qed.

Lemma until_nul_ok l : Forall (λ b, b ≠ 0) l → until_nul l = l.
Proof. induction 1 as [|b l Hb _ IH]; [done|]. cbn. rewrite (proj2 (Z.eqb_neq _ _)) by done. by rewrite IH. Qed.

(** A label that fits is read back. *)
Lemma stored_label_ok label : is_utf8 label = true → Forall (λ b, b ≠ 0) label →
  (length label ≤ SUPERBLOCK_LABEL_LEN)%nat → stored_label label = label.
Proof. intros Hu Hz Hl. unfold stored_label. rewrite take_ge, until_nul_ok by done. by apply from_utf8_lossy_ok. Qed.

Definition label_field (label : bytes) : nat * bytes :=
  (SUPERBLOCK_LABEL_OFFSET, take (Nat.min (length label) SUPERBLOCK_LABEL_LEN) label).

(** Every write of a superblock, [sum] its checksum. *)
Definition super_writes (label : bytes) (v : SimpleFsFormatVersion) (r : SuperblockRecord) (sum : Z) :=
  (superblock_fields v r ++ [label_field label]) ++ [write_u32 SUPERBLOCK_CHECKSUM_OFFSET sum].

#[export] Hint Unfold SUPERBLOCK_LABEL_OFFSET SUPERBLOCK_LABEL_LEN SUPERBLOCK_ACTIVE_INODE_TABLE_OFFSET
  SUPERBLOCK_ACTIVE_DIRENT_TABLE_OFFSET SUPERBLOCK_DATA_BLOCK_START_OFFSET SUPERBLOCK_SHADOW_INODE_TABLE_OFFSET
  SUPERBLOCK_SHADOW_DIRENT_TABLE_OFFSET SUPERBLOCK_INODE_TABLE_BLOCKS_OFFSET SUPERBLOCK_DIRENT_TABLE_BLOCKS_OFFSET
  SUPERBLOCK_GENERATION_OFFSET SUPERBLOCK_CHECKSUM_OFFSET SUPERBLOCK_PENDING_COMMIT_OFFSET
  SUPERBLOCK_ACTIVE_XATTR_TABLE_OFFSET SUPERBLOCK_SHADOW_XATTR_TABLE_OFFSET SUPERBLOCK_XATTR_TABLE_BLOCKS_OFFSET
  SUPERBLOCK_XATTR_COUNT_OFFSET MAGIC BLOCK_SIZE : sfs.

Lemma length_label label : (length (label_field label).2 ≤ SUPERBLOCK_LABEL_LEN)%nat.
Proof. cbn [label_field snd]. rewrite length_take. lia. Qed.

Lemma super_writes_in label v r sum : Forall (lies_in 0 BLOCK_SIZE) (super_writes label v r sum).
Proof.
  pose proof (length_label label) as Hl. unfold super_writes.
  set (f := label_field label) in *. assert (f.1 = 64%nat) as Hf by done. clearbody f.
  destruct v; each_field; autounfold with sfs in *; cbn in *; lia.
Qed.

Lemma super_writes_separate label v r sum : separate (super_writes label v r sum).
Proof.
  pose proof (length_label label) as Hl. unfold super_writes.
  set (f := label_field label) in *. assert (f.1 = 64%nat) as Hf by done. clearbody f.
  destruct v; repeat (split; [each_field; autounfold with sfs in *; cbn in *; lia|]); exact I.
Qed.

(** The rest of the label's field is not written. *)
Lemma super_writes_miss label v r sum :
  Forall (λ w, (SUPERBLOCK_LABEL_OFFSET + SUPERBLOCK_LABEL_LEN ≤ w.1 ∨
    w.1 + length w.2 ≤ SUPERBLOCK_LABEL_OFFSET + length (label_field label).2)%nat) (super_writes label v r sum).
Proof.
  pose proof (length_label label) as Hl. unfold super_writes.
  set (f := label_field label) in *. assert (f.1 = 64%nat) as Hf by done. clearbody f.
  destruct v; each_field; autounfold with sfs in *; cbn in *; lia.
Qed.

(** The block written: its writes are read back and its checksum is right. *)
Lemma write_superblock_ok label v r : is_bytes label → ∃ block sum,
  write_superblock label v r = Ret block ∧ length block = BLOCK_SIZE ∧ is_bytes block ∧
  holds block (super_writes label v r sum) ∧ u32_ok sum ∧ superblock_checksum block = sum ∧
  slice block (SUPERBLOCK_LABEL_OFFSET + length (label_field label).2) (SUPERBLOCK_LABEL_OFFSET + SUPERBLOCK_LABEL_LEN) =
    replicate (SUPERBLOCK_LABEL_LEN - length (label_field label).2) 0.
Proof.
  intros Hlb. set (ws := superblock_fields v r ++ [label_field label]).
  set (zero := replicate BLOCK_SIZE 0). set (b := write_list zero ws). set (sum := superblock_checksum b).
  assert (Lz : length zero = BLOCK_SIZE) by apply length_replicate.
  pose proof (super_writes_in label v r sum) as Hin. rewrite <- Lz in Hin.
  pose proof Hin as [Hin1 Hin2]%Forall_app.
  assert (Lb : length b = BLOCK_SIZE) by (unfold b; by rewrite length_write_list).
  assert (Eb : write_list zero (super_writes label v r sum) = patch b SUPERBLOCK_CHECKSUM_OFFSET (to_le 4 sum)).
  { unfold super_writes. by rewrite write_list_app. }
  exists (write_list zero (super_writes label v r sum)), sum. split.
  { unfold write_superblock. fold zero. fold (label_field label). fold ws. rewrite write_all_list by done.
    cbn [mbind outcome_bind]. fold b. fold sum. rewrite write_all_list by (rewrite Lb; by rewrite Lz in Hin2).
    by rewrite Eb. }
  split; [by rewrite length_write_list|]. split.
  { apply write_list_bytes; [by apply Forall_replicate|]. unfold super_writes. rewrite !Forall_app. split_and!.
    - assert (is_bytes MAGIC) by (by apply (bool_decide_unpack (is_bytes MAGIC))).
      destruct v; repeat (apply Forall_cons_2; [first [apply to_le_bytes|assumption]|]); apply Forall_nil_2.
    - apply Forall_singleton. by apply Forall_take.
    - apply Forall_singleton, to_le_bytes. }
  split; [by apply holds_write_list; [|apply super_writes_separate]|].
  split; [by apply checksum_bound|]. split.
  - rewrite Eb. unfold superblock_checksum at 1, sum, superblock_checksum. apply checksum_outside.
    { apply length_patch. rewrite Lb, length_to_le. autounfold with sfs. lia. }
    intros j Hj. rewrite patch_lookup by (rewrite Lb, length_to_le; autounfold with sfs; lia).
    rewrite decide_False; [done|]. unfold covers. rewrite length_to_le. lia.
  - rewrite slice_write_list; [|done|].
    + unfold slice, zero. rewrite drop_replicate, take_replicate. f_equal. pose proof (length_label label).
      autounfold with sfs in *. lia.
    + apply super_writes_miss.
Qed.

Lemma parse_label_ok label block : holds block [label_field label] →
  length block = BLOCK_SIZE →
  slice block (SUPERBLOCK_LABEL_OFFSET + length (label_field label).2) (SUPERBLOCK_LABEL_OFFSET + SUPERBLOCK_LABEL_LEN) =
    replicate (SUPERBLOCK_LABEL_LEN - length (label_field label).2) 0 →
  parse_label block = stored_label label.
Proof.
  intros [_ Hs]%Forall_singleton Hl Hz. unfold parse_label, stored_label. f_equal.
  pose proof (length_label label) as Hlen. cbn [fst] in Hs.
  set (n := length (label_field label).2) in *.
  assert (slice block SUPERBLOCK_LABEL_OFFSET (SUPERBLOCK_LABEL_OFFSET + SUPERBLOCK_LABEL_LEN) =
    (label_field label).2 ++ replicate (SUPERBLOCK_LABEL_LEN - n) 0) as ->.
  { rewrite <- Hs, <- Hz. apply list_eq. intros j. rewrite lookup_app, !slice_lookup.
    cbn [label_field fst]. assert (SUPERBLOCK_LABEL_OFFSET + SUPERBLOCK_LABEL_LEN ≤ length block)%nat by (rewrite Hl; autounfold with sfs; lia).
    rewrite length_slice by lia. unfold SUPERBLOCK_LABEL_OFFSET in *.
    destruct (decide (j < n)%nat).
    - rewrite !decide_True by lia. destruct (lookup_lt_is_Some_2 block (64 + j)) as [x ->]; [lia|done].
    - rewrite (decide_False (P := (j < 64 + n - 64)%nat)) by lia.
      repeat case_decide; try lia; f_equal; lia. }
  rewrite until_nul_zeros. cbn [label_field snd]. f_equal.
  destruct (decide (length label ≤ SUPERBLOCK_LABEL_LEN)%nat).
  - rewrite Nat.min_l, !take_ge by lia. done.
  - by rewrite Nat.min_r by lia.
Qed.

(** A superblock reads back: the label as far as it fits, and the record. *)
Theorem superblock_round_trip label v r : is_bytes label → super_ok r → validate_superblock_record r = Ok () →
  ∃ block, write_superblock label v r = Ret block ∧ is_sector block ∧
    parse_superblock block = Ok (stored_label label, mkParsed v (stored_record v r)).
Proof.
  intros Hlb Hr Hv. destruct (write_superblock_ok label v r Hlb) as (b & sum & E & L & Hb & Hh & Hs & Hck & Hz).
  exists b. split; [exact E|]. split; [exact (conj L Hb)|]. clear E. unfold super_writes in Hh.
  apply holds_app in Hh as [[Hf Hlab]%holds_app Hsum].
  assert (Ha : addressable b) by (unfold addressable; by rewrite L).
  unfold super_ok in Hr. repeat (apply Forall_cons in Hr as [? Hr]). unfold parse_superblock.
  pose proof Hf as [Hf1 Hf2]%holds_app.
  pose proof (holds_lookup _ _ 0%nat _ Hf1 eq_refl) as [_ Hm]%Forall_singleton. cbn [fst snd] in Hm.
  rewrite bool_decide_eq_true_2 by exact Hm. cbn [negb].
  assert (u32_ok (on_disk_value v)) by (by destruct v). read_field read_u32_ok Hf1 1%nat.
  assert (parse_supported (on_disk_value v) = Ok v) as -> by (by destruct v). cbn [result_bind].
  assert (u32_ok (Z.of_nat BLOCK_SIZE)) by done. read_field read_u32_ok Hf1 2%nat.
  rewrite Z.eqb_refl. cbn [negb]. read_field read_u32_ok Hsum 0%nat. rewrite Hck, Z.eqb_refl. cbn [negb].
  read_field read_u32_ok Hf1 3%nat. read_field read_u32_ok Hf1 4%nat. read_field read_u32_ok Hf1 5%nat.
  read_field read_u32_ok Hf1 6%nat. read_field read_u32_ok Hf1 7%nat. read_field read_u32_ok Hf1 8%nat.
  read_field read_u32_ok Hf1 9%nat. read_field read_u32_ok Hf1 10%nat. read_field read_u32_ok Hf1 11%nat.
  read_field read_u32_ok Hf1 16%nat.
  assert ((if has_layout v then read_u32 b SUPERBLOCK_PENDING_COMMIT_OFFSET else Ok 0) =
    Ok (if has_layout v then pending_commit r else 0)) as ->.
  { destruct (has_layout v); [|done]. by apply read_u32_ok. }
  cbn [result_bind].
  read_field read_u32_ok Hf1 12%nat. read_field read_u32_ok Hf1 13%nat. read_field read_u32_ok Hf1 14%nat.
  read_field read_u32_ok Hf1 15%nat.
  assert (validate_superblock_record (stored_record v r) = Ok ()) as Hv' by exact Hv.
  unfold stored_record in Hv'. rewrite Hv'. cbn [result_bind]. by rewrite (parse_label_ok label).
Qed.

(** ** The tables read back *)

Lemma addressable_take l n : addressable l → addressable (take n l).
Proof. unfold addressable. rewrite length_take. lia. Qed.

Lemma elem_of_slice_take x (l : bytes) m a b : x ∈ slice (take m l) a b → x ∈ slice l a b.
Proof.
  intros [i Hi]%list_elem_of_lookup. apply list_elem_of_lookup. exists i. rewrite slice_lookup in *.
  case_decide; [|done]. by apply lookup_take_Some in Hi as [? _].
Qed.

(** An inode table encoded into [n] bytes decodes from any part of it that holds
    the records. *)
Lemma inode_table_round_trip v n inodes : Forall inode_ok inodes →
  (length inodes * INODE_SIZE ≤ n)%nat → Z.of_nat n ≤ u64_max →
  ∃ image, write_runtime_inode_table (replicate n 0) v 0 inodes = Ret (Ok image) ∧ length image = n ∧
    is_bytes image ∧ ∀ m, (length inodes * INODE_SIZE ≤ m)%nat →
      decode_inodes v (take m image) (Z.of_nat (length inodes)) = Ok (stored_inode v <$> inodes).
Proof.
  intros Hok Hl Hn. assert (Lr : length (replicate n 0) = n) by apply length_replicate.
  destruct (write_table_ok INODE_SIZE (all_inode_fields v) inode_ok (write_runtime_inode v 0)
    ltac:(intros; apply inode_fields_in) ltac:(intros; apply inode_fields_separate)
    ltac:(intros; apply inode_fields_bytes) ltac:(intros; by apply write_runtime_inode_ok)
    (replicate n 0) inodes Hok) as (im & E & L & Ht & Hb & _);
    [unfold addressable; by rewrite Lr|by rewrite Lr|].
  exists im. split; [exact E|]. split; [congruence|]. split; [by apply Hb, Forall_replicate|]. intros m Hm.
  assert (Ha : addressable im) by (unfold addressable; by rewrite L, Lr).
  unfold decode_inodes. rewrite Nat2Z.id.
  apply (collect_table INODE_SIZE (all_inode_fields v) inode_ok _ _ (take m im)); [|done|].
  - apply (table_take _ _ inode_ok); [intros; apply inode_fields_in|done|done|done].
  - intros i a _ Hg Hh. apply decode_inode_ok; [by apply addressable_take|done|done].
Qed.

(** So does a table of directory entries. *)
Lemma dirent_table_round_trip v n dirents : Forall dirent_ok dirents →
  (length dirents * DIRENT_SIZE ≤ n)%nat → Z.of_nat n ≤ u64_max →
  ∃ image, write_runtime_dir_entry_table (replicate n 0) v 0 dirents = Ret (Ok image) ∧ length image = n ∧
    is_bytes image ∧ ∀ m, (length dirents * DIRENT_SIZE ≤ m)%nat →
      decode_dir_entries v (take m image) (Z.of_nat (length dirents)) = Ok dirents.
Proof.
  intros Hok Hl Hn. assert (Lr : length (replicate n 0) = n) by apply length_replicate.
  destruct (write_table_ok DIRENT_SIZE dirent_fields dirent_ok (write_runtime_dir_entry v 0)
    dirent_fields_in ltac:(intros; apply dirent_fields_separate) dirent_fields_bytes
    (write_runtime_dir_entry_ok v)
    (replicate n 0) dirents Hok) as (im & E & L & Ht & Hb & _);
    [unfold addressable; by rewrite Lr|by rewrite Lr|].
  exists im. split; [exact E|]. split; [congruence|]. split; [by apply Hb, Forall_replicate|]. intros m Hm.
  assert (Ha : addressable im) by (unfold addressable; by rewrite L, Lr).
  unfold decode_dir_entries. rewrite Nat2Z.id.
  rewrite (collect_table DIRENT_SIZE dirent_fields dirent_ok _ id (take m im)); [by rewrite list_fmap_id| |done|].
  - by apply (table_take _ _ dirent_ok dirent_fields_in).
  - intros i a _ Hg Hh. apply decode_dir_entry_ok; [by apply addressable_take|done|done].
Qed.

(** And one of extended attributes, whose end is found by its zeroes. *)
Lemma xattr_table_round_trip v n xattrs : Forall xattr_ok xattrs →
  (length xattrs * XATTR_RECORD_SIZE ≤ n)%nat → Z.of_nat n ≤ u64_max →
  ∃ image, write_runtime_xattr_table (replicate n 0) v 0 xattrs = Ret (Ok image) ∧ length image = n ∧
    is_bytes image ∧ ∀ m capacity, (length xattrs ≤ capacity)%nat → (capacity * XATTR_RECORD_SIZE ≤ m ≤ n)%nat →
      parse_xattrs v (take m image) (seq 0 capacity) = Ok xattrs.
Proof.
  intros Hok Hl Hn. assert (Lr : length (replicate n 0) = n) by apply length_replicate.
  destruct (write_table_ok XATTR_RECORD_SIZE xattr_fields xattr_ok (write_runtime_xattr v 0)
    xattr_fields_in xattr_fields_separate xattr_fields_bytes (write_runtime_xattr_ok v)
    (replicate n 0) xattrs Hok) as (im & E & L & Ht & Hb & Ho);
    [unfold addressable; by rewrite Lr|by rewrite Lr|].
  exists im. split; [exact E|]. split; [congruence|]. split; [by apply Hb, Forall_replicate|].
  intros m capacity Hc [Hm Hmn].
  assert (Ha : addressable im) by (unfold addressable; by rewrite L, Lr).
  apply parse_xattrs_from; [by apply addressable_take|done|rewrite length_take; lia|done| |].
  - apply (table_take _ _ xattr_ok xattr_fields_in); [done|done|nia].
  - intros a b Hab. apply forallb_forall. intros x Hx. apply Z.eqb_eq. apply list_elem_of_In in Hx.
    apply elem_of_slice_take in Hx. rewrite Ho in Hx by done. unfold slice in Hx.
    rewrite drop_replicate, take_replicate in Hx. by apply elem_of_replicate in Hx as [-> _].
Qed.
