(* ===== verification/SfsTree.v ===== *)
(** * What a mount accepts (src/fs/simplefs/format_io.rs)

    [validate_loaded_metadata], which every mount runs on the tables it read and
    every commit on the tables it is about to write: the loops of the source over
    the inodes and the directory entries, and what the tables it accepts satisfy.
    It does not ask that the directories hang from the root. *)

From stdpp Require Import base tactics decidable numbers list sorting.
From Stdlib Require Import ZArith Lia Bool.
From S2P Require Import Prelude Bytes Unicode BlockDevice SfsFormat.

Definition names_match (l r : bytes) (case_sensitive : bool) : bool :=
  if case_sensitive then bool_decide (l = r) else eq_unicode_insensitive l r.

Definition validate_dir_entry_name_for_format (name : bytes) (v : SimpleFsFormatVersion) : result unit :=
  if bool_decide (name = []) || bool_decide (name = [47]) || existsb (λ b, b =? 47) name
     || (dirent_name_max_len v <? length name)%nat
  then Err InvalidArgument else Ok ().

(** [for left in 0..len { for right in (left + 1)..len }]: two names match. *)
Fixpoint duplicate_names (case_sensitive : bool) (l : list OnDiskDirEntry) : bool :=
  match l with
  | [] => false
  | e :: l => existsb (λ e', names_match (name e) (name e') case_sensitive) l || duplicate_names case_sensitive l
  end.

(** [for slot in &mut coverage[start..end] { *slot = slot.checked_add(1)? }] of a
    range that is in bounds, [skip] slots before it and [count] in it. *)
Fixpoint bump_range (coverage : list Z) (skip count : nat) : result (list Z) :=
  match coverage, skip, count with
  | c :: coverage, S skip, _ => let? rest := bump_range coverage skip count in Ok (c :: rest)
  | c :: coverage, O, S count =>
      let? c := ok_or (checked_add c 1) InvalidArgument in
      let? rest := bump_range coverage O count in Ok (c :: rest)
  | _, _, _ => Ok coverage
  end.

(** The entries of a directory: [&dir_entries[entry_start..entry_end]]. *)
Definition dir_slice (dirents : list OnDiskDirEntry) (i : OnDiskInode) : list OnDiskDirEntry :=
  take (Z.to_nat (entry_count i)) (drop (Z.to_nat (entry_start i)) dirents).

(** What the first loop collects. *)
Record scan := mkScan { live_file_extents : list (Z * Z); live_dir_entry_coverage : list Z }.

Section Validate.
Context (dirents : list OnDiskDirEntry) (data_start device_blocks : Z) (case_sensitive : bool).

(** A round of the first loop on a directory, and on any other inode. *)
Definition scan_directory (s : scan) (i : OnDiskInode) : result scan :=
  let? entry_end := ok_or (checked_add (entry_start i) (entry_count i)) InvalidArgument in
  if Z.of_nat (length dirents) <? entry_end then Err InvalidArgument
  else if deleted i then Ok s
  else if duplicate_names case_sensitive (dir_slice dirents i) then Err InvalidArgument
  else
    let? coverage := bump_range (live_dir_entry_coverage s) (Z.to_nat (entry_start i)) (Z.to_nat (entry_count i)) in
    Ok (mkScan (live_file_extents s) coverage).

Definition scan_file (s : scan) (i : OnDiskInode) : result scan :=
  if i_block_count i =? 0 then
    if negb (deleted i) && negb (size i =? 0) && negb (bool_decide (i_kind i = Symlink))
    then Err InvalidArgument else Ok s
  else if deleted i then Ok s
  else if data_block i <? data_start then Err InvalidArgument
  else
    let? data_end := ok_or (checked_add (data_block i) (i_block_count i)) InvalidArgument in
    if device_blocks <? data_end then Err InvalidArgument else
    let? capacity := ok_or (checked_mul (i_block_count i) (Z.of_nat BLOCK_SIZE)) InvalidArgument in
    if capacity <? size i then Err InvalidArgument
    else Ok (mkScan (live_file_extents s ++ [(data_block i, data_end)]) (live_dir_entry_coverage s)).

Definition scan_inode (s : scan) (i : OnDiskInode) : result scan :=
  if bool_decide (i_kind i = Directory) then scan_directory s i else scan_file s i.

Fixpoint scan_inodes (s : scan) (inodes : list OnDiskInode) : result scan :=
  match inodes with
  | [] => Ok s
  | i :: inodes => let? s := scan_inode s i in scan_inodes s inodes
  end.
End Validate.

(** [windows(2)] of the sorted extents: one ends after the next begins. *)
Fixpoint overlapping (l : list (Z * Z)) : bool :=
  match l with
  | x :: (y :: _) as l => (y.1 <? x.2) || overlapping l
  | _ => false
  end.

Definition starts_before (x y : Z * Z) : Prop := x.1 ≤ y.1.
#[global] Instance starts_before_dec : RelDecision starts_before.
Proof. unfold starts_before. intros x y. apply _. Defined.

(** [sort_unstable_by_key(|(start, _)| *start)]: two extents with the same start
    overlap in either order. *)
Definition sort_extents (l : list (Z * Z)) : list (Z * Z) := merge_sort starts_before l.

(** The loop over the entries: the references to each inode. *)
Fixpoint count_parents (v : SimpleFsFormatVersion) (inodes : list OnDiskInode) (counts : list Z)
    (dirents : list OnDiskDirEntry) : result (list Z) :=
  match dirents with
  | [] => Ok counts
  | e :: dirents =>
      let? _ := validate_dir_entry_name_for_format (name e) v in
      if inode_index e =? 0 then Err InvalidArgument else
      let? child := ok_or (inodes !! Z.to_nat (inode_index e)) InvalidArgument in
      if deleted child then Err InvalidArgument
      else if negb (bool_decide (d_kind e = i_kind child)) then Err InvalidArgument
      else
        let? count := ok_or (counts !! Z.to_nat (inode_index e)) InvalidArgument in
        let? count := ok_or (checked_add count 1) InvalidArgument in
        count_parents v inodes (<[Z.to_nat (inode_index e) := count]> counts) dirents
  end.

(** [for (index, inode) in inodes.iter().enumerate().skip(1)]. *)
Definition parents_ok (inodes : list OnDiskInode) (counts : list Z) : bool :=
  forallb (λ p, deleted p.1 || (p.2 =? 1)) (drop 1 (zip inodes counts)).

Definition validate_loaded_metadata (inodes : list OnDiskInode) (dirents : list OnDiskDirEntry)
    (v : SimpleFsFormatVersion) (data_start device_blocks : Z) (case_sensitive : bool) : result unit :=
  match inodes with
  | [] => Err InvalidArgument
  | root :: _ =>
      if deleted root || negb (bool_decide (i_kind root = Directory)) then Err InvalidArgument else
      let? s := scan_inodes dirents data_start device_blocks case_sensitive
        (mkScan [] (replicate (length dirents) 0)) inodes in
      if overlapping (sort_extents (live_file_extents s)) then Err InvalidArgument
      else if existsb (λ count, negb (count =? 1)) (live_dir_entry_coverage s) then Err InvalidArgument
      else
        let? counts := count_parents v inodes (replicate (length inodes) 0) dirents in
        if parents_ok inodes counts then Ok () else Err InvalidArgument
  end.

(** ** What is accepted *)

Definition live_dir (i : OnDiskInode) : bool := bool_decide (i_kind i = Directory) && negb (deleted i).

(** An inode with blocks of its own. *)
Definition live_file (i : OnDiskInode) : bool :=
  negb (bool_decide (i_kind i = Directory)) && negb (deleted i) && negb (i_block_count i =? 0).

Definition extent (i : OnDiskInode) : Z * Z := (data_block i, data_block i + i_block_count i).

(** Entry [j] is one of the directory's. *)
Definition has_entry (j : nat) (i : OnDiskInode) : bool :=
  live_dir i && (Z.to_nat (entry_start i) <=? j)%nat && (j <? Z.to_nat (entry_start i) + Z.to_nat (entry_count i))%nat.

Definition count_of {A} (p : A → bool) (l : list A) : Z := Z.of_nat (length (filter (λ a, p a = true) l)).

Record volume_ok (inodes : list OnDiskInode) (dirents : list OnDiskDirEntry) (v : SimpleFsFormatVersion)
    (data_start device_blocks : Z) (case_sensitive : bool) : Prop := mkVolumeOk {
  (** The root is a directory. *)
  vo_root : ∃ root, inodes !! 0%nat = Some root ∧ live_dir root = true;
  (** Directories have their entries in the table, under names that differ. *)
  vo_slices i : i ∈ inodes → i_kind i = Directory → entry_start i + entry_count i ≤ Z.of_nat (length dirents);
  vo_names i a b e e' : i ∈ inodes → live_dir i = true → (a < b)%nat →
    dir_slice dirents i !! a = Some e → dir_slice dirents i !! b = Some e' →
    names_match (name e) (name e') case_sensitive = false;
  (** Every entry is of exactly one of them. *)
  vo_cover j : (j < length dirents)%nat → count_of (has_entry j) inodes = 1;
  (** A file lies in the data area of the device, with room for its size. *)
  vo_extents i : i ∈ inodes → live_file i = true →
    data_start ≤ data_block i ∧ data_block i + i_block_count i ≤ device_blocks ∧
    size i ≤ i_block_count i * Z.of_nat BLOCK_SIZE;
  (** Files share no block. *)
  vo_disjoint a b i i' : a ≠ b → inodes !! a = Some i → inodes !! b = Some i' →
    live_file i = true → live_file i' = true →
    data_block i + i_block_count i ≤ data_block i' ∨ data_block i' + i_block_count i' ≤ data_block i;
  (** An entry names a live inode of its kind, which is not the root. *)
  vo_entry e : e ∈ dirents → inode_index e ≠ 0 ∧ validate_dir_entry_name_for_format (name e) v = Ok () ∧
    ∃ i, inodes !! Z.to_nat (inode_index e) = Some i ∧ deleted i = false ∧ i_kind i = d_kind e;
  (** Every other live inode has exactly one entry. *)
  vo_parent a i : (0 < a)%nat → inodes !! a = Some i → deleted i = false →
    count_of (λ e, bool_decide (Z.to_nat (inode_index e) = a)) dirents = 1;
}.

(** ** The first loop *)

Lemma duplicate_names_ok cs l a b e e' : duplicate_names cs l = false → (a < b)%nat →
  l !! a = Some e → l !! b = Some e' → names_match (name e) (name e') cs = false.
Proof.
  revert a b. induction l as [|x l IH]; intros a b; [done|]. cbn [duplicate_names].
  intros [Hx Hl]%orb_false_iff Hab Ha Hb. destruct b as [|b]; [lia|]. cbn in Hb. destruct a as [|a]; cbn in Ha.
  - simplify_eq. destruct (names_match _ _ _) eqn:E; [|done].
    assert (existsb (λ e', names_match (name e) (name e') cs) l = true); [|congruence].
    apply existsb_exists. exists e'. split; [|done]. apply list_elem_of_In. by eapply list_elem_of_lookup_2.
  - apply (IH a b); [done|lia|done|done].
Qed.

(** The range gains one, the rest nothing. *)
Lemma bump_range_ok cov skip count cov' : bump_range cov skip count = Ok cov' →
  length cov' = length cov ∧
  ∀ j c, cov !! j = Some c →
    cov' !! j = Some (c + (if (skip <=? j)%nat && (j <? skip + count)%nat then 1 else 0)).
Proof.
  revert skip count cov'. induction cov as [|c cov IH]; intros skip count cov' E.
  { destruct skip, count; cbn in E; simplify_eq; done. }
  destruct skip as [|skip]; [destruct count as [|count]|]; cbn [bump_range] in E.
  - simplify_eq. split; [done|]. intros j x Hx. rewrite Hx. f_equal.
    destruct (Nat.ltb_spec j (0 + 0)); [lia|]. rewrite andb_false_r. lia.
  - unfold checked_add in E. case_match; [|done]. cbn [ok_or result_bind] in E.
    destruct (bump_range cov 0 count) as [rest|] eqn:Er; [|done]. cbn in E. simplify_eq.
    destruct (IH _ _ _ Er) as [L Hj]. split; [by cbn; rewrite L|]. intros [|j] x Hx; cbn in Hx |- *; [by simplify_eq|].
    etrans; [apply (Hj j x Hx)|]. do 2 f_equal.
  - destruct (bump_range cov skip count) as [rest|] eqn:Er; [|done]. cbn in E. simplify_eq.
    destruct (IH _ _ _ Er) as [L Hj]. split; [by cbn; rewrite L|]. intros [|j] x Hx; cbn in Hx |- *; [simplify_eq; f_equal; lia|].
    etrans; [apply (Hj j x Hx)|]. do 2 f_equal.
Qed.

Lemma count_of_cons {A} (p : A → bool) x l : count_of p (x :: l) = (if p x then 1 else 0) + count_of p l.
Proof.
  unfold count_of. destruct (p x) eqn:E.
  - rewrite filter_cons_True by done. cbn [length]. lia.
  - rewrite filter_cons_False by by rewrite E. lia.
Qed.

(** One round that succeeds: what it checked, what it added. *)
Section Scan.
Context (dirents : list OnDiskDirEntry) (data_start device_blocks : Z) (cs : bool).

Definition checked_inode (i : OnDiskInode) : Prop :=
  (i_kind i = Directory → entry_start i + entry_count i ≤ Z.of_nat (length dirents)) ∧
  (live_dir i = true → duplicate_names cs (dir_slice dirents i) = false) ∧
  (live_file i = true → data_start ≤ data_block i ∧ data_block i + i_block_count i ≤ device_blocks ∧
    size i ≤ i_block_count i * Z.of_nat BLOCK_SIZE).

Lemma scan_inode_ok s i s' : scan_inode dirents data_start device_blocks cs s i = Ok s' →
  checked_inode i ∧
  live_file_extents s' = live_file_extents s ++ (if live_file i then [extent i] else []) ∧
  length (live_dir_entry_coverage s') = length (live_dir_entry_coverage s) ∧
  ∀ j c, live_dir_entry_coverage s !! j = Some c →
    live_dir_entry_coverage s' !! j = Some (c + (if has_entry j i then 1 else 0)).
Proof.
  unfold scan_inode, checked_inode, live_file, has_entry, live_dir. intros E.
  destruct (bool_decide_reflect (i_kind i = Directory)) as [Hk|Hk]; cbn [negb andb].
  - unfold scan_directory, checked_add in E. case_match eqn:Ea; [|done]. cbn [ok_or result_bind] in E.
    destruct (Z.ltb_spec (Z.of_nat (length dirents)) (entry_start i + entry_count i)) as [|Hle]; [done|].
    destruct (deleted i) eqn:Hd; cbn [negb andb].
    { simplify_eq. rewrite app_nil_r. split_and!; try done. intros j c ->. f_equal. lia. }
    destruct (duplicate_names _ _) eqn:Edup; [done|].
    destruct (bump_range _ _ _) as [cov|] eqn:Eb; [|done]. cbn in E. simplify_eq.
    destruct (bump_range_ok _ _ _ _ Eb) as [L Hj]. cbn. rewrite app_nil_r. by split_and!.
  - assert (Hnd : i_kind i = Directory → entry_start i + entry_count i ≤ Z.of_nat (length dirents)) by done.
    assert (Hsame : ∀ j c, live_dir_entry_coverage s !! j = Some c → live_dir_entry_coverage s !! j = Some (c + 0)).
    { intros j c ->. f_equal. lia. }
    unfold scan_file in E. destruct (i_block_count i =? 0) eqn:Ebc; cbn [negb andb].
    { rewrite andb_false_r. case_match; [done|]. simplify_eq. rewrite app_nil_r. by split_and!. }
    destruct (deleted i) eqn:Hd; cbn [negb andb].
    { simplify_eq. rewrite app_nil_r. by split_and!. }
    destruct (Z.ltb_spec (data_block i) data_start) as [|Hds]; [done|].
    unfold checked_add, checked_mul in E. case_match; [|done]. cbn [ok_or result_bind] in E.
    destruct (Z.ltb_spec device_blocks (data_block i + i_block_count i)) as [|Hdb]; [done|].
    case_match; [|done]. cbn [ok_or result_bind] in E.
    destruct (Z.ltb_spec (i_block_count i * Z.of_nat BLOCK_SIZE) (size i)) as [|Hsz]; [done|].
    simplify_eq. by split_and!.
Qed.

Lemma scan_inodes_ok inodes s s' : scan_inodes dirents data_start device_blocks cs s inodes = Ok s' →
  Forall checked_inode inodes ∧
  live_file_extents s' = live_file_extents s ++ (extent <$> filter (λ i, live_file i = true) inodes) ∧
  length (live_dir_entry_coverage s') = length (live_dir_entry_coverage s) ∧
  ∀ j c, live_dir_entry_coverage s !! j = Some c →
    live_dir_entry_coverage s' !! j = Some (c + count_of (has_entry j) inodes).
Proof.
  revert s. induction inodes as [|i inodes IH]; intros s E; cbn in E.
  { simplify_eq. rewrite app_nil_r. split_and!; [apply Forall_nil_2|done|done|]. intros j c ->. f_equal. unfold count_of. cbn. lia. }
  destruct (scan_inode _ _ _ _ s i) as [s1|] eqn:E1; [|done]. cbn in E.
  destruct (scan_inode_ok _ _ _ E1) as (Hc & Hx & L & Hj), (IH _ E) as (Hcs & Hxs & Ls & Hjs).
  split_and!; [by apply Forall_cons_2| |congruence|].
  - rewrite Hxs, Hx, <- app_assoc. f_equal. destruct (live_file i) eqn:El.
    + by rewrite filter_cons_True.
    + by rewrite filter_cons_False by by rewrite El.
  - intros j c H. rewrite (Hjs j _ (Hj j c H)), count_of_cons. f_equal. lia.
Qed.
End Scan.

(** ** Sorted extents *)

Lemma overlapping_tail x l : overlapping (x :: l) = false → overlapping l = false.
Proof. destruct l; [done|]. cbn. by intros [_ ?]%orb_false_iff. Qed.

(** Where no neighbours overlap, nothing does. *)
Lemma overlapping_ok l : Forall (λ x, x.1 < x.2) l → overlapping l = false →
  ∀ a b x y, (a < b)%nat → l !! a = Some x → l !! b = Some y → x.2 ≤ y.1.
Proof.
  induction l as [|z l IH]; intros Hp Ho a b x y Hab Ha Hb; [done|].
  apply Forall_cons in Hp as [Hz Hp]. pose proof (overlapping_tail _ _ Ho) as Ho'.
  destruct b as [|b]; [lia|]. cbn in Hb. destruct a as [|a]; cbn in Ha.
  - simplify_eq. destruct l as [|w l]; [done|]. cbn in Ho. apply orb_false_iff in Ho as [Hw%Z.ltb_ge _].
    destruct b as [|b]; cbn in Hb; [by simplify_eq|].
    pose proof (IH Hp Ho' 0%nat (S b) w y ltac:(lia) eq_refl Hb). apply Forall_cons in Hp as [Hpw _]. lia.
  - apply (IH Hp Ho' a b); [lia|done|done].
Qed.

Lemma sorted_extents_disjoint l : Forall (λ x, x.1 < x.2) l → overlapping (sort_extents l) = false →
  ∀ a b x y, a ≠ b → l !! a = Some x → l !! b = Some y → x.2 ≤ y.1 ∨ y.2 ≤ x.1.
Proof.
  intros Hp Ho a b x y Hab Ha Hb. pose proof (merge_sort_Permutation starts_before l) as Hperm.
  symmetry in Hperm. apply Permutation_inj in Hperm as (_ & f & Hinj & Hf).
  assert (Hs : Forall (λ x, x.1 < x.2) (sort_extents l)).
  { unfold sort_extents. by rewrite (merge_sort_Permutation starts_before l). }
  rewrite Hf in Ha, Hb. assert (f a ≠ f b) by (intros E; by apply Hinj in E).
  destruct (decide (f a < f b)%nat).
  - left. by eapply (overlapping_ok _ Hs Ho (f a) (f b)).
  - right. eapply (overlapping_ok _ Hs Ho (f b) (f a)); [lia|done|done].
Qed.

(** Two positions of a list that a predicate keeps are two positions of what it
    keeps. *)
Lemma filter_positions {A} (p : A → bool) (l : list A) a b x y : a ≠ b →
  l !! a = Some x → l !! b = Some y → p x = true → p y = true →
  ∃ a' b', a' ≠ b' ∧ filter (λ x, p x = true) l !! a' = Some x ∧ filter (λ x, p x = true) l !! b' = Some y.
Proof.
  revert a b. induction l as [|z l IH]; intros a b Hab Ha Hb Hx Hy; [done|].
  assert (Hin : ∀ k w, l !! k = Some w → p w = true → ∃ k', filter (λ x, p x = true) l !! k' = Some w).
  { intros k w Hk Hw. apply list_elem_of_lookup, list_elem_of_filter. split; [done|]. by eapply list_elem_of_lookup_2. }
  destruct a as [|a], b as [|b]; cbn in Ha, Hb; [done| | |]; simplify_eq.
  - destruct (Hin b y Hb Hy) as [k Hk]. exists 0%nat, (S k). rewrite filter_cons_True by done. by split_and!.
  - destruct (Hin a x Ha Hx) as [k Hk]. exists (S k), 0%nat. rewrite filter_cons_True by done. by split_and!.
  - destruct (IH a b ltac:(congruence) Ha Hb Hx Hy) as (a' & b' & Hn & H1 & H2).
    destruct (p z) eqn:Ez.
    + exists (S a'), (S b'). rewrite filter_cons_True by done. split_and!; [congruence|done|done].
    + exists a', b'. rewrite filter_cons_False by by rewrite Ez. done.
Qed.

(** ** The references *)

Lemma count_parents_ok v inodes counts dirents counts' : count_parents v inodes counts dirents = Ok counts' →
  length counts' = length counts ∧
  (∀ e, e ∈ dirents → inode_index e ≠ 0 ∧ validate_dir_entry_name_for_format (name e) v = Ok () ∧
    ∃ i, inodes !! Z.to_nat (inode_index e) = Some i ∧ deleted i = false ∧ i_kind i = d_kind e) ∧
  ∀ a c, counts !! a = Some c →
    counts' !! a = Some (c + count_of (λ e, bool_decide (Z.to_nat (inode_index e) = a)) dirents).
Proof.
  revert counts. induction dirents as [|e dirents IH]; intros counts E; cbn in E.
  { simplify_eq. split_and!; [done|by intros ? ?%elem_of_nil|]. intros a c ->. f_equal. unfold count_of. cbn. lia. }
  destruct (validate_dir_entry_name_for_format (name e) v) as [[]|] eqn:Ev; [|done]. cbn in E.
  destruct (Z.eqb_spec (inode_index e) 0) as [|Hz]; [done|].
  destruct (inodes !! Z.to_nat (inode_index e)) as [i|] eqn:Ei; [|done]. cbn in E.
  destruct (deleted i) eqn:Ed; [done|]. destruct (bool_decide_reflect (d_kind e = i_kind i)) as [Hk|]; [|done]. cbn in E.
  destruct (counts !! Z.to_nat (inode_index e)) as [c0|] eqn:Ec; [|done]. cbn in E.
  unfold checked_add in E. case_match; [|done]. cbn [ok_or result_bind] in E.
  destruct (IH _ E) as (L & He & Ha). rewrite length_insert in L. split_and!; [done| |].
  - intros x [->|Hx]%elem_of_cons; [|by apply He]. split_and!; [done|done|]. by exists i.
  - intros a c Hc. rewrite count_of_cons. destruct (bool_decide_reflect (Z.to_nat (inode_index e) = a)) as [<-|Hne].
    + rewrite Ec in Hc. simplify_eq. etrans; [apply Ha, list_lookup_insert_eq; by apply lookup_lt_Some in Ec|].
      f_equal. lia.
    + etrans; [apply Ha; by rewrite list_lookup_insert_ne|]. f_equal; lia.
Qed.

Lemma parents_ok_spec inodes counts a i c : parents_ok inodes counts = true → (0 < a)%nat →
  inodes !! a = Some i → counts !! a = Some c → deleted i = false → c = 1.
Proof.
  intros H Ha Hi Hc Hd. unfold parents_ok in H. rewrite forallb_forall in H.
  assert ((i, c) ∈ drop 1 (zip inodes counts)) as Hin.
  { apply list_elem_of_lookup. exists (a - 1)%nat. rewrite lookup_drop. replace (1 + (a - 1))%nat with a by lia.
    apply lookup_zip_with_Some. by exists i, c. }
  specialize (H _ (proj1 (list_elem_of_In _ _) Hin)). cbn in H. rewrite Hd in H. by apply Z.eqb_eq in H.
Qed.

(** ** The whole check *)

Definition counted (i : OnDiskInode) : Prop := 0 ≤ i_block_count i.

(** C15. The tables a mount accepts, and those a commit writes, describe a volume: a
    root, directories with names that differ, every entry in one directory, files
    in the data area that share no block, and one entry for every live inode. *)
Theorem validated_volume_ok inodes dirents v data_start device_blocks cs : Forall counted inodes →
  validate_loaded_metadata inodes dirents v data_start device_blocks cs = Ok () →
  volume_ok inodes dirents v data_start device_blocks cs.
Proof.
  intros Hcnt E. unfold validate_loaded_metadata in E. destruct inodes as [|root rest] eqn:Ein; [done|].
  rewrite <- Ein in *. destruct (deleted root || _) eqn:Er; [done|].
  apply orb_false_iff in Er as [Hrd Hrk%negb_false_iff].
  destruct (scan_inodes _ _ _ _ _ _) as [s|] eqn:Es; [|done]. cbn in E.
  destruct (overlapping _) eqn:Eo; [done|]. destruct (existsb _ _) eqn:Ex; [done|].
  destruct (count_parents _ _ _ _) as [counts|] eqn:Ec; [|done]. cbn in E.
  destruct (parents_ok inodes counts) eqn:Ep; [|done].
  destruct (scan_inodes_ok _ _ _ _ _ _ _ Es) as (Hchk & Hext & Hlen & Hcov). cbn in Hext, Hlen, Hcov.
  rewrite length_replicate in Hlen. destruct (count_parents_ok _ _ _ _ _ Ec) as (Lc & Hent & Hpar).
  rewrite Forall_forall in Hchk.
  split.
  - exists root. rewrite Ein. unfold live_dir. by rewrite Hrd, Hrk.
  - intros i Hi. apply (Hchk i Hi).
  - intros i a b e e' Hi Hl Hab Ha Hb. eapply duplicate_names_ok; [by apply (Hchk i Hi)|done|done|done].
  - intros j Hj. specialize (Hcov j 0 (lookup_replicate_2 _ _ _ Hj)). rewrite Z.add_0_l in Hcov.
    destruct (Z.eq_dec (count_of (has_entry j) inodes) 1) as [|Hne]; [done|].
    assert (existsb (λ count, negb (count =? 1)) (live_dir_entry_coverage s) = true); [|congruence].
    apply existsb_exists. eexists. split; [apply list_elem_of_In; by eapply list_elem_of_lookup_2|].
    by rewrite (proj2 (Z.eqb_neq _ _)).
  - intros i Hi. apply (Hchk i Hi).
  - intros a b i i' Hab Ha Hb Hi Hi'.
    destruct (filter_positions live_file inodes a b i i' Hab Ha Hb Hi Hi') as (a' & b' & Hn & H1 & H2).
    assert (Hpos : Forall (λ x, x.1 < x.2) (live_file_extents s)).
    { rewrite Hext. apply Forall_fmap, Forall_forall. intros k [Hk Hin]%list_elem_of_filter. cbn.
      rewrite Forall_forall in Hcnt. specialize (Hcnt k Hin). unfold counted in Hcnt.
      unfold live_file in Hk. apply andb_prop in Hk as [_ Hk%negb_true_iff%Z.eqb_neq]. lia. }
    apply (sorted_extents_disjoint _ Hpos Eo a' b' (extent i) (extent i')); [done| |];
      rewrite Hext, list_lookup_fmap; by rewrite ?H1, ?H2.
  - done.
  - intros a i Ha Hi Hd. assert (Hl : (a < length inodes)%nat) by by apply lookup_lt_Some in Hi.
    specialize (Hpar a 0 (lookup_replicate_2 _ _ _ Hl)).
    rewrite <- (parents_ok_spec _ _ _ _ _ Ep Ha Hi Hpar Hd). by rewrite Z.add_0_l.
Qed.

Definition dir_inode (start count : Z) : OnDiskInode :=
  mkInode Directory false start count 0 0 0 None 0 false false.
Definition file_inode (block count size : Z) : OnDiskInode :=
  mkInode File false 0 0 block count size None 0 false false.

(** A volume with a directory and two files. *)
Definition demo_inodes : list OnDiskInode := [dir_inode 0 2; dir_inode 2 1; file_inode 9 2 700; file_inode 8 1 3].
Definition demo_dirents : list OnDiskDirEntry :=
  [mkDirent 1 Directory [97]; mkDirent 2 File [98]; mkDirent 3 File [98]].

Lemma validated_volume_ok_witness :
  validate_loaded_metadata demo_inodes demo_dirents V2 8 16 false = Ok () ∧
  volume_ok demo_inodes demo_dirents V2 8 16 false.
Proof.
  split; [by vm_compute|]. apply validated_volume_ok; [|by vm_compute].
  by apply (bool_decide_unpack (Forall (λ i, 0 ≤ i_block_count i) demo_inodes)).
Defined.

(** ** Detached directories *)

(** The inodes a path can name. *)
Inductive reachable (inodes : list OnDiskInode) (dirents : list OnDiskDirEntry) : nat → Prop :=
| reach_root : reachable inodes dirents 0
| reach_child d i e : reachable inodes dirents d → inodes !! d = Some i → live_dir i = true →
    e ∈ dir_slice dirents i → reachable inodes dirents (Z.to_nat (inode_index e)).

(** Two directories, each the other's only entry, beside an empty root. *)
Definition ring_inodes : list OnDiskInode := [dir_inode 0 0; dir_inode 0 1; dir_inode 1 1].
Definition ring_dirents : list OnDiskDirEntry := [mkDirent 2 Directory [97]; mkDirent 1 Directory [98]].

(** The check is said to reject what is not a rooted tree, but two directories
    that hold each other are accepted: each has one live parent, and neither can
    be reached from the root. *)
Theorem detached_ring_accepted :
  validate_loaded_metadata ring_inodes ring_dirents V2 8 16 true = Ok () ∧
  ∀ a, reachable ring_inodes ring_dirents a → a = 0%nat.
Proof.
  split; [by vm_compute|]. intros a. induction 1 as [|d i e _ -> Hi _ He]; [done|].
  cbn in Hi. simplify_eq. by apply elem_of_nil in He.
Qed.
