(* ===== verification/SfsState.v ===== *)
(** * The state of a mounted SimpleFS volume (src/fs/simplefs)

    The tables, the slots they live in, the reverse indices and the undo log
    (mod.rs), the operations of the undo log (transaction.rs), the directory
    entries and inode slots (fs.rs) and the free extents (extent_repair.rs), each
    as a function on the state.  Indices into the vectors are naturals; a
    [BTreeMap] from block numbers is its list of pairs in ascending order. *)

From stdpp Require Import base tactics decidable numbers list gmap.
From Stdlib Require Import ZArith Lia Bool.
From S2P Require Import Prelude Bytes Unicode BlockDevice SfsFormat SfsTree.

(** ** Records *)

Record UndoLog := mkUndo {
  u_inodes : list (nat * OnDiskInode); u_dirents : list (nat * OnDiskDirEntry);
  u_all_dirents : option (list OnDiskDirEntry); u_all_inode_to_entry_index : option (list (option nat));
  u_parent_of : list (nat * option nat); u_inode_to_entry_index : list (nat * option nat);
  u_inodes_len : option nat; u_parent_of_len : option nat; u_inode_to_entry_index_len : option nat;
  u_free_data_extents : option (list (Z * Z)); u_free_inode_slots : option (list nat);
  u_dir_inode_indices : option (list nat); u_staging_roots_len : option nat;
  u_xattrs : list (nat * XattrRecord); u_xattr_len : option nat; old_inode_count : option nat;
  old_dirent_count : option nat; old_xattr_count : option nat;
}.

Definition UndoLog_default : UndoLog :=
  mkUndo [] [] None None [] [] None None None None None None None []
    None None None None.

Record SimpleFsState := mkState {
  inodes : list OnDiskInode; dir_entries : list OnDiskDirEntry; st_active_inode : Z; st_active_dirent : Z;
  st_shadow_inode : Z; st_shadow_dirent : Z; st_generation : Z; needs_shadow_sync : bool;
  staging_roots : list bytes; free_inode_slots : list nat; parent_of : list (option nat);
  inode_to_entry_index : list (option nat); free_data_extents : list (Z * Z); dir_inode_indices : list nat;
  undo : UndoLog; xattrs : list XattrRecord; st_active_xattr : Z; st_shadow_xattr : Z;
  dedup_refcounts : gmap (Z * Z) Z; dedup_hash_to_extents : gmap Z (list (Z * Z * Z));
  open_handles : gmap nat Z;
}.

(** One field replaced. *)
Definition log_inodes (x : list (nat * OnDiskInode)) (u : UndoLog) : UndoLog :=
  mkUndo x (u_dirents u)
    (u_all_dirents u) (u_all_inode_to_entry_index u) (u_parent_of u) (u_inode_to_entry_index u) (u_inodes_len u)
    (u_parent_of_len u) (u_inode_to_entry_index_len u) (u_free_data_extents u) (u_free_inode_slots u)
    (u_dir_inode_indices u) (u_staging_roots_len u) (u_xattrs u) (u_xattr_len u) (old_inode_count u)
    (old_dirent_count u) (old_xattr_count u).
Definition log_dirents (x : list (nat * OnDiskDirEntry)) (u : UndoLog) : UndoLog :=
  mkUndo (u_inodes u) x
    (u_all_dirents u) (u_all_inode_to_entry_index u) (u_parent_of u) (u_inode_to_entry_index u) (u_inodes_len u)
    (u_parent_of_len u) (u_inode_to_entry_index_len u) (u_free_data_extents u) (u_free_inode_slots u)
    (u_dir_inode_indices u) (u_staging_roots_len u) (u_xattrs u) (u_xattr_len u) (old_inode_count u)
    (old_dirent_count u) (old_xattr_count u).
Definition log_parent_of (x : list (nat * option nat)) (u : UndoLog) : UndoLog :=
  mkUndo (u_inodes u)
    (u_dirents u) (u_all_dirents u) (u_all_inode_to_entry_index u) x (u_inode_to_entry_index u) (u_inodes_len u)
    (u_parent_of_len u) (u_inode_to_entry_index_len u) (u_free_data_extents u) (u_free_inode_slots u)
    (u_dir_inode_indices u) (u_staging_roots_len u) (u_xattrs u) (u_xattr_len u) (old_inode_count u)
    (old_dirent_count u) (old_xattr_count u).
Definition log_free_data_extents (x : option (list (Z * Z))) (u : UndoLog) : UndoLog :=
  mkUndo (u_inodes u)
    (u_dirents u) (u_all_dirents u) (u_all_inode_to_entry_index u) (u_parent_of u) (u_inode_to_entry_index u)
    (u_inodes_len u) (u_parent_of_len u) (u_inode_to_entry_index_len u) x (u_free_inode_slots u)
    (u_dir_inode_indices u) (u_staging_roots_len u) (u_xattrs u) (u_xattr_len u) (old_inode_count u)
    (old_dirent_count u) (old_xattr_count u).
Definition log_free_inode_slots (x : option (list nat)) (u : UndoLog) : UndoLog :=
  mkUndo (u_inodes u)
    (u_dirents u) (u_all_dirents u) (u_all_inode_to_entry_index u) (u_parent_of u) (u_inode_to_entry_index u)
    (u_inodes_len u) (u_parent_of_len u) (u_inode_to_entry_index_len u) (u_free_data_extents u) x
    (u_dir_inode_indices u) (u_staging_roots_len u) (u_xattrs u) (u_xattr_len u) (old_inode_count u)
    (old_dirent_count u) (old_xattr_count u).
Definition log_dir_inode_indices (x : option (list nat)) (u : UndoLog) : UndoLog :=
  mkUndo (u_inodes u)
    (u_dirents u) (u_all_dirents u) (u_all_inode_to_entry_index u) (u_parent_of u) (u_inode_to_entry_index u)
    (u_inodes_len u) (u_parent_of_len u) (u_inode_to_entry_index_len u) (u_free_data_extents u)
    (u_free_inode_slots u) x (u_staging_roots_len u) (u_xattrs u) (u_xattr_len u) (old_inode_count u)
    (old_dirent_count u) (old_xattr_count u).
Definition log_staging_roots_len (x : option nat) (u : UndoLog) : UndoLog :=
  mkUndo (u_inodes u) (u_dirents u)
    (u_all_dirents u) (u_all_inode_to_entry_index u) (u_parent_of u) (u_inode_to_entry_index u) (u_inodes_len u)
    (u_parent_of_len u) (u_inode_to_entry_index_len u) (u_free_data_extents u) (u_free_inode_slots u)
    (u_dir_inode_indices u) x (u_xattrs u) (u_xattr_len u) (old_inode_count u) (old_dirent_count u)
    (old_xattr_count u).
Definition log_xattrs (x : list (nat * XattrRecord)) (u : UndoLog) : UndoLog :=
  mkUndo (u_inodes u)
    (u_dirents u) (u_all_dirents u) (u_all_inode_to_entry_index u) (u_parent_of u) (u_inode_to_entry_index u)
    (u_inodes_len u) (u_parent_of_len u) (u_inode_to_entry_index_len u) (u_free_data_extents u)
    (u_free_inode_slots u) (u_dir_inode_indices u) (u_staging_roots_len u) x (u_xattr_len u) (old_inode_count u)
    (old_dirent_count u) (old_xattr_count u).
Definition log_xattr_len (x : option nat) (u : UndoLog) : UndoLog :=
  mkUndo (u_inodes u) (u_dirents u)
    (u_all_dirents u) (u_all_inode_to_entry_index u) (u_parent_of u) (u_inode_to_entry_index u) (u_inodes_len u)
    (u_parent_of_len u) (u_inode_to_entry_index_len u) (u_free_data_extents u) (u_free_inode_slots u)
    (u_dir_inode_indices u) (u_staging_roots_len u) (u_xattrs u) x (old_inode_count u) (old_dirent_count u)
    (old_xattr_count u).

Definition with_inodes (x : list OnDiskInode) (s : SimpleFsState) : SimpleFsState :=
  mkState x (dir_entries s)
    (st_active_inode s) (st_active_dirent s) (st_shadow_inode s) (st_shadow_dirent s) (st_generation s)
    (needs_shadow_sync s) (staging_roots s) (free_inode_slots s) (parent_of s) (inode_to_entry_index s)
    (free_data_extents s) (dir_inode_indices s) (undo s) (xattrs s) (st_active_xattr s) (st_shadow_xattr s)
    (dedup_refcounts s) (dedup_hash_to_extents s) (open_handles s).
Definition with_dir_entries (x : list OnDiskDirEntry) (s : SimpleFsState) : SimpleFsState :=
  mkState
    (inodes s) x (st_active_inode s) (st_active_dirent s) (st_shadow_inode s) (st_shadow_dirent s)
    (st_generation s) (needs_shadow_sync s) (staging_roots s) (free_inode_slots s) (parent_of s)
    (inode_to_entry_index s) (free_data_extents s) (dir_inode_indices s) (undo s) (xattrs s) (st_active_xattr s)
    (st_shadow_xattr s) (dedup_refcounts s) (dedup_hash_to_extents s) (open_handles s).
Definition with_needs_shadow_sync (x : bool) (s : SimpleFsState) : SimpleFsState :=
  mkState (inodes s)
    (dir_entries s) (st_active_inode s) (st_active_dirent s) (st_shadow_inode s) (st_shadow_dirent s)
    (st_generation s) x (staging_roots s) (free_inode_slots s) (parent_of s) (inode_to_entry_index s)
    (free_data_extents s) (dir_inode_indices s) (undo s) (xattrs s) (st_active_xattr s) (st_shadow_xattr s)
    (dedup_refcounts s) (dedup_hash_to_extents s) (open_handles s).
Definition with_staging_roots (x : list bytes) (s : SimpleFsState) : SimpleFsState :=
  mkState (inodes s)
    (dir_entries s) (st_active_inode s) (st_active_dirent s) (st_shadow_inode s) (st_shadow_dirent s)
    (st_generation s) (needs_shadow_sync s) x (free_inode_slots s) (parent_of s) (inode_to_entry_index s)
    (free_data_extents s) (dir_inode_indices s) (undo s) (xattrs s) (st_active_xattr s) (st_shadow_xattr s)
    (dedup_refcounts s) (dedup_hash_to_extents s) (open_handles s).
Definition with_free_inode_slots (x : list nat) (s : SimpleFsState) : SimpleFsState :=
  mkState (inodes s)
    (dir_entries s) (st_active_inode s) (st_active_dirent s) (st_shadow_inode s) (st_shadow_dirent s)
    (st_generation s) (needs_shadow_sync s) (staging_roots s) x (parent_of s) (inode_to_entry_index s)
    (free_data_extents s) (dir_inode_indices s) (undo s) (xattrs s) (st_active_xattr s) (st_shadow_xattr s)
    (dedup_refcounts s) (dedup_hash_to_extents s) (open_handles s).
Definition with_parent_of (x : list (option nat)) (s : SimpleFsState) : SimpleFsState :=
  mkState (inodes s)
    (dir_entries s) (st_active_inode s) (st_active_dirent s) (st_shadow_inode s) (st_shadow_dirent s)
    (st_generation s) (needs_shadow_sync s) (staging_roots s) (free_inode_slots s) x (inode_to_entry_index s)
    (free_data_extents s) (dir_inode_indices s) (undo s) (xattrs s) (st_active_xattr s) (st_shadow_xattr s)
    (dedup_refcounts s) (dedup_hash_to_extents s) (open_handles s).
Definition with_inode_to_entry_index (x : list (option nat)) (s : SimpleFsState) : SimpleFsState :=
  mkState
    (inodes s) (dir_entries s) (st_active_inode s) (st_active_dirent s) (st_shadow_inode s) (st_shadow_dirent s)
    (st_generation s) (needs_shadow_sync s) (staging_roots s) (free_inode_slots s) (parent_of s) x
    (free_data_extents s) (dir_inode_indices s) (undo s) (xattrs s) (st_active_xattr s) (st_shadow_xattr s)
    (dedup_refcounts s) (dedup_hash_to_extents s) (open_handles s).
Definition with_free_data_extents (x : list (Z * Z)) (s : SimpleFsState) : SimpleFsState :=
  mkState (inodes s)
    (dir_entries s) (st_active_inode s) (st_active_dirent s) (st_shadow_inode s) (st_shadow_dirent s)
    (st_generation s) (needs_shadow_sync s) (staging_roots s) (free_inode_slots s) (parent_of s)
    (inode_to_entry_index s) x (dir_inode_indices s) (undo s) (xattrs s) (st_active_xattr s) (st_shadow_xattr s)
    (dedup_refcounts s) (dedup_hash_to_extents s) (open_handles s).
Definition with_dir_inode_indices (x : list nat) (s : SimpleFsState) : SimpleFsState :=
  mkState (inodes s)
    (dir_entries s) (st_active_inode s) (st_active_dirent s) (st_shadow_inode s) (st_shadow_dirent s)
    (st_generation s) (needs_shadow_sync s) (staging_roots s) (free_inode_slots s) (parent_of s)
    (inode_to_entry_index s) (free_data_extents s) x (undo s) (xattrs s) (st_active_xattr s) (st_shadow_xattr s)
    (dedup_refcounts s) (dedup_hash_to_extents s) (open_handles s).
Definition with_undo (x : UndoLog) (s : SimpleFsState) : SimpleFsState :=
  mkState (inodes s) (dir_entries s)
    (st_active_inode s) (st_active_dirent s) (st_shadow_inode s) (st_shadow_dirent s) (st_generation s)
    (needs_shadow_sync s) (staging_roots s) (free_inode_slots s) (parent_of s) (inode_to_entry_index s)
    (free_data_extents s) (dir_inode_indices s) x (xattrs s) (st_active_xattr s) (st_shadow_xattr s)
    (dedup_refcounts s) (dedup_hash_to_extents s) (open_handles s).
Definition with_xattrs (x : list XattrRecord) (s : SimpleFsState) : SimpleFsState :=
  mkState (inodes s)
    (dir_entries s) (st_active_inode s) (st_active_dirent s) (st_shadow_inode s) (st_shadow_dirent s)
    (st_generation s) (needs_shadow_sync s) (staging_roots s) (free_inode_slots s) (parent_of s)
    (inode_to_entry_index s) (free_data_extents s) (dir_inode_indices s) (undo s) x (st_active_xattr s)
    (st_shadow_xattr s) (dedup_refcounts s) (dedup_hash_to_extents s) (open_handles s).
Definition with_dedup_refcounts (x : gmap (Z * Z) Z) (s : SimpleFsState) : SimpleFsState :=
  mkState (inodes s)
    (dir_entries s) (st_active_inode s) (st_active_dirent s) (st_shadow_inode s) (st_shadow_dirent s)
    (st_generation s) (needs_shadow_sync s) (staging_roots s) (free_inode_slots s) (parent_of s)
    (inode_to_entry_index s) (free_data_extents s) (dir_inode_indices s) (undo s) (xattrs s) (st_active_xattr s)
    (st_shadow_xattr s) x (dedup_hash_to_extents s) (open_handles s).
Definition with_dedup_hash_to_extents (x : gmap Z (list (Z * Z * Z))) (s : SimpleFsState) : SimpleFsState :=
  mkState
    (inodes s) (dir_entries s) (st_active_inode s) (st_active_dirent s) (st_shadow_inode s) (st_shadow_dirent s)
    (st_generation s) (needs_shadow_sync s) (staging_roots s) (free_inode_slots s) (parent_of s)
    (inode_to_entry_index s) (free_data_extents s) (dir_inode_indices s) (undo s) (xattrs s) (st_active_xattr s)
    (st_shadow_xattr s) (dedup_refcounts s) x (open_handles s).
Definition with_open_handles (x : gmap nat Z) (s : SimpleFsState) : SimpleFsState :=
  mkState (inodes s)
    (dir_entries s) (st_active_inode s) (st_active_dirent s) (st_shadow_inode s) (st_shadow_dirent s)
    (st_generation s) (needs_shadow_sync s) (staging_roots s) (free_inode_slots s) (parent_of s)
    (inode_to_entry_index s) (free_data_extents s) (dir_inode_indices s) (undo s) (xattrs s) (st_active_xattr s)
    (st_shadow_xattr s) (dedup_refcounts s) (dedup_hash_to_extents s) x.

(** What does not change while the volume is mounted. *)
Record SimpleFs := mkFs {
  fs_label : bytes; fs_format_version : SimpleFsFormatVersion; fs_case_sensitive : bool;
  fs_inode_table_blocks : Z; fs_dirent_table_blocks : Z; fs_data_block_start : Z;
  fs_inode_capacity : Z; fs_dirent_capacity : Z; fs_xattr_table_blocks : Z; fs_xattr_capacity : Z;
}.

(** ** The undo log (transaction.rs) *)

Definition begin_undo (s : SimpleFsState) : SimpleFsState :=
  with_undo (mkUndo [] [] None None [] [] None None None None None None None [] None
    (Some (length (inodes s))) (Some (length (dir_entries s))) (Some (length (xattrs s)))) s.

Definition save_inode_for_undo (index : nat) (s : SimpleFsState) : SimpleFsState :=
  match inodes s !! index with
  | Some i => with_undo (log_inodes (u_inodes (undo s) ++ [(index, i)]) (undo s)) s
  | None => s
  end.

Definition save_dirent_for_undo (index : nat) (s : SimpleFsState) : SimpleFsState :=
  match dir_entries s !! index with
  | Some e => with_undo (log_dirents (u_dirents (undo s) ++ [(index, e)]) (undo s)) s
  | None => s
  end.

Definition save_parent_of_for_undo (index : nat) (s : SimpleFsState) : SimpleFsState :=
  match parent_of s !! index with
  | Some p => with_undo (log_parent_of (u_parent_of (undo s) ++ [(index, p)]) (undo s)) s
  | None => s
  end.

Definition save_xattr_for_undo (index : nat) (s : SimpleFsState) : SimpleFsState :=
  match xattrs s !! index with
  | Some x => with_undo (log_xattrs (u_xattrs (undo s) ++ [(index, x)]) (undo s)) s
  | None => s
  end.

Definition save_xattr_len_for_undo (s : SimpleFsState) : SimpleFsState :=
  match u_xattr_len (undo s) with
  | None => with_undo (log_xattr_len (Some (length (xattrs s))) (undo s)) s
  | Some _ => s
  end.

Definition save_free_extents_for_undo (s : SimpleFsState) : SimpleFsState :=
  match u_free_data_extents (undo s) with
  | None => with_undo (log_free_data_extents (Some (free_data_extents s)) (undo s)) s
  | Some _ => s
  end.

Definition save_free_slots_for_undo (s : SimpleFsState) : SimpleFsState :=
  match u_free_inode_slots (undo s) with
  | None => with_undo (log_free_inode_slots (Some (free_inode_slots s)) (undo s)) s
  | Some _ => s
  end.

Definition save_dir_indices_for_undo (s : SimpleFsState) : SimpleFsState :=
  match u_dir_inode_indices (undo s) with
  | None => with_undo (log_dir_inode_indices (Some (dir_inode_indices s)) (undo s)) s
  | Some _ => s
  end.

Definition save_staging_roots_len_for_undo (s : SimpleFsState) : SimpleFsState :=
  match u_staging_roots_len (undo s) with
  | None => with_undo (log_staging_roots_len (Some (length (staging_roots s))) (undo s)) s
  | Some _ => s
  end.

(** The inodes of the listed directories, as they are logged. *)
Definition dir_inodes (s : SimpleFsState) : list (nat * OnDiskInode) :=
  omap (λ d, pair d <$> inodes s !! d) (dir_inode_indices s).

Definition save_all_dirents_and_dir_inodes_for_undo (s : SimpleFsState) : SimpleFsState :=
  match u_all_dirents (undo s) with
  | Some _ => s
  | None =>
      let u := undo s in
      with_undo (mkUndo (u_inodes u ++ dir_inodes s) (u_dirents u) (Some (dir_entries s))
        (Some (inode_to_entry_index s)) (u_parent_of u) (u_inode_to_entry_index u) (u_inodes_len u)
        (u_parent_of_len u) (u_inode_to_entry_index_len u) (u_free_data_extents u) (u_free_inode_slots u)
        (u_dir_inode_indices u) (u_staging_roots_len u) (u_xattrs u) (u_xattr_len u) (old_inode_count u)
        (old_dirent_count u) (old_xattr_count u)) s
  end.

Definition save_inodes_len_for_undo (s : SimpleFsState) : SimpleFsState :=
  match u_inodes_len (undo s) with
  | Some _ => s
  | None =>
      let u := undo s in
      with_undo (mkUndo (u_inodes u) (u_dirents u) (u_all_dirents u) (u_all_inode_to_entry_index u)
        (u_parent_of u) (u_inode_to_entry_index u) (Some (length (inodes s))) (Some (length (parent_of s)))
        (Some (length (inode_to_entry_index s))) (u_free_data_extents u) (u_free_inode_slots u)
        (u_dir_inode_indices u) (u_staging_roots_len u) (u_xattrs u) (u_xattr_len u) (old_inode_count u)
        (old_dirent_count u) (old_xattr_count u)) s
  end.

(** [for (idx, old) in log.iter().rev() { if let Some(slot) = v.get_mut(idx) { *slot = old } }]:
    an assignment out of range is none. *)
Definition replay {A} (log : list (nat * A)) (v : list A) : list A :=
  foldr (λ p v, <[p.1 := p.2]> v) v log.

(** [if let Some(len) = len { v.truncate(len) }]. *)
Definition truncate {A} (len : option nat) (v : list A) : list A :=
  match len with Some n => take n v | None => v end.

Definition rollback_undo (s : SimpleFsState) : SimpleFsState :=
  let u := undo s in
  mkState
    (truncate (u_inodes_len u) (replay (u_inodes u) (inodes s)))
    (replay (u_dirents u) (default (dir_entries s) (u_all_dirents u)))
    (st_active_inode s) (st_active_dirent s) (st_shadow_inode s) (st_shadow_dirent s)
    (st_generation s) (needs_shadow_sync s)
    (truncate (u_staging_roots_len u) (staging_roots s))
    (default (free_inode_slots s) (u_free_inode_slots u))
    (replay (u_parent_of u) (truncate (u_parent_of_len u) (parent_of s)))
    (replay (u_inode_to_entry_index u)
      (truncate (u_inode_to_entry_index_len u)
        (default (inode_to_entry_index s) (u_all_inode_to_entry_index u))))
    (default (free_data_extents s) (u_free_data_extents u))
    (default (dir_inode_indices s) (u_dir_inode_indices u))
    u
    (truncate (u_xattr_len u) (replay (u_xattrs u) (xattrs s)))
    (st_active_xattr s) (st_shadow_xattr s) (dedup_refcounts s) (dedup_hash_to_extents s) (open_handles s).

Definition commit_undo (s : SimpleFsState) : SimpleFsState := with_undo UndoLog_default s.

(** ** Directory entries and inode slots (fs.rs) *)

(** [Vec::insert] and [Vec::remove]; out of range they panic. *)
Definition vec_insert {A} (n : nat) (x : A) (l : list A) : outcome (list A) :=
  if (n <=? length l)%nat then Ret (take n l ++ x :: drop n l) else Panic.
Definition vec_remove {A} (n : nat) (l : list A) : outcome (A * list A) :=
  match l !! n with Some x => Ret (x, delete n l) | None => Panic end.

(** [+= 1] on a [u32]. *)
Definition u32_succ (x : Z) : outcome Z := if x <? u32_max then Ret (x + 1) else Panic.
Definition u32_pred (x : Z) : outcome Z := if 0 <? x then Ret (x - 1) else Panic.

Definition with_entries (start count : Z) (i : OnDiskInode) : OnDiskInode :=
  mkInode (i_kind i) (deleted i) start count (data_block i) (i_block_count i) (size i)
    (persistent_security i) (data_checksum i) (compressed i) (deduped i).

(** [for &dir_idx in &state.dir_inode_indices { let inode = &mut state.inodes[dir_idx]; .. }]. *)
Fixpoint update_dirs (f : nat → OnDiskInode → outcome OnDiskInode) (dirs : list nat) (l : list OnDiskInode)
    : outcome (list OnDiskInode) :=
  match dirs with
  | [] => Ret l
  | d :: dirs =>
      match l !! d with
      | None => Panic
      | Some i => i ← f d i; update_dirs f dirs (<[d := i]> l)
      end
  end.

Definition shift_inserted (parent insert_at d : nat) (i : OnDiskInode) : outcome OnDiskInode :=
  if decide (d = parent) then count ← u32_succ (entry_count i); Ret (with_entries (entry_start i) count i)
  else if Z.of_nat insert_at <=? entry_start i then
    start ← u32_succ (entry_start i); Ret (with_entries start (entry_count i) i)
  else Ret i.

Definition shift_removed (parent entry_index d : nat) (i : OnDiskInode) : outcome OnDiskInode :=
  if decide (d = parent) then Ret (with_entries (entry_start i) (saturating_sub (entry_count i) 1) i)
  else if Z.of_nat entry_index <? entry_start i then
    start ← u32_pred (entry_start i); Ret (with_entries start (entry_count i) i)
  else Ret i.

(** [if child < v.len() { save; v[child] = p }] of the reverse parent index. *)
Definition set_parent_of (child : nat) (p : option nat) (s : SimpleFsState) : SimpleFsState :=
  if (child <? length (parent_of s))%nat then
    let s := save_parent_of_for_undo child s in with_parent_of (<[child := p]> (parent_of s)) s
  else s.

(** [for pos in v.iter_mut().flatten()]. *)
Definition shift_positions (f : nat → nat) (v : list (option nat)) : list (option nat) := map (option_map f) v.

Section Slots.
Context (fs : SimpleFs).

Definition insert_dir_entry_locked (s : SimpleFsState) (parent_index : nat) (entry : OnDiskDirEntry)
    : outcome (SimpleFsState * result unit) :=
  let s := save_all_dirents_and_dir_inodes_for_undo s in
  if fs_dirent_capacity fs <=? Z.of_nat (length (dir_entries s)) then Ret (s, Err OutOfMemory) else
  match inodes s !! parent_index with
  | None => Ret (s, Err InternalError)
  | Some parent =>
      if negb (bool_decide (i_kind parent = Directory)) || deleted parent then Ret (s, Err InvalidArgument) else
      let insert_at := Z.to_nat (entry_start parent + entry_count parent) in
      let child := Z.to_nat (inode_index entry) in
      entries ← vec_insert insert_at entry (dir_entries s);
      let s := set_parent_of child (Some parent_index) (with_dir_entries entries s) in
      let index := inode_to_entry_index s in
      let index := if (child <? length index)%nat then <[child := Some insert_at]> index else index in
      let index := shift_positions (λ pos, if (insert_at <=? pos)%nat then S pos else pos) index in
      l ← update_dirs (shift_inserted parent_index insert_at) (dir_inode_indices s) (inodes s);
      Ret (with_inodes l (with_inode_to_entry_index index s), Ok ())
  end.

Definition remove_dir_entry_locked (s : SimpleFsState) (parent_index entry_index : nat)
    : outcome (SimpleFsState * result OnDiskDirEntry) :=
  let s := save_all_dirents_and_dir_inodes_for_undo s in
  match inodes s !! parent_index with
  | None => Ret (s, Err InternalError)
  | Some parent =>
      if negb (bool_decide (i_kind parent = Directory)) || deleted parent then Ret (s, Err InvalidArgument) else
      match checked_add (entry_start parent) (entry_count parent) with
      | None => Ret (s, Err InternalError)
      | Some entry_end =>
          if (Z.of_nat entry_index <? entry_start parent) || (entry_end <=? Z.of_nat entry_index)
          then Ret (s, Err InternalError) else
          '(removed, entries) ← vec_remove entry_index (dir_entries s);
          let child := Z.to_nat (inode_index removed) in
          let s := set_parent_of child None (with_dir_entries entries s) in
          let index := inode_to_entry_index s in
          let index := if (child <? length index)%nat then <[child := None]> index else index in
          let index := shift_positions (λ pos, if (entry_index <? pos)%nat then (pos - 1)%nat else pos) index in
          l ← update_dirs (shift_removed parent_index entry_index) (dir_inode_indices s) (inodes s);
          Ret (with_inodes l (with_inode_to_entry_index index s), Ok removed)
      end
  end.

Definition has_available_inode_slot (s : SimpleFsState) : bool :=
  negb (bool_decide (free_inode_slots s = [])) || (Z.of_nat (length (inodes s)) <? fs_inode_capacity fs).

(** [if let Some(pos) = v.iter().position(|&i| i == index) { v.remove(pos) }]. *)
Definition remove_first (index : nat) (l : list nat) : list nat :=
  match list_find (λ i, i = index) l with Some (pos, _) => delete pos l | None => l end.

Definition allocate_inode_slot (s : SimpleFsState) (inode : OnDiskInode) : SimpleFsState * result nat :=
  let s := save_dir_indices_for_undo (save_free_slots_for_undo s) in
  let listed (s : SimpleFsState) (index : nat) :=
    if bool_decide (i_kind inode = Directory)
    then with_dir_inode_indices (dir_inode_indices s ++ [index]) s else s in
  match last (free_inode_slots s) with
  | Some free_idx =>
      let s := with_free_inode_slots (removelast (free_inode_slots s)) s in
      let s := save_inode_for_undo free_idx s in
      match inodes s !! free_idx with
      | None => (s, Err InternalError)
      | Some slot =>
          let s := if bool_decide (i_kind slot = Directory) && negb (deleted slot)
                   then with_dir_inode_indices (remove_first free_idx (dir_inode_indices s)) s else s in
          let s := with_inodes (<[free_idx := inode]> (inodes s)) s in
          let s := set_parent_of free_idx None s in
          let s := with_inode_to_entry_index (<[free_idx := None]> (inode_to_entry_index s)) s in
          (listed s free_idx, Ok free_idx)
      end
  | None =>
      if fs_inode_capacity fs <=? Z.of_nat (length (inodes s)) then (s, Err OutOfMemory) else
      let s := save_inodes_len_for_undo s in
      let idx := length (inodes s) in
      let s := with_inodes (inodes s ++ [inode]) s in
      let s := with_parent_of (parent_of s ++ [None]) s in
      let s := with_inode_to_entry_index (inode_to_entry_index s ++ [None]) s in
      (listed s idx, Ok idx)
  end.

Definition name_of (s : SimpleFsState) (index : nat) : bytes :=
  if decide (index = 0%nat) then [47] else
  match inode_to_entry_index s !! index with
  | Some (Some entry_idx) =>
      match dir_entries s !! entry_idx with Some entry => name entry | None => [63] end
  | _ => [63]
  end.

(** [find_map] over the entries of a directory, from entry [index] on. *)
Fixpoint find_live_child (s : SimpleFsState) (segment : bytes) (index : nat) (entries : list OnDiskDirEntry)
    : option (nat * nat * OnDiskInode) :=
  match entries with
  | [] => None
  | e :: entries =>
      let next := find_live_child s segment (S index) entries in
      if negb (names_match (name e) segment (fs_case_sensitive fs)) then next else
      match inodes s !! Z.to_nat (inode_index e) with
      | None => next
      | Some i => if deleted i then next else Some (index, Z.to_nat (inode_index e), i)
      end
  end.

(** The entry, the inode's index and the inode. *)
Definition resolve_live_child_dirent_locked (s : SimpleFsState) (parent_index : nat) (segment : bytes)
    : result (nat * nat * OnDiskInode) :=
  let? inode := ok_or (inodes s !! parent_index) InternalError in
  if negb (bool_decide (i_kind inode = Directory)) || deleted inode then Err NotFound else
  let start := Z.to_nat (entry_start inode) in
  let end_ := Z.to_nat (entry_start inode + entry_count inode) in
  if (length (dir_entries s) <? end_)%nat then Err InternalError else
  ok_or (find_live_child s segment start (dir_slice (dir_entries s) inode)) NotFound.

Definition find_child (s : SimpleFsState) (parent_index : nat) (segment : bytes) : result nat :=
  let? found := resolve_live_child_dirent_locked s parent_index segment in Ok found.1.2.
End Slots.

(** ** Free extents (extent_repair.rs) *)

(** A [BTreeMap<usize, usize>]: its pairs, by ascending key. *)
Notation extents := (list (Z * Z)).

Definition ext_get (k : Z) (m : extents) : option Z := snd ∘ snd <$> list_find (λ p, p.1 = k) m.
Definition ext_remove (k : Z) (m : extents) : extents := filter (λ p, p.1 ≠ k) m.
Fixpoint ext_insert (k c : Z) (m : extents) : extents :=
  match m with
  | [] => [(k, c)]
  | p :: m => if k <? p.1 then (k, c) :: p :: m
              else if k =? p.1 then (k, c) :: m else p :: ext_insert k c m
  end.

(** [range(..k).next_back()] and [range(k..).next()]. *)
Definition ext_before (k : Z) (m : extents) : option (Z * Z) := last (filter (λ p, p.1 < k) m).
Definition ext_from (k : Z) (m : extents) : option (Z * Z) := head (filter (λ p, k ≤ p.1) m).

Section Extents.
Context (fs : SimpleFs) (device_blocks : Z).

(** The loop over the sorted extents. *)
Fixpoint free_between (cursor : Z) (used : list (Z * Z)) (m : extents) : Z * extents :=
  match used with
  | [] => (cursor, m)
  | (start, end_) :: used =>
      let m := if cursor <? start then ext_insert cursor (start - cursor) m else m in
      free_between (if cursor <? end_ then end_ else cursor) used m
  end.

Definition rebuild_free_data_extents (s : SimpleFsState) : SimpleFsState :=
  let s := save_free_extents_for_undo s in
  let used := sort_extents (extent <$> filter (λ i, live_file i = true) (inodes s)) in
  let '(cursor, m) := free_between (fs_data_block_start fs) used [] in
  let m := if cursor <? device_blocks then ext_insert cursor (device_blocks - cursor) m else m in
  with_free_data_extents m s.

Definition rebuild_dir_inode_indices (s : SimpleFsState) : SimpleFsState :=
  with_dir_inode_indices
    (fst <$> filter (λ p, live_dir p.2 = true) (zip (seq 0 (length (inodes s))) (inodes s))) s.

Definition mark_extent_allocated (s : SimpleFsState) (start count : Z) : SimpleFsState :=
  if count =? 0 then s else
  let s := save_free_extents_for_undo s in
  match ext_get start (free_data_extents s) with
  | None => s
  | Some free_count =>
      if free_count =? count then with_free_data_extents (ext_remove start (free_data_extents s)) s
      else if count <? free_count then
        with_free_data_extents
          (ext_insert (start + count) (free_count - count) (ext_remove start (free_data_extents s))) s
      else s
  end.

(** The two merges of [mark_extent_free]. *)
Definition merge_before (start count : Z) (m : extents) : Z * Z * extents :=
  match ext_before start m with
  | Some (k, c) => if k + c =? start then (k, count + c, ext_remove k m) else (start, count, m)
  | None => (start, count, m)
  end.
Definition merge_after (start count : Z) (m : extents) : Z * extents :=
  match ext_from start m with
  | Some (k, c) => if k =? start + count then (count + c, ext_remove k m) else (count, m)
  | None => (count, m)
  end.

Definition mark_extent_free (s : SimpleFsState) (start count : Z) : SimpleFsState :=
  if count =? 0 then s else
  let s := save_free_extents_for_undo s in
  let clamped_start := Z.max start (fs_data_block_start fs) in
  let clamped_end := Z.min (saturating_add start count) device_blocks in
  if clamped_end <=? clamped_start then s else
  let '(new_start, new_count, m) :=
    merge_before clamped_start (clamped_end - clamped_start) (free_data_extents s) in
  let '(new_count, m) := merge_after new_start new_count m in
  with_free_data_extents (ext_insert new_start new_count m) s.

Definition release_inode_extent (s : SimpleFsState) (data_block block_count : Z) (deduped : bool) : SimpleFsState :=
  if negb deduped || (block_count =? 0) then mark_extent_free s data_block block_count else
  let key := (data_block, block_count) in
  match dedup_refcounts s !! key with
  | None => mark_extent_free s data_block block_count
  | Some count =>
      let count := saturating_sub count 1 in
      if count =? 0 then
        let s := with_dedup_refcounts (delete key (dedup_refcounts s)) s in
        let s := with_dedup_hash_to_extents
          (omap (λ l, match filter (λ x : Z * Z * Z, x.1 ≠ key) l with [] => None | l => Some l end)
            (dedup_hash_to_extents s)) s in
        mark_extent_free s data_block block_count
      else with_dedup_refcounts (<[key := count]> (dedup_refcounts s)) s
  end.

(** The in-place extension of an inode, if it has room. *)
Definition extend_in_place (s : SimpleFsState) (required_blocks : Z) (skip_inode : option nat) : option Z :=
  match skip_inode with
  | None => None
  | Some skip =>
      match inodes s !! skip with
      | None => None
      | Some i =>
          if live_file i then
            let extend_count := saturating_sub required_blocks (i_block_count i) in
            match ext_get (data_block i + i_block_count i) (free_data_extents s) with
            | Some free_count =>
                if (extend_count <=? free_count) && (data_block i + required_blocks <=? device_blocks)
                then Some (data_block i) else None
            | None => None
            end
          else None
      end
  end.

(** [for (&start, &count) in &state.free_data_extents]: the first of the smallest
    extents that are large enough. *)
Fixpoint best_fit (required_blocks : Z) (m : extents) (best : option (Z * Z)) : option (Z * Z) :=
  match m with
  | [] => best
  | (start, count) :: m =>
      let better := match best with None => true | Some (_, best_count) => count <? best_count end in
      best_fit required_blocks m
        (if (required_blocks <=? count) && (saturating_add start required_blocks <=? device_blocks) && better
         then Some (start, count) else best)
  end.

Definition find_free_data_block_span (s : SimpleFsState) (required_blocks : Z) (skip_inode : option nat) : result Z :=
  if required_blocks =? 0 then Ok (fs_data_block_start fs) else
  match extend_in_place s required_blocks skip_inode with
  | Some start => Ok start
  | None =>
      match best_fit required_blocks (free_data_extents s) None with
      | Some (start, _) => Ok start
      | None => Err OutOfMemory
      end
  end.
End Extents.
