(* ===== verification/SfsStateTheorems.v ===== *)
(** * Directories and free blocks of a volume

    The directories of a volume share one table of entries: each has a slice of
    it.  Inserting an entry gives it to the parent's slice and leaves every other
    slice as it was, although most of them move; removing one is the inverse.
    The free extents are kept apart and merged, and stand for a set of blocks
    that allocation and release change as they should.  Whatever an update is made
    of, the undo log takes it back. *)

From stdpp Require Import base tactics decidable numbers list gmap.
From Stdlib Require Import ZArith Lia Bool.
From S2P Require Import Prelude Bytes Unicode BlockDevice SfsFormat SfsTree SfsState.

(** ** Directories *)

(** The entries of [i] in the table, and the start of [j] among them. *)
Definition beside (i j : OnDiskInode) : Prop :=
  (entry_start j ≤ entry_start i ∨ entry_start i + entry_count i ≤ entry_start j) ∧
  (entry_count i = 0 ∨ entry_count j = 0 ∨ entry_start j + entry_count j ≤ entry_start i ∨
   entry_start i + entry_count i ≤ entry_start j).

(** Every directory has a slice of its own. *)
Record laid_out (s : SimpleFsState) : Prop := mkLaidOut {
  lo_listed : NoDup (dir_inode_indices s);
  lo_live d : d ∈ dir_inode_indices s → ∃ i, inodes s !! d = Some i ∧ live_dir i = true;
  lo_range d i : d ∈ dir_inode_indices s → inodes s !! d = Some i →
    0 ≤ entry_start i ∧ 0 ≤ entry_count i ∧ entry_start i + entry_count i ≤ Z.of_nat (length (dir_entries s));
  lo_beside d e i j : d ∈ dir_inode_indices s → e ∈ dir_inode_indices s → d ≠ e →
    inodes s !! d = Some i → inodes s !! e = Some j → beside i j;
}.

(** The loop over the directories: each of them is updated, nothing else. *)
Lemma update_dirs_ok f dirs l : NoDup dirs →
  (∀ d, d ∈ dirs → ∃ i i', l !! d = Some i ∧ f d i = Ret i') →
  ∃ l', update_dirs f dirs l = Ret l' ∧ length l' = length l ∧
    (∀ d, d ∉ dirs → l' !! d = l !! d) ∧ (∀ d i, d ∈ dirs → l !! d = Some i → ∃ i', f d i = Ret i' ∧ l' !! d = Some i').
Proof.
  intros Hnd. revert l. induction Hnd as [|d dirs Hd Hnd IH]; intros l Hf.
  { exists l. split_and!; try done. by intros d i ?%elem_of_nil. }
  destruct (Hf d) as (i & i' & Hi & Ei); [by left|]. cbn [update_dirs]. rewrite Hi, Ei. cbn [mbind outcome_bind].
  assert (Hlt : (d < length l)%nat) by by eapply lookup_lt_Some.
  destruct (IH (<[d := i']> l)) as (l' & E & Hl & Ho & Hin).
  { intros e He. destruct (Hf e) as (j & j' & Hj & Ej); [by right|]. exists j, j'.
    rewrite list_lookup_insert_ne; [done|]. by intros ->. }
  exists l'. split; [done|]. rewrite length_insert in Hl. split; [done|]. split.
  - intros e He. rewrite not_elem_of_cons in He. destruct He as [Hne He].
    rewrite Ho by done. by apply list_lookup_insert_ne.
  - intros e j He Hj. destruct (decide (e = d)) as [->|Hne].
    + assert (j = i) as -> by congruence. exists i'. split; [done|]. rewrite Ho by done. by apply list_lookup_insert_eq.
    + apply elem_of_cons in He as [->|He]; [done|]. apply Hin; [done|]. by rewrite list_lookup_insert_ne.
Qed.

(** [vec_insert] and the slices of the table. *)
Lemma slice_insert_before (l : list OnDiskDirEntry) n x a c : (a + c ≤ n ≤ length l)%nat →
  take c (drop a (take n l ++ x :: drop n l)) = take c (drop a l).
Proof.
  intros Hn. rewrite drop_app_le by (rewrite length_take; lia). rewrite take_app_le by (rewrite length_drop, length_take; lia).
  rewrite skipn_firstn_comm, take_take. f_equal. lia.
Qed.

Lemma slice_insert_after (l : list OnDiskDirEntry) n x a c : (n ≤ a)%nat → (n ≤ length l)%nat →
  take c (drop (S a) (take n l ++ x :: drop n l)) = take c (drop a l).
Proof.
  intros Ha Hn. f_equal. rewrite drop_app_ge by (rewrite length_take; lia). rewrite length_take.
  replace (S a - n `min` length l)%nat with (S (a - n)) by lia. cbn [drop]. rewrite drop_drop. f_equal. lia.
Qed.

Lemma slice_insert_at (l : list OnDiskDirEntry) x a c : (a + c ≤ length l)%nat →
  take (S c) (drop a (take (a + c) l ++ x :: drop (a + c) l)) = take c (drop a l) ++ [x].
Proof.
  intros Hn. rewrite drop_app_le by (rewrite length_take; lia). rewrite skipn_firstn_comm.
  replace (a + c - a)%nat with c by lia. rewrite take_app_ge by (rewrite length_take, length_drop; lia).
  rewrite length_take, length_drop. replace (S c - c `min` (length l - a))%nat with 1%nat by lia. done.
Qed.

(** [vec_remove] and the slices. *)
Lemma slice_delete_before (l : list OnDiskDirEntry) n a c : (a + c ≤ n)%nat → (n < length l)%nat →
  take c (drop a (delete n l)) = take c (drop a l).
Proof.
  intros Hn Hl. rewrite delete_take_drop, drop_app_le by (rewrite length_take; lia).
  rewrite take_app_le by (rewrite length_drop, length_take; lia). rewrite skipn_firstn_comm, take_take. f_equal. lia.
Qed.

Lemma slice_delete_after (l : list OnDiskDirEntry) n a c : (n < a)%nat → (n < length l)%nat →
  take c (drop (a - 1) (delete n l)) = take c (drop a l).
Proof.
  intros Ha Hl. f_equal. rewrite delete_take_drop, drop_app_ge by (rewrite length_take; lia).
  rewrite length_take, drop_drop. f_equal. lia.
Qed.

Lemma slice_delete_in (l : list OnDiskDirEntry) n a c : (a ≤ n < a + c)%nat → (a + c ≤ length l)%nat →
  take (c - 1) (drop a (delete n l)) = delete (n - a)%nat (take c (drop a l)).
Proof.
  intros Hn Hl. rewrite !delete_take_drop, drop_app_le by (rewrite length_take; lia). rewrite skipn_firstn_comm.
  rewrite take_app_ge by (rewrite length_take, length_drop; lia). rewrite length_take, length_drop, take_take.
  rewrite skipn_firstn_comm, drop_drop. f_equal; [f_equal; lia|]. f_equal; [lia|]. f_equal. lia.
Qed.

Section Dirs.
Context (fs : SimpleFs).

(** What the reverse indices and the log are given does not reach the tables. *)
Lemma save_all_fields s : let s' := save_all_dirents_and_dir_inodes_for_undo s in
  inodes s' = inodes s ∧ dir_entries s' = dir_entries s ∧ dir_inode_indices s' = dir_inode_indices s ∧
  inode_to_entry_index s' = inode_to_entry_index s.
Proof. unfold save_all_dirents_and_dir_inodes_for_undo. by destruct (u_all_dirents (undo s)). Qed.

Lemma set_parent_fields child p s : let s' := set_parent_of child p s in
  inodes s' = inodes s ∧ dir_entries s' = dir_entries s ∧ dir_inode_indices s' = dir_inode_indices s ∧
  inode_to_entry_index s' = inode_to_entry_index s.
Proof.
  unfold set_parent_of. case_match; [|done]. unfold save_parent_of_for_undo. by destruct (parent_of s !! child).
Qed.

Definition end_of (i : OnDiskInode) : nat := Z.to_nat (entry_start i + entry_count i).

(** What an insertion makes of the directory [d]. *)
Definition inserted_dir (parent insert_at d : nat) (i : OnDiskInode) : OnDiskInode :=
  if decide (d = parent) then with_entries (entry_start i) (entry_count i + 1) i
  else if Z.of_nat insert_at <=? entry_start i then with_entries (entry_start i + 1) (entry_count i) i else i.

Lemma shift_inserted_ok p n d i : entry_start i < u32_max → entry_count i < u32_max →
  shift_inserted p n d i = Ret (inserted_dir p n d i).
Proof.
  intros Hs Hc. unfold shift_inserted, inserted_dir, u32_succ. destruct (decide (d = p)).
  - by rewrite (proj2 (Z.ltb_lt _ _) Hc).
  - destruct (Z.of_nat n <=? entry_start i); [|done]. by rewrite (proj2 (Z.ltb_lt _ _) Hs).
Qed.

(** The insertion, on every branch that succeeds. *)
Lemma insert_dir_entry_result s p parent entry : laid_out s → p ∈ dir_inode_indices s → inodes s !! p = Some parent →
  Z.of_nat (length (dir_entries s)) < fs_dirent_capacity fs → Z.of_nat (length (dir_entries s)) < u32_max →
  ∃ s', insert_dir_entry_locked fs s p entry = Ret (s', Ok ()) ∧
    dir_entries s' = take (end_of parent) (dir_entries s) ++ entry :: drop (end_of parent) (dir_entries s) ∧
    dir_inode_indices s' = dir_inode_indices s ∧ length (inodes s') = length (inodes s) ∧
    (∀ d, d ∉ dir_inode_indices s → inodes s' !! d = inodes s !! d) ∧
    (∀ d i, d ∈ dir_inode_indices s → inodes s !! d = Some i → inodes s' !! d = Some (inserted_dir p (end_of parent) d i)) ∧
    (let child := Z.to_nat (inode_index entry) in
     inode_to_entry_index s' = shift_positions (λ pos, if (end_of parent <=? pos)%nat then S pos else pos)
       (if (child <? length (inode_to_entry_index s))%nat then <[child := Some (end_of parent)]> (inode_to_entry_index s)
        else inode_to_entry_index s)).
Proof.
  intros Hlo Hp Hpi Hcap Hu. unfold insert_dir_entry_locked.
  destruct (save_all_fields s) as (Ei & Ed & El & Ex). set (s0 := save_all_dirents_and_dir_inodes_for_undo s) in *.
  rewrite Ed, Ei, Hpi, (proj2 (Z.leb_gt _ _)) by lia. destruct (lo_live s Hlo p Hp) as (i & Hi & Hlive).
  assert (i = parent) as -> by congruence. unfold live_dir in Hlive. apply andb_true_iff in Hlive as [Hk Hdel].
  rewrite Hk. apply negb_true_iff in Hdel. rewrite Hdel. cbn [negb orb].
  destruct (lo_range s Hlo p parent Hp Hpi) as (R1 & R2 & R3). fold (end_of parent).
  unfold vec_insert. rewrite (proj2 (Nat.leb_le _ _)) by (unfold end_of; lia). cbn [mbind outcome_bind].
  set (entries := take _ _ ++ _). set (s1 := with_dir_entries entries s0).
  destruct (set_parent_fields (Z.to_nat (inode_index entry)) (Some p) s1) as (Ei1 & Ed1 & El1 & Ex1).
  set (s2 := set_parent_of _ _ s1) in *. cbv zeta. rewrite Ei1, El1, Ex1.
  change (inodes s1) with (inodes s0). change (dir_inode_indices s1) with (dir_inode_indices s0).
  change (inode_to_entry_index s1) with (inode_to_entry_index s0). rewrite Ei, El, Ex.
  destruct (update_dirs_ok (shift_inserted p (end_of parent)) (dir_inode_indices s) (inodes s) (lo_listed s Hlo))
    as (l' & -> & Hl & Ho & Hin).
  { intros d Hd. destruct (lo_live s Hlo d Hd) as (j & Hj & _). destruct (lo_range s Hlo d j Hd Hj) as (? & ? & ?).
    exists j. eexists. split; [done|]. apply shift_inserted_ok; lia. }
  eexists. split; [reflexivity|]. cbn [inodes dir_entries dir_inode_indices inode_to_entry_index with_inodes with_inode_to_entry_index].
  split; [by rewrite Ed1|]. split; [by rewrite El1|]. split; [done|]. split; [done|]. split; [|done].
  intros d j Hd Hj. destruct (Hin d j Hd Hj) as (j' & Ej & Hj').
  destruct (lo_range s Hlo d j Hd Hj) as (? & ? & ?). rewrite shift_inserted_ok in Ej by lia. congruence.
Qed.

(** A directory beside the parent ends before the insertion or begins after it. *)
Lemma beside_end parent i : beside parent i → beside i parent → 0 ≤ entry_count i → 0 ≤ entry_count parent →
  entry_start i < entry_start parent + entry_count parent →
  entry_start i + entry_count i ≤ entry_start parent + entry_count parent.
Proof. unfold beside. lia. Qed.

Lemma inserted_slice (l : list OnDiskDirEntry) p parent entry d i :
  (d = p → i = parent) → (d ≠ p → beside parent i ∧ beside i parent) →
  0 ≤ entry_start i → 0 ≤ entry_count i → entry_start i + entry_count i ≤ Z.of_nat (length l) →
  0 ≤ entry_start parent → 0 ≤ entry_count parent → entry_start parent + entry_count parent ≤ Z.of_nat (length l) →
  dir_slice (take (end_of parent) l ++ entry :: drop (end_of parent) l) (inserted_dir p (end_of parent) d i) =
  dir_slice l i ++ (if decide (d = p) then [entry] else []).
Proof.
  intros Hd Hb I1 I2 I3 P1 P2 P3. unfold dir_slice, inserted_dir, end_of. destruct (decide (d = p)) as [E|E].
  - rewrite (Hd E). cbn [entry_start entry_count with_entries].
    replace (Z.to_nat (entry_count parent + 1)) with (S (Z.to_nat (entry_count parent))) by lia.
    replace (Z.to_nat (entry_start parent + entry_count parent)) with (Z.to_nat (entry_start parent) + Z.to_nat (entry_count parent))%nat by lia.
    apply slice_insert_at. lia.
  - destruct (Hb E) as [B1 B2]. rewrite app_nil_r. rewrite Z2Nat.id by lia.
    destruct (Z.leb_spec (entry_start parent + entry_count parent) (entry_start i)) as [Hge|Hlt]; cbn [entry_start entry_count with_entries].
    + replace (Z.to_nat (entry_start i + 1)) with (S (Z.to_nat (entry_start i))) by lia. apply slice_insert_after; lia.
    + pose proof (beside_end parent i B1 B2 I2 P2 Hlt). apply slice_insert_before. lia.
Qed.

(** The parent grown by one entry, and a directory beside it. *)
Definition moved (n : Z) (i : OnDiskInode) : OnDiskInode :=
  if n <=? entry_start i then with_entries (entry_start i + 1) (entry_count i) i else i.
Definition grown (i : OnDiskInode) : OnDiskInode := with_entries (entry_start i) (entry_count i + 1) i.

Lemma grown_beside parent j : 0 ≤ entry_count parent → 0 ≤ entry_count j → beside parent j → beside j parent →
  beside (grown parent) (moved (entry_start parent + entry_count parent) j) ∧
  beside (moved (entry_start parent + entry_count parent) j) (grown parent).
Proof.
  intros P J B1 B2. pose proof (beside_end parent j B1 B2 J P) as He. unfold moved, grown.
  destruct (Z.leb_spec (entry_start parent + entry_count parent) (entry_start j)) as [Hge|Hlt].
  - clear B1 B2 He. unfold beside. cbn [entry_start entry_count with_entries]. lia.
  - specialize (He Hlt). destruct B1 as [[B1|B1] B1'], B2 as [[B2|B2] _]; [|clear B1'| |]; unfold beside; cbn [entry_start entry_count with_entries]; lia.
Qed.

Lemma moved_beside n i j : beside i j → (entry_start i < n → entry_start i + entry_count i ≤ n) →
  (entry_start j < n → entry_start j + entry_count j ≤ n) → 0 ≤ entry_count i → 0 ≤ entry_count j → beside (moved n i) (moved n j).
Proof.
  intros B Hi Hj Ci Cj. unfold moved.
  destruct (Z.leb_spec n (entry_start i)), (Z.leb_spec n (entry_start j)); [|clear B|clear B|exact B];
    unfold beside in *; cbn [entry_start entry_count with_entries]; lia.
Qed.

Lemma inserted_dir_cases p parent d i : 0 ≤ entry_start parent → 0 ≤ entry_count parent → (d = p → i = parent) →
  inserted_dir p (end_of parent) d i =
    if decide (d = p) then grown parent else moved (entry_start parent + entry_count parent) i.
Proof.
  intros P1 P2 Hd. unfold inserted_dir, end_of. rewrite Z2Nat.id by lia. case_decide as E; [|done]. by rewrite (Hd E).
Qed.

Lemma inserted_beside p parent d e i j : 0 ≤ entry_start parent → 0 ≤ entry_count parent → 0 ≤ entry_count i → 0 ≤ entry_count j →
  (d = p → i = parent) → (e = p → j = parent) → (d ≠ p → beside parent i ∧ beside i parent) → (e ≠ p → beside parent j ∧ beside j parent) →
  d ≠ e → beside i j → beside (inserted_dir p (end_of parent) d i) (inserted_dir p (end_of parent) e j).
Proof.
  intros P1 P2 I J Hd He Bd Be Hne B. rewrite !inserted_dir_cases by done.
  destruct (decide (d = p)) as [E|E], (decide (e = p)) as [E'|E']; [congruence|..].
  - destruct (Be E'). by apply grown_beside.
  - destruct (Bd E). by apply grown_beside.
  - destruct (Bd E), (Be E'). apply moved_beside; [done| | |done|done]; by apply beside_end.
Qed.

Lemma inserted_live p n d i : live_dir (inserted_dir p n d i) = live_dir i.
Proof. unfold inserted_dir. case_decide; [done|]. by case_match. Qed.

(** C16. An entry that is inserted is the last of its directory; every other directory
    keeps its entries, and the table stays divided among them. *)
Theorem insert_dir_entry_correct s p entry : laid_out s → p ∈ dir_inode_indices s →
  Z.of_nat (length (dir_entries s)) < fs_dirent_capacity fs → Z.of_nat (length (dir_entries s)) < u32_max →
  ∃ s', insert_dir_entry_locked fs s p entry = Ret (s', Ok ()) ∧ laid_out s' ∧
    length (dir_entries s') = S (length (dir_entries s)) ∧
    (∀ d, d ∉ dir_inode_indices s → inodes s' !! d = inodes s !! d) ∧
    (∀ d i, d ∈ dir_inode_indices s → inodes s !! d = Some i →
      ∃ i', inodes s' !! d = Some i' ∧ dir_slice (dir_entries s') i' =
        dir_slice (dir_entries s) i ++ (if decide (d = p) then [entry] else [])).
Proof.
  intros Hlo Hp Hcap Hu. destruct (lo_live s Hlo p Hp) as (parent & Hpi & _).
  destruct (insert_dir_entry_result s p parent entry Hlo Hp Hpi Hcap Hu) as (s' & E & Ed & El & Hl & Ho & Hin & _).
  destruct (lo_range s Hlo p parent Hp Hpi) as (R1 & R2 & R3).
  assert (Hd : ∀ d i, inodes s !! d = Some i → d = p → i = parent) by (intros d i Hi ->; congruence).
  assert (Hb : ∀ d i, d ∈ dir_inode_indices s → inodes s !! d = Some i → d ≠ p → beside parent i ∧ beside i parent).
  { intros d i Hdi Hi Hne. split; [by apply (lo_beside s Hlo p d)|by apply (lo_beside s Hlo d p)]. }
  assert (Hlen : length (dir_entries s') = S (length (dir_entries s))).
  { rewrite Ed, length_app. cbn [length]. rewrite length_take, length_drop. unfold end_of. lia. }
  exists s'. split; [done|]. split; [|split; [done|]; split; [done|]].
  - split; rewrite ?El; [apply Hlo| | |].
    + intros d Hdi. destruct (lo_live s Hlo d Hdi) as (i & Hi & Hli). exists (inserted_dir p (end_of parent) d i).
      split; [by apply Hin|by rewrite inserted_live].
    + intros d i' Hdi Hi'. destruct (lo_live s Hlo d Hdi) as (i & Hi & _). rewrite (Hin d i Hdi Hi) in Hi'. simplify_eq.
      destruct (lo_range s Hlo d i Hdi Hi) as (? & ? & ?). rewrite Hlen. unfold inserted_dir.
      case_decide as Ep; [|case_match]; cbn [entry_start entry_count with_entries]; lia.
    + intros d e i' j' Hdi Hei Hne Hi' Hj'. destruct (lo_live s Hlo d Hdi) as (i & Hi & _), (lo_live s Hlo e Hei) as (j & Hj & _).
      rewrite (Hin d i Hdi Hi) in Hi'. rewrite (Hin e j Hei Hj) in Hj'. simplify_eq.
      destruct (lo_range s Hlo d i Hdi Hi) as (? & ? & ?), (lo_range s Hlo e j Hei Hj) as (? & ? & ?).
      apply inserted_beside; eauto. by apply (lo_beside s Hlo d e).
  - intros d i Hdi Hi. exists (inserted_dir p (end_of parent) d i). split; [by apply Hin|]. rewrite Ed.
    destruct (lo_range s Hlo d i Hdi Hi) as (? & ? & ?). apply inserted_slice; eauto.
Qed.

(** The position of the child of an insertion is set and then shifted with the
    others: [name_of] answers with the entry behind the new one, or a question
    mark. *)
Theorem inserted_name_wrong s p parent entry : laid_out s → p ∈ dir_inode_indices s → inodes s !! p = Some parent →
  Z.of_nat (length (dir_entries s)) < fs_dirent_capacity fs → Z.of_nat (length (dir_entries s)) < u32_max →
  let child := Z.to_nat (inode_index entry) in
  (0 < child < length (inode_to_entry_index s))%nat →
  ∃ s', insert_dir_entry_locked fs s p entry = Ret (s', Ok ()) ∧
    name_of s' child = match dir_entries s !! end_of parent with Some e => name e | None => [63] end.
Proof.
  intros Hlo Hp Hpi Hcap Hu child Hc.
  destruct (insert_dir_entry_result s p parent entry Hlo Hp Hpi Hcap Hu) as (s' & E & Ed & _ & _ & _ & _ & Ex).
  destruct (lo_range s Hlo p parent Hp Hpi) as (R1 & R2 & R3).
  exists s'. split; [done|]. unfold name_of. rewrite decide_False by lia. cbv zeta in Ex. fold child in Ex. rewrite Ex.
  rewrite (proj2 (Nat.ltb_lt _ _)) by lia. unfold shift_positions.
  rewrite list_lookup_fmap, list_lookup_insert_eq by lia. cbn. rewrite Nat.leb_refl, Ed.
  assert (Ht : length (take (end_of parent) (dir_entries s)) = end_of parent) by (rewrite length_take; unfold end_of; lia).
  rewrite lookup_app_r, Ht by lia. replace (S (end_of parent) - end_of parent)%nat with 1%nat by lia.
  change ((entry :: drop (end_of parent) (dir_entries s)) !! 1%nat) with (drop (end_of parent) (dir_entries s) !! 0%nat).
  by rewrite lookup_drop, Nat.add_0_r.
Qed.

(** ** Removal *)

Definition shrunk (i : OnDiskInode) : OnDiskInode := with_entries (entry_start i) (entry_count i - 1) i.
Definition pulled (n : Z) (i : OnDiskInode) : OnDiskInode :=
  if n <? entry_start i then with_entries (entry_start i - 1) (entry_count i) i else i.
Definition removed_dir (p n d : nat) (i : OnDiskInode) : OnDiskInode :=
  if decide (d = p) then shrunk i else pulled (Z.of_nat n) i.

Lemma shift_removed_ok p n d i : (d = p → 0 < entry_count i) → shift_removed p n d i = Ret (removed_dir p n d i).
Proof.
  intros Hc. unfold shift_removed, removed_dir, shrunk, pulled, saturating_sub, u32_pred. case_decide as E.
  - specialize (Hc E). by rewrite Z.max_l by lia.
  - destruct (Z.ltb_spec (Z.of_nat n) (entry_start i)); [|done]. by rewrite (proj2 (Z.ltb_lt _ _)) by lia.
Qed.

(** An entry of the parent's slice. *)
Definition entry_of (i : OnDiskInode) (n : nat) : Prop := entry_start i ≤ Z.of_nat n < entry_start i + entry_count i.

(** The removal, when the entry is the parent's. *)
Lemma remove_dir_entry_result s p parent n : laid_out s → p ∈ dir_inode_indices s → inodes s !! p = Some parent →
  Z.of_nat (length (dir_entries s)) < u32_max → entry_of parent n →
  ∃ s' removed, remove_dir_entry_locked s p n = Ret (s', Ok removed) ∧ dir_entries s !! n = Some removed ∧
    dir_entries s' = delete n (dir_entries s) ∧
    dir_inode_indices s' = dir_inode_indices s ∧ length (inodes s') = length (inodes s) ∧
    (∀ d, d ∉ dir_inode_indices s → inodes s' !! d = inodes s !! d) ∧
    (∀ d i, d ∈ dir_inode_indices s → inodes s !! d = Some i → inodes s' !! d = Some (removed_dir p n d i)).
Proof.
  intros Hlo Hp Hpi Hu Hn. unfold remove_dir_entry_locked.
  destruct (save_all_fields s) as (Ei & Ed & El & Ex). set (s0 := save_all_dirents_and_dir_inodes_for_undo s) in *.
  rewrite Ed, Ei, Hpi. destruct (lo_live s Hlo p Hp) as (i & Hi & Hlive).
  assert (i = parent) as -> by congruence. unfold live_dir in Hlive. apply andb_true_iff in Hlive as [Hk Hdel].
  rewrite Hk. apply negb_true_iff in Hdel. rewrite Hdel. cbn [negb orb].
  destruct (lo_range s Hlo p parent Hp Hpi) as (R1 & R2 & R3). unfold entry_of in Hn.
  assert (u32_max < u64_max) by done. unfold checked_add. rewrite (proj2 (Z.leb_le _ _)) by lia.
  rewrite (proj2 (Z.ltb_ge _ _)) by lia. rewrite (proj2 (Z.leb_gt _ _)) by lia. cbn [orb].
  destruct (lookup_lt_is_Some_2 (dir_entries s) n) as [removed Hr]; [lia|].
  unfold vec_remove. rewrite Hr. cbn [mbind outcome_bind]. set (s1 := with_dir_entries _ s0).
  destruct (set_parent_fields (Z.to_nat (inode_index removed)) None s1) as (Ei1 & Ed1 & El1 & Ex1).
  set (s2 := set_parent_of _ _ s1) in *. cbv zeta. rewrite Ei1, El1.
  change (inodes s1) with (inodes s0). change (dir_inode_indices s1) with (dir_inode_indices s0). rewrite Ei, El.
  destruct (update_dirs_ok (shift_removed p n) (dir_inode_indices s) (inodes s) (lo_listed s Hlo)) as (l' & -> & Hl & Ho & Hin).
  { intros d Hd. destruct (lo_live s Hlo d Hd) as (j & Hj & _). exists j. eexists. split; [done|]. apply shift_removed_ok.
    intros ->. assert (j = parent) as -> by congruence. lia. }
  eexists _, removed. split; [reflexivity|]. split; [done|]. cbn [inodes dir_entries dir_inode_indices with_inodes with_inode_to_entry_index].
  split; [by rewrite Ed1|]. split; [by rewrite El1|]. split; [done|]. split; [done|].
  intros d j Hd Hj. destruct (Hin d j Hd Hj) as (j' & Ej & Hj'). rewrite shift_removed_ok in Ej; [congruence|].
  intros ->. assert (j = parent) as -> by congruence. lia.
Qed.

(** A directory beside the one that holds the entry. *)
Lemma beside_entry parent i n : beside parent i → beside i parent → 0 ≤ entry_count i → entry_of parent n →
  entry_start parent + entry_count parent ≤ entry_start i ∨
  (entry_start i ≤ entry_start parent ∧ (entry_count i = 0 ∨ entry_start i + entry_count i ≤ entry_start parent)).
Proof. unfold beside, entry_of. lia. Qed.

Lemma removed_slice (l : list OnDiskDirEntry) p parent n d i : entry_of parent n →
  (d = p → i = parent) → (d ≠ p → beside parent i ∧ beside i parent) →
  0 ≤ entry_start i → 0 ≤ entry_count i → entry_start i + entry_count i ≤ Z.of_nat (length l) →
  0 ≤ entry_start parent → entry_start parent + entry_count parent ≤ Z.of_nat (length l) →
  dir_slice (delete n l) (removed_dir p n d i) =
  if decide (d = p) then delete (n - Z.to_nat (entry_start i))%nat (dir_slice l i) else dir_slice l i.
Proof.
  intros Hn Hd Hb I1 I2 I3 P1 P3. unfold dir_slice, removed_dir. unfold entry_of in Hn. case_decide as E.
  - rewrite (Hd E). cbn [entry_start entry_count with_entries shrunk].
    replace (Z.to_nat (entry_count parent - 1)) with (Z.to_nat (entry_count parent) - 1)%nat by lia. apply slice_delete_in; lia.
  - destruct (Hb E) as [B1 B2]. unfold pulled.
    destruct (beside_entry parent i n B1 B2 I2 Hn) as [Hge|[Hle He]].
    + rewrite (proj2 (Z.ltb_lt _ _)) by lia. cbn [entry_start entry_count with_entries].
      replace (Z.to_nat (entry_start i - 1)) with (Z.to_nat (entry_start i) - 1)%nat by lia. apply slice_delete_after; lia.
    + rewrite (proj2 (Z.ltb_ge _ _)) by lia. destruct He as [->|He]; [done|]. apply slice_delete_before; lia.
Qed.

Lemma removed_beside p parent n d e i j : entry_of parent n → 0 ≤ entry_count i → 0 ≤ entry_count j →
  (d = p → i = parent) → (e = p → j = parent) → (d ≠ p → beside parent i ∧ beside i parent) → (e ≠ p → beside parent j ∧ beside j parent) →
  d ≠ e → beside i j → beside (removed_dir p n d i) (removed_dir p n e j).
Proof.
  intros Hn I J Hd He Bd Be Hne B. unfold removed_dir, pulled, shrunk.
  destruct (decide (d = p)) as [E|E], (decide (e = p)) as [E'|E']; [congruence|..].
  - rewrite (Hd E) in *. destruct (Be E') as [B1 B2]. destruct (beside_entry parent j n B1 B2 J Hn) as [Hge|[Hle Hend]];
      clear B B1 B2 Bd Be; unfold entry_of in Hn; [rewrite (proj2 (Z.ltb_lt _ _)) by lia|rewrite (proj2 (Z.ltb_ge _ _)) by lia];
      unfold beside; cbn [entry_start entry_count with_entries]; lia.
  - rewrite (He E') in *. destruct (Bd E) as [B1 B2]. destruct (beside_entry parent i n B1 B2 I Hn) as [Hge|[Hle Hend]];
      clear B B1 B2 Bd Be; unfold entry_of in Hn; [rewrite (proj2 (Z.ltb_lt _ _)) by lia|rewrite (proj2 (Z.ltb_ge _ _)) by lia];
      unfold beside; cbn [entry_start entry_count with_entries]; lia.
  - destruct (Bd E) as [B1 B2], (Be E') as [B3 B4].
    pose proof (beside_entry parent i n B1 B2 I Hn) as Hi. pose proof (beside_entry parent j n B3 B4 J Hn) as Hj.
    clear Bd Be B1 B2 B3 B4. unfold entry_of in Hn.
    destruct Hi as [Hi|[Hi Hi']], Hj as [Hj|[Hj Hj']]; rewrite ?(proj2 (Z.ltb_lt _ (entry_start i))) by lia;
      rewrite ?(proj2 (Z.ltb_ge _ (entry_start i))) by lia; rewrite ?(proj2 (Z.ltb_lt _ (entry_start j))) by lia;
      rewrite ?(proj2 (Z.ltb_ge _ (entry_start j))) by lia; [|clear B|clear B|exact B];
      unfold beside in *; cbn [entry_start entry_count with_entries]; lia.
Qed.

Lemma removed_range p parent n d i total m : entry_of parent n → (d = p → i = parent) →
  (d ≠ p → beside parent i ∧ beside i parent) → 0 ≤ entry_start parent → entry_start parent + entry_count parent ≤ Z.of_nat total →
  0 ≤ entry_start i → 0 ≤ entry_count i → entry_start i + entry_count i ≤ Z.of_nat total → m = (total - 1)%nat →
  0 ≤ entry_start (removed_dir p n d i) ∧ 0 ≤ entry_count (removed_dir p n d i) ∧
  entry_start (removed_dir p n d i) + entry_count (removed_dir p n d i) ≤ Z.of_nat m.
Proof.
  intros Hn Hd Hb P1 P3 I1 I2 I3 ->. unfold removed_dir, pulled, shrunk, entry_of in *. case_decide as E.
  - rewrite (Hd E) in *. cbn [entry_start entry_count with_entries]. lia.
  - destruct (Hb E) as [B1 B2]. destruct (beside_entry parent i n B1 B2 I2 Hn) as [Hge|[Hle He]].
    + rewrite (proj2 (Z.ltb_lt _ _)) by lia. cbn [entry_start entry_count with_entries]. lia.
    + rewrite (proj2 (Z.ltb_ge _ _)) by lia. lia.
Qed.

Lemma removed_live p n d i : live_dir (removed_dir p n d i) = live_dir i.
Proof. unfold removed_dir, pulled, shrunk. case_decide; [done|]. by case_match. Qed.

(** C17. A removed entry is gone from its directory alone: the others keep theirs, and
    the table stays divided among them. *)
Theorem remove_dir_entry_correct s p parent n : laid_out s → p ∈ dir_inode_indices s → inodes s !! p = Some parent →
  Z.of_nat (length (dir_entries s)) < u32_max → entry_of parent n →
  ∃ s' removed, remove_dir_entry_locked s p n = Ret (s', Ok removed) ∧ dir_entries s !! n = Some removed ∧ laid_out s' ∧
    (∀ d, d ∉ dir_inode_indices s → inodes s' !! d = inodes s !! d) ∧
    (∀ d i, d ∈ dir_inode_indices s → inodes s !! d = Some i →
      ∃ i', inodes s' !! d = Some i' ∧ dir_slice (dir_entries s') i' =
        if decide (d = p) then delete (n - Z.to_nat (entry_start i))%nat (dir_slice (dir_entries s) i)
        else dir_slice (dir_entries s) i).
Proof.
  intros Hlo Hp Hpi Hu Hn.
  destruct (remove_dir_entry_result s p parent n Hlo Hp Hpi Hu Hn) as (s' & removed & E & Hr & Ed & El & Hl & Ho & Hin).
  destruct (lo_range s Hlo p parent Hp Hpi) as (R1 & R2 & R3).
  assert (Hd : ∀ d i, inodes s !! d = Some i → d = p → i = parent) by (intros d i Hi ->; congruence).
  assert (Hb : ∀ d i, d ∈ dir_inode_indices s → inodes s !! d = Some i → d ≠ p → beside parent i ∧ beside i parent).
  { intros d i Hdi Hi Hne. split; [by apply (lo_beside s Hlo p d)|by apply (lo_beside s Hlo d p)]. }
  assert (Hlen : length (dir_entries s') = (length (dir_entries s) - 1)%nat).
  { rewrite Ed. apply lookup_lt_Some in Hr. rewrite length_delete; [lia|]. by apply lookup_lt_is_Some_2. }
  exists s', removed. split; [done|]. split; [done|]. split; [|split; [done|]].
  - split; rewrite ?El; [apply Hlo| | |].
    + intros d Hdi. destruct (lo_live s Hlo d Hdi) as (i & Hi & Hli). exists (removed_dir p n d i).
      split; [by apply Hin|by rewrite removed_live].
    + intros d i' Hdi Hi'. destruct (lo_live s Hlo d Hdi) as (i & Hi & _). rewrite (Hin d i Hdi Hi) in Hi'. simplify_eq.
      destruct (lo_range s Hlo d i Hdi Hi) as (? & ? & ?). apply (removed_range p parent n d i (length (dir_entries s))); eauto.
    + intros d e i' j' Hdi Hei Hne Hi' Hj'. destruct (lo_live s Hlo d Hdi) as (i & Hi & _), (lo_live s Hlo e Hei) as (j & Hj & _).
      rewrite (Hin d i Hdi Hi) in Hi'. rewrite (Hin e j Hei Hj) in Hj'. simplify_eq.
      destruct (lo_range s Hlo d i Hdi Hi) as (? & ? & ?), (lo_range s Hlo e j Hei Hj) as (? & ? & ?).
      apply (removed_beside p parent); eauto. by apply (lo_beside s Hlo d e).
  - intros d i Hdi Hi. exists (removed_dir p n d i). split; [by apply Hin|]. rewrite Ed.
    destruct (lo_range s Hlo d i Hdi Hi) as (? & ? & ?). apply (removed_slice _ p parent); eauto.
Qed.
End Dirs.

(** ** Free extents *)

(** Extents in order, of at least a block, with a block between them. *)
Definition before (p q : Z * Z) : Prop := p.1 + p.2 < q.1.
Fixpoint extents_ok (m : extents) : Prop :=
  match m with [] => True | p :: m => 0 < p.2 ∧ Forall (before p) m ∧ extents_ok m end.

(** The blocks they stand for. *)
Definition in_extent (a : Z) (p : Z * Z) : Prop := p.1 ≤ a < p.1 + p.2.
Definition free_block (m : extents) (a : Z) : Prop := Exists (in_extent a) m.

Lemma extents_ok_app l r : extents_ok (l ++ r) ↔
  extents_ok l ∧ extents_ok r ∧ Forall (λ p, Forall (before p) r) l.
Proof. induction l as [|x l IH]; cbn [app extents_ok]; [|rewrite IH, Forall_app, Forall_cons]; naive_solver. Qed.

(** The extents that begin before block [k], and the others. *)
Lemma extents_split k m : extents_ok m → ∃ l r, m = l ++ r ∧ filter (λ p, p.1 < k) m = l ∧ filter (λ p, k ≤ p.1) m = r ∧
  Forall (λ p, p.1 < k) l ∧ Forall (λ p, k ≤ p.1) r.
Proof.
  induction m as [|p m IH]; intros Hm.
  - exists [], []. by split_and!.
  - destruct Hm as (Hp & Hb & Hm). destruct (IH Hm) as (l & r & -> & El & Er & Hl & Hr).
    destruct (decide (p.1 < k)) as [Hlt|Hge].
    + exists (p :: l), r. rewrite !filter_cons, decide_True, decide_False, El, Er by lia. split_and!; try done. by constructor.
    + assert (l = []) as ->.
      { destruct l as [|q l]; [done|]. apply Forall_cons in Hl as [Hq _]. apply Forall_cons in Hb as [Hb _]. unfold before in Hb. lia. }
      exists [], (p :: r). rewrite !filter_cons, decide_False, decide_True, El by lia. cbn [app] in *. rewrite Er.
      split_and!; try done. constructor; [lia|done].
Qed.

Lemma ext_insert_app k c l r : Forall (λ p, p.1 < k) l → Forall (λ p, k < p.1) r → ext_insert k c (l ++ r) = l ++ (k, c) :: r.
Proof.
  intros Hl Hr. induction Hl as [|p l Hp _ IH]; cbn [app ext_insert].
  - destruct r as [|q r]; [done|]. apply Forall_cons in Hr as [Hq _]. cbn. by rewrite (proj2 (Z.ltb_lt _ _)) by lia.
  - rewrite (proj2 (Z.ltb_ge _ _)), (proj2 (Z.eqb_neq _ _)), IH by lia. done.
Qed.

Lemma ext_remove_app p l r : Forall (λ q, q.1 ≠ p.1) l → Forall (λ q, q.1 ≠ p.1) r → ext_remove p.1 (l ++ p :: r) = l ++ r.
Proof.
  intros Hl Hr. unfold ext_remove. rewrite filter_app, filter_cons, decide_False by naive_solver.
  assert (Hf : ∀ m : extents, Forall (λ q, q.1 ≠ p.1) m → filter (λ q, q.1 ≠ p.1) m = m).
  { induction 1; [done|]. rewrite filter_cons, decide_True by done. by f_equal. }
  by rewrite !Hf.
Qed.

Lemma free_block_app l r a : free_block (l ++ r) a ↔ free_block l a ∨ free_block r a.
Proof. apply Exists_app. Qed.
Lemma free_block_cons p m a : free_block (p :: m) a ↔ in_extent a p ∨ free_block m a.
Proof. apply Exists_cons. Qed.

Lemma extents_positive m : extents_ok m → Forall (λ p, 0 < p.2) m.
Proof. induction m as [|p m IH]; [done|]. intros (Hp & _ & Hm). constructor; [done|by apply IH]. Qed.

(** ** Release *)

(** A run that is not free lies between the extents. *)
Lemma extents_around start count m : extents_ok m → 0 < count → (∀ a, start ≤ a < start + count → ¬ free_block m a) →
  ∃ l r, m = l ++ r ∧ filter (λ p, p.1 < start) m = l ∧ extents_ok l ∧ extents_ok r ∧
    Forall (λ p, p.1 + p.2 ≤ start) l ∧ Forall (λ p, start + count ≤ p.1) r ∧ Forall (λ p, Forall (before p) r) l.
Proof.
  intros Hm Hc Hfree. destruct (extents_split start m Hm) as (l & r & -> & El & _ & Hl & Hr).
  apply extents_ok_app in Hm as (Ol & Or & Hlr). exists l, r. split; [done|]. split; [done|]. split; [done|]. split; [done|].
  pose proof (extents_positive l Ol) as Pl. pose proof (extents_positive r Or) as Pr.
  assert (Hno : ∀ p a, p ∈ l ++ r → start ≤ a < start + count → ¬ in_extent a p).
  { intros p a Hp Ha Hin. apply (Hfree a Ha). apply Exists_exists. by exists p. }
  setoid_rewrite elem_of_app in Hno. split_and!; [| |done]; rewrite Forall_forall in *; intros p Hp.
  - specialize (Hl p Hp). specialize (Pl p Hp). cbv beta in *. destruct (decide (p.1 + p.2 ≤ start)); [done|].
    destruct (Hno p start (or_introl Hp) ltac:(lia)). unfold in_extent. lia.
  - specialize (Hr p Hp). specialize (Pr p Hp). cbv beta in *. destruct (decide (start + count ≤ p.1)); [done|].
    destruct (Hno p p.1 (or_intror Hp) ltac:(lia)). unfold in_extent. lia.
Qed.

(** Merged with the extent before it, if they touch. *)
Lemma merge_before_ok start count m : extents_ok m → 0 < count → (∀ a, start ≤ a < start + count → ¬ free_block m a) →
  ∃ s c l r, merge_before start count m = (s, c, l ++ r) ∧ extents_ok l ∧ extents_ok r ∧ 0 < c ∧ s + c = start + count ∧
    Forall (λ p, p.1 + p.2 < s) l ∧ Forall (λ p, start + count ≤ p.1) r ∧
    ∀ a, free_block (l ++ r) a ∨ s ≤ a < s + c ↔ free_block m a ∨ start ≤ a < start + count.
Proof.
  intros Hm Hc Hfree. destruct (extents_around start count m Hm Hc Hfree) as (l & r & -> & El & Ol & Or & Hl & Hr & Hlr).
  unfold merge_before, ext_before. rewrite El. destruct l as [|[k c] l _] using rev_ind.
  { exists start, count, [], r. by split_and!. }
  rewrite last_snoc. pose proof (extents_positive _ Ol) as Pl. apply extents_ok_app in Ol as (Ol & _ & Hlp).
  rewrite Forall_app, Forall_singleton in Hl, Hlr, Pl. cbn [fst snd] in *. destruct Hl as [Hl Hk], Hlr as [_ Hpr], Pl as [Pl Pk].
  assert (Hlk : Forall (λ p, p.1 + p.2 < k) l).
  { eapply Forall_impl; [exact Hlp|]. intros p Hp. rewrite Forall_singleton in Hp. exact Hp. }
  destruct (Z.eqb_spec (k + c) start) as [E|E].
  - exists k, (count + c), l, r. split.
    { do 2 f_equal. rewrite <- app_assoc. apply (ext_remove_app (k, c)); cbn [fst].
      - rewrite Forall_forall in *. intros q Hq. specialize (Hlk q Hq). specialize (Pl q Hq). cbv beta in *. lia.
      - rewrite Forall_forall in *. intros q Hq. specialize (Hr q Hq). cbv beta in *. lia. }
    split_and!; try done; [lia|lia|]. intros a. rewrite !free_block_app, free_block_cons. unfold in_extent. cbn [fst snd].
    assert (¬ free_block [] a) by by intros ?%Exists_nil. split; intros; naive_solver lia.
  - exists start, count, (l ++ [(k, c)]), r. split; [done|]. split; [|split_and!; try done].
    + apply extents_ok_app. split; [done|]. split; [by cbn|done].
    + apply Forall_app. split; [|apply Forall_singleton; cbn; lia].
      rewrite Forall_forall in *. intros q Hq. specialize (Hlk q Hq). specialize (Pl q Hq). cbv beta in *. lia.
Qed.

(** And with the one behind it. *)
Lemma merge_after_ok s c l r : extents_ok l → extents_ok r → 0 < c → Forall (λ p, p.1 + p.2 < s) l → Forall (λ p, s + c ≤ p.1) r →
  ∃ c' r', merge_after s c (l ++ r) = (c', l ++ r') ∧ extents_ok r' ∧ 0 < c' ∧ Forall (λ p, s + c' < p.1) r' ∧
    ∀ a, free_block r' a ∨ s ≤ a < s + c' ↔ free_block r a ∨ s ≤ a < s + c.
Proof.
  intros Ol Or Hc Hl Hr. pose proof (extents_positive l Ol) as Pl. unfold merge_after, ext_from.
  assert (filter (λ p, s ≤ p.1) (l ++ r) = r) as ->.
  { rewrite filter_app. assert (Hfl : filter (λ p, s ≤ p.1) l = []).
    { rewrite Forall_forall in Hl, Pl. clear -Hl Pl. induction l as [|q l IH]; [done|]. rewrite filter_cons, decide_False.
      - apply IH; intros; [apply Hl|apply Pl]; by right.
      - specialize (Hl q ltac:(by left)). specialize (Pl q ltac:(by left)). cbv beta in *. lia. }
    rewrite Hfl. cbn [app]. rewrite Forall_forall in Hr. clear -Hr Hc. induction r as [|q r IH]; [done|]. rewrite filter_cons, decide_True.
    - f_equal. apply IH. intros; apply Hr; by right. - specialize (Hr q ltac:(by left)). cbv beta in *. lia. }
  destruct r as [|[k k'] r]; cbn [head].
  { exists c, []. split_and!; try done. }
  destruct Or as (Hk & Hkr & Or). apply Forall_cons in Hr as [Hkk Hr]. cbn [fst snd] in *.
  assert (Hkr' : Forall (λ p, k + k' < p.1) r) by (eapply Forall_impl; [exact Hkr|]; by intros).
  destruct (Z.eqb_spec k (s + c)) as [->|E].
  - exists (c + k'), r. split.
    { f_equal. apply (ext_remove_app (s + c, k')); cbn [fst]; rewrite Forall_forall in *; intros q Hq.
      - specialize (Hl q Hq). specialize (Pl q Hq). cbv beta in *. lia.
      - specialize (Hkr' q Hq). cbv beta in *. lia. }
    split_and!; try done; [lia|eapply Forall_impl; [exact Hkr'|]; cbv beta; lia|].
    intros a. rewrite free_block_cons. unfold in_extent. cbn [fst snd]. split; intros; naive_solver lia.
  - exists c, ((k, k') :: r). split; [done|]. split; [by cbn|]. split; [done|]. split; [|done].
    constructor; [cbn; lia|]. eapply Forall_impl; [exact Hkr'|]. cbv beta. lia.
Qed.

Lemma save_free_extents_fields s : free_data_extents (save_free_extents_for_undo s) = free_data_extents s.
Proof. unfold save_free_extents_for_undo. by destruct (u_free_data_extents (undo s)). Qed.

(** C19. Blocks that are released and not free yet become free, as far as they are
    data blocks of the device, and the extents stay apart. *)
Theorem mark_extent_free_correct fs n s start count : extents_ok (free_data_extents s) →
  0 ≤ start → 0 ≤ count → n ≤ u64_max →
  (∀ a, start ≤ a < start + count → fs_data_block_start fs ≤ a < n → ¬ free_block (free_data_extents s) a) →
  let s' := mark_extent_free fs n s start count in
  extents_ok (free_data_extents s') ∧
  ∀ a, free_block (free_data_extents s') a ↔
    free_block (free_data_extents s) a ∨ (start ≤ a < start + count ∧ fs_data_block_start fs ≤ a < n).
Proof.
  intros Hm Hs Hc Hn Hfree s'. subst s'. unfold mark_extent_free.
  destruct (Z.eqb_spec count 0) as [->|Hne]; [split; [done|]; intros a; naive_solver lia|].
  set (lo := Z.max start _). set (hi := Z.min (saturating_add start count) n).
  assert (Hhi : ∀ a, lo ≤ a < hi ↔ start ≤ a < start + count ∧ fs_data_block_start fs ≤ a < n).
  { intros a. unfold lo, hi, saturating_add. lia. }
  destruct (Z.leb_spec hi lo) as [Hle|Hlt].
  { rewrite save_free_extents_fields. split; [done|]. intros a. rewrite <- Hhi. naive_solver lia. }
  rewrite save_free_extents_fields.
  destruct (merge_before_ok lo (hi - lo) (free_data_extents s)) as (k & c & l & r & -> & Ol & Or & Hc' & Ek & Hl & Hr & Hbl); [done|lia| |].
  { intros a Ha. apply Hfree; apply Hhi; lia. }
  rewrite <- Ek in Hr. destruct (merge_after_ok k c l r Ol Or Hc' Hl Hr) as (c2 & r2 & -> & Or2 & Hc2 & Hr2 & Hbl2).
  cbn [free_data_extents with_free_data_extents]. pose proof (extents_positive l Ol) as Pl.
  rewrite ext_insert_app; cycle 1.
  { rewrite Forall_forall in *. intros p Hp. specialize (Hl p Hp). specialize (Pl p Hp). cbv beta in *. lia. }
  { eapply Forall_impl; [exact Hr2|]. cbv beta. lia. }
  split.
  - apply extents_ok_app. split; [done|]. split; [split; [done|]; split; [|done]|].
    + eapply Forall_impl; [exact Hr2|]. by intros.
    + rewrite Forall_forall in *. intros p Hp. specialize (Hl p Hp). cbv beta in Hl. constructor; [done|].
      eapply Forall_impl; [exact (proj2 (Forall_forall _ _) Hr2)|]. intros q Hq. unfold before. cbv beta in Hq. lia.
  - intros a. rewrite free_block_app, free_block_cons. unfold in_extent. cbn [fst snd].
    rewrite <- Hhi. specialize (Hbl a). specialize (Hbl2 a). rewrite free_block_app in Hbl.
    replace (lo + (hi - lo)) with hi in Hbl by lia. rewrite (or_comm (k ≤ a < k + c2)), Hbl2, <- Hbl. split; [intros [?|[?|?]]|intros [[?|?]|?]]; auto.
Qed.

(** ** Allocation *)

Lemma ext_get_Some k c m : ext_get k m = Some c → (k, c) ∈ m.
Proof.
  unfold ext_get. destruct (list_find _ m) as [[i p]|] eqn:E; [|done]. apply list_find_Some in E as (Hi & Hk & _). cbn.
  intros [= <-]. rewrite <- Hk, <- surjective_pairing. by eapply list_elem_of_lookup_2.
Qed.

Lemma ext_get_elem k c m : extents_ok m → (k, c) ∈ m → ext_get k m = Some c.
Proof.
  induction m as [|p m IH]; intros Hm Hin; [by apply elem_of_nil in Hin|]. destruct Hm as (Hp & Hb & Hm).
  unfold ext_get. cbn [list_find]. apply elem_of_cons in Hin as [<-|Hin]; [by rewrite decide_True|].
  rewrite Forall_forall in Hb. specialize (Hb _ Hin). unfold before in Hb. cbn in Hb. rewrite decide_False by (cbn; lia).
  specialize (IH Hm Hin). unfold ext_get in IH. by destruct (list_find _ m) as [[i q]|].
Qed.

(** The first of the smallest extents that fit. *)
Definition fits (n required : Z) (p : Z * Z) : Prop := required ≤ p.2 ∧ p.1 + required ≤ n.

Lemma best_fit_ok n required m best : n < u64_max →
  match best_fit n required m best with
  | Some p => (Some p = best ∨ (p ∈ m ∧ fits n required p)) ∧ (∀ q, q ∈ m → fits n required q → p.2 ≤ q.2) ∧
      (∀ b, best = Some b → p.2 ≤ b.2)
  | None => best = None ∧ ∀ q, q ∈ m → ¬ fits n required q
  end.
Proof.
  intros Hn. revert best. induction m as [|[k c] m IH]; intros best; cbn [best_fit].
  - destruct best as [p|]; [split; [by left|]; split; [by intros q ?%elem_of_nil|by intros b [= ->]]|].
    split; [done|]. by intros q ?%elem_of_nil.
  - assert (Hsat : (saturating_add k required <=? n) = (k + required <=? n)).
    { unfold saturating_add. destruct (Z.leb_spec (k + required) n), (Z.leb_spec (Z.min (k + required) u64_max) n); lia || done. }
    rewrite Hsat. destruct (Z.leb_spec required c) as [H1|H1], (Z.leb_spec (k + required) n) as [H2|H2]; cbn [andb];
      [|specialize (IH best); set (x := best_fit _ _ _ _) in *; assert (Hx : ¬ fits n required (k, c)) by (unfold fits; cbn; lia);
        destruct x; setoid_rewrite elem_of_cons; naive_solver..].
    assert (Hx : fits n required (k, c)) by done.
    destruct best as [[bk bc]|]; [destruct (Z.ltb_spec c bc) as [Hlt|Hge]|].
    + specialize (IH (Some (k, c))). destruct (best_fit _ _ _ _) as [p|]; [|naive_solver]. destruct IH as (I1 & I2 & I3).
      specialize (I3 _ eq_refl). cbn in I3. setoid_rewrite elem_of_cons. split_and!; [naive_solver|naive_solver|]. intros b [= <-]. cbn. lia.
    + specialize (IH (Some (bk, bc))). destruct (best_fit _ _ _ _) as [p|]; [|naive_solver]. destruct IH as (I1 & I2 & I3).
      specialize (I3 _ eq_refl) as I3'. cbn in I3'. setoid_rewrite elem_of_cons. split_and!; [naive_solver| |done].
      intros q [->|Hq] Hf; [cbn; lia|by apply I2].
    + specialize (IH (Some (k, c))). destruct (best_fit _ _ _ _) as [p|]; [|naive_solver]. destruct IH as (I1 & I2 & I3).
      specialize (I3 _ eq_refl). cbn in I3. setoid_rewrite elem_of_cons. split_and!; [naive_solver|naive_solver|done].
Qed.

(** An extent taken from its beginning. *)
Lemma mark_extent_allocated_ok s k c count : extents_ok (free_data_extents s) → (k, c) ∈ free_data_extents s → 0 < count ≤ c →
  let s' := mark_extent_allocated s k count in
  extents_ok (free_data_extents s') ∧
  ∀ a, free_block (free_data_extents s') a ↔ free_block (free_data_extents s) a ∧ ¬ k ≤ a < k + count.
Proof.
  intros Hm Hin Hc s'. subst s'. unfold mark_extent_allocated. rewrite (proj2 (Z.eqb_neq _ _)) by lia.
  rewrite save_free_extents_fields, (ext_get_elem k c) by done. apply list_elem_of_split in Hin as (l & r & Em). rewrite Em in *.
  apply extents_ok_app in Hm as (Ol & (Hcc & Hkr & Or) & Hlr). cbn [fst snd] in *.
  pose proof (extents_positive l Ol) as Pl. pose proof (extents_positive r Or) as Pr.
  assert (Hlk : Forall (λ p, p.1 + p.2 < k) l).
  { eapply Forall_impl; [exact Hlr|]. intros p Hp. apply Forall_cons in Hp as [Hp _]. exact Hp. }
  assert (Hrk : Forall (λ p, k + c < p.1) r) by exact Hkr.
  assert (Hlr' : Forall (λ p, Forall (before p) r) l) by (eapply Forall_impl; [exact Hlr|]; by intros p [_ Hp]%Forall_cons).
  assert (Erm : ext_remove k (l ++ (k, c) :: r) = l ++ r).
  { apply (ext_remove_app (k, c)); cbn [fst]; rewrite Forall_forall in *; intros q Hq.
    - specialize (Hlk q Hq). specialize (Pl q Hq). cbv beta in *. lia.
    - specialize (Hrk q Hq). cbv beta in *. lia. }
  assert (Hout : ∀ a, free_block (l ++ r) a → ¬ k ≤ a < k + c).
  { intros a Ha Hk. apply Exists_exists in Ha as (q & Hq & Hina). unfold in_extent in Hina. rewrite Forall_forall in Hlk, Hrk.
    apply elem_of_app in Hq as [Hq|Hq]; [specialize (Hlk q Hq)|specialize (Hrk q Hq)]; cbv beta in *; lia. }
  rewrite Erm. destruct (Z.eqb_spec c count) as [->|Hne].
  - cbn [free_data_extents with_free_data_extents]. split; [by apply extents_ok_app|]. intros a. specialize (Hout a).
    rewrite free_block_app in *. rewrite free_block_app, free_block_cons. unfold in_extent. cbn [fst snd]. tauto.
  - rewrite (proj2 (Z.ltb_lt _ _)) by lia. cbn [free_data_extents with_free_data_extents]. rewrite ext_insert_app; cycle 1.
    { rewrite Forall_forall in *. intros q Hq. specialize (Hlk q Hq). specialize (Pl q Hq). cbv beta in *. lia. }
    { eapply Forall_impl; [exact Hrk|]. cbv beta. lia. }
    split.
    + apply extents_ok_app. split; [done|]. split; [split; [cbn; lia|]; split; [|done]|].
      * eapply Forall_impl; [exact Hrk|]. intros q Hq. cbv beta in Hq. unfold before. cbn [fst snd]. lia.
      * rewrite Forall_forall in *. intros p Hp. specialize (Hlk p Hp). cbv beta in Hlk. constructor; [unfold before; cbn [fst snd]; lia|by apply Hlr'].
    + intros a. specialize (Hout a). rewrite free_block_app in Hout. rewrite !free_block_app, !free_block_cons.
      unfold in_extent. cbn [fst snd]. replace (k + count + (c - count)) with (k + c) by lia.
      assert (k + count ≤ a < k + c ↔ k ≤ a < k + c ∧ ¬ k ≤ a < k + count) by lia.
      assert (k ≤ a < k + count → k ≤ a < k + c) by lia. tauto.
Qed.

(** C18. A new allocation is given the smallest run of free blocks that is large
    enough, which stops being free and nothing else does; it is refused exactly
    when no run is. *)
Theorem allocation_correct fs n s required : extents_ok (free_data_extents s) → n < u64_max → 0 < required →
  match find_free_data_block_span fs n s required None with
  | Ok start =>
      (∃ c, (start, c) ∈ free_data_extents s ∧ fits n required (start, c) ∧
        ∀ q, q ∈ free_data_extents s → fits n required q → c ≤ q.2) ∧
      let s' := mark_extent_allocated s start required in
      extents_ok (free_data_extents s') ∧
      ∀ a, free_block (free_data_extents s') a ↔ free_block (free_data_extents s) a ∧ ¬ start ≤ a < start + required
  | Err e => e = OutOfMemory ∧ ∀ q, q ∈ free_data_extents s → ¬ fits n required q
  end.
Proof.
  intros Hm Hn Hr. unfold find_free_data_block_span. rewrite (proj2 (Z.eqb_neq _ _)) by lia. cbn [extend_in_place].
  pose proof (best_fit_ok n required (free_data_extents s) None Hn) as Hb.
  destruct (best_fit n required (free_data_extents s) None) as [[k c]|]; [|by split; [|apply Hb]].
  destruct Hb as ([Hb|[Hin Hf]] & Hmin & _); [done|]. split; [by exists c|].
  apply (mark_extent_allocated_ok s k c); [done|done|]. destruct Hf. cbn in *. lia.
Qed.

(** ** The undo log *)

(** The value the log has first for an index, which is the one a rollback leaves. *)
Fixpoint first_logged {A} (log : list (nat * A)) (i : nat) : option A :=
  match log with [] => None | (j, x) :: log => if decide (j = i) then Some x else first_logged log i end.

(** A log and a saved length from which [v] is taken back to [v0]. *)
Record logged {A} (log : list (nat * A)) (len : option nat) (v0 v : list A) : Prop := mkLogged {
  lg_value i x : v0 !! i = Some x → match first_logged log i with Some y => y = x | None => v !! i = Some x end;
  lg_grows : (length v0 ≤ length v)%nat;
  lg_same : len = None → length v = length v0;
  lg_len n : len = Some n → n = length v0;
}.

(** An index whose old value is not needed any more. *)
Definition released {A} (log : list (nat * A)) (v0 : list A) (i : nat) : Prop := is_Some (first_logged log i) ∨ (length v0 ≤ i)%nat.

Section Logged.
Context {A : Type}.
Implicit Types (log : list (nat * A)) (v : list A).

Lemma first_logged_app log log' i :
  first_logged (log ++ log') i = match first_logged log i with Some x => Some x | None => first_logged log' i end.
Proof. induction log as [|[j x] log IH]; [done|]. cbn. by case_decide. Qed.

Lemma replay_cons i x log v : replay ((i, x) :: log) v = <[i := x]> (replay log v).
Proof. done. Qed.

Lemma length_replay log v : length (replay log v) = length v.
Proof. induction log as [|[i x] log IH]; [done|]. by rewrite replay_cons, length_insert. Qed.

Lemma replay_lookup log v i : (i < length v)%nat →
  replay log v !! i = match first_logged log i with Some x => Some x | None => v !! i end.
Proof.
  intros Hi. induction log as [|[j x] log IH]; [done|]. rewrite replay_cons. cbn [first_logged]. case_decide as E.
  - subst. apply list_lookup_insert_eq. by rewrite length_replay.
  - by rewrite list_lookup_insert_ne.
Qed.

Lemma logged_refl v : logged [] None v v.
Proof. by split. Qed.

Lemma logged_save log len v0 v i x : v !! i = Some x → logged log len v0 v → logged (log ++ [(i, x)]) len v0 v.
Proof.
  intros Hi [Hv Hg Hs Hl]. split; [|done|done|done]. intros j y Hj. specialize (Hv j y Hj). rewrite first_logged_app.
  destruct (first_logged log j); [done|]. cbn. case_decide as E; [|done]. subst. congruence.
Qed.

Lemma logged_save_all log len v0 v l : Forall (λ p, v !! p.1 = Some p.2) l → logged log len v0 v → logged (log ++ l) len v0 v.
Proof.
  intros Hl. revert log. induction Hl as [|[i x] l Hi _ IH]; intros log H; [by rewrite app_nil_r|].
  rewrite (cons_middle (i, x) log l), app_assoc. apply IH. by apply logged_save.
Qed.

Lemma logged_write log len v0 v i x : released log v0 i → logged log len v0 v → logged log len v0 (<[i := x]> v).
Proof.
  intros Hr [Hv Hg Hs Hl]. split; rewrite ?length_insert; [|done|done|done]. intros j y Hj. specialize (Hv j y Hj).
  destruct (first_logged log j) eqn:E; [done|]. destruct (decide (i = j)) as [->|Hne]; [|by rewrite list_lookup_insert_ne].
  destruct Hr as [[z Hz]|Hle]; [congruence|]. apply lookup_lt_Some in Hj. lia.
Qed.

Lemma logged_len log v0 v : logged log None v0 v → logged log (Some (length v)) v0 v.
Proof. intros [Hv Hg Hs Hl]. split; [done|done|done|]. intros n [= <-]. by apply Hs. Qed.

Lemma logged_push log n v0 v x : logged log (Some n) v0 v → logged log (Some n) v0 (v ++ [x]).
Proof.
  intros [Hv Hg Hs Hl]. split; [|rewrite length_app; lia|done|done]. intros j y Hj. specialize (Hv j y Hj).
  destruct (first_logged log j); [done|]. by apply lookup_app_l_Some.
Qed.

(** Both orders of the source: the values and then the length, or the reverse. *)
Lemma logged_restores log len v0 v : logged log len v0 v →
  truncate len (replay log v) = v0 ∧ replay log (truncate len v) = v0.
Proof.
  intros [Hv Hg Hs Hl]. assert (Hpoint : ∀ i x, v0 !! i = Some x → match first_logged log i with Some y => Some y | None => v !! i end = Some x).
  { intros i x Hi. specialize (Hv i x Hi). destruct (first_logged log i); congruence. }
  destruct len as [n|]; cbn [truncate].
  - assert (n = length v0) as -> by by apply Hl. split; apply (list_eq_same_length _ _ (length v0)); try done;
      rewrite ?length_take, ?length_replay, ?length_take; try lia; intros i x y Hi Hx Hy.
    + rewrite lookup_take_lt, replay_lookup in Hx by lia. rewrite (Hpoint i y Hy) in Hx. congruence.
    + rewrite replay_lookup, lookup_take_lt in Hx by (rewrite ?length_take; lia). rewrite (Hpoint i y Hy) in Hx. congruence.
  - specialize (Hs eq_refl). split; apply (list_eq_same_length _ _ (length v0)); try done; rewrite ?length_replay; try done;
      intros i x y Hi Hx Hy; rewrite replay_lookup in Hx by lia; rewrite (Hpoint i y Hy) in Hx; congruence.
Qed.

Lemma released_app log log' v0 i : released log v0 i → released (log ++ log') v0 i.
Proof. intros [[x Hx]|Hle]; [left|by right]. rewrite first_logged_app, Hx. by eexists. Qed.
End Logged.

(** A snapshot that is taken before the first change. *)
Definition snapshot {A} (log : option A) (old now : A) : Prop := match log with Some x => x = old | None => now = old end.

(** What the operations of an update leave for a rollback to [s0]. *)
Record restorable (s0 s : SimpleFsState) : Prop := mkRestorable {
  re_inodes : logged (u_inodes (undo s)) (u_inodes_len (undo s)) (inodes s0) (inodes s);
  re_parents : logged (u_parent_of (undo s)) (u_parent_of_len (undo s)) (parent_of s0) (parent_of s);
  re_lens : u_inodes_len (undo s) = None ↔ u_parent_of_len (undo s) = None;
  re_no_dirents : u_dirents (undo s) = [];
  re_dirents : snapshot (u_all_dirents (undo s)) (dir_entries s0) (dir_entries s);
  re_dirs d : is_Some (u_all_dirents (undo s)) → d ∈ dir_inode_indices s → released (u_inodes (undo s)) (inodes s0) d;
  re_slots : snapshot (u_free_inode_slots (undo s)) (free_inode_slots s0) (free_inode_slots s);
  re_indices : snapshot (u_dir_inode_indices (undo s)) (dir_inode_indices s0) (dir_inode_indices s);
  re_extents : snapshot (u_free_data_extents (undo s)) (free_data_extents s0) (free_data_extents s);
  re_xattrs : xattrs s = xattrs s0 ∧ u_xattrs (undo s) = [] ∧ u_xattr_len (undo s) = None;
  re_counts : old_inode_count (undo s) = Some (length (inodes s0)) ∧ old_dirent_count (undo s) = Some (length (dir_entries s0)) ∧
    old_xattr_count (undo s) = Some (length (xattrs s0));
  re_place : (st_active_inode s, st_active_dirent s, st_active_xattr s, st_shadow_inode s, st_shadow_dirent s, st_shadow_xattr s,
    st_generation s, needs_shadow_sync s) = (st_active_inode s0, st_active_dirent s0, st_active_xattr s0, st_shadow_inode s0,
    st_shadow_dirent s0, st_shadow_xattr s0, st_generation s0, needs_shadow_sync s0);
}.

Lemma begin_undo_restorable s : restorable s (begin_undo s).
Proof. split; try done; by intros d [? [=]]. Qed.

(** The tables as the rollback leaves them. *)
Lemma restorable_rollback s0 s : restorable s0 s → let s' := rollback_undo s in
  inodes s' = inodes s0 ∧ dir_entries s' = dir_entries s0 ∧ xattrs s' = xattrs s0 ∧ parent_of s' = parent_of s0 ∧
  free_inode_slots s' = free_inode_slots s0 ∧ dir_inode_indices s' = dir_inode_indices s0 ∧
  free_data_extents s' = free_data_extents s0.
Proof.
  intros [Hi Hp _ Hnd Hd _ Hs Hx He (Ex & Ux & Ul) _ _]. unfold rollback_undo. cbn.
  rewrite (proj1 (logged_restores _ _ _ _ Hi)), (proj2 (logged_restores _ _ _ _ Hp)), Hnd, Ux, Ul. cbn.
  unfold snapshot in *. split_and!; try done.
  - by destruct (u_all_dirents (undo s)). - by destruct (u_free_inode_slots (undo s)).
  - by destruct (u_dir_inode_indices (undo s)). - by destruct (u_free_data_extents (undo s)).
Qed.

(** Each step of an operation keeps it. *)
Section Steps.
Context (s0 : SimpleFsState).

Lemma save_all_restorable s : restorable s0 s → let s' := save_all_dirents_and_dir_inodes_for_undo s in
  restorable s0 s' ∧ is_Some (u_all_dirents (undo s')).
Proof.
  intros H. unfold save_all_dirents_and_dir_inodes_for_undo. destruct (u_all_dirents (undo s)) as [l|] eqn:E; [by rewrite E|].
  split; [|by eexists]. destruct H as [Hi Hp Hl Hnd Hd Hdi Hs Hx He Hxa Hc Hpl]. rewrite E in Hd.
  assert (Hall : Forall (λ p, inodes s !! p.1 = Some p.2) (dir_inodes s)).
  { apply Forall_forall. intros p Hp'. apply list_elem_of_omap in Hp' as (d & _ & Hd'). destruct (inodes s !! d) eqn:Ed; [|done].
    cbn in Hd'. by simplify_eq. }
  split; cbn; try done; [by apply logged_save_all|]. intros d _ Hin.
  destruct (inodes s !! d) as [i|] eqn:Ed; [left|right; apply lookup_ge_None in Ed; pose proof (lg_grows _ _ _ _ Hi); lia].
  rewrite first_logged_app. destruct (first_logged _ d); [by eexists|]. unfold dir_inodes. clear -Hin Ed.
  induction (dir_inode_indices s) as [|e l IH]; [by apply elem_of_nil in Hin|]. cbn.
  apply elem_of_cons in Hin as [<-|Hin]; [rewrite Ed; cbn; rewrite decide_True by done; by eexists|].
  destruct (inodes s !! e) as [j|]; cbn; [case_decide; [by eexists|]|]; by apply IH.
Qed.

Lemma set_parent_restorable s child p : restorable s0 s → restorable s0 (set_parent_of child p s) ∧
  undo (set_parent_of child p s) = log_parent_of (u_parent_of (undo (set_parent_of child p s))) (undo s).
Proof.
  intros H. unfold set_parent_of. destruct (Nat.ltb_spec child (length (parent_of s))) as [Hlt|Hge]; [|by destruct (undo s)].
  unfold save_parent_of_for_undo. destruct (lookup_lt_is_Some_2 (parent_of s) child Hlt) as [q Hq]. rewrite Hq.
  split; [|done]. destruct H as [Hi Hp Hl Hnd Hd Hdi Hs Hx He Hxa Hc Hpl]. split; cbn; try done.
  apply logged_write; [left|by apply logged_save]. rewrite first_logged_app. cbn. rewrite decide_True by done.
  destruct (first_logged _ child); by eexists.
Qed.

Lemma update_dirs_logged f log len v0 dirs l l' : (∀ d, d ∈ dirs → released log v0 d) → update_dirs f dirs l = Ret l' →
  logged log len v0 l → logged log len v0 l'.
Proof.
  revert l. induction dirs as [|d dirs IH]; intros l Hr E H; cbn [update_dirs] in E; [by simplify_eq|].
  destruct (l !! d) as [i|]; [|done]. destruct (f d i) as [i'| |]; try done. cbn [mbind outcome_bind] in E.
  eapply IH; [|exact E|apply logged_write; [apply Hr; by left|done]]. intros e He. apply Hr. by right.
Qed.

(** Entries, positions and directory inodes, once they are logged. *)
Lemma entries_restorable s entries : restorable s0 s → is_Some (u_all_dirents (undo s)) → restorable s0 (with_dir_entries entries s).
Proof.
  intros [Hi Hp Hl Hnd Hd Hdi Hs Hx He Hxa Hc Hpl] [x Hall]. split; cbn; try done. by rewrite Hall in *.
Qed.

Lemma dirs_restorable s index l f : restorable s0 s → is_Some (u_all_dirents (undo s)) →
  update_dirs f (dir_inode_indices s) (inodes s) = Ret l → restorable s0 (with_inodes l (with_inode_to_entry_index index s)).
Proof.
  intros [Hi Hp Hl Hnd Hd Hdi Hs Hx He Hxa Hc Hpl] Hall E. split; cbn; try done.
  eapply update_dirs_logged; [|exact E|done]. intros d. by apply Hdi.
Qed.

Lemma insert_restorable fs s p e s' r : insert_dir_entry_locked fs s p e = Ret (s', r) → restorable s0 s → restorable s0 s'.
Proof.
  unfold insert_dir_entry_locked. intros E H. destruct (save_all_restorable s H) as [Ra Hall].
  set (s1 := save_all_dirents_and_dir_inodes_for_undo s) in *. case_match; [by simplify_eq|].
  destruct (inodes s1 !! p) as [parent|]; [|by simplify_eq]. case_match; [by simplify_eq|].
  destruct (vec_insert _ _ _) as [entries| |]; try done. cbn [mbind outcome_bind] in E. cbv zeta in E.
  pose proof (entries_restorable s1 entries Ra Hall) as Rb.
  destruct (set_parent_restorable _ (Z.to_nat (inode_index e)) (Some p) Rb) as [Rc Eu]. set (s3 := set_parent_of _ _ _) in *.
  destruct (update_dirs _ _ _) as [l| |] eqn:El; try done. cbn [mbind outcome_bind] in E. simplify_eq.
  eapply dirs_restorable; [exact Rc|by rewrite Eu|exact El].
Qed.

Lemma remove_restorable s p n s' r : remove_dir_entry_locked s p n = Ret (s', r) → restorable s0 s → restorable s0 s'.
Proof.
  unfold remove_dir_entry_locked. intros E H. destruct (save_all_restorable s H) as [Ra Hall].
  set (s1 := save_all_dirents_and_dir_inodes_for_undo s) in *.
  destruct (inodes s1 !! p) as [parent|]; [|by simplify_eq]. case_match; [by simplify_eq|].
  destruct (checked_add _ _); [|by simplify_eq]. case_match; [by simplify_eq|].
  destruct (vec_remove _ _) as [[removed entries]| |]; try done. cbn [mbind outcome_bind] in E. cbv zeta in E.
  pose proof (entries_restorable s1 entries Ra Hall) as Rb.
  destruct (set_parent_restorable _ (Z.to_nat (inode_index removed)) None Rb) as [Rc Eu]. set (s3 := set_parent_of _ _ _) in *.
  destruct (update_dirs _ _ _) as [l| |] eqn:El; try done. cbn [mbind outcome_bind] in E. simplify_eq.
  eapply dirs_restorable; [exact Rc|by rewrite Eu|exact El].
Qed.

(** Slots and the list of directories. *)
Lemma save_slots_restorable s : restorable s0 s → let s' := save_dir_indices_for_undo (save_free_slots_for_undo s) in
  restorable s0 s' ∧ is_Some (u_free_inode_slots (undo s')) ∧ is_Some (u_dir_inode_indices (undo s')).
Proof.
  intros [Hi Hp Hl Hnd Hd Hdi Hs Hx He Hxa Hc Hpl]. unfold save_dir_indices_for_undo, save_free_slots_for_undo.
  destruct (u_free_inode_slots (undo s)) as [x|] eqn:E1; cbn; destruct (u_dir_inode_indices (undo s)) as [y|] eqn:E2; cbn in *;
    (split; [split; cbn; rewrite ?E1, ?E2; done|rewrite ?E1, ?E2; cbn; rewrite ?E1, ?E2; split; by eexists]).
Qed.

Lemma dir_list_restorable s l : restorable s0 s → is_Some (u_dir_inode_indices (undo s)) →
  (∀ d, d ∈ l → d ∈ dir_inode_indices s ∨ released (u_inodes (undo s)) (inodes s0) d) → restorable s0 (with_dir_inode_indices l s).
Proof.
  intros [Hi Hp Hl Hnd Hd Hdi Hs Hx He Hxa Hc Hpl] [y Hy] Hsub. split; cbn; try done; [|by rewrite Hy in *].
  intros d Hall Hin. destruct (Hsub d Hin) as [Hd'|Hr]; [by apply Hdi|done].
Qed.

Lemma save_inode_restorable s n : restorable s0 s → let s' := save_inode_for_undo n s in
  restorable s0 s' ∧ released (u_inodes (undo s')) (inodes s0) n.
Proof.
  intros H. unfold save_inode_for_undo. destruct (inodes s !! n) as [i|] eqn:E.
  - destruct H as [Hi Hp Hl Hnd Hd Hdi Hs Hx He Hxa Hc Hpl]. split.
    + split; cbn; try done; [by apply logged_save|]. intros d Hall Hin. by apply released_app, Hdi.
    + left. cbn. rewrite first_logged_app. cbn. rewrite decide_True by done. destruct (first_logged _ n); by eexists.
  - split; [done|]. right. apply lookup_ge_None in E. pose proof (lg_grows _ _ _ _ (re_inodes _ _ H)). lia.
Qed.

Lemma write_inode_restorable s n i : restorable s0 s → released (u_inodes (undo s)) (inodes s0) n →
  restorable s0 (with_inodes (<[n := i]> (inodes s)) s).
Proof. intros [Hi Hp Hl Hnd Hd Hdi Hs Hx He Hxa Hc Hpl] Hr. split; cbn; try done. by apply logged_write. Qed.

(** A slot at the end of the table. *)
Lemma push_restorable s i : restorable s0 s → let s1 := save_inodes_len_for_undo s in
  let s' := with_inode_to_entry_index (inode_to_entry_index s1 ++ [None])
    (with_parent_of (parent_of s1 ++ [None]) (with_inodes (inodes s1 ++ [i]) s1)) in
  restorable s0 s' ∧ u_dir_inode_indices (undo s') = u_dir_inode_indices (undo s) ∧ released (u_inodes (undo s')) (inodes s0) (length (inodes s)).
Proof.
  intros [Hi Hp Hl Hnd Hd Hdi Hs Hx He Hxa Hc Hpl]. pose proof (lg_grows _ _ _ _ Hi) as Hg. unfold save_inodes_len_for_undo.
  destruct (u_inodes_len (undo s)) as [n|] eqn:E; cbn.
  - destruct (u_parent_of_len (undo s)) as [m|] eqn:E2; [|by pose proof (proj2 Hl eq_refl)].
    split; [|split; [done|by right]]. split; cbn; rewrite ?E, ?E2; try done; by apply logged_push.
  - rewrite (proj1 Hl eq_refl) in Hp. split; [|split; [done|by right]]. split; cbn; try done; by apply logged_push, logged_len.
Qed.

Lemma remove_first_elem n l d : d ∈ remove_first n l → d ∈ l.
Proof.
  unfold remove_first. destruct (list_find _ l) as [[i x]|]; [|done].
  rewrite delete_take_drop, elem_of_app, !list_elem_of_In. intros [Hin|Hin].
  - rewrite <- (take_drop i l). apply in_or_app. by left.
  - rewrite <- (take_drop (S i) l). apply in_or_app. by right.
Qed.

Lemma allocate_restorable fs s i : restorable s0 s → restorable s0 (allocate_inode_slot fs s i).1.
Proof.
  intros H. unfold allocate_inode_slot. destruct (save_slots_restorable s H) as (Ra & Hs & Hd).
  set (s1 := save_dir_indices_for_undo (save_free_slots_for_undo s)) in *. cbv zeta.
  assert (Hlist : ∀ s n, restorable s0 s → is_Some (u_dir_inode_indices (undo s)) → released (u_inodes (undo s)) (inodes s0) n →
    restorable s0 (if bool_decide (i_kind i = Directory) then with_dir_inode_indices (dir_inode_indices s ++ [n]) s else s)).
  { intros t n Ht Hdt Hr. case_bool_decide; [|done]. apply dir_list_restorable; [done|done|]. intros d [Hin|Hin]%elem_of_app; [by left|].
    apply list_elem_of_singleton in Hin as ->. by right. }
  destruct (last (free_inode_slots s1)) as [n|].
  - assert (Rb : restorable s0 (with_free_inode_slots (removelast (free_inode_slots s1)) s1)).
    { destruct Ra as [Hi Hp Hl Hnd Hdd Hdi Hss Hx He Hxa Hc Hpl], Hs as [y Hy]. split; cbn; try done. by rewrite Hy in *. }
    destruct (save_inode_restorable _ n Rb) as [Rc Hr]. set (s2 := with_free_inode_slots _ s1) in *.
    set (s3 := save_inode_for_undo n s2) in *.
    assert (Hd3 : is_Some (u_dir_inode_indices (undo s3))) by (unfold s3, save_inode_for_undo; by destruct (inodes s2 !! n)).
    destruct (inodes s3 !! n) as [slot|]; [|done]. cbn [fst].
    set (s4 := if _ && _ then _ else s3).
    assert (restorable s0 s4 ∧ undo s4 = undo s3) as [Rd Eu].
    { unfold s4. destruct (_ && _); [|done]. split; [|done]. apply dir_list_restorable; [done|done|]. intros d Hin. left. by eapply remove_first_elem. }
    rewrite <- Eu in Hr, Hd3. pose proof (write_inode_restorable s4 n i Rd Hr) as Re. set (s5 := with_inodes _ s4) in *.
    destruct (set_parent_restorable s5 n None Re) as [Rf Eu5]. set (s6 := set_parent_of n None s5) in *.
    apply Hlist; [|cbn; by rewrite Eu5|cbn; by rewrite Eu5].
    destruct Rf as [Hi Hp Hl Hnd Hdd Hdi Hss Hx He Hxa Hc Hpl]. by split.
  - destruct (fs_inode_capacity fs <=? _); [exact Ra|]. destruct (push_restorable s1 i Ra) as (Rb & Ed & Hr). cbn [fst].
    assert (El : length (inodes (save_inodes_len_for_undo s1)) = length (inodes s1)).
    { unfold save_inodes_len_for_undo. by destruct (u_inodes_len (undo s1)). }
    rewrite El. apply Hlist; [exact Rb|exact (eq_ind_r is_Some Hd Ed)|exact Hr].
Qed.

(** Extents. *)
Lemma extents_restorable s m : restorable s0 s → restorable s0 (with_free_data_extents m (save_free_extents_for_undo s)).
Proof.
  intros [Hi Hp Hl Hnd Hd Hdi Hs Hx He Hxa Hc Hpl]. unfold save_free_extents_for_undo.
  destruct (u_free_data_extents (undo s)) as [y|] eqn:E; split; cbn; try done. by rewrite E.
Qed.

Lemma save_extents_restorable s : restorable s0 s → restorable s0 (save_free_extents_for_undo s).
Proof.
  intros [Hi Hp Hl Hnd Hd Hdi Hs Hx He Hxa Hc Hpl]. unfold save_free_extents_for_undo.
  destruct (u_free_data_extents (undo s)) as [y|] eqn:E; split; cbn; try done. by rewrite E.
Qed.

Lemma mark_allocated_restorable s start count : restorable s0 s → restorable s0 (mark_extent_allocated s start count).
Proof.
  intros H. unfold mark_extent_allocated. case_match; [done|]. pose proof (save_extents_restorable s H).
  destruct (ext_get _ _); [|done]. case_match; [by apply extents_restorable|]. case_match; [by apply extents_restorable|done].
Qed.

Lemma mark_free_restorable fs n s start count : restorable s0 s → restorable s0 (mark_extent_free fs n s start count).
Proof.
  intros H. unfold mark_extent_free. case_match; [done|]. case_match; [by apply save_extents_restorable|].
  destruct (merge_before _ _ _) as [[k c] m]. destruct (merge_after _ _ _) as [c' m']. by apply extents_restorable.
Qed.
End Steps.

(** What an update is made of: entries and slots, an inode that is saved and
    overwritten, and extents. *)
Inductive edit (fs : SimpleFs) (n : Z) : SimpleFsState → SimpleFsState → Prop :=
| edit_insert s p e s' r : insert_dir_entry_locked fs s p e = Ret (s', r) → edit fs n s s'
| edit_remove s p k s' r : remove_dir_entry_locked s p k = Ret (s', r) → edit fs n s s'
| edit_allocate s i : edit fs n s (allocate_inode_slot fs s i).1
| edit_inode s k i : edit fs n s (with_inodes (<[k := i]> (inodes (save_inode_for_undo k s))) (save_inode_for_undo k s))
| edit_take s start count : edit fs n s (mark_extent_allocated s start count)
| edit_release s start count : edit fs n s (mark_extent_free fs n s start count).

Lemma edits_restorable fs n s0 s s' : rtc (edit fs n) s s' → restorable s0 s → restorable s0 s'.
Proof.
  induction 1 as [|s1 s2 s3 He _ IH]; [done|]. intros H. apply IH. clear IH. destruct He.
  - by eapply insert_restorable.
  - by eapply remove_restorable.
  - by apply allocate_restorable.
  - destruct (save_inode_restorable s0 s k H) as [Ra Hr]. by apply write_inode_restorable.
  - by apply mark_allocated_restorable.
  - by apply mark_free_restorable.
Qed.

(** C14. Whatever an update did, its rollback restores the tables, the parents, the
    free slots and extents and the list of directories, and it leaves the slots
    of the volume and the counts of the tables in use to the commit. *)
Theorem updates_roll_back fs n s0 s : rtc (edit fs n) (begin_undo s0) s →
  (let s' := rollback_undo s in
   inodes s' = inodes s0 ∧ dir_entries s' = dir_entries s0 ∧ xattrs s' = xattrs s0 ∧ parent_of s' = parent_of s0 ∧
   free_inode_slots s' = free_inode_slots s0 ∧ dir_inode_indices s' = dir_inode_indices s0 ∧
   free_data_extents s' = free_data_extents s0) ∧
  (old_inode_count (undo s) = Some (length (inodes s0)) ∧ old_dirent_count (undo s) = Some (length (dir_entries s0)) ∧
   old_xattr_count (undo s) = Some (length (xattrs s0))) ∧
  (st_active_inode s, st_active_dirent s, st_active_xattr s, st_shadow_inode s, st_shadow_dirent s, st_shadow_xattr s,
   st_generation s, needs_shadow_sync s) = (st_active_inode s0, st_active_dirent s0, st_active_xattr s0, st_shadow_inode s0,
   st_shadow_dirent s0, st_shadow_xattr s0, st_generation s0, needs_shadow_sync s0).
Proof.
  intros Hs. pose proof (edits_restorable fs n s0 _ _ Hs (begin_undo_restorable s0)) as H.
  split; [by apply restorable_rollback|]. split; [apply H|apply H].
Qed.

(** ** A volume with two directories *)

Definition dir_of (start count : Z) : OnDiskInode := mkInode Directory false start count 0 0 0 None 0 false false.
Definition demo_file : OnDiskInode := mkInode File false 0 0 12 3 1100 None 0 false false.
Definition demo_state : SimpleFsState :=
  mkState [dir_of 0 1; dir_of 1 1; demo_file; demo_file] [mkDirent 1 Directory [100]; mkDirent 2 File [102]] 2 3 4 5 1 false [] []
    [None; Some 0%nat; Some 1%nat; None] [None; Some 0%nat; Some 1%nat; None] [(8, 4); (20, 9)] [0%nat; 1%nat] UndoLog_default []
    0 0 ∅ ∅ ∅.
Definition demo_fs : SimpleFs := mkFs [] V2 true 1 1 8 16 8 0 0.
Definition new_entry : OnDiskDirEntry := mkDirent 3 File [103].

Lemma demo_laid_out : laid_out demo_state.
Proof.
  assert (Hd : ∀ d, d ∈ dir_inode_indices demo_state → d = 0%nat ∨ d = 1%nat).
  { intros d Hd. cbn in Hd. rewrite !elem_of_cons, elem_of_nil in Hd. naive_solver. }
  split.
  - by apply (bool_decide_unpack (NoDup [0%nat; 1%nat])).
  - intros d [->| ->]%Hd; by eexists.
  - intros d i [->| ->]%Hd [= <-]; cbn; lia.
  - intros d e i j [->| ->]%Hd [->| ->]%Hd Hne [= <-] [= <-]; try done; unfold beside; cbn; lia.
Qed.

Lemma demo_extents_ok : extents_ok (free_data_extents demo_state).
Proof. cbn. repeat split; try lia; repeat constructor; unfold before; cbn; lia. Qed.

Lemma insert_dir_entry_correct_witness : 0%nat ∈ dir_inode_indices demo_state ∧
  ∃ s', insert_dir_entry_locked demo_fs demo_state 0 new_entry = Ret (s', Ok ()) ∧ laid_out s' ∧
    length (dir_entries s') = S (length (dir_entries demo_state)) ∧
    (∀ d, d ∉ dir_inode_indices demo_state → inodes s' !! d = inodes demo_state !! d) ∧
    (∀ d i, d ∈ dir_inode_indices demo_state → inodes demo_state !! d = Some i →
      ∃ i', inodes s' !! d = Some i' ∧ dir_slice (dir_entries s') i' =
        dir_slice (dir_entries demo_state) i ++ (if decide (d = 0%nat) then [new_entry] else [])).
Proof. split; [by left|]. apply insert_dir_entry_correct; [apply demo_laid_out|by left|done|done]. Defined.

Lemma updates_roll_back_witness :
  let s1 := (allocate_inode_slot demo_fs (begin_undo demo_state) demo_file).1 in
  ∃ s2, insert_dir_entry_locked demo_fs s1 1 (mkDirent 4 File [104]) = Ret (s2, Ok ()) ∧ dir_entries s2 ≠ dir_entries demo_state ∧
  let s' := rollback_undo (mark_extent_allocated s2 8 2) in
  inodes s' = inodes demo_state ∧ dir_entries s' = dir_entries demo_state.
Proof.
  intros s1. destruct (insert_dir_entry_locked demo_fs s1 1 (mkDirent 4 File [104])) as [[s2 r]| |] eqn:E; [|vm_compute in E; done..].
  exists s2. assert (Hr : r = Ok ()) by (vm_compute in E; by simplify_eq). rewrite Hr.
  split; [done|]. split; [vm_compute in E; simplify_eq; done|]. intros s'.
  destruct (updates_roll_back demo_fs 64 demo_state (mark_extent_allocated s2 8 2)) as [(Hi & Hd & _) _]; [|exact (conj Hi Hd)].
  eapply rtc_l; [apply edit_allocate|]. eapply rtc_l; [eapply edit_insert; exact E|]. eapply rtc_l; [apply edit_take|apply rtc_refl].
Defined.

Lemma inserted_name_wrong_witness :
  ∃ s', insert_dir_entry_locked demo_fs demo_state 0 new_entry = Ret (s', Ok ()) ∧ name_of s' 3 = [102].
Proof. apply (inserted_name_wrong demo_fs demo_state 0 (dir_of 0 1) new_entry); [apply demo_laid_out|by left|done|done|done|cbn; lia]. Defined.

Lemma remove_dir_entry_correct_witness : entry_of (dir_of 0 1) 0 ∧
  ∃ s' removed, remove_dir_entry_locked demo_state 0 0 = Ret (s', Ok removed) ∧ dir_entries demo_state !! 0%nat = Some removed ∧
    laid_out s' ∧
    (∀ d, d ∉ dir_inode_indices demo_state → inodes s' !! d = inodes demo_state !! d) ∧
    (∀ d i, d ∈ dir_inode_indices demo_state → inodes demo_state !! d = Some i →
      ∃ i', inodes s' !! d = Some i' ∧ dir_slice (dir_entries s') i' =
        if decide (d = 0%nat) then delete (0 - Z.to_nat (entry_start i))%nat (dir_slice (dir_entries demo_state) i)
        else dir_slice (dir_entries demo_state) i).
Proof.
  assert (He : entry_of (dir_of 0 1) 0) by (unfold entry_of; cbn; lia). split; [exact He|].
  apply (remove_dir_entry_correct demo_state 0 (dir_of 0 1) 0); [apply demo_laid_out|by left|done|done|exact He].
Defined.

Lemma mark_extent_free_correct_witness : let s' := mark_extent_free demo_fs 64 demo_state 12 8 in
  extents_ok (free_data_extents s') ∧
  ∀ a, free_block (free_data_extents s') a ↔
    free_block (free_data_extents demo_state) a ∨ (12 ≤ a < 12 + 8 ∧ fs_data_block_start demo_fs ≤ a < 64).
Proof.
  apply (mark_extent_free_correct demo_fs 64 demo_state 12 8); [apply demo_extents_ok|lia|lia|done|].
  intros a Ha _. cbn. rewrite !free_block_cons. unfold in_extent, free_block. rewrite Exists_nil. cbn. lia.
Defined.

Lemma allocation_correct_witness : find_free_data_block_span demo_fs 64 demo_state 3 None = Ok 8 ∧
  match find_free_data_block_span demo_fs 64 demo_state 3 None with
  | Ok start =>
      (∃ c, (start, c) ∈ free_data_extents demo_state ∧ fits 64 3 (start, c) ∧
        ∀ q, q ∈ free_data_extents demo_state → fits 64 3 q → c ≤ q.2) ∧
      let s' := mark_extent_allocated demo_state start 3 in
      extents_ok (free_data_extents s') ∧
      ∀ a, free_block (free_data_extents s') a ↔ free_block (free_data_extents demo_state) a ∧ ¬ start ≤ a < start + 3
  | Err e => e = OutOfMemory ∧ ∀ q, q ∈ free_data_extents demo_state → ¬ fits 64 3 q
  end.
Proof. split; [by vm_compute|]. apply (allocation_correct demo_fs 64 demo_state 3); [apply demo_extents_ok|done|lia]. Defined.
