(* ===== verification/SfsCommit.v ===== *)
(** * Commits and mounts of SimpleFS (src/fs/simplefs)

    A metadata commit (extent_repair.rs, superblock.rs): the tables are encoded,
    written into the slot that is not in use, and published by the two mirrors
    of the superblock.  A mount (format_io.rs, superblock.rs): the newest mirror
    that is readable and whose tables are valid.  Metadata is written through to
    the device and the blocks are left in the volume's block cache, which the
    next commit compares with.  The device is the cache's; requests are of the
    kind that complete in place, as the default methods of the trait do. *)

From stdpp Require Import base tactics decidable numbers list gmap sorting.
From Stdlib Require Import ZArith Lia Bool.
From S2P Require Import Prelude Bytes Unicode BlockDevice BlockCache SfsFormat SfsTree SfsState.

Inductive DeviceHealth := Healthy | Degraded | Failed.

(** [BlockDevice::device_health]. *)
Class HealthDevice (D : Type) := { device_health : D → DeviceHealth }.

Section Io.
Context {D : Type} `{BlockDevice D} `{HealthDevice D}.
Notation cache := (BlockCache D).

Definition device_failed (d : D) : bool := match device_health d with Failed => true | _ => false end.

(** ** Writing metadata (superblock.rs) *)

(** [for i in 0..block_count { cache.populate_clean(lba + i, &data[offset..offset + BLOCK_SIZE]) }]. *)
Fixpoint populate_run (c : cache) (lba : Z) (data : bytes) (indices : list nat) : outcome cache :=
  match indices with
  | [] => Ret c
  | i :: indices =>
      c ← populate_clean c (lba + Z.of_nat i) (sector data i);
      populate_run c lba data indices
  end.

Definition write_blocks_cached (c : cache) (lba : Z) (data : bytes) : outcome (cache * result unit) :=
  if device_failed (device c) then Ret (c, Err DeviceError) else
  let block_count := (length data / BLOCK_SIZE)%nat in
  '(d, r) ← write_blocks (device c) lba data;
  let c := set_device c d in
  match r with
  | Err e => Ret (c, Err e)
  | Ok _ => c ← populate_run c lba data (seq 0 block_count); Ret (c, Ok ())
  end.

(** The run of blocks that differ, [image[start * BLOCK_SIZE..offset]], if one is
    open; the last one ends with the image, which is whole blocks. *)
Definition flush_run (c : cache) (base : Z) (image : bytes) (run_start : option nat) (index : nat)
    : outcome (cache * result unit) :=
  match run_start with
  | None => Ret (c, Ok ())
  | Some start =>
      write_blocks_cached c (base + Z.of_nat start) (slice image (start * BLOCK_SIZE) (index * BLOCK_SIZE))
  end.

(** What the slot holds: [match cache.cached(..) { Some(..), None => cache.read_cached(..)? }]. *)
Definition on_disk (c : cache) (lba : Z) : outcome (cache * result bytes) :=
  match cached c lba with
  | Some b => Ret (c, Ok b)
  | None => read_cached c lba BLOCK_SIZE
  end.

(** [for index in 0..block_count] of the differential write; the open run is
    written at the end. *)
Fixpoint write_changed (c : cache) (base : Z) (image : bytes) (n index : nat) (run_start : option nat)
    : outcome (cache * result unit) :=
  match n with
  | O => flush_run c base image run_start index
  | S n =>
      '(c, r) ← on_disk c (base + Z.of_nat index);
      match r with
      | Err e => Ret (c, Err e)
      | Ok b =>
          if bool_decide (b = sector image index) then
            '(c, r) ← flush_run c base image run_start index;
            match r with
            | Err e => Ret (c, Err e)
            | Ok _ => write_changed c base image n (S index) None
            end
          else
            write_changed c base image n (S index)
              (match run_start with None => Some index | s => s end)
      end
  end.

Definition write_shadow_table (c : cache) (base : Z) (image : bytes) (full : bool) : outcome (cache * result unit) :=
  if device_failed (device c) then Ret (c, Err DeviceError)
  else if full then write_blocks_cached c base image
  else write_changed c base image (length image / BLOCK_SIZE) 0 None.

(** [self.f(..)?; ..]: the calls of a commit, in sequence. *)
Definition and_then (r : outcome (cache * result unit)) (k : cache → outcome (cache * result unit))
    : outcome (cache * result unit) :=
  '(c, r) ← r;
  match r with Ok _ => k c | Err e => Ret (c, Err e) end.

(** ** Commits (extent_repair.rs) *)

Context (fs : SimpleFs).

Record RuntimeMetadataImage := mkImage { inode_table : bytes; dirent_table : bytes; xattr_table : bytes }.

(** [write(..).expect(..)]. *)
Definition expect {A} (o : outcome (result A)) : outcome A :=
  r ← o; match r with Ok a => Ret a | Err _ => Panic end.

Definition zeroed (blocks : Z) : bytes := replicate (Z.to_nat blocks * BLOCK_SIZE) 0.

Definition runtime_metadata_image (s : SimpleFsState) : outcome RuntimeMetadataImage :=
  let v := fs_format_version fs in
  inode_table ← expect (write_runtime_inode_table (zeroed (fs_inode_table_blocks fs)) v 0 (inodes s));
  dirent_table ← expect (write_runtime_dir_entry_table (zeroed (fs_dirent_table_blocks fs)) v 0 (dir_entries s));
  xattr_table ←
    (if supports_persistent_xattrs v
     then expect (write_runtime_xattr_table (zeroed (fs_xattr_table_blocks fs)) v 0 (xattrs s))
     else Ret []);
  Ret (mkImage inode_table dirent_table xattr_table).

Definition runtime_superblock_record (s : SimpleFsState) : SuperblockRecord :=
  mkSuper (Z.of_nat (length (inodes s))) (Z.of_nat (length (dir_entries s)))
    (st_active_inode s) (st_active_dirent s) (st_shadow_inode s) (st_shadow_dirent s)
    (fs_inode_table_blocks fs) (fs_dirent_table_blocks fs) (fs_data_block_start fs)
    (st_generation s) 0 (st_active_xattr s) (st_shadow_xattr s) (fs_xattr_table_blocks fs)
    (Z.of_nat (length (xattrs s))).

(** The record of phase 1: the tables in use, with their lengths. *)
Definition pending_record (s : SimpleFsState) (next_generation : Z) : SuperblockRecord :=
  let u := undo s in
  mkSuper (Z.of_nat (default (length (inodes s)) (old_inode_count u)))
    (Z.of_nat (default (length (dir_entries s)) (old_dirent_count u)))
    (st_active_inode s) (st_active_dirent s) (st_shadow_inode s) (st_shadow_dirent s)
    (fs_inode_table_blocks fs) (fs_dirent_table_blocks fs) (fs_data_block_start fs)
    (st_generation s) next_generation (st_active_xattr s) (st_shadow_xattr s) (fs_xattr_table_blocks fs)
    (Z.of_nat (default (length (xattrs s)) (old_xattr_count u))).

(** The record of phase 3: the slots exchanged. *)
Definition publish_record (s : SimpleFsState) (next_generation : Z) : SuperblockRecord :=
  mkSuper (Z.of_nat (length (inodes s))) (Z.of_nat (length (dir_entries s)))
    (st_shadow_inode s) (st_shadow_dirent s) (st_active_inode s) (st_active_dirent s)
    (fs_inode_table_blocks fs) (fs_dirent_table_blocks fs) (fs_data_block_start fs)
    next_generation 0 (st_shadow_xattr s) (st_active_xattr s) (fs_xattr_table_blocks fs)
    (Z.of_nat (length (xattrs s))).

(** Both mirrors, the secondary first. *)
Definition write_mirrors (c : cache) (r : SuperblockRecord) : outcome (cache * result unit) :=
  block ← write_superblock (fs_label fs) (fs_format_version fs) r;
  and_then (write_blocks_cached c SECONDARY_SUPERBLOCK_BLOCK block) (λ c,
  write_blocks_cached c PRIMARY_SUPERBLOCK_BLOCK block).

Definition write_pending (c : cache) (s : SimpleFsState) (next_generation : Z) : outcome (cache * result unit) :=
  if has_layout (fs_format_version fs) then write_mirrors c (pending_record s next_generation)
  else Ret (c, Ok ()).

Definition write_tables (c : cache) (s : SimpleFsState) (image : RuntimeMetadataImage) : outcome (cache * result unit) :=
  and_then (write_shadow_table c (st_shadow_inode s) (inode_table image) (needs_shadow_sync s)) (λ c,
  and_then (write_shadow_table c (st_shadow_dirent s) (dirent_table image) (needs_shadow_sync s)) (λ c,
  if supports_persistent_xattrs (fs_format_version fs)
  then write_shadow_table c (st_shadow_xattr s) (xattr_table image) (needs_shadow_sync s)
  else Ret (c, Ok ()))).

(** The writes of a commit, in their order. *)
Definition commit_writes (c : cache) (s : SimpleFsState) (image : RuntimeMetadataImage) (next_generation : Z)
    : outcome (cache * result unit) :=
  and_then (write_pending c s next_generation) (λ c,
  and_then (write_tables c s image) (λ c,
  write_mirrors c (publish_record s next_generation))).

(** The slots exchanged in memory. *)
Definition swap_slots (s : SimpleFsState) (next_generation : Z) : SimpleFsState :=
  mkState (inodes s) (dir_entries s) (st_shadow_inode s) (st_shadow_dirent s) (st_active_inode s)
    (st_active_dirent s) next_generation false (staging_roots s) (free_inode_slots s) (parent_of s)
    (inode_to_entry_index s) (free_data_extents s) (dir_inode_indices s) (undo s) (xattrs s)
    (st_shadow_xattr s) (st_active_xattr s) (dedup_refcounts s) (dedup_hash_to_extents s) (open_handles s).

Definition flush_metadata_inner (c : cache) (s : SimpleFsState) : outcome (cache * SimpleFsState * result unit) :=
  image ← runtime_metadata_image s;
  if st_generation s + 1 <=? u32_max then
    let next_generation := st_generation s + 1 in
    '(c, r) ← commit_writes c s image next_generation;
    match r with
    | Err e => Ret (c, s, Err e)
    | Ok _ => Ret (c, swap_slots s next_generation, Ok ())
    end
  else Ret (c, s, Err InvalidArgument).

Definition flush_metadata (c : cache) (s : SimpleFsState) : outcome (cache * SimpleFsState * result unit) :=
  '(c, s, r) ← flush_metadata_inner c s;
  Ret (c, match r with Ok _ => s | Err _ => with_needs_shadow_sync true s end, r).

Definition validate_runtime_state (d : D) (s : SimpleFsState) : result unit :=
  if (fs_inode_capacity fs <? Z.of_nat (length (inodes s))) || (fs_dirent_capacity fs <? Z.of_nat (length (dir_entries s)))
  then Err InternalError else
  match validate_superblock_record (runtime_superblock_record s) with
  | Err _ => Err InternalError
  | Ok _ =>
      match validate_loaded_metadata (inodes s) (dir_entries s) (fs_format_version fs) (fs_data_block_start fs)
              (block_count d) (fs_case_sensitive fs) with
      | Err _ => Err InternalError
      | Ok _ => Ok ()
      end
  end.

(** [commit_metadata_update]: the closure may also write data blocks. *)
Definition commit_metadata_update {T} (mutate : cache → SimpleFsState → outcome (cache * SimpleFsState * result T))
    (c : cache) (s : SimpleFsState) : outcome (cache * SimpleFsState * result T) :=
  '(c, s, r) ← mutate c (begin_undo s);
  match r with
  | Err e => Ret (c, rollback_undo s, Err e)
  | Ok a =>
      match validate_runtime_state (device c) s with
      | Err e => Ret (c, rollback_undo s, Err e)
      | Ok _ =>
          '(c, s, r) ← flush_metadata c s;
          match r with
          | Err e => Ret (c, rollback_undo s, Err e)
          | Ok _ => Ret (c, commit_undo s, Ok a)
          end
      end
  end.
End Io.

(** ** Mounts

    The mirrors of the superblock are read, the newest whose tables are valid is
    taken, and the state of the volume is built from it.  A read that is
    submitted completes in place, as the trait's default does, and is polled. *)
Section Mount.
Context {D : Type} `{BlockDevice D}.

(** ** Reads *)

(** The default [submit_read]: the data is there when the ticket is answered. *)
Definition submit_read (d : D) (lba : Z) (len : nat) : outcome (D * result (Ticket * bytes)) :=
  '(d, r) ← read_blocks d lba len;
  Ret (d, match r with Ok data => Ok (DONE, data) | Err e => Err e end).

(** [MOUNT_READ_POLL_LIMIT] is the limit of the cache's flushes; [2^26] polls
    exceed it. *)
Definition wait_for_read (d : D) (ticket : Ticket) : outcome (D * result unit) :=
  match poll_rounds 26 ticket d 0 with
  | (d, inr r) => Ret (d, r)
  | (_, inl _) => NoFuel
  end.

(** [ticket.and_then(|ticket| wait_for_read(device, ticket))]. *)
Definition await (d : D) (submitted : result (Ticket * bytes)) : outcome (D * result bytes) :=
  match submitted with
  | Err e => Ret (d, Err e)
  | Ok (ticket, data) =>
      '(d, r) ← wait_for_read d ticket;
      Ret (d, match r with Ok _ => Ok data | Err e => Err e end)
  end.

(** ** The mirrors *)

Definition candidate (r : result bytes) : list (bytes * ParsedSuperblock) :=
  match r with
  | Ok block => match parse_superblock block with Ok p => [p] | Err _ => [] end
  | Err _ => []
  end.

Definition readable_superblock_candidates (d : D) : outcome (D * list (bytes * ParsedSuperblock)) :=
  '(d, primary) ← submit_read d PRIMARY_SUPERBLOCK_BLOCK BLOCK_SIZE;
  '(d, secondary) ← submit_read d SECONDARY_SUPERBLOCK_BLOCK BLOCK_SIZE;
  '(d, primary) ← await d primary;
  '(d, secondary) ← await d secondary;
  Ret (d, candidate primary ++ candidate secondary).

(** ** The tables *)

(** [blocks_for(bytes) * BLOCK_SIZE]. *)
Definition buffer_len (table_bytes : Z) : nat := Z.to_nat (blocks_for table_bytes) * BLOCK_SIZE.

(** Both reads are drained, then read again the waiting way. *)
Definition drain (d : D) (submitted : result (Ticket * bytes)) : outcome D :=
  '(d, _) ← await d submitted; Ret d.

Definition read_tables (d : D) (inode_block : Z) (inode_len : nat) (dirent_block : Z) (dirent_len : nat)
    : outcome (D * result (bytes * bytes)) :=
  '(d, inode_ticket) ← submit_read d inode_block inode_len;
  '(d, dirent_ticket) ← submit_read d dirent_block dirent_len;
  match inode_ticket, dirent_ticket with
  | Ok _, Ok _ =>
      '(d, inode_read) ← await d inode_ticket;
      '(d, dirent_read) ← await d dirent_ticket;
      Ret (d, let? i := inode_read in let? e := dirent_read in Ok (i, e))
  | _, _ =>
      d ← drain d inode_ticket;
      d ← drain d dirent_ticket;
      '(d, inode_read) ← read_blocks d inode_block inode_len;
      match inode_read with
      | Err e => Ret (d, Err e)
      | Ok i =>
          '(d, dirent_read) ← read_blocks d dirent_block dirent_len;
          Ret (d, let? e := dirent_read in Ok (i, e))
      end
  end.

(** What is decoded of the tables, and checked. *)
Definition decode_tables (v : SimpleFsFormatVersion) (sb : SuperblockRecord) (device_blocks : Z)
    (case_sensitive : bool) (buffers : bytes * bytes) : result (list OnDiskInode * list OnDiskDirEntry) :=
  let? inodes := decode_inodes v buffers.1 (inode_count sb) in
  let? dir_entries := decode_dir_entries v buffers.2 (dirent_count sb) in
  let? _ := validate_loaded_metadata inodes dir_entries v (data_block_start sb) device_blocks case_sensitive in
  Ok (inodes, dir_entries).

Definition load_runtime_state_from_superblock (d : D) (p : ParsedSuperblock) (case_sensitive : bool)
    : outcome (D * result (list OnDiskInode * list OnDiskDirEntry)) :=
  let v := format_version p in
  let sb := record p in
  let lengths :=
    let? _ := ensure_runtime_mount_supported v (is_read_only d) in
    if (inode_capacity v (inode_table_blocks sb) <? inode_count sb)
       || (dirent_capacity v (dirent_table_blocks sb) <? dirent_count sb)
    then Err InvalidArgument else
    let? inode_bytes := inode_table_bytes v (inode_count sb) in
    let? dirent_bytes := dirent_table_bytes v (dirent_count sb) in
    Ok (buffer_len inode_bytes, buffer_len dirent_bytes) in
  match lengths with
  | Err e => Ret (d, Err e)
  | Ok (inode_len, dirent_len) =>
      '(d, r) ← read_tables d (active_inode_table_block sb) inode_len (active_dirent_table_block sb) dirent_len;
      Ret (d, let? buffers := r in decode_tables v sb (block_count d) case_sensitive buffers)
  end.

(** ** The choice *)

(** [sort_by_key(|entry| Reverse(entry.1.record.generation))], which is stable. *)
Definition newer (x y : bytes * ParsedSuperblock) : Prop :=
  sb_generation (record y.2) ≤ sb_generation (record x.2).
#[global] Instance newer_dec : RelDecision newer.
Proof. unfold newer. intros x y. apply _. Defined.

Definition loaded : Type := bytes * ParsedSuperblock * list OnDiskInode * list OnDiskDirEntry.

Fixpoint first_loadable (d : D) (case_sensitive saw_unsupported : bool)
    (candidates : list (bytes * ParsedSuperblock)) : outcome (D * result loaded) :=
  match candidates with
  | [] => Ret (d, Err (if saw_unsupported then Unsupported else InvalidArgument))
  | (label, p) :: candidates =>
      '(d, r) ← load_runtime_state_from_superblock d p case_sensitive;
      match r with
      | Ok (inodes, dir_entries) => Ret (d, Ok (label, p, inodes, dir_entries))
      | Err Unsupported => first_loadable d case_sensitive true candidates
      | Err _ => first_loadable d case_sensitive saw_unsupported candidates
      end
  end.

Definition load_current_runtime_state (d : D) (case_sensitive : bool) : outcome (D * result loaded) :=
  '(d, candidates) ← readable_superblock_candidates d;
  first_loadable d case_sensitive false (merge_sort newer candidates).

(** ** The volume *)

Definition read_xattr_records (d : D) (v : SimpleFsFormatVersion) (table_block capacity : Z)
    : outcome (D * result (list XattrRecord)) :=
  match xattr_table_bytes v capacity with
  | Err e => Ret (d, Err e)
  | Ok table_bytes =>
      '(d, r) ← read_blocks d table_block (buffer_len table_bytes);
      Ret (d, let? buffer := r in parse_xattrs v buffer (seq 0 (Z.to_nat capacity)))
  end.

(** [for (offset, entry) in entries.iter().enumerate()] of one directory. *)
Definition index_directory (dir_index : nat) (dirents : list OnDiskDirEntry) (i : OnDiskInode)
    (index : list (option nat) * list (option nat)) : list (option nat) * list (option nat) :=
  if negb (live_dir i) then index else
  if (length dirents <? Z.to_nat (entry_start i + entry_count i))%nat then index else
  foldl (λ index p,
    let child := Z.to_nat (inode_index p.2) in
    if (child <? length index.1)%nat
    then (<[child := Some dir_index]> index.1, <[child := Some p.1]> index.2) else index)
    index (zip (seq (Z.to_nat (entry_start i)) (Z.to_nat (entry_count i))) (dir_slice dirents i)).

Definition reverse_indices (l : list OnDiskInode) (dirents : list OnDiskDirEntry)
    : list (option nat) * list (option nat) :=
  foldl (λ index p, index_directory p.1 dirents p.2 index)
    (replicate (length l) None, replicate (length l) None) (zip (seq 0 (length l)) l).

Definition free_slots (l : list OnDiskInode) : list nat :=
  fst <$> filter (λ p, deleted p.2 = true) (drop 1 (zip (seq 0 (length l)) l)).

Definition mounted (label : bytes) (p : ParsedSuperblock) (case_sensitive : bool) : SimpleFs :=
  let v := format_version p in
  let sb := record p in
  mkFs label v case_sensitive (inode_table_blocks sb) (dirent_table_blocks sb) (data_block_start sb)
    (inode_capacity v (inode_table_blocks sb)) (dirent_capacity v (dirent_table_blocks sb))
    (xattr_table_blocks sb) (xattr_capacity v (xattr_table_blocks sb)).

Definition initial_state (sb : SuperblockRecord) (l : list OnDiskInode) (dirents : list OnDiskDirEntry)
    (xattrs : list XattrRecord) : SimpleFsState :=
  let '(parent_of, inode_to_entry_index) := reverse_indices l dirents in
  mkState l dirents (active_inode_table_block sb) (active_dirent_table_block sb)
    (shadow_inode_table_block sb) (shadow_dirent_table_block sb) (sb_generation sb) true [] (free_slots l)
    parent_of inode_to_entry_index [] [] UndoLog_default xattrs (active_xattr_table_block sb)
    (shadow_xattr_table_block sb) ∅ ∅ ∅.

Definition open (d : D) (case_sensitive : bool) : outcome (D * result (SimpleFs * BlockCache D * SimpleFsState)) :=
  '(d, r) ← load_current_runtime_state d case_sensitive;
  match r with
  | Err e => Ret (d, Err e)
  | Ok (label, p, l, dirents) =>
      let v := format_version p in
      let sb := record p in
      '(d, r) ← (if supports_persistent_xattrs v
                 then read_xattr_records d v (active_xattr_table_block sb) (xattr_capacity v (xattr_table_blocks sb))
                 else Ret (d, Ok []));
      match r with
      | Err e => Ret (d, Err e)
      | Ok xattrs =>
          let fs := mounted label p case_sensitive in
          let s := initial_state sb l dirents xattrs in
          let s := rebuild_dir_inode_indices (rebuild_free_data_extents fs (block_count d) s) in
          Ret (d, Ok (fs, with_read_ahead d 4, s))
      end
  end.
End Mount.
