(* ===== verification/SfsCrash.v ===== *)
(** * What a power loss leaves

    What a mount finds after a power loss is the content of the medium, so the
    contract of this file speaks of the bytes of every block: a request that is
    answered has written its run, one that failed has left each block of it as it
    was, as it should be, or damaged.  The metadata writes of a volume are proved
    against it: what they leave on the medium, and that the block cache agrees
    with the medium where the next commit compares the two.  A mount of a medium
    on which a mirror of the superblock is found yields the tables it describes. *)

From stdpp Require Import base tactics decidable numbers list gmap sorting.
From Stdlib Require Import ZArith Lia Bool.
From S2P Require Import Prelude Bytes Unicode Patch BlockDevice BlockCache BlockCacheInv BlockCacheOps CryptDevice BlockRuns.
From S2P Require Import SfsFormat SfsFormatTheorems SfsTree SfsState SfsCommit.

(** A block whose write failed. *)
Definition partly (damaged : bytes → Prop) (old new now : bytes) : Prop := now = old ∨ now = new ∨ damaged now.

Class Medium (D : Type) `{BlockDevice D} := {
  med_ok : D → Prop;
  content : D → Z → bytes;
  (** What a write that stops in the middle of a block may leave. *)
  damaged : bytes → Prop;
  (** The device answers every read of the block. *)
  readable : D → Z → bool;
  med_read d lba n : med_ok d → 0 ≤ lba → lba + Z.of_nat n ≤ u64_max →
    ∃ d' r, read_blocks d lba (n * BLOCK_SIZE) = Ret (d', r) ∧ med_ok d' ∧
      (∀ a, content d' a = content d a) ∧ (∀ a, readable d' a = readable d a) ∧
      block_count d' = block_count d ∧
      (readable d lba = true → over_run (λ a, readable d a = true) lba n → is_ok r = true) ∧
      ∀ data, r = Ok data → length data = (n * BLOCK_SIZE)%nat ∧
        ∀ i, (i < n)%nat → sector data i = content d (lba + Z.of_nat i);
  med_write d lba n data : med_ok d → 0 ≤ lba → lba + Z.of_nat n ≤ u64_max → is_sectors n data →
    ∃ d' r, write_blocks d lba data = Ret (d', r) ∧ med_ok d' ∧
      (∀ a, a < lba ∨ lba + Z.of_nat n ≤ a → content d' a = content d a) ∧
      block_count d' = block_count d ∧
      ∀ i, (i < n)%nat →
        if is_ok r then content d' (lba + Z.of_nat i) = sector data i
        else partly damaged (content d (lba + Z.of_nat i)) (sector data i) (content d' (lba + Z.of_nat i));
  med_poll d : med_ok d → poll d DONE = (d, Done (Ok ()));
}.

Section Medium.
Context {D : Type} `{Medium D}.
Notation cache := (BlockCache D).

(** ** A cache with nothing to write back *)

Definition tidy (c : cache) : Prop :=
  unique (entries c) ∧ Forall (λ e, e_dirty e = false) (entries c) ∧ (0 < length (entries c))%nat.

(** The cache agrees with the medium about block [a]. *)
Definition agrees (c : cache) (a : Z) : Prop := ∀ b, cached c a = Some b → b = content (device c) a.

(** What a step does to the cached copy of a block: it keeps it, drops it, or
    replaces it by what the medium holds. *)
Definition settled_at (c c' : cache) (a : Z) : Prop :=
  cached c' a = cached c a ∨ cached c' a = None ∨ cached c' a = Some (content (device c') a).

Lemma cached_find (c : cache) a i e : find_lba a (entries c) = Some (i, e) → cached c a = Some (e_data e).
Proof. unfold cached. by intros ->. Qed.

Lemma lru_clean (c : cache) : tidy c → ∃ i e, lru (λ e, negb (e_dirty e)) (entries c) = Some i ∧ entries c !! i = Some e.
Proof.
  intros (_ & Hd & Hl). destruct (lru _ _) as [i|] eqn:E.
  - apply lru_Some in E as E'. destruct E' as (e & He & _). by exists i, e.
  - destruct (entries c) as [|e l] eqn:El; [cbn in Hl; lia|]. pose proof (lru_None _ _ 0%nat e E eq_refl) as Hn.
    apply Forall_cons in Hd as [Hd _]. cbn in Hn. by rewrite Hd in Hn.
Qed.

(** A slot overwritten by a clean copy of a block. *)
Lemma tidy_slot (c c' : cache) i e0 lba data gen since : tidy c → entries c !! i = Some e0 → lba ≠ EMPTY_LBA →
  (e_lba e0 = lba ∨ find_lba lba (entries c) = None) →
  entries c' = <[i := mkEntry lba data gen false since]> (entries c) →
  tidy c' ∧ cached c' lba = Some data ∧
  ∀ a, a ≠ lba → a ≠ EMPTY_LBA → cached c' a = cached c a ∨ cached c' a = None.
Proof.
  intros (Hu & Hd & Hl) Hi Hlba Ha E.
  assert (Had : admissible (entries c) e0 (mkEntry lba data gen false since)) by (right; destruct Ha; [by left|by right]).
  split; [|split].
  - unfold tidy. rewrite E. split; [by eapply unique_insert|]. split; [by apply Forall_insert|].
    by rewrite length_insert.
  - apply (cached_find _ _ i (mkEntry lba data gen false since)). rewrite E.
    rewrite (find_insert _ _ e0) by done. by rewrite decide_True.
  - intros a Hne Hae. unfold cached. rewrite E, (find_insert _ _ e0) by done.
    rewrite decide_False by done. case_decide; [by right|by left].
Qed.

Lemma insert_tidy (c : cache) now lba data : tidy c → lba ≠ EMPTY_LBA → length data = BLOCK_SIZE →
  ∃ c', insert c now lba data false = Ret c' ∧ tidy c' ∧ device c' = device c ∧
    read_ahead_depth c' = read_ahead_depth c ∧ cached c' lba = Some data ∧
    ∀ a, a ≠ lba → a ≠ EMPTY_LBA → cached c' a = cached c a ∨ cached c' a = None.
Proof.
  intros Ht Hlba Hl. unfold insert. rewrite decide_True by done. cbn [next_generation].
  set (c1 := mkCache _ _ _ _ _ _). assert (Ht1 : tidy c1) by exact Ht.
  destruct (find_lba lba (entries c1)) as [[i e]|] eqn:Ef.
  { pose proof (find_lba_Some _ _ _ _ Ef) as [Hi He]. set (c2 := set_entries c1 _). exists c2. split; [done|].
    destruct (tidy_slot c1 c2 i e lba data (generation c) 0 Ht1 Hi Hlba (or_introl He) eq_refl) as (T & C & O). done. }
  destruct (list_find _ (entries c1)) as [[i e]|] eqn:El.
  { apply list_find_Some in El as (Hi & _ & _). set (c2 := set_entries c1 _). exists c2. split; [done|].
    destruct (tidy_slot c1 c2 i e lba data (generation c) 0 Ht1 Hi Hlba (or_intror Ef) eq_refl) as (T & C & O). done. }
  destruct (lru_clean c1 Ht1) as (i & e & -> & Hi). set (c2 := inc_evictions _). exists c2. split; [done|].
  destruct (tidy_slot c1 c2 i e lba data (generation c) 0 Ht1 Hi Hlba (or_intror Ef) eq_refl) as (T & C & O). done.
Qed.
(** ** Steps that leave the medium *)

Record steady (c c' : cache) : Prop := mkSteady {
  sd_tidy : tidy c';
  sd_ok : med_ok (device c');
  sd_content a : content (device c') a = content (device c) a;
  sd_count : block_count (device c') = block_count (device c);
  sd_cached a : a ≠ EMPTY_LBA → settled_at c c' a;
}.

Lemma steady_refl c : tidy c → med_ok (device c) → steady c c.
Proof. intros. split; try done. intros. by left. Qed.

Lemma steady_trans c1 c2 c3 : steady c1 c2 → steady c2 c3 → steady c1 c3.
Proof.
  intros [T1 O1 C1 N1 S1] [T2 O2 C2 N2 S2]. split; [done|done|intros a; by rewrite C2|congruence|].
  intros a Ha. unfold settled_at in *. rewrite C2, C1.
  destruct (S2 a Ha) as [E|[E|E]]; [|by right; left|right; right; by rewrite E, C2, C1].
  rewrite E. destruct (S1 a Ha) as [E1|[E1|E1]]; [by left|by right; left|right; right; by rewrite E1, C1].
Qed.

Lemma steady_agrees c c' a : steady c c' → a ≠ EMPTY_LBA → agrees c a → agrees c' a.
Proof.
  intros [_ _ Hc _ Hs] Ha Hag b Hb. rewrite Hc. destruct (Hs a Ha) as [E|[E|E]]; rewrite E in Hb; simplify_eq.
  - by apply Hag. - by rewrite Hc.
Qed.

(** The same device and entries, other counters. *)
Lemma steady_same c c' : device c' = device c → entries c' = entries c → tidy c → med_ok (device c) → steady c c'.
Proof.
  intros Ed Ee Ht Hm. split; rewrite ?Ed; try done; [by unfold tidy; rewrite Ee|].
  intros a _. left. unfold cached. by rewrite Ee.
Qed.

Lemma insert_steady c now lba : tidy c → med_ok (device c) → lba ≠ EMPTY_LBA →
  ∀ data, length data = BLOCK_SIZE → data = content (device c) lba →
  ∃ c', insert c now lba data false = Ret c' ∧ steady c c' ∧ cached c' lba = Some data.
Proof.
  intros Ht Hm Hlba data Hl Hd. destruct (insert_tidy c now lba data Ht Hlba Hl) as (c' & E & T & Ed & _ & Hc & Ho).
  exists c'. split; [done|]. split; [|done]. split; rewrite ?Ed; try done.
  intros a Ha. unfold settled_at. rewrite Ed. destruct (decide (a = lba)) as [->|Hne].
  - right. right. by rewrite Hc, Hd. - destruct (Ho a Hne Ha); [by left|by right; left].
Qed.

Lemma insert_run_steady c lba run counted : tidy c → med_ok (device c) → 0 ≤ lba →
  lba + Z.of_nat (length run) ≤ EMPTY_LBA →
  (∀ i b, run !! i = Some b → length b = BLOCK_SIZE ∧ b = content (device c) (lba + Z.of_nat i)) →
  ∃ c', insert_run c lba run counted = Ret c' ∧ steady c c'.
Proof.
  revert c lba counted. induction run as [|b run IH]; intros c lba counted Ht Hm Hlo Hhi Hr.
  { exists c. split; [done|]. by apply steady_refl. }
  simpl in Hhi. destruct (Hr 0%nat b eq_refl) as [Hl Hb]. rewrite Z.add_0_r in Hb.
  destruct (insert_steady c 0 lba Ht Hm ltac:(lia) b Hl Hb) as (c1 & E1 & S1 & _).
  cbn [insert_run]. rewrite E1. cbn [mbind outcome_bind].
  set (c2 := if counted then inc_prefetches_issued c1 else c1).
  assert (S2 : steady c c2).
  { apply (steady_trans _ c1); [done|]. destruct S1. by apply steady_same; [destruct counted|destruct counted| |]. }
  destruct run as [|b1 run]; [by exists c2|].
  unfold checked_add. rewrite (proj2 (Z.leb_le _ _)) by (simpl in Hhi; unfold EMPTY_LBA in Hhi; lia).
  destruct (IH c2 (lba + 1) true) as (c3 & E3 & S3); [apply S2|apply S2|lia|lia| |].
  - intros i b' Hi. destruct (Hr (S i) b' Hi) as [Hl' Hb']. split; [done|].
    rewrite (sd_content _ _ S2), Hb'. f_equal. lia.
  - exists c3. split; [done|]. by eapply steady_trans.
Qed.

Lemma update_lba_same c f lba : tidy c → med_ok (device c) →
  (∀ e, e_lba (f e) = e_lba e ∧ e_data (f e) = e_data e ∧ e_dirty (f e) = e_dirty e) → lba ≠ EMPTY_LBA →
  steady c (update_lba f lba c).1.
Proof.
  intros Ht Hm Hf Hlba. unfold update_lba. destruct (find_lba lba (entries c)) as [[i e]|] eqn:E; [|by apply steady_refl].
  pose proof (find_lba_Some _ _ _ _ E) as [Hi He]. destruct Ht as (Hu & Hd & Hl). destruct (Hf e) as (F1 & F2 & F3).
  assert (Had : admissible (entries c) e (f e)) by (right; left; congruence).
  split; try done.
  - split; [by eapply unique_insert|]. split; [|cbn; by rewrite length_insert]. apply Forall_insert; [done|].
    rewrite F3. by eapply Forall_lookup_1 in Hd.
  - intros a Ha. left. unfold cached. cbn [fst set_entries entries]. rewrite (find_insert _ _ e) by done.
    rewrite F1. case_decide as Ea; [|done].
    subst a. rewrite He, E. cbn. by rewrite F2.
Qed.
Lemma bump_steady c lba : tidy c → med_ok (device c) → lba ≠ EMPTY_LBA → steady c (bump_generation_and_update c lba).
Proof.
  intros Ht Hm Hlba. unfold bump_generation_and_update. cbn [next_generation].
  set (c1 := mkCache _ _ _ _ _ _). assert (S1 : steady c c1) by by apply steady_same.
  eapply steady_trans; [exact S1|]. by apply update_lba_same; [apply S1|apply S1| |].
Qed.

(** A miss: the run read from the device goes into the cache. *)
Lemma fill_steady c lba n : tidy c → med_ok (device c) → 0 ≤ lba → lba + Z.of_nat n ≤ EMPTY_LBA → (0 < n)%nat →
  ∃ d r, read_blocks (device c) lba (n * BLOCK_SIZE) = Ret (d, r) ∧ steady c (set_device c d) ∧
    ∀ data, r = Ok data → length data = (n * BLOCK_SIZE)%nat ∧ sector data 0 = content (device c) lba ∧
      ∃ c', insert_run (inc_misses (set_device c d)) lba (chunks BLOCK_SIZE data) false = Ret c' ∧ steady c c'.
Proof.
  intros Ht Hm Hlo Hhi Hn. destruct (med_read (device c) lba n Hm Hlo Hhi) as (d & r & E & Hd & Hc & _ & Hb & _ & Hr).
  exists d, r. split; [done|]. assert (S1 : steady c (set_device c d)).
  { split; try done. intros a _. by left. }
  split; [done|]. intros data ->. destruct (Hr data eq_refl) as [Hl Hs]. split; [done|].
  split; [by rewrite (Hs 0%nat Hn), Z.add_0_r|].
  assert (Hlen : (length (chunks BLOCK_SIZE data) ≤ n)%nat).
  { destruct (decide (length (chunks BLOCK_SIZE data) ≤ n)%nat); [done|].
    destruct (lookup_lt_is_Some_2 (chunks BLOCK_SIZE data) n) as [b Hb']; [lia|].
    apply (chunks_sectors n) in Hb' as (_ & ? & _); [lia|done]. }
  destruct (insert_run_steady (inc_misses (set_device c d)) lba (chunks BLOCK_SIZE data) false) as (c' & E' & S');
    [apply S1|apply S1|done|lia| |].
  - intros i b Hi. apply (chunks_sectors n) in Hi as (-> & Hin & Hlb); [|done]. split; [done|].
    cbn. by rewrite Hs, Hc.
  - exists c'. split; [done|]. eapply steady_trans; [|exact S']. eapply steady_trans; [exact S1|].
    by apply steady_same; [| |apply S1|apply S1].
Qed.

(** What a read through the cache answers. *)
Definition seen (c : cache) (a : Z) : bytes := default (content (device c) a) (cached c a).

Lemma read_cached_steady c lba : tidy c → med_ok (device c) → 0 ≤ lba → lba + 5 ≤ EMPTY_LBA →
  ∃ c' r, read_cached c lba BLOCK_SIZE = Ret (c', r) ∧ steady c c' ∧ ∀ b, r = Ok b → b = seen c lba.
Proof.
  intros Ht Hm Hlo Hhi. unfold read_cached. rewrite decide_True by done.
  destruct (find_lba lba (entries c)) as [[i e]|] eqn:Hf.
  { eexists _, _. split; [done|]. unfold seen. rewrite (cached_find _ _ _ _ Hf). split; [|by intros b [= <-]].
    pose proof (bump_steady c lba Ht Hm ltac:(lia)) as S1. apply (steady_trans _ _ _ S1).
    destruct (negb _ && _); by apply steady_same; [| |apply S1|apply S1]. }
  assert (Hseen : seen c lba = content (device c) lba) by (unfold seen, cached; by rewrite Hf). rewrite Hseen.
  set (c1 := set_last_read c lba). assert (S1 : steady c c1) by by apply steady_same.
  destruct (miss_lookahead c1 lba (last_read_lba c) Hlo Hhi Hf) as (m & Em & Hm4 & _).
  rewrite Em. cbn [mbind outcome_bind].
  destruct (fill_steady c1 lba (m + 1)) as (d & r & E & Sd & Hr); [apply S1|apply S1|done|lia|lia|].
  assert (Hread : read_blocks (device c1) lba (if decide (m = 0%nat) then BLOCK_SIZE else (m + 1) * BLOCK_SIZE)%nat
    = Ret (d, r)) by (case_decide; [subst m|]; exact E).
  assert (Herr : steady c (set_device c1 d)) by exact (steady_trans _ _ _ S1 Sd).
  case_decide as Em0; rewrite Hread; cbn [mbind outcome_bind];
    (destruct r as [data|er]; [|by eexists _, _; split; [|split]]);
    destruct (Hr data eq_refl) as (Hl & Hs0 & c2 & E2 & S2);
    pose proof (steady_trans _ _ _ S1 S2) as S3.
  - subst m. rewrite whole_chunk in E2 by (rewrite Hl; lia). cbn [insert_run] in E2.
    destruct (insert (inc_misses (set_device c1 d)) 0 lba data false) as [c3| |]; [|done|done].
    cbn [mbind outcome_bind] in E2 |- *. injection E2 as ->. exists c2, (Ok data). split; [done|].
    split; [done|]. intros b [= <-]. etrans; [|exact Hs0]. unfold sector. symmetry. apply slice_whole. rewrite Hl. lia.
  - rewrite E2. cbn [mbind outcome_bind]. exists c2, (Ok (sector data 0)). split; [done|].
    split; [done|]. by intros b [= <-].
Qed.
(** ** Steps that write *)

(** After a request of [n] blocks at [lba]: the rest of the medium is as it was,
    and so is what the cache says of it; a run that was answered is on the medium,
    and the cache agrees with it. *)
Record rewrote (c c' : cache) (lba : Z) (n : nat) (data : bytes) (ok : bool) : Prop := mkRewrote {
  rw_tidy : tidy c';
  rw_ok : med_ok (device c');
  rw_count : block_count (device c') = block_count (device c);
  rw_out a : a < lba ∨ lba + Z.of_nat n ≤ a → content (device c') a = content (device c) a;
  rw_agrees a : a < lba ∨ lba + Z.of_nat n ≤ a → a ≠ EMPTY_LBA → agrees c a → agrees c' a;
  rw_in i : ok = true → (i < n)%nat →
    content (device c') (lba + Z.of_nat i) = sector data i ∧ agrees c' (lba + Z.of_nat i);
}.

Lemma steady_rewrote c c1 c' lba n data ok : steady c c1 → rewrote c1 c' lba n data ok → rewrote c c' lba n data ok.
Proof.
  intros S [T O N Ho Ha Hi]. split; [done|done|by rewrite N, (sd_count _ _ S)| | |done].
  - intros a Hr. by rewrite Ho, (sd_content _ _ S).
  - intros a Hr Hne Hag. apply Ha; [done|done|]. by eapply steady_agrees.
Qed.

Lemma populate_run_steady c lba data l : tidy c → med_ok (device c) → 0 ≤ lba →
  (∀ i, i ∈ l → lba + Z.of_nat i < EMPTY_LBA ∧ length (sector data i) = BLOCK_SIZE ∧
    sector data i = content (device c) (lba + Z.of_nat i)) →
  ∃ c', populate_run c lba data l = Ret c' ∧ steady c c' ∧ ∀ i, i ∈ l → agrees c' (lba + Z.of_nat i).
Proof.
  revert c. induction l as [|i l IH]; intros c Ht Hm Hlo Hl.
  { exists c. split; [done|]. split; [by apply steady_refl|by intros i ?%elem_of_nil]. }
  destruct (Hl i ltac:(by left)) as (Hi & Hlen & Hs). cbn [populate_run].
  unfold populate_clean. rewrite decide_True by done.
  destruct (insert_steady c 0 (lba + Z.of_nat i) Ht Hm ltac:(lia) _ Hlen Hs) as (c1 & -> & S1 & Hc).
  cbn [mbind outcome_bind]. destruct (IH c1) as (c2 & -> & S2 & Ha2); [apply S1|apply S1|done| |].
  { intros j Hj. destruct (Hl j ltac:(by right)) as (? & ? & Hsj). by rewrite (sd_content _ _ S1). }
  exists c2. split; [done|]. split; [by eapply steady_trans|]. intros j [->|Hj]%elem_of_cons; [|by apply Ha2].
  apply (steady_agrees c1); [done|lia|]. intros b Hb. rewrite Hc in Hb. simplify_eq. by rewrite (sd_content _ _ S1).
Qed.

Context `{!HealthDevice D}.

(** A write through to the device. *)
Lemma write_blocks_cached_ok c lba n data : tidy c → med_ok (device c) → 0 ≤ lba →
  lba + Z.of_nat n ≤ EMPTY_LBA → is_sectors n data →
  ∃ c' r, write_blocks_cached c lba data = Ret (c', r) ∧ rewrote c c' lba n data (is_ok r) ∧
    ∀ i, (i < n)%nat →
      partly damaged (content (device c) (lba + Z.of_nat i)) (sector data i) (content (device c') (lba + Z.of_nat i)).
Proof.
  intros Ht Hm Hlo Hhi Hd. unfold write_blocks_cached. destruct (device_failed (device c)).
  { exists c, (Err DeviceError). split; [done|]. split; [by split|]. intros. by left. }
  rewrite (is_run_div n) by done.
  destruct (med_write (device c) lba n data Hm Hlo Hhi Hd) as (d & r & -> & Hmd & Hout & Hb & Hin).
  cbn [mbind outcome_bind]. set (c1 := set_device c d).
  assert (Hag : ∀ a, a < lba ∨ lba + Z.of_nat n ≤ a → agrees c a → agrees c1 a).
  { intros a Ha Hg b Hc. cbn. rewrite Hout by done. by apply Hg. }
  destruct r as [[]|e].
  - destruct (populate_run_steady c1 lba data (seq 0 n)) as (c2 & -> & S2 & Ha2); [done|done|done| |].
    { intros i Hi%elem_of_seq. split; [lia|]. split; [eapply length_sector; [apply Hd|lia]|].
      symmetry. apply (Hin i). lia. }
    exists c2, (Ok ()). split; [done|]. assert (Hnew : ∀ i, (i < n)%nat → content (device c2) (lba + Z.of_nat i) = sector data i).
    { intros i Hi. rewrite (sd_content _ _ S2). by apply Hin. }
    split; [|intros i Hi; right; left; by apply Hnew].
    split; [apply S2|apply S2|by rewrite (sd_count _ _ S2)| | |].
    + intros a Ha. rewrite (sd_content _ _ S2). by apply Hout.
    + intros a Ha Hne Hg. apply (steady_agrees c1); [done|done|by apply Hag].
    + intros i _ Hi. split; [by apply Hnew|]. apply Ha2, elem_of_seq. lia.
  - exists c1, (Err e). split; [done|]. split; [|done]. split; try done. intros a Ha _. by apply Hag.
Qed.

Lemma sector_of_slice (image : bytes) s e i : (s + i < e)%nat →
  sector (slice image (s * BLOCK_SIZE) (e * BLOCK_SIZE)) i = sector image (s + i).
Proof.
  intros Hi. unfold sector. rewrite slice_slice by nia. f_equal; lia.
Qed.

Lemma is_sectors_slice image n s e : is_sectors n image → (s ≤ e ≤ n)%nat →
  is_sectors (e - s) (slice image (s * BLOCK_SIZE) (e * BLOCK_SIZE)).
Proof. intros [Hl Hb] Hse. split; [rewrite length_slice; nia|by apply slice_bytes]. Qed.

Lemma on_disk_ok c lba : tidy c → med_ok (device c) → 0 ≤ lba → lba + 5 ≤ EMPTY_LBA → agrees c lba →
  ∃ c' r, on_disk c lba = Ret (c', r) ∧ steady c c' ∧ ∀ b, r = Ok b → b = content (device c) lba.
Proof.
  intros Ht Hm Hlo Hhi Hag. unfold on_disk. destruct (cached c lba) as [b|] eqn:Ec.
  - exists c, (Ok b). split; [done|]. split; [by apply steady_refl|]. intros b' [= <-]. by apply Hag.
  - destruct (read_cached_steady c lba Ht Hm Hlo Hhi) as (c' & r & E & S & Hr). exists c', r.
    split; [done|]. split; [done|]. intros b Hb. rewrite (Hr b Hb). unfold seen. by rewrite Ec.
Qed.

(** The blocks before [start] hold the image. *)
Definition holds_image (c : cache) (base : Z) (image : bytes) (start : nat) : Prop :=
  ∀ j, (j < start)%nat → content (device c) (base + Z.of_nat j) = sector image j.

Definition agrees_run (c : cache) (base : Z) (n : nat) : Prop := ∀ j, (j < n)%nat → agrees c (base + Z.of_nat j).

(** The open run is written. *)
Lemma flush_run_ok c base image n run_start index : tidy c → med_ok (device c) → 0 ≤ base →
  base + Z.of_nat n ≤ EMPTY_LBA → is_sectors n image → (index ≤ n)%nat →
  from_option (λ s, (s ≤ index)%nat) True run_start → agrees_run c base n →
  holds_image c base image (default index run_start) →
  ∃ c' r, flush_run c base image run_start index = Ret (c', r) ∧ rewrote c c' base n image false ∧
    content (device c') (base + Z.of_nat index) = content (device c) (base + Z.of_nat index) ∧
    (r = Ok () → holds_image c' base image index ∧ agrees_run c' base n).
Proof.
  intros Ht Hm Hlo Hhi Hi Hin Hs Hag Hh. destruct run_start as [start|]; cbn in Hs, Hh; cycle 1.
  { exists c, (Ok ()). split; [done|]. by split; [split|]. }
  destruct (write_blocks_cached_ok c (base + Z.of_nat start) (index - start)
    (slice image (start * BLOCK_SIZE) (index * BLOCK_SIZE)) Ht Hm ltac:(lia) ltac:(lia)) as (c' & r & E & W & _).
  { eapply is_sectors_slice; [done|lia]. }
  exists c', r. split; [exact E|]. destruct W as [T O N Wo Wa Wi]. split.
  { split; [done|done|done|intros a Ha; apply Wo; lia|intros a Ha; apply Wa; lia|done]. }
  split; [apply Wo; lia|]. intros ->. split.
  - intros j Hj. destruct (decide (j < start)%nat).
    + rewrite Wo by lia. by apply Hh.
    + destruct (Wi (j - start)%nat eq_refl ltac:(lia)) as [Wc _].
      replace (base + Z.of_nat start + Z.of_nat (j - start)) with (base + Z.of_nat j) in Wc by lia.
      rewrite Wc, sector_of_slice by lia. f_equal. lia.
  - intros j Hj. destruct (decide (start ≤ j < index)%nat).
    + destruct (Wi (j - start)%nat eq_refl ltac:(lia)) as [_ Wg].
      by replace (base + Z.of_nat start + Z.of_nat (j - start)) with (base + Z.of_nat j) in Wg by lia.
    + apply Wa; [lia|lia|by apply Hag].
Qed.

Lemma rewrote_trans c c1 c' base n image ok : rewrote c c1 base n image false →
  rewrote c1 c' base n image ok → rewrote c c' base n image ok.
Proof.
  intros [T1 O1 N1 Wo1 Wa1 _] [T2 O2 N2 Wo2 Wa2 Wi2]. split; [done|done|congruence| | |done].
  - intros a Ha. by rewrite Wo2, Wo1. - intros a Ha Hne Hg. apply Wa2; [done|done|]. by apply Wa1.
Qed.

Lemma rewrote_false c c' base n image ok : rewrote c c' base n image ok → rewrote c c' base n image false.
Proof. intros []. by split. Qed.

Lemma write_changed_ok image n base k c index run_start : tidy c → med_ok (device c) → 0 ≤ base →
  base + Z.of_nat n + 5 ≤ EMPTY_LBA → is_sectors n image → (index + k = n)%nat →
  from_option (λ s, (s ≤ index)%nat) True run_start → agrees_run c base n →
  holds_image c base image (default index run_start) →
  ∃ c' r, write_changed c base image k index run_start = Ret (c', r) ∧ rewrote c c' base n image (is_ok r).
Proof.
  revert c index run_start. induction k as [|k IH]; intros c index run_start Ht Hm Hlo Hhi Hi Hk Hs Hag Hh.
  { destruct (flush_run_ok c base image n run_start index) as (c' & r & E & W & _ & Hr); try done; try lia.
    exists c', r. split; [exact E|]. destruct W as [T O N Wo Wa _]. split; try done. intros i Hok Hin.
    destruct r as [[]|]; [|done]. destruct (Hr eq_refl) as [Hc Hg]. split; [apply Hc; lia|by apply Hg]. }
  cbn [write_changed].
  destruct (on_disk_ok c (base + Z.of_nat index) Ht Hm ltac:(lia) ltac:(lia)) as (c1 & r1 & -> & S1 & Hr1).
  { apply Hag. lia. }
  cbn [mbind outcome_bind].
  assert (Hag1 : agrees_run c1 base n).
  { intros j Hj. apply (steady_agrees c); [done|lia|by apply Hag]. }
  assert (Hh1 : holds_image c1 base image (default index run_start)).
  { intros j Hj. rewrite (sd_content _ _ S1). by apply Hh. }
  destruct r1 as [b|e]; cycle 1.
  { exists c1, (Err e). split; [done|]. apply (steady_rewrote _ c1); [done|]. by split; [apply S1|apply S1| | | |]. }
  specialize (Hr1 b eq_refl). case_bool_decide as Eb.
  - destruct (flush_run_ok c1 base image n run_start index) as (c2 & r2 & -> & W2 & Hsame & Hr2);
      [apply S1|apply S1|done|lia|done|lia|done|done|done|]. cbn [mbind outcome_bind].
    pose proof (steady_rewrote _ _ _ _ _ _ _ S1 W2) as W.
    destruct r2 as [[]|e]; [|by exists c2, (Err e)]. destruct (Hr2 eq_refl) as [Hh2 Hag2].
    assert (Hnew : holds_image c2 base image (S index)).
    { intros j Hj. destruct (decide (j < index)%nat); [by apply Hh2|]. assert (j = index) as -> by lia.
      by rewrite Hsame, (sd_content _ _ S1), <- Hr1. }
    destruct (IH c2 (S index) None) as (c3 & r3 & E3 & W3); [apply W2|apply W2|done|done|done|lia|done|done|done|].
    exists c3, r3. split; [done|]. by eapply rewrote_trans.
  - destruct (IH c1 (S index) (match run_start with None => Some index | s => s end)) as (c2 & r2 & E2 & W2);
      [apply S1|apply S1|done|done|done|lia|destruct run_start; cbn in *; lia|done|by destruct run_start|].
    exists c2, r2. split; [done|]. by eapply steady_rewrote.
Qed.

(** One table into its slot. *)
Lemma write_shadow_table_ok c base n image full : tidy c → med_ok (device c) → 0 ≤ base →
  base + Z.of_nat n + 5 ≤ EMPTY_LBA → is_sectors n image → (full = false → agrees_run c base n) →
  ∃ c' r, write_shadow_table c base image full = Ret (c', r) ∧ rewrote c c' base n image (is_ok r).
Proof.
  intros Ht Hm Hlo Hhi Hi Hag. unfold write_shadow_table. destruct (device_failed (device c)).
  { exists c, (Err DeviceError). split; [done|]. by split. }
  destruct full.
  - destruct (write_blocks_cached_ok c base n image Ht Hm Hlo ltac:(lia) Hi) as (c' & r & E & W & _). by exists c', r.
  - rewrite (is_run_div n) by done. apply write_changed_ok; try done; [by apply Hag|]. intros j Hj. cbn in Hj. lia.
Qed.
End Medium.

(** ** Volumes *)

(** The sizes of a volume: tables of [u32] blocks, capacities computed at the
    mount, counts that fit their fields. *)
Definition geometry_ok (fs : SimpleFs) : Prop :=
  is_bytes (fs_label fs) ∧
  0 < fs_inode_table_blocks fs < 2 ^ 32 ∧ 0 ≤ fs_dirent_table_blocks fs < 2 ^ 32 ∧
  0 ≤ fs_xattr_table_blocks fs < 2 ^ 32 ∧
  fs_inode_capacity fs = inode_capacity (fs_format_version fs) (fs_inode_table_blocks fs) ∧
  fs_dirent_capacity fs = dirent_capacity (fs_format_version fs) (fs_dirent_table_blocks fs) ∧
  fs_xattr_capacity fs = xattr_capacity (fs_format_version fs) (fs_xattr_table_blocks fs) ∧
  fs_inode_capacity fs < 2 ^ 32 ∧ fs_dirent_capacity fs < 2 ^ 32 ∧ 0 < fs_data_block_start fs < 2 ^ 32.

(** The records of the tables are representable, and fit. *)
Definition tables_ok (fs : SimpleFs) (s : SimpleFsState) : Prop :=
  Forall inode_ok (inodes s) ∧ Forall dirent_ok (dir_entries s) ∧ Forall xattr_ok (xattrs s) ∧
  Z.of_nat (length (inodes s)) ≤ fs_inode_capacity fs ∧
  Z.of_nat (length (dir_entries s)) ≤ fs_dirent_capacity fs ∧
  (supports_persistent_xattrs (fs_format_version fs) = true → Z.of_nat (length (xattrs s)) ≤ fs_xattr_capacity fs) ∧
  u32_ok (Z.of_nat (length (xattrs s))).

Lemma capacity_bytes (blocks : Z) (n sz : nat) : (0 < sz)%nat → 0 ≤ blocks →
  Z.of_nat n ≤ blocks * Z.of_nat BLOCK_SIZE / Z.of_nat sz → (n * sz ≤ Z.to_nat blocks * BLOCK_SIZE)%nat.
Proof.
  intros Hsz Hb Hn. assert (Z.of_nat n * Z.of_nat sz ≤ blocks * Z.of_nat BLOCK_SIZE); [|nia].
  pose proof (Z.mul_div_le (blocks * Z.of_nat BLOCK_SIZE) (Z.of_nat sz) ltac:(lia)). nia.
Qed.

(** A whole table image. *)
Definition table_image (blocks : Z) (image : bytes) : Prop := is_sectors (Z.to_nat blocks) image.

(** What an image decodes to. *)
Record encodes (fs : SimpleFs) (s : SimpleFsState) (image : RuntimeMetadataImage) : Prop := mkEncodes {
  en_inodes : table_image (fs_inode_table_blocks fs) (inode_table image);
  en_dirents : table_image (fs_dirent_table_blocks fs) (dirent_table image);
  en_xattrs : supports_persistent_xattrs (fs_format_version fs) = true →
    table_image (fs_xattr_table_blocks fs) (xattr_table image);
  en_decode_inodes m : (length (inodes s) * INODE_SIZE ≤ m)%nat →
    decode_inodes (fs_format_version fs) (take m (inode_table image)) (Z.of_nat (length (inodes s))) =
      Ok (stored_inode (fs_format_version fs) <$> inodes s);
  en_decode_dirents m : (length (dir_entries s) * DIRENT_SIZE ≤ m)%nat →
    decode_dir_entries (fs_format_version fs) (take m (dirent_table image)) (Z.of_nat (length (dir_entries s))) =
      Ok (dir_entries s);
  en_parse_xattrs m : supports_persistent_xattrs (fs_format_version fs) = true →
    (Z.to_nat (fs_xattr_capacity fs) * XATTR_RECORD_SIZE ≤ m ≤ length (xattr_table image))%nat →
    parse_xattrs (fs_format_version fs) (take m (xattr_table image)) (seq 0 (Z.to_nat (fs_xattr_capacity fs))) =
      Ok (xattrs s);
}.

Lemma zeroed_bound blocks : 0 ≤ blocks < 2 ^ 32 → Z.of_nat (Z.to_nat blocks * BLOCK_SIZE) ≤ u64_max.
Proof. intros. unfold BLOCK_SIZE, u64_max. nia. Qed.

Lemma runtime_metadata_image_ok fs s : geometry_ok fs → tables_ok fs s →
  ∃ image, runtime_metadata_image fs s = Ret image ∧ encodes fs s image.
Proof.
  intros (Hlb & Hgi & Hgd & Hgx & Hci & Hcd & Hcx & _) (Hi & Hd & Hx & Li & Ld & Lx & _).
  set (v := fs_format_version fs) in *. rewrite Hci in Li. rewrite Hcd in Ld.
  destruct (inode_table_round_trip v (Z.to_nat (fs_inode_table_blocks fs) * BLOCK_SIZE) (inodes s) Hi)
    as (ii & Ei & Lii & Bii & Dii); [by apply capacity_bytes; [unfold INODE_SIZE; lia|lia|]|apply zeroed_bound; lia|].
  destruct (dirent_table_round_trip v (Z.to_nat (fs_dirent_table_blocks fs) * BLOCK_SIZE) (dir_entries s) Hd)
    as (di & Ed & Ldi & Bdi & Ddi); [by apply capacity_bytes; [unfold DIRENT_SIZE; lia|lia|]|apply zeroed_bound; lia|].
  unfold runtime_metadata_image, expect, zeroed. fold v. rewrite Ei, Ed. cbn [mbind outcome_bind].
  destruct (supports_persistent_xattrs v) eqn:Ev.
  - specialize (Lx eq_refl). rewrite Hcx in Lx.
    destruct (xattr_table_round_trip v (Z.to_nat (fs_xattr_table_blocks fs) * BLOCK_SIZE) (xattrs s) Hx)
      as (xi & Ex & Lxi & Bxi & Dxi); [by apply capacity_bytes; [unfold XATTR_RECORD_SIZE; lia|lia|]|apply zeroed_bound; lia|].
    rewrite Ex. cbn [mbind outcome_bind]. eexists. split; [reflexivity|].
    split; fold v; cbn; try done. intros m _ Hm. apply Dxi; [rewrite Hcx; lia|rewrite <- Lxi; lia].
  - eexists. split; [reflexivity|]. split; fold v; cbn; try done; by rewrite Ev.
Qed.

(** ** Slots *)

(** The blocks where a set of tables begins. *)
Record Slot := mkSlot { slot_inode : Z; slot_dirent : Z; slot_xattr : Z }.
Definition active_slot (s : SimpleFsState) : Slot := mkSlot (st_active_inode s) (st_active_dirent s) (st_active_xattr s).
Definition shadow_slot (s : SimpleFsState) : Slot := mkSlot (st_shadow_inode s) (st_shadow_dirent s) (st_shadow_xattr s).

Definition in_table (base blocks a : Z) : Prop := base ≤ a < base + blocks.

(** Block [a] is of the slot. *)
Definition in_slot (fs : SimpleFs) (x : Slot) (a : Z) : Prop :=
  in_table (slot_inode x) (fs_inode_table_blocks fs) a ∨ in_table (slot_dirent x) (fs_dirent_table_blocks fs) a ∨
  (supports_persistent_xattrs (fs_format_version fs) = true ∧ in_table (slot_xattr x) (fs_xattr_table_blocks fs) a).

(** The tables of a slot lie behind the mirrors and before the data, apart. *)
Definition slot_ok (fs : SimpleFs) (x : Slot) : Prop :=
  u32_ok (slot_xattr x) ∧ 1 < slot_inode x ∧ slot_dirent x = slot_inode x + fs_inode_table_blocks fs ∧
  slot_dirent x + fs_dirent_table_blocks fs ≤ fs_data_block_start fs ∧
  (supports_persistent_xattrs (fs_format_version fs) = true →
    1 < slot_xattr x ∧ slot_xattr x + fs_xattr_table_blocks fs ≤ fs_data_block_start fs ∧
    (slot_xattr x + fs_xattr_table_blocks fs ≤ slot_inode x ∨
     slot_dirent x + fs_dirent_table_blocks fs ≤ slot_xattr x)).

Definition slots_ok (fs : SimpleFs) (x y : Slot) : Prop :=
  slot_ok fs x ∧ slot_ok fs y ∧ (∀ a, in_slot fs x a → ¬ in_slot fs y a).

Section Crash.
Context {D : Type} `{Medium D} `{!HealthDevice D}.
Notation cache := (BlockCache D).

Definition table_at (d : D) (base blocks : Z) (image : bytes) : Prop :=
  ∀ i, (i < Z.to_nat blocks)%nat → content d (base + Z.of_nat i) = sector image i.

Record slot_holds (d : D) (fs : SimpleFs) (x : Slot) (image : RuntimeMetadataImage) : Prop := mkSlotHolds {
  sh_inodes : table_at d (slot_inode x) (fs_inode_table_blocks fs) (inode_table image);
  sh_dirents : table_at d (slot_dirent x) (fs_dirent_table_blocks fs) (dirent_table image);
  sh_xattrs : supports_persistent_xattrs (fs_format_version fs) = true →
    table_at d (slot_xattr x) (fs_xattr_table_blocks fs) (xattr_table image);
}.

(** The same medium, as a mount finds it. *)
Record same_medium (d d' : D) : Prop := mkSame {
  sm_ok : med_ok d';
  sm_content a : content d' a = content d a;
  sm_readable a : readable d' a = readable d a;
  sm_count : block_count d' = block_count d;
}.

Lemma same_medium_refl d : med_ok d → same_medium d d.
Proof. by split. Qed.
Lemma same_medium_trans d1 d2 d3 : same_medium d1 d2 → same_medium d2 d3 → same_medium d1 d3.
Proof. intros [] []. split; [done|intros; congruence|intros; congruence|congruence]. Qed.

Lemma table_at_same d d' base blocks image : (∀ a, in_table base blocks a → content d' a = content d a) →
  table_at d base blocks image → table_at d' base blocks image.
Proof. intros Hc Ht i Hi. rewrite Hc; [by apply Ht|]. unfold in_table. lia. Qed.

Lemma slot_holds_same d d' fs x image : (∀ a, in_slot fs x a → content d' a = content d a) →
  slot_holds d fs x image → slot_holds d' fs x image.
Proof.
  intros Hc [Hi Hd Hx]. split.
  - eapply table_at_same; [|done]. intros a Ha. apply Hc. by left.
  - eapply table_at_same; [|done]. intros a Ha. apply Hc. by right; left.
  - intros Hv. eapply table_at_same; [|by apply Hx]. intros a Ha. apply Hc. by right; right.
Qed.

(** ** Reading a table *)

Lemma poll_rounds_done k t (d d' : D) p r : poll d t = (d', Done r) → poll_rounds k t d p = (d', inr r).
Proof. intros E. induction k as [|k IH]; cbn; [by rewrite E|by rewrite IH]. Qed.

Lemma await_ok d data : med_ok d → await d (Ok (DONE, data)) = Ret (d, Ok data).
Proof. intros Hm. cbn [await]. unfold wait_for_read. by rewrite (poll_rounds_done _ _ _ _ _ _ (med_poll d Hm)). Qed.

(** The first [k] blocks of a table. *)
Lemma read_table_ok d base blocks k image : med_ok d → 0 ≤ base → base + blocks ≤ u64_max →
  (Z.of_nat k ≤ blocks) → table_image blocks image → table_at d base blocks image →
  (∀ a, base ≤ a ≤ base + blocks → readable d a = true) →
  ∃ d', read_blocks d base (k * BLOCK_SIZE) = Ret (d', Ok (take (k * BLOCK_SIZE) image)) ∧ same_medium d d'.
Proof.
  intros Hm Hlo Hhi Hk [Hli _] Ht Hr.
  destruct (med_read d base k Hm Hlo ltac:(lia)) as (d' & r & E & Hm' & Hc & Hrd & Hb & Hok & Hdata).
  destruct r as [data|e]; cycle 1.
  { assert (is_ok (A := bytes) (Err e) = true); [|done].
    apply Hok; [apply Hr; lia|]. intros i Hi. apply Hr. lia. }
  destruct (Hdata data eq_refl) as [Hl Hs]. exists d'. rewrite E. split; [|by split]. do 3 f_equal.
  apply (sectors_eq k); [done|rewrite length_take; nia|]. intros i Hi. rewrite (Hs i Hi), (Ht i ltac:(lia)).
  unfold sector. symmetry. apply slice_take. nia.
Qed.

Lemma submit_table_ok d base blocks k image : med_ok d → 0 ≤ base → base + blocks ≤ u64_max →
  (Z.of_nat k ≤ blocks) → table_image blocks image → table_at d base blocks image →
  (∀ a, base ≤ a ≤ base + blocks → readable d a = true) →
  ∃ d', submit_read d base (k * BLOCK_SIZE) = Ret (d', Ok (DONE, take (k * BLOCK_SIZE) image)) ∧ same_medium d d'.
Proof.
  intros. destruct (read_table_ok d base blocks k image) as (d' & E & S); try done. exists d'.
  unfold submit_read. by rewrite E.
Qed.

(** The metadata can be read. *)
Definition answers_metadata (d : D) (fs : SimpleFs) : Prop :=
  ∀ a, 0 ≤ a ≤ fs_data_block_start fs → readable d a = true.

(** The blocks that [count] entries of [sz] bytes take. *)
Lemma blocks_for_ok (count sz : nat) (blocks : Z) : (0 < sz)%nat → 0 ≤ blocks →
  Z.of_nat count ≤ blocks * Z.of_nat BLOCK_SIZE / Z.of_nat sz →
  0 ≤ blocks_for (Z.of_nat count * Z.of_nat sz) ≤ blocks ∧
  (count * sz ≤ Z.to_nat (blocks_for (Z.of_nat count * Z.of_nat sz)) * BLOCK_SIZE)%nat.
Proof.
  intros Hsz Hb Hc. pose proof (capacity_bytes blocks count sz Hsz Hb Hc) as Hle.
  unfold blocks_for, div_ceil. destruct (Z.eqb_spec (Z.of_nat count * Z.of_nat sz) 0) as [E|E]; [nia|].
  set (x := Z.of_nat count * Z.of_nat sz) in *. assert (x ≤ blocks * Z.of_nat BLOCK_SIZE) by nia.
  assert (Hx : 0 < x) by lia. unfold BLOCK_SIZE in *.
  pose proof (Z.div_mod (x + Z.of_nat 512 - 1) (Z.of_nat 512) ltac:(lia)) as Hdm.
  pose proof (Z.mod_pos_bound (x + Z.of_nat 512 - 1) (Z.of_nat 512) ltac:(lia)). nia.
Qed.
Lemma table_bytes_ok (count sz : nat) (blocks : Z) : (0 < sz)%nat → 0 ≤ blocks < 2 ^ 32 →
  Z.of_nat count ≤ blocks * Z.of_nat BLOCK_SIZE / Z.of_nat sz →
  table_bytes sz (Z.of_nat count) = Ok (Z.of_nat count * Z.of_nat sz).
Proof.
  intros Hsz Hb Hc. pose proof (capacity_bytes blocks count sz Hsz ltac:(lia) Hc) as Hle.
  pose proof (zeroed_bound blocks Hb). unfold table_bytes, checked_mul. by rewrite (proj2 (Z.leb_le _ _)) by lia.
Qed.

(** ** What is stored is as valid as what was *)

Lemma count_parents_stored v w inodes counts dirents :
  count_parents v (stored_inode w <$> inodes) counts dirents = count_parents v inodes counts dirents.
Proof.
  revert counts. induction dirents as [|e dirents IH]; intros counts; [done|]. cbn [count_parents].
  destruct (validate_dir_entry_name_for_format _ _); cbn; [|done]. case_match; [done|].
  rewrite list_lookup_fmap. destruct (inodes !! _) as [i|]; cbn; [|done]. case_match; [done|]. case_match; [done|].
  destruct (counts !! _) as [c|]; cbn; [|done]. destruct (checked_add c 1); cbn; [apply IH|done].
Qed.

Lemma validate_stored v w inodes dirents start count cs :
  validate_loaded_metadata (stored_inode w <$> inodes) dirents v start count cs =
  validate_loaded_metadata inodes dirents v start count cs.
Proof.
  assert (Hscan : ∀ l s, scan_inodes dirents start count cs s (stored_inode w <$> l) = scan_inodes dirents start count cs s l).
  { induction l as [|i l IH]; intros s; [done|]. cbn. change (scan_inode dirents start count cs s (stored_inode w i))
      with (scan_inode dirents start count cs s i). destruct (scan_inode _ _ _ _ _ _); [apply IH|done]. }
  assert (Hpar : ∀ l counts, parents_ok (stored_inode w <$> l) counts = parents_ok l counts).
  { assert (Hall : ∀ l counts, forallb (λ p : OnDiskInode * Z, deleted p.1 || (p.2 =? 1)) (zip (stored_inode w <$> l) counts)
      = forallb (λ p, deleted p.1 || (p.2 =? 1)) (zip l counts)).
    { induction l as [|j l IH]; intros [|d counts]; try done. cbn. by rewrite <- IH. }
    intros [|i l] [|c counts]; try done. unfold parents_ok. cbn. rewrite !drop_0. apply Hall. }
  unfold validate_loaded_metadata. destruct inodes as [|root rest] eqn:E; [done|]. rewrite <- E in *.
  destruct (stored_inode w <$> inodes) as [|r0 rest0] eqn:E0; [by subst|]. rewrite <- E0.
  assert (deleted r0 = deleted root ∧ i_kind r0 = i_kind root) as [-> ->] by (subst; cbn in E0; by simplify_eq).
  rewrite Hscan, length_fmap. case_match; [done|]. destruct (scan_inodes _ _ _ _ _ _); cbn; [|done].
  case_match; [done|]. case_match; [done|]. rewrite count_parents_stored.
  destruct (count_parents _ _ _ _); cbn; [by rewrite Hpar|done].
Qed.

(** ** Loading from a mirror *)

(** A record that describes the tables of [s] in slot [x]. *)
Record describes (fs : SimpleFs) (x : Slot) (s : SimpleFsState) (r : SuperblockRecord) : Prop := mkDescribes {
  de_inode_count : inode_count r = Z.of_nat (length (inodes s));
  de_dirent_count : dirent_count r = Z.of_nat (length (dir_entries s));
  de_inode : active_inode_table_block r = slot_inode x;
  de_dirent : active_dirent_table_block r = slot_dirent x;
  de_xattr : active_xattr_table_block r = slot_xattr x;
  de_inode_blocks : inode_table_blocks r = fs_inode_table_blocks fs;
  de_dirent_blocks : dirent_table_blocks r = fs_dirent_table_blocks fs;
  de_xattr_blocks : xattr_table_blocks r = fs_xattr_table_blocks fs;
  de_data : data_block_start r = fs_data_block_start fs;
}.

(** The check every mount makes. *)
Definition valid_for (d : D) (fs : SimpleFs) (s : SimpleFsState) : Prop :=
  validate_loaded_metadata (inodes s) (dir_entries s) (fs_format_version fs) (fs_data_block_start fs)
    (block_count d) (fs_case_sensitive fs) = Ok ().

Lemma ret_bind {A B} (a : A) (f : A → outcome B) : (x ← Ret a; f x) = f a.
Proof. reflexivity. Qed.

Lemma await_both d i e : med_ok d →
  ('(d, ri) ← await d (Ok (DONE, i)); '(d, re) ← await d (Ok (DONE, e));
   Ret (d, let? i := ri in let? e := re in Ok (i, e))) = Ret (d, Ok (i, e)).
Proof.
  intros Hm. rewrite await_ok by exact Hm. rewrite ret_bind. cbv beta iota.
  rewrite await_ok by exact Hm. rewrite ret_bind. reflexivity.
Qed.

Lemma read_tables_both d d1 d2 ib il eb el i e : submit_read d ib il = Ret (d1, Ok (DONE, i)) →
  submit_read d1 eb el = Ret (d2, Ok (DONE, e)) → med_ok d2 → read_tables d ib il eb el = Ret (d2, Ok (i, e)).
Proof.
  intros E1 E2 Hm. unfold read_tables. rewrite E1, ret_bind. cbv beta iota. rewrite E2, ret_bind. cbv beta iota.
  by apply await_both.
Qed.

Lemma read_tables_ok d fs x s image ki kd : med_ok d → geometry_ok fs → slot_ok fs x →
  encodes fs s image → slot_holds d fs x image → answers_metadata d fs →
  Z.of_nat ki ≤ fs_inode_table_blocks fs → Z.of_nat kd ≤ fs_dirent_table_blocks fs →
  ∃ d', read_tables d (slot_inode x) (ki * BLOCK_SIZE) (slot_dirent x) (kd * BLOCK_SIZE) =
    Ret (d', Ok (take (ki * BLOCK_SIZE) (inode_table image), take (kd * BLOCK_SIZE) (dirent_table image))) ∧
    same_medium d d'.
Proof.
  intros Hm (_ & Hgi & Hgd & _ & _ & _ & _ & _ & _ & Hds) (_ & Hx1 & Hx2 & Hx3 & _) Hen Hh Hans Hki Hkd.
  assert (Hbig : 2 ^ 33 < u64_max) by done.
  destruct (submit_table_ok d (slot_inode x) (fs_inode_table_blocks fs) ki (inode_table image)) as (d1 & E1 & S1);
    [done|lia|lia|done|apply Hen|apply Hh|intros; apply Hans; lia|].
  destruct (submit_table_ok d1 (slot_dirent x) (fs_dirent_table_blocks fs) kd (dirent_table image)) as (d2 & E2 & S2);
    [apply S1|lia|lia|done|apply Hen| |intros; rewrite (sm_readable _ _ S1); apply Hans; lia|].
  { eapply table_at_same; [|apply Hh]. intros. apply S1. }
  exists d2. split; [|exact (same_medium_trans _ _ _ S1 S2)]. apply (read_tables_both _ d1); [exact E1|exact E2|apply S2].
Qed.

Lemma load_ok d fs x s image r : med_ok d → geometry_ok fs → tables_ok fs s → slot_ok fs x → encodes fs s image → slot_holds d fs x image → answers_metadata d fs →
  valid_for d fs s → describes fs x s r →
  ∃ d', load_runtime_state_from_superblock d (mkParsed (fs_format_version fs) r) (fs_case_sensitive fs) =
    Ret (d', Ok (stored_inode (fs_format_version fs) <$> inodes s, dir_entries s)) ∧ same_medium d d'.
Proof.
  intros Hm Hg (_ & _ & _ & Li & Ld & _) Hx Hen Hh Hans Hv [E1 E2 E3 E4 _ E6 E7 _ E9].
  pose proof Hg as (_ & Hgi & Hgd & _ & Hci & Hcd & _). rewrite Hci in Li. rewrite Hcd in Ld.
  unfold load_runtime_state_from_superblock. cbn [format_version record].
  set (v := fs_format_version fs) in *. rewrite E1, E2, E3, E4, E6, E7.
  assert (ensure_runtime_mount_supported v (is_read_only d) = Ok ()) as -> by (by destruct v). cbn [result_bind].
  rewrite (proj2 (Z.ltb_ge _ _)) by done. rewrite (proj2 (Z.ltb_ge _ _)) by done. cbn [orb].
  destruct (blocks_for_ok (length (inodes s)) INODE_SIZE (fs_inode_table_blocks fs) ltac:(unfold INODE_SIZE; lia) ltac:(lia) Li) as [Bi Bi'].
  destruct (blocks_for_ok (length (dir_entries s)) DIRENT_SIZE (fs_dirent_table_blocks fs) ltac:(unfold DIRENT_SIZE; lia) ltac:(lia) Ld) as [Bd Bd'].
  unfold inode_table_bytes, dirent_table_bytes, inode_size, dirent_size.
  rewrite (table_bytes_ok _ _ (fs_inode_table_blocks fs)) by (done || (unfold INODE_SIZE; lia)). cbn [result_bind].
  rewrite (table_bytes_ok _ _ (fs_dirent_table_blocks fs)) by (done || (unfold DIRENT_SIZE; lia)). cbn [result_bind]. unfold buffer_len.
  destruct (read_tables_ok d fs x s image (Z.to_nat (blocks_for (Z.of_nat (length (inodes s)) * Z.of_nat INODE_SIZE)))
    (Z.to_nat (blocks_for (Z.of_nat (length (dir_entries s)) * Z.of_nat DIRENT_SIZE))))
    as (d' & -> & S); [done|done|done|done|done|done|lia|lia|].
  cbn [mbind outcome_bind result_bind]. exists d'. split; [|done]. do 2 f_equal. unfold decode_tables. cbn [fst snd].
  rewrite E1, E2, E9, (en_decode_inodes _ _ _ Hen), (en_decode_dirents _ _ _ Hen) by done. cbn [result_bind].
  rewrite validate_stored, (sm_count _ _ S). unfold valid_for in Hv. fold v in Hv. by rewrite Hv.
Qed.
(** ** The mount *)

(** Slot [x] holds the tables of [s], which a mount accepts. *)
Definition loadable (d : D) (fs : SimpleFs) (x : Slot) (s : SimpleFsState) : Prop :=
  tables_ok fs s ∧ slot_ok fs x ∧ valid_for d fs s ∧ ∃ image, encodes fs s image ∧ slot_holds d fs x image.

(** The mirror in block [b] describes them. *)
Definition mirrors_slot (d : D) (fs : SimpleFs) (b : Z) (x : Slot) (s : SimpleFsState) : Prop :=
  ∃ r, parse_superblock (content d b) = Ok (stored_label (fs_label fs), mkParsed (fs_format_version fs) r) ∧
    describes fs x s r.

Definition unreadable (d : D) (b : Z) : Prop := ∃ e, parse_superblock (content d b) = Err e.

(** Every mirror is unreadable or describes tables that satisfy [P], and one of
    them is readable. *)
Definition finds (d : D) (fs : SimpleFs) (P : SimpleFsState → Prop) : Prop :=
  (∀ b, b = 0 ∨ b = 1 → unreadable d b ∨ ∃ x s, P s ∧ loadable d fs x s ∧ mirrors_slot d fs b x s) ∧
  ¬ (unreadable d 0 ∧ unreadable d 1).

(** The volume mounts with the tables of [s], as far as the format keeps them. *)
Definition mounts_as (d : D) (fs : SimpleFs) (s : SimpleFsState) : Prop :=
  ∃ d' fs' c' s', open d (fs_case_sensitive fs) = Ret (d', Ok (fs', c', s')) ∧
    fs_label fs' = stored_label (fs_label fs) ∧ fs_format_version fs' = fs_format_version fs ∧
    inodes s' = stored_inode (fs_format_version fs) <$> inodes s ∧ dir_entries s' = dir_entries s ∧
    xattrs s' = (if supports_persistent_xattrs (fs_format_version fs) then xattrs s else []).

Lemma read_mirror d b : med_ok d → 0 ≤ b < 2 → readable d b = true →
  ∃ d', submit_read d b BLOCK_SIZE = Ret (d', Ok (DONE, content d b)) ∧ same_medium d d'.
Proof.
  intros Hm Hb Hr. assert (2 < u64_max) by done.
  destruct (med_read d b 1 Hm ltac:(lia) ltac:(lia)) as (d' & r & E & Hm' & Hc & Hrd & Hcnt & Hok & Hdata).
  rewrite Nat.mul_1_l in E. unfold submit_read. rewrite E, ret_bind. cbv beta iota.
  destruct r as [data|e]; cycle 1.
  { assert (is_ok (A := bytes) (Err e) = true); [|done]. apply Hok; [done|]. intros i Hi.
    by replace (b + Z.of_nat i) with b by lia. }
  destruct (Hdata data eq_refl) as [Hl Hs]. rewrite Nat.mul_1_l in Hl. specialize (Hs 0%nat ltac:(lia)).
  rewrite Z.add_0_r in Hs. exists d'. split; [|by split]. do 4 f_equal. rewrite <- Hs. unfold sector. symmetry.
  by apply BlockCacheOps.slice_whole.
Qed.

Lemma candidates_ok d : med_ok d → readable d 0 = true → readable d 1 = true →
  ∃ d', readable_superblock_candidates d =
    Ret (d', candidate (Ok (content d 0)) ++ candidate (Ok (content d 1))) ∧ same_medium d d'.
Proof.
  intros Hm H0' H1'. unfold readable_superblock_candidates.
  destruct (read_mirror d 0 Hm ltac:(lia) H0') as (d1 & E1 & S1). unfold PRIMARY_SUPERBLOCK_BLOCK.
  rewrite E1, ret_bind. cbv beta iota.
  destruct (read_mirror d1 1 (sm_ok _ _ S1) ltac:(lia)) as (d2 & E2 & S2); [by rewrite (sm_readable _ _ S1)|].
  unfold SECONDARY_SUPERBLOCK_BLOCK. rewrite E2, ret_bind. cbv beta iota.
  rewrite (await_ok d2 _ (sm_ok _ _ S2)), ret_bind. cbv beta iota.
  rewrite (await_ok d2 _ (sm_ok _ _ S2)), ret_bind. cbv beta iota.
  exists d2. rewrite (sm_content _ _ S1). split; [reflexivity|]. exact (same_medium_trans _ _ _ S1 S2).
Qed.

Lemma loadable_same d d' fs x s : same_medium d d' → loadable d fs x s → loadable d' fs x s.
Proof.
  intros S (Ht & Hx & Hv & image & He & Hh). split; [done|]. split; [done|]. split.
  - unfold valid_for. by rewrite (sm_count _ _ S).
  - exists image. split; [done|]. eapply slot_holds_same; [|done]. intros. apply S.
Qed.

Lemma read_xattrs_ok d fs x s image : med_ok d → geometry_ok fs → slot_ok fs x →
  supports_persistent_xattrs (fs_format_version fs) = true → encodes fs s image → slot_holds d fs x image →
  answers_metadata d fs →
  ∃ d', read_xattr_records d (fs_format_version fs) (slot_xattr x)
      (xattr_capacity (fs_format_version fs) (fs_xattr_table_blocks fs)) = Ret (d', Ok (xattrs s)) ∧ same_medium d d'.
Proof.
  intros Hm Hg (_ & _ & _ & _ & Hxx) Hv Hen Hh Hans. destruct (Hxx Hv) as (Hx1 & Hx2 & _).
  destruct Hg as (_ & _ & _ & Hgx & _ & _ & Hcx & _ & _ & Hds). unfold read_xattr_records, xattr_table_bytes. rewrite <- Hcx.
  assert (Hcap : 0 ≤ fs_xattr_capacity fs) by (rewrite Hcx; unfold xattr_capacity; apply Z.div_pos; [lia|done]).
  set (n := Z.to_nat (fs_xattr_capacity fs)). assert (En : fs_xattr_capacity fs = Z.of_nat n) by lia.
  assert (Hn : Z.of_nat n ≤ fs_xattr_table_blocks fs * Z.of_nat BLOCK_SIZE / Z.of_nat XATTR_RECORD_SIZE).
  { rewrite <- En, Hcx. done. }
  assert (Hsz : (0 < XATTR_RECORD_SIZE)%nat) by (unfold XATTR_RECORD_SIZE; lia).
  rewrite En, (table_bytes_ok _ _ (fs_xattr_table_blocks fs)) by done.
  destruct (blocks_for_ok n XATTR_RECORD_SIZE (fs_xattr_table_blocks fs) Hsz ltac:(lia) Hn) as [Bx Bx'].
  assert (Hbig : 2 ^ 33 < u64_max) by done. unfold buffer_len.
  pose proof (en_xattrs _ _ _ Hen Hv) as [Lx Hbx].
  destruct (read_table_ok d (slot_xattr x) (fs_xattr_table_blocks fs)
    (Z.to_nat (blocks_for (Z.of_nat n * Z.of_nat XATTR_RECORD_SIZE))) (xattr_table image)) as (d' & -> & S);
    [done|lia|lia|lia|done|by apply Hh|intros; apply Hans; lia|].
  rewrite ret_bind. cbv beta iota. cbn [result_bind]. exists d'. split; [|exact S]. do 2 f_equal.
  apply (en_parse_xattrs _ _ _ Hen); [done|]. fold n. split; [done|]. rewrite Lx. nia.
Qed.

(** The mirror that is taken. *)
Lemma finds_candidate d fs P : finds d fs P →
  ∃ x s r rest, P s ∧ loadable d fs x s ∧ describes fs x s r ∧
    merge_sort newer (candidate (Ok (content d 0)) ++ candidate (Ok (content d 1))) =
      (stored_label (fs_label fs), mkParsed (fs_format_version fs) r) :: rest.
Proof.
  intros [Hf Hne]. set (cands := candidate _ ++ candidate _).
  assert (Hb : ∀ b lp, b = 0 ∨ b = 1 → lp ∈ candidate (Ok (content d b)) → ∃ x s r, P s ∧ loadable d fs x s ∧
    describes fs x s r ∧ lp = (stored_label (fs_label fs), mkParsed (fs_format_version fs) r)).
  { intros b lp Hb. cbn [candidate]. destruct (Hf b Hb) as [[e ->]|(x & s & Ps & Hl & r & -> & Hde)]; [by intros ?%elem_of_nil|].
    intros ->%list_elem_of_singleton. by exists x, s, r. }
  assert (Hcne : cands ≠ []).
  { intros E. apply Hne. unfold cands in E. apply app_eq_nil in E as [E0 E1]. cbn [candidate] in E0, E1.
    split; unfold unreadable.
    - destruct (parse_superblock (content d 0)); [done|by eexists].
    - destruct (parse_superblock (content d 1)); [done|by eexists]. }
  pose proof (merge_sort_Permutation newer cands) as Hp.
  destruct (merge_sort newer cands) as [|lp rest]; [apply Permutation_nil_l in Hp; by rewrite Hp in Hcne|].
  assert (lp ∈ cands) as [Hin|Hin]%elem_of_app by (rewrite <- Hp; by left).
  - destruct (Hb 0 lp) as (x & s & r & ? & ? & ? & ->); [by left|done|]. by exists x, s, r, rest.
  - destruct (Hb 1 lp) as (x & s & r & ? & ? & ? & ->); [by right|done|]. by exists x, s, r, rest.
Qed.

(** What a mount builds holds the tables it loaded. *)
Lemma open_tables d d' label p l dirents cs : load_current_runtime_state d cs = Ret (d', Ok (label, p, l, dirents)) →
  ∀ d'' xs, (if supports_persistent_xattrs (format_version p)
     then read_xattr_records d' (format_version p) (active_xattr_table_block (record p))
       (xattr_capacity (format_version p) (xattr_table_blocks (record p)))
     else Ret (d', Ok [])) = Ret (d'', Ok xs) →
  ∃ c' s', open d cs = Ret (d'', Ok (mounted label p cs, c', s')) ∧
    inodes s' = l ∧ dir_entries s' = dirents ∧ xattrs s' = xs.
Proof.
  intros E d'' xs Ex. unfold open. rewrite E, ret_bind. cbv beta iota zeta. rewrite Ex, ret_bind. cbv beta iota zeta.
  eexists _, _. split; [reflexivity|]. unfold rebuild_dir_inode_indices, rebuild_free_data_extents, initial_state.
  destruct (reverse_indices l dirents). cbn. by destruct (free_between _ _ _).
Qed.

(** A medium on which a mirror is found mounts. *)
Lemma finds_mounts d fs P : med_ok d → geometry_ok fs →
  answers_metadata d fs → finds d fs P → ∃ s, P s ∧ mounts_as d fs s.
Proof.
  intros Hm Hg Hans Hf. pose proof Hg as (_ & _ & _ & _ & _ & _ & _ & _ & _ & Hds). destruct (finds_candidate d fs P Hf) as (x & s & r & rest & Ps & Hl & Hde & Es).
  destruct (candidates_ok d Hm) as (d1 & Ec & S1); [apply Hans; lia|apply Hans; lia|].
  exists s. split; [done|]. pose proof (loadable_same _ _ _ _ _ S1 Hl) as (Ht & Hx & Hv & image & Hen & Hh).
  assert (Hans1 : answers_metadata d1 fs) by (intros a Ha; rewrite (sm_readable _ _ S1); by apply Hans).
  destruct (load_ok d1 fs x s image r (sm_ok _ _ S1) Hg Ht Hx Hen Hh Hans1 Hv Hde) as (d2 & E2 & S2).
  assert (Hload : load_current_runtime_state d (fs_case_sensitive fs) =
    Ret (d2, Ok (stored_label (fs_label fs), mkParsed (fs_format_version fs) r,
      stored_inode (fs_format_version fs) <$> inodes s, dir_entries s))).
  { unfold load_current_runtime_state. rewrite Ec, ret_bind. cbv beta iota. rewrite Es. cbn [first_loadable].
    rewrite E2, ret_bind. reflexivity. }
  destruct (supports_persistent_xattrs (fs_format_version fs)) eqn:Ev.
  - assert (Hh2 : slot_holds d2 fs x image) by (eapply slot_holds_same; [|exact Hh]; intros; apply S2).
    assert (Hans2 : answers_metadata d2 fs) by (intros a Ha; rewrite (sm_readable _ _ S2); by apply Hans1).
    destruct (read_xattrs_ok d2 fs x s image (sm_ok _ _ S2) Hg Hx Ev Hen Hh2 Hans2) as (d3 & E3 & _).
    destruct (open_tables _ _ _ _ _ _ _ Hload d3 (xattrs s)) as (c' & s' & Eo & Ei & Ed & Ex).
    { cbn [format_version record]. by rewrite Ev, (de_xattr _ _ _ _ Hde), (de_xattr_blocks _ _ _ _ Hde). }
    exists d3, (mounted (stored_label (fs_label fs)) (mkParsed (fs_format_version fs) r) (fs_case_sensitive fs)), c', s'.
    rewrite Ev. by split_and!.
  - destruct (open_tables _ _ _ _ _ _ _ Hload d2 []) as (c' & s' & Eo & Ei & Ed & Ex).
    { cbn [format_version]. by rewrite Ev. }
    exists d2, (mounted (stored_label (fs_label fs)) (mkParsed (fs_format_version fs) r) (fs_case_sensitive fs)), c', s'.
    rewrite Ev. by split_and!.
Qed.
End Crash.
