(* ===== verification/SfsCommitTheorems.v ===== *)
(** * Commits are atomic

    The phases of a metadata commit, each with what it leaves on the medium when
    it succeeds and when one of its writes fails, and the theorems they give: a
    commit that is cut short leaves the old tables or the new ones, also when an
    earlier commit had failed on a volume with a pending mark (V3 and V4). *)

From stdpp Require Import base tactics decidable numbers list gmap sorting.
From Stdlib Require Import ZArith Lia Bool.
From S2P Require Import Prelude Bytes Unicode Patch BlockDevice BlockCache BlockCacheInv CryptDevice BlockRuns.
From S2P Require Import SfsFormat SfsFormatTheorems SfsTree SfsState SfsCommit SfsCrash.

#[local] Opaque parse_superblock write_superblock.

(** ** Records *)

(** A record with slot [x] in use and slot [y] behind it. *)
Definition record_of (fs : SimpleFs) (x y : Slot) (s : SimpleFsState) (gen pending : Z) : SuperblockRecord :=
  mkSuper (Z.of_nat (length (inodes s))) (Z.of_nat (length (dir_entries s)))
    (slot_inode x) (slot_dirent x) (slot_inode y) (slot_dirent y)
    (fs_inode_table_blocks fs) (fs_dirent_table_blocks fs) (fs_data_block_start fs) gen pending
    (slot_xattr x) (slot_xattr y) (fs_xattr_table_blocks fs) (Z.of_nat (length (xattrs s))).

Lemma record_of_describes fs x y s gen pending v : describes fs x s (stored_record v (record_of fs x y s gen pending)).
Proof. by split. Qed.

Lemma record_of_ok fs x y s gen pending : geometry_ok fs → tables_ok fs s → slot_ok fs x → slot_ok fs y →
  u32_ok gen → u32_ok pending → super_ok (record_of fs x y s gen pending).
Proof.
  intros (_ & Hgi & Hgd & Hgx & _ & _ & _ & Hi & Hd & Hds) (_ & _ & _ & Li & Ld & _ & Lx)
    (X0 & X1 & X2 & X3 & _) (Y0 & Y1 & Y2 & Y3 & _) Hg Hp. unfold super_ok, u32_ok in *. cbn.
  repeat apply Forall_cons_2; try apply Forall_nil_2; lia.
Qed.

Lemma record_of_valid fs x y s gen pending : geometry_ok fs → slots_ok fs x y →
  validate_superblock_record (record_of fs x y s gen pending) = Ok ().
Proof.
  intros (_ & Hgi & Hgd & _ & _ & _ & _ & _ & _ & Hds) ((_ & X1 & X2 & X3 & _) & (_ & Y1 & Y2 & Y3 & _) & Hapart).
  assert (Hbig : 2 ^ 33 < u64_max) by done. unfold validate_superblock_record, checked_add. cbn.
  rewrite (proj2 (Z.eqb_neq _ _)) by lia. do 4 (rewrite (proj2 (Z.leb_le _ _)) by lia; cbn [ok_or result_bind]).
  rewrite (proj2 (Z.leb_gt _ _)) by (unfold SECONDARY_SUPERBLOCK_BLOCK; lia). rewrite X2, Z.eqb_refl.
  rewrite (proj2 (Z.leb_gt (slot_inode y) _)) by (unfold SECONDARY_SUPERBLOCK_BLOCK; lia). rewrite Y2, Z.eqb_refl. cbn [negb orb].
  rewrite (proj2 (Z.leb_gt _ _)) by lia. rewrite (proj2 (Z.leb_gt _ _)) by lia. cbn [orb].
  destruct (Z.ltb_spec (slot_inode x) (slot_inode y + fs_inode_table_blocks fs + fs_dirent_table_blocks fs)) as [H1|H1],
    (Z.ltb_spec (slot_inode y) (slot_inode x + fs_inode_table_blocks fs + fs_dirent_table_blocks fs)) as [H2|H2]; cbn [andb].
  { destruct (Hapart (Z.max (slot_inode x) (slot_inode y))); unfold in_slot, in_table; lia. }
  all: rewrite (proj2 (Z.ltb_ge _ _)) by lia; rewrite (proj2 (Z.ltb_ge _ _)) by lia; done.
Qed.

(** The block that is written for it. *)
Lemma record_of_block fs x y s gen pending : geometry_ok fs → tables_ok fs s → slots_ok fs x y →
  u32_ok gen → u32_ok pending →
  ∃ block r, write_superblock (fs_label fs) (fs_format_version fs) (record_of fs x y s gen pending) = Ret block ∧
    is_sector block ∧
    parse_superblock block = Ok (stored_label (fs_label fs), mkParsed (fs_format_version fs) r) ∧ describes fs x s r.
Proof.
  intros Hg Ht Hs Hgen Hp. pose proof Hs as (Hx & Hy & _).
  destruct (superblock_round_trip (fs_label fs) (fs_format_version fs) (record_of fs x y s gen pending))
    as (block & E & Hb & Hpar); [apply Hg|by apply record_of_ok|by apply record_of_valid|].
  exists block, (stored_record (fs_format_version fs) (record_of fs x y s gen pending)).
  split; [exact E|]. split; [exact Hb|]. split; [exact Hpar|]. apply record_of_describes.
Qed.

Section Commit.
Context {D : Type} `{Medium D} `{!HealthDevice D} (fs : SimpleFs).
Notation cache := (BlockCache D).

(** A superblock that was cut short is not taken for one: its checksum is wrong. *)
Definition torn_detected : Prop := ∀ b, damaged b → ∃ e, parse_superblock b = Err e.

(** ** The mirrors *)

(** The mirror in block [b] describes tables that satisfy [P]. *)
Definition good (d : D) (b : Z) (P : SimpleFsState → Prop) : Prop :=
  ∃ x s, P s ∧ loadable d fs x s ∧ mirrors_slot d fs b x s.

(** Blocks behind the mirrors are as they were, and so is what the cache says of them. *)
Record behind_mirrors (c c' : cache) : Prop := mkBehind {
  bm_tidy : tidy c';
  bm_ok : med_ok (device c');
  bm_count : block_count (device c') = block_count (device c);
  bm_content a : 1 < a → content (device c') a = content (device c) a;
  bm_agrees a : 1 < a < EMPTY_LBA → agrees c a → agrees c' a;
}.

Lemma in_slot_bounds x a : geometry_ok fs → slot_ok fs x → in_slot fs x a → 1 < a < 2 ^ 32.
Proof.
  intros (_ & Hgi & Hgd & Hgx & _ & _ & _ & _ & _ & Hds) (_ & X1 & X2 & X3 & Xx) [Ha|[Ha|[Hv Ha]]]; unfold in_table in Ha;
    [lia|lia|]. destruct (Xx Hv). lia.
Qed.

Lemma loadable_behind d d' x s : geometry_ok fs → (∀ a, 1 < a → content d' a = content d a) →
  block_count d' = block_count d → loadable d fs x s → loadable d' fs x s.
Proof.
  intros Hg Hc Hn (Ht & Hx & Hv & image & He & Hh). split; [done|]. split; [done|]. split.
  - unfold valid_for. by rewrite Hn.
  - exists image. split; [done|]. eapply slot_holds_same; [|done]. intros a Ha. apply Hc.
    by apply (in_slot_bounds x a).
Qed.

Lemma good_behind c c' b P : geometry_ok fs → behind_mirrors c c' → content (device c') b = content (device c) b →
  good (device c) b P → good (device c') b P.
Proof.
  intros Hg [_ _ Hn Hc _] Hb (x & s & Ps & Hl & r & Hp & Hd). exists x, s. split; [done|].
  split; [by eapply loadable_behind|]. exists r. by rewrite Hb.
Qed.

Lemma good_weaken d b (P Q : SimpleFsState → Prop) : (∀ s, P s → Q s) → good d b P → good d b Q.
Proof. intros HPQ (x & s & Ps & ?). exists x, s. split; [by apply HPQ|done]. Qed.

Lemma good_readable d b P : good d b P → ¬ unreadable d b.
Proof. intros (x & s & _ & _ & r & Hp & _) [e He]. congruence. Qed.

Lemma finds_good_primary d P : good d 0 P → (unreadable d 1 ∨ good d 1 P) → finds d fs P.
Proof.
  intros Hp Hs. split; [|intros [Hu _]; by eapply good_readable in Hp].
  intros b [->| ->]; [by right|done].
Qed.

Lemma finds_good_secondary d P : good d 1 P → (unreadable d 0 ∨ good d 0 P) → finds d fs P.
Proof.
  intros Hs Hp. split; [|intros [_ Hu]; by eapply good_readable in Hs].
  intros b [->| ->]; [done|by right].
Qed.

(** One mirror is written. *)
Lemma write_mirror_ok c b block x s : torn_detected → tidy c → med_ok (device c) → b = 0 ∨ b = 1 → is_sector block →
  (∃ r, parse_superblock block = Ok (stored_label (fs_label fs), mkParsed (fs_format_version fs) r) ∧ describes fs x s r) →
  ∃ c' r, write_blocks_cached c b block = Ret (c', r) ∧ behind_mirrors c c' ∧
    content (device c') (1 - b) = content (device c) (1 - b) ∧
    (r = Ok () → mirrors_slot (device c') fs b x s) ∧
    (content (device c') b = content (device c) b ∨ mirrors_slot (device c') fs b x s ∨ unreadable (device c') b).
Proof.
  intros Htorn Ht Hm Hb Hbl (r0 & Hp & Hde). assert (Hbig : 2 ^ 33 < EMPTY_LBA) by done.
  destruct (write_blocks_cached_ok c b 1 block Ht Hm ltac:(lia) ltac:(lia)) as (c' & r & E & [T O N Wo Wa Wi] & Hpart).
  { destruct Hbl as [Hl Hby]. split; [by rewrite Hl, Nat.mul_1_l|done]. }
  assert (Hsec : sector block 0 = block) by (apply BlockCacheOps.slice_whole; apply Hbl).
  exists c', r. split; [exact E|]. split.
  { split; [done|done|done|intros a Ha; apply Wo; lia|intros a Ha; apply Wa; lia]. }
  split; [apply Wo; lia|].
  assert (Hnew : content (device c') b = block → mirrors_slot (device c') fs b x s).
  { intros Ec. exists r0. by rewrite Ec. }
  split.
  - intros ->. apply Hnew. destruct (Wi 0%nat eq_refl ltac:(lia)) as [Wc _]. by rewrite Z.add_0_r, Hsec in Wc.
  - specialize (Hpart 0%nat ltac:(lia)). rewrite Z.add_0_r, Hsec in Hpart.
    destruct Hpart as [Hp'|[Hp'|Hp']]; [by left|right; left; by apply Hnew|right; right; by apply Htorn].
Qed.

Lemma behind_trans c1 c2 c3 : behind_mirrors c1 c2 → behind_mirrors c2 c3 → behind_mirrors c1 c3.
Proof.
  intros [T1 O1 N1 C1 A1] [T2 O2 N2 C2 A2]. split; [done|done|congruence|intros a Ha; by rewrite C2, C1|].
  intros a Ha Hg. apply A2; [done|by apply A1].
Qed.
(** Both are written, to describe tables that are on the medium: whatever fails,
    a mirror is found. *)
Lemma write_mirrors_ok c rec block x s P : torn_detected → geometry_ok fs → tidy c → med_ok (device c) →
  write_superblock (fs_label fs) (fs_format_version fs) rec = Ret block → is_sector block →
  (∃ r, parse_superblock block = Ok (stored_label (fs_label fs), mkParsed (fs_format_version fs) r) ∧ describes fs x s r) →
  loadable (device c) fs x s → good (device c) 0 P → (unreadable (device c) 1 ∨ good (device c) 1 P) →
  ∃ c' r, write_mirrors fs c rec = Ret (c', r) ∧ behind_mirrors c c' ∧ finds (device c') fs (λ t, P t ∨ t = s) ∧
    (r = Ok () → mirrors_slot (device c') fs 0 x s ∧ mirrors_slot (device c') fs 1 x s).
Proof.
  intros Htorn Hg Ht Hm Eb Hbl Hp Hl Hg0 Hg1. unfold write_mirrors. rewrite Eb, ret_bind.
  assert (Hs : ∀ c', behind_mirrors c c' → loadable (device c') fs x s).
  { intros c' [_ _ Hn Hc _]. by apply (loadable_behind (device c)). }
  assert (Hweak : ∀ d b, good d b P → good d b (λ t, P t ∨ t = s)) by (intros; eapply good_weaken; [|done]; by left).
  destruct (write_mirror_ok c 1 block x s Htorn Ht Hm (or_intror eq_refl) Hbl Hp) as (c1 & r1 & E1 & B1 & H10 & H1ok & H1).
  unfold and_then. unfold SECONDARY_SUPERBLOCK_BLOCK. rewrite E1, ret_bind. cbv beta iota.
  assert (Hg0' : good (device c1) 0 P) by by apply (good_behind c c1).
  destruct r1 as [[]|e]; cycle 1.
  { exists c1, (Err e). split; [done|]. split; [done|]. split; [|done].
    apply finds_good_primary; [by apply Hweak|]. destruct H1 as [H1|[H1|H1]]; [|right; exists x, s; by auto|by left].
    destruct Hg1 as [[e' Hu]|Hg1]; [left; exists e'; rewrite H1; exact Hu|].
    right. apply Hweak, (good_behind c c1); [exact Hg|exact B1|exact H1|exact Hg1]. }
  pose proof (H1ok eq_refl) as Hm1.
  destruct (write_mirror_ok c1 0 block x s Htorn (bm_tidy _ _ B1) (bm_ok _ _ B1) (or_introl eq_refl) Hbl Hp)
    as (c2 & r2 & E2 & B2 & H20 & H2ok & H2).
  unfold PRIMARY_SUPERBLOCK_BLOCK. exists c2, r2. split; [exact E2|]. pose proof (behind_trans _ _ _ B1 B2) as B.
  split; [done|]. assert (Hm2 : mirrors_slot (device c2) fs 1 x s).
  { destruct Hm1 as (r' & Hm1 & ?). exists r'. change (1 - 0) with 1 in H20. rewrite H20. split; assumption. }
  split.
  - apply finds_good_secondary; [exists x, s; split; [by right|]; split; [exact (Hs _ B)|exact Hm2]|].
    destruct H2 as [H2|[H2|H2]]; [|right; exists x, s; by auto|by left].
    right. apply Hweak, (good_behind c1 c2); [exact Hg|exact B2|exact H2|exact Hg0'].
  - intros ->. split; [exact (H2ok eq_refl)|exact Hm2].
Qed.

(** ** The tables *)

(** A step that writes blocks of [R] alone. *)
Record confined (c c' : cache) (R : Z → Prop) : Prop := mkConfined {
  cf_tidy : tidy c';
  cf_ok : med_ok (device c');
  cf_count : block_count (device c') = block_count (device c);
  cf_content a : ¬ R a → content (device c') a = content (device c) a;
  cf_agrees a : ¬ R a → a < EMPTY_LBA → agrees c a → agrees c' a;
}.

Lemma confined_trans c1 c2 c3 (R1 R2 R : Z → Prop) : confined c1 c2 R1 → confined c2 c3 R2 →
  (∀ a, R1 a → R a) → (∀ a, R2 a → R a) → confined c1 c3 R.
Proof.
  intros [T1 O1 N1 C1 A1] [T2 O2 N2 C2 A2] H1 H2. split; [done|done|congruence| |].
  - intros a Ha. rewrite C2, C1; naive_solver. - intros a Ha Hl Hg. apply A2; [naive_solver|done|]. apply A1; naive_solver.
Qed.

Lemma confined_weaken c c' (R R' : Z → Prop) : confined c c' R → (∀ a, R a → R' a) → confined c c' R'.
Proof. intros [T O N C A] HR. split; [done|done|done|intros a Ha; apply C; naive_solver|intros a Ha; apply A; naive_solver]. Qed.

(** One table. *)
Lemma shadow_table_ok c base blocks image full : tidy c → med_ok (device c) → 0 ≤ base → 0 ≤ blocks → base + blocks < 2 ^ 33 →
  table_image blocks image → (full = false → ∀ a, in_table base blocks a → agrees c a) →
  ∃ c' r, write_shadow_table c base image full = Ret (c', r) ∧ confined c c' (in_table base blocks) ∧
    (r = Ok () → table_at (device c') base blocks image ∧ ∀ a, in_table base blocks a → agrees c' a).
Proof.
  intros Ht Hm Hlo Hb Hhi Hi Hag. assert (Hbig : 2 ^ 33 + 5 < EMPTY_LBA) by done.
  destruct (write_shadow_table_ok c base (Z.to_nat blocks) image full) as (c' & r & E & [T O N Wo Wa Wi]);
    [done|done|done|lia|done| |].
  { intros -> j Hj. apply Hag; [done|]. unfold in_table. lia. }
  exists c', r. split; [exact E|]. split.
  - split; [done|done|done|intros a Ha; apply Wo; unfold in_table in Ha; lia|].
    intros a Ha Hle. apply Wa; [unfold in_table in Ha; lia|lia].
  - intros ->. split; [intros i Hi'; by apply Wi|]. intros a Ha. unfold in_table in Ha.
    destruct (Wi (Z.to_nat (a - base)) eq_refl ltac:(lia)) as [_ Wg].
    by replace (base + Z.of_nat (Z.to_nat (a - base))) with a in Wg by lia.
Qed.

Lemma table_at_confined c c' R base blocks image : confined c c' R → (∀ a, in_table base blocks a → ¬ R a) →
  table_at (device c) base blocks image → table_at (device c') base blocks image.
Proof. intros HC HR. apply table_at_same. intros a Ha. apply HC. by apply HR. Qed.

(** A table and its place. *)
Record Table := mkTable { t_base : Z; t_blocks : Z; t_image : bytes }.
Definition of_table (t : Table) (a : Z) : Prop := in_table (t_base t) (t_blocks t) a.
Definition covered (l : list Table) (a : Z) : Prop := Exists (λ t, of_table t a) l.
Definition placed (t : Table) : Prop :=
  0 ≤ t_base t ∧ 0 ≤ t_blocks t ∧ t_base t + t_blocks t < 2 ^ 33 ∧ table_image (t_blocks t) (t_image t).

(** The tables one after the other, as the commit writes them. *)
Fixpoint write_each (c : cache) (full : bool) (l : list Table) : outcome (cache * result unit) :=
  match l with
  | [] => Ret (c, Ok ())
  | t :: l => and_then (write_shadow_table c (t_base t) (t_image t) full) (λ c, write_each c full l)
  end.

Fixpoint disjoint_tables (l : list Table) : Prop :=
  match l with [] => True | t :: l => (∀ a, of_table t a → ¬ covered l a) ∧ disjoint_tables l end.

Lemma write_each_ok full l c : tidy c → med_ok (device c) → Forall placed l → disjoint_tables l →
  (full = false → ∀ a, covered l a → agrees c a) →
  ∃ c' r, write_each c full l = Ret (c', r) ∧ confined c c' (covered l) ∧
    (r = Ok () → Forall (λ t, table_at (device c') (t_base t) (t_blocks t) (t_image t)) l ∧
      ∀ a, covered l a → agrees c' a).
Proof.
  assert (Hbig : 2 ^ 33 < EMPTY_LBA) by done.
  revert c. induction l as [|t l IH]; intros c Ht Hm Hp Hd Hag; cbn [write_each].
  { exists c, (Ok ()). split; [done|]. split; [by split|]. intros _. split; [apply Forall_nil_2|]. by intros a ?%Exists_nil. }
  pose proof Hp as [(P1 & P2 & P3 & P4) Hpl]%Forall_cons. destruct Hd as [Hdt Hdl].
  destruct (shadow_table_ok c (t_base t) (t_blocks t) (t_image t) full) as (c1 & r1 & E1 & C1 & K1); try done.
  { intros Hf a Ha. apply Hag; [done|by left]. }
  unfold and_then. rewrite E1, ret_bind. cbv beta iota. destruct r1 as [[]|e]; cycle 1.
  { exists c1, (Err e). split; [done|]. split; [eapply confined_weaken; [exact C1|by left]|done]. }
  destruct (K1 eq_refl) as [T1 A1].
  assert (Hcov : ∀ a, covered l a → a < EMPTY_LBA ∧ ¬ of_table t a).
  { intros a Ha. split; [|intros Hta; by apply (Hdt a)]. apply Exists_exists in Ha as (t' & Hin & Ha).
    rewrite Forall_forall in Hpl. destruct (Hpl t' Hin) as (_ & _ & ? & _). unfold of_table, in_table in Ha. lia. }
  destruct (IH c1) as (c2 & r2 & E2 & C2 & K2); [apply C1|apply C1|done|done| |].
  { intros Hf a Ha. destruct (Hcov a Ha). apply (cf_agrees _ _ _ C1); [done|done|]. apply Hag; [done|by right]. }
  exists c2, r2. split; [exact E2|]. split; [eapply confined_trans; [exact C1|exact C2|by left|by right]|].
  intros ->. destruct (K2 eq_refl) as [T2 A2]. split.
  - apply Forall_cons_2; [|done]. eapply table_at_confined; [exact C2|exact Hdt|exact T1].
  - intros a [Ha|Ha]%Exists_cons; [|by apply A2].
    apply (cf_agrees _ _ _ C2); [by apply Hdt|unfold of_table, in_table in Ha; lia|by apply A1].
Qed.

(** The tables of an image in slot [x]. *)
Definition slot_tables (x : Slot) (image : RuntimeMetadataImage) : list Table :=
  [ mkTable (slot_inode x) (fs_inode_table_blocks fs) (inode_table image);
    mkTable (slot_dirent x) (fs_dirent_table_blocks fs) (dirent_table image) ] ++
  (if supports_persistent_xattrs (fs_format_version fs)
   then [mkTable (slot_xattr x) (fs_xattr_table_blocks fs) (xattr_table image)] else []).

Lemma slot_tables_covered x image a : covered (slot_tables x image) a ↔ in_slot fs x a.
Proof.
  unfold covered, slot_tables, in_slot. destruct (supports_persistent_xattrs _); cbn;
    rewrite !Exists_cons, Exists_nil; unfold of_table; cbn; naive_solver.
Qed.

Lemma and_then_done (o : outcome (cache * result unit)) : and_then o (λ c, Ret (c, Ok ())) = o.
Proof. by destruct o as [[c [[]|e]]| |]. Qed.

Lemma and_then_ext (o : outcome (cache * result unit)) k k' : (∀ c, k c = k' c) → and_then o k = and_then o k'.
Proof. intros E. destruct o as [[c [[]|e]]| |]; [apply E|done|done|done]. Qed.

Lemma write_tables_each c s image :
  write_tables fs c s image = write_each c (needs_shadow_sync s) (slot_tables (shadow_slot s) image).
Proof.
  unfold write_tables, slot_tables. destruct (supports_persistent_xattrs _); cbn; [|done].
  apply and_then_ext. intros c1. apply and_then_ext. intros c2. symmetry. apply and_then_done.
Qed.

Lemma slot_tables_ok x image s : geometry_ok fs → slot_ok fs x → encodes fs s image →
  Forall placed (slot_tables x image) ∧ disjoint_tables (slot_tables x image).
Proof.
  intros (_ & Hgi & Hgd & Hgx & _ & _ & _ & _ & _ & Hds) (_ & X1 & X2 & X3 & Xx) He. unfold slot_tables.
  destruct (supports_persistent_xattrs _) eqn:Ev; [destruct (Xx eq_refl) as (Y1 & Y2 & Y3)|]; cbn; unfold covered, of_table, in_table;
    (split; [repeat apply Forall_cons_2; try apply Forall_nil_2; (split_and!; cbn; [lia|lia|lia|by apply He])|]);
    split_and!; try done; intros a Ha Hc;
    repeat (apply Exists_cons in Hc as [Hc|Hc]; [cbn in *; lia|]); by apply Exists_nil in Hc.
Qed.

(** All the tables of the slot behind. *)
Lemma write_tables_ok c s image : let x := shadow_slot s in
  tidy c → med_ok (device c) → geometry_ok fs → slot_ok fs x → encodes fs s image →
  (needs_shadow_sync s = false → ∀ a, in_slot fs x a → agrees c a) →
  ∃ c' r, write_tables fs c s image = Ret (c', r) ∧ confined c c' (in_slot fs x) ∧
    (r = Ok () → slot_holds (device c') fs x image ∧ ∀ a, in_slot fs x a → agrees c' a).
Proof.
  intros x Ht Hm Hg Hx He Hag. rewrite write_tables_each. fold x.
  destruct (slot_tables_ok x image s Hg Hx He) as [Hp Hd].
  destruct (write_each_ok (needs_shadow_sync s) (slot_tables x image) c Ht Hm Hp Hd) as (c' & r & E & C & K).
  { intros Hf a Ha%slot_tables_covered. by apply Hag. }
  exists c', r. split; [exact E|]. split; [eapply confined_weaken; [exact C|]; intros a; by rewrite slot_tables_covered|].
  intros Hr. destruct (K Hr) as [T A]. split; [|intros a Ha; by apply A, slot_tables_covered].
  unfold slot_tables in T. apply Forall_app in T as [T Tx]. apply Forall_cons in T as [T1 T2]. rewrite Forall_singleton in T2.
  split; [exact T1|exact T2|]. intros Ev. rewrite Ev in Tx. rewrite Forall_singleton in Tx. exact Tx.
Qed.

(** ** A volume between commits *)

(** States with the same tables. *)
Definition same_tables (s s' : SimpleFsState) : Prop :=
  inodes s' = inodes s ∧ dir_entries s' = dir_entries s ∧ xattrs s' = xattrs s.

Lemma loadable_tables d x s s' : same_tables s s' → loadable d fs x s → loadable d fs x s'.
Proof.
  intros (Ei & Ed & Ex) (Ht & Hx & Hv & image & [] & Hh).
  split; [unfold tables_ok; rewrite Ei, Ed, Ex; exact Ht|]. split; [exact Hx|].
  split; [unfold valid_for; rewrite Ei, Ed; exact Hv|]. exists image. split; [|exact Hh].
  split; rewrite ?Ei, ?Ed, ?Ex; assumption.
Qed.

Lemma mirrors_tables d b x s s' : same_tables s s' → mirrors_slot d fs b x s → mirrors_slot d fs b x s'.
Proof.
  intros (Ei & Ed & _) (r & Hp & []). exists r. split; [exact Hp|]. split; rewrite ?Ei, ?Ed; assumption.
Qed.

(** The tables in use are on the medium, and the cache agrees with the slots
    where the next commit compares with it. *)
Record standing (c : cache) (s : SimpleFsState) : Prop := mkStanding {
  sg_tidy : tidy c;
  sg_ok : med_ok (device c);
  sg_slots : slots_ok fs (active_slot s) (shadow_slot s);
  sg_generation : u32_ok (st_generation s);
  sg_loadable : loadable (device c) fs (active_slot s) s;
  sg_active a : in_slot fs (active_slot s) a → agrees c a;
  sg_shadow a : needs_shadow_sync s = false → in_slot fs (shadow_slot s) a → agrees c a;
}.

(** Both mirrors describe them. *)
Definition clean (c : cache) (s : SimpleFsState) : Prop :=
  standing c s ∧ mirrors_slot (device c) fs 0 (active_slot s) s ∧ mirrors_slot (device c) fs 1 (active_slot s) s.

(** The tables that are committed, from a volume that held those of [s0]. *)
Record follows (n : Z) (s0 s : SimpleFsState) : Prop := mkFollows {
  fo_active : active_slot s = active_slot s0;
  fo_shadow : shadow_slot s = shadow_slot s0;
  fo_generation : st_generation s = st_generation s0;
  fo_sync : needs_shadow_sync s = needs_shadow_sync s0;
  fo_tables : tables_ok fs s;
  fo_valid : validate_loaded_metadata (inodes s) (dir_entries s) (fs_format_version fs) (fs_data_block_start fs) n
    (fs_case_sensitive fs) = Ok ();
  fo_inodes : default (length (inodes s)) (old_inode_count (undo s)) = length (inodes s0);
  fo_dirents : default (length (dir_entries s)) (old_dirent_count (undo s)) = length (dir_entries s0);
  fo_xattrs : default (length (xattrs s)) (old_xattr_count (undo s)) = length (xattrs s0);
}.

Lemma pending_record_of n s0 s next : follows n s0 s →
  pending_record fs s next = record_of fs (active_slot s0) (shadow_slot s0) s0 (st_generation s0) next.
Proof.
  intros [Ea Es Eg _ _ _ Ei Ed Ex]. rewrite <- Ea, <- Es, <- Eg. unfold pending_record, record_of. by rewrite Ei, Ed, Ex.
Qed.

Lemma publish_record_of s next :
  publish_record fs s next = record_of fs (shadow_slot s) (active_slot s) s next 0.
Proof. done. Qed.

Lemma slots_ok_sym x y : slots_ok fs x y → slots_ok fs y x.
Proof. intros (Hx & Hy & Ha). split; [done|]. split; [done|]. intros a Hya Hxa. by apply (Ha a). Qed.

Lemma confined_behind c c' x : geometry_ok fs → slot_ok fs x → confined c c' (in_slot fs x) →
  ∀ b, b = 0 ∨ b = 1 → content (device c') b = content (device c) b.
Proof.
  intros Hg Hx HC b Hb. apply HC. intros Hin. pose proof (in_slot_bounds x b Hg Hx Hin). lia.
Qed.

Lemma loadable_confined c c' x y s : slots_ok fs x y → confined c c' (in_slot fs y) →
  loadable (device c) fs x s → loadable (device c') fs x s.
Proof.
  intros (_ & _ & Ha) HC (Ht & Hx & Hv & image & He & Hh). split; [done|]. split; [done|]. split.
  - unfold valid_for. by rewrite (cf_count _ _ _ HC).
  - exists image. split; [done|]. eapply slot_holds_same; [|done]. intros a Hin. apply HC. by apply Ha.
Qed.

(** What a step that keeps the slot in use leaves of it. *)
Lemma standing_confined c c' s0 : geometry_ok fs → standing c s0 → confined c c' (in_slot fs (shadow_slot s0)) →
  standing c' (with_needs_shadow_sync true s0).
Proof.
  intros Hg [T O S G L A _] HC. pose proof S as (Hx & Hy & Ha). assert (2 ^ 33 < EMPTY_LBA) by done.
  split; [apply HC|apply HC|done|done| | |done].
  { eapply loadable_tables; [|exact (loadable_confined _ _ _ _ _ S HC L)]. by split. }
  intros a Hin. apply (cf_agrees _ _ _ HC); [by apply Ha| |by apply A].
  pose proof (in_slot_bounds _ a Hg Hx Hin). lia.
Qed.

Lemma standing_behind c c' s0 : geometry_ok fs → standing c s0 → behind_mirrors c c' → standing c' s0.
Proof.
  intros Hg [T O S G L A B] HB. pose proof S as (Hx & Hy & _). assert (2 ^ 33 < EMPTY_LBA) by done.
  split; [apply HB|apply HB|done|done| | |].
  - eapply loadable_behind; [done|apply HB|apply HB|done].
  - intros a Hin. pose proof (in_slot_bounds _ a Hg Hx Hin). apply (bm_agrees _ _ HB); [lia|by apply A].
  - intros a Hn Hin. pose proof (in_slot_bounds _ a Hg Hy Hin). apply (bm_agrees _ _ HB); [lia|by apply B].
Qed.

(** ** The writes of a commit *)

Lemma mirrors_good d b x s (P : SimpleFsState → Prop) : loadable d fs x s → P s → mirrors_slot d fs b x s → good d b P.
Proof. intros Hl Hp Hm. by exists x, s. Qed.

(** A volume with both mirrors in order. *)
Lemma finds_mirrors d x s (P : SimpleFsState → Prop) : loadable d fs x s → P s →
  mirrors_slot d fs 0 x s → mirrors_slot d fs 1 x s → finds d fs P.
Proof.
  intros Hl Hp H0' H1'. apply finds_good_primary; [exact (mirrors_good _ _ _ _ _ Hl Hp H0')|].
  right. exact (mirrors_good _ _ _ _ _ Hl Hp H1').
Qed.

Lemma mirrors_content d d' b x s : content d' b = content d b → mirrors_slot d fs b x s → mirrors_slot d' fs b x s.
Proof. intros E (r & Hp & Hd). exists r. rewrite E. split; assumption. Qed.

(** The slots exchanged in memory, once they are on the medium. *)
Lemma clean_swapped n c s0 s next : geometry_ok fs → follows n s0 s → standing c (with_needs_shadow_sync true s0) → u32_ok next →
  loadable (device c) fs (shadow_slot s0) s → (∀ a, in_slot fs (shadow_slot s0) a → agrees c a) →
  mirrors_slot (device c) fs 0 (shadow_slot s0) s → mirrors_slot (device c) fs 1 (shadow_slot s0) s →
  clean c (swap_slots s next).
Proof.
  intros Hg Hf [T O S _ _ A _] Hn L B M0 M1.
  assert (Ea : active_slot (swap_slots s next) = shadow_slot s0) by (rewrite <- (fo_shadow _ _ _ Hf); done).
  assert (Es : shadow_slot (swap_slots s next) = active_slot s0) by (rewrite <- (fo_active _ _ _ Hf); done).
  assert (Hsame : same_tables s (swap_slots s next)) by by split.
  unfold clean. rewrite Ea. split; [|exact (conj (mirrors_tables _ _ _ _ _ Hsame M0) (mirrors_tables _ _ _ _ _ Hsame M1))].
  split; rewrite ?Ea, ?Es; [done|done|by apply slots_ok_sym|done|by eapply loadable_tables|done|].
  intros a _ Ha. by apply A.
Qed.

(** The tables, then the mirrors: the old tables are described until the new ones
    are complete. *)
Lemma publish_ok c s0 s image : torn_detected → geometry_ok fs → clean c s0 →
  follows (block_count (device c)) s0 s → encodes fs s image → st_generation s0 < u32_max →
  ∃ c' r, and_then (write_tables fs c s image) (λ c, write_mirrors fs c (publish_record fs s (st_generation s + 1))) =
      Ret (c', r) ∧
    finds (device c') fs (λ t, t = s0 ∨ t = s) ∧
    (r = Ok () → clean c' (swap_slots s (st_generation s + 1))) ∧
    standing c' (with_needs_shadow_sync true s0).
Proof.
  intros Htorn Hg [Hst [M0 M1]] Hf He Hgen. pose proof Hst as [T O S G L A B]. pose proof S as (Hx & Hy & _).
  destruct (write_tables_ok c s image) as (c1 & r1 & E1 & C1 & K1); [done|done|done|by rewrite (fo_shadow _ _ _ Hf)|done| |].
  { rewrite (fo_shadow _ _ _ Hf), (fo_sync _ _ _ Hf). intros Hn a. by apply B. }
  rewrite (fo_shadow _ _ _ Hf) in C1, K1. pose proof (standing_confined _ _ _ Hg Hst C1) as Hst1.
  pose proof (loadable_confined _ _ _ _ _ S C1 L) as L1.
  pose proof (mirrors_content _ (device c1) _ _ _ (confined_behind _ _ _ Hg Hy C1 0 ltac:(lia)) M0) as M0'.
  pose proof (mirrors_content _ (device c1) _ _ _ (confined_behind _ _ _ Hg Hy C1 1 ltac:(lia)) M1) as M1'.
  unfold and_then at 1. rewrite E1, ret_bind. cbv beta iota. destruct r1 as [[]|e]; cycle 1.
  { exists c1, (Err e). split; [reflexivity|]. split; [exact (finds_mirrors _ _ _ _ L1 (or_introl eq_refl) M0' M1')|]. split; [intros [=]|exact Hst1]. }
  destruct (K1 eq_refl) as [Hh A1].
  assert (Ls : loadable (device c1) fs (shadow_slot s0) s).
  { split; [apply Hf|]. split; [done|]. split; [unfold valid_for; rewrite (cf_count _ _ _ C1); apply Hf|by exists image]. }
  assert (Hgs : u32_ok (st_generation s + 1)) by (rewrite (fo_generation _ _ _ Hf); unfold u32_ok, u32_max in *; lia).
  destruct (record_of_block fs (shadow_slot s) (active_slot s) s (st_generation s + 1) 0) as (block & r & Ew & Hb & Hp & Hd);
    [done|apply Hf| |done|unfold u32_ok; lia|].
  { rewrite (fo_shadow _ _ _ Hf), (fo_active _ _ _ Hf). by apply slots_ok_sym. }
  rewrite publish_record_of. rewrite (fo_shadow _ _ _ Hf) in Hd.
  destruct (write_mirrors_ok c1 _ block (shadow_slot s0) s (λ t, t = s0) Htorn Hg (cf_tidy _ _ _ C1) (cf_ok _ _ _ C1) Ew Hb
    (ex_intro _ r (conj Hp Hd)) Ls) as (c2 & r2 & E2 & B2 & F2 & K2);
    [exact (mirrors_good _ _ _ _ _ L1 eq_refl M0')|right; exact (mirrors_good _ _ _ _ _ L1 eq_refl M1')|].
  exists c2, r2. split; [exact E2|]. split; [exact F2|]. split; [|exact (standing_behind _ _ _ Hg Hst1 B2)].
  intros ->. destruct (K2 eq_refl) as [N0 N1]. apply (clean_swapped _ c2 s0 s _ Hg Hf); [exact (standing_behind _ _ _ Hg Hst1 B2)|exact Hgs| | |exact N0|exact N1].
  - exact (loadable_behind _ _ _ _ Hg (bm_content _ _ B2) (bm_count _ _ B2) Ls).
  - intros a Ha. assert (2 ^ 33 < EMPTY_LBA) by done. pose proof (in_slot_bounds _ a Hg Hy Ha).
    apply (bm_agrees _ _ B2); [lia|by apply A1].
Qed.

(** Where a commit may begin: a mount finds tables that satisfy [P], in the
    primary mirror or in both, and a volume without a pending mark has both
    mirrors in order. *)
Record ready (c : cache) (s0 : SimpleFsState) (P : SimpleFsState → Prop) : Prop := mkReady {
  rd_standing : standing c s0;
  rd_finds : finds (device c) fs P;
  rd_primary : ¬ unreadable (device c) 0;
  rd_mirrors : has_layout (fs_format_version fs) = false →
    mirrors_slot (device c) fs 0 (active_slot s0) s0 ∧ mirrors_slot (device c) fs 1 (active_slot s0) s0;
}.

Lemma clean_ready c s0 : clean c s0 → ready c s0 (λ t, t = s0).
Proof.
  intros [Hst [M0 M1]]. pose proof (sg_loadable _ _ Hst) as L. split; [exact Hst| | |intros _; exact (conj M0 M1)].
  - exact (finds_mirrors _ _ _ _ L eq_refl M0 M1).
  - exact (good_readable _ _ _ (mirrors_good _ _ _ _ (λ t, t = s0) L eq_refl M0)).
Qed.

Lemma finds_weaken d (P Q : SimpleFsState → Prop) : (∀ s, P s → Q s) → finds d fs P → finds d fs Q.
Proof.
  intros HPQ [Hf Hn]. split; [|exact Hn]. intros b Hb.
  destruct (Hf b Hb) as [Hu|(x & s & Ps & Hl & Hm)]; [by left|]. right. exists x, s. exact (conj (HPQ s Ps) (conj Hl Hm)).
Qed.

(** The first phase: both mirrors describe the tables in use. *)
Lemma write_pending_ok c s0 s P : torn_detected → geometry_ok fs → ready c s0 P →
  follows (block_count (device c)) s0 s → st_generation s0 < u32_max →
  ∃ c' r, write_pending fs c s (st_generation s + 1) = Ret (c', r) ∧
    finds (device c') fs (λ t, P t ∨ t = s0) ∧ (r = Ok () → clean c' s0) ∧ standing c' s0 ∧
    block_count (device c') = block_count (device c).
Proof.
  intros Htorn Hg [Hst Hf Hp Hm] Hfo Hgen. unfold write_pending. destruct (has_layout _) eqn:Ev; cycle 1.
  { exists c, (Ok ()). split; [reflexivity|]. split; [eapply finds_weaken; [|exact Hf]; cbv beta; tauto|].
    split; [intros _; exact (conj Hst (Hm eq_refl))|]. split; [exact Hst|reflexivity]. }
  rewrite (pending_record_of _ _ _ _ Hfo). pose proof Hst as [T O S G L _ _]. pose proof L as (Ht & _).
  destruct (record_of_block fs (active_slot s0) (shadow_slot s0) s0 (st_generation s0) (st_generation s + 1))
    as (block & r & Ew & Hb & Hpa & Hd); [exact Hg|exact Ht|exact S|exact G| |].
  { rewrite (fo_generation _ _ _ Hfo). unfold u32_ok, u32_max in *. lia. }
  assert (Hg0 : good (device c) 0 P) by (destruct (proj1 Hf 0 (or_introl eq_refl)) as [Hu|Hg0]; [by destruct Hp|exact Hg0]).
  destruct (write_mirrors_ok c _ block (active_slot s0) s0 P Htorn Hg T O Ew Hb (ex_intro _ r (conj Hpa Hd)) L Hg0
    (proj1 Hf 1 (or_intror eq_refl))) as (c1 & r1 & E1 & B1 & F1 & K1).
  exists c1, r1. pose proof (standing_behind _ _ _ Hg Hst B1) as Hst1. split; [exact E1|]. split; [exact F1|].
  split; [intros Hr; exact (conj Hst1 (K1 Hr))|]. split; [exact Hst1|apply B1].
Qed.

Lemma standing_sync c s0 : standing c s0 → standing c (with_needs_shadow_sync true s0).
Proof.
  intros [T O S G L A _]. split; [exact T|exact O|exact S|exact G| |exact A|intros a [=]].
  eapply loadable_tables; [|exact L]. by split.
Qed.

(** All three. *)
Lemma commit_writes_ok c s0 s P image : torn_detected → geometry_ok fs → ready c s0 P →
  follows (block_count (device c)) s0 s → encodes fs s image → st_generation s0 < u32_max →
  ∃ c' r, commit_writes fs c s image (st_generation s + 1) = Ret (c', r) ∧
    finds (device c') fs (λ t, P t ∨ t = s0 ∨ t = s) ∧
    (r = Ok () → clean c' (swap_slots s (st_generation s + 1))) ∧
    standing c' (with_needs_shadow_sync true s0).
Proof.
  intros Htorn Hg Hr Hfo He Hgen. unfold commit_writes.
  destruct (write_pending_ok c s0 s P Htorn Hg Hr Hfo Hgen) as (c1 & r1 & E1 & F1 & K1 & S1 & N1).
  unfold and_then at 1. rewrite E1, ret_bind. cbv beta iota. destruct r1 as [[]|e]; cycle 1.
  { exists c1, (Err e). split; [reflexivity|]. split; [eapply finds_weaken; [|exact F1]; cbv beta; tauto|].
    split; [intros [=]|exact (standing_sync _ _ S1)]. }
  rewrite <- N1 in Hfo.
  destruct (publish_ok c1 s0 s image Htorn Hg (K1 eq_refl) Hfo He Hgen) as (c2 & r2 & E2 & F2 & K2 & S2).
  exists c2, r2. split; [exact E2|]. split; [eapply finds_weaken; [|exact F2]; cbv beta; tauto|]. split; [exact K2|exact S2].
Qed.

(** [flush_metadata]. *)
Lemma flush_metadata_ok c s0 s P : torn_detected → geometry_ok fs → ready c s0 P →
  follows (block_count (device c)) s0 s →
  ∃ c' s' r, flush_metadata fs c s = Ret (c', s', r) ∧
    finds (device c') fs (λ t, P t ∨ t = s0 ∨ t = s) ∧
    (r = Ok () → clean c' s' ∧ s' = swap_slots s (st_generation s + 1)) ∧
    (is_ok r = false → s' = with_needs_shadow_sync true s) ∧ standing c' (with_needs_shadow_sync true s0).
Proof.
  intros Htorn Hg Hr Hfo. unfold flush_metadata, flush_metadata_inner.
  destruct (runtime_metadata_image_ok fs s Hg (fo_tables _ _ _ Hfo)) as (image & Ei & He). rewrite Ei, ret_bind.
  destruct (Z.leb_spec (st_generation s + 1) u32_max) as [Hgen|Hgen]; cycle 1.
  { eexists _, _, _. split; [reflexivity|]. split; [eapply finds_weaken; [|exact (rd_finds _ _ _ Hr)]; cbv beta; tauto|].
    split; [intros [=]|]. split; [reflexivity|]. exact (standing_sync _ _ (rd_standing _ _ _ Hr)). }
  cbv zeta. rewrite (fo_generation _ _ _ Hfo) in Hgen.
  destruct (commit_writes_ok c s0 s P image Htorn Hg Hr Hfo He ltac:(lia)) as (c1 & r1 & E1 & F1 & K1 & S1).
  rewrite E1, ret_bind. cbv beta iota. destruct r1 as [[]|e]; eexists _, _, _; (split; [reflexivity|]); (split; [exact F1|]).
  - split; [intros _; exact (conj (K1 eq_refl) eq_refl)|]. split; [intros [=]|exact S1].
  - split; [intros [=]|]. split; [reflexivity|exact S1].
Qed.

(** ** Updates *)

(** States with the same tables in the same slots. *)
Definition same_place (s s' : SimpleFsState) : Prop :=
  active_slot s' = active_slot s ∧ shadow_slot s' = shadow_slot s ∧ st_generation s' = st_generation s ∧
  needs_shadow_sync s' = needs_shadow_sync s.

Lemma standing_same c s s' : same_tables s s' → same_place s s' → standing c s → standing c s'.
Proof.
  intros Ht (Ea & Es & Eg & En) [T O S G L A B]. split; rewrite ?Ea, ?Es, ?Eg, ?En; [exact T|exact O|exact S|exact G| |exact A|exact B].
  exact (loadable_tables _ _ _ _ Ht L).
Qed.

(** What an update may do before it is committed: change the tables, within what
    the format represents, logging what it needs to take it back (as edits do), and
    write data blocks. *)
Record careful (c : cache) (s0 : SimpleFsState) (c1 : cache) (s1 : SimpleFsState) : Prop := mkCareful {
  ca_cache : confined c c1 (λ a, fs_data_block_start fs ≤ a);
  ca_place : same_place s0 s1;
  ca_inodes : Forall inode_ok (inodes s1);
  ca_dirents : Forall dirent_ok (dir_entries s1);
  ca_xattrs : Forall xattr_ok (xattrs s1);
  ca_capacity : supports_persistent_xattrs (fs_format_version fs) = true →
    Z.of_nat (length (xattrs s1)) ≤ fs_xattr_capacity fs;
  ca_xattr_count : u32_ok (Z.of_nat (length (xattrs s1)));
  ca_old_inodes : old_inode_count (undo s1) = Some (length (inodes s0));
  ca_old_dirents : old_dirent_count (undo s1) = Some (length (dir_entries s0));
  ca_old_xattrs : old_xattr_count (undo s1) = Some (length (xattrs s0));
  ca_rollback : same_tables s0 (rollback_undo s1);
}.

(** What the check before a commit establishes. *)
Lemma validated_follows c s0 c1 s1 : careful c s0 c1 s1 → validate_runtime_state fs (device c1) s1 = Ok () →
  follows (block_count (device c1)) s0 s1.
Proof.
  intros [_ (Ea & Es & Eg & En) Hi Hd Hx Hc Hn Oi Od Ox _] Hv. unfold validate_runtime_state in Hv.
  destruct (Z.ltb_spec (fs_inode_capacity fs) (Z.of_nat (length (inodes s1)))); [done|].
  destruct (Z.ltb_spec (fs_dirent_capacity fs) (Z.of_nat (length (dir_entries s1)))); [done|].
  cbn [orb] in Hv. destruct (validate_superblock_record _); [|done].
  destruct (validate_loaded_metadata _ _ _ _ _ _) as [[]|] eqn:E; [|done].
  split; try assumption; [by split_and!|by rewrite Oi|by rewrite Od|by rewrite Ox].
Qed.

Lemma slot_before_data x a : geometry_ok fs → slot_ok fs x → in_slot fs x a → a < fs_data_block_start fs.
Proof.
  intros (_ & Hgi & Hgd & Hgx & _) (_ & X1 & X2 & X3 & Xx) [Ha|[Ha|[Hv Ha]]]; unfold in_table in Ha;
    [lia|lia|]. destruct (Xx Hv). lia.
Qed.

Lemma loadable_data c c1 x s : geometry_ok fs → confined c c1 (λ a, fs_data_block_start fs ≤ a) →
  loadable (device c) fs x s → loadable (device c1) fs x s.
Proof.
  intros Hg HC (Ht & Hx & Hv & image & He & Hh). split; [exact Ht|]. split; [exact Hx|]. split.
  - unfold valid_for. rewrite (cf_count _ _ _ HC). exact Hv.
  - exists image. split; [exact He|]. eapply slot_holds_same; [|exact Hh]. intros a Ha. apply HC.
    pose proof (slot_before_data x a Hg Hx Ha). lia.
Qed.

Lemma finds_data c c1 P : geometry_ok fs → confined c c1 (λ a, fs_data_block_start fs ≤ a) →
  (∀ b, b = 0 ∨ b = 1 → content (device c1) b = content (device c) b) → finds (device c) fs P → finds (device c1) fs P.
Proof.
  intros Hg HC Hb [Hf Hn]. unfold finds, unreadable. rewrite !Hb by lia. split; [|exact Hn]. intros b Hbb.
  rewrite (Hb b Hbb). destruct (Hf b Hbb) as [Hu|(x & s & Ps & Hl & Hm)]; [left; exact Hu|]. right. exists x, s.
  split; [exact Ps|]. split; [exact (loadable_data _ _ _ _ Hg HC Hl)|exact (mirrors_content _ _ _ _ _ (Hb b Hbb) Hm)].
Qed.

(** Data blocks are none of the commit's. *)
Lemma ready_data c c1 s0 P : geometry_ok fs → confined c c1 (λ a, fs_data_block_start fs ≤ a) → ready c s0 P → ready c1 s0 P.
Proof.
  intros Hg HC [[T O S G L A B] Hf Hp Hm]. pose proof S as (Hx & Hy & _). pose proof Hg as (_ & Hgi & Hgd & _).
  assert (Hb : ∀ b, b = 0 ∨ b = 1 → content (device c1) b = content (device c) b).
  { intros b Hb. apply HC. destruct Hx as (_ & X1 & X2 & X3 & _). lia. }
  assert (Hag : ∀ x a, slot_ok fs x → in_slot fs x a → agrees c a → agrees c1 a).
  { intros x a Hox Ha. pose proof (slot_before_data x a Hg Hox Ha). pose proof (in_slot_bounds x a Hg Hox Ha).
    assert (2 ^ 33 < EMPTY_LBA) by done. apply (cf_agrees _ _ _ HC); lia. }
  split; [|exact (finds_data _ _ _ Hg HC Hb Hf)| |].
  - split; [apply HC|apply HC|exact S|exact G|exact (loadable_data _ _ _ _ Hg HC L)| |].
    + intros a Ha. apply (Hag _ _ Hx Ha), (A _ Ha).
    + intros a Hn Ha. apply (Hag _ _ Hy Ha), (B _ Hn Ha).
  - unfold unreadable. rewrite (Hb 0) by lia. exact Hp.
  - intros Hv. destruct (Hm Hv) as [M0 M1].
    split; [exact (mirrors_content _ _ _ _ _ (Hb 0 ltac:(lia)) M0)|exact (mirrors_content _ _ _ _ _ (Hb 1 ltac:(lia)) M1)].
Qed.

(** The medium as it is found when the power is back: every block as it was left,
    and the metadata can be read. *)
Record reopened (d d' : D) : Prop := mkReopened {
  ro_ok : med_ok d';
  ro_content a : content d' a = content d a;
  ro_count : block_count d' = block_count d;
  ro_answers : answers_metadata d' fs;
}.

Lemma finds_reopened d d' P : geometry_ok fs → reopened d d' → finds d fs P → ∃ s, P s ∧ mounts_as d' fs s.
Proof.
  intros Hg [O C N A] [Hf Hn]. apply finds_mounts; [exact O|exact Hg|exact A|].
  unfold finds, unreadable. rewrite !C. split; [|exact Hn]. intros b Hb. rewrite C.
  destruct (Hf b Hb) as [Hu|(x & s & Ps & Hl & Hm)]; [left; exact Hu|]. right. exists x, s. split; [exact Ps|].
  split; [exact (loadable_behind _ _ _ _ Hg (λ a _, C a) N Hl)|exact (mirrors_content _ _ _ _ _ (C b) Hm)].
Qed.

Lemma mounts_tables d s s' : same_tables s s' → mounts_as d fs s' → mounts_as d fs s.
Proof.
  intros (Ei & Ed & Ex) (d' & fs' & c' & t & Eo & El & Ev & Hi & Hd & Hx). exists d', fs', c', t.
  rewrite <- Ei, <- Ed, <- Ex. split; [exact Eo|]. split; [exact El|]. split; [exact Ev|]. split; [exact Hi|]. split; [exact Hd|exact Hx].
Qed.

(** What a commit leaves when it is refused: the tables in memory are those
    before it, and another commit may begin as long as the primary mirror can be
    read and the format has a pending mark. *)
Definition refused (c' : cache) (s0 s' : SimpleFsState) (P : SimpleFsState → Prop) : Prop :=
  same_tables s0 s' ∧ standing c' s' ∧
  (has_layout (fs_format_version fs) = true → ¬ unreadable (device c') 0 → ready c' s' P).

Lemma refused_rollback c c1 c' s0 s1 b P : careful c s0 c1 s1 →
  standing c' (with_needs_shadow_sync b s0) → finds (device c') fs P →
  refused c' s0 (rollback_undo (with_needs_shadow_sync b s1)) P.
Proof.
  intros Hc Hst Hf. pose proof (ca_rollback _ _ _ _ Hc) as Hr. pose proof (ca_place _ _ _ _ Hc) as (Ea & Es & Eg & _).
  assert (Hs : standing c' (rollback_undo (with_needs_shadow_sync b s1))).
  { eapply standing_same; [|split_and!|exact Hst]; [exact Hr|exact Ea|exact Es|exact Eg|reflexivity]. }
  split; [exact Hr|]. split; [exact Hs|]. intros Hv Hp. split; [exact Hs|exact Hf|exact Hp|]. intros Hv'. congruence.
Qed.

Lemma standing_unchanged c s : standing c s → standing c (with_needs_shadow_sync (needs_shadow_sync s) s).
Proof. apply standing_same; [by split|by split_and!]. Qed.

Lemma rollback_unchanged s : rollback_undo s = rollback_undo (with_needs_shadow_sync (needs_shadow_sync s) s).
Proof. by destruct s. Qed.

Lemma commit_update_ok {T} (mutate : cache → SimpleFsState → outcome (cache * SimpleFsState * result T)) c s0 P c1 s1 r1 :
  torn_detected → geometry_ok fs → ready c s0 P →
  mutate c (begin_undo s0) = Ret (c1, s1, r1) → careful c s0 c1 s1 →
  ∃ c' s' r, commit_metadata_update fs mutate c s0 = Ret (c', s', r) ∧
    finds (device c') fs (λ t, P t ∨ t = s0 ∨ t = s1) ∧
    (is_ok r = true → r = r1 ∧ clean c' s' ∧ same_tables s1 s') ∧
    (is_ok r = false → refused c' s0 s' (λ t, P t ∨ t = s0 ∨ t = s1)).
Proof.
  intros Htorn Hg Hr Em Hc. pose proof (ready_data _ _ _ _ Hg (ca_cache _ _ _ _ Hc) Hr) as Hr1.
  assert (Hf1 : finds (device c1) fs (λ t, P t ∨ t = s0 ∨ t = s1)) by (eapply finds_weaken; [|exact (rd_finds _ _ _ Hr1)]; cbv beta; tauto).
  assert (Hback : refused c1 s0 (rollback_undo s1) (λ t, P t ∨ t = s0 ∨ t = s1)).
  { rewrite rollback_unchanged. pose proof (ca_place _ _ _ _ Hc) as (_ & _ & _ & En). rewrite En.
    eapply refused_rollback; [exact Hc|exact (standing_unchanged _ _ (rd_standing _ _ _ Hr1))|exact Hf1]. }
  unfold commit_metadata_update. rewrite Em, ret_bind. cbv beta iota. destruct r1 as [a|e]; cycle 1.
  { eexists _, _, _. split; [reflexivity|]. split; [exact Hf1|]. split; [intros [=]|intros _; exact Hback]. }
  destruct (validate_runtime_state fs (device c1) s1) as [[]|e] eqn:Ev; cycle 1.
  { eexists _, _, _. split; [reflexivity|]. split; [exact Hf1|]. split; [intros [=]|intros _; exact Hback]. }
  destruct (flush_metadata_ok c1 s0 s1 P Htorn Hg Hr1 (validated_follows _ _ _ _ Hc Ev)) as (c2 & s2 & r2 & E2 & F2 & K2 & Q2 & S2).
  rewrite E2, ret_bind. cbv beta iota. destruct r2 as [[]|e]; eexists _, _, _; (split; [reflexivity|]); (split; [exact F2|]).
  - destruct (K2 eq_refl) as [[Hst [M0 M1]] ->]. split; [|intros [=]]. intros _. split; [reflexivity|].
    assert (Hsame : same_tables (swap_slots s1 (st_generation s1 + 1)) (commit_undo (swap_slots s1 (st_generation s1 + 1)))) by by split.
    split; [|by split]. split; [eapply standing_same; [exact Hsame|by split_and!|exact Hst]|].
    split; [exact (mirrors_tables _ _ _ _ _ Hsame M0)|exact (mirrors_tables _ _ _ _ _ Hsame M1)].
  - split; [intros [=]|]. intros _. rewrite (Q2 eq_refl). eapply refused_rollback; [exact Hc|exact S2|exact F2].
Qed.

(** A commit that went through is found. *)
Lemma clean_mounts c s d : geometry_ok fs → clean c s → reopened (device c) d → mounts_as d fs s.
Proof.
  intros Hg [Hst [M0 M1]] Hd. destruct (finds_reopened (device c) d (λ t, t = s) Hg Hd) as (t & -> & Hm); [|exact Hm].
  exact (finds_mirrors _ _ _ _ (sg_loadable _ _ Hst) eq_refl M0 M1).
Qed.


(** ** Commits after failed ones *)

(** The volume after any number of commits, the later ones perhaps failed: [l]
    has the tables that may be found. *)
Inductive attempts : cache → SimpleFsState → list SimpleFsState → Prop :=
| attempts_clean c s : clean c s → attempts c s [s]
| attempts_step {T} (mutate : cache → SimpleFsState → outcome (cache * SimpleFsState * result T)) c s0 l c1 s1 r1 c' s' r :
    attempts c s0 l → mutate c (begin_undo s0) = Ret (c1, s1, r1) → careful c s0 c1 s1 →
    commit_metadata_update fs mutate c s0 = Ret (c', s', r) → ¬ unreadable (device c') 0 →
    attempts c' s' (if is_ok r then [s'] else s0 :: s1 :: l).

Lemma attempts_ready c s l : torn_detected → geometry_ok fs → has_layout (fs_format_version fs) = true →
  attempts c s l → ready c s (λ t, t ∈ l).
Proof.
  intros Htorn Hg Hv Ha.
  assert (Hcl : ∀ c s, clean c s → ready c s (λ t, t ∈ [s])).
  { intros c0 t Hcl. destruct (clean_ready _ _ Hcl) as [A B C E]. split; [exact A| |exact C|exact E].
    eapply finds_weaken; [|exact B]. intros t' ->. by left. }
  induction Ha as [c s Hc|T mutate c s0 l c1 s1 r1 c' s' r Ha IH Em Hc Ec Hp]; [exact (Hcl _ _ Hc)|].
  destruct (commit_update_ok mutate c s0 _ c1 s1 r1 Htorn Hg IH Em Hc) as (c2 & s2 & r2 & E2 & F2 & K2 & Q2).
  rewrite E2 in Ec. injection Ec as -> -> ->. destruct r as [a|e]; cbn [is_ok] in *.
  - destruct (K2 eq_refl) as (_ & Hcl2 & _). exact (Hcl _ _ Hcl2).
  - destruct (Q2 eq_refl) as (_ & Hst & Hrd). destruct (Hrd Hv Hp) as [A B C E]. split; [exact A| |exact C|exact E].
    eapply finds_weaken; [|exact B]. intros t Ht. cbv beta in Ht. rewrite !elem_of_cons. tauto.
Qed.

(** C8. On a volume with a pending mark a commit may be tried again after failed ones:
    cut short at any write, it leaves tables of an attempt or of the last commit,
    never a mixture, and once it is answered what it wrote. *)
Theorem retried_commit_atomic {T} (mutate : cache → SimpleFsState → outcome (cache * SimpleFsState * result T)) c s0 l c1 s1 r1 :
  torn_detected → geometry_ok fs → has_layout (fs_format_version fs) = true → attempts c s0 l →
  mutate c (begin_undo s0) = Ret (c1, s1, r1) → careful c s0 c1 s1 →
  ∃ c' s' r, commit_metadata_update fs mutate c s0 = Ret (c', s', r) ∧
    (∀ d, reopened (device c') d → ∃ t, t ∈ s0 :: s1 :: l ∧ mounts_as d fs t) ∧
    (is_ok r = true → ∀ d, reopened (device c') d → mounts_as d fs s1).
Proof.
  intros Htorn Hg Hv Ha Em Hc.
  destruct (commit_update_ok mutate c s0 _ c1 s1 r1 Htorn Hg (attempts_ready _ _ _ Htorn Hg Hv Ha) Em Hc)
    as (c' & s' & r & E & F & K & _).
  exists c', s', r. split; [exact E|]. split.
  - intros d Hd. destruct (finds_reopened _ _ _ Hg Hd F) as (t & Ht & Hm). exists t. split; [|exact Hm]. cbv beta in Ht. rewrite !elem_of_cons. tauto.
  - intros Hr d Hd. destruct (K Hr) as (_ & Hcl' & Ht). exact (mounts_tables _ _ _ Ht (clean_mounts _ _ _ Hg Hcl' Hd)).
Qed.
End Commit.
