(* ===== verification/SfsPowerCut.v ===== *)
(** * A device that loses writes

    A medium of whole blocks whose writes follow a script: a block is written,
    lost, or torn, and a request ends at the first block that is not written.  It
    satisfies the contract of a medium, so the theorems on commits hold on it,
    and volumes on it show what they say: a commit that goes through, one that is
    torn while it is published and tried again, and, on a volume without a
    pending mark, a commit tried again that leaves a mixture. *)

From stdpp Require Import base tactics decidable numbers list gmap sorting.
From Stdlib Require Import ZArith Lia Bool.
From S2P Require Import Prelude Bytes Unicode Patch BlockDevice BlockCache BlockCacheInv CryptDevice BlockRuns.
From S2P Require Import SfsFormat SfsFormatTheorems SfsTree SfsState SfsCommit SfsCrash SfsCommitTheorems.

(** ** The device *)

Inductive Fate := Written | Lost | Torn.

Record CutDevice := mkCut { cut_blocks : list bytes; cut_script : list Fate }.

Definition torn_block : bytes := replicate BLOCK_SIZE 0.

(** The blocks of [run] are written from block [at_] on. *)
Fixpoint cut_run (blocks : list bytes) (script : list Fate) (at_ : nat) (run : list bytes)
    : list bytes * list Fate * result unit :=
  match run with
  | [] => (blocks, script, Ok ())
  | b :: run =>
      match script with
      | [] => cut_run (<[at_ := b]> blocks) [] (S at_) run
      | Written :: script => cut_run (<[at_ := b]> blocks) script (S at_) run
      | Lost :: script => (blocks, script, Err DeviceError)
      | Torn :: script => (<[at_ := torn_block]> blocks, script, Err DeviceError)
      end
  end.

Definition cut_range (d : CutDevice) (lba : Z) (len : nat) : bool :=
  (len mod BLOCK_SIZE =? 0)%nat && (0 <=? lba) &&
  (lba + Z.of_nat (len / BLOCK_SIZE) <=? Z.of_nat (length (cut_blocks d))).

Definition cut_read_blocks (d : CutDevice) (lba : Z) (len : nat) : outcome (CutDevice * result bytes) :=
  Ret (d, if cut_range d lba len
          then Ok (concat (take (len / BLOCK_SIZE) (drop (Z.to_nat lba) (cut_blocks d))))
          else Err InvalidArgument).

Definition cut_write_blocks (d : CutDevice) (lba : Z) (data : bytes) : outcome (CutDevice * result unit) :=
  if cut_range d lba (length data) then
    let '(blocks, script, r) := cut_run (cut_blocks d) (cut_script d) (Z.to_nat lba)
      (map (sector data) (seq 0 (length data / BLOCK_SIZE))) in
    Ret (mkCut blocks script, r)
  else Ret (d, Err InvalidArgument).

#[global] Instance cut_device : BlockDevice CutDevice := {
  block_size := default_block_size;
  block_count d := Z.of_nat (length (cut_blocks d));
  is_read_only d := false;
  read_blocks := cut_read_blocks;
  write_blocks := cut_write_blocks;
  queue_depth := default_queue_depth;
  submit_write := default_submit_write cut_write_blocks;
  poll := default_poll;
}.

#[global] Instance cut_health : HealthDevice CutDevice := { device_health _ := Healthy }.

(** ** Its contract *)

Lemma torn_sector : is_sector torn_block.
Proof. split; [apply length_replicate|]. by apply (bool_decide_unpack (is_bytes torn_block)); vm_compute. Qed.

(** What a run leaves: [blocks'] of [blocks]. *)
Record ran (blocks : list bytes) (at_ : nat) (run : list bytes) (blocks' : list bytes) (ok : bool) : Prop := mkRan {
  ran_length : length blocks' = length blocks;
  ran_outside j : (j < at_)%nat ∨ (at_ + length run ≤ j)%nat → blocks' !! j = blocks !! j;
  ran_sectors : Forall is_sector run → Forall is_sector blocks → Forall is_sector blocks';
  ran_inside i b : run !! i = Some b →
    if ok then blocks' !! (at_ + i)%nat = Some b
    else blocks' !! (at_ + i)%nat = blocks !! (at_ + i)%nat ∨ blocks' !! (at_ + i)%nat = Some b ∨
      blocks' !! (at_ + i)%nat = Some torn_block;
}.

Lemma ran_cons b run blocks at_ blocks' ok : (at_ < length blocks)%nat →
  ran (<[at_ := b]> blocks) (S at_) run blocks' ok → ran blocks at_ (b :: run) blocks' ok.
Proof.
  intros Hl [El Ho Hs Hi]. rewrite length_insert in El. split; [done| | |].
  - cbn [length]. intros j Hj. rewrite Ho by lia. apply list_lookup_insert_ne. lia.
  - intros [Hb Hr]%Forall_cons Hbs. apply Hs; [done|by apply Forall_insert].
  - intros [|i] b' Hb'; cbn in Hb'.
    + simplify_eq. rewrite Nat.add_0_r, Ho, list_lookup_insert_eq by lia. destruct ok; [done|by right; left].
    + specialize (Hi i b' Hb'). rewrite list_lookup_insert_ne in Hi by lia.
      by replace (at_ + S i)%nat with (S at_ + i)%nat by lia.
Qed.

Lemma cut_run_ok run : ∀ blocks script at_, (at_ + length run ≤ length blocks)%nat →
  ∃ blocks' script' r, cut_run blocks script at_ run = (blocks', script', r) ∧ ran blocks at_ run blocks' (is_ok r).
Proof.
  induction run as [|b run IH]; intros blocks script at_ Hl; cbn [cut_run length] in *.
  { exists blocks, script, (Ok ()). split; [done|]. by split. }
  assert (Hrec : ∀ script, ∃ blocks' script' r, cut_run (<[at_ := b]> blocks) script (S at_) run = (blocks', script', r) ∧
    ran blocks at_ (b :: run) blocks' (is_ok r)).
  { intros script'. destruct (IH (<[at_ := b]> blocks) script' (S at_)) as (bl & sc & r & E & R); [rewrite length_insert; lia|].
    exists bl, sc, r. split; [done|]. apply ran_cons; [lia|done]. }
  destruct script as [|[] script]; [apply Hrec|apply Hrec| |]; eexists _, _, _; (split; [reflexivity|]).
  - split; try done. intros i b' _. by left.
  - split; [by rewrite length_insert| | |]; cbn [length].
    + intros j Hj. apply list_lookup_insert_ne. lia.
    + intros _ Hbs. apply Forall_insert; [done|apply torn_sector].
    + intros i b' _. cbn [is_ok]. destruct (decide (i = 0%nat)) as [->|Hne]; [right; right|left; apply list_lookup_insert_ne; lia].
      rewrite Nat.add_0_r. apply list_lookup_insert_eq. lia.
Qed.

Definition cut_content (d : CutDevice) (a : Z) : bytes :=
  if 0 <=? a then default [] (cut_blocks d !! Z.to_nat a) else [].

Lemma sector_concat (l : list bytes) i b : Forall is_sector l → l !! i = Some b → sector (concat l) i = b.
Proof.
  intros Hl. revert i. induction Hl as [|x l [Hx _] _ IH]; intros i Hi; [done|].
  unfold sector, slice in *. cbn [concat]. destruct i as [|i]; cbn in Hi.
  - simplify_eq. rewrite Nat.mul_0_l, drop_0, Nat.add_0_l, Nat.sub_0_r. rewrite take_app_le by lia. apply firstn_all2. lia.
  - etrans; [|exact (IH i Hi)]. replace (S i * BLOCK_SIZE)%nat with (length x + i * BLOCK_SIZE)%nat by lia.
    rewrite drop_app_add. f_equal. lia.
Qed.

Lemma length_concat_sectors (l : list bytes) : Forall is_sector l → length (concat l) = (length l * BLOCK_SIZE)%nat.
Proof. induction 1 as [|x l [Hx _] _ IH]; [done|]. cbn [concat length]. rewrite length_app. lia. Qed.

Lemma cut_range_run d lba n : 0 ≤ lba →
  cut_range d lba (n * BLOCK_SIZE) = bool_decide (lba + Z.of_nat n ≤ Z.of_nat (length (cut_blocks d))).
Proof.
  intros Hl. unfold cut_range. rewrite Nat.Div0.mod_mul, Nat.div_mul by done. rewrite (proj2 (Z.leb_le _ _)) by lia. cbn.
  case_bool_decide; [apply Z.leb_le; lia|apply Z.leb_gt; lia].
Qed.

Definition cut_ok (d : CutDevice) : Prop := Forall is_sector (cut_blocks d).
Definition cut_readable (d : CutDevice) (a : Z) : bool := bool_decide (0 ≤ a < Z.of_nat (length (cut_blocks d))).

Lemma cut_read_ok d lba n : cut_ok d → 0 ≤ lba →
  ∃ d' r, cut_read_blocks d lba (n * BLOCK_SIZE) = Ret (d', r) ∧ cut_ok d' ∧
    (∀ a, cut_content d' a = cut_content d a) ∧ (∀ a, cut_readable d' a = cut_readable d a) ∧
    Z.of_nat (length (cut_blocks d')) = Z.of_nat (length (cut_blocks d)) ∧
    (cut_readable d lba = true → over_run (λ a, cut_readable d a = true) lba n → is_ok r = true) ∧
    ∀ data, r = Ok data → length data = (n * BLOCK_SIZE)%nat ∧
      ∀ i, (i < n)%nat → sector data i = cut_content d (lba + Z.of_nat i).
Proof.
  intros Hd Hl. unfold cut_read_blocks. rewrite cut_range_run, Nat.div_mul by done.
  eexists _, _. split; [reflexivity|]. split; [done|]. do 3 (split; [done|]). case_bool_decide as Hr; cycle 1.
  { split; [|done]. intros H0%bool_decide_eq_true Hover. destruct n as [|n]; [lia|].
    specialize (Hover n ltac:(lia)). apply bool_decide_eq_true in Hover. lia. }
  split; [done|]. intros data [= <-].
  assert (Hs : Forall is_sector (take n (drop (Z.to_nat lba) (cut_blocks d)))) by by apply Forall_take, Forall_drop.
  assert (Hn : length (take n (drop (Z.to_nat lba) (cut_blocks d))) = n) by (rewrite length_take, length_drop; lia).
  split; [by rewrite length_concat_sectors, Hn|]. intros i Hi. apply sector_concat; [done|].
  unfold cut_content. rewrite lookup_take_lt, lookup_drop by lia. rewrite (proj2 (Z.leb_le _ _)) by lia.
  replace (Z.to_nat (lba + Z.of_nat i)) with (Z.to_nat lba + i)%nat by lia.
  destruct (lookup_lt_is_Some_2 (cut_blocks d) (Z.to_nat lba + i)) as [b ->]; [lia|done].
Qed.

Lemma cut_write_ok d lba n data : cut_ok d → 0 ≤ lba → is_sectors n data →
  ∃ d' r, cut_write_blocks d lba data = Ret (d', r) ∧ cut_ok d' ∧
    (∀ a, a < lba ∨ lba + Z.of_nat n ≤ a → cut_content d' a = cut_content d a) ∧
    Z.of_nat (length (cut_blocks d')) = Z.of_nat (length (cut_blocks d)) ∧
    ∀ i, (i < n)%nat →
      if is_ok r then cut_content d' (lba + Z.of_nat i) = sector data i
      else partly (λ b, b = torn_block) (cut_content d (lba + Z.of_nat i)) (sector data i) (cut_content d' (lba + Z.of_nat i)).
Proof.
  intros Hd Hl [Hlen Hby]. unfold cut_write_blocks. rewrite Hlen, cut_range_run, Nat.div_mul by done.
  case_bool_decide as Hr; cycle 1.
  { eexists _, _. split; [reflexivity|]. split; [done|]. do 2 (split; [done|]). intros i Hi. by left. }
  set (run := map (sector data) (seq 0 n)). assert (Hn : length run = n) by (unfold run; by rewrite length_map, length_seq).
  destruct (cut_run_ok run (cut_blocks d) (cut_script d) (Z.to_nat lba)) as (bl & sc & r & -> & [El Ho Hs Hi]); [lia|].
  eexists _, _. split; [reflexivity|]. unfold cut_ok, cut_content. cbn [cut_blocks]. split; [|split; [|split; [lia|]]].
  - apply Hs; [|done]. apply Forall_map, Forall_forall. intros i Hin%elem_of_seq. split; [|by apply sector_bytes].
    unfold sector, slice. rewrite length_take, length_drop. unfold BLOCK_SIZE in *. lia.
  - intros a Ha. destruct (Z.leb_spec 0 a); [|done]. by rewrite Ho by lia.
  - intros i Hin. rewrite (proj2 (Z.leb_le _ _)) by lia.
    replace (Z.to_nat (lba + Z.of_nat i)) with (Z.to_nat lba + i)%nat by lia.
    specialize (Hi i (sector data i)). destruct r; cbn [is_ok] in *.
    + rewrite Hi; [done|]. unfold run. rewrite list_lookup_fmap, lookup_seq_lt by lia. done.
    + destruct Hi as [->|[->| ->]]; [unfold run; rewrite list_lookup_fmap, lookup_seq_lt by lia; done|by left|by right; left|by right; right].
Qed.

#[global] Program Instance cut_medium : Medium CutDevice := {
  med_ok := cut_ok; content := cut_content; damaged b := b = torn_block; readable := cut_readable;
}.
Next Obligation. intros d lba n Hd Hl _. by apply cut_read_ok. Qed.
Next Obligation. intros d lba n data Hd Hl _ Hs. by apply cut_write_ok. Qed.
Next Obligation. done. Qed.

Lemma cut_torn_detected : torn_detected (D := CutDevice).
Proof. intros b ->. by eexists; vm_compute. Qed.

(** ** A small volume *)

(** Two slots of an inode block and an entry block, and two data blocks. *)
Definition small_fs (v : SimpleFsFormatVersion) : SimpleFs := mkFs [118; 111; 108] v true 1 1 6 16 8 0 0.

Definition root_inode : OnDiskInode := mkInode Directory false 0 0 0 0 0 None 0 false false.

Definition small_state : SimpleFsState :=
  mkState [root_inode] [] 2 3 4 5 1 true [] [] [None] [None] [(6, 2)] [0%nat] UndoLog_default [] 0 0 ∅ ∅ ∅.

Definition small_image (v : SimpleFsFormatVersion) : RuntimeMetadataImage :=
  match runtime_metadata_image (small_fs v) small_state with Ret image => image | _ => mkImage [] [] [] end.

Definition small_superblock (v : SimpleFsFormatVersion) : bytes :=
  match write_superblock (fs_label (small_fs v)) v (runtime_superblock_record (small_fs v) small_state) with
  | Ret b => b
  | _ => []
  end.

Definition small_volume (v : SimpleFsFormatVersion) (script : list Fate) : BlockCache CutDevice :=
  with_read_ahead (mkCut ([small_superblock v; small_superblock v; inode_table (small_image v); dirent_table (small_image v)] ++
    replicate 4 torn_block) script) 4.

(** A file of [size] bytes in block [block]: its inode, and its entry in the root. *)
Definition add_file (v : SimpleFsFormatVersion) (name : bytes) (block size : Z) (s : SimpleFsState)
    : outcome (SimpleFsState * result unit) :=
  let '(s, r) := allocate_inode_slot (small_fs v) s (mkInode File false 0 0 block 1 size None 0 false false) in
  match r with
  | Err e => Ret (s, Err e)
  | Ok index => insert_dir_entry_locked (small_fs v) s 0 (mkDirent (Z.of_nat index) File name)
  end.

Definition adding (v : SimpleFsFormatVersion) (name : bytes) (block size : Z) (c : BlockCache CutDevice) (s : SimpleFsState)
    : outcome (BlockCache CutDevice * SimpleFsState * result unit) :=
  '(s, r) ← add_file v name block size s; Ret (c, s, r).

(** The state a computation ends in. *)
Definition state_of (o : outcome (SimpleFsState * result unit)) : SimpleFsState :=
  match o with Ret (s, _) => s | _ => small_state end.
Definition added (v : SimpleFsFormatVersion) (name : bytes) (block size : Z) : SimpleFsState :=
  state_of (add_file v name block size (begin_undo small_state)).

Lemma fresh_tidy (d : CutDevice) depth : tidy (with_read_ahead d depth).
Proof.
  split; [|split; [by apply Forall_replicate|cbn [with_read_ahead entries]; rewrite length_replicate; unfold CACHE_CAPACITY; lia]].
  intros i j e1 e2 H1 H2. apply lookup_replicate in H1 as [-> _]. done.
Qed.

Lemma fresh_agrees (d : CutDevice) depth a : a < EMPTY_LBA → agrees (with_read_ahead d depth) a.
Proof.
  intros Ha b. unfold cached. destruct (find_lba a _) as [[i e]|] eqn:E; [|done]. apply find_lba_Some in E as [Hi He].
  cbn [with_read_ahead entries] in Hi. apply lookup_replicate in Hi as [-> _]. cbn in He. lia.
Qed.

Definition slot_a : Slot := mkSlot 2 3 0.
Definition slot_b : Slot := mkSlot 4 5 0.

(** The versions without a table of attributes. *)
Definition plain (v : SimpleFsFormatVersion) : Prop := supports_persistent_xattrs v = false.

Lemma small_geometry v : plain v → geometry_ok (small_fs v).
Proof. intros Hv. destruct v; try done; repeat split; try done; repeat constructor; lia. Qed.

Lemma small_slots v : plain v → slots_ok (small_fs v) slot_a slot_b.
Proof.
  intros Hv. assert (Ho : ∀ x, x = slot_a ∨ x = slot_b → slot_ok (small_fs v) x).
  { intros x [->| ->]; unfold slot_ok, u32_ok; cbn; rewrite Hv; (split_and!; [lia|lia|lia|lia|lia|done]). }
  split; [apply Ho; by left|]. split; [apply Ho; by right|]. intros a. unfold in_slot, in_table. cbn. rewrite Hv. naive_solver lia.
Qed.

Lemma small_tables v : tables_ok (small_fs v) small_state.
Proof.
  split_and!; cbn; try lia; [|apply Forall_nil_2|apply Forall_nil_2|unfold u32_ok; lia].
  apply Forall_singleton. unfold inode_ok, u32_ok. cbn. split_and!; lia || done.
Qed.

Lemma small_loadable v script : plain v → loadable (device (small_volume v script)) (small_fs v) slot_a small_state.
Proof.
  intros Hv. split; [apply small_tables|]. split; [apply (small_slots v Hv)|]. split; [by destruct v; vm_compute|].
  destruct (runtime_metadata_image_ok (small_fs v) small_state (small_geometry v Hv) (small_tables v)) as (image & E & He).
  assert (image = small_image v) as -> by (unfold small_image; by rewrite E).
  exists (small_image v). split; [exact He|].
  unfold plain in Hv. split; [| |intros Hv'; change (fs_format_version (small_fs v)) with v in Hv'; congruence];
    intros i Hi; change (i < 1)%nat in Hi; assert (i = 0%nat) as -> by lia; destruct v; try discriminate; by vm_compute.
Qed.

Lemma small_mirrors v script b : plain v → b = 0 ∨ b = 1 →
  mirrors_slot (device (small_volume v script)) (small_fs v) b slot_a small_state.
Proof.
  intros Hv Hb. exists (stored_record v (runtime_superblock_record (small_fs v) small_state)). split; [|by split].
  destruct Hb as [->| ->], v; by vm_compute.
Qed.

Lemma small_clean v script : plain v → clean (small_fs v) (small_volume v script) small_state.
Proof.
  intros Hv. assert (2 ^ 33 < EMPTY_LBA) by done. pose proof (small_slots v Hv) as (Ha & Hb & _).
  split; [|split; apply small_mirrors; [exact Hv|by left|exact Hv|by right]]. split.
  - apply fresh_tidy.
  - by apply (bool_decide_unpack (Forall is_sector (cut_blocks (device (small_volume v []))))); destruct v; vm_compute.
  - by apply small_slots.
  - unfold u32_ok. cbn. lia.
  - by apply small_loadable.
  - intros a Hin. apply fresh_agrees. pose proof (in_slot_bounds _ _ a (small_geometry v Hv) Ha Hin). lia.
  - done.
Qed.

(** ** Updates of it *)

Lemma confined_refl (c : BlockCache CutDevice) R : tidy c → med_ok (device c) → confined c c R.
Proof. intros Ht Hm. by split. Qed.

(** The decidable part of what an update owes. *)
Definition careful_tables (v : SimpleFsFormatVersion) (s0 s1 : SimpleFsState) : Prop :=
  same_place s0 s1 ∧ Forall inode_ok (inodes s1) ∧ Forall dirent_ok (dir_entries s1) ∧ xattrs s1 = [] ∧
  old_inode_count (undo s1) = Some (length (inodes s0)) ∧ old_dirent_count (undo s1) = Some (length (dir_entries s0)) ∧
  old_xattr_count (undo s1) = Some (length (xattrs s0)) ∧ same_tables s0 (rollback_undo s1).

Lemma careful_update v c s0 s1 : plain v → tidy c → med_ok (device c) → careful_tables v s0 s1 →
  careful (small_fs v) c s0 c s1.
Proof.
  intros Hv Ht Hm (Hp & Hi & Hd & Hx & O1 & O2 & O3 & Hr).
  split; rewrite ?Hx; [by apply confined_refl|exact Hp|exact Hi|exact Hd|apply Forall_nil_2|cbn; by rewrite Hv| |exact O1|exact O2|exact O3|exact Hr].
  unfold u32_ok. cbn. lia.
Qed.

(** Its proof for a given state. *)
Ltac prove_careful :=
  match goal with |- careful_tables _ _ ?s => let t := eval vm_compute in s in replace s with t by (vm_compute; reflexivity) end;
  split_and!; try reflexivity;
  repeat first [apply Forall_nil_2 | apply Forall_cons_2];
  unfold inode_ok, dirent_ok, u32_ok; cbn [entry_start entry_count data_block i_block_count size data_checksum
    persistent_security inode_index name from_option];
  split_and!; try lia; try exact I; try reflexivity; [unfold DIRENT_SIZE; cbn; lia|repeat constructor; lia].

(** The files that are added. *)
Definition A_NAME : bytes := [97].
Definition B_NAME : bytes := [98].

Lemma added_a v : plain v → careful_tables v small_state (added v A_NAME 6 5).
Proof. destruct v; [intros _; prove_careful|intros _; prove_careful|discriminate]. Qed.
Lemma added_b v : plain v → careful_tables v small_state (added v B_NAME 7 9).
Proof. destruct v; [intros _; prove_careful|intros _; prove_careful|discriminate]. Qed.

Lemma adding_ok v name block size c : add_file v name block size (begin_undo small_state) = Ret (added v name block size, Ok ()) →
  adding v name block size c (begin_undo small_state) = Ret (c, added v name block size, Ok ()).
Proof. intros E. unfold adding. by rewrite E. Qed.

Notation V3 := V3PersistentSecurityDescriptors.

(** The primary mirror is torn when the commit is published. *)
Definition torn_at_the_end : list Fate := [Written; Written; Written; Written; Written; Torn].


(** The commit is lost before it reaches the primary mirror, and tried again with
    another file, which is lost among the tables. *)
Definition lost_twice : list Fate := [Written; Written; Written; Written; Written; Lost; Written; Written; Written; Lost].

(** What a commit ends with. *)
Definition result_of (o : outcome (BlockCache CutDevice * SimpleFsState * result unit)) : BlockCache CutDevice * SimpleFsState :=
  match o with Ret (c, s, _) => (c, s) | _ => (small_volume V2 [], small_state) end.

Definition first_try (v : SimpleFsFormatVersion) (script : list Fate) : BlockCache CutDevice * SimpleFsState :=
  result_of (commit_metadata_update (small_fs v) (adding v A_NAME 6 5) (small_volume v script) small_state).

Lemma first_try_fails : commit_metadata_update (small_fs V3) (adding V3 A_NAME 6 5) (small_volume V3 lost_twice) small_state =
  Ret ((first_try V3 lost_twice).1, (first_try V3 lost_twice).2, Err DeviceError).
Proof. vm_compute. reflexivity. Qed.

Definition tried_cache : BlockCache CutDevice := (first_try V3 lost_twice).1.
Definition tried_state : SimpleFsState := (first_try V3 lost_twice).2.
Definition second_file : SimpleFsState := state_of (add_file V3 B_NAME 7 9 (begin_undo tried_state)).

Lemma one_attempt : attempts (small_fs V3) tried_cache tried_state [small_state; added V3 A_NAME 6 5; small_state].
Proof.
  pose proof (small_clean V3 lost_twice eq_refl) as Hc.
  apply (attempts_step (small_fs V3) (adding V3 A_NAME 6 5) (small_volume V3 lost_twice) small_state [small_state]
    (small_volume V3 lost_twice) (added V3 A_NAME 6 5) (Ok ()) tried_cache tried_state (Err DeviceError)).
  - by apply attempts_clean.
  - apply adding_ok. vm_compute. reflexivity.
  - apply careful_update; [reflexivity|apply Hc|apply Hc|exact (added_a V3 eq_refl)].
  - exact first_try_fails.
  - intros [e He]. assert (Hok : is_ok (parse_superblock (content (device tried_cache) 0)) = true) by (vm_compute; reflexivity).
    by rewrite He in Hok.
Qed.

Lemma second_file_careful : careful_tables V3 tried_state second_file.
Proof.
  assert (E : tried_state = with_needs_shadow_sync true (rollback_undo (added V3 A_NAME 6 5))) by (vm_compute; reflexivity).
  unfold second_file. rewrite E. clear E.
  set (t := with_needs_shadow_sync _ _). let u := eval vm_compute in t in replace t with u by (vm_compute; reflexivity).
  prove_careful.
Qed.

Lemma retried_commit_atomic_witness : let fs := small_fs V3 in
  ∃ c' s' r, commit_metadata_update fs (adding V3 B_NAME 7 9) tried_cache tried_state = Ret (c', s', r) ∧
    (∀ d, reopened fs (device c') d → ∃ t, t ∈ [tried_state; second_file; small_state; added V3 A_NAME 6 5; small_state] ∧
      mounts_as d fs t) ∧
    (is_ok r = true → ∀ d, reopened fs (device c') d → mounts_as d fs second_file).
Proof.
  intros fs. pose proof (attempts_ready fs _ _ _ cut_torn_detected (small_geometry V3 eq_refl) eq_refl one_attempt) as [Hst _ _ _].
  apply (retried_commit_atomic fs (adding V3 B_NAME 7 9) tried_cache tried_state _ tried_cache second_file (Ok ())
    cut_torn_detected (small_geometry V3 eq_refl) eq_refl one_attempt).
  - unfold adding. assert (E : add_file V3 B_NAME 7 9 (begin_undo tried_state) = Ret (second_file, Ok ())) by (vm_compute; reflexivity).
    rewrite E. reflexivity.
  - apply careful_update; [reflexivity|apply Hst|apply Hst|exact second_file_careful].
Defined.

(** ** A volume without a pending mark *)

(** The first commit is lost before the primary mirror, the second among the tables. *)
Definition lost_in_v2 : list Fate := [Written; Written; Written; Lost; Written; Lost].

Definition second_try : BlockCache CutDevice * SimpleFsState :=
  result_of (commit_metadata_update (small_fs V2) (adding V2 B_NAME 7 9) (first_try V2 lost_in_v2).1 (first_try V2 lost_in_v2).2).

(** The tables a mount finds. *)
Definition tables_found (o : outcome (CutDevice * result (SimpleFs * BlockCache CutDevice * SimpleFsState)))
    : option (list OnDiskInode * list OnDiskDirEntry) :=
  match o with Ret (_, Ok (_, _, s)) => Some (inodes s, dir_entries s) | _ => None end.

Lemma tables_found_Some o tables : tables_found o = Some tables →
  ∃ d fs c s, o = Ret (d, Ok (fs, c, s)) ∧ inodes s = tables.1 ∧ dir_entries s = tables.2.
Proof. destruct o as [[d [[[fs c] s]|e]]| |]; try done. intros [= <-]. by exists d, fs, c, s. Qed.

(** C34. On a V2 volume a commit tried again is not atomic: the one before it had
    published slot B in the secondary mirror, and the tables of the second are
    written over them.  Power lost then leaves a volume that mounts with the file
    of the first commit, which was refused, on the block of the second's. *)
Theorem v2_retry_mixes : let fs := small_fs V2 in let c := small_volume V2 lost_in_v2 in
  clean fs c small_state ∧ careful fs c small_state c (added V2 A_NAME 6 5) ∧
  ∃ c1 s1 c2 s2 d fs' c' s',
    commit_metadata_update fs (adding V2 A_NAME 6 5) c small_state = Ret (c1, s1, Err DeviceError) ∧
    same_tables small_state s1 ∧
    commit_metadata_update fs (adding V2 B_NAME 7 9) c1 s1 = Ret (c2, s2, Err DeviceError) ∧
    same_tables small_state s2 ∧
    open (device c2) true = Ret (d, Ok (fs', c', s')) ∧
    dir_entries s' = dir_entries (added V2 A_NAME 6 5) ∧ inodes s' = inodes (added V2 B_NAME 7 9) ∧
    inodes s' ≠ inodes (added V2 A_NAME 6 5) ∧ dir_entries s' ≠ dir_entries (added V2 B_NAME 7 9).
Proof.
  intros fs c. pose proof (small_clean V2 lost_in_v2 eq_refl) as Hc. split; [exact Hc|].
  split; [apply careful_update; [reflexivity|apply Hc|apply Hc|exact (added_a V2 eq_refl)]|].
  destruct (tables_found_Some (open (device second_try.1) true) (inodes (added V2 B_NAME 7 9), dir_entries (added V2 A_NAME 6 5)))
    as (d & fs' & c' & s' & Eo & Ei & Ed); [vm_compute; reflexivity|].
  exists (first_try V2 lost_in_v2).1, (first_try V2 lost_in_v2).2, second_try.1, second_try.2, d, fs', c', s'.
  rewrite Ei, Ed. cbn [fst snd]. split; [vm_compute; reflexivity|]. split; [split_and!; vm_compute; reflexivity|].
  split; [vm_compute; reflexivity|]. split; [split_and!; vm_compute; reflexivity|]. split; [exact Eo|]. split; [reflexivity|]. split; [reflexivity|].
  split; intros E; vm_compute in E; discriminate E.
Qed.
